(* ===== verification/_CoqProject ===== *)
-Q . S2P
Prelude.v
Identifiers.v
Postgres.v
LimitPolicy.v
LocalLimiter.v
Budget.v
BudgetStore.v
BudgetInvariant.v
BudgetHistory.v
BudgetTheorems.v
Circuit.v
CircuitTheorems.v
Unicode.v
Encoding.v
ApiError.v
Correlation.v
VirtualKey.v
VirtualKeyTheorems.v
KeyAuth.v
KeyLifecycle.v
JSON.v
JSONDecode.v
Catalog.v
ProviderRegistry.v
ProviderSecret.v
RoutePolicy.v
Retry.v
Metering.v
Execution.v
ExecutionStore.v
ExecutionTheorems.v
MeteringCost.v
Adapter.v
OpenAIAdapter.v
OpenAIRequest.v
MeteringOutbox.v
MeteringOutboxTheorems.v
MeteringLedger.v
MeteringLedgerTheorems.v
MeteringPipeline.v
StreamBuffer.v
StreamFailover.v
StreamTimeout.v
StreamUsage.v
TPM.v
RouteFilter.v
Redis.v
RedisRPM.v
RedisRPMTheorems.v
RedisTPM.v
RedisTPMTheorems.v
RedisTPMProperties.v
RedisConcurrency.v
RedisConcurrencyTheorems.v
RedisConcurrencyProperties.v
PassiveHealth.v
SSE.v
OpenAIStream.v
OpenAIStreamTheorems.v
GatewayOutcome.v
RouteDecision.v
RouteDecisionStore.v
GatewayFailover.v
GatewayExecution.v
ActiveHealth.v
TokenEstimate.v
GatewayExecutors.v
OpenAIUpstream.v
JSONFraming.v
JSONAny.v
ConfigSnapshot.v
ChatRequest.v
ChatShape.v
ChatRequestTheorems.v
GatewayHandler.v
