(* ===== verification/Prelude.v ===== *)
(** * Verification of the AI gateway platform

    The repository is a gateway between applications and LLM providers, written in
    Go. This library models the packages under src/internal that decide what the
    gateway does with a request and with the money and usage behind it, and proves
    what they promise to each other.

    ** How the parts interact

    A request passes these parts in this order.

    - internal/correlation gives it an identity and a trace; internal/keyauth
      authenticates its virtual key, which internal/virtualkey issued, through a cache.
    - internal/gateway (chat_request.go, chat_normalize.go) parses the body and
      normalises it into the model of internal/adapter; handler.go opens the execution
      record of internal/execution.
    - internal/limitpolicy resolves a stack of policies (platform, tenant, project,
      key) into thresholds; internal/limits enforces them in one process (local.go)
      and across replicas with Redis scripts (requests, tokens, concurrency);
      internal/tokenestimate estimates the tokens. internal/budget holds money: Reserve
      places a hold, Settle replaces it by the actual cost, Reap expires holds whose
      owner vanished.
    - internal/catalog describes models, deployments and providers; internal/routing
      filters the candidates and selects one by policy. The circuit breaker, passive
      health and internal/activehealth are its health readers. internal/routedecision
      records and replays the decisions.
    - gateway/failover.go runs the attempts that internal/retry allows, through the
      executors of gateway/circuit_breaker.go, gateway/passive_health.go and
      internal/proxy, which build an adapter from internal/provideradapter. The OpenAI
      adapter (internal/openaiadapter) sends the call with a credential that
      internal/providersecret unseals.
    - A streamed answer passes internal/sse, the OpenAI stream, and the buffer,
      timeout, failover, heartbeat and usage parts of internal/streaming.
    - internal/metering derives usage events, which the recorder writes to an outbox in
      the same transaction; internal/meteringoutbox relays them to the bus;
      internal/meteringconsumer prices each one once into the ledger;
      internal/meteringadjustment corrects it; internal/meteringcost adds up the bill.
    - internal/config distributes configuration snapshots between goroutines.

    ** Files

    Foundations:
    - [Prelude]: results, 64-bit integers, time, contexts, sums, tactics.
      [Identifiers], [Unicode], [Encoding]: the regular expressions, UTF-8 rules and byte
      encodings the packages use, on strings of bytes. [Postgres], [Redis]: what a
      statement of the database or a command of the server may do. [ApiError]
      (apierror/error.go): public errors.
    - [JSON], [JSONDecode], [JSONFraming], [JSONAny]: encoding/json as the code uses it:
      the scanner, decoding into strings, numbers, structs and maps, the facts about
      values inside a text, and the round trip of values of any kind.

    Admission:
    - [LimitPolicy] (limitpolicy/model.go): [Resolve_refines_spec].
    - [LocalLimiter] (limits/local.go): the limiter, its interleavings, and
      [Acquire_all_or_nothing].
    - [RedisRPM], [RedisRPMTheorems] (limits/redis_rpm.go); [TPM] (limits/tpm.go),
      [RedisTPM], [RedisTPMTheorems], [RedisTPMProperties] (limits/redis_tpm.go);
      [RedisConcurrency], [RedisConcurrencyTheorems], [RedisConcurrencyProperties]
      (limits/redis_concurrency.go): the Lua scripts and their clients; the limits hold
      over every interleaving of replicas, and the concurrency scripts refine a table of
      leases.
    - [TokenEstimate] (tokenestimate): estimates do not depend on the cache.
    - [Budget], [BudgetStore], [BudgetInvariant], [BudgetHistory], [BudgetTheorems]
      (budget): the transactions over explicit tables and their histories; conservation
      of money, replay of the ledger, the hard limit, idempotency, finality.

    Credentials and identities:
    - [VirtualKey], [VirtualKeyTheorems] (virtualkey), [KeyAuth] (keyauth),
      [KeyLifecycle]: only genuine credentials are accepted, issued ones
      authenticate, and changes of a key reach the gateway.
    - [ProviderSecret] (providersecret): a stored secret resolves to itself, and only for
      its provider.
    - [Correlation] (correlation/correlation.go): live requests are told apart, and traces
      continue across services.

    Routing and execution:
    - [Catalog], [ProviderRegistry] (catalog, provideradapter), [RoutePolicy],
      [RouteFilter] (routing/policy.go, filter.go, selector.go, composite_health.go),
      [RouteDecision], [RouteDecisionStore] (routedecision): soundness, explanation and
      progress of a selection; recorded explanations are replayed, with their times to the
      microsecond. Readers and random sources are the classes [HealthReader],
      [EligibilityReader] and [RandomSource].
    - [Circuit], [CircuitTheorems] (routing/circuit_breaker.go), [PassiveHealth]
      (routing/passive_health.go), [ActiveHealth] (activehealth): state machines over
      interleaved calls; what an eviction does to the limit on probes.
    - [Retry] (retry/classifier.go): the exact condition of another attempt.
    - [Execution], [ExecutionStore], [ExecutionTheorems] (execution): the recorder, and
      what its tables keep in every reachable state.
    - [GatewayOutcome] (gateway/chat_response.go, execution_record.go and the error
      mappings), [GatewayFailover] (gateway/failover.go), [GatewayExecution]: the failover
      loop against the interface [Environment], then against the recorder: answers match
      the record. [GatewayExecutors]: the wrapped executors against the class [Upstream];
      each call completes its permit with the outcome of its answer.
    - [ChatRequest], [ChatShape], [ChatRequestTheorems], [GatewayHandler]: parsing,
      normalisation and the handlers; every handled request is recorded, and the two
      reasons for which the handler panics.
    - [Adapter] (adapter/model.go, validate.go): the normalized model. [OpenAIAdapter],
      [OpenAIRequest], [OpenAIUpstream]: the OpenAI adapter as an instance of [Upstream].

    Streams:
    - [SSE] (sse): the stream a client decodes is the sequence of messages written.
      [OpenAIStream], [OpenAIStreamTheorems] (openaiadapter/stream.go): streams are orderly.
    - [StreamBuffer], [StreamFailover], [StreamTimeout], [StreamUsage] (streaming): the
      buffer and the timeout controller as interleaved goroutines, one attempt behind the
      client's output, genuine timeouts.

    Metering:
    - [Metering], [MeteringCost] (metering, meteringcost/model.go): exact prices and sums.
    - [MeteringOutbox], [MeteringOutboxTheorems] (meteringoutbox): nothing is lost, and the
      outbox drains. [MeteringLedger], [MeteringLedgerTheorems] (meteringconsumer,
      meteringadjustment): priced once, corrections add up. [MeteringPipeline]
      (meteringcost/postgres.go and the composition): every usage event is billed once, and
      the bill is complete and exact.

    Configuration:
    - [ConfigSnapshot] (config/snapshot.go): documents are canonical, versions only
      advance, waiters are woken.

    ** Conventions

    A Go [(value, error)] is a [result]; error wrapping that only adds text is
    dropped, error values that callers can distinguish are constructors. A w-bit
    integer is a [Z]; where an operation could wrap, the wrap-around is written out
    ([u64_add], [u64_sub], [i64], saturating increments) and a theorem shows that it
    does not happen. A time is its number of nanoseconds since Go's zero time. A
    mutex-protected method is one atomic step; where goroutines also share channels,
    timers or atomic values ([StreamTimeout], [StreamBuffer], [ConfigSnapshot]), each
    access is a step. Methods on nil receivers, which only return an error, are not
    modelled; a nil context is the constructor [ctx_nil]. Clone methods copy values and
    have no counterpart in a pure model.

    Fuel. Loops with a bound of their own take that bound: [reserve_loop],
    [settle_loop] and [reapNext] take MaxAttempts, [reap_loop] takes BatchSize, the
    failover loop takes MaximumAttempts. The decoder of [SSE] has one turn more than
    the input has bytes ([sse_decoder_total]: it never runs out), the provider stream one
    per byte of input ([openai_streams_are_orderly]: every call returns), the shape scan
    of a request twice the length plus two ([shape_check_is_exact]: it never runs out), a
    JSON value of any kind the length plus one ([decode_any_total], [floats_decoded]). The remaining
    recursion is structural.

    Databases. The budget, consumer and adjustment transactions run at READ COMMITTED:
    each read sees a committed snapshot of its own, writes are applied at commit to the
    state their row locks protect. Statement and commit failures, the clock, skipped
    locks and generated identities are arguments, so the theorems hold for each of them.
    Constraints and triggers of the migrations are part of the statements. A timestamptz
    column keeps microseconds: [RouteDecisionStore] models the rounding (class
    [TimestampColumn]), the budget store truncates its times itself ([postgresTime]); in
    the other tables a stored time is the time that the statement was given.

    Parameters (code outside src/): SHA-256 and HMAC-SHA-256, AES-256-GCM (class [AEAD]),
    url.Parse, mime.ParseMediaType, http.ParseTime, json.Marshal of structs (class
    [DecisionJSON] for the columns of [RouteDecisionStore]), the UUID and
    random sources, the order in which Go visits a map ([range], [pick]), the replies of
    Kafka, the provider behind the network (class [World]), the candidate source, the
    policy resolver and the external secret backends. Interfaces of the code are classes:
    [Environment], [Services], [Intake], [Upstream], [IDGenerator].

    ** Not modelled

    The PostgreSQL stores of the catalog (plain queries behind interfaces that are
    parameters here), the control plane's handlers (HTTP over modelled
    services), the mock provider and its adapter (a test double that copies the OpenAI
    adapter), reading the environment (config/config.go), the HTTP servers and their
    shutdown, logging, the network client, the canary and conformance tools, and the
    process wiring under src/cmd, apart from the optional secret resolver. *)
From Stdlib Require Import ZArith Lia Bool Ascii String.
From stdpp Require Import base tactics option list strings gmap fin_maps sets.

(** ** Notations of the development *)
Declare Scope gateway_scope.
Delimit Scope gateway_scope with gw.
Global Open Scope Z_scope.
Global Open Scope gateway_scope.

(** ** Results: a Go [(value, error)] pair whose value is meaningful only when
    the error is nil. *)
Inductive result (T E : Type) : Type :=
| Ok (value : T)
| Err (error : E).
Arguments Ok {T E} value.
Arguments Err {T E} error.

Definition result_bind {T U E : Type} (r : result T E) (k : T -> result U E) : result U E :=
  match r with Ok v => k v | Err e => Err e end.

Notation "'let?' x ':=' c 'in' k" := (result_bind c (fun x => k))
  (at level 10, x name, c at level 100, k at level 200) : gateway_scope.
Notation "'let?' ' p ':=' c 'in' k" := (result_bind c (fun x => match x with p => k end))
  (at level 10, p strict pattern, c at level 100, k at level 200, only parsing) : gateway_scope.

(** [ensure c else e in k] is Go's [if !c { return e }] followed by [k]. *)
Notation "'ensure' c 'else' e 'in' k" := (if c then k else Err e)
  (at level 10, c at level 100, e at level 100, k at level 200) : gateway_scope.

Lemma bind_Ok {A B E : Type} (r : result A E) (k : A -> result B E) b : result_bind r k = Ok b -> exists a, r = Ok a /\ k a = Ok b.
Proof. destruct r as [a|]; simpl; [by exists a|done]. Qed.

Lemma ensure_Ok {T E : Type} (c : bool) (e : E) (k : result T E) v : (ensure c else e in k) = Ok v -> c = true /\ k = Ok v.
Proof. by destruct c. Qed.

Definition is_ok {T E : Type} (r : result T E) : bool :=
  match r with Ok _ => true | Err _ => false end.

#[export] Instance result_eq_dec {T E : Type} `{EqDecision T, EqDecision E} : EqDecision (result T E).
Proof. solve_decision. Defined.

(** ** Machine integers: a w-bit Go integer is a [Z] in its range; the operations
    below write out the wrap-around of Go's unsigned arithmetic. *)
Definition u64_max : Z := 18446744073709551615.
Definition u32_max : Z := 4294967295.
Definition i64_max : Z := 9223372036854775807.
Definition i64_min : Z := -9223372036854775808.

Definition u64 (z : Z) : Z := z mod 18446744073709551616.
Definition u64_add (a b : Z) : Z := u64 (a + b).
Definition u64_sub (a b : Z) : Z := u64 (a - b).
Definition in_u64 (z : Z) : Prop := 0 <= z <= u64_max.

Lemma u64_small z : in_u64 z -> u64 z = z.
Proof. unfold in_u64, u64, u64_max. intros. apply Z.mod_small. lia. Qed.

Lemma u64_add_small a b : 0 <= a -> 0 <= b -> a + b <= u64_max -> u64_add a b = a + b.
Proof. intros. apply u64_small. unfold in_u64. lia. Qed.

Lemma u64_sub_small a b : 0 <= b -> b <= a -> a <= u64_max -> u64_sub a b = a - b.
Proof. intros. apply u64_small. unfold in_u64. lia. Qed.

Lemma u64_range z : in_u64 (u64 z).
Proof. unfold in_u64, u64, u64_max. pose proof (Z.mod_pos_bound z 18446744073709551616). lia. Qed.

(** Signed 64-bit wrap-around, and Go's division, which truncates toward zero. *)
Definition i64 (z : Z) : Z := (z + 9223372036854775808) mod 18446744073709551616 - 9223372036854775808.

Lemma i64_small z : i64_min <= z <= i64_max -> i64 z = z.
Proof. unfold i64, i64_min, i64_max. intros. rewrite Z.mod_small; lia. Qed.

(** The largest integer represented exactly by an IEEE-754 double, which bounds
    every amount, counter and token count that crosses Redis Lua or JSON. *)
Definition exact_max : Z := 9007199254740991.

(** ** Time: [time.Time] as nanoseconds since Go's zero time (January 1, year 1
    UTC), [time.Duration] as nanoseconds. *)
Definition Time := Z.
Definition Duration := Z.

Definition microsecond : Duration := 1000.
Definition millisecond : Duration := 1000000.
Definition second : Duration := 1000000000.
Definition minute : Duration := 60000000000.
Definition hour : Duration := 3600000000000.

(** Nanoseconds from the zero time to the Unix epoch. *)
Definition unix_epoch : Time := 62135596800 * 1000000000.

Definition time_is_zero (t : Time) : bool := t =? 0.
Definition time_before (a b : Time) : bool := a <? b.
Definition time_after (a b : Time) : bool := b <? a.
Definition time_add (t : Time) (d : Duration) : Time := t + d.
Definition time_truncate (t : Time) (d : Duration) : Time := if d <=? 0 then t else t - t mod d.

(** [Time.Sub] saturates at the ends of the 64-bit duration range. *)
Definition time_sub (a b : Time) : Duration := Z.max i64_min (Z.min i64_max (a - b)).

(** ** Contexts: the state of a [context.Context] when a call inspects it. *)
Inductive ctx_error := Canceled | DeadlineExceeded.
Inductive Context := ctx_nil | ctx_live | ctx_done (cause : ctx_error).

#[export] Instance ctx_error_eq_dec : EqDecision ctx_error.
Proof. solve_decision. Defined.

(** ** Sums *)
Fixpoint sum_by {A : Type} (f : A -> Z) (l : list A) : Z :=
  match l with
  | [] => 0
  | x :: l' => f x + sum_by f l'
  end.

Lemma sum_by_app {A} (f : A -> Z) l1 l2 : sum_by f (l1 ++ l2) = sum_by f l1 + sum_by f l2.
Proof. induction l1; simpl; lia. Qed.

Lemma sum_by_nonneg {A} (f : A -> Z) l : (forall x, x ∈ l -> 0 <= f x) -> 0 <= sum_by f l.
Proof.
  induction l as [|x l IH]; simpl; intros H; [lia|].
  assert (0 <= f x) by (apply H; left).
  assert (0 <= sum_by f l) by (apply IH; intros; apply H; by right). lia.
Qed.

Lemma sum_by_ext {A} (f g : A -> Z) l : (forall x, x ∈ l -> f x = g x) -> sum_by f l = sum_by g l.
Proof.
  induction l as [|x l IH]; simpl; intros H; [done|].
  rewrite (H x) by left. rewrite IH; [done|]. intros; apply H; by right.
Qed.

Lemma sum_by_insert {A} (f : A -> Z) (l : list A) i x y :
  l !! i = Some x -> sum_by f (<[i := y]> l) = sum_by f l - f x + f y.
Proof.
  revert i; induction l as [|z l IH]; intros [|i]; simpl; try done.
  - intros [= ->]. lia.
  - intros H. rewrite (IH _ H). lia.
Qed.


Lemma sum_by_lookup {A} (f : A -> Z) (l : list A) i x :
  (forall y, 0 <= f y) -> l !! i = Some x -> f x <= sum_by f l.
Proof.
  intros Hf. revert i; induction l as [|z l IH]; intros [|i]; simpl; try done.
  - intros [= ->]. pose proof (sum_by_nonneg f l (fun y _ => Hf y)). lia.
  - intros H. pose proof (IH _ H). specialize (Hf z). lia.
Qed.


Lemma sum_by_zero {A} (l : list A) : sum_by (fun _ => 0) l = 0.
Proof. induction l; simpl; lia. Qed.

Lemma sum_by_swap {A B} (f : A -> B -> Z) (l : list A) (k : list B) :
  sum_by (fun a => sum_by (f a) k) l = sum_by (fun b => sum_by (fun a => f a b) l) k.
Proof.
  induction l as [|a l IH]; simpl; [by rewrite sum_by_zero|]. rewrite IH. clear IH.
  induction k as [|b k IH]; simpl; [done|]. rewrite <- IH. lia.
Qed.

Lemma sum_by_Permutation {A} (f : A -> Z) (l k : list A) : l ≡ₚ k -> sum_by f l = sum_by f k.
Proof. induction 1; simpl; lia. Qed.

Lemma sum_by_add {A} (f g : A -> Z) (l : list A) : sum_by (fun x => f x + g x) l = sum_by f l + sum_by g l.
Proof. induction l; simpl; lia. Qed.

Lemma sum_by_filter {A} (P : A -> Prop) `{forall x, base.Decision (P x)} (f : A -> Z) (l : list A) :
  sum_by f (filter P l) = sum_by (fun x => if decide (P x) then f x else 0) l.
Proof. induction l as [|x l IH]; [done|]. rewrite filter_cons. simpl. destruct (decide (P x)); simpl; lia. Qed.

(** A sum with one summand. *)
Lemma sum_by_only {A} (f : A -> Z) (l : list A) i x :
  l !! i = Some x -> (forall j y, l !! j = Some y -> j <> i -> f y = 0) -> sum_by f l = f x.
Proof.
  revert i; induction l as [|y l IH]; intros [|i]; simpl; try done.
  - intros [= ->] H. rewrite (sum_by_ext _ (fun _ => 0)), sum_by_zero; [lia|].
    intros z (j & Hj)%list_elem_of_lookup. by apply (H (S j)).
  - intros Hi H. rewrite (IH i Hi); [|intros j z Hj Hne; apply (H (S j)); [done|congruence]].
    by rewrite (H 0%nat y).
Qed.

Lemma four {A : Type} (l : list A) : length l = 4%nat -> exists a b c d, l = [a; b; c; d].
Proof. destruct l as [|a [|b [|c [|d [|]]]]]; try done. intros _. by exists a, b, c, d. Qed.

(** ** Sums over finite maps *)
Definition map_sum {K A : Type} `{Countable K} (f : K -> A -> Z) (m : gmap K A) : Z := map_fold (fun k x acc => f k x + acc) 0 m.

Lemma map_sum_empty {K A : Type} `{Countable K} (f : K -> A -> Z) : map_sum f ∅ = 0.
Proof. unfold map_sum. by rewrite map_fold_empty. Qed.

Lemma map_sum_new {K A : Type} `{Countable K} (f : K -> A -> Z) (m : gmap K A) k x :
  m !! k = None -> map_sum f (<[k := x]> m) = f k x + map_sum f m.
Proof. intros Hk. unfold map_sum. rewrite map_fold_insert_L; [done|intros; lia|done]. Qed.

Lemma map_sum_insert {K A : Type} `{Countable K} (f : K -> A -> Z) (m : gmap K A) k x y :
  m !! k = Some x -> map_sum f (<[k := y]> m) = map_sum f m - f k x + f k y.
Proof.
  intros Hk. rewrite <- insert_delete_eq. rewrite <- (insert_delete_id m k x Hk) at 2.
  rewrite !map_sum_new by apply lookup_delete_eq. lia.
Qed.

Lemma map_sum_ind {K A : Type} `{Countable K} (P : Z -> Prop) (f : K -> A -> Z) (m : gmap K A) :
  P 0 -> (forall k x z, m !! k = Some x -> P z -> P (f k x + z)) -> P (map_sum f m).
Proof.
  induction m as [|k x m Hk IH] using map_ind; intros H0 Hs; [by rewrite map_sum_empty|]. rewrite map_sum_new by done.
  apply Hs; [by rewrite lookup_insert_eq|]. apply IH; [done|]. intros k' x' z Hk'. apply Hs. rewrite lookup_insert_ne; [done|]. congruence.
Qed.

Lemma map_sum_zero {K A : Type} `{Countable K} (f : K -> A -> Z) (m : gmap K A) :
  (forall k x, m !! k = Some x -> f k x = 0) -> map_sum f m = 0.
Proof. intros Hf. apply (map_sum_ind (fun z => z = 0)); [done|]. intros k x z Hk ->. by rewrite (Hf _ _ Hk). Qed.

Lemma map_sum_nonneg {K A : Type} `{Countable K} (f : K -> A -> Z) (m : gmap K A) :
  (forall k x, m !! k = Some x -> 0 <= f k x) -> 0 <= map_sum f m.
Proof. intros Hf. apply map_sum_ind; [done|]. intros k x z Hk Hz. specialize (Hf _ _ Hk). lia. Qed.

Lemma map_sum_ge {K A : Type} `{Countable K} (f : K -> A -> Z) (m : gmap K A) k x :
  (forall k x, m !! k = Some x -> 0 <= f k x) -> m !! k = Some x -> f k x <= map_sum f m.
Proof.
  intros Hf Hk. rewrite <- (insert_delete_id m k x Hk), map_sum_new by apply lookup_delete_eq.
  enough (0 <= map_sum f (delete k m)) by lia. apply map_sum_nonneg. intros k' x' [_ Hk']%lookup_delete_Some. eauto.
Qed.

(** ** Decision tactics *)

(** Turn boolean tests and [bool_decide] in the context into propositions. *)
Ltac prop_hyps :=
  repeat match goal with
  | H : _ && _ = true |- _ => apply andb_true_iff in H; destruct H
  | H : _ || _ = false |- _ => apply orb_false_iff in H; destruct H
  | H : negb _ = true |- _ => apply negb_true_iff in H
  | H : negb _ = false |- _ => apply negb_false_iff in H
  | H : (_ <? _) = true |- _ => apply Z.ltb_lt in H
  | H : (_ <? _) = false |- _ => apply Z.ltb_ge in H
  | H : (_ <=? _) = true |- _ => apply Z.leb_le in H
  | H : (_ <=? _) = false |- _ => apply Z.leb_gt in H
  | H : (_ =? _) = true |- _ => apply Z.eqb_eq in H
  | H : (_ =? _) = false |- _ => apply Z.eqb_neq in H
  | H : bool_decide _ = true |- _ => apply bool_decide_eq_true in H
  | H : bool_decide _ = false |- _ => apply bool_decide_eq_false in H
  end.

(** The same for a goal that states the outcome of boolean tests. *)
Ltac prop_goal :=
  repeat match goal with
  | |- _ && _ = true => apply andb_true_iff; split
  | |- _ || _ = false => apply orb_false_iff; split
  | |- negb _ = true => apply negb_true_iff
  | |- negb _ = false => apply negb_false_iff
  | |- (_ <? _) = true => apply Z.ltb_lt
  | |- (_ <? _) = false => apply Z.ltb_ge
  | |- (_ <=? _) = true => apply Z.leb_le
  | |- (_ <=? _) = false => apply Z.leb_gt
  | |- (_ =? _) = true => apply Z.eqb_eq
  | |- (_ =? _) = false => apply Z.eqb_neq
  | |- bool_decide _ = true => apply bool_decide_eq_true_2
  | |- bool_decide _ = false => apply bool_decide_eq_false_2
  end.

(** Case on the tests of the [if]s and [match]es of the goal and hypotheses. *)
Ltac split_tests :=
  repeat (case_match; simplify_eq/=; prop_hyps).

Create HintDb gw.
