(* ===== verification/Identifiers.v ===== *)
(** * Identifier patterns

    The regular expressions with which the gateway's packages validate
    identifiers (UUIDs, opaque references, currencies, actors), as executable
    matchers over byte strings. Every pattern of the code is anchored at both
    ends and is either a fixed sequence of character classes or one leading class
    followed by a bounded repetition, so two matchers cover them all. *)
From Stdlib Require Import ZArith Lia Bool Ascii String.
From stdpp Require Import base tactics option list strings gmap fin_maps sets.
From S2P Require Import Prelude.
Definition char_class := ascii -> bool.

Definition code (c : ascii) : N := N_of_ascii c.
Definition between (lo hi : ascii) : char_class :=
  fun c => (N.leb (code lo) (code c) && N.leb (code c) (code hi))%bool.
Definition one_of (s : string) : char_class :=
  fun c => match String.index 0 (String c EmptyString) s with Some _ => true | None => false end.
Definition or_class (a b : char_class) : char_class := fun c => a c || b c.

Definition lower : char_class := between "a" "z".
Definition upper : char_class := between "A" "Z".
Definition digit : char_class := between "0" "9".
Definition alnum : char_class := or_class upper (or_class lower digit).
Definition hex : char_class := or_class digit (between "a" "f").

(** [^c1c2...cn$] *)
Fixpoint match_classes (cs : list char_class) (s : string) : bool :=
  match cs, s with
  | [], EmptyString => true
  | c :: cs', String a s' => c a && match_classes cs' s'
  | _, _ => false
  end.

Fixpoint all_chars (c : char_class) (s : string) : bool :=
  match s with
  | EmptyString => true
  | String a s' => c a && all_chars c s'
  end.

(** [^h t{lo,hi}$] *)
Definition match_head_tail (h t : char_class) (lo hi : nat) (s : string) : bool :=
  match s with
  | EmptyString => false
  | String a s' =>
      h a && all_chars t s' && Nat.leb lo (String.length s') && Nat.leb (String.length s') hi
  end.

Definition dash : char_class := one_of "-".

(** [^[0-9a-f]{8}-[0-9a-f]{4}-[1-8][0-9a-f]{3}-[89ab][0-9a-f]{3}-[0-9a-f]{12}$] *)
Definition uuidPattern : string -> bool :=
  match_classes
    (replicate 8 hex ++ [dash] ++ replicate 4 hex ++ [dash] ++ [between "1" "8"] ++ replicate 3 hex ++
     [dash] ++ [one_of "89ab"] ++ replicate 3 hex ++ [dash] ++ replicate 12 hex).

(** [^[A-Za-z0-9][A-Za-z0-9._:/-]{0,127}$] *)
Definition refPattern : string -> bool :=
  match_head_tail alnum (or_class alnum (one_of "._:/-")) 0 127.

(** [^[A-Za-z0-9][A-Za-z0-9._:-]{7,127}$] *)
Definition requestIDPattern : string -> bool :=
  match_head_tail alnum (or_class alnum (one_of "._:-")) 7 127.

(** [^[A-Z]{3}$] *)
Definition currencyPattern : string -> bool := match_classes (replicate 3 upper).

(** [^[a-z0-9][a-z0-9-]{0,62}$] *)
Definition regionPattern : string -> bool :=
  match_head_tail (or_class lower digit) (or_class (or_class lower digit) dash) 0 62.

(** [len(v) >= 1 && len(v) <= 200 && v[0] != ' ' && v[len(v)-1] != ' '] *)
Definition validActor (value : string) : bool :=
  match String.length value with
  | O => false
  | S n =>
      Nat.leb (String.length value) 200 &&
      bool_decide (String.get 0 value <> Some " "%char) &&
      bool_decide (String.get n value <> Some " "%char)
  end.

(** ** Facts the components share *)
Lemma match_classes_length cs s : match_classes cs s = true -> String.length s = List.length cs.
Proof.
  revert s; induction cs as [|c cs IH]; intros [|a s]; simpl; try done.
  intros [_ H]%andb_true_iff. by rewrite (IH s H).
Qed.

Lemma uuidPattern_length s : uuidPattern s = true -> String.length s = 36%nat.
Proof. intros H. by apply match_classes_length in H. Qed.

(** A UUID is never the empty string, so the empty optional identifiers of a
    scope are told apart from present ones. *)
Lemma uuidPattern_nonempty s : uuidPattern s = true -> s <> ""%string.
Proof. intros H ->. by apply uuidPattern_length in H. Qed.

Lemma refPattern_nonempty s : refPattern s = true -> s <> ""%string.
Proof. by intros H ->. Qed.

(** A string matched by a sequence of classes contains only bytes of those classes;
    in particular a UUID contains no separator of a composite key. *)
Lemma match_classes_all (c : char_class) cs s :
  (forall d a, d ∈ cs -> d a = true -> c a = true) ->
  match_classes cs s = true -> all_chars c s = true.
Proof.
  revert s; induction cs as [|d cs IH]; intros [|a s] Hc; simpl; try done.
  intros [Hd H]%andb_true_iff. rewrite (Hc d a) by (done || left). simpl.
  apply IH; [|done]. intros d' a' Hin. apply Hc. by right.
Qed.

#[export] Hint Resolve uuidPattern_nonempty refPattern_nonempty : gw.

(** ** Byte-wise order of strings *)
Lemma ascii_compare_trans a b c : Ascii.compare a b = Lt -> Ascii.compare b c = Lt -> Ascii.compare a c = Lt.
Proof. unfold Ascii.compare. rewrite !N.compare_lt_iff. lia. Qed.

Lemma ascii_compare_eq a b : Ascii.compare a b = Eq -> a = b.
Proof. apply Ascii.compare_eq_iff. Qed.

Lemma string_compare_trans s : forall t u, String.compare s t = Lt -> String.compare t u = Lt -> String.compare s u = Lt.
Proof.
  induction s as [|a s IH]; intros [|b t] [|c u]; simpl; try done.
  destruct (Ascii.compare a b) eqn:Eab; try done; destruct (Ascii.compare b c) eqn:Ebc; try done; intros H1 H2.
  - apply ascii_compare_eq in Eab as ->. rewrite Ebc. eauto.
  - apply ascii_compare_eq in Eab as ->. by rewrite Ebc.
  - apply ascii_compare_eq in Ebc as <-. by rewrite Eab.
  - by rewrite (ascii_compare_trans _ _ _ Eab Ebc).
Qed.

Lemma string_ltb_true s t : String.ltb s t = true <-> String.compare s t = Lt.
Proof. unfold String.ltb. by destruct (String.compare s t). Qed.

(** Comparisons that order their type up to [Eq], and their lexicographic product. *)
Record ordering {A : Type} (cmp : A -> A -> comparison) : Prop := {
  ord_antisym : forall a b, cmp a b = CompOpp (cmp b a);
  ord_eq : forall a b c, cmp a b = Eq -> cmp b c = cmp a c;
  ord_trans : forall a b c, cmp a b = Lt -> cmp b c = Lt -> cmp a c = Lt }.
Arguments ord_antisym {A cmp} _ a b.
Arguments ord_eq {A cmp} _ a b c _.
Arguments ord_trans {A cmp} _ a b c _ _.

Definition lex {A : Type} (c1 c2 : A -> A -> comparison) (a b : A) : comparison :=
  match c1 a b with Eq => c2 a b | o => o end.

Lemma ordering_eq_l {A} (cmp : A -> A -> comparison) a b c : ordering cmp -> cmp b c = Eq -> cmp a b = cmp a c.
Proof. intros Ho Hbc. rewrite (ord_antisym Ho a b), (ord_antisym Ho a c). f_equal. symmetry. by rewrite (ord_eq Ho _ _ a Hbc). Qed.

Lemma ordering_Z {A} (f : A -> Z) : ordering (fun a b => Z.compare (f a) (f b)).
Proof.
  split; [intros; apply Z.compare_antisym|intros a b c H%Z.compare_eq; by rewrite H|].
  intros a b c. rewrite !Z.compare_lt_iff. lia.
Qed.

Lemma ordering_string {A} (f : A -> string) : ordering (fun a b => String.compare (f a) (f b)).
Proof.
  split; [intros; apply String.compare_antisym|intros a b c H%String.compare_eq_iff; by rewrite H|].
  intros a b c. apply string_compare_trans.
Qed.

Lemma ordering_lex {A} (c1 c2 : A -> A -> comparison) : ordering c1 -> ordering c2 -> ordering (lex c1 c2).
Proof.
  intros O1 O2. split; unfold lex.
  - intros a b. rewrite (ord_antisym O1 a b). destruct (c1 b a); simpl; try done. apply (ord_antisym O2).
  - intros a b c. destruct (c1 a b) eqn:E; try done. intros H. rewrite (ord_eq O1 _ _ c E). destruct (c1 a c); try done.
    by apply (ord_eq O2).
  - intros a b c. destruct (c1 a b) eqn:E1; try done; destruct (c1 b c) eqn:E2; try done; intros H1 H2.
    + rewrite <- (ord_eq O1 _ _ c E1), E2. by eapply (ord_trans O2).
    + by rewrite <- (ord_eq O1 _ _ c E1), E2.
    + by rewrite <- (ordering_eq_l c1 a b c O1 E2), E1.
    + by rewrite (ord_trans O1 _ _ _ E1 E2).
Qed.

(** "Not smaller" is transitive. *)
Lemma ordering_negative_trans {A} (cmp : A -> A -> comparison) a b c :
  ordering cmp -> cmp b a <> Lt -> cmp c b <> Lt -> cmp c a <> Lt.
Proof.
  intros O Hba Hcb Hca. rewrite (ord_antisym O) in Hba, Hcb. destruct (cmp a b) eqn:E1; try done.
  - rewrite <- (ordering_eq_l cmp c b a O) in Hca; [|by rewrite (ord_antisym O), E1].
    rewrite (ord_antisym O) in Hca. by destruct (cmp b c).
  - destruct (cmp b c) eqn:E2; try done.
    + rewrite (ord_antisym O), <- (ordering_eq_l cmp a b c O E2), E1 in Hca. done.
    + rewrite (ord_antisym O), (ord_trans O _ _ _ E1 E2) in Hca. done.
Qed.
