(* ===== verification/Postgres.v ===== *)
(** * PostgreSQL as the transactions see it

    PostgreSQL is not under src/: what a statement may do besides its effect is fail
    with an error code of the server or in the driver, and a commit may fail with the
    transaction applied or not. *)
From Stdlib Require Import ZArith String.
From stdpp Require Import base list strings gmap sorting.
From S2P Require Import Prelude.
Inductive db_failure := PqError (code constraint : string) | DriverError.

(** [fl_begin]: BeginTx fails; [fl_statement n]: the n-th statement fails; [fl_commit]:
    the commit (or the reply of a single statement) fails, with the effect applied or
    not. *)
Record Faults := { fl_begin : bool; fl_statement : nat -> option db_failure; fl_commit : option bool }.
Definition no_faults : Faults := {| fl_begin := false; fl_statement := fun _ => None; fl_commit := None |}.

Section Statements.
Context {S A E : Type}.

(** The [n]-th statement of a transaction, its failures translated by [mapped]. *)
Definition statement (faults : Faults) (n : nat) (mapped : db_failure -> E) (r : result A db_failure) : result A E :=
  match fl_statement faults n with
  | Some failure => Err (mapped failure)
  | None => match r with Ok a => Ok a | Err failure => Err (mapped failure) end
  end.

(** A statement outside a transaction commits itself. *)
Definition autocommit (faults : Faults) (unavailable : E) (s : S) (r : result (S * A) E) : S * result A E :=
  match r with
  | Err e => (s, Err e)
  | Ok (s', a) =>
      match fl_commit faults with
      | None => (s', Ok a)
      | Some applied => (if applied then s' else s, Err unavailable)
      end
  end.

Definition in_transaction (faults : Faults) (unavailable : E) (s : S) (r : result (S * A) E) : S * result A E :=
  if fl_begin faults then (s, Err unavailable) else autocommit faults unavailable s r.

Lemma autocommit_cases faults unavailable s r :
  (exists s' a, r = Ok (s', a) /\ (autocommit faults unavailable s r).1 = s' /\
    ((autocommit faults unavailable s r).2 = Ok a \/ (autocommit faults unavailable s r).2 = Err unavailable)) \/
  ((autocommit faults unavailable s r).1 = s /\ exists e, (autocommit faults unavailable s r).2 = Err e).
Proof.
  unfold autocommit. destruct r as [[s' a]|e]; [|right; eauto]. destruct (fl_commit faults) as [[]|]; [left|right|left]; eauto 7.
Qed.

Lemma in_transaction_cases faults unavailable s r :
  (exists s' a, r = Ok (s', a) /\ (in_transaction faults unavailable s r).1 = s' /\
    ((in_transaction faults unavailable s r).2 = Ok a \/ (in_transaction faults unavailable s r).2 = Err unavailable)) \/
  ((in_transaction faults unavailable s r).1 = s /\ exists e, (in_transaction faults unavailable s r).2 = Err e).
Proof. unfold in_transaction. destruct (fl_begin faults); [right; eauto|apply autocommit_cases]. Qed.

(** A reply without error is backed by the effect. *)
Lemma in_transaction_ok faults unavailable s r s' a :
  in_transaction faults unavailable s r = (s', Ok a) -> r = Ok (s', a).
Proof. unfold in_transaction, autocommit. destruct (fl_begin faults); [done|]. destruct r as [[s1 b]|]; [|done]. destruct (fl_commit faults); [done|]. by intros [= -> ->]. Qed.

Lemma autocommit_ok faults unavailable s r s' a :
  autocommit faults unavailable s r = (s', Ok a) -> r = Ok (s', a).
Proof. unfold autocommit. destruct r as [[s1 b]|]; [|done]. destruct (fl_commit faults); [done|]. by intros [= -> ->]. Qed.
End Statements.

Lemma statement_ok {A E} faults n (mapped : db_failure -> E) (r : result A db_failure) a : statement faults n mapped r = Ok a -> r = Ok a.
Proof. unfold statement. destruct (fl_statement faults n); [done|]. destruct r; [|done]. by intros [= ->]. Qed.
