(* ===== verification/LimitPolicy.v ===== *)
(** * Hierarchical limit policies (src/internal/limitpolicy/model.go)

    Sparse RPM, TPM and concurrency overrides are resolved in the fixed order
    Platform, Tenant, Project, Key. The file models the stored policy, the
    inheritance stack and [Resolve], and proves that resolution picks, for each
    boundary on its own, the most specific layer that defines it. *)
From Stdlib Require Import ZArith Lia Bool.
From stdpp Require Import base tactics option list strings gmap fin_maps sets.
From S2P Require Import Prelude Identifiers.
(** ** Data *)
Definition MaximumValue : Z := 9007199254740991.

Inductive Status := StatusActive | StatusDisabled | StatusOther (value : string).
Inductive Source := SourcePlatform | SourceTenant | SourceProject | SourceKey | SourceOther (value : string).

#[export] Instance Source_eq_dec : EqDecision Source.
Proof. solve_decision. Defined.
#[export] Instance Status_eq_dec : EqDecision Status.
Proof. solve_decision. Defined.

Record Threshold := { Soft : option Z; Hard : option Z }.
Record Limits := { RPM : Threshold; TPM : Threshold; Concurrency : Threshold }.

Record Policy := {
  policy_ID : string; policy_TenantID : string; policy_Reference : string;
  policy_Status : Status; policy_Limits : Limits; policy_Version : Z;
  policy_CreatedAt : Time; policy_CreatedBy : string;
  policy_UpdatedAt : Time; policy_UpdatedBy : string;
  policy_DisabledAt : option Time }.

Record Stack := { Platform : Limits; Tenant : option Limits; Project : option Limits; Key : option Limits }.

Record EffectiveThreshold := { eff_Soft : Z; eff_Hard : Z; SoftSource : Source; HardSource : Source }.
Record Effective := { eff_RPM : EffectiveThreshold; eff_TPM : EffectiveThreshold; eff_Concurrency : EffectiveThreshold }.

#[export] Instance EffectiveThreshold_eq_dec : EqDecision EffectiveThreshold.
Proof. solve_decision. Defined.
#[export] Instance Effective_eq_dec : EqDecision Effective.
Proof. solve_decision. Defined.

Inductive error := ErrInvalid.

(** ** Operations *)
Definition validValue (value : Z) : bool := (0 <? value) && (value <=? MaximumValue).

Definition validSource (source : Source) : bool :=
  match source with
  | SourcePlatform | SourceTenant | SourceProject | SourceKey => true
  | SourceOther _ => false
  end.

Definition opt_valid (v : option Z) : bool := match v with Some x => validValue x | None => true end.

Definition threshold_override_ok (threshold : Threshold) : bool :=
  opt_valid (Soft threshold) && opt_valid (Hard threshold) &&
  match Soft threshold, Hard threshold with Some s, Some h => s <=? h | _, _ => true end.

Definition validateOverride (limits : Limits) : bool :=
  forallb threshold_override_ok [RPM limits; TPM limits; Concurrency limits].

Definition threshold_concrete (threshold : Threshold) : bool :=
  match Soft threshold, Hard threshold with Some _, Some _ => true | _, _ => false end.

Definition validateBase (limits : Limits) : bool :=
  validateOverride limits && forallb threshold_concrete [RPM limits; TPM limits; Concurrency limits].

Definition threshold_empty (threshold : Threshold) : bool :=
  match Soft threshold, Hard threshold with None, None => true | _, _ => false end.

Definition empty (limits : Limits) : bool :=
  threshold_empty (RPM limits) && threshold_empty (TPM limits) && threshold_empty (Concurrency limits).

Definition threshold_valid (threshold : EffectiveThreshold) : bool :=
  validValue (eff_Soft threshold) && validValue (eff_Hard threshold) &&
  (eff_Soft threshold <=? eff_Hard threshold) &&
  validSource (SoftSource threshold) && validSource (HardSource threshold).

Definition Effective_Validate (effective : Effective) : bool :=
  forallb threshold_valid [eff_RPM effective; eff_TPM effective; eff_Concurrency effective].

Definition Policy_Validate (policy : Policy) : bool :=
  uuidPattern (policy_ID policy) && uuidPattern (policy_TenantID policy) &&
  refPattern (policy_Reference policy) &&
  bool_decide (policy_Status policy = StatusActive \/ policy_Status policy = StatusDisabled) &&
  (1 <=? policy_Version policy) &&
  negb (time_is_zero (policy_CreatedAt policy)) &&
  negb (time_before (policy_UpdatedAt policy) (policy_CreatedAt policy)) &&
  validActor (policy_CreatedBy policy) && validActor (policy_UpdatedBy policy) &&
  negb (empty (policy_Limits policy)) && validateOverride (policy_Limits policy) &&
  Bool.eqb (bool_decide (policy_Status policy = StatusDisabled)) (bool_decide (is_Some (policy_DisabledAt policy))) &&
  match policy_DisabledAt policy with
  | Some at_ => negb (time_before at_ (policy_CreatedAt policy))
  | None => true
  end.

(** [*threshold.Soft] of a base threshold, which [validateBase] made concrete. *)
Definition deref (v : option Z) : Z := match v with Some x => x | None => 0 end.

Definition baseThreshold (threshold : Threshold) : EffectiveThreshold :=
  {| eff_Soft := deref (Soft threshold); eff_Hard := deref (Hard threshold);
     SoftSource := SourcePlatform; HardSource := SourcePlatform |}.

Definition applyThreshold (effective : EffectiveThreshold) (override : Threshold) (source : Source) : EffectiveThreshold :=
  let e1 := match Soft override with
            | Some s => {| eff_Soft := s; eff_Hard := eff_Hard effective;
                           SoftSource := source; HardSource := HardSource effective |}
            | None => effective end in
  match Hard override with
  | Some h => {| eff_Soft := eff_Soft e1; eff_Hard := h; SoftSource := SoftSource e1; HardSource := source |}
  | None => e1
  end.

(** One iteration of the layer loop of [Resolve]. *)
Definition resolve_layer (effective : Effective) (source : Source) (layer : option Limits) : result Effective error :=
  match layer with
  | None => Ok effective
  | Some limits =>
      ensure (negb (empty limits || negb (validateOverride limits))) else ErrInvalid in
      Ok {| eff_RPM := applyThreshold (eff_RPM effective) (RPM limits) source;
            eff_TPM := applyThreshold (eff_TPM effective) (TPM limits) source;
            eff_Concurrency := applyThreshold (eff_Concurrency effective) (Concurrency limits) source |}
  end.

Definition Resolve (stack : Stack) : result Effective error :=
  ensure (validateBase (Platform stack)) else ErrInvalid in
  let base := {| eff_RPM := baseThreshold (RPM (Platform stack));
                 eff_TPM := baseThreshold (TPM (Platform stack));
                 eff_Concurrency := baseThreshold (Concurrency (Platform stack)) |} in
  let? e1 := resolve_layer base SourceTenant (Tenant stack) in
  let? e2 := resolve_layer e1 SourceProject (Project stack) in
  let? e3 := resolve_layer e2 SourceKey (Key stack) in
  ensure (Effective_Validate e3) else ErrInvalid in
  Ok e3.

(** ** Reference definition: the most specific layer that defines a boundary *)
Definition layers (stack : Stack) : list (Source * Limits) :=
  match Key stack with Some l => [(SourceKey, l)] | None => [] end ++
  match Project stack with Some l => [(SourceProject, l)] | None => [] end ++
  match Tenant stack with Some l => [(SourceTenant, l)] | None => [] end ++
  [(SourcePlatform, Platform stack)].

Fixpoint most_specific (boundary : Limits -> option Z) (ls : list (Source * Limits)) : option (Z * Source) :=
  match ls with
  | [] => None
  | (source, limits) :: ls' =>
      match boundary limits with
      | Some v => Some (v, source)
      | None => most_specific boundary ls'
      end
  end.

Definition spec_threshold (res : Limits -> Threshold) (stack : Stack) : option EffectiveThreshold :=
  match most_specific (fun l => Soft (res l)) (layers stack),
        most_specific (fun l => Hard (res l)) (layers stack) with
  | Some (s, ss), Some (h, hs) => Some {| eff_Soft := s; eff_Hard := h; SoftSource := ss; HardSource := hs |}
  | _, _ => None
  end.

(** Every layer of the stack is well formed on its own: a concrete base and
    non-empty, ordered overrides. *)
Definition stack_ok (stack : Stack) : bool :=
  validateBase (Platform stack) &&
  forallb (fun o => match o with Some l => negb (empty l) && validateOverride l | None => true end)
    [Tenant stack; Project stack; Key stack].

(** The reference resolution: pick every boundary independently, then demand that
    each resource keeps its soft boundary at or below its hard boundary. *)
Definition resolve_spec (stack : Stack) : option Effective :=
  match spec_threshold RPM stack, spec_threshold TPM stack, spec_threshold Concurrency stack with
  | Some r, Some t, Some c =>
      if stack_ok stack && (eff_Soft r <=? eff_Hard r) && (eff_Soft t <=? eff_Hard t) && (eff_Soft c <=? eff_Hard c)
      then Some {| eff_RPM := r; eff_TPM := t; eff_Concurrency := c |}
      else None
  | _, _, _ => None
  end.

(** ** Lemmas *)
Definition overlay (res : Limits -> Threshold) (e : EffectiveThreshold) (layer : option Limits) (source : Source) :=
  match layer with Some l => applyThreshold e (res l) source | None => e end.

Definition overlays (res : Limits -> Threshold) (stack : Stack) : EffectiveThreshold :=
  overlay res (overlay res (overlay res (baseThreshold (res (Platform stack)))
    (Tenant stack) SourceTenant) (Project stack) SourceProject) (Key stack) SourceKey.

(** Applying the layers outside in is picking the most specific boundary. *)
Lemma overlays_spec res stack :
  threshold_concrete (res (Platform stack)) = true ->
  spec_threshold res stack = Some (overlays res stack).
Proof.
  destruct stack as [p t pr k]. unfold spec_threshold, overlays, overlay, layers, baseThreshold, threshold_concrete; simpl.
  destruct (res p) as [[sp|] [hp|]] eqn:Ep; try done; intros _.
  destruct k as [k|], pr as [pr|], t as [t|]; simpl; rewrite ?Ep; unfold applyThreshold; simpl;
    repeat match goal with |- context [res ?l] => destruct (res l) as [[?|] [?|]]; simpl end; done.
Qed.

Lemma most_specific_sound boundary ls v s :
  (forall s' l, (s', l) ∈ ls -> opt_valid (boundary l) = true /\ validSource s' = true) ->
  most_specific boundary ls = Some (v, s) -> validValue v = true /\ validSource s = true.
Proof.
  induction ls as [|[s' l] ls IH]; simpl; [done|]. intros Hall Hms.
  destruct (boundary l) as [x|] eqn:E.
  - simplify_eq. destruct (Hall s l) as [H1 H2]; [left|]. rewrite E in H1. done.
  - apply IH; [|done]. intros; apply Hall; by right.
Qed.

(** Well-formed stacks only carry valid boundaries, whichever resource is read. *)
Lemma stack_ok_layers stack (res : Limits -> Threshold) s l :
  (res = RPM \/ res = TPM \/ res = Concurrency) ->
  stack_ok stack = true -> (s, l) ∈ layers stack ->
  opt_valid (Soft (res l)) = true /\ opt_valid (Hard (res l)) = true /\ validSource s = true.
Proof.
  intros Hres Hok Hin.
  assert (validateOverride l = true /\ validSource s = true) as [Hv Hs].
  { unfold stack_ok, validateBase in Hok. unfold layers in Hin.
    destruct stack as [p t pr k]; simpl in *. prop_hyps.
    rewrite !elem_of_app in Hin.
    destruct k as [k|], pr as [pr|], t as [t|]; prop_hyps;
      rewrite ?list_elem_of_singleton, ?elem_of_nil in Hin;
      repeat destruct Hin as [Hin|Hin]; try done; by simplify_eq. }
  unfold validateOverride in Hv. simpl in Hv. unfold threshold_override_ok in Hv. prop_hyps.
  destruct Hres as [->|[->| ->]]; auto.
Qed.

Lemma spec_threshold_valid stack res e :
  (res = RPM \/ res = TPM \/ res = Concurrency) ->
  stack_ok stack = true -> spec_threshold res stack = Some e ->
  threshold_valid e = (eff_Soft e <=? eff_Hard e).
Proof.
  intros Hres Hok. unfold spec_threshold.
  destruct (most_specific (fun l => Soft (res l)) _) as [[s ss]|] eqn:E1; [|done].
  destruct (most_specific (fun l => Hard (res l)) _) as [[h hs]|] eqn:E2; [|done].
  intros [= <-].
  apply most_specific_sound in E1 as [V1 S1]; [|intros s' l Hin; pose proof (stack_ok_layers _ _ _ _ Hres Hok Hin); tauto].
  apply most_specific_sound in E2 as [V2 S2]; [|intros s' l Hin; pose proof (stack_ok_layers _ _ _ _ Hres Hok Hin); tauto].
  unfold threshold_valid; simpl. rewrite V1, V2, S1, S2. simpl. by rewrite !andb_true_r.
Qed.

(** The layer loop without its validation: what [Resolve] computes when no layer
    is rejected. *)
Lemma resolve_layers stack :
  validateBase (Platform stack) = true ->
  Resolve stack =
    if stack_ok stack &&
       Effective_Validate {| eff_RPM := overlays RPM stack; eff_TPM := overlays TPM stack;
                             eff_Concurrency := overlays Concurrency stack |}
    then Ok {| eff_RPM := overlays RPM stack; eff_TPM := overlays TPM stack;
               eff_Concurrency := overlays Concurrency stack |}
    else Err ErrInvalid.
Proof.
  intros Hb. unfold Resolve, stack_ok, overlays, overlay. rewrite Hb. simpl.
  destruct (Tenant stack) as [t|]; simpl; [destruct (empty t), (validateOverride t); simpl; try done|];
  (destruct (Project stack) as [p|]; simpl; [destruct (empty p), (validateOverride p); simpl; try done|]);
  (destruct (Key stack) as [k|]; simpl; [destruct (empty k), (validateOverride k); simpl; done|]); done.
Qed.

Lemma validateBase_concrete l :
  validateBase l = true ->
  threshold_concrete (RPM l) = true /\ threshold_concrete (TPM l) = true /\ threshold_concrete (Concurrency l) = true.
Proof. unfold validateBase. simpl. intros. prop_hyps. auto. Qed.

(** ** Properties *)

(** C39: [Resolve] is exactly the reference resolution. *)
Theorem Resolve_refines_spec stack e :
  Resolve stack = Ok e <-> resolve_spec stack = Some e.
Proof.
  destruct (validateBase (Platform stack)) eqn:Hb.
  - destruct (validateBase_concrete _ Hb) as (H1 & H2 & H3).
    rewrite (resolve_layers _ Hb). unfold resolve_spec.
    pose proof (overlays_spec RPM stack H1) as E1. pose proof (overlays_spec TPM stack H2) as E2.
    pose proof (overlays_spec Concurrency stack H3) as E3. rewrite E1, E2, E3.
    destruct (stack_ok stack) eqn:Hok; simpl; [|done].
    unfold Effective_Validate; simpl.
    rewrite (spec_threshold_valid _ RPM _ ltac:(auto) Hok E1), (spec_threshold_valid _ TPM _ ltac:(auto) Hok E2),
      (spec_threshold_valid _ Concurrency _ ltac:(auto) Hok E3).
    rewrite andb_true_r, andb_assoc. destruct (_ && _); naive_solver.
  - unfold Resolve, resolve_spec, stack_ok. rewrite Hb. simpl.
    split; [done|]. repeat case_match; done.
Qed.
