(* ===== verification/LocalLimiter.v ===== *)
(** * Process-local admission (src/internal/limits/local.go)

    [LocalLimiter] admits a request across four aggregates (Platform, Tenant,
    Project, Key) or rejects it without consuming anything. The mutex makes every
    method atomic, so a method is a function from the limiter's state to its next
    state and result, and the interleavings of concurrent callers are the
    sequences of such steps. The clock value read by a call is an argument.

    Then: interleavings of the process-local limiter. *)
From Stdlib Require Import ZArith Lia Bool.
From stdpp Require Import base tactics option list strings gmap fin_maps sets relations.
From S2P Require Import Prelude Identifiers LimitPolicy.
(** ** Data *)
Inductive ScopeKind := ScopePlatform | ScopeTenant | ScopeProject | ScopeKey | ScopeKindOther (value : string).
Inductive Resource := ResourceRPM | ResourceTPM | ResourceConcurrency.

#[export] Instance ScopeKind_eq_dec : EqDecision ScopeKind.
Proof. solve_decision. Defined.
#[export] Instance Resource_eq_dec : EqDecision Resource.
Proof. solve_decision. Defined.

Record Scope := { Kind : ScopeKind; TenantID : string; ProjectID : string; KeyID : string }.

#[export] Instance Scope_eq_dec : EqDecision Scope.
Proof. solve_decision. Defined.

#[export] Instance ScopeKind_countable : Countable ScopeKind.
Proof.
  refine (inj_countable'
    (fun k => match k with ScopePlatform => inl 0%nat | ScopeTenant => inl 1%nat | ScopeProject => inl 2%nat
                         | ScopeKey => inl 3%nat | ScopeKindOther s => inr s end)
    (fun e : nat + string => match e with inl 0%nat => ScopePlatform | inl 1%nat => ScopeTenant
                         | inl 2%nat => ScopeProject | inl _ => ScopeKey | inr s => ScopeKindOther s end) _).
  by intros [].
Defined.

#[export] Instance Scope_countable : Countable Scope.
Proof.
  refine (inj_countable' (fun s => (Kind s, TenantID s, ProjectID s, KeyID s))
    (fun '(k, t, p, y) => {| Kind := k; TenantID := t; ProjectID := p; KeyID := y |}) _).
  by intros [].
Defined.

Record Binding := { binding_Scope : Scope; binding_Policy : Effective }.
Record Request := { Scopes : list Scope; EstimatedTokens : Z }.
Record SoftThreshold := { soft_Scope : Scope; soft_Resource : Resource; soft_Usage : Z; soft_Threshold : Z }.
Record Rejection := {
  rej_Scope : Scope; rej_Resource : Resource; rej_Usage : Z; rej_Requested : Z; rej_Hard : Z;
  rej_RetryAfter : Duration; rej_ResetAt : Time }.

(** A lease and the state of its [sync.Once]. *)
Record Lease := { lease_scopes : list Scope; lease_once : bool }.

Record Admission := {
  SnapshotVersion : Z; adm_Lease : option Lease;
  SoftThresholds : list SoftThreshold; adm_Rejection : option Rejection }.

Record UsageSnapshot := {
  usage_SnapshotVersion : Z; usage_Scope : Scope; usage_RPM : Z; usage_TPM : Z; usage_Concurrency : Z;
  usage_WindowStart : Time; usage_ResetAt : Time; usage_Policy : Effective }.

Record localState := { windowStart : Time; rpm : Z; tpm : Z; concurrency : Z }.

Record LocalLimiter := {
  maximumBindings : Z; version : Z;
  policies : gmap Scope Effective; states : gmap Scope localState }.

Inductive error := ErrInvalid | ErrStaleSnapshot | ErrPolicyUnavailable.

Definition requiredScopeCount : nat := 4.
Definition empty_scope : Scope := {| Kind := ScopeKindOther ""; TenantID := ""; ProjectID := ""; KeyID := "" |}.

(** ** Operations *)
Definition Allowed (admission : Admission) : bool :=
  match adm_Lease admission, adm_Rejection admission with Some _, None => true | _, _ => false end.

Definition Scope_Validate (scope : Scope) : bool :=
  match Kind scope with
  | ScopePlatform =>
      bool_decide (TenantID scope = ""%string) && bool_decide (ProjectID scope = ""%string) &&
      bool_decide (KeyID scope = ""%string)
  | ScopeTenant =>
      uuidPattern (TenantID scope) && bool_decide (ProjectID scope = ""%string) &&
      bool_decide (KeyID scope = ""%string)
  | ScopeProject =>
      uuidPattern (TenantID scope) && uuidPattern (ProjectID scope) && bool_decide (KeyID scope = ""%string)
  | ScopeKey => uuidPattern (TenantID scope) && uuidPattern (ProjectID scope) && uuidPattern (KeyID scope)
  | ScopeKindOther _ => false
  end.

Definition scopeRank (kind : ScopeKind) : nat :=
  match kind with
  | ScopePlatform => 0
  | ScopeTenant => 1
  | ScopeProject => 2
  | ScopeKey => 3
  | ScopeKindOther _ => requiredScopeCount
  end.

(** The loop of [normalizeScopes]: [normalized] and [seen] are Go arrays of length four. *)
Fixpoint place_scopes (input : list Scope) (normalized : list Scope) (seen : list bool) : result (list Scope) error :=
  match input with
  | [] => Ok normalized
  | scope :: rest =>
      ensure (Scope_Validate scope) else ErrInvalid in
      let rank := scopeRank (Kind scope) in
      ensure (Nat.ltb rank requiredScopeCount && negb (default true (seen !! rank))) else ErrInvalid in
      place_scopes rest (<[rank := scope]> normalized) (<[rank := true]> seen)
  end.

Definition nth_scope (l : list Scope) (i : nat) : Scope := default empty_scope (l !! i).

Definition normalizeScopes (input : list Scope) : result (list Scope) error :=
  ensure (Nat.eqb (length input) requiredScopeCount) else ErrInvalid in
  let? n := place_scopes input (replicate requiredScopeCount empty_scope) (replicate requiredScopeCount false) in
  ensure (bool_decide (Kind (nth_scope n 0) = ScopePlatform) &&
          bool_decide (Kind (nth_scope n 1) = ScopeTenant) &&
          bool_decide (Kind (nth_scope n 2) = ScopeProject) &&
          bool_decide (Kind (nth_scope n 3) = ScopeKey) &&
          bool_decide (TenantID (nth_scope n 1) = TenantID (nth_scope n 2)) &&
          bool_decide (TenantID (nth_scope n 1) = TenantID (nth_scope n 3)) &&
          bool_decide (ProjectID (nth_scope n 2) = ProjectID (nth_scope n 3))) else ErrInvalid in
  Ok n.

Definition NewLocalLimiter (maximum : Z) : result LocalLimiter error :=
  ensure (Z.of_nat requiredScopeCount <=? maximum) else ErrInvalid in
  Ok {| maximumBindings := maximum; version := 0; policies := ∅; states := ∅ |}.

Fixpoint next_policies (bindings : list Binding) (next : gmap Scope Effective) : result (gmap Scope Effective) error :=
  match bindings with
  | [] => Ok next
  | b :: rest =>
      ensure (Scope_Validate (binding_Scope b) && Effective_Validate (binding_Policy b)) else ErrInvalid in
      match next !! binding_Scope b with
      | Some _ => Err ErrInvalid
      | None => next_policies rest (<[binding_Scope b := binding_Policy b]> next)
      end
  end.

Definition kept (next : gmap Scope Effective) (entry : Scope * localState) : Prop :=
  is_Some (next !! entry.1) \/ concurrency entry.2 <> 0.

#[export] Instance kept_dec next entry : Decision (kept next entry).
Proof. unfold kept. apply _. Defined.

Definition Replace (limiter : LocalLimiter) (newVersion : Z) (bindings : list Binding) : result LocalLimiter error :=
  ensure (negb (newVersion =? 0) && negb (Nat.eqb (length bindings) 0) &&
          (Z.of_nat (length bindings) <=? maximumBindings limiter)) else ErrInvalid in
  let? next := next_policies bindings ∅ in
  ensure (version limiter <? newVersion) else ErrStaleSnapshot in
  Ok {| maximumBindings := maximumBindings limiter; version := newVersion;
        policies := next; states := filter (kept next) (states limiter) |}.

Definition exceeds (current requested hard : Z) : bool :=
  (hard <? requested) || (u64_sub hard requested <? current).

Definition rateRejection (now : Time) (scope : Scope) (resource : Resource) (usage requested hard : Z)
    (start : Time) : Rejection :=
  let resetAt := time_add start minute in
  let retryAfter := time_sub resetAt now in
  {| rej_Scope := scope; rej_Resource := resource; rej_Usage := usage; rej_Requested := requested;
     rej_Hard := hard; rej_RetryAfter := if retryAfter <? 0 then 0 else retryAfter; rej_ResetAt := resetAt |}.

Definition checkHardLimits (now : Time) (scope : Scope) (state : localState) (policy : Effective)
    (estimatedTokens : Z) : option Rejection :=
  if exceeds (rpm state) 1 (eff_Hard (eff_RPM policy)) then
    Some (rateRejection now scope ResourceRPM (rpm state) 1 (eff_Hard (eff_RPM policy)) (windowStart state))
  else if exceeds (tpm state) estimatedTokens (eff_Hard (eff_TPM policy)) then
    Some (rateRejection now scope ResourceTPM (tpm state) estimatedTokens (eff_Hard (eff_TPM policy)) (windowStart state))
  else if exceeds (concurrency state) 1 (eff_Hard (eff_Concurrency policy)) then
    Some {| rej_Scope := scope; rej_Resource := ResourceConcurrency; rej_Usage := concurrency state;
            rej_Requested := 1; rej_Hard := eff_Hard (eff_Concurrency policy);
            rej_RetryAfter := 0; rej_ResetAt := 0 |}
  else None.

Definition appendSoftThresholds (thresholds : list SoftThreshold) (scope : Scope) (state : localState)
    (policy : Effective) : list SoftThreshold :=
  let crossed (resource : Resource) (usage : Z) (soft : Z) :=
    if soft <? usage
    then [{| soft_Scope := scope; soft_Resource := resource; soft_Usage := usage; soft_Threshold := soft |}]
    else [] in
  thresholds ++ crossed ResourceRPM (rpm state) (eff_Soft (eff_RPM policy))
             ++ crossed ResourceTPM (tpm state) (eff_Soft (eff_TPM policy))
             ++ crossed ResourceConcurrency (concurrency state) (eff_Soft (eff_Concurrency policy)).

Fixpoint lookup_policies (ps : gmap Scope Effective) (scopes : list Scope) : result (list Effective) error :=
  match scopes with
  | [] => Ok []
  | scope :: rest =>
      match ps !! scope with
      | None => Err ErrPolicyUnavailable
      | Some policy => let? tail := lookup_policies ps rest in Ok (policy :: tail)
      end
  end.

(** The window roll shared by [Acquire] and [Snapshot]: a state first used or left
    in an earlier minute starts its rate counters afresh and keeps its leases. *)
Definition roll (window : Time) (state : option localState) : localState :=
  match state with
  | None => {| windowStart := window; rpm := 0; tpm := 0; concurrency := 0 |}
  | Some st =>
      if time_after window (windowStart st)
      then {| windowStart := window; rpm := 0; tpm := 0; concurrency := concurrency st |}
      else st
  end.

Definition roll_states (window : Time) (scopes : list Scope) (sts : gmap Scope localState) : gmap Scope localState :=
  foldl (fun m scope => <[scope := roll window (m !! scope)]> m) sts scopes.

(** [states[index]], a pointer into the map that the roll has just filled. *)
Definition state_of (sts : gmap Scope localState) (scope : Scope) : localState :=
  default {| windowStart := 0; rpm := 0; tpm := 0; concurrency := 0 |} (sts !! scope).

Fixpoint first_rejection (now : Time) (sts : gmap Scope localState) (tokens : Z)
    (scoped : list (Scope * Effective)) : option Rejection :=
  match scoped with
  | [] => None
  | (scope, policy) :: rest =>
      match checkHardLimits now scope (state_of sts scope) policy tokens with
      | Some rejection => Some rejection
      | None => first_rejection now sts tokens rest
      end
  end.

Definition bump (tokens : Z) (st : localState) : localState :=
  {| windowStart := windowStart st; rpm := u64_add (rpm st) 1; tpm := u64_add (tpm st) tokens;
     concurrency := u64_add (concurrency st) 1 |}.

Fixpoint consume (tokens : Z) (scoped : list (Scope * Effective)) (sts : gmap Scope localState)
    (soft : list SoftThreshold) : gmap Scope localState * list SoftThreshold :=
  match scoped with
  | [] => (sts, soft)
  | (scope, policy) :: rest =>
      let st := bump tokens (state_of sts scope) in
      consume tokens rest (<[scope := st]> sts) (appendSoftThresholds soft scope st policy)
  end.

Definition with_states (limiter : LocalLimiter) (sts : gmap Scope localState) : LocalLimiter :=
  {| maximumBindings := maximumBindings limiter; version := version limiter;
     policies := policies limiter; states := sts |}.

Definition Acquire (limiter : LocalLimiter) (request : Request) (now : Time) : LocalLimiter * result Admission error :=
  if (EstimatedTokens request =? 0) || (MaximumValue <? EstimatedTokens request) then (limiter, Err ErrInvalid)
  else match normalizeScopes (Scopes request) with
  | Err e => (limiter, Err e)
  | Ok scopes =>
      if version limiter =? 0 then (limiter, Err ErrPolicyUnavailable)
      else match lookup_policies (policies limiter) scopes with
      | Err e => (limiter, Err e)
      | Ok found =>
          let window := time_truncate now minute in
          let rolled := roll_states window scopes (states limiter) in
          match first_rejection now rolled (EstimatedTokens request) (zip scopes found) with
          | Some rejection =>
              (with_states limiter rolled,
               Ok {| SnapshotVersion := version limiter; adm_Lease := None; SoftThresholds := [];
                     adm_Rejection := Some rejection |})
          | None =>
              let '(sts, soft) := consume (EstimatedTokens request) (zip scopes found) rolled [] in
              (with_states limiter sts,
               Ok {| SnapshotVersion := version limiter;
                     adm_Lease := Some {| lease_scopes := scopes; lease_once := false |};
                     SoftThresholds := soft; adm_Rejection := None |})
          end
      end
  end.

Definition Snapshot (limiter : LocalLimiter) (scope : Scope) (now : Time) : LocalLimiter * result UsageSnapshot error :=
  if negb (Scope_Validate scope) then (limiter, Err ErrInvalid)
  else match policies limiter !! scope with
  | None => (limiter, Err ErrPolicyUnavailable)
  | Some policy =>
      let window := time_truncate now minute in
      let snapshot st := {| usage_SnapshotVersion := version limiter; usage_Scope := scope;
        usage_RPM := rpm st; usage_TPM := tpm st; usage_Concurrency := concurrency st;
        usage_WindowStart := windowStart st; usage_ResetAt := time_add (windowStart st) minute;
        usage_Policy := policy |} in
      match states limiter !! scope with
      | None => (limiter, Ok (snapshot {| windowStart := window; rpm := 0; tpm := 0; concurrency := 0 |}))
      | Some st =>
          let st' := roll window (Some st) in
          (with_states limiter (<[scope := st']> (states limiter)), Ok (snapshot st'))
      end
  end.

Definition release_scope (ps : gmap Scope Effective) (sts : gmap Scope localState) (scope : Scope) : gmap Scope localState :=
  match sts !! scope with
  | None => sts
  | Some st =>
      if concurrency st =? 0 then sts
      else
        let st' := {| windowStart := windowStart st; rpm := rpm st; tpm := tpm st;
                      concurrency := u64_sub (concurrency st) 1 |} in
        match ps !! scope with
        | None => if concurrency st' =? 0 then delete scope sts else <[scope := st']> sts
        | Some _ => <[scope := st']> sts
        end
  end.

Definition release (limiter : LocalLimiter) (scopes : list Scope) : LocalLimiter :=
  with_states limiter (foldl (release_scope (policies limiter)) (states limiter) scopes).

(** [Lease.Release]: the [sync.Once] lets only the first call through. *)
Definition Release (limiter : LocalLimiter) (lease : Lease) : LocalLimiter * Lease :=
  if lease_once lease then (limiter, lease)
  else (release limiter (lease_scopes lease), {| lease_scopes := lease_scopes lease; lease_once := true |}).

(** ** Scopes *)

(** The canonical admission chain: one valid scope of every kind, the tenant and
    project identities of the more specific ones agreeing with the broader ones. *)
Record chain (scopes : list Scope) (p t pr k : Scope) : Prop := {
  chain_list : scopes = [p; t; pr; k];
  chain_platform : Kind p = ScopePlatform;
  chain_tenant : Kind t = ScopeTenant;
  chain_project : Kind pr = ScopeProject;
  chain_key : Kind k = ScopeKey;
  chain_tenant_project : TenantID t = TenantID pr;
  chain_tenant_key : TenantID t = TenantID k;
  chain_project_key : ProjectID pr = ProjectID k;
  chain_valid : Forall (fun s => Scope_Validate s = true) scopes }.

Lemma Scope_Validate_kind s v : Scope_Validate s = true -> Kind s <> ScopeKindOther v.
Proof. unfold Scope_Validate. by destruct (Kind s). Qed.

Lemma place_scopes_cons scope rest n seen r :
  place_scopes (scope :: rest) n seen = Ok r ->
  Scope_Validate scope = true /\ seen !! scopeRank (Kind scope) = Some false /\
  place_scopes rest (<[scopeRank (Kind scope) := scope]> n) (<[scopeRank (Kind scope) := true]> seen) = Ok r.
Proof.
  simpl. destruct (Scope_Validate scope); [|done].
  destruct (seen !! scopeRank (Kind scope)) as [[]|]; destruct (Nat.ltb _ _); simpl; by auto.
Qed.

Ltac place_one H :=
  apply place_scopes_cons in H as (? & ? & H).

(** A list of scopes whose kinds differ pairwise has no duplicates. *)
Ltac distinct_kinds :=
  rewrite !NoDup_cons, !elem_of_cons, !elem_of_nil; split_and!; try apply NoDup_nil_2; intuition congruence.

Lemma normalizeScopes_chain input n :
  normalizeScopes input = Ok n ->
  (exists p t pr k, chain n p t pr k) /\ NoDup n /\ n ≡ₚ input.
Proof.
  unfold normalizeScopes. destruct (Nat.eqb_spec (length input) requiredScopeCount) as [Hl|]; [|done].
  destruct input as [|a [|b [|c [|d [|]]]]]; try done. clear Hl.
  destruct (place_scopes _ _ _) as [n'|] eqn:E; [|done]. simpl.
  destruct (_ && _) eqn:Hk; [|done]. intros [= ->]. prop_hyps.
  place_one E; place_one E; place_one E; place_one E. simpl in E. injection E as <-.
  destruct (Kind a) eqn:Ka; try done; simpl in *; destruct (Kind b) eqn:Kb; try done; simpl in *;
  destruct (Kind c) eqn:Kc; try done; simpl in *; destruct (Kind d) eqn:Kd; try done; simpl in *.
  all: split; [do 4 eexists; split; [reflexivity|..]; by rewrite ?Forall_cons, ?Forall_nil|].
  all: match goal with |- NoDup ?l /\ _ => assert (Hnd : NoDup l) by distinct_kinds end.
  all: split; [done|]; apply NoDup_Permutation;
    [done|distinct_kinds|intros x; rewrite !elem_of_cons; tauto].
Qed.

(** ** Counters *)
Definition wf_state (st : localState) : Prop :=
  0 <= rpm st <= MaximumValue /\ 0 <= tpm st <= MaximumValue /\ 0 <= concurrency st <= MaximumValue.

(** Published policies are validated by [Replace]; counters never leave the range
    in which their 64-bit arithmetic is exact. *)
Definition wf (limiter : LocalLimiter) : Prop :=
  map_Forall (fun _ p => Effective_Validate p = true) (policies limiter) /\
  map_Forall (fun _ st => wf_state st) (states limiter).

(** One request of [tokens] tokens fits under every hard boundary of [policy]. *)
Definition fits (tokens : Z) (st : localState) (policy : Effective) : bool :=
  (rpm st + 1 <=? eff_Hard (eff_RPM policy)) && (tpm st + tokens <=? eff_Hard (eff_TPM policy)) &&
  (concurrency st + 1 <=? eff_Hard (eff_Concurrency policy)).

Definition usage_of (r : Resource) (st : localState) : Z :=
  match r with ResourceRPM => rpm st | ResourceTPM => tpm st | ResourceConcurrency => concurrency st end.
Definition hard_of (r : Resource) (p : Effective) : Z :=
  match r with ResourceRPM => eff_Hard (eff_RPM p) | ResourceTPM => eff_Hard (eff_TPM p)
             | ResourceConcurrency => eff_Hard (eff_Concurrency p) end.

Definition charged (tokens : Z) (st : localState) : localState :=
  {| windowStart := windowStart st; rpm := rpm st + 1; tpm := tpm st + tokens; concurrency := concurrency st + 1 |}.

Lemma threshold_valid_range e : threshold_valid e = true -> 0 < eff_Hard e <= MaximumValue.
Proof. unfold threshold_valid, validValue. intros. prop_hyps. lia. Qed.

Lemma Effective_Validate_hard p r : Effective_Validate p = true -> 0 < hard_of r p <= MaximumValue.
Proof.
  unfold Effective_Validate. simpl. intros. prop_hyps.
  destruct r; by apply threshold_valid_range.
Qed.

Lemma exceeds_spec current requested hard :
  0 <= current -> 0 <= requested -> hard <= MaximumValue ->
  exceeds current requested hard = (hard <? current + requested).
Proof.
  intros. unfold exceeds, MaximumValue in *. destruct (Z.ltb_spec hard requested); simpl.
  - symmetry. apply Z.ltb_lt. lia.
  - rewrite u64_sub_small by (unfold u64_max; lia).
    destruct (Z.ltb_spec (hard - requested) current); symmetry; [apply Z.ltb_lt|apply Z.ltb_ge]; lia.
Qed.

Lemma checkHardLimits_spec now scope st p tokens :
  wf_state st -> Effective_Validate p = true -> 0 < tokens ->
  match checkHardLimits now scope st p tokens with
  | None => fits tokens st p = true
  | Some rej => fits tokens st p = false /\ rej_Scope rej = scope /\
      rej_Usage rej = usage_of (rej_Resource rej) st /\ rej_Hard rej = hard_of (rej_Resource rej) p /\
      rej_Hard rej < rej_Usage rej + rej_Requested rej
  end.
Proof.
  intros (H1 & H2 & H3) Hp Ht. unfold checkHardLimits, fits.
  pose proof (Effective_Validate_hard p ResourceRPM Hp) as R1.
  pose proof (Effective_Validate_hard p ResourceTPM Hp) as R2.
  pose proof (Effective_Validate_hard p ResourceConcurrency Hp) as R3. simpl in *.
  rewrite !exceeds_spec by lia.
  repeat match goal with |- context [?a <? ?b] => destruct (Z.ltb_spec a b); simpl end.
  all: rewrite ?andb_false_iff, ?andb_true_iff, ?Z.leb_le, ?Z.leb_gt; auto with lia.
Qed.

Lemma roll_wf w o : (forall st, o = Some st -> wf_state st) -> wf_state (roll w o).
Proof.
  intros H. unfold roll. destruct o as [st|]; [destruct (H st eq_refl) as (?&?&?); case_match|];
    unfold wf_state, MaximumValue in *; simpl; lia.
Qed.

Lemma fits_wf tokens st p :
  wf_state st -> Effective_Validate p = true -> 0 < tokens -> fits tokens st p = true ->
  bump tokens st = charged tokens st /\ wf_state (charged tokens st).
Proof.
  intros (?&?&?) Hp Ht Hf. unfold fits in Hf. prop_hyps.
  pose proof (Effective_Validate_hard p ResourceRPM Hp).
  pose proof (Effective_Validate_hard p ResourceTPM Hp).
  pose proof (Effective_Validate_hard p ResourceConcurrency Hp). simpl in *.
  unfold bump, charged, wf_state, MaximumValue in *. simpl.
  rewrite !u64_add_small by (unfold u64_max; lia). split; [done|lia].
Qed.

Lemma roll_states_lookup w scopes sts s :
  NoDup scopes ->
  roll_states w scopes sts !! s = if decide (s ∈ scopes) then Some (roll w (sts !! s)) else sts !! s.
Proof.
  unfold roll_states. revert sts; induction scopes as [|x scopes IH]; intros sts Hnd; simpl; [done|].
  apply NoDup_cons in Hnd as [Hx Hnd]. rewrite IH by done.
  destruct (decide (s = x)) as [->|Hne].
  - rewrite decide_False, decide_True by (done || left). by rewrite lookup_insert_eq.
  - rewrite lookup_insert_ne by done.
    destruct (decide (s ∈ scopes)); [rewrite decide_True by (by right)|rewrite decide_False by (by rewrite elem_of_cons; intros [])]; done.
Qed.

Lemma consume_lookup tokens scoped sts soft s :
  NoDup scoped.*1 ->
  (consume tokens scoped sts soft).1 !! s =
    if decide (s ∈ scoped.*1) then Some (bump tokens (state_of sts s)) else sts !! s.
Proof.
  revert sts soft; induction scoped as [|[x p] scoped IH]; intros sts soft Hnd; simpl; [done|].
  apply NoDup_cons in Hnd as [Hx Hnd]. rewrite IH by done. unfold state_of.
  destruct (decide (s = x)) as [->|Hne].
  - rewrite decide_False, decide_True by (done || left). by rewrite lookup_insert_eq.
  - rewrite lookup_insert_ne by done.
    destruct (decide (s ∈ scoped.*1)); [rewrite decide_True by (by right)|rewrite decide_False by (by rewrite elem_of_cons; intros [])]; done.
Qed.

Lemma lookup_policies_zip ps scopes found :
  lookup_policies ps scopes = Ok found ->
  (zip scopes found).*1 = scopes /\ (forall s p, (s, p) ∈ zip scopes found -> ps !! s = Some p).
Proof.
  revert found; induction scopes as [|s scopes IH]; intros found; simpl.
  - intros [= <-]. split; [done|]. intros ?? []%elem_of_nil.
  - destruct (ps !! s) as [p|] eqn:E; [|done].
    destruct (lookup_policies ps scopes) as [tail|] eqn:E2; [|done]. simpl. intros [= <-].
    destruct (IH tail eq_refl) as [H1 H2]. split; [simpl; f_equal; exact H1|].
    intros s' p' [[= -> ->]|Hin]%elem_of_cons; auto.
Qed.

(** The first rejection in canonical order, and what it proves about the counters. *)
Lemma first_rejection_spec now sts tokens scoped :
  (forall s p, (s, p) ∈ scoped -> wf_state (state_of sts s) /\ Effective_Validate p = true) -> 0 < tokens ->
  match first_rejection now sts tokens scoped with
  | None => Forall (fun '(s, p) => fits tokens (state_of sts s) p = true) scoped
  | Some rej => exists p, (rej_Scope rej, p) ∈ scoped /\
      fits tokens (state_of sts (rej_Scope rej)) p = false /\
      rej_Usage rej = usage_of (rej_Resource rej) (state_of sts (rej_Scope rej)) /\
      rej_Hard rej = hard_of (rej_Resource rej) p /\ rej_Hard rej < rej_Usage rej + rej_Requested rej
  end.
Proof.
  intros Hall Ht. induction scoped as [|[s p] scoped IH]; simpl; [by constructor|].
  destruct (Hall s p) as [Hw Hv]; [left|].
  pose proof (checkHardLimits_spec now s _ p tokens Hw Hv Ht) as Hc.
  destruct (checkHardLimits _ _ _ _ _) as [rej|].
  - destruct Hc as (Hf & Hs & Hu & Hh & Hlt). subst s. exists p. split; [left|done].
  - assert (IH' := IH ltac:(intros; apply Hall; by right)).
    destruct (first_rejection now sts tokens scoped) as [rej|].
    + destruct IH' as (p' & Hin & H). exists p'. split; [by right|done].
    + by constructor.
Qed.

(** ** Properties of one admission *)

(** The counters a scope has after the window roll of a call at [now]. *)
Definition at_window (limiter : LocalLimiter) (now : Time) (s : Scope) : localState :=
  roll (time_truncate now minute) (states limiter !! s).

Lemma at_window_wf limiter now s : wf limiter -> wf_state (at_window limiter now s).
Proof. intros [_ Hs]. apply roll_wf. intros st E. by apply (Hs s). Qed.

Lemma state_of_rolled limiter now n s :
  NoDup n -> s ∈ n ->
  state_of (roll_states (time_truncate now minute) n (states limiter)) s = at_window limiter now s.
Proof. intros Hnd Hs. unfold state_of. rewrite roll_states_lookup by done. by rewrite decide_True. Qed.

(** The all-or-nothing contract of one call that reached the counters: [n] are the
    normalized scopes of the request and [found] their policies. *)
Definition all_or_nothing (limiter : LocalLimiter) (request : Request) (now : Time)
    (n : list Scope) (found : list Effective) : Prop :=
  let st := at_window limiter now in
  let tokens := EstimatedTokens request in
  let post := Acquire limiter request now in
  policies post.1 = policies limiter /\
  if forallb (fun '(s, p) => fits tokens (st s) p) (zip n found) then
    (exists soft, post.2 = Ok {| SnapshotVersion := version limiter;
       adm_Lease := Some {| lease_scopes := n; lease_once := false |};
       SoftThresholds := soft; adm_Rejection := None |}) /\
    (forall s, states post.1 !! s = if decide (s ∈ n) then Some (charged tokens (st s)) else states limiter !! s)
  else
    (exists rej p, post.2 = Ok {| SnapshotVersion := version limiter; adm_Lease := None;
       SoftThresholds := []; adm_Rejection := Some rej |} /\
       (rej_Scope rej, p) ∈ zip n found /\ rej_Usage rej = usage_of (rej_Resource rej) (st (rej_Scope rej)) /\
       rej_Hard rej = hard_of (rej_Resource rej) p /\ rej_Hard rej < rej_Usage rej + rej_Requested rej) /\
    (forall s, states post.1 !! s = if decide (s ∈ n) then Some (st s) else states limiter !! s).

Lemma Acquire_spec limiter request now n found :
  wf limiter -> version limiter <> 0 -> 0 < EstimatedTokens request <= MaximumValue ->
  normalizeScopes (Scopes request) = Ok n -> lookup_policies (policies limiter) n = Ok found ->
  all_or_nothing limiter request now n found.
Proof.
  intros Hwf Hver Htok Hn Hp. unfold all_or_nothing. set (st := at_window limiter now).
  set (tokens := EstimatedTokens request) in *. set (post := Acquire limiter request now).
  destruct (normalizeScopes_chain _ _ Hn) as (_ & Hnd & _).
  destruct (lookup_policies_zip _ _ _ Hp) as [Hz Hzp].
  assert (Hin : forall s p, (s, p) ∈ zip n found -> s ∈ n)
    by (intros s p H; rewrite <- Hz; apply list_elem_of_fmap; by exists (s, p)).
  set (rolled := roll_states (time_truncate now minute) n (states limiter)).
  assert (Hroll : forall s, s ∈ n -> state_of rolled s = st s) by (intros; by apply state_of_rolled).
  assert (Hall : forall s p, (s, p) ∈ zip n found -> wf_state (state_of rolled s) /\ Effective_Validate p = true).
  { intros s p H. rewrite Hroll by eauto. split; [by apply at_window_wf|]. apply Hwf with s. eauto. }
  pose proof (first_rejection_spec now rolled tokens _ Hall ltac:(lia)) as Hfr.
  unfold post, Acquire. fold tokens. rewrite (proj2 (Z.eqb_neq _ _)), (proj2 (Z.ltb_ge _ _)) by lia. simpl.
  rewrite Hn. rewrite (proj2 (Z.eqb_neq _ _)) by done. rewrite Hp. fold rolled.
  destruct (first_rejection now rolled tokens _) as [rej|].
  - destruct Hfr as (p & Hrin & Hf & Hu & Hh & Hlt). rewrite Hroll in Hf, Hu by eauto.
    split; [done|]. destruct (forallb _ _) eqn:Ef.
    { rewrite forallb_forall in Ef. specialize (Ef _ (proj1 (list_elem_of_In _ _) Hrin)). simpl in Ef. congruence. }
    split; [by exists rej, p|]. intros s. simpl. subst rolled. rewrite roll_states_lookup by done. done.
  - destruct (consume tokens (zip n found) rolled []) as [sts soft] eqn:Ec. simpl. split; [done|].
    rewrite (proj2 (forallb_forall _ _)).
    2: { intros [s p] H%list_elem_of_In. rewrite Forall_forall in Hfr. specialize (Hfr _ H). simpl in Hfr.
         by rewrite Hroll in Hfr by eauto. }
    split; [by exists soft|]. intros s. pose proof (consume_lookup tokens (zip n found) rolled [] s) as Hc.
    rewrite Ec, Hz in Hc. simpl in Hc. rewrite Hc by done. destruct (decide (s ∈ n)) as [Hs|Hs].
    + f_equal. assert (exists p, (s, p) ∈ zip n found) as [p Hsp].
      { rewrite <- Hz in Hs. apply list_elem_of_fmap in Hs as ([s' p] & -> & H). by exists p. }
      destruct (Hall _ _ Hsp) as [Hw Hv]. rewrite Hroll in Hw by done. rewrite Hroll by done.
      apply (fits_wf tokens (st s) p); [done..|lia|].
      rewrite Forall_forall in Hfr. specialize (Hfr _ Hsp). simpl in Hfr. by rewrite Hroll in Hfr by done.
    + subst rolled. rewrite roll_states_lookup by done. by rewrite decide_False.
Qed.

(** C6: [Acquire] implements its all-or-nothing contract. With every counter in
    range and a policy for each of the four scopes, it admits exactly when one
    request and its tokens fit under every hard boundary of every scope; then each
    scope is charged one request, the tokens and one lease, and no other scope
    changes. Otherwise it charges nothing: the counters are those of the current
    window, and the rejection names a scope and a resource of it whose usage plus
    the request really exceeds the hard boundary. *)
Theorem Acquire_all_or_nothing limiter request now n found :
  wf limiter -> version limiter <> 0 -> 0 < EstimatedTokens request <= MaximumValue ->
  normalizeScopes (Scopes request) = Ok n -> lookup_policies (policies limiter) n = Ok found ->
  all_or_nothing limiter request now n found.
Proof. apply Acquire_spec. Qed.

(** ** Interleavings of the process-local limiter

    Callers share one [LocalLimiter] and hold leases. A system state is the
    limiter with every lease handed out so far; a step is one method call of any
    caller. The file proves, by induction on the steps, that each concurrency
    counter is exactly the number of unreleased leases of its scope. *)
(** ** The shared system *)
Record System := { sys_limiter : LocalLimiter; sys_leases : list Lease }.

Definition lease_of (r : result Admission error) : list Lease :=
  match r with Ok a => match adm_Lease a with Some l => [l] | None => [] end | Err _ => [] end.

Inductive step : System -> System -> Prop :=
| step_Acquire sys request now limiter' r :
    0 <= EstimatedTokens request -> Acquire (sys_limiter sys) request now = (limiter', r) ->
    step sys {| sys_limiter := limiter'; sys_leases := sys_leases sys ++ lease_of r |}
| step_Release sys i lease limiter' lease' :
    sys_leases sys !! i = Some lease -> Release (sys_limiter sys) lease = (limiter', lease') ->
    step sys {| sys_limiter := limiter'; sys_leases := <[i := lease']> (sys_leases sys) |}
| step_Replace sys v bindings limiter' :
    Replace (sys_limiter sys) v bindings = Ok limiter' ->
    step sys {| sys_limiter := limiter'; sys_leases := sys_leases sys |}
| step_Snapshot sys scope now limiter' r :
    Snapshot (sys_limiter sys) scope now = (limiter', r) ->
    step sys {| sys_limiter := limiter'; sys_leases := sys_leases sys |}.

(** A process starts with a fresh limiter and no leases. *)
Inductive initial : System -> Prop :=
| initial_intro maximum limiter :
    NewLocalLimiter maximum = Ok limiter -> initial {| sys_limiter := limiter; sys_leases := [] |}.

Definition reachable (sys : System) : Prop := exists sys0, initial sys0 /\ rtc step sys0 sys.

(** Slots of scope [s] held by one lease, and by all leases of the system. *)
Definition holds (s : Scope) (lease : Lease) : Z :=
  if lease_once lease then 0 else if decide (s ∈ lease_scopes lease) then 1 else 0.
Definition held (sys : System) (s : Scope) : Z := sum_by (holds s) (sys_leases sys).

Definition conc (sts : gmap Scope localState) (s : Scope) : Z :=
  match sts !! s with Some st => concurrency st | None => 0 end.

Definition leases_ok (leases : list Lease) : Prop := Forall (fun l => NoDup (lease_scopes l)) leases.

Record inv (sys : System) : Prop := {
  inv_wf : wf (sys_limiter sys);
  inv_leases : leases_ok (sys_leases sys);
  inv_conc : forall s, conc (states (sys_limiter sys)) s = held sys s }.

(** ** Lemmas *)
Lemma holds_bounds s l : 0 <= holds s l <= 1.
Proof. unfold holds. repeat case_match; lia. Qed.

Lemma conc_roll w o : concurrency (roll w o) = match o with Some st => concurrency st | None => 0 end.
Proof. unfold roll. by repeat case_match. Qed.

(** A call either fails without touching the limiter or satisfies the
    preconditions of the admission contract. *)
Lemma Acquire_cases limiter request now limiter' r :
  0 <= EstimatedTokens request -> Acquire limiter request now = (limiter', r) ->
  (limiter' = limiter /\ exists e, r = Err e) \/
  (exists n found, version limiter <> 0 /\ 0 < EstimatedTokens request <= MaximumValue /\
     normalizeScopes (Scopes request) = Ok n /\ lookup_policies (policies limiter) n = Ok found).
Proof.
  intros H0. unfold Acquire.
  destruct (_ || _) eqn:E1; [intros [= <- <-]; left; eauto|].
  destruct (normalizeScopes (Scopes request)) as [n|e] eqn:E2; [|intros [= <- <-]; left; eauto].
  destruct (version limiter =? 0) eqn:E3; [intros [= <- <-]; left; eauto|].
  destruct (lookup_policies (policies limiter) n) as [found|e] eqn:E4; [|intros [= <- <-]; left; eauto].
  intros _. right. exists n, found. prop_hyps. split_and!; auto; lia.
Qed.

(** Every state of an updated map is either an old one or a fresh one in range. *)
Lemma wf_states_update (sts sts' : gmap Scope localState) (n : list Scope) (f : Scope -> localState) :
  map_Forall (fun _ st => wf_state st) sts ->
  (forall s, sts' !! s = if decide (s ∈ n) then Some (f s) else sts !! s) ->
  (forall s, s ∈ n -> wf_state (f s)) -> map_Forall (fun _ st => wf_state st) sts'.
Proof.
  intros Hs Hl Hf s st. rewrite Hl. destruct (decide (s ∈ n)); [intros [= <-]; auto|apply Hs].
Qed.

Lemma inv_Acquire sys request now limiter' r :
  inv sys -> 0 <= EstimatedTokens request -> Acquire (sys_limiter sys) request now = (limiter', r) ->
  inv {| sys_limiter := limiter'; sys_leases := sys_leases sys ++ lease_of r |}.
Proof.
  intros [Hwf Hl Hc] H0 HA. destruct sys as [limiter leases]; simpl in *.
  destruct (Acquire_cases _ _ _ _ _ H0 HA) as [[-> [e ->]]|(n & found & Hv & Ht & Hn & Hp)].
  { simpl. rewrite app_nil_r. by split. }
  pose proof (Acquire_spec limiter request now n found Hwf Hv Ht Hn Hp) as Hspec.
  destruct (normalizeScopes_chain _ _ Hn) as (_ & Hnd & _).
  destruct (lookup_policies_zip _ _ _ Hp) as [Hz Hzp].
  unfold all_or_nothing in Hspec. rewrite HA in Hspec. simpl in Hspec. destruct Hspec as [Hpol Hspec].
  destruct (forallb _ _) eqn:Hfit.
  - destruct Hspec as [[soft ->] Hst]. simpl. split; simpl.
    + split; [rewrite Hpol; apply Hwf|]. eapply wf_states_update; [apply Hwf|apply Hst|].
      intros s Hs. rewrite <- Hz in Hs. apply list_elem_of_fmap in Hs as ([s' p] & -> & Hin). simpl.
      rewrite forallb_forall in Hfit. specialize (Hfit _ (proj1 (list_elem_of_In _ _) Hin)). simpl in Hfit.
      eapply fits_wf; [by apply at_window_wf| |lia|exact Hfit]. eapply (proj1 Hwf). eauto.
    + apply Forall_app; split; [done|]. by repeat constructor.
    + intros s. unfold held, conc in *. simpl. rewrite sum_by_app, <- Hc, Hst. simpl. unfold holds; simpl.
      destruct (decide (s ∈ n)); [|lia]. unfold charged, at_window; simpl. rewrite conc_roll. lia.
  - destruct Hspec as [(rej & p & -> & _) Hst]. simpl. rewrite app_nil_r. split; simpl.
    + split; [rewrite Hpol; apply Hwf|]. eapply wf_states_update; [apply Hwf|apply Hst|].
      intros s _. by apply at_window_wf.
    + done.
    + intros s. unfold held, conc in *. simpl. rewrite <- Hc, Hst.
      destruct (decide (s ∈ n)); [|done]. unfold at_window. by rewrite conc_roll.
Qed.

(** Releasing one slot of a scope that holds at least one. *)
Lemma release_scope_conc ps sts x s :
  map_Forall (fun _ st => wf_state st) sts -> 1 <= conc sts x ->
  conc (release_scope ps sts x) s = conc sts s - (if decide (s = x) then 1 else 0) /\
  map_Forall (fun _ st => wf_state st) (release_scope ps sts x).
Proof.
  intros Hwf H1. unfold conc in H1. unfold release_scope.
  destruct (sts !! x) as [st|] eqn:Ex; [|lia]. destruct (Hwf x st Ex) as (Hr & Ht & Hk).
  rewrite (proj2 (Z.eqb_neq _ _)) by lia. unfold MaximumValue in *.
  rewrite u64_sub_small by (unfold u64_max; lia). unfold conc.
  destruct (ps !! x) eqn:Ep; simpl; [|destruct (Z.eqb_spec (concurrency st - 1) 0)].
  all: split; [destruct (decide (s = x)) as [->|]; rewrite ?lookup_insert_eq, ?lookup_delete_eq, ?Ex; simpl; try lia;
       rewrite ?lookup_insert_ne, ?lookup_delete_ne by done; lia|].
  all: try (apply map_Forall_insert_2; [split_and!; simpl; unfold MaximumValue; lia|done]).
  by apply map_Forall_delete.
Qed.

Lemma release_conc ps scopes sts :
  map_Forall (fun _ st => wf_state st) sts -> NoDup scopes -> (forall s, s ∈ scopes -> 1 <= conc sts s) ->
  (forall s, conc (foldl (release_scope ps) sts scopes) s = conc sts s - (if decide (s ∈ scopes) then 1 else 0)) /\
  map_Forall (fun _ st => wf_state st) (foldl (release_scope ps) sts scopes).
Proof.
  revert sts; induction scopes as [|x scopes IH]; intros sts Hwf Hnd Hge; simpl.
  { split; [intros; lia|done]. }
  apply NoDup_cons in Hnd as [Hx Hnd].
  pose proof (fun s => release_scope_conc ps sts x s Hwf (Hge x ltac:(left))) as Hr.
  destruct (IH (release_scope ps sts x)) as [IH1 IH2]; [apply (Hr x)|done|..].
  { intros s Hs. rewrite (proj1 (Hr s)). rewrite decide_False by congruence.
    specialize (Hge s ltac:(by right)). lia. }
  split; [|done]. intros s. rewrite IH1, (proj1 (Hr s)).
  destruct (decide (s = x)) as [->|Hne]; [rewrite decide_False, decide_True by (done || left); lia|].
  destruct (decide (s ∈ scopes)); [rewrite decide_True by (by right)|
    rewrite decide_False by (by rewrite elem_of_cons; intros [])]; lia.
Qed.

Lemma inv_Release sys i lease limiter' lease' :
  inv sys -> sys_leases sys !! i = Some lease -> Release (sys_limiter sys) lease = (limiter', lease') ->
  inv {| sys_limiter := limiter'; sys_leases := <[i := lease']> (sys_leases sys) |}.
Proof.
  intros [Hwf Hl Hc] Hi. destruct sys as [limiter leases]; simpl in *. unfold Release.
  assert (Hnd : NoDup (lease_scopes lease)) by (by eapply (Forall_lookup_1 _ _ _ _ Hl)).
  destruct (lease_once lease) eqn:Ho; intros [= <- <-].
  { rewrite list_insert_id by done. by split. }
  assert (Hge : forall s, s ∈ lease_scopes lease -> 1 <= conc (states limiter) s).
  { intros s Hs. rewrite Hc. unfold held; simpl.
    pose proof (sum_by_lookup (holds s) leases i lease (fun y => proj1 (holds_bounds s y)) Hi) as Hle.
    unfold holds in Hle at 1. rewrite Ho, decide_True in Hle by done. done. }
  destruct (release_conc (policies limiter) _ _ (proj2 Hwf) Hnd Hge) as [H1 H2].
  split; simpl.
  - split; [apply Hwf|done].
  - by apply Forall_insert.
  - intros s. rewrite H1, Hc. unfold held; simpl. rewrite (sum_by_insert _ _ _ _ _ Hi).
    unfold holds at 3 4; simpl. rewrite Ho. case_decide; lia.
Qed.

Lemma next_policies_valid bindings next next' :
  map_Forall (fun _ p => Effective_Validate p = true) next -> next_policies bindings next = Ok next' ->
  map_Forall (fun _ p => Effective_Validate p = true) next'.
Proof.
  revert next; induction bindings as [|b bindings IH]; intros next Hn; simpl; [by intros [= <-]|].
  destruct (_ && _) eqn:E; [|done]. prop_hyps. destruct (next !! binding_Scope b); [done|].
  apply IH. by apply map_Forall_insert_2.
Qed.

Lemma inv_Replace sys v bindings limiter' :
  inv sys -> Replace (sys_limiter sys) v bindings = Ok limiter' ->
  inv {| sys_limiter := limiter'; sys_leases := sys_leases sys |}.
Proof.
  intros [Hwf Hl Hc]. destruct sys as [limiter leases]; simpl in *. unfold Replace.
  destruct (_ && _); [|done]. destruct (next_policies bindings ∅) as [next|] eqn:En; [|done]. simpl.
  destruct (_ <? _); [|done]. intros [= <-]. split; simpl; [split; simpl|done|].
  - eapply next_policies_valid; [apply map_Forall_empty|done].
  - apply map_Forall_lookup_2. intros s st [H _]%map_lookup_filter_Some. by apply (proj2 Hwf s).
  - intros s. unfold held in *; simpl in *. rewrite <- Hc. unfold conc. destruct (states limiter !! s) as [st|] eqn:Es.
    + destruct (decide (kept next (s, st))) as [Hk|Hk].
      * by rewrite (map_lookup_filter_Some_2 _ _ _ _ Es Hk).
      * rewrite map_lookup_filter_None_2 by (right; intros x Hx; by simplify_eq).
        unfold kept in Hk; simpl in Hk. destruct (Z.eq_dec (concurrency st) 0); [done|tauto].
    + by rewrite map_lookup_filter_None_2 by (by left).
Qed.

Lemma inv_Snapshot sys scope now limiter' r :
  inv sys -> Snapshot (sys_limiter sys) scope now = (limiter', r) ->
  inv {| sys_limiter := limiter'; sys_leases := sys_leases sys |}.
Proof.
  intros [Hwf Hl Hc]. destruct sys as [limiter leases]; simpl in *. unfold Snapshot.
  destruct (negb _); [by intros [= <- <-]|]. destruct (policies limiter !! scope); [|by intros [= <- <-]].
  destruct (states limiter !! scope) as [st|] eqn:Es; intros [= <- <-]; [|by split].
  assert (Hst : wf_state st) by (by apply (proj2 Hwf scope)).
  split; simpl; [split; [apply Hwf|]|done|].
  - apply map_Forall_insert_2; [|apply Hwf]. apply (roll_wf (time_truncate now minute) (Some st)). by intros ? [= <-].
  - intros s. unfold held in *; simpl in *. rewrite <- Hc. unfold conc. destruct (decide (s = scope)) as [->|].
    + rewrite lookup_insert_eq, Es. apply (conc_roll (time_truncate now minute) (Some st)).
    + by rewrite lookup_insert_ne.
Qed.

Lemma inv_step sys sys' : step sys sys' -> inv sys -> inv sys'.
Proof. destruct 1; intros Hi; eauto using inv_Acquire, inv_Release, inv_Replace, inv_Snapshot. Qed.

Lemma inv_initial sys : initial sys -> inv sys.
Proof.
  destruct 1 as [m l Hn]. unfold NewLocalLimiter in Hn. destruct (_ <=? _); [|done]. injection Hn as <-.
  split; simpl; [split; apply map_Forall_empty|constructor|done].
Qed.

Lemma inv_reachable sys : reachable sys -> inv sys.
Proof.
  intros (sys0 & Hinit & Hsteps). apply inv_initial in Hinit.
  induction Hsteps; eauto using inv_step.
Qed.

(** ** Properties *)

(** In every state reachable by concurrent Acquire, Release (repeated releases
    included), Replace and Snapshot calls, the concurrency counter of each scope is
    exactly the number of unreleased leases on that scope: no slot leaks, none is
    released twice, and hot-swapping policies loses no live lease. *)
Theorem concurrency_counts_live_leases sys :
  reachable sys -> forall s, conc (states (sys_limiter sys)) s = held sys s.
Proof. intros H. apply (inv_conc _ (inv_reachable _ H)). Qed.

(** ** Witnesses *)
Definition t_id : string := "11111111-1111-4111-8111-111111111111".
Definition p_id : string := "22222222-2222-4222-8222-222222222222".
Definition k_id : string := "33333333-3333-4333-8333-333333333333".
Definition demo_chain : list Scope :=
  [{| Kind := ScopePlatform; TenantID := ""; ProjectID := ""; KeyID := "" |};
   {| Kind := ScopeTenant; TenantID := t_id; ProjectID := ""; KeyID := "" |};
   {| Kind := ScopeProject; TenantID := t_id; ProjectID := p_id; KeyID := "" |};
   {| Kind := ScopeKey; TenantID := t_id; ProjectID := p_id; KeyID := k_id |}].
Definition demo_threshold (n : Z) : EffectiveThreshold :=
  {| eff_Soft := n; eff_Hard := n; SoftSource := SourcePlatform; HardSource := SourcePlatform |}.
Definition demo_policy : Effective :=
  {| eff_RPM := demo_threshold 2; eff_TPM := demo_threshold 100; eff_Concurrency := demo_threshold 1 |}.
Definition demo_bindings : list Binding := (fun s => {| binding_Scope := s; binding_Policy := demo_policy |}) <$> demo_chain.
Definition demo_fresh : LocalLimiter := {| maximumBindings := 100000; version := 0; policies := ∅; states := ∅ |}.
Definition demo_limiter : LocalLimiter :=
  match Replace demo_fresh 1 demo_bindings with Ok l => l | Err _ => demo_fresh end.
Definition demo_request : Request := {| Scopes := demo_chain; EstimatedTokens := 60 |}.
Definition demo_now : Time := unix_epoch + 90 * second.
Definition demo_sys : System :=
  {| sys_limiter := (Acquire demo_limiter demo_request demo_now).1;
     sys_leases := lease_of (Acquire demo_limiter demo_request demo_now).2 |}.

Lemma demo_published : Replace demo_fresh 1 demo_bindings = Ok demo_limiter.
Proof.
  unfold demo_limiter. assert (Hok : is_ok (Replace demo_fresh 1 demo_bindings) = true) by (vm_compute; reflexivity).
  by destruct (Replace demo_fresh 1 demo_bindings).
Qed.

Lemma demo_initial : initial {| sys_limiter := demo_fresh; sys_leases := [] |}.
Proof. by apply (initial_intro 100000). Qed.

Lemma demo_sys_reachable : reachable demo_sys.
Proof.
  exists {| sys_limiter := demo_fresh; sys_leases := [] |}. split; [apply demo_initial|].
  eapply rtc_l; [eapply (step_Replace _ 1 demo_bindings), demo_published|]. apply rtc_once.
  apply (step_Acquire {| sys_limiter := demo_limiter; sys_leases := [] |} demo_request demo_now);
    [by vm_compute|apply surjective_pairing].
Qed.

Definition demo_key_scope : Scope := nth_scope demo_chain 3.

Lemma concurrency_counts_live_leases_witness :
  conc (states (sys_limiter demo_sys)) demo_key_scope = held demo_sys demo_key_scope /\ held demo_sys demo_key_scope = 1.
Proof.
  split; [|vm_compute; reflexivity].
  exact (concurrency_counts_live_leases demo_sys demo_sys_reachable demo_key_scope).
Defined.

Lemma Acquire_all_or_nothing_witness :
  all_or_nothing demo_limiter demo_request demo_now demo_chain (replicate 4 demo_policy).
Proof.
  apply (Acquire_all_or_nothing demo_limiter demo_request demo_now demo_chain (replicate 4 demo_policy)).
  - exact (inv_wf _ (inv_Replace _ 1 demo_bindings _ (inv_initial _ demo_initial) demo_published)).
  - by vm_compute.
  - by vm_compute.
  - by vm_compute.
  - by vm_compute.
Defined.
