(* ===== verification/Budget.v ===== *)
(** * Budget facts (src/internal/budget/{model,reservation,settlement,limit_notice,reaper}.go)

    Exact-money accounts, reservations and ledger entries, the commands that act
    on them, and the results built from committed rows. Amounts are [uint64]
    micros bounded by [MaximumAmount]; database columns are [int64]. *)
From Stdlib Require Import ZArith Lia Bool.
From stdpp Require Import base tactics option list strings gmap fin_maps sets.
From S2P Require Import Prelude Identifiers.
(** ** Data *)
Definition MaximumAmount : Z := 9007199254740991.

Inductive LimitLevel := LimitSoft | LimitHard.
Inductive DegradationHint :=
| DegradeNone | DegradeLowerCostModel | DegradeReduceMaxOutput | DegradeWaitForReset | DegradeOther (value : string).

#[export] Instance LimitLevel_eq_dec : EqDecision LimitLevel.
Proof. solve_decision. Defined.
#[export] Instance DegradationHint_eq_dec : EqDecision DegradationHint.
Proof. solve_decision. Defined.

Record LimitNotice := {
  notice_Level : LimitLevel; notice_Remaining : Z; notice_ResetAt : Time; notice_Hint : DegradationHint }.

#[export] Instance LimitNotice_eq_dec : EqDecision LimitNotice.
Proof. solve_decision. Defined.

(** [HardLimitError] wraps [ErrBudgetExceeded] with its notice. *)
Inductive error :=
| ErrInvalid | HardLimitError (notice : LimitNotice) | ErrAccountNotFound | ErrAccountInactive | ErrIdempotencyConflict
| ErrRetryExhausted | ErrConflict | ErrUnavailable | ErrReservationNotFound | ErrSettlementConflict.

#[export] Instance error_eq_dec : EqDecision error.
Proof. solve_decision. Defined.

Inductive ScopeKind := ScopeTenant | ScopeProject | ScopeKey | ScopeUser | ScopeSession | ScopeOther (value : string).
Inductive AccountStatus := AccountOpen | AccountClosed | AccountOther (value : string).
Inductive ReservationStatus :=
| ReservationPending | ReservationSettled | ReservationCancelled | ReservationExpired | ReservationOther (value : string).
Inductive EntryKind := EntryReserve | EntrySettle | EntryRelease | EntryExpire | EntryAdjustment | EntryOther (value : string).
Inductive SettlementOutcome :=
| SettlementSucceeded | SettlementFailed | SettlementCancelled | SettlementCacheHit | SettlementOther (value : string).
Inductive ChargeKind := ChargeAttempt | ChargeCache | ChargeOther (value : string).

#[export] Instance ScopeKind_eq_dec : EqDecision ScopeKind.
Proof. solve_decision. Defined.
#[export] Instance AccountStatus_eq_dec : EqDecision AccountStatus.
Proof. solve_decision. Defined.
#[export] Instance ReservationStatus_eq_dec : EqDecision ReservationStatus.
Proof. solve_decision. Defined.
#[export] Instance EntryKind_eq_dec : EqDecision EntryKind.
Proof. solve_decision. Defined.
#[export] Instance ChargeKind_eq_dec : EqDecision ChargeKind.
Proof. solve_decision. Defined.

Definition EntryKind_string (kind : EntryKind) : string :=
  match kind with
  | EntryReserve => "reserve" | EntrySettle => "settle" | EntryRelease => "release"
  | EntryExpire => "expire" | EntryAdjustment => "adjustment" | EntryOther s => s
  end.

Definition ChargeKind_string (kind : ChargeKind) : string :=
  match kind with ChargeAttempt => "attempt" | ChargeCache => "cache" | ChargeOther s => s end.

Record Scope := {
  Kind : ScopeKind; TenantID : string; ProjectID : string; VirtualKeyID : string;
  PrincipalRef : string; SessionRef : string }.

Record Account := {
  acc_ID : string; acc_Scope : Scope; acc_Currency : string;
  acc_PeriodStart : Time; acc_PeriodEnd : Time;
  acc_SoftLimit : Z; acc_HardLimit : Z; acc_Committed : Z; acc_Reserved : Z;
  acc_Status : AccountStatus; acc_Version : Z;
  acc_CreatedAt : Time; acc_CreatedBy : string; acc_UpdatedAt : Time; acc_UpdatedBy : string;
  acc_ClosedAt : option Time }.

Record Reservation := {
  res_ID : string; res_TenantID : string; res_AccountID : string; res_RequestID : string;
  res_IdempotencyKey : string; res_Status : ReservationStatus; res_Reserved : Z;
  res_Actual : option Z; res_Released : option Z; res_Overage : option Z;
  res_ExpiresAt : Time; res_Version : Z;
  res_CreatedAt : Time; res_CreatedBy : string; res_UpdatedAt : Time; res_UpdatedBy : string;
  res_TerminalAt : option Time }.

Record LedgerEntry := {
  ent_ID : Z; ent_TenantID : string; ent_AccountID : string; ent_ReservationID : string;
  ent_Kind : EntryKind; ent_IdempotencyKey : string;
  ent_CommittedDelta : Z; ent_ReservedDelta : Z; ent_ResultCommitted : Z; ent_ResultReserved : Z;
  ent_OccurredAt : Time; ent_CreatedBy : string }.

(** ** Validation *)
Definition is_empty (s : string) : bool := bool_decide (s = ""%string).

Definition Scope_Validate (scope : Scope) : bool :=
  uuidPattern (TenantID scope) &&
  match Kind scope with
  | ScopeTenant =>
      is_empty (ProjectID scope) && is_empty (VirtualKeyID scope) && is_empty (PrincipalRef scope) && is_empty (SessionRef scope)
  | ScopeProject =>
      uuidPattern (ProjectID scope) && is_empty (VirtualKeyID scope) && is_empty (PrincipalRef scope) && is_empty (SessionRef scope)
  | ScopeKey =>
      uuidPattern (ProjectID scope) && uuidPattern (VirtualKeyID scope) && is_empty (PrincipalRef scope) && is_empty (SessionRef scope)
  | ScopeUser =>
      is_empty (ProjectID scope) && is_empty (VirtualKeyID scope) && refPattern (PrincipalRef scope) && is_empty (SessionRef scope)
  | ScopeSession =>
      is_empty (ProjectID scope) && is_empty (VirtualKeyID scope) && is_empty (PrincipalRef scope) && refPattern (SessionRef scope)
  | ScopeOther _ => false
  end.

Definition validAmount (value : Z) : bool := (0 <? value) && (value <=? MaximumAmount).

Definition validDelta (value : Z) : bool := (- MaximumAmount <=? value) && (value <=? MaximumAmount).

Definition reservationDifference (reserved actual : Z) : Z * Z :=
  if actual <=? reserved then (u64_sub reserved actual, 0) else (0, u64_sub actual reserved).

Definition validDegradationHint (hint : DegradationHint) : bool :=
  match hint with DegradeOther _ => false | _ => true end.

(** [committed] and [reserved] each fit and so does their sum. *)
Definition balances_ok (committed reserved : Z) : bool :=
  (committed <=? MaximumAmount) && (reserved <=? MaximumAmount) &&
  (committed <=? u64_sub MaximumAmount reserved).

Definition Account_Validate (account : Account) : bool :=
  uuidPattern (acc_ID account) && Scope_Validate (acc_Scope account) &&
  currencyPattern (acc_Currency account) && negb (time_is_zero (acc_PeriodStart account)) &&
  time_after (acc_PeriodEnd account) (acc_PeriodStart account) &&
  validAmount (acc_SoftLimit account) && validAmount (acc_HardLimit account) &&
  (acc_SoftLimit account <=? acc_HardLimit account) &&
  balances_ok (acc_Committed account) (acc_Reserved account) && (1 <=? acc_Version account) &&
  negb (time_is_zero (acc_CreatedAt account)) &&
  negb (time_before (acc_UpdatedAt account) (acc_CreatedAt account)) &&
  validActor (acc_CreatedBy account) && validActor (acc_UpdatedBy account) &&
  bool_decide (acc_Status account = AccountOpen \/ acc_Status account = AccountClosed) &&
  Bool.eqb (bool_decide (acc_Status account = AccountClosed)) (bool_decide (is_Some (acc_ClosedAt account))) &&
  match acc_ClosedAt account with
  | Some closed => negb (time_before closed (acc_CreatedAt account))
  | None => true
  end.

Definition Reservation_Validate (r : Reservation) : bool :=
  uuidPattern (res_ID r) && uuidPattern (res_TenantID r) && uuidPattern (res_AccountID r) &&
  refPattern (res_RequestID r) && refPattern (res_IdempotencyKey r) && validAmount (res_Reserved r) &&
  negb (time_is_zero (res_CreatedAt r)) && time_after (res_ExpiresAt r) (res_CreatedAt r) &&
  negb (time_before (res_UpdatedAt r) (res_CreatedAt r)) && (1 <=? res_Version r) &&
  validActor (res_CreatedBy r) && validActor (res_UpdatedBy r) &&
  match res_Status r with
  | ReservationPending =>
      match res_Actual r, res_Released r, res_Overage r, res_TerminalAt r with
      | None, None, None, None => true
      | _, _, _, _ => false
      end
  | ReservationSettled | ReservationCancelled | ReservationExpired =>
      match res_Actual r, res_Released r, res_Overage r, res_TerminalAt r with
      | Some actual, Some released, Some overage, Some terminal =>
          negb (time_before terminal (res_CreatedAt r)) &&
          (actual <=? MaximumAmount) && (released <=? MaximumAmount) && (overage <=? MaximumAmount) &&
          bool_decide ((released, overage) = reservationDifference (res_Reserved r) actual)
      | _, _, _, _ => false
      end
  | ReservationOther _ => false
  end.

Definition LedgerEntry_Validate (entry : LedgerEntry) : bool :=
  (1 <=? ent_ID entry) && uuidPattern (ent_TenantID entry) && uuidPattern (ent_AccountID entry) &&
  refPattern (ent_IdempotencyKey entry) && negb (time_is_zero (ent_OccurredAt entry)) &&
  validActor (ent_CreatedBy entry) && validDelta (ent_CommittedDelta entry) && validDelta (ent_ReservedDelta entry) &&
  negb ((ent_CommittedDelta entry =? 0) && (ent_ReservedDelta entry =? 0)) &&
  balances_ok (ent_ResultCommitted entry) (ent_ResultReserved entry) &&
  let hasReservation := uuidPattern (ent_ReservationID entry) in
  match ent_Kind entry with
  | EntryReserve => hasReservation && (ent_CommittedDelta entry =? 0) && (0 <? ent_ReservedDelta entry)
  | EntrySettle => hasReservation && (0 <=? ent_CommittedDelta entry) && (ent_ReservedDelta entry <? 0)
  | EntryRelease | EntryExpire => hasReservation && (ent_CommittedDelta entry =? 0) && (ent_ReservedDelta entry <? 0)
  | EntryAdjustment => is_empty (ent_ReservationID entry)
  | EntryOther _ => false
  end.

(** ** Amount conversions between [uint64] facts and [int64] columns *)
Definition signedExactAmount (value : Z) : option Z :=
  if MaximumAmount <? value then None else Some value.
Definition signedStoredAmount (value : Z) : Z :=
  match signedExactAmount value with Some v => v | None => 0 end.
Definition unsignedStoredAmount (value : Z) : option Z :=
  if (value <? 0) || (MaximumAmount <? value) then None else Some value.

Definition postgresTime (value : Time) : Time := time_truncate value microsecond.

(** ** Reservation commands *)
Record ReserveInput := {
  ri_TenantID : string; ri_AccountID : string; ri_RequestID : string; ri_IdempotencyKey : string;
  ri_Amount : Z; ri_ExpiresAt : Time; ri_Actor : string; ri_Hint : DegradationHint }.

Definition ReserveInput_Validate (input : ReserveInput) : bool :=
  uuidPattern (ri_TenantID input) && uuidPattern (ri_AccountID input) &&
  refPattern (ri_RequestID input) && refPattern (ri_IdempotencyKey input) &&
  validAmount (ri_Amount input) && negb (time_is_zero (ri_ExpiresAt input)) &&
  validActor (ri_Actor input) && validDegradationHint (ri_Hint input).

Definition defaultReserveMaxAttempts : Z := 128.
Definition defaultReserveRetryDelay : Duration := 250 * microsecond.
Definition MaximumReserveAttempts : Z := 256.

Record ReserveOptions := { MaxAttempts : Z; RetryDelay : Duration }.

Definition ReserveOptions_normalized (options : ReserveOptions) : result ReserveOptions error :=
  let attempts := if MaxAttempts options =? 0 then defaultReserveMaxAttempts else MaxAttempts options in
  let delay := if RetryDelay options =? 0 then defaultReserveRetryDelay else RetryDelay options in
  ensure ((1 <=? attempts) && (attempts <=? MaximumReserveAttempts) && (0 <=? delay) && (delay <=? second))
    else ErrInvalid in
  Ok {| MaxAttempts := attempts; RetryDelay := delay |}.

Definition defaultReaperBatchSize : Z := 100.
Definition MaximumReaperBatchSize : Z := 1000.

Record ReaperOptions := { BatchSize : Z; reaper_Retries : ReserveOptions }.

Definition ReaperOptions_normalized (options : ReaperOptions) : result ReaperOptions error :=
  let batch := if BatchSize options =? 0 then defaultReaperBatchSize else BatchSize options in
  ensure ((1 <=? batch) && (batch <=? MaximumReaperBatchSize)) else ErrInvalid in
  let? retries := ReserveOptions_normalized (reaper_Retries options) in
  Ok {| BatchSize := batch; reaper_Retries := retries |}.

(** ** Limit notices *)
Definition LimitNotice_Validate (notice : LimitNotice) : bool :=
  (notice_Remaining notice <=? MaximumAmount) && negb (time_is_zero (notice_ResetAt notice)) &&
  validDegradationHint (notice_Hint notice).

Definition remaining_under (hard spent : Z) : Z := if spent <? hard then u64_sub hard spent else 0.

Definition newBudgetLimitNotice (level : LimitLevel) (account : Account) (spent : Z) (hint : DegradationHint) : LimitNotice :=
  {| notice_Level := level; notice_Remaining := remaining_under (acc_HardLimit account) spent;
     notice_ResetAt := acc_PeriodEnd account; notice_Hint := hint |}.

Definition newBudgetExceededError (account : Account) (hint : DegradationHint) : error :=
  HardLimitError (newBudgetLimitNotice LimitHard account (u64_add (acc_Committed account) (acc_Reserved account)) hint).

(** ** Results built from committed rows *)
Record ReserveResult := {
  rr_Reservation : Reservation; rr_LedgerEntry : LedgerEntry; rr_AccountVersion : Z;
  rr_ResultCommitted : Z; rr_ResultReserved : Z; rr_RemainingHard : Z; rr_SoftLimitExceeded : bool;
  rr_LimitNotice : option LimitNotice; rr_Idempotent : bool; rr_Attempts : Z }.

Definition buildReserveResult (account : Account) (reservation : Reservation) (entry : LedgerEntry)
    (hint : DegradationHint) (idempotent : bool) (attempts : Z) : result ReserveResult error :=
  ensure (Account_Validate account && Reservation_Validate reservation && LedgerEntry_Validate entry &&
          bool_decide (res_TenantID reservation = TenantID (acc_Scope account)) &&
          bool_decide (res_AccountID reservation = acc_ID account) &&
          bool_decide (ent_TenantID entry = TenantID (acc_Scope account)) &&
          bool_decide (ent_AccountID entry = acc_ID account) &&
          bool_decide (ent_ReservationID entry = res_ID reservation) &&
          bool_decide (ent_Kind entry = EntryReserve) && validDegradationHint hint &&
          bool_decide (ent_IdempotencyKey entry = res_IdempotencyKey reservation) && (1 <=? attempts))
    else ErrUnavailable in
  let spent := u64_add (ent_ResultCommitted entry) (ent_ResultReserved entry) in
  let softLimitExceeded := acc_SoftLimit account <? spent in
  let notice := newBudgetLimitNotice LimitSoft account spent hint in
  ensure (negb softLimitExceeded || LimitNotice_Validate notice) else ErrUnavailable in
  Ok {| rr_Reservation := reservation; rr_LedgerEntry := entry; rr_AccountVersion := acc_Version account;
        rr_ResultCommitted := ent_ResultCommitted entry; rr_ResultReserved := ent_ResultReserved entry;
        rr_RemainingHard := remaining_under (acc_HardLimit account) spent;
        rr_SoftLimitExceeded := softLimitExceeded;
        rr_LimitNotice := if softLimitExceeded then Some notice else None;
        rr_Idempotent := idempotent; rr_Attempts := attempts |}.

(** ** Settlement commands *)
Record SettlementCharge := { charge_Kind : ChargeKind; charge_ReferenceID : string; charge_Amount : Z }.
Record SettlementInput := {
  si_TenantID : string; si_AccountID : string; si_ReservationID : string; si_RequestID : string;
  si_Outcome : SettlementOutcome; si_Charges : list SettlementCharge; si_Actor : string }.

Definition charge_ok (charge : SettlementCharge) : bool :=
  (charge_Amount charge <=? MaximumAmount) &&
  match charge_Kind charge with
  | ChargeAttempt => uuidPattern (charge_ReferenceID charge)
  | ChargeCache => refPattern (charge_ReferenceID charge)
  | ChargeOther _ => false
  end.

Definition charge_identity (charge : SettlementCharge) : string :=
  (ChargeKind_string (charge_Kind charge) +:+ ":" +:+ charge_ReferenceID charge)%string.

(** The charge loop of [SettlementInput.Validate]: sources seen so far and the running sum. *)
Fixpoint charges_ok (charges : list SettlementCharge) (seen : list string) (actual : Z) : bool :=
  match charges with
  | [] => true
  | charge :: rest =>
      charge_ok charge && negb (bool_decide (charge_identity charge ∈ seen)) &&
      negb (u64_sub MaximumAmount (charge_Amount charge) <? actual) &&
      charges_ok rest (charge_identity charge :: seen) (u64_add actual (charge_Amount charge))
  end.

Definition allChargesAre (charges : list SettlementCharge) (kind : ChargeKind) : bool :=
  forallb (fun charge => bool_decide (charge_Kind charge = kind)) charges.

Definition SettlementInput_Validate (input : SettlementInput) : bool :=
  uuidPattern (si_TenantID input) && uuidPattern (si_AccountID input) && uuidPattern (si_ReservationID input) &&
  refPattern (si_RequestID input) && validActor (si_Actor input) &&
  charges_ok (si_Charges input) [] 0 &&
  match si_Outcome input with
  | SettlementSucceeded =>
      negb (Nat.eqb (length (si_Charges input)) 0) && allChargesAre (si_Charges input) ChargeAttempt
  | SettlementFailed | SettlementCancelled => allChargesAre (si_Charges input) ChargeAttempt
  | SettlementCacheHit =>
      match si_Charges input with [charge] => bool_decide (charge_Kind charge = ChargeCache) | _ => false end
  | SettlementOther _ => false
  end.

Definition ActualMicros (input : SettlementInput) : result Z error :=
  ensure (SettlementInput_Validate input) else ErrInvalid in
  Ok (foldl (fun actual charge => u64_add actual (charge_Amount charge)) 0 (si_Charges input)).

Definition settlementReservationStatus (outcome : SettlementOutcome) : ReservationStatus :=
  match outcome with SettlementCancelled => ReservationCancelled | _ => ReservationSettled end.

Definition settlementEntryKind (outcome : SettlementOutcome) (actual : Z) : EntryKind :=
  match outcome with
  | SettlementCancelled => if actual =? 0 then EntryRelease else EntrySettle
  | _ => EntrySettle
  end.

Definition settlementLedgerKey (kind : EntryKind) (reservationID : string) : string :=
  (EntryKind_string kind +:+ ":" +:+ reservationID)%string.

Definition expirationLedgerKey (reservationID : string) : string :=
  (EntryKind_string EntryExpire +:+ ":" +:+ reservationID)%string.

Record SettlementResult := {
  sr_Reservation : Reservation; sr_LedgerEntry : LedgerEntry; sr_Outcome : SettlementOutcome;
  sr_AccountVersion : Z; sr_Actual : Z; sr_Released : Z; sr_Overage : Z;
  sr_ResultCommitted : Z; sr_ResultReserved : Z; sr_RemainingHard : Z; sr_SoftLimitExceeded : bool;
  sr_Idempotent : bool; sr_Attempts : Z }.

Definition buildSettlementResult (account : Account) (reservation : Reservation) (entry : LedgerEntry)
    (outcome : SettlementOutcome) (idempotent : bool) (attempts : Z) : result SettlementResult error :=
  match res_Actual reservation, res_Released reservation, res_Overage reservation with
  | Some actual, Some released, Some overage =>
      ensure (Account_Validate account && Reservation_Validate reservation && LedgerEntry_Validate entry &&
              (1 <=? attempts) &&
              bool_decide (res_TenantID reservation = TenantID (acc_Scope account)) &&
              bool_decide (res_AccountID reservation = acc_ID account) &&
              bool_decide (ent_TenantID entry = TenantID (acc_Scope account)) &&
              bool_decide (ent_AccountID entry = acc_ID account) &&
              bool_decide (ent_ReservationID entry = res_ID reservation)) else ErrUnavailable in
      match signedExactAmount actual with
      | None => Err ErrUnavailable
      | Some committedDelta =>
          let expectedKind := settlementEntryKind outcome actual in
          ensure (bool_decide (res_Status reservation = settlementReservationStatus outcome) &&
                  bool_decide (ent_Kind entry = expectedKind) &&
                  bool_decide (ent_IdempotencyKey entry = settlementLedgerKey expectedKind (res_ID reservation)) &&
                  (ent_CommittedDelta entry =? committedDelta) &&
                  (ent_ReservedDelta entry =? - signedStoredAmount (res_Reserved reservation))) else ErrUnavailable in
          let spent := u64_add (ent_ResultCommitted entry) (ent_ResultReserved entry) in
          Ok {| sr_Reservation := reservation; sr_LedgerEntry := entry; sr_Outcome := outcome;
                sr_AccountVersion := acc_Version account; sr_Actual := actual; sr_Released := released;
                sr_Overage := overage; sr_ResultCommitted := ent_ResultCommitted entry;
                sr_ResultReserved := ent_ResultReserved entry;
                sr_RemainingHard := remaining_under (acc_HardLimit account) spent;
                sr_SoftLimitExceeded := acc_SoftLimit account <? spent;
                sr_Idempotent := idempotent; sr_Attempts := attempts |}
      end
  | _, _, _ => Err ErrUnavailable
  end.

Record ExpirationEvent := {
  ee_EventID : string; ee_Reservation : Reservation; ee_LedgerEntry : LedgerEntry; ee_AccountVersion : Z;
  ee_Released : Z; ee_ResultCommitted : Z; ee_ResultReserved : Z; ee_OccurredAt : Time; ee_Attempts : Z }.

Definition buildExpirationEvent (account : Account) (reservation : Reservation) (entry : LedgerEntry)
    (attempts : Z) : result ExpirationEvent error :=
  match res_Actual reservation, res_Released reservation, res_Overage reservation, res_TerminalAt reservation with
  | Some actual, Some released, Some overage, Some terminal =>
      ensure (Account_Validate account && Reservation_Validate reservation && LedgerEntry_Validate entry &&
              (1 <=? attempts) && bool_decide (res_Status reservation = ReservationExpired) &&
              (actual =? 0) && (released =? res_Reserved reservation) && (overage =? 0) &&
              bool_decide (res_TenantID reservation = TenantID (acc_Scope account)) &&
              bool_decide (res_AccountID reservation = acc_ID account) &&
              bool_decide (ent_TenantID entry = res_TenantID reservation) &&
              bool_decide (ent_AccountID entry = res_AccountID reservation) &&
              bool_decide (ent_ReservationID entry = res_ID reservation) &&
              bool_decide (ent_Kind entry = EntryExpire) &&
              bool_decide (ent_IdempotencyKey entry = expirationLedgerKey (res_ID reservation)) &&
              (ent_CommittedDelta entry =? 0) &&
              (ent_ReservedDelta entry =? - signedStoredAmount (res_Reserved reservation)) &&
              (ent_ResultCommitted entry =? acc_Committed account) &&
              (ent_ResultReserved entry =? acc_Reserved account) &&
              (ent_OccurredAt entry =? terminal) &&
              negb (time_before (ent_OccurredAt entry) (res_ExpiresAt reservation))) else ErrUnavailable in
      Ok {| ee_EventID := expirationLedgerKey (res_ID reservation); ee_Reservation := reservation;
            ee_LedgerEntry := entry; ee_AccountVersion := acc_Version account;
            ee_Released := res_Reserved reservation; ee_ResultCommitted := ent_ResultCommitted entry;
            ee_ResultReserved := ent_ResultReserved entry; ee_OccurredAt := ent_OccurredAt entry;
            ee_Attempts := attempts |}
  | _, _, _, _ => Err ErrUnavailable
  end.
