(* ===== verification/BudgetStore.v ===== *)
(** * Budget transactions (src/internal/budget/postgres_{reserver,settler,reaper}.go)

    The three tables the transactions touch, and one definition per transaction.
    PostgreSQL itself is not under src/: its rows are the records of [Budget], its
    statements are the SQL the Go code sends, and everything a statement may do
    besides (fail with an error code, see another committed snapshot under READ
    COMMITTED, skip rows locked by a peer) is an argument of the transaction, so a
    theorem about a transaction holds for every such behaviour. The constraints of
    migrations/000011_create_budget_ledger.up.sql that can reject these statements
    (primary key, idempotency and request foreign key) are checked by the writes. *)
From Stdlib Require Import ZArith Lia Bool Ascii String.
From stdpp Require Import base tactics option list strings gmap fin_maps sets.
From S2P Require Import Prelude Postgres Identifiers Budget.
(** ** Tables *)
Record DB := {
  db_accounts : gmap (string * string) Account;
  db_reservations : list Reservation;
  db_ledger : list LedgerEntry;
  db_next_entry : Z;
  db_requests : gmap (string * string) string }.

Definition account_key (account : Account) : string * string := (TenantID (acc_Scope account), acc_ID account).

Definition set_account (db : DB) (account : Account) : DB :=
  {| db_accounts := <[account_key account := account]> (db_accounts db); db_reservations := db_reservations db;
     db_ledger := db_ledger db; db_next_entry := db_next_entry db; db_requests := db_requests db |}.
Definition set_reservations (db : DB) (rows : list Reservation) : DB :=
  {| db_accounts := db_accounts db; db_reservations := rows; db_ledger := db_ledger db;
     db_next_entry := db_next_entry db; db_requests := db_requests db |}.
Definition append_entry (db : DB) (entry : LedgerEntry) : DB :=
  {| db_accounts := db_accounts db; db_reservations := db_reservations db; db_ledger := db_ledger db ++ [entry];
     db_next_entry := db_next_entry db + 1; db_requests := db_requests db |}.

(** ** Errors of a statement *)
Inductive stmt_error := NoRows | Failed (failure : db_failure) | BadRow.

Definition isIdempotencyUniqueViolation (e : stmt_error) : bool :=
  match e with
  | Failed (PqError code constraint) =>
      bool_decide (code = "23505"%string) &&
      bool_decide (constraint = "budget_reservations_account_idempotency_unique"%string)
  | _ => false
  end.

Definition isRetryableReserveDatabaseError (e : stmt_error) : bool :=
  match e with
  | Failed (PqError code _) => bool_decide (code = "40001"%string) || bool_decide (code = "40P01"%string)
  | _ => false
  end.

Definition mapReserveDatabaseError (e : stmt_error) : error :=
  match e with
  | Failed (PqError code _) =>
      if bool_decide (code ∈ ["23503"; "23505"; "23514"]%string) then ErrConflict else ErrUnavailable
  | _ => ErrUnavailable
  end.

(** ** The environment of one transaction: the committed snapshots its reads see,
    the state in which its writes run, the database clock, and injected faults. *)
Inductive Statement :=
| StBegin | StReservation | StRequest | StAccount | StLedger | StUpdateAccount | StWriteReservation | StInsertEntry.

Record Env := {
  env_reservation : DB; env_request : DB; env_account : DB; env_ledger : DB;
  env_now : DB; env_clock : Time;
  env_fault : Statement -> option db_failure;
  env_commit : option (db_failure * bool) }.

Definition run {T : Type} (env : Env) (st : Statement) (r : result T stmt_error) : result T stmt_error :=
  match env_fault env st with Some f => Err (Failed f) | None => r end.

(** COMMIT: a reply from the server means the transaction was rolled back; a lost
    connection leaves open whether it was applied. *)
Definition commit (env : Env) (db : DB) : DB * option stmt_error :=
  match env_commit env with
  | None => (db, None)
  | Some (PqError code constraint, _) => (env_now env, Some (Failed (PqError code constraint)))
  | Some (DriverError, applied) => (if applied then db else env_now env, Some (Failed DriverError))
  end.

Inductive outcome (T : Type) := Done (r : result T error) | Retry.
Arguments Done {T} r.
Arguments Retry {T}.

(** ** Row scanning *)
Definition scanBudgetAccount (row : Account) : result Account stmt_error :=
  match unsignedStoredAmount (acc_SoftLimit row), unsignedStoredAmount (acc_HardLimit row),
        unsignedStoredAmount (acc_Committed row), unsignedStoredAmount (acc_Reserved row) with
  | Some _, Some _, Some _, Some _ => if Account_Validate row then Ok row else Err BadRow
  | _, _, _, _ => Err BadRow
  end.

Definition stored_opt (v : option Z) : bool :=
  match v with Some x => match unsignedStoredAmount x with Some _ => true | None => false end | None => true end.

Definition scanBudgetReservation (row : Reservation) : result Reservation stmt_error :=
  match unsignedStoredAmount (res_Reserved row) with
  | Some _ =>
      if stored_opt (res_Actual row) && stored_opt (res_Released row) && stored_opt (res_Overage row) &&
         Reservation_Validate row then Ok row else Err BadRow
  | None => Err BadRow
  end.

Definition scanBudgetLedger (row : LedgerEntry) : result LedgerEntry stmt_error :=
  match unsignedStoredAmount (ent_ResultCommitted row), unsignedStoredAmount (ent_ResultReserved row) with
  | Some _, Some _ => if LedgerEntry_Validate row then Ok row else Err BadRow
  | _, _ => Err BadRow
  end.

Definition scan {T : Type} (scanner : T -> result T stmt_error) (row : option T) : result T stmt_error :=
  match row with Some r => scanner r | None => Err NoRows end.

(** ** Queries *)
Definition loadBudgetAccount (env : Env) (tenantID accountID : string) : result Account stmt_error :=
  run env StAccount (scan scanBudgetAccount (db_accounts (env_account env) !! (tenantID, accountID))).

Definition reservation_by_key (tenantID accountID key : string) (r : Reservation) : bool :=
  bool_decide (res_TenantID r = tenantID) && bool_decide (res_AccountID r = accountID) &&
  bool_decide (res_IdempotencyKey r = key).

Definition reservation_by_id (tenantID accountID id : string) (r : Reservation) : bool :=
  bool_decide (res_TenantID r = tenantID) && bool_decide (res_AccountID r = accountID) && bool_decide (res_ID r = id).

Definition loadBudgetReservation (env : Env) (tenantID accountID reservationID : string) : result Reservation stmt_error :=
  run env StReservation
    (scan scanBudgetReservation
      (find (reservation_by_id tenantID accountID reservationID) (db_reservations (env_reservation env)))).

Definition loadBudgetRequestStatus (env : Env) (tenantID requestID : string) : result string stmt_error :=
  run env StRequest
    (match db_requests (env_request env) !! (tenantID, requestID) with Some s => Ok s | None => Err NoRows end).

Definition select_ledger (env : Env) (tenantID accountID reservationID : string) (kind : EntryKind) (key : string)
    : result LedgerEntry stmt_error :=
  run env StLedger
    (scan scanBudgetLedger
      (find (fun e => bool_decide (ent_TenantID e = tenantID) && bool_decide (ent_AccountID e = accountID) &&
                      bool_decide (ent_ReservationID e = reservationID) && bool_decide (ent_Kind e = kind) &&
                      bool_decide (ent_IdempotencyKey e = key)) (db_ledger (env_ledger env)))).

(** ** Writes *)
Definition greatest (a b : Time) : Time := Z.max a b.

(** INSERT INTO app.budget_reservations with its key constraints. *)
Definition insert_reservation (db : DB) (row : Reservation) : result (DB * Reservation) stmt_error :=
  if existsb (fun r => bool_decide (res_ID r = res_ID row)) (db_reservations db)
  then Err (Failed (PqError "23505" "budget_reservations_pkey"))
  else if existsb (fun r => bool_decide (res_AccountID r = res_AccountID row) &&
                            bool_decide (res_IdempotencyKey r = res_IdempotencyKey row)) (db_reservations db)
  then Err (Failed (PqError "23505" "budget_reservations_account_idempotency_unique"))
  else match db_requests db !! (res_TenantID row, res_RequestID row) with
  | None => Err (Failed (PqError "23503" "budget_reservations_request_fk"))
  | Some _ =>
      let? scanned := scanBudgetReservation row in
      Ok (set_reservations db (db_reservations db ++ [row]), scanned)
  end.

(** INSERT INTO app.budget_ledger_entries with its unique account/key constraint;
    the identity column supplies the entry's ID. *)
Definition insert_ledger (db : DB) (row : LedgerEntry) : result (DB * LedgerEntry) stmt_error :=
  if existsb (fun e => bool_decide (ent_AccountID e = ent_AccountID row) &&
                       bool_decide (ent_IdempotencyKey e = ent_IdempotencyKey row)) (db_ledger db)
  then Err (Failed (PqError "23505" "budget_ledger_entries_account_idempotency_unique"))
  else
    let? scanned := scanBudgetLedger row in
    Ok (append_entry db row, scanned).

(** UPDATE app.budget_accounts SET ... WHERE key AND guard RETURNING ... *)
Definition update_account (db : DB) (key : string * string) (guard : Account -> bool) (change : Account -> Account)
    : result (DB * Account) stmt_error :=
  match db_accounts db !! key with
  | Some row =>
      if guard row then
        let? scanned := scanBudgetAccount (change row) in Ok (set_account db (change row), scanned)
      else Err NoRows
  | None => Err NoRows
  end.

(** UPDATE app.budget_reservations SET ... WHERE key AND guard RETURNING ... *)
Definition update_reservation (db : DB) (key : Reservation -> bool) (guard : Reservation -> bool)
    (change : Reservation -> Reservation) : result (DB * Reservation) stmt_error :=
  match find (fun r => key r && guard r) (db_reservations db) with
  | Some row =>
      let? scanned := scanBudgetReservation (change row) in
      Ok (set_reservations db ((fun r => if key r && guard r then change r else r) <$> db_reservations db), scanned)
  | None => Err NoRows
  end.

(** The balance change of an account row: version, balances and audit columns. *)
Definition adjust_account (committedDelta reservedDelta : Z) (clock : Time) (actor : string) (row : Account) : Account :=
  {| acc_ID := acc_ID row; acc_Scope := acc_Scope row; acc_Currency := acc_Currency row;
     acc_PeriodStart := acc_PeriodStart row; acc_PeriodEnd := acc_PeriodEnd row;
     acc_SoftLimit := acc_SoftLimit row; acc_HardLimit := acc_HardLimit row;
     acc_Committed := acc_Committed row + committedDelta; acc_Reserved := acc_Reserved row + reservedDelta;
     acc_Status := acc_Status row; acc_Version := acc_Version row + 1;
     acc_CreatedAt := acc_CreatedAt row; acc_CreatedBy := acc_CreatedBy row;
     acc_UpdatedAt := greatest (acc_UpdatedAt row) clock; acc_UpdatedBy := actor; acc_ClosedAt := acc_ClosedAt row |}.

Definition terminate_reservation (status : ReservationStatus) (actual released overage : Z) (at_ : Time) (actor : string)
    (row : Reservation) : Reservation :=
  {| res_ID := res_ID row; res_TenantID := res_TenantID row; res_AccountID := res_AccountID row;
     res_RequestID := res_RequestID row; res_IdempotencyKey := res_IdempotencyKey row; res_Status := status;
     res_Reserved := res_Reserved row; res_Actual := Some actual; res_Released := Some released;
     res_Overage := Some overage; res_ExpiresAt := res_ExpiresAt row; res_Version := res_Version row + 1;
     res_CreatedAt := res_CreatedAt row; res_CreatedBy := res_CreatedBy row; res_UpdatedAt := at_;
     res_UpdatedBy := actor; res_TerminalAt := Some at_ |}.

(** ** Reserve *)

(** [loadExistingReserve]: [None] when no reservation carries the key. *)
Definition loadExistingReserve (env : Env) (input : ReserveInput) (attempt : Z) : option (result ReserveResult error) :=
  match run env StReservation
          (scan scanBudgetReservation
            (find (reservation_by_key (ri_TenantID input) (ri_AccountID input) (ri_IdempotencyKey input))
              (db_reservations (env_reservation env)))) with
  | Err NoRows => None
  | Err _ => Some (Err ErrUnavailable)
  | Ok reservation =>
      if negb (bool_decide (res_RequestID reservation = ri_RequestID input) &&
               (res_Reserved reservation =? ri_Amount input) && (res_ExpiresAt reservation =? ri_ExpiresAt input))
      then Some (Err ErrIdempotencyConflict)
      else match loadBudgetAccount env (ri_TenantID input) (ri_AccountID input) with
      | Err _ => Some (Err ErrUnavailable)
      | Ok account =>
          match select_ledger env (ri_TenantID input) (ri_AccountID input) (res_ID reservation) EntryReserve
                  (ri_IdempotencyKey input) with
          | Err _ => Some (Err ErrUnavailable)
          | Ok entry => Some (buildReserveResult account reservation entry (ri_Hint input) true attempt)
          end
      end
  end.

Definition pending_row (id : string) (input : ReserveInput) (amount : Z) (at_ : Time) : Reservation :=
  {| res_ID := id; res_TenantID := ri_TenantID input; res_AccountID := ri_AccountID input;
     res_RequestID := ri_RequestID input; res_IdempotencyKey := ri_IdempotencyKey input;
     res_Status := ReservationPending; res_Reserved := amount; res_Actual := None; res_Released := None;
     res_Overage := None; res_ExpiresAt := ri_ExpiresAt input; res_Version := 1;
     res_CreatedAt := at_; res_CreatedBy := ri_Actor input; res_UpdatedAt := at_; res_UpdatedBy := ri_Actor input;
     res_TerminalAt := None |}.

Definition ledger_row (db : DB) (tenantID accountID reservationID : string) (kind : EntryKind) (key : string)
    (committedDelta reservedDelta : Z) (updated : Account) (at_ : Time) (actor : string) : LedgerEntry :=
  {| ent_ID := db_next_entry db; ent_TenantID := tenantID; ent_AccountID := accountID;
     ent_ReservationID := reservationID; ent_Kind := kind; ent_IdempotencyKey := key;
     ent_CommittedDelta := committedDelta; ent_ReservedDelta := reservedDelta;
     ent_ResultCommitted := signedStoredAmount (acc_Committed updated);
     ent_ResultReserved := signedStoredAmount (acc_Reserved updated);
     ent_OccurredAt := at_; ent_CreatedBy := actor |}.

Definition reserve_guard (input : ReserveInput) (amount : Z) (version : Z) (clock : Time) (row : Account) : bool :=
  (acc_Version row =? version) && bool_decide (acc_Status row = AccountOpen) &&
  (acc_PeriodStart row <=? clock) && (clock <? acc_PeriodEnd row) &&
  (acc_Committed row + acc_Reserved row <=? acc_HardLimit row - amount).

(** What a failed write means to the retry loop. *)
Definition write_failed {T : Type} (retryable : stmt_error -> bool) (e : stmt_error) : outcome T :=
  if retryable e then Retry else Done (Err (mapReserveDatabaseError e)).

Definition no_rows (e : stmt_error) : bool := match e with NoRows => true | _ => false end.

(** One attempt of [Reserve]. [random] is the outcome of [newBudgetUUID]; the
    result carries the identity kept for the next attempt. *)
Definition reserveOnce (env : Env) (input : ReserveInput) (now : Time) (reservationID : string)
    (random : option string) (attempt : Z) : DB * string * outcome ReserveResult :=
  let stop r := (env_now env, reservationID, Done r) in
  match env_fault env StBegin with
  | Some _ => stop (Err ErrUnavailable)
  | None =>
  match loadExistingReserve env input attempt with
  | Some r => stop r
  | None =>
  match loadBudgetAccount env (ri_TenantID input) (ri_AccountID input) with
  | Err NoRows => stop (Err ErrAccountNotFound)
  | Err _ => stop (Err ErrUnavailable)
  | Ok account =>
  if negb (bool_decide (acc_Status account = AccountOpen)) || time_before now (acc_PeriodStart account) ||
     negb (time_before now (acc_PeriodEnd account)) then stop (Err ErrAccountInactive)
  else
  let spent := u64_add (acc_Committed account) (acc_Reserved account) in
  if (acc_HardLimit account <? ri_Amount input) || (u64_sub (acc_HardLimit account) (ri_Amount input) <? spent)
  then stop (Err (newBudgetExceededError account (ri_Hint input)))
  else
  match signedExactAmount (ri_Amount input) with
  | None => stop (Err ErrInvalid)
  | Some amount =>
  match (if bool_decide (reservationID = ""%string) then random else Some reservationID) with
  | None => stop (Err ErrUnavailable)
  | Some id =>
  let finish o := (env_now env, id, o) in
  match run env StUpdateAccount
          (update_account (env_now env) (ri_TenantID input, ri_AccountID input)
             (reserve_guard input amount (acc_Version account) (env_clock env))
             (adjust_account 0 amount (env_clock env) (ri_Actor input))) with
  | Err e => finish (write_failed (fun e => no_rows e || isRetryableReserveDatabaseError e) e)
  | Ok (db1, updated) =>
  let eventTime := acc_UpdatedAt updated in
  if negb (time_after (ri_ExpiresAt input) eventTime) then finish (Done (Err ErrInvalid))
  else
  match run env StWriteReservation (insert_reservation db1 (pending_row id input amount eventTime)) with
  | Err e => finish (write_failed (fun e => isIdempotencyUniqueViolation e || isRetryableReserveDatabaseError e) e)
  | Ok (db2, reservation) =>
  match run env StInsertEntry
          (insert_ledger db2 (ledger_row db2 (ri_TenantID input) (ri_AccountID input) id EntryReserve
             (ri_IdempotencyKey input) 0 amount updated eventTime (ri_Actor input))) with
  | Err e => finish (write_failed isRetryableReserveDatabaseError e)
  | Ok (db3, entry) =>
  match commit env db3 with
  | (db4, Some e) => (db4, id, if isRetryableReserveDatabaseError e then Retry else Done (Err ErrUnavailable))
  | (db4, None) => (db4, id, Done (buildReserveResult updated reservation entry (ri_Hint input) false attempt))
  end end end end end end end end end.

(** The conditions one attempt of a retry loop runs under. [w_cancelled] says that
    the context ended during the wait after a conflicting attempt. *)
Record World := { w_env : Env; w_now : Time; w_random : option string; w_cancelled : bool }.

(** The [for] loop of [Reserve] from attempt number [attempt] on: the state after
    each attempt made, and the result. [fuel] is the number of attempts left. *)
Fixpoint reserve_loop (fuel : nat) (attempt : Z) (worlds : Z -> World) (input : ReserveInput) (id : string)
    : list DB * result ReserveResult error :=
  match fuel with
  | O => ([], Err ErrRetryExhausted)
  | S fuel' =>
      let w := worlds attempt in
      let now := postgresTime (w_now w) in
      if time_is_zero now || negb (time_after (ri_ExpiresAt input) now) then ([], Err ErrInvalid)
      else
        match reserveOnce (w_env w) input now id (w_random w) attempt with
        | (db, _, Done r) => ([db], r)
        | (db, id', Retry) =>
            if Nat.eqb fuel' 0 then ([db], Err ErrRetryExhausted)
            else if w_cancelled w then ([db], Err ErrUnavailable)
            else let '(dbs, r) := reserve_loop fuel' (attempt + 1) worlds input id' in (db :: dbs, r)
        end
  end.

Definition with_expiry (input : ReserveInput) (at_ : Time) : ReserveInput :=
  {| ri_TenantID := ri_TenantID input; ri_AccountID := ri_AccountID input; ri_RequestID := ri_RequestID input;
     ri_IdempotencyKey := ri_IdempotencyKey input; ri_Amount := ri_Amount input; ri_ExpiresAt := at_;
     ri_Actor := ri_Actor input; ri_Hint := ri_Hint input |}.

Definition Reserve (ctx : Context) (options : ReserveOptions) (worlds : Z -> World) (input : ReserveInput)
    : list DB * result ReserveResult error :=
  if match ctx with ctx_nil => true | _ => false end || negb (ReserveInput_Validate input) then ([], Err ErrInvalid)
  else
    let expiresAt := postgresTime (ri_ExpiresAt input) in
    if time_is_zero expiresAt then ([], Err ErrInvalid)
    else reserve_loop (Z.to_nat (MaxAttempts options)) 1 worlds (with_expiry input expiresAt) "".

(** ** Settle *)
Definition requestStatusMatchesOutcome (status : string) (o : SettlementOutcome) : bool :=
  match o with
  | SettlementSucceeded | SettlementCacheHit => bool_decide (status = "succeeded"%string)
  | SettlementFailed => bool_decide (status = "failed"%string) || bool_decide (status = "partial_failed"%string)
  | SettlementCancelled => bool_decide (status = "cancelled"%string)
  | SettlementOther _ => false
  end.

Definition loadTerminalSettlement (env : Env) (input : SettlementInput) (reservation : Reservation) (actual : Z)
    (attempt : Z) : result SettlementResult error :=
  ensure (bool_decide (res_Status reservation = settlementReservationStatus (si_Outcome input)) &&
          bool_decide (res_Actual reservation = Some actual)) else ErrSettlementConflict in
  match loadBudgetAccount env (si_TenantID input) (si_AccountID input) with
  | Err _ => Err ErrUnavailable
  | Ok account =>
      let entryKind := settlementEntryKind (si_Outcome input) actual in
      match select_ledger env (si_TenantID input) (si_AccountID input) (si_ReservationID input) entryKind
              (settlementLedgerKey entryKind (si_ReservationID input)) with
      | Err _ => Err ErrUnavailable
      | Ok entry => buildSettlementResult account reservation entry (si_Outcome input) true attempt
      end
  end.

Definition settle_guard (actual reserved maximum version : Z) (row : Account) : bool :=
  (acc_Version row =? version) && (reserved <=? acc_Reserved row) && (acc_Committed row <=? maximum - actual) &&
  (acc_Committed row + actual <=? maximum - (acc_Reserved row - reserved)).

Definition pending_guard (version : Z) (row : Reservation) : bool :=
  bool_decide (res_Status row = ReservationPending) && (res_Version row =? version).

Definition retry_or_missing (e : stmt_error) : bool := no_rows e || isRetryableReserveDatabaseError e.

Definition settleOnce (env : Env) (input : SettlementInput) (actual : Z) (attempt : Z) : DB * outcome SettlementResult :=
  let stop r := (env_now env, Done r) in
  let finish o := (env_now env, o) in
  match env_fault env StBegin with
  | Some _ => stop (Err ErrUnavailable)
  | None =>
  match loadBudgetReservation env (si_TenantID input) (si_AccountID input) (si_ReservationID input) with
  | Err NoRows => stop (Err ErrReservationNotFound)
  | Err _ => stop (Err ErrUnavailable)
  | Ok reservation =>
  if negb (bool_decide (res_RequestID reservation = si_RequestID input)) then stop (Err ErrSettlementConflict)
  else
  match loadBudgetRequestStatus env (si_TenantID input) (si_RequestID input) with
  | Err _ => stop (Err ErrUnavailable)
  | Ok requestStatus =>
  if negb (requestStatusMatchesOutcome requestStatus (si_Outcome input)) then stop (Err ErrSettlementConflict)
  else if negb (bool_decide (res_Status reservation = ReservationPending))
  then stop (loadTerminalSettlement env input reservation actual attempt)
  else
  match loadBudgetAccount env (si_TenantID input) (si_AccountID input) with
  | Err _ => stop (Err ErrUnavailable)
  | Ok account =>
  if acc_Reserved account <? res_Reserved reservation then finish Retry
  else if u64_sub MaximumAmount (acc_Committed account) <? actual then stop (Err ErrConflict)
  else
  let remainingReserved := u64_sub (acc_Reserved account) (res_Reserved reservation) in
  let resultCommitted := u64_add (acc_Committed account) actual in
  if u64_sub MaximumAmount remainingReserved <? resultCommitted then stop (Err ErrConflict)
  else
  match signedExactAmount actual with
  | None => stop (Err ErrInvalid)
  | Some actualSigned =>
  let reservedSigned := signedStoredAmount (res_Reserved reservation) in
  let maximumSigned := signedStoredAmount MaximumAmount in
  match run env StUpdateAccount
          (update_account (env_now env) (si_TenantID input, si_AccountID input)
             (settle_guard actualSigned reservedSigned maximumSigned (acc_Version account))
             (adjust_account actualSigned (- reservedSigned) (env_clock env) (si_Actor input))) with
  | Err e => finish (write_failed retry_or_missing e)
  | Ok (db1, updated) =>
  let '(released, overage) := reservationDifference (res_Reserved reservation) actual in
  let eventTime := acc_UpdatedAt updated in
  match run env StWriteReservation
          (update_reservation db1
             (reservation_by_id (si_TenantID input) (si_AccountID input) (si_ReservationID input))
             (pending_guard (res_Version reservation))
             (terminate_reservation (settlementReservationStatus (si_Outcome input)) actualSigned
                (signedStoredAmount released) (signedStoredAmount overage) eventTime (si_Actor input))) with
  | Err e => finish (write_failed retry_or_missing e)
  | Ok (db2, terminal) =>
  let entryKind := settlementEntryKind (si_Outcome input) actual in
  match run env StInsertEntry
          (insert_ledger db2 (ledger_row db2 (si_TenantID input) (si_AccountID input) (si_ReservationID input)
             entryKind (settlementLedgerKey entryKind (si_ReservationID input)) actualSigned (- reservedSigned)
             updated eventTime (si_Actor input))) with
  | Err e => finish (write_failed isRetryableReserveDatabaseError e)
  | Ok (db3, entry) =>
  match commit env db3 with
  | (db4, Some e) => (db4, if isRetryableReserveDatabaseError e then Retry else Done (Err ErrUnavailable))
  | (db4, None) => (db4, Done (buildSettlementResult updated terminal entry (si_Outcome input) false attempt))
  end end end end end end end end end.

Fixpoint settle_loop (fuel : nat) (attempt : Z) (worlds : Z -> World) (input : SettlementInput) (actual : Z)
    : list DB * result SettlementResult error :=
  match fuel with
  | O => ([], Err ErrRetryExhausted)
  | S fuel' =>
      let w := worlds attempt in
      match settleOnce (w_env w) input actual attempt with
      | (db, Done r) => ([db], r)
      | (db, Retry) =>
          if Nat.eqb fuel' 0 then ([db], Err ErrRetryExhausted)
          else if w_cancelled w then ([db], Err ErrUnavailable)
          else let '(dbs, r) := settle_loop fuel' (attempt + 1) worlds input actual in (db :: dbs, r)
      end
  end.

Definition Settle (ctx : Context) (options : ReserveOptions) (worlds : Z -> World) (input : SettlementInput)
    : list DB * result SettlementResult error :=
  if match ctx with ctx_nil => true | _ => false end || negb (SettlementInput_Validate input) then ([], Err ErrInvalid)
  else match ActualMicros input with
  | Err e => ([], Err e)
  | Ok actual => settle_loop (Z.to_nat (MaxAttempts options)) 1 worlds input actual
  end.

(** ** Reap *)
Definition earlier (a b : Reservation) : bool :=
  (res_ExpiresAt a <? res_ExpiresAt b) ||
  ((res_ExpiresAt a =? res_ExpiresAt b) && String.ltb (res_ID a) (res_ID b)).

Definition earliest (rows : list Reservation) : option Reservation :=
  foldl (fun best r => match best with Some b => if earlier r b then Some r else Some b | None => Some r end) None rows.

(** ORDER BY expires_at, id FOR UPDATE SKIP LOCKED LIMIT 1: rows whose IDs are in
    [locked] are held by a peer, [clock] is the database clock of the SELECT. *)
Definition loadNextExpiredReservation (env : Env) (locked : list string) (clock : Time) : result Reservation stmt_error :=
  run env StReservation
    (scan scanBudgetReservation
      (earliest (filter (fun r => res_Status r = ReservationPending /\ res_ExpiresAt r <= clock /\ res_ID r ∉ locked)
        (db_reservations (env_reservation env))))).

Definition expire_guard (version : Z) (eventTime : Time) (row : Reservation) : bool :=
  pending_guard version row && (res_ExpiresAt row <=? eventTime).

(** [Done (Ok None)] is Go's [found = false]; [Retry] is its [conflict]. *)
Definition reapOnce (env : Env) (locked : list string) (clock : Time) (actor : string) (attempt : Z)
    : DB * outcome (option ExpirationEvent) :=
  let stop r := (env_now env, Done r) in
  let finish o := (env_now env, o) in
  match env_fault env StBegin with
  | Some _ => stop (Err ErrUnavailable)
  | None =>
  match loadNextExpiredReservation env locked clock with
  | Err NoRows => stop (Ok None)
  | Err _ => stop (Err ErrUnavailable)
  | Ok reservation =>
  match loadBudgetAccount env (res_TenantID reservation) (res_AccountID reservation) with
  | Err _ => stop (Err ErrUnavailable)
  | Ok account =>
  if acc_Reserved account <? res_Reserved reservation then stop (Err ErrConflict)
  else
  let reservedSigned := signedStoredAmount (res_Reserved reservation) in
  match run env StUpdateAccount
          (update_account (env_now env) (res_TenantID reservation, res_AccountID reservation)
             (fun row => (acc_Version row =? acc_Version account) && (reservedSigned <=? acc_Reserved row))
             (adjust_account 0 (- reservedSigned) (env_clock env) actor)) with
  | Err e => finish (write_failed retry_or_missing e)
  | Ok (db1, updated) =>
  let eventTime := acc_UpdatedAt updated in
  match run env StWriteReservation
          (update_reservation db1
             (reservation_by_id (res_TenantID reservation) (res_AccountID reservation) (res_ID reservation))
             (expire_guard (res_Version reservation) eventTime)
             (terminate_reservation ReservationExpired 0 reservedSigned 0 eventTime actor)) with
  | Err e => finish (write_failed retry_or_missing e)
  | Ok (db2, terminal) =>
  match run env StInsertEntry
          (insert_ledger db2 (ledger_row db2 (res_TenantID reservation) (res_AccountID reservation) (res_ID reservation)
             EntryExpire (expirationLedgerKey (res_ID reservation)) 0 (- reservedSigned) updated eventTime actor)) with
  | Err e => finish (write_failed isRetryableReserveDatabaseError e)
  | Ok (db3, entry) =>
  match buildExpirationEvent updated terminal entry attempt with
  | Err e => stop (Err e)
  | Ok event =>
  match commit env db3 with
  | (db4, Some e) => (db4, if isRetryableReserveDatabaseError e then Retry else Done (Err ErrUnavailable))
  | (db4, None) => (db4, Done (Ok (Some event)))
  end end end end end end end end.

(** The conditions of one reap attempt: the world, peers' locks and the SELECT clock. *)
Record ReapWorld := { rw_world : World; rw_locked : list string; rw_clock : Time }.

Fixpoint reapNext (fuel : nat) (attempt : Z) (worlds : Z -> ReapWorld) (actor : string)
    : list DB * result (option ExpirationEvent) error :=
  match fuel with
  | O => ([], Err ErrRetryExhausted)
  | S fuel' =>
      let w := worlds attempt in
      match reapOnce (w_env (rw_world w)) (rw_locked w) (rw_clock w) actor attempt with
      | (db, Done r) => ([db], r)
      | (db, Retry) =>
          if Nat.eqb fuel' 0 then ([db], Err ErrRetryExhausted)
          else if w_cancelled (rw_world w) then ([db], Err ErrUnavailable)
          else let '(dbs, r) := reapNext fuel' (attempt + 1) worlds actor in (db :: dbs, r)
      end
  end.

Record ReapResult := { rp_Events : list ExpirationEvent; rp_AtCapacity : bool }.

(** The batch loop of [Reap]: events found so far, and whether a later item failed. *)
Fixpoint reap_loop (batch : nat) (maxAttempts : nat) (item : Z) (worlds : Z -> Z -> ReapWorld) (actor : string)
    (events : list ExpirationEvent) : list DB * ReapResult * option error :=
  match batch with
  | O => ([], {| rp_Events := events; rp_AtCapacity := true |}, None)
  | S batch' =>
      match reapNext maxAttempts 1 (worlds item) actor with
      | (dbs, Err e) => (dbs, {| rp_Events := events; rp_AtCapacity := false |}, Some e)
      | (dbs, Ok None) => (dbs, {| rp_Events := events; rp_AtCapacity := false |}, None)
      | (dbs, Ok (Some event)) =>
          let '(dbs', r, e) := reap_loop batch' maxAttempts (item + 1) worlds actor (events ++ [event]) in
          (dbs ++ dbs', r, e)
      end
  end.

Definition Reap (ctx : Context) (options : ReaperOptions) (worlds : Z -> Z -> ReapWorld) (actor : string)
    : list DB * ReapResult * option error :=
  if match ctx with ctx_nil => true | _ => false end || negb (validActor actor)
  then ([], {| rp_Events := []; rp_AtCapacity := false |}, Some ErrInvalid)
  else reap_loop (Z.to_nat (BatchSize options)) (Z.to_nat (MaxAttempts (reaper_Retries options))) 1 worlds actor [].
