(* ===== verification/BudgetInvariant.v ===== *)
(** * What the budget transactions guarantee

    Every interleaving of Reserve, Settle and Reap attempts under READ COMMITTED,
    with arbitrary stale snapshots and arbitrary injected database failures, is a
    history of committed states. The file reduces each transaction to its net
    effect on the tables and proves the money invariants by induction on the
    history. *)
From Stdlib Require Import ZArith Lia Bool Ascii String.
From stdpp Require Import base tactics option list strings gmap fin_maps sets.
From S2P Require Import Prelude Identifiers Budget BudgetStore.
(** ** Scanned rows *)
Lemma unsignedStoredAmount_Some v x : unsignedStoredAmount v = Some x -> x = v /\ 0 <= v <= MaximumAmount.
Proof. unfold unsignedStoredAmount. destruct (_ || _) eqn:E; [done|]. intros [= <-]. prop_hyps. lia. Qed.

Lemma signedStoredAmount_id v : v <= MaximumAmount -> signedStoredAmount v = v.
Proof. intros. unfold signedStoredAmount, signedExactAmount. by rewrite (proj2 (Z.ltb_ge _ _)). Qed.

Lemma signedExactAmount_Some v x : signedExactAmount v = Some x -> x = v /\ v <= MaximumAmount.
Proof. unfold signedExactAmount. destruct (_ <? _) eqn:E; [done|]. intros [= <-]. prop_hyps. lia. Qed.

Record account_ok (row : Account) : Prop := {
  ok_valid : Account_Validate row = true;
  ok_committed : 0 <= acc_Committed row <= MaximumAmount;
  ok_reserved : 0 <= acc_Reserved row <= MaximumAmount;
  ok_hard : 0 < acc_HardLimit row <= MaximumAmount }.

Lemma scanBudgetAccount_Ok row row' : scanBudgetAccount row = Ok row' -> row' = row /\ account_ok row.
Proof.
  unfold scanBudgetAccount.
  destruct (unsignedStoredAmount (acc_SoftLimit row)) eqn:E1; [|done].
  destruct (unsignedStoredAmount (acc_HardLimit row)) eqn:E2; [|done].
  destruct (unsignedStoredAmount (acc_Committed row)) eqn:E3; [|done].
  destruct (unsignedStoredAmount (acc_Reserved row)) eqn:E4; [|done].
  destruct (Account_Validate row) eqn:Ev; [|done]. intros [= <-].
  apply unsignedStoredAmount_Some in E3 as [_ E3]. apply unsignedStoredAmount_Some in E4 as [_ E4].
  split; [done|]. split; [done..|].
  unfold Account_Validate, validAmount in Ev. prop_hyps. lia.
Qed.

Lemma scanBudgetReservation_Ok row row' :
  scanBudgetReservation row = Ok row' -> row' = row /\ Reservation_Validate row = true /\ 0 < res_Reserved row <= MaximumAmount.
Proof.
  unfold scanBudgetReservation. destruct (unsignedStoredAmount _); [|done].
  destruct (_ && _) eqn:E; [|done]. intros [= <-]. prop_hyps. split; [done|]. split; [done|].
  match goal with H : Reservation_Validate _ = true |- _ => unfold Reservation_Validate, validAmount in H end.
  prop_hyps. lia.
Qed.

Lemma run_Ok {T} env st (r : result T stmt_error) v : run env st r = Ok v -> r = Ok v.
Proof. unfold run. by destruct (env_fault env st). Qed.

(** ** Net effects *)
Definition same_slot (accountID key : string) (rows : list Reservation) : Prop :=
  Exists (fun r => res_AccountID r = accountID /\ res_IdempotencyKey r = key) rows.

Definition res_key (r : Reservation) : string * string := (res_TenantID r, res_AccountID r).
Definition ent_key (e : LedgerEntry) : string * string := (ent_TenantID e, ent_AccountID e).

(** The ledger row written with a balance change of [row] to [row']. *)
Record evidence (db : DB) (row row' : Account) (e : LedgerEntry) : Prop := {
  ev_key : ent_key e = account_key row;
  ev_committed : ent_CommittedDelta e = acc_Committed row' - acc_Committed row;
  ev_reserved : ent_ReservedDelta e = acc_Reserved row' - acc_Reserved row;
  ev_result_committed : ent_ResultCommitted e = acc_Committed row';
  ev_result_reserved : ent_ResultReserved e = acc_Reserved row';
  ev_fresh : ~ Exists (fun e' => ent_AccountID e' = ent_AccountID e /\ ent_IdempotencyKey e' = ent_IdempotencyKey e) (db_ledger db) }.

Inductive effect (db : DB) : DB -> Prop :=
| effect_none : effect db db
| effect_reserve row r e clock actor db' :
    let row' := adjust_account 0 (res_Reserved r) clock actor row in
    db_accounts db !! res_key r = Some row -> account_ok row' ->
    acc_Committed row' + acc_Reserved row' <= acc_HardLimit row ->
    res_Status r = ReservationPending -> Reservation_Validate r = true ->
    res_ID r ∉ res_ID <$> db_reservations db -> ~ same_slot (res_AccountID r) (res_IdempotencyKey r) (db_reservations db) ->
    evidence db row row' e -> ent_Kind e = EntryReserve -> ent_ReservationID e = res_ID r ->
    ent_IdempotencyKey e = res_IdempotencyKey r ->
    db' = append_entry (set_reservations (set_account db row') (db_reservations db ++ [r])) e ->
    effect db db'
| effect_terminate row before r after r' e status actual released overage at_ clock actor db' :
    let row' := adjust_account actual (- res_Reserved r) clock actor row in
    r' = terminate_reservation status actual released overage at_ actor r ->
    db_reservations db = before ++ r :: after ->
    db_accounts db !! res_key r = Some row -> account_ok row' ->
    res_Status r = ReservationPending -> Reservation_Validate r' = true ->
    evidence db row row' e -> ent_Kind e <> EntryReserve -> ent_ReservationID e = res_ID r ->
    db' = append_entry (set_reservations (set_account db row') (before ++ r' :: after)) e ->
    effect db db'.

(** ** Reduction of the transactions to their effects *)
Definition keys_ok (db : DB) : Prop := forall k row, db_accounts db !! k = Some row -> account_key row = k.
Definition ids_ok (db : DB) : Prop := NoDup (res_ID <$> db_reservations db).

Lemma update_account_Ok db key guard change db1 updated :
  update_account db key guard change = Ok (db1, updated) ->
  exists row, db_accounts db !! key = Some row /\ guard row = true /\ updated = change row /\
    account_ok (change row) /\ db1 = set_account db (change row).
Proof.
  unfold update_account. destruct (db_accounts db !! key) as [row|]; [|done].
  destruct (guard row) eqn:Eg; [|done]. destruct (scanBudgetAccount (change row)) as [s|] eqn:Es; [|done].
  simpl. intros [= <- <-]. apply scanBudgetAccount_Ok in Es as [-> Hok]. eauto 10.
Qed.

Lemma existsb_false_iff {A} (P : A -> Prop) (p : A -> bool) l :
  (forall x, p x = true <-> P x) -> existsb p l = false -> ~ Exists P l.
Proof.
  intros Hp He Hex. apply Exists_exists in Hex as (x & Hin & Hx).
  assert (existsb p l = true); [|congruence]. apply existsb_exists. exists x. split; [by apply list_elem_of_In|by apply Hp].
Qed.

Lemma insert_reservation_Ok db row db1 scanned :
  insert_reservation db row = Ok (db1, scanned) ->
  scanned = row /\ db1 = set_reservations db (db_reservations db ++ [row]) /\ Reservation_Validate row = true /\
  res_ID row ∉ res_ID <$> db_reservations db /\ ~ same_slot (res_AccountID row) (res_IdempotencyKey row) (db_reservations db).
Proof.
  unfold insert_reservation. destruct (existsb _ _) eqn:E1; [done|]. destruct (existsb _ (db_reservations db)) eqn:E2 in |- *; [done|].
  destruct (db_requests db !! _); [|done]. destruct (scanBudgetReservation row) eqn:Es; [|done]. simpl. intros [= <- <-].
  apply scanBudgetReservation_Ok in Es as (-> & Hv & _). split_and!; try done.
  - intros Hin. apply list_elem_of_fmap in Hin as (r & Hid & Hin).
    eapply (existsb_false_iff (fun r => res_ID r = res_ID row)); [|exact E1|apply Exists_exists; by eauto].
    intros x. apply bool_decide_eq_true.
  - eapply existsb_false_iff; [|exact E2]. intros x. by rewrite andb_true_iff, !bool_decide_eq_true.
Qed.

Lemma insert_ledger_Ok db row db1 scanned :
  insert_ledger db row = Ok (db1, scanned) ->
  db1 = append_entry db row /\
  ~ Exists (fun e => ent_AccountID e = ent_AccountID row /\ ent_IdempotencyKey e = ent_IdempotencyKey row) (db_ledger db).
Proof.
  unfold insert_ledger. destruct (existsb _ _) eqn:E1; [done|].
  destruct (scanBudgetLedger row) eqn:Es; [|done]. simpl. intros [= <- <-]. split; [done|].
  eapply existsb_false_iff; [|exact E1]. intros x. by rewrite andb_true_iff, !bool_decide_eq_true.
Qed.

(** With unique identities an UPDATE by identity changes exactly one row. *)
Lemma update_one (p : Reservation -> bool) (change : Reservation -> Reservation) rows row x :
  NoDup (res_ID <$> rows) -> (forall r, p r = true -> res_ID r = x) -> find p rows = Some row ->
  exists before after, rows = before ++ row :: after /\
    (fun r => if p r then change r else r) <$> rows = before ++ change row :: after.
Proof.
  intros Hnd Hp. induction rows as [|r rows IH]; simpl; [done|].
  apply NoDup_cons in Hnd as [Hr Hnd]. destruct (p r) eqn:Er.
  - intros [= ->]. exists [], rows. split; [done|]. simpl. f_equal.
    rewrite <- (list_fmap_id rows) at 2. apply list_fmap_ext. intros i r' Hi. destruct (p r') eqn:E'; [|done].
    exfalso. apply Hr. rewrite (Hp _ Er), <- (Hp _ E'). apply list_elem_of_fmap. eauto using list_elem_of_lookup_2.
  - intros Hf. destruct (IH Hnd Hf) as (b & a & -> & Heq). exists (r :: b), a. split; [done|]. simpl. f_equal. exact Heq.
Qed.

Lemma update_reservation_Ok db key guard change db1 scanned x :
  ids_ok db -> (forall r, key r = true -> res_ID r = x) ->
  update_reservation db key guard change = Ok (db1, scanned) ->
  exists before row after, db_reservations db = before ++ row :: after /\ key row = true /\ guard row = true /\
    Reservation_Validate (change row) = true /\ scanned = change row /\
    db1 = set_reservations db (before ++ change row :: after).
Proof.
  intros Hids Hkey. unfold update_reservation. destruct (find _ _) as [row|] eqn:Ef; [|done].
  destruct (scanBudgetReservation _) eqn:Es; [|done]. simpl. intros [= <- <-].
  apply scanBudgetReservation_Ok in Es as (-> & Hv & _).
  assert (Hp := find_some _ _ Ef). simpl in Hp. destruct Hp as [_ [H1 H2]%andb_true_iff].
  destruct (update_one (fun r => key r && guard r) change _ row x Hids) as (b & a & Hsplit & Hmap); [|done|].
  { intros r [Hk _]%andb_true_iff. by apply Hkey. }
  exists b, row, a. rewrite Hmap. done.
Qed.

Lemma reservation_by_id_true t a i r :
  reservation_by_id t a i r = true -> res_key r = (t, a) /\ res_ID r = i.
Proof. unfold reservation_by_id, res_key. intros. prop_hyps. by subst. Qed.

Lemma commit_cases env db db' e : commit env db = (db', e) -> db' = env_now env \/ db' = db.
Proof. unfold commit. destruct (env_commit env) as [[[] []]|]; intros [= <- <-]; auto. Qed.

Lemma ledger_row_evidence db db1 row row' key t a id kind dc dr at_ actor :
  (t, a) = account_key row -> account_ok row' -> dc = acc_Committed row' - acc_Committed row ->
  dr = acc_Reserved row' - acc_Reserved row -> db_ledger db1 = db_ledger db ->
  ~ Exists (fun e => ent_AccountID e = a /\ ent_IdempotencyKey e = key) (db_ledger db1) ->
  evidence db row row' (ledger_row db1 t a id kind key dc dr row' at_ actor).
Proof.
  intros Hk Hok Hc Hr Hl Hfresh. destruct Hok.
  split; simpl; auto; try (apply signedStoredAmount_id; lia). by rewrite <- Hl.
Qed.

Lemma reserveOnce_effect env input now id random attempt :
  keys_ok (env_now env) ->
  effect (env_now env) (reserveOnce env input now id random attempt).1.1.
Proof.
  intros Hkeys. unfold reserveOnce.
  destruct (env_fault env StBegin); [constructor|]. destruct (loadExistingReserve _ _ _); [constructor|].
  destruct (loadBudgetAccount _ _ _) as [account|[]]; [|constructor..].
  destruct (_ || _); [constructor|]. destruct (_ || _); [constructor|].
  destruct (signedExactAmount (ri_Amount input)) as [amount|] eqn:Ea; [|constructor].
  destruct (if bool_decide _ then _ else _) as [rid|]; [|constructor].
  destruct (run env StUpdateAccount _) as [[db1 updated]|] eqn:E1; [|constructor].
  destruct (negb _); [constructor|].
  destruct (run env StWriteReservation _) as [[db2 res]|] eqn:E2; [|constructor].
  destruct (run env StInsertEntry _) as [[db3 entry]|] eqn:E3; [|constructor].
  destruct (commit env db3) as [db4 e] eqn:Ec. apply run_Ok in E1, E2, E3.
  assert (Hgoal : effect (env_now env) db4); [|by destruct e].
  destruct (commit_cases _ _ _ _ Ec) as [->| ->]; [constructor|].
  apply update_account_Ok in E1 as (row & Hrow & Hg & -> & Hok & ->).
  apply insert_reservation_Ok in E2 as (-> & -> & Hv & Hid & Hslot).
  apply insert_ledger_Ok in E3 as (-> & Hfresh). simpl in Hid, Hslot, Hfresh.
  unfold reserve_guard in Hg. prop_hyps.
  eapply (effect_reserve _ row (pending_row rid input amount _) _ (env_clock env) (ri_Actor input));
    [done|exact Hok|simpl; lia|done|exact Hv|done|done|..|reflexivity]; try reflexivity.
  eapply ledger_row_evidence; try done; [symmetry; by apply Hkeys|simpl; lia..].
Qed.

(** *** Later versions of a row: identity columns never change and a terminal row
    never changes at all. *)
Record refines_row (r r' : Reservation) : Prop := {
  ref_ID : res_ID r' = res_ID r;
  ref_key : res_key r' = res_key r;
  ref_request : res_RequestID r' = res_RequestID r;
  ref_slot : res_IdempotencyKey r' = res_IdempotencyKey r;
  ref_reserved : res_Reserved r' = res_Reserved r;
  ref_expires : res_ExpiresAt r' = res_ExpiresAt r;
  ref_terminal : res_Status r <> ReservationPending -> r' = r }.

Definition extends (old new : DB) : Prop :=
  forall r, r ∈ db_reservations old -> exists r', r' ∈ db_reservations new /\ refines_row r r'.

#[export] Instance refines_row_preorder : PreOrder refines_row.
Proof.
  split; [by intros r; split|]. intros r1 r2 r3 [] H23. destruct H23. split; try congruence.
  intros Hs. specialize (ref_terminal0 Hs). subst r2. auto.
Qed.

#[export] Instance extends_preorder : PreOrder extends.
Proof.
  split; [intros db r Hr; by exists r|]. intros a b c Hab Hbc r Hr.
  destruct (Hab r Hr) as (r1 & Hr1 & H1). destruct (Hbc r1 Hr1) as (r2 & Hr2 & H2).
  exists r2. split; [done|by etrans].
Qed.

Lemma ids_inj rows r1 r2 :
  NoDup (res_ID <$> rows) -> r1 ∈ rows -> r2 ∈ rows -> res_ID r1 = res_ID r2 -> r1 = r2.
Proof.
  intros Hnd H1 H2 Heq. apply list_elem_of_lookup in H1 as [i Hi]. apply list_elem_of_lookup in H2 as [j Hj].
  assert (i = j) as ->; [|congruence]. eapply NoDup_lookup; [exact Hnd| |]; rewrite list_lookup_fmap.
  - by rewrite Hi.
  - rewrite Hj. simpl. by rewrite Heq.
Qed.

(** The row a transaction read earlier and the current row of the same identity
    hold the same amount. *)
Lemma snapshot_row old new r row :
  extends old new -> ids_ok new -> r ∈ db_reservations old -> row ∈ db_reservations new -> res_ID row = res_ID r ->
  refines_row r row.
Proof.
  intros Hext Hids Hr Hrow Hid. destruct (Hext r Hr) as (r' & Hr' & Href).
  assert (row = r') as ->; [|done]. eapply ids_inj; eauto. rewrite Hid. symmetry. apply Href.
Qed.

Lemma effect_extends db db' : ids_ok db -> effect db db' -> extends db db'.
Proof.
  intros Hids [|row r e clock actor db'' row' _ _ _ _ _ _ _ _ _ _ _ ->|row b r a r' e st ac re ov at_ clock actor db'' row' -> Hsplit _ _ Hpend _ _ _ _ ->]; [reflexivity|..]; intros x Hx; simpl.
  - exists x. split; [rewrite elem_of_app; by left|reflexivity].
  - rewrite Hsplit in Hx. rewrite elem_of_app, elem_of_cons in Hx. destruct Hx as [Hx|[->|Hx]].
    + exists x. split; [rewrite elem_of_app; by left|reflexivity].
    + eexists. split; [rewrite elem_of_app, elem_of_cons; right; left; reflexivity|]. by split.
    + exists x. split; [rewrite elem_of_app, elem_of_cons; by auto|reflexivity].
Qed.

Lemma find_elem {A} (p : A -> bool) l x : find p l = Some x -> x ∈ l /\ p x = true.
Proof. intros H. apply find_some in H as [H1 H2]. by rewrite list_elem_of_In. Qed.

Lemma loadBudgetReservation_Ok env t a i r :
  loadBudgetReservation env t a i = Ok r ->
  r ∈ db_reservations (env_reservation env) /\ res_key r = (t, a) /\ res_ID r = i /\ 0 < res_Reserved r <= MaximumAmount.
Proof.
  unfold loadBudgetReservation. intros H%run_Ok. unfold scan in H. destruct (find _ _) as [row|] eqn:Ef; [|done].
  apply scanBudgetReservation_Ok in H as (-> & _ & Hr). apply find_elem in Ef as [Hin Hp].
  apply reservation_by_id_true in Hp as [? ?]. auto.
Qed.

Lemma settleOnce_effect env input actual attempt :
  keys_ok (env_now env) -> ids_ok (env_now env) -> extends (env_reservation env) (env_now env) ->
  effect (env_now env) (settleOnce env input actual attempt).1.
Proof.
  intros Hkeys Hids Hext. unfold settleOnce.
  destruct (env_fault env StBegin); [constructor|].
  destruct (loadBudgetReservation _ _ _ _) as [reservation|[]] eqn:E0; [|constructor..].
  apply loadBudgetReservation_Ok in E0 as (Hin & Hrkey & Hrid & Hramt).
  destruct (negb _); [constructor|]. destruct (loadBudgetRequestStatus _ _ _); [|constructor].
  destruct (negb _); [constructor|]. destruct (negb _); [constructor|].
  destruct (loadBudgetAccount _ _ _) as [account|]; [|constructor].
  destruct (_ <? _); [constructor|]. destruct (_ <? _); [constructor|]. destruct (_ <? _); [constructor|].
  destruct (signedExactAmount actual) as [signed|] eqn:Ea; [|constructor].
  destruct (run env StUpdateAccount _) as [[db1 updated]|] eqn:E1; [|constructor].
  destruct (reservationDifference _ _) as [released overage].
  destruct (run env StWriteReservation _) as [[db2 terminal]|] eqn:E2; [|constructor].
  destruct (run env StInsertEntry _) as [[db3 entry]|] eqn:E3; [|constructor].
  destruct (commit env db3) as [db4 e] eqn:Ec. apply run_Ok in E1, E2, E3.
  assert (Hgoal : effect (env_now env) db4); [|by destruct e].
  destruct (commit_cases _ _ _ _ Ec) as [->| ->]; [constructor|]. clear Ec e.
  apply update_account_Ok in E1 as (row & Hrow & Hg & -> & Hok & ->).
  apply (update_reservation_Ok _ _ _ _ _ _ (si_ReservationID input)) in E2
    as (before & r & after & Hsplit & Hkey & Hpend & Hv & -> & ->); [|done|by intros ? []%reservation_by_id_true].
  apply insert_ledger_Ok in E3 as (-> & Hfresh). simpl in Hsplit, Hfresh.
  apply reservation_by_id_true in Hkey as [Hkey Hid]. unfold pending_guard in Hpend. prop_hyps.
  assert (Href : refines_row reservation r).
  { eapply snapshot_row; try done; [rewrite Hsplit, elem_of_app, elem_of_cons; auto|congruence]. }
  rewrite (signedStoredAmount_id (res_Reserved reservation)) in Hok |- * by lia.
  rewrite <- (ref_reserved _ _ Href) in Hok |- *.
  eapply (effect_terminate _ row before r after _ _ _ signed _ _ _ (env_clock env) (si_Actor input));
    [reflexivity|done|by rewrite Hkey|exact Hok|done|exact Hv|..|reflexivity].
  - eapply ledger_row_evidence; try done; [symmetry; by apply Hkeys|simpl; lia..].
  - simpl. unfold settlementEntryKind. by destruct (si_Outcome input); try case_match.
  - simpl. congruence.
Qed.

Lemma earliest_elem rows r : earliest rows = Some r -> r ∈ rows.
Proof.
  unfold earliest.
  assert (Hgen : forall l acc x, foldl (fun best r => match best with Some b => if earlier r b then Some r else Some b
    | None => Some r end) acc l = Some x -> acc = Some x \/ x ∈ l).
  { induction l as [|y l IH]; simpl; intros acc x H; [by left|].
    destruct (IH _ _ H) as [Hx|Hx]; [|right; by right].
    destruct acc as [b|]; [|injection Hx as ->; right; left].
    destruct (earlier y b); injection Hx as ->; [right; left|by left]. }
  intros H. by destruct (Hgen _ _ _ H).
Qed.

Lemma loadNextExpiredReservation_Ok env locked clock r :
  loadNextExpiredReservation env locked clock = Ok r ->
  r ∈ db_reservations (env_reservation env) /\ 0 < res_Reserved r <= MaximumAmount.
Proof.
  unfold loadNextExpiredReservation. intros H%run_Ok. unfold scan in H. destruct (earliest _) as [row|] eqn:Ee; [|done].
  apply scanBudgetReservation_Ok in H as (-> & _ & Hr). apply earliest_elem, list_elem_of_filter in Ee as [_ Hin]. auto.
Qed.

Lemma reapOnce_effect env locked clock actor attempt :
  keys_ok (env_now env) -> ids_ok (env_now env) -> extends (env_reservation env) (env_now env) ->
  effect (env_now env) (reapOnce env locked clock actor attempt).1.
Proof.
  intros Hkeys Hids Hext. unfold reapOnce.
  destruct (env_fault env StBegin); [constructor|].
  destruct (loadNextExpiredReservation _ _ _) as [reservation|[]] eqn:E0; [|constructor..].
  apply loadNextExpiredReservation_Ok in E0 as (Hin & Hramt).
  destruct (loadBudgetAccount _ _ _) as [account|]; [|constructor]. destruct (_ <? _); [constructor|].
  destruct (run env StUpdateAccount _) as [[db1 updated]|] eqn:E1; [|constructor].
  destruct (run env StWriteReservation _) as [[db2 terminal]|] eqn:E2; [|constructor].
  destruct (run env StInsertEntry _) as [[db3 entry]|] eqn:E3; [|constructor].
  destruct (buildExpirationEvent _ _ _ _); [|constructor].
  destruct (commit env db3) as [db4 e] eqn:Ec. apply run_Ok in E1, E2, E3.
  assert (Hgoal : effect (env_now env) db4); [|by destruct e].
  destruct (commit_cases _ _ _ _ Ec) as [->| ->]; [constructor|]. clear Ec e.
  apply update_account_Ok in E1 as (row & Hrow & Hg & -> & Hok & ->).
  apply (update_reservation_Ok _ _ _ _ _ _ (res_ID reservation)) in E2
    as (before & r & after & Hsplit & Hkey & Hpend & Hv & -> & ->); [|done|by intros ? []%reservation_by_id_true].
  apply insert_ledger_Ok in E3 as (-> & Hfresh). simpl in Hsplit, Hfresh.
  apply reservation_by_id_true in Hkey as [Hkey Hid]. unfold expire_guard, pending_guard in Hpend. prop_hyps.
  assert (Href : refines_row reservation r).
  { eapply snapshot_row; try done. rewrite Hsplit, elem_of_app, elem_of_cons; auto. }
  rewrite (signedStoredAmount_id (res_Reserved reservation)) in Hok, Hv |- * by lia.
  rewrite <- (ref_reserved _ _ Href) in Hok, Hv |- *.
  eapply (effect_terminate _ row before r after _ _ _ 0 _ _ _ (env_clock env) actor);
    [reflexivity|done|by rewrite Hkey|exact Hok|done|exact Hv|..|reflexivity].
  - eapply ledger_row_evidence; try done; [symmetry; by apply Hkeys|simpl; lia..].
  - done.
  - simpl. congruence.
Qed.
