(* ===== verification/BudgetHistory.v ===== *)
(** * Histories of the budget tables

    A history is the list of states committed so far, newest first. A transaction
    attempt reads any snapshots of the history and writes to its newest state;
    other writers may change request statuses, open accounts with zero balances
    and close accounts. Everything else the tables can undergo is excluded by the
    triggers of migrations/000011 and 000012 (limits and identities are immutable,
    the ledger is append-only). *)
From Stdlib Require Import ZArith Lia Bool Ascii String.
From stdpp Require Import base tactics option list strings gmap fin_maps sets.
From S2P Require Import Prelude Identifiers Budget BudgetStore BudgetInvariant.
(** ** The books of one account *)
Definition pending_hold (r : Reservation) : Z :=
  if decide (res_Status r = ReservationPending) then res_Reserved r else 0.

(** The amounts of the reservations of account [k]. *)
Definition of_account (k : string * string) (f : Reservation -> Z) (r : Reservation) : Z :=
  if decide (res_key r = k) then f r else 0.

Definition total_held (db : DB) (k : string * string) : Z := sum_by (of_account k pending_hold) (db_reservations db).
Definition total_actual (db : DB) (k : string * string) : Z :=
  sum_by (of_account k (fun r => default 0 (res_Actual r))) (db_reservations db).
Definition total_overage (db : DB) (k : string * string) : Z :=
  sum_by (of_account k (fun r => default 0 (res_Overage r))) (db_reservations db).

(** Replaying the ledger of account [k] from zero: [None] when an entry's recorded
    result differs from the running balances. *)
Definition replay_step (k : string * string) (balances : option (Z * Z)) (e : LedgerEntry) : option (Z * Z) :=
  match balances with
  | Some (committed, reserved) =>
      if decide (ent_key e = k) then
        let committed' := committed + ent_CommittedDelta e in
        let reserved' := reserved + ent_ReservedDelta e in
        if (ent_ResultCommitted e =? committed') && (ent_ResultReserved e =? reserved')
        then Some (committed', reserved') else None
      else balances
  | None => None
  end.

Definition replay (k : string * string) (ledger : list LedgerEntry) : option (Z * Z) :=
  foldl (replay_step k) (Some (0, 0)) ledger.

Record books (db : DB) (k : string * string) (row : Account) : Prop := {
  books_ok : account_ok row;
  books_reserved : acc_Reserved row = total_held db k;
  books_committed : acc_Committed row = total_actual db k;
  books_limit : acc_Committed row + acc_Reserved row <= acc_HardLimit row + total_overage db k;
  books_ledger : replay k (db_ledger db) = Some (acc_Committed row, acc_Reserved row) }.

(** ** The invariant of the tables *)
Definition slot (r : Reservation) : string * string := (res_AccountID r, res_IdempotencyKey r).

Definition entries_of (db : DB) (id : string) : list LedgerEntry :=
  filter (fun e => ent_ReservationID e = id) (db_ledger db).

Definition admitted (db : DB) (e : LedgerEntry) : Prop :=
  ent_Kind e = EntryReserve ->
  exists row, db_accounts db !! ent_key e = Some row /\ ent_ResultCommitted e + ent_ResultReserved e <= acc_HardLimit row.

Record inv (db : DB) : Prop := {
  inv_keys : keys_ok db;
  inv_ids : ids_ok db;
  inv_slots : NoDup (slot <$> db_reservations db);
  inv_valid : forall r, r ∈ db_reservations db -> Reservation_Validate r = true;
  inv_accounts : forall r, r ∈ db_reservations db -> is_Some (db_accounts db !! res_key r);
  inv_ledger_accounts : forall e, e ∈ db_ledger db -> is_Some (db_accounts db !! ent_key e);
  inv_ledger_ids : forall e, e ∈ db_ledger db -> ent_ReservationID e ∈ res_ID <$> db_reservations db;
  inv_books : forall k row, db_accounts db !! k = Some row -> books db k row;
  inv_admitted : forall e, e ∈ db_ledger db -> admitted db e;
  inv_entries : forall r, r ∈ db_reservations db ->
    length (entries_of db (res_ID r)) = if decide (res_Status r = ReservationPending) then 1%nat else 2%nat }.

(** ** Effects preserve the invariant *)
Lemma replay_app k l e : replay k (l ++ [e]) = replay_step k (replay k l) e.
Proof. unfold replay. by rewrite foldl_app. Qed.

Lemma replay_other k l : (forall e, e ∈ l -> ent_key e <> k) -> replay k l = Some (0, 0).
Proof.
  induction l as [|e l IH] using rev_ind; intros H; [done|]. rewrite replay_app, IH.
  - simpl. rewrite decide_False; [done|]. apply H. set_solver.
  - intros e' He'. apply H. set_solver.
Qed.

Lemma of_account_other k f rows : (forall r, r ∈ rows -> res_key r <> k) -> sum_by (of_account k f) rows = 0.
Proof.
  intros H. rewrite (sum_by_ext _ (fun _ => 0)); [induction rows; simpl; try lia; apply IHrows; intros; apply H; by right|].
  intros r Hr. unfold of_account. by rewrite decide_False by auto.
Qed.

Lemma replay_evidence k row row' e db :
  replay k (db_ledger db) = Some (acc_Committed row, acc_Reserved row) -> evidence db row row' e -> account_key row = k ->
  replay k (db_ledger db ++ [e]) = Some (acc_Committed row', acc_Reserved row').
Proof.
  intros Hr [] Hk. rewrite replay_app, Hr. simpl. rewrite decide_True by congruence.
  rewrite (proj2 (Z.eqb_eq _ _)) by lia. rewrite (proj2 (Z.eqb_eq _ _)) by lia. simpl. f_equal. f_equal; lia.
Qed.

Lemma replay_skip k e l : ent_key e <> k -> replay k (l ++ [e]) = replay k l.
Proof.
  intros Hk. rewrite replay_app. unfold replay_step. destruct (replay k l) as [[]|]; [|done]. by rewrite decide_False.
Qed.

Lemma lookup_account_change db row k : account_key row <> k -> db_accounts (set_account db row) !! k = db_accounts db !! k.
Proof. intros. simpl. by rewrite lookup_insert_ne. Qed.

Lemma reservation_pending_amounts r :
  Reservation_Validate r = true -> res_Status r = ReservationPending ->
  pending_hold r = res_Reserved r /\ res_Actual r = None /\ res_Overage r = None.
Proof.
  unfold Reservation_Validate, pending_hold. intros H Hs. rewrite Hs in *. simpl. prop_hyps.
  destruct (res_Actual r), (res_Released r), (res_Overage r), (res_TerminalAt r); done.
Qed.

(** A terminal row's split of its hold covers the excess of the actual amount. *)
Lemma reservation_terminal_amounts r actual released overage :
  Reservation_Validate r = true -> res_Status r <> ReservationPending -> res_Actual r = Some actual ->
  res_Released r = Some released -> res_Overage r = Some overage ->
  pending_hold r = 0 /\ 0 <= overage /\ actual - res_Reserved r <= overage.
Proof.
  unfold Reservation_Validate, pending_hold. intros H Hs Ha Hr Ho. rewrite decide_False by done.
  rewrite Ha, Hr, Ho in H. prop_hyps. unfold validAmount in *. prop_hyps.
  assert (bool_decide ((released, overage) = reservationDifference (res_Reserved r) actual) = true /\ actual <= MaximumAmount) as [Hd Hm].
  { destruct (res_Status r); try done; destruct (res_TerminalAt r); try done; prop_hyps; split; try lia; by apply bool_decide_eq_true. }
  apply bool_decide_eq_true in Hd. unfold reservationDifference in Hd. unfold MaximumAmount in *.
  destruct (actual <=? res_Reserved r) eqn:E; injection Hd as -> ->; prop_hyps; [lia|].
  rewrite u64_sub_small by (unfold u64_max; lia). lia.
Qed.

Lemma reservation_overage_nonneg r : Reservation_Validate r = true -> 0 <= default 0 (res_Overage r).
Proof.
  intros Hv. destruct (res_Overage r) as [o|] eqn:Eo; [|done]. simpl.
  destruct (decide (res_Status r = ReservationPending)) as [Hs|Hs].
  - destruct (reservation_pending_amounts r Hv Hs) as (_ & _ & Hn). congruence.
  - destruct (res_Actual r) eqn:Ea, (res_Released r) eqn:Er;
      [by eapply reservation_terminal_amounts in Hv as (_ & ? & _)|..];
      unfold Reservation_Validate in Hv; rewrite Ea, Er in Hv; prop_hyps; by destruct (res_Status r).
Qed.

Lemma total_overage_nonneg db k : (forall r, r ∈ db_reservations db -> Reservation_Validate r = true) -> 0 <= total_overage db k.
Proof.
  intros Hv. apply sum_by_nonneg. intros r Hr. unfold of_account. case_decide; [|lia].
  by apply reservation_overage_nonneg, Hv.
Qed.

Lemma entries_of_app db db' e id :
  db_ledger db' = db_ledger db ++ [e] ->
  length (entries_of db' id) = (length (entries_of db id) + if decide (ent_ReservationID e = id) then 1 else 0)%nat.
Proof.
  intros Hl. unfold entries_of. rewrite Hl, filter_app, length_app. f_equal.
  by destruct (decide (ent_ReservationID e = id)) as [H|H]; [rewrite filter_cons_True|rewrite filter_cons_False].
Qed.

(** The part of the invariant common to every balance change: the entry [e]
    records the change of the account row [row] to [row']. *)
Section balance_change.
Context (db : DB) (row row' : Account) (rows : list Reservation) (e : LedgerEntry).
Let db' : DB := append_entry (set_reservations (set_account db row') rows) e.
Context (Hinv : inv db) (Hrow : db_accounts db !! account_key row = Some row).
Context (Hkey : account_key row' = account_key row) (Hhard : acc_HardLimit row' = acc_HardLimit row).
Context (Hev : evidence db row row' e).

Lemma change_keys : keys_ok db'.
Proof using Hinv Hkey.
  intros k r. simpl. rewrite Hkey. destruct (decide (account_key row = k)) as [<-|Hne].
  - rewrite lookup_insert_eq. by intros [= <-].
  - rewrite lookup_insert_ne by done. apply Hinv.
Qed.

Lemma change_account k : is_Some (db_accounts db !! k) -> is_Some (db_accounts db' !! k).
Proof using Hkey.
  simpl. rewrite Hkey. destruct (decide (account_key row = k)) as [<-|Hne].
  - by rewrite lookup_insert_eq.
  - by rewrite lookup_insert_ne.
Qed.

Lemma change_admitted x : admitted db x -> admitted db' x.
Proof using Hrow Hkey Hhard.
  intros Ha Hk. destruct (Ha Hk) as (r & Hr & Hle). simpl. rewrite Hkey.
  destruct (decide (account_key row = ent_key x)) as [Heq|Hne].
  - rewrite <- Heq in Hr |- *. rewrite lookup_insert_eq. exists row'. split; [done|]. rewrite Hrow in Hr. injection Hr as <-. lia.
  - rewrite lookup_insert_ne by done. eauto.
Qed.

(** Books of the changed account from the change of its totals, of the others
    because nothing of theirs changed. *)
Lemma change_books :
  account_ok row' ->
  acc_Reserved row' - acc_Reserved row = total_held db' (account_key row) - total_held db (account_key row) ->
  acc_Committed row' - acc_Committed row = total_actual db' (account_key row) - total_actual db (account_key row) ->
  acc_Committed row' + acc_Reserved row' <= acc_HardLimit row + total_overage db' (account_key row) ->
  (forall k f, k <> account_key row -> sum_by (of_account k f) rows = sum_by (of_account k f) (db_reservations db)) ->
  forall k r, db_accounts db' !! k = Some r -> books db' k r.
Proof using Hinv Hrow Hkey Hhard Hev.
  intros Hok Hh Ha Hl Hother k r. simpl. rewrite Hkey. destruct (decide (account_key row = k)) as [<-|Hne].
  - rewrite lookup_insert_eq. intros [= <-]. destruct (inv_books _ Hinv _ _ Hrow). split; [done|lia|lia|lia|].
    simpl. by eapply replay_evidence.
  - rewrite lookup_insert_ne by done. intros Hr. destruct (inv_books _ Hinv _ _ Hr). split; [done|..].
    + unfold total_held. simpl. by rewrite Hother.
    + unfold total_actual. simpl. by rewrite Hother.
    + unfold total_overage. simpl. by rewrite Hother.
    + simpl. rewrite replay_skip; [done|]. by rewrite (ev_key _ _ _ _ Hev).
Qed.

Lemma change_ledger_accounts x : x ∈ db_ledger db' -> is_Some (db_accounts db' !! ent_key x).
Proof using Hinv Hrow Hkey Hev.
  simpl. rewrite elem_of_app, list_elem_of_singleton. intros [Hx| ->]; apply change_account.
  - by apply (inv_ledger_accounts _ Hinv).
  - rewrite (ev_key _ _ _ _ Hev), Hrow. by eexists.
Qed.
End balance_change.

Lemma of_account_self k f r : res_key r = k -> of_account k f r = f r.
Proof. intros. unfold of_account. by rewrite decide_True. Qed.

Lemma of_account_ne k f r : res_key r <> k -> of_account k f r = 0.
Proof. intros. unfold of_account. by rewrite decide_False. Qed.

Lemma reserve_inv db row r e clock actor :
  let row' := adjust_account 0 (res_Reserved r) clock actor row in
  inv db -> db_accounts db !! res_key r = Some row -> account_ok row' ->
  acc_Committed row' + acc_Reserved row' <= acc_HardLimit row ->
  res_Status r = ReservationPending -> Reservation_Validate r = true ->
  res_ID r ∉ res_ID <$> db_reservations db -> ~ same_slot (res_AccountID r) (res_IdempotencyKey r) (db_reservations db) ->
  evidence db row row' e -> ent_Kind e = EntryReserve -> ent_ReservationID e = res_ID r ->
  inv (append_entry (set_reservations (set_account db row') (db_reservations db ++ [r])) e).
Proof.
  intros row' Hinv Hrow Hok Hlim Hst Hv Hid Hslot Hev Hkind Hent.
  assert (Hk : account_key row = res_key r) by by apply (inv_keys _ Hinv).
  assert (Hrow2 := Hrow). rewrite <- Hk in Hrow2.
  destruct (reservation_pending_amounts r Hv Hst) as (Hh & Ha & Ho).
  assert (Hfresh : entries_of db (res_ID r) = []).
  { apply elem_of_nil_inv. intros x Hx. apply list_elem_of_filter in Hx as [Heq Hx]. apply Hid. rewrite <- Heq.
    by apply (inv_ledger_ids _ Hinv). }
  split.
  - by apply (change_keys db row).
  - unfold ids_ok. simpl. rewrite fmap_app. apply NoDup_app. split_and!; [apply Hinv|set_solver|apply NoDup_singleton].
  - simpl. rewrite fmap_app. apply NoDup_app. split_and!; [apply Hinv| |apply NoDup_singleton].
    intros x Hx Hx'. apply Hslot. simpl in Hx'. apply list_elem_of_singleton in Hx' as ->.
    apply list_elem_of_fmap in Hx as (r0 & Heq & Hr0). injection Heq as ??. apply Exists_exists. eauto.
  - simpl. intros x. rewrite elem_of_app, list_elem_of_singleton. intros [Hx| ->]; [by apply Hinv|done].
  - intros x Hx. apply (change_account db row); [done|]. simpl in Hx.
    rewrite elem_of_app, list_elem_of_singleton in Hx. destruct Hx as [Hx| ->]; [by apply Hinv|by eexists].
  - by apply (change_ledger_accounts db row).
  - simpl. intros x. rewrite elem_of_app, list_elem_of_singleton, fmap_app, elem_of_app. intros [Hx| ->].
    + left. by apply Hinv.
    + right. rewrite Hent. simpl. set_solver.
  - apply (change_books db row); try done; unfold total_held, total_actual, total_overage; simpl; rewrite ?sum_by_app; simpl.
    + rewrite of_account_self by done. rewrite Hh. lia.
    + rewrite of_account_self by done. rewrite Ha. simpl. lia.
    + rewrite of_account_self by done. rewrite Ho. simpl. subst row'; simpl in *.
      pose proof (total_overage_nonneg db (account_key row) (inv_valid _ Hinv)) as Hn. unfold total_overage in Hn. lia.
    + intros k f Hne. rewrite sum_by_app. simpl. rewrite of_account_ne by congruence. lia.
  - simpl. intros x. rewrite elem_of_app, list_elem_of_singleton. intros [Hx| ->].
    + apply (change_admitted db row); try done. by apply Hinv.
    + intros _. exists row'. simpl. rewrite (ev_key _ _ _ _ Hev). change (account_key row') with (account_key row).
      rewrite lookup_insert_eq. split; [done|]. rewrite (ev_result_committed _ _ _ _ Hev), (ev_result_reserved _ _ _ _ Hev).
      exact Hlim.
  - intros x Hx. simpl in Hx. rewrite (entries_of_app db _ e) by done. rewrite Hent.
    rewrite elem_of_app, list_elem_of_singleton in Hx. destruct Hx as [Hx| ->].
    + rewrite decide_False; [rewrite Nat.add_0_r; by apply Hinv|]. intros Heq. apply Hid. rewrite Heq. set_solver.
    + rewrite Hfresh, !decide_True by done. done.
Qed.

Lemma terminate_inv db row before r after e status actual released overage at_ clock actor :
  let row' := adjust_account actual (- res_Reserved r) clock actor row in
  let r' := terminate_reservation status actual released overage at_ actor r in
  inv db -> db_reservations db = before ++ r :: after ->
  db_accounts db !! res_key r = Some row -> account_ok row' ->
  res_Status r = ReservationPending -> Reservation_Validate r' = true ->
  evidence db row row' e -> ent_Kind e <> EntryReserve -> ent_ReservationID e = res_ID r ->
  inv (append_entry (set_reservations (set_account db row') (before ++ r' :: after)) e).
Proof.
  intros row' r' Hinv Hsplit Hrow Hok Hst Hv' Hev Hkind Hent.
  assert (Hk : account_key row = res_key r) by by apply (inv_keys _ Hinv).
  assert (Hrow2 := Hrow). rewrite <- Hk in Hrow2.
  assert (Hr : r ∈ db_reservations db) by (rewrite Hsplit; set_solver).
  destruct (reservation_pending_amounts r (inv_valid _ Hinv r Hr) Hst) as (Hh & Ha & Ho).
  assert (Hst' : status <> ReservationPending).
  { intros ->. by destruct (reservation_pending_amounts r' Hv' eq_refl) as (_ & ? & _). }
  destruct (reservation_terminal_amounts r' actual released overage Hv' Hst' eq_refl eq_refl eq_refl) as (Hh' & Hpos & Hover).
  assert (Hids : res_ID <$> (before ++ r' :: after) = res_ID <$> db_reservations db).
  { rewrite Hsplit, !fmap_app. done. }
  assert (Hslots : slot <$> (before ++ r' :: after) = slot <$> db_reservations db).
  { rewrite Hsplit, !fmap_app. done. }
  assert (Hold : forall x, x ∈ before ++ r' :: after -> x = r' \/ x ∈ db_reservations db /\ x <> r).
  { intros x Hx. assert (Hin := inv_ids _ Hinv). unfold ids_ok in Hin. rewrite Hsplit, fmap_app in Hin.
    apply NoDup_app in Hin as (_ & Hd & Hn). rewrite fmap_cons in Hn, Hd. apply NoDup_cons in Hn as [Hn _].
    rewrite elem_of_app, elem_of_cons in Hx. rewrite Hsplit. destruct Hx as [Hx|[->|Hx]]; [|by left|]; right; split; try set_solver. }
  split.
  - by apply (change_keys db row).
  - unfold ids_ok. simpl. rewrite Hids. apply Hinv.
  - simpl. rewrite Hslots. apply Hinv.
  - simpl. intros x Hx. destruct (Hold x Hx) as [->|[Hx' _]]; [done|by apply Hinv].
  - intros x Hx. apply (change_account db row); [done|].
    destruct (Hold x Hx) as [->|[Hx' _]]; [rewrite <- Hrow2 in Hrow|by apply Hinv].
    change (res_key r') with (res_key r). by apply Hinv.
  - by apply (change_ledger_accounts db row).
  - simpl. intros x. rewrite Hids, elem_of_app, list_elem_of_singleton. intros [Hx| ->]; [by apply Hinv|].
    rewrite Hent. apply list_elem_of_fmap. eauto.
  - destruct (inv_books _ Hinv _ _ Hrow) as [_ _ _ Hl _]. rewrite <- Hk in Hl.
    apply (change_books db row); try done; unfold total_held, total_actual, total_overage in *; simpl;
      rewrite Hsplit, ?sum_by_app in *; simpl in *.
    + rewrite !of_account_self by done. rewrite Hh, Hh'. lia.
    + rewrite !of_account_self by done. rewrite Ha. simpl. lia.
    + rewrite !of_account_self in * by done. rewrite Ho in Hl. simpl in *. lia.
    + intros k f Hne. rewrite !sum_by_app. simpl. rewrite !of_account_ne by (change (res_key r <> k); congruence). lia.
  - simpl. intros x. rewrite elem_of_app, list_elem_of_singleton. intros [Hx| ->]; [|intros Hk'; by destruct Hkind].
    apply (change_admitted db row); try done. by apply Hinv.
  - intros x Hx. rewrite (entries_of_app db _ e) by done. rewrite Hent. destruct (Hold x Hx) as [->|[Hx' Hne]].
    + change (res_ID r') with (res_ID r). rewrite (inv_entries _ Hinv r Hr), !decide_True by done.
      by rewrite decide_False.
    + rewrite decide_False; [rewrite Nat.add_0_r; by apply Hinv|]. intros Heq. apply Hne.
      eapply ids_inj; [apply Hinv|..]; done.
Qed.

Lemma effect_inv db db' : inv db -> effect db db' -> inv db'.
Proof.
  intros Hinv [|row r e clock actor db'' row' ??????????? ->|row b r a r' e st ac re ov at_ clock actor db'' row' -> ????????->];
    [done|by apply reserve_inv|by apply terminate_inv].
Qed.

(** ** Histories *)
Definition fresh_account (row : Account) : Prop := account_ok row /\ acc_Committed row = 0 /\ acc_Reserved row = 0.

Definition fresh (db : DB) : Prop :=
  db_reservations db = [] /\ db_ledger db = [] /\
  forall k row, db_accounts db !! k = Some row -> account_key row = k /\ fresh_account row.

(** The state left by one transaction attempt, whatever its command, its clocks
    and the failures injected into it. *)
Inductive attempt (env : Env) : DB -> Prop :=
| attempt_reserve input now id random n : attempt env (reserveOnce env input now id random n).1.1
| attempt_settle input actual n : attempt env (settleOnce env input actual n).1
| attempt_reap locked clock actor n : attempt env (reapOnce env locked clock actor n).1.

Record reads_from (env : Env) (db : DB) (past : list DB) : Prop := {
  reads_now : env_now env = db;
  reads_reservation : env_reservation env ∈ db :: past;
  reads_request : env_request env ∈ db :: past;
  reads_account : env_account env ∈ db :: past;
  reads_ledger : env_ledger env ∈ db :: past }.

Definition set_requests (db : DB) (requests : gmap (string * string) string) : DB :=
  {| db_accounts := db_accounts db; db_reservations := db_reservations db; db_ledger := db_ledger db;
     db_next_entry := db_next_entry db; db_requests := requests |}.

Definition close_account (at_ : Time) (actor : string) (row : Account) : Account :=
  {| acc_ID := acc_ID row; acc_Scope := acc_Scope row; acc_Currency := acc_Currency row;
     acc_PeriodStart := acc_PeriodStart row; acc_PeriodEnd := acc_PeriodEnd row;
     acc_SoftLimit := acc_SoftLimit row; acc_HardLimit := acc_HardLimit row;
     acc_Committed := acc_Committed row; acc_Reserved := acc_Reserved row;
     acc_Status := AccountClosed; acc_Version := acc_Version row + 1;
     acc_CreatedAt := acc_CreatedAt row; acc_CreatedBy := acc_CreatedBy row;
     acc_UpdatedAt := at_; acc_UpdatedBy := actor; acc_ClosedAt := Some at_ |}.

Inductive history : list DB -> Prop :=
| history_init db : fresh db -> history [db]
| history_attempt db past env db' :
    history (db :: past) -> reads_from env db past -> attempt env db' -> history (db' :: db :: past)
| history_requests db past requests : history (db :: past) -> history (set_requests db requests :: db :: past)
| history_open db past row :
    history (db :: past) -> db_accounts db !! account_key row = None -> fresh_account row ->
    history (set_account db row :: db :: past)
| history_close db past row at_ actor :
    history (db :: past) -> db_accounts db !! account_key row = Some row ->
    Account_Validate (close_account at_ actor row) = true ->
    history (set_account db (close_account at_ actor row) :: db :: past).

Lemma attempt_effect env db :
  keys_ok (env_now env) -> ids_ok (env_now env) -> extends (env_reservation env) (env_now env) ->
  attempt env db -> effect (env_now env) db.
Proof. intros ??? Ha. destruct Ha; [by apply reserveOnce_effect|by apply settleOnce_effect|by apply reapOnce_effect]. Qed.

Lemma fresh_inv db : fresh db -> inv db.
Proof.
  intros (Hr & Hl & Ha).
  split; unfold ids_ok; rewrite ?Hr, ?Hl; try by intros ? ?%elem_of_nil.
  - intros k row Hk. by apply Ha.
  - constructor.
  - constructor.
  - intros k row Hk. destruct (Ha k row Hk) as (_ & [] & Hc & Hz).
    split; [done|..]; unfold total_held, total_actual, total_overage; rewrite ?Hr, ?Hl; simpl; try lia.
    by rewrite Hc, Hz.
Qed.

Lemma requests_inv db requests : inv db -> inv (set_requests db requests).
Proof. intros H. split; try apply H. intros k row Hk. destruct (inv_books _ H _ _ Hk). by split. Qed.

Lemma open_inv db row : inv db -> db_accounts db !! account_key row = None -> fresh_account row -> inv (set_account db row).
Proof.
  intros Hinv Hnone (Hok & Hc & Hr).
  assert (Hkeep : forall k, is_Some (db_accounts db !! k) -> db_accounts (set_account db row) !! k = db_accounts db !! k).
  { intros k [x Hx]. apply lookup_account_change. intros <-. congruence. }
  split; try apply Hinv.
  - intros k r. simpl. rewrite lookup_insert_Some. intros [[<- <-]|[_ H]]; [done|by apply Hinv].
  - intros r H%(inv_accounts _ Hinv). by rewrite Hkeep.
  - intros e H%(inv_ledger_accounts _ Hinv). by rewrite Hkeep.
  - intros k r. simpl. rewrite lookup_insert_Some. intros [[<- <-]|[_ H]].
    + assert (Hother : forall r, r ∈ db_reservations db -> res_key r <> account_key row).
      { intros r H Heq. apply (inv_accounts _ Hinv) in H. rewrite Heq, Hnone in H. by destruct H. }
      split; [done|..]; unfold total_held, total_actual, total_overage; simpl; rewrite ?of_account_other by done; try lia.
      * destruct Hok. lia.
      * rewrite replay_other; [by rewrite Hc, Hr|]. intros e H Heq. apply (inv_ledger_accounts _ Hinv) in H.
        rewrite Heq, Hnone in H. by destruct H.
    + destruct (inv_books _ Hinv _ _ H). by split.
  - intros e He Hk. destruct (inv_admitted _ Hinv e He Hk) as (r & Hr' & Hle). exists r. split; [|done].
    rewrite Hkeep; [done|]. by eexists.
Qed.

Lemma close_inv db row at_ actor :
  inv db -> db_accounts db !! account_key row = Some row -> Account_Validate (close_account at_ actor row) = true ->
  inv (set_account db (close_account at_ actor row)).
Proof.
  intros Hinv Hrow Hv.
  assert (Hkeep : forall k, is_Some (db_accounts db !! k) -> is_Some (db_accounts (set_account db (close_account at_ actor row)) !! k)).
  { intros k Hk. simpl. apply lookup_insert_is_Some. destruct (decide (account_key (close_account at_ actor row) = k)); auto. }
  split; try apply Hinv.
  - intros k r. simpl. rewrite lookup_insert_Some. intros [[<- <-]|[_ H]]; [done|by apply Hinv].
  - intros r H%(inv_accounts _ Hinv). by apply Hkeep.
  - intros e H%(inv_ledger_accounts _ Hinv). by apply Hkeep.
  - intros k r. simpl. rewrite lookup_insert_Some. intros [[<- <-]|[_ H]].
    + change (account_key (close_account at_ actor row)) with (account_key row).
      destruct (inv_books _ Hinv _ _ Hrow) as [[] ? ? ? ?]. by split.
    + destruct (inv_books _ Hinv _ _ H). by split.
  - intros e He Hk. destruct (inv_admitted _ Hinv e He Hk) as (r & Hr' & Hle). simpl.
    destruct (decide (account_key row = ent_key e)) as [Heq|Hne].
    + rewrite <- Heq in Hr' |- *. rewrite lookup_insert_eq. eexists. split; [done|]. simpl. congruence.
    + rewrite lookup_insert_ne by done. eauto.
Qed.

Lemma history_inv hist :
  history hist -> match hist with [] => True | db :: _ => inv db /\ forall old, old ∈ hist -> extends old db end.
Proof.
  induction 1 as [db Hf|db past env db' _ [Hinv Hext] [<- Hr _ _ _] Ha|db past rq _ [Hinv Hext]|db past row _ [Hinv Hext]|db past row at_ actor _ [Hinv Hext]].
  - split; [by apply fresh_inv|]. intros old ->%list_elem_of_singleton. reflexivity.
  - assert (He : effect (env_now env) db').
    { apply attempt_effect; [apply Hinv|apply Hinv|by apply Hext|done]. }
    split; [by eapply effect_inv|]. intros old [->|Ho]%elem_of_cons; [reflexivity|]. etrans; [by apply Hext|].
    apply effect_extends; [apply Hinv|done].
  - split; [by apply requests_inv|]. intros old [->|Ho]%elem_of_cons; [reflexivity|]. exact (Hext old Ho).
  - split; [by apply open_inv|]. intros old [->|Ho]%elem_of_cons; [reflexivity|]. exact (Hext old Ho).
  - split; [by apply close_inv|]. intros old [->|Ho]%elem_of_cons; [reflexivity|]. exact (Hext old Ho).
Qed.

Lemma history_head_inv db past : history (db :: past) -> inv db.
Proof. intros H. by apply (history_inv _ H). Qed.
