(* ===== verification/BudgetTheorems.v ===== *)
(** * Theorems about the budget component

    Money is conserved along every history; each transaction's reply tells what it
    did to the tables; an uncontended reservation within the limit succeeds.

    Then: budget theorems and their concrete instances. *)
From Stdlib Require Import ZArith Lia Bool Ascii String.
From stdpp Require Import base tactics option list strings gmap fin_maps sets.
From S2P Require Import Prelude Identifiers Budget BudgetStore BudgetInvariant BudgetHistory.
(** ** What the reply of one attempt says about the tables *)
Definition names_reservation (input : ReserveInput) (r : Reservation) : Prop :=
  res_key r = (ri_TenantID input, ri_AccountID input) /\ res_IdempotencyKey r = ri_IdempotencyKey input /\
  res_RequestID r = ri_RequestID input /\ res_Reserved r = ri_Amount input /\ res_ExpiresAt r = ri_ExpiresAt input.

(** The states in which [r] answers [input]: replayed from an earlier snapshot
    without a write, or written by this attempt. *)
Inductive reserve_reply (env : Env) (input : ReserveInput) (db : DB) (r : ReserveResult) : Prop :=
| reply_replayed :
    rr_Idempotent r = true -> db = env_now env -> rr_Reservation r ∈ db_reservations (env_reservation env) ->
    rr_LedgerEntry r ∈ db_ledger (env_ledger env) -> reserve_reply env input db r
| reply_written :
    rr_Idempotent r = false -> res_Status (rr_Reservation r) = ReservationPending ->
    db_reservations db = db_reservations (env_now env) ++ [rr_Reservation r] ->
    db_ledger db = db_ledger (env_now env) ++ [rr_LedgerEntry r] -> reserve_reply env input db r.

Definition reserve_outcome (env : Env) (input : ReserveInput) (n : Z) (db : DB) (o : outcome ReserveResult) : Prop :=
  match o with
  | Retry => db = env_now env
  | Done (Err e) => e = ErrUnavailable \/ db = env_now env
  | Done (Ok r) =>
      names_reservation input (rr_Reservation r) /\ ent_ReservationID (rr_LedgerEntry r) = res_ID (rr_Reservation r) /\
      ent_Kind (rr_LedgerEntry r) = EntryReserve /\ rr_Attempts r = n /\ reserve_reply env input db r
  end.

Lemma buildReserveResult_Ok account reservation entry hint idem n r :
  buildReserveResult account reservation entry hint idem n = Ok r ->
  rr_Reservation r = reservation /\ rr_LedgerEntry r = entry /\ rr_Idempotent r = idem /\ rr_Attempts r = n /\
  ent_ReservationID entry = res_ID reservation /\ ent_Kind entry = EntryReserve.
Proof.
  unfold buildReserveResult. destruct (_ && _) eqn:E; [|done]. destruct (negb _ || _); [|done].
  intros [= <-]. prop_hyps. done.
Qed.

Lemma buildReserveResult_Err account reservation entry hint idem n e :
  buildReserveResult account reservation entry hint idem n = Err e -> e = ErrUnavailable.
Proof. unfold buildReserveResult. destruct (_ && _); [destruct (negb _ || _)|]; by intros [= <-]. Qed.

Lemma scanBudgetLedger_Ok row row' : scanBudgetLedger row = Ok row' -> row' = row /\ LedgerEntry_Validate row = true.
Proof.
  unfold scanBudgetLedger. destruct (unsignedStoredAmount _); [|done]. destruct (unsignedStoredAmount _); [|done].
  destruct (LedgerEntry_Validate row); [|done]. by intros [= <-].
Qed.

Lemma insert_ledger_written db row db1 scanned :
  insert_ledger db row = Ok (db1, scanned) -> scanned = row /\ db1 = append_entry db row /\ LedgerEntry_Validate row = true.
Proof.
  unfold insert_ledger. destruct (existsb _ _); [done|]. destruct (scanBudgetLedger row) eqn:Es; [|done].
  simpl. intros [= <- <-]. apply scanBudgetLedger_Ok in Es as [-> ?]. done.
Qed.

Lemma loadExistingReserve_outcome env input n o :
  loadExistingReserve env input n = Some o -> reserve_outcome env input n (env_now env) (Done o).
Proof.
  unfold loadExistingReserve. destruct (run env StReservation _) as [reservation|[]] eqn:E0; try done; try (intros [= <-]; by left).
  destruct (negb _) eqn:Em; [intros [= <-]; by right|].
  destruct (loadBudgetAccount _ _ _) as [account|]; [|intros [= <-]; by left].
  destruct (select_ledger _ _ _ _ _ _) as [entry|] eqn:El; [|intros [= <-]; by left]. intros [= <-].
  destruct (buildReserveResult _ _ _ _ _ _) as [r|e] eqn:Eb; [|by right].
  apply buildReserveResult_Ok in Eb as (Hr & He & Hi & Hn & Hid & Hk). simpl. rewrite Hr, He.
  apply run_Ok in E0. unfold scan in E0. destruct (find _ _) as [row|] eqn:Ef; [|done].
  apply scanBudgetReservation_Ok in E0 as (-> & _ & _). apply find_elem in Ef as [Hin Hp].
  unfold select_ledger in El. apply run_Ok in El. unfold scan in El. destruct (find _ (db_ledger _)) as [x|] eqn:Ex; [|done].
  apply scanBudgetLedger_Ok in El as [-> _]. apply find_elem in Ex as [Hx _].
  unfold reservation_by_key in Hp. prop_hyps. split_and!; try done.
  - unfold names_reservation, res_key. split_and!; congruence.
  - apply reply_replayed; congruence.
Qed.

Lemma reserveOnce_outcome env input now id random n db id' o :
  reserveOnce env input now id random n = (db, id', o) -> reserve_outcome env input n db o.
Proof.
  unfold reserveOnce.
  destruct (env_fault env StBegin); [intros [= <- <- <-]; by left|].
  destruct (loadExistingReserve _ _ _) eqn:E0; [intros [= <- <- <-]; by apply loadExistingReserve_outcome in E0|].
  destruct (loadBudgetAccount _ _ _) as [account|[]]; [|intros [= <- <- <-]; by (left + right)..].
  destruct (_ || _); [intros [= <- <- <-]; by right|]. destruct (_ || _); [intros [= <- <- <-]; by right|].
  destruct (signedExactAmount (ri_Amount input)) as [amount|] eqn:Ea; [|intros [= <- <- <-]; by right].
  destruct (if bool_decide _ then _ else _) as [rid|]; [|intros [= <- <- <-]; by right].
  assert (Hfail : forall f e, reserve_outcome env input n (env_now env) (write_failed f e)).
  { intros f e. unfold write_failed. destruct (f e); [done|by right]. }
  destruct (run env StUpdateAccount _) as [[db1 updated]|] eqn:E1; [|intros [= <- <- <-]; apply Hfail].
  destruct (negb _); [intros [= <- <- <-]; by right|].
  destruct (run env StWriteReservation _) as [[db2 res]|] eqn:E2; [|intros [= <- <- <-]; apply Hfail].
  destruct (run env StInsertEntry _) as [[db3 entry]|] eqn:E3; [|intros [= <- <- <-]; apply Hfail].
  apply run_Ok in E1, E2, E3. apply update_account_Ok in E1 as (row & _ & _ & -> & _ & ->).
  apply insert_reservation_Ok in E2 as (-> & -> & _ & _ & _).
  unfold commit. destruct (env_commit env) as [[[code con|] applied]|].
  - destruct (isRetryableReserveDatabaseError _); intros [= <- <- <-]; [done|by right].
  - destruct applied; intros [= <- <- <-]; by left.
  - intros [= <- <- <-]. destruct (buildReserveResult _ _ _ _ _ _) as [r|e] eqn:Eb; [|left; by eapply buildReserveResult_Err].
    apply buildReserveResult_Ok in Eb as (Hr & He & Hi & Hn & Hid & Hk). simpl. rewrite Hr, He.
    apply insert_ledger_written in E3 as (-> & -> & _). apply signedExactAmount_Some in Ea as [-> _].
    split_and!; try done. apply reply_written; rewrite ?Hr, ?He; done.
Qed.

(** ** Retry loops as a whole *)

(** What a run of attempts numbered from [first] did, and what its reply means:
    every attempt but the last left the tables ([tables n] when attempt [n] began)
    as it found them; a value is backed by the last attempt as [good] says; the
    last attempt may have left a trace behind an error only if it is
    [ErrUnavailable]. *)
Record attempts_run {T : Type} (tables : Z -> DB) (good : Z -> DB -> T -> Prop) (first : Z) (dbs : list DB)
    (r : result T error) : Prop := {
  run_retries : forall i db, (S i < length dbs)%nat -> dbs !! i = Some db -> db = tables (first + Z.of_nat i);
  run_reply :
    match r with
    | Ok v => exists db, last dbs = Some db /\ good (first + Z.of_nat (length dbs) - 1) db v
    | Err e => e = ErrUnavailable \/ forall i db, dbs !! i = Some db -> db = tables (first + Z.of_nat i)
    end }.

Section attempts.
Context {T : Type} (tables : Z -> DB) (good : Z -> DB -> T -> Prop).

Lemma attempts_nil n e : attempts_run tables good n [] (Err e).
Proof. split; [simpl; lia|]. right. by intros []. Qed.

Lemma attempts_one n db r :
  match r with Ok v => good n db v | Err e => e = ErrUnavailable \/ db = tables n end ->
  attempts_run tables good n [db] r.
Proof.
  intros H. split; [simpl; lia|]. destruct r as [v|e].
  - exists db. split; [done|]. by replace (n + Z.of_nat (length [db]) - 1) with n by (simpl; lia).
  - destruct H as [->| ->]; [by left|right]. intros [|i] d; [|done]. intros [= <-]. by rewrite Z.add_0_r.
Qed.

Lemma attempts_cons n dbs r :
  attempts_run tables good (n + 1) dbs r -> attempts_run tables good n (tables n :: dbs) r.
Proof.
  intros [H1 H2]. assert (Hshift : forall i, n + 1 + Z.of_nat i = n + Z.of_nat (S i)) by lia. split.
  - intros [|i] d Hi; simpl in *; [intros [= <-]; by rewrite Z.add_0_r|]. rewrite <- Hshift. apply H1. lia.
  - destruct r as [v|e].
    + destruct H2 as (d & Hl & Ho). exists d. split; [destruct dbs; done|].
      replace (n + _ - 1) with (n + 1 + Z.of_nat (length dbs) - 1) by (simpl; lia). done.
    + destruct H2 as [->|H2]; [by left|right]. intros [|i] d; simpl; [intros [= <-]; by rewrite Z.add_0_r|].
      rewrite <- Hshift. apply H2.
Qed.
End attempts.

Definition tables_of (worlds : Z -> World) (n : Z) : DB := env_now (w_env (worlds n)).

Definition reserve_good (worlds : Z -> World) (input : ReserveInput) (n : Z) (db : DB) (r : ReserveResult) : Prop :=
  reserve_outcome (w_env (worlds n)) input n db (Done (Ok r)).

Lemma reserve_loop_run fuel : forall n worlds input id dbs r,
  reserve_loop fuel n worlds input id = (dbs, r) ->
  (length dbs <= fuel)%nat /\ attempts_run (tables_of worlds) (reserve_good worlds input) n dbs r.
Proof.
  induction fuel as [|fuel IH]; intros n worlds input id dbs r; simpl; [intros [= <- <-]; split; [simpl; lia|apply attempts_nil]|].
  destruct (_ || _); [intros [= <- <-]; split; [simpl; lia|apply attempts_nil]|].
  destruct (reserveOnce _ _ _ _ _ _) as [[db id'] [o|]] eqn:Eo; apply reserveOnce_outcome in Eo as Hdb.
  - intros [= <- <-]. split; [simpl; lia|]. by apply attempts_one.
  - simpl in Hdb. change (db = tables_of worlds n) in Hdb. subst db.
    destruct (Nat.eqb fuel 0); [intros [= <- <-]; split; [simpl; lia|apply attempts_cons, attempts_nil]|].
    destruct (w_cancelled _); [intros [= <- <-]; split; [simpl; lia|apply attempts_cons, attempts_nil]|].
    destruct (reserve_loop _ _ _ _ _) as [dbs' r'] eqn:El. intros [= <- <-].
    apply IH in El as [Hlen Hrun]. split; [simpl; lia|by apply attempts_cons].
Qed.

Lemma Reserve_run ctx options worlds input dbs r :
  Reserve ctx options worlds input = (dbs, r) ->
  (length dbs <= Z.to_nat (MaxAttempts options))%nat /\
  attempts_run (tables_of worlds) (reserve_good worlds (with_expiry input (postgresTime (ri_ExpiresAt input)))) 1 dbs r.
Proof.
  unfold Reserve.
  destruct (_ || _); [intros [= <- <-]; split; [simpl; lia|apply attempts_nil]|].
  destruct (time_is_zero _); [intros [= <- <-]; split; [simpl; lia|apply attempts_nil]|]. apply reserve_loop_run.
Qed.

(** ** Settle as a whole *)
Inductive settle_reply (env : Env) (db : DB) (r : SettlementResult) : Prop :=
| settle_replayed :
    sr_Idempotent r = true -> db = env_now env -> sr_Reservation r ∈ db_reservations (env_reservation env) ->
    settle_reply env db r
| settle_written before old after :
    sr_Idempotent r = false -> res_Status old = ReservationPending -> refines_row old (sr_Reservation r) ->
    db_reservations (env_now env) = before ++ old :: after ->
    db_reservations db = before ++ sr_Reservation r :: after ->
    db_ledger db = db_ledger (env_now env) ++ [sr_LedgerEntry r] -> settle_reply env db r.

(** The reservation a settlement answers with: the one asked for, terminal, with
    the hold split exactly into what was used and what was released or exceeded. *)
Record settled_as (input : SettlementInput) (actual : Z) (r : SettlementResult) : Prop := {
  settled_key : res_key (sr_Reservation r) = (si_TenantID input, si_AccountID input);
  settled_id : res_ID (sr_Reservation r) = si_ReservationID input;
  settled_request : res_RequestID (sr_Reservation r) = si_RequestID input;
  settled_status : res_Status (sr_Reservation r) = settlementReservationStatus (si_Outcome input);
  settled_actual : res_Actual (sr_Reservation r) = Some actual;
  settled_entry : ent_ReservationID (sr_LedgerEntry r) = si_ReservationID input /\ ent_CommittedDelta (sr_LedgerEntry r) = actual /\
    ent_ReservedDelta (sr_LedgerEntry r) = - res_Reserved (sr_Reservation r);
  settled_split : (sr_Released r, sr_Overage r) = reservationDifference (res_Reserved (sr_Reservation r)) actual }.

Lemma buildSettlementResult_Ok account reservation entry out idem n r :
  buildSettlementResult account reservation entry out idem n = Ok r ->
  sr_Reservation r = reservation /\ sr_LedgerEntry r = entry /\ sr_Idempotent r = idem /\
  exists actual, res_Actual reservation = Some actual /\ res_Status reservation = settlementReservationStatus out /\
    ent_ReservationID entry = res_ID reservation /\ ent_CommittedDelta entry = actual /\
    ent_ReservedDelta entry = - res_Reserved reservation /\
    (sr_Released r, sr_Overage r) = reservationDifference (res_Reserved reservation) actual.
Proof.
  unfold buildSettlementResult. destruct (res_Actual reservation) as [actual|] eqn:Ea; [|done].
  destruct (res_Released reservation) as [released|] eqn:Er; [|done].
  destruct (res_Overage reservation) as [overage|] eqn:Eo; [|done].
  destruct (_ && _) eqn:Ev; [|done]. destruct (signedExactAmount actual) as [signed|] eqn:Es; [|done].
  destruct (_ && _) eqn:Ev2 in |- *; [|done]. intros [= <-]. simpl.
  apply signedExactAmount_Some in Es as [-> _]. prop_hyps.
  match goal with H : Reservation_Validate _ = true |- _ => rename H into Hv end.
  unfold Reservation_Validate, validAmount in Hv. rewrite Ea, Er, Eo in Hv. prop_hyps.
  match goal with H : ent_ReservedDelta entry = _ |- _ => rewrite signedStoredAmount_id in H by lia end.
  split_and!; try done. exists actual. split_and!; try done.
  destruct (res_Status reservation); try done; destruct (res_TerminalAt reservation); try done; prop_hyps; done.
Qed.

Lemma buildSettlementResult_Err account reservation entry out idem n e :
  buildSettlementResult account reservation entry out idem n = Err e -> e = ErrUnavailable.
Proof. unfold buildSettlementResult. intros. by repeat (case_match; simplify_eq). Qed.

Definition settle_outcome (env : Env) (input : SettlementInput) (actual : Z) (db : DB) (o : outcome SettlementResult) : Prop :=
  match o with
  | Retry => db = env_now env
  | Done (Err e) => e = ErrUnavailable \/ db = env_now env
  | Done (Ok r) => settled_as input actual r /\ settle_reply env db r
  end.

Lemma loadTerminalSettlement_outcome env input reservation actual n :
  reservation ∈ db_reservations (env_reservation env) -> res_key reservation = (si_TenantID input, si_AccountID input) ->
  res_ID reservation = si_ReservationID input -> res_RequestID reservation = si_RequestID input ->
  settle_outcome env input actual (env_now env) (Done (loadTerminalSettlement env input reservation actual n)).
Proof.
  intros Hin Hkey Hid Hreq. unfold loadTerminalSettlement. destruct (_ && _) eqn:Em; [|by right].
  destruct (loadBudgetAccount _ _ _) as [account|]; [|by left]. destruct (select_ledger _ _ _ _ _ _) as [entry|]; [|by left].
  destruct (buildSettlementResult _ _ _ _ _ _) as [r|e] eqn:Eb; [|by right].
  apply buildSettlementResult_Ok in Eb as (Hr & He & Hi & a & Ha & Hst & H1 & H2 & H3 & H4). prop_hyps.
  assert (a = actual) as -> by congruence. simpl. split.
  - split; rewrite ?Hr, ?He; try done. split_and!; congruence.
  - apply settle_replayed; congruence.
Qed.

Lemma settleOnce_outcome env input actual n db o :
  ids_ok (env_now env) -> extends (env_reservation env) (env_now env) ->
  settleOnce env input actual n = (db, o) -> settle_outcome env input actual db o.
Proof.
  intros Hids Hext. unfold settleOnce.
  destruct (env_fault env StBegin); [intros [= <- <-]; by left|].
  destruct (loadBudgetReservation _ _ _ _) as [reservation|[]] eqn:E0; [|intros [= <- <-]; by (left + right)..].
  apply loadBudgetReservation_Ok in E0 as (Hin & Hrkey & Hrid & Hramt).
  destruct (negb _) eqn:Erq; [intros [= <- <-]; by right|].
  destruct (loadBudgetRequestStatus _ _ _); [|intros [= <- <-]; by left].
  destruct (negb (requestStatusMatchesOutcome _ _)); [intros [= <- <-]; by right|]. prop_hyps.
  destruct (negb _); [intros [= <- <-]; by apply loadTerminalSettlement_outcome|].
  destruct (loadBudgetAccount _ _ _) as [account|]; [|intros [= <- <-]; by left].
  destruct (_ <? _); [by intros [= <- <-]|]. do 2 (destruct (_ <? _); [intros [= <- <-]; by right|]).
  destruct (signedExactAmount actual) as [signed|] eqn:Ea; [|intros [= <- <-]; by right].
  assert (Hfail : forall f e, settle_outcome env input actual (env_now env) (write_failed f e)).
  { intros f e. unfold write_failed. destruct (f e); [done|by right]. }
  destruct (run env StUpdateAccount _) as [[db1 updated]|] eqn:E1; [|intros [= <- <-]; apply Hfail].
  destruct (reservationDifference _ _) as [released overage].
  destruct (run env StWriteReservation _) as [[db2 terminal]|] eqn:E2; [|intros [= <- <-]; apply Hfail].
  destruct (run env StInsertEntry _) as [[db3 entry]|] eqn:E3; [|intros [= <- <-]; apply Hfail].
  apply run_Ok in E1, E2, E3. apply update_account_Ok in E1 as (row & _ & _ & -> & _ & ->).
  apply (update_reservation_Ok _ _ _ _ _ _ (si_ReservationID input)) in E2
    as (before & r & after & Hsplit & Hkey & Hpend & Hv & -> & ->); [|done|by intros ? []%reservation_by_id_true].
  apply insert_ledger_written in E3 as (-> & -> & _). simpl in Hsplit.
  apply reservation_by_id_true in Hkey as [Hkey Hid]. unfold pending_guard in Hpend.
  apply andb_true_iff in Hpend as [Hpend _]. apply bool_decide_eq_true in Hpend.
  assert (Href : refines_row reservation r).
  { eapply snapshot_row; try done; [rewrite Hsplit, elem_of_app, elem_of_cons; auto|congruence]. }
  unfold commit. destruct (env_commit env) as [[[code con|] applied]|].
  - destruct (isRetryableReserveDatabaseError _); intros [= <- <-]; [done|by right].
  - destruct applied; intros [= <- <-]; by left.
  - intros [= <- <-]. destruct (buildSettlementResult _ _ _ _ _ _) as [v|e] eqn:Eb; [|left; by eapply buildSettlementResult_Err].
    apply buildSettlementResult_Ok in Eb as (Hr & He & Hi & a & Ha & Hst & H1 & H2 & H3 & H4).
    apply signedExactAmount_Some in Ea as [-> _]. injection Ha as <-. simpl. split.
    + split; rewrite ?Hr, ?He; try done. simpl. rewrite (ref_request _ _ Href). congruence.
    + eapply (settle_written _ _ _ before r after); rewrite ?Hr, ?He; try done.
Qed.

Definition in_history (worlds : Z -> World) : Prop :=
  forall n, exists past, history (tables_of worlds n :: past) /\ reads_from (w_env (worlds n)) (tables_of worlds n) past.

Lemma in_history_snapshot worlds n :
  in_history worlds -> inv (tables_of worlds n) /\ extends (env_reservation (w_env (worlds n))) (tables_of worlds n).
Proof.
  intros H. destruct (H n) as (past & Hh & [_ Hr _ _ _]). destruct (history_inv _ Hh) as [Hi He]. auto.
Qed.

Definition settle_good (worlds : Z -> World) (input : SettlementInput) (actual : Z) (n : Z) (db : DB) (r : SettlementResult) : Prop :=
  settled_as input actual r /\ settle_reply (w_env (worlds n)) db r.

Lemma settle_loop_run fuel : forall n worlds input actual dbs r,
  in_history worlds -> settle_loop fuel n worlds input actual = (dbs, r) ->
  (length dbs <= fuel)%nat /\ attempts_run (tables_of worlds) (settle_good worlds input actual) n dbs r.
Proof.
  induction fuel as [|fuel IH]; intros n worlds input actual dbs r Hw; simpl; [intros [= <- <-]; split; [simpl; lia|apply attempts_nil]|].
  destruct (in_history_snapshot worlds n Hw) as [Hi He].
  destruct (settleOnce _ _ _ _) as [db [o|]] eqn:Eo; apply settleOnce_outcome in Eo as Hdb; try apply Hi; try done.
  - intros [= <- <-]. split; [simpl; lia|]. by apply attempts_one.
  - simpl in Hdb. change (db = tables_of worlds n) in Hdb. subst db.
    destruct (Nat.eqb fuel 0); [intros [= <- <-]; split; [simpl; lia|apply attempts_cons, attempts_nil]|].
    destruct (w_cancelled _); [intros [= <- <-]; split; [simpl; lia|apply attempts_cons, attempts_nil]|].
    destruct (settle_loop _ _ _ _ _) as [dbs' r'] eqn:El. intros [= <- <-].
    apply IH in El as [Hlen Hrun]; [|done]. split; [simpl; lia|by apply attempts_cons].
Qed.

(** ** Progress: a reservation that fits, made with nobody interfering, is granted
    on the first attempt. *)
Definition quiet (db : DB) (clock : Time) : Env :=
  {| env_reservation := db; env_request := db; env_account := db; env_ledger := db; env_now := db;
     env_clock := clock; env_fault := fun _ => None; env_commit := None |}.

Record admissible (db : DB) (row : Account) (clock now : Time) (id : string) (input : ReserveInput) : Prop := {
  adm_input : ReserveInput_Validate input = true;
  adm_row : db_accounts db !! (ri_TenantID input, ri_AccountID input) = Some row;
  adm_key : account_key row = (ri_TenantID input, ri_AccountID input);
  adm_ok : account_ok row;
  adm_open : acc_Status row = AccountOpen;
  adm_clock : 0 < clock /\ acc_PeriodStart row <= clock < acc_PeriodEnd row;
  adm_now : 0 < now /\ acc_PeriodStart row <= now < acc_PeriodEnd row;
  adm_expiry : now < ri_ExpiresAt input /\ greatest (acc_UpdatedAt row) clock < ri_ExpiresAt input;
  adm_amount : acc_Committed row + acc_Reserved row + ri_Amount input <= acc_HardLimit row;
  adm_id : uuidPattern id = true /\ existsb (fun r => bool_decide (res_ID r = id)) (db_reservations db) = false;
  adm_request : is_Some (db_requests db !! (ri_TenantID input, ri_RequestID input));
  adm_slot : existsb (fun r => bool_decide (res_AccountID r = ri_AccountID input) &&
                bool_decide (res_IdempotencyKey r = ri_IdempotencyKey input)) (db_reservations db) = false;
  adm_ledger : existsb (fun e => bool_decide (ent_AccountID e = ri_AccountID input) &&
                bool_decide (ent_IdempotencyKey e = ri_IdempotencyKey input)) (db_ledger db) = false;
  adm_next : 1 <= db_next_entry db }.

Lemma find_existsb {A} (p q : A -> bool) l : existsb q l = false -> (forall x, p x = true -> q x = true) -> find p l = None.
Proof.
  intros He Hpq. induction l as [|x l IH]; [done|]. simpl in *. apply orb_false_iff in He as [Hx Hl].
  destruct (p x) eqn:Ep; [rewrite (Hpq x Ep) in Hx; done|auto].
Qed.

Lemma unsignedStoredAmount_id v : 0 <= v <= MaximumAmount -> unsignedStoredAmount v = Some v.
Proof.
  intros. unfold unsignedStoredAmount. rewrite (proj2 (Z.ltb_ge _ _)) by lia. by rewrite (proj2 (Z.ltb_ge _ _)) by lia.
Qed.

Section progress.
Context (db : DB) (row : Account) (clock now : Time) (id : string) (input : ReserveInput).
Context (Hadm : admissible db row clock now id input).
Let row' : Account := adjust_account 0 (ri_Amount input) clock (ri_Actor input) row.
Let r : Reservation := pending_row id input (ri_Amount input) (acc_UpdatedAt row').
Let db2 : DB := set_reservations (set_account db row') (db_reservations db ++ [r]).
Let e : LedgerEntry := ledger_row db2 (ri_TenantID input) (ri_AccountID input) id EntryReserve
  (ri_IdempotencyKey input) 0 (ri_Amount input) row' (acc_UpdatedAt row') (ri_Actor input).

Lemma adm_bounds :
  0 < ri_Amount input <= MaximumAmount /\ 0 <= acc_Committed row /\ 0 <= acc_Reserved row /\
  acc_HardLimit row <= MaximumAmount /\ 0 < acc_SoftLimit row <= MaximumAmount.
Proof using Hadm.
  destruct Hadm as [Hi _ _ [Hv] _ _ _ _ _ _ _ _ _ _].
  unfold ReserveInput_Validate, validAmount in Hi. unfold Account_Validate, validAmount in Hv. prop_hyps. lia.
Qed.

Lemma adm_account : scanBudgetAccount row' = Ok row'.
Proof using Hadm.
  pose proof adm_bounds. destruct Hadm as [Hi _ _ [Hv] Ho Hc Hn He Ha _ _ _ _ _].
  unfold scanBudgetAccount. subst row'. simpl. rewrite !unsignedStoredAmount_id by lia.
  unfold Account_Validate, balances_ok, ReserveInput_Validate, time_before in *. simpl. prop_hyps.
  rewrite u64_sub_small in * by (unfold MaximumAmount, u64_max in *; lia).
  match goal with |- (if ?c then _ else _) = _ => assert (c = true) as ->; [|done] end.
  prop_goal; try done; unfold greatest; lia.
Qed.

Lemma adm_event_time : 0 < acc_UpdatedAt row' < ri_ExpiresAt input.
Proof using Hadm. destruct Hadm. subst row'. simpl. unfold greatest in *. lia. Qed.

Lemma adm_reservation : scanBudgetReservation r = Ok r.
Proof using Hadm.
  pose proof adm_bounds. pose proof adm_event_time. destruct Hadm as [Hi _ _ _ _ _ _ _ _ [Hid _] _ _ _ _].
  unfold scanBudgetReservation. subst row' r. simpl in *. rewrite unsignedStoredAmount_id by lia.
  unfold Reservation_Validate, ReserveInput_Validate, time_after, time_before, time_is_zero in *. simpl. prop_hyps.
  match goal with |- (if ?c then _ else _) = _ => assert (c = true) as ->; [|done] end.
  prop_goal; try done; lia.
Qed.

Lemma adm_entry : scanBudgetLedger e = Ok e.
Proof using Hadm.
  pose proof adm_bounds. pose proof adm_event_time. destruct Hadm as [Hi _ _ _ _ _ _ _ Ha [Hid _] _ _ _ Hnext].
  unfold scanBudgetLedger. subst row' e. simpl in *. rewrite !signedStoredAmount_id by lia.
  rewrite !unsignedStoredAmount_id by lia.
  unfold LedgerEntry_Validate, ReserveInput_Validate, time_is_zero, validDelta, balances_ok in *. simpl. prop_hyps.
  rewrite !signedStoredAmount_id by lia. rewrite u64_sub_small by (unfold MaximumAmount, u64_max in *; lia).
  match goal with |- (if ?c then _ else _) = _ => assert (c = true) as ->; [|done] end.
  prop_goal; try done; lia.
Qed.

Lemma adm_result :
  buildReserveResult row' r e (ri_Hint input) false 1 = Ok
    {| rr_Reservation := r; rr_LedgerEntry := e; rr_AccountVersion := acc_Version row + 1;
       rr_ResultCommitted := acc_Committed row; rr_ResultReserved := acc_Reserved row + ri_Amount input;
       rr_RemainingHard := acc_HardLimit row - (acc_Committed row + acc_Reserved row + ri_Amount input);
       rr_SoftLimitExceeded := acc_SoftLimit row <? acc_Committed row + acc_Reserved row + ri_Amount input;
       rr_LimitNotice :=
         if acc_SoftLimit row <? acc_Committed row + acc_Reserved row + ri_Amount input
         then Some {| notice_Level := LimitSoft;
                      notice_Remaining := acc_HardLimit row - (acc_Committed row + acc_Reserved row + ri_Amount input);
                      notice_ResetAt := acc_PeriodEnd row; notice_Hint := ri_Hint input |}
         else None;
       rr_Idempotent := false; rr_Attempts := 1 |}.
Proof using Hadm.
  pose proof adm_bounds as Hb. destruct (scanBudgetAccount_Ok _ _ adm_account) as [_ [Hav _ _ _]].
  destruct (scanBudgetReservation_Ok _ _ adm_reservation) as (_ & Hrv & _).
  destruct (scanBudgetLedger_Ok _ _ adm_entry) as (_ & Hev).
  unfold buildReserveResult. rewrite Hav, Hrv, Hev. destruct Hadm as [Hi _ Hk [Hv] _ Hc _ _ Ha _ _ _ _ _].
  unfold account_key in Hk. injection Hk as Ht Hacc. unfold ReserveInput_Validate in Hi. prop_hyps.
  assert (Hspent : u64_add (ent_ResultCommitted e) (ent_ResultReserved e) = acc_Committed row + acc_Reserved row + ri_Amount input).
  { subst e row'. simpl. rewrite !signedStoredAmount_id by lia. rewrite u64_add_small; unfold u64_max, MaximumAmount in *; lia. }
  rewrite Hspent. subst e r row'. simpl. rewrite !signedStoredAmount_id by lia. rewrite Ht, Hacc, !bool_decide_eq_true_2 by done.
  assert (Hrem : remaining_under (acc_HardLimit row) (acc_Committed row + acc_Reserved row + ri_Amount input) =
    acc_HardLimit row - (acc_Committed row + acc_Reserved row + ri_Amount input)).
  { unfold remaining_under. destruct (_ <? _) eqn:E; prop_hyps; [apply u64_sub_small; unfold u64_max, MaximumAmount in *|]; lia. }
  unfold newBudgetLimitNotice. simpl. rewrite Hrem.
  match goal with |- (if ?c then _ else _) = _ => assert (c = true) as ->; [prop_goal; done|] end.
  match goal with |- (if ?c then _ else _) = _ => assert (c = true) as -> end.
  { apply orb_true_iff. right. unfold LimitNotice_Validate, time_is_zero. simpl. prop_goal; try done; lia. }
  f_equal. f_equal; lia.
Qed.

Lemma adm_loaded : scanBudgetAccount row = Ok row.
Proof using Hadm.
  pose proof adm_bounds. destruct Hadm as [_ _ _ [Hv] _ _ _ _ _ _ _ _ _ _].
  unfold scanBudgetAccount. rewrite !unsignedStoredAmount_id by lia. by rewrite Hv.
Qed.

Lemma reserveOnce_granted :
  reserveOnce (quiet db clock) input now "" (Some id) 1 =
    (append_entry db2 e, id, Done (buildReserveResult row' r e (ri_Hint input) false 1)).
Proof using Hadm.
  pose proof adm_bounds as Hb. pose proof adm_loaded as Hl. pose proof adm_account as Hsa.
  pose proof adm_reservation as Hsr. pose proof adm_entry as Hse. pose proof adm_event_time as Het.
  destruct Hadm as [Hi Hrow Hk _ Ho Hc Hn He Ha [Hid Hfid] [st Hst] Hslot Hled Hnext].
  unfold reserveOnce, loadExistingReserve, loadBudgetAccount, run. simpl.
  rewrite (find_existsb _ _ _ Hslot).
  2: { intros x. unfold reservation_by_key. intros. prop_hyps. prop_goal; done. }
  simpl. rewrite Hrow. simpl. rewrite Hl, Ho. unfold time_before. rewrite bool_decide_eq_true_2 by done.
  rewrite (proj2 (Z.ltb_ge _ _)) by lia. rewrite (proj2 (Z.ltb_lt _ _)) by lia. simpl.
  rewrite u64_add_small, u64_sub_small by (unfold u64_max, MaximumAmount in *; lia).
  rewrite (proj2 (Z.ltb_ge _ _)) by lia. rewrite (proj2 (Z.ltb_ge _ _)) by lia. simpl.
  unfold signedExactAmount. rewrite (proj2 (Z.ltb_ge _ _)) by lia.
  unfold update_account. rewrite Hrow. unfold reserve_guard. rewrite Ho, bool_decide_eq_true_2, Z.eqb_refl by done.
  rewrite !(proj2 (Z.leb_le _ _)), (proj2 (Z.ltb_lt _ _)) by lia. simpl. fold row'. rewrite Hsa. simpl.
  unfold time_after. rewrite (proj2 (Z.ltb_lt _ _)) by (apply Het). simpl.
  match goal with |- context [insert_reservation ?a ?b] => replace (insert_reservation a b) with (Ok (E := stmt_error) (db2, r)) end.
  2: { unfold insert_reservation. simpl. rewrite Hfid, Hslot, Hst. symmetry. change (scanBudgetReservation _) with (scanBudgetReservation r).
       by rewrite Hsr. }
  match goal with |- context [insert_ledger ?a ?b] =>
    replace (insert_ledger a b) with (Ok (E := stmt_error) (append_entry db2 e, e)) end.
  2: { unfold insert_ledger. simpl. rewrite Hled. symmetry. change (scanBudgetLedger _) with (scanBudgetLedger e).
       by rewrite Hse. }
  done.
Qed.
End progress.

(** ** Settlement amounts *)
Lemma charges_ok_sum charges : forall seen acc,
  (forall c, c ∈ charges -> 0 <= charge_Amount c) -> 0 <= acc <= MaximumAmount -> charges_ok charges seen acc = true ->
  foldl (fun actual c => u64_add actual (charge_Amount c)) acc charges = acc + sum_by charge_Amount charges /\
  acc + sum_by charge_Amount charges <= MaximumAmount /\ 0 <= sum_by charge_Amount charges /\
  NoDup (charge_identity <$> charges) /\ Forall (fun x => x ∉ seen) (charge_identity <$> charges).
Proof.
  induction charges as [|c rest IH]; intros seen acc Hpos Hacc; simpl.
  { intros _. split_and!; try lia; constructor. }
  intros H. prop_hyps. unfold charge_ok in *. prop_hyps.
  assert (0 <= charge_Amount c) by (apply Hpos; left).
  match goal with H : acc <= u64_sub _ _ |- _ => rewrite u64_sub_small in H by (unfold u64_max, MaximumAmount in *; lia) end.
  rewrite u64_add_small in * by (unfold u64_max, MaximumAmount in *; lia).
  destruct (IH (charge_identity c :: seen) (acc + charge_Amount c)) as (-> & ? & ? & Hnd & Hall); [|lia|done|].
  { intros x Hx. apply Hpos. by right. }
  rewrite Forall_forall in Hall. split_and!; try lia.
  - apply NoDup_cons. split; [|done]. intros Hin%Hall. apply Hin. left.
  - apply Forall_cons. split; [done|]. apply Forall_forall. intros x Hx%Hall. set_solver.
Qed.

Lemma ActualMicros_Ok input actual :
  (forall c, c ∈ si_Charges input -> 0 <= charge_Amount c) -> ActualMicros input = Ok actual ->
  actual = sum_by charge_Amount (si_Charges input) /\ 0 <= actual <= MaximumAmount /\
  NoDup (charge_identity <$> si_Charges input).
Proof.
  intros Hpos. unfold ActualMicros. destruct (SettlementInput_Validate input) eqn:Ev; [|done]. intros [= <-].
  unfold SettlementInput_Validate in Ev. prop_hyps.
  match goal with H : charges_ok _ _ _ = true |- _ => apply charges_ok_sum in H as (-> & ? & ? & ? & _) end;
    [|done|unfold MaximumAmount; lia]. split_and!; [lia..|done].
Qed.

Lemma Settle_run ctx options worlds input dbs r :
  in_history worlds -> Settle ctx options worlds input = (dbs, r) ->
  (length dbs <= Z.to_nat (MaxAttempts options))%nat /\
  attempts_run (tables_of worlds) (fun n db v => exists actual, ActualMicros input = Ok actual /\ settle_good worlds input actual n db v) 1 dbs r.
Proof.
  intros Hw. unfold Settle. destruct (_ || _); [intros [= <- <-]; split; [simpl; lia|apply attempts_nil]|].
  destruct (ActualMicros input) as [actual|e] eqn:Ea; [|intros [= <- <-]; split; [simpl; lia|apply attempts_nil]].
  intros H. apply settle_loop_run in H as [Hlen [H1 H2]]; [|done]. split; [done|]. split; [done|].
  destruct r; [|done]. destruct H2 as (db & ? & ?). eauto 10.
Qed.

Lemma Reserve_granted options worlds db row clock id input :
  let input' := with_expiry input (postgresTime (ri_ExpiresAt input)) in
  ReserveInput_Validate input = true -> 1 <= MaxAttempts options ->
  w_env (worlds 1) = quiet db clock -> w_random (worlds 1) = Some id ->
  admissible db row clock (postgresTime (w_now (worlds 1))) id input' ->
  exists db' v, Reserve ctx_live options worlds input = ([db'], Ok v) /\ rr_Idempotent v = false /\ rr_Attempts v = 1 /\
    rr_ResultCommitted v = acc_Committed row /\ rr_ResultReserved v = acc_Reserved row + ri_Amount input /\
    rr_RemainingHard v = acc_HardLimit row - (acc_Committed row + acc_Reserved row + ri_Amount input) /\
    rr_SoftLimitExceeded v = (acc_SoftLimit row <? acc_Committed row + acc_Reserved row + ri_Amount input) /\
    db_accounts db' !! account_key row = Some (adjust_account 0 (ri_Amount input) clock (ri_Actor input) row).
Proof.
  intros input' Hi Hm Henv Hrnd Hadm. unfold Reserve. rewrite Hi. simpl.
  pose proof (adm_expiry _ _ _ _ _ _ Hadm) as He. pose proof (adm_now _ _ _ _ _ _ Hadm) as Hn. simpl in He.
  unfold time_is_zero. rewrite (proj2 (Z.eqb_neq _ _)) by lia.
  destruct (Z.to_nat (MaxAttempts options)) as [|fuel] eqn:Ef; [lia|]. simpl. unfold time_is_zero, time_after.
  rewrite (proj2 (Z.eqb_neq _ _)), (proj2 (Z.ltb_lt _ _)) by lia. simpl.
  rewrite Henv, Hrnd. fold input'. rewrite (reserveOnce_granted _ _ _ _ _ _ Hadm), (adm_result _ _ _ _ _ _ Hadm).
  do 2 eexists. split; [done|]. simpl. split_and!; try done.
  apply lookup_insert_eq.
Qed.

(** ** Budget theorems and their concrete instances *)
(** ** A concrete run: one tenant account, a reservation, its settlement *)
Definition demo_tenant : string := "11111111-1111-4111-8111-111111111111".
Definition demo_account_id : string := "22222222-2222-4222-8222-222222222222".
Definition demo_reservation_id : string := "33333333-3333-4333-8333-333333333333".
Definition demo_attempt_id : string := "44444444-4444-4444-8444-444444444444".
Definition demo_start : Time := 63800000000 * second.
Definition demo_clock : Time := demo_start + 10 * second.

Definition demo_account : Account :=
  {| acc_ID := demo_account_id;
     acc_Scope := {| Kind := ScopeTenant; TenantID := demo_tenant; ProjectID := ""; VirtualKeyID := "";
                     PrincipalRef := ""; SessionRef := "" |};
     acc_Currency := "USD"; acc_PeriodStart := demo_start; acc_PeriodEnd := demo_start + 24 * hour;
     acc_SoftLimit := 800; acc_HardLimit := 1000; acc_Committed := 0; acc_Reserved := 0;
     acc_Status := AccountOpen; acc_Version := 1; acc_CreatedAt := demo_start; acc_CreatedBy := "admin";
     acc_UpdatedAt := demo_start; acc_UpdatedBy := "admin"; acc_ClosedAt := None |}.

Definition demo_db : DB :=
  {| db_accounts := {[ (demo_tenant, demo_account_id) := demo_account ]}; db_reservations := []; db_ledger := [];
     db_next_entry := 1; db_requests := {[ (demo_tenant, "req-1"%string) := "succeeded"%string ]} |}.

Definition demo_reserve (key : string) (amount : Z) : ReserveInput :=
  {| ri_TenantID := demo_tenant; ri_AccountID := demo_account_id; ri_RequestID := "req-1"; ri_IdempotencyKey := key;
     ri_Amount := amount; ri_ExpiresAt := demo_clock + hour; ri_Actor := "gateway"; ri_Hint := DegradeNone |}.

Definition demo_world (db : DB) (id : string) : World :=
  {| w_env := quiet db demo_clock; w_now := demo_clock; w_random := Some id; w_cancelled := false |}.

Definition demo_settlement : SettlementInput :=
  {| si_TenantID := demo_tenant; si_AccountID := demo_account_id; si_ReservationID := demo_reservation_id;
     si_RequestID := "req-1"; si_Outcome := SettlementSucceeded;
     si_Charges := [{| charge_Kind := ChargeAttempt; charge_ReferenceID := demo_attempt_id; charge_Amount := 120 |}];
     si_Actor := "gateway" |}.

Definition demo_reserved : DB :=
  (reserveOnce (quiet demo_db demo_clock) (demo_reserve "k1" 100) demo_clock "" (Some demo_reservation_id) 1).1.1.
Definition demo_settled : DB := (settleOnce (quiet demo_reserved demo_clock) demo_settlement 120 1).1.

Definition demo_key : string * string := (demo_tenant, demo_account_id).

Lemma demo_account_ok : fresh_account demo_account.
Proof. split; [split; [by vm_compute|vm_compute; split; congruence..]|done]. Qed.

Lemma demo_fresh : fresh demo_db.
Proof.
  split_and!; try done. intros k row Hk. simpl in Hk. apply lookup_singleton_Some in Hk as [<- <-].
  split; [done|apply demo_account_ok].
Qed.

Lemma quiet_reads db past clock : reads_from (quiet db clock) db past.
Proof. split; try done; left. Qed.

Lemma demo_history : history [demo_settled; demo_reserved; demo_db].
Proof.
  eapply history_attempt; [|apply quiet_reads|apply attempt_settle].
  eapply history_attempt; [|apply quiet_reads|apply attempt_reserve].
  constructor. apply demo_fresh.
Qed.

Definition demo_balances (db : DB) : option (Z * Z) :=
  match db_accounts db !! demo_key with Some row => Some (acc_Committed row, acc_Reserved row) | None => None end.

Lemma demo_reserved_balances : demo_balances demo_reserved = Some (0, 100).
Proof. vm_compute. reflexivity. Qed.

Lemma demo_settled_balances : demo_balances demo_settled = Some (120, 0).
Proof. vm_compute. reflexivity. Qed.

(** ** Conservation *)

(** C1: in every history of the budget tables, whatever snapshots the transactions
    read and whatever failures hit them, an account's reserved balance is the sum of
    its pending holds, its committed balance the sum of the actual amounts of its
    terminal reservations, and both together exceed the hard limit by no more than
    the overage its settlements recorded. *)
Theorem account_balances_match_reservations db past k row :
  history (db :: past) -> db_accounts db !! k = Some row ->
  acc_Reserved row = total_held db k /\ acc_Committed row = total_actual db k /\
  0 <= acc_Reserved row /\ 0 <= acc_Committed row /\
  acc_Committed row + acc_Reserved row <= acc_HardLimit row + total_overage db k.
Proof.
  intros H Hk. destruct (inv_books _ (history_head_inv _ _ H) _ _ Hk) as [[] ? ? ? _]. split_and!; lia.
Qed.

Lemma account_balances_match_reservations_witness :
  exists row, db_accounts demo_settled !! demo_key = Some row /\ acc_Committed row = 120 /\
    acc_Committed row = total_actual demo_settled demo_key.
Proof.
  pose proof demo_settled_balances as Hb. unfold demo_balances in Hb.
  destruct (db_accounts demo_settled !! demo_key) as [row|] eqn:E; [|discriminate Hb].
  exists row. split; [reflexivity|]. injection Hb as Hc _. split; [exact Hc|].
  destruct (account_balances_match_reservations _ _ _ _ demo_history E) as (_ & Ha & _). exact Ha.
Defined.

(** C10: replaying the append-only ledger of an account from zero reproduces every
    recorded intermediate result and ends in the balances of the account row. *)
Theorem ledger_replays_to_balances db past k row :
  history (db :: past) -> db_accounts db !! k = Some row ->
  replay k (db_ledger db) = Some (acc_Committed row, acc_Reserved row).
Proof. intros H Hk. by destruct (inv_books _ (history_head_inv _ _ H) _ _ Hk). Qed.

Lemma ledger_replays_to_balances_witness :
  length (db_ledger demo_settled) = 2%nat /\ exists row, replay demo_key (db_ledger demo_settled) = Some (acc_Committed row, acc_Reserved row).
Proof.
  split; [vm_compute; reflexivity|]. pose proof demo_settled_balances as Hb. unfold demo_balances in Hb.
  destruct (db_accounts demo_settled !! demo_key) as [row|] eqn:E; [|discriminate Hb].
  exists row. exact (ledger_replays_to_balances _ _ _ _ demo_history E).
Defined.

(** No grant crosses the hard limit: the balances recorded by every reserve
    entry of every history sum to at most the account's (immutable) hard limit. *)
Theorem grants_respect_hard_limit db past e :
  history (db :: past) -> e ∈ db_ledger db -> ent_Kind e = EntryReserve ->
  exists row, db_accounts db !! ent_key e = Some row /\ ent_ResultCommitted e + ent_ResultReserved e <= acc_HardLimit row.
Proof. intros H He Hk. by apply (inv_admitted _ (history_head_inv _ _ H) e He). Qed.

Lemma grants_respect_hard_limit_witness :
  exists e, e ∈ db_ledger demo_settled /\ exists row, db_accounts demo_settled !! ent_key e = Some row.
Proof.
  assert (Hhd : match db_ledger demo_settled with e :: _ => bool_decide (ent_Kind e = EntryReserve) | [] => false end = true)
    by (vm_compute; reflexivity).
  destruct (db_ledger demo_settled) as [|e l] eqn:E; [discriminate Hhd|]. apply bool_decide_eq_true in Hhd.
  assert (Hin : e ∈ db_ledger demo_settled) by (rewrite E; left). rewrite <- E.
  exists e. split; [exact Hin|]. destruct (grants_respect_hard_limit _ _ e demo_history Hin Hhd) as (row & Hr & _).
  exists row. exact Hr.
Defined.

(** An idempotency key names at most one reservation of an account, and every
    reservation has exactly one ledger entry while pending and exactly two once it
    is terminal: a hold is created once and terminated at most once. *)
Theorem reservations_are_unique_and_settled_once db past r1 r2 :
  history (db :: past) -> r1 ∈ db_reservations db -> r2 ∈ db_reservations db -> slot r1 = slot r2 ->
  r1 = r2 /\ length (entries_of db (res_ID r1)) = if decide (res_Status r1 = ReservationPending) then 1%nat else 2%nat.
Proof.
  intros H%history_head_inv H1 H2 Heq. split; [|by apply H].
  apply list_elem_of_lookup in H1 as [i Hi]. apply list_elem_of_lookup in H2 as [j Hj].
  assert (i = j) as ->; [|congruence]. eapply NoDup_lookup; [apply (inv_slots _ H)| |]; rewrite list_lookup_fmap.
  - by rewrite Hi.
  - rewrite Hj. simpl. by rewrite Heq.
Qed.

Lemma reservations_are_unique_and_settled_once_witness :
  exists r, r ∈ db_reservations demo_settled /\ length (entries_of demo_settled (res_ID r)) = 2%nat.
Proof.
  assert (Hhd : match db_reservations demo_settled with r :: _ => bool_decide (res_Status r = ReservationSettled) | [] => false end = true)
    by (vm_compute; reflexivity).
  destruct (db_reservations demo_settled) as [|r l] eqn:E; [discriminate Hhd|]. apply bool_decide_eq_true in Hhd.
  assert (Hin : r ∈ db_reservations demo_settled) by (rewrite E; left). rewrite <- E. exists r. split; [exact Hin|].
  destruct (reservations_are_unique_and_settled_once _ _ r r demo_history Hin Hin eq_refl) as [_ Hlen].
  rewrite Hhd in Hlen. exact Hlen.
Defined.

(** A reservation seen in any earlier state is still there, with the same
    identity, amount and expiry; once terminal it never changes again. *)
Theorem terminal_reservations_are_final db past old r :
  history (db :: past) -> old ∈ past -> r ∈ db_reservations old ->
  exists r', r' ∈ db_reservations db /\ refines_row r r' /\ (res_Status r <> ReservationPending -> r' = r).
Proof.
  intros H Ho Hr. destruct (history_inv _ H) as [_ Hext].
  destruct (Hext old (list_elem_of_further _ _ _ Ho) r Hr) as (r' & Hr' & Href). exists r'. split_and!; auto. apply Href.
Qed.

Lemma terminal_reservations_are_final_witness :
  exists r r', r ∈ db_reservations demo_reserved /\ r' ∈ db_reservations demo_settled /\ refines_row r r'.
Proof.
  assert (Hne : match db_reservations demo_reserved with [] => false | _ => true end = true) by (vm_compute; reflexivity).
  destruct (db_reservations demo_reserved) as [|r l] eqn:E; [discriminate Hne|].
  assert (Hin : r ∈ db_reservations demo_reserved) by (rewrite E; left). rewrite <- E.
  assert (Hpast : demo_reserved ∈ [demo_reserved; demo_db]) by left.
  destruct (terminal_reservations_are_final _ _ _ r demo_history Hpast Hin) as (r' & Hr' & Href & _).
  exists r, r'. split; [exact Hin|]. split; [exact Hr'|exact Href].
Defined.

(** ** The operations *)
Definition demo_options : ReserveOptions := {| MaxAttempts := 3; RetryDelay := 0 |}.

(** [Reserve] makes at most [MaxAttempts] attempts; an attempt that is retried
    leaves no trace; a reply with a value is backed by the tables (replayed without
    a write, or exactly one new pending row and one reserve entry, naming the
    request's account, key, amount and expiry); an error other than
    [ErrUnavailable] means that nothing was written. *)
Theorem Reserve_reports_its_effect ctx options worlds input dbs r :
  Reserve ctx options worlds input = (dbs, r) ->
  (length dbs <= Z.to_nat (MaxAttempts options))%nat /\
  attempts_run (tables_of worlds) (reserve_good worlds (with_expiry input (postgresTime (ri_ExpiresAt input)))) 1 dbs r.
Proof. apply Reserve_run. Qed.

Definition demo_first : Z -> World := fun _ => demo_world demo_db demo_reservation_id.

Lemma Reserve_reports_its_effect_witness :
  is_ok (Reserve ctx_live demo_options demo_first (demo_reserve "k1" 100)).2 = true /\
  (length (Reserve ctx_live demo_options demo_first (demo_reserve "k1" 100)).1 <= 3)%nat.
Proof.
  split; [vm_compute; reflexivity|].
  destruct (Reserve ctx_live demo_options demo_first (demo_reserve "k1" 100)) as [dbs r] eqn:E.
  exact (proj1 (Reserve_reports_its_effect _ _ _ _ _ _ E)).
Defined.

(** A valid reservation that fits under the hard limit of an open account, with
    no contention and no failure, is granted on the first attempt, and the result
    and the account row carry the exact new balances. *)
Theorem Reserve_grants_what_fits options worlds db row clock id input :
  let input' := with_expiry input (postgresTime (ri_ExpiresAt input)) in
  ReserveInput_Validate input = true -> 1 <= MaxAttempts options ->
  w_env (worlds 1) = quiet db clock -> w_random (worlds 1) = Some id ->
  admissible db row clock (postgresTime (w_now (worlds 1))) id input' ->
  exists db' v, Reserve ctx_live options worlds input = ([db'], Ok v) /\ rr_Idempotent v = false /\ rr_Attempts v = 1 /\
    rr_ResultCommitted v = acc_Committed row /\ rr_ResultReserved v = acc_Reserved row + ri_Amount input /\
    rr_RemainingHard v = acc_HardLimit row - (acc_Committed row + acc_Reserved row + ri_Amount input) /\
    rr_SoftLimitExceeded v = (acc_SoftLimit row <? acc_Committed row + acc_Reserved row + ri_Amount input) /\
    db_accounts db' !! account_key row = Some (adjust_account 0 (ri_Amount input) clock (ri_Actor input) row).
Proof. apply Reserve_granted. Qed.

Lemma demo_admissible :
  admissible demo_db demo_account demo_clock (postgresTime demo_clock) demo_reservation_id
    (with_expiry (demo_reserve "k1" 900) (postgresTime (ri_ExpiresAt (demo_reserve "k1" 900)))).
Proof.
  split; try apply demo_account_ok; try (vm_compute; reflexivity); try (vm_compute; split_and!; congruence).
  vm_compute. by eexists.
Qed.

Lemma Reserve_grants_what_fits_witness :
  exists db' v, Reserve ctx_live demo_options demo_first (demo_reserve "k1" 900) = ([db'], Ok v) /\
    rr_RemainingHard v = 100 /\ rr_SoftLimitExceeded v = true.
Proof.
  assert (Hm : 1 <= MaxAttempts demo_options) by (simpl; lia).
  destruct (Reserve_grants_what_fits demo_options demo_first demo_db demo_account demo_clock demo_reservation_id
              (demo_reserve "k1" 900) ltac:(vm_compute; reflexivity) Hm eq_refl eq_refl demo_admissible)
    as (db' & v & HR & _ & _ & _ & _ & Hrem & Hsoft & _).
  exists db', v. split; [exact HR|]. split; [exact Hrem|exact Hsoft].
Defined.

(** The same for [Settle]: retried attempts leave no trace, a settlement reply
    names the requested reservation in the terminal status of the outcome with the
    exact sum of its charges, its hold split into used and released or exceeded
    parts, and either replays a stored settlement without a write or terminates
    one pending row and appends one entry. *)
Theorem Settle_reports_its_effect ctx options worlds input dbs r :
  in_history worlds -> Settle ctx options worlds input = (dbs, r) ->
  (length dbs <= Z.to_nat (MaxAttempts options))%nat /\
  attempts_run (tables_of worlds)
    (fun n db v => exists actual, ActualMicros input = Ok actual /\ settle_good worlds input actual n db v) 1 dbs r.
Proof. apply Settle_run. Qed.

Definition demo_second : Z -> World := fun _ => demo_world demo_reserved demo_attempt_id.

Lemma demo_second_history : in_history demo_second.
Proof.
  intros n. exists [demo_db]. split; [|apply quiet_reads].
  eapply history_attempt; [|apply quiet_reads|apply attempt_reserve]. constructor. apply demo_fresh.
Qed.

Lemma Settle_reports_its_effect_witness :
  is_ok (Settle ctx_live demo_options demo_second demo_settlement).2 = true /\
  (length (Settle ctx_live demo_options demo_second demo_settlement).1 <= 3)%nat.
Proof.
  split; [vm_compute; reflexivity|].
  destruct (Settle ctx_live demo_options demo_second demo_settlement) as [dbs r] eqn:E.
  exact (proj1 (Settle_reports_its_effect _ _ _ _ _ _ demo_second_history E)).
Defined.

(** [ActualMicros] of a valid settlement is the exact sum of its charges, fits
    the money range without wrapping, and no charge source is counted twice. *)
Theorem ActualMicros_is_exact input actual :
  (forall c, c ∈ si_Charges input -> 0 <= charge_Amount c) -> ActualMicros input = Ok actual ->
  actual = sum_by charge_Amount (si_Charges input) /\ 0 <= actual <= MaximumAmount /\
  NoDup (charge_identity <$> si_Charges input).
Proof. apply ActualMicros_Ok. Qed.

Lemma ActualMicros_is_exact_witness : 120 = sum_by charge_Amount (si_Charges demo_settlement).
Proof.
  refine (proj1 (ActualMicros_is_exact demo_settlement 120 _ _)); [|vm_compute; reflexivity].
  intros c Hc. simpl in Hc. apply list_elem_of_singleton in Hc. subst c. simpl. lia.
Defined.

(** ** A reserve key can occupy a settlement's ledger key *)
Definition demo_squatted : DB :=
  (reserveOnce (quiet demo_reserved demo_clock) (demo_reserve ("settle:" +:+ demo_reservation_id) 1) demo_clock ""
     (Some demo_attempt_id) 1).1.1.
Definition demo_third : Z -> World := fun _ => demo_world demo_squatted demo_attempt_id.

(** Reservation keys and settlement keys share one namespace. Two granted
    reservations, the second with the idempotency key [settle:<id of the first>],
    lead to a state in which settling the first answers [ErrConflict] although the
    hold is pending and covers the charge. *)
Theorem reserve_key_blocks_settlement :
  history [demo_squatted; demo_reserved; demo_db] /\
  is_ok (Reserve ctx_live demo_options demo_second (demo_reserve ("settle:" +:+ demo_reservation_id) 1)).2 = true /\
  (Settle ctx_live demo_options demo_third demo_settlement).2 = Err ErrConflict.
Proof.
  split; [|split; vm_compute; reflexivity].
  eapply history_attempt; [|apply quiet_reads|apply attempt_reserve].
  eapply history_attempt; [|apply quiet_reads|apply attempt_reserve].
  constructor. apply demo_fresh.
Qed.
