(* ===== verification/Circuit.v ===== *)
(** * Circuit breaker (src/internal/routing/circuit_breaker.go)

    Per-deployment circuit records, the permits handed to attempts, and the
    operations of the breaker. Every operation runs under the breaker's mutex, so a
    concurrent execution is a sequence of operations; permits live in a store of
    their own because they outlive the record they were issued for. The clock the
    breaker calls is an argument of each operation. *)
From Stdlib Require Import ZArith Lia Bool Ascii String.
From stdpp Require Import base tactics option list strings gmap fin_maps sets.
From S2P Require Import Prelude Identifiers.
(** ** Data *)
Inductive error := ErrCircuitInvalid | ErrCircuitOpen | ErrHalfOpenSaturated | ErrCircuitCapacity
  | ErrCircuitPermitCompleted | ErrContext (cause : ctx_error).

Inductive CircuitState := CircuitClosed | CircuitOpen | CircuitHalfOpen.
Inductive CircuitOutcome := CircuitSucceeded | CircuitFailed | CircuitIgnored | CircuitOutcomeOther (value : string).

#[export] Instance CircuitState_eq_dec : EqDecision CircuitState.
Proof. solve_decision. Defined.
#[export] Instance circuit_error_eq_dec : EqDecision error.
Proof. solve_decision. Defined.

Record CircuitOptions := {
  FailureThreshold : Z; OpenDuration : Duration; HalfOpenMaximumProbes : Z;
  HalfOpenSuccessThreshold : Z; MaximumDeployments : Z }.

Definition DefaultCircuitOptions : CircuitOptions :=
  {| FailureThreshold := 5; OpenDuration := 30 * second; HalfOpenMaximumProbes := 2;
     HalfOpenSuccessThreshold := 2; MaximumDeployments := 10000 |}.

Definition CircuitOptions_Validate (options : CircuitOptions) : bool :=
  (2 <=? FailureThreshold options) && (FailureThreshold options <=? 1000) &&
  (second <=? OpenDuration options) && (OpenDuration options <=? hour) &&
  (1 <=? HalfOpenMaximumProbes options) && (HalfOpenMaximumProbes options <=? 1000) &&
  (1 <=? HalfOpenSuccessThreshold options) && (HalfOpenSuccessThreshold options <=? 1000) &&
  (1 <=? MaximumDeployments options) && (MaximumDeployments options <=? 100000).

Record circuitRecord := {
  state : CircuitState; generation : Z; consecutiveFailures : Z; halfOpenSuccesses : Z; inFlight : Z;
  openedAt : Time; retryAt : Time; lastTransitionAt : Time; lastTouchedAt : Time;
  totalSuccesses : Z; totalFailures : Z; totalIgnored : Z; rejectedOpen : Z; rejectedHalfOpen : Z }.

Record CircuitBreaker := {
  options : CircuitOptions; deployments : gmap string circuitRecord; evictions : Z; rejectedCapacity : Z }.

Record CircuitPermit := { permit_deploymentID : string; permit_generation : Z; permit_completed : bool }.

Definition circuitPolicyVersion : string := "circuit-breaker/v1".

Record CircuitSnapshot := {
  snap_PolicyVersion : string; snap_DeploymentID : string; snap_Tracked : bool; snap_State : CircuitState;
  snap_Healthy : bool; snap_Generation : Z; snap_ConsecutiveFailures : Z; snap_HalfOpenSuccesses : Z;
  snap_InFlight : Z; snap_OpenedAt : Time; snap_RetryAt : Time; snap_LastTransitionAt : Time;
  snap_TotalSuccesses : Z; snap_TotalFailures : Z; snap_TotalIgnored : Z; snap_RejectedOpen : Z;
  snap_RejectedHalfOpen : Z; snap_RejectedCapacity : Z; snap_EvictedClosedCircuits : Z }.

(** ** Counters *)
Definition saturatingIncrement (value : Z) : Z := if value =? u64_max then value else value + 1.
Definition circuitSaturatingIncrement32 (value : Z) : Z := if value =? u32_max then value else value + 1.

(** ** Construction *)
Definition NewCircuitBreaker (opts : CircuitOptions) (clock : bool) : result CircuitBreaker error :=
  ensure (CircuitOptions_Validate opts) else ErrCircuitInvalid in
  ensure clock else ErrCircuitInvalid in
  Ok {| options := opts; deployments := ∅; evictions := 0; rejectedCapacity := 0 |}.

Definition put (b : CircuitBreaker) (id : string) (r : circuitRecord) : CircuitBreaker :=
  {| options := options b; deployments := <[id := r]> (deployments b); evictions := evictions b;
     rejectedCapacity := rejectedCapacity b |}.

Definition validateRead (ctx : Context) (deploymentID : string) : result unit error :=
  match ctx with
  | ctx_nil => Err ErrCircuitInvalid
  | ctx_done cause => Err (ErrContext cause)
  | ctx_live => ensure (uuidPattern deploymentID) else ErrCircuitInvalid in Ok tt
  end.

Definition currentTime (now : Time) : result Time error :=
  ensure (negb (time_is_zero now)) else ErrCircuitInvalid in Ok now.

(** ** Transitions *)
Definition advanceOpenLocked (r : circuitRecord) (now : Time) : circuitRecord :=
  if bool_decide (state r = CircuitOpen) && negb (time_before now (retryAt r)) then
    {| state := CircuitHalfOpen; generation := saturatingIncrement (generation r);
       consecutiveFailures := consecutiveFailures r; halfOpenSuccesses := 0; inFlight := 0;
       openedAt := openedAt r; retryAt := retryAt r; lastTransitionAt := now; lastTouchedAt := now;
       totalSuccesses := totalSuccesses r; totalFailures := totalFailures r; totalIgnored := totalIgnored r;
       rejectedOpen := rejectedOpen r; rejectedHalfOpen := rejectedHalfOpen r |}
  else r.

Definition openLocked (opts : CircuitOptions) (r : circuitRecord) (now : Time) : circuitRecord :=
  {| state := CircuitOpen; generation := saturatingIncrement (generation r);
     consecutiveFailures := consecutiveFailures r; halfOpenSuccesses := 0; inFlight := 0;
     openedAt := now; retryAt := time_add now (OpenDuration opts); lastTransitionAt := now; lastTouchedAt := now;
     totalSuccesses := totalSuccesses r; totalFailures := totalFailures r; totalIgnored := totalIgnored r;
     rejectedOpen := rejectedOpen r; rejectedHalfOpen := rejectedHalfOpen r |}.

Definition closeLocked (r : circuitRecord) (now : Time) : circuitRecord :=
  {| state := CircuitClosed; generation := saturatingIncrement (generation r);
     consecutiveFailures := 0; halfOpenSuccesses := 0; inFlight := 0;
     openedAt := 0; retryAt := 0; lastTransitionAt := now; lastTouchedAt := now;
     totalSuccesses := totalSuccesses r; totalFailures := totalFailures r; totalIgnored := totalIgnored r;
     rejectedOpen := rejectedOpen r; rejectedHalfOpen := rejectedHalfOpen r |}.

(** Field updates of a record that stays in its state. *)
Definition with_counts (r : circuitRecord) (failures successes flight : Z) (touched : Time)
    (succeeded failed ignored rejOpen rejHalf : Z) : circuitRecord :=
  {| state := state r; generation := generation r; consecutiveFailures := failures; halfOpenSuccesses := successes;
     inFlight := flight; openedAt := openedAt r; retryAt := retryAt r; lastTransitionAt := lastTransitionAt r;
     lastTouchedAt := touched; totalSuccesses := succeeded; totalFailures := failed; totalIgnored := ignored;
     rejectedOpen := rejOpen; rejectedHalfOpen := rejHalf |}.

Definition rejected (r : circuitRecord) (now : Time) (open_ half : bool) : circuitRecord :=
  with_counts r (consecutiveFailures r) (halfOpenSuccesses r) (inFlight r) now (totalSuccesses r) (totalFailures r)
    (totalIgnored r) (if open_ then saturatingIncrement (rejectedOpen r) else rejectedOpen r)
    (if half then saturatingIncrement (rejectedHalfOpen r) else rejectedHalfOpen r).

(** [record.inFlight = flight; record.lastTouchedAt = now] *)
Definition touched (r : circuitRecord) (flight : Z) (now : Time) : circuitRecord :=
  with_counts r (consecutiveFailures r) (halfOpenSuccesses r) flight now (totalSuccesses r) (totalFailures r)
    (totalIgnored r) (rejectedOpen r) (rejectedHalfOpen r).

(** ** Allocation *)
Definition evictable (r : circuitRecord) : bool := bool_decide (state r = CircuitClosed) && (inFlight r =? 0).

Definition older (a b : string * circuitRecord) : bool :=
  time_before (lastTouchedAt a.2) (lastTouchedAt b.2) ||
  ((lastTouchedAt a.2 =? lastTouchedAt b.2) && String.ltb a.1 b.1).

Definition pick_oldest (best : option (string * circuitRecord)) (c : string * circuitRecord) : option (string * circuitRecord) :=
  if evictable c.2 then
    match best with
    | None => Some c
    | Some b => if older c b then Some c else Some b
    end
  else best.

(** The loop over the map of [allocateLocked]; [entries] is the order in which the
    runtime happens to range over it. *)
Definition oldest (entries : list (string * circuitRecord)) : option (string * circuitRecord) :=
  foldl pick_oldest None entries.

Definition newRecord (now : Time) : circuitRecord :=
  {| state := CircuitClosed; generation := 1; consecutiveFailures := 0; halfOpenSuccesses := 0; inFlight := 0;
     openedAt := 0; retryAt := 0; lastTransitionAt := now; lastTouchedAt := now; totalSuccesses := 0;
     totalFailures := 0; totalIgnored := 0; rejectedOpen := 0; rejectedHalfOpen := 0 |}.

Definition allocateLocked (b : CircuitBreaker) (deploymentID : string) (now : Time)
    : option (CircuitBreaker * circuitRecord) :=
  if MaximumDeployments (options b) <=? Z.of_nat (size (deployments b)) then
    match oldest (map_to_list (deployments b)) with
    | None => None
    | Some (oldestID, _) =>
        let b' := {| options := options b; deployments := delete oldestID (deployments b);
                     evictions := saturatingIncrement (evictions b); rejectedCapacity := rejectedCapacity b |} in
        Some (put b' deploymentID (newRecord now), newRecord now)
    end
  else Some (put b deploymentID (newRecord now), newRecord now).

(** ** Operations *)
Definition is_healthy (opts : CircuitOptions) (r : circuitRecord) : bool :=
  bool_decide (state r = CircuitClosed) ||
  (bool_decide (state r = CircuitHalfOpen) && (inFlight r <? HalfOpenMaximumProbes opts)).

Definition CircuitBreaker_Healthy (b : CircuitBreaker) (ctx : Context) (deploymentID : string) (now : Time)
    : CircuitBreaker * result bool error :=
  match validateRead ctx deploymentID with
  | Err e => (b, Err e)
  | Ok _ =>
  match currentTime now with
  | Err e => (b, Err e)
  | Ok now =>
  match deployments b !! deploymentID with
  | None => (b, Ok true)
  | Some record =>
      let record := advanceOpenLocked record now in
      (put b deploymentID record, Ok (is_healthy (options b) record))
  end end end.

Definition CircuitBreaker_Acquire (b : CircuitBreaker) (ctx : Context) (deploymentID : string) (now : Time)
    : CircuitBreaker * result CircuitPermit error :=
  match validateRead ctx deploymentID with
  | Err e => (b, Err e)
  | Ok _ =>
  match currentTime now with
  | Err e => (b, Err e)
  | Ok now =>
  match (match deployments b !! deploymentID with
         | Some record => Some (b, record)
         | None => allocateLocked b deploymentID now
         end) with
  | None =>
      ({| options := options b; deployments := deployments b; evictions := evictions b;
          rejectedCapacity := saturatingIncrement (rejectedCapacity b) |}, Err ErrCircuitCapacity)
  | Some (b, record) =>
      let record := advanceOpenLocked record now in
      let grant :=
        if inFlight record =? u32_max then (put b deploymentID record, Err ErrCircuitCapacity)
        else (put b deploymentID (touched record (inFlight record + 1) now),
              Ok {| permit_deploymentID := deploymentID; permit_generation := generation record;
                    permit_completed := false |}) in
      match state record with
      | CircuitOpen => (put b deploymentID (rejected record now true false), Err ErrCircuitOpen)
      | CircuitHalfOpen =>
          if HalfOpenMaximumProbes (options b) <=? inFlight record
          then (put b deploymentID (rejected record now false true), Err ErrHalfOpenSaturated)
          else grant
      | CircuitClosed => grant
      end
  end end end.

(** The outcome switch of [Complete], on a record whose flight was just returned. *)
Definition apply_outcome (opts : CircuitOptions) (r : circuitRecord) (outcome : CircuitOutcome) (now : Time) : circuitRecord :=
  match outcome with
  | CircuitSucceeded =>
      let r := with_counts r (consecutiveFailures r) (halfOpenSuccesses r) (inFlight r) now
                 (saturatingIncrement (totalSuccesses r)) (totalFailures r) (totalIgnored r) (rejectedOpen r) (rejectedHalfOpen r) in
      match state r with
      | CircuitClosed =>
          with_counts r 0 (halfOpenSuccesses r) (inFlight r) now (totalSuccesses r) (totalFailures r) (totalIgnored r)
            (rejectedOpen r) (rejectedHalfOpen r)
      | CircuitHalfOpen =>
          let r := with_counts r (consecutiveFailures r) (circuitSaturatingIncrement32 (halfOpenSuccesses r)) (inFlight r) now
                     (totalSuccesses r) (totalFailures r) (totalIgnored r) (rejectedOpen r) (rejectedHalfOpen r) in
          if HalfOpenSuccessThreshold opts <=? halfOpenSuccesses r then closeLocked r now else r
      | CircuitOpen => r
      end
  | CircuitFailed =>
      let r := with_counts r (consecutiveFailures r) (halfOpenSuccesses r) (inFlight r) now
                 (totalSuccesses r) (saturatingIncrement (totalFailures r)) (totalIgnored r) (rejectedOpen r) (rejectedHalfOpen r) in
      match state r with
      | CircuitClosed =>
          let r := with_counts r (circuitSaturatingIncrement32 (consecutiveFailures r)) (halfOpenSuccesses r) (inFlight r) now
                     (totalSuccesses r) (totalFailures r) (totalIgnored r) (rejectedOpen r) (rejectedHalfOpen r) in
          if FailureThreshold opts <=? consecutiveFailures r then openLocked opts r now else r
      | CircuitHalfOpen => openLocked opts r now
      | CircuitOpen => r
      end
  | CircuitIgnored =>
      with_counts r (consecutiveFailures r) (halfOpenSuccesses r) (inFlight r) now (totalSuccesses r) (totalFailures r)
        (saturatingIncrement (totalIgnored r)) (rejectedOpen r) (rejectedHalfOpen r)
  | CircuitOutcomeOther _ => r
  end.

(** [permit.completed.CompareAndSwap(false, true)] *)
Definition mark_completed (permit : CircuitPermit) : CircuitPermit :=
  {| permit_deploymentID := permit_deploymentID permit; permit_generation := permit_generation permit;
     permit_completed := true |}.

(** [Complete]: the breaker and the permit after the call. *)
Definition CircuitPermit_Complete (b : CircuitBreaker) (permit : CircuitPermit) (ctx : Context) (outcome : CircuitOutcome)
    (now : Time) : CircuitBreaker * CircuitPermit * result unit error :=
  let stop e := (b, permit, Err e) in
  if negb (uuidPattern (permit_deploymentID permit)) then stop ErrCircuitInvalid
  else match ctx with
  | ctx_nil => stop ErrCircuitInvalid
  | ctx_done cause => stop (ErrContext cause)
  | ctx_live =>
  if match outcome with CircuitOutcomeOther _ => true | _ => false end then stop ErrCircuitInvalid
  else if permit_completed permit then stop ErrCircuitPermitCompleted
  else
  let permit' := mark_completed permit in
  match currentTime now with
  | Err e => (b, permit', Err e)
  | Ok now =>
  match deployments b !! permit_deploymentID permit with
  | None => (b, permit', Ok tt)
  | Some record =>
      if negb (generation record =? permit_generation permit) then (b, permit', Ok tt)
      else if inFlight record =? 0 then (b, permit', Err ErrCircuitInvalid)
      else
        let record := touched record (inFlight record - 1) now in
        (put b (permit_deploymentID permit) (apply_outcome (options b) record outcome now), permit', Ok tt)
  end end end.

Definition snapshotLocked (b : CircuitBreaker) (deploymentID : string) (record : circuitRecord) : CircuitSnapshot :=
  {| snap_PolicyVersion := circuitPolicyVersion; snap_DeploymentID := deploymentID; snap_Tracked := true;
     snap_State := state record; snap_Healthy := is_healthy (options b) record; snap_Generation := generation record;
     snap_ConsecutiveFailures := consecutiveFailures record; snap_HalfOpenSuccesses := halfOpenSuccesses record;
     snap_InFlight := inFlight record; snap_OpenedAt := openedAt record; snap_RetryAt := retryAt record;
     snap_LastTransitionAt := lastTransitionAt record; snap_TotalSuccesses := totalSuccesses record;
     snap_TotalFailures := totalFailures record; snap_TotalIgnored := totalIgnored record;
     snap_RejectedOpen := rejectedOpen record; snap_RejectedHalfOpen := rejectedHalfOpen record;
     snap_RejectedCapacity := rejectedCapacity b; snap_EvictedClosedCircuits := evictions b |}.

Definition CircuitBreaker_Snapshot (b : CircuitBreaker) (ctx : Context) (deploymentID : string) (now : Time)
    : CircuitBreaker * result CircuitSnapshot error :=
  match validateRead ctx deploymentID with
  | Err e => (b, Err e)
  | Ok _ =>
  match currentTime now with
  | Err e => (b, Err e)
  | Ok now =>
  match deployments b !! deploymentID with
  | None =>
      (b, Ok {| snap_PolicyVersion := circuitPolicyVersion; snap_DeploymentID := deploymentID; snap_Tracked := false;
                snap_State := CircuitClosed; snap_Healthy := true; snap_Generation := 0; snap_ConsecutiveFailures := 0;
                snap_HalfOpenSuccesses := 0; snap_InFlight := 0; snap_OpenedAt := 0; snap_RetryAt := 0;
                snap_LastTransitionAt := 0; snap_TotalSuccesses := 0; snap_TotalFailures := 0; snap_TotalIgnored := 0;
                snap_RejectedOpen := 0; snap_RejectedHalfOpen := 0; snap_RejectedCapacity := rejectedCapacity b;
                snap_EvictedClosedCircuits := evictions b |})
  | Some record =>
      let record := advanceOpenLocked record now in
      (put b deploymentID record, Ok (snapshotLocked b deploymentID record))
  end end end.

(** ** Executions. A completion never reads the zero time (it would consume the
    permit without returning its flight; [time.Now] does not return it). *)
Record System := { sys_breaker : CircuitBreaker; sys_permits : list CircuitPermit }.

Inductive step (s : System) : System -> Prop :=
| step_Healthy ctx id now :
    step s {| sys_breaker := (CircuitBreaker_Healthy (sys_breaker s) ctx id now).1; sys_permits := sys_permits s |}
| step_Snapshot ctx id now :
    step s {| sys_breaker := (CircuitBreaker_Snapshot (sys_breaker s) ctx id now).1; sys_permits := sys_permits s |}
| step_Acquire_granted ctx id now b permit :
    CircuitBreaker_Acquire (sys_breaker s) ctx id now = (b, Ok permit) ->
    step s {| sys_breaker := b; sys_permits := sys_permits s ++ [permit] |}
| step_Acquire_refused ctx id now b e :
    CircuitBreaker_Acquire (sys_breaker s) ctx id now = (b, Err e) ->
    step s {| sys_breaker := b; sys_permits := sys_permits s |}
| step_Complete i permit ctx outcome now b permit' r :
    sys_permits s !! i = Some permit -> now <> 0 ->
    CircuitPermit_Complete (sys_breaker s) permit ctx outcome now = (b, permit', r) ->
    step s {| sys_breaker := b; sys_permits := <[i := permit']> (sys_permits s) |}.

Inductive reachable (opts : CircuitOptions) : System -> Prop :=
| reachable_new b : NewCircuitBreaker opts true = Ok b -> reachable opts {| sys_breaker := b; sys_permits := [] |}
| reachable_step s s' : reachable opts s -> step s s' -> reachable opts s'.

(** ** Invariant of a record *)
Record record_ok (opts : CircuitOptions) (r : circuitRecord) : Prop := {
  ok_generation : 1 <= generation r <= u64_max;
  ok_flight : 0 <= inFlight r <= u32_max;
  ok_failures : 0 <= consecutiveFailures r <= FailureThreshold opts;
  ok_successes : 0 <= halfOpenSuccesses r;
  ok_state : match state r with
    | CircuitClosed => consecutiveFailures r < FailureThreshold opts /\ halfOpenSuccesses r = 0
    | CircuitOpen => inFlight r = 0 /\ retryAt r = openedAt r + OpenDuration opts
    | CircuitHalfOpen => inFlight r <= HalfOpenMaximumProbes opts /\ halfOpenSuccesses r < HalfOpenSuccessThreshold opts
    end }.

Lemma saturatingIncrement_range v : 0 <= v <= u64_max -> v <= saturatingIncrement v <= u64_max.
Proof. unfold saturatingIncrement. intros. destruct (_ =? _) eqn:E; prop_hyps; lia. Qed.

Lemma saturatingIncrement_lt v : v < u64_max -> saturatingIncrement v = v + 1.
Proof. unfold saturatingIncrement. intros. by rewrite (proj2 (Z.eqb_neq _ _)) by lia. Qed.

Lemma saturating32_small v : v < u32_max -> circuitSaturatingIncrement32 v = v + 1.
Proof. unfold circuitSaturatingIncrement32. intros. by rewrite (proj2 (Z.eqb_neq _ _)) by lia. Qed.

Section record.
Context (opts : CircuitOptions) (Hopts : CircuitOptions_Validate opts = true).

Lemma opts_bounds :
  2 <= FailureThreshold opts <= 1000 /\ 1 <= HalfOpenMaximumProbes opts <= 1000 /\
  1 <= HalfOpenSuccessThreshold opts <= 1000 /\ 1 <= MaximumDeployments opts.
Proof using Hopts. unfold CircuitOptions_Validate in Hopts. prop_hyps. lia. Qed.

Lemma newRecord_ok now : record_ok opts (newRecord now).
Proof using Hopts. pose proof opts_bounds. split; simpl; unfold u64_max, u32_max; lia. Qed.

Lemma advance_ok r now : record_ok opts r -> record_ok opts (advanceOpenLocked r now).
Proof using Hopts.
  pose proof opts_bounds. unfold advanceOpenLocked. destruct (_ && _); [|done]. intros [].
  pose proof (saturatingIncrement_range (generation r)). split; simpl; unfold u32_max in *; lia.
Qed.

Lemma rejected_ok r now o h : record_ok opts r -> record_ok opts (rejected r now o h).
Proof using. by intros []. Qed.

Lemma touched_ok r flight now :
  record_ok opts r -> 0 <= flight <= u32_max ->
  match state r with CircuitOpen => flight = 0 | CircuitHalfOpen => flight <= HalfOpenMaximumProbes opts | CircuitClosed => True end ->
  record_ok opts (touched r flight now).
Proof using. intros [] Hf Hs. split; simpl; try done. destruct (state r); lia. Qed.

Lemma openLocked_ok r now :
  1 <= generation r <= u64_max -> 0 <= consecutiveFailures r <= FailureThreshold opts -> record_ok opts (openLocked opts r now).
Proof using.
  intros Hg Hf. pose proof (saturatingIncrement_range (generation r)). split; simpl; unfold u32_max, time_add; lia.
Qed.

Lemma closeLocked_ok r now : 1 <= generation r <= u64_max -> record_ok opts (closeLocked r now).
Proof using Hopts.
  pose proof opts_bounds. intros Hg. pose proof (saturatingIncrement_range (generation r)). split; simpl; unfold u32_max; lia.
Qed.

Lemma apply_outcome_ok r outcome now : record_ok opts r -> state r <> CircuitOpen -> record_ok opts (apply_outcome opts r outcome now).
Proof using Hopts.
  pose proof opts_bounds as Hb. intros Hr Hne. destruct outcome; simpl; [..|done].
  - destruct (state r) eqn:Es; [|done|].
    + destruct Hr as [? ? ? ? Hs]. rewrite Es in Hs. split; simpl; rewrite ?Es; try done; lia.
    + destruct (_ <=? _) eqn:E; prop_hyps; [apply closeLocked_ok; apply Hr|].
      destruct Hr as [? ? ? ? Hs]. rewrite Es in Hs. simpl in E.
      rewrite saturating32_small in E by (unfold u32_max; lia). split; simpl; rewrite ?Es; try done;
      rewrite saturating32_small by (unfold u32_max; lia); lia.
  - destruct (state r) eqn:Es; [|done|].
    + destruct Hr as [? ? ? ? Hs]. rewrite Es in Hs. rewrite saturating32_small by (unfold u32_max; lia).
      destruct (_ <=? _) eqn:E; prop_hyps; [apply openLocked_ok; simpl; lia|].
      split; simpl; rewrite ?Es; try done; lia.
    + apply openLocked_ok; simpl; apply Hr.
  - by destruct Hr.
Qed.
End record.

(** ** Outstanding permits *)
Definition is_live (id : string) (g : Z) (p : CircuitPermit) : Z :=
  if negb (permit_completed p) && bool_decide (permit_deploymentID p = id) && (permit_generation p =? g) then 1 else 0.

Definition live (permits : list CircuitPermit) (id : string) (g : Z) : Z := sum_by (is_live id g) permits.

Lemma live_nonneg permits id g : 0 <= live permits id g.
Proof. apply sum_by_nonneg. intros p _. unfold is_live. destruct (_ && _); lia. Qed.

Lemma live_none permits id g :
  (forall p, p ∈ permits -> permit_deploymentID p = id -> permit_generation p <> g) -> live permits id g = 0.
Proof.
  intros H. unfold live. rewrite (sum_by_ext _ (fun _ => 0)); [induction permits; simpl; auto|].
  { apply IHpermits. intros. apply H; [by right|done]. }
  intros p Hp. unfold is_live. destruct (_ && _) eqn:E; [|done]. prop_hyps. by destruct (H p Hp).
Qed.

(** ** Invariant of the breaker *)
Record record_fits (opts : CircuitOptions) (permits : list CircuitPermit) (ev : Z) (id : string) (r : circuitRecord) : Prop := {
  fits_ok : record_ok opts r;
  fits_covered : inFlight r <= live permits id (generation r);
  fits_latest : ev = 0 -> forall p, p ∈ permits -> permit_deploymentID p = id -> permit_generation p <= generation r;
  fits_exact : ev = 0 -> generation r < u64_max -> inFlight r = live permits id (generation r) }.

Record breaker_inv (opts : CircuitOptions) (b : CircuitBreaker) (permits : list CircuitPermit) : Prop := {
  inv_options : options b = opts;
  inv_evictions : 0 <= evictions b <= u64_max;
  inv_size : Z.of_nat (size (deployments b)) <= MaximumDeployments opts;
  inv_records : forall id r, deployments b !! id = Some r -> record_fits opts permits (evictions b) id r;
  inv_tracked : evictions b = 0 -> forall p, p ∈ permits -> is_Some (deployments b !! permit_deploymentID p) }.

Section invariant.
Context (opts : CircuitOptions) (Hopts : CircuitOptions_Validate opts = true).

Lemma same_generation permits ev id r r' :
  record_fits opts permits ev id r -> record_ok opts r' -> generation r' = generation r -> inFlight r' = inFlight r ->
  record_fits opts permits ev id r'.
Proof using. intros [] Hok Hg Hf. split; rewrite ?Hg, ?Hf; done. Qed.

Lemma next_generation permits ev id r r' :
  record_fits opts permits ev id r -> record_ok opts r' -> generation r' = saturatingIncrement (generation r) ->
  inFlight r' = 0 -> record_fits opts permits ev id r'.
Proof using.
  intros [Hr _ Hl _] Hok Hg Hf. pose proof (live_nonneg permits id (generation r')).
  pose proof (saturatingIncrement_range (generation r)) as Hsat. destruct Hr as [Hgen _ _ _ _].
  split; [done|lia|..].
  - intros He p Hp Hid. specialize (Hl He p Hp Hid). lia.
  - intros He Hlt. rewrite Hf. symmetry. apply live_none. intros p Hp Hid Heq. specialize (Hl He p Hp Hid).
    rewrite saturatingIncrement_lt in Hg by lia. lia.
Qed.

Lemma advance_fits permits ev id r now :
  record_fits opts permits ev id r -> record_fits opts permits ev id (advanceOpenLocked r now).
Proof using Hopts.
  intros Hr. pose proof (advance_ok opts Hopts r now (fits_ok _ _ _ _ _ Hr)) as Hok. revert Hok.
  unfold advanceOpenLocked. destruct (_ && _); [|done]. intros Hok. by eapply next_generation.
Qed.

Lemma put_inv b permits id r r' :
  breaker_inv opts b permits -> deployments b !! id = Some r -> record_fits opts permits (evictions b) id r' ->
  breaker_inv opts (put b id r') permits.
Proof using.
  intros [] Hr Hr'. split; simpl; try done.
  - rewrite map_size_insert_Some; [done|]. by rewrite Hr.
  - intros id0 r0. rewrite lookup_insert_Some. intros [[<- <-]|[_ H]]; [done|auto].
  - intros He p Hp. apply lookup_insert_is_Some. destruct (decide (id = permit_deploymentID p)); auto.
Qed.

Lemma put_self b id r r' :
  put (put b id r) id r' = put b id r'.
Proof using. unfold put. simpl. by rewrite insert_insert_eq. Qed.

Lemma oldest_elem entries c : oldest entries = Some c -> c ∈ entries /\ evictable c.2 = true.
Proof using.
  unfold oldest. assert (Hgen : forall l acc x, foldl pick_oldest acc l = Some x -> acc = Some x \/ x ∈ l /\ evictable x.2 = true).
  { induction l as [|y l IH]; simpl; intros acc x H; [by left|].
    destruct (IH _ _ H) as [Hx|[Hx ?]]; [|right; split; [by right|done]].
    unfold pick_oldest in Hx. destruct (evictable y.2) eqn:Ey; [|by left].
    destruct acc as [best|]; [destruct (older y best)|]; injection Hx as ->; auto; right; (split; [left|done]). }
  intros H. by destruct (Hgen _ _ _ H).
Qed.

Lemma new_fits permits ev id now :
  (ev = 0 -> forall p, p ∈ permits -> permit_deploymentID p <> id) -> record_fits opts permits ev id (newRecord now).
Proof using Hopts.
  intros Hnone. pose proof (live_nonneg permits id 1). split; [by apply newRecord_ok|done|..].
  - intros He p Hp Hid. by destruct (Hnone He p Hp).
  - intros He _. simpl. symmetry. apply live_none. intros p Hp Hid. by destruct (Hnone He p Hp).
Qed.

Lemma allocate_inv b permits id now b' r :
  breaker_inv opts b permits -> deployments b !! id = None -> allocateLocked b id now = Some (b', r) ->
  breaker_inv opts b' permits /\ deployments b' !! id = Some r.
Proof using Hopts.
  intros [Ho Hev Hsz Hrec Htr] Hnone. unfold allocateLocked. rewrite Ho. destruct (_ <=? _) eqn:Esz; prop_hyps.
  - destruct (oldest _) as [[old ro]|] eqn:Eo; [|done]. intros [= <- <-]. split; [|simpl; apply lookup_insert_eq].
    apply oldest_elem in Eo as [Hin _]. apply elem_of_map_to_list in Hin.
    assert (Hpos : 0 < saturatingIncrement (evictions b)).
    { unfold saturatingIncrement, u64_max. destruct (_ =? _) eqn:E; prop_hyps; lia. }
    pose proof (saturatingIncrement_range (evictions b) Hev) as Hsat.
    split; simpl; try done; try lia.
    + rewrite map_size_insert_None by (rewrite lookup_delete_None; auto). rewrite map_size_delete, Hin.
      assert (size (deployments b) <> 0%nat); [|lia]. intros H0%map_size_empty_inv. by rewrite H0 in Hin.
    + intros id0 r0. rewrite lookup_insert_Some, lookup_delete_Some. intros [[<- <-]|[_ [_ H]]].
      * apply new_fits. lia.
      * destruct (Hrec _ _ H). split; try done; intros; lia.
  - intros [= <- <-]. split; [|simpl; apply lookup_insert_eq]. split; simpl; try done.
    + rewrite map_size_insert_None by done. lia.
    + intros id0 r0. rewrite lookup_insert_Some. intros [[<- <-]|[_ H]]; [|auto].
      apply new_fits. intros He p Hp Heq. specialize (Htr He p Hp). rewrite Heq, Hnone in Htr. by destruct Htr.
    + intros He p Hp. apply lookup_insert_is_Some. destruct (decide (id = permit_deploymentID p)); auto.
Qed.

Lemma grant_inv b permits id r now :
  breaker_inv opts b permits -> deployments b !! id = Some r -> inFlight r < u32_max ->
  match state r with CircuitOpen => False | CircuitHalfOpen => inFlight r < HalfOpenMaximumProbes opts | CircuitClosed => True end ->
  breaker_inv opts (put b id (touched r (inFlight r + 1) now))
    (permits ++ [{| permit_deploymentID := id; permit_generation := generation r; permit_completed := false |}]).
Proof using Hopts.
  intros [Ho Hev Hsz Hrec Htr] Hr Hlt Hst. set (p := {| permit_deploymentID := id |}).
  assert (Hlive : forall id' g, live (permits ++ [p]) id' g = live permits id' g + is_live id' g p).
  { intros. unfold live. rewrite sum_by_app. simpl. lia. }
  split; simpl; try done.
  - by rewrite map_size_insert_Some by (by rewrite Hr).
  - intros id0 r0. rewrite lookup_insert_Some. intros [[<- <-]|[Hne H]].
    + destruct (Hrec _ _ Hr) as [Hok Hc Hl He].
      assert (Hone : is_live id (generation r) p = 1).
      { unfold is_live. simpl. by rewrite bool_decide_eq_true_2, Z.eqb_refl. }
      split; simpl; rewrite ?Hlive, ?Hone.
      * apply touched_ok; try done; [destruct Hok; lia|]. destruct (state r); lia.
      * lia.
      * intros Hz q. rewrite elem_of_app, list_elem_of_singleton. intros [Hq| ->]; [auto|done].
      * intros Hz Hg. rewrite He by done. lia.
    + destruct (Hrec _ _ H) as [Hok Hc Hl He].
      assert (Hzero : is_live id0 (generation r0) p = 0).
      { unfold is_live. simpl. by rewrite bool_decide_eq_false_2. }
      split; rewrite ?Hlive, ?Hzero, ?Z.add_0_r; try done.
      intros Hz q. rewrite elem_of_app, list_elem_of_singleton. intros [Hq| ->]; [auto|by intros].
  - intros Hz q. rewrite elem_of_app, list_elem_of_singleton. intros [Hq| ->]; apply lookup_insert_is_Some; simpl; [|by left].
    destruct (decide (id = permit_deploymentID q)); auto.
Qed.

(** The record [Acquire] works on, found or allocated. *)
Lemma acquire_record b permits id now b1 r :
  breaker_inv opts b permits ->
  (match deployments b !! id with Some record => Some (b, record) | None => allocateLocked b id now end) = Some (b1, r) ->
  breaker_inv opts b1 permits /\ deployments b1 !! id = Some r.
Proof using Hopts.
  intros Hinv. destruct (deployments b !! id) as [r0|] eqn:Er; [|by apply allocate_inv].
  intros [= <- <-]. done.
Qed.

Lemma Acquire_inv b permits ctx id now b' res :
  breaker_inv opts b permits -> CircuitBreaker_Acquire b ctx id now = (b', res) ->
  breaker_inv opts b' (match res with Ok permit => permits ++ [permit] | Err _ => permits end).
Proof using Hopts.
  intros Hinv. unfold CircuitBreaker_Acquire.
  destruct (validateRead ctx id); [|by intros [= <- <-]]. destruct (currentTime now) as [now'|]; [|by intros [= <- <-]].
  destruct (match deployments b !! id with Some _ => _ | None => _ end) as [[b1 r]|] eqn:Ea.
  2: { intros [= <- <-]. destruct Hinv. by split. }
  apply (acquire_record _ _ _ _ _ _ Hinv) in Ea as [Hinv1 Hr].
  pose proof (advance_fits permits (evictions b1) id r now' (inv_records _ _ _ Hinv1 _ _ Hr)) as Hfit.
  set (r' := advanceOpenLocked r now') in *.
  assert (Hrej : forall o h, breaker_inv opts (put b1 id (rejected r' now' o h)) permits).
  { intros o h. eapply put_inv; [done..|]. eapply same_generation; [exact Hfit|by apply rejected_ok, Hfit|done|done]. }
  assert (Hput : breaker_inv opts (put b1 id r') permits) by by eapply put_inv.
  assert (Hflight : inFlight r' <= u32_max) by (destruct (fits_ok _ _ _ _ _ Hfit); lia).
  assert (Hgrant : match state r' with CircuitOpen => False | CircuitHalfOpen => inFlight r' < HalfOpenMaximumProbes opts | CircuitClosed => True end ->
    inFlight r' <> u32_max -> breaker_inv opts (put b1 id (touched r' (inFlight r' + 1) now'))
      (permits ++ [{| permit_deploymentID := id; permit_generation := generation r'; permit_completed := false |}])).
  { intros Hs Hne. rewrite <- (put_self b1 id r'). apply grant_inv; [done| |lia|done]. simpl. apply lookup_insert_eq. }
  rewrite (inv_options _ _ _ Hinv1). destruct (state r') eqn:Es.
  - destruct (_ =? _) eqn:E; intros [= <- <-]; prop_hyps; auto.
  - intros [= <- <-]. apply Hrej.
  - destruct (_ <=? _) eqn:El; [intros [= <- <-]; apply Hrej|]. prop_hyps.
    destruct (_ =? _) eqn:E; intros [= <- <-]; prop_hyps; auto.
Qed.

Lemma live_complete permits (i : nat) p id g :
  permits !! i = Some p -> permit_completed p = false ->
  live (<[i := mark_completed p]> permits) id g =
  live permits id g - (if bool_decide (permit_deploymentID p = id) && (permit_generation p =? g) then 1 else 0).
Proof using.
  intros Hp Hc. unfold live. rewrite (sum_by_insert _ _ _ _ _ Hp). unfold is_live. simpl. rewrite Hc. simpl. lia.
Qed.

Lemma complete_latest (permits : list CircuitPermit) (i : nat) p (P : CircuitPermit -> Prop) :
  permits !! i = Some p -> P (mark_completed p) ->
  (forall q, q ∈ permits -> P q) ->
  forall q, q ∈ <[i := mark_completed p]> permits -> P q.
Proof using.
  intros Hi Hp Hall q Hq. apply list_elem_of_lookup in Hq as [j Hj]. apply list_lookup_insert_Some in Hj as [(_ & <- & _)|(_ & Hj)]; [done|].
  eapply Hall, list_elem_of_lookup_2, Hj.
Qed.

(** Completing a permit that no current record counts changes nothing else. *)
Lemma complete_stale b permits i p :
  breaker_inv opts b permits -> permits !! i = Some p -> permit_completed p = false ->
  (forall r, deployments b !! permit_deploymentID p = Some r -> generation r = permit_generation p -> inFlight r = 0) ->
  breaker_inv opts b (<[i := mark_completed p]> permits).
Proof using.
  intros [Ho Hev Hsz Hrec Htr] Hi Hc Hstale. split; try done.
  - intros id r Hr. destruct (Hrec _ _ Hr) as [Hok Hcov Hl He].
    assert (Hin : p ∈ permits) by by eapply list_elem_of_lookup_2.
    assert (Hlc := live_complete permits i p id (generation r) Hi Hc).
    assert (Hpos := live_nonneg (<[i := mark_completed p]> permits) id (generation r)).
    split; try done.
    + destruct (bool_decide _ && _) eqn:E in Hlc; [|lia]. prop_hyps. rewrite (Hstale r) by congruence. lia.
    + intros Hz. apply (complete_latest permits i p (fun q => permit_deploymentID q = id -> permit_generation q <= generation r)); [done|exact (Hl Hz p Hin)|exact (Hl Hz)].
    + intros Hz Hg. specialize (He Hz Hg). destruct (bool_decide _ && _) eqn:E in Hlc; [|lia]. prop_hyps.
      rewrite (Hstale r) in * by congruence. lia.
  - intros Hz. apply (complete_latest permits i p (fun q => is_Some (deployments b !! permit_deploymentID q))); auto.
    apply (Htr Hz p). by eapply list_elem_of_lookup_2.
Qed.

(** The record after the outcome: either the same generation with the flight
    returned, or the next generation with no flight. *)
Lemma apply_outcome_shape r outcome now :
  (generation (apply_outcome opts r outcome now) = generation r /\ inFlight (apply_outcome opts r outcome now) = inFlight r) \/
  (generation (apply_outcome opts r outcome now) = saturatingIncrement (generation r) /\ inFlight (apply_outcome opts r outcome now) = 0).
Proof using. destruct outcome; simpl; auto; destruct (state r); simpl; auto; destruct (_ <=? _); auto. Qed.

Lemma complete_counted b permits i p r outcome now :
  breaker_inv opts b permits -> permits !! i = Some p -> permit_completed p = false ->
  deployments b !! permit_deploymentID p = Some r -> generation r = permit_generation p -> inFlight r <> 0 ->
  breaker_inv opts
    (put b (permit_deploymentID p) (apply_outcome opts (touched r (inFlight r - 1) now) outcome now))
    (<[i := mark_completed p]> permits).
Proof using Hopts.
  intros [Ho Hev Hsz Hrec Htr] Hi Hc Hr Hg Hf.
  assert (Hfit : record_fits opts (<[i := mark_completed p]> permits) (evictions b) (permit_deploymentID p)
    (touched r (inFlight r - 1) now)).
  { destruct (Hrec _ _ Hr) as [Hok Hcov Hl He]. destruct Hok as [? ? ? ? Hs].
    assert (Hlc := live_complete permits i p (permit_deploymentID p) (generation r) Hi Hc).
    rewrite bool_decide_eq_true_2, <- Hg, Z.eqb_refl in Hlc by done. simpl in Hlc.
    split; simpl.
    - apply touched_ok; [by split|lia|]. destruct (state r); lia.
    - lia.
    - intros Hz. apply (complete_latest permits i p (fun q => permit_deploymentID q = permit_deploymentID p -> permit_generation q <= generation r)); auto.
      intros _. simpl. lia.
    - intros Hz Hlt. specialize (He Hz Hlt). lia. }
  assert (Hne : state r <> CircuitOpen).
  { intros Hs. destruct (Hrec _ _ Hr) as [[? ? ? ? Hst] _ _ _]. rewrite Hs in Hst. lia. }
  assert (Hok := apply_outcome_ok opts Hopts _ outcome now (fits_ok _ _ _ _ _ Hfit) Hne).
  split; simpl; try done.
  - by rewrite map_size_insert_Some by (by rewrite Hr).
  - intros id0 r0. rewrite lookup_insert_Some. intros [[<- <-]|[Hid H]].
    + destruct (apply_outcome_shape (touched r (inFlight r - 1) now) outcome now) as [[Hg1 Hf1]|[Hg1 Hf1]];
        [by eapply same_generation|by eapply next_generation].
    + destruct (Hrec _ _ H) as [Hok0 Hcov Hl He].
      assert (Hlc := live_complete permits i p id0 (generation r0) Hi Hc). rewrite bool_decide_eq_false_2 in Hlc by done. simpl in Hlc.
      split; try done; try lia.
      intros Hz. apply (complete_latest permits i p (fun q => permit_deploymentID q = id0 -> permit_generation q <= generation r0)); auto.
        by intros.
  - intros Hz q Hq. apply lookup_insert_is_Some.
    destruct (decide (permit_deploymentID p = permit_deploymentID q)) as [|Hnq]; [by left|right; split; [done|]].
    revert q Hq Hnq.
    apply (complete_latest permits i p (fun q => permit_deploymentID p <> permit_deploymentID q -> is_Some (deployments b !! permit_deploymentID q))); auto.
Qed.

Lemma Complete_inv b permits i p ctx outcome now b' p' r :
  breaker_inv opts b permits -> permits !! i = Some p -> now <> 0 ->
  CircuitPermit_Complete b p ctx outcome now = (b', p', r) -> breaker_inv opts b' (<[i := p']> permits).
Proof using Hopts.
  intros Hinv Hi Hnow. unfold CircuitPermit_Complete.
  assert (Hsame : breaker_inv opts b (<[i := p]> permits)) by by rewrite list_insert_id.
  destruct (negb _); [by intros [= <- <- <-]|]. destruct ctx; try by intros [= <- <- <-].
  destruct (match outcome with CircuitOutcomeOther _ => true | _ => false end); [by intros [= <- <- <-]|].
  destruct (permit_completed p) eqn:Ec; [by intros [= <- <- <-]|].
  unfold currentTime, time_is_zero. rewrite (proj2 (Z.eqb_neq _ _)) by done. simpl.
  destruct (deployments b !! permit_deploymentID p) as [rec|] eqn:Er.
  - destruct (negb _) eqn:Eg; [|destruct (_ =? 0) eqn:Ef]; intros [= <- <- <-]; prop_hyps.
    + apply complete_stale; try done. intros r' Hr'. congruence.
    + apply complete_stale; try done. intros r' Hr'. congruence.
    + rewrite (inv_options _ _ _ Hinv). by apply complete_counted.
  - intros [= <- <- <-]. apply complete_stale; try done. congruence.
Qed.

Lemma read_inv b permits id r now :
  breaker_inv opts b permits -> deployments b !! id = Some r -> breaker_inv opts (put b id (advanceOpenLocked r now)) permits.
Proof using Hopts. intros Hinv Hr. eapply put_inv; [done..|]. by apply advance_fits, Hinv. Qed.

Lemma reachable_inv s : reachable opts s -> breaker_inv opts (sys_breaker s) (sys_permits s).
Proof using Hopts.
  induction 1 as [b Hb|s s' _ IH Hstep].
  - unfold NewCircuitBreaker in Hb. rewrite Hopts in Hb. injection Hb as <-. pose proof (opts_bounds opts Hopts).
    split; simpl; [done|unfold u64_max; lia|rewrite map_size_empty; lia| |by intros _ p Hp%elem_of_nil].
    intros id r Hr. by rewrite lookup_empty in Hr.
  - destruct Hstep as [ctx id now|ctx id now|ctx id now b permit H|ctx id now b e H|i p ctx out now b p' r Hp Hn H]; simpl.
    + unfold CircuitBreaker_Healthy. destruct (validateRead ctx id); [|done]. destruct (currentTime now); [|done].
      destruct (deployments _ !! id) eqn:Er; [by apply read_inv|done].
    + unfold CircuitBreaker_Snapshot. destruct (validateRead ctx id); [|done]. destruct (currentTime now); [|done].
      destruct (deployments _ !! id) eqn:Er; [by apply read_inv|done].
    + exact (Acquire_inv _ _ _ _ _ _ _ IH H).
    + exact (Acquire_inv _ _ _ _ _ _ _ IH H).
    + exact (Complete_inv _ _ _ _ _ _ _ _ _ _ IH Hp Hn H).
Qed.
End invariant.
