(* ===== verification/CircuitTheorems.v ===== *)
(** * Circuit breaker theorems

    What holds in every execution of the breaker, when a circuit opens and how it
    recovers, which record an allocation may evict, and one execution in which the
    generation check does not recognise a stale permit. *)
From Stdlib Require Import ZArith Lia Bool Ascii String.
From stdpp Require Import base tactics option list strings gmap fin_maps sets.
From S2P Require Import Prelude Identifiers Circuit.
Lemma reachable_valid opts s : reachable opts s -> CircuitOptions_Validate opts = true.
Proof.
  induction 1 as [b Hb|]; [|done]. unfold NewCircuitBreaker in Hb. by destruct (CircuitOptions_Validate opts).
Qed.

(** ** Probing: one attempt from acquisition to completion *)
Definition probe (b : CircuitBreaker) (id : string) (outcome : CircuitOutcome) (now : Time) : CircuitBreaker :=
  match CircuitBreaker_Acquire b ctx_live id now with
  | (b1, Ok permit) => (CircuitPermit_Complete b1 permit ctx_live outcome now).1.1
  | (b1, Err _) => b1
  end.

Fixpoint probes (n : nat) (b : CircuitBreaker) (id : string) (outcome : CircuitOutcome) (now : Time) : CircuitBreaker :=
  match n with O => b | S n' => probes n' (probe b id outcome now) id outcome now end.

Section probing.
Context (opts : CircuitOptions) (Hopts : CircuitOptions_Validate opts = true).
Context (id : string) (now : Time) (Hid : uuidPattern id = true) (Hnow : now <> 0).

(** A probe of an idle record that admits it applies the outcome to it. *)
Lemma probe_admitted b r outcome :
  options b = opts -> deployments b !! id = Some r -> inFlight (advanceOpenLocked r now) = 0 ->
  state (advanceOpenLocked r now) <> CircuitOpen -> match outcome with CircuitOutcomeOther _ => False | _ => True end ->
  exists r', options (probe b id outcome now) = opts /\
    deployments (probe b id outcome now) !! id = Some (apply_outcome opts r' outcome now) /\
    state r' = state (advanceOpenLocked r now) /\ inFlight r' = 0 /\
    consecutiveFailures r' = consecutiveFailures (advanceOpenLocked r now) /\
    halfOpenSuccesses r' = halfOpenSuccesses (advanceOpenLocked r now).
Proof using Hopts Hid Hnow.
  intros Ho Hr Hf Hs Hout. pose proof (opts_bounds opts Hopts) as Hb. unfold probe, CircuitBreaker_Acquire. simpl.
  rewrite Hid. unfold currentTime, time_is_zero. rewrite (proj2 (Z.eqb_neq _ _)) by done. simpl. rewrite Hr, Ho.
  set (r1 := advanceOpenLocked r now) in *. rewrite Hf.
  replace (0 =? u32_max) with false by done. change (0 + 1) with 1.
  assert (Hgrant : (CircuitPermit_Complete (put b id (touched r1 1 now))
      {| permit_deploymentID := id; permit_generation := generation r1; permit_completed := false |} ctx_live outcome now).1.1 =
    put (put b id (touched r1 1 now)) id (apply_outcome opts (touched (touched r1 1 now) 0 now) outcome now)).
  { unfold CircuitPermit_Complete. simpl. rewrite Hid. simpl. destruct outcome; try done; simpl;
      unfold currentTime, time_is_zero; rewrite (proj2 (Z.eqb_neq _ _)) by done; simpl;
      rewrite lookup_insert_eq, Z.eqb_refl; simpl; by rewrite ?Ho. }
  exists (touched (touched r1 1 now) 0 now).
  destruct (state r1) eqn:Es; [|done|].
  - rewrite Hgrant. simpl. rewrite lookup_insert_eq. by rewrite Es.
  - rewrite (proj2 (Z.leb_gt _ _)) by lia. rewrite Hgrant. simpl. rewrite lookup_insert_eq. by rewrite Es.
Qed.

Lemma advance_stays r : state r <> CircuitOpen -> advanceOpenLocked r now = r.
Proof using. intros H. unfold advanceOpenLocked. by rewrite bool_decide_eq_false_2. Qed.

(** Failures of a closed idle record add up until the threshold opens it. *)
Lemma failures_open n : forall b r,
  options b = opts -> deployments b !! id = Some r -> state r = CircuitClosed -> inFlight r = 0 ->
  0 <= consecutiveFailures r -> consecutiveFailures r + Z.of_nat n = FailureThreshold opts -> (0 < n)%nat ->
  exists r', deployments (probes n b id CircuitFailed now) !! id = Some r' /\ state r' = CircuitOpen /\
    retryAt r' = now + OpenDuration opts.
Proof using Hopts Hid Hnow.
  pose proof (opts_bounds opts Hopts) as Hb.
  induction n as [|n IH]; intros b r Ho Hr Hs Hf Hc Hsum Hn; [lia|]. simpl.
  destruct (probe_admitted b r CircuitFailed) as (r' & Ho' & Hr' & Hs' & Hf' & Hc' & _); rewrite ?advance_stays in * by congruence; try done.
  { congruence. }
  simpl in Hr'. rewrite Hs', Hs in Hr'. rewrite Hc', saturating32_small in Hr' by (unfold u32_max; lia).
  destruct n as [|n].
  - rewrite (proj2 (Z.leb_le _ _)) in Hr' by lia. simpl. eexists. split; [exact Hr'|]. done.
  - rewrite (proj2 (Z.leb_gt _ _)) in Hr' by (simpl; lia). eapply IH; [done|exact Hr'|simpl; congruence|done|simpl; lia|simpl; lia|lia].
Qed.

(** Successes of a half-open idle record add up until the threshold closes it. *)
Lemma successes_close n : forall b r,
  options b = opts -> deployments b !! id = Some r -> state r = CircuitHalfOpen -> inFlight r = 0 ->
  0 <= halfOpenSuccesses r -> halfOpenSuccesses r + Z.of_nat n = HalfOpenSuccessThreshold opts -> (0 < n)%nat ->
  exists r', deployments (probes n b id CircuitSucceeded now) !! id = Some r' /\ state r' = CircuitClosed /\
    consecutiveFailures r' = 0.
Proof using Hopts Hid Hnow.
  pose proof (opts_bounds opts Hopts) as Hb.
  induction n as [|n IH]; intros b r Ho Hr Hs Hf Hc Hsum Hn; [lia|]. simpl.
  destruct (probe_admitted b r CircuitSucceeded) as (r' & Ho' & Hr' & Hs' & Hf' & _ & Hc'); rewrite ?advance_stays in * by congruence; try done.
  { congruence. }
  simpl in Hr'. rewrite Hs', Hs in Hr'. rewrite Hc', saturating32_small in Hr' by (unfold u32_max; lia).
  destruct n as [|n].
  - rewrite (proj2 (Z.leb_le _ _)) in Hr' by lia. simpl. eexists. split; [exact Hr'|]. done.
  - rewrite (proj2 (Z.leb_gt _ _)) in Hr' by (simpl; lia). eapply IH; [done|exact Hr'|simpl; congruence|done|simpl; lia|simpl; lia|lia].
Qed.
End probing.

(** ** Eviction order *)
Lemma older_trans a b c : older a b = true -> older b c = true -> older a c = true.
Proof.
  unfold older, time_before. rewrite !orb_true_iff, !andb_true_iff, !Z.ltb_lt, !Z.eqb_eq, !string_ltb_true.
  intros [H1|[H1 H1']] [H2|[H2 H2']]; [left; lia|left; lia|left; lia|right]. split; [lia|by eapply string_compare_trans].
Qed.

(** Incomparable entries have the same time and name, so [older] ranks them alike. *)
Lemma older_negative_trans y a b : older y b = true -> older a b = false -> older y a = true.
Proof.
  intros Hyb Hab. destruct (older b a) eqn:Eba; [by eapply older_trans|].
  unfold older, time_before in Hab, Eba. apply orb_false_iff in Hab as [H1 H2], Eba as [H3 H4].
  apply Z.ltb_ge in H1, H3. assert (Heq : lastTouchedAt a.2 = lastTouchedAt b.2) by lia.
  rewrite Heq, Z.eqb_refl in H2, H4. simpl in H2, H4.
  assert (a.1 = b.1) as Hid.
  { apply String.compare_eq_iff. unfold String.ltb in H2, H4. rewrite String.compare_antisym in H4.
    by destruct (String.compare a.1 b.1). }
  revert Hyb. unfold older. by rewrite Heq, Hid.
Qed.

Lemma oldest_least entries best :
  oldest entries = Some best -> forall c, c ∈ entries -> evictable c.2 = true -> older c best = false.
Proof.
  unfold oldest.
  enough (Hgen : forall l acc b, foldl pick_oldest acc l = Some b ->
    (forall a, acc = Some a -> older a b = false) /\ forall c, c ∈ l -> evictable c.2 = true -> older c b = false).
  { intros H. by apply (Hgen _ _ _ H). }
  assert (Hirr : forall c, older c c = false).
  { intros c. destruct (older c c) eqn:E; [|done]. unfold older, time_before in E. rewrite Z.ltb_irrefl, Z.eqb_refl in E.
    simpl in E. apply string_ltb_true in E. pose proof (String.compare_antisym c.1 c.1) as Ha. by rewrite E in Ha. }
  induction l as [|y l IH]; simpl; intros acc b H.
  { subst acc. split; [by intros a [= <-]|by intros c ?%elem_of_nil]. }
  destruct (IH _ _ H) as [H1 H2]. unfold pick_oldest in H1.
  destruct (evictable y.2) eqn:Ey; [destruct acc as [a|]; [destruct (older y a) eqn:Eya|]|].
  - specialize (H1 y eq_refl). split.
    + intros x [= <-]. destruct (older a b) eqn:Eab; [|done]. by rewrite (older_trans y a b Eya Eab) in H1.
    + intros c [->|Hc]%elem_of_cons; auto.
  - split; [done|]. intros c [->|Hc]%elem_of_cons Hev; [|auto]. specialize (H1 a eq_refl).
    destruct (older y b) eqn:Eyb; [|done]. by rewrite (older_negative_trans _ _ _ Eyb H1) in Eya.
  - split; [done|]. intros c [->|Hc]%elem_of_cons Hev; auto.
  - split; [done|]. intros c [->|Hc]%elem_of_cons Hev; [congruence|auto].
Qed.

(** A record that may not be evicted survives every acquisition of another deployment. *)
Lemma Acquire_keeps b ctx id now b' res other r :
  CircuitBreaker_Acquire b ctx id now = (b', res) -> other <> id -> deployments b !! other = Some r -> evictable r = false ->
  deployments b' !! other = Some r.
Proof.
  unfold CircuitBreaker_Acquire. destruct (validateRead ctx id); [|by intros [= <- <-]].
  destruct (currentTime now) as [now'|]; [|by intros [= <- <-]]. intros H Hne Hr Hev.
  destruct (match deployments b !! id with Some _ => _ | None => _ end) as [[b1 r1]|] eqn:Ea; [|by injection H as <- <-].
  assert (Hb1 : deployments b1 !! other = Some r).
  { destruct (deployments b !! id); [by injection Ea as <- <-|]. unfold allocateLocked in Ea.
    destruct (_ <=? _); [|injection Ea as <- <-; simpl; by rewrite lookup_insert_ne].
    destruct (oldest _) as [[old ro]|] eqn:Eo; [|done]. injection Ea as <- <-. simpl. rewrite lookup_insert_ne by done.
    apply oldest_elem in Eo as [Hin Hold]. apply elem_of_map_to_list in Hin. simpl in Hold.
    rewrite lookup_delete_ne; [done|]. intros ->. congruence. }
  assert (Hput : forall x, deployments (put b1 id x) !! other = Some r) by (intros; simpl; by rewrite lookup_insert_ne).
  destruct (state (advanceOpenLocked r1 now')); [| |destruct (_ <=? _)]; try destruct (_ =? _); injection H as <- <-; auto.
Qed.

(** A full breaker refuses a new deployment only when nothing may be evicted; what
    it evicts is a longest-untouched closed idle record. *)
Lemma allocate_choice b id now :
  match allocateLocked b id now with
  | None => forall other r, deployments b !! other = Some r -> evictable r = false
  | Some (b', _) =>
      evictions b' = evictions b \/
      exists old r, deployments b !! old = Some r /\ evictable r = true /\
        deployments b' = <[id := newRecord now]> (delete old (deployments b)) /\
        forall other r', deployments b !! other = Some r' -> evictable r' = true -> older (other, r') (old, r) = false
  end.
Proof.
  unfold allocateLocked. destruct (_ <=? _); [|by left].
  destruct (oldest _) as [[old r]|] eqn:Eo.
  - right. apply oldest_elem in Eo as Hin. destruct Hin as [Hin Hev]. apply elem_of_map_to_list in Hin.
    exists old, r. split_and!; try done. intros other r' Hr' Hev'.
    by eapply oldest_least; [exact Eo|by apply elem_of_map_to_list|].
  - assert (Hnone : forall l acc, foldl pick_oldest acc l = None -> acc = None /\ forall c, c ∈ l -> evictable c.2 = false).
    { induction l as [|y l IH]; simpl; intros acc H; [by split; [|intros c ?%elem_of_nil]|].
      destruct (IH _ H) as [H1 H2]. unfold pick_oldest in H1. destruct (evictable y.2) eqn:Ey.
      - destruct acc as [a|]; [by destruct (older y a)|done].
      - split; [done|]. intros c [->|Hc]%elem_of_cons; auto. }
    intros other r Hr. apply (proj2 (Hnone _ _ Eo) (other, r)). by apply elem_of_map_to_list.
Qed.

(** ** Theorems *)
Definition demo_options : CircuitOptions :=
  {| FailureThreshold := 2; OpenDuration := 30 * second; HalfOpenMaximumProbes := 1; HalfOpenSuccessThreshold := 1;
     MaximumDeployments := 1 |}.
Definition demo_a : string := "aaaaaaaa-aaaa-4aaa-8aaa-aaaaaaaaaaaa".
Definition demo_b : string := "bbbbbbbb-bbbb-4bbb-8bbb-bbbbbbbbbbbb".
Definition demo_new : CircuitBreaker :=
  {| options := demo_options; deployments := ∅; evictions := 0; rejectedCapacity := 0 |}.

(** Acquire without looking at the reply, and the state of one deployment. *)
Definition acquired (b : CircuitBreaker) (id : string) (now : Time) : CircuitBreaker :=
  (CircuitBreaker_Acquire b ctx_live id now).1.
Definition state_of (b : CircuitBreaker) (id : string) : option (CircuitState * Z * Z) :=
  match deployments b !! id with Some r => Some (state r, generation r, inFlight r) | None => None end.

Definition demo_first : CircuitBreaker := acquired demo_new demo_a 1.
Definition demo_permit : CircuitPermit := {| permit_deploymentID := demo_a; permit_generation := 1; permit_completed := false |}.

Lemma demo_acquired : CircuitBreaker_Acquire demo_new ctx_live demo_a 1 = (demo_first, Ok demo_permit).
Proof. vm_compute. reflexivity. Qed.

Lemma demo_reachable : reachable demo_options {| sys_breaker := demo_first; sys_permits := [demo_permit] |}.
Proof.
  eapply reachable_step; [apply (reachable_new _ demo_new); vm_compute; reflexivity|].
  apply (step_Acquire_granted {| sys_breaker := demo_new; sys_permits := [] |} ctx_live demo_a 1). apply demo_acquired.
Qed.

(** C7: in every execution, under every interleaving of the operations, the breaker
    tracks at most [MaximumDeployments] circuits; the flight counter of a half-open
    circuit is at most [HalfOpenMaximumProbes], and as long as no circuit was ever
    evicted (and the 64-bit generation has not saturated) so is the number of probes
    that it admitted since it became half-open and that have not completed; it has not
    yet reached its success threshold; a closed circuit has fewer consecutive failures
    than the threshold; an open one counts no flight and retries exactly [OpenDuration]
    after it opened. *)
Theorem circuit_limits_hold opts s :
  reachable opts s ->
  Z.of_nat (size (deployments (sys_breaker s))) <= MaximumDeployments opts /\
  forall id r, deployments (sys_breaker s) !! id = Some r ->
    match state r with
    | CircuitClosed => consecutiveFailures r < FailureThreshold opts
    | CircuitOpen => inFlight r = 0 /\ retryAt r = openedAt r + OpenDuration opts
    | CircuitHalfOpen =>
        0 <= inFlight r <= HalfOpenMaximumProbes opts /\ 0 <= halfOpenSuccesses r < HalfOpenSuccessThreshold opts /\
        (evictions (sys_breaker s) = 0 -> generation r < u64_max -> live (sys_permits s) id (generation r) <= HalfOpenMaximumProbes opts)
    end.
Proof.
  intros Hs. destruct (reachable_inv opts (reachable_valid _ _ Hs) s Hs) as [_ _ Hsz Hrec _]. split; [done|].
  intros id r Hr. destruct (Hrec _ _ Hr) as [[? ? ? ? Hst] _ _ Hexact].
  destruct (state r); [lia|lia|]. split_and!; lia.
Qed.

(** ** Runs *)
Inductive circuit_op := OpAcquire (id : string) (now : Time) | OpComplete (i : nat) (outcome : CircuitOutcome) (now : Time).

Definition run_op (s : System) (op : circuit_op) : System :=
  match op with
  | OpAcquire id now =>
      let '(b, r) := CircuitBreaker_Acquire (sys_breaker s) ctx_live id now in
      {| sys_breaker := b; sys_permits := match r with Ok permit => sys_permits s ++ [permit] | Err _ => sys_permits s end |}
  | OpComplete i outcome now =>
      match sys_permits s !! i with
      | Some permit =>
          if now =? 0 then s
          else let '(b, permit', _) := CircuitPermit_Complete (sys_breaker s) permit ctx_live outcome now in {| sys_breaker := b; sys_permits := <[i := permit']> (sys_permits s) |}
      | None => s
      end
  end.

Lemma circuit_run_reachable opts s ops : reachable opts s -> reachable opts (foldl run_op s ops).
Proof.
  revert s. induction ops as [|op ops IH]; intros s Hs; [done|]. cbn [foldl]. apply IH. destruct op as [id now|i outcome now]; cbn [run_op].
  - destruct (CircuitBreaker_Acquire _ _ _ _) as [b [permit|e]] eqn:E; (eapply reachable_step; [done|]); [by eapply step_Acquire_granted|by eapply step_Acquire_refused].
  - destruct (sys_permits s !! i) as [permit|] eqn:Ei; [|done]. destruct (now =? 0) eqn:En; [done|]. destruct (CircuitPermit_Complete _ _ _ _ _) as [[b permit'] r] eqn:E.
    eapply reachable_step; [done|]. by eapply step_Complete; [| |exact E]; [|lia].
Qed.

(** One circuit at a time and two probes: [a] opens, becomes half-open and admits both. *)
Definition probe_options : CircuitOptions :=
  {| FailureThreshold := 2; OpenDuration := 30 * second; HalfOpenMaximumProbes := 2; HalfOpenSuccessThreshold := 1; MaximumDeployments := 1 |}.
Definition probe_start : System := {| sys_breaker := {| options := probe_options; deployments := ∅; evictions := 0; rejectedCapacity := 0 |}; sys_permits := [] |}.
Definition two_probes : list circuit_op := [OpAcquire demo_a 1; OpComplete 0 CircuitFailed 2; OpAcquire demo_a 3; OpComplete 1 CircuitFailed 4; OpAcquire demo_a (31 * second); OpAcquire demo_a (31 * second)].

Lemma probe_reachable ops : reachable probe_options (foldl run_op probe_start ops).
Proof. apply circuit_run_reachable, reachable_new. vm_compute. reflexivity. Qed.

Lemma circuit_limits_hold_witness : exists r, deployments (sys_breaker (foldl run_op probe_start two_probes)) !! demo_a = Some r /\
  live (sys_permits (foldl run_op probe_start two_probes)) demo_a (generation r) <= 2.
Proof.
  assert (H : match deployments (sys_breaker (foldl run_op probe_start two_probes)) !! demo_a with Some r => (state r, bool_decide (generation r < u64_max)) | None => (CircuitClosed, false) end = (CircuitHalfOpen, true)) by (vm_compute; reflexivity).
  destruct (deployments (sys_breaker (foldl run_op probe_start two_probes)) !! demo_a) as [r|] eqn:E; [|discriminate H]. injection H as Hst Hg%bool_decide_eq_true.
  exists r. split; [reflexivity|]. pose proof (proj2 (circuit_limits_hold _ _ (probe_reachable two_probes)) demo_a r E) as Hr. rewrite Hst in Hr. apply (proj2 (proj2 Hr)); [vm_compute; reflexivity|exact Hg].
Defined.

(** Without the condition the bound fails. One of the two probes of [a] succeeds and closes the
    circuit, [b] evicts it and is evicted in turn, and the new circuit of [a] opens and admits
    two probes of its own: three probes of one generation are outstanding, of which the
    counter knows two. *)
Definition evicted_probe : list circuit_op :=
  two_probes ++ [OpComplete 2 CircuitSucceeded (32 * second); OpAcquire demo_b (33 * second); OpComplete 4 CircuitSucceeded (34 * second);
                 OpAcquire demo_a (35 * second); OpComplete 5 CircuitFailed (36 * second); OpAcquire demo_a (37 * second); OpComplete 6 CircuitFailed (38 * second);
                 OpAcquire demo_a (70 * second); OpAcquire demo_a (71 * second)].

Example evicted_probe_exceeds_the_limit : match deployments (sys_breaker (foldl run_op probe_start evicted_probe)) !! demo_a with
  | Some r => state r = CircuitHalfOpen /\ inFlight r = 2 /\ live (sys_permits (foldl run_op probe_start evicted_probe)) demo_a (generation r) = 3
  | None => False
  end.
Proof. vm_compute. done. Qed.

(** A circuit's flight counter never exceeds the permits of its generation that
    are still outstanding, and as long as nothing was evicted (and the 64-bit
    generation has not saturated) the two are equal. *)
Theorem circuit_flight_counts_permits opts s id r :
  reachable opts s -> deployments (sys_breaker s) !! id = Some r ->
  inFlight r <= live (sys_permits s) id (generation r) /\
  (evictions (sys_breaker s) = 0 -> generation r < u64_max -> inFlight r = live (sys_permits s) id (generation r)).
Proof.
  intros Hs Hr. destruct (reachable_inv opts (reachable_valid _ _ Hs) s Hs) as [_ _ _ Hrec _].
  destruct (Hrec _ _ Hr). auto.
Qed.

Lemma circuit_flight_counts_permits_witness : exists r, deployments demo_first !! demo_a = Some r /\ inFlight r <= live [demo_permit] demo_a (generation r).
Proof.
  assert (H : state_of demo_first demo_a = Some (CircuitClosed, 1, 1)) by (vm_compute; reflexivity).
  unfold state_of in H. destruct (deployments demo_first !! demo_a) as [r|] eqn:E; [|discriminate H].
  exists r. split; [reflexivity|]. exact (proj1 (circuit_flight_counts_permits _ _ demo_a r demo_reachable E)).
Defined.

(** [FailureThreshold] attempts that fail in a row open a closed idle circuit
    with a clean record, for [OpenDuration] from the last failure. *)
Theorem failures_open_the_circuit opts b id r now :
  CircuitOptions_Validate opts = true -> uuidPattern id = true -> now <> 0 -> options b = opts ->
  deployments b !! id = Some r -> state r = CircuitClosed -> inFlight r = 0 -> consecutiveFailures r = 0 ->
  exists r', deployments (probes (Z.to_nat (FailureThreshold opts)) b id CircuitFailed now) !! id = Some r' /\
    state r' = CircuitOpen /\ retryAt r' = now + OpenDuration opts.
Proof.
  intros Ho Hid Hn Hb Hr Hs Hf Hc. pose proof (opts_bounds opts Ho). eapply failures_open; try done; lia.
Qed.

Definition demo_closed : CircuitBreaker := put demo_new demo_a (newRecord 1).

Lemma failures_open_the_circuit_witness :
  exists r', deployments (probes 2 demo_closed demo_a CircuitFailed 5) !! demo_a = Some r' /\ state r' = CircuitOpen.
Proof.
  destruct (failures_open_the_circuit demo_options demo_closed demo_a (newRecord 1) 5) as (r' & H & Hs & _);
    try reflexivity; try (vm_compute; reflexivity); try lia.
  exists r'. split; [exact H|exact Hs].
Defined.

(** An open circuit refuses every attempt before [retryAt] without changing
    state, and from [retryAt] on it recovers: [HalfOpenSuccessThreshold]
    successful attempts close it with a clean record. *)
Theorem open_circuit_recovers opts b id r now :
  CircuitOptions_Validate opts = true -> uuidPattern id = true -> now <> 0 -> options b = opts ->
  deployments b !! id = Some r -> state r = CircuitOpen ->
  if now <? retryAt r then
    exists b' r', CircuitBreaker_Acquire b ctx_live id now = (b', Err ErrCircuitOpen) /\ deployments b' !! id = Some r' /\
      state r' = CircuitOpen /\ retryAt r' = retryAt r /\ generation r' = generation r
  else
    exists r', deployments (probes (Z.to_nat (HalfOpenSuccessThreshold opts)) b id CircuitSucceeded now) !! id = Some r' /\
      state r' = CircuitClosed /\ consecutiveFailures r' = 0.
Proof.
  intros Ho Hid Hn Hb Hr Hs. pose proof (opts_bounds opts Ho). destruct (now <? retryAt r) eqn:El.
  - unfold CircuitBreaker_Acquire, currentTime, time_is_zero. simpl. rewrite Hid, (proj2 (Z.eqb_neq _ _)) by done. simpl.
    rewrite Hr. unfold advanceOpenLocked, time_before. rewrite El, andb_false_r, Hs.
    do 2 eexists. split; [done|]. split; [simpl; apply lookup_insert_eq|]. done.
  - set (r0 := advanceOpenLocked r now).
    assert (Hr0 : state r0 = CircuitHalfOpen /\ inFlight r0 = 0 /\ halfOpenSuccesses r0 = 0).
    { subst r0. unfold advanceOpenLocked, time_before. by rewrite Hs, El, bool_decide_eq_true_2. }
    destruct Hr0 as (Hs0 & Hf0 & Hc0).
    assert (Hsame : forall n, (0 < n)%nat -> probes n b id CircuitSucceeded now = probes n (put b id r0) id CircuitSucceeded now).
    { intros [|n]; [lia|]. intros _. simpl. f_equal. unfold probe, CircuitBreaker_Acquire. simpl. rewrite Hid.
      unfold currentTime, time_is_zero. rewrite (proj2 (Z.eqb_neq _ _)) by done. simpl. rewrite Hr, lookup_insert_eq.
      fold r0. rewrite (advance_stays now r0) by congruence. rewrite !put_self. done. }
    rewrite Hsame by lia.
    eapply (successes_close opts Ho id now Hid Hn _ (put b id r0) r0); try done; try lia. simpl. apply lookup_insert_eq.
Qed.

Lemma open_circuit_recovers_witness :
  exists r', deployments (probes 1 (put demo_new demo_a (openLocked demo_options (newRecord 1) 5)) demo_a CircuitSucceeded
    (40 * second)) !! demo_a = Some r' /\ state r' = CircuitClosed.
Proof.
  assert (Hn : 40 * second <> 0) by (unfold second; lia).
  destruct (open_circuit_recovers demo_options (put demo_new demo_a (openLocked demo_options (newRecord 1) 5)) demo_a
    (openLocked demo_options (newRecord 1) 5) (40 * second) eq_refl ltac:(vm_compute; reflexivity) Hn eq_refl
    ltac:(simpl; apply lookup_insert_eq) eq_refl) as (r' & H & Hs & _).
  exists r'. split; [exact H|exact Hs].
Defined.

(** Acquiring a permit for one deployment never loses the circuit of another
    that is open, half-open or in flight. When a full breaker must evict, it evicts
    a closed idle circuit that no other closed idle circuit was touched before, and
    it refuses only when there is none. *)
Theorem eviction_is_safe_and_oldest_first b ctx id now b' res :
  CircuitBreaker_Acquire b ctx id now = (b', res) ->
  (forall other r, other <> id -> deployments b !! other = Some r -> evictable r = false -> deployments b' !! other = Some r) /\
  match allocateLocked b id now with
  | None => forall other r, deployments b !! other = Some r -> evictable r = false
  | Some (b1, _) =>
      evictions b1 = evictions b \/
      exists old r, deployments b !! old = Some r /\ evictable r = true /\
        deployments b1 = <[id := newRecord now]> (delete old (deployments b)) /\
        forall other r', deployments b !! other = Some r' -> evictable r' = true -> older (other, r') (old, r) = false
  end.
Proof. intros H. split; [|apply allocate_choice]. intros other r Hne Hr Hev. by eapply Acquire_keeps. Qed.

Lemma eviction_is_safe_and_oldest_first_witness :
  exists r, deployments demo_first !! demo_a = Some r /\ deployments (acquired demo_first demo_b 7) !! demo_a = Some r.
Proof.
  assert (H : state_of demo_first demo_a = Some (CircuitClosed, 1, 1)) by (vm_compute; reflexivity).
  unfold state_of in H. destruct (deployments demo_first !! demo_a) as [r|] eqn:E; [|discriminate H].
  injection H as Hs _ Hf. exists r. split; [reflexivity|].
  unfold acquired. destruct (CircuitBreaker_Acquire demo_first ctx_live demo_b 7) as [b' res] eqn:Ea.
  apply (proj1 (eviction_is_safe_and_oldest_first _ _ _ _ _ _ Ea) demo_a r); [discriminate|exact E|].
  unfold evictable. rewrite Hs, Hf. reflexivity.
Defined.

(** ** A stale permit of an evicted circuit *)

(** Deployment [a] opens, recovers and becomes idle while [demo_permit], acquired in
    its first generation, is still outstanding; [b] evicts it and is evicted in
    turn, so that [a] starts again at generation 1. *)
Definition demo_reused : CircuitBreaker :=
  acquired (probe (probe (probes 2 demo_first demo_a CircuitFailed 2) demo_a CircuitSucceeded (40 * second))
    demo_b CircuitSucceeded (41 * second)) demo_a (42 * second).

(** The generation check of [Complete] does not recognise a permit of an evicted
    circuit: the completion of [demo_permit] is charged to the new circuit of the
    same name, and the permit the new circuit did issue is refused as invalid. *)
Theorem stale_permit_is_charged_to_a_new_circuit :
  state_of (probes 2 demo_first demo_a CircuitFailed 2) demo_a = Some (CircuitOpen, 2, 0) /\
  state_of demo_reused demo_a = Some (CircuitClosed, 1, 1) /\
  let '(b, _, r) := CircuitPermit_Complete demo_reused demo_permit ctx_live CircuitFailed (43 * second) in
  r = Ok tt /\ state_of b demo_a = Some (CircuitClosed, 1, 0) /\
  (CircuitPermit_Complete b demo_permit ctx_live CircuitSucceeded (44 * second)).2 = Err ErrCircuitInvalid.
Proof. vm_compute. tauto. Qed.
