(* ===== verification/Unicode.v ===== *)
(** * UTF-8 text as the gateway's validators see it

    [utf8.ValidString], [utf8.RuneCountInString], [strings.TrimSpace] and the
    [unicode] predicates the catalog uses, over Go strings (bytes). *)
From Stdlib Require Import ZArith Lia Bool Ascii String.
From stdpp Require Import base tactics option list strings.
From S2P Require Import Prelude.
Definition byte_of (c : ascii) : Z := Z.of_N (N_of_ascii c).

Fixpoint bytes_of (s : string) : list Z :=
  match s with EmptyString => [] | String c s' => byte_of c :: bytes_of s' end.

Definition cont (b : Z) : bool := (128 <=? b) && (b <=? 191).
Definition within (lo hi b : Z) : bool := (lo <=? b) && (b <=? hi).

(** The runes of a valid UTF-8 string; [None] if it is not valid (overlong forms,
    surrogates and values beyond U+10FFFF are not). *)
Fixpoint decode (bs : list Z) : option (list Z) :=
  match bs with
  | [] => Some []
  | b0 :: r0 =>
      if b0 <? 128 then rs ← decode r0; Some (b0 :: rs)
      else if within 194 223 b0 then
        match r0 with
        | b1 :: r1 =>
            if cont b1 then rs ← decode r1; Some ((b0 - 192) * 64 + (b1 - 128) :: rs) else None
        | [] => None
        end
      else if within 224 239 b0 then
        match r0 with
        | b1 :: b2 :: r2 =>
            if within (if b0 =? 224 then 160 else 128) (if b0 =? 237 then 159 else 191) b1 && cont b2
            then rs ← decode r2; Some ((b0 - 224) * 4096 + (b1 - 128) * 64 + (b2 - 128) :: rs) else None
        | _ => None
        end
      else if within 240 244 b0 then
        match r0 with
        | b1 :: b2 :: b3 :: r3 =>
            if within (if b0 =? 240 then 144 else 128) (if b0 =? 244 then 143 else 191) b1 && cont b2 && cont b3
            then rs ← decode r3;
                 Some ((b0 - 240) * 262144 + (b1 - 128) * 4096 + (b2 - 128) * 64 + (b3 - 128) :: rs)
            else None
        | _ => None
        end
      else None
  end.

(** The runes a [range] loop over a string visits: an invalid byte yields U+FFFD
    and is skipped alone. *)
Fixpoint runes (bs : list Z) : list Z :=
  match bs with
  | [] => []
  | b0 :: r0 =>
      if b0 <? 128 then b0 :: runes r0
      else if within 194 223 b0 then
        match r0 with
        | b1 :: r1 => if cont b1 then (b0 - 192) * 64 + (b1 - 128) :: runes r1 else 65533 :: runes r0
        | [] => 65533 :: runes r0
        end
      else if within 224 239 b0 then
        match r0 with
        | b1 :: b2 :: r2 =>
            if within (if b0 =? 224 then 160 else 128) (if b0 =? 237 then 159 else 191) b1 && cont b2
            then (b0 - 224) * 4096 + (b1 - 128) * 64 + (b2 - 128) :: runes r2 else 65533 :: runes r0
        | _ => 65533 :: runes r0
        end
      else if within 240 244 b0 then
        match r0 with
        | b1 :: b2 :: b3 :: r3 =>
            if within (if b0 =? 240 then 144 else 128) (if b0 =? 244 then 143 else 191) b1 && cont b2 && cont b3
            then (b0 - 240) * 262144 + (b1 - 128) * 4096 + (b2 - 128) * 64 + (b3 - 128) :: runes r3
            else 65533 :: runes r0
        | _ => 65533 :: runes r0
        end
      else 65533 :: runes r0
  end.

(** On valid UTF-8 the two decoders agree. *)
Lemma decode_runes : forall n bs rs, (length bs <= n)%nat -> decode bs = Some rs -> runes bs = rs.
Proof.
  induction n as [|n IH]; intros [|b0 r0] rs Hn; simpl in *; try lia; try by intros [= <-].
  intros H. repeat (case_match; try done; simpl in *);
    apply bind_Some in H as (rs' & E & [= <-]); (f_equal; apply (IH _ rs'); [simpl in *; lia|exact E]).
Qed.

(** [unicode.IsSpace] *)
Definition IsSpace (r : Z) : bool :=
  within 9 13 r || (r =? 32) || (r =? 133) || (r =? 160) || (r =? 5760) || within 8192 8202 r ||
  (r =? 8232) || (r =? 8233) || (r =? 8239) || (r =? 8287) || (r =? 12288).

(** [unicode.IsControl] *)
Definition IsControl (r : Z) : bool := within 0 31 r || within 127 159 r.

(** [value == strings.TrimSpace(value)], for the runes of a valid string. *)
Definition trimmed (runes : list Z) : bool :=
  match head runes with Some r => negb (IsSpace r) | None => true end &&
  match last runes with Some r => negb (IsSpace r) | None => true end.

(** [utf8.ValidString(value) && value == strings.TrimSpace(value) &&
    lo <= utf8.RuneCountInString(value) <= hi] *)
Definition trimmed_text (value : string) (lo hi : Z) : bool :=
  match decode (bytes_of value) with
  | Some runes => trimmed runes && (lo <=? Z.of_nat (length runes)) && (Z.of_nat (length runes) <=? hi)
  | None => false
  end.

(** [strings.ToLower] on the ASCII letters; a UUID match needs no other. *)
Definition lower_ascii (c : ascii) : ascii :=
  let n := N_of_ascii c in
  if N.leb 65 n && N.leb n 90 then ascii_of_N (n + 32) else c.
Fixpoint ToLower (s : string) : string :=
  match s with EmptyString => EmptyString | String c s' => String (lower_ascii c) (ToLower s') end.
