(* ===== verification/Encoding.v ===== *)
(** * Text splitting and byte encodings of the Go standard library

    What the credential packages use of [strings] (TrimSpace, Fields, Cut) and of
    [encoding/base64], [encoding/base32] and [encoding/hex], on bytes. The encodings are
    those of RFC 4648: the bytes are written as bits, most significant first, and the bits
    are read in groups of six, five or four. *)
From Stdlib Require Import ZArith Lia Bool Ascii String.
From stdpp Require Import base tactics option list strings.
From S2P Require Import Prelude Identifiers Unicode.
Definition is_byte (b : Z) : bool := (0 <=? b) && (b <=? 255).

Definition string_of (bs : list Z) : string := foldr (fun b s => String (ascii_of_N (Z.to_N b)) s) EmptyString bs.

(** ** Spaces in UTF-8 text *)

(** The number of bytes of the space ([unicode.IsSpace]) that the text starts with; 0 if
    it starts with none. A lead byte never occurs inside another rune, so this can be asked
    at every position. *)
Definition space_size (bs : list Z) : nat :=
  match bs with
  | b0 :: r =>
      if within 9 13 b0 || (b0 =? 32) then 1%nat
      else match r with
           | b1 :: r' =>
               if (b0 =? 194) && ((b1 =? 133) || (b1 =? 160)) then 2%nat
               else match r' with
                    | b2 :: _ =>
                        if ((b0 =? 225) && (b1 =? 154) && (b2 =? 128)) ||
                           ((b0 =? 226) && (b1 =? 128) && (within 128 138 b2 || within 168 169 b2 || (b2 =? 175))) ||
                           ((b0 =? 226) && (b1 =? 129) && (b2 =? 159)) ||
                           ((b0 =? 227) && (b1 =? 128) && (b2 =? 128))
                        then 3%nat else 0%nat
                    | [] => 0%nat
                    end
           | [] => 0%nat
           end
  | [] => 0%nat
  end.

(** [strings.Fields]: [skip] bytes of the current space remain, [field] is the field read
    so far, last byte first. *)
Fixpoint fields_from (skip : nat) (field : list Z) (bs : list Z) : list (list Z) :=
  let flushed := match field with [] => [] | _ => [reverse field] end in
  match bs with
  | [] => flushed
  | b :: r =>
      match skip with
      | S k => fields_from k field r
      | O => match space_size bs with
             | S k => flushed ++ fields_from k [] r
             | O => fields_from 0 (b :: field) r
             end
      end
  end.
Definition Fields (s : string) : list string := string_of <$> fields_from 0 [] (bytes_of s).

(** [strings.TrimSpace] *)
Fixpoint trim_left (skip : nat) (bs : list Z) : list Z :=
  match bs with
  | [] => []
  | _ :: r =>
      match skip with
      | S k => trim_left k r
      | O => match space_size bs with S k => trim_left k r | O => bs end
      end
  end.
Definition all_space (bs : list Z) : bool := match trim_left 0 bs with [] => true | _ => false end.
Fixpoint trim_right (bs : list Z) : list Z :=
  match bs with
  | [] => []
  | b :: r => if all_space bs then [] else b :: trim_right r
  end.
Definition TrimSpace (s : string) : string := string_of (trim_right (trim_left 0 (bytes_of s))).

(** [strings.EqualFold] with a lower-case ASCII text. *)
Definition fold_rune (r : Z) : Z := if within 65 90 r then r + 32 else if r =? 383 then 115 else if r =? 8490 then 107 else r.
Definition EqualFold (s lower : string) : bool := bool_decide (fold_rune <$> runes (bytes_of s) = bytes_of lower).

(** [strings.Cut(s, ".")] and [strings.Contains(s, ".")] for one-byte separators. *)
Fixpoint cut_at (sep : ascii) (s : string) : string * string * bool :=
  match s with
  | EmptyString => (EmptyString, EmptyString, false)
  | String c s' =>
      if ascii_dec c sep then (EmptyString, s', true)
      else let '(before, after, found) := cut_at sep s' in (String c before, after, found)
  end.
Definition contains_char (sep : ascii) (s : string) : bool := negb (all_chars (fun c => negb (Ascii.eqb c sep)) s).

(** ** Bits *)
Fixpoint to_bits (k : nat) (v : Z) : list bool :=
  match k with O => [] | S k' => Z.testbit v (Z.of_nat k') :: to_bits k' v end.
Definition of_bits (bits : list bool) : Z := foldl (fun v b => 2 * v + Z.b2z b) 0 bits.

Definition byte_bits (bs : list Z) : list bool := mjoin (to_bits 8 <$> bs).
Definition groups (k n : nat) (bits : list bool) : list (list bool) := reshape (replicate n k) bits.

(** The digits of base [2^k]; the last group is padded with zero bits. *)
Definition digits (k : nat) (bs : list Z) : list Z :=
  let bits := byte_bits bs in
  let n := Nat.div (length bits + (k - 1)) k in
  of_bits <$> groups k n (bits ++ replicate (n * k - length bits) false).

(** The whole bytes that digits spell; bits that do not fill a byte are dropped. *)
Definition undigits (k : nat) (ds : list Z) : list Z :=
  let bits := mjoin (to_bits k <$> ds) in
  let n := Nat.div (length bits) 8 in of_bits <$> groups 8 n (take (8 * n) bits).

(** ** Alphabets *)
Definition base64_url : list Z := bytes_of "ABCDEFGHIJKLMNOPQRSTUVWXYZabcdefghijklmnopqrstuvwxyz0123456789-_".
Definition base32_std : list Z := bytes_of "ABCDEFGHIJKLMNOPQRSTUVWXYZ234567".
Definition hex_digits : list Z := bytes_of "0123456789abcdef".

Definition spell (alphabet : list Z) (ds : list Z) : string :=
  string_of ((fun d => nth (Z.to_nat d) alphabet 0) <$> ds).
Definition digit_of (alphabet : list Z) (c : Z) : option Z := Z.of_nat ∘ fst <$> list_find (eq c) alphabet.

(** [base64.RawURLEncoding.EncodeToString], [base32.StdEncoding.WithPadding(NoPadding)]
    and [hex.EncodeToString] *)
Definition base64_encode (bs : list Z) : string := spell base64_url (digits 6 bs).
Definition base32_encode (bs : list Z) : string := spell base32_std (digits 5 bs).
Definition hex_encode (bs : list Z) : string := spell hex_digits (digits 4 bs).

(** [base64.RawURLEncoding.DecodeString]: line breaks are skipped, a last group of one
    digit is an error, trailing bits are not checked. *)
Definition base64_decode (s : string) : option (list Z) :=
  let cs := filter (fun c => c <> 10 /\ c <> 13) (bytes_of s) in
  ds ← mapM (digit_of base64_url) cs;
  if Nat.eqb (Nat.modulo (length ds) 4) 1 then None else Some (undigits 6 ds).

(** ** Round trips *)
Lemma to_bits_length k v : length (to_bits k v) = k.
Proof. induction k; simpl; lia. Qed.

Lemma to_bits_mod k n v : (k <= n)%nat -> to_bits k (v mod 2 ^ Z.of_nat n) = to_bits k v.
Proof. intros H. induction k as [|k IH]; simpl; [done|]. rewrite Z.mod_pow2_bits_low by lia. by rewrite IH by lia. Qed.

Lemma of_bits_from l : forall a, foldl (fun v b => 2 * v + Z.b2z b) a l = a * 2 ^ Z.of_nat (length l) + of_bits l.
Proof.
  unfold of_bits. induction l as [|b l IH]; intros a; cbn [foldl length]; [simpl; lia|].
  rewrite (IH (2 * a + Z.b2z b)), (IH (2 * 0 + Z.b2z b)).
  rewrite Nat2Z.inj_succ, Z.pow_succ_r by lia. ring.
Qed.

Lemma of_bits_cons b l : of_bits (b :: l) = Z.b2z b * 2 ^ Z.of_nat (length l) + of_bits l.
Proof. unfold of_bits at 1. cbn [foldl]. rewrite of_bits_from. lia. Qed.

Lemma of_bits_range l : 0 <= of_bits l < 2 ^ Z.of_nat (length l).
Proof.
  induction l as [|b l IH]; [done|]. rewrite of_bits_cons. simpl length. rewrite Nat2Z.inj_succ, Z.pow_succ_r by lia.
  destruct b; simpl Z.b2z; lia.
Qed.

Lemma to_bits_of_bits l : to_bits (length l) (of_bits l) = l.
Proof.
  induction l as [|b l IH]; [done|]. rewrite of_bits_cons. simpl. pose proof (of_bits_range l) as R. f_equal.
  - rewrite Z.testbit_eqb by lia. rewrite Z.div_add_l, (Z.div_small (of_bits l)) by lia. by destruct b.
  - rewrite <- (to_bits_mod _ (length l)) by lia. rewrite (Z.add_comm (_ * _)), Z.mod_add, Z.mod_small by lia. exact IH.
Qed.

Lemma of_bits_to_bits k v : of_bits (to_bits k v) = v mod 2 ^ Z.of_nat k.
Proof.
  induction k as [|k IH]; [by rewrite Z.mod_1_r|]. simpl to_bits. rewrite of_bits_cons, to_bits_length, IH.
  rewrite Z.testbit_spec' by lia. rewrite Nat2Z.inj_succ, Z.pow_succ_r by lia.
  rewrite (Z.mul_comm 2), Z.rem_mul_r by lia. lia.
Qed.

Lemma is_byte_range b : is_byte b = true <-> 0 <= b <= 255.
Proof. unfold is_byte. lia. Qed.

Lemma groups_of k ls bits : bits = mjoin ls -> Forall (fun l => length l = k) ls -> groups k (length ls) bits = ls.
Proof.
  intros ->. unfold groups. induction 1 as [|l ls Hl _ IH]; simpl; [done|]. by rewrite take_app_length', drop_app_length', IH by done.
Qed.

Lemma byte_bits_length bs : length (byte_bits bs) = (8 * length bs)%nat.
Proof.
  induction bs as [|b bs IH]; [done|]. change (byte_bits (b :: bs)) with (to_bits 8 b ++ byte_bits bs).
  rewrite length_app, to_bits_length, IH. simpl. lia.
Qed.

Lemma groups_spec k n bits : length bits = (n * k)%nat -> mjoin (groups k n bits) = bits /\ length (groups k n bits) = n /\ Forall (fun g => length g = k) (groups k n bits).
Proof.
  intros H. unfold groups. split_and!.
  - apply join_reshape. rewrite sum_list_replicate. lia.
  - by rewrite length_reshape, length_replicate.
  - revert bits H. induction n as [|n IH]; intros bits H; simpl; constructor; [rewrite length_take; lia|]. apply IH. rewrite length_drop. lia.
Qed.

(** Digits of at most a byte spell the bytes they were made of. *)
Lemma undigits_digits k bs : (0 < k <= 8)%nat -> Forall (fun b => is_byte b = true) bs -> undigits k (digits k bs) = bs.
Proof.
  intros Hk Hbs. unfold digits, undigits. set (bits := byte_bits bs). set (n := Nat.div (length bits + (k - 1)) k).
  pose proof (byte_bits_length bs) as L. fold bits in L.
  pose proof (Nat.div_mod_eq (length bits + (k - 1)) k) as D. fold n in D.
  pose proof (Nat.mod_upper_bound (length bits + (k - 1)) k ltac:(lia)) as M.
  destruct (groups_spec k n (bits ++ replicate (n * k - length bits) false)) as (J & _ & F); [rewrite length_app, length_replicate; lia|].
  rewrite <- list_fmap_compose.
  assert ((to_bits k ∘ of_bits) <$> groups k n (bits ++ replicate (n * k - length bits) false) = groups k n (bits ++ replicate (n * k - length bits) false)) as ->.
  { rewrite <- (list_fmap_id (groups k n _)) at 2. apply list_fmap_ext. intros i g Hg. simpl. rewrite Forall_lookup in F. rewrite <- (F _ _ Hg) at 1. apply to_bits_of_bits. }
  rewrite J, length_app, length_replicate.
  replace (Nat.div (length bits + (n * k - length bits)) 8) with (length bs) by (apply Nat.div_unique with (r := (n * k - length bits)%nat); lia).
  rewrite take_app_length' by lia.
  rewrite <- (length_fmap (to_bits 8) bs), (groups_of 8 (to_bits 8 <$> bs) bits eq_refl).
  - rewrite <- list_fmap_compose. rewrite <- (list_fmap_id bs) at 2. apply list_fmap_ext. intros i b Hb. unfold compose.
    rewrite Forall_lookup in Hbs. apply Hbs, is_byte_range in Hb. rewrite of_bits_to_bits, Z.mod_small; [done|]. change (2 ^ Z.of_nat 8) with 256. lia.
  - apply Forall_fmap, Forall_true. intros. apply to_bits_length.
Qed.

Lemma digits_length k bs : (0 < k)%nat -> length (digits k bs) = Nat.div (8 * length bs + (k - 1)) k.
Proof.
  intros Hk. unfold digits. rewrite length_fmap. unfold groups. by rewrite length_reshape, length_replicate, byte_bits_length.
Qed.

Lemma digits_range k bs : (0 < k)%nat -> Forall (fun d => 0 <= d < 2 ^ Z.of_nat k) (digits k bs).
Proof.
  intros Hk. unfold digits. set (bits := byte_bits bs). set (n := Nat.div (length bits + (k - 1)) k).
  pose proof (Nat.div_mod_eq (length bits + (k - 1)) k) as D. fold n in D.
  pose proof (Nat.mod_upper_bound (length bits + (k - 1)) k ltac:(lia)) as M.
  destruct (groups_spec k n (bits ++ replicate (n * k - length bits) false)) as (_ & _ & F); [rewrite length_app, length_replicate; lia|].
  apply Forall_fmap. eapply Forall_impl; [exact F|]. intros g Hg. simpl. rewrite <- Hg. apply of_bits_range.
Qed.

(** ** Strings of bytes *)
Lemma bytes_of_string_of bs : Forall (fun b => is_byte b = true) bs -> bytes_of (string_of bs) = bs.
Proof.
  induction 1 as [|b bs Hb _ IH]; [done|]. simpl. rewrite IH. f_equal. apply is_byte_range in Hb.
  unfold byte_of. rewrite N_ascii_embedding by lia. lia.
Qed.

Lemma string_of_length bs : String.length (string_of bs) = length bs.
Proof. induction bs; simpl; congruence. Qed.

Lemma string_app_length s t : String.length (s ++ t) = (String.length s + String.length t)%nat.
Proof. induction s as [|a s IH]; simpl; [done|]. by rewrite <- IH. Qed.

Lemma all_chars_string_of (c : char_class) bs : Forall (fun b => c (ascii_of_N (Z.to_N b)) = true) bs -> all_chars c (string_of bs) = true.
Proof. induction 1 as [|b bs Hb _ IH]; simpl; [done|]. by rewrite Hb. Qed.

Lemma all_chars_app c s t : all_chars c (s ++ t) = all_chars c s && all_chars c t.
Proof. induction s as [|a s IH]; simpl; [done|]. rewrite IH. by rewrite andb_assoc. Qed.

Lemma all_chars_impl (c d : char_class) s : (forall a, c a = true -> d a = true) -> all_chars c s = true -> all_chars d s = true.
Proof. intros H. induction s as [|a s IH]; simpl; [done|]. intros [Ha Hs]%andb_true_iff. rewrite (H a Ha). auto. Qed.

(** A character is cut at the first separator. *)
Lemma cut_at_app sep s t : contains_char sep s = false -> cut_at sep (s ++ String sep t) = (s, t, true).
Proof.
  unfold contains_char. rewrite negb_false_iff. induction s as [|c s IH]; simpl.
  - by destruct (ascii_dec sep sep).
  - intros [Hc Hs]%andb_true_iff. apply negb_true_iff, Ascii.eqb_neq in Hc. destruct (ascii_dec c sep); [done|]. by rewrite IH.
Qed.

Lemma cut_at_sound sep s b a : cut_at sep s = (b, a, true) -> s = (b ++ String sep a)%string.
Proof.
  revert b. induction s as [|c s IH]; intros b; simpl; [done|]. destruct (ascii_dec c sep) as [->|]; [by intros [= <- <-]|].
  destruct (cut_at sep s) as [[b' a'] f]. intros [= <- <- ->]. simpl. by rewrite (IH b' eq_refl).
Qed.

(** ** Spelling digits *)
Section Alphabet.
Context (alphabet : list Z) (c : char_class).
Hypothesis distinct_letters : NoDup alphabet.
Hypothesis letters : Forall (fun b => is_byte b = true /\ c (ascii_of_N (Z.to_N b)) = true) alphabet.

Lemma letter_of d : 0 <= d < Z.of_nat (length alphabet) -> exists b, alphabet !! Z.to_nat d = Some b /\ nth (Z.to_nat d) alphabet 0 = b /\ is_byte b = true /\ c (ascii_of_N (Z.to_N b)) = true.
Proof using letters.
  intros Hd. destruct (lookup_lt_is_Some_2 alphabet (Z.to_nat d)) as [b Hb]; [lia|]. exists b. split; [done|].
  rewrite Forall_lookup in letters. destruct (letters _ _ Hb). split_and!; [by apply nth_lookup_Some|done|done].
Qed.

Lemma spell_chars ds : Forall (fun d => 0 <= d < Z.of_nat (length alphabet)) ds -> all_chars c (spell alphabet ds) = true.
Proof using letters.
  intros H. apply all_chars_string_of, Forall_fmap. eapply Forall_impl; [exact H|]. intros d Hd. destruct (letter_of d Hd) as (b & _ & E & _ & Hc).
  simpl. by rewrite E.
Qed.

Lemma spell_length ds : String.length (spell alphabet ds) = length ds.
Proof. unfold spell. by rewrite string_of_length, length_fmap. Qed.

Lemma digit_of_letter d : 0 <= d < Z.of_nat (length alphabet) -> digit_of alphabet (nth (Z.to_nat d) alphabet 0) = Some d.
Proof using distinct_letters letters.
  intros Hd. destruct (letter_of d Hd) as (b & Hb & -> & _). unfold digit_of.
  rewrite (proj2 (list_find_Some (eq b) alphabet (Z.to_nat d) b)); [simpl; f_equal; lia|]. split_and!; [done|done|].
  intros j y Hj Hlt ->. pose proof (NoDup_lookup _ _ _ _ distinct_letters Hb Hj). lia.
Qed.

Lemma bytes_of_spell ds : Forall (fun d => 0 <= d < Z.of_nat (length alphabet)) ds -> bytes_of (spell alphabet ds) = (fun d => nth (Z.to_nat d) alphabet 0) <$> ds.
Proof using letters.
  intros H. apply bytes_of_string_of, Forall_fmap. eapply Forall_impl; [exact H|]. intros d Hd. destruct (letter_of d Hd) as (b & _ & E & Hb & _).
  simpl. by rewrite E.
Qed.
End Alphabet.

Definition url_letter : char_class := or_class alnum (one_of "-_").

Lemma base64_letters : NoDup base64_url /\ Forall (fun b => is_byte b = true /\ url_letter (ascii_of_N (Z.to_N b)) = true) base64_url.
Proof. split; [apply (bool_decide_eq_true_1 (NoDup base64_url))|apply (bool_decide_eq_true_1 (Forall _ base64_url))]; vm_compute; reflexivity. Qed.

Lemma base64_digits bs : Forall (fun d => 0 <= d < Z.of_nat (length base64_url)) (digits 6 bs).
Proof. apply (digits_range 6). lia. Qed.

Lemma base64_encode_chars bs : all_chars url_letter (base64_encode bs) = true.
Proof. apply (spell_chars base64_url); [apply base64_letters|apply base64_digits]. Qed.

Lemma base64_roundtrip bs : Forall (fun b => is_byte b = true) bs -> base64_decode (base64_encode bs) = Some bs.
Proof.
  intros Hbs. unfold base64_decode, base64_encode. rewrite (bytes_of_spell _ url_letter (proj2 base64_letters) _ (base64_digits bs)).
  assert (forall ds, Forall (fun d => 0 <= d < Z.of_nat (length base64_url)) ds ->
    filter (fun x => x <> 10 /\ x <> 13) ((fun d => nth (Z.to_nat d) base64_url 0) <$> ds) = (fun d => nth (Z.to_nat d) base64_url 0) <$> ds /\
    mapM (digit_of base64_url) ((fun d => nth (Z.to_nat d) base64_url 0) <$> ds) = Some ds) as H.
  { induction 1 as [|d ds Hd _ [IH1 IH2]]; [done|]. rewrite !fmap_cons. split.
    - rewrite filter_cons_True; [by rewrite IH1|]. destruct (letter_of base64_url url_letter (proj2 base64_letters) d Hd) as (b & _ & -> & _ & Hc).
      split; intros ->; by vm_compute in Hc.
    - cbn [mapM]. by rewrite (digit_of_letter _ _ (proj1 base64_letters) (proj2 base64_letters) d Hd), IH2. }
  destruct (H _ (base64_digits bs)) as [-> ->]. cbn [mbind option_bind]. rewrite digits_length by lia.
  replace (Nat.eqb _ 1) with false.
  - by rewrite undigits_digits by (done || lia).
  - symmetry. apply Nat.eqb_neq. pose proof (Nat.div_mod_eq (length bs) 3) as D. pose proof (Nat.mod_upper_bound (length bs) 3 ltac:(lia)) as M.
    rewrite D. set (q := Nat.div (length bs) 3). replace (8 * (3 * q + length bs mod 3) + (6 - 1))%nat with (8 * (length bs mod 3) + 5 + (4 * q) * 6)%nat by lia.
    rewrite Nat.div_add, (Nat.mul_comm 4 q), Nat.Div0.mod_add by lia. destruct (Nat.modulo (length bs) 3) as [|[|[|]]]; [by vm_compute..|lia].
Qed.

(** ** Plain text: printable ASCII without spaces *)
Definition plain : char_class := between "!" "~".

Lemma string_of_bytes_of s : string_of (bytes_of s) = s.
Proof. induction s as [|a s IH]; [done|]. simpl. rewrite IH. unfold byte_of. by rewrite N2Z.id, ascii_N_embedding. Qed.

Lemma plain_byte a : plain a = true -> 33 <= byte_of a <= 126.
Proof. unfold plain, between, byte_of, code. intros [H1 H2]%andb_true_iff. apply N.leb_le in H1, H2. change (N_of_ascii "!") with 33%N in H1. change (N_of_ascii "~") with 126%N in H2. lia. Qed.

Lemma plain_no_space a bs : plain a = true -> space_size (byte_of a :: bs) = 0%nat.
Proof.
  intros H%plain_byte. unfold space_size, within. destruct bs as [|b1 [|b2 bs]]; repeat (case_match; try done); lia.
Qed.

Lemma TrimSpace_plain s : all_chars plain s = true -> TrimSpace s = s.
Proof.
  intros H. unfold TrimSpace. replace (trim_right _) with (bytes_of s); [apply string_of_bytes_of|].
  assert (forall t, all_chars plain t = true -> trim_left 0 (bytes_of t) = bytes_of t) as L.
  { intros [|a t]; [done|]. intros [Ha _]%andb_true_iff. cbn [bytes_of trim_left]. by rewrite plain_no_space. }
  rewrite L by done. clear L. induction s as [|a s IH]; [done|]. simpl in H. apply andb_true_iff in H as [Ha Hs].
  cbn [bytes_of trim_right]. unfold all_space. cbn [trim_left]. rewrite plain_no_space by done. by rewrite <- IH.
Qed.

Lemma ToLower_chars (c d : char_class) s : (forall a, c a = true -> d (lower_ascii a) = true) -> all_chars c s = true -> all_chars d (ToLower s) = true.
Proof. intros H. induction s as [|a s IH]; simpl; [done|]. intros [Ha Hs]%andb_true_iff. rewrite (H a Ha). auto. Qed.

Lemma ToLower_length s : String.length (ToLower s) = String.length s.
Proof. induction s; simpl; congruence. Qed.

(** The lower-case base32 text of random bytes. *)
Lemma base32_encode_chars bs : all_chars (or_class lower digit) (ToLower (base32_encode bs)) = true.
Proof.
  apply (ToLower_chars (fun a => or_class lower digit (lower_ascii a))); [done|].
  apply (spell_chars base32_std).
  - apply (bool_decide_eq_true_1 (Forall _ base32_std)). vm_compute. reflexivity.
  - apply (digits_range 5). lia.
Qed.

Lemma base32_encode_length bs : String.length (ToLower (base32_encode bs)) = Nat.div (8 * length bs + 4) 5.
Proof. rewrite ToLower_length. unfold base32_encode. rewrite spell_length, digits_length by lia. done. Qed.

Lemma base64_encode_length bs : String.length (base64_encode bs) = Nat.div (8 * length bs + 5) 6.
Proof. unfold base64_encode. rewrite spell_length, digits_length by lia. done. Qed.

(** ** Hexadecimal text *)
Lemma hex_encode_chars bs : all_chars hex (hex_encode bs) = true.
Proof.
  apply (spell_chars hex_digits).
  - apply (bool_decide_eq_true_1 (Forall _ hex_digits)). vm_compute. reflexivity.
  - apply (digits_range 4). lia.
Qed.

Lemma hex_encode_length bs : String.length (hex_encode bs) = (2 * length bs)%nat.
Proof. unfold hex_encode. rewrite spell_length, digits_length by lia. replace (8 * length bs + (4 - 1))%nat with (3 + (2 * length bs) * 4)%nat by lia. by rewrite Nat.div_add by lia. Qed.

Lemma all_chars_substring c n m s : all_chars c s = true -> all_chars c (String.substring n m s) = true.
Proof.
  revert n m. induction s as [|a s IH]; intros [|n] [|m]; cbn [all_chars String.substring]; try done; intros [Ha Hs]%andb_prop; [by rewrite Ha, IH|by apply IH..].
Qed.

Lemma hex_is_lower s : all_chars (or_class hex dash) s = true -> ToLower s = s.
Proof.
  induction s as [|a s IH]; [done|]. cbn [all_chars ToLower]. intros [Ha Hs]%andb_prop. rewrite (IH Hs). f_equal. revert Ha. clear. by destruct a as [[] [] [] [] [] [] [] []].
Qed.
