(* ===== verification/ApiError.v ===== *)
(** * Public errors (src/internal/apierror/error.go)

    A public error is a validated definition next to a private cause. [MustNew] panics on
    an invalid definition, which is [None] here. The cause is kept only where a caller
    inspects it. *)
From Stdlib Require Import ZArith Lia Bool Ascii String.
From stdpp Require Import base tactics option list strings.
From S2P Require Import Prelude Identifiers Unicode Encoding.
Record ErrorDefinition := {
  ed_Status : Z; ed_Code : string; ed_Message : string; ed_Type : string; ed_Param : string; ed_Retryable : bool; ed_RetryAfter : Duration }.

Definition maxPublicMessageLength : nat := 256.
Definition maxParamLength : nat := 128.

(** [^[A-Z][A-Z0-9_]{2,127}$] *)
Definition publicCodePattern : string -> bool := match_head_tail upper (or_class (or_class upper digit) (one_of "_")) 2 127.
(** [^[a-z][a-z0-9_]{2,63}$] *)
Definition publicTypePattern : string -> bool := match_head_tail lower (or_class (or_class lower digit) (one_of "_")) 2 63.
(** [^[A-Za-z0-9_.\[\]-]+$] *)
Definition paramPattern (s : string) : bool := Nat.leb 1 (String.length s) && all_chars (or_class alnum (one_of "_.[]-")) s.

Definition trimmed_definition (d : ErrorDefinition) : ErrorDefinition :=
  {| ed_Status := ed_Status d; ed_Code := TrimSpace (ed_Code d); ed_Message := TrimSpace (ed_Message d); ed_Type := TrimSpace (ed_Type d);
     ed_Param := TrimSpace (ed_Param d); ed_Retryable := ed_Retryable d; ed_RetryAfter := ed_RetryAfter d |}.

Definition definition_ok (d : ErrorDefinition) : bool :=
  (400 <=? ed_Status d) && (ed_Status d <=? 599) && publicCodePattern (ed_Code d) &&
  negb (bool_decide (ed_Message d = ""%string)) && Nat.leb (String.length (ed_Message d)) maxPublicMessageLength &&
  negb (contains_char "010" (ed_Message d)) && negb (contains_char "013" (ed_Message d)) && publicTypePattern (ed_Type d) &&
  (bool_decide (ed_Param d = ""%string) || (Nat.leb (String.length (ed_Param d)) maxParamLength && paramPattern (ed_Param d))) &&
  (0 <=? ed_RetryAfter d) && negb ((0 <? ed_RetryAfter d) && (ed_RetryAfter d <? millisecond)) &&
  negb ((0 <? ed_RetryAfter d) && negb (ed_Retryable d)).

(** [apierror.New]; [MustNew] panics where it fails. *)
Definition NewError (d : ErrorDefinition) : option ErrorDefinition :=
  let d := trimmed_definition d in if definition_ok d then Some d else None.
Definition MustNew (d : ErrorDefinition) : option ErrorDefinition := NewError d.

Record ErrorDetail := {
  dt_Code : string; dt_Message : string; dt_Type : string; dt_Param : option string; dt_RequestID : string; dt_Retryable : bool; dt_RetryAfterMS : option Z }.

Definition internalDefinition (fallbackType : string) : ErrorDefinition :=
  let fallbackType := TrimSpace fallbackType in
  {| ed_Status := 500; ed_Code := "INTERNAL_ERROR"; ed_Message := "An internal error occurred";
     ed_Type := if publicTypePattern fallbackType then fallbackType else "internal_error";
     ed_Param := ""; ed_Retryable := false; ed_RetryAfter := 0 |}.

(** [Render]; [application] is the public error that [errors.As] finds in the chain. *)
Definition Render (application : option ErrorDefinition) (requestID fallbackType : string) : Z * ErrorDetail :=
  let d := default (internalDefinition fallbackType) application in
  (ed_Status d,
   {| dt_Code := ed_Code d; dt_Message := ed_Message d; dt_Type := ed_Type d;
      dt_Param := if bool_decide (ed_Param d = ""%string) then None else Some (ed_Param d);
      dt_RequestID := requestID; dt_Retryable := ed_Retryable d;
      dt_RetryAfterMS := if 0 <? ed_RetryAfter d then Some (ed_RetryAfter d / millisecond) else None |}).

(** [WriteHTTP]: the status, the body and the Retry-After header in whole seconds. *)
Definition WriteHTTP (application : option ErrorDefinition) (requestID fallbackType : string) : Z * ErrorDetail * option Z :=
  let '(status, detail) := Render application requestID fallbackType in
  (status, detail,
   match dt_RetryAfterMS detail with
   | Some _ => Some ((match application with Some d => ed_RetryAfter d | None => 0 end + second - 1) / second)
   | None => None
   end).

(** What every rendered error satisfies, whatever went wrong. *)
Lemma internal_definition_ok fallbackType : definition_ok (internalDefinition fallbackType) = true.
Proof.
  unfold internalDefinition, definition_ok. cbn [ed_Status ed_Code ed_Message ed_Type ed_Param ed_Retryable ed_RetryAfter].
  destruct (publicTypePattern (TrimSpace fallbackType)) eqn:E; [rewrite E|]; vm_compute; reflexivity.
Qed.

(** The Retry-After of a response covers the advertised delay: its seconds are not less
    than its milliseconds, and less than a second more. *)
Lemma retry_after_covers application requestID fallbackType status detail ms :
  match application with Some d => definition_ok d = true | None => True end ->
  WriteHTTP application requestID fallbackType = (status, detail, ms) ->
  400 <= status <= 599 /\
  match dt_RetryAfterMS detail, ms with
  | Some m, Some s => 1 <= m /\ dt_Retryable detail = true /\ m <= 1000 * s < m + 1001
  | None, None => True
  | _, _ => False
  end.
Proof.
  intros Hok. unfold WriteHTTP, Render. destruct application as [d|]; simpl; intros [= <- <- <-]; [|split; [lia|done]].
  unfold definition_ok in Hok. prop_hyps. split; [lia|]. simpl. destruct (0 <? ed_RetryAfter d) eqn:Hr; [|done].
  destruct (ed_Retryable d); [|done]. destruct (ed_RetryAfter d <? millisecond) eqn:Hm; [done|]. prop_hyps.
  unfold millisecond, second in *. split; [apply Z.div_le_lower_bound; lia|]. split; [done|]. Z.div_mod_to_equations. lia.
Qed.
