(* ===== verification/Correlation.v ===== *)
(** * Request identities and trace contexts (src/internal/correlation/correlation.go)

    A manager hands every inbound request an identity that no other live request has and that
    stays reserved for a while after the request, and continues or starts a W3C trace. The
    identifier generator is the class [IDGenerator]; the order in which Go visits a map is the
    argument [range].

    Then: requests are told apart, and traces continue. *)
From Stdlib Require Import ZArith Lia Bool Ascii String.
From stdpp Require Import base tactics option list strings gmap fin_maps.
From S2P Require Import Prelude Identifiers Unicode Encoding ApiError.
Record CorrelationFields := { cf_RequestID : string; cf_TraceID : string; cf_SpanID : string; cf_ParentSpanID : string; cf_TraceFlags : string; cf_TraceState : string }.

(** [http.Header]: canonical names and their values. *)
Definition Header := gmap string (list string).
Definition header_Values (h : Header) (name : string) : list string := default [] (h !! name).
Definition requestIDHeader : string := "X-Request-Id".
Definition traceparentHeader : string := "Traceparent".
Definition tracestateHeader : string := "Tracestate".

Definition defaultRecentTTL : Duration := 10 * minute.
Definition defaultMaxRecent : Z := 10000.
Definition maxGenerationTries : nat := 8.
Definition maxTracestateLength : nat := 512.
Definition maxTracestateItems : nat := 32.

(** ** Patterns *)
Definition hex_text (n : nat) (s : string) : bool := match_classes (replicate n hex) s.
Definition trace_id_pattern : string -> bool := hex_text 32.
Definition span_id_pattern : string -> bool := hex_text 16.
Definition flagsPattern : string -> bool := hex_text 2.
(** [^[a-z0-9][a-z0-9_*/-]{0,240}(?:@[a-z0-9][a-z0-9_*/-]{0,13})?$] *)
Definition state_head : char_class := or_class lower digit.
Definition state_char : char_class := or_class state_head (one_of "_*/-").
Definition stateKeyPattern (s : string) : bool :=
  let '(name, system, found) := cut_at "@" s in
  match_head_tail state_head state_char 0 240 name && (negb found || match_head_tail state_head state_char 0 13 system).

Fixpoint repeat_char (c : ascii) (n : nat) : string := match n with O => EmptyString | S n => String c (repeat_char c n) end.
Definition validRequestID : string -> bool := requestIDPattern.
Definition validTraceID (value : string) : bool := trace_id_pattern value && negb (String.eqb value (repeat_char "0" 32)).
Definition validSpanID (value : string) : bool := span_id_pattern value && negb (String.eqb value (repeat_char "0" 16)).

(** ** Headers *)

(** [strings.Split] at one byte *)
Fixpoint split_on (sep : ascii) (s : string) : list string :=
  match s with
  | EmptyString => [EmptyString]
  | String c s =>
      if Ascii.eqb c sep then EmptyString :: split_on sep s
      else match split_on sep s with first :: rest => String c first :: rest | [] => [String c EmptyString] end
  end.

Definition clientRequestID (values : list string) : string := match values with [value] => TrimSpace value | _ => ""%string end.

(** [(traceID, parentSpanID, flags)] *)
Definition parseTraceparent (values : list string) : option (string * string * string) :=
  match values with
  | [value] =>
      match split_on "-" (TrimSpace value) with
      | [version; traceID; spanID; flags] =>
          if String.eqb version "00" && validTraceID traceID && validSpanID spanID && flagsPattern flags then Some (traceID, spanID, flags) else None
      | _ => None
      end
  | _ => None
  end.

Definition validStateValue (value : string) : bool :=
  match String.get (String.length value - 1) value with
  | None => false
  | Some c => negb (Ascii.eqb c " ") && all_chars (fun a => (32 <=? byte_of a) && (byte_of a <=? 126) && negb (Ascii.eqb a ",") && negb (Ascii.eqb a "=")) value
  end.

(** The loop over the members; [strings.SplitN(_, "=", 2)] is [cut_at]. *)
Fixpoint state_members (members : list string) (seen : gset string) : option (list string) :=
  match members with
  | [] => Some []
  | member :: members =>
      let '(key, value, found) := cut_at "=" (TrimSpace member) in
      if negb found || negb (stateKeyPattern key) || negb (validStateValue value) || bool_decide (key ∈ seen) then None
      else rest ← state_members members ({[key]} ∪ seen); Some ((key +:+ "=" +:+ value)%string :: rest)
  end.

Definition parseTracestate (values : list string) : string :=
  match values with
  | [value] =>
      let raw := TrimSpace value in
      if String.eqb raw "" || negb (Nat.leb (String.length raw) maxTracestateLength) then ""%string
      else
        let members := split_on "," raw in
        if negb (Nat.leb (length members) maxTracestateItems) then ""%string
        else match state_members members ∅ with Some canonical => String.concat "," canonical | None => ""%string end
  | _ => ""%string
  end.

Definition formatTraceparent (traceID spanID flags : string) : string := ("00-" +:+ traceID +:+ "-" +:+ spanID +:+ "-" +:+ flags)%string.

Definition header_Set (h : Header) (name value : string) : Header := <[name := [value]]> h.

(** [InjectHTTP] on a request whose context carries [f] *)
Definition InjectHTTP (f : CorrelationFields) (h : Header) : Header :=
  let h := header_Set h requestIDHeader (cf_RequestID f) in
  let h := header_Set h traceparentHeader (formatTraceparent (cf_TraceID f) (cf_SpanID f) (cf_TraceFlags f)) in
  if String.eqb (cf_TraceState f) "" then delete tracestateHeader h else header_Set h tracestateHeader (cf_TraceState f).

(** ** The manager *)
Class IDGenerator (G : Type) := { gen_RequestID : G -> G * option string; gen_TraceID : G -> G * option string; gen_SpanID : G -> G * option string }.

Record CorrelationManager := {
  cm_recentTTL : Duration; cm_maxRecent : Z; cm_errorType : string; cm_sampleFlag : string; cm_active : gset string; cm_recent : gmap string Time }.

Definition correlation_failed (errorType : string) : ErrorDefinition :=
  {| ed_Status := 500; ed_Code := "CORRELATION_CONTEXT_FAILED"; ed_Message := "Unable to initialize request correlation"; ed_Type := errorType; ed_Param := "";
     ed_Retryable := false; ed_RetryAfter := 0 |}.

(** [New]; a zero option means its default. *)
Definition NewCorrelationManager (recentTTL : Duration) (maxRecent : Z) (errorType sampleFlag : string) : option CorrelationManager :=
  let recentTTL := if recentTTL =? 0 then defaultRecentTTL else recentTTL in
  let maxRecent := if maxRecent =? 0 then defaultMaxRecent else maxRecent in
  if (recentTTL <? 0) || (maxRecent <? 1) then None
  else
    let errorType := if String.eqb (TrimSpace errorType) "" then "internal_error"%string else TrimSpace errorType in
    let sampleFlag := if String.eqb sampleFlag "" then "00"%string else sampleFlag in
    if negb (flagsPattern sampleFlag) then None
    else match NewError (correlation_failed errorType) with
         | None => None
         | Some _ => Some {| cm_recentTTL := recentTTL; cm_maxRecent := maxRecent; cm_errorType := errorType; cm_sampleFlag := sampleFlag; cm_active := ∅; cm_recent := ∅ |}
         end.

Definition set_ids (m : CorrelationManager) (active : gset string) (recent : gmap string Time) : CorrelationManager :=
  {| cm_recentTTL := cm_recentTTL m; cm_maxRecent := cm_maxRecent m; cm_errorType := cm_errorType m; cm_sampleFlag := cm_sampleFlag m; cm_active := active; cm_recent := recent |}.

Definition id_used (m : CorrelationManager) (requestID : string) : bool := bool_decide (requestID ∈ cm_active m) || bool_decide (is_Some (cm_recent m !! requestID)).

Definition purgeExpired (m : CorrelationManager) (now : Time) : CorrelationManager :=
  set_ids m (cm_active m) (filter (fun kv => time_before now kv.2 = true) (cm_recent m)).

Section Manager.
Context (range : gmap string Time -> list (string * Time)).

Definition older_id (choice : string * Time) (kv : string * Time) : string * Time :=
  if String.eqb choice.1 "" || time_before kv.2 choice.2 then kv else choice.
Definition evict_oldest_id (m : CorrelationManager) : CorrelationManager :=
  let '(oldestID, _) := foldl older_id (""%string, 0) (range (cm_recent m)) in
  if String.eqb oldestID "" then m else set_ids m (cm_active m) (delete oldestID (cm_recent m)).

Definition release_id (m : CorrelationManager) (requestID : string) (now : Time) : CorrelationManager :=
  if negb (bool_decide (requestID ∈ cm_active m)) then m
  else
    let m := set_ids m (cm_active m ∖ {[requestID]}) (cm_recent m) in
    if cm_recentTTL m =? 0 then m
    else
      let m := purgeExpired m now in
      let m := if cm_maxRecent m <=? Z.of_nat (size (cm_recent m)) then evict_oldest_id m else m in
      set_ids m (cm_active m) (<[requestID := time_add now (cm_recentTTL m)]> (cm_recent m)).

Context {G : Type} `{IDGenerator G}.

Definition activate (m : CorrelationManager) (requestID : string) : CorrelationManager := set_ids m ({[requestID]} ∪ cm_active m) (cm_recent m).

Fixpoint generate_id (tries : nat) (m : CorrelationManager) (g : G) : CorrelationManager * G * option string :=
  match tries with
  | O => (m, g, None)
  | S tries =>
      let '(g, generated) := gen_RequestID g in
      match generated with
      | None => (m, g, None)
      | Some id => if validRequestID id && negb (id_used m id) then (activate m id, g, Some id) else generate_id tries m g
      end
  end.

Definition reserve_id (m : CorrelationManager) (g : G) (candidate : string) (now : Time) : CorrelationManager * G * option string :=
  let m := purgeExpired m now in
  if validRequestID candidate && negb (id_used m candidate) then (activate m candidate, g, Some candidate) else generate_id maxGenerationTries m g.

(** [newFields] without its lock: [identify] is what it does between reserving the identity
    and returning; [None] is an error, after which the identity is released. *)
Definition identify (sampleFlag : string) (g : G) (h : Header) (requestID : string) : G * option CorrelationFields :=
  let parent := parseTraceparent (header_Values h traceparentHeader) in
  let '(g, trace) :=
    match parent with
    | Some (traceID, parentSpanID, flags) => (g, Some (traceID, parentSpanID, flags))
    | None => let '(g, traceID) := gen_TraceID g in
              (g, match traceID with Some id => if validTraceID id then Some (id, ""%string, sampleFlag) else None | None => None end)
    end in
  match trace with
  | None => (g, None)
  | Some (traceID, parentSpanID, flags) =>
      let '(g, spanID) := gen_SpanID g in
      match spanID with
      | Some spanID =>
          if validSpanID spanID
          then (g, Some {| cf_RequestID := requestID; cf_TraceID := traceID; cf_SpanID := spanID; cf_ParentSpanID := parentSpanID; cf_TraceFlags := flags;
                           cf_TraceState := match parent with Some _ => parseTracestate (header_Values h tracestateHeader) | None => ""%string end |})
          else (g, None)
      | None => (g, None)
      end
  end.

Definition newFields (m : CorrelationManager) (g : G) (h : Header) (now late : Time) : CorrelationManager * G * option CorrelationFields :=
  match reserve_id m g (clientRequestID (header_Values h requestIDHeader)) now with
  | (m, g, None) => (m, g, None)
  | (m, g, Some requestID) =>
      match identify (cm_sampleFlag m) g h requestID with
      | (g, Some f) => (m, g, Some f)
      | (g, None) => (release_id m requestID late, g, None)
      end
  end.

(** The response headers of a request, or the answer when it gets no identity. *)
Definition response_header (f : CorrelationFields) : Header :=
  let h := header_Set (header_Set ∅ requestIDHeader (cf_RequestID f)) traceparentHeader (formatTraceparent (cf_TraceID f) (cf_SpanID f) (cf_TraceFlags f)) in
  if String.eqb (cf_TraceState f) "" then h else header_Set h tracestateHeader (cf_TraceState f).

(** [Middleware]: [next] runs with the manager shared, and the identity is released after it. *)
Definition correlation_Middleware {A : Type} (next : CorrelationManager -> G -> CorrelationFields -> CorrelationManager * G * A) (m : CorrelationManager) (g : G) (h : Header) (now late : Time)
    : CorrelationManager * G * result (Header * A) (Z * ErrorDetail * option Z) :=
  match newFields m g h now late with
  | (m, g, None) => (m, g, Err (WriteHTTP (MustNew (correlation_failed (cm_errorType m))) "" (cm_errorType m)))
  | (m, g, Some f) => let '(m, g, a) := next m g f in (release_id m (cf_RequestID f) late, g, Ok (response_header f, a))
  end.
End Manager.

(** ** The random generator *)
Record RandomGenerator := { rg_source : list Z }.
Definition randomHex (g : RandomGenerator) (byteCount : nat) : RandomGenerator * option string :=
  if Nat.leb byteCount (length (rg_source g)) then ({| rg_source := drop byteCount (rg_source g) |}, Some (hex_encode (take byteCount (rg_source g))))
  else ({| rg_source := [] |}, None).
#[export] Instance random_generator : IDGenerator RandomGenerator := {|
  gen_RequestID := fun g => let '(g, value) := randomHex g 16 in (g, (fun v => "req_" +:+ v)%string <$> value);
  gen_TraceID := fun g => randomHex g 16;
  gen_SpanID := fun g => randomHex g 8 |}.

(** ** Requests are told apart, and traces continue

    Over every interleaving of requests that begin and end, no two live requests have one
    identity, and an identity is given out again before its time only when more identities
    than the manager remembers were released since. The fields a service sends downstream are
    the ones the next service continues. *)
(** ** Histories *)
Record CorrelationState := { ct_manager : CorrelationManager; ct_live : list string; ct_released : list (string * Time); ct_last : Time }.

Section Histories.
Context (range : gmap string Time -> list (string * Time)) (range_perm : forall m, range m ≡ₚ map_to_list m) {G : Type} `{IDGenerator G}.

(** The clock is read under the lock, so its readings are ordered. *)
Inductive correlation_step : CorrelationState -> CorrelationState -> Prop :=
| step_reserve s g candidate now m g' id : ct_last s <= now -> reserve_id (ct_manager s) g candidate now = (m, g', Some id) ->
    correlation_step s {| ct_manager := m; ct_live := id :: ct_live s; ct_released := ct_released s; ct_last := now |}
| step_refuse s g candidate now m g' : ct_last s <= now -> reserve_id (ct_manager s) g candidate now = (m, g', None) ->
    correlation_step s {| ct_manager := m; ct_live := ct_live s; ct_released := ct_released s; ct_last := now |}
| step_release s before id after now : ct_last s <= now -> ct_live s = before ++ id :: after ->
    correlation_step s {| ct_manager := release_id range (ct_manager s) id now; ct_live := before ++ after; ct_released := (id, now) :: ct_released s; ct_last := now |}.

Definition correlation_start (m : CorrelationManager) (now : Time) : CorrelationState := {| ct_manager := m; ct_live := []; ct_released := []; ct_last := now |}.

(** At least [n] other identities were released at or after [t]. *)
Definition crowded (released : list (string * Time)) (n : Z) (id : string) (t : Time) : Prop :=
  exists others, NoDup others /\ id ∉ others /\ n <= Z.of_nat (length others) /\ Forall (fun o => exists t', (o, t') ∈ released /\ t <= t') others.

Record correlation_inv (ttl : Duration) (limit : Z) (s : CorrelationState) : Prop := {
  ci_options : cm_recentTTL (ct_manager s) = ttl /\ cm_maxRecent (ct_manager s) = limit /\ 0 < ttl /\ 1 <= limit;
  ci_distinct : NoDup (ct_live s);
  ci_active : cm_active (ct_manager s) = list_to_set (ct_live s);
  ci_valid : Forall (fun id => validRequestID id = true) (ct_live s);
  ci_size : Z.of_nat (size (cm_recent (ct_manager s))) <= limit;
  ci_apart : forall id, is_Some (cm_recent (ct_manager s) !! id) -> id ∉ ct_live s /\ validRequestID id = true;
  ci_from_log : forall id e, cm_recent (ct_manager s) !! id = Some e -> exists t, (id, t) ∈ ct_released s /\ e = t + ttl;
  ci_log : forall id t, (id, t) ∈ ct_released s -> t <= ct_last s /\
    (ct_last s < t + ttl -> (exists e, cm_recent (ct_manager s) !! id = Some e /\ t + ttl <= e) \/ crowded (ct_released s) limit id t) }.

Lemma crowded_grows released released' n id t : crowded released n id t -> (forall x, x ∈ released -> x ∈ released') -> crowded released' n id t.
Proof using Type. intros (others & H1 & H2 & H3 & H4) Hsub. exists others. split_and!; [done..|]. eapply Forall_impl; [exact H4|]. cbn. intros o (t' & ? & ?). eauto. Qed.

(** ** Purging *)
Lemma purged_lookup m now id e : cm_recent (purgeExpired m now) !! id = Some e <-> cm_recent m !! id = Some e /\ now < e.
Proof using Type. unfold purgeExpired. cbn [cm_recent set_ids]. rewrite map_lookup_filter_Some. cbn [snd]. unfold time_before. by rewrite Z.ltb_lt. Qed.

Lemma purged_size m now : (size (cm_recent (purgeExpired m now)) <= size (cm_recent m))%nat.
Proof using Type. apply map_size_filter. Qed.

Lemma purge_inv ttl limit s now : ct_last s <= now -> correlation_inv ttl limit s ->
  correlation_inv ttl limit {| ct_manager := purgeExpired (ct_manager s) now; ct_live := ct_live s; ct_released := ct_released s; ct_last := now |}.
Proof using Type.
  intros Hnow [Ho Hd Ha Hv Hs Hp Hf Hl]. split; cbn [ct_manager ct_live ct_released ct_last]; try done.
  - pose proof (purged_size (ct_manager s) now). lia.
  - intros id [e [He _]%purged_lookup]. apply Hp. by exists e.
  - intros id e [He _]%purged_lookup. by apply Hf.
  - intros id t Hin. destruct (Hl id t Hin) as [Ht Hr]. split; [lia|]. intros Hlt. destruct Hr as [(e & He & Hle)|Hc]; [lia| |by right].
    left. exists e. split; [|done]. apply purged_lookup. split; [done|lia].
Qed.

(** ** Reserving *)
Lemma id_used_false m id : id_used m id = false <-> id ∉ cm_active m /\ cm_recent m !! id = None.
Proof using Type. unfold id_used. rewrite orb_false_iff, !bool_decide_eq_false. by rewrite <- eq_None_not_Some. Qed.

Lemma generate_id_spec tries : forall m (g : G) m' g' r, generate_id tries m g = (m', g', r) ->
  match r with Some id => validRequestID id = true /\ id_used m id = false /\ m' = activate m id | None => m' = m end.
Proof using Type.
  induction tries as [|tries IH]; intros m g m' g' r; cbn [generate_id]; [by intros [= <- _ <-]|]. destruct (gen_RequestID g) as [g1 [id|]]; [|by intros [= <- _ <-]].
  destruct (validRequestID id && negb (id_used m id)) eqn:E; [|apply IH]. intros [= <- _ <-]. by apply andb_prop in E as [? ?%negb_true_iff].
Qed.

Lemma reserve_id_spec m (g : G) candidate now m' g' r : reserve_id m g candidate now = (m', g', r) ->
  let purged := purgeExpired m now in
  (match r with Some id => validRequestID id = true /\ id_used purged id = false /\ m' = activate purged id | None => m' = purged end) /\
  (validRequestID candidate = true -> id_used purged candidate = false -> r = Some candidate).
Proof using Type.
  unfold reserve_id. cbv zeta. destruct (validRequestID candidate && negb (id_used _ candidate)) eqn:E.
  - intros [= <- _ <-]. apply andb_prop in E as [? ?%negb_true_iff]. done.
  - intros Hg. split; [by apply generate_id_spec in Hg|]. intros Hv Hu. by rewrite Hv, Hu in E.
Qed.

Lemma reserve_id_inv ttl limit s (g : G) candidate now m g' id : ct_last s <= now -> correlation_inv ttl limit s -> reserve_id (ct_manager s) g candidate now = (m, g', Some id) ->
  correlation_inv ttl limit {| ct_manager := m; ct_live := id :: ct_live s; ct_released := ct_released s; ct_last := now |}.
Proof using Type.
  intros Hnow Hinv Hr. apply reserve_id_spec in Hr as [(Hvid & Hu & ->) _]. apply (purge_inv _ _ _ now Hnow) in Hinv as [Ho Hd Ha Hv Hs Hp Hf Hl].
  cbn [ct_manager ct_live ct_released ct_last] in *. apply id_used_false in Hu as [Hna Hnr]. rewrite Ha in Hna. assert (id ∉ ct_live s) as Hnl by (by rewrite elem_of_list_to_set in Hna).
  split; cbn [ct_manager ct_live ct_released ct_last activate set_ids cm_recentTTL cm_maxRecent cm_active cm_recent]; try done.
  - by apply NoDup_cons.
  - rewrite Ha. done.
  - by constructor.
  - intros id' Hi. destruct (Hp id' Hi) as [Hi1 Hi2]. split; [|done]. rewrite not_elem_of_cons. split; [|done]. intros ->. unfold purgeExpired in Hnr. destruct Hi as [e Hi]. cbn in *. congruence.
Qed.

(** ** Eviction *)
Lemma older_id_fold l : forall choice, choice.1 <> ""%string -> Forall (fun kv : string * Time => kv.1 <> ""%string) l ->
  let r := foldl older_id choice l in r.1 <> ""%string /\ (r = choice \/ r ∈ l) /\ r.2 <= choice.2 /\ Forall (fun kv => r.2 <= kv.2) l.
Proof using Type.
  induction l as [|kv l IH]; intros choice Hc Hl; cbn [foldl]; [split_and!; [done|by left|lia|constructor]|]. apply Forall_cons in Hl as [Hkv Hl].
  destruct (IH (older_id choice kv)) as (H1 & H2 & H3 & H4); [|done|].
  { unfold older_id. by destruct (_ || _). }
  assert ((older_id choice kv = choice /\ choice.2 <= kv.2) \/ (older_id choice kv = kv /\ kv.2 <= choice.2)) as [[E Hle]|[E Hle]].
  { unfold older_id, time_before. rewrite (proj2 (String.eqb_neq _ _)) by done. cbn [orb]. destruct (kv.2 <? choice.2) eqn:E; [right; apply Z.ltb_lt in E|left; apply Z.ltb_ge in E]; (split; [done|lia]). }
  - rewrite E in *. split_and!; [done| |done|]. { destruct H2; [by left|right; by right]. } constructor; [exact (Z.le_trans _ _ _ H3 Hle)|done].
  - rewrite E in *. split_and!; [done| |exact (Z.le_trans _ _ _ H3 Hle)|]. { right. destruct H2 as [->|]; [left|by right]. } constructor; [exact H3|done].
Qed.

Lemma evicted m : cm_recent m <> ∅ -> (forall id, is_Some (cm_recent m !! id) -> validRequestID id = true) ->
  exists id e, cm_recent m !! id = Some e /\ evict_oldest_id range m = set_ids m (cm_active m) (delete id (cm_recent m)) /\ (forall id' e', cm_recent m !! id' = Some e' -> e <= e').
Proof using range_perm.
  intros Hne Hv. assert (Forall (fun kv : string * Time => kv.1 <> ""%string) (range (cm_recent m))) as Hl.
  { rewrite range_perm. apply Forall_forall. intros [id e] Hin%elem_of_map_to_list. cbn. intros ->. specialize (Hv ""%string ltac:(eauto)). discriminate Hv. }
  assert (forall id e, cm_recent m !! id = Some e <-> (id, e) ∈ range (cm_recent m)) as Hin by (intros; by rewrite range_perm, elem_of_map_to_list).
  unfold evict_oldest_id. destruct (range (cm_recent m)) as [|[id0 e0] l] eqn:El.
  { exfalso. apply Hne, map_empty. intros id. apply eq_None_not_Some. intros [e He%Hin]. by apply elem_of_nil in He. }
  apply Forall_cons in Hl as [Hid0 Hl]. cbn [foldl]. replace (older_id (""%string, 0) (id0, e0)) with (id0, e0) by done.
  destruct (older_id_fold l (id0, e0) Hid0 Hl) as (H1 & H2 & H3 & H4). destruct (foldl older_id (id0, e0) l) as [id e]. cbn [fst snd] in *.
  exists id, e. split; [|split].
  - apply Hin. destruct H2 as [->|]; [left|by right].
  - by rewrite (proj2 (String.eqb_neq _ _)).
  - intros id' e' He%Hin. apply elem_of_cons in He as [[= -> ->]|He]; [done|]. rewrite Forall_forall in H4. by apply (H4 (id', e')).
Qed.

(** ** Releasing *)
Lemma release_spec m id now : id ∈ cm_active m -> cm_recentTTL m <> 0 ->
  let recent := cm_recent (purgeExpired m now) in
  release_id range m id now = set_ids m (cm_active m ∖ {[id]})
    (<[id := now + cm_recentTTL m]> (if cm_maxRecent m <=? Z.of_nat (size recent) then cm_recent (evict_oldest_id range (purgeExpired m now)) else recent)).
Proof using Type.
  intros Hid Httl. unfold release_id. rewrite bool_decide_eq_true_2 by done. cbn [negb set_ids cm_recentTTL]. rewrite (proj2 (Z.eqb_neq _ _)) by done. unfold purgeExpired. cbn [set_ids cm_recent cm_active cm_maxRecent].
  destruct (_ <=? _); [|done]. unfold evict_oldest_id. cbn [set_ids cm_recent]. destruct (foldl _ _ _) as [o e]. by destruct (String.eqb o "").
Qed.

Lemma evicted_is_crowded ttl limit s now (id o : string) (e0 : Time) t : correlation_inv ttl limit s -> ct_last s <= now -> id ∈ ct_live s -> limit <= Z.of_nat (size (cm_recent (ct_manager s))) ->
  cm_recent (ct_manager s) !! o = Some e0 -> (forall k e, cm_recent (ct_manager s) !! k = Some e -> e0 <= e) -> t + ttl <= e0 -> t <= now ->
  crowded ((id, now) :: ct_released s) limit o t.
Proof using Type.
  intros [Ho Hd Ha Hv Hs Hp Hf Hl] Hnow Hid Hfull Hlo Hmin Ht Htn. exists (id :: (map_to_list (delete o (cm_recent (ct_manager s)))).*1).
  assert (cm_recent (ct_manager s) !! id = None) as Hni by (apply eq_None_not_Some; intros Hi; by destruct (Hp id Hi)).
  split_and!.
  - apply NoDup_cons. split; [|apply NoDup_fst_map_to_list]. intros Hin. apply list_elem_of_fmap in Hin as ([k e] & -> & Hin%elem_of_map_to_list). cbn [fst] in *.
    apply lookup_delete_Some in Hin as [_ Hin]. by rewrite Hni in Hin.
  - rewrite not_elem_of_cons. split; [intros ->; by rewrite Hlo in Hni|]. intros Hin. apply list_elem_of_fmap in Hin as ([k e] & -> & Hin%elem_of_map_to_list). cbn [fst] in *.
    by apply lookup_delete_Some in Hin as [? _].
  - cbn [length]. rewrite length_fmap, length_map_to_list, map_size_delete_Some by eauto. assert (size (cm_recent (ct_manager s)) <> 0%nat); [|lia].
    intros E%map_size_empty_inv. rewrite E in Hlo. done.
  - constructor; [exists now; split; [by left|done]|]. apply Forall_forall. intros k Hin. apply list_elem_of_fmap in Hin as ([k' e] & -> & Hin%elem_of_map_to_list). cbn [fst] in *.
    apply lookup_delete_Some in Hin as [_ Hin]. destruct (Hf _ _ Hin) as (t' & ? & ->). exists t'. split; [by right|]. specialize (Hmin _ _ Hin). lia.
Qed.

Lemma release_inv ttl limit s before id after now : ct_last s <= now -> correlation_inv ttl limit s -> ct_live s = before ++ id :: after ->
  correlation_inv ttl limit {| ct_manager := release_id range (ct_manager s) id now; ct_live := before ++ after; ct_released := (id, now) :: ct_released s; ct_last := now |}.
Proof using range_perm.
  intros Hnow Hinv0 Hlive. assert (id ∈ ct_live s) as Hid by (rewrite Hlive; apply elem_of_app; right; left).
  assert (id ∈ cm_active (ct_manager s)) as Hact by (rewrite (ci_active _ _ _ Hinv0), elem_of_list_to_set; done).
  destruct (ci_options _ _ _ Hinv0) as (Ho1 & Ho2 & Ho3 & Ho4). rewrite release_spec by (done || lia). rewrite Ho1, Ho2.
  pose proof (purge_inv _ _ _ now Hnow Hinv0) as Hinv. set (m1 := purgeExpired (ct_manager s) now) in *.
  assert (exists recent, (if limit <=? Z.of_nat (size (cm_recent m1)) then cm_recent (evict_oldest_id range m1) else cm_recent m1) = recent /\
    recent ⊆ cm_recent m1 /\ Z.of_nat (size recent) < limit /\
    (forall k e t, cm_recent m1 !! k = Some e -> t + ttl <= e -> t <= now -> recent !! k = Some e \/ crowded ((id, now) :: ct_released s) limit k t)) as (recent & -> & Hsub & Hsize & Hkeep).
  { destruct (limit <=? _) eqn:E; [apply Z.leb_le in E|apply Z.leb_gt in E; exists (cm_recent m1); split_and!; eauto].
    destruct (evicted m1) as (o & e0 & Hlo & -> & Hmin).
    - intros E0. rewrite E0, map_size_empty in E. lia.
    - intros k Hk. by apply (ci_apart _ _ _ Hinv k Hk).
    - cbn [cm_recent set_ids]. exists (delete o (cm_recent m1)). split_and!; [done|apply delete_subseteq| |].
      + pose proof (ci_size _ _ _ Hinv) as Hz. cbn [ct_manager] in Hz. rewrite map_size_delete_Some by eauto.
        assert (size (cm_recent m1) <> 0%nat) by (intros Ez%map_size_empty_inv; rewrite Ez in Hlo; done). lia.
      + intros k e t Hk Hle Htn. destruct (decide (k = o)) as [->|Hne]; [right|left; by rewrite lookup_delete_ne]. rewrite Hlo in Hk. injection Hk as <-.
        apply (evicted_is_crowded ttl limit _ now id o e0 t Hinv); cbn [ct_last ct_live ct_manager ct_released]; try done; lia. }
  destruct Hinv as [Ho Hd Ha Hv Hs Hp Hf Hl]. cbn [ct_manager ct_live ct_released ct_last] in *. rewrite Hlive in Hd, Hv, Ha, Hp. apply NoDup_app in Hd as (Hd1 & Hd2 & [Hd3 Hd4]%NoDup_cons).
  assert (id ∉ before ++ after) as Hout by (rewrite elem_of_app; intros [Hi|Hi]; [apply (Hd2 id Hi); left|done]).
  split; cbn [ct_manager ct_live ct_released ct_last set_ids cm_recentTTL cm_maxRecent cm_active cm_recent].
  - done.
  - apply NoDup_app. split_and!; [done| |done]. intros x Hx Hx'. apply (Hd2 x Hx). by right.
  - change (cm_active (ct_manager s)) with (cm_active m1). rewrite Ha. apply set_eq. intros x. rewrite elem_of_difference, !elem_of_list_to_set, elem_of_singleton, !elem_of_app, elem_of_cons.
    rewrite elem_of_app in Hout. split; [naive_solver|]. intros Hx. split; [tauto|]. intros ->. tauto.
  - rewrite !Forall_app, Forall_cons in Hv. apply Forall_app. tauto.
  - rewrite map_size_insert. case_match; cbn; lia.
  - intros k [e Hk]. apply lookup_insert_Some in Hk as [[<- _]|[Hne Hk]].
    + split; [done|]. rewrite Forall_app, Forall_cons in Hv. tauto.
    + destruct (Hp k) as [Hk1 Hk2]; [exists e; by eapply lookup_weaken|]. split; [|done]. rewrite elem_of_app in Hk1 |- *. rewrite elem_of_cons in Hk1. tauto.
  - intros k e Hk. apply lookup_insert_Some in Hk as [[<- <-]|[Hne Hk]]; [exists now; split; [by left|done]|].
    destruct (Hf k e) as (t & ? & ->); [by eapply lookup_weaken|]. exists t. split; [by right|done].
  - intros k t Hin. apply elem_of_cons in Hin as [[= -> ->]|Hin]; [split; [done|]; intros _; left; exists (now + ttl); by rewrite lookup_insert_eq|].
    destruct (Hl k t Hin) as [Ht Hr]. split; [done|]. intros Hlt. destruct (decide (k = id)) as [->|Hne].
    { left. exists (now + ttl). rewrite lookup_insert_eq. split; [done|lia]. }
    destruct (Hr Hlt) as [(e & He & Hle)|Hc]; [|right; eapply crowded_grows; [exact Hc|by right]].
    destruct (Hkeep k e t He Hle Ht) as [Hk|Hc]; [left; exists e; by rewrite lookup_insert_ne|by right].
Qed.

Lemma step_inv ttl limit s s' : correlation_step s s' -> correlation_inv ttl limit s -> correlation_inv ttl limit s'.
Proof using range_perm.
  intros [s0 g candidate now m g' id Hn Hr|s0 g candidate now m g' Hn Hr|s0 before id after now Hn Hl] Hinv.
  - by eapply reserve_id_inv.
  - apply reserve_id_spec in Hr as [-> _]. by apply purge_inv.
  - by apply release_inv.
Qed.

Lemma new_manager_inv ttl limit errorType flag m now : NewCorrelationManager ttl limit errorType flag = Some m ->
  correlation_inv (cm_recentTTL m) (cm_maxRecent m) (correlation_start m now).
Proof using Type.
  unfold NewCorrelationManager. destruct (_ || _) eqn:E; [done|]. apply orb_false_elim in E as [E1%Z.ltb_ge E2%Z.ltb_ge]. destruct (negb _); [done|].
  destruct (NewError _); [|done]. intros [= <-]. split; cbn [correlation_start ct_manager ct_live ct_released ct_last cm_recentTTL cm_maxRecent cm_active cm_recent].
  - split_and!; [done..| |done]. unfold defaultRecentTTL, minute in *. destruct (ttl =? 0) eqn:Et; [lia|]. apply Z.eqb_neq in Et. lia.
  - apply NoDup_nil_2.
  - done.
  - constructor.
  - rewrite map_size_empty. lia.
  - intros id [x Hx]. by rewrite lookup_empty in Hx.
  - intros id x Hx. by rewrite lookup_empty in Hx.
  - by intros id t ?%elem_of_nil.
Qed.

(** C28: Requests are told apart. In every interleaving of requests that begin and end, with
    any generator and any client-chosen identities: live requests have distinct, valid
    identities; the manager remembers no more released ones than its limit; a request gets the
    identity its client chose if that is valid and not in use, and whatever it gets is not
    live, and was not released within the reservation time unless the manager's limit of
    other identities was released since. *)
Theorem live_requests_are_told_apart ttl limit errorType flag m0 now0 s :
  NewCorrelationManager ttl limit errorType flag = Some m0 -> rtc correlation_step (correlation_start m0 now0) s ->
  NoDup (ct_live s) /\ Forall (fun id => validRequestID id = true) (ct_live s) /\ Z.of_nat (size (cm_recent (ct_manager s))) <= cm_maxRecent m0 /\
  (forall (g : G) candidate now m g' id, ct_last s <= now -> reserve_id (ct_manager s) g candidate now = (m, g', Some id) ->
    id ∉ ct_live s /\ validRequestID id = true /\
    (validRequestID candidate = true -> candidate ∉ ct_live s -> (forall t, (candidate, t) ∉ ct_released s) -> id = candidate) /\
    (forall t, (id, t) ∈ ct_released s -> now < t + cm_recentTTL m0 -> crowded (ct_released s) (cm_maxRecent m0) id t)).
Proof using range_perm.
  intros Hm Hs. apply (new_manager_inv _ _ _ _ _ now0) in Hm as Hinv. assert (correlation_inv (cm_recentTTL m0) (cm_maxRecent m0) s) as H1.
  { clear Hm. induction Hs as [|a b c Hab _ IH]; [done|]. apply IH. by eapply step_inv. }
  clear Hinv. split_and!; [apply H1..|]. intros g candidate now m g' id Hn Hr. pose proof (purge_inv _ _ _ now Hn H1) as H2.
  pose proof (ci_active _ _ _ H2) as Hact. cbn [ct_manager ct_live] in Hact.
  apply reserve_id_spec in Hr as [(Hv & Hu & _) Hc]. apply id_used_false in Hu as [Ha Hl]. rewrite Hact, elem_of_list_to_set in Ha.
  split_and!; [done|done| |].
  - intros Hvc Hnl Hnr. assert (Some id = Some candidate) as [= ->]; [|done]. apply Hc; [done|]. apply id_used_false. rewrite Hact, elem_of_list_to_set. split; [done|].
    apply eq_None_not_Some. intros [e He]. destruct (ci_from_log _ _ _ H2 _ _ He) as (t & Ht & _). by apply (Hnr t).
  - intros t Ht Hlt. destruct (ci_log _ _ _ H2 _ _ Ht) as [_ Hd]. destruct (Hd Hlt) as [(e & He & _)|Hcr]; [|done]. pose proof (eq_trans (eq_sym Hl) He) as X. discriminate X.
Qed.
End Histories.

(** ** Printable text and its ends *)
Definition printable : char_class := fun a => (32 <=? byte_of a) && (byte_of a <=? 126).
Definition printable_byte (b : Z) : Prop := 32 <= b <= 126.

Lemma printable_bytes s : all_chars printable s = true -> Forall printable_byte (bytes_of s).
Proof. induction s as [|a s IH]; cbn [all_chars bytes_of]; [constructor|]. intros [[?%Z.leb_le ?%Z.leb_le]%andb_prop Hs]%andb_prop. constructor; [done|auto]. Qed.

Lemma printable_space b bs : Forall printable_byte (b :: bs) -> space_size (b :: bs) = if b =? 32 then 1%nat else 0%nat.
Proof.
  intros [Hb _]%Forall_cons. unfold printable_byte in Hb. unfold space_size, within. destruct (b =? 32) eqn:E; [by rewrite orb_true_r|]. apply Z.eqb_neq in E.
  destruct bs as [|b1 [|b2 bs]]; repeat (case_match; try done); lia.
Qed.

Lemma solid_end l x : Forall printable_byte (l ++ [x]) -> x <> 32 -> all_space (l ++ [x]) = false /\ trim_right (l ++ [x]) = l ++ [x].
Proof.
  intros Hl Hx. assert (forall l, Forall printable_byte (l ++ [x]) -> all_space (l ++ [x]) = false) as Hs.
  { clear l Hl. induction l as [|b l IH]; intros Hl; unfold all_space; cbn [app trim_left].
    - rewrite printable_space by done. by rewrite (proj2 (Z.eqb_neq _ _)).
    - change (b :: l ++ [x]) with ((b :: l) ++ [x]) in Hl. cbn [app] in Hl. rewrite printable_space by done. destruct (b =? 32); [|done]. apply Forall_cons in Hl as [_ Hl]. by apply IH in Hl. }
  split; [by apply Hs|]. induction l as [|b l IH]; cbn [app trim_right].
  - change [x] with ([] ++ [x]). by rewrite (Hs [] Hl).
  - change (b :: l ++ [x]) with ((b :: l) ++ [x]). rewrite (Hs (b :: l) Hl). cbn [app] in *. apply Forall_cons in Hl as [_ Hl]. by rewrite (IH Hl).
Qed.

(** Printable text that neither begins nor ends with a space is its own trimmed form. *)
Lemma TrimSpace_ends s l x : all_chars printable s = true -> bytes_of s = l ++ [x] -> x <> 32 -> head (bytes_of s) <> Some 32 -> TrimSpace s = s.
Proof.
  intros Hp%printable_bytes Hb Hx Hh. unfold TrimSpace. rewrite Hb in *. assert (trim_left 0 (l ++ [x]) = l ++ [x]) as ->.
  { destruct l as [|b l]; cbn [app head trim_left] in *; rewrite printable_space by done; (rewrite (proj2 (Z.eqb_neq _ _)); [done|congruence]). }
  rewrite (proj2 (solid_end l x Hp Hx)), <- Hb. apply string_of_bytes_of.
Qed.

Lemma trim_left_length bs : forall n, (length (trim_left n bs) <= length bs)%nat.
Proof. induction bs as [|b bs IH]; intros n; cbn [trim_left]; [done|]. destruct n as [|k]; [|cbn [length]; specialize (IH k); lia]. destruct (space_size _) as [|k]; [done|]. cbn [length]. specialize (IH k). lia. Qed.
Lemma trim_right_length bs : (length (trim_right bs) <= length bs)%nat.
Proof. induction bs as [|b bs IH]; cbn [trim_right]; [done|]. destruct (all_space _); cbn [length]; lia. Qed.

Lemma bytes_of_length s : length (bytes_of s) = String.length s.
Proof. induction s; cbn; congruence. Qed.

Lemma bytes_of_app s t : bytes_of (s +:+ t)%string = bytes_of s ++ bytes_of t.
Proof. induction s as [|a s IH]; [done|]. change (String a s +:+ t)%string with (String a (s +:+ t)%string). cbn [bytes_of app]. by rewrite IH. Qed.

Lemma TrimSpace_length s : (String.length (TrimSpace s) <= String.length s)%nat.
Proof. unfold TrimSpace. rewrite string_of_length, <- bytes_of_length. etrans; [apply trim_right_length|apply trim_left_length]. Qed.

(** ** Splitting and joining *)
Definition no_sep (sep : ascii) : char_class := fun c => negb (Ascii.eqb c sep).

Lemma split_on_app sep a b : all_chars (no_sep sep) a = true -> split_on sep (a +:+ String sep b)%string = a :: split_on sep b.
Proof.
  induction a as [|c a IH]; simpl; [by rewrite Ascii.eqb_refl|]. intros [Hc Ha]%andb_prop. rewrite (IH Ha). unfold no_sep in Hc.
  by destruct (Ascii.eqb c sep).
Qed.
Lemma split_on_none sep a : all_chars (no_sep sep) a = true -> split_on sep a = [a].
Proof. induction a as [|c a IH]; cbn [split_on all_chars]; [done|]. intros [Hc Ha]%andb_prop. rewrite (IH Ha). unfold no_sep in Hc. by destruct (Ascii.eqb c sep). Qed.

Lemma split_on_concat l : l <> [] -> Forall (fun s => all_chars (no_sep ",") s = true) l -> split_on "," (String.concat "," l) = l.
Proof.
  intros Hne Hl. induction Hl as [|s l Hs Hl IH]; [done|]. destruct l as [|t l]; [cbn; by apply split_on_none|].
  change (String.concat "," (s :: t :: l)) with (s +:+ String "," (String.concat "," (t :: l)))%string. rewrite split_on_app by done. by rewrite IH.
Qed.

(** The length of a text is that of its parts and the separators between them. *)
Fixpoint joined_length (l : list string) : nat := match l with [] => 0 | [s] => String.length s | s :: l => String.length s + 1 + joined_length l end.
Lemma concat_joined l : String.length (String.concat "," l) = joined_length l.
Proof.
  induction l as [|s [|t l] IH]; [done|done|]. change (String.concat "," (s :: t :: l)) with (s +:+ "," +:+ String.concat "," (t :: l))%string.
  rewrite !string_app_length, IH. cbn [String.length joined_length]. lia.
Qed.
Lemma split_joined sep s : joined_length (split_on sep s) = String.length s /\ split_on sep s <> [].
Proof.
  induction s as [|c s [IH Hne]]; [done|]. cbn [split_on String.length]. destruct (Ascii.eqb c sep).
  - split; [|done]. destruct (split_on sep s) as [|x l] eqn:E; [done|]. cbn [joined_length String.length] in *. lia.
  - destruct (split_on sep s) as [|x l] eqn:E; [done|]. split; [|done]. destruct l; cbn [joined_length String.length] in *; lia.
Qed.
Lemma joined_le l l' : Forall2 (fun s s' => (String.length s <= String.length s')%nat) l l' -> (joined_length l <= joined_length l')%nat.
Proof. induction 1 as [|s s' l l' Hs Hl IH]; [done|]. destruct Hl; cbn [joined_length] in *; lia. Qed.

(** ** Members of a trace state *)
Definition key_char : char_class := or_class state_char (one_of "@").

Lemma cut_at_none sep s b a : cut_at sep s = (b, a, false) -> b = s.
Proof.
  revert b. induction s as [|c s IH]; intros b; cbn [cut_at]; [by intros [= <-]|]. destruct (ascii_dec c sep); [done|]. destruct (cut_at sep s) as [[b' a'] f]. intros [= <- <- ->].
  by rewrite (IH b').
Qed.

Lemma head_tail_chars (h t c : char_class) lo hi s : (forall a, h a = true -> c a = true) -> (forall a, t a = true -> c a = true) -> match_head_tail h t lo hi s = true ->
  all_chars c s = true /\ exists a s', s = String a s' /\ h a = true.
Proof.
  intros Hh Ht. destruct s as [|a s]; [done|]. cbn [match_head_tail]. intros [[[Ha Hs]%andb_prop _]%andb_prop _]%andb_prop.
  split; [cbn [all_chars]; by rewrite (Hh a Ha), (all_chars_impl t c s Ht Hs)|]. by exists a, s.
Qed.

Lemma state_key_chars k : stateKeyPattern k = true -> all_chars key_char k = true /\ exists a k', k = String a k' /\ state_head a = true.
Proof.
  assert (forall a, state_head a = true -> key_char a = true) as Hh by (intros a Ha; unfold key_char, state_char, or_class at 1 2; by rewrite Ha).
  assert (forall a, state_char a = true -> key_char a = true) as Ht by (intros a Ha; unfold key_char, or_class; by rewrite Ha).
  unfold stateKeyPattern. destruct (cut_at "@" k) as [[n s] found] eqn:E. intros [Hn Hs]%andb_prop. apply (head_tail_chars _ _ key_char) in Hn as (Hn & a & n' & -> & Ha); [|done..].
  destruct found.
  - apply cut_at_sound in E as ->. cbn [negb orb] in Hs. apply (head_tail_chars _ _ key_char) in Hs as [Hs _]; [|done..]. split; [|by exists a, (n' ++ String "@" s)%string].
    rewrite all_chars_app, Hn. cbn [all_chars andb]. by rewrite Hs.
  - apply cut_at_none in E as <-. split; [done|]. by exists a, n'.
Qed.

Lemma last_byte v c : String.get (String.length v - 1) v = Some c -> exists l, bytes_of v = l ++ [byte_of c].
Proof.
  induction v as [|a v IH]; [done|]. cbn [String.length bytes_of]. replace (S (String.length v) - 1)%nat with (String.length v) by lia. destruct v as [|b v].
  - cbn. intros [= ->]. by exists [].
  - cbn [String.length String.get] in *. replace (S (String.length v) - 1)%nat with (String.length v) in IH by lia. intros (l & Hl)%IH. exists (byte_of a :: l). by rewrite Hl.
Qed.

Definition value_char : char_class := fun a => (32 <=? byte_of a) && (byte_of a <=? 126) && negb (Ascii.eqb a ",") && negb (Ascii.eqb a "=").

Lemma state_value_chars v : validStateValue v = true -> all_chars value_char v = true /\ exists l x, bytes_of v = l ++ [x] /\ x <> 32.
Proof.
  unfold validStateValue. destruct (String.get _ v) as [c|] eqn:E; [|done]. intros [Hc Hv]%andb_prop. split; [done|]. destruct (last_byte v c E) as (l & Hl). exists l, (byte_of c). split; [done|].
  intros Ex. apply negb_true_iff, Ascii.eqb_neq in Hc. apply Hc. rewrite <- (ascii_N_embedding c). unfold byte_of in Ex. replace (N_of_ascii c) with 32%N by lia. done.
Qed.

Definition member_text (k v : string) : string := (k +:+ "=" +:+ v)%string.

Lemma member_chars k v : stateKeyPattern k = true -> validStateValue v = true ->
  all_chars (no_sep ",") (member_text k v) = true /\ all_chars printable (member_text k v) = true /\
  (exists l x, bytes_of (member_text k v) = l ++ [x] /\ x <> 32) /\ head (bytes_of (member_text k v)) <> Some 32 /\ cut_at "=" (member_text k v) = (k, v, true).
Proof.
  intros (Hk & a & k' & E & Ha)%state_key_chars (Hv & l & x & Hl & Hx)%state_value_chars. unfold member_text.
  assert (forall c : char_class, (forall b, key_char b = true -> c b = true) -> (forall b, value_char b = true -> c b = true) -> c "="%char = true -> all_chars c (k +:+ "=" +:+ v)%string = true) as Hall.
  { intros c H1 H2 H3. rewrite all_chars_app, (all_chars_impl key_char c k H1 Hk). change ("=" +:+ v)%string with (String "=" v). cbn [all_chars andb]. rewrite H3. by apply (all_chars_impl value_char). }
  split_and!.
  - apply Hall; [|intros b Hb; unfold value_char in Hb; unfold no_sep; by apply andb_prop in Hb as [[_ ?]%andb_prop _]|done]. intros b. by destruct b as [[] [] [] [] [] [] [] []].
  - apply Hall; [|intros b Hb; unfold value_char in Hb; by apply andb_prop in Hb as [[? _]%andb_prop _]|done]. intros b. by destruct b as [[] [] [] [] [] [] [] []].
  - exists (bytes_of k ++ [61] ++ l), x. split; [|done]. rewrite !bytes_of_app, Hl. by rewrite <- !app_assoc.
  - rewrite E. cbn [String.append bytes_of head]. intros [= Eb]. revert Ha Eb. clear. by destruct a as [[] [] [] [] [] [] [] []].
  - apply cut_at_app. unfold contains_char. apply negb_false_iff, (all_chars_impl key_char); [|done]. intros b. by destruct b as [[] [] [] [] [] [] [] []].
Qed.

Lemma state_members_spec members : forall seen canonical, state_members members seen = Some canonical ->
  state_members canonical seen = Some canonical /\ length canonical = length members /\
  Forall (fun m => exists k v, m = member_text k v /\ stateKeyPattern k = true /\ validStateValue v = true) canonical /\
  Forall2 (fun s s' => (String.length s <= String.length s')%nat) canonical members.
Proof.
  induction members as [|m members IH]; intros seen canonical; cbn [state_members]; [intros [= <-]; split_and!; [done|done|constructor|constructor]|].
  destruct (cut_at "=" (TrimSpace m)) as [[k v] found] eqn:Ec. destruct (_ || _ || _ || _) eqn:E; [done|]. intros (rest & Hr & [= <-])%bind_Some.
  apply orb_false_elim in E as [[[Hf%negb_false_iff Hk%negb_false_iff]%orb_false_elim Hv%negb_false_iff]%orb_false_elim Hs].
  destruct (IH _ _ Hr) as (H1 & H2 & H3 & H4). subst found. apply cut_at_sound in Ec.
  destruct (member_chars k v Hk Hv) as (_ & Hp & (l & x & Hl & Hx) & Hh & Hcut). split_and!.
  - cbn [state_members]. change (k +:+ "=" +:+ v)%string with (member_text k v). rewrite (TrimSpace_ends _ l x Hp Hl Hx Hh), Hcut. cbn [negb orb]. rewrite Hk, Hv, Hs. cbn [negb orb].
    by rewrite H1.
  - cbn [length]. by rewrite H2.
  - constructor; [by exists k, v|done].
  - constructor; [|done]. etrans; [|apply (TrimSpace_length m)]. by rewrite Ec.
Qed.

Definition good_member (m : string) : Prop := exists k v, m = member_text k v /\ stateKeyPattern k = true /\ validStateValue v = true.

Lemma concat_cons m m' l : String.concat "," (m :: m' :: l) = (m +:+ String "," (String.concat "," (m' :: l)))%string.
Proof. reflexivity. Qed.

Lemma concat_ends l : l <> [] -> Forall good_member l ->
  all_chars printable (String.concat "," l) = true /\ (exists bs x, bytes_of (String.concat "," l) = bs ++ [x] /\ x <> 32) /\ head (bytes_of (String.concat "," l)) <> Some 32.
Proof.
  intros Hne Hl. induction Hl as [|m l (k & v & -> & Hk & Hv) Hl IH]; [done|]. destruct (member_chars k v Hk Hv) as (_ & Hp & (bs & x & Hb & Hx) & Hh & _).
  destruct l as [|m' l]; [cbn [String.concat]; split_and!; [done|by exists bs, x|done]|]. destruct IH as (Hp' & (bs' & x' & Hb' & Hx') & _); [done|].
  rewrite concat_cons. split_and!.
  - rewrite all_chars_app, Hp. change (all_chars printable (String "," ?s)) with (printable ","%char && all_chars printable s). by rewrite Hp'.
  - exists (bytes_of (member_text k v) ++ byte_of "," :: bs'), x'. split; [|done]. rewrite bytes_of_app. cbn [bytes_of]. rewrite Hb'. by rewrite <- app_assoc.
  - rewrite bytes_of_app. destruct (bytes_of (member_text k v)) as [|b bs0]; [by destruct bs|done].
Qed.

(** What was accepted is its own canonical form. *)
Lemma tracestate_canonical values : parseTracestate values <> ""%string -> parseTracestate [parseTracestate values] = parseTracestate values.
Proof.
  intros Hne. destruct values as [|value [|]]; [done| |done]. revert Hne. unfold parseTracestate at 1 3 4. cbv zeta. destruct (String.eqb (TrimSpace value) "" || _) eqn:E1; [done|].
  destruct (Nat.leb (length (split_on "," (TrimSpace value))) maxTracestateItems) eqn:E2; [|done]. cbn [negb]. destruct (state_members _ _) as [canonical|] eqn:E3; [|done]. intros Hne.
  apply orb_false_elim in E1 as [_ E1%negb_false_iff%Nat.leb_le]. destruct (state_members_spec _ _ _ E3) as (H1 & H2 & H3 & H4). destruct (split_joined "," (TrimSpace value)) as [Hj Hn].
  assert (canonical <> []) as Hc by (intros ->; destruct (split_on "," (TrimSpace value)); [done|discriminate H2]). destruct (concat_ends canonical Hc H3) as (Hp & (bs & x & Hb & Hx) & Hh).
  unfold parseTracestate. cbv zeta. rewrite (TrimSpace_ends _ bs x Hp Hb Hx Hh). rewrite (proj2 (String.eqb_neq _ _)) by done.
  assert ((String.length (String.concat "," canonical) <= maxTracestateLength)%nat) as Hlen by (rewrite concat_joined; apply joined_le in H4; lia).
  apply Nat.leb_le in Hlen. rewrite Hlen. cbn [negb orb]. rewrite split_on_concat; [|done|].
  - rewrite H2, E2. cbn [negb]. by rewrite H1.
  - eapply Forall_impl; [exact H3|]. cbn. intros m (k & v & -> & Hk & Hv). by apply member_chars.
Qed.

(** ** Trace parents *)
Lemma hex_text_chars n s : hex_text n s = true -> all_chars hex s = true /\ String.length s = n.
Proof.
  unfold hex_text. revert s. induction n as [|n IH]; intros [|a s]; cbn [replicate match_classes all_chars String.length]; try done.
  intros [Ha Hs]%andb_prop. destruct (IH s Hs) as [H1 H2]. by rewrite Ha, H1, H2.
Qed.

Lemma hex_no_dash s : all_chars hex s = true -> all_chars (no_sep "-") s = true.
Proof. apply all_chars_impl. intros a. by destruct a as [[] [] [] [] [] [] [] []]. Qed.

Lemma traceparent_roundtrip traceID spanID flags : validTraceID traceID = true -> validSpanID spanID = true -> flagsPattern flags = true ->
  parseTraceparent [formatTraceparent traceID spanID flags] = Some (traceID, spanID, flags).
Proof.
  intros Ht Hs Hf. pose proof Ht as [H1 _]%andb_prop. pose proof Hs as [H2 _]%andb_prop. apply hex_text_chars in H1 as [H1 _], H2 as [H2 _]. pose proof (proj1 (hex_text_chars _ _ Hf)) as H3.
  assert (forall c : char_class, c "0"%char = true -> c "-"%char = true -> (forall a, hex a = true -> c a = true) -> all_chars c (formatTraceparent traceID spanID flags) = true) as Hall.
  { intros c Hz Hd Hh. unfold formatTraceparent. rewrite !all_chars_app, (all_chars_impl hex c traceID Hh H1), (all_chars_impl hex c spanID Hh H2), (all_chars_impl hex c flags Hh H3). cbn [all_chars]. by rewrite Hz, Hd. }
  unfold parseTraceparent. rewrite TrimSpace_plain by (apply Hall; try done; intros a; by destruct a as [[] [] [] [] [] [] [] []]).
  assert (split_on "-" (formatTraceparent traceID spanID flags) = ["00"; traceID; spanID; flags]%string) as ->; [|by rewrite Ht, Hs, Hf].
  unfold formatTraceparent. change ("00-" +:+ traceID +:+ "-" +:+ spanID +:+ "-" +:+ flags)%string with ("00" +:+ String "-" (traceID +:+ String "-" (spanID +:+ String "-" flags)))%string.
  by rewrite !split_on_app, split_on_none by (done || by apply hex_no_dash).
Qed.

(** ** Fields *)
Record fields_ok (f : CorrelationFields) : Prop := {
  fo_request : validRequestID (cf_RequestID f) = true;
  fo_trace : validTraceID (cf_TraceID f) = true;
  fo_span : validSpanID (cf_SpanID f) = true;
  fo_flags : flagsPattern (cf_TraceFlags f) = true;
  fo_state : cf_TraceState f <> ""%string -> parseTracestate [cf_TraceState f] = cf_TraceState f }.

Section Fields.
Context (range : gmap string Time -> list (string * Time)) {G : Type} `{IDGenerator G}.

Lemma parsed_parent values traceID spanID flags : parseTraceparent values = Some (traceID, spanID, flags) ->
  validTraceID traceID = true /\ validSpanID spanID = true /\ flagsPattern flags = true.
Proof using Type.
  unfold parseTraceparent. destruct values as [|value [|]]; [done| |done]. destruct (split_on _ _) as [|a [|b [|c [|d [|]]]]]; try done.
  destruct (_ && _ && _ && _) eqn:E; [|done]. intros [= <- <- <-]. by apply andb_prop in E as [[[_ ?]%andb_prop ?]%andb_prop ?].
Qed.

Lemma identify_ok flag (g : G) h id g' f : validRequestID id = true -> flagsPattern flag = true -> identify flag g h id = (g', Some f) ->
  fields_ok f /\ cf_RequestID f = id /\
  match parseTraceparent (header_Values h traceparentHeader) with
  | Some (traceID, parent, flags) => cf_TraceID f = traceID /\ cf_ParentSpanID f = parent /\ cf_TraceFlags f = flags /\ cf_TraceState f = parseTracestate (header_Values h tracestateHeader)
  | None => cf_ParentSpanID f = ""%string /\ cf_TraceState f = ""%string
  end.
Proof using Type.
  intros Hid Hflag. unfold identify. destruct (parseTraceparent _) as [[[traceID parent] flags]|] eqn:Ep.
  - apply parsed_parent in Ep as (H1 & H2 & H3). destruct (gen_SpanID g) as [g1 [spanID|]]; [|done]. destruct (validSpanID spanID) eqn:Es; [|done]. intros [= <- <-]. split_and!; try done.
    split; cbn; try done. apply tracestate_canonical.
  - destruct (gen_TraceID g) as [g1 [traceID|]]; [|done]. destruct (validTraceID traceID) eqn:Et; [|done]. destruct (gen_SpanID g1) as [g2 [spanID|]]; [|done].
    destruct (validSpanID spanID) eqn:Es; [|done]. intros [= <- <-]. by split.
Qed.

Lemma newFields_ok m (g : G) h now late m' g' f : flagsPattern (cm_sampleFlag m) = true -> newFields range m g h now late = (m', g', Some f) -> fields_ok f.
Proof using Type.
  intros Hflag. unfold newFields. destruct (reserve_id m g _ now) as [[m1 g1] [id|]] eqn:Er; [|done]. apply reserve_id_spec in Er as [(Hid & _ & ->) _].
  destruct (identify _ _ _ _) as [g2 [f'|]] eqn:Ei; [|done]. intros [= <- <- <-]. by eapply identify_ok.
Qed.

End Fields.

Section Propagation.
Context (range range' : gmap string Time -> list (string * Time)) {G G' : Type} `{IDGenerator G, IDGenerator G'}.

(** C33: Traces continue across services. The fields a service gives a request are valid, and
    when they are put on a request to another service, over whatever headers it had, that
    service continues the same trace with the same flags and state under a span of its own
    whose parent is the sender's span, and keeps the request's identity if it is not in use
    there. *)
Theorem traces_continue ttl limit errorType flag m0 m (g : G) h now late m1 g1 f h' m2 (g2 : G') now' late' m3 g3 f' :
  NewCorrelationManager ttl limit errorType flag = Some m0 -> cm_sampleFlag m = cm_sampleFlag m0 -> newFields range m g h now late = (m1, g1, Some f) ->
  flagsPattern (cm_sampleFlag m2) = true -> newFields range' m2 g2 (InjectHTTP f h') now' late' = (m3, g3, Some f') ->
  fields_ok f /\ fields_ok f' /\ cf_TraceID f' = cf_TraceID f /\ cf_ParentSpanID f' = cf_SpanID f /\ cf_TraceFlags f' = cf_TraceFlags f /\ cf_TraceState f' = cf_TraceState f /\
  (id_used (purgeExpired m2 now') (cf_RequestID f) = false -> cf_RequestID f' = cf_RequestID f).
Proof using Type.
  intros Hnew Hflag Hf Hflag2 Hf'.
  assert (flagsPattern (cm_sampleFlag m) = true) as Hfl.
  { rewrite Hflag. unfold NewCorrelationManager in Hnew. destruct (_ || _); [done|]. destruct (flagsPattern _) eqn:E in Hnew; [|done]. cbn [negb] in Hnew. destruct (NewError _); [|done]. by injection Hnew as <-. }
  pose proof (newFields_ok range _ _ _ _ _ _ _ _ Hfl Hf) as Hok. split; [done|]. unfold newFields in Hf'.
  destruct (reserve_id m2 g2 _ now') as [[m4 g4] [id|]] eqn:Er; [|done]. apply reserve_id_spec in Er as [(Hid & _ & ->) Hc].
  destruct (identify _ _ _ _) as [g5 [f2|]] eqn:Ei; [|done]. injection Hf' as _ _ ->. apply identify_ok in Ei as (Hok' & Heq & Hm); [|done..].
  destruct Hok as [R1 R2 R3 R4 R5]. split; [done|].
  assert (header_Values (InjectHTTP f h') traceparentHeader = [formatTraceparent (cf_TraceID f) (cf_SpanID f) (cf_TraceFlags f)]) as Hparent.
  { unfold header_Values, InjectHTTP, header_Set, Header. destruct (String.eqb (cf_TraceState f) ""); [rewrite lookup_delete_ne by done|rewrite lookup_insert_ne by done]; by rewrite lookup_insert_eq. }
  assert (header_Values (InjectHTTP f h') requestIDHeader = [cf_RequestID f]) as Hrequest.
  { unfold header_Values, InjectHTTP, header_Set, Header. destruct (String.eqb (cf_TraceState f) ""); [rewrite lookup_delete_ne by done|rewrite lookup_insert_ne by done]; rewrite lookup_insert_ne by done; by rewrite lookup_insert_eq. }
  rewrite Hparent, traceparent_roundtrip in Hm by done. destruct Hm as (-> & -> & -> & ->). split_and!; try done.
  - unfold header_Values, InjectHTTP, header_Set, Header. destruct (String.eqb (cf_TraceState f) "") eqn:E.
    + apply String.eqb_eq in E. rewrite E. by rewrite lookup_delete_eq.
    + rewrite lookup_insert_eq. apply R5. by apply String.eqb_neq.
  - intros Hu. rewrite Heq. rewrite Hrequest in Hc. cbn [clientRequestID] in Hc. rewrite TrimSpace_plain in Hc; [by assert (Some id = Some (cf_RequestID f)) as [= ->] by (by apply Hc)|].
    unfold validRequestID, requestIDPattern in R1. apply (head_tail_chars _ _ plain) in R1 as [R1 _]; [done|..]; intros a; by destruct a as [[] [] [] [] [] [] [] []].
Qed.
End Propagation.

(** ** Two services *)
Module CorrelationDemo.
Definition manager : CorrelationManager :=
  {| cm_recentTTL := defaultRecentTTL; cm_maxRecent := defaultMaxRecent; cm_errorType := "internal_error"; cm_sampleFlag := "00"; cm_active := ∅; cm_recent := ∅ |}.
Definition source : RandomGenerator := {| rg_source := replicate 100 7 |}.
Definition inbound : Header := <[requestIDHeader := ["client-0001"%string]]> (<[traceparentHeader := ["00-0af7651916cd43dd8448eb211c80319c-b7ad6b7169203331-01"%string]]>
  {[tracestateHeader := ["vendor@sys=a b , other=1"%string]]}).
Definition first_service := newFields map_to_list manager source inbound 5 5.
End CorrelationDemo.

Example first_fields : match CorrelationDemo.first_service with (_, _, Some f) => (cf_RequestID f, cf_SpanID f, cf_TraceState f) = ("client-0001", "0707070707070707", "vendor@sys=a b,other=1")%string | _ => False end.
Proof. vm_compute. reflexivity. Qed.

Lemma demo_services : exists m1 g1 f m3 g3 f', CorrelationDemo.first_service = (m1, g1, Some f) /\
  newFields map_to_list CorrelationDemo.manager CorrelationDemo.source (InjectHTTP f ∅) 6 6 = (m3, g3, Some f').
Proof.
  assert (match CorrelationDemo.first_service with
          | (_, _, Some f) => match newFields map_to_list CorrelationDemo.manager CorrelationDemo.source (InjectHTTP f ∅) 6 6 with (_, _, Some _) => True | _ => False end
          | _ => False
          end) as H by (vm_compute; exact I).
  destruct CorrelationDemo.first_service as [[m1 g1] [f|]]; [|done]. destruct (newFields _ _ _ _ _ _) as [[m3 g3] [f'|]] eqn:E; [|done]. by exists m1, g1, f, m3, g3, f'.
Qed.

Lemma traces_continue_witness : exists f f', fields_ok f' /\ cf_TraceID f' = cf_TraceID f /\ cf_ParentSpanID f' = cf_SpanID f /\ cf_TraceState f' = cf_TraceState f.
Proof.
  destruct demo_services as (m1 & g1 & f & m3 & g3 & f' & H1 & H2). exists f, f'.
  destruct (traces_continue map_to_list map_to_list 0 0 "" "" CorrelationDemo.manager CorrelationDemo.manager CorrelationDemo.source CorrelationDemo.inbound 5 5 m1 g1 f ∅
    CorrelationDemo.manager CorrelationDemo.source 6 6 m3 g3 f' eq_refl eq_refl H1 eq_refl H2) as (_ & Hok & Ht & Hp & _ & Hs & _).
  split; [exact Hok|]. split; [exact Ht|]. split; [exact Hp|exact Hs].
Defined.

(** A request that begins and ends, after which its identity is not given out again. *)
Definition demo_after : CorrelationState :=
  {| ct_manager := release_id map_to_list (activate (purgeExpired CorrelationDemo.manager 5) "client-0001") "client-0001" 6; ct_live := []; ct_released := [("client-0001"%string, 6)]; ct_last := 6 |}.

Lemma demo_reserved : reserve_id CorrelationDemo.manager CorrelationDemo.source "client-0001" 5 =
  (activate (purgeExpired CorrelationDemo.manager 5) "client-0001", CorrelationDemo.source, Some "client-0001"%string).
Proof. unfold reserve_id. cbv zeta. by replace (validRequestID "client-0001" && negb (id_used (purgeExpired CorrelationDemo.manager 5) "client-0001")) with true by (vm_compute; reflexivity). Qed.

Lemma demo_after_reached : rtc (correlation_step map_to_list (G := RandomGenerator)) (correlation_start CorrelationDemo.manager 1) demo_after.
Proof.
  eapply rtc_l; [eapply (step_reserve map_to_list (correlation_start CorrelationDemo.manager 1) CorrelationDemo.source "client-0001" 5); [cbn; lia|exact demo_reserved]|].
  apply rtc_once. apply (step_release map_to_list {| ct_manager := activate (purgeExpired CorrelationDemo.manager 5) "client-0001"; ct_live := ["client-0001"%string]; ct_released := []; ct_last := 5 |}
    [] "client-0001" [] 6); [cbn; lia|reflexivity].
Qed.

Lemma live_requests_are_told_apart_witness : NoDup (ct_live demo_after) /\ Z.of_nat (size (cm_recent (ct_manager demo_after))) <= 10000.
Proof.
  destruct (live_requests_are_told_apart map_to_list (fun m => reflexivity _) (G := RandomGenerator) 0 0 "" "" CorrelationDemo.manager 1 demo_after eq_refl demo_after_reached) as (H1 & _ & H2 & _).
  split; [exact H1|exact H2].
Defined.
