(* ===== verification/VirtualKey.v ===== *)
(** * Virtual keys: records, validation, digests and issuance

    internal/virtualkey/model.go, digest.go and the pure part of service.go. A virtual key
    is a public prefix and a secret of 32 random bytes; only a keyed digest of the secret is
    stored. HMAC-SHA-256 is a parameter; the random source is the list of bytes it will
    deliver. Where the code ranges over a map literal, the parameter [pick] names the
    offending field that the iteration meets first.

    Then: virtual keys: the PostgreSQL store. *)
From Stdlib Require Import ZArith Lia Bool Ascii String.
From stdpp Require Import base tactics option list strings gmap fin_maps sets.
From S2P Require Import Prelude Identifiers Unicode Encoding Postgres.
(** ** Data *)
Inductive KeyState := StateActive | StateRotating | StateRevoked | KeyStateOther (name : string).

#[export] Instance KeyState_eq_dec : EqDecision KeyState.
Proof. solve_decision. Defined.

Inductive EffectiveState := EffectiveStored (state : KeyState) | EffectiveExpired | EffectiveRotationGraceElapsed.

Record KeyLimits := { kl_RPM : option Z; kl_TPM : option Z; kl_Concurrency : option Z }.

#[export] Instance KeyLimits_eq_dec : EqDecision KeyLimits.
Proof. solve_decision. Defined.

Record Locator := { loc_TenantID : string; loc_ProjectID : string; loc_ID : string }.

Record KeyRecord := {
  vk_ID : string; vk_TenantID : string; vk_ProjectID : string; vk_Prefix : string;
  vk_SecretHash : list Z; vk_HashKeyVersion : string; vk_Status : KeyState;
  vk_ExpiresAt : option Time; vk_AllowedModels : option (list string); vk_Limits : option KeyLimits;
  vk_RotatedFromID : option string; vk_RotationGraceExpiresAt : option Time;
  vk_RevokedAt : option Time; vk_RevokedBy : option string; vk_Version : Z;
  vk_CreatedAt : Time; vk_CreatedBy : string; vk_UpdatedAt : Time; vk_UpdatedBy : string }.

#[export] Instance KeyRecord_eq_dec : EqDecision KeyRecord.
Proof. solve_decision. Defined.

(** The safe representation: the record without its digest, and the derived state. *)
Record KeyMetadata := {
  km_ID : string; km_TenantID : string; km_ProjectID : string; km_Prefix : string;
  km_Status : KeyState; km_EffectiveStatus : EffectiveState;
  km_ExpiresAt : option Time; km_AllowedModels : option (list string); km_Limits : option KeyLimits;
  km_RotatedFromID : option string; km_RotationGraceExpiresAt : option Time;
  km_RevokedAt : option Time; km_RevokedBy : option string; km_Version : Z;
  km_CreatedAt : Time; km_CreatedBy : string; km_UpdatedAt : Time; km_UpdatedBy : string }.

Record IssuedCredential := { ic_Metadata : KeyMetadata; ic_Credential : string }.

Record CreateCommand := {
  cc_TenantID : string; cc_ProjectID : string; cc_Mode : string; cc_ExpiresAt : option Time;
  cc_AllowedModels : option (list string); cc_Limits : option KeyLimits; cc_Actor : string }.
Record RotateCommand := { rc_Locator : Locator; rc_GracePeriod : Duration; rc_Actor : string }.
Record RevokeCommand := { vc_Locator : Locator; vc_Actor : string }.

Record Replacement := { rp_ID : string; rp_Prefix : string; rp_SecretHash : list Z; rp_HashKeyVersion : string }.

(** [KeyInvalid] is a ValidationError; [KeyStorage] a database error that is passed on. *)
Inductive key_error :=
| KeyInvalid (field : string) | KeyNotFound | KeyCollision | KeyAlreadyRotated | KeyInvalidState | KeyExpired
| KeyStorage (failure : db_failure) | KeyDecoding | KeyRandom | KeyMode.

(** ** Metadata *)
Definition elapsed (deadline : option Time) (now : Time) : bool :=
  match deadline with Some t => negb (time_before now t) | None => false end.

Definition effective_state (r : KeyRecord) (now : Time) : EffectiveState :=
  if negb (bool_decide (vk_Status r = StateRevoked)) && elapsed (vk_ExpiresAt r) now then EffectiveExpired
  else if bool_decide (vk_Status r = StateRotating) && elapsed (vk_RotationGraceExpiresAt r) now
       then EffectiveRotationGraceElapsed
  else EffectiveStored (vk_Status r).

Definition Record_Metadata (r : KeyRecord) (now : Time) : KeyMetadata :=
  {| km_ID := vk_ID r; km_TenantID := vk_TenantID r; km_ProjectID := vk_ProjectID r; km_Prefix := vk_Prefix r;
     km_Status := vk_Status r; km_EffectiveStatus := effective_state r now;
     km_ExpiresAt := vk_ExpiresAt r; km_AllowedModels := vk_AllowedModels r; km_Limits := vk_Limits r;
     km_RotatedFromID := vk_RotatedFromID r; km_RotationGraceExpiresAt := vk_RotationGraceExpiresAt r;
     km_RevokedAt := vk_RevokedAt r; km_RevokedBy := vk_RevokedBy r; km_Version := vk_Version r;
     km_CreatedAt := vk_CreatedAt r; km_CreatedBy := vk_CreatedBy r; km_UpdatedAt := vk_UpdatedAt r; km_UpdatedBy := vk_UpdatedBy r |}.

(** ** Patterns *)

(** [^[0-9a-f]{8}-[0-9a-f]{4}-[1-5][0-9a-f]{3}-[89ab][0-9a-f]{3}-[0-9a-f]{12}$] *)
Definition keyUUIDPattern : string -> bool :=
  match_classes
    (replicate 8 hex ++ [dash] ++ replicate 4 hex ++ [dash] ++ [between "1" "5"] ++ replicate 3 hex ++
     [dash] ++ [one_of "89ab"] ++ replicate 3 hex ++ [dash] ++ replicate 12 hex).
(** [^[A-Za-z0-9][A-Za-z0-9._:/-]{0,127}$] *)
Definition keyModelPattern : string -> bool := match_head_tail alnum (or_class alnum (one_of "._:/-")) 0 127.
(** [^[A-Za-z0-9][A-Za-z0-9._:-]{0,63}$] *)
Definition digestVersionPattern : string -> bool := match_head_tail alnum (or_class alnum (one_of "._:-")) 0 63.
(** [^agw_(live|test)_[a-z0-9]{8,32}$] *)
Definition credentialPrefixPattern (s : string) : bool :=
  let rest := String.substring 9 (String.length s - 9) s in
  (String.prefix "agw_live_" s || String.prefix "agw_test_" s) && all_chars (or_class lower digit) rest &&
  Nat.leb 8 (String.length rest) && Nat.leb (String.length rest) 32.

(** ** Validation *)
Section Validation.
Context (pick : list string -> string).

Definition validateLocator (l : Locator) : result unit key_error :=
  match filter (fun fv : string * string => keyUUIDPattern (ToLower fv.2) = false)
          [("tenant_id", loc_TenantID l); ("project_id", loc_ProjectID l); ("key_id", loc_ID l)]%string with
  | [] => Ok ()
  | bad => Err (KeyInvalid (pick bad.*1))
  end.

Definition validateKeyActor (actor : string) : result unit key_error :=
  if bool_decide (TrimSpace actor = actor) && Nat.leb 1 (String.length actor) && Nat.leb (String.length actor) 200
  then Ok () else Err (KeyInvalid "actor").

Fixpoint models_loop (seen models : list string) : bool :=
  match models with
  | [] => true
  | model :: rest =>
      bool_decide (TrimSpace model = model) && keyModelPattern model &&
      negb (bool_decide (ToLower model ∈ seen)) && models_loop (ToLower model :: seen) rest
  end.

Definition validateAllowedModels (models : option (list string)) : result unit key_error :=
  match models with
  | None => Ok ()
  | Some ms => if Nat.leb (length ms) 256 && models_loop [] ms then Ok () else Err (KeyInvalid "allowed_models")
  end.

Definition validateKeyLimits (limits : option KeyLimits) : result unit key_error :=
  match limits with
  | None => Ok ()
  | Some l =>
      match filter (fun fv : string * option Z => match fv.2 with Some v => v <=? 0 | None => false end = true)
              [("limits.rpm", kl_RPM l); ("limits.tpm", kl_TPM l); ("limits.concurrency", kl_Concurrency l)]%string with
      | [] => Ok ()
      | bad => Err (KeyInvalid (pick bad.*1))
      end
  end.

Definition minimumExpiryLead : Duration := second.
Definition minimumGrace : Duration := second.
Definition maximumGrace : Duration := 24 * hour.
Definition issuanceAttempts : nat := 3.

Definition validateCreate (c : CreateCommand) (now : Time) : result unit key_error :=
  let? _ := validateLocator {| loc_TenantID := cc_TenantID c; loc_ProjectID := cc_ProjectID c;
                               loc_ID := "00000000-0000-4000-8000-000000000000" |} in
  ensure bool_decide (cc_Mode c = "live"%string) || bool_decide (cc_Mode c = "test"%string) else KeyInvalid "mode" in
  let? _ := validateKeyActor (cc_Actor c) in
  ensure negb (match cc_ExpiresAt c with Some t => time_before t (time_add now minimumExpiryLead) | None => false end)
    else KeyInvalid "expires_at" in
  let? _ := validateAllowedModels (cc_AllowedModels c) in
  validateKeyLimits (cc_Limits c).
End Validation.

Definition normalizedLocator (l : Locator) : Locator :=
  {| loc_TenantID := ToLower (loc_TenantID l); loc_ProjectID := ToLower (loc_ProjectID l); loc_ID := ToLower (loc_ID l) |}.

Definition modeFromPrefix (prefix : string) : result string key_error :=
  if String.prefix "agw_live_" prefix then Ok "live"%string
  else if String.prefix "agw_test_" prefix then Ok "test"%string
  else Err KeyMode.

(** ** Digests and issuance *)
Record HMACDigester := { dg_version : string; dg_key : list Z }.

Definition digestSize : nat := 32.
Definition prefixRandomBytes : nat := 10.
Definition secretRandomBytes : nat := 32.

Definition NewHMACDigester (version : string) (key : list Z) : option HMACDigester :=
  let version := TrimSpace version in
  if digestVersionPattern version && Nat.eqb (length key) digestSize then Some {| dg_version := version; dg_key := key |}
  else None.

Definition formatUUID (value : list Z) : string :=
  let encoded := hex_encode value in
  (String.substring 0 8 encoded ++ "-" ++ String.substring 8 4 encoded ++ "-" ++ String.substring 12 4 encoded ++ "-" ++
   String.substring 16 4 encoded ++ "-" ++ String.substring 20 12 encoded)%string.

(** [io.ReadFull]: what it read, and what the source still holds. *)
Definition ReadFull (n : nat) (random : list Z) : result (list Z) key_error * list Z :=
  if Nat.leb n (length random) then (Ok (take n random), drop n random) else (Err KeyRandom, []).

Section Issuance.
Context (hmac_sha256 : list Z -> list Z -> list Z).

(** The MAC covers the prefix, a zero byte and the secret. *)
Definition Digest (d : HMACDigester) (prefix : string) (secret : list Z) : list Z :=
  hmac_sha256 (dg_key d) (bytes_of prefix ++ [0] ++ secret).

Definition version_bits (id : list Z) : list Z :=
  let id := <[6%nat := Z.lor (Z.land (nth 6 id 0) 15) 64]> id in
  <[8%nat := Z.lor (Z.land (nth 8 id 0) 63) 128]> id.

Definition issue (d : HMACDigester) (mode : string) (random : list Z) : result (Replacement * string) key_error * list Z :=
  match ReadFull 16 random with
  | (Err e, random) => (Err e, random)
  | (Ok id, random) =>
      match ReadFull prefixRandomBytes random with
      | (Err e, random) => (Err e, random)
      | (Ok prefixBytes, random) =>
          match ReadFull secretRandomBytes random with
          | (Err e, random) => (Err e, random)
          | (Ok secret, random) =>
              let prefix := ("agw_" ++ mode ++ "_" ++ ToLower (base32_encode prefixBytes))%string in
              let plaintext := (prefix ++ "." ++ base64_encode secret)%string in
              (Ok ({| rp_ID := formatUUID (version_bits id); rp_Prefix := prefix;
                      rp_SecretHash := Digest d prefix secret; rp_HashKeyVersion := dg_version d |}, plaintext), random)
          end
      end
  end.
End Issuance.

(** ** Virtual keys: the PostgreSQL store

    internal/virtualkey/postgres.go and the part of internal/keyauth/postgres.go that reads
    the same table, over an explicit table app.virtual_api_keys with the constraints of
    migrations/000003_create_virtual_api_keys.up.sql. Identifier columns hold canonical
    UUIDs, which is what the manager passes. *)
(** ** The table *)

(** A limits column holds a JSON object of integers; [row_key] has no limits of its own. *)
Record KeyRow := { row_key : KeyRecord; row_limits : option (list (string * Z)) }.

Record KeyDB := {
  kd_tenants : gmap string string; kd_projects : gmap (string * string) string; kd_keys : gmap string KeyRow }.
Definition set_keys (db : KeyDB) (keys : gmap string KeyRow) : KeyDB :=
  {| kd_tenants := kd_tenants db; kd_projects := kd_projects db; kd_keys := keys |}.

Definition with_limits (r : KeyRecord) (l : option KeyLimits) : KeyRecord :=
  {| vk_ID := vk_ID r; vk_TenantID := vk_TenantID r; vk_ProjectID := vk_ProjectID r; vk_Prefix := vk_Prefix r;
     vk_SecretHash := vk_SecretHash r; vk_HashKeyVersion := vk_HashKeyVersion r; vk_Status := vk_Status r;
     vk_ExpiresAt := vk_ExpiresAt r; vk_AllowedModels := vk_AllowedModels r; vk_Limits := l;
     vk_RotatedFromID := vk_RotatedFromID r; vk_RotationGraceExpiresAt := vk_RotationGraceExpiresAt r;
     vk_RevokedAt := vk_RevokedAt r; vk_RevokedBy := vk_RevokedBy r; vk_Version := vk_Version r;
     vk_CreatedAt := vk_CreatedAt r; vk_CreatedBy := vk_CreatedBy r; vk_UpdatedAt := vk_UpdatedAt r; vk_UpdatedBy := vk_UpdatedBy r |}.

(** The JSON of a limits value: nil members are omitted. *)
Definition member (name : string) (v : option Z) : list (string * Z) := match v with Some z => [(name, z)] | None => [] end.
Definition encodeLimits (l : option KeyLimits) : option (list (string * Z)) :=
  (fun l => member "rpm" (kl_RPM l) ++ member "tpm" (kl_TPM l) ++ member "concurrency" (kl_Concurrency l)) <$> l.

Definition json_member (name : string) (o : list (string * Z)) : option Z :=
  (fun found => found.2.2) <$> list_find (fun kv => kv.1 = name) o.
Definition int64_number (v : option Z) : bool := match v with Some z => (i64_min <=? z) && (z <=? i64_max) | None => true end.
Definition decodeLimits (column : option (list (string * Z))) : result (option KeyLimits) key_error :=
  match column with
  | None => Ok None
  | Some o =>
      ensure int64_number (json_member "rpm" o) && int64_number (json_member "tpm" o) && int64_number (json_member "concurrency" o)
        else KeyDecoding in
      Ok (Some {| kl_RPM := json_member "rpm" o; kl_TPM := json_member "tpm" o; kl_Concurrency := json_member "concurrency" o |})
  end.

Definition row_of (r : KeyRecord) : KeyRow := {| row_key := with_limits r None; row_limits := encodeLimits (vk_Limits r) |}.
Definition scanRecord (row : KeyRow) : result KeyRecord key_error :=
  let? l := decodeLimits (row_limits row) in Ok (with_limits (row_key row) l).

(** ** Constraints *)
Definition btrimmed (s : string) : bool :=
  negb (String.prefix " " s) && negb (bool_decide (String.get (String.length s - 1) s = Some " "%char)).
Definition char_length (s : string) : Z := Z.of_nat (length (runes (bytes_of s))).
Definition actor_format (s : string) : bool := btrimmed s && (1 <=? char_length s) && (char_length s <=? 200).

Definition valid_virtual_key_allowed_models (models : list string) : bool :=
  Nat.leb (length models) 256 &&
  forallb (fun m => btrimmed m && keyModelPattern m) models &&
  bool_decide (NoDup (ToLower <$> models)).

Definition valid_virtual_key_limits (o : list (string * Z)) : bool :=
  forallb (fun kv => bool_decide (kv.1 ∈ ["rpm"; "tpm"; "concurrency"]%string) && (1 <=? kv.2) && (kv.2 <? 1000000000000000000)) o.

Definition lifecycle_valid (r : KeyRecord) : bool :=
  match vk_Status r, vk_RotationGraceExpiresAt r, vk_RevokedAt r, vk_RevokedBy r with
  | StateActive, None, None, None => true
  | StateRotating, Some _, None, None => true
  | StateRevoked, None, Some at_, Some _ => vk_CreatedAt r <=? at_
  | _, _, _, _ => false
  end.

Definition row_check (row : KeyRow) : bool :=
  let r := row_key row in
  credentialPrefixPattern (vk_Prefix r) && Nat.eqb (length (vk_SecretHash r)) 32 && digestVersionPattern (vk_HashKeyVersion r) &&
  match vk_ExpiresAt r with Some t => vk_CreatedAt r <? t | None => true end &&
  match vk_AllowedModels r with Some ms => valid_virtual_key_allowed_models ms | None => true end &&
  match row_limits row with Some o => valid_virtual_key_limits o | None => true end &&
  negb (bool_decide (vk_RotatedFromID r = Some (vk_ID r))) &&
  match vk_RotationGraceExpiresAt r with Some t => vk_CreatedAt r <? t | None => true end &&
  match vk_RevokedBy r with Some by_ => actor_format by_ | None => true end &&
  lifecycle_valid r && (0 <? vk_Version r) && actor_format (vk_CreatedBy r) && actor_format (vk_UpdatedBy r) &&
  (vk_CreatedAt r <=? vk_UpdatedAt r).

(** Text the server stores: UTF-8 without NUL bytes. *)
Definition storable (s : string) : bool :=
  negb (bool_decide (decode (bytes_of s) = None)) && negb (bool_decide (0 ∈ bytes_of s)).

Definition holds (db : KeyDB) (P : KeyRecord -> Prop) `{forall r, base.Decision (P r)} : bool :=
  existsb (fun kv => bool_decide (P (row_key kv.2))) (map_to_list (kd_keys db)).

Definition references_exist (db : KeyDB) (r : KeyRecord) : bool :=
  bool_decide (is_Some (kd_tenants db !! vk_TenantID r)) && bool_decide (is_Some (kd_projects db !! (vk_TenantID r, vk_ProjectID r))) &&
  match vk_RotatedFromID r with
  | None => true
  | Some source =>
      match kd_keys db !! source with
      | Some row => bool_decide (vk_TenantID (row_key row) = vk_TenantID r) && bool_decide (vk_ProjectID (row_key row) = vk_ProjectID r)
      | None => false
      end
  end.

(** INSERT INTO app.virtual_api_keys *)
Definition insert_key (db : KeyDB) (row : KeyRow) : result (KeyDB * KeyRow) db_failure :=
  let r := row_key row in
  ensure storable (vk_CreatedBy r) && storable (vk_UpdatedBy r) else PqError "22021" "" in
  ensure row_check row else PqError "23514" "" in
  ensure bool_decide (kd_keys db !! vk_ID r = None) else PqError "23505" "virtual_api_keys_pkey" in
  ensure negb (holds db (fun x => vk_Prefix x = vk_Prefix r)) else PqError "23505" "virtual_api_keys_prefix_unique" in
  ensure negb (holds db (fun x => vk_HashKeyVersion x = vk_HashKeyVersion r /\ vk_SecretHash x = vk_SecretHash r))
    else PqError "23505" "virtual_api_keys_hash_unique" in
  ensure negb (holds db (fun x => vk_RotatedFromID r <> None /\ vk_RotatedFromID x = vk_RotatedFromID r))
    else PqError "23505" "uq_virtual_api_keys_rotated_from" in
  ensure references_exist db r else PqError "23503" "" in
  Ok (set_keys db (<[vk_ID r := row]> (kd_keys db)), row).

Definition located (l : Locator) (row : KeyRow) : bool :=
  bool_decide (vk_TenantID (row_key row) = loc_TenantID l) && bool_decide (vk_ProjectID (row_key row) = loc_ProjectID l).

(** [selectStatement], with or without FOR UPDATE *)
Definition select_key (db : KeyDB) (l : Locator) : option KeyRow :=
  match kd_keys db !! loc_ID l with Some row => if located l row then Some row else None | None => None end.

(** An UPDATE of the row that [selectStatement] finds, if [guard] holds of it: the number
    of rows it changed. *)
Definition update_key (db : KeyDB) (l : Locator) (guard : KeyRecord -> bool) (f : KeyRecord -> KeyRecord) : result (KeyDB * nat) db_failure :=
  match select_key db l with
  | Some row =>
      if guard (row_key row) then
        let row' := {| row_key := f (row_key row); row_limits := row_limits row |} in
        ensure storable (vk_UpdatedBy (row_key row')) else PqError "22021" "" in
        ensure row_check row' else PqError "23514" "" in
        Ok (set_keys db (<[loc_ID l := row']> (kd_keys db)), 1%nat)
      else Ok (db, 0%nat)
  | None => Ok (db, 0%nat)
  end.

Definition rotating (graceExpiresAt now : Time) (actor : string) (r : KeyRecord) : KeyRecord :=
  {| vk_ID := vk_ID r; vk_TenantID := vk_TenantID r; vk_ProjectID := vk_ProjectID r; vk_Prefix := vk_Prefix r;
     vk_SecretHash := vk_SecretHash r; vk_HashKeyVersion := vk_HashKeyVersion r; vk_Status := StateRotating;
     vk_ExpiresAt := vk_ExpiresAt r; vk_AllowedModels := vk_AllowedModels r; vk_Limits := vk_Limits r;
     vk_RotatedFromID := vk_RotatedFromID r; vk_RotationGraceExpiresAt := Some graceExpiresAt;
     vk_RevokedAt := vk_RevokedAt r; vk_RevokedBy := vk_RevokedBy r; vk_Version := vk_Version r + 1;
     vk_CreatedAt := vk_CreatedAt r; vk_CreatedBy := vk_CreatedBy r; vk_UpdatedAt := now; vk_UpdatedBy := actor |}.

Definition revoked (now : Time) (actor : string) (r : KeyRecord) : KeyRecord :=
  {| vk_ID := vk_ID r; vk_TenantID := vk_TenantID r; vk_ProjectID := vk_ProjectID r; vk_Prefix := vk_Prefix r;
     vk_SecretHash := vk_SecretHash r; vk_HashKeyVersion := vk_HashKeyVersion r; vk_Status := StateRevoked;
     vk_ExpiresAt := vk_ExpiresAt r; vk_AllowedModels := vk_AllowedModels r; vk_Limits := vk_Limits r;
     vk_RotatedFromID := vk_RotatedFromID r; vk_RotationGraceExpiresAt := None;
     vk_RevokedAt := Some now; vk_RevokedBy := Some actor; vk_Version := vk_Version r + 1;
     vk_CreatedAt := vk_CreatedAt r; vk_CreatedBy := vk_CreatedBy r; vk_UpdatedAt := now; vk_UpdatedBy := actor |}.

(** ** Operations *)
Definition mapKeyError (failure : db_failure) : key_error :=
  match failure with
  | PqError "23503" _ => KeyNotFound
  | PqError "23505" "uq_virtual_api_keys_rotated_from" => KeyAlreadyRotated
  | PqError "23505" _ => KeyCollision
  | _ => KeyStorage failure
  end.

Definition lost : key_error := KeyStorage DriverError.

Definition insertRecord (db : KeyDB) (r : KeyRecord) : result (KeyDB * KeyRow) db_failure := insert_key db (row_of r).

Definition store_Create (faults : Faults) (db : KeyDB) (r : KeyRecord) : KeyDB * result KeyRecord key_error :=
  match autocommit faults lost db (statement faults 0 mapKeyError (insertRecord db r)) with
  | (db', Ok row) => (db', scanRecord row)
  | (db', Err e) => (db', Err e)
  end.

Definition store_Get (faults : Faults) (db : KeyDB) (l : Locator) : result KeyRecord key_error :=
  let? found := statement faults 0 KeyStorage (Ok (select_key db l)) in
  match found with Some row => scanRecord row | None => Err KeyNotFound end.

Definition replacement_record (source : KeyRecord) (rp : Replacement) (actor : string) (now : Time) : KeyRecord :=
  {| vk_ID := rp_ID rp; vk_TenantID := vk_TenantID source; vk_ProjectID := vk_ProjectID source; vk_Prefix := rp_Prefix rp;
     vk_SecretHash := rp_SecretHash rp; vk_HashKeyVersion := rp_HashKeyVersion rp; vk_Status := StateActive;
     vk_ExpiresAt := vk_ExpiresAt source; vk_AllowedModels := vk_AllowedModels source; vk_Limits := vk_Limits source;
     vk_RotatedFromID := Some (vk_ID source); vk_RotationGraceExpiresAt := None;
     vk_RevokedAt := None; vk_RevokedBy := None; vk_Version := 1;
     vk_CreatedAt := now; vk_CreatedBy := actor; vk_UpdatedAt := now; vk_UpdatedBy := actor |}.

(** The statements of the transactions, from the locking read to the commit. *)
Definition rotate_statements (faults : Faults) (db : KeyDB) (l : Locator) (rp : Replacement) (graceExpiresAt : Time) (actor : string)
    (now : Time) : result (KeyDB * KeyRecord) key_error :=
  let? found := statement faults 0 KeyStorage (Ok (select_key db l)) in
  match found with
  | None => Err KeyNotFound
  | Some row =>
        let? source := scanRecord row in
        ensure negb (bool_decide (vk_Status source = StateRevoked)) else KeyInvalidState in
        ensure negb (bool_decide (vk_Status source = StateRotating)) else KeyAlreadyRotated in
        ensure negb (elapsed (vk_ExpiresAt source) now) else KeyExpired in
        let? '(db1, updated) := statement faults 1 KeyStorage
          (update_key db l (fun r => (vk_Version r =? vk_Version source) && bool_decide (vk_Status r = StateActive))
             (rotating graceExpiresAt now actor)) in
        ensure Nat.eqb updated 1 else KeyInvalidState in
        let? '(db2, created) := statement faults 2 mapKeyError (insertRecord db1 (replacement_record source rp actor now)) in
        let? record := scanRecord created in
        Ok (db2, record)
  end.

Definition store_Rotate (faults : Faults) (db : KeyDB) (l : Locator) (rp : Replacement) (graceExpiresAt : Time) (actor : string)
    (now : Time) : KeyDB * result KeyRecord key_error :=
  in_transaction faults lost db (rotate_statements faults db l rp graceExpiresAt actor now).

Definition revoke_statements (faults : Faults) (db : KeyDB) (l : Locator) (actor : string) (now : Time) : result (KeyDB * KeyRecord) key_error :=
  let? found := statement faults 0 KeyStorage (Ok (select_key db l)) in
  match found with
  | None => Err KeyNotFound
  | Some row =>
        let? record := scanRecord row in
        if bool_decide (vk_Status record = StateRevoked) then Ok (db, record)
        else
          let? '(db1, updated) := statement faults 1 KeyStorage
            (update_key db l (fun r => (vk_Version r =? vk_Version record) &&
                                       (bool_decide (vk_Status r = StateActive) || bool_decide (vk_Status r = StateRotating)))
               (revoked now actor)) in
          ensure Nat.eqb updated 1 else KeyInvalidState in
          let? reloaded := statement faults 2 KeyStorage (Ok (select_key db1 l)) in
          match reloaded with
          | None => Err (KeyStorage DriverError)
          | Some row' => let? r := scanRecord row' in Ok (db1, r)
          end
  end.

Definition store_Revoke (faults : Faults) (db : KeyDB) (l : Locator) (actor : string) (now : Time) : KeyDB * result KeyRecord key_error :=
  in_transaction faults lost db (revoke_statements faults db l actor now).
