(* ===== verification/VirtualKeyTheorems.v ===== *)
(** * Virtual keys: the lifecycle over every history of transactions

    What the transactions of the store can do to the table, in any order and with any
    failures: rows are never removed, keep their identity and authorisation, and only move
    from active over rotating to revoked.

    Then: virtual keys: the lifecycle manager. *)
From Stdlib Require Import ZArith Lia Bool Ascii String.
From stdpp Require Import base tactics option list strings gmap fin_maps sets relations.
From S2P Require Import Prelude Identifiers Unicode Encoding Postgres VirtualKey.
(** ** Round trip of a row *)
Definition storable_limits (l : option KeyLimits) : bool := match encodeLimits l with Some o => valid_virtual_key_limits o | None => true end.

Lemma decode_encode_limits l : storable_limits l = true -> decodeLimits (encodeLimits l) = Ok l.
Proof.
  unfold storable_limits. destruct l as [[[r|] [t|] [c|]]|]; [..|done];
    unfold encodeLimits, decodeLimits, valid_virtual_key_limits, member, int64_number, i64_min, i64_max; simpl; intros H; try done;
    repeat (apply andb_true_iff in H as [H ?]); repeat (rewrite (proj2 (Z.leb_le _ _)) by lia); done.
Qed.

Lemma with_limits_twice r l l' : with_limits (with_limits r l) l' = with_limits r l'.
Proof. done. Qed.
Lemma with_limits_same r : with_limits r (vk_Limits r) = r.
Proof. by destruct r. Qed.

Lemma scan_row_of r : row_check (row_of r) = true -> scanRecord (row_of r) = Ok r.
Proof.
  intros H. unfold scanRecord. simpl. rewrite decode_encode_limits; simpl; [by rewrite with_limits_twice, with_limits_same|].
  unfold row_check in H. simpl in H. repeat (apply andb_true_iff in H as [H ?]). unfold storable_limits. done.
Qed.

Lemma scan_key row record : scanRecord row = Ok record -> record = with_limits (row_key row) (vk_Limits record).
Proof. unfold scanRecord. destruct (decodeLimits (row_limits row)); [|done]. by intros [= <-]. Qed.

(** ** Evolution of a row *)
Definition same_identity (a b : KeyRecord) : Prop :=
  vk_ID b = vk_ID a /\ vk_TenantID b = vk_TenantID a /\ vk_ProjectID b = vk_ProjectID a /\ vk_Prefix b = vk_Prefix a /\
  vk_SecretHash b = vk_SecretHash a /\ vk_HashKeyVersion b = vk_HashKeyVersion a /\ vk_ExpiresAt b = vk_ExpiresAt a /\
  vk_AllowedModels b = vk_AllowedModels a /\ vk_Limits b = vk_Limits a /\ vk_RotatedFromID b = vk_RotatedFromID a /\ vk_CreatedAt b = vk_CreatedAt a.

(** What may become of a row: nothing, or its status moved forward and its version up. *)
Definition evolves (a b : KeyRow) : Prop :=
  a = b \/
  same_identity (row_key a) (row_key b) /\ row_limits b = row_limits a /\ vk_Version (row_key a) < vk_Version (row_key b) /\
  ((vk_Status (row_key a) = StateActive /\ vk_Status (row_key b) = StateRotating) \/
   (vk_Status (row_key a) <> StateRevoked /\ vk_Status (row_key b) = StateRevoked)).

Lemma same_key_trans a b c : same_identity a b -> same_identity b c -> same_identity a c.
Proof. unfold same_identity. intuition congruence. Qed.

#[export] Instance evolves_refl : Reflexive evolves.
Proof. by left. Qed.

#[export] Instance evolves_trans : Transitive evolves.
Proof.
  intros a b c [->|(K1 & L1 & V1 & S1)] [<-|(K2 & L2 & V2 & S2)]; try done; right; [by auto..|].
  split; [eauto using same_key_trans|]. split; [congruence|]. split; [lia|].
  destruct S1 as [[E1 E1']|[E1 E1']], S2 as [[E2 E2']|[E2 E2']]; try congruence. right. split; congruence.
Qed.

Lemma evolves_same_key a b : evolves a b -> same_identity (row_key a) (row_key b).
Proof. intros [->|(K & _)]; [|done]. unfold same_identity. tauto. Qed.

(** Revocation is final: a revoked row never changes again. *)
Lemma evolves_revoked a b : evolves a b -> vk_Status (row_key a) = StateRevoked -> b = a.
Proof. intros [->|(_ & _ & _ & [[E _]|[E _]])] H; congruence. Qed.

(** ** Well-formed tables *)
Record db_wf (db : KeyDB) : Prop := {
  wf_row : forall id row, kd_keys db !! id = Some row ->
    vk_ID (row_key row) = id /\ row_check row = true /\ vk_Limits (row_key row) = None;
  wf_prefix : forall i j a b, kd_keys db !! i = Some a -> kd_keys db !! j = Some b ->
    vk_Prefix (row_key a) = vk_Prefix (row_key b) -> i = j;
  wf_hash : forall i j a b, kd_keys db !! i = Some a -> kd_keys db !! j = Some b ->
    vk_HashKeyVersion (row_key a) = vk_HashKeyVersion (row_key b) -> vk_SecretHash (row_key a) = vk_SecretHash (row_key b) -> i = j;
  wf_rotated : forall i j a b source, kd_keys db !! i = Some a -> kd_keys db !! j = Some b ->
    vk_RotatedFromID (row_key a) = Some source -> vk_RotatedFromID (row_key b) = Some source -> i = j }.

Lemma holds_false db (P : KeyRecord -> Prop) `{forall r, base.Decision (P r)} id row :
  holds db P = false -> kd_keys db !! id = Some row -> ~ P (row_key row).
Proof.
  intros Hf Hrow HP. apply not_true_iff_false in Hf. apply Hf. apply existsb_exists. exists (id, row). split.
  - apply list_elem_of_In, elem_of_map_to_list, Hrow.
  - simpl. by apply bool_decide_eq_true.
Qed.

(** What an INSERT that succeeds established. *)
Lemma insert_key_ok db row db' row' :
  insert_key db row = Ok (db', row') ->
  row' = row /\ db' = set_keys db (<[vk_ID (row_key row) := row]> (kd_keys db)) /\ row_check row = true /\
  kd_keys db !! vk_ID (row_key row) = None /\
  holds db (fun x => vk_Prefix x = vk_Prefix (row_key row)) = false /\
  holds db (fun x => vk_HashKeyVersion x = vk_HashKeyVersion (row_key row) /\ vk_SecretHash x = vk_SecretHash (row_key row)) = false /\
  holds db (fun x => vk_RotatedFromID (row_key row) <> None /\ vk_RotatedFromID x = vk_RotatedFromID (row_key row)) = false.
Proof.
  unfold insert_key. intros H. repeat (case_match; [|done]). injection H as <- <-.
  repeat match goal with E : negb _ = true |- _ => apply negb_true_iff in E | E : bool_decide _ = true |- _ => apply bool_decide_eq_true in E end.
  split_and!; done.
Qed.

Lemma select_key_ok db l row : select_key db l = Some row -> kd_keys db !! loc_ID l = Some row /\ vk_TenantID (row_key row) = loc_TenantID l /\ vk_ProjectID (row_key row) = loc_ProjectID l.
Proof.
  unfold select_key, located. intros H. case_match; [|done]. case_match eqn:E; [|done]. injection H as ->.
  apply andb_true_iff in E as [E1%bool_decide_eq_true E2%bool_decide_eq_true]. done.
Qed.

(** What an UPDATE that changes a row does. *)
Lemma update_key_ok db l guard f db' :
  update_key db l guard f = Ok (db', 1%nat) ->
  exists row, select_key db l = Some row /\ guard (row_key row) = true /\
    let row' := {| row_key := f (row_key row); row_limits := row_limits row |} in
    row_check row' = true /\ db' = set_keys db (<[loc_ID l := row']> (kd_keys db)).
Proof.
  unfold update_key. destruct (select_key db l) as [row|] eqn:E; [|done]. destruct (guard (row_key row)) eqn:G; [|done].
  intros H. do 2 (case_match; [|done]). injection H as <-. eauto 6.
Qed.

(** ** What each transaction does *)
Definition rotation (db : KeyDB) (l : Locator) (rp : Replacement) (graceExpiresAt : Time) (actor : string) (now : Time) (db' : KeyDB) (source : KeyRecord) : Prop :=
  exists row db1, select_key db l = Some row /\ scanRecord row = Ok source /\
    vk_Status (row_key row) = StateActive /\ elapsed (vk_ExpiresAt (row_key row)) now = false /\
    let row' := {| row_key := rotating graceExpiresAt now actor (row_key row); row_limits := row_limits row |} in
    row_check row' = true /\ db1 = set_keys db (<[loc_ID l := row']> (kd_keys db)) /\
    insert_key db1 (row_of (replacement_record source rp actor now)) = Ok (db', row_of (replacement_record source rp actor now)).

Definition revocation (db : KeyDB) (l : Locator) (actor : string) (now : Time) (db' : KeyDB) : Prop :=
  exists row, select_key db l = Some row /\ (vk_Status (row_key row) = StateActive \/ vk_Status (row_key row) = StateRotating) /\
    let row' := {| row_key := revoked now actor (row_key row); row_limits := row_limits row |} in
    row_check row' = true /\ db' = set_keys db (<[loc_ID l := row']> (kd_keys db)).

Lemma scan_status row record : scanRecord row = Ok record -> vk_Status record = vk_Status (row_key row) /\ vk_ExpiresAt record = vk_ExpiresAt (row_key row).
Proof. intros H. apply scan_key in H. by rewrite H. Qed.

Lemma create_effect faults db r :
  (store_Create faults db r).1 = db \/ insert_key db (row_of r) = Ok ((store_Create faults db r).1, row_of r).
Proof.
  unfold store_Create. destruct (autocommit_cases faults lost db (statement faults 0 mapKeyError (insertRecord db r))) as [(db' & row & E & E1 & _)|[E1 _]].
  - apply statement_ok in E. right. pose proof E as E'. unfold insertRecord in E'. destruct (insert_key_ok _ _ _ _ E') as [-> _]. rewrite E'. do 2 f_equal.
    rewrite <- E1. by destruct (autocommit _ _ _ _) as [? []].
  - left. destruct (autocommit _ _ _ _) as [? []]; simpl in *; done.
Qed.

Lemma create_ok faults db r db' r' : store_Create faults db r = (db', Ok r') -> r' = r /\ insert_key db (row_of r) = Ok (db', row_of r).
Proof.
  unfold store_Create. destruct (autocommit faults lost db _) as [db1 [row|e]] eqn:E; [|done]. intros [= <- H].
  apply autocommit_ok, statement_ok in E. unfold insertRecord in E. destruct (insert_key_ok _ _ _ _ E) as (-> & _ & C & _).
  rewrite (scan_row_of _ C) in H. by injection H as <-.
Qed.

Lemma rotate_statements_ok faults db l rp graceExpiresAt actor now db' record :
  rotate_statements faults db l rp graceExpiresAt actor now = Ok (db', record) ->
  exists source, rotation db l rp graceExpiresAt actor now db' source /\ record = replacement_record source rp actor now.
Proof.
  unfold rotate_statements. intros (found & [= <-]%statement_ok & H)%bind_Ok. destruct (select_key db l) as [row|] eqn:Hsel; [|done].
  apply bind_Ok in H as (source & Hsc & H). apply ensure_Ok in H as [_ H]. apply ensure_Ok in H as [_ H]. apply ensure_Ok in H as [Hex H].
  apply bind_Ok in H as ([db1 n] & Hup%statement_ok & H). apply ensure_Ok in H as [->%Nat.eqb_eq H].
  apply bind_Ok in H as ([db2 created] & Hins%statement_ok & H). apply bind_Ok in H as (r & Hr & [= <- <-]).
  apply update_key_ok in Hup as (row' & E & [_ Ha%bool_decide_eq_true]%andb_true_iff & C & ->). rewrite Hsel in E. injection E as <-.
  unfold insertRecord in Hins. destruct (insert_key_ok _ _ _ _ Hins) as (-> & _ & Hc & _). rewrite (scan_row_of _ Hc) in Hr. injection Hr as <-.
  destruct (scan_status _ _ Hsc) as [_ Hexp]. rewrite Hexp in Hex. exists source. split; [|done]. exists row. eexists. apply negb_true_iff in Hex. eauto 10.
Qed.

Lemma revoke_statements_ok faults db l actor now db' record :
  revoke_statements faults db l actor now = Ok (db', record) ->
  (exists row, select_key db l = Some row /\ vk_Status (row_key row) = StateRevoked /\ scanRecord row = Ok record /\ db' = db) \/
  (revocation db l actor now db' /\ exists row, select_key db' l = Some row /\ scanRecord row = Ok record).
Proof.
  unfold revoke_statements. intros (found & [= <-]%statement_ok & H)%bind_Ok. destruct (select_key db l) as [row|] eqn:Hsel; [|done].
  apply bind_Ok in H as (record0 & Hsc & H). destruct (scan_status _ _ Hsc) as [Hst _]. case_bool_decide as Hr.
  - injection H as <- <-. left. exists row. split_and!; congruence.
  - apply bind_Ok in H as ([db1 n] & Hup%statement_ok & H). apply ensure_Ok in H as [->%Nat.eqb_eq H].
    apply bind_Ok in H as (again & [= <-]%statement_ok & H). destruct (select_key db1 l) as [row1|] eqn:Hsel1; [|done].
    apply bind_Ok in H as (r & Hr1 & [= <- <-]). right. split; [|eauto].
    apply update_key_ok in Hup as (row' & E & [_ Ha]%andb_true_iff & C & ->). exists row'. split; [done|]. split; [|done].
    apply orb_true_iff in Ha as [?%bool_decide_eq_true|?%bool_decide_eq_true]; eauto.
Qed.

Lemma rotate_effect faults db l rp graceExpiresAt actor now :
  (store_Rotate faults db l rp graceExpiresAt actor now).1 = db \/
  exists source, rotation db l rp graceExpiresAt actor now (store_Rotate faults db l rp graceExpiresAt actor now).1 source.
Proof.
  unfold store_Rotate. destruct (in_transaction_cases faults lost db (rotate_statements faults db l rp graceExpiresAt actor now)) as [(db' & r & E & -> & _)|[-> _]]; [right|by left].
  destruct (rotate_statements_ok _ _ _ _ _ _ _ _ _ E) as (source & ? & _). eauto.
Qed.

Lemma revoke_effect faults db l actor now :
  (store_Revoke faults db l actor now).1 = db \/ revocation db l actor now (store_Revoke faults db l actor now).1.
Proof.
  unfold store_Revoke. destruct (in_transaction_cases faults lost db (revoke_statements faults db l actor now)) as [(db' & r & E & -> & _)|[-> _]]; [|by left].
  destruct (revoke_statements_ok _ _ _ _ _ _ _ E) as [(_ & _ & _ & _ & ->)|[? _]]; eauto.
Qed.

(** ** Histories *)
Inductive key_step (db : KeyDB) : KeyDB -> Prop :=
| step_create faults r : key_step db (store_Create faults db r).1
| step_rotate faults l rp graceExpiresAt actor now : key_step db (store_Rotate faults db l rp graceExpiresAt actor now).1
| step_revoke faults l actor now : key_step db (store_Revoke faults db l actor now).1
| step_tenant t status : key_step db {| kd_tenants := <[t := status]> (kd_tenants db); kd_projects := kd_projects db; kd_keys := kd_keys db |}
| step_project t p status : key_step db {| kd_tenants := kd_tenants db; kd_projects := <[(t, p) := status]> (kd_projects db); kd_keys := kd_keys db |}.

Definition no_keys (db : KeyDB) : Prop := kd_keys db = ∅.

(** Inserting a checked row with fresh identities keeps the table well-formed. *)
Lemma insert_wf db row db' row' : db_wf db -> vk_Limits (row_key row) = None -> insert_key db row = Ok (db', row') -> db_wf db'.
Proof.
  intros Hwf Hl H. destruct (insert_key_ok _ _ _ _ H) as (_ & -> & C & _ & Fp & Fh & Fr). split; simpl.
  - intros id x [[<- <-]|[_ Hx]]%lookup_insert_Some; [done|]. by apply (wf_row db Hwf).
  - intros i j a b [[<- <-]|[_ Ha]]%lookup_insert_Some [[<- <-]|[_ Hb]]%lookup_insert_Some Hp; [done|..].
    + by destruct (holds_false _ _ _ _ Fp Hb).
    + by destruct (holds_false _ _ _ _ Fp Ha).
    + eapply (wf_prefix db Hwf); eauto.
  - intros i j a b [[<- <-]|[_ Ha]]%lookup_insert_Some [[<- <-]|[_ Hb]]%lookup_insert_Some Hv Hh; [done|..].
    + by destruct (holds_false _ _ _ _ Fh Hb).
    + by destruct (holds_false _ _ _ _ Fh Ha).
    + eapply (wf_hash db Hwf); eauto.
  - intros i j a b source [[<- <-]|[_ Ha]]%lookup_insert_Some [[<- <-]|[_ Hb]]%lookup_insert_Some Hv Hh; [done|..].
    + destruct (holds_false _ _ _ _ Fr Hb). split; congruence.
    + destruct (holds_false _ _ _ _ Fr Ha). split; congruence.
    + eapply (wf_rotated db Hwf); eauto.
Qed.

(** So does replacing a row by one it may evolve into. *)
Lemma replace_wf db id a b : db_wf db -> kd_keys db !! id = Some a -> evolves a b -> row_check b = true -> db_wf (set_keys db (<[id := b]> (kd_keys db))).
Proof.
  intros Hwf Ha Hev C. destruct (evolves_same_key _ _ Hev) as (K1 & _ & _ & K4 & K5 & K6 & _ & _ & K9 & K10 & _).
  assert (forall j x, <[id:=b]> (kd_keys db) !! j = Some x -> exists y, kd_keys db !! j = Some y /\ vk_Prefix (row_key x) = vk_Prefix (row_key y) /\
    vk_HashKeyVersion (row_key x) = vk_HashKeyVersion (row_key y) /\ vk_SecretHash (row_key x) = vk_SecretHash (row_key y) /\ vk_RotatedFromID (row_key x) = vk_RotatedFromID (row_key y)) as Old.
  { intros j x [[<- <-]|[_ Hx]]%lookup_insert_Some; eauto 10. }
  split; simpl.
  - intros j x [[<- <-]|[_ Hx]]%lookup_insert_Some; [|by apply (wf_row db Hwf)]. destruct (wf_row db Hwf _ _ Ha) as (? & _ & ?).
    split; [congruence|]. split; [exact C|congruence].
  - intros i j x y (x' & Hx & Ex & _)%Old (y' & Hy & Ey & _)%Old E. apply (wf_prefix db Hwf i j x' y' Hx Hy). congruence.
  - intros i j x y (x' & Hx & _ & Ex & Fx & _)%Old (y' & Hy & _ & Ey & Fy & _)%Old E F. apply (wf_hash db Hwf i j x' y' Hx Hy); congruence.
  - intros i j x y s (x' & Hx & _ & _ & _ & Ex)%Old (y' & Hy & _ & _ & _ & Ey)%Old E F. apply (wf_rotated db Hwf i j x' y' s Hx Hy); congruence.
Qed.

Lemma rotating_evolves graceExpiresAt now actor row :
  vk_Status (row_key row) = StateActive -> evolves row {| row_key := rotating graceExpiresAt now actor (row_key row); row_limits := row_limits row |}.
Proof. intros H. right. simpl. split; [by repeat split|]. split; [done|]. split; [lia|]. by left. Qed.

Lemma revoked_evolves now actor row :
  vk_Status (row_key row) = StateActive \/ vk_Status (row_key row) = StateRotating ->
  evolves row {| row_key := revoked now actor (row_key row); row_limits := row_limits row |}.
Proof. intros H. right. simpl. split; [by repeat split|]. split; [done|]. split; [lia|]. right. split; [|done]. destruct H; congruence. Qed.

(** The rows of [db] as they may have become in [db']. *)
Definition table_evolves (db db' : KeyDB) : Prop :=
  forall id a, kd_keys db !! id = Some a -> exists b, kd_keys db' !! id = Some b /\ evolves a b.

#[export] Instance table_evolves_preorder : PreOrder table_evolves.
Proof.
  split; [intros db id a H; exists a; by split|]. intros x y z Hxy Hyz id a Ha. destruct (Hxy _ _ Ha) as (b & Hb & ?), (Hyz _ _ Hb) as (c & Hc & ?).
  exists c. split; [done|]. by transitivity b.
Qed.

Lemma replace_evolves db id a b : kd_keys db !! id = Some a -> evolves a b -> table_evolves db (set_keys db (<[id := b]> (kd_keys db))).
Proof.
  intros Ha Hev j x Hx. simpl. destruct (decide (id = j)) as [<-|]; [|rewrite lookup_insert_ne by done; exists x; by split].
  rewrite lookup_insert_eq. exists b. split; [done|]. by simplify_eq.
Qed.

Lemma insert_evolves db row db' row' : insert_key db row = Ok (db', row') -> table_evolves db db'.
Proof.
  intros H. destruct (insert_key_ok _ _ _ _ H) as (_ & -> & _ & N & _). intros j x Hx. simpl.
  rewrite lookup_insert_ne by (intros <-; congruence). exists x. by split.
Qed.

(** Every transaction keeps the table well-formed and lets its rows evolve. *)
Lemma key_step_sound db db' : db_wf db -> key_step db db' -> db_wf db' /\ table_evolves db db'.
Proof.
  intros Hwf [faults r|faults l rp g actor now|faults l actor now|t status|t p status].
  - destruct (create_effect faults db r) as [->|H]; [done|]. split; [exact (insert_wf _ (row_of r) _ _ Hwf eq_refl H)|exact (insert_evolves _ _ _ _ H)].
  - destruct (rotate_effect faults db l rp g actor now) as [->|(source & row & db1 & Hsel & _ & Ha & _ & C & -> & Hins)]; [done|].
    apply select_key_ok in Hsel as (Hrow & _ & _). pose proof (rotating_evolves g now actor row Ha) as Hev.
    split; [exact (insert_wf _ (row_of _) _ _ (replace_wf _ _ _ _ Hwf Hrow Hev C) eq_refl Hins)|]. etransitivity; [exact (replace_evolves _ _ _ _ Hrow Hev)|exact (insert_evolves _ _ _ _ Hins)].
  - destruct (revoke_effect faults db l actor now) as [->|(row & Hsel & Ha & C & ->)]; [done|].
    apply select_key_ok in Hsel as (Hrow & _ & _). pose proof (revoked_evolves now actor row Ha) as Hev.
    split; [exact (replace_wf _ _ _ _ Hwf Hrow Hev C)|exact (replace_evolves _ _ _ _ Hrow Hev)].
  - split; [by destruct Hwf; split|]. intros id a Ha. exists a. by split.
  - split; [by destruct Hwf; split|]. intros id a Ha. exists a. by split.
Qed.

Lemma no_keys_wf db : no_keys db -> db_wf db.
Proof. unfold no_keys. intros E. split; intros *; rewrite E, lookup_empty; done. Qed.

Lemma key_steps_sound db db' : db_wf db -> rtc key_step db db' -> db_wf db' /\ table_evolves db db'.
Proof.
  intros Hwf H. revert Hwf. induction H as [|db db1 db' H1 _ IH]; [done|]. intros Hwf. destruct (key_step_sound _ _ Hwf H1) as [Hwf1 He].
  destruct (IH Hwf1) as [? He']. split; [done|]. by transitivity db1.
Qed.

(** ** Virtual keys: the lifecycle manager

    The [Manager] of internal/virtualkey/service.go over its [Store] interface, which is the
    class [KeyStore]; [Session] is the instance for PostgreSQL, in which other
    transactions may run before each call and each call may fail. *)
Class KeyStore (S : Type) := {
  ks_Create : S -> KeyRecord -> S * result KeyRecord key_error;
  ks_Get : S -> Locator -> S * result KeyRecord key_error;
  ks_Rotate : S -> Locator -> Replacement -> Time -> string -> Time -> S * result KeyRecord key_error;
  ks_Revoke : S -> Locator -> string -> Time -> S * result KeyRecord key_error }.

Section Manager.
Context {S : Type} `{KeyStore S} (pick : list string -> string) (hmac_sha256 : list Z -> list Z -> list Z) (digester : HMACDigester).

Definition new_record (c : CreateCommand) (material : Replacement) (now : Time) : KeyRecord :=
  {| vk_ID := rp_ID material; vk_TenantID := ToLower (cc_TenantID c); vk_ProjectID := ToLower (cc_ProjectID c); vk_Prefix := rp_Prefix material;
     vk_SecretHash := rp_SecretHash material; vk_HashKeyVersion := rp_HashKeyVersion material; vk_Status := StateActive;
     vk_ExpiresAt := cc_ExpiresAt c; vk_AllowedModels := cc_AllowedModels c; vk_Limits := cc_Limits c;
     vk_RotatedFromID := None; vk_RotationGraceExpiresAt := None; vk_RevokedAt := None; vk_RevokedBy := None; vk_Version := 1;
     vk_CreatedAt := now; vk_CreatedBy := cc_Actor c; vk_UpdatedAt := now; vk_UpdatedBy := cc_Actor c |}.

(** The issuance loop that Create and Rotate share: a fresh credential per attempt, again
    only after a collision. [persist] is the call of the store. *)
Fixpoint issue_attempts (n : nat) (mode : string) (persist : S -> Replacement -> S * result KeyRecord key_error) (now : Time)
    (s : S) (random : list Z) : S * list Z * result IssuedCredential key_error :=
  match n with
  | O => (s, random, Err KeyCollision)
  | Datatypes.S n' =>
      match issue hmac_sha256 digester mode random with
      | (Err e, random) => (s, random, Err e)
      | (Ok (material, plaintext), random) =>
          match persist s material with
          | (s, Ok created) => (s, random, Ok {| ic_Metadata := Record_Metadata created now; ic_Credential := plaintext |})
          | (s, Err KeyCollision) => issue_attempts n' mode persist now s random
          | (s, Err e) => (s, random, Err e)
          end
      end
  end.

Definition manager_Create (s : S) (random : list Z) (now : Time) (c : CreateCommand) : S * list Z * result IssuedCredential key_error :=
  match validateCreate pick c now with
  | Err e => (s, random, Err e)
  | Ok _ => issue_attempts issuanceAttempts (cc_Mode c) (fun s material => ks_Create s (new_record c material now)) now s random
  end.

Definition manager_Get (s : S) (now : Time) (l : Locator) : S * result KeyMetadata key_error :=
  match validateLocator pick l with
  | Err e => (s, Err e)
  | Ok _ => let '(s, r) := ks_Get s (normalizedLocator l) in (s, let? record := r in Ok (Record_Metadata record now))
  end.

Definition validateRotate (c : RotateCommand) : result unit key_error :=
  let? _ := validateLocator pick (rc_Locator c) in
  let? _ := validateKeyActor (rc_Actor c) in
  ensure (minimumGrace <=? rc_GracePeriod c) && (rc_GracePeriod c <=? maximumGrace) else KeyInvalid "grace_period_seconds" in Ok ().

Definition manager_Rotate (s : S) (random : list Z) (now : Time) (c : RotateCommand) : S * list Z * result IssuedCredential key_error :=
  match validateRotate c with
  | Err e => (s, random, Err e)
  | Ok _ =>
      let locator := normalizedLocator (rc_Locator c) in
      match ks_Get s locator with
      | (s, Err e) => (s, random, Err e)
      | (s, Ok source) =>
          match modeFromPrefix (vk_Prefix source) with
          | Err e => (s, random, Err e)
          | Ok mode =>
              if elapsed (vk_ExpiresAt source) now then (s, random, Err KeyExpired)
              else issue_attempts issuanceAttempts mode
                     (fun s material => ks_Rotate s locator material (time_add now (rc_GracePeriod c)) (rc_Actor c) now) now s random
          end
      end
  end.

Definition manager_Revoke (s : S) (now : Time) (c : RevokeCommand) : S * result KeyMetadata key_error :=
  match (let? _ := validateLocator pick (vc_Locator c) in validateKeyActor (vc_Actor c)) with
  | Err e => (s, Err e)
  | Ok _ =>
      let '(s, r) := ks_Revoke s (normalizedLocator (vc_Locator c)) (vc_Actor c) now in
      (s, let? record := r in Ok (Record_Metadata record now))
  end.
End Manager.

(** ** The PostgreSQL instance *)

(** What happens at one call of the store: the transactions of others before it, and its
    own failures. *)
Record Visit := { visit_others : KeyDB -> KeyDB; visit_faults : Faults }.
Record Session := { se_db : KeyDB; se_visits : list Visit }.

Definition visit {A : Type} (s : Session) (call : Faults -> KeyDB -> KeyDB * A) : Session * A :=
  match se_visits s with
  | [] => let '(db, a) := call no_faults (se_db s) in ({| se_db := db; se_visits := [] |}, a)
  | v :: rest => let '(db, a) := call (visit_faults v) (visit_others v (se_db s)) in ({| se_db := db; se_visits := rest |}, a)
  end.

#[export] Instance postgres_key_store : KeyStore Session := {
  ks_Create s r := visit s (fun f db => store_Create f db r);
  ks_Get s l := visit s (fun f db => (db, store_Get f db l));
  ks_Rotate s l rp g actor now := visit s (fun f db => store_Rotate f db l rp g actor now);
  ks_Revoke s l actor now := visit s (fun f db => store_Revoke f db l actor now) }.
