(* ===== verification/KeyAuth.v ===== *)
(** * Authentication of virtual keys

    internal/keyauth: the record cache (cache.go), the keyring (keyring.go), the lookup
    (postgres.go) and the authenticator with its HTTP middleware (authenticator.go).
    Clone functions copy values and have no counterpart; HMAC-SHA-256 is a parameter.

    Then: authentication: what a gateway accepts, over every interleaving. *)
From Stdlib Require Import ZArith Lia Bool Ascii String.
From stdpp Require Import base tactics option list strings gmap fin_maps sets relations.
From S2P Require Import Prelude Identifiers Unicode Encoding Postgres VirtualKey VirtualKeyTheorems.
(** ** Data (model.go) *)
Record AuthRecord := {
  ar_ID : string; ar_TenantID : string; ar_ProjectID : string; ar_Prefix : string;
  ar_SecretHash : list Z; ar_HashKeyVersion : string; ar_Status : KeyState; ar_ExpiresAt : option Time;
  ar_AllowedModels : option (list string); ar_Limits : option KeyLimits; ar_RotationGraceExpiresAt : option Time;
  ar_TenantStatus : string; ar_ProjectStatus : string }.

Record Principal := {
  pr_TenantID : string; pr_ProjectID : string; pr_VirtualKeyID : string; pr_Prefix : string;
  pr_AllowedModels : option (list string); pr_Limits : option KeyLimits }.

Definition principal (r : AuthRecord) : Principal :=
  {| pr_TenantID := ar_TenantID r; pr_ProjectID := ar_ProjectID r; pr_VirtualKeyID := ar_ID r; pr_Prefix := ar_Prefix r;
     pr_AllowedModels := ar_AllowedModels r; pr_Limits := ar_Limits r |}.

Inductive auth_error := InvalidCredential | AuthUnavailable.

(** ** The cache (cache.go) *)
Record cacheEntry := { ce_record : AuthRecord; ce_expiresAt : Time; ce_inserted : Z }.
Record MemoryCache := { mc_entries : gmap string cacheEntry; mc_ttl : Duration; mc_maxEntries : Z; mc_sequence : Z }.

Definition NewMemoryCache (ttl : Duration) (maxEntries : Z) : option MemoryCache :=
  if (ttl <? 0) || (maxEntries <=? 0) then None
  else Some {| mc_entries := ∅; mc_ttl := ttl; mc_maxEntries := maxEntries; mc_sequence := 0 |}.

Definition set_entries (c : MemoryCache) (entries : gmap string cacheEntry) (sequence : Z) : MemoryCache :=
  {| mc_entries := entries; mc_ttl := mc_ttl c; mc_maxEntries := mc_maxEntries c; mc_sequence := sequence |}.

Definition cache_Get (c : MemoryCache) (now : Time) (prefix : string) : MemoryCache * option AuthRecord :=
  if mc_ttl c =? 0 then (c, None)
  else match mc_entries c !! prefix with
       | None => (c, None)
       | Some e =>
           if negb (time_before now (ce_expiresAt e)) then (set_entries c (delete prefix (mc_entries c)) (mc_sequence c), None)
           else (c, Some (ce_record e))
       end.

(** The loop over the map: the first entry met and every older one replaces the choice. *)
Definition older_entry (choice : option (string * Z)) (kv : string * cacheEntry) : option (string * Z) :=
  match choice with
  | None => Some (kv.1, ce_inserted kv.2)
  | Some (_, order) => if ce_inserted kv.2 <? order then Some (kv.1, ce_inserted kv.2) else choice
  end.
Definition evictOldest (entries : gmap string cacheEntry) : gmap string cacheEntry :=
  match foldl older_entry None (map_to_list entries) with
  | Some (prefix, _) => delete prefix entries
  | None => entries
  end.

Definition cache_Set (c : MemoryCache) (now : Time) (prefix : string) (r : AuthRecord) : MemoryCache :=
  if (mc_ttl c =? 0) || bool_decide (prefix = ""%string) || negb (bool_decide (ar_Prefix r = prefix)) then c
  else
    let sequence := u64_add (mc_sequence c) 1 in
    let replacing := bool_decide (is_Some (mc_entries c !! prefix)) in
    let entries := if negb replacing && (mc_maxEntries c <=? Z.of_nat (size (mc_entries c))) then evictOldest (mc_entries c) else mc_entries c in
    set_entries c (<[prefix := {| ce_record := r; ce_expiresAt := time_add now (mc_ttl c); ce_inserted := sequence |}]> entries) sequence.

Definition cache_Invalidate (c : MemoryCache) (prefix : string) : MemoryCache :=
  set_entries c (delete prefix (mc_entries c)) (mc_sequence c).

(** ** The lookup (postgres.go) *)
Definition key_with_prefix (db : KeyDB) (prefix : string) : option KeyRow :=
  snd <$> head (filter (fun kv : string * KeyRow => vk_Prefix (row_key kv.2) = prefix) (map_to_list (kd_keys db))).

Inductive lookup_error := RecordNotFound | LookupFailed.

(** The row joined with the states of its tenant and project. *)
Definition joined (db : KeyDB) (row : KeyRow) : option (string * string) :=
  let r := row_key row in
  match kd_tenants db !! vk_TenantID r, kd_projects db !! (vk_TenantID r, vk_ProjectID r) with
  | Some t, Some p => Some (t, p)
  | _, _ => None
  end.

Definition auth_record (r : KeyRecord) (limits : option KeyLimits) (tenant project : string) : AuthRecord :=
  {| ar_ID := vk_ID r; ar_TenantID := vk_TenantID r; ar_ProjectID := vk_ProjectID r; ar_Prefix := vk_Prefix r;
     ar_SecretHash := vk_SecretHash r; ar_HashKeyVersion := vk_HashKeyVersion r; ar_Status := vk_Status r;
     ar_ExpiresAt := vk_ExpiresAt r; ar_AllowedModels := vk_AllowedModels r; ar_Limits := limits;
     ar_RotationGraceExpiresAt := vk_RotationGraceExpiresAt r; ar_TenantStatus := tenant; ar_ProjectStatus := project |}.

Definition auth_Lookup (faults : Faults) (db : KeyDB) (prefix : string) : result AuthRecord lookup_error :=
  match fl_statement faults 0 with
  | Some _ => Err LookupFailed
  | None =>
      match key_with_prefix db prefix with
      | None => Err RecordNotFound
      | Some row =>
          match joined db row with
          | None => Err RecordNotFound
          | Some (t, p) =>
              match decodeLimits (row_limits row) with
              | Ok l => Ok (auth_record (row_key row) l t p)
              | Err _ => Err LookupFailed
              end
          end
      end
  end.

(** ** Credentials (authenticator.go) *)
Definition maximumAuthorizationLength : nat := 256.
Definition expectedSecretBytes : nat := 32.

Definition parseCredential (credential : string) : option (string * list Z) :=
  if Nat.leb 1 (String.length credential) && Nat.leb (String.length credential) maximumAuthorizationLength &&
     bool_decide (TrimSpace credential = credential)
  then
    let '(prefix, encodedSecret, ok) := cut_at "."%char credential in
    if ok && negb (contains_char "."%char encodedSecret) && credentialPrefixPattern prefix then
      match base64_decode encodedSecret with
      | Some secret =>
          if Nat.eqb (length secret) expectedSecretBytes && bool_decide (base64_encode secret = encodedSecret)
          then Some (prefix, secret) else None
      | None => None
      end
    else None
  else None.

Definition bearerCredential (values : list string) : option string :=
  match values with
  | [value] =>
      if Nat.leb (String.length value) (maximumAuthorizationLength + 7) then
        match Fields value with
        | [scheme; credential] => if bool_decide (ToLower scheme = "bearer"%string) then Some credential else None
        | _ => None
        end
      else None
  | _ => None
  end.

Definition recordUsable (r : AuthRecord) (now : Time) : bool :=
  bool_decide (ar_TenantStatus r = "active"%string) && bool_decide (ar_ProjectStatus r = "active"%string) &&
  negb (elapsed (ar_ExpiresAt r) now) &&
  match ar_Status r with
  | StateActive => true
  | StateRotating => match ar_RotationGraceExpiresAt r with Some t => time_before now t | None => false end
  | _ => false
  end.

Section Authenticator.
Context (hmac_sha256 : list Z -> list Z -> list Z).

(** *** The keyring (keyring.go) *)
Record Keyring := { kr_currentVersion : string; kr_digesters : gmap string HMACDigester }.

Fixpoint retain (current : string) (retained : list (string * list Z)) (digesters : gmap string HMACDigester) : option (gmap string HMACDigester) :=
  match retained with
  | [] => Some digesters
  | (version, key) :: rest =>
      if bool_decide (version = current) then None
      else d ← NewHMACDigester version key; retain current rest (<[version := d]> digesters)
  end.

Definition NewKeyring (currentVersion : string) (currentKey : list Z) (retained : gmap string (list Z)) : option Keyring :=
  current ← NewHMACDigester currentVersion currentKey;
  digesters ← retain currentVersion (map_to_list retained) {[currentVersion := current]};
  Some {| kr_currentVersion := currentVersion; kr_digesters := digesters |}.

(** (matched, versionKnown) *)
Definition Verify (k : Keyring) (version prefix : string) (secret expected : list Z) : bool * bool :=
  match kr_digesters k !! version with
  | None => (false, false)
  | Some d => (bool_decide (Digest hmac_sha256 d prefix secret = expected), true)
  end.

(** *** Authenticate, in the pieces between which other requests may run *)

(** After the record is at hand. *)
Definition decide_record (k : Keyring) (prefix : string) (secret : list Z) (r : AuthRecord) (now : Time) : result Principal auth_error :=
  ensure bool_decide (ar_Prefix r = prefix) && Nat.eqb (length (ar_SecretHash r)) expectedSecretBytes else AuthUnavailable in
  let '(matched, versionKnown) := Verify k (ar_HashKeyVersion r) prefix secret (ar_SecretHash r) in
  ensure versionKnown else AuthUnavailable in
  ensure matched && recordUsable r now else InvalidCredential in
  Ok (principal r).

(** After the lookup: a record is cached, then judged. *)
Definition after_lookup (k : Keyring) (c : MemoryCache) (setAt judgedAt : Time) (prefix : string) (secret : list Z)
    (found : result AuthRecord lookup_error) : MemoryCache * result Principal auth_error :=
  match found with
  | Err RecordNotFound => (c, Err InvalidCredential)
  | Err LookupFailed => (c, Err AuthUnavailable)
  | Ok r => (cache_Set c setAt prefix r, decide_record k prefix secret r judgedAt)
  end.

(** The whole call: [getAt], [setAt] and [judgedAt] are the clock's readings, [lookup] is
    what the store answers. *)
Definition Authenticate (k : Keyring) (c : MemoryCache) (getAt setAt judgedAt : Time) (lookup : string -> result AuthRecord lookup_error)
    (credential : string) : MemoryCache * result Principal auth_error :=
  match parseCredential credential with
  | None => (c, Err InvalidCredential)
  | Some (prefix, secret) =>
      match cache_Get c getAt prefix with
      | (c, Some r) => (c, decide_record k prefix secret r judgedAt)
      | (c, None) => after_lookup k c setAt judgedAt prefix secret (lookup prefix)
      end
  end.

(** *** Middleware *)
Notation HTTPHeader := (gmap string (list string)).

(** The response of the error branch: status, code and whether a retry is advertised. *)
Record ErrorResponse := { er_status : Z; er_code : string; er_retryable : bool }.
Definition writeAuthenticationError (e : auth_error) : ErrorResponse :=
  match e with
  | AuthUnavailable => {| er_status := 503; er_code := "AUTHENTICATION_UNAVAILABLE"; er_retryable := true |}
  | InvalidCredential => {| er_status := 401; er_code := "INVALID_API_KEY"; er_retryable := false |}
  end.

Definition strip_identity (h : HTTPHeader) : HTTPHeader :=
  delete "X-Virtual-Key-Id"%string (delete "X-Project-Id"%string (delete "X-Tenant-Id"%string (delete "Authorization"%string h))).

(** What reaches the next handler: the request's headers and the trusted identity. *)
Definition Middleware (k : Keyring) (c : MemoryCache) (getAt setAt judgedAt : Time) (lookup : string -> result AuthRecord lookup_error)
    (h : HTTPHeader) : MemoryCache * result (HTTPHeader * Principal) ErrorResponse :=
  match bearerCredential (default [] (h !! "Authorization"%string)) with
  | None => (c, Err (writeAuthenticationError InvalidCredential))
  | Some credential =>
      match Authenticate k c getAt setAt judgedAt lookup credential with
      | (c, Err e) => (c, Err (writeAuthenticationError e))
      | (c, Ok p) => (c, Ok (strip_identity h, p))
      end
  end.
End Authenticator.

(** ** Authentication: what a gateway accepts, over every interleaving

    Requests in flight, transactions of the control plane and cache invalidations interleave
    at the points where Authenticate releases the cache's lock or waits for the database.
    Every acceptance is backed by a row the table held, a bounded time before. *)
(** ** The cache *)
Record cache_wf (c : MemoryCache) : Prop := {
  cw_bound : Z.of_nat (size (mc_entries c)) <= mc_maxEntries c;
  cw_capacity : 0 < mc_maxEntries c;
  cw_ttl : 0 <= mc_ttl c;
  cw_keyed : forall prefix e, mc_entries c !! prefix = Some e -> ar_Prefix (ce_record e) = prefix }.

(** The loop of evictOldest chooses an entry that no other entry is older than. *)
Lemma older_spec l : forall choice, (l <> [] \/ choice <> None) -> exists k o, foldl older_entry choice l = Some (k, o) /\
  (choice = Some (k, o) \/ exists e, (k, e) ∈ l /\ ce_inserted e = o) /\
  (forall k' e', (k', e') ∈ l -> o <= ce_inserted e') /\ (forall k' o', choice = Some (k', o') -> o <= o').
Proof.
  induction l as [|[k e] l IH]; intros choice Hne.
  - destruct choice as [[k o]|]; [|by destruct Hne]. exists k, o. split_and!; [done|by left|by intros ? ? ?%not_elem_of_nil|intros ? ? [= -> ->]; lia].
  - simpl. destruct (IH (older_entry choice (k, e))) as (k1 & o1 & -> & Hfrom & Hmin & Hch).
    { right. unfold older_entry. destruct choice as [[? ?]|]; [by case_match|done]. }
    exists k1, o1. split; [done|].
    assert (o1 <= ce_inserted e /\ forall k' o', choice = Some (k', o') -> o1 <= o') as [M1 M2].
    { unfold older_entry in Hch. destruct choice as [[k0 o0]|]; simpl in *.
      - destruct (ce_inserted e <? o0) eqn:E; [apply Z.ltb_lt in E|apply Z.ltb_ge in E]; specialize (Hch _ _ eq_refl); split; try lia; intros ? ? [= <- <-]; lia.
      - specialize (Hch _ _ eq_refl). split; [lia|done]. }
    split_and!; [|intros k' e' [[= -> ->]|H]%elem_of_cons; eauto|done].
    destruct Hfrom as [Hc|(e1 & Hin & <-)]; [|right; exists e1; split; [by right|done]].
    unfold older_entry in Hc. destruct choice as [[k0 o0]|]; simpl in Hc.
    + destruct (ce_inserted e <? o0); [injection Hc as <- <-; right; exists e; split; [by left|done]|by left].
    + injection Hc as <- <-. right. exists e. split; [by left|done].
Qed.

Lemma evictOldest_spec entries : entries <> ∅ -> exists k e, entries !! k = Some e /\ evictOldest entries = delete k entries /\
  forall k' e', entries !! k' = Some e' -> ce_inserted e <= ce_inserted e'.
Proof.
  intros Hne. unfold evictOldest. destruct (older_spec (map_to_list entries) None) as (k & o & -> & [|(e & Hin & <-)] & Hmin & _); [|done|].
  { left. by rewrite map_to_list_empty_iff. }
  apply elem_of_map_to_list in Hin. exists k, e. split_and!; [done|done|]. intros k' e' H. by eapply Hmin, elem_of_map_to_list.
Qed.

Lemma delete_size (entries : gmap string cacheEntry) prefix : (size (delete prefix entries) <= size entries)%nat.
Proof. rewrite map_size_delete. destruct (entries !! prefix); simpl; lia. Qed.

Lemma cache_Get_wf c now prefix : cache_wf c -> cache_wf (cache_Get c now prefix).1.
Proof.
  intros Hwf. unfold cache_Get. repeat case_match; simpl; try done. destruct Hwf as [B K T F]. split; simpl; try done.
  - pose proof (delete_size (mc_entries c) prefix). lia.
  - intros p e [_ H']%lookup_delete_Some. eauto.
Qed.

Lemma evict_smaller entries : entries <> ∅ -> (size (evictOldest entries) < size entries)%nat.
Proof.
  intros Hne. destruct (evictOldest_spec _ Hne) as (k & e & Hk & -> & _). rewrite map_size_delete_Some by eauto.
  assert (size entries <> 0%nat) by (by intros ?%map_size_empty_iff). lia.
Qed.

Lemma evict_subset entries k e : evictOldest entries !! k = Some e -> entries !! k = Some e.
Proof. unfold evictOldest. destruct (foldl older_entry None _) as [[k' o]|]; [|done]. by intros [_ ?]%lookup_delete_Some. Qed.

Lemma cache_Set_wf c now prefix r : cache_wf c -> cache_wf (cache_Set c now prefix r).
Proof.
  intros Hwf. unfold cache_Set. destruct (_ || _ || _) eqn:G; [done|]. apply orb_false_iff in G as [_ Hp%negb_false_iff%bool_decide_eq_true].
  destruct Hwf as [B K T F]. split; simpl; try done.
  - destruct (mc_entries c !! prefix) eqn:E.
    + rewrite (bool_decide_eq_true_2 (is_Some _)) by done. simpl. rewrite map_size_insert_Some by done. done.
    + rewrite (bool_decide_eq_false_2 (is_Some _)) by (by intros [? ?]). simpl.
      destruct (mc_maxEntries c <=? Z.of_nat (size (mc_entries c))) eqn:L.
      * apply Z.leb_le in L. assert (mc_entries c <> ∅) as Hne by (intros E'; rewrite E', map_size_empty in L; lia).
        pose proof (evict_smaller _ Hne). rewrite map_size_insert_None; [lia|]. apply eq_None_not_Some. intros [e He%evict_subset]. congruence.
      * apply Z.leb_gt in L. rewrite map_size_insert_None by done. lia.
  - intros p e [[<- <-]|[_ He]]%lookup_insert_Some; [done|]. case_match; [apply evict_subset in He|]; eauto.
Qed.

Lemma cache_Invalidate_wf c prefix : cache_wf c -> cache_wf (cache_Invalidate c prefix).
Proof.
  intros [B K T F]. split; simpl; try done.
  - pose proof (delete_size (mc_entries c) prefix). lia.
  - intros p e [_ H']%lookup_delete_Some. eauto.
Qed.

Lemma NewMemoryCache_wf ttl maxEntries c : NewMemoryCache ttl maxEntries = Some c -> cache_wf c.
Proof.
  unfold NewMemoryCache. destruct (_ || _) eqn:G; [done|]. intros [= <-]. apply orb_false_iff in G as [?%Z.ltb_ge ?%Z.leb_gt].
  split; simpl; [rewrite map_size_empty; lia|lia|lia|]. intros p e. by rewrite lookup_empty.
Qed.

(** What a hit says, and where an entry of the cache comes from. *)
Lemma cache_Get_hit c now prefix c' r : cache_Get c now prefix = (c', Some r) ->
  c' = c /\ exists e, mc_entries c !! prefix = Some e /\ ce_record e = r /\ now < ce_expiresAt e.
Proof.
  unfold cache_Get. repeat case_match; intros [= <- <-]. split; [done|]. prop_hyps. unfold time_before in *. prop_hyps. eauto.
Qed.

Lemma cache_Get_subset c now prefix k e : mc_entries (cache_Get c now prefix).1 !! k = Some e -> mc_entries c !! k = Some e.
Proof. unfold cache_Get. repeat case_match; simpl; try done. by intros [_ ?]%lookup_delete_Some. Qed.

Lemma cache_Set_entry c now prefix r k e : mc_entries (cache_Set c now prefix r) !! k = Some e ->
  mc_entries c !! k = Some e \/ (k = prefix /\ ce_record e = r /\ ce_expiresAt e = now + mc_ttl c).
Proof.
  unfold cache_Set. destruct (_ || _ || _); [by left|]. simpl. intros [[<- <-]|[_ He]]%lookup_insert_Some; [by right|left].
  case_match; [by apply evict_subset|done].
Qed.

Lemma cache_Set_ttl c now prefix r : mc_ttl (cache_Set c now prefix r) = mc_ttl c.
Proof. unfold cache_Set. by destruct (_ || _ || _). Qed.

Lemma cache_Get_ttl c now prefix : mc_ttl (cache_Get c now prefix).1 = mc_ttl c.
Proof. unfold cache_Get. by repeat case_match. Qed.

(** ** Lookups *)
Lemma key_with_prefix_sound db prefix row : key_with_prefix db prefix = Some row -> exists id, kd_keys db !! id = Some row /\ vk_Prefix (row_key row) = prefix.
Proof.
  unfold key_with_prefix. destruct (filter _ _) as [|[id x] l] eqn:E; [done|]. intros [= <-]. exists id.
  assert ((id, x) ∈ filter (fun kv : string * KeyRow => vk_Prefix (row_key kv.2) = prefix) (map_to_list (kd_keys db))) as H by (rewrite E; left).
  apply list_elem_of_filter in H as [? ?%elem_of_map_to_list]. done.
Qed.

Lemma key_with_prefix_complete db id row : db_wf db -> kd_keys db !! id = Some row -> key_with_prefix db (vk_Prefix (row_key row)) = Some row.
Proof.
  intros Hwf Hrow. unfold key_with_prefix. destruct (filter _ _) as [|[j x] l] eqn:E.
  - assert ((id, row) ∈ filter (fun kv : string * KeyRow => vk_Prefix (row_key kv.2) = vk_Prefix (row_key row)) (map_to_list (kd_keys db))) as H.
    { apply list_elem_of_filter. split; [done|]. by apply elem_of_map_to_list. }
    rewrite E in H. by apply not_elem_of_nil in H.
  - assert ((j, x) ∈ filter (fun kv : string * KeyRow => vk_Prefix (row_key kv.2) = vk_Prefix (row_key row)) (map_to_list (kd_keys db))) as H by (rewrite E; left).
    apply list_elem_of_filter in H as [Hp Hj%elem_of_map_to_list]. simpl in *. f_equal.
    assert (j = id) as -> by (eapply (wf_prefix db Hwf); eauto). congruence.
Qed.

(** What a record of the lookup says about the tables. *)
Definition stands_for (db : KeyDB) (prefix : string) (r : AuthRecord) : Prop :=
  exists id row l, kd_keys db !! id = Some row /\ vk_Prefix (row_key row) = prefix /\ decodeLimits (row_limits row) = Ok l /\
    kd_tenants db !! vk_TenantID (row_key row) = Some (ar_TenantStatus r) /\
    kd_projects db !! (vk_TenantID (row_key row), vk_ProjectID (row_key row)) = Some (ar_ProjectStatus r) /\
    r = auth_record (row_key row) l (ar_TenantStatus r) (ar_ProjectStatus r).

Lemma auth_Lookup_sound faults db prefix r : auth_Lookup faults db prefix = Ok r -> stands_for db prefix r.
Proof.
  unfold auth_Lookup. destruct (fl_statement faults 0); [done|]. destruct (key_with_prefix db prefix) as [row|] eqn:E; [|done].
  unfold joined. destruct (kd_tenants db !! _) as [t|] eqn:Et; [|done]. destruct (kd_projects db !! _) as [p|] eqn:Ep; [|done].
  destruct (decodeLimits (row_limits row)) as [l|] eqn:El; [|done]. intros [= <-].
  destruct (key_with_prefix_sound _ _ _ E) as (id & Hrow & Hp). exists id, row, l. split_and!; done.
Qed.

(** ** The gateway *)
Inductive phase := Looking | Found (answer : result AuthRecord lookup_error) | Holding (r : AuthRecord).
Record InFlight := { fl_prefix : string; fl_secret : list Z; fl_started : Time; fl_phase : phase }.
Definition set_phase (f : InFlight) (p : phase) : InFlight :=
  {| fl_prefix := fl_prefix f; fl_secret := fl_secret f; fl_started := fl_started f; fl_phase := p |}.

(** [g_past] lists the instants and the tables there were, the present one first. *)
Record Gateway := { g_db : KeyDB; g_now : Time; g_cache : MemoryCache; g_flight : gmap nat InFlight; g_past : list (Time * KeyDB) }.

Definition move (s : Gateway) (now : Time) (db : KeyDB) : Gateway :=
  {| g_db := db; g_now := now; g_cache := g_cache s; g_flight := g_flight s; g_past := (now, db) :: g_past s |}.
Definition local_step (s : Gateway) (c : MemoryCache) (flight : gmap nat InFlight) : Gateway :=
  {| g_db := g_db s; g_now := g_now s; g_cache := c; g_flight := flight; g_past := g_past s |}.

Section Machine.
Context (hmac_sha256 : list Z -> list Z -> list Z) (k : Keyring) (delta : Duration).

(** A request ends within [delta] of its start. *)
Definition in_time (s : Gateway) (f : InFlight) : Prop := g_now s <= fl_started f + delta.

Inductive outcome := Judged (prefix : string) (secret : list Z) (answer : result Principal auth_error).

Inductive gw_step (s : Gateway) : option outcome -> Gateway -> Prop :=
| gw_tick now : g_now s <= now -> gw_step s None (move s now (g_db s))
| gw_table db : key_step (g_db s) db -> gw_step s None (move s (g_now s) db)
| gw_invalidate prefix : gw_step s None (local_step s (cache_Invalidate (g_cache s) prefix) (g_flight s))
| gw_begin i credential prefix secret c found :
    g_flight s !! i = None -> parseCredential credential = Some (prefix, secret) ->
    cache_Get (g_cache s) (g_now s) prefix = (c, found) ->
    gw_step s None (local_step s c (<[i := {| fl_prefix := prefix; fl_secret := secret; fl_started := g_now s;
                                             fl_phase := match found with Some r => Holding r | None => Looking end |}]> (g_flight s)))
| gw_lookup i f faults :
    g_flight s !! i = Some f -> fl_phase f = Looking ->
    gw_step s None (local_step s (g_cache s) (<[i := set_phase f (Found (auth_Lookup faults (g_db s) (fl_prefix f)))]> (g_flight s)))
| gw_failed i f e :
    g_flight s !! i = Some f -> fl_phase f = Found (Err e) ->
    gw_step s (Some (Judged (fl_prefix f) (fl_secret f) (Err (match e with RecordNotFound => InvalidCredential | LookupFailed => AuthUnavailable end))))
      (local_step s (g_cache s) (delete i (g_flight s)))
| gw_store i f r :
    g_flight s !! i = Some f -> fl_phase f = Found (Ok r) -> in_time s f ->
    gw_step s None (local_step s (cache_Set (g_cache s) (g_now s) (fl_prefix f) r) (<[i := set_phase f (Holding r)]> (g_flight s)))
| gw_judge i f r :
    g_flight s !! i = Some f -> fl_phase f = Holding r -> in_time s f ->
    gw_step s (Some (Judged (fl_prefix f) (fl_secret f) (decide_record hmac_sha256 k (fl_prefix f) (fl_secret f) r (g_now s))))
      (local_step s (g_cache s) (delete i (g_flight s))).

Definition gw_silent (s s' : Gateway) : Prop := exists o, gw_step s o s'.

Definition starts (s : Gateway) : Prop :=
  db_wf (g_db s) /\ cache_wf (g_cache s) /\ mc_entries (g_cache s) = ∅ /\ g_flight s = ∅ /\ g_past s = [(g_now s, g_db s)].

(** *** The invariant: every record held was a row of the table, not long ago *)
Definition seen (s : Gateway) (prefix : string) (r : AuthRecord) (since : Time) : Prop :=
  exists t db, (t, db) ∈ g_past s /\ stands_for db prefix r /\ since <= t.

Record gw_inv (s : Gateway) : Prop := {
  gi_db : db_wf (g_db s);
  gi_cache : cache_wf (g_cache s);
  gi_present : (g_now s, g_db s) ∈ g_past s;
  gi_past : forall t db, (t, db) ∈ g_past s -> t <= g_now s /\ table_evolves db (g_db s);
  gi_entries : forall prefix e, mc_entries (g_cache s) !! prefix = Some e -> seen s prefix (ce_record e) (ce_expiresAt e - delta - mc_ttl (g_cache s));
  gi_started : forall i f, g_flight s !! i = Some f -> fl_started f <= g_now s;
  gi_flight : forall i f, g_flight s !! i = Some f ->
    match fl_phase f with
    | Looking | Found (Err _) => True
    | Found (Ok r) => seen s (fl_prefix f) r (fl_started f)
    | Holding r => seen s (fl_prefix f) r (fl_started f - delta - mc_ttl (g_cache s))
    end }.

Lemma starts_inv s : starts s -> gw_inv s.
Proof.
  intros (Hdb & Hc & He & Hf & Hp). split; try done.
  - rewrite Hp. left.
  - intros t db. rewrite Hp. intros [= -> ->]%list_elem_of_singleton. split; [lia|reflexivity].
  - intros p e. by rewrite He, lookup_empty.
  - intros i f. by rewrite Hf, lookup_empty.
  - intros i f. by rewrite Hf, lookup_empty.
Qed.

Lemma seen_more s s' prefix r since since' : seen s prefix r since -> (forall x, x ∈ g_past s -> x ∈ g_past s') -> since' <= since -> seen s' prefix r since'.
Proof. intros (t & db & Hin & Hr & Ht) Hsub Hs. exists t, db. split_and!; [by apply Hsub|done|lia]. Qed.

(** The table moves on, or time does. *)
Lemma move_inv s now db : gw_inv s -> g_now s <= now -> db_wf db -> table_evolves (g_db s) db -> gw_inv (move s now db).
Proof.
  intros [Gd Gc Gn Gp Ge Gs Gf] Hn Hdb Hev. assert (forall x, x ∈ g_past s -> x ∈ g_past (move s now db)) as Sub by (intros; by right).
  split; simpl; try done.
  - left.
  - intros t x [[= -> ->]|Hin]%elem_of_cons; [split; [lia|reflexivity]|]. destruct (Gp _ _ Hin). split; [lia|]. by transitivity (g_db s).
  - intros p e He. eapply seen_more; [by apply Ge|done|simpl; lia].
  - intros i f Hf. specialize (Gs _ _ Hf). lia.
  - intros i f Hf. specialize (Gf _ _ Hf). destruct (fl_phase f) as [|[|]|]; try done; (eapply seen_more; [exact Gf|done|simpl; lia]).
Qed.

(** A step of the gateway itself keeps the invariant if the cache's entries and the
    requests in flight have their origin. *)
Lemma local_inv s c flight : gw_inv s -> 0 <= delta ->
  cache_wf c -> mc_ttl c = mc_ttl (g_cache s) ->
  (forall prefix e, mc_entries c !! prefix = Some e -> mc_entries (g_cache s) !! prefix = Some e \/ seen s prefix (ce_record e) (ce_expiresAt e - delta - mc_ttl c)) ->
  (forall i f, flight !! i = Some f -> g_flight s !! i = Some f \/ fl_started f <= g_now s /\
    match fl_phase f with
    | Looking | Found (Err _) => True
    | Found (Ok r) => seen s (fl_prefix f) r (fl_started f)
    | Holding r => seen s (fl_prefix f) r (fl_started f - delta - mc_ttl c)
    end) -> gw_inv (local_step s c flight).
Proof.
  intros [Gd Gc Gn Gp Ge Gs Gf] Hd Hc Ht Hent Hfl. split; simpl; try done.
  - intros p e He. destruct (Hent p e He) as [H|H]; [|by apply H]. rewrite Ht. by apply Ge.
  - intros i f Hf. destruct (Hfl i f Hf) as [H|[H _]]; [by eapply Gs|done].
  - intros i f Hf. destruct (Hfl i f Hf) as [H|[_ H]]; [|by destruct (fl_phase f) as [|[|]|]]. specialize (Gf _ _ H). rewrite Ht. by destruct (fl_phase f) as [|[|]|].
Qed.

Lemma gw_step_inv s o s' : 0 <= delta -> gw_inv s -> gw_step s o s' -> gw_inv s'.
Proof.
  intros Hd Hi Hs. pose proof Hi as [Gd Gc Gn Gp Ge Gs Gf]. pose proof (cw_ttl _ Gc) as Httl.
  destruct Hs as [now Hn|db Hk|prefix|i cred prefix secret c found Hfree Hparse Hget|i f faults Hf Hph|i f e Hf Hph|i f r Hf Hph Hin|i f r Hf Hph Hin].
  - by apply move_inv.
  - destruct (key_step_sound _ _ Gd Hk). by apply move_inv.
  - apply local_inv; try done; [by apply cache_Invalidate_wf| |by left]. simpl. intros p e [_ He]%lookup_delete_Some. by left.
  - pose proof (cache_Get_wf _ (g_now s) prefix Gc) as Hw. pose proof (cache_Get_ttl (g_cache s) (g_now s) prefix) as Ht. rewrite Hget in Hw, Ht.
    apply local_inv; try done.
    + intros p e He. left. apply (cache_Get_subset _ (g_now s) prefix). by rewrite Hget.
    + intros j f [[<- <-]|[_ Hf]]%lookup_insert_Some; [right|by left]. simpl. split; [lia|]. destruct found as [r|]; [|done].
      destruct (cache_Get_hit _ _ _ _ _ Hget) as (_ & e & He & <- & Hlt). eapply seen_more; [by apply Ge|done|]. simpl in Ht. lia.
  - apply local_inv; try done; [by left|]. intros j x [[<- <-]|[_ Hx]]%lookup_insert_Some; [right|by left]. simpl. split; [by eapply Gs|].
    destruct (auth_Lookup faults (g_db s) (fl_prefix f)) as [r|] eqn:E; [|done]. exists (g_now s), (g_db s). split_and!; [done|by eapply auth_Lookup_sound|by eapply Gs].
  - apply local_inv; try done; [by left|]. intros j x [_ Hx]%lookup_delete_Some. by left.
  - pose proof (Gf _ _ Hf) as Hseen. rewrite Hph in Hseen. unfold in_time in Hin. pose proof (Gs _ _ Hf).
    apply local_inv; try done; [by apply cache_Set_wf|apply cache_Set_ttl|..].
    + intros p e [He|(-> & <- & Hexp)]%cache_Set_entry; [by left|right]. rewrite cache_Set_ttl. eapply seen_more; [exact Hseen|done|lia].
    + intros j x [[<- <-]|[_ Hx]]%lookup_insert_Some; [right|by left]. simpl. split; [done|]. rewrite cache_Set_ttl. eapply seen_more; [exact Hseen|done|lia].
  - apply local_inv; try done; [by left|]. intros j x [_ Hx]%lookup_delete_Some. by left.
Qed.

Lemma gw_reaches_inv s s' : 0 <= delta -> gw_inv s -> rtc gw_silent s s' -> gw_inv s'.
Proof. intros Hd Hi H. revert Hi. induction H as [|x y z [o Ho] _ IH]; [done|]. intros Hi. apply IH. by eapply gw_step_inv. Qed.

Lemma gw_ttl s o s' : gw_step s o s' -> mc_ttl (g_cache s') = mc_ttl (g_cache s).
Proof.
  intros [now Hn|db Hk|prefix|i cred prefix secret c found Hfree Hparse Hget|i f faults Hf Hph|i f e Hf Hph|i f r Hf Hph Hin|i f r Hf Hph Hin]; simpl; try done.
  - rewrite <- (cache_Get_ttl (g_cache s) (g_now s) prefix). by rewrite Hget.
  - apply cache_Set_ttl.
Qed.

(** What the decision on a record established. *)
Lemma decide_record_ok prefix secret r now p : decide_record hmac_sha256 k prefix secret r now = Ok p ->
  p = principal r /\ recordUsable r now = true /\ exists d, kr_digesters k !! ar_HashKeyVersion r = Some d /\ Digest hmac_sha256 d prefix secret = ar_SecretHash r.
Proof.
  unfold decide_record, Verify. intros H. apply ensure_Ok in H as [_ H]. destruct (kr_digesters k !! ar_HashKeyVersion r) as [d|]; [|done].
  apply ensure_Ok in H as [[Hm%bool_decide_eq_true Hu]%andb_true_iff [= <-]]. eauto.
Qed.

(** An acceptance is backed by a row that the table held at most [ttl + 2 delta] before. *)
Lemma accepted_was_held s s' prefix secret p : 0 <= delta -> gw_inv s -> gw_step s (Some (Judged prefix secret (Ok p))) s' ->
  exists t db r, (t, db) ∈ g_past s /\ g_now s - (mc_ttl (g_cache s) + 2 * delta) <= t <= g_now s /\ stands_for db prefix r /\
    p = principal r /\ recordUsable r (g_now s) = true /\
    exists d, kr_digesters k !! ar_HashKeyVersion r = Some d /\ Digest hmac_sha256 d prefix secret = ar_SecretHash r.
Proof.
  intros Hd [Gd Gc Gn Gp Ge Gs Gf] H. inversion H as [| | | | | | |i f r Hf Hph Hin]; subst.
  match goal with E : decide_record _ _ _ _ _ _ = _ |- _ => rename E into Eo end. pose proof (Gf _ _ Hf) as Hseen. rewrite Hph in Hseen. destruct Hseen as (t & db & Hpast & Hr & Ht).
  exists t, db, r. unfold in_time in Hin. destruct (Gp _ _ Hpast) as [Hle _]. apply decide_record_ok in Eo as (-> & Hu & Hm). split_and!; try done; lia.
Qed.
End Machine.

(** The row admits its holder at [now]. *)
Definition admits (r : KeyRecord) (now : Time) : Prop :=
  (forall t, vk_ExpiresAt r = Some t -> now < t) /\
  (vk_Status r = StateActive \/ vk_Status r = StateRotating /\ exists g, vk_RotationGraceExpiresAt r = Some g /\ now < g).

Lemma elapsed_false deadline now : elapsed deadline now = false -> forall t, deadline = Some t -> now < t.
Proof. intros H t ->. unfold elapsed, time_before in H. prop_hyps. done. Qed.

Lemma usable_admits r l t p now : recordUsable (auth_record r l t p) now = true -> t = "active"%string /\ p = "active"%string /\ admits r now.
Proof.
  unfold recordUsable, admits. simpl. intros [[[->%bool_decide_eq_true ->%bool_decide_eq_true]%andb_true_iff Hx%negb_true_iff]%andb_true_iff Hs]%andb_true_iff.
  split_and!; [done|done|by apply elapsed_false|]. destruct (vk_Status r); try done; [by left|right]. split; [done|].
  destruct (vk_RotationGraceExpiresAt r) as [g|]; [|done]. unfold time_before in Hs. prop_hyps. eauto.
Qed.

(** The tables of a run's past, as seen from a later state. *)
Lemma past_grows hmac_sha256 k delta s s' : 0 <= delta -> gw_inv delta s -> rtc (gw_silent hmac_sha256 k delta) s s' ->
  mc_ttl (g_cache s') = mc_ttl (g_cache s) /\ g_now s <= g_now s' /\
  forall t db, (t, db) ∈ g_past s' -> (t, db) ∈ g_past s \/ table_evolves (g_db s) db /\ g_now s <= t.
Proof.
  intros Hd Hi H. revert Hi. induction H as [s|s s1 s' [o Ho] _ IH]; [intros; split_and!; [done|lia|by left]|]. intros Hi.
  pose proof (gw_step_inv _ _ _ _ _ _ Hd Hi Ho) as Hi1. destruct (IH Hi1) as (IHt & IHn & IHp). rewrite IHt, (gw_ttl _ _ _ _ _ _ Ho).
  assert (g_now s <= g_now s1 /\ table_evolves (g_db s) (g_db s1) /\ forall x, x ∈ g_past s1 -> x ∈ g_past s \/ x = (g_now s1, g_db s1)) as (Hn & He & Hp).
  { destruct Ho as [now Hnow|db Hk| | | | | |]; simpl; split_and!; try done; try lia; try reflexivity; try (by left); try (intros x [->|?]%elem_of_cons; [by right|by left]).
    by destruct (key_step_sound _ _ (gi_db _ _ Hi) Hk). }
  split_and!; [done|lia|]. intros t db Hin. destruct (IHp _ _ Hin) as [[|[= -> ->]]%Hp|[He1 ?]]; [by left|by right|right]. split; [by transitivity (g_db s1)|lia].
Qed.

(** C25: A gateway accepts a credential only if, at most the cache's time to live and
    twice the length of a request before, the table held a row with its prefix whose stored
    digest is the keyed digest of its secret, with active tenant and project; the row admits
    its holder at the very moment of the decision, and the identity passed on is the row's. *)
Theorem accepted_credentials_are_genuine hmac_sha256 k delta s0 s s' prefix secret p :
  0 <= delta -> starts s0 -> rtc (gw_silent hmac_sha256 k delta) s0 s ->
  gw_step hmac_sha256 k delta s (Some (Judged prefix secret (Ok p))) s' ->
  exists t db row d, (t, db) ∈ g_past s /\ g_now s - (mc_ttl (g_cache s) + 2 * delta) <= t <= g_now s /\
    kd_keys db !! pr_VirtualKeyID p = Some row /\ vk_Prefix (row_key row) = prefix /\ pr_Prefix p = prefix /\
    kr_digesters k !! vk_HashKeyVersion (row_key row) = Some d /\
    hmac_sha256 (dg_key d) (bytes_of prefix ++ [0] ++ secret) = vk_SecretHash (row_key row) /\
    admits (row_key row) (g_now s) /\
    pr_TenantID p = vk_TenantID (row_key row) /\ pr_ProjectID p = vk_ProjectID (row_key row) /\
    kd_tenants db !! pr_TenantID p = Some "active"%string /\ kd_projects db !! (pr_TenantID p, pr_ProjectID p) = Some "active"%string /\
    pr_AllowedModels p = vk_AllowedModels (row_key row) /\ decodeLimits (row_limits row) = Ok (pr_Limits p).
Proof.
  intros Hd H0 Hrun Hstep. pose proof (gw_reaches_inv _ _ _ _ _ Hd (starts_inv delta _ H0) Hrun) as Hi.
  destruct (accepted_was_held _ _ _ _ _ _ _ _ Hd Hi Hstep) as (t & db & r & Hin & Ht & (id & row & l & Hrow & Hp & Hl & Hten & Hpro & ->) & -> & Hu & d & Hdig & Hmac).
  destruct (usable_admits _ _ _ _ _ Hu) as (Ea & Eb & Had). simpl in *. rewrite Ea in Hten. rewrite Eb in Hpro.
  exists t, db, row, d. assert (vk_ID (row_key row) = id) as Hid.
  { destruct (gi_past _ _ Hi _ _ Hin) as [_ Hev]. destruct (Hev _ _ Hrow) as (b & Hb & Hev'). destruct (wf_row _ (gi_db _ _ Hi) _ _ Hb) as (Hb' & _).
    destruct (evolves_same_key _ _ Hev') as (E & _). congruence. }
  rewrite Hid. split_and!; first [done|lia].
Qed.

(** C26: Changes of a key reach the gateway: later than the cache's time to live and
    twice the length of a request after an instant at which the table held a row, the row's
    prefix is accepted only if that row still admits its holder: it was not revoked, and if
    it was being rotated its grace period is not over. *)
Theorem lifecycle_changes_reach_the_gateway hmac_sha256 k delta s0 s1 s2 s3 id row secret p :
  0 <= delta -> starts s0 -> rtc (gw_silent hmac_sha256 k delta) s0 s1 -> kd_keys (g_db s1) !! id = Some row ->
  rtc (gw_silent hmac_sha256 k delta) s1 s2 -> g_now s1 + mc_ttl (g_cache s1) + 2 * delta < g_now s2 ->
  gw_step hmac_sha256 k delta s2 (Some (Judged (vk_Prefix (row_key row)) secret (Ok p))) s3 ->
  pr_VirtualKeyID p = id /\ admits (row_key row) (g_now s2).
Proof.
  intros Hd H0 Hrun1 Hrow Hrun2 Hlate Hstep. pose proof (gw_reaches_inv _ _ _ _ _ Hd (starts_inv delta _ H0) Hrun1) as Hi1.
  pose proof (gw_reaches_inv _ _ _ _ _ Hd Hi1 Hrun2) as Hi2. destruct (past_grows _ _ _ _ _ Hd Hi1 Hrun2) as (Httl & _ & Hpast).
  destruct (accepted_was_held _ _ _ _ _ _ _ _ Hd Hi2 Hstep) as (t & db & r & Hin & Ht & (id' & row' & l & Hrow' & Hp & Hl & Hten & Hpro & ->) & -> & Hu & _).
  destruct (usable_admits _ _ _ _ _ Hu) as (_ & _ & Had). rewrite Httl in Ht.
  destruct (Hpast _ _ Hin) as [Hold|[Hev _]]; [destruct (gi_past _ _ Hi1 _ _ Hold); lia|].
  destruct (Hev _ _ Hrow) as (b & Hb & Hev1). destruct (gi_past _ _ Hi2 _ _ Hin) as [_ Hev2].
  destruct (Hev2 _ _ Hb) as (b2 & Hb2 & Eb), (Hev2 _ _ Hrow') as (r2 & Hr2 & Er).
  pose proof (evolves_same_key _ _ Hev1) as K1. pose proof (evolves_same_key _ _ Eb) as K2. pose proof (evolves_same_key _ _ Er) as K3.
  assert (id' = id) as ->.
  { apply (wf_prefix _ (gi_db _ _ Hi2) id' id r2 b2 Hr2 Hb2). unfold same_identity in *. intuition congruence. }
  assert (row' = b) as -> by congruence. destruct (wf_row _ (gi_db _ _ Hi1) _ _ Hrow) as (Hid & _). split.
  - simpl. destruct K1 as (E & _). congruence.
  - destruct Hev1 as [->|(K & _ & _ & [[Ea Eb']|[Ea Eb']])]; [done|..].
    + split; [|by left]. destruct Had as [Hx _]. destruct K as (_ & _ & _ & _ & _ & _ & Ex & _). by rewrite <- Ex.
    + destruct Had as [_ [E|[E _]]]; congruence.
Qed.

(** In every run of a gateway the cache stays within its capacity, and each of its
    records stands under its own prefix for a row that the table held. *)
Theorem authentication_cache_is_bounded hmac_sha256 k delta s0 s :
  0 <= delta -> starts s0 -> rtc (gw_silent hmac_sha256 k delta) s0 s ->
  Z.of_nat (size (mc_entries (g_cache s))) <= mc_maxEntries (g_cache s) /\
  forall prefix e, mc_entries (g_cache s) !! prefix = Some e ->
    ar_Prefix (ce_record e) = prefix /\ exists t db, (t, db) ∈ g_past s /\ stands_for db prefix (ce_record e) /\ ce_expiresAt e <= t + delta + mc_ttl (g_cache s).
Proof.
  intros Hd H0 Hrun. destruct (gw_reaches_inv _ _ _ _ _ Hd (starts_inv delta _ H0) Hrun) as [Gd Gc Gn Gp Ge Gs Gf]. split; [apply Gc|].
  intros p e He. split; [by apply (cw_keyed _ Gc)|]. destruct (Ge _ _ He) as (t & db & ? & ? & ?). exists t, db. split_and!; [done|done|lia].
Qed.

Lemma strip_identity_lookup h name :
  strip_identity h !! name =
    if bool_decide (name ∈ ["Authorization"; "X-Tenant-Id"; "X-Project-Id"; "X-Virtual-Key-Id"]%string) then None else h !! name.
Proof.
  unfold strip_identity. case_bool_decide as Hin.
  - apply eq_None_not_Some. intros [v H]. repeat (apply lookup_delete_Some in H as [? H]). set_solver.
  - rewrite !lookup_delete_ne; [done|..]; intros <-; apply Hin; set_solver.
Qed.

(** The next handler runs only for a request with exactly one Authorization header
    whose credential authenticates; it receives the authenticated identity, none of the
    headers in which a client could assert one, and every other header unchanged. Any other
    request is answered 503 if no trustworthy decision could be made and 401 otherwise. *)
Theorem middleware_passes_only_verified_identity hmac_sha256 k c getAt setAt judgedAt lookup h :
  match (Middleware hmac_sha256 k c getAt setAt judgedAt lookup h).2 with
  | Ok (h', p) => exists value credential, h !! "Authorization"%string = Some [value] /\ bearerCredential [value] = Some credential /\
      (Authenticate hmac_sha256 k c getAt setAt judgedAt lookup credential).2 = Ok p /\
      forall name, h' !! name = if bool_decide (name ∈ ["Authorization"; "X-Tenant-Id"; "X-Project-Id"; "X-Virtual-Key-Id"]%string) then None else h !! name
  | Err response =>
      (er_status response = 401 /\ er_code response = "INVALID_API_KEY"%string /\
        forall credential p, bearerCredential (default [] (h !! "Authorization"%string)) = Some credential ->
          (Authenticate hmac_sha256 k c getAt setAt judgedAt lookup credential).2 <> Ok p) \/
      (er_status response = 503 /\ er_retryable response = true /\ exists credential,
        bearerCredential (default [] (h !! "Authorization"%string)) = Some credential /\
        (Authenticate hmac_sha256 k c getAt setAt judgedAt lookup credential).2 = Err AuthUnavailable)
  end.
Proof.
  unfold Middleware. destruct (bearerCredential (default [] (h !! "Authorization"%string))) as [credential|] eqn:Eb; [|simpl; left; split_and!; done].
  destruct (Authenticate hmac_sha256 k c getAt setAt judgedAt lookup credential) as [c' [p|e]] eqn:Ea; simpl.
  - destruct (h !! "Authorization"%string) as [[|value [|]]|] eqn:Eh; try done. exists value, credential. split_and!; try done; [by rewrite Ea|]. apply strip_identity_lookup.
  - destruct e; simpl; [left|right; split_and!; [done|done|]; exists credential; by rewrite Ea].
    split_and!; [done|done|]. intros ? p [= <-]. by rewrite Ea.
Qed.
