(* ===== verification/KeyLifecycle.v ===== *)
(** * Issued credentials authenticate

    The manager and the authenticator composed: the plaintext that Create or Rotate returns
    is accepted by a gateway that knows the manager's digest key, and names the key that was
    stored.

    Then: virtual keys: lifecycle properties and a worked run. *)
From Stdlib Require Import ZArith Lia Bool Ascii String.
From stdpp Require Import base tactics option list strings gmap fin_maps sets relations.
From S2P Require Import Prelude Identifiers Unicode Encoding Postgres VirtualKey VirtualKeyTheorems KeyAuth.
(** ** The text of a credential *)
Lemma substring_all s : String.substring 0 (String.length s) s = s.
Proof. induction s; simpl; congruence. Qed.

Lemma class_of_byte (P : char_class) : (forallb (fun n => P (ascii_of_nat n)) (seq 0 256) = true) -> forall a, P a = true.
Proof.
  intros H a. rewrite forallb_forall in H. rewrite <- (ascii_nat_embedding a). apply H, in_seq. pose proof (nat_ascii_bounded a). lia.
Qed.

Lemma class_impl (c d : char_class) : forallb (fun n => negb (c (ascii_of_nat n)) || d (ascii_of_nat n)) (seq 0 256) = true -> forall a, c a = true -> d a = true.
Proof. intros H a Ha. apply (class_of_byte (fun a => negb (c a) || d a)) with (a := a) in H. by rewrite Ha in H. Qed.

Definition issued_prefix (mode : string) (bytes : list Z) : string := ("agw_" ++ mode ++ "_" ++ ToLower (base32_encode bytes))%string.

Lemma issued_prefix_spec mode bytes : mode = "live"%string \/ mode = "test"%string -> length bytes = prefixRandomBytes ->
  credentialPrefixPattern (issued_prefix mode bytes) = true /\ contains_char "."%char (issued_prefix mode bytes) = false /\
  all_chars plain (issued_prefix mode bytes) = true /\ String.length (issued_prefix mode bytes) = 25%nat.
Proof.
  intros Hm Hl. unfold issued_prefix. pose proof (base32_encode_chars bytes) as Hc. pose proof (base32_encode_length bytes) as Hn. rewrite Hl in Hn. change (String.length (ToLower (base32_encode bytes)) = 16%nat) in Hn.
  set (tail := ToLower (base32_encode bytes)) in *.
  assert (String.substring 0 (String.length tail) tail = tail) as Hs by apply substring_all.
  assert (all_chars plain tail = true) as Hp by (revert Hc; apply all_chars_impl, class_impl; vm_compute; reflexivity).
  assert (all_chars (fun c => negb (Ascii.eqb c ".")) tail = true) as Hd by (revert Hc; apply all_chars_impl, class_impl; vm_compute; reflexivity).
  destruct Hm as [-> | ->]; unfold credentialPrefixPattern, contains_char; simpl; change ("" +:+ tail)%string with tail;
    replace (String.prefix "" tail) with true by (by destruct tail); rewrite Nat.sub_0_r, Hs, Hc, Hp, Hd, Hn; done.
Qed.

(** The credential is parsed back into its prefix and secret. *)
Lemma parse_issued prefix secret : credentialPrefixPattern prefix = true -> contains_char "."%char prefix = false -> all_chars plain prefix = true ->
  (String.length prefix <= 200)%nat -> length secret = secretRandomBytes -> Forall (fun b => is_byte b = true) secret ->
  parseCredential (prefix ++ "." ++ base64_encode secret) = Some (prefix, secret).
Proof.
  intros Hpat Hdot Hplain Hlen Hsec Hbytes. unfold parseCredential.
  pose proof (base64_encode_length secret) as Hn. rewrite Hsec in Hn. change (String.length (base64_encode secret) = 43%nat) in Hn.
  pose proof (base64_encode_chars secret) as Hc.
  assert (String.length (prefix ++ "." ++ base64_encode secret) = String.length prefix + 44)%nat as L by (rewrite !string_app_length, Hn; simpl; lia).
  assert (all_chars plain (prefix ++ "." ++ base64_encode secret) = true) as Hp.
  { rewrite !all_chars_app, Hplain. simpl. revert Hc. apply all_chars_impl, class_impl. vm_compute. reflexivity. }
  rewrite L, (bool_decide_eq_true_2 _ (TrimSpace_plain _ Hp)), (proj2 (Nat.leb_le 1 _)), (proj2 (Nat.leb_le _ maximumAuthorizationLength)) by (unfold maximumAuthorizationLength; lia).
  cbn [andb]. change ("." ++ base64_encode secret)%string with (String "."%char (base64_encode secret)). rewrite cut_at_app by done.
  assert (contains_char "."%char (base64_encode secret) = false) as ->.
  { unfold contains_char. apply negb_false_iff. revert Hc. apply all_chars_impl, class_impl. vm_compute. reflexivity. }
  rewrite Hpat. cbn [andb negb]. rewrite base64_roundtrip by done. rewrite Hsec. simpl. by rewrite bool_decide_eq_true_2.
Qed.

(** ** Issuance *)
Lemma ReadFull_ok n random bytes rest : ReadFull n random = (Ok bytes, rest) -> length bytes = n /\ bytes = take n random /\ rest = drop n random.
Proof. unfold ReadFull. destruct (Nat.leb n (length random)) eqn:E; [|done]. intros [= <- <-]. apply Nat.leb_le in E. rewrite length_take. lia || (split; [lia|done]). Qed.

Lemma issue_spec hmac d mode random material plaintext rest :
  mode = "live"%string \/ mode = "test"%string -> Forall (fun b => is_byte b = true) random ->
  issue hmac d mode random = (Ok (material, plaintext), rest) ->
  Forall (fun b => is_byte b = true) rest /\ rp_HashKeyVersion material = dg_version d /\
  exists secret, parseCredential plaintext = Some (rp_Prefix material, secret) /\ rp_SecretHash material = Digest hmac d (rp_Prefix material) secret.
Proof.
  intros Hm Hb. unfold issue. destruct (ReadFull 16 random) as [[id|] r1] eqn:E1; [|done].
  destruct (ReadFull prefixRandomBytes r1) as [[pb|] r2] eqn:E2; [|done]. destruct (ReadFull secretRandomBytes r2) as [[secret|] r3] eqn:E3; [|done].
  apply ReadFull_ok in E1 as (_ & _ & ->), E2 as (L2 & _ & ->), E3 as (L3 & Es & ->). intros H.
  assert (Forall (fun b => is_byte b = true) secret) as Hsec by (rewrite Es; by apply Forall_take, Forall_drop, Forall_drop).
  injection H as <- <- <-. split; [by apply Forall_drop, Forall_drop, Forall_drop|]. split; [done|]. exists secret. split; [|done].
  destruct (issued_prefix_spec mode pb Hm L2) as (P1 & P2 & P3 & P4). unfold issued_prefix in *. simpl rp_Prefix. apply parse_issued; try done. rewrite P4. lia.
Qed.

Section Attempts.
Context {S : Type} (hmac : list Z -> list Z -> list Z) (d : HMACDigester) (P : S -> Prop).

(** A credential is returned only for the record the store confirmed, by its last call. *)
Lemma issue_attempts_ok n mode persist now s random s' rest issued :
  (forall s material, P s -> P (persist s material).1) -> P s ->
  mode = "live"%string \/ mode = "test"%string -> Forall (fun b => is_byte b = true) random ->
  issue_attempts hmac d n mode persist now s random = (s', rest, Ok issued) ->
  exists s1 material created secret, P s1 /\ persist s1 material = (s', Ok created) /\ ic_Metadata issued = Record_Metadata created now /\
    parseCredential (ic_Credential issued) = Some (rp_Prefix material, secret) /\
    rp_SecretHash material = Digest hmac d (rp_Prefix material) secret /\ rp_HashKeyVersion material = dg_version d.
Proof.
  intros Hpres. revert s random. induction n as [|n IH]; intros s random HP Hm Hb; [done|]. simpl.
  destruct (issue hmac d mode random) as [[[material plaintext]|] random1] eqn:Hi; [|done].
  destruct (issue_spec _ _ _ _ _ _ _ Hm Hb Hi) as (Hb1 & Hv & secret & Hparse & Hhash).
  destruct (persist s material) as [s1 [created|e]] eqn:Hp.
  - intros [= <- <- <-]. exists s, material, created, secret. done.
  - pose proof (Hpres s material HP) as HP1. rewrite Hp in HP1. destruct e; try done. intros H. by eapply IH.
Qed.
End Attempts.

(** Whether a key in its present state admits its holder: its tenant and project are active,
    it has not expired, and it is active or within the grace period of its rotation. *)
Definition usable_at (key : KeyRecord) (tenant project : string) (now : Time) : bool :=
  bool_decide (tenant = "active"%string) && bool_decide (project = "active"%string) && negb (elapsed (vk_ExpiresAt key) now) &&
  match vk_Status key with
  | StateActive => true
  | StateRotating => match vk_RotationGraceExpiresAt key with Some t => time_before now t | None => false end
  | _ => false
  end.

Lemma evolves_limits a b : evolves a b -> row_limits b = row_limits a.
Proof. by intros [->|(_ & E & _)]. Qed.

Lemma stored_limits r : row_check (row_of r) = true -> decodeLimits (row_limits (row_of r)) = Ok (vk_Limits r) /\ length (vk_SecretHash r) = 32%nat.
Proof.
  intros C. pose proof (scan_row_of _ C) as Hscan. split.
  - unfold scanRecord in Hscan. destruct (decodeLimits (row_limits (row_of r))) as [l|]; [|done]. injection Hscan as E. by rewrite <- E.
  - unfold row_check in C. repeat (apply andb_true_iff in C as [C ?]). cbn in *. by apply Nat.eqb_eq.
Qed.

(** A stored key, whatever became of its row since, is judged by its present state. *)
Lemma stored_key_judged hmac k c getAt setAt judgedAt db id r row tenant project credential secret d :
  db_wf db -> row_check (row_of r) = true -> kd_keys db !! id = Some row -> evolves (row_of r) row -> parseCredential credential = Some (vk_Prefix r, secret) ->
  vk_SecretHash r = Digest hmac d (vk_Prefix r) secret -> kr_digesters k !! vk_HashKeyVersion r = Some d ->
  kd_tenants db !! vk_TenantID r = Some tenant -> kd_projects db !! (vk_TenantID r, vk_ProjectID r) = Some project -> mc_entries c !! vk_Prefix r = None ->
  (Authenticate hmac k c getAt setAt judgedAt (auth_Lookup no_faults db) credential).2 =
    if usable_at (row_key row) tenant project judgedAt then Ok (principal (auth_record r (vk_Limits r) tenant project)) else Err InvalidCredential.
Proof.
  intros Hwf Hcheck Hrow Hev Hparse Hhash Hd Ht Hp Hmiss. unfold Authenticate. rewrite Hparse.
  assert (cache_Get c getAt (vk_Prefix r) = (c, None)) as -> by (unfold cache_Get; rewrite Hmiss; by destruct (mc_ttl c =? 0)).
  destruct (stored_limits r Hcheck) as [Hl H32]. rewrite <- (evolves_limits _ _ Hev) in Hl.
  destruct (evolves_same_key _ _ Hev) as (K1 & K2 & K3 & K4 & K5 & K6 & K7 & K8 & _). cbn [row_of row_key with_limits vk_ID vk_TenantID vk_ProjectID vk_Prefix vk_SecretHash vk_HashKeyVersion vk_ExpiresAt vk_AllowedModels] in *.
  assert (auth_Lookup no_faults db (vk_Prefix r) = Ok (auth_record (row_key row) (vk_Limits r) tenant project)) as ->.
  { unfold auth_Lookup. cbn [fl_statement no_faults]. rewrite <- K4, (key_with_prefix_complete db id row Hwf Hrow). unfold joined. by rewrite K2, K3, Ht, Hp, Hl. }
  unfold after_lookup, decide_record, Verify. cbn [snd ar_Prefix ar_SecretHash ar_HashKeyVersion auth_record]. rewrite K4, K5, K6.
  rewrite (bool_decide_eq_true_2 (vk_Prefix r = vk_Prefix r)), H32, Hd by done. rewrite (bool_decide_eq_true_2 (Digest _ _ _ _ = _)) by done. cbn [andb].
  change (recordUsable (auth_record (row_key row) (vk_Limits r) tenant project) judgedAt) with (usable_at (row_key row) tenant project judgedAt).
  destruct (usable_at _ _ _ _); [|done]. unfold principal, auth_record. cbn. by rewrite K1, K2, K3, K4, K8.
Qed.

(** ** Sessions *)
Record session_ok (s : Session) : Prop := {
  so_db : db_wf (se_db s);
  so_visits : Forall (fun v => forall db, rtc key_step db (visit_others v db)) (se_visits s) }.

Lemma visit_ok {A} s (call : Faults -> KeyDB -> KeyDB * A) :
  (forall f db, rtc key_step db (call f db).1) -> session_ok s ->
  session_ok (visit s call).1 /\ exists f db, db_wf db /\ call f db = (se_db (visit s call).1, (visit s call).2).
Proof.
  intros Hcall [Hdb Hv]. unfold visit. destruct (se_visits s) as [|v rest].
  - pose proof (Hcall no_faults (se_db s)) as Hk. destruct (call no_faults (se_db s)) as [db a] eqn:E. destruct (key_steps_sound _ _ Hdb Hk) as [? _].
    split; [by split|]. exists no_faults, (se_db s). done.
  - apply Forall_cons in Hv as [Hv1 Hv]. destruct (key_steps_sound _ _ Hdb (Hv1 (se_db s))) as [Hdb1 _].
    pose proof (Hcall (visit_faults v) (visit_others v (se_db s))) as Hk. destruct (call (visit_faults v) (visit_others v (se_db s))) as [db a] eqn:E.
    destruct (key_steps_sound _ _ Hdb1 Hk) as [? _]. split; [by split|]. eauto.
Qed.

Lemma create_steps f db r : rtc key_step db (store_Create f db r).1.
Proof. apply rtc_once. constructor. Qed.
Lemma rotate_steps f db l rp g actor now : rtc key_step db (store_Rotate f db l rp g actor now).1.
Proof. apply rtc_once. constructor. Qed.

Lemma validateCreate_mode pick c now : validateCreate pick c now = Ok () -> cc_Mode c = "live"%string \/ cc_Mode c = "test"%string.
Proof.
  unfold validateCreate. intros (_ & _ & H)%bind_Ok. apply ensure_Ok in H as [[H%bool_decide_eq_true|H%bool_decide_eq_true]%orb_true_iff _]; auto.
Qed.

Lemma modeFromPrefix_mode prefix mode : modeFromPrefix prefix = Ok mode -> mode = "live"%string \/ mode = "test"%string.
Proof. unfold modeFromPrefix. destruct (String.prefix "agw_live_" prefix); [intros [= <-]; by left|]. destruct (String.prefix "agw_test_" prefix); [intros [= <-]; by right|done]. Qed.

(** The rows that a confirmed Create and a confirmed Rotate leave. *)
Lemma create_row f db r db' created : store_Create f db r = (db', Ok created) -> created = r /\ kd_keys db' !! vk_ID r = Some (row_of r).
Proof. intros H. destruct (create_ok _ _ _ _ _ H) as (-> & Hi). destruct (insert_key_ok _ _ _ _ Hi) as (_ & -> & _). split; [done|]. apply lookup_insert_eq. Qed.

Lemma rotate_row f db l rp g actor now db' created : store_Rotate f db l rp g actor now = (db', Ok created) ->
  exists source, rotation db l rp g actor now db' source /\ created = replacement_record source rp actor now /\ kd_keys db' !! rp_ID rp = Some (row_of created).
Proof.
  unfold store_Rotate. intros H%in_transaction_ok. destruct (rotate_statements_ok _ _ _ _ _ _ _ _ _ H) as (source & Hrot & ->). exists source. split_and!; [done|done|].
  destruct Hrot as (row & db1 & _ & _ & _ & _ & _ & _ & Hi). destruct (insert_key_ok _ _ _ _ Hi) as (_ & -> & _). apply lookup_insert_eq.
Qed.

(** What an issued credential stands for, whoever issued it. *)
Lemma issued_row pick hmac d s random now s' rest issued :
  session_ok s -> Forall (fun b => is_byte b = true) random ->
  (exists c, manager_Create pick hmac d s random now c = (s', rest, Ok issued)) \/
  (exists c, manager_Rotate pick hmac d s random now c = (s', rest, Ok issued)) ->
  exists r secret, db_wf (se_db s') /\ kd_keys (se_db s') !! vk_ID r = Some (row_of r) /\ ic_Metadata issued = Record_Metadata r now /\
    parseCredential (ic_Credential issued) = Some (vk_Prefix r, secret) /\ vk_SecretHash r = Digest hmac d (vk_Prefix r) secret /\
    vk_HashKeyVersion r = dg_version d /\ vk_Status r = StateActive.
Proof.
  intros Hs Hb [[c H]|[c H]].
  - unfold manager_Create in H. destruct (validateCreate pick c now) as [[]|] eqn:Hv; [|done]. apply validateCreate_mode in Hv.
    apply (issue_attempts_ok hmac d session_ok) in H as (s1 & material & created & secret & Hs1 & Hp & Hmeta & Hparse & Hhash & Hver); try done;
      [|intros; by apply visit_ok; [intros; apply create_steps|]].
    destruct (visit_ok s1 (fun f db => store_Create f db (new_record c material now))) as (Hok & f & db & _ & Hcall); [intros; apply create_steps|done|].
    change (visit s1 _) with (ks_Create s1 (new_record c material now)) in Hok, Hcall. rewrite Hp in Hok, Hcall. simpl in Hcall. apply create_row in Hcall as (-> & Hrow).
    exists (new_record c material now), secret. split; [apply Hok|]. done.
  - unfold manager_Rotate in H. destruct (validateRotate pick c) as [[]|]; [|done].
    destruct (ks_Get s (normalizedLocator (rc_Locator c))) as [s0 [source|]] eqn:Hget; [|done].
    assert (session_ok s0) as Hs0.
    { destruct (visit_ok s (fun f db => (db, store_Get f db (normalizedLocator (rc_Locator c))))) as (Hok & _); [done|done|].
      change (visit s _) with (ks_Get s (normalizedLocator (rc_Locator c))) in Hok. by rewrite Hget in Hok. }
    destruct (modeFromPrefix (vk_Prefix source)) as [mode|] eqn:Hm; [|done]. apply modeFromPrefix_mode in Hm.
    destruct (elapsed (vk_ExpiresAt source) now); [done|].
    apply (issue_attempts_ok hmac d session_ok) in H as (s1 & material & created & secret & Hs1 & Hp & Hmeta & Hparse & Hhash & Hver); try done;
      [|intros; by apply visit_ok; [intros; apply rotate_steps|]].
    destruct (visit_ok s1 (fun f db => store_Rotate f db (normalizedLocator (rc_Locator c)) material (time_add now (rc_GracePeriod c)) (rc_Actor c) now))
      as (Hok & f & db & _ & Hcall); [intros; apply rotate_steps|done|].
    change (visit s1 _) with (ks_Rotate s1 (normalizedLocator (rc_Locator c)) material (time_add now (rc_GracePeriod c)) (rc_Actor c) now) in Hok, Hcall.
    rewrite Hp in Hok, Hcall. simpl in Hcall. apply rotate_row in Hcall as (src & _ & Hcr & Hrow).
    exists created, secret. split; [apply Hok|]. rewrite Hcr in *. done.
Qed.

(** C27: A credential that the manager issued, by Create or by Rotate, stands for the key
    that was stored for as long as the key admits its holder. After any later history of the
    key table, at a gateway that holds the manager's digest key, has no cached record of the
    key and can read the table: the credential is accepted, and identifies exactly the tenant,
    project, key, models and limits that the manager reported, if the tenant and the project
    are active, the key has not expired, and its row is active or within the grace period of
    a rotation; otherwise it is refused as invalid. Right after issuing the row is active. *)
Theorem issued_credentials_authenticate pick hmac d s random now s' rest issued k c getAt setAt judgedAt db tenant project :
  session_ok s -> Forall (fun b => is_byte b = true) random ->
  (exists c, manager_Create pick hmac d s random now c = (s', rest, Ok issued)) \/
  (exists c, manager_Rotate pick hmac d s random now c = (s', rest, Ok issued)) ->
  let m := ic_Metadata issued in
  kr_digesters k !! dg_version d = Some d -> rtc key_step (se_db s') db ->
  kd_tenants db !! km_TenantID m = Some tenant -> kd_projects db !! (km_TenantID m, km_ProjectID m) = Some project -> mc_entries c !! km_Prefix m = None ->
  exists row0 row, kd_keys (se_db s') !! km_ID m = Some row0 /\ vk_Status (row_key row0) = StateActive /\ kd_keys db !! km_ID m = Some row /\
    vk_ExpiresAt (row_key row) = km_ExpiresAt m /\
    (Authenticate hmac k c getAt setAt judgedAt (auth_Lookup no_faults db) (ic_Credential issued)).2 =
    if usable_at (row_key row) tenant project judgedAt then
      Ok {| pr_TenantID := km_TenantID m; pr_ProjectID := km_ProjectID m; pr_VirtualKeyID := km_ID m; pr_Prefix := km_Prefix m;
            pr_AllowedModels := km_AllowedModels m; pr_Limits := km_Limits m |}
    else Err InvalidCredential.
Proof.
  intros Hs Hb Hissued m. destruct (issued_row _ _ _ _ _ _ _ _ _ Hs Hb Hissued) as (r & secret & Hwf & Hrow & Hmeta & Hparse & Hhash & Hver & Hact).
  subst m. rewrite Hmeta. intros Hd Hrun Ht Hp Hmiss. rewrite <- Hver in Hd. destruct (key_steps_sound _ _ Hwf Hrun) as [Hwf2 Hev]. destruct (Hev _ _ Hrow) as (row & Hrow2 & Hrow_ev).
  exists (row_of r), row. split_and!; [exact Hrow|exact Hact|exact Hrow2|apply (evolves_same_key _ _ Hrow_ev)|].
  refine (stored_key_judged hmac k c getAt setAt judgedAt db _ r row tenant project _ secret d Hwf2 _ Hrow2 Hrow_ev Hparse Hhash Hd Ht Hp Hmiss). by destruct (wf_row _ Hwf _ _ Hrow) as (_ & ? & _).
Qed.

(** ** Virtual keys: lifecycle properties and a worked run

    The lifecycle of a key over arbitrary histories, and concrete keys and gateways at which
    the properties of this group are instantiated. *)
Lemma rotation_rows db l rp g actor now db' source : db_wf db -> rotation db l rp g actor now db' source ->
  exists row, select_key db l = Some row /\ kd_keys db !! rp_ID rp = None /\ rp_ID rp <> loc_ID l /\
    vk_Status (row_key row) = StateActive /\ elapsed (vk_ExpiresAt (row_key row)) now = false /\ scanRecord row = Ok source /\ vk_ID source = loc_ID l /\
    kd_keys db' = <[rp_ID rp := row_of (replacement_record source rp actor now)]>
      (<[loc_ID l := {| row_key := rotating g now actor (row_key row); row_limits := row_limits row |}]> (kd_keys db)).
Proof.
  intros Hwf (row & db1 & Hsel & Hsc & Ha & Hx & _ & -> & Hi). exists row. destruct (insert_key_ok _ _ _ _ Hi) as (_ & -> & _ & Hnew & _). simpl in *.
  destruct (select_key_ok _ _ _ Hsel) as (Hrow & _). apply lookup_insert_None in Hnew as [Hnew Hne]. destruct (wf_row _ Hwf _ _ Hrow) as (Hid & _).
  pose proof (scan_key _ _ Hsc) as Hk. split_and!; try done. rewrite Hk. exact Hid.
Qed.

(** A row that is no longer active is not rotated again. *)
Lemma rotate_needs_active faults db l rp g actor now db' created row :
  store_Rotate faults db l rp g actor now = (db', Ok created) -> kd_keys db !! loc_ID l = Some row -> vk_Status (row_key row) = StateActive.
Proof.
  intros H Hrow. destruct (rotate_row _ _ _ _ _ _ _ _ _ H) as (source & (row' & db1 & Hsel & _ & Ha & _) & _). apply select_key_ok in Hsel as (Hrow' & _). congruence.
Qed.

(** Rotate hands a key over exactly once: a call that succeeds found the source
    active and unexpired, moved it into its grace period, and inserted one new active key
    that inherits tenant, project, expiry, models and limits and names its source; every
    other key is as before; and after any further history no call rotates the source again. *)
Theorem rotation_hands_over_once faults db l rp g actor now db' created :
  db_wf db -> store_Rotate faults db l rp g actor now = (db', Ok created) ->
  (exists row source, select_key db l = Some row /\ scanRecord row = Ok source /\
    vk_Status source = StateActive /\ elapsed (vk_ExpiresAt source) now = false /\ kd_keys db !! rp_ID rp = None /\
    kd_keys db' = <[rp_ID rp := row_of created]> (<[loc_ID l := {| row_key := rotating g now actor (row_key row); row_limits := row_limits row |}]> (kd_keys db)) /\
    vk_Status created = StateActive /\ vk_RotatedFromID created = Some (loc_ID l) /\
    vk_TenantID created = vk_TenantID source /\ vk_ProjectID created = vk_ProjectID source /\ vk_ExpiresAt created = vk_ExpiresAt source /\
    vk_AllowedModels created = vk_AllowedModels source /\ vk_Limits created = vk_Limits source) /\
  forall db2, rtc key_step db' db2 ->
    (forall id row, kd_keys db2 !! id = Some row -> vk_RotatedFromID (row_key row) = Some (loc_ID l) -> id = rp_ID rp) /\
    forall faults2 l2 rp2 g2 actor2 now2, loc_ID l2 = loc_ID l -> is_ok (store_Rotate faults2 db2 l2 rp2 g2 actor2 now2).2 = false.
Proof.
  intros Hwf H. pose proof (rotate_row _ _ _ _ _ _ _ _ _ H) as (source & Hrot & -> & Hnew).
  destruct (rotation_rows _ _ _ _ _ _ _ _ Hwf Hrot) as (row & Hsel & Hfree & Hne & Ha & Hx & Hsc & Hid & Hkeys). destruct (scan_status _ _ Hsc) as [Es Ee]. split.
  - exists row, source. rewrite Es, Ee. split_and!; try done. simpl. by rewrite Hid.
  - intros db2 Hrun. assert (db_wf db') as Hwf' by (apply (key_steps_sound db db' Hwf), rtc_once; pose proof (step_rotate db faults l rp g actor now) as Hst; by rewrite H in Hst).
    destruct (key_steps_sound _ _ Hwf' Hrun) as [Hwf2 Hev]. split.
    + intros id x Hxid Hfrom. destruct (Hev _ _ Hnew) as (y & Hy & Hey). destruct (evolves_same_key _ _ Hey) as (_ & _ & _ & _ & _ & _ & _ & _ & _ & Ef & _).
      apply (wf_rotated _ Hwf2 id (rp_ID rp) x y (loc_ID l) Hxid Hy Hfrom). rewrite Ef. simpl. by rewrite Hid.
    + intros faults2 l2 rp2 g2 actor2 now2 El. destruct (store_Rotate faults2 db2 l2 rp2 g2 actor2 now2) as [db3 [created2|]] eqn:H2; [exfalso|done].
      destruct (Hev (loc_ID l) {| row_key := rotating g now actor (row_key row); row_limits := row_limits row |}) as (y & Hy & Hey).
      { rewrite Hkeys, lookup_insert_ne, lookup_insert_eq by done. done. }
      rewrite <- El in Hy. pose proof (rotate_needs_active _ _ _ _ _ _ _ _ _ _ H2 Hy) as Hact.
      destruct Hey as [<-|(_ & _ & _ & [[E _]|[_ E]])]; [done|done|]. congruence.
Qed.

(** Over every history of the table, keys are only ever added: the identity,
    digest and authorisation of a key never change, its status moves only from active over
    rotating to revoked, and a revoked key stays exactly as the revocation left it, so that
    Revoke is idempotent; prefixes and digests stay unique and a source has one replacement. *)
Theorem key_lifecycle_is_monotone db0 db db' id row :
  no_keys db0 -> rtc key_step db0 db -> rtc key_step db db' -> kd_keys db !! id = Some row ->
  db_wf db' /\ (exists row', kd_keys db' !! id = Some row' /\ evolves row row') /\
  (vk_Status (row_key row) = StateRevoked -> kd_keys db' !! id = Some row /\
    forall l record, loc_ID l = id -> located l row = true -> scanRecord row = Ok record ->
      forall actor now, store_Revoke no_faults db' l actor now = (db', Ok record)).
Proof.
  intros H0 Hrun1 Hrun2 Hrow. destruct (key_steps_sound _ _ (no_keys_wf _ H0) Hrun1) as [Hwf _]. destruct (key_steps_sound _ _ Hwf Hrun2) as [Hwf' Hev].
  destruct (Hev _ _ Hrow) as (row' & Hrow' & Hr). split; [done|]. split; [eauto|]. intros Hrev. pose proof (evolves_revoked _ _ Hr Hrev) as ->. split; [done|].
  intros l record <- Hloc Hsc actor now. unfold store_Revoke, in_transaction, revoke_statements, statement, select_key. simpl. rewrite Hrow', Hloc. simpl.
  rewrite Hsc. simpl. destruct (scan_status _ _ Hsc) as [E _]. by rewrite bool_decide_eq_true_2 by congruence.
Qed.

(** ** A worked run *)
Module KeyDemo.

Definition tenant : string := "10000000-0000-4000-8000-000000000001".
Definition project : string := "20000000-0000-4000-8000-000000000001".
Definition t0 : Time := unix_epoch + 1785000000 * second.

(** A MAC of 32 bytes for the demonstration: the end of the message. *)
Definition mac (key message : list Z) : list Z := drop (length message - 32) message.
Definition digester : HMACDigester := {| dg_version := "unit-v1"; dg_key := replicate 32 7 |}.
Definition keyring : Keyring := {| kr_currentVersion := "unit-v1"; kr_digesters := {["unit-v1"%string := digester]} |}.
Definition random : list Z := Z.of_nat <$> seq 0 200.
Definition pick (fields : list string) : string := default "" (head fields).

Definition db0 : KeyDB := {| kd_tenants := {[tenant := "active"%string]}; kd_projects := {[(tenant, project) := "active"%string]}; kd_keys := ∅ |}.
Definition session0 : Session := {| se_db := db0; se_visits := [] |}.
Definition command : CreateCommand :=
  {| cc_TenantID := tenant; cc_ProjectID := project; cc_Mode := "live"; cc_ExpiresAt := Some (t0 + hour);
     cc_AllowedModels := Some ["chat.default"%string]; cc_Limits := Some {| kl_RPM := Some 120; kl_TPM := None; kl_Concurrency := None |};
     cc_Actor := "unit:create" |}.

Definition created := manager_Create pick mac digester session0 random t0 command.
Definition session1 : Session := created.1.1.
Definition no_metadata : KeyMetadata :=
  Record_Metadata (new_record command {| rp_ID := ""; rp_Prefix := ""; rp_SecretHash := []; rp_HashKeyVersion := "" |} 0) 0.
Definition issued : IssuedCredential := match created.2 with Ok i => i | Err _ => {| ic_Metadata := no_metadata; ic_Credential := "" |} end.
Definition key_id : string := km_ID (ic_Metadata issued).
Definition db1 : KeyDB := se_db session1.

Example issued_credential : ic_Credential issued = "agw_live_caireeyuculbogaz.GhscHR4fICEiIyQlJicoKSorLC0uLzAxMjM0NTY3ODk"%string.
Proof. vm_compute. reflexivity. Qed.

Lemma session0_ok : session_ok session0.
Proof. split; [by apply no_keys_wf|constructor]. Qed.

Lemma random_bytes : Forall (fun b => is_byte b = true) random.
Proof. apply (bool_decide_eq_true_1 (Forall _ random)). vm_compute. reflexivity. Qed.

(** The key after its revocation. *)
Definition db_revoked : KeyDB :=
  (store_Revoke no_faults db1 {| loc_TenantID := tenant; loc_ProjectID := project; loc_ID := km_ID (ic_Metadata issued) |} "operator" (t0 + second)).1.

Definition cache0 : MemoryCache := {| mc_entries := ∅; mc_ttl := 30 * second; mc_maxEntries := 8; mc_sequence := 0 |}.
End KeyDemo.

(** Accepted right after issuing, refused after a revocation. *)
Lemma issued_credentials_authenticate_witness :
  let m := ic_Metadata KeyDemo.issued in
  (Authenticate KeyDemo.mac KeyDemo.keyring KeyDemo.cache0 KeyDemo.t0 KeyDemo.t0 KeyDemo.t0 (auth_Lookup no_faults KeyDemo.db1) (ic_Credential KeyDemo.issued)).2 =
    Ok {| pr_TenantID := km_TenantID m; pr_ProjectID := km_ProjectID m; pr_VirtualKeyID := km_ID m; pr_Prefix := km_Prefix m;
          pr_AllowedModels := km_AllowedModels m; pr_Limits := km_Limits m |} /\
  (Authenticate KeyDemo.mac KeyDemo.keyring KeyDemo.cache0 KeyDemo.t0 KeyDemo.t0 KeyDemo.t0 (auth_Lookup no_faults KeyDemo.db_revoked) (ic_Credential KeyDemo.issued)).2 = Err InvalidCredential.
Proof.
  assert (exists c, manager_Create KeyDemo.pick KeyDemo.mac KeyDemo.digester KeyDemo.session0 KeyDemo.random KeyDemo.t0 c = (KeyDemo.session1, KeyDemo.created.1.2, Ok KeyDemo.issued)) as Hissued
    by (exists KeyDemo.command; vm_compute; reflexivity).
  pose proof (fun db => issued_credentials_authenticate KeyDemo.pick KeyDemo.mac KeyDemo.digester KeyDemo.session0 KeyDemo.random KeyDemo.t0 KeyDemo.session1 KeyDemo.created.1.2 KeyDemo.issued
    KeyDemo.keyring KeyDemo.cache0 KeyDemo.t0 KeyDemo.t0 KeyDemo.t0 db "active" "active" KeyDemo.session0_ok KeyDemo.random_bytes (or_introl Hissued)) as H.
  split.
  - destruct (H KeyDemo.db1) as (row0 & row & H0 & Ha & Hrow & Hexp & ->); [vm_compute; reflexivity|exact (rtc_refl _ _)|vm_compute; reflexivity..|]. change (se_db KeyDemo.session1) with KeyDemo.db1 in H0.
    rewrite H0 in Hrow. injection Hrow as <-. unfold usable_at. rewrite Ha, Hexp. vm_compute. reflexivity.
  - destruct (H KeyDemo.db_revoked) as (row0 & row & H0 & Ha & Hrow & Hexp & ->); [vm_compute; reflexivity|exact (rtc_once _ _ (step_revoke _ _ _ _ _))|vm_compute; reflexivity..|].
    assert (vk_Status ∘ row_key <$> kd_keys KeyDemo.db_revoked !! km_ID (ic_Metadata KeyDemo.issued) = Some StateRevoked) as Hrev by (vm_compute; reflexivity).
    rewrite Hrow in Hrev. injection Hrev as Hrev. unfold usable_at. rewrite Hrev. by rewrite andb_false_r.
Defined.

Module KeyRun.
Import KeyDemo.

(** The steps of request 0 as functions of the gateway. *)
Definition do_begin (s : Gateway) : Gateway :=
  match parseCredential (ic_Credential issued) with
  | Some (prefix, secret) =>
      let '(c, found) := cache_Get (g_cache s) (g_now s) prefix in
      local_step s c (<[0%nat := {| fl_prefix := prefix; fl_secret := secret; fl_started := g_now s;
                                    fl_phase := match found with Some r => Holding r | None => Looking end |}]> (g_flight s))
  | None => s
  end.
Definition do_lookup (s : Gateway) : Gateway :=
  match g_flight s !! 0%nat with
  | Some f => local_step s (g_cache s) (<[0%nat := set_phase f (Found (auth_Lookup no_faults (g_db s) (fl_prefix f)))]> (g_flight s))
  | None => s
  end.
Definition do_store (s : Gateway) : Gateway :=
  match g_flight s !! 0%nat with
  | Some f => match fl_phase f with
              | Found (Ok r) => local_step s (cache_Set (g_cache s) (g_now s) (fl_prefix f) r) (<[0%nat := set_phase f (Holding r)]> (g_flight s))
              | _ => s
              end
  | None => s
  end.
Definition do_judge (s : Gateway) : Gateway := local_step s (g_cache s) (delete 0%nat (g_flight s)).
Definition judged (s : Gateway) : option outcome :=
  match g_flight s !! 0%nat with
  | Some f => match fl_phase f with
              | Holding r => Some (Judged (fl_prefix f) (fl_secret f) (decide_record mac keyring (fl_prefix f) (fl_secret f) r (g_now s)))
              | _ => None
              end
  | None => None
  end.

Notation runs := (rtc (gw_silent mac keyring second)).

Definition can_begin (s : Gateway) : bool := bool_decide (g_flight s = ∅).
Definition can_lookup (s : Gateway) : bool :=
  match g_flight s !! 0%nat with Some f => match fl_phase f with Looking => true | _ => false end | None => false end.
Definition can_store (s : Gateway) : bool :=
  match g_flight s !! 0%nat with Some f => match fl_phase f with Found (Ok _) => g_now s <=? fl_started f + second | _ => false end | None => false end.
Definition can_judge (s : Gateway) : bool :=
  match g_flight s !! 0%nat with Some f => match fl_phase f with Holding _ => g_now s <=? fl_started f + second | _ => false end | None => false end.

Lemma begins s : can_begin s = true -> runs s (do_begin s).
Proof.
  unfold can_begin. intros Hf%bool_decide_eq_true. unfold do_begin. destruct (parseCredential (ic_Credential issued)) as [[prefix secret]|] eqn:Hp; [|done].
  destruct (cache_Get (g_cache s) (g_now s) prefix) as [c found] eqn:E. apply rtc_once. exists None.
  apply (gw_begin mac keyring second s 0 (ic_Credential issued) prefix secret c found); [by rewrite Hf|done|done].
Qed.
Lemma looks s : can_lookup s = true -> runs s (do_lookup s).
Proof.
  unfold can_lookup, do_lookup. intros H. destruct (g_flight s !! 0%nat) as [f|] eqn:Hf; [|done]. destruct (fl_phase f) eqn:Hp; try done.
  apply rtc_once. exists None. by apply gw_lookup.
Qed.
Lemma stores s : can_store s = true -> runs s (do_store s).
Proof.
  unfold can_store, do_store. intros H. destruct (g_flight s !! 0%nat) as [f|] eqn:Hf; [|done]. destruct (fl_phase f) as [|[r|]|] eqn:Hp; try done.
  apply rtc_once. exists None. apply Z.leb_le in H. by apply gw_store.
Qed.
Lemma judges s : can_judge s = true -> gw_step mac keyring second s (judged s) (do_judge s).
Proof.
  unfold can_judge, judged, do_judge. intros H. destruct (g_flight s !! 0%nat) as [f|] eqn:Hf; [|done]. destruct (fl_phase f) as [|[r|]|r] eqn:Hp; try done.
  apply Z.leb_le in H. by apply gw_judge.
Qed.
Lemma waits s now : (g_now s <=? now) = true -> runs s (move s now (g_db s)).
Proof. intros H%Z.leb_le. apply rtc_once. exists None. by apply gw_tick. Qed.

(** A request that misses the cache, up to the decision. *)
Definition fetched (s : Gateway) : Gateway := do_store (do_lookup (do_begin s)).
Lemma fetches s : can_begin s = true -> can_lookup (do_begin s) = true -> can_store (do_lookup (do_begin s)) = true -> runs s (fetched s).
Proof. intros H1 H2 H3. etransitivity; [by apply begins|]. etransitivity; [by apply looks|]. by apply stores. Qed.

Definition g0 : Gateway := {| g_db := db1; g_now := t0; g_cache := cache0; g_flight := ∅; g_past := [(t0, db1)] |}.

Definition the_key : KeyRecord := new_record command
  {| rp_ID := key_id; rp_Prefix := km_Prefix (ic_Metadata issued); rp_SecretHash := Z.of_nat <$> seq 26 32; rp_HashKeyVersion := "unit-v1" |} t0.

Lemma db1_wf : db_wf db1.
Proof.
  apply (key_steps_sound db0); [by apply no_keys_wf|]. replace db1 with (store_Create no_faults db0 the_key).1 by (vm_compute; reflexivity). apply create_steps.
Qed.

Lemma g0_starts : starts g0.
Proof.
  split; [exact db1_wf|]. split; [|done]. apply (NewMemoryCache_wf (30 * second) 8). reflexivity.
Qed.

(** After a request has filled the cache, the key is rotated with a grace period of one
    second; two seconds later the gateway is asked again. *)
Definition locator : Locator := {| loc_TenantID := tenant; loc_ProjectID := project; loc_ID := key_id |}.
Definition replacement : Replacement :=
  {| rp_ID := "30000000-0000-4000-8000-000000000001"; rp_Prefix := "agw_live_replacement"; rp_SecretHash := replicate 32 9; rp_HashKeyVersion := "unit-v1" |}.
Definition db2 : KeyDB := (store_Rotate no_faults db1 locator replacement (t0 + second) "unit:rotate" t0).1.
Definition g1 : Gateway := do_judge (fetched g0).
Definition g2 : Gateway := move g1 t0 db2.
Definition g3 : Gateway := do_begin (move g2 (t0 + 2 * second) db2).

Lemma g1_reached : runs g0 g1.
Proof.
  etransitivity; [apply fetches; vm_compute; reflexivity|]. apply rtc_once. exists (judged (fetched g0)). apply judges. vm_compute. reflexivity.
Qed.
Lemma g3_reached : runs g0 g3.
Proof.
  etransitivity; [exact g1_reached|]. transitivity g2.
  - apply rtc_once. exists None. apply (gw_table mac keyring second g1 db2). apply step_rotate.
  - transitivity (move g2 (t0 + 2 * second) (g_db g2)); [apply waits; vm_compute; reflexivity|]. apply begins. vm_compute. reflexivity.
Qed.

(** Forty seconds later, when the record is fetched again. *)
Definition later : Gateway := move g0 (t0 + 40 * second) db1.
Lemma later_reached : runs g0 later.
Proof. apply (waits g0). vm_compute. reflexivity. Qed.
Lemma later_fetched : runs later (fetched later).
Proof. apply fetches; vm_compute; reflexivity. Qed.

Definition secret : list Z := Z.of_nat <$> seq 26 32.
Definition identity : Principal :=
  {| pr_TenantID := tenant; pr_ProjectID := project; pr_VirtualKeyID := key_id; pr_Prefix := km_Prefix (ic_Metadata issued);
     pr_AllowedModels := Some ["chat.default"%string]; pr_Limits := Some {| kl_RPM := Some 120; kl_TPM := None; kl_Concurrency := None |} |}.
Lemma accepts s : can_judge s = true -> judged s = Some (Judged (km_Prefix (ic_Metadata issued)) secret (Ok identity)) ->
  gw_step mac keyring second s (Some (Judged (km_Prefix (ic_Metadata issued)) secret (Ok identity))) (do_judge s).
Proof. intros H <-. by apply judges. Qed.
End KeyRun.

Lemma accepted_credentials_are_genuine_witness :
  exists t db row d, (t, db) ∈ g_past (KeyRun.fetched KeyRun.g0) /\ kd_keys db !! KeyDemo.key_id = Some row /\
    kr_digesters KeyDemo.keyring !! vk_HashKeyVersion (row_key row) = Some d.
Proof.
  destruct (accepted_credentials_are_genuine KeyDemo.mac KeyDemo.keyring second KeyRun.g0 (KeyRun.fetched KeyRun.g0) (KeyRun.do_judge (KeyRun.fetched KeyRun.g0))
    (km_Prefix (ic_Metadata KeyDemo.issued)) KeyRun.secret KeyRun.identity) as (t & db & row & d & H1 & _ & H2 & _ & _ & H3 & _).
  - unfold second. lia.
  - exact KeyRun.g0_starts.
  - apply KeyRun.fetches; vm_compute; reflexivity.
  - apply KeyRun.accepts; vm_compute; reflexivity.
  - exists t, db, row, d. exact (conj H1 (conj H2 H3)).
Defined.

Lemma lifecycle_changes_reach_the_gateway_witness :
  pr_VirtualKeyID KeyRun.identity = KeyDemo.key_id /\ admits (row_key (row_of KeyRun.the_key)) (g_now (KeyRun.fetched KeyRun.later)).
Proof.
  apply (lifecycle_changes_reach_the_gateway KeyDemo.mac KeyDemo.keyring second KeyRun.g0 KeyRun.g0 (KeyRun.fetched KeyRun.later) (KeyRun.do_judge (KeyRun.fetched KeyRun.later))
    KeyDemo.key_id (row_of KeyRun.the_key) KeyRun.secret KeyRun.identity).
  - unfold second. lia.
  - exact KeyRun.g0_starts.
  - reflexivity.
  - vm_compute. reflexivity.
  - transitivity KeyRun.later; [exact KeyRun.later_reached|exact KeyRun.later_fetched].
  - vm_compute. reflexivity.
  - apply KeyRun.accepts; vm_compute; reflexivity.
Defined.

Lemma rotation_hands_over_once_witness :
  exists row, select_key KeyDemo.db1 KeyRun.locator = Some row /\ vk_Status (row_key row) = StateActive.
Proof.
  destruct (rotation_hands_over_once no_faults KeyDemo.db1 KeyRun.locator KeyRun.replacement (KeyDemo.t0 + second) "unit:rotate" KeyDemo.t0 KeyRun.db2
    (replacement_record KeyRun.the_key KeyRun.replacement "unit:rotate" KeyDemo.t0)) as [(row & source & H1 & H2 & H3 & _) _].
  - exact KeyRun.db1_wf.
  - vm_compute. reflexivity.
  - exists row. split; [exact H1|]. destruct (scan_status _ _ H2) as [E _]. rewrite <- E. exact H3.
Defined.

Lemma key_lifecycle_is_monotone_witness :
  exists row', kd_keys KeyRun.db2 !! KeyDemo.key_id = Some row' /\ evolves (row_of KeyRun.the_key) row'.
Proof.
  destruct (key_lifecycle_is_monotone KeyDemo.db0 KeyDemo.db1 KeyRun.db2 KeyDemo.key_id (row_of KeyRun.the_key)) as (_ & H & _).
  - reflexivity.
  - replace KeyDemo.db1 with (store_Create no_faults KeyDemo.db0 KeyRun.the_key).1 by (vm_compute; reflexivity). apply create_steps.
  - apply rotate_steps.
  - vm_compute. reflexivity.
  - exact H.
Defined.

(** A record cached while the key was active carries no grace deadline: within the cache's
    time to live, a gateway accepts a key whose grace period is over. *)
Theorem cached_key_outlives_its_grace :
  exists row, rtc (gw_silent KeyDemo.mac KeyDemo.keyring second) KeyRun.g0 KeyRun.g3 /\
    kd_keys (g_db KeyRun.g3) !! KeyDemo.key_id = Some row /\ vk_Status (row_key row) = StateRotating /\
    elapsed (vk_RotationGraceExpiresAt (row_key row)) (g_now KeyRun.g3) = true /\
    gw_step KeyDemo.mac KeyDemo.keyring second KeyRun.g3 (Some (Judged (vk_Prefix (row_key row)) KeyRun.secret (Ok KeyRun.identity))) (KeyRun.do_judge KeyRun.g3).
Proof.
  exists {| row_key := rotating (KeyDemo.t0 + second) KeyDemo.t0 "unit:rotate" (row_key (row_of KeyRun.the_key)); row_limits := row_limits (row_of KeyRun.the_key) |}.
  split; [exact KeyRun.g3_reached|]. split; [vm_compute; reflexivity|]. split; [done|]. split; [vm_compute; reflexivity|].
  apply KeyRun.accepts; vm_compute; reflexivity.
Qed.

Lemma authentication_cache_is_bounded_witness :
  Z.of_nat (size (mc_entries (g_cache KeyRun.g1))) <= 8.
Proof.
  apply (authentication_cache_is_bounded KeyDemo.mac KeyDemo.keyring second KeyRun.g0 KeyRun.g1); [unfold second; lia|exact KeyRun.g0_starts|exact KeyRun.g1_reached].
Defined.
