(* ===== verification/JSON.v ===== *)
(** * JSON text as encoding/json checks it

    The scanner of Go's encoding/json as the pushdown automaton it is: one step per
    byte, with a stack of open objects and arrays of at most 10000 levels. It decides
    which raw messages the gateway accepts as exactly one JSON object. *)
From Stdlib Require Import ZArith Lia Bool Ascii String.
From stdpp Require Import base tactics option list strings.
From S2P Require Import Prelude Unicode.
Definition json_space (c : Z) : bool := (c =? 32) || (c =? 9) || (c =? 13) || (c =? 10).
Definition json_digit (c : Z) : bool := (48 <=? c) && (c <=? 57).
Definition json_hex (c : Z) : bool := json_digit c || ((97 <=? c) && (c <=? 102)) || ((65 <=? c) && (c <=? 70)).

Inductive parse_state := ParseObjectKey | ParseObjectValue | ParseArrayValue.

Inductive scan_state :=
| BeginValueOrEmpty | BeginValue | BeginStringOrEmpty | BeginString | EndValue | EndTop
| InString | InStringEsc | InStringEscU (digits : nat) | Neg | Num1 | Num0 | Dot | Dot0 | Exp | ExpSign | Exp0
| Literal (rest : list Z).

Definition maxNestingDepth : nat := 10000.

Notation scanner := (scan_state * list parse_state)%type.

Definition push (p : parse_state) (next : scan_state) (stack : list parse_state) : option scanner :=
  if Nat.leb (S (length stack)) maxNestingDepth then Some (next, p :: stack) else None.

Definition after_pop (stack : list parse_state) : scanner := (match stack with [] => EndTop | _ => EndValue end, stack).

(** The step functions that only need the stack. *)
Definition begin_value (stack : list parse_state) (c : Z) : option scanner :=
  if json_space c then Some (BeginValue, stack)
  else if c =? 123 then push ParseObjectKey BeginStringOrEmpty stack
  else if c =? 91 then push ParseArrayValue BeginValueOrEmpty stack
  else if c =? 34 then Some (InString, stack)
  else if c =? 45 then Some (Neg, stack)
  else if c =? 48 then Some (Num0, stack)
  else if c =? 116 then Some (Literal (bytes_of "rue"), stack)
  else if c =? 102 then Some (Literal (bytes_of "alse"), stack)
  else if c =? 110 then Some (Literal (bytes_of "ull"), stack)
  else if json_digit c then Some (Num1, stack)
  else None.

Definition begin_string (stack : list parse_state) (c : Z) : option scanner :=
  if json_space c then Some (BeginString, stack) else if c =? 34 then Some (InString, stack) else None.

Definition end_value (stack : list parse_state) (c : Z) : option scanner :=
  match stack with
  | [] => if json_space c then Some (EndTop, []) else None
  | p :: outer =>
      if json_space c then Some (EndValue, stack)
      else match p with
      | ParseObjectKey => if c =? 58 then Some (BeginValue, ParseObjectValue :: outer) else None
      | ParseObjectValue =>
          if c =? 44 then Some (BeginString, ParseObjectKey :: outer) else if c =? 125 then Some (after_pop outer) else None
      | ParseArrayValue =>
          if c =? 44 then Some (BeginValue, stack) else if c =? 93 then Some (after_pop outer) else None
      end
  end.

Definition num0 (stack : list parse_state) (c : Z) : option scanner :=
  if c =? 46 then Some (Dot, stack) else if (c =? 101) || (c =? 69) then Some (Exp, stack) else end_value stack c.

Definition exp_sign (stack : list parse_state) (c : Z) : option scanner := if json_digit c then Some (Exp0, stack) else None.

Definition scan_step (s : scanner) (c : Z) : option scanner :=
  let '(state, stack) := s in
  match state with
  | BeginValueOrEmpty =>
      if json_space c then Some (BeginValueOrEmpty, stack) else if c =? 93 then end_value stack c else begin_value stack c
  | BeginValue => begin_value stack c
  | BeginStringOrEmpty =>
      if json_space c then Some (BeginStringOrEmpty, stack)
      else if c =? 125 then match stack with _ :: outer => end_value (ParseObjectValue :: outer) c | [] => None end
      else begin_string stack c
  | BeginString => begin_string stack c
  | EndValue => end_value stack c
  | EndTop => if json_space c then Some s else None
  | InString =>
      if c =? 34 then Some (EndValue, stack) else if c =? 92 then Some (InStringEsc, stack) else if c <? 32 then None else Some s
  | InStringEsc =>
      if existsb (Z.eqb c) (bytes_of "bfnrt\/" ++ [34]) then Some (InString, stack)
      else if c =? 117 then Some (InStringEscU 4, stack) else None
  | InStringEscU digits =>
      if json_hex c then Some (match digits with S (S n) => InStringEscU (S n) | _ => InString end, stack) else None
  | Neg => if c =? 48 then Some (Num0, stack) else if json_digit c then Some (Num1, stack) else None
  | Num1 => if json_digit c then Some s else num0 stack c
  | Num0 => num0 stack c
  | Dot => if json_digit c then Some (Dot0, stack) else None
  | Dot0 => if json_digit c then Some s else if (c =? 101) || (c =? 69) then Some (Exp, stack) else end_value stack c
  | Exp => if (c =? 43) || (c =? 45) then Some (ExpSign, stack) else exp_sign stack c
  | ExpSign => exp_sign stack c
  | Exp0 => if json_digit c then Some s else end_value stack c
  | Literal rest =>
      match rest with
      | [] => end_value stack c
      | b :: rest' => if c =? b then Some (match rest' with [] => EndValue | _ => Literal rest' end, stack) else None
      end
  end.

Fixpoint scan (s : scanner) (input : list Z) : option scanner :=
  match input with [] => Some s | c :: rest => s' ← scan_step s c; scan s' rest end.

(** One JSON value with nothing but space after it: at the end of the input the
    scanner takes one more space, which ends a number. *)
Definition json_valid (input : list Z) : bool :=
  match scan (BeginValue, []) input with
  | Some s => match s.1, scan_step s 32 with EndTop, _ => true | _, Some (EndTop, _) => true | _, _ => false end
  | None => false
  end.

(** [decoder.Decode(&object)] into a map, which refuses [null] and the other kinds,
    followed by [decoder.Decode(&trailing)], which must meet the end of the input. *)
Fixpoint opens_object (input : list Z) : bool :=
  match input with c :: rest => if json_space c then opens_object rest else c =? 123 | [] => false end.

Definition json_object (input : list Z) : bool := opens_object input && json_valid input.

Example json_examples :
  json_object (bytes_of " { } ") = true /\ json_object (bytes_of "{\u0041: 1}") = false /\
  json_object ([123; 34; 97; 34; 58] ++ bytes_of "[1, -0.5e+3, true, null, {}]}") = true /\
  json_object (bytes_of "null") = false /\ json_object (bytes_of "{}{}") = false /\ json_valid (bytes_of "12") = true.
Proof. vm_compute. done. Qed.
