(* ===== verification/JSONDecode.v ===== *)
(** * Decoding JSON as encoding/json does

    What the request parser and the adapters use of [encoding/json]: [Unmarshal] and
    [Decoder.Decode] into strings, numbers, booleans, slices and maps of raw messages, one
    level at a time (a nested value stays a raw message), and the token stream of
    [Decoder.Token]. Text is bytes; decoded strings are Go strings, always valid UTF-8.

    Then: decoding JSON into structs, as the provider adapters do; decoded strings are text. *)
From Stdlib Require Import ZArith Lia Bool Ascii String SpecFloat.
From stdpp Require Import base tactics option list strings gmap fin_maps.
From S2P Require Import Prelude Identifiers Unicode Encoding JSON.
(** ** Runes *)

(** [utf8.EncodeRune]: surrogates and values beyond U+10FFFF become U+FFFD. *)
Definition valid_rune (r : Z) : bool := within 0 55295 r || within 57344 1114111 r.

Definition EncodeRune (r : Z) : list Z :=
  if negb (valid_rune r) then [239; 191; 189]
  else if r <? 128 then [r]
  else if r <? 2048 then [192 + r / 64; 128 + r mod 64]
  else if r <? 65536 then [224 + r / 4096; 128 + r / 64 mod 64; 128 + r mod 64]
  else [240 + r / 262144; 128 + r / 4096 mod 64; 128 + r / 64 mod 64; 128 + r mod 64].

(** [utf8.DecodeRune]: the first rune and its size; U+FFFD and 1 for an invalid byte. *)
Definition DecodeRune (bs : list Z) : Z * nat :=
  let bad := (65533, 1%nat) in
  match bs with
  | [] => (65533, 0%nat)
  | b0 :: r0 =>
      if b0 <? 128 then (b0, 1%nat)
      else if within 194 223 b0 then
        match r0 with b1 :: _ => if cont b1 then ((b0 - 192) * 64 + (b1 - 128), 2%nat) else bad | [] => bad end
      else if within 224 239 b0 then
        match r0 with
        | b1 :: b2 :: _ =>
            if within (if b0 =? 224 then 160 else 128) (if b0 =? 237 then 159 else 191) b1 && cont b2
            then ((b0 - 224) * 4096 + (b1 - 128) * 64 + (b2 - 128), 3%nat) else bad
        | _ => bad
        end
      else if within 240 244 b0 then
        match r0 with
        | b1 :: b2 :: b3 :: _ =>
            if within (if b0 =? 240 then 144 else 128) (if b0 =? 244 then 143 else 191) b1 && cont b2 && cont b3
            then ((b0 - 240) * 262144 + (b1 - 128) * 4096 + (b2 - 128) * 64 + (b3 - 128), 4%nat) else bad
        | _ => bad
        end
      else bad
  end.

(** ** Strings *)
Definition hex_value (c : Z) : option Z :=
  if json_digit c then Some (c - 48) else if within 97 102 c then Some (c - 87) else if within 65 70 c then Some (c - 55) else None.

(** [getu4]: the four hexadecimal digits after a backslash and a u. *)
Definition getu4 (bs : list Z) : option Z :=
  match bs with
  | s :: u :: a :: b :: c :: d :: _ =>
      if (s =? 92) && (u =? 117) then
        x ← hex_value a; y ← hex_value b; z ← hex_value c; w ← hex_value d; Some (((x * 16 + y) * 16 + z) * 16 + w)
      else None
  | _ => None
  end.

(** [utf16.DecodeRune] on a high surrogate and what follows it. *)
Definition surrogate_pair (high : Z) (low : option Z) : option Z :=
  match low with
  | Some l => if within 55296 56319 high && within 56320 57343 l then Some ((high - 55296) * 1024 + (l - 56320) + 65536) else None
  | None => None
  end.

Definition simple_escape (c : Z) : option Z :=
  if (c =? 34) || (c =? 92) || (c =? 47) || (c =? 39) then Some c
  else if c =? 98 then Some 8 else if c =? 102 then Some 12 else if c =? 110 then Some 10
  else if c =? 114 then Some 13 else if c =? 116 then Some 9 else None.

(** [unquoteBytes] between the quotes: [skip] bytes belong to what was just read. *)
Fixpoint unquote (skip : nat) (bs : list Z) : option (list Z) :=
  match bs with
  | [] => Some []
  | c :: rest =>
      match skip with
      | S n => unquote n rest
      | O =>
          if c =? 92 then
            match rest with
            | [] => None
            | e :: _ =>
                match simple_escape e with
                | Some b => out ← unquote 1 rest; Some (b :: out)
                | None =>
                    rr ← getu4 bs;
                    if within 55296 57343 rr then
                      match surrogate_pair rr (getu4 (drop 5 rest)) with
                      | Some r => out ← unquote 11 rest; Some (EncodeRune r ++ out)
                      | None => out ← unquote 5 rest; Some (EncodeRune 65533 ++ out)
                      end
                    else out ← unquote 5 rest; Some (EncodeRune rr ++ out)
                end
            end
          else if (c =? 34) || (c <? 32) then None
          else if c <? 128 then out ← unquote 0 rest; Some (c :: out)
          else let '(r, size) := DecodeRune bs in out ← unquote (size - 1) rest; Some (EncodeRune r ++ out)
      end
  end.

Definition quoted (raw : list Z) : option string :=
  match raw with
  | open :: rest =>
      match reverse rest with
      | close :: inner => if (open =? 34) && (close =? 34) then string_of <$> unquote 0 (reverse inner) else None
      | [] => None
      end
  | [] => None
  end.

(** ** One value *)
Fixpoint skip_spaces (bs : list Z) : list Z :=
  match bs with c :: rest => if json_space c then skip_spaces rest else bs | [] => [] end.

(** The byte after a complete top-level value: it ends a string, a literal and a closed
    container, and a number that it does not continue. *)
Definition value_ends (s : scanner) (c : Z) : bool :=
  match s with
  | ((EndValue | EndTop), []) => true
  | (Num1, []) => negb (json_digit c || (c =? 46) || (c =? 101) || (c =? 69))
  | (Num0, []) => negb ((c =? 46) || (c =? 101) || (c =? 69))
  | (Dot0, []) => negb (json_digit c || (c =? 101) || (c =? 69))
  | (Exp0, []) => negb (json_digit c)
  | _ => false
  end.

(** [Decoder.readValue] and the skipping of a raw message: the value at the front of the
    input and what follows it. *)
Fixpoint read_from (s : scanner) (bs : list Z) : option (list Z * list Z) :=
  match bs with
  | [] => match s.1, scan_step s 32 with EndTop, _ | _, Some (EndTop, _) => Some ([], []) | _, _ => None end
  | c :: rest =>
      if value_ends s c then Some ([], bs)
      else s' ← scan_step s c; '(value, after) ← read_from s' rest; Some (c :: value, after)
  end.
Definition read_value (bs : list Z) : option (list Z * list Z) := read_from (BeginValue, []) bs.

Inductive json_value :=
| JNull | JBool (value : bool) | JNumber (text : list Z) | JString (value : string)
| JArray (items : list (list Z)) | JObject (fields : list (string * list Z)).

(** The items after an opening bracket or a comma. *)
Fixpoint array_items (fuel : nat) (bs : list Z) : option (list (list Z)) :=
  match fuel with
  | O => None
  | S fuel =>
      if bool_decide (head (skip_spaces bs) = Some 93) then Some []
      else
        '(item, rest) ← read_value (skip_spaces bs);
        match skip_spaces rest with
        | c :: rest => if c =? 93 then Some [item] else if c =? 44 then items ← array_items fuel rest; Some (item :: items) else None
        | [] => None
        end
  end.

(** The members after an opening brace or a comma. *)
Fixpoint object_members (fuel : nat) (bs : list Z) : option (list (string * list Z)) :=
  match fuel with
  | O => None
  | S fuel =>
      if bool_decide (head (skip_spaces bs) = Some 125) then Some []
      else
        '(name, rest) ← read_value (skip_spaces bs);
        key ← quoted name;
        match skip_spaces rest with
        | colon :: rest =>
            if colon =? 58 then
              '(item, rest) ← read_value (skip_spaces rest);
              match skip_spaces rest with
              | c :: rest =>
                  if c =? 125 then Some [(key, item)]
                  else if c =? 44 then more ← object_members fuel rest; Some ((key, item) :: more) else None
              | [] => None
              end
            else None
        | [] => None
        end
  end.

(** A whole text as [Unmarshal] sees it: checked as one JSON value, then taken apart. *)
Definition json_decode (text : list Z) : option json_value :=
  if negb (json_valid text) then None
  else match skip_spaces text with
       | c :: rest =>
           if c =? 123 then JObject <$> object_members (S (length rest)) rest
           else if c =? 91 then JArray <$> array_items (S (length rest)) rest
           else if c =? 34 then '(raw, _) ← read_value (c :: rest); JString <$> quoted raw
           else if c =? 116 then Some (JBool true)
           else if c =? 102 then Some (JBool false)
           else if c =? 110 then Some JNull
           else '(raw, _) ← read_value (c :: rest); Some (JNumber raw)
       | [] => None
       end.

(** ** Numbers *)
Definition digit_value (acc c : Z) : Z := acc * 10 + (c - 48).

Fixpoint take_digits (bs : list Z) : list Z * list Z :=
  match bs with
  | c :: rest => if json_digit c then let '(ds, after) := take_digits rest in (c :: ds, after) else ([], bs)
  | [] => ([], [])
  end.

Definition take_sign (bs : list Z) : bool * list Z :=
  match bs with c :: rest => if c =? 45 then (true, rest) else if c =? 43 then (false, rest) else (false, bs) | [] => (false, []) end.

(** A decimal as sign, digits and power of ten; [None] if the text is not one. *)
Definition parse_decimal (text : list Z) : option (bool * Z * Z) :=
  let '(negative, bs) := take_sign text in
  let '(whole, bs) := take_digits bs in
  let '(fraction, bs) := match bs with c :: rest => if c =? 46 then take_digits rest else ([], bs) | [] => ([], []) end in
  let mantissa := foldl digit_value 0 (whole ++ fraction) in
  let scale := - Z.of_nat (length fraction) in
  match bs with
  | [] => Some (negative, mantissa, scale)
  | c :: rest =>
      if (c =? 101) || (c =? 69) then
        let '(down, rest) := take_sign rest in
        let '(power, rest) := take_digits rest in
        match rest with
        | [] => let e := foldl digit_value 0 power in Some (negative, mantissa, scale + (if down then - e else e))
        | _ => None
        end
      else None
  end.

(** The double nearest to [mantissa * 10 ^ scale], ties to even. A magnitude above 10^310
    overflows and one below 2^-1199 vanishes, without the power being formed. *)
Definition decimal_float (negative : bool) (mantissa scale : Z) : spec_float :=
  match mantissa with
  | Zpos m =>
      if 310 <? scale then S754_infinity negative
      else if Z.log2 mantissa + 3 * scale <? -1200 then S754_zero negative
      else if 0 <=? scale then binary_normalize 53 1024 (if negative then - (mantissa * 10 ^ scale) else mantissa * 10 ^ scale) 0 negative
      else match 10 ^ (- scale) with
           | Zpos d => SFdiv 53 1024 (S754_finite negative m 0) (S754_finite false d 0)
           | _ => S754_nan
           end
  | _ => S754_zero negative
  end.

(** [strconv.ParseFloat]: a value that rounds to an infinity is out of range. *)
Definition ParseFloat (text : list Z) : option spec_float :=
  '(negative, mantissa, scale) ← parse_decimal text;
  match decimal_float negative mantissa scale with S754_infinity _ | S754_nan => None | f => Some f end.

(** [strconv.ParseInt(text, 10, 64)] *)
Definition ParseInt64 (text : list Z) : option Z :=
  let '(negative, bs) := take_sign text in
  let '(ds, rest) := take_digits bs in
  if negb (Nat.eqb (length ds) 0) && Nat.eqb (length rest) 0 then
    let n := foldl digit_value 0 ds in
    let z := if negative then - n else n in
    if (i64_min <=? z) && (z <=? i64_max) then Some z else None
  else None.

(** ** Typed targets: [null] leaves the zero value. *)
Definition decode_string (text : list Z) : option string :=
  match json_decode text with Some JNull => Some ""%string | Some (JString s) => Some s | _ => None end.
Definition decode_bool (text : list Z) : option bool :=
  match json_decode text with Some JNull => Some false | Some (JBool b) => Some b | _ => None end.
Definition decode_float (text : list Z) : option spec_float :=
  match json_decode text with Some JNull => Some (S754_zero false) | Some (JNumber t) => ParseFloat t | _ => None end.
Definition decode_int64 (text : list Z) : option Z :=
  match json_decode text with Some JNull => Some 0 | Some (JNumber t) => ParseInt64 t | _ => None end.
Definition decode_items (text : list Z) : option (list (list Z)) :=
  match json_decode text with Some JNull => Some [] | Some (JArray items) => Some items | _ => None end.
Definition decode_strings (text : list Z) : option (list string) := items ← decode_items text; mapM decode_string items.

(** A map target: of a repeated name the last value stays; [null] gives the nil map. *)
Definition of_members (ms : list (string * list Z)) : gmap string (list Z) := foldl (fun m kv => <[kv.1 := kv.2]> m) ∅ ms.
Definition decode_map (text : list Z) : option (option (gmap string (list Z))) :=
  match json_decode text with Some JNull => Some None | Some (JObject ms) => Some (Some (of_members ms)) | _ => None end.

(** ** The token stream *)
Inductive token_state :=
| TokenTopValue | TokenArrayStart | TokenArrayValue | TokenArrayComma | TokenObjectStart | TokenObjectKey | TokenObjectColon
| TokenObjectValue | TokenObjectComma.

#[export] Instance token_state_eq_dec : EqDecision token_state.
Proof. solve_decision. Defined.

Record TokenDecoder := { dc_rest : list Z; dc_state : token_state; dc_stack : list token_state }.

Inductive token := Delim (c : Z) | TokenString (s : string) | TokenScalar.

Definition tokenValueAllowed (s : token_state) : bool :=
  match s with TokenTopValue | TokenArrayStart | TokenArrayValue | TokenObjectValue => true | _ => false end.
Definition tokenValueEnd (s : token_state) : token_state :=
  match s with TokenArrayStart | TokenArrayValue => TokenArrayComma | TokenObjectValue => TokenObjectComma | _ => s end.

(** An opening and a closing bracket. *)
Definition token_open (d : TokenDecoder) (c : Z) (rest : list Z) (inner : token_state) : option (token * TokenDecoder) :=
  if tokenValueAllowed (dc_state d) then Some (Delim c, {| dc_rest := rest; dc_state := inner; dc_stack := dc_state d :: dc_stack d |}) else None.
Definition token_close (d : TokenDecoder) (c : Z) (rest : list Z) (start comma : token_state) : option (token * TokenDecoder) :=
  if bool_decide (dc_state d = start) || bool_decide (dc_state d = comma) then
    match dc_stack d with
    | outer :: stack => Some (Delim c, {| dc_rest := rest; dc_state := tokenValueEnd outer; dc_stack := stack |})
    | [] => None
    end
  else None.

(** The literal that [Decode] reads inside [Token]. *)
Definition token_literal (raw : list Z) : option token :=
  match json_decode raw with Some (JString s) => Some (TokenString s) | Some (JNull | JBool _ | JNumber _) => Some TokenScalar | _ => None end.

(** [Decoder.Token]; [None] is an error, the end of the input among them. At most a comma
    or a colon is skipped before the token. *)
Fixpoint Token (again : nat) (d : TokenDecoder) : option (token * TokenDecoder) :=
  match again, skip_spaces (dc_rest d) with
  | S again, c :: rest =>
      let next s := {| dc_rest := rest; dc_state := s; dc_stack := dc_stack d |} in
      if c =? 91 then token_open d c rest TokenArrayStart
      else if c =? 93 then token_close d c rest TokenArrayStart TokenArrayComma
      else if c =? 123 then token_open d c rest TokenObjectStart
      else if c =? 125 then token_close d c rest TokenObjectStart TokenObjectComma
      else if c =? 58 then if bool_decide (dc_state d = TokenObjectColon) then Token again (next TokenObjectValue) else None
      else if c =? 44 then
        match dc_state d with
        | TokenArrayComma => Token again (next TokenArrayValue)
        | TokenObjectComma => Token again (next TokenObjectKey)
        | _ => None
        end
      else if (c =? 34) && (bool_decide (dc_state d = TokenObjectStart) || bool_decide (dc_state d = TokenObjectKey)) then
        '(raw, after) ← read_value (c :: rest);
        key ← decode_string raw;
        Some (TokenString key, {| dc_rest := after; dc_state := TokenObjectColon; dc_stack := dc_stack d |})
      else if tokenValueAllowed (dc_state d) then
        '(raw, after) ← read_value (c :: rest);
        t ← token_literal raw;
        Some (t, {| dc_rest := after; dc_state := tokenValueEnd (dc_state d); dc_stack := dc_stack d |})
      else None
  | _, _ => None
  end.

(** [Decoder.More] *)
Definition More (d : TokenDecoder) : bool :=
  match skip_spaces (dc_rest d) with c :: _ => negb ((c =? 93) || (c =? 125)) | [] => false end.

Definition new_decoder (text : list Z) : TokenDecoder := {| dc_rest := text; dc_state := TokenTopValue; dc_stack := [] |}.
(** Enough for a separator and a token. *)
Definition next_token (d : TokenDecoder) : option (token * TokenDecoder) := Token 3 d.
(** [errors.Is(err, io.EOF)] of the next token. *)
Definition at_eof (d : TokenDecoder) : bool := bool_decide (skip_spaces (dc_rest d) = []).

Definition json_text (s : string) : list Z := (fun c => if c =? 39 then 34 else c) <$> bytes_of s.

Example decode_examples :
  json_decode (json_text " {'a': [1, {'b':'x'}] , 'c':'\u00e9\ud83d\ude00\n' }") =
    Some (JObject [("a"%string, json_text "[1, {'b':'x'}]"); ("c"%string, json_text "'\u00e9\ud83d\ude00\n'")]) /\
  bytes_of <$> decode_string (json_text "'\u00e9\ud83d\ude00\ud800\n'") = Some [195; 169; 240; 159; 152; 128; 239; 191; 189; 10] /\
  decode_float (bytes_of "0.1") = Some (S754_finite false 7205759403792794 (-56)) /\
  decode_float (bytes_of "-2.5e1") = Some (S754_finite true 7036874417766400 (-48)) /\
  decode_float (bytes_of "1e400") = None /\ decode_float (bytes_of "5e-324") = Some (S754_finite false 1 (-1074)) /\
  decode_int64 (bytes_of "9223372036854775807") = Some i64_max /\ decode_int64 (bytes_of "1.0") = None /\
  decode_strings (json_text "[ 'a' ,'b',null ]") = Some ["a"; "b"; ""]%string /\ decode_map (bytes_of " null") = Some None /\
  json_decode (bytes_of "[1,]") = None.
Proof. vm_compute. split_and!; reflexivity. Qed.

(** ** Decoding JSON into structs, as the provider adapters do

    A struct target takes the members of an object in order; a name selects the field of
    exactly that name, else the first field that differs only in letter case; other names
    are skipped. A field that occurs again is stored again. [null] leaves a string or a
    number as it is, clears a slice or a pointer, and is kept as text by a raw message. *)
(** The members of the text; [None] is a value of another kind. *)
Definition struct_members (text : list Z) : option (list (string * list Z)) :=
  match json_decode text with Some JNull => Some [] | Some (JObject members) => Some members | _ => None end.

(** The field of a struct with the fields [names] that a member of the name [name] is
    stored in. *)
Definition field_for (names : list string) (name : string) : option string :=
  match find (String.eqb name) names with Some field => Some field | None => find (EqualFold name) names end.

Definition values_for (names : list string) (members : list (string * list Z)) (field : string) : list (list Z) :=
  snd <$> filter (fun m => field_for names m.1 = Some field) members.

(** The value of a field after all its occurrences, from its zero value; [None] is a value
    of the wrong type. *)
Fixpoint store_all {A : Type} (put : json_value -> A -> option A) (raws : list (list Z)) (a : A) : option A :=
  match raws with [] => Some a | raw :: raws => v ← json_decode raw; a' ← put v a; store_all put raws a' end.

Section Fields.
Context (names : list string) (members : list (string * list Z)).

Definition string_field (field : string) : option string :=
  store_all (fun v s => match v with JNull => Some s | JString s' => Some s' | _ => None end) (values_for names members field) ""%string.
Definition int_field (field : string) : option Z :=
  store_all (fun v n => match v with JNull => Some n | JNumber t => ParseInt64 t | _ => None end) (values_for names members field) 0.
Definition raws_field (field : string) : option (list (list Z)) :=
  store_all (fun v _ => match v with JNull => Some [] | JArray items => Some items | _ => None end) (values_for names members field) [].
Definition string_pointer_field (field : string) : option (option string) :=
  store_all (fun v _ => match v with JNull => Some None | JString s => Some (Some s) | _ => None end) (values_for names members field) None.
(** A raw message keeps the text of its last occurrence. *)
Definition raw_message_field (field : string) : list Z := default [] (last (values_for names members field)).
End Fields.

Definition trim_bytes (raw : list Z) : list Z := bytes_of (TrimSpace (string_of raw)).

(** [decodeOneJSON] into a map, then its names. *)
Definition onlyObjectFields (raw : list Z) (allowed : list string) : bool :=
  match decode_map raw with
  | Some (Some fields) => Nat.eqb (length allowed) 0 || forallb (fun name => bool_decide (name ∈ allowed)) (map_to_list fields).*1
  | _ => false
  end.

Definition hasNonNullValue (raw : list Z) : bool :=
  let t := trim_bytes raw in negb (Nat.eqb (length t) 0) && negb (bool_decide (t = bytes_of "null")).
Definition hasValue (raw : list Z) : bool := hasNonNullValue raw && negb (bool_decide (trim_bytes raw = bytes_of "[]")).

(** ** Decoded strings are text

    Whatever bytes stand between the quotes, the string that [encoding/json] decodes is
    valid UTF-8. *)
Ltac utf8_cases :=
  unfold within, cont in *; repeat (case_match; prop_hyps; try done; try lia).

Lemma decode_two b0 b1 out : 194 <= b0 <= 223 -> 128 <= b1 <= 191 -> is_Some (decode out) -> is_Some (decode (b0 :: b1 :: out)).
Proof. intros H0 H1 [rs E]. cbn [decode]. rewrite E. utf8_cases. Qed.

Lemma decode_three b0 b1 b2 out :
  224 <= b0 <= 239 -> (if b0 =? 224 then 160 else 128) <= b1 <= (if b0 =? 237 then 159 else 191) -> 128 <= b2 <= 191 ->
  is_Some (decode out) -> is_Some (decode (b0 :: b1 :: b2 :: out)).
Proof. intros H0 H1 H2 [rs E]. cbn [decode]. rewrite E. utf8_cases. Qed.

Lemma decode_four b0 b1 b2 b3 out :
  240 <= b0 <= 244 -> (if b0 =? 240 then 144 else 128) <= b1 <= (if b0 =? 244 then 143 else 191) -> 128 <= b2 <= 191 -> 128 <= b3 <= 191 ->
  is_Some (decode out) -> is_Some (decode (b0 :: b1 :: b2 :: b3 :: out)).
Proof. intros H0 H1 H2 H3 [rs E]. cbn [decode]. rewrite E. utf8_cases. Qed.

Lemma decode_ascii b out : b < 128 -> is_Some (decode out) -> is_Some (decode (b :: out)).
Proof. intros Hb [rs E]. cbn [decode]. rewrite E. utf8_cases. Qed.

Lemma encoded_rune_valid r out : is_Some (decode out) -> is_Some (decode (EncodeRune r ++ out)).
Proof.
  intros Ho. unfold EncodeRune. destruct (valid_rune r) eqn:Hv; cbn [negb].
  - assert (0 <= r <= 55295 \/ 57344 <= r <= 1114111) as Hr.
    { unfold valid_rune, within in Hv. apply orb_true_iff in Hv as [Hv|Hv]; prop_hyps; lia. }
    destruct (r <? 128) eqn:E1; [apply decode_ascii; [lia|done]|].
    destruct (r <? 2048) eqn:E2; [apply decode_two; [Z.div_mod_to_equations; lia..|done]|].
    destruct (r <? 65536) eqn:E3; prop_hyps.
    + apply decode_three; [Z.div_mod_to_equations; lia| |Z.div_mod_to_equations; lia|done].
      destruct (_ =? 224) eqn:Ea; destruct (_ =? 237) eqn:Eb; prop_hyps; Z.div_mod_to_equations; lia.
    + apply decode_four; [Z.div_mod_to_equations; lia| |Z.div_mod_to_equations; lia..|done].
      destruct (_ =? 240) eqn:Ea; destruct (_ =? 244) eqn:Eb; prop_hyps; Z.div_mod_to_equations; lia.
  - by apply decode_three.
Qed.

Lemma encoded_rune_bytes r : Forall (fun b => is_byte b = true) (EncodeRune r).
Proof.
  unfold EncodeRune. destruct (valid_rune r) eqn:Hv; [|by repeat constructor].
  assert (0 <= r <= 1114111) as Hr by (unfold valid_rune, within in Hv; apply orb_true_iff in Hv as [Hv|Hv]; prop_hyps; lia).
  unfold is_byte. cbn [negb]. repeat case_match; prop_hyps; repeat constructor; prop_goal; Z.div_mod_to_equations; lia.
Qed.

Definition text_bytes (bs : list Z) : Prop := is_Some (decode bs) /\ Forall (fun b => is_byte b = true) bs.

Lemma text_rune r out : text_bytes out -> text_bytes (EncodeRune r ++ out).
Proof. intros [H1 H2]. split; [by apply encoded_rune_valid|]. apply Forall_app. by split; [apply encoded_rune_bytes|]. Qed.

Lemma text_char b out : 0 <= b < 128 -> text_bytes out -> text_bytes (b :: out).
Proof. intros Hb [H1 H2]. split; [by apply decode_ascii; [lia|]|]. constructor; [|done]. unfold is_byte. prop_goal; lia. Qed.

Lemma simple_escape_range e b : simple_escape e = Some b -> 0 <= b < 128.
Proof. unfold simple_escape. intros H. destruct ((e =? 34) || (e =? 92) || (e =? 47) || (e =? 39)) eqn:E; [|repeat case_match; simplify_eq; lia].
  injection H as ->. repeat (apply orb_true_iff in E as [E|E]); prop_hyps; lia.
Qed.

Lemma unquote_text bs : forall skip out, unquote skip bs = Some out -> text_bytes out.
Proof.
  induction bs as [|c bs IH]; intros skip out H; cbn [unquote] in H; [injection H as <-; by split|].
  destruct skip as [|skip]; [|by eapply IH].
  destruct (c =? 92).
  - destruct bs as [|e bs]; [done|]. destruct (simple_escape e) as [b|] eqn:Ee.
    + apply bind_Some in H as (out' & H & [= <-]). eapply text_char, IH; [by eapply simple_escape_range|exact H].
    + apply bind_Some in H as (rr & _ & H). destruct (within 55296 57343 rr); [destruct (surrogate_pair _ _)|];
        apply bind_Some in H as (out' & H & <-%Some_inj); eapply text_rune, IH, H.
  - destruct ((c =? 34) || (c <? 32)) eqn:Ec; [done|]. prop_hyps. destruct (c <? 128) eqn:Ea.
    + prop_hyps. apply bind_Some in H as (out' & H & [= <-]). eapply text_char, IH, H; lia.
    + destruct (DecodeRune (c :: bs)) as [r size]. apply bind_Some in H as (out' & H & <-%Some_inj). eapply text_rune, IH, H.
Qed.

Lemma quoted_text raw s : quoted raw = Some s -> is_Some (decode (bytes_of s)).
Proof.
  unfold quoted. destruct raw as [|open rest]; [done|]. destruct (reverse rest) as [|close inner]; [done|]. destruct (_ && _); [|done].
  intros (out & Hq & ->)%fmap_Some. apply unquote_text in Hq as [Hd Hb]. by rewrite bytes_of_string_of.
Qed.

(** Take a successful decoding apart. *)
Ltac decoded :=
  repeat match goal with
  | H : fmap _ _ = Some _ |- _ => apply fmap_Some in H as (? & ? & ?); simplify_eq
  | H : mbind _ _ = Some _ |- _ => apply bind_Some in H as ([? ?] & ? & ?); simplify_eq
  | H : Some _ = Some _ |- _ => injection H as ?; simplify_eq
  end.

Lemma json_decode_cases text v : json_decode text = Some v ->
  json_valid text = true /\
  match v with
  | JObject ms => exists rest, skip_spaces text = 123 :: rest /\ object_members (S (length rest)) rest = Some ms
  | JArray items => exists rest, skip_spaces text = 91 :: rest /\ array_items (S (length rest)) rest = Some items
  | JString s => exists raw, quoted raw = Some s
  | _ => True
  end.
Proof.
  unfold json_decode. destruct (json_valid text); [cbn [negb]|done]. intros H. split; [done|].
  destruct (skip_spaces text) as [|c rest]; [done|].
  destruct (c =? 123) eqn:E1; [prop_hyps; decoded; eauto|]. destruct (c =? 91) eqn:E2; [prop_hyps; decoded; eauto|].
  destruct (c =? 34) eqn:E3; [decoded; eauto|]. repeat (case_match; try done); decoded; done.
Qed.

(** Every string that a JSON text decodes to is valid UTF-8. *)
Lemma decode_string_text raw s : decode_string raw = Some s -> is_Some (decode (bytes_of s)).
Proof.
  unfold decode_string. destruct (json_decode raw) as [v|] eqn:E; [|done]. apply json_decode_cases in E as [_ Hv].
  destruct v; intros [= <-]; [by eexists|]. destruct Hv as [q Hq]. by eapply quoted_text.
Qed.

Lemma decode_map_object raw o : decode_map raw = Some (Some o) -> json_object raw = true.
Proof.
  unfold decode_map, json_object. destruct (json_decode raw) as [v|] eqn:E; [|done]. apply json_decode_cases in E as [Hvalid Hv].
  destruct v; try done. destruct Hv as (rest & Hs & _). intros _. rewrite Hvalid, andb_true_r.
  assert (forall bs, opens_object bs = match skip_spaces bs with c :: _ => c =? 123 | [] => false end) as ->.
  { induction bs as [|c bs IH]; [done|]. simpl. by destruct (json_space c). }
  by rewrite Hs.
Qed.
