(* ===== verification/Catalog.v ===== *)
(** * Catalog facts (src/internal/catalog/{model,route}.go)

    Providers, logical models, deployments and bindings, their validation and the
    capability contract between a logical model and a deployment. [url.Parse] is a
    parameter: a function from the endpoint text to the parts the code inspects. *)
From Stdlib Require Import ZArith Lia Bool Ascii String.
From stdpp Require Import base tactics option list strings gmap fin_maps sets.
From S2P Require Import Prelude Identifiers Unicode.
(** ** Data *)
Inductive Status := StatusActive | StatusDisabled | StatusOther (value : string).
Inductive DataRetentionMode :=
| RetentionProviderDefault | RetentionNoTraining | RetentionZero | RetentionSelfHosted | RetentionOther (value : string).

#[export] Instance Status_eq_dec : EqDecision Status.
Proof. solve_decision. Defined.
#[export] Instance DataRetentionMode_eq_dec : EqDecision DataRetentionMode.
Proof. solve_decision. Defined.

Record CapabilityRequirements := {
  need_Chat : bool; need_Stream : bool; need_Tools : bool; need_ParallelTools : bool; need_StructuredOutput : bool;
  need_Vision : bool; need_AudioInput : bool; need_AudioOutput : bool; need_Embeddings : bool;
  MinContextTokens : option Z; MinOutputTokens : option Z; DataRetentionModes : list DataRetentionMode }.

Record CapabilitySet := {
  has_Chat : bool; has_Stream : bool; has_Tools : bool; has_ParallelTools : bool; has_StructuredOutput : bool;
  has_Vision : bool; has_AudioInput : bool; has_AudioOutput : bool; has_Embeddings : bool;
  UsageInStream : bool; CacheUsage : bool; ReasoningUsage : bool; MaxContextTokens : Z; MaxOutputTokens : Z;
  cap_DataRetentionMode : DataRetentionMode; ProviderProtocolVersion : string }.

(** The lifecycle and audit columns every record carries. *)
Record Audit := {
  aud_Status : Status; aud_Version : Z; aud_CreatedAt : Time; aud_CreatedBy : string;
  aud_UpdatedAt : Time; aud_UpdatedBy : string }.

Record Provider := {
  prov_ID : string; prov_Code : string; prov_Name : string; prov_AdapterType : string; prov_Audit : Audit }.

Record LogicalModel := {
  model_ID : string; model_TenantID : string; model_Name : string; model_DisplayName : string;
  model_Description : option string; RequiredCapabilities : CapabilityRequirements;
  AllowedRegions : option (list string); model_Audit : Audit }.

Record Deployment := {
  dep_ID : string; dep_ProviderID : string; dep_Code : string; dep_PhysicalModel : string; dep_EndpointURL : string;
  dep_Region : string; dep_Capabilities : CapabilitySet; dep_SecretReferenceID : option string; dep_Audit : Audit }.

Record Binding := {
  bind_LogicalModelID : string; bind_DeploymentID : string; bind_Priority : Z; bind_Weight : Z; bind_Audit : Audit }.

Record RouteCandidate := {
  cand_LogicalModel : LogicalModel; cand_Binding : Binding; cand_Deployment : Deployment; cand_Provider : Provider }.

(** A nil [KeyAllowedModels] inherits the project allowlist; an empty one denies all. *)
Record Access := { access_TenantID : string; access_ProjectID : string; KeyAllowedModels : option (list string) }.

(** The parts of a parsed URL that [validateEndpoint] inspects. *)
Record URL := {
  Scheme : string; Hostname : string; has_User : bool; RawQuery : string; ForceQuery : bool;
  Fragment : string; Opaque : string }.

(** ** Patterns *)
Definition lower_digit : char_class := or_class lower digit.

(** [^[a-z0-9][a-z0-9-]{0,61}[a-z0-9]$] *)
Definition providerCodePattern (s : string) : bool :=
  match_head_tail lower_digit (or_class lower_digit dash) 1 62 s &&
  match String.get (String.length s - 1) s with Some c => lower_digit c | None => false end.
(** [^[a-z][a-z0-9._-]{0,63}$] *)
Definition adapterTypePattern : string -> bool := match_head_tail lower (or_class lower_digit (one_of "._-")) 0 63.
(** [^[a-z0-9][a-z0-9._:/-]{0,127}$] *)
Definition modelNamePattern : string -> bool := match_head_tail lower_digit (or_class lower_digit (one_of "._:/-")) 0 127.
(** [^[a-z0-9][a-z0-9._-]{0,62}$] *)
Definition deploymentCodePattern : string -> bool := match_head_tail lower_digit (or_class lower_digit (one_of "._-")) 0 62.
(** [^[A-Za-z0-9][A-Za-z0-9._:/-]{0,199}$] *)
Definition physicalModelPattern : string -> bool := match_head_tail alnum (or_class alnum (one_of "._:/-")) 0 199.
(** [^[A-Za-z0-9][A-Za-z0-9._:-]{0,63}$] *)
Definition protocolPattern : string -> bool := match_head_tail alnum (or_class alnum (one_of "._:-")) 0 63.

(** ** Validation *)
Definition DataRetentionMode_Valid (mode : DataRetentionMode) : bool :=
  match mode with RetentionOther _ => false | _ => true end.

Definition validateUUID (value : string) : bool := uuidPattern (ToLower value).
Definition validateTrimmed (value : string) (minimum maximum : Z) : bool := trimmed_text value minimum maximum.

Definition validateRecord (a : Audit) : bool :=
  match aud_Status a with StatusOther _ => false | _ => true end && (0 <? aud_Version a) &&
  negb (time_is_zero (aud_CreatedAt a)) && negb (time_before (aud_UpdatedAt a) (aud_CreatedAt a)) &&
  validateTrimmed (aud_CreatedBy a) 1 200 && validateTrimmed (aud_UpdatedBy a) 1 200.

Definition validatePositiveTokenMinimum (value : option Z) : bool :=
  match value with Some v => 0 <? v | None => true end.

Definition hasRequirement (q : CapabilityRequirements) : bool :=
  need_Chat q || need_Stream q || need_Tools q || need_ParallelTools q || need_StructuredOutput q || need_Vision q ||
  need_AudioInput q || need_AudioOutput q || need_Embeddings q ||
  bool_decide (is_Some (MinContextTokens q)) || bool_decide (is_Some (MinOutputTokens q)) ||
  negb (Nat.eqb (length (DataRetentionModes q)) 0).

(** The loop that rejects a repeated element. *)
Fixpoint distinct {A : Type} `{EqDecision A} (l : list A) (seen : list A) : bool :=
  match l with
  | [] => true
  | x :: l' => negb (bool_decide (x ∈ seen)) && distinct l' (x :: seen)
  end.

Definition CapabilityRequirements_Validate (q : CapabilityRequirements) : bool :=
  negb (need_ParallelTools q && negb (need_Tools q)) && hasRequirement q &&
  validatePositiveTokenMinimum (MinContextTokens q) && validatePositiveTokenMinimum (MinOutputTokens q) &&
  match MinContextTokens q, MinOutputTokens q with Some c, Some o => o <=? c | _, _ => true end &&
  Nat.leb (length (DataRetentionModes q)) 4 &&
  forallb DataRetentionMode_Valid (DataRetentionModes q) && distinct (DataRetentionModes q) [].

Definition CapabilitySet_Validate (c : CapabilitySet) : bool :=
  (has_Chat c || has_Embeddings c) && negb (has_ParallelTools c && negb (has_Tools c)) &&
  negb (UsageInStream c && negb (has_Stream c)) && (0 <? MaxContextTokens c) &&
  (0 <? MaxOutputTokens c) && (MaxOutputTokens c <=? MaxContextTokens c) &&
  DataRetentionMode_Valid (cap_DataRetentionMode c) && protocolPattern (ProviderProtocolVersion c).

Definition validateRegions (regions : option (list string)) : bool :=
  match regions with
  | None => true
  | Some rs => Nat.leb 1 (length rs) && Nat.leb (length rs) 64 && forallb regionPattern rs && distinct rs []
  end.

Definition Provider_Validate (p : Provider) : bool :=
  validateUUID (prov_ID p) && providerCodePattern (prov_Code p) && validateTrimmed (prov_Name p) 1 200 &&
  adapterTypePattern (prov_AdapterType p) && validateRecord (prov_Audit p).

Definition LogicalModel_Validate (m : LogicalModel) : bool :=
  validateUUID (model_ID m) && validateUUID (model_TenantID m) && modelNamePattern (model_Name m) &&
  validateTrimmed (model_DisplayName m) 1 200 &&
  match model_Description m with Some d => validateTrimmed d 1 1000 | None => true end &&
  CapabilityRequirements_Validate (RequiredCapabilities m) && validateRegions (AllowedRegions m) &&
  validateRecord (model_Audit m).

Definition Binding_Validate (b : Binding) : bool :=
  validateUUID (bind_LogicalModelID b) && validateUUID (bind_DeploymentID b) &&
  (1 <=? bind_Priority b) && (bind_Priority b <=? 1000) && (1 <=? bind_Weight b) && (bind_Weight b <=? 10000) &&
  validateRecord (bind_Audit b).

(** ** The capability contract *)
Definition implies (need has : bool) : bool := negb need || has.

Definition CapabilitySet_Satisfies (c : CapabilitySet) (q : CapabilityRequirements) : bool :=
  implies (need_Chat q) (has_Chat c) && implies (need_Stream q) (has_Stream c) && implies (need_Tools q) (has_Tools c) &&
  implies (need_ParallelTools q) (has_ParallelTools c) && implies (need_StructuredOutput q) (has_StructuredOutput c) &&
  implies (need_Vision q) (has_Vision c) && implies (need_AudioInput q) (has_AudioInput c) &&
  implies (need_AudioOutput q) (has_AudioOutput c) && implies (need_Embeddings q) (has_Embeddings c) &&
  match MinContextTokens q with Some m => m <=? MaxContextTokens c | None => true end &&
  match MinOutputTokens q with Some m => m <=? MaxOutputTokens c | None => true end &&
  (Nat.eqb (length (DataRetentionModes q)) 0 || bool_decide (cap_DataRetentionMode c ∈ DataRetentionModes q)).

Definition Deployment_Satisfies (d : Deployment) (m : LogicalModel) : bool :=
  CapabilitySet_Satisfies (dep_Capabilities d) (RequiredCapabilities m) &&
  match AllowedRegions m with Some rs => bool_decide (dep_Region d ∈ rs) | None => true end.

Definition Names (q : CapabilityRequirements) : list string :=
  (filter (fun c => c.2 = true)
    [("chat", need_Chat q); ("stream", need_Stream q); ("tools", need_Tools q); ("parallel_tools", need_ParallelTools q);
     ("structured_output", need_StructuredOutput q); ("vision", need_Vision q); ("audio_input", need_AudioInput q);
     ("audio_output", need_AudioOutput q); ("embeddings", need_Embeddings q)]%string).*1.

Section endpoint.
Context (url_Parse : string -> option URL).

Definition validateEndpoint (rawURL : string) : bool :=
  trimmed (runes (bytes_of rawURL)) && Nat.leb 10 (String.length rawURL) && Nat.leb (String.length rawURL) 2048 &&
  forallb (fun r => negb (IsSpace r || IsControl r)) (runes (bytes_of rawURL)) &&
  match url_Parse rawURL with
  | None => false
  | Some u =>
      (bool_decide (Scheme u = "http"%string) || bool_decide (Scheme u = "https"%string)) &&
      negb (bool_decide (Hostname u = ""%string) || has_User u || negb (bool_decide (RawQuery u = ""%string)) ||
            ForceQuery u || negb (bool_decide (Fragment u = ""%string)) || negb (bool_decide (Opaque u = ""%string)))
  end.

Definition Deployment_Validate (d : Deployment) : bool :=
  validateUUID (dep_ID d) && validateUUID (dep_ProviderID d) && deploymentCodePattern (dep_Code d) &&
  physicalModelPattern (dep_PhysicalModel d) && validateEndpoint (dep_EndpointURL d) && regionPattern (dep_Region d) &&
  CapabilitySet_Validate (dep_Capabilities d) &&
  match dep_SecretReferenceID d with Some s => validateUUID s | None => true end && validateRecord (dep_Audit d).

Definition all_active (c : RouteCandidate) : bool :=
  bool_decide (aud_Status (model_Audit (cand_LogicalModel c)) = StatusActive) &&
  bool_decide (aud_Status (bind_Audit (cand_Binding c)) = StatusActive) &&
  bool_decide (aud_Status (dep_Audit (cand_Deployment c)) = StatusActive) &&
  bool_decide (aud_Status (prov_Audit (cand_Provider c)) = StatusActive).

Definition relationships_ok (c : RouteCandidate) : bool :=
  bool_decide (bind_LogicalModelID (cand_Binding c) = model_ID (cand_LogicalModel c)) &&
  bool_decide (bind_DeploymentID (cand_Binding c) = dep_ID (cand_Deployment c)) &&
  bool_decide (dep_ProviderID (cand_Deployment c) = prov_ID (cand_Provider c)).

Definition records_ok (c : RouteCandidate) : bool :=
  LogicalModel_Validate (cand_LogicalModel c) && Binding_Validate (cand_Binding c) &&
  Deployment_Validate (cand_Deployment c) && Provider_Validate (cand_Provider c).

Definition RouteCandidate_Validate (c : RouteCandidate) : bool :=
  records_ok c && all_active c && relationships_ok c && Deployment_Satisfies (cand_Deployment c) (cand_LogicalModel c).
End endpoint.
