(* ===== verification/ProviderRegistry.v ===== *)
(** * The registry of provider adapters (src/internal/provideradapter/registry.go)

    Factories are filed under the type they declare; a catalog of providers is validated as
    a whole, and an adapter is built by the factory of exactly the declared type. A nil
    interface is [None]; factories and adapters are arguments. *)
From Stdlib Require Import ZArith Lia Bool Ascii String.
From stdpp Require Import base tactics option list strings gmap fin_maps sorting.
From S2P Require Import Prelude Identifiers Unicode Catalog.
Inductive registry_error :=
| ErrInvalidFactory | ErrDuplicateAdapterType | ErrUnknownAdapterType | ErrInvalidProviderReference | ErrFactoryFailed | ErrAdapterTypeMismatch
| RegistryError (what : string).

Inductive ValidationPhase := ValidationStartup | ValidationPublication.
Record ReferenceProblem := { rp_ProviderID : string; rp_ProviderCode : string; rp_AdapterType : string; rp_Code : string }.

Section Registry.
Context {A : Type} (adapter_type : A -> string).

(** [Factory]: its type, and [New] with the cause of a failure. *)
Record AdapterFactory := { af_Type : string; af_New : Provider -> Deployment -> result (option A) registry_error }.

(** [^[a-z][a-z0-9._-]{0,63}$] *)
Definition typePattern : string -> bool := match_head_tail lower (or_class lower_digit (one_of "._-")) 0 63.

Record Registry := { factories : gmap string AdapterFactory; types : list string }.

Fixpoint register (fs : list (option AdapterFactory)) (byType : gmap string AdapterFactory) : result (gmap string AdapterFactory) registry_error :=
  match fs with
  | [] => Ok byType
  | None :: _ => Err ErrInvalidFactory
  | Some factory :: fs =>
      if negb (typePattern (af_Type factory)) then Err ErrInvalidFactory
      else match byType !! af_Type factory with
           | Some _ => Err ErrDuplicateAdapterType
           | None => register fs (<[af_Type factory := factory]> byType)
           end
  end.

Definition string_le (a b : string) : Prop := String.leb a b = true.
#[local] Instance string_le_dec : RelDecision string_le.
Proof. intros a b. apply bool_eq_dec. Defined.

Definition NewRegistry (fs : list (option AdapterFactory)) : result Registry registry_error :=
  let? byType := register fs ∅ in
  Ok {| factories := byType; types := merge_sort string_le (map_to_list byType).*1 |}.

Definition Has (r : Registry) (adapterType : string) : bool := bool_decide (is_Some (factories r !! adapterType)).

Definition registry_Resolve (r : Registry) (adapterType : string) : result AdapterFactory registry_error :=
  if negb (typePattern adapterType) then Err ErrUnknownAdapterType
  else match factories r !! adapterType with Some factory => Ok factory | None => Err ErrUnknownAdapterType end.

(** ** Validation of a catalog *)
Definition problem (p : Provider) (code : string) : ReferenceProblem :=
  {| rp_ProviderID := prov_ID p; rp_ProviderCode := prov_Code p; rp_AdapterType := prov_AdapterType p; rp_Code := code |}.
Definition problem_if (b : bool) (p : Provider) (code : string) : list ReferenceProblem := if b then [problem p code] else [].

(** A code outside ASCII is invalid as it is, so lowering the ASCII letters decides whether a
    catalog has problems. *)
Definition provider_problems (r : Registry) (p : Provider) (seenID seenCode : gset string) : list ReferenceProblem :=
  problem_if (negb (Provider_Validate p)) p "invalid_provider" ++
  problem_if (bool_decide (prov_ID p ∈ seenID)) p "duplicate_provider_id" ++
  problem_if (bool_decide (ToLower (prov_Code p) ∈ seenCode)) p "duplicate_provider_code" ++
  problem_if (negb (Has r (prov_AdapterType p))) p "unknown_adapter_type".

Fixpoint collect_problems (r : Registry) (providers : list Provider) (seenID seenCode : gset string) : list ReferenceProblem :=
  match providers with
  | [] => []
  | p :: providers =>
      provider_problems r p seenID seenCode ++ collect_problems r providers ({[prov_ID p]} ∪ seenID) ({[ToLower (prov_Code p)]} ∪ seenCode)
  end.

(** [slices.Compare] of the four keys. *)
Definition problem_key (p : ReferenceProblem) : list string := [rp_ProviderID p; rp_ProviderCode p; rp_AdapterType p; rp_Code p].
Fixpoint keys_le (a b : list string) : bool :=
  match a, b with
  | x :: a, y :: b => if String.eqb x y then keys_le a b else String.ltb x y
  | [], _ => true
  | _ :: _, [] => false
  end.
Definition problem_le (p q : ReferenceProblem) : Prop := keys_le (problem_key p) (problem_key q) = true.
#[local] Instance problem_le_dec : RelDecision problem_le.
Proof. intros p q. apply bool_eq_dec. Defined.

(** [None] is success; a failure carries its phase and problems. *)
Definition validateProviders (r : Registry) (phase : ValidationPhase) (providers : list Provider) : option (ValidationPhase * list ReferenceProblem) :=
  match collect_problems r providers ∅ ∅ with [] => None | problems => Some (phase, merge_sort problem_le problems) end.
Definition ValidateStartup (r : Registry) := validateProviders r ValidationStartup.
Definition ValidatePublication (r : Registry) := validateProviders r ValidationPublication.

(** [ReferenceValidationError.Is] *)
Definition reference_error_is (problems : list ReferenceProblem) (target : registry_error) : bool :=
  existsb (fun p => match target with
                    | ErrUnknownAdapterType => String.eqb (rp_Code p) "unknown_adapter_type"
                    | ErrInvalidProviderReference => negb (String.eqb (rp_Code p) "unknown_adapter_type")
                    | _ => false
                    end) problems.

(** ** Building an adapter *)
Definition Build (url_Parse : string -> option URL) (r : Registry) (cancelled : bool) (provider : Provider) (deployment : Deployment) : result A registry_error :=
  ensure negb cancelled else RegistryError "provider adapter build cancelled" in
  ensure Provider_Validate provider else RegistryError "validate provider for adapter build" in
  ensure Deployment_Validate url_Parse deployment else RegistryError "validate deployment for adapter build" in
  ensure String.eqb (dep_ProviderID deployment) (prov_ID provider) else RegistryError "deployment does not belong to provider" in
  let? factory := registry_Resolve r (prov_AdapterType provider) in
  ensure String.eqb (af_Type factory) (prov_AdapterType provider) else ErrFactoryFailed in
  match af_New factory provider deployment with
  | Err _ => Err ErrFactoryFailed
  | Ok None => Err ErrFactoryFailed
  | Ok (Some built) => ensure String.eqb (adapter_type built) (prov_AdapterType provider) else ErrFactoryFailed in Ok built
  end.

(** ** A catalog is accepted exactly when each provider can be served *)
Lemma register_spec fs : forall byType m, register fs byType = Ok m ->
  (forall t f, byType !! t = Some f -> af_Type f = t /\ typePattern t = true) ->
  (forall t f, m !! t = Some f -> af_Type f = t /\ typePattern t = true /\ (byType !! t = Some f \/ Some f ∈ fs)) /\ byType ⊆ m /\ (forall f, Some f ∈ fs -> m !! af_Type f = Some f).
Proof.
  induction fs as [|[f|] fs IH]; intros byType m H Hb; cbn [register] in H; [|..|done].
  { injection H as <-. split_and!; [|done|by intros f ?%elem_of_nil]. intros t f Hf. destruct (Hb _ _ Hf). auto. }
  destruct (typePattern (af_Type f)) eqn:Ep; [cbn [negb] in H|done]. destruct (byType !! af_Type f) eqn:Ef; [done|].
  destruct (IH _ _ H) as (H1 & H2 & H3).
  { intros t g. destruct (decide (t = af_Type f)) as [->|Hne]; [rewrite lookup_insert_eq; by intros [= <-]|rewrite lookup_insert_ne by done; apply Hb]. }
  split_and!; [|by etrans; [apply insert_subseteq|]|].
  { intros t g Hg. destruct (H1 _ _ Hg) as (G1 & G2 & [G3|G3]); [|by split_and!; [..|right; right]]. destruct (decide (t = af_Type f)) as [->|Hne].
    - rewrite lookup_insert_eq in G3. injection G3 as <-. split_and!; [done..|]. right. by left.
    - rewrite lookup_insert_ne in G3 by done. split_and!; [done..|by left]. }
  intros g [[= <-]|Hg]%elem_of_cons; [|by apply H3].
  eapply lookup_weaken; [|exact H2]. apply lookup_insert_eq.
Qed.

Lemma problem_if_nil b p code : problem_if b p code = [] <-> b = false.
Proof. by destruct b. Qed.

Lemma collect_none r providers : forall seenID seenCode, collect_problems r providers seenID seenCode = [] <->
  Forall (fun p => Provider_Validate p = true /\ Has r (prov_AdapterType p) = true /\ prov_ID p ∉ seenID /\ ToLower (prov_Code p) ∉ seenCode) providers /\
  NoDup (prov_ID <$> providers) /\ NoDup ((fun p => ToLower (prov_Code p)) <$> providers).
Proof.
  induction providers as [|p providers IH]; intros seenID seenCode; cbn [collect_problems].
  { split; [intros _; split_and!; constructor|done]. }
  rewrite !fmap_cons, !NoDup_cons, Forall_cons. unfold provider_problems. rewrite !app_nil, !problem_if_nil, !bool_decide_eq_false, !negb_false_iff, IH. split.
  - intros ((H1 & H2 & H3 & H4) & H5 & H6 & H7). split_and!; try done.
    + eapply Forall_impl; [exact H5|]. cbn. set_solver.
    + intros (q & Hq & Hin)%list_elem_of_fmap. rewrite Forall_forall in H5. destruct (H5 _ Hin) as (_ & _ & Hno & _). set_solver.
    + intros (q & Hq & Hin)%list_elem_of_fmap. rewrite Forall_forall in H5. destruct (H5 _ Hin) as (_ & _ & _ & Hno). set_solver.
  - intros (((H1 & H2 & H3 & H4) & H5) & (H6 & H7) & (H8 & H9)). split_and!; try done. rewrite Forall_forall in *. intros q Hq. destruct (H5 _ Hq) as (Q1 & Q2 & Q3 & Q4).
    split_and!; try done.
    + intros [E%elem_of_singleton|?]%elem_of_union; [|done]. apply H6. rewrite <- E. by apply list_elem_of_fmap_2.
    + intros [E%elem_of_singleton|?]%elem_of_union; [|done]. apply H8. rewrite <- E. apply (list_elem_of_fmap_2 (fun p => ToLower (prov_Code p)) _ _ Hq).
Qed.

(** A catalog passes validation exactly when every provider is valid and of a registered
    type and no two share an identity or, ignoring case, a code. *)
Lemma validation_is_exact r phase providers : validateProviders r phase providers = None <->
  Forall (fun p => Provider_Validate p = true /\ Has r (prov_AdapterType p) = true) providers /\
  NoDup (prov_ID <$> providers) /\ NoDup ((fun p => ToLower (prov_Code p)) <$> providers).
Proof.
  unfold validateProviders. destruct (collect_problems r providers ∅ ∅) as [|x l] eqn:E.
  - apply collect_none in E as (H1 & H2 & H3). split; [intros _; split_and!; try done|done]. eapply Forall_impl; [exact H1|]. cbn. tauto.
  - split; [done|]. intros (H1 & H2 & H3). assert (collect_problems r providers ∅ ∅ = []) as E'; [|congruence]. apply collect_none. split_and!; try done.
    eapply Forall_impl; [exact H1|]. cbn. set_solver.
Qed.

(** An adapter that is built declares the type of its provider, and comes from the one
    registered factory of that type. *)
Lemma built_by_its_factory url_Parse fs r cancelled provider deployment built : NewRegistry fs = Ok r ->
  Build url_Parse r cancelled provider deployment = Ok built ->
  exists factory, Some factory ∈ fs /\ factories r !! prov_AdapterType provider = Some factory /\ af_Type factory = prov_AdapterType provider /\
    af_New factory provider deployment = Ok (Some built) /\ adapter_type built = prov_AdapterType provider.
Proof.
  unfold NewRegistry. destruct (register fs ∅) as [m|] eqn:Er; [|done]. cbn [result_bind]. intros [= <-].
  unfold Build, registry_Resolve. destruct (negb cancelled); [|done]. destruct (Provider_Validate provider); [|done]. destruct (Deployment_Validate _ _); [|done].
  destruct (String.eqb _ _); [|done]. cbn [factories]. destruct (negb (typePattern _)); [done|]. destruct (m !! _) as [f|] eqn:Ef; [|done]. cbn [result_bind].
  destruct (String.eqb (af_Type f) _) eqn:Et; [|done]. destruct (af_New f provider deployment) as [[b|]|] eqn:En; try done.
  destruct (String.eqb (adapter_type b) _) eqn:Eb; [|done]. intros [= <-].
  destruct (register_spec _ _ _ Er) as (H1 & _); [by intros ? ? ?%lookup_empty_Some|]. destruct (H1 _ _ Ef) as (_ & _ & [E|Hin]); [by apply lookup_empty_Some in E|].
  exists f. by apply String.eqb_eq in Et, Eb.
Qed.
End Registry.
