(* ===== verification/ProviderSecret.v ===== *)
(** * Provider secrets (src/internal/providersecret)

    References to provider credentials: model.go validates them, cipher.go seals local ones
    with AES-256-GCM under the identity of their row, postgres.go stores them, service.go
    creates and resolves them. The AEAD, [url.Parse], the external backends and the locale of
    the server ([pg_space]) are arguments; the random source is the list of bytes it
    delivers.

    Then: provider secrets stay with their provider. *)
From Stdlib Require Import ZArith Lia Bool Ascii String.
From stdpp Require Import base tactics option list strings gmap fin_maps.
From S2P Require Import Prelude Identifiers Unicode Encoding Postgres Catalog VirtualKey.
(** ** Data (model.go) *)
Inductive Backend := BackendLocalEnvelope | BackendVault | BackendKMS | BackendOther (name : string).
Inductive SecretStatus := SecretActive | SecretDisabled | SecretStatusOther (name : string).

#[export] Instance Backend_eq_dec : EqDecision Backend.
Proof. solve_decision. Defined.
#[export] Instance SecretStatus_eq_dec : EqDecision SecretStatus.
Proof. solve_decision. Defined.

Record SecretLocator := { lc_ProviderID : string; lc_ID : string }.
Record Envelope := { env_Ciphertext : list Z; env_Nonce : list Z; env_KeyVersion : string }.
Record SecretBinding := { bd_ReferenceID : string; bd_ProviderID : string; bd_Name : string }.

(** No bytes stand for a null [bytea]. *)
Record SecretRecord := {
  sr_ID : string; sr_ProviderID : string; sr_Name : string; sr_Backend : Backend; sr_Locator : option string; sr_Ciphertext : list Z; sr_Nonce : list Z;
  sr_KeyVersion : option string; sr_Status : SecretStatus; sr_Version : Z; sr_CreatedAt : Time; sr_CreatedBy : string; sr_UpdatedAt : Time; sr_UpdatedBy : string }.

Record SecretMetadata := {
  sm_ID : string; sm_ProviderID : string; sm_Name : string; sm_Backend : Backend; sm_Status : SecretStatus; sm_Version : Z; sm_CreatedAt : Time;
  sm_CreatedBy : string; sm_UpdatedAt : Time; sm_UpdatedBy : string }.
Definition SecretRecord_Metadata (r : SecretRecord) : SecretMetadata :=
  {| sm_ID := sr_ID r; sm_ProviderID := sr_ProviderID r; sm_Name := sr_Name r; sm_Backend := sr_Backend r; sm_Status := sr_Status r; sm_Version := sr_Version r;
     sm_CreatedAt := sr_CreatedAt r; sm_CreatedBy := sr_CreatedBy r; sm_UpdatedAt := sr_UpdatedAt r; sm_UpdatedBy := sr_UpdatedBy r |}.

Record CreateLocalCommand := { cl_ProviderID : string; cl_Name : string; cl_Plaintext : list Z; cl_Actor : string }.
Record RegisterExternalCommand := { re_ProviderID : string; re_Name : string; re_Backend : Backend; re_Locator : string; re_Actor : string }.

(** [SecretInvalid]: a ValidationError; [SecretStorage]: a database error that is passed on. *)
Inductive secret_error :=
| SecretInvalid (field : string) | SecretNotFound | SecretConflict | SecretIsDisabled | DecryptionFailed | BackendUnavailable
| SecretStorage (failure : db_failure) | SecretRandom | EncryptFailed | SecretCancelled.

(** [^[a-z0-9][a-z0-9._-]{0,62}$], [^[A-Za-z0-9][A-Za-z0-9._:-]{0,63}$] *)
Definition secretNamePattern : string -> bool := match_head_tail lower_digit (or_class lower_digit (one_of "._-")) 0 62.
Definition keyVersionPattern : string -> bool := match_head_tail alnum (or_class alnum (one_of "._:-")) 0 63.
Definition maximumSecretBytes : Z := 16384.

(** The parts of [url.URL] that [validateExternalLocator] reads. *)
Record LocatorURL := { lu_Scheme : string; lu_Host : string; lu_User : bool; lu_RawQuery : string }.

Definition backend_text (b : Backend) : string :=
  match b with BackendLocalEnvelope => "local_envelope" | BackendVault => "vault" | BackendKMS => "kms" | BackendOther name => name end.
Definition is_external (b : Backend) : bool := match b with BackendVault | BackendKMS => true | _ => false end.

Section Validation.
Context (url_Parse : string -> option LocatorURL).

Definition validateExternalLocator (backend : Backend) (raw : string) : bool :=
  String.eqb raw (TrimSpace raw) && (10 <=? Z.of_nat (String.length raw)) && (Z.of_nat (String.length raw) <=? 2048) && negb (existsb (fun c => contains_char c raw) ["013"; "010"; "009"; " "]%char) &&
  match url_Parse raw with
  | Some u => negb (lu_User u) && negb (String.eqb (lu_Host u) "") && String.eqb (lu_RawQuery u) "" && String.eqb (lu_Scheme u) (backend_text backend)
  | None => false
  end.

Definition validateSecretActor (value : string) : bool := trimmed_text value 1 200.

Definition SecretRecord_Validate (r : SecretRecord) : bool :=
  validateUUID (sr_ID r) && validateUUID (sr_ProviderID r) && secretNamePattern (sr_Name r) &&
  match sr_Status r with SecretActive | SecretDisabled => true | _ => false end && (0 <? sr_Version r) &&
  negb (time_is_zero (sr_CreatedAt r)) && negb (time_before (sr_UpdatedAt r) (sr_CreatedAt r)) && validateSecretActor (sr_CreatedBy r) && validateSecretActor (sr_UpdatedBy r) &&
  let cipher_length := Z.of_nat (length (sr_Ciphertext r)) in
  match sr_Backend r with
  | BackendLocalEnvelope =>
      bool_decide (sr_Locator r = None) && (17 <=? cipher_length) && (cipher_length <=? 65536) && Nat.eqb (length (sr_Nonce r)) 12 &&
      match sr_KeyVersion r with Some v => keyVersionPattern v | None => false end
  | BackendVault | BackendKMS =>
      (cipher_length =? 0) && Nat.eqb (length (sr_Nonce r)) 0 && bool_decide (sr_KeyVersion r = None) &&
      match sr_Locator r with Some raw => validateExternalLocator (sr_Backend r) raw | None => false end
  | BackendOther _ => false
  end.

Definition plaintext_ok (plaintext : list Z) : bool := (1 <=? Z.of_nat (length plaintext)) && (Z.of_nat (length plaintext) <=? maximumSecretBytes).

(** [None] is success, otherwise the field that is wrong. *)
Definition validateCreateLocal (c : CreateLocalCommand) : option string :=
  if negb (validateUUID (cl_ProviderID c)) then Some "provider_id"%string
  else if negb (secretNamePattern (cl_Name c)) then Some "name"%string
  else if negb (plaintext_ok (cl_Plaintext c)) then Some "plaintext"%string
  else if negb (validateSecretActor (cl_Actor c)) then Some "actor"%string else None.

Definition validateRegisterExternal (c : RegisterExternalCommand) : option string :=
  if negb (validateUUID (re_ProviderID c)) then Some "provider_id"%string
  else if negb (secretNamePattern (re_Name c)) then Some "name"%string
  else if negb (is_external (re_Backend c)) then Some "backend"%string
  else if negb (validateExternalLocator (re_Backend c) (re_Locator c)) then Some "locator"%string
  else if negb (validateSecretActor (re_Actor c)) then Some "actor"%string else None.
End Validation.

Definition validateSecretLocator (l : SecretLocator) : option string :=
  if negb (validateUUID (lc_ProviderID l)) then Some "provider_id"%string else if negb (validateUUID (lc_ID l)) then Some "reference_id"%string else None.

(** ** Envelopes (cipher.go) *)
Record LocalCipher := { ci_currentVersion : string; ci_keys : gmap string (list Z) }.

Definition NewLocalCipher (currentVersion : string) (currentKey : list Z) (retained : gmap string (list Z)) : option LocalCipher :=
  if keyVersionPattern currentVersion && Nat.eqb (length currentKey) 32 &&
     bool_decide (map_Forall (fun version key => keyVersionPattern version = true /\ length key = 32%nat /\ version <> currentVersion) retained)
  then Some {| ci_currentVersion := currentVersion; ci_keys := <[currentVersion := currentKey]> retained |}
  else None.

Definition validateBinding (b : SecretBinding) : bool := validateUUID (bd_ReferenceID b) && validateUUID (bd_ProviderID b) && secretNamePattern (bd_Name b).
Definition additionalData (b : SecretBinding) (version : string) : list Z :=
  bytes_of (bd_ReferenceID b) ++ [0] ++ bytes_of (bd_ProviderID b) ++ [0] ++ bytes_of (bd_Name b) ++ [0] ++ bytes_of version.

Section Cipher.
(** [Seal key nonce plaintext additional] and [Open] of AES-256-GCM *)
Context (Seal : list Z -> list Z -> list Z -> list Z -> list Z) (Open : list Z -> list Z -> list Z -> list Z -> option (list Z)).

Definition Encrypt (c : LocalCipher) (cancelled : bool) (b : SecretBinding) (plaintext random : list Z) : result Envelope secret_error * list Z :=
  if cancelled then (Err SecretCancelled, random)
  else if negb (validateBinding b) then (Err (SecretInvalid "binding"), random)
  else if negb (plaintext_ok plaintext) then (Err (SecretInvalid "plaintext"), random)
  else match ci_keys c !! ci_currentVersion c with
       | None => (Err EncryptFailed, random)
       | Some key =>
           match ReadFull 12 random with
           | (Err _, random) => (Err SecretRandom, random)
           | (Ok nonce, random) =>
               (Ok {| env_Ciphertext := Seal key nonce plaintext (additionalData b (ci_currentVersion c)); env_Nonce := nonce; env_KeyVersion := ci_currentVersion c |}, random)
           end
       end.

Definition Decrypt (c : LocalCipher) (cancelled : bool) (b : SecretBinding) (e : Envelope) : result (list Z) secret_error :=
  ensure negb cancelled else SecretCancelled in
  ensure validateBinding b else SecretInvalid "binding" in
  match ci_keys c !! env_KeyVersion e with
  | None => Err DecryptionFailed
  | Some key =>
      ensure Nat.eqb (length (env_Nonce e)) 12 && (17 <=? Z.of_nat (length (env_Ciphertext e))) && (Z.of_nat (length (env_Ciphertext e)) <=? 65536) else DecryptionFailed in
      match Open key (env_Nonce e) (env_Ciphertext e) (additionalData b (env_KeyVersion e)) with Some plaintext => Ok plaintext | None => Err DecryptionFailed end
  end.
End Cipher.

(** ** The table (migrations/000006, postgres.go) *)
Record SecretDB := { sd_rows : gmap string SecretRecord; sd_providers : gset string }.

(** A column of type uuid holds the lower-case form. *)
Definition canonical_row (r : SecretRecord) : SecretRecord :=
  {| sr_ID := ToLower (sr_ID r); sr_ProviderID := ToLower (sr_ProviderID r); sr_Name := sr_Name r; sr_Backend := sr_Backend r; sr_Locator := sr_Locator r;
     sr_Ciphertext := sr_Ciphertext r; sr_Nonce := sr_Nonce r; sr_KeyVersion := sr_KeyVersion r; sr_Status := sr_Status r; sr_Version := sr_Version r;
     sr_CreatedAt := sr_CreatedAt r; sr_CreatedBy := sr_CreatedBy r; sr_UpdatedAt := sr_UpdatedAt r; sr_UpdatedBy := sr_UpdatedBy r |}.

Fixpoint at_in_authority (s : string) : bool :=
  match s with
  | EmptyString => false
  | String c s => if existsb (Ascii.eqb c) ["/"; "?"; "#"]%char then false else Ascii.eqb c "@" || at_in_authority s
  end.

Section Table.
Context (pg_space : Z -> bool).

Definition locator_format (backend : Backend) (raw : string) : bool :=
  let scheme := (backend_text backend ++ "://")%string in
  let rest := String.substring (String.length scheme) (String.length raw - String.length scheme) raw in
  (10 <=? char_length raw) && (char_length raw <=? 2048) && btrimmed raw && forallb (fun r => negb (pg_space r)) (runes (bytes_of raw)) &&
  is_external backend && String.prefix scheme raw && negb (String.eqb rest "") && negb (at_in_authority rest).

Definition backend_material (r : SecretRecord) : bool :=
  let cipher_length := Z.of_nat (length (sr_Ciphertext r)) in
  match sr_Backend r with
  | BackendLocalEnvelope =>
      bool_decide (sr_Locator r = None) && (17 <=? cipher_length) && (cipher_length <=? 65536) && Nat.eqb (length (sr_Nonce r)) 12 &&
      match sr_KeyVersion r with Some v => keyVersionPattern v | None => false end
  | BackendVault | BackendKMS =>
      (cipher_length =? 0) && Nat.eqb (length (sr_Nonce r)) 0 && bool_decide (sr_KeyVersion r = None) &&
      match sr_Locator r with Some raw => locator_format (sr_Backend r) raw | None => false end
  | BackendOther _ => false
  end.

Definition secret_row_check (r : SecretRecord) : bool :=
  secretNamePattern (sr_Name r) && backend_material r && match sr_Status r with SecretActive | SecretDisabled => true | _ => false end && (0 <? sr_Version r) &&
  actor_format (sr_CreatedBy r) && actor_format (sr_UpdatedBy r) && (sr_CreatedAt r <=? sr_UpdatedAt r).

Definition insert_secret (db : SecretDB) (r : SecretRecord) : result (SecretDB * SecretRecord) db_failure :=
  let r := canonical_row r in
  ensure storable (sr_CreatedBy r) && storable (sr_UpdatedBy r) && storable (default ""%string (sr_Locator r)) else PqError "22021" "" in
  ensure secret_row_check r else PqError "23514" "" in
  ensure bool_decide (sd_rows db !! sr_ID r = None) else PqError "23505" "provider_secret_references_pkey" in
  ensure bool_decide (map_Forall (fun _ x => ~ (sr_ProviderID x = sr_ProviderID r /\ sr_Name x = sr_Name r)) (sd_rows db))
    else PqError "23505" "provider_secret_references_provider_name_unique" in
  ensure bool_decide (sr_ProviderID r ∈ sd_providers db) else PqError "23503" "provider_secret_references_provider_fk" in
  Ok ({| sd_rows := <[sr_ID r := r]> (sd_rows db); sd_providers := sd_providers db |}, r).

Definition mapSecretError (failure : db_failure) : secret_error :=
  match failure with
  | PqError code _ => if String.eqb code "23503" then SecretNotFound else if String.eqb code "23505" then SecretConflict else SecretStorage failure
  | DriverError => SecretStorage failure
  end.

Context (url_Parse : string -> option LocatorURL).

Definition secret_Create (faults : Faults) (db : SecretDB) (r : SecretRecord) : SecretDB * result SecretRecord secret_error :=
  if negb (SecretRecord_Validate url_Parse r) then (db, Err (SecretInvalid "reference"))
  else autocommit faults (SecretStorage DriverError) db (statement faults 0 mapSecretError (insert_secret db r)).

Definition secret_Get (faults : Faults) (db : SecretDB) (l : SecretLocator) : result SecretRecord secret_error :=
  let? found := statement faults 0 SecretStorage (Ok (sd_rows db !! ToLower (lc_ID l))) in
  match found with
  | Some r => ensure bool_decide (sr_ProviderID r = ToLower (lc_ProviderID l)) else SecretNotFound in Ok r
  | None => Err SecretNotFound
  end.

(** ** The manager (service.go) *)
Context (Seal : list Z -> list Z -> list Z -> list Z -> list Z) (Open : list Z -> list Z -> list Z -> list Z -> option (list Z)).

Definition secret_newUUID (random : list Z) : result string secret_error * list Z :=
  match ReadFull 16 random with (Ok raw, random) => (Ok (formatUUID (version_bits raw)), random) | (Err _, random) => (Err SecretRandom, random) end.

Definition local_record (id : string) (c : CreateLocalCommand) (e : Envelope) (now : Time) : SecretRecord :=
  {| sr_ID := id; sr_ProviderID := cl_ProviderID c; sr_Name := cl_Name c; sr_Backend := BackendLocalEnvelope; sr_Locator := None; sr_Ciphertext := env_Ciphertext e;
     sr_Nonce := env_Nonce e; sr_KeyVersion := Some (env_KeyVersion e); sr_Status := SecretActive; sr_Version := 1; sr_CreatedAt := now; sr_CreatedBy := cl_Actor c;
     sr_UpdatedAt := now; sr_UpdatedBy := cl_Actor c |}.
Definition external_record (id : string) (c : RegisterExternalCommand) (now : Time) : SecretRecord :=
  {| sr_ID := id; sr_ProviderID := re_ProviderID c; sr_Name := re_Name c; sr_Backend := re_Backend c; sr_Locator := Some (re_Locator c); sr_Ciphertext := [];
     sr_Nonce := []; sr_KeyVersion := None; sr_Status := SecretActive; sr_Version := 1; sr_CreatedAt := now; sr_CreatedBy := re_Actor c;
     sr_UpdatedAt := now; sr_UpdatedBy := re_Actor c |}.

Definition metadata_of (r : SecretDB * result SecretRecord secret_error) : SecretDB * result SecretMetadata secret_error :=
  match r with (db, Ok r) => (db, Ok (SecretRecord_Metadata r)) | (db, Err e) => (db, Err e) end.

Definition CreateLocal (cipher : LocalCipher) (faults : Faults) (cancelled : bool) (now : Time) (db : SecretDB) (random : list Z) (c : CreateLocalCommand)
    : SecretDB * list Z * result SecretMetadata secret_error :=
  match validateCreateLocal c with
  | Some field => (db, random, Err (SecretInvalid field))
  | None =>
      match secret_newUUID random with
      | (Err e, random) => (db, random, Err e)
      | (Ok id, random) =>
          match Encrypt Seal cipher cancelled {| bd_ReferenceID := id; bd_ProviderID := cl_ProviderID c; bd_Name := cl_Name c |} (cl_Plaintext c) random with
          | (Err _, random) => (db, random, Err EncryptFailed)
          | (Ok envelope, random) =>
              let '(db, r) := metadata_of (secret_Create faults db (local_record id c envelope now)) in (db, random, r)
          end
      end
  end.

Definition RegisterExternal (faults : Faults) (now : Time) (db : SecretDB) (random : list Z) (c : RegisterExternalCommand)
    : SecretDB * list Z * result SecretMetadata secret_error :=
  match validateRegisterExternal url_Parse c with
  | Some field => (db, random, Err (SecretInvalid field))
  | None =>
      match secret_newUUID random with
      | (Err e, random) => (db, random, Err e)
      | (Ok id, random) => let '(db, r) := metadata_of (secret_Create faults db (external_record id c now)) in (db, random, r)
      end
  end.

Definition binding_of (r : SecretRecord) : SecretBinding := {| bd_ReferenceID := sr_ID r; bd_ProviderID := sr_ProviderID r; bd_Name := sr_Name r |}.

(** [external] is the registry of the manager. *)
Definition secret_Resolve (cipher : LocalCipher) (external : Backend -> option (string -> option (list Z))) (faults : Faults) (cancelled : bool) (db : SecretDB)
    (l : SecretLocator) : result (list Z) secret_error :=
  match validateSecretLocator l with
  | Some field => Err (SecretInvalid field)
  | None =>
      let? r := secret_Get faults db l in
      ensure bool_decide (sr_Status r = SecretActive) else SecretIsDisabled in
      match sr_Backend r with
      | BackendLocalEnvelope =>
          match sr_KeyVersion r with
          | None => Err DecryptionFailed
          | Some version =>
              match Decrypt Open cipher cancelled (binding_of r) {| env_Ciphertext := sr_Ciphertext r; env_Nonce := sr_Nonce r; env_KeyVersion := version |} with
              | Ok plaintext => Ok plaintext
              | Err _ => Err DecryptionFailed
              end
          end
      | BackendVault | BackendKMS =>
          match external (sr_Backend r), sr_Locator r with
          | Some resolver, Some locator =>
              match resolver locator with
              | Some plaintext => ensure plaintext_ok plaintext else BackendUnavailable in Ok plaintext
              | None => Err BackendUnavailable
              end
          | _, _ => Err BackendUnavailable
          end
      | BackendOther _ => Err BackendUnavailable
      end
  end.
End Table.

(** ** Provider secrets stay with their provider

    The identity of a row is the additional data of its envelope, and it is recovered from
    those bytes; what [Resolve] returns was sealed for exactly the row that was asked for.
    A stored secret resolves to the text it was created with, whatever is stored later. *)
(** ** Additional data determines the row *)
Definition not_nul : char_class := fun c => negb (Ascii.eqb c "000").

Lemma classes_not_nul cs s : Forall (fun c => c "000"%char = false) cs -> match_classes cs s = true -> all_chars not_nul s = true.
Proof.
  intros H. revert s. induction H as [|c cs Hc _ IH]; intros [|a s]; cbn [match_classes all_chars]; try done. intros [Ha Hs]%andb_prop. rewrite (IH _ Hs), andb_true_r.
  unfold not_nul. destruct (Ascii.eqb a "000") eqn:E; [|done]. apply Ascii.eqb_eq in E as ->. congruence.
Qed.

Lemma head_tail_not_nul h t lo hi s : h "000"%char = false -> t "000"%char = false -> match_head_tail h t lo hi s = true -> all_chars not_nul s = true.
Proof.
  intros Hh Ht. destruct s as [|a s]; [done|]. cbn [match_head_tail all_chars]. intros [[[Ha Hs]%andb_prop _]%andb_prop _]%andb_prop.
  assert (forall c b, c "000"%char = false -> c b = true -> not_nul b = true) as Hc.
  { intros c b Hc Hb. unfold not_nul. destruct (Ascii.eqb b "000") eqn:E; [|done]. apply Ascii.eqb_eq in E as ->. congruence. }
  rewrite (Hc _ _ Hh Ha). by apply (all_chars_impl t); [intros b; apply Hc|].
Qed.

Lemma lower_not_nul s : all_chars not_nul (ToLower s) = true -> all_chars not_nul s = true.
Proof.
  induction s as [|a s IH]; [done|]. cbn [ToLower all_chars]. intros [Ha Hs]%andb_prop. rewrite (IH Hs), andb_true_r. revert Ha. clear. by destruct a as [[] [] [] [] [] [] [] []].
Qed.

Lemma uuid_not_nul s : validateUUID s = true -> all_chars not_nul s = true.
Proof. unfold validateUUID, uuidPattern. intros H. apply lower_not_nul. eapply classes_not_nul; [|exact H]. by repeat constructor. Qed.
Lemma name_not_nul s : secretNamePattern s = true -> all_chars not_nul s = true.
Proof. by apply head_tail_not_nul. Qed.
Lemma version_not_nul s : keyVersionPattern s = true -> all_chars not_nul s = true.
Proof. by apply head_tail_not_nul. Qed.

Lemma bytes_not_nul s : all_chars not_nul s = true -> 0 ∉ bytes_of s.
Proof.
  induction s as [|a s IH]; [intros _ ?%elem_of_nil; done|]. cbn [all_chars bytes_of]. intros [Ha Hs]%andb_prop. rewrite not_elem_of_cons. split; [|by apply IH].
  intros E. unfold byte_of in E. unfold not_nul in Ha. replace a with "000"%char in Ha; [done|]. rewrite <- (ascii_N_embedding a). replace (N_of_ascii a) with 0%N by lia. done.
Qed.

Lemma nul_split (l1 l2 r1 r2 : list Z) : 0 ∉ l1 -> 0 ∉ l2 -> l1 ++ [0] ++ r1 = l2 ++ [0] ++ r2 -> l1 = l2 /\ r1 = r2.
Proof.
  revert l2. induction l1 as [|x l1 IH]; intros [|y l2] H1 H2 E; cbn in E.
  - by injection E as ->.
  - injection E as <- E. set_solver.
  - injection E as -> E. set_solver.
  - injection E as <- E. destruct (IH l2) as [-> ->]; [set_solver..|exact E|done].
Qed.

Lemma bytes_of_inj s t : bytes_of s = bytes_of t -> s = t.
Proof. intros E. by rewrite <- (string_of_bytes_of s), E, string_of_bytes_of. Qed.

Lemma additional_data_inj b b' v v' : validateBinding b = true -> validateBinding b' = true ->
  additionalData b v = additionalData b' v' -> b = b' /\ v = v'.
Proof.
  unfold validateBinding. intros [[H1%uuid_not_nul H2%uuid_not_nul]%andb_prop H3%name_not_nul]%andb_prop [[H4%uuid_not_nul H5%uuid_not_nul]%andb_prop H6%name_not_nul]%andb_prop.
  unfold additionalData. intros E. apply nul_split in E as [E1 E]; [|by apply bytes_not_nul..]. apply nul_split in E as [E2 E]; [|by apply bytes_not_nul..].
  apply nul_split in E as [E3 E4]; [|by apply bytes_not_nul..]. apply bytes_of_inj in E1, E2, E3, E4. destruct b, b'. cbn in *. by subst.
Qed.

(** ** AES-256-GCM

    Opening undoes sealing under the same key, nonce and additional data, succeeds on nothing
    but sealed texts, and the tag has 16 bytes. *)
Class AEAD (Seal : list Z -> list Z -> list Z -> list Z -> list Z) (Open : list Z -> list Z -> list Z -> list Z -> option (list Z)) : Prop := {
  open_seal : forall key nonce plaintext additional, Open key nonce (Seal key nonce plaintext additional) additional = Some plaintext;
  open_sealed : forall key nonce ciphertext additional plaintext, Open key nonce ciphertext additional = Some plaintext -> ciphertext = Seal key nonce plaintext additional;
  seal_length : forall key nonce plaintext additional, length (Seal key nonce plaintext additional) = (length plaintext + 16)%nat }.

Section Secrets.
Context (pg_space : Z -> bool) (url_Parse : string -> option LocatorURL).
Context (Seal : list Z -> list Z -> list Z -> list Z -> list Z) (Open : list Z -> list Z -> list Z -> list Z -> option (list Z)) `{!AEAD Seal Open}.

(** Histories of the table: the operations of managers with any keys, clocks, random bytes
    and faults, new providers, and status changes made by operators. *)
Definition with_status (status : SecretStatus) (version : Z) (at_ : Time) (actor : string) (r : SecretRecord) : SecretRecord :=
  {| sr_ID := sr_ID r; sr_ProviderID := sr_ProviderID r; sr_Name := sr_Name r; sr_Backend := sr_Backend r; sr_Locator := sr_Locator r;
     sr_Ciphertext := sr_Ciphertext r; sr_Nonce := sr_Nonce r; sr_KeyVersion := sr_KeyVersion r; sr_Status := status; sr_Version := version;
     sr_CreatedAt := sr_CreatedAt r; sr_CreatedBy := sr_CreatedBy r; sr_UpdatedAt := at_; sr_UpdatedBy := actor |}.

Inductive secret_step : SecretDB -> SecretDB -> Prop :=
| step_create_local cipher faults cancelled now db random c : secret_step db (CreateLocal pg_space url_Parse Seal cipher faults cancelled now db random c).1.1
| step_register_external faults now db random c : secret_step db (RegisterExternal pg_space url_Parse faults now db random c).1.1
| step_new_provider db p : secret_step db {| sd_rows := sd_rows db; sd_providers := {[p]} ∪ sd_providers db |}
| step_status db id status version at_ actor : secret_step db {| sd_rows := alter (with_status status version at_ actor) id (sd_rows db); sd_providers := sd_providers db |}.
Definition secret_history : SecretDB -> SecretDB -> Prop := rtc secret_step.

Definition empty_secrets (providers : gset string) : SecretDB := {| sd_rows := ∅; sd_providers := providers |}.

(** What a row is filed under, and what keeps its envelope openable. *)
Record row_ok (key : string) (r : SecretRecord) : Prop := {
  ro_key : sr_ID r = key;
  ro_canonical : ToLower (sr_ID r) = sr_ID r /\ ToLower (sr_ProviderID r) = sr_ProviderID r;
  ro_ids : validateUUID (sr_ID r) = true /\ validateUUID (sr_ProviderID r) = true /\ secretNamePattern (sr_Name r) = true }.
Definition secrets_ok (db : SecretDB) : Prop := map_Forall row_ok (sd_rows db).

Lemma lower_idem s : ToLower (ToLower s) = ToLower s.
Proof using Type. induction s as [|a s IH]; [done|]. cbn [ToLower]. rewrite IH. f_equal. by destruct a as [[] [] [] [] [] [] [] []]. Qed.

Lemma insert_secret_ok db r db' r' : insert_secret pg_space db r = Ok (db', r') ->
  r' = canonical_row r /\ sd_rows db !! sr_ID r' = None /\ sd_rows db' = <[sr_ID r' := r']> (sd_rows db) /\ secretNamePattern (sr_Name r) = true.
Proof using Type.
  unfold insert_secret. intros [_ [Hc H]%ensure_Ok]%ensure_Ok. apply ensure_Ok in H as [Hk%bool_decide_eq_true [_ [_ H]%ensure_Ok]%ensure_Ok]. injection H as <- <-.
  split_and!; [done..|]. unfold secret_row_check in Hc. by destruct (secretNamePattern (sr_Name r)) eqn:E; cbn in Hc; rewrite ?E in Hc.
Qed.

(** Every outcome of [Create] leaves the table as it was or adds the row. *)
Lemma secret_Create_cases faults db r db' out : secret_Create pg_space url_Parse faults db r = (db', out) ->
  (db' = db /\ exists e, out = Err e) \/
  (exists r', SecretRecord_Validate url_Parse r = true /\ insert_secret pg_space db r = Ok (db', r') /\ (out = Ok r' \/ exists e, out = Err e)).
Proof using Type.
  unfold secret_Create. destruct (SecretRecord_Validate url_Parse r) eqn:Ev; cbn [negb]; [|intros [= <- <-]; eauto].
  intros E. destruct (autocommit_cases faults (SecretStorage DriverError) db (statement faults 0 mapSecretError (insert_secret pg_space db r))) as [(s' & a & Hs & H1 & H2)|(H1 & e & H2)];
    rewrite E in H1, H2; cbn in H1, H2; subst.
  - apply statement_ok in Hs. right. exists a. split_and!; [done..|]. destruct H2; eauto.
  - left. eauto.
Qed.

Lemma CreateLocal_cases cipher faults cancelled now db random c db' random' out :
  CreateLocal pg_space url_Parse Seal cipher faults cancelled now db random c = (db', random', out) ->
  (db' = db /\ exists e, out = Err e) \/
  (exists id rest envelope r', validateCreateLocal c = None /\ secret_newUUID random = (Ok id, rest) /\
    Encrypt Seal cipher cancelled {| bd_ReferenceID := id; bd_ProviderID := cl_ProviderID c; bd_Name := cl_Name c |} (cl_Plaintext c) rest = (Ok envelope, random') /\
    SecretRecord_Validate url_Parse (local_record id c envelope now) = true /\ insert_secret pg_space db (local_record id c envelope now) = Ok (db', r') /\
    (out = Ok (SecretRecord_Metadata r') \/ exists e, out = Err e)).
Proof using Type.
  unfold CreateLocal. destruct (validateCreateLocal c) eqn:Ev; [intros [= <- <- <-]; eauto|]. destruct (secret_newUUID random) as [[id|e] rest] eqn:Eid; [|intros [= <- <- <-]; eauto].
  destruct (Encrypt _ _ _ _ _ _) as [[envelope|e] rest'] eqn:Ee; [|intros [= <- <- <-]; eauto].
  destruct (secret_Create _ _ _ _ _) as [db1 r] eqn:Ec. unfold metadata_of. destruct (secret_Create_cases _ _ _ _ _ Ec) as [(-> & e & ->)|(r' & Hv & Hi & Ho)].
  - intros [= <- <- <-]. eauto.
  - intros E. right. exists id, rest, envelope, r'. destruct Ho as [->|[e ->]]; injection E as <- <- <-; split_and!; eauto.
Qed.

Lemma RegisterExternal_cases faults now db random c db' random' out : RegisterExternal pg_space url_Parse faults now db random c = (db', random', out) ->
  db' = db \/ exists id r', SecretRecord_Validate url_Parse (external_record id c now) = true /\ insert_secret pg_space db (external_record id c now) = Ok (db', r').
Proof using Type.
  unfold RegisterExternal. destruct (validateRegisterExternal _ _); [intros [= <- <- <-]; eauto|]. destruct (secret_newUUID random) as [[id|e] rest]; [|intros [= <- <- <-]; eauto].
  destruct (secret_Create _ _ _ _ _) as [db1 r] eqn:Ec. unfold metadata_of. destruct (secret_Create_cases _ _ _ _ _ Ec) as [(-> & e & ->)|(r' & Hv & Hi & _)].
  - intros [= <- <- <-]. eauto.
  - intros E. right. exists id, r'. by destruct r; injection E as <- _ _.
Qed.

(** ** The table over time *)

(** What a step does to the row of a key: it appears valid and canonical, or changes its
    status only. *)
Definition same_secret (r r' : SecretRecord) : Prop := exists status version at_ actor, r' = with_status status version at_ actor r.

Lemma same_secret_refl r : same_secret r r.
Proof using Type. exists (sr_Status r), (sr_Version r), (sr_UpdatedAt r), (sr_UpdatedBy r). by destruct r. Qed.

Lemma inserted_row db r db' r' : SecretRecord_Validate url_Parse r = true -> insert_secret pg_space db r = Ok (db', r') ->
  sd_rows db ⊆ sd_rows db' /\ (secrets_ok db -> secrets_ok db').
Proof using Type.
  intros Hv (-> & Hk & Hrows & Hn)%insert_secret_ok. unfold secrets_ok. rewrite Hrows. split; [by apply insert_subseteq|]. intros Hok. apply map_Forall_insert_2; [|done].
  unfold SecretRecord_Validate, validateUUID in Hv. destruct (uuidPattern (ToLower (sr_ID r))) eqn:E1; [|done]. destruct (uuidPattern (ToLower (sr_ProviderID r))) eqn:E2; [|done].
  split; cbn; [done|by rewrite !lower_idem|]. unfold validateUUID. by rewrite !lower_idem.
Qed.

Lemma secret_step_rows db db' : secret_step db db' -> (secrets_ok db -> secrets_ok db') /\
  (forall k r, sd_rows db !! k = Some r -> exists r', sd_rows db' !! k = Some r' /\ same_secret r r').
Proof using Type.
  assert (forall a b : SecretDB, sd_rows a ⊆ sd_rows b -> forall k r, sd_rows a !! k = Some r -> exists r', sd_rows b !! k = Some r' /\ same_secret r r') as Hsub.
  { intros a b Hab k r Hr. exists r. split; [by eapply lookup_weaken|apply same_secret_refl]. }
  destruct 1 as [cipher faults cancelled now db random c|faults now db random c|db p|db id status version at_ actor].
  - destruct (CreateLocal _ _ _ _ _ _ _ _ _ _) as [[db' random'] out] eqn:E. cbn [fst].
    destruct (CreateLocal_cases _ _ _ _ _ _ _ _ _ _ E) as [[-> _]|(id & rest & envelope & r' & _ & _ & _ & Hv & Hi & _)]; [by split; [|apply Hsub]|].
    destruct (inserted_row _ _ _ _ Hv Hi). split; [done|by apply Hsub].
  - destruct (RegisterExternal _ _ _ _ _ _ _) as [[db' random'] out] eqn:E. cbn [fst].
    destruct (RegisterExternal_cases _ _ _ _ _ _ _ _ E) as [->|(id & r' & Hv & Hi)]; [by split; [|apply Hsub]|].
    destruct (inserted_row _ _ _ _ Hv Hi). split; [done|by apply Hsub].
  - split; [done|]. by apply Hsub.
  - unfold secrets_ok. cbn [sd_rows]. split.
    + intros Hok k r Hr. rewrite lookup_alter_Some in Hr. destruct Hr as [(-> & r0 & Hr & ->)|(_ & Hr)]; [|by apply Hok]. destruct (Hok _ _ Hr). by split.
    + intros k r Hr. destruct (decide (id = k)) as [->|Hne].
      * exists (with_status status version at_ actor r). rewrite lookup_alter_eq, Hr. split; [done|]. by exists status, version, at_, actor.
      * exists r. rewrite lookup_alter_ne by done. split; [done|apply same_secret_refl].
Qed.

Lemma same_secret_trans r1 r2 r3 : same_secret r1 r2 -> same_secret r2 r3 -> same_secret r1 r3.
Proof using Type. intros (s & v & t & a & ->) (s' & v' & t' & a' & ->). by exists s', v', t', a'. Qed.

Lemma secret_history_rows db db' : secret_history db db' -> (secrets_ok db -> secrets_ok db') /\
  (forall k r, sd_rows db !! k = Some r -> exists r', sd_rows db' !! k = Some r' /\ same_secret r r').
Proof using Type.
  induction 1 as [db|db1 db2 db3 Hs _ [IH1 IH2]]; [split; [done|]; intros k r Hr; exists r; split; [done|apply same_secret_refl]|].
  apply secret_step_rows in Hs as [H1 H2]. split; [by intros ?%H1%IH1|]. intros k r (r' & Hr' & Hrr')%H2. destruct (IH2 _ _ Hr') as (r'' & ? & ?). exists r''. split; [done|].
  by eapply same_secret_trans.
Qed.

(** ** Sealing and opening *)
Lemma new_id_canonical random id rest : secret_newUUID random = (Ok id, rest) -> ToLower id = id.
Proof using Type.
  unfold secret_newUUID. destruct (ReadFull 16 random) as [[raw|] r]; [|done]. intros [= <- _]. apply hex_is_lower. unfold formatUUID.
  assert (forall n m, all_chars (or_class hex dash) (String.substring n m (hex_encode (version_bits raw))) = true) as H.
  { intros n m. apply all_chars_substring. apply (all_chars_impl hex); [|apply hex_encode_chars]. intros a Ha. unfold or_class. by rewrite Ha. }
  rewrite !all_chars_app. by rewrite !H.
Qed.

Lemma Encrypt_ok cipher cancelled b plaintext random envelope rest : Encrypt Seal cipher cancelled b plaintext random = (Ok envelope, rest) ->
  validateBinding b = true /\ plaintext_ok plaintext = true /\ env_KeyVersion envelope = ci_currentVersion cipher /\ length (env_Nonce envelope) = 12%nat /\
  exists key, ci_keys cipher !! ci_currentVersion cipher = Some key /\
    env_Ciphertext envelope = Seal key (env_Nonce envelope) plaintext (additionalData b (ci_currentVersion cipher)).
Proof using Type.
  unfold Encrypt. destruct cancelled; [done|]. destruct (validateBinding b) eqn:Eb; [|done]. destruct (plaintext_ok plaintext) eqn:Ep; [|done]. cbn [negb].
  destruct (ci_keys cipher !! _) as [key|] eqn:Ek; [|done]. unfold ReadFull. destruct (Nat.leb 12 (length random)) eqn:El; [|done]. intros [= <- _].
  cbn. split_and!; [done..| |by exists key]. apply Nat.leb_le in El. rewrite length_take. lia.
Qed.

Lemma Decrypt_sealed cipher b version key nonce plaintext : ci_keys cipher !! version = Some key -> validateBinding b = true -> plaintext_ok plaintext = true -> length nonce = 12%nat ->
  Decrypt Open cipher false b {| env_Ciphertext := Seal key nonce plaintext (additionalData b version); env_Nonce := nonce; env_KeyVersion := version |} = Ok plaintext.
Proof using AEAD0.
  intros Hk Hb Hp Hn. unfold Decrypt. cbn [negb env_KeyVersion env_Nonce env_Ciphertext]. rewrite Hb, Hk, Hn, seal_length, open_seal.
  unfold plaintext_ok, maximumSecretBytes in Hp. apply andb_prop in Hp as [?%Z.leb_le ?%Z.leb_le]. rewrite Nat.eqb_refl. cbn [andb].
  by rewrite !(proj2 (Z.leb_le _ _)) by lia.
Qed.

Lemma Decrypt_ok cipher cancelled b e plaintext : Decrypt Open cipher cancelled b e = Ok plaintext ->
  exists key, ci_keys cipher !! env_KeyVersion e = Some key /\ env_Ciphertext e = Seal key (env_Nonce e) plaintext (additionalData b (env_KeyVersion e)).
Proof using AEAD0.
  unfold Decrypt. destruct cancelled; [done|]. intros [_ [_ H]%ensure_Ok]%ensure_Ok. destruct (ci_keys cipher !! _) as [key|]; [|done]. apply ensure_Ok in H as [_ H].
  destruct (Open _ _ _ _) as [p|] eqn:Eo; [|done]. injection H as ->. exists key. split; [done|]. by apply open_sealed.
Qed.

(** The row that [Get] finds. *)
Lemma secret_Get_ok faults db l r : secret_Get faults db l = Ok r -> sd_rows db !! ToLower (lc_ID l) = Some r /\ sr_ProviderID r = ToLower (lc_ProviderID l).
Proof using Type.
  unfold secret_Get. intros (found & Hf%statement_ok & H)%bind_Ok. injection Hf as <-. destruct (sd_rows db !! _) as [r'|]; [|done].
  apply ensure_Ok in H as [H%bool_decide_eq_true H']. by injection H' as ->.
Qed.

(** C18: A secret resolves to what was stored, and only for its provider. When [CreateLocal]
    reports success for a provider named in canonical form, then after any later history of
    creations, registrations and status changes, and for every manager that still holds the
    key version, resolving the reference for its provider returns exactly the plaintext while
    the reference is active and is refused while it is not; for any other provider it is not
    found. *)
Theorem stored_secrets_resolve cipher faults cancelled now db random c db1 random1 m cipher' external db2 l :
  CreateLocal pg_space url_Parse Seal cipher faults cancelled now db random c = (db1, random1, Ok m) ->
  ToLower (cl_ProviderID c) = cl_ProviderID c -> secret_history db1 db2 -> ci_keys cipher ⊆ ci_keys cipher' ->
  ToLower (lc_ID l) = sm_ID m -> validateUUID (lc_ProviderID l) = true ->
  if decide (ToLower (lc_ProviderID l) = cl_ProviderID c)
  then exists r, sd_rows db2 !! sm_ID m = Some r /\
    secret_Resolve Open cipher' external no_faults false db2 l = if decide (sr_Status r = SecretActive) then Ok (cl_Plaintext c) else Err SecretIsDisabled
  else secret_Resolve Open cipher' external no_faults false db2 l = Err SecretNotFound.
Proof using AEAD0.
  intros Hc Hp Hh Hk Hl Hpl. destruct (CreateLocal_cases _ _ _ _ _ _ _ _ _ _ Hc) as [(_ & e & He)|(id & rest & envelope & r0 & _ & Hid & He & _ & Hi & [Ho|[e Ho]])]; [done| |done].
  injection Ho as ->. destruct (Encrypt_ok _ _ _ _ _ _ _ He) as (Hb & Hpt & Hv & Hn & key & Hkey & Hct). apply new_id_canonical in Hid.
  apply insert_secret_ok in Hi as (-> & _ & Hrows & _). cbn [sr_ID canonical_row local_record SecretRecord_Metadata sm_ID] in *. rewrite Hid in Hl, Hrows |- *.
  assert (sd_rows db1 !! id = Some (canonical_row (local_record id c envelope now))) as H1 by (rewrite Hrows; apply lookup_insert_eq).
  destruct (proj2 (secret_history_rows _ _ Hh) _ _ H1) as (r & Hr & status & version & at_ & actor & ->).
  assert (validateUUID (lc_ID l) = true) as Hvl.
  { unfold validateUUID. rewrite Hl. unfold validateBinding in Hb. cbn in Hb. apply andb_prop in Hb as [[Hb _]%andb_prop _]. unfold validateUUID in Hb. by rewrite Hid in Hb. }
  unfold secret_Resolve, validateSecretLocator. rewrite Hpl, Hvl. cbn [negb]. unfold secret_Get, statement. cbn [fl_statement no_faults result_bind]. rewrite Hl, Hr.
  cbn [sr_ProviderID with_status canonical_row local_record]. rewrite Hp. destruct (decide (ToLower (lc_ProviderID l) = cl_ProviderID c)) as [E|E].
  - eexists. split; [done|]. rewrite bool_decide_eq_true_2 by done. cbn [result_bind with_status sr_Status sr_Backend canonical_row local_record sr_KeyVersion binding_of sr_ID sr_ProviderID sr_Name sr_Ciphertext sr_Nonce].
    destruct (decide (status = SecretActive)) as [Hs|Hs]; [rewrite bool_decide_eq_true_2 by done|by rewrite bool_decide_eq_false_2].
    unfold binding_of. cbn [with_status canonical_row local_record sr_ID sr_ProviderID sr_Name]. rewrite Hid, Hp, Hct, Hv.
    rewrite (Decrypt_sealed cipher' _ _ key); [done| |done..]. by eapply lookup_weaken.
  - by rewrite bool_decide_eq_false_2.
Qed.

Lemma row_binding key r : row_ok key r -> validateBinding (binding_of r) = true.
Proof using Type. intros [_ _ (H1 & H2 & H3)]. unfold validateBinding, binding_of. cbn [bd_ReferenceID bd_ProviderID bd_Name]. by rewrite H1, H2, H3. Qed.

Lemma resolved_row providers cipher external faults cancelled db l plaintext :
  secret_history (empty_secrets providers) db -> secret_Resolve Open cipher external faults cancelled db l = Ok plaintext ->
  exists r, sd_rows db !! ToLower (lc_ID l) = Some r /\ sr_ID r = ToLower (lc_ID l) /\ sr_ProviderID r = ToLower (lc_ProviderID l) /\ sr_Status r = SecretActive /\
    match sr_Backend r with
    | BackendLocalEnvelope => exists version key, sr_KeyVersion r = Some version /\ ci_keys cipher !! version = Some key /\
        sr_Ciphertext r = Seal key (sr_Nonce r) plaintext (additionalData (binding_of r) version) /\
        (forall k r' version', sd_rows db !! k = Some r' -> additionalData (binding_of r') version' = additionalData (binding_of r) version -> r' = r /\ version' = version)
    | BackendVault | BackendKMS => exists resolver locator, external (sr_Backend r) = Some resolver /\ sr_Locator r = Some locator /\ resolver locator = Some plaintext
    | BackendOther _ => False
    end.
Proof using AEAD0.
  intros Hh. assert (secrets_ok db) as Hok by (apply (secret_history_rows _ _ Hh); apply map_Forall_empty).
  unfold secret_Resolve. destruct (validateSecretLocator l); [done|]. intros (r & Hg & H)%bind_Ok. apply secret_Get_ok in Hg as [Hr Hp]. apply ensure_Ok in H as [Hs%bool_decide_eq_true H].
  exists r. pose proof (Hok _ _ Hr) as Hrow. split_and!; [done|apply Hrow|done|done|]. destruct (sr_Backend r); [|..|done].
  - destruct (sr_KeyVersion r) as [version|]; [|done]. destruct (Decrypt _ _ _ _ _) as [p|] eqn:Ed; [|done]. injection H as ->.
    apply Decrypt_ok in Ed as (key & Hk & Hc). cbn in Hk, Hc. exists version, key. split_and!; [done..|].
    intros k r' v' Hr' E. pose proof (Hok _ _ Hr') as Hrow'. apply additional_data_inj in E as [E ->]; [|by eapply row_binding..]. split; [|done].
    unfold binding_of in E. injection E as E1 _ _. destruct Hrow as [K1 _ _], Hrow' as [K2 _ _]. congruence.
  - destruct (external _) as [resolver|]; [|done]. destruct (sr_Locator r) as [locator|]; [|done]. destruct (resolver locator) as [p|] eqn:E; [|done].
    apply ensure_Ok in H as [_ H]. injection H as ->. by exists resolver, locator.
  - destruct (external _) as [resolver|]; [|done]. destruct (sr_Locator r) as [locator|]; [|done]. destruct (resolver locator) as [p|] eqn:E; [|done].
    apply ensure_Ok in H as [_ H]. injection H as ->. by exists resolver, locator.
Qed.

(** C19: What [Resolve] hands out belongs to the reference it was asked for. In every state
    the table can reach: a plaintext is returned only for an active row of that provider and
    reference; a local one was sealed, under a key the manager holds, for exactly this row,
    and no other row or key version has its additional data, so an envelope copied to another
    row is not opened as what it was sealed for; an external one is the answer of the row's
    backend to the row's locator. *)
Theorem secrets_stay_with_their_provider providers cipher external faults cancelled db l plaintext :
  secret_history (empty_secrets providers) db -> secret_Resolve Open cipher external faults cancelled db l = Ok plaintext ->
  exists r, sd_rows db !! ToLower (lc_ID l) = Some r /\ sr_ID r = ToLower (lc_ID l) /\ sr_ProviderID r = ToLower (lc_ProviderID l) /\ sr_Status r = SecretActive /\
    match sr_Backend r with
    | BackendLocalEnvelope => exists version key, sr_KeyVersion r = Some version /\ ci_keys cipher !! version = Some key /\
        sr_Ciphertext r = Seal key (sr_Nonce r) plaintext (additionalData (binding_of r) version) /\
        (forall k r' version', sd_rows db !! k = Some r' -> additionalData (binding_of r') version' = additionalData (binding_of r) version -> r' = r /\ version' = version)
    | BackendVault | BackendKMS => exists resolver locator, external (sr_Backend r) = Some resolver /\ sr_Locator r = Some locator /\ resolver locator = Some plaintext
    | BackendOther _ => False
    end.
Proof using AEAD0. apply resolved_row. Qed.

(** A provider named with an upper-case letter passes validation and is stored, but the column
    returns its lower-case form, under which the envelope was not sealed: the secret that
    [CreateLocal] reported as stored can never be resolved. *)
Lemma upper_case_provider_loses_its_secret cipher faults cancelled now db random c db1 random1 m external l :
  (forall key nonce plaintext a a', a <> a' -> Open key nonce (Seal key nonce plaintext a) a' = None) ->
  CreateLocal pg_space url_Parse Seal cipher faults cancelled now db random c = (db1, random1, Ok m) ->
  ToLower (cl_ProviderID c) <> cl_ProviderID c -> ToLower (lc_ID l) = sm_ID m -> ToLower (lc_ProviderID l) = ToLower (cl_ProviderID c) ->
  secret_Resolve Open cipher external no_faults false db1 l = Err DecryptionFailed.
Proof using Type.
  intros Hauth Hc Hp Hl Hpl. destruct (CreateLocal_cases _ _ _ _ _ _ _ _ _ _ Hc) as [(_ & e & He)|(id & rest & envelope & r0 & _ & Hid & He & Hval & Hi & [Ho|[e Ho]])]; [done| |done].
  injection Ho as ->. destruct (Encrypt_ok _ _ _ _ _ _ _ He) as (Hb & Hpt & Hv & Hn & key & Hkey & Hct). apply new_id_canonical in Hid.
  apply insert_secret_ok in Hi as (-> & _ & Hrows & _). cbn [sr_ID canonical_row local_record SecretRecord_Metadata sm_ID] in *. rewrite Hid in Hl, Hrows.
  assert (sd_rows db1 !! id = Some (canonical_row (local_record id c envelope now))) as H1 by (rewrite Hrows; apply lookup_insert_eq).
  unfold validateBinding in Hb. cbn in Hb. apply andb_prop in Hb as [[Hb1 Hb2]%andb_prop Hb3].
  assert (validateUUID (lc_ID l) = true /\ validateUUID (lc_ProviderID l) = true) as [V1 V2] by (unfold validateUUID in *; rewrite Hl, Hpl; by rewrite Hid in Hb1).
  unfold secret_Resolve, validateSecretLocator. rewrite V1, V2. cbn [negb]. unfold secret_Get, statement. cbn [fl_statement no_faults result_bind]. rewrite Hl, H1.
  cbn [sr_ProviderID canonical_row local_record]. rewrite bool_decide_eq_true_2 by done. cbn [result_bind sr_Status sr_Backend canonical_row local_record sr_KeyVersion].
  rewrite bool_decide_eq_true_2 by done. unfold Decrypt. cbn [negb env_KeyVersion env_Nonce env_Ciphertext sr_Nonce sr_Ciphertext canonical_row local_record].
  destruct (validateBinding _); [|done]. rewrite Hv, Hkey. destruct (_ && _ && _); [|done]. rewrite Hct, Hauth; [done|].
  unfold additionalData, binding_of. cbn. rewrite Hid. intros E. apply app_inv_head in E. injection E as E. apply nul_split in E as [E _].
  - by apply bytes_of_inj in E.
  - by apply bytes_not_nul, uuid_not_nul.
  - apply bytes_not_nul, uuid_not_nul. unfold validateUUID in *. by rewrite lower_idem.
Qed.
End Secrets.

(** ** A stored secret *)
Module SecretDemo.
(** A sealed text names its key, nonce and additional data in the clear. *)
Definition tag (key nonce additional : list Z) : list Z := Z.pos (encode (key, nonce, additional)) :: replicate 15 0.
Definition seal (key nonce plaintext additional : list Z) : list Z := plaintext ++ tag key nonce additional.
Definition open (key nonce ciphertext additional : list Z) : option (list Z) :=
  let plaintext := take (length ciphertext - 16) ciphertext in if bool_decide (ciphertext = seal key nonce plaintext additional) then Some plaintext else None.

Definition provider : string := "a3333333-3333-4333-8333-333333333333".
Definition cipher : LocalCipher := {| ci_currentVersion := "v1"; ci_keys := {["v1"%string := replicate 32 1]} |}.
Definition command (provider : string) : CreateLocalCommand := {| cl_ProviderID := provider; cl_Name := "key"; cl_Plaintext := bytes_of "sk-1"; cl_Actor := "admin" |}.
Definition created (provider : string) := CreateLocal (fun _ => false) (fun _ => None) seal cipher no_faults false 5 (empty_secrets {[ToLower provider]}) (replicate 28 7) (command provider).
Definition reference : SecretLocator := {| lc_ProviderID := provider; lc_ID := "07070707-0707-4707-8707-070707070707" |}.
End SecretDemo.

#[local] Instance demo_aead : AEAD SecretDemo.seal SecretDemo.open.
Proof.
  split.
  - intros key nonce plaintext additional. unfold SecretDemo.open. assert (take (length (SecretDemo.seal key nonce plaintext additional) - 16) (SecretDemo.seal key nonce plaintext additional) = plaintext) as ->.
    { unfold SecretDemo.seal. rewrite length_app. cbn [length SecretDemo.tag]. rewrite length_replicate. replace (length plaintext + 16 - 16)%nat with (length plaintext) by lia. apply take_app_length. }
    by rewrite bool_decide_eq_true_2.
  - intros key nonce ciphertext additional plaintext. unfold SecretDemo.open. case_bool_decide as E; [|done]. by intros [= <-].
  - intros key nonce plaintext additional. unfold SecretDemo.seal. rewrite length_app. cbn [length SecretDemo.tag]. by rewrite length_replicate.
Qed.

Lemma created_ok : exists db random m, SecretDemo.created SecretDemo.provider = (db, random, Ok m) /\ sm_ID m = lc_ID SecretDemo.reference.
Proof. eexists _, _, _. split; [vm_compute; reflexivity|reflexivity]. Qed.

Lemma created_history db random m : SecretDemo.created SecretDemo.provider = (db, random, Ok m) ->
  secret_history (fun _ => false) (fun _ => None) SecretDemo.seal (empty_secrets {[SecretDemo.provider]}) db.
Proof.
  intros H. apply rtc_once. replace db with (SecretDemo.created SecretDemo.provider).1.1 by (by rewrite H). apply step_create_local.
Qed.

Lemma stored_secrets_resolve_witness : exists db random m r, SecretDemo.created SecretDemo.provider = (db, random, Ok m) /\ sd_rows db !! sm_ID m = Some r /\
  secret_Resolve SecretDemo.open SecretDemo.cipher (fun _ => None) no_faults false db SecretDemo.reference =
    if decide (sr_Status r = SecretActive) then Ok (bytes_of "sk-1") else Err SecretIsDisabled.
Proof.
  destruct created_ok as (db & random & m & Hc & Hm). exists db, random, m.
  pose proof (stored_secrets_resolve (fun _ => false) (fun _ => None) SecretDemo.seal SecretDemo.open SecretDemo.cipher no_faults false 5 (empty_secrets {[SecretDemo.provider]})
    (replicate 28 7) (SecretDemo.command SecretDemo.provider) db random m SecretDemo.cipher (fun _ => None) db SecretDemo.reference Hc eq_refl (rtc_refl _ db) (reflexivity _) (eq_sym Hm) eq_refl) as H.
  rewrite decide_True in H by reflexivity. destruct H as (r & Hr & H). exists r. split; [exact Hc|]. split; [exact Hr|exact H].
Defined.

Lemma resolved_ok : exists db random m, SecretDemo.created SecretDemo.provider = (db, random, Ok m) /\
  secret_Resolve SecretDemo.open SecretDemo.cipher (fun _ => None) no_faults false db SecretDemo.reference = Ok (bytes_of "sk-1").
Proof. eexists _, _, _. split; vm_compute; reflexivity. Qed.

Lemma secrets_stay_with_their_provider_witness : exists db r, secret_history (fun _ => false) (fun _ => None) SecretDemo.seal (empty_secrets {[SecretDemo.provider]}) db /\
  sd_rows db !! lc_ID SecretDemo.reference = Some r /\ sr_ProviderID r = SecretDemo.provider.
Proof.
  destruct resolved_ok as (db & random & m & Hc & Hr). pose proof (created_history _ _ _ Hc) as Hh.
  destruct (secrets_stay_with_their_provider (fun _ => false) (fun _ => None) SecretDemo.seal SecretDemo.open {[SecretDemo.provider]} SecretDemo.cipher (fun _ => None) no_faults false db
    SecretDemo.reference (bytes_of "sk-1") Hh Hr) as (r & H1 & _ & H2 & _).
  exists db, r. split; [exact Hh|]. split; [exact H1|exact H2].
Defined.

(** The same provider with an upper-case letter. *)
Example lost_secret :
  match SecretDemo.created "A3333333-3333-4333-8333-333333333333" with
  | (db, _, Ok m) => secret_Resolve SecretDemo.open SecretDemo.cipher (fun _ => None) no_faults false db SecretDemo.reference = Err DecryptionFailed
  | _ => False
  end.
Proof. vm_compute. reflexivity. Qed.
