(* ===== verification/RoutePolicy.v ===== *)
(** * Route policies (src/internal/routing/policy.go)

    The published selection policy and the choice of one eligible candidate. The
    random source is an interface: the theorems hold for every implementation, and
    whatever it draws is checked against the bound by the code. *)
From Stdlib Require Import ZArith Lia Bool Ascii String.
From stdpp Require Import base tactics option list strings gmap fin_maps sets.
From S2P Require Import Prelude Identifiers Catalog.
(** ** Errors of the routing package *)
Inductive reader_error := ReaderContext (cause : ctx_error) | ReaderFailed (what : string).

Inductive route_error :=
| ErrInput (what : string) | ErrNoCandidate | ErrCandidateSource | ErrPolicyUnavailable | ErrRandomUnavailable
| ErrHealthUnavailable (cause : reader_error) | ErrBudgetUnavailable (cause : reader_error)
| ErrCapacityUnavailable (cause : reader_error).

(** [RandomSource]: a draw and the source after it. *)
Class RandomSource (R : Type) := Uint64N : R -> Z -> R * result Z reader_error.

(** ** Policies *)
Inductive RouteMode := RouteFixed | RoutePriority | RouteWeighted | RouteModeOther (value : string).

#[export] Instance RouteMode_eq_dec : EqDecision RouteMode.
Proof. solve_decision. Defined.

Record RoutePolicy := { pol_Version : string; pol_Mode : RouteMode; FixedDeploymentID : string }.

Definition routePolicyVersionPattern : string -> bool := refPattern.
Definition routeDeploymentIDPattern : string -> bool := uuidPattern.
Definition maximumCandidates : Z := 256.

Definition RoutePolicy_Validate (policy : RoutePolicy) : bool :=
  routePolicyVersionPattern (pol_Version policy) &&
  match pol_Mode policy with
  | RouteFixed => routeDeploymentIDPattern (FixedDeploymentID policy)
  | RoutePriority | RouteWeighted => bool_decide (FixedDeploymentID policy = ""%string)
  | RouteModeOther _ => false
  end.

Record PolicyRequest := { pr_TenantID : string; pr_ProjectID : string; pr_LogicalModel : string }.

Definition bootstrapPriorityPolicyVersion : string := "bootstrap-priority/v1".

(** The resolver installed when none is configured. *)
Definition bootstrap_Resolve (ctx : Context) (_ : PolicyRequest) : result RoutePolicy reader_error :=
  match ctx with
  | ctx_nil => Err (ReaderFailed "route policy context must not be nil")
  | ctx_done cause => Err (ReaderContext cause)
  | ctx_live => Ok {| pol_Version := bootstrapPriorityPolicyVersion; pol_Mode := RoutePriority; FixedDeploymentID := "" |}
  end.

(** ** Static policies *)
Definition NewStaticPolicyResolver (policy : RoutePolicy) : option RoutePolicy :=
  if RoutePolicy_Validate policy then Some policy else None.

Definition static_Resolve (resolver : RoutePolicy) (ctx : Context) (_ : PolicyRequest) : result RoutePolicy reader_error :=
  match ctx with
  | ctx_nil => Err (ReaderFailed "route policy context must not be nil")
  | ctx_done cause => Err (ReaderContext cause)
  | ctx_live => Ok resolver
  end.

(** ** Decisions *)
Record PolicyDecision := {
  dec_PolicyVersion : string; dec_Mode : RouteMode; SelectedDeploymentID : string; dec_Priority : Z; dec_Weight : Z;
  EligibleCount : Z; TotalWeight : Z; RandomDraw : option Z }.

Definition PolicyDecision_Validate (d : PolicyDecision) : bool :=
  routePolicyVersionPattern (dec_PolicyVersion d) && routeDeploymentIDPattern (SelectedDeploymentID d) &&
  (0 <=? dec_Priority d) && (0 <=? dec_Weight d) && (1 <=? EligibleCount d) && (EligibleCount d <=? maximumCandidates) &&
  match dec_Mode d with
  | RouteFixed | RoutePriority => (TotalWeight d =? 0) && bool_decide (RandomDraw d = None)
  | RouteWeighted =>
      (1 <=? dec_Weight d) && negb (TotalWeight d =? 0) &&
      match RandomDraw d with
      | None => (EligibleCount d =? 1) && (TotalWeight d =? dec_Weight d)
      | Some draw => draw <? TotalWeight d
      end
  | RouteModeOther _ => false
  end.

Definition selectedCandidate (candidate : RouteCandidate) (policy : RoutePolicy) (eligibleCount totalWeight : Z)
    (randomDraw : option Z) : RouteCandidate * PolicyDecision :=
  (candidate,
   {| dec_PolicyVersion := pol_Version policy; dec_Mode := pol_Mode policy;
      SelectedDeploymentID := dep_ID (cand_Deployment candidate);
      dec_Priority := bind_Priority (cand_Binding candidate); dec_Weight := bind_Weight (cand_Binding candidate);
      EligibleCount := eligibleCount; TotalWeight := totalWeight; RandomDraw := randomDraw |}).

Definition deployment_id (c : RouteCandidate) : string := dep_ID (cand_Deployment c).
Definition weight_of (c : RouteCandidate) : Z := bind_Weight (cand_Binding c).
Definition count (candidates : list RouteCandidate) : Z := Z.of_nat (length candidates).

Definition selectFixed (candidates : list RouteCandidate) (policy : RoutePolicy)
    : result (RouteCandidate * PolicyDecision) route_error :=
  match find (fun c => bool_decide (deployment_id c = FixedDeploymentID policy)) candidates with
  | Some c => Ok (selectedCandidate c policy (count candidates) 0 None)
  | None => Err ErrNoCandidate
  end.

(** The loop that sums the binding weights with an overflow check. *)
Fixpoint total_weight (candidates : list RouteCandidate) (total : Z) : result Z route_error :=
  match candidates with
  | [] => Ok total
  | c :: rest =>
      ensure (0 <? weight_of c) else ErrPolicyUnavailable in
      ensure (negb (u64_sub u64_max total <? weight_of c)) else ErrPolicyUnavailable in
      total_weight rest (u64_add total (weight_of c))
  end.

(** The loop over the cumulative intervals. *)
Fixpoint pick_interval (candidates : list RouteCandidate) (draw cumulative : Z) : option RouteCandidate :=
  match candidates with
  | [] => None
  | c :: rest =>
      let cumulative := u64_add cumulative (weight_of c) in
      if draw <? cumulative then Some c else pick_interval rest draw cumulative
  end.

Definition selectWeighted {R : Type} `{RandomSource R} (candidates : list RouteCandidate) (policy : RoutePolicy) (random : R)
    : R * result (RouteCandidate * PolicyDecision) route_error :=
  match total_weight candidates 0 with
  | Err e => (random, Err e)
  | Ok totalWeight =>
      if totalWeight =? 0 then (random, Err ErrPolicyUnavailable)
      else match candidates with
      | [c] => (random, Ok (selectedCandidate c policy 1 totalWeight None))
      | _ =>
          match Uint64N random totalWeight with
          | (random', Err _) => (random', Err ErrRandomUnavailable)
          | (random', Ok draw) =>
              if totalWeight <=? draw then (random', Err ErrRandomUnavailable)
              else match pick_interval candidates draw 0 with
              | Some c => (random', Ok (selectedCandidate c policy (count candidates) totalWeight (Some draw)))
              | None => (random', Err ErrPolicyUnavailable)
              end
          end
      end
  end.

Definition selectByPolicy {R : Type} `{RandomSource R} (candidates : list RouteCandidate) (policy : RoutePolicy) (random : R)
    : R * result (RouteCandidate * PolicyDecision) route_error :=
  match candidates with
  | [] => (random, Err ErrNoCandidate)
  | first :: _ =>
      match pol_Mode policy with
      | RouteFixed => (random, selectFixed candidates policy)
      | RoutePriority => (random, Ok (selectedCandidate first policy (count candidates) 0 None))
      | RouteWeighted => selectWeighted candidates policy random
      | RouteModeOther _ => (random, Err ErrPolicyUnavailable)
      end
  end.

(** ** Weighted selection *)
Definition weights_ok (candidates : list RouteCandidate) : Prop :=
  Forall (fun c => 1 <= weight_of c <= 10000) candidates /\ count candidates <= maximumCandidates.

Lemma sum_weights_bound candidates :
  Forall (fun c => 1 <= weight_of c <= 10000) candidates ->
  count candidates <= sum_by weight_of candidates <= 10000 * count candidates.
Proof. unfold count. induction 1; simpl; lia. Qed.

Lemma total_weight_sum candidates : forall acc,
  Forall (fun c => 1 <= weight_of c <= 10000) candidates -> 0 <= acc -> acc + sum_by weight_of candidates <= u64_max ->
  total_weight candidates acc = Ok (acc + sum_by weight_of candidates).
Proof.
  induction candidates as [|c rest IH]; intros acc Hw Hacc Hmax; simpl in *; [f_equal; lia|].
  apply Forall_cons in Hw as [Hc Hw]. pose proof (sum_weights_bound rest Hw). unfold count in *.
  rewrite (proj2 (Z.ltb_lt _ _)) by lia. rewrite u64_sub_small by lia.
  rewrite (proj2 (Z.ltb_ge _ _)) by lia. simpl. rewrite u64_add_small by lia. rewrite IH; [f_equal; lia|done|lia|lia].
Qed.

(** The interval of draws that select the candidate after [before]. *)
Lemma pick_interval_spec candidates : forall draw cum,
  Forall (fun c => 1 <= weight_of c <= 10000) candidates -> 0 <= cum -> cum + sum_by weight_of candidates <= u64_max ->
  cum <= draw < cum + sum_by weight_of candidates ->
  exists before c after, candidates = before ++ c :: after /\ pick_interval candidates draw cum = Some c /\
    cum + sum_by weight_of before <= draw < cum + sum_by weight_of before + weight_of c.
Proof.
  induction candidates as [|c rest IH]; intros draw cum Hw Hcum Hmax Hd; simpl in *; [lia|].
  apply Forall_cons in Hw as [Hc Hw]. pose proof (sum_weights_bound rest Hw). unfold count in *.
  rewrite u64_add_small by lia. destruct (draw <? cum + weight_of c) eqn:E; prop_hyps.
  - exists [], c, rest. split_and!; simpl; try done; lia.
  - destruct (IH draw (cum + weight_of c)) as (b & x & a & -> & Hp & Hb); try done; try lia.
    exists (c :: b), x, a. split_and!; simpl; try done; lia.
Qed.

Definition draw_selects (candidates : list RouteCandidate) (id : string) (draw : Z) : bool :=
  match pick_interval candidates draw 0 with Some c => bool_decide (deployment_id c = id) | None => false end.

(** The number of draws below [n] that satisfy [p]. *)
Fixpoint draws (n : nat) (p : Z -> bool) : Z :=
  match n with O => 0 | S n' => (if p (Z.of_nat n') then 1 else 0) + draws n' p end.

Lemma draws_interval p lo hi n :
  0 <= lo <= hi -> (forall d, 0 <= d < Z.of_nat n -> p d = true <-> lo <= d < hi) ->
  draws n p = Z.min hi (Z.of_nat n) - Z.min lo (Z.of_nat n).
Proof.
  intros Hlo. induction n as [|n IH]; intros Hp; [simpl; lia|]. cbn [draws]. rewrite IH by (intros; apply Hp; lia).
  specialize (Hp (Z.of_nat n) ltac:(lia)). destruct (p (Z.of_nat n)); [destruct Hp as [Hp _]; specialize (Hp eq_refl); lia|].
  destruct (decide (lo <= Z.of_nat n < hi)) as [Hin|Hout]; [by apply Hp in Hin|]. lia.
Qed.

(** A draw in the interval of [c] selects it; with distinct deployments no other draw does. *)
Lemma draw_selects_iff before c after draw :
  let candidates := before ++ c :: after in
  Forall (fun c => 1 <= weight_of c <= 10000) candidates -> NoDup (deployment_id <$> candidates) ->
  sum_by weight_of candidates <= u64_max -> 0 <= draw < sum_by weight_of candidates ->
  draw_selects candidates (deployment_id c) draw = true <->
  sum_by weight_of before <= draw < sum_by weight_of before + weight_of c.
Proof.
  intros candidates Hw Hnd Hmax Hd. unfold draw_selects.
  destruct (pick_interval_spec candidates draw 0) as (b & x & a & Heq & -> & Hb); try done; try lia.
  rewrite bool_decide_eq_true. split.
  - intros Hid. assert (Hx : length b = length before).
    { eapply NoDup_lookup; [exact Hnd| |]; rewrite list_lookup_fmap.
      - rewrite Heq, list_lookup_middle by done. done.
      - unfold candidates. rewrite list_lookup_middle by done. simpl. by rewrite Hid. }
    unfold candidates in Heq. apply app_inj_1 in Heq as [-> [= -> ->]]; [lia|done].
  - intros Hrange. destruct (decide (length b = length before)) as [Hl|Hl].
    + unfold candidates in Heq. by apply app_inj_1 in Heq as [_ [= -> _]].
    + exfalso. unfold candidates in *.
      assert (Hpos : forall l, Forall (fun c => 1 <= weight_of c <= 10000) l -> 0 <= sum_by weight_of l).
      { intros l Hl'. pose proof (sum_weights_bound l Hl'). unfold count in *. lia. }
      apply Forall_app in Hw as Hw'. destruct Hw' as [Hwb [Hwc Hwa]%Forall_cons].
      rewrite Heq in Hw. apply Forall_app in Hw as [Hwb' [Hwx Hwa']%Forall_cons].
      destruct (decide (length b < length before)%nat) as [Hlt|Hge].
      * apply app_eq_inv in Heq as [(k & -> & Hk)|(k & -> & Hk)]; [|rewrite length_app in Hlt; lia].
        destruct k as [|y k]; simpl in Hk; [rewrite length_app in Hlt; simpl in Hlt; lia|]. injection Hk as -> ->.
        rewrite sum_by_app in Hrange. simpl in Hrange. apply Forall_app in Hwb as [_ [_ Hk]%Forall_cons].
        pose proof (Hpos _ Hk). lia.
      * apply app_eq_inv in Heq as [(k & -> & Hk)|(k & -> & Hk)]; [rewrite length_app in Hge, Hl; destruct k; simpl in *; [rewrite app_nil_r in *|]; lia|].
        destruct k as [|y k]; simpl in Hk; [rewrite app_nil_r in Hl; done|]. injection Hk as -> ->.
        rewrite sum_by_app in Hb. simpl in Hb. apply Forall_app in Hwb' as [_ [_ Hk]%Forall_cons].
        pose proof (Hpos _ Hk). lia.
Qed.

(** A source that always returns the same draw. *)
#[local] Instance fixed_draw : RandomSource Z := fun draw _ => (draw, Ok draw).

Definition selects {R : Type} (outcome : R * result (RouteCandidate * PolicyDecision) route_error) (id : string) : bool :=
  match outcome.2 with Ok (c, _) => bool_decide (deployment_id c = id) | Err _ => false end.

Lemma weights_total candidates :
  weights_ok candidates -> candidates <> [] ->
  total_weight candidates 0 = Ok (sum_by weight_of candidates) /\ 0 < sum_by weight_of candidates <= u64_max.
Proof.
  intros [Hw Hn] Hne. pose proof (sum_weights_bound _ Hw). unfold count, maximumCandidates in *.
  assert (0 < Z.of_nat (length candidates)) by (destruct candidates; simpl; [done|lia]).
  split; [|unfold u64_max; lia]. rewrite total_weight_sum; [f_equal; lia|done|lia|unfold u64_max; lia].
Qed.

Lemma selectWeighted_draw candidates policy draw id :
  weights_ok candidates -> NoDup (deployment_id <$> candidates) -> 0 <= draw < sum_by weight_of candidates ->
  selects (selectWeighted candidates policy draw) id = draw_selects candidates id draw.
Proof.
  intros Hw Hnd Hd. destruct (decide (candidates = [])) as [->|Hne]; [simpl in Hd; lia|].
  destruct (weights_total candidates Hw Hne) as [Ht Hpos]. unfold selectWeighted. rewrite Ht.
  rewrite (proj2 (Z.eqb_neq _ _)) by lia. destruct Hw as [Hw _]. destruct candidates as [|c [|c' rest]]; [done|..].
  - unfold selects, draw_selects. simpl in *. apply Forall_cons in Hw as [Hc _].
    rewrite u64_add_small by (unfold u64_max; lia). by rewrite (proj2 (Z.ltb_lt _ _)) by lia.
  - unfold Uint64N, fixed_draw. rewrite (proj2 (Z.leb_gt _ _)) by lia.
    destruct (pick_interval_spec (c :: c' :: rest) draw 0 Hw) as (b & x & a & _ & Hp & _); try lia.
    rewrite Hp. unfold selects, draw_selects. by rewrite Hp.
Qed.

(** Weighted selection is exactly proportional: over the draws below the total
    weight, each eligible deployment is selected by as many draws as its binding
    weight, for candidates with valid weights and distinct deployments. *)
Theorem weighted_selection_is_proportional candidates policy c :
  weights_ok candidates -> NoDup (deployment_id <$> candidates) -> c ∈ candidates ->
  draws (Z.to_nat (sum_by weight_of candidates))
    (fun draw => selects (selectWeighted candidates policy draw) (deployment_id c)) = weight_of c.
Proof.
  intros Hw Hnd Hc. apply list_elem_of_split in Hc as (before & after & ->).
  assert (Hne : before ++ c :: after <> []) by by destruct before.
  destruct (weights_total _ Hw Hne) as [_ Hpos]. destruct (Hw) as [Hall _].
  apply Forall_app in Hall as Hsplit. destruct Hsplit as [Hb [Hc Ha]%Forall_cons].
  pose proof (sum_weights_bound _ Hb) as H1. pose proof (sum_weights_bound _ Ha) as H2. unfold count in H1, H2.
  rewrite (draws_interval _ (sum_by weight_of before) (sum_by weight_of before + weight_of c)); [|lia|].
  - rewrite Z2Nat.id by lia. rewrite sum_by_app in *. simpl in *. lia.
  - rewrite Z2Nat.id by lia. intros d Hd. rewrite selectWeighted_draw by done. apply draw_selects_iff; try done; lia.
Qed.

(** ** Example candidates *)
Definition demo_audit : Audit :=
  {| aud_Status := StatusActive; aud_Version := 1; aud_CreatedAt := 1; aud_CreatedBy := "admin"; aud_UpdatedAt := 1;
     aud_UpdatedBy := "admin" |}.
Definition demo_needs : CapabilityRequirements :=
  {| need_Chat := true; need_Stream := false; need_Tools := false; need_ParallelTools := false;
     need_StructuredOutput := false; need_Vision := false; need_AudioInput := false; need_AudioOutput := false;
     need_Embeddings := false; MinContextTokens := None; MinOutputTokens := None; DataRetentionModes := [] |}.
Definition demo_caps : CapabilitySet :=
  {| has_Chat := true; has_Stream := true; has_Tools := false; has_ParallelTools := false; has_StructuredOutput := false;
     has_Vision := false; has_AudioInput := false; has_AudioOutput := false; has_Embeddings := false;
     UsageInStream := false; CacheUsage := false; ReasoningUsage := false; MaxContextTokens := 8192;
     MaxOutputTokens := 1024; cap_DataRetentionMode := RetentionZero; ProviderProtocolVersion := "v1" |}.
Definition demo_candidate (id : string) (priority weight : Z) : RouteCandidate :=
  {| cand_LogicalModel :=
       {| model_ID := "11111111-1111-4111-8111-111111111111"; model_TenantID := "22222222-2222-4222-8222-222222222222";
          model_Name := "chat"; model_DisplayName := "Chat"; model_Description := None; RequiredCapabilities := demo_needs;
          AllowedRegions := None; model_Audit := demo_audit |};
     cand_Binding :=
       {| bind_LogicalModelID := "11111111-1111-4111-8111-111111111111"; bind_DeploymentID := id;
          bind_Priority := priority; bind_Weight := weight; bind_Audit := demo_audit |};
     cand_Deployment :=
       {| dep_ID := id; dep_ProviderID := "33333333-3333-4333-8333-333333333333"; dep_Code := "d";
          dep_PhysicalModel := "m"; dep_EndpointURL := "https://api.example"; dep_Region := "eu";
          dep_Capabilities := demo_caps; dep_SecretReferenceID := None; dep_Audit := demo_audit |};
     cand_Provider :=
       {| prov_ID := "33333333-3333-4333-8333-333333333333"; prov_Code := "acme"; prov_Name := "Acme";
          prov_AdapterType := "openai"; prov_Audit := demo_audit |} |}.

Definition demo_d1 : string := "44444444-4444-4444-8444-444444444444".
Definition demo_d2 : string := "55555555-5555-4555-8555-555555555555".
Definition demo_candidates : list RouteCandidate := [demo_candidate demo_d1 1 3; demo_candidate demo_d2 2 5].
Definition demo_policy : RoutePolicy := {| pol_Version := "p/v1"; pol_Mode := RouteWeighted; FixedDeploymentID := "" |}.

Lemma weighted_selection_is_proportional_witness :
  draws 8 (fun draw => selects (selectWeighted demo_candidates demo_policy draw) demo_d2) = 5.
Proof.
  refine (weighted_selection_is_proportional demo_candidates demo_policy (demo_candidate demo_d2 2 5) _ _ _).
  - split; [|vm_compute; discriminate]. unfold demo_candidates.
    rewrite !Forall_cons, Forall_nil. unfold weight_of. simpl. lia.
  - apply (bool_decide_unpack _). vm_compute. exact I.
  - right. left.
Defined.
