(* ===== verification/Retry.v ===== *)
(** * Retry classification (src/internal/retry/classifier.go)

    One fail-closed decision per failed attempt. A Go error is the tree of errors it
    wraps; [errors.Is] and [errors.As] search it in pre-order. The normalized error
    of src/internal/adapter/validate.go and the timeout failure of
    src/internal/streaming/timeout.go are the failures with fields. *)
From Stdlib Require Import ZArith Lia Bool Ascii String.
From stdpp Require Import base tactics option list strings gmap fin_maps sets.
From S2P Require Import Prelude Identifiers Unicode.
(** ** Failures *)
Inductive ErrorCategory :=
| ErrorAuth | ErrorPermission | ErrorInvalidRequest | ErrorRateLimit | ErrorCapacity | ErrorTimeout | ErrorProvider5xx
| ErrorContentPolicy | ErrorContextLength | ErrorProtocol | ErrorCancelled | ErrorUnknown | ErrorOther (value : string).

#[export] Instance ErrorCategory_eq_dec : EqDecision ErrorCategory.
Proof. solve_decision. Defined.

Record NormalizedError := {
  ne_Code : string; ne_Category : ErrorCategory; ne_Retryable : bool; ne_RetryAfter : option Duration;
  ne_ProviderStatus : Z; ne_SafeMessage : string; ne_ProviderRequestID : string }.

Inductive TimeoutKind := TimeoutFirstToken | TimeoutNoProgress | TimeoutTotal | TimeoutKindOther (value : string).

Record TimeoutFailure := {
  kind : TimeoutKind; headersReceived : bool; modelOutputStarted : bool; retryEligibleBeforeOutput : bool;
  partialFailure : bool }.

(** Sentinel errors that the classifier or the failures mention. *)
Inductive Sentinel :=
| ContextCanceled | ContextDeadlineExceeded | ErrAdapterUnavailable | UpstreamErrInvalidRequest | ProxyErrProtocol
| ProxyErrTransport | UpstreamErrTransport | UpstreamErrTimeout | ErrStreamingTimeout | ErrFirstTokenTimeout
| ErrNoProgressTimeout | ErrTotalStreamTimeout | SentinelOther (name : string).

#[export] Instance Sentinel_eq_dec : EqDecision Sentinel.
Proof. solve_decision. Defined.

(** [Wrap] is an error with its wrapped errors ([fmt.Errorf] with %w, [errors.Join]). *)
Inductive Failure :=
| Leaf (s : Sentinel)
| Timeout (t : TimeoutFailure)
| Provider (detail : NormalizedError)
| Normalized (detail : NormalizedError)
| Wrap (inner : list Failure).

(** [TimeoutFailure.Unwrap] *)
Definition TimeoutFailure_Unwrap (t : TimeoutFailure) : list Sentinel :=
  [ErrStreamingTimeout;
   match kind t with
   | TimeoutFirstToken => ErrFirstTokenTimeout | TimeoutNoProgress => ErrNoProgressTimeout
   | TimeoutTotal => ErrTotalStreamTimeout | TimeoutKindOther _ => ErrStreamingTimeout
   end;
   ContextDeadlineExceeded].

(** The errors of a tree in the order [errors.Is] and [errors.As] visit them. *)
Fixpoint chain (f : Failure) : list Failure :=
  f :: match f with
       | Wrap inner => concat (map chain inner)
       | Timeout t => map Leaf (TimeoutFailure_Unwrap t)
       | _ => []
       end.

Definition errors_Is (f : Failure) (s : Sentinel) : bool :=
  existsb (fun e => match e with Leaf x => bool_decide (x = s) | _ => false end) (chain f).

Fixpoint first_of {A : Type} (p : Failure -> option A) (l : list Failure) : option A :=
  match l with [] => None | e :: rest => match p e with Some a => Some a | None => first_of p rest end end.

Definition as_timeout (f : Failure) : option TimeoutFailure :=
  first_of (fun e => match e with Timeout t => Some t | _ => None end) (chain f).
Definition as_provider (f : Failure) : option NormalizedError :=
  first_of (fun e => match e with Provider d => Some d | _ => None end) (chain f).
Definition as_normalized (f : Failure) : option NormalizedError :=
  first_of (fun e => match e with Normalized d => Some d | _ => None end) (chain f).

(** ** Validation of a normalized error *)

(** [^[A-Z][A-Z0-9_]{0,127}$] *)
Definition errorCodePattern : string -> bool := match_head_tail upper (or_class (or_class upper digit) (one_of "_")) 0 127.
(** [^[A-Za-z0-9][A-Za-z0-9._:/-]{0,255}$] *)
Definition identifierPattern : string -> bool := match_head_tail alnum (or_class alnum (one_of "._:/-")) 0 255.

Definition validErrorCategory (category : ErrorCategory) : bool := match category with ErrorOther _ => false | _ => true end.

Definition validateSafeMessage (message : string) : bool :=
  negb (bool_decide (message = ""%string)) && Nat.leb (String.length message) 512 &&
  match decode (bytes_of message) with
  | Some rs => trimmed rs && forallb (fun r => negb (IsControl r)) rs
  | None => false
  end.

(** An identifier matches an ASCII pattern, so it is trimmed and valid UTF-8. *)
Definition validateOptionalIdentifier (value : string) (maxBytes : nat) : bool :=
  bool_decide (value = ""%string) || (Nat.leb (String.length value) maxBytes && identifierPattern value).

Definition NormalizedError_Validate (e : NormalizedError) : bool :=
  errorCodePattern (ne_Code e) && validErrorCategory (ne_Category e) &&
  negb (bool_decide (ne_Category e = ErrorUnknown) && ne_Retryable e) &&
  match ne_RetryAfter e with
  | Some after => ne_Retryable e && (0 <? after) && (after <=? 24 * hour)
  | None => true
  end &&
  ((ne_ProviderStatus e =? 0) || ((100 <=? ne_ProviderStatus e) && (ne_ProviderStatus e <=? 599))) &&
  validateSafeMessage (ne_SafeMessage e) && validateOptionalIdentifier (ne_ProviderRequestID e) 256.

(** ** Decisions *)
Inductive Action := NoRetry | RetryAllowed | DifferentDeploymentOnly | ActionOther (value : string).
Inductive Reason :=
| ReasonModelOutputStarted | ReasonCallerCancelled | ReasonCallerDeadline | ReasonAuthentication | ReasonPermission
| ReasonInvalidRequest | ReasonContextLength | ReasonContentPolicy | ReasonProviderNotRetryable | ReasonUnknownFailure
| ReasonLocalAdapter | ReasonStreamTimeoutIneligible | ReasonRateLimited | ReasonCapacity | ReasonProviderTimeout
| ReasonProviderTemporary | ReasonTransport | ReasonProtocol | ReasonFirstTokenTimeout | ReasonAttemptLimit
| ReasonCostBudget | ReasonDeadlineExhausted | ReasonRetryAfterExceeds | ReasonAttemptWindow | ReasonOther (value : string).
Inductive FailureClass :=
| FailureAuthentication | FailurePermission | FailureInvalidRequest | FailureContextLength | FailureContentPolicy
| FailureRateLimit | FailureCapacity | FailureTimeout | FailureProvider5xx | FailureProtocol | FailureTransport
| FailureCancelled | FailureLocalAdapter | FailureUnknown | FailureClassOther (value : string).
Inductive SubmissionState := NotSubmitted | Submitted | Unknown | SubmissionOther (value : string).
Inductive CostPermission := CostAllowed | CostDenied | CostOther (value : string).

#[export] Instance Action_eq_dec : EqDecision Action.
Proof. solve_decision. Defined.
#[export] Instance Reason_eq_dec : EqDecision Reason.
Proof. solve_decision. Defined.
#[export] Instance SubmissionState_eq_dec : EqDecision SubmissionState.
Proof. solve_decision. Defined.
#[export] Instance CostPermission_eq_dec : EqDecision CostPermission.
Proof. solve_decision. Defined.

Definition policyVersion : string := "retry-classifier/v1".
Definition maximumAttempts : Z := 32.
Definition maximumRetryBudget : Duration := 24 * hour.
Definition maximumAttemptWindow : Duration := 10 * minute.

(** A nil [Failure] is [None]. *)
Record Input := {
  in_Failure : option Failure; in_ModelOutputStarted : bool; in_Submission : SubmissionState; in_AttemptNumber : Z;
  in_MaximumAttempts : Z; in_Now : Time; in_Deadline : Time; in_MinimumAttemptWindow : Duration;
  in_AdditionalCost : CostPermission }.

Record Decision := {
  d_PolicyVersion : string; d_Action : Action; d_Reason : Reason; d_FailureClass : FailureClass;
  d_Submission : SubmissionState; d_AttemptNumber : Z; d_MaximumAttempts : Z; d_RemainingBudgetMS : Z;
  d_RequiredDelayMS : Z; d_ModelOutputStarted : bool }.

Definition validAction (action : Action) : bool := match action with ActionOther _ => false | _ => true end.
Definition validReason (reason : Reason) : bool := match reason with ReasonOther _ => false | _ => true end.
Definition validFailureClass (class : FailureClass) : bool := match class with FailureClassOther _ => false | _ => true end.
Definition validSubmission (s : SubmissionState) : bool := match s with SubmissionOther _ => false | _ => true end.

Definition Decision_Validate (d : Decision) : bool :=
  bool_decide (d_PolicyVersion d = policyVersion) && validAction (d_Action d) && validReason (d_Reason d) &&
  validFailureClass (d_FailureClass d) && validSubmission (d_Submission d) && (1 <=? d_AttemptNumber d) &&
  (1 <=? d_MaximumAttempts d) && (d_MaximumAttempts d <=? maximumAttempts) &&
  (d_AttemptNumber d <=? d_MaximumAttempts d) && (0 <=? d_RemainingBudgetMS d) && (0 <=? d_RequiredDelayMS d) &&
  negb (d_ModelOutputStarted d && negb (bool_decide (d_Action d = NoRetry))).

Record candidate := {
  c_action : Action; c_reason : Reason; c_failureClass : FailureClass; c_retryAfter : Duration;
  c_submissionSensitive : bool }.

Definition noRetry (reason : Reason) (class : FailureClass) : candidate :=
  {| c_action := NoRetry; c_reason := reason; c_failureClass := class; c_retryAfter := 0; c_submissionSensitive := false |}.

Definition mk (action : Action) (reason : Reason) (class : FailureClass) (after : Duration) (sensitive : bool) : candidate :=
  {| c_action := action; c_reason := reason; c_failureClass := class; c_retryAfter := after; c_submissionSensitive := sensitive |}.

Definition classifyNormalized (failure : NormalizedError) : candidate :=
  let retryAfter := default 0 (ne_RetryAfter failure) in
  match ne_Category failure with
  | ErrorAuth => noRetry ReasonAuthentication FailureAuthentication
  | ErrorPermission => noRetry ReasonPermission FailurePermission
  | ErrorInvalidRequest => noRetry ReasonInvalidRequest FailureInvalidRequest
  | ErrorContextLength => noRetry ReasonContextLength FailureContextLength
  | ErrorContentPolicy => noRetry ReasonContentPolicy FailureContentPolicy
  | ErrorCancelled => noRetry ReasonCallerCancelled FailureCancelled
  | ErrorUnknown => noRetry ReasonUnknownFailure FailureUnknown
  | ErrorProtocol => mk DifferentDeploymentOnly ReasonProtocol FailureProtocol retryAfter false
  | ErrorRateLimit =>
      if ne_Retryable failure then mk RetryAllowed ReasonRateLimited FailureRateLimit retryAfter false
      else noRetry ReasonProviderNotRetryable FailureRateLimit
  | ErrorCapacity =>
      if ne_Retryable failure then mk RetryAllowed ReasonCapacity FailureCapacity retryAfter false
      else noRetry ReasonProviderNotRetryable FailureCapacity
  | ErrorTimeout =>
      if ne_Retryable failure then mk RetryAllowed ReasonProviderTimeout FailureTimeout retryAfter true
      else noRetry ReasonProviderNotRetryable FailureTimeout
  | ErrorProvider5xx =>
      if ne_Retryable failure then mk RetryAllowed ReasonProviderTemporary FailureProvider5xx retryAfter true
      else noRetry ReasonProviderNotRetryable FailureProvider5xx
  | ErrorOther _ => noRetry ReasonUnknownFailure FailureUnknown
  end.

(** The tail of [classifyFailure], after the typed failures. *)
Definition classifySentinels (failure : Failure) : candidate :=
  if errors_Is failure ErrAdapterUnavailable || errors_Is failure UpstreamErrInvalidRequest
  then noRetry ReasonLocalAdapter FailureLocalAdapter
  else if errors_Is failure ProxyErrProtocol then mk DifferentDeploymentOnly ReasonProtocol FailureProtocol 0 false
  else if errors_Is failure ProxyErrTransport || errors_Is failure UpstreamErrTransport || errors_Is failure UpstreamErrTimeout
  then mk RetryAllowed ReasonTransport FailureTransport 0 true
  else noRetry ReasonUnknownFailure FailureUnknown.

Definition classifyFailure (failure : Failure) : candidate :=
  match as_timeout failure with
  | Some t =>
      if retryEligibleBeforeOutput t then mk DifferentDeploymentOnly ReasonFirstTokenTimeout FailureTimeout 0 false
      else noRetry ReasonStreamTimeoutIneligible FailureTimeout
  | None =>
  if errors_Is failure ContextCanceled then noRetry ReasonCallerCancelled FailureCancelled
  else if errors_Is failure ContextDeadlineExceeded then noRetry ReasonCallerDeadline FailureCancelled
  else match as_provider failure with
  | Some detail => classifyNormalized detail
  | None =>
  match as_normalized failure with
  | Some detail => if NormalizedError_Validate detail then classifyNormalized detail else classifySentinels failure
  | None => classifySentinels failure
  end end end.

Definition durationMillisecondsCeil (value : Duration) : Z :=
  if value <=? 0 then 0 else Z.quot (i64 (value + millisecond - 1)) millisecond.

Definition validateInput (input : Input) : option Failure :=
  match in_Failure input with
  | None => None
  | Some failure =>
      if (1 <=? in_AttemptNumber input) && (1 <=? in_MaximumAttempts input) &&
         (in_MaximumAttempts input <=? maximumAttempts) && (in_AttemptNumber input <=? in_MaximumAttempts input) &&
         validSubmission (in_Submission input) &&
         match in_AdditionalCost input with CostOther _ => false | _ => true end &&
         negb (time_is_zero (in_Now input)) && negb (time_is_zero (in_Deadline input)) &&
         (time_sub (in_Deadline input) (in_Now input) <=? maximumRetryBudget) &&
         (0 <? in_MinimumAttemptWindow input) && (in_MinimumAttemptWindow input <=? maximumAttemptWindow)
      then Some failure else None
  end.

(** [None] is [ErrInvalid]. *)
Definition Classify (input : Input) : option Decision :=
  match validateInput input with
  | None => None
  | Some failure =>
      let c := classifyFailure failure in
      let remaining := time_sub (in_Deadline input) (in_Now input) in
      let started := in_ModelOutputStarted input ||
        match as_timeout failure with Some t => modelOutputStarted t | None => false end in
      let decision (action : Action) (reason : Reason) :=
        {| d_PolicyVersion := policyVersion; d_Action := action; d_Reason := reason; d_FailureClass := c_failureClass c;
           d_Submission := in_Submission input; d_AttemptNumber := in_AttemptNumber input;
           d_MaximumAttempts := in_MaximumAttempts input; d_RemainingBudgetMS := durationMillisecondsCeil remaining;
           d_RequiredDelayMS := durationMillisecondsCeil (c_retryAfter c); d_ModelOutputStarted := started |} in
      Some
        (if started then decision NoRetry ReasonModelOutputStarted
         else if bool_decide (c_action c = NoRetry) then decision (c_action c) (c_reason c)
         else if in_MaximumAttempts input <=? in_AttemptNumber input then decision NoRetry ReasonAttemptLimit
         else if negb (bool_decide (in_AdditionalCost input = CostAllowed)) then decision NoRetry ReasonCostBudget
         else if remaining <=? 0 then decision NoRetry ReasonDeadlineExhausted
         else if remaining <=? in_MinimumAttemptWindow input then decision NoRetry ReasonAttemptWindow
         else if remaining - in_MinimumAttemptWindow input <? c_retryAfter c then decision NoRetry ReasonRetryAfterExceeds
         else if c_submissionSensitive c && negb (bool_decide (in_Submission input = NotSubmitted))
         then decision DifferentDeploymentOnly (c_reason c)
         else decision (c_action c) (c_reason c))
  end.

(** ** Theorems *)
Definition remaining (input : Input) : Duration := time_sub (in_Deadline input) (in_Now input).

Definition output_started (input : Input) (failure : Failure) : bool :=
  in_ModelOutputStarted input || match as_timeout failure with Some t => modelOutputStarted t | None => false end.

(** What must hold for another attempt. *)
Record may_retry (input : Input) (failure : Failure) : Prop := {
  may_output : output_started input failure = false;
  may_class : c_action (classifyFailure failure) <> NoRetry;
  may_attempt : in_AttemptNumber input < in_MaximumAttempts input;
  may_cost : in_AdditionalCost input = CostAllowed;
  may_window : in_MinimumAttemptWindow input < remaining input;
  may_delay : c_retryAfter (classifyFailure failure) + in_MinimumAttemptWindow input <= remaining input }.

Lemma validateInput_Some input failure :
  validateInput input = Some failure ->
  in_Failure input = Some failure /\ 1 <= in_AttemptNumber input <= in_MaximumAttempts input /\
  in_MaximumAttempts input <= maximumAttempts /\ validSubmission (in_Submission input) = true /\
  0 < in_MinimumAttemptWindow input /\ remaining input <= maximumRetryBudget.
Proof.
  unfold validateInput. destruct (in_Failure input) as [f|]; [|done]. destruct (_ && _) eqn:E; [|done]. intros [= ->].
  prop_hyps. unfold remaining. split_and!; auto; lia.
Qed.

(** [Classify] allows another attempt exactly when no model output was started,
    the failure is of a retryable class, attempts and the cost permission remain, and
    the provider's delay plus the minimum attempt window fit before the deadline; it
    allows the same deployment only if the request was certainly not submitted or the
    class does not depend on it. *)
Theorem retry_exactly_within_bounds input d :
  Classify input = Some d ->
  exists failure, in_Failure input = Some failure /\ (d_Action d <> NoRetry <-> may_retry input failure) /\
    (d_Action d = RetryAllowed -> c_submissionSensitive (classifyFailure failure) = true -> in_Submission input = NotSubmitted).
Proof.
  unfold Classify. destruct (validateInput input) as [failure|] eqn:Ev; [|done].
  apply validateInput_Some in Ev as (Hf & Ha & Hm & Hs & Hw & Hr). intros [= <-]. exists failure. split; [done|].
  fold (remaining input). fold (output_started input failure).
  destruct (output_started input failure) eqn:Eo; [split; [split; [done|intros []; congruence]|done]|].
  destruct (bool_decide _) eqn:Ec; prop_hyps; [simpl; rewrite Ec; split; [split; [done|intros []; congruence]|done]|].
  repeat match goal with
  | |- context [if ?t then _ else _] =>
      match t with
      | context [c_submissionSensitive] => fail 1
      | _ => destruct t eqn:?; prop_hyps; [split; [split; [done|intros []; first [lia|congruence]]|done]|]
      end
  end.
  destruct (c_submissionSensitive _ && _) eqn:Es; simpl; (split; [split; [intros _; split; auto; lia|done]|]).
  - done.
  - intros _ Hsens. rewrite Hsens in Es. simpl in Es. by prop_hyps.
Qed.

Definition provider_details_valid (failure : Failure) : Prop :=
  forall d, as_provider failure = Some d -> NormalizedError_Validate d = true.

Lemma classifyNormalized_ok n :
  NormalizedError_Validate n = true ->
  let c := classifyNormalized n in
  validAction (c_action c) = true /\ validReason (c_reason c) = true /\ validFailureClass (c_failureClass c) = true /\
  0 <= c_retryAfter c <= 24 * hour.
Proof.
  intros Hv. assert (0 <= default 0 (ne_RetryAfter n) <= 24 * hour).
  { unfold NormalizedError_Validate in Hv. prop_hyps. destruct (ne_RetryAfter n); simpl; prop_hyps; unfold hour in *; lia. }
  unfold classifyNormalized. destruct (ne_Category n); simpl; try destruct (ne_Retryable n); simpl; unfold hour in *; split_and!; try done; lia.
Qed.

Lemma classifyFailure_ok failure :
  provider_details_valid failure ->
  let c := classifyFailure failure in
  validAction (c_action c) = true /\ validReason (c_reason c) = true /\ validFailureClass (c_failureClass c) = true /\
  0 <= c_retryAfter c <= 24 * hour.
Proof.
  intros Hp. assert (Hs : let c := classifySentinels failure in
    validAction (c_action c) = true /\ validReason (c_reason c) = true /\ validFailureClass (c_failureClass c) = true /\
    0 <= c_retryAfter c <= 24 * hour).
  { unfold classifySentinels. repeat case_match; simpl; unfold hour; split_and!; try done; lia. }
  unfold classifyFailure. destruct (as_timeout failure) as [t|].
  { destruct (retryEligibleBeforeOutput t); simpl; unfold hour; split_and!; try done; lia. }
  destruct (errors_Is failure ContextCanceled); [simpl; unfold hour; split_and!; try done; lia|].
  destruct (errors_Is failure ContextDeadlineExceeded); [simpl; unfold hour; split_and!; try done; lia|].
  destruct (as_provider failure) as [n|] eqn:Ep; [by apply classifyNormalized_ok, Hp|].
  destruct (as_normalized failure) as [n|]; [|done]. destruct (NormalizedError_Validate n) eqn:Ev; [|done].
  by apply classifyNormalized_ok.
Qed.

Lemma ceil_bounds value :
  value <= i64_max - millisecond -> 0 <= durationMillisecondsCeil value /\
  value <= durationMillisecondsCeil value * millisecond /\
  (0 < value -> durationMillisecondsCeil value * millisecond < value + millisecond).
Proof.
  intros Hv. unfold durationMillisecondsCeil. destruct (value <=? 0) eqn:E; prop_hyps; [lia|].
  unfold millisecond in *. rewrite i64_small by (unfold i64_min, i64_max in *; lia).
  rewrite Z.quot_div_nonneg by lia. pose proof (Z.div_mod (value + 1000000 - 1) 1000000).
  pose proof (Z.mod_pos_bound (value + 1000000 - 1) 1000000). lia.
Qed.

(** Every decision [Classify] returns passes the validation applied before it is
    persisted, for failures whose provider details were accepted by
    [NewProviderError]. *)
Theorem Classify_decisions_validate input d failure :
  Classify input = Some d -> in_Failure input = Some failure -> provider_details_valid failure -> Decision_Validate d = true.
Proof.
  unfold Classify. destruct (validateInput input) as [f|] eqn:Ev; [|done].
  apply validateInput_Some in Ev as (Hf & Ha & Hm & Hs & Hw & Hr). rewrite Hf. intros Hd [= ->] Hp.
  destruct (classifyFailure_ok failure Hp) as (H1 & H2 & H3 & H4).
  destruct (ceil_bounds (remaining input)) as (H5 & _); [unfold maximumRetryBudget, i64_max, millisecond, hour in *; lia|].
  destruct (ceil_bounds (c_retryAfter (classifyFailure failure))) as (H6 & _); [unfold i64_max, millisecond, hour in *; lia|].
  injection Hd as <-. unfold Decision_Validate. fold (remaining input). fold (output_started input failure).
  assert (Hgen : forall action reason, validAction action = true -> validReason reason = true ->
    (output_started input failure = true -> action = NoRetry) -> Decision_Validate
      {| d_PolicyVersion := policyVersion; d_Action := action; d_Reason := reason;
         d_FailureClass := c_failureClass (classifyFailure failure); d_Submission := in_Submission input;
         d_AttemptNumber := in_AttemptNumber input; d_MaximumAttempts := in_MaximumAttempts input;
         d_RemainingBudgetMS := durationMillisecondsCeil (remaining input);
         d_RequiredDelayMS := durationMillisecondsCeil (c_retryAfter (classifyFailure failure));
         d_ModelOutputStarted := output_started input failure |} = true).
  { intros action reason Hact Hreas Hno. unfold Decision_Validate. simpl. prop_goal; try done; try lia.
    destruct (output_started input failure); [|done]. rewrite Hno by done. done. }
  destruct (output_started input failure) eqn:Eo; [by apply Hgen|].
  repeat (case_match; [by apply Hgen|]). by apply Hgen.
Qed.

(** The remaining budget of a decision is rounded up: it is never below the real
    allowance and exceeds it whenever that is not a whole number of milliseconds. *)
Theorem remaining_budget_is_rounded_up input d :
  Classify input = Some d -> 0 < remaining input ->
  remaining input <= d_RemainingBudgetMS d * millisecond < remaining input + millisecond /\
  (remaining input mod millisecond <> 0 -> remaining input < d_RemainingBudgetMS d * millisecond).
Proof.
  unfold Classify. destruct (validateInput input) as [f|] eqn:Ev; [|done].
  apply validateInput_Some in Ev as (_ & _ & _ & _ & _ & Hr). intros [= <-] Hpos. fold (remaining input).
  destruct (ceil_bounds (remaining input)) as (H5 & H6 & H7); [unfold maximumRetryBudget, i64_max, millisecond, hour in *; lia|].
  assert (Heq : forall x : Decision, d_RemainingBudgetMS x = durationMillisecondsCeil (remaining input) ->
    remaining input <= d_RemainingBudgetMS x * millisecond < remaining input + millisecond /\
    (remaining input mod millisecond <> 0 -> remaining input < d_RemainingBudgetMS x * millisecond)).
  { intros x ->. split; [lia|]. intros Hmod. destruct (decide (remaining input = durationMillisecondsCeil (remaining input) * millisecond)) as [He|]; [|lia].
    exfalso. apply Hmod. rewrite He. apply Z.mod_mul. done. }
  apply Heq. by repeat case_match.
Qed.

(** ** Concrete instances *)
Definition demo_failure : Failure :=
  Wrap [Leaf ProxyErrTransport; Leaf UpstreamErrTimeout].
Definition demo_input : Input :=
  {| in_Failure := Some demo_failure; in_ModelOutputStarted := false; in_Submission := NotSubmitted; in_AttemptNumber := 1;
     in_MaximumAttempts := 3; in_Now := 1000; in_Deadline := 1000 + 2 * second + 1; in_MinimumAttemptWindow := second;
     in_AdditionalCost := CostAllowed |}.
Definition demo_decision : Decision :=
  {| d_PolicyVersion := policyVersion; d_Action := RetryAllowed; d_Reason := ReasonTransport;
     d_FailureClass := FailureTransport; d_Submission := NotSubmitted; d_AttemptNumber := 1; d_MaximumAttempts := 3;
     d_RemainingBudgetMS := 2001; d_RequiredDelayMS := 0; d_ModelOutputStarted := false |}.

Lemma demo_classified : Classify demo_input = Some demo_decision.
Proof. vm_compute. reflexivity. Qed.

Lemma retry_exactly_within_bounds_witness : may_retry demo_input demo_failure.
Proof.
  destruct (retry_exactly_within_bounds _ _ demo_classified) as (f & Hf & Hiff & _). injection Hf as <-.
  apply Hiff. discriminate.
Defined.

Lemma Classify_decisions_validate_witness : Decision_Validate demo_decision = true.
Proof. apply (Classify_decisions_validate _ _ demo_failure demo_classified eq_refl). intros d. discriminate. Defined.

Lemma remaining_budget_is_rounded_up_witness : remaining demo_input < 2001 * millisecond.
Proof.
  apply (proj2 (remaining_budget_is_rounded_up _ _ demo_classified ltac:(vm_compute; reflexivity))).
  vm_compute. discriminate.
Defined.
