(* ===== verification/Metering.v ===== *)
(** * Metering (src/internal/metering/{price,taxonomy,event}.go)

    Price versions and exact ceiling pricing, the finite usage taxonomy, and the
    usage events derived from one attempt's normalized usage (validated as in
    src/internal/adapter/validate.go). [math/big] integers are [Z]. *)
From Stdlib Require Import ZArith Lia Bool Ascii String.
From stdpp Require Import base tactics option list strings gmap fin_maps sets.
From S2P Require Import Prelude Identifiers Unicode Catalog Retry.
(** ** Taxonomy *)
Inductive TokenType :=
| TokenTypeInput | TokenTypeOutput | TokenTypeCacheRead | TokenTypeCacheWrite | TokenTypeReasoning | TokenTypeAudioInput
| TokenTypeAudioOutput | TokenTypeImageInput | TokenTypeImageOutput | TokenTypeOther (value : string).
Inductive Source := SourceProvider | SourceEstimated | SourceReconciled | SourceAdjustment | SourceOther (value : string).
Inductive BillingUnit := BillingUnitToken | BillingUnitImage | BillingUnitSecond | BillingUnitOther (value : string).

#[export] Instance TokenType_eq_dec : EqDecision TokenType.
Proof. solve_decision. Defined.
#[export] Instance Source_eq_dec : EqDecision Source.
Proof. solve_decision. Defined.
#[export] Instance BillingUnit_eq_dec : EqDecision BillingUnit.
Proof. solve_decision. Defined.

Definition TokenTypes : list TokenType :=
  [TokenTypeInput; TokenTypeOutput; TokenTypeCacheRead; TokenTypeCacheWrite; TokenTypeReasoning; TokenTypeAudioInput;
   TokenTypeAudioOutput; TokenTypeImageInput; TokenTypeImageOutput].
Definition Sources : list Source := [SourceProvider; SourceEstimated; SourceReconciled; SourceAdjustment].

Definition TokenType_Valid (t : TokenType) : bool := existsb (fun c => bool_decide (t = c)) TokenTypes.
Definition ValidSource (s : Source) : bool := existsb (fun c => bool_decide (s = c)) Sources.

(** The Go conversion [TokenType(value)] of a string, and the string of a type. *)
Definition TokenType_string (t : TokenType) : string :=
  match t with
  | TokenTypeInput => "input" | TokenTypeOutput => "output" | TokenTypeCacheRead => "cache_read"
  | TokenTypeCacheWrite => "cache_write" | TokenTypeReasoning => "reasoning" | TokenTypeAudioInput => "audio_input"
  | TokenTypeAudioOutput => "audio_output" | TokenTypeImageInput => "image_input" | TokenTypeImageOutput => "image_output"
  | TokenTypeOther s => s
  end.
Definition to_TokenType (value : string) : TokenType :=
  match find (fun t => bool_decide (TokenType_string t = value)) TokenTypes with Some t => t | None => TokenTypeOther value end.

Definition ParseTokenType (value : string) : option TokenType :=
  let t := to_TokenType value in if TokenType_Valid t then Some t else None.

Definition Source_string (s : Source) : string :=
  match s with
  | SourceProvider => "provider" | SourceEstimated => "estimated" | SourceReconciled => "reconciled"
  | SourceAdjustment => "adjustment" | SourceOther v => v
  end.
Definition to_Source (value : string) : Source :=
  match find (fun s => bool_decide (Source_string s = value)) Sources with Some s => s | None => SourceOther value end.
Definition ParseSource (value : string) : option Source :=
  let s := to_Source value in if ValidSource s then Some s else None.

(** ** Prices *)
Definition MaximumExactInteger : Z := 9007199254740991.

Inductive price_error := ErrInvalidPriceVersion | ErrPriceNotEffective | ErrPriceRateNotFound | ErrAmountOverflow.
Inductive PriceStatus := PriceStatusDraft | PriceStatusPublished | PriceStatusOther (value : string).

#[export] Instance PriceStatus_eq_dec : EqDecision PriceStatus.
Proof. solve_decision. Defined.

Record PriceRate := { rate_TokenType : TokenType; rate_BillingUnit : BillingUnit; UnitQuantity : Z; UnitPriceMicros : Z }.

Definition validBillingUnit (t : TokenType) (u : BillingUnit) : bool :=
  match t with
  | TokenTypeInput | TokenTypeOutput | TokenTypeCacheRead | TokenTypeCacheWrite | TokenTypeReasoning =>
      bool_decide (u = BillingUnitToken)
  | TokenTypeAudioInput | TokenTypeAudioOutput => bool_decide (u = BillingUnitToken) || bool_decide (u = BillingUnitSecond)
  | TokenTypeImageInput | TokenTypeImageOutput => bool_decide (u = BillingUnitToken) || bool_decide (u = BillingUnitImage)
  | TokenTypeOther _ => false
  end.

Definition PriceRate_Validate (rate : PriceRate) : bool :=
  TokenType_Valid (rate_TokenType rate) && (1 <=? UnitQuantity rate) && (UnitQuantity rate <=? MaximumExactInteger) &&
  (0 <=? UnitPriceMicros rate) && (UnitPriceMicros rate <=? MaximumExactInteger) &&
  validBillingUnit (rate_TokenType rate) (rate_BillingUnit rate).

Definition CalculateAmountMicros (quantity : Z) (rate : PriceRate) : result Z price_error :=
  ensure ((1 <=? quantity) && (quantity <=? MaximumExactInteger) && PriceRate_Validate rate) else ErrInvalidPriceVersion in
  if UnitPriceMicros rate =? 0 then Ok 0
  else
    let numerator := quantity * UnitPriceMicros rate in
    let amount := Z.quot numerator (UnitQuantity rate) in
    let remainder := Z.rem numerator (UnitQuantity rate) in
    let amount := if negb (remainder =? 0) then amount + 1 else amount in
    ensure ((i64_min <=? amount) && (amount <=? i64_max) && (amount <=? MaximumExactInteger)) else ErrAmountOverflow in
    Ok amount.

Record PriceVersion := {
  pv_ID : string; pv_DeploymentID : string; pv_Region : string; pv_Currency : string; pv_EffectiveAt : Time;
  pv_Status : PriceStatus; pv_Rates : list PriceRate; pv_Version : Z; pv_CreatedAt : Time; pv_CreatedBy : string;
  pv_UpdatedAt : Time; pv_UpdatedBy : string; pv_PublishedAt : option Time }.

Definition validPriceActor (actor : string) : bool :=
  Nat.leb 1 (String.length actor) && Nat.leb (String.length actor) 200 && trimmed (runes (bytes_of actor)).

Definition PriceVersion_Validate (p : PriceVersion) : bool :=
  uuidPattern (pv_ID p) && uuidPattern (pv_DeploymentID p) && regionPattern (pv_Region p) && currencyPattern (pv_Currency p) &&
  negb (time_is_zero (pv_EffectiveAt p)) && negb (time_is_zero (pv_CreatedAt p)) &&
  negb (time_before (pv_UpdatedAt p) (pv_CreatedAt p)) && validPriceActor (pv_CreatedBy p) && validPriceActor (pv_UpdatedBy p) &&
  Nat.leb 1 (length (pv_Rates p)) && Nat.leb (length (pv_Rates p)) (length TokenTypes) &&
  match pv_Status p with
  | PriceStatusDraft => (pv_Version p =? 1) && bool_decide (pv_PublishedAt p = None)
  | PriceStatusPublished =>
      (pv_Version p =? 2) &&
      match pv_PublishedAt p with
      | None => false
      | Some at_ => negb (time_before at_ (pv_CreatedAt p)) && negb (time_before (pv_UpdatedAt p) at_)
      end
  | PriceStatusOther _ => false
  end &&
  forallb PriceRate_Validate (pv_Rates p) && distinct (rate_TokenType <$> pv_Rates p) [].

Definition RateAt (p : PriceVersion) (t : TokenType) (observedAt : Time) : result PriceRate price_error :=
  ensure (PriceVersion_Validate p) else ErrInvalidPriceVersion in
  ensure (bool_decide (pv_Status p = PriceStatusPublished) && negb (time_is_zero observedAt) &&
          negb (time_before observedAt (pv_EffectiveAt p))) else ErrPriceNotEffective in
  match find (fun r => bool_decide (rate_TokenType r = t)) (pv_Rates p) with
  | Some r => Ok r
  | None => Err ErrPriceRateNotFound
  end.

(** ** Normalized usage *)
Record TokenCount := { tc_Value : Z; tc_Present : bool }.

Record UsageEstimateMetadata := {
  est_Estimated : bool; est_Tokenizer : string; est_TokenizerVersion : string; est_PhysicalModel : string;
  est_DeploymentVersion : Z; est_ProviderProtocolVersion : string }.

(** [RawEvidence] by the number of bytes it holds. *)
Record NormalizedUsage := {
  u_InputTokens : TokenCount; u_OutputTokens : TokenCount; u_CacheReadTokens : TokenCount; u_CacheWriteTokens : TokenCount;
  u_ReasoningTokens : TokenCount; u_AudioInputTokens : TokenCount; u_AudioOutputTokens : TokenCount;
  u_Source : Source; u_Complete : bool; u_Estimate : option UsageEstimateMetadata; u_EvidenceBytes : Z;
  u_UnmappedFields : list string }.

Definition dimensions (u : NormalizedUsage) : list (TokenType * TokenCount) :=
  [(TokenTypeInput, u_InputTokens u); (TokenTypeOutput, u_OutputTokens u); (TokenTypeCacheRead, u_CacheReadTokens u);
   (TokenTypeCacheWrite, u_CacheWriteTokens u); (TokenTypeReasoning, u_ReasoningTokens u);
   (TokenTypeAudioInput, u_AudioInputTokens u); (TokenTypeAudioOutput, u_AudioOutputTokens u)].

(** [^[a-z][a-z0-9._:-]{0,127}$] *)
Definition labelPattern : string -> bool := match_head_tail lower (or_class lower_digit (one_of "._:-")) 0 127.

Definition validateIdentifier (value : string) (maxBytes : nat) : bool :=
  Nat.leb (String.length value) maxBytes && identifierPattern value.

Definition UsageEstimateMetadata_Validate (m : UsageEstimateMetadata) : bool :=
  est_Estimated m && labelPattern (est_Tokenizer m) && labelPattern (est_TokenizerVersion m) &&
  validateIdentifier (est_PhysicalModel m) 200 && (1 <=? est_DeploymentVersion m) &&
  validateIdentifier (est_ProviderProtocolVersion m) 64.

Definition unmapped_ok (field : string) : bool :=
  trimmed (runes (bytes_of field)) && String.prefix "/" field && Nat.leb (String.length field) 256 &&
  forallb (fun r => negb (IsControl r)) (runes (bytes_of field)).

(** Each field is checked and must be greater than its predecessor. *)
Fixpoint unmapped_sorted (previous : option string) (fields : list string) : bool :=
  match fields with
  | [] => true
  | f :: rest =>
      unmapped_ok f && match previous with Some p => String.ltb p f | None => true end && unmapped_sorted (Some f) rest
  end.

Definition NormalizedUsage_Validate (u : NormalizedUsage) : bool :=
  ValidSource (u_Source u) &&
  forallb (fun d => negb (negb (tc_Present d.2) && negb (tc_Value d.2 =? 0)) &&
                    negb (tc_Present d.2 && (tc_Value d.2 <? 0) && negb (bool_decide (u_Source u = SourceAdjustment)))) (dimensions u) &&
  negb ((bool_decide (u_Source u = SourceProvider) || bool_decide (u_Source u = SourceReconciled)) && negb (0 <? u_EvidenceBytes u)) &&
  Nat.leb (length (u_UnmappedFields u)) 256 &&
  negb (negb (Nat.eqb (length (u_UnmappedFields u)) 0) && negb (0 <? u_EvidenceBytes u)) &&
  unmapped_sorted None (u_UnmappedFields u) &&
  (if bool_decide (u_Source u = SourceEstimated)
   then match u_Estimate u with Some m => UsageEstimateMetadata_Validate m | None => false end
   else negb (bool_decide (is_Some (u_Estimate u)))).

(** ** Usage events *)
Inductive event_error := ErrInvalidUsageEvent | ErrUsageEventID.
Inductive UsageEventKind := UsageEventObserved | UsageEventEstimated | UsageEventOther (value : string).

#[export] Instance UsageEventKind_eq_dec : EqDecision UsageEventKind.
Proof. solve_decision. Defined.

Record UsageIdentity := {
  ui_TenantID : string; ui_RequestID : string; ui_AttemptID : string; ui_DeploymentID : string; ui_TraceID : string;
  ui_SpanID : string; ui_ObservedAt : Time }.

Record UsageEvent := {
  ue_EventID : string; ue_SchemaVersion : Z; ue_Kind : UsageEventKind; ue_Identity : UsageIdentity;
  ue_TokenType : TokenType; ue_BillingUnit : BillingUnit; ue_Quantity : Z; ue_Source : Source;
  ue_UsageComplete : bool; ue_Estimate : option UsageEstimateMetadata }.

Definition UsageEventSchemaVersionV1 : Z := 1.
Definition UsageEventSchemaVersion : Z := 2.

Definition eventTraceIDPattern : string -> bool := match_classes (replicate 32 hex).
Definition eventSpanIDPattern : string -> bool := match_classes (replicate 16 hex).

Definition validateUsageIdentity (i : UsageIdentity) : bool :=
  uuidPattern (ui_TenantID i) && requestIDPattern (ui_RequestID i) && uuidPattern (ui_AttemptID i) &&
  uuidPattern (ui_DeploymentID i) && eventTraceIDPattern (ui_TraceID i) && eventSpanIDPattern (ui_SpanID i) &&
  negb (time_is_zero (ui_ObservedAt i)).

Definition gatewayUsageKind (s : Source) : option UsageEventKind :=
  match s with
  | SourceProvider => Some UsageEventObserved
  | SourceEstimated => Some UsageEventEstimated
  | SourceReconciled | SourceAdjustment | SourceOther _ => None
  end.

Definition UsageEvent_Validate (e : UsageEvent) : bool :=
  ((ue_SchemaVersion e =? UsageEventSchemaVersionV1) || (ue_SchemaVersion e =? UsageEventSchemaVersion)) &&
  uuidPattern (ue_EventID e) && validateUsageIdentity (ue_Identity e) && TokenType_Valid (ue_TokenType e) &&
  bool_decide (ue_BillingUnit e = BillingUnitToken) && (1 <=? ue_Quantity e) && (ue_Quantity e <=? MaximumExactInteger) &&
  bool_decide (gatewayUsageKind (ue_Source e) = Some (ue_Kind e)) &&
  (if ue_SchemaVersion e =? UsageEventSchemaVersionV1 then negb (bool_decide (is_Some (ue_Estimate e)))
   else if bool_decide (ue_Source e = SourceEstimated)
   then match ue_Estimate e with Some m => UsageEstimateMetadata_Validate m | None => false end
   else negb (bool_decide (is_Some (ue_Estimate e)))).

(** The loop over the dimensions; [ids n] is the outcome of the [n]-th call of the
    event identity factory, [None] its failure. *)
Fixpoint events_loop (identity : UsageIdentity) (u : NormalizedUsage) (kind : UsageEventKind) (ids : nat -> option string)
    (n : nat) (ds : list (TokenType * TokenCount)) : result (list UsageEvent) event_error :=
  match ds with
  | [] => Ok []
  | (t, count) :: rest =>
      if negb (tc_Present count) || (tc_Value count =? 0) then events_loop identity u kind ids n rest
      else if (tc_Value count <? 0) || (MaximumExactInteger <? tc_Value count) then Err ErrInvalidUsageEvent
      else match ids n with
      | None => Err ErrUsageEventID
      | Some eventID =>
          let event :=
            {| ue_EventID := eventID; ue_SchemaVersion := UsageEventSchemaVersion; ue_Kind := kind; ue_Identity := identity;
               ue_TokenType := t; ue_BillingUnit := BillingUnitToken; ue_Quantity := tc_Value count; ue_Source := u_Source u;
               ue_UsageComplete := u_Complete u; ue_Estimate := u_Estimate u |} in
          ensure (UsageEvent_Validate event) else ErrInvalidUsageEvent in
          let? events := events_loop identity u kind ids (S n) rest in
          Ok (event :: events)
      end
  end.

Definition NewUsageEvents (identity : UsageIdentity) (usage : option NormalizedUsage) (newEventID : option (nat -> option string))
    : result (list UsageEvent) event_error :=
  match usage with
  | None => Ok []
  | Some u =>
      match newEventID with
      | Some ids =>
          ensure (validateUsageIdentity identity && NormalizedUsage_Validate u) else ErrInvalidUsageEvent in
          match gatewayUsageKind (u_Source u) with
          | None => Err ErrInvalidUsageEvent
          | Some kind => events_loop identity u kind ids 0 (dimensions u)
          end
      | None => Err ErrInvalidUsageEvent
      end
  end.

(** ** Theorems *)
Lemma calculate_cases quantity rate :
  1 <= quantity <= MaximumExactInteger -> PriceRate_Validate rate = true ->
  let n := quantity * UnitPriceMicros rate in
  let c := (n + UnitQuantity rate - 1) / UnitQuantity rate in
  CalculateAmountMicros quantity rate = if c <=? MaximumExactInteger then Ok c else Err ErrAmountOverflow.
Proof.
  intros Hq Hv n c. unfold CalculateAmountMicros. rewrite (proj2 (Z.leb_le _ _)), (proj2 (Z.leb_le _ _)), Hv by lia. simpl.
  unfold PriceRate_Validate in Hv. prop_hyps. set (unit := UnitQuantity rate) in *. set (price := UnitPriceMicros rate) in *.
  destruct (price =? 0) eqn:Ez; prop_hyps.
  - assert (c = 0) as ->; [|done]. subst c n. rewrite Ez, Z.mul_0_r. apply Z.div_small. lia.
  - assert (Hn : 0 < n) by (subst n; nia). rewrite Z.quot_div_nonneg, Z.rem_mod_nonneg by lia. fold n.
    assert (Hc : (if negb (n mod unit =? 0) then n / unit + 1 else n / unit) = c).
    { pose proof (Z.div_mod n unit ltac:(lia)) as Hdm. pose proof (Z.mod_pos_bound n unit ltac:(lia)) as Hb. subst c.
      destruct (n mod unit =? 0) eqn:Em; prop_hyps; simpl; eapply Z.div_unique with (r := if n mod unit =? 0 then unit - 1 else n mod unit - 1).
      - left. rewrite Em. simpl. lia.
      - rewrite Em in *. simpl. lia.
      - left. rewrite (proj2 (Z.eqb_neq _ _)) by done. lia.
      - rewrite (proj2 (Z.eqb_neq _ _)) by done. lia. }
    rewrite Hc. assert (0 <= c) by (subst c; apply Z.div_pos; lia). unfold MaximumExactInteger, i64_min, i64_max in *.
    destruct (c <=? 9007199254740991) eqn:El; prop_hyps.
    + rewrite !(proj2 (Z.leb_le _ _)) by lia. done.
    + rewrite (andb_comm _ false) || rewrite andb_false_r. done.
Qed.

Lemma ceiling_bounds n unit : 0 <= n -> 0 < unit ->
  let c := (n + unit - 1) / unit in unit * (c - 1) < n <= unit * c.
Proof.
  intros Hn Hu c. subst c. pose proof (Z.div_mod (n + unit - 1) unit ltac:(lia)). pose proof (Z.mod_pos_bound (n + unit - 1) unit Hu). nia.
Qed.

Lemma rate_bounds rate :
  PriceRate_Validate rate = true -> 0 < UnitQuantity rate <= MaximumExactInteger /\ 0 <= UnitPriceMicros rate <= MaximumExactInteger.
Proof. unfold PriceRate_Validate. intros. prop_hyps. lia. Qed.

(** The price of a usage fact is the exact quotient rounded up: no smaller amount
    covers it, a positive rate never prices a positive quantity at zero, and the
    only error for valid inputs is an amount beyond the ledger's integer range. *)
Theorem CalculateAmountMicros_is_exact_ceiling quantity rate :
  1 <= quantity <= MaximumExactInteger -> PriceRate_Validate rate = true ->
  match CalculateAmountMicros quantity rate with
  | Ok amount =>
      UnitQuantity rate * (amount - 1) < quantity * UnitPriceMicros rate <= UnitQuantity rate * amount /\
      0 <= amount <= MaximumExactInteger /\ (0 < UnitPriceMicros rate <-> 0 < amount)
  | Err e => e = ErrAmountOverflow /\ UnitQuantity rate * MaximumExactInteger < quantity * UnitPriceMicros rate
  end.
Proof.
  intros Hq Hv. rewrite calculate_cases by done. apply rate_bounds in Hv as [Hu Hp].
  pose proof (ceiling_bounds (quantity * UnitPriceMicros rate) (UnitQuantity rate) ltac:(nia) ltac:(lia)) as Hc. simpl in Hc.
  destruct (_ <=? _) eqn:E; prop_hyps; [|split; [done|nia]]. split; [done|].
  split; [split; [apply Z.div_pos; nia|done]|]. split; nia.
Qed.

Definition demo_rate : PriceRate :=
  {| rate_TokenType := TokenTypeInput; rate_BillingUnit := BillingUnitToken; UnitQuantity := 1000; UnitPriceMicros := 3 |}.

Lemma CalculateAmountMicros_is_exact_ceiling_witness : exists amount, CalculateAmountMicros 1 demo_rate = Ok amount /\ 0 < amount.
Proof.
  exists 1. split; [vm_compute; reflexivity|].
  pose proof (CalculateAmountMicros_is_exact_ceiling 1 demo_rate ltac:(vm_compute; split; congruence) ltac:(vm_compute; reflexivity)) as H.
  exact (proj1 (proj2 (proj2 H)) ltac:(vm_compute; reflexivity)).
Defined.

(** Splitting a quantity never makes it cheaper and costs at most one micro more
    per split. *)
Theorem pricing_is_subadditive q1 q2 rate a1 a2 a :
  CalculateAmountMicros q1 rate = Ok a1 -> CalculateAmountMicros q2 rate = Ok a2 -> CalculateAmountMicros (q1 + q2) rate = Ok a ->
  a <= a1 + a2 <= a + 1.
Proof.
  intros H1 H2 H3.
  assert (Hin : forall q x, CalculateAmountMicros q rate = Ok x -> 1 <= q <= MaximumExactInteger /\ PriceRate_Validate rate = true).
  { intros q x. unfold CalculateAmountMicros. destruct (_ && _) eqn:E; [|done]. intros _. prop_hyps. split; [lia|done]. }
  destruct (Hin _ _ H1) as [Hq1 Hv]. destruct (Hin _ _ H2) as [Hq2 _]. destruct (Hin _ _ H3) as [Hq3 _].
  rewrite calculate_cases in H1, H2, H3 by done. apply rate_bounds in Hv as [Hu Hp].
  assert (Hok : forall q x, 0 <= q -> (if (q * UnitPriceMicros rate + UnitQuantity rate - 1) / UnitQuantity rate <=? MaximumExactInteger
      then Ok ((q * UnitPriceMicros rate + UnitQuantity rate - 1) / UnitQuantity rate) else Err ErrAmountOverflow) = Ok x ->
    UnitQuantity rate * (x - 1) < q * UnitPriceMicros rate <= UnitQuantity rate * x).
  { intros q x Hq Heq. case_match; simplify_eq. apply (ceiling_bounds (q * UnitPriceMicros rate)); nia. }
  apply Hok in H1, H2, H3; [|lia..]. split; nia.
Qed.

Lemma pricing_is_subadditive_witness :
  CalculateAmountMicros 400 demo_rate = Ok 2 /\ CalculateAmountMicros 100 demo_rate = Ok 1 /\
  CalculateAmountMicros 500 demo_rate = Ok 2 /\ 2 <= 2 + 1 <= 2 + 1.
Proof.
  repeat (split; [vm_compute; reflexivity|]).
  apply (pricing_is_subadditive 400 100 demo_rate 2 1 2); vm_compute; reflexivity.
Defined.

(** The dimensions that become events. *)
Definition billable (d : TokenType * TokenCount) : bool := tc_Present d.2 && negb (tc_Value d.2 =? 0).

Lemma events_loop_Ok identity u kind ids ds : forall n events,
  events_loop identity u kind ids n ds = Ok events ->
  (fun e => (ue_TokenType e, ue_Quantity e)) <$> events = (fun d => (d.1, tc_Value d.2)) <$> filter (fun d => billable d = true) ds /\
  Forall (fun e => UsageEvent_Validate e = true /\ ue_Identity e = identity /\ ue_Source e = u_Source u /\ ue_Kind e = kind /\
            ue_UsageComplete e = u_Complete u) events /\
  (forall i e, events !! i = Some e -> ids (n + i)%nat = Some (ue_EventID e)).
Proof.
  induction ds as [|[t count] rest IH]; intros n events; simpl; [intros [= <-]; by split_and!|].
  destruct (negb (tc_Present count) || (tc_Value count =? 0)) eqn:Eb.
  { intros H. rewrite filter_cons_False; [by apply IH|]. unfold billable. simpl. by destruct (tc_Present count), (tc_Value count =? 0). }
  destruct ((tc_Value count <? 0) || (MaximumExactInteger <? tc_Value count)); [done|]. destruct (ids n) as [id|] eqn:Ei; [|done].
  destruct (UsageEvent_Validate _) eqn:Ev; [|done]. destruct (events_loop _ _ _ _ _ _) as [es|] eqn:El; [|done]. simpl. intros [= <-].
  destruct (IH _ _ El) as (H1 & H2 & H3). rewrite filter_cons_True.
  2: { unfold billable. simpl. by destruct (tc_Present count), (tc_Value count =? 0). }
  split_and!.
  - rewrite !fmap_cons, H1. done.
  - apply Forall_cons. split; [done|done].
  - intros [|i] e; simpl; [intros [= <-]; by rewrite Nat.add_0_r|]. intros He. rewrite <- (H3 _ _ He). f_equal. lia.
Qed.

(** The events of an attempt are exactly its positive reported dimensions, in
    taxonomy order with their exact quantities, each attributed to the attempt,
    valid on the wire, and carrying its own freshly allocated identity. *)
Theorem NewUsageEvents_are_the_positive_dimensions identity u ids events :
  NewUsageEvents identity (Some u) (Some ids) = Ok events ->
  (fun e => (ue_TokenType e, ue_Quantity e)) <$> events = (fun d => (d.1, tc_Value d.2)) <$> filter (fun d => billable d = true) (dimensions u) /\
  Forall (fun e => UsageEvent_Validate e = true /\ ue_Identity e = identity /\ ue_Source e = u_Source u /\
            gatewayUsageKind (u_Source u) = Some (ue_Kind e) /\ ue_UsageComplete e = u_Complete u) events /\
  (forall i e, events !! i = Some e -> ids i = Some (ue_EventID e)).
Proof.
  unfold NewUsageEvents. destruct (_ && _); [|done]. destruct (gatewayUsageKind (u_Source u)) as [kind|] eqn:Ek; [|done].
  intros (H1 & H2 & H3)%events_loop_Ok. split_and!; [done| |done].
  eapply Forall_impl; [exact H2|]. simpl. intros e (? & ? & ? & -> & ?). done.
Qed.

Definition demo_identity : UsageIdentity :=
  {| ui_TenantID := "11111111-1111-4111-8111-111111111111"; ui_RequestID := "request-1";
     ui_AttemptID := "22222222-2222-4222-8222-222222222222"; ui_DeploymentID := "33333333-3333-4333-8333-333333333333";
     ui_TraceID := "0123456789abcdef0123456789abcdef"; ui_SpanID := "0123456789abcdef"; ui_ObservedAt := 1 |}.
Definition demo_usage : NormalizedUsage :=
  let none := {| tc_Value := 0; tc_Present := false |} in
  {| u_InputTokens := {| tc_Value := 12; tc_Present := true |}; u_OutputTokens := {| tc_Value := 0; tc_Present := true |};
     u_CacheReadTokens := none; u_CacheWriteTokens := none; u_ReasoningTokens := {| tc_Value := 5; tc_Present := true |};
     u_AudioInputTokens := none; u_AudioOutputTokens := none; u_Source := SourceProvider; u_Complete := true;
     u_Estimate := None; u_EvidenceBytes := 20; u_UnmappedFields := [] |}.
Definition demo_ids (n : nat) : option string :=
  Some (if Nat.eqb n 0 then "44444444-4444-4444-8444-444444444444" else "55555555-5555-4555-8555-555555555555")%string.

Lemma NewUsageEvents_are_the_positive_dimensions_witness :
  exists events, NewUsageEvents demo_identity (Some demo_usage) (Some demo_ids) = Ok events /\
    (fun e => (ue_TokenType e, ue_Quantity e)) <$> events = [(TokenTypeInput, 12); (TokenTypeReasoning, 5)].
Proof.
  assert (Hok : is_ok (NewUsageEvents demo_identity (Some demo_usage) (Some demo_ids)) = true) by (vm_compute; reflexivity).
  destruct (NewUsageEvents demo_identity (Some demo_usage) (Some demo_ids)) as [events|] eqn:E; [|discriminate Hok].
  exists events. split; [reflexivity|]. exact (proj1 (NewUsageEvents_are_the_positive_dimensions _ _ _ _ E)).
Defined.

(** Parsing accepts exactly the canonical names, and parsing a type's own name
    returns the type. *)
Theorem ParseTokenType_roundtrip value t : ParseTokenType value = Some t <-> t ∈ TokenTypes /\ TokenType_string t = value.
Proof.
  unfold ParseTokenType, to_TokenType. destruct (find _ _) as [t'|] eqn:Ef.
  - apply find_some in Ef as [Hin Hs]. apply bool_decide_eq_true in Hs. rewrite <- list_elem_of_In in Hin.
    assert (TokenType_Valid t' = true) as ->.
    { apply existsb_exists. exists t'. rewrite <- list_elem_of_In. split; [done|]. by apply bool_decide_eq_true. }
    split; [intros [= <-]; done|]. intros [Ht Hst]. f_equal. subst value.
    unfold TokenTypes in *. set_unfold in Hin. set_unfold in Ht. intuition (subst; simpl in *; congruence).
  - assert (TokenType_Valid (TokenTypeOther value) = false) as -> by done. split; [done|]. intros [Ht Hst].
    apply list_elem_of_In in Ht. pose proof (find_none _ _ Ef t Ht) as Hn. apply bool_decide_eq_false in Hn. done.
Qed.
