(* ===== verification/Execution.v ===== *)
(** * Requests and attempts (src/internal/execution/model.go)

    The states of a client request and of its physical upstream attempts, the facts
    recorded of them, and their validation. *)
From Stdlib Require Import ZArith Lia Bool Ascii String.
From stdpp Require Import base tactics option list strings gmap fin_maps sets.
From S2P Require Import Prelude Identifiers Unicode Catalog Retry Metering.
(** ** Data *)
Inductive RequestStatus :=
| RequestAuthorized | RequestRouting | RequestRunning | RequestSucceeded | RequestPartialFailed | RequestFailed
| RequestCancelled | RequestStatusOther (value : string).
Inductive AttemptStatus :=
| AttemptCreated | AttemptConnecting | AttemptHeadersReceived | AttemptStreaming | AttemptSucceeded
| AttemptRetryableFailed | AttemptFailed | AttemptPartialFailed | AttemptCancelled | AttemptStatusOther (value : string).

#[export] Instance RequestStatus_eq_dec : EqDecision RequestStatus.
Proof. solve_decision. Defined.
#[export] Instance AttemptStatus_eq_dec : EqDecision AttemptStatus.
Proof. solve_decision. Defined.

Inductive exec_error := ErrExecInvalid | ErrExecConflict | ErrExecUnavailable.

Record GatewayRequest := {
  gr_ID : string; gr_TenantID : string; gr_ProjectID : string; gr_VirtualKeyID : string; gr_LogicalModel : string; gr_TraceID : string;
  gr_SpanID : string; gr_Status : RequestStatus; gr_AttemptCount : Z; gr_StartedAt : Time; gr_EndedAt : option Time; gr_EndReason : string;
  gr_Version : Z; gr_UpdatedAt : Time }.

(** The counts an attempt keeps of its usage; its JSON text is not modelled. *)
Record usageSummary := {
  us_InputTokens : option Z; us_OutputTokens : option Z; us_CacheReadTokens : option Z; us_CacheWriteTokens : option Z;
  us_ReasoningTokens : option Z; us_AudioInputTokens : option Z; us_AudioOutputTokens : option Z; us_Source : Source;
  us_Complete : bool; us_Estimate : option UsageEstimateMetadata }.

Record RouteAttempt := {
  ra_ID : string; ra_RequestID : string; ra_AttemptNo : Z; ra_DeploymentID : string; ra_Status : AttemptStatus; ra_StartedAt : Time;
  ra_HeadersReceivedAt : option Time; ra_FirstByteAt : option Time; ra_EndedAt : option Time; ra_EndReason : string;
  ra_ProviderRequestID : string; ra_ErrorCategory : string; ra_ErrorCode : string; ra_UsageSummary : option usageSummary;
  ra_Version : Z; ra_UpdatedAt : Time }.

Record StartRequest := {
  start_ID : string; start_TenantID : string; start_ProjectID : string; start_VirtualKeyID : string; start_LogicalModel : string;
  start_TraceID : string; start_SpanID : string }.

Record AttemptOutcome := {
  ao_AttemptStatus : AttemptStatus; ao_RequestStatus : RequestStatus; ao_HeadersReceived : bool; ao_EndReason : string;
  ao_ProviderRequestID : string; ao_ErrorCategory : string; ao_ErrorCode : string; ao_Usage : option NormalizedUsage }.

(** ** Validation *)
(** [^[A-Za-z0-9][A-Za-z0-9._:/-]{0,127}$] *)
Definition modelPattern : string -> bool := match_head_tail alnum (or_class alnum (one_of "._:/-")) 0 127.
Definition traceIDPattern : string -> bool := match_classes (replicate 32 hex).
Definition spanIDPattern : string -> bool := match_classes (replicate 16 hex).
(** [^[a-z][a-z0-9_]{0,63}$], also the pattern of categories. *)
Definition endReasonPattern : string -> bool := match_head_tail lower (or_class lower_digit (one_of "_")) 0 63.
Definition categoryPattern : string -> bool := endReasonPattern.
(** [^[A-Z][A-Z0-9_]{2,127}$] *)
Definition attemptErrorCodePattern : string -> bool := match_head_tail upper (or_class (or_class upper digit) (one_of "_")) 2 127.
(** [^[A-Za-z0-9][A-Za-z0-9._:/-]{0,255}$] *)
Definition providerRequestIDPattern : string -> bool := match_head_tail alnum (or_class alnum (one_of "._:/-")) 0 255.

Definition StartRequest_Validate (start : StartRequest) : bool :=
  requestIDPattern (start_ID start) && uuidPattern (start_TenantID start) && uuidPattern (start_ProjectID start) &&
  uuidPattern (start_VirtualKeyID start) && modelPattern (start_LogicalModel start) && traceIDPattern (start_TraceID start) &&
  spanIDPattern (start_SpanID start).

Definition no_text (s : string) : bool := bool_decide (s = ""%string).

Definition outcome_status_ok (outcome : AttemptOutcome) : bool :=
  let failure := categoryPattern (ao_ErrorCategory outcome) && attemptErrorCodePattern (ao_ErrorCode outcome) in
  match ao_AttemptStatus outcome with
  | AttemptSucceeded =>
      bool_decide (ao_RequestStatus outcome = RequestSucceeded) && ao_HeadersReceived outcome && no_text (ao_ErrorCategory outcome) &&
      no_text (ao_ErrorCode outcome)
  | AttemptRetryableFailed =>
      (bool_decide (ao_RequestStatus outcome = RequestFailed) || bool_decide (ao_RequestStatus outcome = RequestRunning)) && failure
  | AttemptFailed => bool_decide (ao_RequestStatus outcome = RequestFailed) && failure
  | AttemptPartialFailed => bool_decide (ao_RequestStatus outcome = RequestPartialFailed) && ao_HeadersReceived outcome && failure
  | AttemptCancelled =>
      bool_decide (ao_RequestStatus outcome = RequestCancelled) && bool_decide (ao_ErrorCategory outcome = "cancelled"%string) &&
      attemptErrorCodePattern (ao_ErrorCode outcome)
  | AttemptCreated | AttemptConnecting | AttemptHeadersReceived | AttemptStreaming | AttemptStatusOther _ => false
  end.

Definition AttemptOutcome_Validate (outcome : AttemptOutcome) : bool :=
  endReasonPattern (ao_EndReason outcome) &&
  (no_text (ao_ProviderRequestID outcome) || (ao_HeadersReceived outcome && providerRequestIDPattern (ao_ProviderRequestID outcome))) &&
  outcome_status_ok outcome && match ao_Usage outcome with Some u => NormalizedUsage_Validate u | None => true end.

Definition validateRequestHandle (request : GatewayRequest) (allowed : list RequestStatus) : bool :=
  requestIDPattern (gr_ID request) && (1 <=? gr_Version request) && (0 <=? gr_AttemptCount request) && bool_decide (gr_Status request ∈ allowed).

Definition validateAttemptHandle (attempt : RouteAttempt) (status : AttemptStatus) : bool :=
  uuidPattern (ra_ID attempt) && requestIDPattern (ra_RequestID attempt) && uuidPattern (ra_DeploymentID attempt) &&
  (1 <=? ra_AttemptNo attempt) && (1 <=? ra_Version attempt) && bool_decide (ra_Status attempt = status).
