(* ===== verification/ExecutionStore.v ===== *)
(** * The execution recorder (src/internal/execution/postgres.go)

    Every transaction of [PostgresRecorder] over explicit tables. PostgreSQL is not
    under src/; the constraints, transition triggers and status event triggers of
    migrations/000007_create_gateway_execution_records.up.sql are, and they are part
    of the statements below. All statements of a transaction are writes, whose row
    locks make the transactions serialisable, so a transaction is one step; each
    statement may still fail in any way, and a commit may fail with the transaction
    applied or not. Rows keep NULL text as the empty string, which the format
    constraints exclude as a value. *)
From Stdlib Require Import ZArith Lia Bool Ascii String.
From stdpp Require Import base tactics option list strings gmap fin_maps sets.
From S2P Require Import Prelude Postgres Identifiers Unicode Catalog Retry Metering Execution.
(** ** Tables *)
Record StatusEvent (S : Type) := {
  ev_id : string; ev_version : Z; ev_from : option S; ev_to : S; ev_at : Time; ev_reason : string }.
Arguments ev_id {S} _.
Arguments ev_version {S} _.
Arguments ev_from {S} _.
Arguments ev_to {S} _.
Arguments ev_at {S} _.
Arguments ev_reason {S} _.

Record ExecDB := {
  x_requests : gmap string GatewayRequest; x_attempts : gmap string RouteAttempt;
  x_request_events : list (StatusEvent RequestStatus); x_attempt_events : list (StatusEvent AttemptStatus);
  x_outbox : list UsageEvent }.

(** What the recorder needs of the other tables: whether the tenant, project, key and
    logical model of a request exist, and the physical model, version and protocol of a
    deployment. *)
Record References := {
  ref_identity : string -> string -> string -> string -> bool; ref_deployment : string -> option (string * Z * string) }.

(** ** Failures *)
Inductive stmt_failure := NoRow | Statement_failed (failure : db_failure).

Definition mapDatabaseError (e : stmt_failure) : exec_error :=
  match e with
  | NoRow => ErrExecConflict
  | Statement_failed (PqError code _) =>
      if bool_decide (code ∈ ["23503"; "23505"; "23514"]%string) then ErrExecConflict else ErrExecUnavailable
  | Statement_failed DriverError => ErrExecUnavailable
  end.

Definition violation (code : string) : stmt_failure := Statement_failed (PqError code "").

Definition stmt {A : Type} (faults : Faults) (n : nat) (r : result A stmt_failure) : result A exec_error :=
  match fl_statement faults n with
  | Some failure => Err (mapDatabaseError (Statement_failed failure))
  | None => match r with Ok a => Ok a | Err e => Err (mapDatabaseError e) end
  end.

Definition committed {A : Type} (faults : Faults) (db : ExecDB) (r : result (ExecDB * A) exec_error) : ExecDB * result A exec_error :=
  match r with
  | Err e => (db, Err e)
  | Ok (db', a) =>
      match fl_commit faults with
      | None => (db', Ok a)
      | Some applied => (if applied then db' else db, Err ErrExecUnavailable)
      end
  end.

Definition transaction {A : Type} (faults : Faults) (db : ExecDB) (r : result (ExecDB * A) exec_error) : ExecDB * result A exec_error :=
  if fl_begin faults then (db, Err ErrExecUnavailable) else committed faults db r.

(** ** Constraints and triggers of the tables *)
Definition open_request (s : RequestStatus) : bool :=
  match s with RequestAuthorized | RequestRouting | RequestRunning => true | _ => false end.
Definition ended_request (s : RequestStatus) : bool :=
  match s with RequestSucceeded | RequestPartialFailed | RequestFailed | RequestCancelled => true | _ => false end.

Definition from (start : Time) (t : option Time) : bool := match t with Some t => start <=? t | None => true end.
Definition known_text (s : string) : bool := negb (no_text s).
Definition has {A : Type} (o : option A) : bool := match o with Some _ => true | None => false end.

Definition gateway_requests_checks (r : GatewayRequest) : bool :=
  requestIDPattern (gr_ID r) && traceIDPattern (gr_TraceID r) && spanIDPattern (gr_SpanID r) && (0 <=? gr_AttemptCount r) &&
  (no_text (gr_EndReason r) || endReasonPattern (gr_EndReason r)) &&
  ((open_request (gr_Status r) && negb (has (gr_EndedAt r)) && no_text (gr_EndReason r)) ||
   (ended_request (gr_Status r) && has (gr_EndedAt r) && from (gr_StartedAt r) (gr_EndedAt r) && known_text (gr_EndReason r))) &&
  (0 <? gr_Version r) && (gr_StartedAt r <=? gr_UpdatedAt r).

Definition request_transition (old new : RequestStatus) : bool :=
  match old, new with
  | RequestAuthorized, (RequestRouting | RequestFailed | RequestCancelled) => true
  | RequestRouting, (RequestRunning | RequestFailed | RequestCancelled) => true
  | RequestRunning, (RequestRunning | RequestSucceeded | RequestPartialFailed | RequestFailed | RequestCancelled) => true
  | _, _ => false
  end.

Definition enforce_gateway_request_transition (old new : GatewayRequest) : bool :=
  bool_decide (gr_ID new = gr_ID old) && bool_decide (gr_TenantID new = gr_TenantID old) && bool_decide (gr_ProjectID new = gr_ProjectID old) &&
  bool_decide (gr_VirtualKeyID new = gr_VirtualKeyID old) && bool_decide (gr_LogicalModel new = gr_LogicalModel old) &&
  bool_decide (gr_TraceID new = gr_TraceID old) && bool_decide (gr_SpanID new = gr_SpanID old) && (gr_StartedAt new =? gr_StartedAt old) &&
  (gr_Version new =? gr_Version old + 1) && (gr_UpdatedAt old <=? gr_UpdatedAt new) && (gr_AttemptCount old <=? gr_AttemptCount new) &&
  (gr_AttemptCount new <=? gr_AttemptCount old + 1) &&
  ((gr_AttemptCount new <=? gr_AttemptCount old) || bool_decide (gr_Status new = RequestRunning)) &&
  request_transition (gr_Status old) (gr_Status new).

Definition attempt_lifecycle (a : RouteAttempt) : bool :=
  let untouched := negb (has (ra_EndedAt a)) && no_text (ra_EndReason a) && no_text (ra_ErrorCategory a) && no_text (ra_ErrorCode a) &&
                   negb (has (ra_UsageSummary a)) in
  match ra_Status a with
  | AttemptCreated | AttemptConnecting =>
      negb (has (ra_HeadersReceivedAt a)) && negb (has (ra_FirstByteAt a)) && no_text (ra_ProviderRequestID a) && untouched
  | AttemptHeadersReceived | AttemptStreaming => has (ra_HeadersReceivedAt a) && untouched
  | AttemptSucceeded =>
      has (ra_HeadersReceivedAt a) && has (ra_EndedAt a) && known_text (ra_EndReason a) && no_text (ra_ErrorCategory a) && no_text (ra_ErrorCode a)
  | AttemptRetryableFailed | AttemptFailed | AttemptPartialFailed | AttemptCancelled =>
      has (ra_EndedAt a) && known_text (ra_EndReason a) && known_text (ra_ErrorCategory a) && known_text (ra_ErrorCode a)
  | AttemptStatusOther _ => false
  end.

Definition from_opt (start t : option Time) : bool := match start with Some s => from s t | None => true end.

Definition route_attempts_checks (a : RouteAttempt) : bool :=
  (0 <? ra_AttemptNo a) && (no_text (ra_EndReason a) || endReasonPattern (ra_EndReason a)) &&
  (no_text (ra_ProviderRequestID a) || providerRequestIDPattern (ra_ProviderRequestID a)) &&
  (no_text (ra_ErrorCategory a) || categoryPattern (ra_ErrorCategory a)) &&
  (no_text (ra_ErrorCode a) || attemptErrorCodePattern (ra_ErrorCode a)) &&
  (ra_StartedAt a <=? ra_UpdatedAt a) && from (ra_StartedAt a) (ra_HeadersReceivedAt a) && from (ra_StartedAt a) (ra_FirstByteAt a) &&
  from (ra_StartedAt a) (ra_EndedAt a) && (negb (has (ra_FirstByteAt a)) || has (ra_HeadersReceivedAt a)) &&
  from_opt (ra_HeadersReceivedAt a) (ra_EndedAt a) && from_opt (ra_FirstByteAt a) (ra_EndedAt a) && attempt_lifecycle a && (0 <? ra_Version a).

Definition attempt_transition (old new : AttemptStatus) : bool :=
  match old, new with
  | AttemptCreated, (AttemptConnecting | AttemptFailed | AttemptCancelled) => true
  | AttemptConnecting, (AttemptHeadersReceived | AttemptRetryableFailed | AttemptFailed | AttemptCancelled) => true
  | AttemptHeadersReceived, (AttemptStreaming | AttemptSucceeded | AttemptRetryableFailed | AttemptFailed | AttemptCancelled) => true
  | AttemptStreaming, (AttemptSucceeded | AttemptPartialFailed | AttemptFailed | AttemptCancelled) => true
  | _, _ => false
  end.

Definition enforce_route_attempt_transition (old new : RouteAttempt) : bool :=
  bool_decide (ra_ID new = ra_ID old) && bool_decide (ra_RequestID new = ra_RequestID old) && (ra_AttemptNo new =? ra_AttemptNo old) &&
  bool_decide (ra_DeploymentID new = ra_DeploymentID old) && (ra_StartedAt new =? ra_StartedAt old) && (ra_Version new =? ra_Version old + 1) &&
  (ra_UpdatedAt old <=? ra_UpdatedAt new) && attempt_transition (ra_Status old) (ra_Status new).

(** ** Statements *)
Definition request_event (old : option GatewayRequest) (new : GatewayRequest) : StatusEvent RequestStatus :=
  {| ev_id := gr_ID new; ev_version := gr_Version new; ev_from := gr_Status <$> old; ev_to := gr_Status new; ev_at := gr_UpdatedAt new;
     ev_reason := gr_EndReason new |}.
Definition attempt_event (old : option RouteAttempt) (new : RouteAttempt) : StatusEvent AttemptStatus :=
  {| ev_id := ra_ID new; ev_version := ra_Version new; ev_from := ra_Status <$> old; ev_to := ra_Status new; ev_at := ra_UpdatedAt new;
     ev_reason := ra_EndReason new |}.

(** Writing a row also records its status event. *)
Definition write_request (db : ExecDB) (old : option GatewayRequest) (new : GatewayRequest) : ExecDB :=
  {| x_requests := <[gr_ID new := new]> (x_requests db); x_attempts := x_attempts db;
     x_request_events := x_request_events db ++ [request_event old new]; x_attempt_events := x_attempt_events db; x_outbox := x_outbox db |}.
Definition write_attempt (db : ExecDB) (old : option RouteAttempt) (new : RouteAttempt) : ExecDB :=
  {| x_requests := x_requests db; x_attempts := <[ra_ID new := new]> (x_attempts db);
     x_request_events := x_request_events db; x_attempt_events := x_attempt_events db ++ [attempt_event old new]; x_outbox := x_outbox db |}.

Definition insert_request (refs : References) (db : ExecDB) (row : GatewayRequest) : result (ExecDB * GatewayRequest) stmt_failure :=
  if negb (gateway_requests_checks row) then Err (violation "23514")
  else if has (x_requests db !! gr_ID row) then Err (violation "23505")
  else if negb (ref_identity refs (gr_TenantID row) (gr_ProjectID row) (gr_VirtualKeyID row) (gr_LogicalModel row)) then Err (violation "23503")
  else Ok (write_request db None row, row).

(** UPDATE ... WHERE id = $1 AND [matches]: the row the statement changes, if any. *)
Definition update_request (db : ExecDB) (id : string) (matches : GatewayRequest -> bool) (change : GatewayRequest -> GatewayRequest)
    : result (ExecDB * GatewayRequest) stmt_failure :=
  match x_requests db !! id with
  | Some old =>
      if negb (matches old) then Err NoRow
      else if negb (enforce_gateway_request_transition old (change old)) || negb (gateway_requests_checks (change old)) then Err (violation "23514")
      else Ok (write_request db (Some old) (change old), change old)
  | None => Err NoRow
  end.

Definition numbered (request : string) (n : Z) (a : RouteAttempt) : Prop := ra_RequestID a = request /\ ra_AttemptNo a = n.

Definition insert_attempt (refs : References) (db : ExecDB) (row : RouteAttempt) : result ExecDB stmt_failure :=
  if negb (route_attempts_checks row) then Err (violation "23514")
  else if has (x_attempts db !! ra_ID row) ||
          negb (bool_decide (map_Forall (fun _ a => ~ numbered (ra_RequestID row) (ra_AttemptNo row) a) (x_attempts db)))
  then Err (violation "23505")
  else if negb (has (x_requests db !! ra_RequestID row)) || negb (has (ref_deployment refs (ra_DeploymentID row))) then Err (violation "23503")
  else Ok (write_attempt db None row).

Definition update_attempt (db : ExecDB) (id : string) (matches : RouteAttempt -> bool) (change : RouteAttempt -> RouteAttempt)
    : result (ExecDB * RouteAttempt) stmt_failure :=
  match x_attempts db !! id with
  | Some old =>
      if negb (matches old) then Err NoRow
      else if negb (enforce_route_attempt_transition old (change old)) || negb (route_attempts_checks (change old)) then Err (violation "23514")
      else Ok (write_attempt db (Some old) (change old), change old)
  | None => Err NoRow
  end.

(** ** Requests *)
Definition StartRequest_op (refs : References) (faults : Faults) (db : ExecDB) (start : StartRequest) (now : Time)
    : ExecDB * result GatewayRequest exec_error :=
  if negb (StartRequest_Validate start) then (db, Err ErrExecInvalid)
  else committed faults db (stmt faults 0 (insert_request refs db
    {| gr_ID := start_ID start; gr_TenantID := start_TenantID start; gr_ProjectID := start_ProjectID start;
       gr_VirtualKeyID := start_VirtualKeyID start; gr_LogicalModel := start_LogicalModel start; gr_TraceID := start_TraceID start;
       gr_SpanID := start_SpanID start; gr_Status := RequestAuthorized; gr_AttemptCount := 0; gr_StartedAt := now; gr_EndedAt := None;
       gr_EndReason := ""; gr_Version := 1; gr_UpdatedAt := now |})).

(** The columns a transition sets; version and attempt count are relative to the row. *)
Definition move_request (status : RequestStatus) (more : Z) (ended : option Time) (reason : string) (now : Time) (r : GatewayRequest) : GatewayRequest :=
  {| gr_ID := gr_ID r; gr_TenantID := gr_TenantID r; gr_ProjectID := gr_ProjectID r; gr_VirtualKeyID := gr_VirtualKeyID r;
     gr_LogicalModel := gr_LogicalModel r; gr_TraceID := gr_TraceID r; gr_SpanID := gr_SpanID r; gr_Status := status;
     gr_AttemptCount := gr_AttemptCount r + more; gr_StartedAt := gr_StartedAt r; gr_EndedAt := ended; gr_EndReason := reason;
     gr_Version := gr_Version r + 1; gr_UpdatedAt := now |}.

Definition at_version (status : RequestStatus) (version : Z) (r : GatewayRequest) : bool :=
  bool_decide (gr_Status r = status) && (gr_Version r =? version).

Definition MarkRouting (faults : Faults) (db : ExecDB) (request : GatewayRequest) (now : Time) : ExecDB * result GatewayRequest exec_error :=
  if negb (validateRequestHandle request [RequestAuthorized]) then (db, Err ErrExecInvalid)
  else committed faults db (stmt faults 0 (update_request db (gr_ID request) (at_version RequestAuthorized (gr_Version request))
    (fun r => move_request RequestRouting 0 (gr_EndedAt r) (gr_EndReason r) now r))).

Definition FailRequest (faults : Faults) (db : ExecDB) (request : GatewayRequest) (status : RequestStatus) (reason : string) (now : Time)
    : ExecDB * result GatewayRequest exec_error :=
  if negb (validateRequestHandle request [RequestAuthorized; RequestRouting; RequestRunning]) ||
     negb (bool_decide (status = RequestFailed) || bool_decide (status = RequestCancelled)) || negb (endReasonPattern reason)
  then (db, Err ErrExecInvalid)
  else committed faults db (stmt faults 0 (update_request db (gr_ID request) (at_version (gr_Status request) (gr_Version request))
    (move_request status 0 (Some now) reason now))).

(** ** Attempts *)
Definition new_attempt (id requestID : string) (n : Z) (deploymentID : string) (now : Time) : RouteAttempt :=
  {| ra_ID := id; ra_RequestID := requestID; ra_AttemptNo := n; ra_DeploymentID := deploymentID; ra_Status := AttemptCreated; ra_StartedAt := now;
     ra_HeadersReceivedAt := None; ra_FirstByteAt := None; ra_EndedAt := None; ra_EndReason := ""; ra_ProviderRequestID := "";
     ra_ErrorCategory := ""; ra_ErrorCode := ""; ra_UsageSummary := None; ra_Version := 1; ra_UpdatedAt := now |}.

Definition at_attempt (requestID : option string) (status : AttemptStatus) (version : Z) (a : RouteAttempt) : bool :=
  match requestID with Some r => bool_decide (ra_RequestID a = r) | None => true end && bool_decide (ra_Status a = status) && (ra_Version a =? version).

(** A change of status, version and update time alone. *)
Definition move_attempt (status : AttemptStatus) (now : Time) (a : RouteAttempt) : RouteAttempt :=
  {| ra_ID := ra_ID a; ra_RequestID := ra_RequestID a; ra_AttemptNo := ra_AttemptNo a; ra_DeploymentID := ra_DeploymentID a; ra_Status := status;
     ra_StartedAt := ra_StartedAt a; ra_HeadersReceivedAt := ra_HeadersReceivedAt a; ra_FirstByteAt := ra_FirstByteAt a;
     ra_EndedAt := ra_EndedAt a; ra_EndReason := ra_EndReason a; ra_ProviderRequestID := ra_ProviderRequestID a;
     ra_ErrorCategory := ra_ErrorCategory a; ra_ErrorCode := ra_ErrorCode a; ra_UsageSummary := ra_UsageSummary a;
     ra_Version := ra_Version a + 1; ra_UpdatedAt := now |}.

Definition with_headers (providerRequestID : string) (now : Time) (a : RouteAttempt) : RouteAttempt :=
  let b := move_attempt AttemptHeadersReceived now a in
  {| ra_ID := ra_ID b; ra_RequestID := ra_RequestID b; ra_AttemptNo := ra_AttemptNo b; ra_DeploymentID := ra_DeploymentID b; ra_Status := ra_Status b;
     ra_StartedAt := ra_StartedAt b; ra_HeadersReceivedAt := Some now; ra_FirstByteAt := ra_FirstByteAt b;
     ra_EndedAt := ra_EndedAt b; ra_EndReason := ra_EndReason b; ra_ProviderRequestID := providerRequestID;
     ra_ErrorCategory := ra_ErrorCategory b; ra_ErrorCode := ra_ErrorCode b; ra_UsageSummary := ra_UsageSummary b;
     ra_Version := ra_Version b; ra_UpdatedAt := ra_UpdatedAt b |}.

Definition with_first_byte (now : Time) (a : RouteAttempt) : RouteAttempt :=
  let b := move_attempt AttemptStreaming now a in
  {| ra_ID := ra_ID b; ra_RequestID := ra_RequestID b; ra_AttemptNo := ra_AttemptNo b; ra_DeploymentID := ra_DeploymentID b; ra_Status := ra_Status b;
     ra_StartedAt := ra_StartedAt b; ra_HeadersReceivedAt := ra_HeadersReceivedAt b; ra_FirstByteAt := Some now;
     ra_EndedAt := ra_EndedAt b; ra_EndReason := ra_EndReason b; ra_ProviderRequestID := ra_ProviderRequestID b;
     ra_ErrorCategory := ra_ErrorCategory b; ra_ErrorCode := ra_ErrorCode b; ra_UsageSummary := ra_UsageSummary b;
     ra_Version := ra_Version b; ra_UpdatedAt := ra_UpdatedAt b |}.

(** [newID] is the outcome of [newUUID]. *)
Definition StartAttempt (refs : References) (faults : Faults) (newID : option string) (db : ExecDB) (request : GatewayRequest)
    (deploymentID : string) (now : Time) : ExecDB * result (GatewayRequest * RouteAttempt) exec_error :=
  if negb (validateRequestHandle request [RequestRouting; RequestRunning]) || negb (uuidPattern deploymentID) then (db, Err ErrExecInvalid)
  else match newID with
  | None => (db, Err ErrExecUnavailable)
  | Some attemptID =>
      transaction faults db
        (let? '(db1, updated) := stmt faults 0 (update_request db (gr_ID request)
           (fun r => at_version (gr_Status request) (gr_Version request) r && (gr_AttemptCount r =? gr_AttemptCount request))
           (fun r => move_request RequestRunning 1 (gr_EndedAt r) (gr_EndReason r) now r)) in
         let? db2 := stmt faults 1 (insert_attempt refs db1 (new_attempt attemptID (gr_ID request) (gr_AttemptCount request + 1) deploymentID now)) in
         let? '(db3, attempt) := stmt faults 2 (update_attempt db2 attemptID (at_attempt None AttemptCreated 1) (move_attempt AttemptConnecting now)) in
         Ok (db3, (updated, attempt)))
  end.

(** [now1] and [now2] are the two readings of the clock. *)
Definition MarkAttemptStreaming (faults : Faults) (db : ExecDB) (request : GatewayRequest) (attempt : RouteAttempt) (providerRequestID : string)
    (now1 now2 : Time) : ExecDB * result RouteAttempt exec_error :=
  if negb (validateRequestHandle request [RequestRunning]) || negb (validateAttemptHandle attempt AttemptConnecting) ||
     negb (bool_decide (ra_RequestID attempt = gr_ID request)) || negb (no_text providerRequestID || providerRequestIDPattern providerRequestID)
  then (db, Err ErrExecInvalid)
  else
    let firstByteAt := if now2 <? now1 then now1 else now2 in
    transaction faults db
      (let? '(db1, headers) := stmt faults 0 (update_attempt db (ra_ID attempt)
         (at_attempt (Some (gr_ID request)) AttemptConnecting (ra_Version attempt)) (with_headers providerRequestID now1)) in
       stmt faults 1 (update_attempt db1 (ra_ID headers)
         (at_attempt (Some (gr_ID request)) AttemptHeadersReceived (ra_Version headers)) (with_first_byte firstByteAt))).

(** ** Completion *)
Definition tokenValue (count : TokenCount) : option Z := if tc_Present count then Some (tc_Value count) else None.

Definition marshalUsageSummary (usage : option NormalizedUsage) : result (option usageSummary) exec_error :=
  match usage with
  | None => Ok None
  | Some u =>
      if negb (NormalizedUsage_Validate u) then Err ErrExecInvalid
      else Ok (Some {| us_InputTokens := tokenValue (u_InputTokens u); us_OutputTokens := tokenValue (u_OutputTokens u);
        us_CacheReadTokens := tokenValue (u_CacheReadTokens u); us_CacheWriteTokens := tokenValue (u_CacheWriteTokens u);
        us_ReasoningTokens := tokenValue (u_ReasoningTokens u); us_AudioInputTokens := tokenValue (u_AudioInputTokens u);
        us_AudioOutputTokens := tokenValue (u_AudioOutputTokens u); us_Source := u_Source u; us_Complete := u_Complete u;
        us_Estimate := u_Estimate u |})
  end.

Definition validateAttemptStateCompletion (attempt : RouteAttempt) (outcome : AttemptOutcome) : bool :=
  match ra_Status attempt with
  | AttemptConnecting => validateAttemptHandle attempt AttemptConnecting && negb (bool_decide (ao_AttemptStatus outcome = AttemptPartialFailed))
  | AttemptStreaming =>
      validateAttemptHandle attempt AttemptStreaming && has (ra_HeadersReceivedAt attempt) && has (ra_FirstByteAt attempt) &&
      ao_HeadersReceived outcome &&
      match ao_AttemptStatus outcome with AttemptSucceeded | AttemptPartialFailed | AttemptCancelled => true | _ => false end &&
      (no_text (ra_ProviderRequestID attempt) || no_text (ao_ProviderRequestID outcome) ||
       bool_decide (ra_ProviderRequestID attempt = ao_ProviderRequestID outcome))
  | _ => false
  end.

Definition validateAttemptCompletion (attempt : RouteAttempt) (outcome : AttemptOutcome) : bool :=
  AttemptOutcome_Validate outcome && negb (bool_decide (ao_RequestStatus outcome = RequestRunning)) &&
  validateAttemptStateCompletion attempt outcome.

Definition validateRetryAttemptCompletion (attempt : RouteAttempt) (outcome : AttemptOutcome) : bool :=
  AttemptOutcome_Validate outcome && bool_decide (ao_AttemptStatus outcome = AttemptRetryableFailed) &&
  bool_decide (ao_RequestStatus outcome = RequestRunning) && validateAttemptStateCompletion attempt outcome.

Definition usage_identity (request : GatewayRequest) (attempt : RouteAttempt) (observedAt : Time) : UsageIdentity :=
  {| ui_TenantID := gr_TenantID request; ui_RequestID := gr_ID request; ui_AttemptID := ra_ID attempt; ui_DeploymentID := ra_DeploymentID attempt;
     ui_TraceID := gr_TraceID request; ui_SpanID := gr_SpanID request; ui_ObservedAt := observedAt |}.

(** [ids n] is the outcome of the n-th call of [newUUID]. *)
Definition newUsageEvents (ids : nat -> option string) (request : GatewayRequest) (attempt : RouteAttempt) (usage : option NormalizedUsage)
    (observedAt : Time) : result (list UsageEvent) exec_error :=
  match NewUsageEvents (usage_identity request attempt observedAt) usage (Some ids) with
  | Ok events => Ok events
  | Err ErrInvalidUsageEvent => Err ErrExecInvalid
  | Err _ => Err ErrExecUnavailable
  end.

(** The key of usage_event_outbox_attempt_dimension_unique, and its primary key. *)
Definition same_dimension (a b : UsageEvent) : Prop :=
  ui_RequestID (ue_Identity a) = ui_RequestID (ue_Identity b) /\ ui_AttemptID (ue_Identity a) = ui_AttemptID (ue_Identity b) /\
  ue_TokenType a = ue_TokenType b /\ ue_Source a = ue_Source b.

#[export] Instance same_dimension_dec a b : base.Decision (same_dimension a b).
Proof. unfold same_dimension. apply _. Defined.

Definition outbox_clash (a b : UsageEvent) : bool := bool_decide (ue_EventID a = ue_EventID b) || bool_decide (same_dimension a b).

Fixpoint insert_rows (outbox : list UsageEvent) (events : list UsageEvent) : option (list UsageEvent) :=
  match events with
  | [] => Some outbox
  | event :: rest => if existsb (outbox_clash event) outbox then None else insert_rows (outbox ++ [event]) rest
  end.

(** usage_event_outbox_request_fk and usage_event_outbox_attempt_deployment_fk. *)
Definition outbox_references (db : ExecDB) (event : UsageEvent) : bool :=
  let i := ue_Identity event in
  match x_requests db !! ui_RequestID i, x_attempts db !! ui_AttemptID i with
  | Some r, Some a =>
      bool_decide (gr_TenantID r = ui_TenantID i) && bool_decide (ra_RequestID a = ui_RequestID i) && bool_decide (ra_DeploymentID a = ui_DeploymentID i)
  | _, _ => false
  end.

(** The deployment the statement joins, with the facts an estimate must match. *)
Definition deployment_accepts (refs : References) (first : UsageEvent) : bool :=
  match ref_deployment refs (ui_DeploymentID (ue_Identity first)) with
  | None => false
  | Some (physicalModel, version, protocol) =>
      negb (bool_decide (ue_Source first = SourceEstimated)) ||
      match ue_Estimate first with
      | Some e => bool_decide (est_PhysicalModel e = physicalModel) && (est_DeploymentVersion e =? version) &&
                  bool_decide (est_ProviderProtocolVersion e = protocol)
      | None => false
      end
  end.

Definition insertUsageEventsInTransaction (refs : References) (faults : Faults) (n : nat) (db : ExecDB) (events : list UsageEvent)
    : result ExecDB exec_error :=
  match events with
  | [] => Ok db
  | first :: _ =>
      if negb (forallb UsageEvent_Validate events) then Err ErrExecInvalid
      else
        let? '(db', inserted) := stmt faults n
          (if negb (deployment_accepts refs first) then Ok (db, 0%nat)
           else if negb (forallb (outbox_references db) events) then Err (violation "23503")
           else match insert_rows (x_outbox db) events with
           | None => Err (violation "23505")
           | Some outbox =>
               Ok ({| x_requests := x_requests db; x_attempts := x_attempts db; x_request_events := x_request_events db;
                      x_attempt_events := x_attempt_events db; x_outbox := outbox |}, length events)
           end) in
        if Nat.eqb inserted (length events) then Ok db' else Err ErrExecUnavailable
  end.

Definition finish_attempt (outcome : AttemptOutcome) (summary : option usageSummary) (now : Time) (a : RouteAttempt) : RouteAttempt :=
  {| ra_ID := ra_ID a; ra_RequestID := ra_RequestID a; ra_AttemptNo := ra_AttemptNo a; ra_DeploymentID := ra_DeploymentID a;
     ra_Status := ao_AttemptStatus outcome; ra_StartedAt := ra_StartedAt a; ra_HeadersReceivedAt := ra_HeadersReceivedAt a;
     ra_FirstByteAt := ra_FirstByteAt a; ra_EndedAt := Some now; ra_EndReason := ao_EndReason outcome;
     ra_ProviderRequestID := if no_text (ra_ProviderRequestID a) then ao_ProviderRequestID outcome else ra_ProviderRequestID a;
     ra_ErrorCategory := ao_ErrorCategory outcome; ra_ErrorCode := ao_ErrorCode outcome; ra_UsageSummary := summary;
     ra_Version := ra_Version a + 1; ra_UpdatedAt := now |}.

Definition completeAttemptInTransaction (faults : Faults) (db : ExecDB) (request : GatewayRequest) (attempt : RouteAttempt)
    (outcome : AttemptOutcome) (summary : option usageSummary) (now : Time) : result (ExecDB * RouteAttempt) exec_error :=
  let? '(db1, current) :=
    if bool_decide (ra_Status attempt = AttemptConnecting) && ao_HeadersReceived outcome
    then stmt faults 0 (update_attempt db (ra_ID attempt) (at_attempt (Some (gr_ID request)) AttemptConnecting (ra_Version attempt))
           (with_headers (ao_ProviderRequestID outcome) now))
    else Ok (db, attempt) in
  stmt faults 1 (update_attempt db1 (ra_ID current) (at_attempt (Some (gr_ID request)) (ra_Status current) (ra_Version current))
    (finish_attempt outcome summary now)).

Definition CompleteAttempt (refs : References) (faults : Faults) (ids : nat -> option string) (db : ExecDB) (request : GatewayRequest)
    (attempt : RouteAttempt) (outcome : AttemptOutcome) (now : Time) : ExecDB * result (GatewayRequest * RouteAttempt) exec_error :=
  if negb (validateRequestHandle request [RequestRunning]) || negb (validateAttemptCompletion attempt outcome) ||
     negb (bool_decide (ra_RequestID attempt = gr_ID request)) then (db, Err ErrExecInvalid)
  else match marshalUsageSummary (ao_Usage outcome) with
  | Err e => (db, Err e)
  | Ok summary =>
      match newUsageEvents ids request attempt (ao_Usage outcome) now with
      | Err e => (db, Err e)
      | Ok events =>
          transaction faults db
            (let? '(db1, completed) := completeAttemptInTransaction faults db request attempt outcome summary now in
             let? db2 := insertUsageEventsInTransaction refs faults 2 db1 events in
             let? '(db3, completedRequest) := stmt faults 3 (update_request db2 (gr_ID request) (at_version RequestRunning (gr_Version request))
               (move_request (ao_RequestStatus outcome) 0 (Some now) (ao_EndReason outcome) now)) in
             Ok (db3, (completedRequest, completed)))
      end
  end.

Definition CompleteAttemptForRetry (refs : References) (faults : Faults) (ids : nat -> option string) (db : ExecDB) (request : GatewayRequest)
    (attempt : RouteAttempt) (outcome : AttemptOutcome) (now : Time) : ExecDB * result RouteAttempt exec_error :=
  if negb (validateRequestHandle request [RequestRunning]) || negb (validateRetryAttemptCompletion attempt outcome) ||
     negb (bool_decide (ra_RequestID attempt = gr_ID request)) then (db, Err ErrExecInvalid)
  else match marshalUsageSummary (ao_Usage outcome) with
  | Err e => (db, Err e)
  | Ok summary =>
      match newUsageEvents ids request attempt (ao_Usage outcome) now with
      | Err e => (db, Err e)
      | Ok events =>
          transaction faults db
            (let? '(db1, completed) := completeAttemptInTransaction faults db request attempt outcome summary now in
             let? db2 := insertUsageEventsInTransaction refs faults 2 db1 events in
             Ok (db2, completed))
      end
  end.
