(* ===== verification/ExecutionTheorems.v ===== *)
(** * What the execution recorder keeps

    The tables in every state the transactions can reach, with any arguments, clocks,
    generated identifiers and failures.

    Then: transitions of the execution recorder succeed, and only with a current handle. *)
From Stdlib Require Import ZArith Lia Bool Ascii String.
From stdpp Require Import base tactics option list strings gmap fin_maps sets.
From S2P Require Import Prelude Postgres Identifiers Unicode Catalog Retry Metering Execution ExecutionStore.
(** ** Steps *)
Inductive exec_step (refs : References) : ExecDB -> ExecDB -> Prop :=
| step_start faults db start now : exec_step refs db (StartRequest_op refs faults db start now).1
| step_routing faults db request now : exec_step refs db (MarkRouting faults db request now).1
| step_fail faults db request status reason now : exec_step refs db (FailRequest faults db request status reason now).1
| step_attempt faults newID db request deployment now : exec_step refs db (StartAttempt refs faults newID db request deployment now).1
| step_streaming faults db request attempt provider now1 now2 :
    exec_step refs db (MarkAttemptStreaming faults db request attempt provider now1 now2).1
| step_complete faults ids db request attempt outcome now : exec_step refs db (CompleteAttempt refs faults ids db request attempt outcome now).1
| step_retry faults ids db request attempt outcome now : exec_step refs db (CompleteAttemptForRetry refs faults ids db request attempt outcome now).1.

Definition exec_start : ExecDB :=
  {| x_requests := ∅; x_attempts := ∅; x_request_events := []; x_attempt_events := []; x_outbox := [] |}.
Definition exec_reachable (refs : References) (db : ExecDB) : Prop := rtc (exec_step refs) exec_start db.

(** ** Replaying status events *)
Definition of_id {S : Type} (id : string) (events : list (StatusEvent S)) : list (StatusEvent S) := filter (fun e => ev_id e = id) events.

(** The events lead from version [v] in status [st], one version each, without a gap. *)
Fixpoint replay {S : Type} `{EqDecision S} (st : option S) (v : Z) (events : list (StatusEvent S)) : option (option S * Z) :=
  match events with
  | [] => Some (st, v)
  | e :: rest => if decide (ev_from e = st /\ ev_version e = v + 1) then replay (Some (ev_to e)) (v + 1) rest else None
  end.

Lemma replay_statuses_app {S : Type} `{EqDecision S} (es1 es2 : list (StatusEvent S)) : forall st v,
  replay st v (es1 ++ es2) = match replay st v es1 with Some (st', v') => replay st' v' es2 | None => None end.
Proof. induction es1 as [|e es1 IH]; intros st v; simpl; [done|]. destruct (decide _); [apply IH|done]. Qed.

Lemma of_id_app {S : Type} id (es1 es2 : list (StatusEvent S)) : of_id id (es1 ++ es2) = of_id id es1 ++ of_id id es2.
Proof. apply filter_app. Qed.

(** A table of rows with its status events. *)
Record table_ok {R S : Type} `{EqDecision S} (key : R -> string) (status : R -> S) (version : R -> Z) (checks : R -> bool)
    (rows : gmap string R) (events : list (StatusEvent S)) : Prop := {
  rows_keyed : forall id r, rows !! id = Some r -> key r = id /\ checks r = true;
  rows_history : forall id, replay None 0 (of_id id events) = Some match rows !! id with Some r => (Some (status r), version r) | None => (None, 0) end }.

Notation requests_ok := (table_ok gr_ID gr_Status gr_Version gateway_requests_checks).
Notation attempts_ok := (table_ok ra_ID ra_Status ra_Version route_attempts_checks).

Section table.
Context {R S : Type} `{EqDecision S} (key : R -> string) (status : R -> S) (version : R -> Z) (checks : R -> bool).
Notation ok := (table_ok key status version checks).

Lemma table_write rows events new e :
  ok rows events -> checks new = true -> ev_id e = key new -> ev_to e = status new -> ev_version e = version new ->
  match rows !! key new with
  | Some old => ev_from e = Some (status old) /\ version new = version old + 1
  | None => ev_from e = None /\ version new = 1
  end -> ok (<[key new := new]> rows) (events ++ [e]).
Proof using.
  intros [Hk Hh] Hc Hid Hto Hv Hold. split.
  - intros id r. destruct (decide (id = key new)) as [->|Hne]; [rewrite lookup_insert_eq; by intros [= <-]|rewrite lookup_insert_ne by done; apply Hk].
  - intros id. rewrite of_id_app, replay_statuses_app, Hh. unfold of_id. rewrite filter_cons, filter_nil, Hid. destruct (decide (key new = id)) as [<-|Hne].
    + rewrite lookup_insert_eq. destruct (rows !! key new) as [old|]; destruct Hold as [Hf Hn]; cbn [replay]; rewrite decide_True by (split; [done|lia]);
        rewrite Hto; do 2 f_equal; lia.
    + rewrite lookup_insert_ne by done. cbn [replay]. by destruct (rows !! id).
Qed.
End table.

Definition rows_ok (db : ExecDB) : Prop := requests_ok (x_requests db) (x_request_events db) /\ attempts_ok (x_attempts db) (x_attempt_events db).

(** ** Statements *)
Lemma insert_request_Ok refs db row db' r : insert_request refs db row = Ok (db', r) ->
  db' = write_request db None row /\ r = row /\ gateway_requests_checks row = true /\ x_requests db !! gr_ID row = None.
Proof.
  unfold insert_request. destruct (gateway_requests_checks row); [|done]. destruct (x_requests db !! gr_ID row) eqn:E; [done|].
  destruct (ref_identity _ _ _ _ _); [|done]. by intros [= <- <-].
Qed.

Lemma update_request_Ok db id matches change db' r : update_request db id matches change = Ok (db', r) ->
  exists old, x_requests db !! id = Some old /\ matches old = true /\ r = change old /\ db' = write_request db (Some old) r /\
    enforce_gateway_request_transition old r = true /\ gateway_requests_checks r = true.
Proof.
  unfold update_request. destruct (x_requests db !! id) as [old|]; [|done]. destruct (matches old) eqn:Em; [|done].
  destruct (enforce_gateway_request_transition old (change old)) eqn:Et; [|done]. destruct (gateway_requests_checks (change old)) eqn:Ec; [|done].
  intros [= <- <-]. by exists old.
Qed.

Lemma insert_attempt_Ok refs db row db' : insert_attempt refs db row = Ok db' ->
  db' = write_attempt db None row /\ route_attempts_checks row = true /\ x_attempts db !! ra_ID row = None /\
  map_Forall (fun _ a => ~ numbered (ra_RequestID row) (ra_AttemptNo row) a) (x_attempts db) /\ is_Some (x_requests db !! ra_RequestID row).
Proof.
  unfold insert_attempt. destruct (route_attempts_checks row); [|done]. destruct (x_attempts db !! ra_ID row) eqn:E; [done|]. cbn [negb has orb].
  destruct (bool_decide_reflect (map_Forall (fun _ a => ~ numbered (ra_RequestID row) (ra_AttemptNo row) a) (x_attempts db))); [|done]. cbn [negb].
  destruct (x_requests db !! ra_RequestID row); [|done]. cbn [has negb orb]. destruct (has _); [|done]. intros [= <-]. split_and!; done.
Qed.

Lemma update_attempt_Ok db id matches change db' a : update_attempt db id matches change = Ok (db', a) ->
  exists old, x_attempts db !! id = Some old /\ matches old = true /\ a = change old /\ db' = write_attempt db (Some old) a /\
    enforce_route_attempt_transition old a = true /\ route_attempts_checks a = true.
Proof.
  unfold update_attempt. destruct (x_attempts db !! id) as [old|]; [|done]. destruct (matches old) eqn:Em; [|done].
  destruct (enforce_route_attempt_transition old (change old)) eqn:Et; [|done]. destruct (route_attempts_checks (change old)) eqn:Ec; [|done].
  intros [= <- <-]. by exists old.
Qed.

Lemma stmt_Ok {A : Type} faults n (r : result A stmt_failure) a : stmt faults n r = Ok a -> r = Ok a.
Proof. unfold stmt. destruct (fl_statement faults n); [done|]. destruct r; [by intros [= ->]|done]. Qed.

(** A transaction leaves the tables as they were, or as its statements made them. *)
Lemma committed_cases {A : Type} faults db (r : result (ExecDB * A) exec_error) :
  (committed faults db r).1 = db \/ exists db' a, r = Ok (db', a) /\ (committed faults db r).1 = db'.
Proof.
  unfold committed. destruct r as [[db' a]|]; [|by left]. destruct (fl_commit faults) as [[|]|]; simpl; [right; eauto|by left|right; eauto].
Qed.

Lemma transaction_cases {A : Type} faults db (r : result (ExecDB * A) exec_error) :
  (transaction faults db r).1 = db \/ exists db' a, r = Ok (db', a) /\ (transaction faults db r).1 = db'.
Proof. unfold transaction. destruct (fl_begin faults); [by left|apply committed_cases]. Qed.

(** ** The invariant *)
Definition positive (d : TokenType * option Z) : list (TokenType * Z) :=
  match d.2 with Some z => if z =? 0 then [] else [(d.1, z)] | None => [] end.

(** The counts an attempt is billed for, in the order of the dimensions. *)
Definition billed (summary : option usageSummary) : list (TokenType * Z) :=
  match summary with
  | None => []
  | Some s =>
      [(TokenTypeInput, us_InputTokens s); (TokenTypeOutput, us_OutputTokens s); (TokenTypeCacheRead, us_CacheReadTokens s);
       (TokenTypeCacheWrite, us_CacheWriteTokens s); (TokenTypeReasoning, us_ReasoningTokens s);
       (TokenTypeAudioInput, us_AudioInputTokens s); (TokenTypeAudioOutput, us_AudioOutputTokens s)] ≫= positive
  end.

Definition published (id : string) (outbox : list UsageEvent) : list (TokenType * Z) :=
  (fun e => (ue_TokenType e, ue_Quantity e)) <$> filter (fun e => ui_AttemptID (ue_Identity e) = id) outbox.

Record exec_core (db : ExecDB) : Prop := {
  ei_rows : rows_ok db;
  ei_parent : forall id a, x_attempts db !! id = Some a -> exists r, x_requests db !! ra_RequestID a = Some r /\ ra_AttemptNo a <= gr_AttemptCount r;
  ei_numbers : forall rid r n, x_requests db !! rid = Some r -> 1 <= n <= gr_AttemptCount r -> exists id a, x_attempts db !! id = Some a /\ numbered rid n a;
  ei_unique : forall id1 id2 a1 a2, x_attempts db !! id1 = Some a1 -> x_attempts db !! id2 = Some a2 ->
    ra_RequestID a1 = ra_RequestID a2 -> ra_AttemptNo a1 = ra_AttemptNo a2 -> id1 = id2 }.

Definition outbox_ok (db : ExecDB) : Prop :=
  forall id, published id (x_outbox db) = match x_attempts db !! id with Some a => billed (ra_UsageSummary a) | None => [] end.
Definition exec_inv (db : ExecDB) : Prop := exec_core db /\ outbox_ok db.

Lemma exec_inv_start : exec_inv exec_start.
Proof. split; [split; [split; split|..]|]; intros *; simpl; rewrite ?lookup_empty; done. Qed.

Lemma request_transition_keeps old new : enforce_gateway_request_transition old new = true ->
  gr_ID new = gr_ID old /\ gr_Version new = gr_Version old + 1 /\ request_transition (gr_Status old) (gr_Status new) = true.
Proof. unfold enforce_gateway_request_transition. intros H. prop_hyps. done. Qed.

Lemma request_transition_scope old new : enforce_gateway_request_transition old new = true -> (gr_TenantID new, gr_ProjectID new) = (gr_TenantID old, gr_ProjectID old).
Proof. unfold enforce_gateway_request_transition. intros H. prop_hyps. congruence. Qed.

Lemma attempt_transition_keeps old new : enforce_route_attempt_transition old new = true ->
  ra_ID new = ra_ID old /\ ra_RequestID new = ra_RequestID old /\ ra_AttemptNo new = ra_AttemptNo old /\ ra_Version new = ra_Version old + 1 /\
  attempt_transition (ra_Status old) (ra_Status new) = true.
Proof. unfold enforce_route_attempt_transition. intros H. prop_hyps. done. Qed.

Lemma rows_request_new db row : rows_ok db -> gateway_requests_checks row = true -> x_requests db !! gr_ID row = None -> gr_Version row = 1 ->
  rows_ok (write_request db None row).
Proof.
  intros [Hr Ha] Hc Hn Hv. split; [|done]. apply (table_write gr_ID gr_Status gr_Version gateway_requests_checks); try done. by rewrite Hn.
Qed.

Lemma rows_request_move db old new : rows_ok db -> x_requests db !! gr_ID old = Some old -> gateway_requests_checks new = true ->
  enforce_gateway_request_transition old new = true -> rows_ok (write_request db (Some old) new).
Proof.
  intros [Hr Ha] Ho Hc (Hid & Hv & _)%request_transition_keeps. split; [|done].
  apply (table_write gr_ID gr_Status gr_Version gateway_requests_checks); try done. by rewrite Hid, Ho.
Qed.

Lemma rows_attempt_new db row : rows_ok db -> route_attempts_checks row = true -> x_attempts db !! ra_ID row = None -> ra_Version row = 1 ->
  rows_ok (write_attempt db None row).
Proof.
  intros [Hr Ha] Hc Hn Hv. split; [done|]. apply (table_write ra_ID ra_Status ra_Version route_attempts_checks); try done. by rewrite Hn.
Qed.

Lemma rows_attempt_move db old new : rows_ok db -> x_attempts db !! ra_ID old = Some old -> route_attempts_checks new = true ->
  enforce_route_attempt_transition old new = true -> rows_ok (write_attempt db (Some old) new).
Proof.
  intros [Hr Ha] Ho Hc (Hid & _ & _ & Hv & _)%attempt_transition_keeps. split; [done|].
  apply (table_write ra_ID ra_Status ra_Version route_attempts_checks); try done. by rewrite Hid, Ho.
Qed.

Lemma request_keyed db id r : rows_ok db -> x_requests db !! id = Some r -> gr_ID r = id.
Proof. intros [Hr _] H. by apply (rows_keyed _ _ _ _ _ _ Hr). Qed.

Lemma attempt_keyed db id a : rows_ok db -> x_attempts db !! id = Some a -> ra_ID a = id /\ route_attempts_checks a = true.
Proof. intros [_ Ha] H. by apply (rows_keyed _ _ _ _ _ _ Ha). Qed.

(** A request moves with its attempt count unchanged. *)
Lemma inv_request_move db id matches change db' r : exec_inv db -> update_request db id matches change = Ok (db', r) ->
  (forall q, gr_AttemptCount (change q) = gr_AttemptCount q) -> exec_inv db'.
Proof.
  intros [[Hrows Hp Hn Hu] Ho] (old & Hold & _ & -> & -> & Ht & Hc)%update_request_Ok Hcount. pose proof (request_keyed _ _ _ Hrows Hold) as Hid.
  destruct (request_transition_keeps _ _ Ht) as (Hnid & _). rewrite <- Hid in Hold. split; [split; [by apply rows_request_move| | |done]|done].
  - intros aid a Ha. destruct (Hp _ _ Ha) as (q & Hq & Hle). simpl. destruct (decide (ra_RequestID a = gr_ID (change old))) as [Heq|Hne].
    + rewrite Heq, lookup_insert_eq. eexists. split; [reflexivity|]. rewrite Hcount. rewrite Heq, Hnid, Hold in Hq. by simplify_eq.
    + rewrite lookup_insert_ne by done. by exists q.
  - intros rid q n. simpl. destruct (decide (rid = gr_ID (change old))) as [->|Hne].
    + rewrite lookup_insert_eq. intros [= <-]. rewrite Hcount. rewrite Hnid. by apply Hn.
    + rewrite lookup_insert_ne by done. apply Hn.
Qed.

(** An attempt moves; what the outbox owes it may change. *)
Lemma core_attempt_move db id matches change db' a : exec_core db -> update_attempt db id matches change = Ok (db', a) -> exec_core db'.
Proof.
  intros [Hrows Hp Hn Hu] (old & Hold & _ & -> & -> & Ht & Hc)%update_attempt_Ok. destruct (attempt_keyed _ _ _ Hrows Hold) as [Hid _].
  destruct (attempt_transition_keeps _ _ Ht) as (Hnid & Hreq & Hno & _). rewrite <- Hid in Hold. 
  assert (Hlook : forall i x, <[ra_ID (change old) := change old]> (x_attempts db) !! i = Some x ->
    exists y, x_attempts db !! i = Some y /\ ra_RequestID y = ra_RequestID x /\ ra_AttemptNo y = ra_AttemptNo x).
  { intros i x. destruct (decide (i = ra_ID (change old))) as [->|Hne].
    - rewrite lookup_insert_eq. intros [= <-]. exists old. by rewrite Hnid.
    - rewrite lookup_insert_ne by done. by exists x. }
  split; [by apply rows_attempt_move|..]; simpl.
  - intros i x (y & Hy & <- & <-)%Hlook. by apply Hp in Hy.
  - intros rid r n Hr Hle. destruct (Hn _ _ _ Hr Hle) as (i & y & Hy & Hny). destruct (decide (i = ra_ID (change old))) as [->|Hne].
    + exists (ra_ID (change old)), (change old). rewrite lookup_insert_eq. split; [done|]. rewrite Hnid in Hy. rewrite Hold in Hy. simplify_eq.
      unfold numbered in *. by rewrite Hreq, Hno.
    + exists i, y. by rewrite lookup_insert_ne.
  - intros i1 i2 x1 x2 (y1 & H1 & <- & <-)%Hlook (y2 & H2 & <- & <-)%Hlook. by apply Hu.
Qed.

Lemma outbox_attempt_move db id matches change db' a : exec_inv db -> update_attempt db id matches change = Ok (db', a) ->
  (forall x, ra_UsageSummary (change x) = ra_UsageSummary x) -> exec_inv db'.
Proof.
  intros [Hcore Ho] H Hs. split; [by eapply core_attempt_move|]. apply update_attempt_Ok in H as (old & Hold & _ & -> & -> & Ht & Hc).
  destruct (attempt_keyed _ _ _ (ei_rows _ Hcore) Hold) as [Hid _]. destruct (attempt_transition_keeps _ _ Ht) as (Hnid & _).
  intros i. simpl. rewrite Ho. destruct (decide (i = ra_ID (change old))) as [->|Hne]; [|by rewrite lookup_insert_ne].
  rewrite lookup_insert_eq, Hs, Hnid, Hid, Hold. done.
Qed.

(** ** Starting *)
Lemma inv_start_request refs db row db' r : exec_inv db -> insert_request refs db row = Ok (db', r) -> gr_Version row = 1 -> gr_AttemptCount row = 0 ->
  exec_inv db'.
Proof.
  intros [[Hrows Hp Hn Hu] Ho] (-> & -> & Hc & Hnew)%insert_request_Ok Hv Hzero. split; [split; [by apply rows_request_new| | |done]|done]; simpl.
  - intros id a Ha. destruct (Hp _ _ Ha) as (q & Hq & Hle). exists q. rewrite lookup_insert_ne; [done|congruence].
  - intros rid q n. destruct (decide (rid = gr_ID row)) as [->|Hne]; [rewrite lookup_insert_eq; intros [= <-]; lia|rewrite lookup_insert_ne by done; apply Hn].
Qed.

Lemma inv_start_attempt refs db db1 db2 id matches change r row : exec_inv db ->
  update_request db id matches change = Ok (db1, r) -> insert_attempt refs db1 row = Ok db2 ->
  (forall q, gr_AttemptCount (change q) = gr_AttemptCount q + 1) -> ra_RequestID row = id -> ra_AttemptNo row = gr_AttemptCount r ->
  ra_Version row = 1 -> ra_UsageSummary row = None -> exec_inv db2.
Proof.
  intros [[Hrows Hp Hn Hu] Ho] (old & Hold & _ & -> & -> & Ht & Hc)%update_request_Ok (-> & Hac & Hnew & Hfree & _)%insert_attempt_Ok Hcount Hrid Hno Hv Hs.
  pose proof (request_keyed _ _ _ Hrows Hold) as Hid. destruct (request_transition_keeps _ _ Ht) as (Hnid & _).
  assert (Hold' : x_requests db !! gr_ID old = Some old) by (by rewrite Hid). simpl in Hnew, Hfree.
  assert (Hk : gr_ID (change old) = id) by congruence. assert (Hc0 : 0 <= gr_AttemptCount old).
  { pose proof (proj2 (rows_keyed _ _ _ _ _ _ (proj1 Hrows) _ _ Hold)) as Hck. unfold gateway_requests_checks in Hck. prop_hyps. lia. }
  split; [split|]; simpl; rewrite ?Hk.
  - apply rows_attempt_new; try done. by apply rows_request_move.
  - intros i a. destruct (decide (i = ra_ID row)) as [->|Hne].
    + rewrite lookup_insert_eq. intros [= <-]. rewrite Hrid, lookup_insert_eq. eexists. split; [done|]. lia.
    + rewrite lookup_insert_ne by done. intros Ha. destruct (Hp _ _ Ha) as (q & Hq & Hle). destruct (decide (ra_RequestID a = id)) as [Heq|Hneq].
      * rewrite Heq, lookup_insert_eq. eexists. split; [done|]. rewrite Hcount. rewrite Heq, Hold in Hq. simplify_eq. lia.
      * rewrite lookup_insert_ne by done. by exists q.
  - intros rid q n Hq Hle. destruct (decide (rid = id)) as [->|Hne].
    + rewrite lookup_insert_eq in Hq. simplify_eq. rewrite Hcount in *. destruct (decide (n = gr_AttemptCount old + 1)) as [->|Hn1].
      * exists (ra_ID row), row. rewrite lookup_insert_eq. done.
      * destruct (Hn _ _ n Hold) as (i & a & Ha & Hna); [lia|]. exists i, a. rewrite lookup_insert_ne; [done|congruence].
    + rewrite lookup_insert_ne in Hq by done. destruct (Hn _ _ n Hq Hle) as (i & a & Ha & Hna). exists i, a. rewrite lookup_insert_ne; [done|congruence].
  - assert (Hclash : forall i a, x_attempts db !! i = Some a -> ra_RequestID a = ra_RequestID row -> ra_AttemptNo a = ra_AttemptNo row -> False).
    { intros i a Ha H1 H2. by apply (Hfree _ _ Ha). }
    intros i1 i2 a1 a2 H1 H2 Hr Hnum. apply lookup_insert_Some in H1 as [[<- <-]|[Hn1 H1]], H2 as [[<- <-]|[Hn2 H2]]; [done|..].
    + by destruct (Hclash _ _ H2).
    + by destruct (Hclash _ _ H1).
    + by eapply Hu.
  - intros i. simpl. rewrite Ho. destruct (decide (i = ra_ID row)) as [->|Hne]; [by rewrite lookup_insert_eq, Hnew, Hs|by rewrite lookup_insert_ne].
Qed.

(** ** Completion *)
Lemma positive_billable ds :
  ((fun d : TokenType * TokenCount => (d.1, tokenValue d.2)) <$> ds) ≫= positive =
  (fun d => (d.1, tc_Value d.2)) <$> filter (fun d => billable d = true) ds.
Proof.
  induction ds as [|[t c] ds IH]; [done|]. rewrite fmap_cons, bind_cons, IH, filter_cons. unfold positive, tokenValue, billable. simpl.
  destruct (tc_Present c), (tc_Value c =? 0); done.
Qed.

(** The events of a completion bill exactly the counts of its summary. *)
Lemma events_match_summary ids request attempt usage now summary events :
  marshalUsageSummary usage = Ok summary -> newUsageEvents ids request attempt usage now = Ok events ->
  (fun e => (ue_TokenType e, ue_Quantity e)) <$> events = billed summary /\ Forall (fun e => ui_AttemptID (ue_Identity e) = ra_ID attempt) events.
Proof.
  unfold marshalUsageSummary, newUsageEvents. destruct usage as [u|]; [|intros [= <-]; simpl; intros [= <-]; by split].
  destruct (NormalizedUsage_Validate u) eqn:Ev; [|done]. intros [= <-]. unfold NewUsageEvents. rewrite Ev.
  destruct (validateUsageIdentity _); [|done]. cbn [andb]. destruct (gatewayUsageKind (u_Source u)) as [kind|]; [|done].
  destruct (events_loop _ _ _ _ _ _) as [es|err] eqn:El; [|by destruct err]. intros [= <-]. apply events_loop_Ok in El as (H1 & H2 & _).
  split; [rewrite H1, <- positive_billable; done|]. eapply Forall_impl; [exact H2|]. simpl. by intros e (_ & -> & _).
Qed.

Lemma insert_rows_Some events : forall outbox outbox', insert_rows outbox events = Some outbox' -> outbox' = outbox ++ events.
Proof.
  induction events as [|e events IH]; intros outbox outbox' H; simpl in H; [rewrite app_nil_r; congruence|].
  destruct (existsb _ _); [done|]. apply IH in H as ->. by rewrite <- app_assoc.
Qed.

Lemma insert_events_Ok refs faults n db events db' : insertUsageEventsInTransaction refs faults n db events = Ok db' ->
  x_requests db' = x_requests db /\ x_attempts db' = x_attempts db /\ x_request_events db' = x_request_events db /\
  x_attempt_events db' = x_attempt_events db /\ x_outbox db' = x_outbox db ++ events.
Proof.
  unfold insertUsageEventsInTransaction. destruct events as [|first rest]; [intros [= <-]; by rewrite app_nil_r|].
  destruct (forallb _ _); [|done]. cbn [negb]. intros ([db1 k] & E & H)%bind_Ok. apply stmt_Ok in E.
  destruct (deployment_accepts refs first); cbn [negb] in E; [|by simplify_eq].
  destruct (forallb _ _); [|done]. cbn [negb] in E. destruct (insert_rows _ _) as [outbox|] eqn:Er; [|done]. simplify_eq.
  destruct (Nat.eqb _ _); [|done]. simplify_eq. apply insert_rows_Some in Er as ->. done.
Qed.

Lemma published_app id es1 es2 : published id (es1 ++ es2) = published id es1 ++ published id es2.
Proof. unfold published. by rewrite filter_app, fmap_app. Qed.

Lemma published_all id events : Forall (fun e => ui_AttemptID (ue_Identity e) = id) events ->
  published id events = (fun e => (ue_TokenType e, ue_Quantity e)) <$> events.
Proof.
  unfold published. induction 1 as [|e events He _ IH]; [done|]. rewrite filter_cons_True by done. by rewrite !fmap_cons, IH.
Qed.

Lemma published_none id id' events : Forall (fun e => ui_AttemptID (ue_Identity e) = id) events -> id' <> id -> published id' events = [].
Proof.
  intros H Hne. unfold published. induction H as [|e events He _ IH]; [done|]. by rewrite filter_cons_False by congruence.
Qed.

Lemma open_attempt_no_summary a s : route_attempts_checks a = true -> attempt_transition (ra_Status a) s = true -> ra_UsageSummary a = None.
Proof.
  unfold route_attempts_checks, attempt_lifecycle. intros H Ht. prop_hyps. unfold has in *.
  destruct (ra_Status a), s; try done; prop_hyps; by destruct (ra_UsageSummary a).
Qed.

(** The attempt of a completion, before and after. *)
Lemma complete_in_transaction faults db request attempt outcome summary now db1 completed : exec_inv db ->
  completeAttemptInTransaction faults db request attempt outcome summary now = Ok (db1, completed) ->
  exec_core db1 /\ x_outbox db1 = x_outbox db /\ x_requests db1 = x_requests db /\ ra_ID completed = ra_ID attempt /\
  x_attempts db1 !! ra_ID attempt = Some completed /\ ra_UsageSummary completed = summary /\ published (ra_ID attempt) (x_outbox db) = [] /\
  forall id, id <> ra_ID attempt -> x_attempts db1 !! id = x_attempts db !! id.
Proof.
  intros Hinv ([db0 current] & E0 & E1)%bind_Ok. apply stmt_Ok in E1.
  assert (H0 : exec_inv db0 /\ x_outbox db0 = x_outbox db /\ x_requests db0 = x_requests db /\ ra_ID current = ra_ID attempt /\
    forall id, id <> ra_ID attempt -> x_attempts db0 !! id = x_attempts db !! id).
  { destruct (_ && _); [|by simplify_eq]. apply stmt_Ok in E0. split; [by eapply outbox_attempt_move|].
    apply update_attempt_Ok in E0 as (old & Hold & _ & -> & -> & Ht & _). destruct (attempt_keyed _ _ _ (ei_rows _ (proj1 Hinv)) Hold) as [Hid _].
    simpl. split_and!; try done. intros id Hne. rewrite lookup_insert_ne; [done|congruence]. }
  destruct H0 as (Hinv0 & Hout & Hreq & Hcur & Hother). split; [eapply core_attempt_move; [apply Hinv0|exact E1]|].
  apply update_attempt_Ok in E1 as (old & Hold & _ & -> & -> & Ht & _). destruct (attempt_keyed _ _ _ (ei_rows _ (proj1 Hinv0)) Hold) as [Hid Hck].
  destruct (attempt_transition_keeps _ _ Ht) as (_ & _ & _ & _ & Htr). simpl in *.
  assert (Hida : ra_ID old = ra_ID attempt) by congruence. rewrite Hida. split_and!; try done; [apply lookup_insert_eq| |].
  - rewrite <- Hout, (proj2 Hinv0), <- Hcur, Hold. by rewrite (open_attempt_no_summary _ _ Hck Htr).
  - intros id Hne. rewrite lookup_insert_ne by done. by apply Hother.
Qed.

Lemma inv_completed refs faults ids db request attempt outcome summary now db1 completed events db2 : exec_inv db ->
  marshalUsageSummary (ao_Usage outcome) = Ok summary -> newUsageEvents ids request attempt (ao_Usage outcome) now = Ok events ->
  completeAttemptInTransaction faults db request attempt outcome summary now = Ok (db1, completed) ->
  insertUsageEventsInTransaction refs faults 2 db1 events = Ok db2 -> exec_inv db2.
Proof.
  intros Hinv Hm He Hc Hi. destruct (complete_in_transaction _ _ _ _ _ _ _ _ _ Hinv Hc) as ([Hrows Hp Hn Hu] & Hout & Hreq & Hid & Hat & Hsum & Hnone & Hother).
  destruct (events_match_summary _ _ _ _ _ _ _ Hm He) as [Hb Hall]. apply insert_events_Ok in Hi as (E1 & E2 & E3 & E4 & E5).
  split; [split; unfold rows_ok in *; rewrite ?E1, ?E2, ?E3, ?E4; done|].
  intros id. rewrite E5, E2, Hout, published_app. destruct (decide (id = ra_ID attempt)) as [->|Hne].
  - rewrite Hnone, Hat, Hsum, published_all by done. by rewrite Hb.
  - rewrite (published_none _ _ _ Hall Hne), app_nil_r, Hother by done. apply Hinv.
Qed.

(** ** Every transaction keeps the invariant *)
(** Nothing happened, or the statements succeeded: the equation of the latter is [E]. *)
Ltac effect E :=
  match goal with
  | |- _ (transaction ?f ?d ?r).1 => destruct (transaction_cases f d r) as [E|(? & ? & E & ->)]; [by rewrite E|]
  | |- _ (committed ?f ?d ?r).1 => destruct (committed_cases f d r) as [E|(? & ? & E & ->)]; [by rewrite E|]
  end.

Lemma inv_StartRequest refs faults db start now : exec_inv db -> exec_inv (StartRequest_op refs faults db start now).1.
Proof.
  intros Hinv. unfold StartRequest_op. destruct (negb _); [done|].
  effect E. apply stmt_Ok in E. by eapply inv_start_request.
Qed.

Lemma inv_MarkRouting faults db request now : exec_inv db -> exec_inv (MarkRouting faults db request now).1.
Proof.
  intros Hinv. unfold MarkRouting. destruct (negb _); [done|].
  effect E. apply stmt_Ok in E. eapply inv_request_move; [done..|]. intros q. simpl. lia.
Qed.

Lemma inv_FailRequest faults db request status reason now : exec_inv db -> exec_inv (FailRequest faults db request status reason now).1.
Proof.
  intros Hinv. unfold FailRequest. destruct (_ || _); [done|].
  effect E. apply stmt_Ok in E. eapply inv_request_move; [done..|]. intros q. simpl. lia.
Qed.

Lemma inv_StartAttempt refs faults newID db request deployment now : exec_inv db -> exec_inv (StartAttempt refs faults newID db request deployment now).1.
Proof.
  intros Hinv. unfold StartAttempt. destruct (_ || _); [done|]. destruct newID as [attemptID|]; [|done].
  effect E. apply bind_Ok in E as ([db1 r] & E1 & E). apply bind_Ok in E as (db2 & E2 & E). apply bind_Ok in E as ([db3 a] & E3 & [= <- _]).
  apply stmt_Ok in E1, E2, E3. eapply outbox_attempt_move; [|exact E3|done].
  eapply inv_start_attempt; [done|exact E1|exact E2|intros; simpl; lia|done| |done|done].
  apply update_request_Ok in E1 as (old & _ & Hm & -> & _). apply andb_true_iff in Hm as [_ Hm%Z.eqb_eq]. simpl. lia.
Qed.

Lemma inv_MarkAttemptStreaming faults db request attempt provider now1 now2 :
  exec_inv db -> exec_inv (MarkAttemptStreaming faults db request attempt provider now1 now2).1.
Proof.
  intros Hinv. unfold MarkAttemptStreaming. destruct (_ || _); [done|]. cbv zeta.
  effect E. apply bind_Ok in E as ([db1 r] & E1 & E2). apply stmt_Ok in E1, E2. eapply outbox_attempt_move; [|exact E2|done]. by eapply outbox_attempt_move.
Qed.

Lemma inv_CompleteAttempt refs faults ids db request attempt outcome now :
  exec_inv db -> exec_inv (CompleteAttempt refs faults ids db request attempt outcome now).1.
Proof.
  intros Hinv. unfold CompleteAttempt. destruct (_ || _); [done|]. destruct (marshalUsageSummary _) as [summary|] eqn:Em; [|done].
  destruct (newUsageEvents _ _ _ _ _) as [events|] eqn:Ee; [|done].
  effect E. apply bind_Ok in E as ([db1 c] & E1 & E). apply bind_Ok in E as (db2 & E2 & E). apply bind_Ok in E as ([db3 r] & E3 & [= <- _]).
  apply stmt_Ok in E3. eapply inv_request_move; [|exact E3|intros; simpl; lia]. by eapply inv_completed.
Qed.

Lemma inv_CompleteAttemptForRetry refs faults ids db request attempt outcome now :
  exec_inv db -> exec_inv (CompleteAttemptForRetry refs faults ids db request attempt outcome now).1.
Proof.
  intros Hinv. unfold CompleteAttemptForRetry. destruct (_ || _); [done|]. destruct (marshalUsageSummary _) as [summary|] eqn:Em; [|done].
  destruct (newUsageEvents _ _ _ _ _) as [events|] eqn:Ee; [|done].
  effect E. apply bind_Ok in E as ([db1 c] & E1 & E). apply bind_Ok in E as (db2 & E2 & [= <- _]). by eapply inv_completed.
Qed.

#[local] Hint Resolve inv_StartRequest inv_MarkRouting inv_FailRequest inv_StartAttempt inv_MarkAttemptStreaming inv_CompleteAttempt
  inv_CompleteAttemptForRetry : core.

Lemma exec_step_inv refs db db' : exec_step refs db db' -> exec_inv db -> exec_inv db'.
Proof. intros []; auto. Qed.

Lemma exec_reachable_inv refs db : exec_reachable refs db -> exec_inv db.
Proof.
  unfold exec_reachable. intros H. pose proof exec_inv_start as H0. revert H0. induction H as [|x y z Hxy _ IH]; [done|].
  intros Hx. by eapply IH, exec_step_inv.
Qed.

(** ** Nothing recorded is lost or rewritten *)
Record evolves (db db' : ExecDB) : Prop := {
  ev_requests : forall id r, x_requests db !! id = Some r -> exists r', x_requests db' !! id = Some r' /\ (gr_TenantID r', gr_ProjectID r') = (gr_TenantID r, gr_ProjectID r) /\
    gr_Version r <= gr_Version r' /\ (gr_Version r' = gr_Version r -> r' = r) /\ (ended_request (gr_Status r) = true -> r' = r);
  ev_attempts : forall id a, x_attempts db !! id = Some a -> exists a', x_attempts db' !! id = Some a' /\ ra_Version a <= ra_Version a' /\
    (ra_Version a' = ra_Version a -> a' = a) /\ (is_Some (ra_EndedAt a) -> a' = a);
  ev_request_log : x_request_events db `prefix_of` x_request_events db';
  ev_attempt_log : x_attempt_events db `prefix_of` x_attempt_events db';
  ev_published : x_outbox db `prefix_of` x_outbox db' }.

Lemma evolves_refl db : evolves db db.
Proof. split; try done; intros id x Hx; exists x; (split_and!; try done). Qed.

Lemma evolves_trans db1 db2 db3 : evolves db1 db2 -> evolves db2 db3 -> evolves db1 db3.
Proof.
  intros [R1 A1 E1 F1 O1] [R2 A2 E2 F2 O2]. split; [..|by etrans|by etrans|by etrans].
  - intros id r Hr. destruct (R1 _ _ Hr) as (r1 & Hr1 & Hs1 & Hv1 & He1 & Ht1). destruct (R2 _ _ Hr1) as (r2 & Hr2 & Hs2 & Hv2 & He2 & Ht2).
    exists r2. split_and!; [done|congruence|lia| |].
    + intros H. rewrite He2 by lia. apply He1. lia.
    + intros H. rewrite Ht2; [by apply Ht1|]. by rewrite Ht1.
  - intros id a Ha. destruct (A1 _ _ Ha) as (a1 & Ha1 & Hv1 & He1 & Ht1). destruct (A2 _ _ Ha1) as (a2 & Ha2 & Hv2 & He2 & Ht2).
    exists a2. split_and!; [done|lia| |].
    + intros H. rewrite He2 by lia. apply He1. lia.
    + intros H. rewrite Ht2; [by apply Ht1|]. by rewrite Ht1.
Qed.

Lemma evolves_attempts_frame db db' : x_requests db' = x_requests db -> x_request_events db' = x_request_events db -> x_outbox db' = x_outbox db ->
  x_attempt_events db `prefix_of` x_attempt_events db' ->
  (forall id a, x_attempts db !! id = Some a -> exists a', x_attempts db' !! id = Some a' /\ ra_Version a <= ra_Version a' /\
    (ra_Version a' = ra_Version a -> a' = a) /\ (is_Some (ra_EndedAt a) -> a' = a)) -> evolves db db'.
Proof. intros E1 E2 E3 Hp Ha. split; rewrite ?E1, ?E2, ?E3; try done. intros id r Hr. exists r. split_and!; done. Qed.

Lemma ended_attempt a s : route_attempts_checks a = true -> attempt_transition (ra_Status a) s = true -> ra_EndedAt a = None.
Proof.
  unfold route_attempts_checks, attempt_lifecycle. intros H Ht. prop_hyps. unfold has in *. destruct (ra_Status a), s; try done; prop_hyps; by destruct (ra_EndedAt a).
Qed.

Lemma evolves_request_new refs db row db' r : insert_request refs db row = Ok (db', r) -> evolves db db'.
Proof.
  intros (-> & -> & _ & Hnew)%insert_request_Ok. split; simpl; try done; [..|by apply prefix_app_r].
  - intros id q Hq. exists q. rewrite lookup_insert_ne by congruence. split_and!; done.
  - intros id a Ha. exists a. split_and!; done.
Qed.

Lemma evolves_request_move db id matches change db' r : rows_ok db -> update_request db id matches change = Ok (db', r) -> evolves db db'.
Proof.
  intros Hrows (old & Hold & _ & -> & -> & Ht & _)%update_request_Ok. pose proof (request_keyed _ _ _ Hrows Hold) as Hid.
  destruct (request_transition_keeps _ _ Ht) as (Hnid & Hv & Htr). split; simpl; try done; [..|by apply prefix_app_r].
  - intros i q Hq. destruct (decide (i = gr_ID (change old))) as [->|Hne].
    + rewrite lookup_insert_eq. exists (change old). assert (q = old) as -> by congruence.
      split_and!; [done|by apply request_transition_scope|lia|lia|]. intros He. by destruct (gr_Status old).
    + exists q. rewrite lookup_insert_ne by done. split_and!; done.
  - intros i a Ha. exists a. split_and!; done.
Qed.

Lemma evolves_attempt_new refs db row db' : insert_attempt refs db row = Ok db' -> evolves db db'.
Proof.
  intros (-> & _ & Hnew & _)%insert_attempt_Ok. apply evolves_attempts_frame; simpl; try done; [by apply prefix_app_r|].
  intros id a Ha. exists a. rewrite lookup_insert_ne by congruence. split_and!; done.
Qed.

Lemma evolves_attempt_move db id matches change db' a : rows_ok db -> update_attempt db id matches change = Ok (db', a) -> evolves db db'.
Proof.
  intros Hrows (old & Hold & _ & -> & -> & Ht & _)%update_attempt_Ok. destruct (attempt_keyed _ _ _ Hrows Hold) as [Hid Hc].
  destruct (attempt_transition_keeps _ _ Ht) as (Hnid & _ & _ & Hv & Htr). apply evolves_attempts_frame; simpl; try done; [by apply prefix_app_r|].
  intros i b Hb. destruct (decide (i = ra_ID (change old))) as [->|Hne].
  - rewrite lookup_insert_eq. exists (change old). assert (b = old) as -> by congruence. split_and!; [done|lia|lia|].
    rewrite (ended_attempt _ _ Hc Htr). by intros [].
  - exists b. rewrite lookup_insert_ne by done. split_and!; done.
Qed.

Lemma evolves_events refs faults n db events db' : insertUsageEventsInTransaction refs faults n db events = Ok db' -> evolves db db'.
Proof.
  intros (E1 & E2 & E3 & E4 & E5)%insert_events_Ok. split; rewrite ?E1, ?E2, ?E3, ?E4, ?E5; try done; [..|by apply prefix_app_r];
    intros id x Hx; exists x; split_and!; done.
Qed.

Lemma rows_update_request db id matches change db' r : rows_ok db -> update_request db id matches change = Ok (db', r) -> rows_ok db'.
Proof.
  intros Hrows (old & Hold & _ & -> & -> & Ht & Hc)%update_request_Ok. pose proof (request_keyed _ _ _ Hrows Hold) as Hid.
  apply rows_request_move; try done. by rewrite Hid.
Qed.

Lemma rows_update_attempt db id matches change db' a : rows_ok db -> update_attempt db id matches change = Ok (db', a) -> rows_ok db'.
Proof.
  intros Hrows (old & Hold & _ & -> & -> & Ht & Hc)%update_attempt_Ok. destruct (attempt_keyed _ _ _ Hrows Hold) as [Hid _].
  apply rows_attempt_move; try done. by rewrite Hid.
Qed.

Lemma rows_insert_attempt refs db row db' : rows_ok db -> insert_attempt refs db row = Ok db' -> ra_Version row = 1 -> rows_ok db'.
Proof. intros Hrows (-> & Hc & Hnew & _)%insert_attempt_Ok Hv. by apply rows_attempt_new. Qed.

Lemma rows_events refs faults n db events db' : rows_ok db -> insertUsageEventsInTransaction refs faults n db events = Ok db' -> rows_ok db'.
Proof. intros Hrows (E1 & E2 & E3 & E4 & _)%insert_events_Ok. unfold rows_ok. by rewrite E1, E2, E3, E4. Qed.

Lemma evolves_completion faults db request attempt outcome summary now db' a : rows_ok db ->
  completeAttemptInTransaction faults db request attempt outcome summary now = Ok (db', a) -> evolves db db' /\ rows_ok db'.
Proof.
  intros Hrows ([db0 current] & E0 & E1)%bind_Ok. apply stmt_Ok in E1. destruct (_ && _).
  - apply stmt_Ok in E0. pose proof (rows_update_attempt _ _ _ _ _ _ Hrows E0) as Hrows0. split; [|by eapply rows_update_attempt].
    eapply evolves_trans; [by eapply evolves_attempt_move|]. by eapply evolves_attempt_move.
  - simplify_eq. split; [by eapply evolves_attempt_move|by eapply rows_update_attempt].
Qed.

Lemma step_evolves refs db db' : exec_step refs db db' -> rows_ok db -> evolves db db'.
Proof.
  intros Hstep Hrows. pose proof (evolves_refl db) as Hrefl. destruct Hstep as [faults db start now|faults db request now|faults db request status reason now
    |faults newID db request deployment now|faults db request attempt provider now1 now2|faults ids db request attempt outcome now|faults ids db request attempt outcome now].
  - unfold StartRequest_op. destruct (negb _); [done|]. effect E. apply stmt_Ok in E. by eapply evolves_request_new.
  - unfold MarkRouting. destruct (negb _); [done|]. effect E. apply stmt_Ok in E. by eapply evolves_request_move.
  - unfold FailRequest. destruct (_ || _); [done|]. effect E. apply stmt_Ok in E. by eapply evolves_request_move.
  - unfold StartAttempt. destruct (_ || _); [done|]. destruct newID; [|done]. effect E.
    apply bind_Ok in E as ([db1 r] & E1 & E). apply bind_Ok in E as (db2 & E2 & E). apply bind_Ok in E as ([db3 a] & E3 & [= <- _]). apply stmt_Ok in E1, E2, E3.
    pose proof (rows_update_request _ _ _ _ _ _ Hrows E1) as H1. pose proof (rows_insert_attempt _ _ _ _ H1 E2 eq_refl) as H2.
    eapply evolves_trans; [by eapply evolves_request_move|]. eapply evolves_trans; [by eapply evolves_attempt_new|]. by eapply evolves_attempt_move.
  - unfold MarkAttemptStreaming. destruct (_ || _); [done|]. cbv zeta. effect E. apply bind_Ok in E as ([db1 r] & E1 & E2). apply stmt_Ok in E1, E2.
    pose proof (rows_update_attempt _ _ _ _ _ _ Hrows E1). eapply evolves_trans; by eapply evolves_attempt_move.
  - unfold CompleteAttempt. destruct (_ || _); [done|]. destruct (marshalUsageSummary _); [|done]. destruct (newUsageEvents _ _ _ _ _); [|done]. effect E.
    apply bind_Ok in E as ([db1 c] & E1 & E). apply bind_Ok in E as (db2 & E2 & E). apply bind_Ok in E as ([db3 r] & E3 & [= <- _]). apply stmt_Ok in E3.
    destruct (evolves_completion _ _ _ _ _ _ _ _ _ Hrows E1) as [H1 Hrows1]. pose proof (rows_events _ _ _ _ _ _ Hrows1 E2).
    eapply evolves_trans; [exact H1|]. eapply evolves_trans; [by eapply evolves_events|by eapply evolves_request_move].
  - unfold CompleteAttemptForRetry. destruct (_ || _); [done|]. destruct (marshalUsageSummary _); [|done]. destruct (newUsageEvents _ _ _ _ _); [|done]. effect E.
    apply bind_Ok in E as ([db1 c] & E1 & E). apply bind_Ok in E as (db2 & E2 & [= <- _]).
    destruct (evolves_completion _ _ _ _ _ _ _ _ _ Hrows E1) as [H1 _]. eapply evolves_trans; [exact H1|by eapply evolves_events].
Qed.

Lemma steps_evolve refs db db' : rtc (exec_step refs) db db' -> exec_inv db -> evolves db db'.
Proof.
  induction 1 as [|x y z Hxy _ IH]; intros Hinv; [apply evolves_refl|].
  eapply evolves_trans; [eapply step_evolves; [done|apply Hinv]|]. by eapply IH, exec_step_inv.
Qed.

(** ** Properties *)

(** C16: the recorder's tables explain themselves. In every reachable state the status
    events of a request and of an attempt replay, version by version and without a
    gap, from nothing to its current status and version; and the attempts of a request
    carry exactly the numbers 1 to its attempt count, each once. *)
Theorem execution_history_is_complete refs db : exec_reachable refs db ->
  (forall id r, x_requests db !! id = Some r ->
    replay None 0 (of_id id (x_request_events db)) = Some (Some (gr_Status r), gr_Version r) /\
    forall n, 1 <= n <= gr_AttemptCount r <-> exists aid a, x_attempts db !! aid = Some a /\ numbered id n a) /\
  (forall id a, x_attempts db !! id = Some a -> replay None 0 (of_id id (x_attempt_events db)) = Some (Some (ra_Status a), ra_Version a)) /\
  (forall id1 id2 a1 a2, x_attempts db !! id1 = Some a1 -> x_attempts db !! id2 = Some a2 -> ra_RequestID a1 = ra_RequestID a2 ->
    ra_AttemptNo a1 = ra_AttemptNo a2 -> id1 = id2).
Proof.
  intros H. apply exec_reachable_inv in H as [[[Hr Ha] Hp Hn Hu] _]. split_and!; [..|done].
  - intros id r Hl. split; [by rewrite (rows_history _ _ _ _ _ _ Hr), Hl|]. intros n. split; [by apply Hn|]. intros (aid & a & Hla & <- & <-).
    destruct (Hp _ _ Hla) as (r' & Hr' & Hle). rewrite Hr' in Hl. simplify_eq. split; [|done].
    apply (rows_keyed _ _ _ _ _ _ Ha) in Hla as [_ Hc]. unfold route_attempts_checks in Hc. prop_hyps. lia.
  - intros id a Hl. by rewrite (rows_history _ _ _ _ _ _ Ha), Hl.
Qed.

(** C17: facts are append-only. From any reachable state on, whatever transactions run, a
    request or attempt never disappears, a request stays in its tenant and project, a version never decreases and a row with the
    same version is the same row; one that has ended never changes again, and the status
    events and the usage outbox only grow. *)
Theorem recorded_facts_are_final refs db db' : exec_reachable refs db -> rtc (exec_step refs) db db' -> evolves db db'.
Proof. intros H Hs. eapply steps_evolve; [done|]. by eapply exec_reachable_inv. Qed.

(** Usage is published exactly once. In every reachable state the usage events of an
    attempt in the outbox are exactly the positive counts of the summary stored when it
    ended, each count once; an attempt that has not ended has none. *)
Theorem usage_is_published_once refs db id a : exec_reachable refs db -> x_attempts db !! id = Some a ->
  published id (x_outbox db) = billed (ra_UsageSummary a) /\ (ra_EndedAt a = None -> published id (x_outbox db) = []).
Proof.
  intros H Hl. apply exec_reachable_inv in H as [[[_ Ha] _ _ _] Ho]. specialize (Ho id). rewrite Hl in Ho. split; [done|]. intros He. rewrite Ho.
  apply (rows_keyed _ _ _ _ _ _ Ha) in Hl as [_ Hc]. unfold route_attempts_checks, attempt_lifecycle in Hc. prop_hyps. rewrite He in *.
  destruct (ra_Status a); prop_hyps; try done; by destruct (ra_UsageSummary a).
Qed.

(** ** Transitions of the execution recorder succeed, and only with a current handle

    The Go validation and the constraints of the tables agree: a transition the code
    accepts, with the current rows as handles and a clock that has not gone back, is one
    the database accepts. *)
Definition no_faults : Faults := {| fl_begin := false; fl_statement := fun _ => None; fl_commit := None |}.

(** ** Rows after a transition satisfy the constraints *)
Lemma known_category s : categoryPattern s = true -> known_text s = true.
Proof. by destruct s. Qed.
Lemma known_reason s : endReasonPattern s = true -> known_text s = true.
Proof. by destruct s. Qed.
Lemma known_code s : attemptErrorCodePattern s = true -> known_text s = true.
Proof. by destruct s. Qed.

Lemma update_request_succeeds db r matches change : x_requests db !! gr_ID r = Some r -> matches r = true ->
  enforce_gateway_request_transition r (change r) = true -> gateway_requests_checks (change r) = true ->
  update_request db (gr_ID r) matches change = Ok (write_request db (Some r) (change r), change r).
Proof. intros Hr Hm Ht Hc. unfold update_request. by rewrite Hr, Hm, Ht, Hc. Qed.

Lemma update_attempt_succeeds db a matches change : x_attempts db !! ra_ID a = Some a -> matches a = true ->
  enforce_route_attempt_transition a (change a) = true -> route_attempts_checks (change a) = true ->
  update_attempt db (ra_ID a) matches change = Ok (write_attempt db (Some a) (change a), change a).
Proof. intros Ha Hm Ht Hc. unfold update_attempt. by rewrite Ha, Hm, Ht, Hc. Qed.

(** The statuses a completed request can get, from [AttemptOutcome.Validate]. *)
Lemma outcome_request_ends outcome : AttemptOutcome_Validate outcome = true -> ao_RequestStatus outcome <> RequestRunning ->
  ended_request (ao_RequestStatus outcome) = true.
Proof.
  unfold AttemptOutcome_Validate, outcome_status_ok. intros H Hne. apply andb_true_iff in H as [[[_ _]%andb_true_iff H]%andb_true_iff _].
  destruct (ao_AttemptStatus outcome), (ao_RequestStatus outcome); simpl in H; by prop_hyps.
Qed.

Lemma request_ends r status reason now : gateway_requests_checks r = true -> gr_Status r = RequestRunning -> ended_request status = true ->
  endReasonPattern reason = true -> gr_UpdatedAt r <= now ->
  enforce_gateway_request_transition r (move_request status 0 (Some now) reason now r) = true /\
  gateway_requests_checks (move_request status 0 (Some now) reason now r) = true.
Proof.
  intros Hc Hs He Hr Hnow. unfold gateway_requests_checks in *. prop_hyps. split.
  - unfold enforce_gateway_request_transition. simpl. rewrite Hs. prop_goal; try done; try lia. by destruct status.
  - simpl. rewrite He, Hr, (known_reason _ Hr). cbn [has from andb]. prop_goal; try done; lia.
Qed.

Lemma headers_arrive a provider now : route_attempts_checks a = true -> ra_Status a = AttemptConnecting -> ra_UpdatedAt a <= now ->
  no_text provider || providerRequestIDPattern provider = true ->
  enforce_route_attempt_transition a (with_headers provider now a) = true /\ route_attempts_checks (with_headers provider now a) = true.
Proof.
  intros Hc Hs Hnow Hp. unfold route_attempts_checks, attempt_lifecycle in *. rewrite Hs in Hc. prop_hyps. split.
  - unfold enforce_route_attempt_transition. simpl. rewrite Hs. prop_goal; try done; lia.
  - simpl. destruct (ra_EndedAt a), (ra_FirstByteAt a), (ra_HeadersReceivedAt a); try done. simpl in *. prop_goal; try done; lia.
Qed.

(** The attempts a completion finds: connecting without headers, with headers just
    recorded, or streaming. *)
Definition completable (a : RouteAttempt) (outcome : AttemptOutcome) : bool :=
  match ra_Status a with
  | AttemptConnecting => negb (ao_HeadersReceived outcome) && negb (bool_decide (ao_AttemptStatus outcome = AttemptPartialFailed))
  | AttemptHeadersReceived => ao_HeadersReceived outcome && negb (bool_decide (ao_AttemptStatus outcome = AttemptPartialFailed))
  | AttemptStreaming =>
      ao_HeadersReceived outcome && match ao_AttemptStatus outcome with AttemptSucceeded | AttemptPartialFailed | AttemptCancelled => true | _ => false end
  | _ => false
  end.

(** The error texts of a valid outcome: absent for a success, well formed otherwise. *)
Lemma outcome_errors outcome : outcome_status_ok outcome = true ->
  if bool_decide (ao_AttemptStatus outcome = AttemptSucceeded)
  then ao_HeadersReceived outcome = true /\ no_text (ao_ErrorCategory outcome) = true /\ no_text (ao_ErrorCode outcome) = true
  else categoryPattern (ao_ErrorCategory outcome) = true /\ attemptErrorCodePattern (ao_ErrorCode outcome) = true.
Proof.
  unfold outcome_status_ok. destruct (ao_AttemptStatus outcome); try done; simpl; intros H; prop_hyps; try done.
  split; [|done]. match goal with H : ao_ErrorCategory outcome = _ |- _ => by rewrite H end.
Qed.

Lemma attempt_finishes a outcome summary now : route_attempts_checks a = true -> completable a outcome = true -> AttemptOutcome_Validate outcome = true ->
  ra_UpdatedAt a <= now -> from_opt (ra_HeadersReceivedAt a) (Some now) = true -> from_opt (ra_FirstByteAt a) (Some now) = true ->
  enforce_route_attempt_transition a (finish_attempt outcome summary now a) = true /\ route_attempts_checks (finish_attempt outcome summary now a) = true.
Proof.
  intros Hc Hcomp Hv Hnow Hh Hf. unfold AttemptOutcome_Validate in Hv. apply andb_true_iff in Hv as [[[Hreason Hprov]%andb_true_iff Hst]%andb_true_iff _].
  unfold route_attempts_checks in Hc. prop_hyps.
  assert (Htr : attempt_transition (ra_Status a) (ao_AttemptStatus outcome) = true).
  { unfold completable, outcome_status_ok in *. destruct (ra_Status a), (ao_AttemptStatus outcome); try done; simpl in *; prop_hyps; congruence. }
  split; [unfold enforce_route_attempt_transition; simpl; prop_goal; try done; lia|].
  unfold route_attempts_checks, attempt_lifecycle in *. simpl. rewrite Hreason, (known_reason _ Hreason).
  assert (Hprov2 : forall p, no_text p || providerRequestIDPattern p = true ->
    no_text (if no_text p then ao_ProviderRequestID outcome else p) || providerRequestIDPattern (if no_text p then ao_ProviderRequestID outcome else p) = true).
  { intros p Hp. destruct (no_text p) eqn:Ep; simpl in Hp; [|by rewrite Hp, orb_true_r]. destruct (no_text (ao_ProviderRequestID outcome)); [done|]. simpl in Hprov. by apply andb_true_iff in Hprov as []. }
  prop_goal; try done; try lia; try (by apply Hprov2).
  all: pose proof (outcome_errors _ Hst) as He.
  - destruct (bool_decide _); destruct He as (He1 & He2); [destruct He2 as [-> _]; done|by rewrite He1, orb_true_r].
  - destruct (bool_decide _); destruct He as (He1 & He2); [destruct He2 as [_ ->]; done|by rewrite He2, orb_true_r].
  - unfold completable in Hcomp. destruct (decide (ao_AttemptStatus outcome = AttemptSucceeded)) as [E|E].
    + rewrite bool_decide_eq_true_2 in He by done. rewrite E in *. destruct He as (He1 & -> & ->). rewrite He1 in Hcomp.
      destruct (ra_Status a); try done; prop_hyps; simpl; by rewrite ?andb_true_r.
    + rewrite bool_decide_eq_false_2 in He by done. destruct He as [He1 He2]. rewrite (known_category _ He1), (known_code _ He2).
      unfold outcome_status_ok in Hst. destruct (ra_Status a), (ao_AttemptStatus outcome); done.
Qed.

(** ** The usage events of a completion *)
Lemma NoDup_filter_types u : NoDup ((fun d : TokenType * TokenCount => d.1) <$> filter (fun d => billable d = true) (dimensions u)).
Proof.
  eapply sublist_NoDup; [|apply fmap_sublist, sublist_filter]. unfold dimensions. simpl.
  repeat (apply NoDup_cons; split; [set_solver|]). apply NoDup_nil_2.
Qed.

Lemma new_events ids request attempt usage now events : newUsageEvents ids request attempt usage now = Ok events ->
  Forall (fun e => UsageEvent_Validate e = true /\ ue_Identity e = usage_identity request attempt now) events /\ NoDup (ue_TokenType <$> events).
Proof.
  unfold newUsageEvents, NewUsageEvents. destruct usage as [u|]; [|intros [= <-]; split; [by apply Forall_nil|apply NoDup_nil_2]].
  destruct (_ && _); [|done]. destruct (gatewayUsageKind (u_Source u)) as [kind|]; [|done].
  destruct (events_loop _ _ _ _ _ _) as [es|err] eqn:El; [|by destruct err]. intros [= <-]. apply events_loop_Ok in El as (H1 & H2 & _). split.
  - eapply Forall_impl; [exact H2|]. simpl. by intros e (? & ? & _).
  - assert (Ht : ue_TokenType <$> es = (fun d : TokenType * TokenCount => d.1) <$> filter (fun d => billable d = true) (dimensions u)).
    { transitivity (fst <$> ((fun e => (ue_TokenType e, ue_Quantity e)) <$> es)); [by rewrite <- list_fmap_compose|]. by rewrite H1, <- list_fmap_compose. }
    rewrite Ht. apply NoDup_filter_types.
Qed.

Lemma existsb_clash_false e outbox : (forall o, o ∈ outbox -> outbox_clash e o = false) -> existsb (outbox_clash e) outbox = false.
Proof.
  intros H. apply not_true_is_false. intros (o & Hin & Ho)%existsb_exists. rewrite H in Ho; [done|]. by apply list_elem_of_In.
Qed.

Lemma insert_rows_succeeds events : forall outbox,
  (forall e o, e ∈ events -> o ∈ outbox -> outbox_clash e o = false) -> NoDup (ue_EventID <$> events) -> NoDup (ue_TokenType <$> events) ->
  insert_rows outbox events = Some (outbox ++ events).
Proof.
  induction events as [|e events IH]; intros outbox Hold Hid Ht; simpl; [by rewrite app_nil_r|].
  rewrite existsb_clash_false by (intros o; apply Hold; left). apply NoDup_cons in Hid as [Hid1 Hid], Ht as [Ht1 Ht].
  rewrite IH; [by rewrite <- app_assoc| |done|done].
  intros e' o He' [Ho|Ho]%elem_of_app; [by apply Hold; [right|]|]. apply list_elem_of_singleton in Ho as ->. unfold outbox_clash.
  rewrite !bool_decide_eq_false_2; [done| |].
  - intros (_ & _ & Heq & _). apply Ht1. rewrite <- Heq. by apply (list_elem_of_fmap_2 ue_TokenType).
  - intros Heq. apply Hid1. rewrite <- Heq. by apply (list_elem_of_fmap_2 ue_EventID).
Qed.

Lemma published_nil id outbox o : published id outbox = [] -> o ∈ outbox -> ui_AttemptID (ue_Identity o) <> id.
Proof.
  unfold published. intros H%fmap_nil_inv Ho Heq. assert (Hin : o ∈ filter (fun e => ui_AttemptID (ue_Identity e) = id) outbox) by (by apply list_elem_of_filter).
  rewrite H in Hin. by apply not_elem_of_nil in Hin.
Qed.

(** Fresh identities, and a deployment that accepts what the attempt reports. *)
Definition events_fit (refs : References) (db : ExecDB) (events : list UsageEvent) : Prop :=
  NoDup (ue_EventID <$> events) /\ Forall (fun e => Forall (fun o => ue_EventID e <> ue_EventID o) (x_outbox db)) events /\
  match events with first :: _ => deployment_accepts refs first = true | [] => True end.

Lemma insert_events_succeeds refs ids n db request attempt completed usage now events r :
  newUsageEvents ids request attempt usage now = Ok events -> events_fit refs db events -> published (ra_ID attempt) (x_outbox db) = [] ->
  x_requests db !! gr_ID request = Some r -> gr_TenantID r = gr_TenantID request ->
  x_attempts db !! ra_ID attempt = Some completed -> ra_RequestID completed = gr_ID request -> ra_DeploymentID completed = ra_DeploymentID attempt ->
  exists db', insertUsageEventsInTransaction refs no_faults n db events = Ok db'.
Proof.
  intros He (Hids & Hfresh & Hdep) Hnone Hr Hten Ha Hreq Hd. destruct (new_events _ _ _ _ _ _ He) as [Hall Hty].
  unfold insertUsageEventsInTransaction. destruct events as [|first rest]; [by eexists|]. set (events := first :: rest) in *.
  assert (Hval : forallb UsageEvent_Validate events = true).
  { apply forallb_forall. intros e Hin%list_elem_of_In. rewrite Forall_forall in Hall. by apply Hall. }
  assert (Href : forallb (outbox_references db) events = true).
  { apply forallb_forall. intros e Hin%list_elem_of_In. rewrite Forall_forall in Hall. destruct (Hall _ Hin) as [_ Hi].
    unfold outbox_references. rewrite Hi. simpl. rewrite Hr, Ha. prop_goal; done. }
  rewrite Hval, Hdep. cbn [negb stmt no_faults fl_statement]. rewrite Href. cbn [negb].
  rewrite insert_rows_succeeds; [|..|done|done].
  - cbn [result_bind]. rewrite Nat.eqb_refl. by eexists.
  - intros e o Hin Ho. rewrite Forall_forall in Hall, Hfresh. destruct (Hall _ Hin) as [_ Hi]. specialize (Hfresh _ Hin). rewrite Forall_forall in Hfresh.
    unfold outbox_clash. rewrite !bool_decide_eq_false_2; [done| |by apply Hfresh].
    intros (_ & Hat & _). rewrite Hi in Hat. by apply (published_nil _ _ _ Hnone Ho).
Qed.

(** ** Completion succeeds *)
Lemma handle_valid r : gateway_requests_checks r = true -> gr_Status r = RequestRunning -> validateRequestHandle r [RequestRunning] = true.
Proof.
  unfold gateway_requests_checks, validateRequestHandle. intros H Hs. prop_hyps. rewrite Hs. prop_goal; try done; try lia. set_solver.
Qed.

Lemma marshal_valid outcome : AttemptOutcome_Validate outcome = true -> exists summary, marshalUsageSummary (ao_Usage outcome) = Ok summary.
Proof.
  unfold AttemptOutcome_Validate, marshalUsageSummary. intros [_ H]%andb_true_iff. destruct (ao_Usage outcome) as [u|]; [|by eexists].
  rewrite H. by eexists.
Qed.

(** What the Go code checks of an attempt makes it completable. *)
Lemma state_completion_ok a outcome : validateAttemptStateCompletion a outcome = true ->
  (ra_Status a = AttemptConnecting /\ ao_AttemptStatus outcome <> AttemptPartialFailed) \/
  (ra_Status a = AttemptStreaming /\ completable a outcome = true).
Proof.
  unfold validateAttemptStateCompletion, completable. intros H. destruct (ra_Status a); try done; prop_hyps; [by left|right]. split; [done|]. prop_goal; done.
Qed.

Lemma times_before a now : route_attempts_checks a = true -> ra_UpdatedAt a <= now ->
  ra_Status a = AttemptConnecting -> from_opt (ra_HeadersReceivedAt a) (Some now) = true /\ from_opt (ra_FirstByteAt a) (Some now) = true.
Proof.
  unfold route_attempts_checks, attempt_lifecycle. intros H Hn Hs. rewrite Hs in H. prop_hyps. unfold has in *.
  by destruct (ra_HeadersReceivedAt a), (ra_FirstByteAt a).
Qed.

Lemma completion_succeeds db request a outcome summary now :
  x_attempts db !! ra_ID a = Some a -> route_attempts_checks a = true -> ra_RequestID a = gr_ID request ->
  validateAttemptStateCompletion a outcome = true -> AttemptOutcome_Validate outcome = true -> ra_UpdatedAt a <= now ->
  from_opt (ra_HeadersReceivedAt a) (Some now) = true -> from_opt (ra_FirstByteAt a) (Some now) = true ->
  exists db1 completed, completeAttemptInTransaction no_faults db request a outcome summary now = Ok (db1, completed) /\
    ra_Status completed = ao_AttemptStatus outcome /\ ra_EndedAt completed = Some now /\ ra_RequestID completed = ra_RequestID a /\
    ra_DeploymentID completed = ra_DeploymentID a.
Proof.
  intros Hl Hc Hreq Hstate Hv Hnow Hh Hf. pose proof Hv as Hv'. unfold AttemptOutcome_Validate in Hv'.
  apply andb_true_iff in Hv' as [[[_ Hprov]%andb_true_iff _]%andb_true_iff _]. unfold completeAttemptInTransaction.
  destruct (bool_decide (ra_Status a = AttemptConnecting) && ao_HeadersReceived outcome) eqn:E.
  - apply andb_true_iff in E as [Hs%bool_decide_eq_true Hhr]. destruct (state_completion_ok _ _ Hstate) as [[_ Hp]|[Hs' _]]; [|congruence].
    destruct (headers_arrive a (ao_ProviderRequestID outcome) now) as [Ht1 Hc1]; try done.
    { destruct (no_text (ao_ProviderRequestID outcome)); [done|]. simpl in Hprov. by apply andb_true_iff in Hprov as []. }
    set (b := with_headers (ao_ProviderRequestID outcome) now a) in *.
    destruct (attempt_finishes b outcome summary now) as [Ht2 Hc2]; try done.
    { unfold completable. simpl. rewrite Hhr. by rewrite bool_decide_eq_false_2. }
    { simpl. apply Z.leb_le. lia. }
    rewrite (update_attempt_succeeds db a _ (with_headers (ao_ProviderRequestID outcome) now)); [|done|by unfold at_attempt; prop_goal|done|done]. fold b.
    cbn [stmt no_faults fl_statement result_bind].
    rewrite (update_attempt_succeeds _ b _ (finish_attempt outcome summary now)); [|apply lookup_insert_eq|by unfold at_attempt; prop_goal|done|done].
    do 2 eexists. split; [reflexivity|]. done.
  - assert (Hcomp : completable a outcome = true).
    { destruct (state_completion_ok _ _ Hstate) as [[Hs Hp]|[_ Hs]]; [|done]. unfold completable. rewrite Hs in *. rewrite bool_decide_eq_true_2 in E by done.
      simpl in E. rewrite E. by rewrite bool_decide_eq_false_2. }
    destruct (attempt_finishes a outcome summary now) as [Ht2 Hc2]; try done. cbn [result_bind].
    rewrite (update_attempt_succeeds db a _ (finish_attempt outcome summary now)); [|done|by unfold at_attempt; prop_goal|done|done].
    do 2 eexists. split; [reflexivity|]. done.
Qed.

(** A completion that the code accepts is recorded. In any reachable state, for a
    running request and one of its attempts as current handles, an outcome that passes
    validation is committed when no statement fails, the clock has not gone back, and
    the usage events have fresh identities on a known deployment: the attempt and the
    request end together with the statuses of the outcome, and exactly the usage
    events of the attempt are appended to the outbox. *)
Theorem CompleteAttempt_succeeds refs db ids request attempt outcome now events :
  exec_reachable refs db -> x_requests db !! gr_ID request = Some request -> x_attempts db !! ra_ID attempt = Some attempt ->
  gr_Status request = RequestRunning -> ra_RequestID attempt = gr_ID request -> validateAttemptCompletion attempt outcome = true ->
  gr_UpdatedAt request <= now -> ra_UpdatedAt attempt <= now ->
  from_opt (ra_HeadersReceivedAt attempt) (Some now) = true -> from_opt (ra_FirstByteAt attempt) (Some now) = true ->
  newUsageEvents ids request attempt (ao_Usage outcome) now = Ok events -> events_fit refs db events ->
  exists db' r a, CompleteAttempt refs no_faults ids db request attempt outcome now = (db', Ok (r, a)) /\
    gr_Status r = ao_RequestStatus outcome /\ gr_EndedAt r = Some now /\ ra_Status a = ao_AttemptStatus outcome /\ ra_EndedAt a = Some now /\
    x_outbox db' = x_outbox db ++ events.
Proof.
  intros Hreach Hr Ha Hrun Hpar Hval Hn1 Hn2 Hh Hf He Hfit. pose proof (exec_reachable_inv _ _ Hreach) as Hinv.
  destruct (rows_keyed _ _ _ _ _ _ (proj1 (ei_rows _ (proj1 Hinv))) _ _ Hr) as [_ Hrc].
  destruct (rows_keyed _ _ _ _ _ _ (proj2 (ei_rows _ (proj1 Hinv))) _ _ Ha) as [_ Hac].
  unfold CompleteAttempt. rewrite (handle_valid _ Hrc Hrun), Hval, bool_decide_eq_true_2 by done. cbn [negb orb].
  unfold validateAttemptCompletion in Hval. apply andb_true_iff in Hval as [[Hout Hne]%andb_true_iff Hstate].
  destruct (marshal_valid _ Hout) as [summary Hsum]. rewrite Hsum, He.
  destruct (completion_succeeds db request attempt outcome summary now) as (db1 & completed & E1 & Hst & Hend & Hreq & Hdep); try done.
  destruct (complete_in_transaction _ _ _ _ _ _ _ _ _ Hinv E1) as (_ & Hout1 & Hreqs & _ & Hat & _ & Hnone & _).
  destruct (insert_events_succeeds refs ids 2 db1 request attempt completed (ao_Usage outcome) now events request) as [db2 E2]; try done.
  { unfold events_fit. by rewrite Hout1. }
  { by rewrite Hout1. }
  { by rewrite Hreqs. }
  { congruence. }
  pose proof (insert_events_Ok _ _ _ _ _ _ E2) as (R2 & _ & _ & _ & O2).
  assert (Hreason : endReasonPattern (ao_EndReason outcome) = true) by (unfold AttemptOutcome_Validate in Hout; by prop_hyps).
  destruct (request_ends request (ao_RequestStatus outcome) (ao_EndReason outcome) now) as [Ht Hc]; try done.
  { apply outcome_request_ends; [done|]. by prop_hyps. }
  rewrite E1. cbn [result_bind]. rewrite E2. cbn [result_bind].
  rewrite (update_request_succeeds db2 request _ (move_request (ao_RequestStatus outcome) 0 (Some now) (ao_EndReason outcome) now));
    [|by rewrite R2, Hreqs|by unfold at_version; prop_goal|done|done].
  do 3 eexists. split; [reflexivity|]. simpl. split_and!; try done. by rewrite O2, Hout1.
Qed.

(** ** Stale handles *)
(** The row a handle was read from has moved on, or does not exist. *)
Definition stale_request (db : ExecDB) (request : GatewayRequest) : Prop :=
  forall r, x_requests db !! gr_ID request = Some r -> gr_Version r <> gr_Version request.
Definition stale_attempt (db : ExecDB) (attempt : RouteAttempt) : Prop :=
  forall a, x_attempts db !! ra_ID attempt = Some a -> ra_Version a <> ra_Version attempt.

Definition refused {A : Type} (db : ExecDB) (r : ExecDB * result A exec_error) : Prop := r.1 = db /\ exists e, r.2 = Err e.

Lemma refused_err {A : Type} db e : refused db (db, @Err A exec_error e).
Proof. split; [done|by eexists]. Qed.

Lemma committed_refused {A : Type} faults db (r : result (ExecDB * A) exec_error) e : r = Err e -> refused db (committed faults db r).
Proof. intros ->. apply refused_err. Qed.

Lemma transaction_refused {A : Type} faults db (r : result (ExecDB * A) exec_error) e : r = Err e -> refused db (transaction faults db r).
Proof. intros ->. unfold transaction. destruct (fl_begin faults); apply refused_err. Qed.

Lemma stmt_refused {A : Type} faults n (r : result A stmt_failure) e : r = Err e ->
  stmt faults n r = Err (mapDatabaseError (from_option Statement_failed e (fl_statement faults n))).
Proof. intros ->. unfold stmt. by destruct (fl_statement faults n). Qed.

Lemma update_request_stale db request status matches change : stale_request db request ->
  (forall r, matches r = true -> at_version status (gr_Version request) r = true) -> update_request db (gr_ID request) matches change = Err NoRow.
Proof.
  intros Hst Hm. unfold update_request. destruct (x_requests db !! gr_ID request) as [r|] eqn:E; [|done].
  destruct (matches r) eqn:Er; [|done]. apply Hm in Er. unfold at_version in Er. prop_hyps. by specialize (Hst _ E).
Qed.

Lemma update_attempt_stale db attempt owner status change : stale_attempt db attempt ->
  update_attempt db (ra_ID attempt) (at_attempt owner status (ra_Version attempt)) change = Err NoRow.
Proof.
  intros Hst. unfold update_attempt. destruct (x_attempts db !! ra_ID attempt) as [a|] eqn:E; [|done].
  destruct (at_attempt owner status (ra_Version attempt) a) eqn:Ea; [|done]. unfold at_attempt in Ea. specialize (Hst _ E).
  apply andb_true_iff in Ea as [_ Ea%Z.eqb_eq]. done.
Qed.

Lemma completion_stale faults db request attempt outcome summary now : stale_attempt db attempt ->
  exists e, completeAttemptInTransaction faults db request attempt outcome summary now = Err e.
Proof.
  intros Hst. unfold completeAttemptInTransaction. destruct (bool_decide (ra_Status attempt = AttemptConnecting) && _).
  - erewrite stmt_refused by (by apply update_attempt_stale). by eexists.
  - cbn [result_bind]. erewrite stmt_refused by (by apply update_attempt_stale). by eexists.
Qed.

Lemma complete_keeps_requests faults db request attempt outcome summary now db1 completed :
  completeAttemptInTransaction faults db request attempt outcome summary now = Ok (db1, completed) -> x_requests db1 = x_requests db.
Proof.
  intros ([db0 current] & E0 & E1%stmt_Ok)%bind_Ok. apply update_attempt_Ok in E1 as (? & _ & _ & _ & -> & _). simpl.
  revert E0. destruct (bool_decide (ra_Status attempt = AttemptConnecting) && _); intros E0; [|by simplify_eq].
  apply stmt_Ok, update_attempt_Ok in E0 as (? & _ & _ & _ & -> & _). done.
Qed.

(** Writers race safely on versions. A request handle whose row has been written by
    someone else since it was read is refused by every operation that moves the request
    (routing, failing, starting and completing an attempt), and a stale attempt handle
    by every operation that moves the attempt: an error is returned and the tables are
    exactly as before, whatever else fails. *)
Theorem stale_handles_cannot_write refs faults db request attempt newID ids status reason deployment provider outcome now now' :
  (stale_request db request ->
    refused db (MarkRouting faults db request now) /\ refused db (FailRequest faults db request status reason now) /\
    refused db (StartAttempt refs faults newID db request deployment now) /\
    refused db (CompleteAttempt refs faults ids db request attempt outcome now)) /\
  (stale_attempt db attempt ->
    refused db (MarkAttemptStreaming faults db request attempt provider now now') /\
    refused db (CompleteAttempt refs faults ids db request attempt outcome now) /\
    refused db (CompleteAttemptForRetry refs faults ids db request attempt outcome now)).
Proof.
  split; intros Hst; split_and!.
  - unfold MarkRouting. case_match; [apply refused_err|]. erewrite stmt_refused by (by eapply update_request_stale).
    by eapply committed_refused.
  - unfold FailRequest. case_match; [apply refused_err|]. erewrite stmt_refused by (by eapply update_request_stale).
    by eapply committed_refused.
  - unfold StartAttempt. case_match; [apply refused_err|]. case_match; [|apply refused_err]. erewrite stmt_refused.
    2: { eapply update_request_stale; [done|]. by intros r [? _]%andb_true_iff. }
    by eapply transaction_refused.
  - unfold CompleteAttempt. case_match; [apply refused_err|]. case_match; [|apply refused_err]. case_match; [|apply refused_err].
    destruct (completeAttemptInTransaction _ _ _ _ _ _ _) as [[db1 completed]|e] eqn:E1; [|by eapply transaction_refused].
    cbn [result_bind]. destruct (insertUsageEventsInTransaction _ _ _ _ _) as [db2|e] eqn:E2; [|by eapply transaction_refused].
    cbn [result_bind]. erewrite stmt_refused; [by eapply transaction_refused|].
    eapply update_request_stale; [|done]. apply insert_events_Ok in E2 as [HR _]. apply complete_keeps_requests in E1.
    unfold stale_request. by rewrite HR, E1.
  - unfold MarkAttemptStreaming. case_match; [apply refused_err|]. erewrite stmt_refused by (by apply update_attempt_stale).
    by eapply transaction_refused.
  - unfold CompleteAttempt. case_match; [apply refused_err|]. case_match; [|apply refused_err]. case_match; [|apply refused_err].
    edestruct completion_stale as [e ->]; [done|]. by eapply transaction_refused.
  - unfold CompleteAttemptForRetry. case_match; [apply refused_err|]. case_match; [|apply refused_err]. case_match; [|apply refused_err].
    edestruct completion_stale as [e ->]; [done|]. by eapply transaction_refused.
Qed.

(** ** A run of the recorder *)
(** One request, one attempt that streams and succeeds, with usage reported. *)
Module Demo.
Definition refs : References :=
  {| ref_identity := fun _ _ _ _ => true; ref_deployment := fun _ => Some ("gpt-4o", 1, "openai/v1")%string |}.
Definition start : StartRequest :=
  {| start_ID := "request-1"; start_TenantID := "11111111-1111-4111-8111-111111111111"; start_ProjectID := "66666666-6666-4666-8666-666666666666";
     start_VirtualKeyID := "77777777-7777-4777-8777-777777777777"; start_LogicalModel := "chat";
     start_TraceID := "0123456789abcdef0123456789abcdef"; start_SpanID := "0123456789abcdef" |}.
Definition attempt_id : string := "22222222-2222-4222-8222-222222222222".
Definition deployment : string := "33333333-3333-4333-8333-333333333333".

Definition db1 := (StartRequest_op refs no_faults exec_start start 10).1.
Definition request1 := default (move_request RequestRouting 0 None "" 0 (Build_GatewayRequest "" "" "" "" "" "" "" RequestRouting 0 0 None "" 0 0))
  (x_requests db1 !! start_ID start).
Definition db2 := (MarkRouting no_faults db1 request1 11).1.
Definition request2 := default request1 (x_requests db2 !! start_ID start).
Definition db3 := (StartAttempt refs no_faults (Some attempt_id) db2 request2 deployment 12).1.
Definition request3 := default request1 (x_requests db3 !! start_ID start).
Definition attempt3 := default (new_attempt "" "" 0 "" 0) (x_attempts db3 !! attempt_id).
Definition db4 := (MarkAttemptStreaming no_faults db3 request3 attempt3 "prov-1" 13 14).1.
Definition attempt4 := default attempt3 (x_attempts db4 !! attempt_id).
Definition outcome : AttemptOutcome :=
  {| ao_AttemptStatus := AttemptSucceeded; ao_RequestStatus := RequestSucceeded; ao_HeadersReceived := true; ao_EndReason := "stop";
     ao_ProviderRequestID := "prov-1"; ao_ErrorCategory := ""; ao_ErrorCode := ""; ao_Usage := Some demo_usage |}.
Definition events : list UsageEvent := match newUsageEvents demo_ids request3 attempt4 (ao_Usage outcome) 20 with Ok e => e | Err _ => [] end.
Definition db5 := (CompleteAttempt refs no_faults demo_ids db4 request3 attempt4 outcome 20).1.

Lemma reach4 : exec_reachable refs db4.
Proof.
  eapply rtc_l; [apply (step_start refs no_faults exec_start start 10)|]. eapply rtc_l; [apply (step_routing refs no_faults db1 request1 11)|].
  eapply rtc_l; [apply (step_attempt refs no_faults (Some attempt_id) db2 request2 deployment 12)|].
  eapply rtc_l; [apply (step_streaming refs no_faults db3 request3 attempt3 "prov-1" 13 14)|]. apply rtc_refl.
Qed.

Lemma reach5 : exec_reachable refs db5.
Proof. eapply rtc_r; [apply reach4|]. apply (step_complete refs no_faults demo_ids db4 request3 attempt4 outcome 20). Qed.
End Demo.

Lemma CompleteAttempt_succeeds_witness : exists db' r a,
  CompleteAttempt Demo.refs no_faults demo_ids Demo.db4 Demo.request3 Demo.attempt4 Demo.outcome 20 = (db', Ok (r, a)) /\
  gr_Status r = RequestSucceeded /\ x_outbox db' = x_outbox Demo.db4 ++ Demo.events /\ length Demo.events = 2%nat.
Proof.
  destruct (CompleteAttempt_succeeds Demo.refs Demo.db4 demo_ids Demo.request3 Demo.attempt4 Demo.outcome 20 Demo.events) as (db' & r & a & H & Hs & _ & _ & _ & Ho).
  all: try (vm_compute; reflexivity).
  - apply Demo.reach4.
  - vm_compute; congruence.
  - vm_compute; congruence.
  - split_and!; [apply (bool_decide_unpack _); vm_compute; exact I|apply (bool_decide_unpack _); vm_compute; exact I|vm_compute; reflexivity].
  - exists db', r, a. split_and!; [exact H|exact Hs|exact Ho|vm_compute; reflexivity].
Defined.

Lemma execution_history_is_complete_witness :
  x_attempts Demo.db5 !! Demo.attempt_id <> None /\
  forall id a, x_attempts Demo.db5 !! id = Some a -> replay None 0 (of_id id (x_attempt_events Demo.db5)) = Some (Some (ra_Status a), ra_Version a).
Proof. split; [vm_compute; discriminate|]. exact (proj1 (proj2 (execution_history_is_complete Demo.refs Demo.db5 Demo.reach5))). Defined.

Lemma recorded_facts_are_final_witness : evolves Demo.db4 Demo.db5.
Proof.
  apply (recorded_facts_are_final Demo.refs); [apply Demo.reach4|]. eapply rtc_l; [|apply rtc_refl].
  apply (step_complete Demo.refs no_faults demo_ids Demo.db4 Demo.request3 Demo.attempt4 Demo.outcome 20).
Defined.

Lemma usage_is_published_once_witness : exists a, x_attempts Demo.db5 !! Demo.attempt_id = Some a /\
  published Demo.attempt_id (x_outbox Demo.db5) = billed (ra_UsageSummary a) /\ length (published Demo.attempt_id (x_outbox Demo.db5)) = 2%nat.
Proof.
  destruct (x_attempts Demo.db5 !! Demo.attempt_id) as [a|] eqn:E; [|by vm_compute in E]. exists a. split; [reflexivity|].
  split; [exact (proj1 (usage_is_published_once Demo.refs Demo.db5 Demo.attempt_id a Demo.reach5 E))|vm_compute; reflexivity].
Defined.

(** The handle read before the attempt was completed is refused afterwards. *)
Lemma stale_handles_cannot_write_witness :
  refused Demo.db5 (FailRequest no_faults Demo.db5 Demo.request3 RequestFailed "timeout" 30) /\
  refused Demo.db5 (CompleteAttemptForRetry Demo.refs no_faults demo_ids Demo.db5 Demo.request3 Demo.attempt4 Demo.outcome 30).
Proof.
  pose proof (stale_handles_cannot_write Demo.refs no_faults Demo.db5 Demo.request3 Demo.attempt4 None demo_ids RequestFailed "timeout" Demo.deployment ""
    Demo.outcome 30 30) as [Hr Ha].
  split.
  - apply Hr. intros r E. vm_compute in E. injection E as <-. vm_compute. discriminate.
  - apply Ha. intros r E. vm_compute in E. injection E as <-. vm_compute. discriminate.
Defined.
