(* ===== verification/MeteringCost.v ===== *)
(** * Request cost (src/internal/meteringcost/model.go)

    The projection that rebuilds the cost of one terminal request from its attempts
    and immutable ledger facts. *)
From Stdlib Require Import ZArith Lia Bool Ascii String.
From stdpp Require Import base tactics option list strings gmap fin_maps sets.
From S2P Require Import Prelude Identifiers Unicode Catalog Retry Metering Execution.
(** ** Data *)
Inductive cost_error := ErrUnavailable.
Inductive Origin := OriginManual | OriginProviderReconciliation | OriginSystemRepair | OriginOther (value : string).

Record Scope := { scope_TenantID : string; scope_ProjectID : string }.
Record CurrencyTotal := { total_Currency : string; total_AmountMicros : Z }.

Record LedgerAdjustment := {
  adj_TargetEventID : string; adj_Origin : Origin; adj_Reason : string; adj_Reference : string; adj_Actor : string;
  adj_CorrectedQuantity : Z; adj_CorrectedAmountMicros : Z }.

(** [ledgerFact]; the exported [LedgerEntry] has the same fields. *)
Record ledgerFact := {
  lf_eventID : string; lf_attemptID : string; lf_tokenType : TokenType; lf_quantity : Z; lf_source : Source;
  lf_observedAt : Time; lf_createdAt : Time; lf_priceVersionID : string; lf_currency : string;
  lf_billingUnit : BillingUnit; lf_unitQuantity : Z; lf_unitPriceMicros : Z; lf_amountMicros : Z;
  lf_adjustment : option LedgerAdjustment }.

Record attemptFact := { af_id : string; af_number : Z; af_deploymentID : string; af_status : AttemptStatus }.

Record CostBucket := { LedgerEntryCount : Z; Entries : list ledgerFact; Totals : list CurrencyTotal }.

Record AttemptCost := {
  ac_AttemptID : string; ac_AttemptNo : Z; ac_DeploymentID : string; ac_Status : AttemptStatus; ac_Bucket : CostBucket }.

Record RequestCost := {
  rc_TenantID : string; rc_ProjectID : string; rc_RequestID : string; rc_Status : RequestStatus; rc_AttemptCount : Z;
  rc_LedgerEntryCount : Z; rc_Attempts : list AttemptCost; rc_RequestLevel : CostBucket; rc_Totals : list CurrencyTotal }.

(** ** Validation *)
Definition Scope_Validate (s : Scope) : bool := uuidPattern (scope_TenantID s) && uuidPattern (scope_ProjectID s).

Definition Origin_Valid (o : Origin) : bool := match o with OriginOther _ => false | _ => true end.

(** [^[A-Za-z0-9][A-Za-z0-9._:@/-]{0,199}$] *)
Definition auditPattern : string -> bool := match_head_tail alnum (or_class alnum (one_of "._:@/-")) 0 199.
(** [^[a-z][a-z0-9._:-]{0,127}$] *)
Definition reasonPattern : string -> bool := match_head_tail lower (or_class lower_digit (one_of "._:-")) 0 127.

Definition validAdjustment (a : option LedgerAdjustment) : bool :=
  match a with
  | None => false
  | Some a =>
      uuidPattern (adj_TargetEventID a) && Origin_Valid (adj_Origin a) && reasonPattern (adj_Reason a) &&
      auditPattern (adj_Reference a) && auditPattern (adj_Actor a) && (0 <=? adj_CorrectedQuantity a) &&
      (adj_CorrectedQuantity a <=? MaximumExactInteger) && (0 <=? adj_CorrectedAmountMicros a) &&
      (adj_CorrectedAmountMicros a <=? MaximumExactInteger)
  end.

Definition terminalRequestStatus (s : RequestStatus) : bool :=
  match s with RequestSucceeded | RequestPartialFailed | RequestFailed | RequestCancelled => true | _ => false end.
Definition terminalAttemptStatus (s : AttemptStatus) : bool :=
  match s with
  | AttemptSucceeded | AttemptRetryableFailed | AttemptFailed | AttemptPartialFailed | AttemptCancelled => true
  | _ => false
  end.

(** [ledgerFact.entry]: the entry is the fact itself when it is well-formed. *)
Definition entry (f : ledgerFact) : result ledgerFact cost_error :=
  let rate := {| rate_TokenType := lf_tokenType f; rate_BillingUnit := lf_billingUnit f;
                 UnitQuantity := lf_unitQuantity f; UnitPriceMicros := lf_unitPriceMicros f |} in
  ensure (uuidPattern (lf_eventID f) && (bool_decide (lf_attemptID f = ""%string) || uuidPattern (lf_attemptID f)) &&
          uuidPattern (lf_priceVersionID f) && currencyPattern (lf_currency f) && negb (time_is_zero (lf_observedAt f)) &&
          negb (time_is_zero (lf_createdAt f)) && PriceRate_Validate rate && ValidSource (lf_source f)) else ErrUnavailable in
  ensure (if bool_decide (lf_source f = SourceAdjustment)
          then (- MaximumExactInteger <=? lf_quantity f) && (lf_quantity f <=? MaximumExactInteger) &&
               (- MaximumExactInteger <=? lf_amountMicros f) && (lf_amountMicros f <=? MaximumExactInteger) &&
               negb ((lf_quantity f =? 0) && (lf_amountMicros f =? 0)) && validAdjustment (lf_adjustment f)
          else (1 <=? lf_quantity f) && (lf_quantity f <=? MaximumExactInteger) && (0 <=? lf_amountMicros f) &&
               (lf_amountMicros f <=? MaximumExactInteger) && negb (bool_decide (is_Some (lf_adjustment f))))
    else ErrUnavailable in
  Ok f.

(** ** Totals per currency *)
Notation currencyAccumulator := (gmap string Z).

Definition add (totals : currencyAccumulator) (currency : string) (amount : Z) : currencyAccumulator :=
  <[currency := default 0 (totals !! currency) + amount]> totals.

(** [sort.Strings] *)
Fixpoint insert_string (s : string) (l : list string) : list string :=
  match l with [] => [s] | t :: l' => if String.ltb t s then t :: insert_string s l' else s :: t :: l' end.
Definition sort_strings (l : list string) : list string := foldr insert_string [] l.

Fixpoint ordered_loop (totals : currencyAccumulator) (currencies : list string) : result (list CurrencyTotal) cost_error :=
  match currencies with
  | [] => Ok []
  | c :: rest =>
      let amount := default 0 (totals !! c) in
      ensure ((0 <=? amount) && (amount <=? MaximumExactInteger)) else ErrUnavailable in
      let? l := ordered_loop totals rest in
      Ok ({| total_Currency := c; total_AmountMicros := amount |} :: l)
  end.

Definition ordered (totals : currencyAccumulator) : result (list CurrencyTotal) cost_error :=
  ordered_loop totals (sort_strings (map_to_list totals).*1).

(** ** Building the cost *)
Fixpoint insert_attempt (a : attemptFact) (l : list attemptFact) : list attemptFact :=
  match l with [] => [a] | b :: l' => if af_number b <? af_number a then b :: insert_attempt a l' else a :: b :: l' end.
Definition sort_attempts (l : list attemptFact) : list attemptFact := foldr insert_attempt [] l.

(** The loop that checks the sorted attempts from position [index] on. *)
Fixpoint attempts_ok (attempts : list attemptFact) (index : Z) (seen : list string) : bool :=
  match attempts with
  | [] => true
  | a :: rest =>
      uuidPattern (af_id a) && (af_number a =? index + 1) && uuidPattern (af_deploymentID a) &&
      terminalAttemptStatus (af_status a) && negb (bool_decide (af_id a ∈ seen)) && attempts_ok rest (index + 1) (af_id a :: seen)
  end.

(** One accumulating bucket: entries in order and running totals. *)
Record bucket := { b_entries : list ledgerFact; b_totals : currencyAccumulator }.
Definition empty_bucket : bucket := {| b_entries := []; b_totals := ∅ |}.
Definition charge (b : bucket) (f : ledgerFact) : bucket :=
  {| b_entries := b_entries b ++ [f]; b_totals := add (b_totals b) (lf_currency f) (lf_amountMicros f) |}.

Record accumulation := { a_attempts : list bucket; a_requestLevel : bucket; a_totals : currencyAccumulator }.

Fixpoint index_of (id : string) (attempts : list attemptFact) : option nat :=
  match attempts with
  | [] => None
  | a :: rest => if bool_decide (af_id a = id) then Some O else S <$> index_of id rest
  end.

(** The loop over the ledger facts. *)
Fixpoint facts_loop (attempts : list attemptFact) (facts : list ledgerFact) (seen : list string) (acc : accumulation)
    : result accumulation cost_error :=
  match facts with
  | [] => Ok acc
  | f :: rest =>
      let? e := entry f in
      ensure (negb (bool_decide (lf_eventID f ∈ seen))) else ErrUnavailable in
      let totals := add (a_totals acc) (lf_currency f) (lf_amountMicros f) in
      if bool_decide (lf_attemptID f = ""%string) then
        facts_loop attempts rest (lf_eventID f :: seen)
          {| a_attempts := a_attempts acc; a_requestLevel := charge (a_requestLevel acc) e; a_totals := totals |}
      else match index_of (lf_attemptID f) attempts with
      | None => Err ErrUnavailable
      | Some i =>
          facts_loop attempts rest (lf_eventID f :: seen)
            {| a_attempts := alter (fun b => charge b e) i (a_attempts acc); a_requestLevel := a_requestLevel acc; a_totals := totals |}
      end
  end.

Definition finish (b : bucket) : result CostBucket cost_error :=
  let? totals := ordered (b_totals b) in
  Ok {| LedgerEntryCount := Z.of_nat (length (b_entries b)); Entries := b_entries b; Totals := totals |}.

Fixpoint finish_attempts (attempts : list attemptFact) (buckets : list bucket) : result (list AttemptCost) cost_error :=
  match attempts, buckets with
  | a :: attempts', b :: buckets' =>
      let? cost := finish b in
      let? rest := finish_attempts attempts' buckets' in
      Ok ({| ac_AttemptID := af_id a; ac_AttemptNo := af_number a; ac_DeploymentID := af_deploymentID a;
             ac_Status := af_status a; ac_Bucket := cost |} :: rest)
  | _, _ => Ok []
  end.

Definition buildRequestCost (scope : Scope) (requestID : string) (status : RequestStatus) (declaredAttemptCount : Z)
    (attemptFacts : list attemptFact) (ledgerFacts : list ledgerFact) : result RequestCost cost_error :=
  ensure (Scope_Validate scope && requestIDPattern requestID && terminalRequestStatus status && (0 <=? declaredAttemptCount) &&
          (declaredAttemptCount =? Z.of_nat (length attemptFacts))) else ErrUnavailable in
  let attempts := sort_attempts attemptFacts in
  ensure (attempts_ok attempts 0 []) else ErrUnavailable in
  let? acc := facts_loop attempts ledgerFacts []
    {| a_attempts := (fun _ => empty_bucket) <$> attempts; a_requestLevel := empty_bucket; a_totals := ∅ |} in
  let? costs := finish_attempts attempts (a_attempts acc) in
  let? requestLevel := finish (a_requestLevel acc) in
  let? totals := ordered (a_totals acc) in
  Ok {| rc_TenantID := scope_TenantID scope; rc_ProjectID := scope_ProjectID scope; rc_RequestID := requestID;
        rc_Status := status; rc_AttemptCount := declaredAttemptCount; rc_LedgerEntryCount := Z.of_nat (length ledgerFacts);
        rc_Attempts := costs; rc_RequestLevel := requestLevel; rc_Totals := totals |}.

(** ** Lemmas *)
Definition amount_in (currency : string) (l : list CurrencyTotal) : Z :=
  match find (fun t => bool_decide (total_Currency t = currency)) l with Some t => total_AmountMicros t | None => 0 end.

(** The amount a list of facts charges in one currency. *)
Definition charged (currency : string) (facts : list ledgerFact) : Z :=
  sum_by (fun f => if decide (lf_currency f = currency) then lf_amountMicros f else 0) facts.

Definition tracks (totals : currencyAccumulator) (facts : list ledgerFact) : Prop :=
  forall c, default 0 (totals !! c) = charged c facts.

Lemma tracks_add totals facts f : tracks totals facts -> tracks (add totals (lf_currency f) (lf_amountMicros f)) (facts ++ [f]).
Proof.
  intros H c. unfold add, charged. rewrite sum_by_app. simpl. fold (charged c facts). rewrite <- H.
  destruct (decide (lf_currency f = c)) as [<-|Hne]; [rewrite lookup_insert_eq; simpl; lia|]. rewrite lookup_insert_ne by done. lia.
Qed.

Lemma insert_string_perm s l : insert_string s l ≡ₚ s :: l.
Proof. induction l as [|t l IH]; simpl; [done|]. destruct (String.ltb t s); [|done]. rewrite IH. apply Permutation_swap. Qed.

Lemma sort_strings_perm l : sort_strings l ≡ₚ l.
Proof. induction l; [done|]. simpl. rewrite insert_string_perm. by f_equiv. Qed.

Lemma ordered_loop_Ok totals currencies : forall l,
  ordered_loop totals currencies = Ok l ->
  (forall c, amount_in c l = if decide (c ∈ currencies) then default 0 (totals !! c) else 0) /\
  total_Currency <$> l = currencies /\ Forall (fun t => 0 <= total_AmountMicros t <= MaximumExactInteger) l.
Proof.
  induction currencies as [|x rest IH]; intros l; simpl.
  { intros [= <-]. split_and!; [|done|by apply Forall_nil]. intros c. unfold amount_in. simpl. by repeat case_match. }
  destruct ((0 <=? default 0 (totals !! x)) && (default 0 (totals !! x) <=? MaximumExactInteger)) eqn:Eb; [|done].
  destruct (ordered_loop totals rest) as [l'|] eqn:El; [|done]. simpl. intros [= <-].
  destruct (IH _ eq_refl) as (H1 & H2 & H3). prop_hyps. split_and!.
  - intros c. unfold amount_in. simpl. destruct (decide (x = c)) as [->|Hne].
    + rewrite bool_decide_eq_true_2 by done. rewrite decide_True by left. done.
    + rewrite bool_decide_eq_false_2 by done. fold (amount_in c l'). rewrite H1.
      destruct (decide (c ∈ rest)); [rewrite decide_True by (by right)|rewrite decide_False by set_solver]; done.
  - by rewrite fmap_cons, H2.
  - apply Forall_cons. split; [simpl; lia|done].
Qed.

Lemma ordered_Ok totals l c : ordered totals = Ok l -> amount_in c l = default 0 (totals !! c).
Proof.
  intros H. apply ordered_loop_Ok in H as (H & _). rewrite H. case_decide as Hin; [done|].
  destruct (totals !! c) as [v|] eqn:E; [|done]. exfalso. apply Hin. rewrite sort_strings_perm.
  apply list_elem_of_fmap. exists (c, v). split; [done|]. by apply elem_of_map_to_list.
Qed.

Definition facts_of (id : string) (facts : list ledgerFact) : list ledgerFact := filter (fun f => lf_attemptID f = id) facts.

(** Every fact belongs to the request level or to exactly one attempt, so sums over
    the parts add up to the sum over all facts. *)
Lemma sum_parts (g : ledgerFact -> Z) (attempts : list attemptFact) facts :
  NoDup (af_id <$> attempts) -> ""%string ∉ af_id <$> attempts ->
  (forall f, f ∈ facts -> lf_attemptID f = ""%string \/ lf_attemptID f ∈ af_id <$> attempts) ->
  sum_by g facts = sum_by (fun a => sum_by g (facts_of (af_id a) facts)) attempts + sum_by g (facts_of "" facts).
Proof.
  intros Hnd Hne. induction facts as [|f facts IH]; intros Hf; simpl.
  { clear. induction attempts as [|a l IH]; simpl in *; lia. }
  rewrite IH by (intros; apply Hf; by right). unfold facts_of at 4. rewrite filter_cons.
  assert (Hpart : sum_by (fun a => sum_by g (facts_of (af_id a) (f :: facts))) attempts =
    (if decide (lf_attemptID f ∈ af_id <$> attempts) then g f else 0) + sum_by (fun a => sum_by g (facts_of (af_id a) facts)) attempts).
  { clear -Hnd. induction attempts as [|a attempts IH]; simpl in *; [by repeat case_match|].
    apply NoDup_cons in Hnd as [Ha Hnd]. rewrite IH by done. unfold facts_of at 1. rewrite filter_cons.
    destruct (decide (lf_attemptID f = af_id a)) as [Heq|Hneq]; simpl; fold (facts_of (af_id a) facts).
    - destruct (decide (lf_attemptID f ∈ af_id <$> attempts)) as [Hin|_]; [rewrite Heq in Hin; done|].
      destruct (decide _) as [_|Hout]; [lia|]. exfalso. apply Hout. rewrite Heq. left.
    - destruct (decide (lf_attemptID f ∈ af_id <$> attempts)); [rewrite decide_True by (by right)|rewrite decide_False by set_solver]; lia. }
  rewrite Hpart. fold (facts_of "" facts). destruct (Hf f ltac:(left)) as [Heq|Hin].
  - rewrite Heq, decide_False, decide_True by done. simpl. fold (facts_of "" facts). lia.
  - rewrite decide_True, decide_False by (try done; intros Heq; apply Hne; by rewrite <- Heq). fold (facts_of "" facts). lia.
Qed.

Lemma index_of_Some id attempts : forall i, index_of id attempts = Some i -> exists a, attempts !! i = Some a /\ af_id a = id.
Proof.
  induction attempts as [|a rest IH]; intros i; simpl; [done|]. destruct (bool_decide _) eqn:E; prop_hyps.
  - intros [= <-]. eauto.
  - intros (j & Hj & ->)%fmap_Some. destruct (IH _ Hj) as (b & Hb & Hid). eauto.
Qed.

Definition holds_bucket (b : bucket) (facts : list ledgerFact) : Prop := b_entries b = facts /\ tracks (b_totals b) facts.

Lemma charge_holds b facts f : holds_bucket b facts -> holds_bucket (charge b f) (facts ++ [f]).
Proof. intros [H1 H2]. split; simpl; [by rewrite H1|by apply tracks_add]. Qed.

Record accumulated (attempts : list attemptFact) (facts : list ledgerFact) (acc : accumulation) : Prop := {
  acc_total : tracks (a_totals acc) facts;
  acc_level : holds_bucket (a_requestLevel acc) (facts_of "" facts);
  acc_attempts : Forall2 (fun a b => holds_bucket b (facts_of (af_id a) facts)) attempts (a_attempts acc);
  acc_known : forall f, f ∈ facts -> lf_attemptID f = ""%string \/ lf_attemptID f ∈ af_id <$> attempts }.

Lemma facts_of_app id facts f :
  facts_of id (facts ++ [f]) = facts_of id facts ++ (if decide (lf_attemptID f = id) then [f] else []).
Proof. unfold facts_of. rewrite filter_app, filter_cons, filter_nil. done. Qed.

Lemma accumulate_step attempts facts acc f :
  NoDup (af_id <$> attempts) -> ""%string ∉ af_id <$> attempts -> accumulated attempts facts acc ->
  (lf_attemptID f = ""%string -> accumulated attempts (facts ++ [f])
    {| a_attempts := a_attempts acc; a_requestLevel := charge (a_requestLevel acc) f;
       a_totals := add (a_totals acc) (lf_currency f) (lf_amountMicros f) |}) /\
  (forall i, lf_attemptID f <> ""%string -> index_of (lf_attemptID f) attempts = Some i -> accumulated attempts (facts ++ [f])
    {| a_attempts := alter (fun b => charge b f) i (a_attempts acc); a_requestLevel := a_requestLevel acc;
       a_totals := add (a_totals acc) (lf_currency f) (lf_amountMicros f) |}).
Proof.
  intros Hnd Hne [Ht Hl Ha Hk]. split.
  - intros Hf. split; simpl.
    + by apply tracks_add.
    + rewrite facts_of_app, decide_True by done. by apply charge_holds.
    + apply Forall2_same_length_lookup_2; [by eapply Forall2_length|]. intros i a b Hia Hib.
      rewrite facts_of_app, decide_False, app_nil_r; [exact (Forall2_lookup_lr _ _ _ _ _ _ Ha Hia Hib)|].
      rewrite Hf. intros Heq. apply Hne. rewrite Heq. apply list_elem_of_fmap. eauto using list_elem_of_lookup_2.
    + intros x [Hx| ->%list_elem_of_singleton]%elem_of_app; auto.
  - intros i Hf Hi. apply index_of_Some in Hi as (a & Hia & Hid). split; simpl.
    + by apply tracks_add.
    + by rewrite facts_of_app, decide_False, app_nil_r.
    + apply Forall2_same_length_lookup_2; [rewrite length_alter; by eapply Forall2_length|]. intros j a' b' Hja Hjb.
      rewrite facts_of_app. destruct (decide (j = i)) as [->|Hij].
      * rewrite list_lookup_alter_eq in Hjb. apply fmap_Some in Hjb as (b & Hb & ->).
        assert (a' = a) as -> by congruence. rewrite decide_True by done. apply charge_holds. exact (Forall2_lookup_lr _ _ _ _ _ _ Ha Hja Hb).
      * rewrite list_lookup_alter_ne in Hjb by done. rewrite decide_False, app_nil_r; [exact (Forall2_lookup_lr _ _ _ _ _ _ Ha Hja Hjb)|].
        intros Heq. apply Hij. eapply NoDup_lookup; [exact Hnd| |]; rewrite list_lookup_fmap.
        -- by rewrite Hja.
        -- rewrite Hia. simpl. congruence.
    + intros x [Hx| ->%list_elem_of_singleton]%elem_of_app; [auto|right]. rewrite <- Hid.
      apply list_elem_of_fmap. eauto using list_elem_of_lookup_2.
Qed.

Lemma entry_Ok f e : entry f = Ok e -> e = f.
Proof. unfold entry. destruct (_ && _); [|done]. intros H. by repeat case_match; simplify_eq. Qed.

Lemma facts_loop_Ok attempts rest : forall facts seen acc acc',
  NoDup (af_id <$> attempts) -> ""%string ∉ af_id <$> attempts -> accumulated attempts facts acc ->
  facts_loop attempts rest seen acc = Ok acc' ->
  accumulated attempts (facts ++ rest) acc' /\ NoDup (lf_eventID <$> rest) /\ Forall (fun f => lf_eventID f ∉ seen) rest.
Proof.
  induction rest as [|f rest IH]; intros facts seen acc acc' Hnd Hne Hacc; simpl.
  { intros [= <-]. rewrite app_nil_r. split_and!; [done|constructor|by apply Forall_nil]. }
  destruct (entry f) as [e|] eqn:Ee; [|done]. apply entry_Ok in Ee as ->. simpl.
  destruct (bool_decide (lf_eventID f ∈ seen)) eqn:Es; [done|]. simpl. prop_hyps.
  destruct (accumulate_step attempts facts acc f Hnd Hne Hacc) as [Hlevel Hatt].
  assert (Hfin : forall acc1, accumulated attempts (facts ++ [f]) acc1 -> facts_loop attempts rest (lf_eventID f :: seen) acc1 = Ok acc' ->
    accumulated attempts (facts ++ f :: rest) acc' /\ NoDup (lf_eventID f :: (lf_eventID <$> rest)) /\ Forall (fun f => lf_eventID f ∉ seen) (f :: rest)).
  { intros acc1 H1 Hloop. apply (IH _ _ _ _ Hnd Hne H1) in Hloop as (H2 & H3 & H4). rewrite <- app_assoc in H2.
    rewrite Forall_forall in H4. split_and!; [done|..].
    - apply NoDup_cons. split; [|done]. intros (x & Heq & Hx)%list_elem_of_fmap. apply (H4 x Hx). rewrite Heq. left.
    - apply Forall_cons. split; [done|]. apply Forall_forall. intros x Hx Hin. apply (H4 x Hx). by right. }
  destruct (bool_decide _) eqn:Eid; prop_hyps; [by apply Hfin, Hlevel|].
  destruct (index_of _ _) as [i|] eqn:Ei; [|done]. apply Hfin. by apply Hatt.
Qed.

Lemma attempts_ok_spec attempts : forall index seen, attempts_ok attempts index seen = true ->
  NoDup (af_id <$> attempts) /\ Forall (fun a => af_id a ∉ seen) attempts /\
  Forall (fun a => uuidPattern (af_id a) = true) attempts /\
  (forall i a, attempts !! i = Some a -> af_number a = index + Z.of_nat i + 1).
Proof.
  induction attempts as [|a rest IH]; intros index seen; simpl.
  { intros _. split_and!; [constructor|by apply Forall_nil|by apply Forall_nil|done]. }
  intros H. prop_hyps. destruct (IH (index + 1) (af_id a :: seen)) as (G1 & G2 & G3 & G4); [done|].
  rewrite Forall_forall in G2. split_and!.
  - apply NoDup_cons. split; [|done]. intros (x & Heq & Hx)%list_elem_of_fmap. apply (G2 x Hx). rewrite Heq. left.
  - apply Forall_cons. split; [done|]. apply Forall_forall. intros x Hx Hin. apply (G2 x Hx). by right.
  - apply Forall_cons. by split.
  - intros [|i] x; simpl; [intros [= <-]; lia|]. intros Hx. rewrite (G4 _ _ Hx). lia.
Qed.

Lemma finish_Ok b facts cost : holds_bucket b facts -> finish b = Ok cost ->
  Entries cost = facts /\ LedgerEntryCount cost = sum_by (fun _ => 1) facts /\ forall c, amount_in c (Totals cost) = charged c facts.
Proof.
  intros [He Ht]. unfold finish. destruct (ordered _) as [l|] eqn:Eo; [|done]. simpl. intros [= <-]. simpl. rewrite He.
  split_and!; [done| |].
  - clear. induction facts; simpl; lia.
  - intros c. by rewrite (ordered_Ok _ _ c Eo).
Qed.

Lemma finish_attempts_Ok attempts : forall buckets facts costs,
  Forall2 (fun a b => holds_bucket b (facts_of (af_id a) facts)) attempts buckets -> finish_attempts attempts buckets = Ok costs ->
  Forall2 (fun a cost => ac_AttemptID cost = af_id a /\ ac_AttemptNo cost = af_number a /\ Entries (ac_Bucket cost) = facts_of (af_id a) facts /\
    LedgerEntryCount (ac_Bucket cost) = sum_by (fun _ => 1) (facts_of (af_id a) facts) /\
    forall c, amount_in c (Totals (ac_Bucket cost)) = charged c (facts_of (af_id a) facts)) attempts costs.
Proof.
  induction attempts as [|a rest IH]; intros buckets facts costs Hf; simpl.
  { intros [= <-]. constructor. }
  inversion Hf as [|? b ? bs Hb Hbs]; subst. destruct (finish b) as [cost|] eqn:Ec; [|done]. simpl.
  destruct (finish_attempts rest bs) as [cs|] eqn:Er; [|done]. simpl. intros [= <-].
  apply (finish_Ok _ _ _ Hb) in Ec as (H1 & H2 & H3). constructor; [done|]. by eapply IH.
Qed.

Lemma Forall2_sum {A B} (P : A -> B -> Prop) (f : A -> Z) (g : B -> Z) l k :
  Forall2 P l k -> (forall a b, P a b -> f a = g b) -> sum_by f l = sum_by g k.
Proof. intros H Heq. induction H; simpl; [done|]. rewrite (Heq x y) by done. lia. Qed.

(** What the loops computed when a cost is returned. *)
Lemma buildRequestCost_accumulates scope id status n attemptFacts facts rc :
  buildRequestCost scope id status n attemptFacts facts = Ok rc ->
  let attempts := sort_attempts attemptFacts in
  exists acc, NoDup (af_id <$> attempts) /\ ""%string ∉ af_id <$> attempts /\
    (forall i a, attempts !! i = Some a -> af_number a = 0 + Z.of_nat i + 1) /\
    accumulated attempts facts acc /\ NoDup (lf_eventID <$> facts) /\ finish_attempts attempts (a_attempts acc) = Ok (rc_Attempts rc) /\
    finish (a_requestLevel acc) = Ok (rc_RequestLevel rc) /\ ordered (a_totals acc) = Ok (rc_Totals rc) /\
    rc_LedgerEntryCount rc = Z.of_nat (length facts).
Proof.
  unfold buildRequestCost. destruct (_ && _); [|done].
  destruct (attempts_ok _ _ _) eqn:Ea; [|done]. apply attempts_ok_spec in Ea as (Hnd & _ & Huuid & Hnum).
  set (attempts := sort_attempts attemptFacts) in *.
  assert (Hne : ""%string ∉ af_id <$> attempts).
  { intros (a & Heq & Hin)%list_elem_of_fmap. rewrite Forall_forall in Huuid. specialize (Huuid a Hin). by rewrite <- Heq in Huuid. }
  destruct (facts_loop _ _ _ _) as [acc|] eqn:El; [|done]. simpl.
  assert (H0 : accumulated attempts [] {| a_attempts := (fun _ => empty_bucket) <$> attempts; a_requestLevel := empty_bucket; a_totals := ∅ |}).
  { split; simpl; [done|done| |by intros f ?%elem_of_nil]. clear. induction attempts; simpl; constructor; done. }
  apply (facts_loop_Ok _ _ _ _ _ _ Hnd Hne H0) in El as (Hacc & Hev & _). simpl in *.
  destruct (finish_attempts _ _) as [costs|] eqn:Ec; [|done]. simpl. destruct (finish (a_requestLevel acc)) as [level|] eqn:Ef; [|done]. simpl.
  destruct (ordered (a_totals acc)) as [totals|] eqn:Eo; [|done]. simpl. intros [= <-]. exists acc. split_and!; done.
Qed.

Lemma buildRequestCost_totals scope id status n attemptFacts facts rc currency :
  buildRequestCost scope id status n attemptFacts facts = Ok rc -> amount_in currency (rc_Totals rc) = charged currency facts.
Proof.
  intros (acc & _ & _ & _ & [Ht _ _ _] & _ & _ & _ & Eo & _)%buildRequestCost_accumulates. by rewrite (ordered_Ok _ _ currency Eo), Ht.
Qed.

(** A request cost accounts for every ledger fact exactly once. The total of each
    currency is the exact sum of the facts' amounts and the sum of the attempts'
    totals and the request-level total; the entry counts add up; each attempt lists
    exactly its own facts in ledger order, and attempts are numbered from 1. *)
Theorem buildRequestCost_accounts_for_every_fact scope id status n attemptFacts facts rc :
  buildRequestCost scope id status n attemptFacts facts = Ok rc ->
  (forall currency,
    amount_in currency (rc_Totals rc) = charged currency facts /\
    amount_in currency (rc_Totals rc) =
      sum_by (fun a => amount_in currency (Totals (ac_Bucket a))) (rc_Attempts rc) + amount_in currency (Totals (rc_RequestLevel rc))) /\
  rc_LedgerEntryCount rc =
    sum_by (fun a => LedgerEntryCount (ac_Bucket a)) (rc_Attempts rc) + LedgerEntryCount (rc_RequestLevel rc) /\
  NoDup (lf_eventID <$> facts) /\
  Forall (fun a => Entries (ac_Bucket a) = facts_of (ac_AttemptID a) facts) (rc_Attempts rc) /\
  Entries (rc_RequestLevel rc) = facts_of "" facts /\
  (forall i a, rc_Attempts rc !! i = Some a -> ac_AttemptNo a = Z.of_nat i + 1).
Proof.
  intros H. destruct (buildRequestCost_accumulates _ _ _ _ _ _ _ H) as (acc & Hnd & Hne & Hnum & [Ht Hl Hat Hk] & Hev & Ec & Ef & Eo & En).
  set (attempts := sort_attempts attemptFacts) in *. apply (finish_attempts_Ok _ _ _ _ Hat) in Ec. apply (finish_Ok _ _ _ Hl) in Ef as (Hle & Hln & Hlt).
  assert (Hlen : Z.of_nat (length facts) = sum_by (fun _ => 1) facts) by (clear; induction facts; simpl; lia).
  split_and!; try done.
  - intros c. rewrite (ordered_Ok _ _ c Eo), Ht. split; [done|]. unfold charged at 1. rewrite (sum_parts _ attempts) by done.
    rewrite Hlt. f_equal. eapply Forall2_sum; [exact Ec|]. intros a b (_ & _ & _ & _ & Hc). symmetry. apply Hc.
  - rewrite En, Hlen, (sum_parts _ attempts) by done. rewrite Hln. f_equal. eapply Forall2_sum; [exact Ec|]. by intros a b (_ & _ & _ & Hc & _).
  - apply Forall_forall. intros x Hx. apply list_elem_of_lookup in Hx as [i Hi].
    destruct (Forall2_lookup_r _ _ _ _ _ Ec Hi) as (a & _ & Hid & _ & He & _). by rewrite Hid.
  - intros i x Hi. destruct (Forall2_lookup_r _ _ _ _ _ Ec Hi) as (a & Ha & _ & Hno & _). rewrite Hno, (Hnum _ _ Ha). lia.
Qed.

(** ** A concrete request *)
Definition demo_scope : Scope :=
  {| scope_TenantID := "11111111-1111-4111-8111-111111111111"; scope_ProjectID := "22222222-2222-4222-8222-222222222222" |}.
Definition demo_fact (event attempt : string) (amount : Z) : ledgerFact :=
  {| lf_eventID := event; lf_attemptID := attempt; lf_tokenType := TokenTypeInput; lf_quantity := 1; lf_source := SourceProvider;
     lf_observedAt := 1; lf_createdAt := 1; lf_priceVersionID := "33333333-3333-4333-8333-333333333333"; lf_currency := "USD";
     lf_billingUnit := BillingUnitToken; lf_unitQuantity := 1; lf_unitPriceMicros := amount; lf_amountMicros := amount;
     lf_adjustment := None |}.
Definition demo_attempt_id : string := "44444444-4444-4444-8444-444444444444".
Definition demo_attempts : list attemptFact :=
  [{| af_id := demo_attempt_id; af_number := 1; af_deploymentID := "55555555-5555-4555-8555-555555555555"; af_status := AttemptSucceeded |}].
Definition demo_facts : list ledgerFact :=
  [demo_fact "66666666-6666-4666-8666-666666666666" demo_attempt_id 5; demo_fact "77777777-7777-4777-8777-777777777777" "" 2].

Lemma buildRequestCost_accounts_for_every_fact_witness :
  exists rc, buildRequestCost demo_scope "request-1" RequestSucceeded 1 demo_attempts demo_facts = Ok rc /\ amount_in "USD" (rc_Totals rc) = 7.
Proof.
  assert (Hok : is_ok (buildRequestCost demo_scope "request-1" RequestSucceeded 1 demo_attempts demo_facts) = true) by (vm_compute; reflexivity).
  destruct (buildRequestCost demo_scope "request-1" RequestSucceeded 1 demo_attempts demo_facts) as [rc|] eqn:E; [|discriminate Hok].
  exists rc. split; [reflexivity|].
  rewrite (proj1 (proj1 (buildRequestCost_accounts_for_every_fact _ _ _ _ _ _ _ E) "USD"%string)). vm_compute. reflexivity.
Defined.
