(* ===== verification/Adapter.v ===== *)
(** * The provider-neutral model (src/internal/adapter/model.go, validate.go)

    Requests, responses and stream chunks with their validation. Validators are
    boolean: the field and reason of a [ValidationError] are texts for people. Usage
    and errors are in [Metering] and [Retry], which need them alone. *)
From Stdlib Require Import ZArith Lia Bool Ascii String SpecFloat.
From stdpp Require Import base tactics option list strings gmap fin_maps sets.
From S2P Require Import Prelude Identifiers Unicode JSON Catalog Retry Metering.
(** ** Enumerations *)
Inductive MessageRole := RoleSystem | RoleDeveloper | RoleUser | RoleAssistant | RoleTool | RoleOther (value : string).
Inductive ContentKind := ContentText | ContentImageReference | ContentAudioReference | ContentOther (value : string).
Inductive ToolChoiceMode := ToolChoiceAuto | ToolChoiceNone | ToolChoiceRequired | ToolChoiceNamed | ToolChoiceOther (value : string).
Inductive ResponseFormatType := ResponseFormatText | ResponseFormatJSONObject | ResponseFormatJSONSchema | ResponseFormatOther (value : string).
Inductive FinishReason :=
| FinishStop | FinishLength | FinishToolCalls | FinishContentPolicy | FinishCancelled | FinishError | FinishUnknown
| FinishOther (value : string).
Inductive ChunkKind :=
| ChunkMessageStart | ChunkContentDelta | ChunkReasoningDelta | ChunkToolDelta | ChunkUsageDelta | ChunkMessageEnd
| ChunkHeartbeat | ChunkProviderExtension | ChunkOther (value : string).
Inductive UsageStatus := UsageStatusPresent | UsageStatusPartial | UsageStatusMissing | UsageStatusOther (value : string).

#[export] Instance MessageRole_eq_dec : EqDecision MessageRole.
Proof. solve_decision. Defined.
#[export] Instance ContentKind_eq_dec : EqDecision ContentKind.
Proof. solve_decision. Defined.
#[export] Instance ToolChoiceMode_eq_dec : EqDecision ToolChoiceMode.
Proof. solve_decision. Defined.
#[export] Instance ResponseFormatType_eq_dec : EqDecision ResponseFormatType.
Proof. solve_decision. Defined.
#[export] Instance FinishReason_eq_dec : EqDecision FinishReason.
Proof. solve_decision. Defined.
#[export] Instance ChunkKind_eq_dec : EqDecision ChunkKind.
Proof. solve_decision. Defined.
#[export] Instance UsageStatus_eq_dec : EqDecision UsageStatus.
Proof. solve_decision. Defined.

(** ** Records. A raw JSON message is its bytes; the zero value of an enumeration is
    its empty string. *)
Notation RawMessage := (list Z).
Notation float64 := spec_float.

Record ContentPart := {
  part_Kind : ContentKind; part_Text : string; part_Reference : string; part_MediaType : string; part_Detail : string }.
Record ToolCall := { call_ID : string; call_Name : string; call_Arguments : RawMessage }.
Record Message := {
  msg_Role : MessageRole; msg_Name : string; msg_Parts : list ContentPart; msg_ToolCalls : list ToolCall; msg_ToolCallID : string }.
Record ToolDefinition := { tool_Name : string; tool_Description : string; tool_InputSchema : RawMessage }.
Record ToolChoice := { choice_Mode : ToolChoiceMode; choice_Name : string }.
Record ResponseFormat := {
  fmt_Type : ResponseFormatType; fmt_Name : string; fmt_Description : string; fmt_Schema : RawMessage; fmt_Strict : option bool }.

Record NormalizedRequest := {
  req_RequestID : string; req_LogicalModel : string; req_EndUserReference : string; req_Messages : list Message; req_Stream : bool;
  req_Temperature : option float64; req_TopP : option float64; req_MaxOutputTokens : option Z; req_Stop : list string;
  req_Tools : list ToolDefinition; req_ToolChoice : option ToolChoice; req_ResponseFormat : option ResponseFormat;
  req_PolicyLabels : list string; req_ProviderOptions : RawMessage }.

Record NormalizedChoice := {
  nc_Index : Z; nc_Message : Message; nc_FinishReason : FinishReason; nc_ProviderFinishReason : string }.

Record NormalizedResponse := {
  resp_ID : string; resp_Model : string; resp_Choices : list NormalizedChoice; resp_Usage : option NormalizedUsage;
  resp_ProviderRequestID : string; resp_ObservedAt : Time }.

Record ToolCallDelta := { td_Index : Z; td_ID : string; td_Name : string; td_ArgumentsFragment : string }.

Record NormalizedChunk := {
  ch_Sequence : Z; ch_Kind : ChunkKind; ch_ChoiceIndex : Z; ch_Role : MessageRole; ch_ContentDelta : string;
  ch_ReasoningDelta : string; ch_ToolDelta : option ToolCallDelta; ch_FinishReason : FinishReason;
  ch_ProviderFinishReason : string; ch_Usage : option NormalizedUsage; ch_UsageStatus : UsageStatus;
  ch_ProviderEventType : string; ch_ProviderExtension : RawMessage; ch_ObservedAt : Time }.

(** ** Limits *)
Definition maxMessages : nat := 1024.
Definition maxMessageParts : nat := 1024.
Definition maxTextBytes : Z := 1048576.
Definition maxMediaReferenceBytes : Z := 16384.
Definition maxTools : nat := 128.
Definition maxSchemaBytes : Z := 65536.
Definition maxProviderOptionsBytes : Z := 65536.
Definition maxProviderExtensionBytes : Z := 16384.
Definition maxChoices : nat := 128.

(** ** Text and JSON *)
Definition len (s : string) : Z := Z.of_nat (String.length s).
Definition is_empty (s : string) : bool := bool_decide (s = ""%string).

(** [^[A-Za-z_][A-Za-z0-9_.:-]{0,127}$] *)
Definition toolNamePattern : string -> bool :=
  match_head_tail (or_class (or_class upper lower) (one_of "_")) (or_class alnum (one_of "_.:-")) 0 127.

(** [utf8.ValidString(value)], and [value == strings.TrimSpace(value)] with it. *)
Definition valid_utf8 (value : string) : bool := negb (bool_decide (decode (bytes_of value) = None)).
Definition trimmed_utf8 (value : string) : bool :=
  match decode (bytes_of value) with Some rs => trimmed rs | None => false end.

Definition containsControl (value : string) : bool := existsb IsControl (runes (bytes_of value)).

Definition validateJSONObject (raw : RawMessage) (maxBytes : Z) : bool :=
  negb (Nat.eqb (length raw) 0) && (Z.of_nat (length raw) <=? maxBytes) && json_object raw.

Definition validText (value : string) : bool := negb (is_empty value) && (len value <=? maxTextBytes) && valid_utf8 value.

Definition validateEndUserReference (value : string) : bool :=
  is_empty value || (trimmed_utf8 value && (len value <=? 256) && negb (containsControl value)).

Definition validateFinitePointer (value : option float64) : bool :=
  match value with Some S754_nan | Some (S754_infinity _) => false | _ => true end.

Definition float_one : float64 := S754_finite false 4503599627370496 (-52).

Definition validateProbability (value : option float64) : bool :=
  validateFinitePointer value &&
  match value with Some v => negb (SFltb v (S754_zero false) || SFltb float_one v) | None => true end.

(** ** Messages *)
Definition validRole (role : MessageRole) : bool := match role with RoleOther _ => false | _ => true end.

Definition validReference (reference : string) : bool :=
  negb (is_empty reference) && trimmed_utf8 reference && (len reference <=? maxMediaReferenceBytes).

Definition validateContentPart (part : ContentPart) : bool :=
  match part_Kind part with
  | ContentText => validText (part_Text part) && is_empty (part_Reference part) && is_empty (part_MediaType part) && is_empty (part_Detail part)
  | ContentImageReference =>
      is_empty (part_Text part) && validReference (part_Reference part) && validateOptionalIdentifier (part_MediaType part) 128 &&
      existsb (String.eqb (part_Detail part)) [""; "auto"; "low"; "high"]
  | ContentAudioReference =>
      is_empty (part_Text part) && validReference (part_Reference part) && validateOptionalIdentifier (part_MediaType part) 128 &&
      is_empty (part_Detail part)
  | ContentOther _ => false
  end.

Definition validateToolCall (call : ToolCall) : bool :=
  validateIdentifier (call_ID call) 256 && toolNamePattern (call_Name call) && validateJSONObject (call_Arguments call) maxSchemaBytes.

Definition validateMessage (message : Message) : bool :=
  validRole (msg_Role message) && validateOptionalIdentifier (msg_Name message) 128 &&
  Nat.leb (length (msg_Parts message)) maxMessageParts && forallb validateContentPart (msg_Parts message) &&
  forallb validateToolCall (msg_ToolCalls message) &&
  if bool_decide (msg_Role message = RoleTool)
  then validateIdentifier (msg_ToolCallID message) 256 && Nat.eqb (length (msg_ToolCalls message)) 0 &&
       negb (Nat.eqb (length (msg_Parts message)) 0)
  else is_empty (msg_ToolCallID message) &&
       negb (negb (Nat.eqb (length (msg_ToolCalls message)) 0) && negb (bool_decide (msg_Role message = RoleAssistant))) &&
       negb (Nat.eqb (length (msg_Parts message)) 0 && Nat.eqb (length (msg_ToolCalls message)) 0).

(** ** Tools, choices, formats, stops and labels *)
Definition validDescription (value : string) : bool := trimmed_utf8 value && (len value <=? 4096).

(** [seen] as a list of the names already met. *)
Fixpoint tools_ok (tools : list ToolDefinition) (seen : list string) : bool :=
  match tools with
  | [] => true
  | tool :: rest =>
      toolNamePattern (tool_Name tool) && negb (bool_decide (tool_Name tool ∈ seen)) && validDescription (tool_Description tool) &&
      validateJSONObject (tool_InputSchema tool) maxSchemaBytes && tools_ok rest (tool_Name tool :: seen)
  end.

Definition validateTools (tools : list ToolDefinition) : bool := Nat.leb (length tools) maxTools && tools_ok tools [].

Definition validateToolChoice (choice : option ToolChoice) (tools : list ToolDefinition) : bool :=
  match choice with
  | None => true
  | Some c =>
      match choice_Mode c with
      | ToolChoiceAuto | ToolChoiceNone => is_empty (choice_Name c)
      | ToolChoiceRequired => is_empty (choice_Name c) && negb (Nat.eqb (length tools) 0)
      | ToolChoiceNamed => toolNamePattern (choice_Name c) && existsb (fun t => String.eqb (tool_Name t) (choice_Name c)) tools
      | ToolChoiceOther _ => false
      end
  end.

Definition validateResponseFormat (format : option ResponseFormat) : bool :=
  match format with
  | None => true
  | Some f =>
      match fmt_Type f with
      | ResponseFormatText | ResponseFormatJSONObject =>
          is_empty (fmt_Name f) && is_empty (fmt_Description f) && Nat.eqb (length (fmt_Schema f)) 0 && bool_decide (fmt_Strict f = None)
      | ResponseFormatJSONSchema =>
          toolNamePattern (fmt_Name f) && validDescription (fmt_Description f) && validateJSONObject (fmt_Schema f) maxSchemaBytes
      | ResponseFormatOther _ => false
      end
  end.

Fixpoint stops_ok (stop : list string) (seen : list string) : bool :=
  match stop with
  | [] => true
  | value :: rest =>
      negb (is_empty value) && (len value <=? 256) && valid_utf8 value && negb (bool_decide (value ∈ seen)) && stops_ok rest (value :: seen)
  end.

Definition validateStop (stop : list string) : bool := Nat.leb (length stop) 16 && stops_ok stop [].

(** [slices.IsSorted] *)
Fixpoint is_sorted (labels : list string) : bool :=
  match labels with a :: ((b :: _) as rest) => String.leb a b && is_sorted rest | _ => true end.

Fixpoint labels_ok (previous : option string) (labels : list string) : bool :=
  match labels with
  | [] => true
  | label :: rest => labelPattern label && negb (bool_decide (previous = Some label)) && labels_ok (Some label) rest
  end.

Definition validateLabels (labels : list string) : bool :=
  Nat.leb (length labels) 64 && is_sorted labels && labels_ok None labels.

(** ** Requests *)
Definition NormalizedRequest_Validate (request : NormalizedRequest) : bool :=
  validateIdentifier (req_RequestID request) 128 && validateIdentifier (req_LogicalModel request) 128 &&
  validateEndUserReference (req_EndUserReference request) &&
  Nat.leb 1 (length (req_Messages request)) && Nat.leb (length (req_Messages request)) maxMessages &&
  forallb validateMessage (req_Messages request) &&
  validateFinitePointer (req_Temperature request) && validateProbability (req_TopP request) &&
  match req_MaxOutputTokens request with Some n => 0 <? n | None => true end &&
  validateStop (req_Stop request) && validateTools (req_Tools request) &&
  validateToolChoice (req_ToolChoice request) (req_Tools request) && validateResponseFormat (req_ResponseFormat request) &&
  validateLabels (req_PolicyLabels request) &&
  (Nat.eqb (length (req_ProviderOptions request)) 0 || validateJSONObject (req_ProviderOptions request) maxProviderOptionsBytes).

(** ** Responses *)
Definition validateFinishReason (reason : FinishReason) (providerReason : string) : bool :=
  match reason with
  | FinishStop | FinishLength | FinishToolCalls | FinishContentPolicy | FinishCancelled | FinishError =>
      validateOptionalIdentifier providerReason 256
  | FinishUnknown => validateIdentifier providerReason 256
  | FinishOther _ => false
  end.

Fixpoint choices_ok (choices : list NormalizedChoice) (seen : list Z) : bool :=
  match choices with
  | [] => true
  | choice :: rest =>
      (0 <=? nc_Index choice) && negb (bool_decide (nc_Index choice ∈ seen)) &&
      bool_decide (msg_Role (nc_Message choice) = RoleAssistant) && validateMessage (nc_Message choice) &&
      validateFinishReason (nc_FinishReason choice) (nc_ProviderFinishReason choice) && choices_ok rest (nc_Index choice :: seen)
  end.

Definition NormalizedResponse_Validate (response : NormalizedResponse) : bool :=
  validateIdentifier (resp_ID response) 256 && validateIdentifier (resp_Model response) 256 &&
  Nat.leb 1 (length (resp_Choices response)) && Nat.leb (length (resp_Choices response)) maxChoices &&
  choices_ok (resp_Choices response) [] &&
  match resp_Usage response with Some u => NormalizedUsage_Validate u | None => true end &&
  validateOptionalIdentifier (resp_ProviderRequestID response) 256 && negb (time_is_zero (resp_ObservedAt response)).

(** ** Chunks *)
Definition payloadRole : Z := 1.
Definition payloadContent : Z := 2.
Definition payloadReasoning : Z := 4.
Definition payloadTool : Z := 8.
Definition payloadFinish : Z := 16.
Definition payloadUsage : Z := 32.
Definition payloadExtension : Z := 64.

Definition has_role (chunk : NormalizedChunk) : bool := negb (bool_decide (ch_Role chunk = RoleOther "")).
Definition has_finish (chunk : NormalizedChunk) : bool :=
  negb (bool_decide (ch_FinishReason chunk = FinishOther "")) || negb (is_empty (ch_ProviderFinishReason chunk)).
Definition has_usage (chunk : NormalizedChunk) : bool :=
  bool_decide (is_Some (ch_Usage chunk)) || negb (bool_decide (ch_UsageStatus chunk = UsageStatusOther "")).

(** The bits of [present] as [validateChunkEmptyPayload] sets them. *)
Definition chunk_payload (chunk : NormalizedChunk) : Z :=
  let bit (b : bool) (p : Z) := if b then p else 0 in
  Z.lor (bit (has_role chunk) payloadRole) (Z.lor (bit (negb (is_empty (ch_ContentDelta chunk))) payloadContent)
  (Z.lor (bit (negb (is_empty (ch_ReasoningDelta chunk))) payloadReasoning) (Z.lor (bit (bool_decide (is_Some (ch_ToolDelta chunk))) payloadTool)
  (Z.lor (bit (has_finish chunk) payloadFinish) (Z.lor (bit (has_usage chunk) payloadUsage)
  (bit (negb (Nat.eqb (length (ch_ProviderExtension chunk)) 0)) payloadExtension)))))).

(** [present & ^allowed == 0], the complement in eight bits. *)
Definition validateChunkEmptyPayload (chunk : NormalizedChunk) (allowed : Z) : bool :=
  Z.land (chunk_payload chunk) (Z.lxor 255 allowed) =? 0.

Definition validateToolDelta (delta : option ToolCallDelta) : bool :=
  match delta with
  | None => false
  | Some d =>
      (0 <=? td_Index d) && negb (is_empty (td_ID d) && is_empty (td_Name d) && is_empty (td_ArgumentsFragment d)) &&
      validateOptionalIdentifier (td_ID d) 256 && (is_empty (td_Name d) || toolNamePattern (td_Name d)) &&
      (len (td_ArgumentsFragment d) <=? maxSchemaBytes) && valid_utf8 (td_ArgumentsFragment d)
  end.

Definition validateTerminalUsage (status : UsageStatus) (usage : option NormalizedUsage) : bool :=
  match status with
  | UsageStatusPresent => match usage with Some u => u_Complete u | None => false end
  | UsageStatusPartial => match usage with Some u => negb (u_Complete u) | None => false end
  | UsageStatusMissing => bool_decide (usage = None)
  | UsageStatusOther _ => false
  end && match usage with Some u => NormalizedUsage_Validate u | None => true end.

Definition NormalizedChunk_Validate (chunk : NormalizedChunk) : bool :=
  (0 <=? ch_ChoiceIndex chunk) && negb (time_is_zero (ch_ObservedAt chunk)) &&
  validateOptionalIdentifier (ch_ProviderEventType chunk) 256 &&
  (Nat.eqb (length (ch_ProviderExtension chunk)) 0 || validateJSONObject (ch_ProviderExtension chunk) maxProviderExtensionBytes) &&
  match ch_Kind chunk with
  | ChunkMessageStart => validRole (ch_Role chunk) && validateChunkEmptyPayload chunk payloadRole
  | ChunkContentDelta => validText (ch_ContentDelta chunk) && validateChunkEmptyPayload chunk payloadContent
  | ChunkReasoningDelta => validText (ch_ReasoningDelta chunk) && validateChunkEmptyPayload chunk payloadReasoning
  | ChunkToolDelta => validateToolDelta (ch_ToolDelta chunk) && validateChunkEmptyPayload chunk payloadTool
  | ChunkUsageDelta =>
      match ch_Usage chunk with
      | Some u => negb (u_Complete u) && bool_decide (ch_UsageStatus chunk = UsageStatusPartial) && NormalizedUsage_Validate u &&
                  validateChunkEmptyPayload chunk payloadUsage
      | None => false
      end
  | ChunkMessageEnd =>
      validateFinishReason (ch_FinishReason chunk) (ch_ProviderFinishReason chunk) &&
      validateTerminalUsage (ch_UsageStatus chunk) (ch_Usage chunk) &&
      validateChunkEmptyPayload chunk (Z.lor payloadFinish payloadUsage)
  | ChunkHeartbeat => validateChunkEmptyPayload chunk 0
  | ChunkProviderExtension =>
      negb (is_empty (ch_ProviderEventType chunk)) && negb (Nat.eqb (length (ch_ProviderExtension chunk)) 0) &&
      validateChunkEmptyPayload chunk payloadExtension
  | ChunkOther _ => false
  end.

(** ** A request used by the witnesses of several components *)
Definition demo_user_message (text : string) : Message :=
  {| msg_Role := RoleUser; msg_Name := ""; msg_ToolCalls := []; msg_ToolCallID := "";
     msg_Parts := [{| part_Kind := ContentText; part_Text := text; part_Reference := ""; part_MediaType := ""; part_Detail := "" |}] |}.

Definition demo_chat_request : NormalizedRequest :=
  {| req_RequestID := "req-00000001"; req_LogicalModel := "chat"; req_EndUserReference := ""; req_Messages := [demo_user_message "hello"];
     req_Stream := true; req_Temperature := None; req_TopP := Some float_one; req_MaxOutputTokens := Some 100; req_Stop := ["END"];
     req_Tools := []; req_ToolChoice := None; req_ResponseFormat := None; req_PolicyLabels := ["a"; "b"];
     req_ProviderOptions := bytes_of "{}" |}.

Example demo_chat_request_valid : NormalizedRequest_Validate demo_chat_request = true.
Proof. vm_compute. reflexivity. Qed.

Definition demo_content_chunk (sequence : Z) (text : string) : NormalizedChunk :=
  {| ch_Sequence := sequence; ch_Kind := ChunkContentDelta; ch_ChoiceIndex := 0; ch_Role := RoleOther ""; ch_ContentDelta := text;
     ch_ReasoningDelta := ""; ch_ToolDelta := None; ch_FinishReason := FinishOther ""; ch_ProviderFinishReason := ""; ch_Usage := None;
     ch_UsageStatus := UsageStatusOther ""; ch_ProviderEventType := ""; ch_ProviderExtension := []; ch_ObservedAt := 1 |}.
