(* ===== verification/OpenAIAdapter.v ===== *)
(** * The OpenAI adapter: answers and errors (src/internal/openaiadapter)

    response.go parses one bounded JSON answer into the normalized model, error.go maps a
    refused request to a normalized error without reading its body. [mime.ParseMediaType]
    and [http.ParseTime] are arguments; the order in which Go visits a map is the argument
    [range].

    Then: provider usage is recorded exactly. *)
From Stdlib Require Import ZArith Lia Bool Ascii String SpecFloat.
From stdpp Require Import base tactics option list strings gmap fin_maps.
From S2P Require Import Prelude Identifiers Unicode Encoding JSON JSONDecode Catalog Retry Metering MeteringCost Adapter.
(** ** Errors (protocol_error.go, factory.go) *)
Inductive openai_error :=
| ProtocolError (operation code : string) (tooLarge : bool)
| UnsupportedParameterError (field : string)
| ProviderRejected (detail : NormalizedError)
| CallCancelled
| ErrRequestTooLarge
| ErrCredentialUnavailable
| AdapterError (what : string).

Definition protocolError (operation code : string) : openai_error := ProtocolError operation code false.
Definition unsupported (field : string) : openai_error := UnsupportedParameterError field.
(** [errors.Is(err, ErrResponseTooLarge)] *)
Definition is_too_large (e : openai_error) : bool := match e with ProtocolError _ _ tooLarge => tooLarge | _ => false end.

(** ** Answers of the transport *)
Record HTTPResponse := {
  hs_StatusCode : Z; hs_ContentType : string; hs_RequestID : string; hs_RetryAfter : string; hs_Body : list Z; hs_Broken : bool }.

Definition maximumJSONResponseBytes : Z := 1048576.
Definition maximumErrorBodyBytes : Z := 65536.

(** The reader stops after one byte more than the maximum, or where the connection breaks. *)
Definition readBoundedBody (r : HTTPResponse) (maximum : Z) : result (list Z) openai_error :=
  if maximum <? Z.of_nat (length (hs_Body r)) then Err (ProtocolError "read_response" "response_too_large" true)
  else if hs_Broken r then Err (protocolError "read_response" "read_failed")
  else Ok (hs_Body r).

(** ** Errors of the provider (error.go) *)

(** [^[A-Za-z0-9][A-Za-z0-9._:/-]{0,255}$] *)
Definition safeProviderRequestIDPattern : string -> bool := match_head_tail alnum (or_class alnum (one_of "._:/-")) 0 255.
Definition safeProviderRequestID (value : string) : string :=
  let value := TrimSpace value in if safeProviderRequestIDPattern value then value else ""%string.

Definition normalizedError (code : string) (category : ErrorCategory) (retryable : bool) (message : string) : NormalizedError :=
  {| ne_Code := code; ne_Category := category; ne_Retryable := retryable; ne_RetryAfter := None; ne_ProviderStatus := 0; ne_SafeMessage := message;
     ne_ProviderRequestID := "" |}.

Definition classifyProviderError (status : Z) : NormalizedError :=
  if status =? 401 then normalizedError "OPENAI_AUTHENTICATION_FAILED" ErrorAuth false "OpenAI authentication failed"
  else if status =? 403 then normalizedError "OPENAI_PERMISSION_DENIED" ErrorPermission false "OpenAI denied the request"
  else if (status =? 408) || (status =? 504) then normalizedError "OPENAI_TIMEOUT" ErrorTimeout true "OpenAI request timed out"
  else if status =? 429 then normalizedError "OPENAI_RATE_LIMITED" ErrorRateLimit true "OpenAI rate limited the request"
  else if status =? 503 then normalizedError "OPENAI_CAPACITY_UNAVAILABLE" ErrorCapacity true "OpenAI is temporarily unavailable"
  else if existsb (Z.eqb status) [400; 404; 405; 409; 413; 415; 422]
  then normalizedError "OPENAI_INVALID_REQUEST" ErrorInvalidRequest false "OpenAI rejected the request"
  else if (500 <=? status) && (status <=? 599) then normalizedError "OPENAI_PROVIDER_FAILED" ErrorProvider5xx true "OpenAI request failed"
  else normalizedError "OPENAI_PROVIDER_ERROR" ErrorUnknown false "OpenAI returned an unknown error".

Definition validProviderStatus (status : Z) : Z := if (100 <=? status) && (status <=? 599) then status else 0.

(** [strconv.ParseInt(value, 10, 32)] *)
Definition ParseInt32 (value : string) : option Z :=
  match ParseInt64 (bytes_of value) with Some v => if (-2147483648 <=? v) && (v <=? 2147483647) then Some v else None | None => None end.

Definition bounded_delay (d : Duration) : option Duration := if (0 <? d) && (d <=? 24 * hour) then Some d else None.

Definition with_answer (e : NormalizedError) (status : Z) (requestID : string) (retryAfter : option Duration) : NormalizedError :=
  {| ne_Code := ne_Code e; ne_Category := ne_Category e; ne_Retryable := ne_Retryable e; ne_RetryAfter := retryAfter; ne_ProviderStatus := status;
     ne_SafeMessage := ne_SafeMessage e; ne_ProviderRequestID := requestID |}.

Section Answers.
Context (ParseMediaType : string -> option string) (ParseTime : string -> option Time) (range : gmap string (list Z) -> list (string * list Z)).

Definition parseRetryAfter (value : string) (now : Time) : option Duration :=
  let value := TrimSpace value in
  if is_empty value then None
  else match ParseInt32 value with
       | Some seconds => bounded_delay (seconds * second)
       | None => match ParseTime value with Some t => bounded_delay (time_sub t now) | None => None end
       end.

(** [response] is [None] for a nil response; [cancelled] is [ctx.Err() != nil]. *)
Definition NormalizeError (cancelled : bool) (response : option HTTPResponse) (now : Time) : NormalizedError :=
  let status := match response with Some r => hs_StatusCode r | None => 0 end in
  let requestID := match response with Some r => safeProviderRequestID (hs_RequestID r) | None => ""%string end in
  let normalized := classifyProviderError status in
  if cancelled then with_answer (normalizedError "UPSTREAM_CANCELLED" ErrorCancelled false "Upstream request was cancelled") status requestID None
  else
    let retryAfter := match response with Some r => if ne_Retryable normalized then parseRetryAfter (hs_RetryAfter r) now else None | None => None end in
    let normalized := with_answer normalized status requestID retryAfter in
    if NormalizedError_Validate normalized then normalized
    else with_answer (normalizedError "OPENAI_PROTOCOL_ERROR" ErrorProtocol false "OpenAI returned an invalid error response") (validProviderStatus status) "" None.

(** ** Usage (response.go) *)
Definition no_tokens : TokenCount := {| tc_Value := 0; tc_Present := false |}.

Definition parseTokenCount (fields : gmap string (list Z)) (name : string) : result TokenCount openai_error :=
  match fields !! name with
  | None => Ok no_tokens
  | Some raw =>
      if negb (hasNonNullValue raw) then Ok no_tokens
      else match decode_int64 raw with
           | Some value => if value <? 0 then Err (protocolError "parse_usage" ("invalid_" +:+ name)) else Ok {| tc_Value := value; tc_Present := true |}
           | None => Err (protocolError "parse_usage" ("invalid_" +:+ name))
           end
  end.

Definition replace_char (c : ascii) (by_ : string) (s : string) : string :=
  String.concat "" ((fun a => if Ascii.eqb a c then by_ else String a EmptyString) <$> String.list_ascii_of_string s).
Definition escapeJSONPointer (value : string) : string := replace_char "/" "~1" (replace_char "~" "~0" value).

Fixpoint detail_loop (fields : gmap string (list Z)) (prefix : string) (mappings : list (string * string)) (members : list (string * list Z))
    (counts : gmap string TokenCount) (unknown : list string) : result (gmap string TokenCount * list string) openai_error :=
  match members with
  | [] => Ok (counts, unknown)
  | (name, _) :: members =>
      match find (fun m => String.eqb m.1 name) mappings with
      | None => detail_loop fields prefix mappings members counts (unknown ++ [prefix +:+ "/" +:+ escapeJSONPointer name])
      | Some (_, target) =>
          let? count := parseTokenCount fields name in
          detail_loop fields prefix mappings members (<[target := count]> counts) unknown
      end
  end.

Definition parseDetailCounts (raw : RawMessage) (prefix : string) (mappings : list (string * string))
    : result (gmap string TokenCount * list string) openai_error :=
  if negb (hasNonNullValue raw) then Ok (∅, [])
  else match decode_map raw with
       | Some (Some fields) => detail_loop fields prefix mappings (range fields) ∅ []
       | _ => Err (protocolError "parse_usage" "invalid_usage_details")
       end.

Definition unknownPointers (fields : gmap string (list Z)) (known : list string) : list string :=
  (fun m => "/" +:+ escapeJSONPointer m.1) <$> filter (fun m => m.1 ∉ known) (range fields).

Definition maxUsageEvidenceBytes : Z := 65536.
(** The evidence is the text itself; what is kept of it in the model is its size. *)
Definition NewUsageEvidence (raw : RawMessage) : option Z :=
  let size := Z.of_nat (length raw) in
  if (0 <? size) && (size <=? maxUsageEvidenceBytes) && json_object raw then Some size else None.

Definition prompt_mappings : list (string * string) :=
  [("cached_tokens", "cache_read"); ("cache_write_tokens", "cache_write"); ("audio_tokens", "audio_input")]%string.
Definition completion_mappings : list (string * string) := [("reasoning_tokens", "reasoning"); ("audio_tokens", "audio_output")]%string.
Definition usage_names : list string :=
  ["prompt_tokens"; "completion_tokens"; "total_tokens"; "prompt_tokens_details"; "completion_tokens_details"]%string.

Definition count_of (counts : gmap string TokenCount) (target : string) : TokenCount := default no_tokens (counts !! target).

Definition parseUsage (raw : RawMessage) (complete : bool) : result NormalizedUsage openai_error :=
  match decode_map raw with
  | Some (Some fields) =>
      let? input := parseTokenCount fields "prompt_tokens" in
      let? output := parseTokenCount fields "completion_tokens" in
      let? total := parseTokenCount fields "total_tokens" in
      ensure negb (tc_Present total && tc_Present input && tc_Present output && negb (tc_Value total =? i64 (tc_Value input + tc_Value output)))
        else protocolError "parse_usage" "inconsistent_total_tokens" in
      let unmapped := unknownPointers fields usage_names in
      let? prompt := parseDetailCounts (default [] (fields !! "prompt_tokens_details")) "/prompt_tokens_details" prompt_mappings in
      let? completion := parseDetailCounts (default [] (fields !! "completion_tokens_details")) "/completion_tokens_details" completion_mappings in
      let unmapped := sort_strings (unmapped ++ prompt.2 ++ completion.2) in
      match NewUsageEvidence raw with
      | None => Err (protocolError "parse_usage" "invalid_usage_evidence")
      | Some evidence =>
          let usage := {| u_InputTokens := input; u_OutputTokens := output; u_CacheReadTokens := count_of prompt.1 "cache_read";
                          u_CacheWriteTokens := count_of prompt.1 "cache_write"; u_ReasoningTokens := count_of completion.1 "reasoning";
                          u_AudioInputTokens := count_of prompt.1 "audio_input"; u_AudioOutputTokens := count_of completion.1 "audio_output";
                          u_Source := SourceProvider; u_Complete := complete; u_Estimate := None; u_EvidenceBytes := evidence; u_UnmappedFields := unmapped |} in
          ensure NormalizedUsage_Validate usage else protocolError "parse_usage" "invalid_normalized_usage" in
          Ok usage
      end
  | _ => Err (protocolError "parse_usage" "invalid_usage")
  end.

Definition optionalUsage (raw : RawMessage) : result (option NormalizedUsage) openai_error :=
  if negb (hasNonNullValue raw) then Ok None else let? usage := parseUsage raw true in Ok (Some usage).

(** ** Completions (response.go) *)
Definition normalizeFinishReason (providerReason : string) : FinishReason * string :=
  (if String.eqb providerReason "stop" then FinishStop
   else if String.eqb providerReason "length" then FinishLength
   else if String.eqb providerReason "tool_calls" then FinishToolCalls
   else if String.eqb providerReason "content_filter" then FinishContentPolicy
   else FinishUnknown, providerReason).

Record completionToolFunction := { tf_Name : string; tf_Arguments : string }.
Definition decode_completionToolFunction (raw : RawMessage) : option completionToolFunction :=
  let names := ["name"; "arguments"]%string in
  members ← struct_members raw;
  name ← string_field names members "name";
  arguments ← string_field names members "arguments";
  Some {| tf_Name := name; tf_Arguments := arguments |}.

Record completionToolCall := { tk_ID : string; tk_Type : string; tk_Function : RawMessage }.
Definition decode_completionToolCall (raw : RawMessage) : option completionToolCall :=
  let names := ["id"; "type"; "function"]%string in
  members ← struct_members raw;
  id ← string_field names members "id";
  type ← string_field names members "type";
  Some {| tk_ID := id; tk_Type := type; tk_Function := raw_message_field names members "function" |}.

Record completionMessage := {
  cm_Role : string; cm_Content : RawMessage; cm_ToolCalls : list RawMessage; cm_Refusal : RawMessage; cm_Annotations : RawMessage;
  cm_Audio : RawMessage; cm_FunctionCall : RawMessage }.
Definition message_names : list string := ["role"; "content"; "tool_calls"; "refusal"; "annotations"; "audio"; "function_call"]%string.
Definition decode_completionMessage (raw : RawMessage) : option completionMessage :=
  members ← struct_members raw;
  role ← string_field message_names members "role";
  calls ← raws_field message_names members "tool_calls";
  Some {| cm_Role := role; cm_Content := raw_message_field message_names members "content"; cm_ToolCalls := calls;
          cm_Refusal := raw_message_field message_names members "refusal"; cm_Annotations := raw_message_field message_names members "annotations";
          cm_Audio := raw_message_field message_names members "audio"; cm_FunctionCall := raw_message_field message_names members "function_call" |}.

Record completionChoice := { cc_Index : Z; cc_Message : RawMessage; cc_FinishReason : string; cc_Logprobs : RawMessage }.
Definition choice_names : list string := ["index"; "message"; "finish_reason"; "logprobs"]%string.
Definition decode_completionChoice (raw : RawMessage) : option completionChoice :=
  members ← struct_members raw;
  index ← int_field choice_names members "index";
  reason ← string_field choice_names members "finish_reason";
  Some {| cc_Index := index; cc_Message := raw_message_field choice_names members "message"; cc_FinishReason := reason;
          cc_Logprobs := raw_message_field choice_names members "logprobs" |}.

Record completionEnvelope := {
  en_ID : string; en_Object : string; en_Created : Z; en_Model : string; en_Choices : list RawMessage; en_Usage : RawMessage;
  en_SystemFingerprint : string; en_ServiceTier : string; en_Moderation : RawMessage }.
Definition envelope_names : list string :=
  ["id"; "object"; "created"; "model"; "choices"; "usage"; "system_fingerprint"; "service_tier"; "moderation"]%string.
Definition decode_completionEnvelope (raw : RawMessage) : option completionEnvelope :=
  members ← struct_members raw;
  id ← string_field envelope_names members "id";
  object ← string_field envelope_names members "object";
  created ← int_field envelope_names members "created";
  model ← string_field envelope_names members "model";
  choices ← raws_field envelope_names members "choices";
  fingerprint ← string_field envelope_names members "system_fingerprint";
  tier ← string_field envelope_names members "service_tier";
  Some {| en_ID := id; en_Object := object; en_Created := created; en_Model := model; en_Choices := choices;
          en_Usage := raw_message_field envelope_names members "usage"; en_SystemFingerprint := fingerprint; en_ServiceTier := tier;
          en_Moderation := raw_message_field envelope_names members "moderation" |}.

Definition openai_parseToolCall (raw : RawMessage) : result ToolCall openai_error :=
  ensure onlyObjectFields raw ["id"; "type"; "function"]%string else protocolError "parse_tool_call" "unknown_tool_call_field" in
  match decode_completionToolCall raw with
  | None => Err (protocolError "parse_tool_call" "invalid_tool_call")
  | Some call =>
      ensure String.eqb (tk_Type call) "function" && onlyObjectFields (tk_Function call) ["name"; "arguments"]%string
        else protocolError "parse_tool_call" "invalid_tool_call_type" in
      match decode_completionToolFunction (tk_Function call) with
      | None => Err (protocolError "parse_tool_call" "invalid_tool_function")
      | Some function =>
          let arguments := bytes_of (tf_Arguments function) in
          ensure onlyObjectFields arguments [] else protocolError "parse_tool_call" "invalid_tool_arguments" in
          Ok {| call_ID := tk_ID call; call_Name := tf_Name function; call_Arguments := arguments |}
      end
  end.

Fixpoint parse_list {A : Type} (parse : RawMessage -> result A openai_error) (raws : list RawMessage) : result (list A) openai_error :=
  match raws with
  | [] => Ok []
  | raw :: raws => let? a := parse raw in let? rest := parse_list parse raws in Ok (a :: rest)
  end.

Definition text_parts (content : string) : list ContentPart :=
  if is_empty content then []
  else [{| part_Kind := ContentText; part_Text := content; part_Reference := ""; part_MediaType := ""; part_Detail := "" |}].

Definition message_parts (content : RawMessage) : result (list ContentPart) openai_error :=
  if hasNonNullValue content then
    match decode_string (trim_bytes content) with
    | Some text => Ok (text_parts text)
    | None => Err (protocolError "parse_message" "invalid_content")
    end
  else Ok [].

Definition openai_parseMessage (raw : RawMessage) : result Message openai_error :=
  ensure onlyObjectFields raw message_names else protocolError "parse_message" "unknown_message_field" in
  match decode_completionMessage raw with
  | None => Err (protocolError "parse_message" "invalid_message")
  | Some message =>
      ensure String.eqb (cm_Role message) "assistant" else protocolError "parse_message" "unexpected_message_role" in
      ensure negb (hasValue (cm_Refusal message) || hasValue (cm_Annotations message) || hasValue (cm_Audio message) || hasValue (cm_FunctionCall message))
        else protocolError "parse_message" "unsupported_message_payload" in
      let? parts := message_parts (cm_Content message) in
      let? calls := parse_list openai_parseToolCall (cm_ToolCalls message) in
      Ok {| msg_Role := RoleAssistant; msg_Name := ""; msg_Parts := parts; msg_ToolCalls := calls; msg_ToolCallID := "" |}
  end.

Definition parseChoice (raw : RawMessage) : result NormalizedChoice openai_error :=
  ensure onlyObjectFields raw choice_names else protocolError "parse_choice" "unknown_choice_field" in
  match decode_completionChoice raw with
  | None => Err (protocolError "parse_choice" "invalid_choice")
  | Some choice =>
      ensure negb (hasValue (cc_Logprobs choice)) else protocolError "parse_choice" "logprobs_unsupported" in
      let? message := openai_parseMessage (cc_Message choice) in
      let '(reason, provider) := normalizeFinishReason (cc_FinishReason choice) in
      Ok {| nc_Index := cc_Index choice; nc_Message := message; nc_FinishReason := reason; nc_ProviderFinishReason := provider |}
  end.

Definition requireMediaType (header wanted : string) : bool := match ParseMediaType header with Some m => String.eqb m wanted | None => false end.

(** The part of [ParseResponse] behind the status and the content type. *)
Definition parse_completion (body : list Z) (requestID : string) (now : Time) : result NormalizedResponse openai_error :=
  ensure onlyObjectFields body envelope_names else protocolError "parse_response" "unknown_response_field" in
  match decode_completionEnvelope body with
  | None => Err (protocolError "parse_response" "invalid_json")
  | Some envelope =>
      ensure String.eqb (en_Object envelope) "chat.completion" && negb (is_empty (en_Model envelope))
        else protocolError "parse_response" "unexpected_response_identity" in
      ensure negb (hasValue (en_Moderation envelope)) else protocolError "parse_response" "moderation_response_unsupported" in
      let? choices := parse_list parseChoice (en_Choices envelope) in
      let? usage := optionalUsage (en_Usage envelope) in
      let normalized := {| resp_ID := en_ID envelope; resp_Model := en_Model envelope; resp_Choices := choices; resp_Usage := usage;
                           resp_ProviderRequestID := safeProviderRequestID requestID; resp_ObservedAt := now |} in
      ensure NormalizedResponse_Validate normalized else protocolError "parse_response" "invalid_normalized_response" in
      Ok normalized
  end.

(** [cancelled] is the context before the body is read, [late] after it. *)
Definition ParseResponse (cancelled late : bool) (response : option HTTPResponse) (now : Time) : result NormalizedResponse openai_error :=
  match response with
  | None => Err (protocolError "parse_response" "missing_response")
  | Some r =>
      if cancelled then Err CallCancelled
      else
        let? body := readBoundedBody r maximumJSONResponseBytes in
        if negb (hs_StatusCode r =? 200) then Err (ProviderRejected (NormalizeError late (Some r) now))
        else if negb (requireMediaType (hs_ContentType r) "application/json") then Err (protocolError "parse_response" "invalid_content_type")
        else parse_completion body (hs_RequestID r) now
  end.
End Answers.

(** ** Provider usage is recorded exactly

    What the OpenAI adapter makes of the usage object of an answer: every count is the
    integer the provider wrote, the totals agree without wrap-around, and every field the
    adapter does not know is listed, so that no billable quantity is lost silently. *)
(** ** Counts *)
Definition reported (fields : gmap string (list Z)) (name : string) (c : TokenCount) : Prop :=
  if tc_Present c then exists raw, fields !! name = Some raw /\ decode_int64 raw = Some (tc_Value c) /\ 0 <= tc_Value c <= i64_max
  else tc_Value c = 0 /\ (fields !! name = None \/ exists raw, fields !! name = Some raw /\ hasNonNullValue raw = false).

Lemma ParseInt64_range t v : ParseInt64 t = Some v -> i64_min <= v <= i64_max.
Proof.
  unfold ParseInt64. destruct (take_sign t) as [neg bs]. destruct (take_digits bs) as [ds rest]. destruct (_ && _); [|done].
  destruct ((i64_min <=? _) && _) eqn:E; [|done]. intros [= <-]. prop_hyps. done.
Qed.

Lemma decode_int64_range raw v : decode_int64 raw = Some v -> i64_min <= v <= i64_max.
Proof. unfold decode_int64. destruct (json_decode raw) as [[]|]; try done; [intros [= <-]; by vm_compute|apply ParseInt64_range]. Qed.

Lemma count_reported fields name c : parseTokenCount fields name = Ok c -> reported fields name c.
Proof.
  unfold parseTokenCount, reported. destruct (fields !! name) as [raw|]; [|intros [= <-]; cbn; auto].
  destruct (hasNonNullValue raw) eqn:En; cbn [negb]; [|intros [= <-]; cbn; eauto].
  destruct (decode_int64 raw) as [v|] eqn:Ev; [|done]. destruct (v <? 0) eqn:E0; [done|]. intros [= <-]. cbn. apply Z.ltb_ge in E0.
  pose proof (decode_int64_range _ _ Ev). eauto with lia.
Qed.

(** ** Details *)
Definition pointer (prefix name : string) : string := prefix +:+ "/" +:+ escapeJSONPointer name.

Lemma detail_loop_spec fields prefix mappings members : NoDup mappings.*2 -> forall counts unknown counts' unknown',
  detail_loop fields prefix mappings members counts unknown = Ok (counts', unknown') ->
  (forall name, name ∈ members.*1 -> name ∈ mappings.*1 \/ pointer prefix name ∈ unknown') /\ unknown ⊆ unknown' /\
  (forall name target, find (fun m => String.eqb m.1 name) mappings = Some (name, target) ->
    (name ∈ members.*1 -> exists c, parseTokenCount fields name = Ok c /\ counts' !! target = Some c) /\
    (name ∉ members.*1 -> counts' !! target = counts !! target)).
Proof.
  intros Hd. induction members as [|[key raw] members IH]; intros counts unknown counts' unknown' H; cbn [detail_loop] in H.
  { injection H as <- <-. split_and!; [|done|]; [by intros name ?%elem_of_nil|]. intros name target _. split; [by intros ?%elem_of_nil|done]. }
  rewrite fmap_cons. cbn [fst]. destruct (find _ mappings) as [[k tgt]|] eqn:Ef.
  - apply find_some in Ef as Ef'. destruct Ef' as [Hin Hk]. apply String.eqb_eq in Hk. cbn in Hk. subst k.
    destruct (parseTokenCount fields key) as [c|] eqn:Ec; [|done]. cbn [result_bind] in H. destruct (IH _ _ _ _ H) as (H1 & H2 & H3). split_and!; [|done|].
    + intros name [->|Hn]%elem_of_cons; [left|by apply H1]. apply list_elem_of_fmap. exists (key, tgt). split; [done|by apply list_elem_of_In].
    + intros name target Hf. destruct (H3 name target Hf) as [H4 H5]. destruct (decide (name ∈ members.*1)) as [Hn|Hn].
      * split; [by auto|]. intros Hno. exfalso. apply Hno. by right.
      * destruct (decide (name = key)) as [->|Hne].
        -- rewrite Ef in Hf. injection Hf as <-. split; [intros _; exists c; rewrite H5, lookup_insert_eq by done; done|]. intros Hno. exfalso. apply Hno. by left.
        -- split; [intros [?|?]%elem_of_cons; done|]. intros _. rewrite H5 by done. apply lookup_insert_ne. intros ->.
           apply find_some in Hf as [Hin' _]. apply list_elem_of_In in Hin, Hin'. apply list_elem_of_lookup in Hin as [i Hi], Hin' as [j Hj].
           assert (i = j) as ->; [|congruence]. eapply NoDup_lookup; [exact Hd|by rewrite list_lookup_fmap, Hi|by rewrite list_lookup_fmap, Hj].
  - destruct (IH _ _ _ _ H) as (H1 & H2 & H3). split_and!.
    + intros name [->|Hn]%elem_of_cons; [right|by apply H1]. apply H2. apply elem_of_app. right. by left.
    + set_solver.
    + intros name target Hf. destruct (H3 name target Hf) as [H4 H5]. split.
      * intros [->|Hn]%elem_of_cons; [congruence|by apply H4].
      * intros Hno. apply H5. set_solver.
Qed.

Lemma mappings_distinct : NoDup prompt_mappings.*2 /\ NoDup prompt_mappings.*1 /\ NoDup completion_mappings.*2 /\ NoDup completion_mappings.*1.
Proof. split_and!; apply (bool_decide_unpack _); vm_compute; exact I. Qed.

Section Usage.
Context (range : gmap string (list Z) -> list (string * list Z)) (range_all : forall m, range m ≡ₚ map_to_list m).

Lemma range_names m name : name ∈ (range m).*1 <-> is_Some (m !! name).
Proof.
  rewrite range_all, list_elem_of_fmap. split.
  - intros ([k v] & -> & Hv). apply elem_of_map_to_list in Hv. by exists v.
  - intros [v Hv]. exists (name, v). split; [done|by apply elem_of_map_to_list].
Qed.

(** The details of one kind: counts by name, and what is not known. *)
Definition details_reported (raw : RawMessage) (prefix : string) (mappings : list (string * string)) (counts : gmap string TokenCount) (unmapped : list string) : Prop :=
  if hasNonNullValue raw then
    exists sub, decode_map raw = Some (Some sub) /\
      (forall name target, (name, target) ∈ mappings -> reported sub name (count_of counts target)) /\
      (forall name, is_Some (sub !! name) -> name ∈ mappings.*1 \/ pointer prefix name ∈ unmapped)
  else counts = ∅.

Lemma details_spec raw prefix mappings counts unknown : NoDup mappings.*2 -> NoDup mappings.*1 ->
  parseDetailCounts range raw prefix mappings = Ok (counts, unknown) -> details_reported raw prefix mappings counts unknown.
Proof.
  intros Hd2 Hd1. unfold parseDetailCounts, details_reported. destruct (hasNonNullValue raw); cbn [negb]; [|by intros [= <- <-]].
  destruct (decode_map raw) as [[sub|]|]; try done. intros H. apply detail_loop_spec in H as (H1 & _ & H3); [|done]. exists sub. split_and!; [done| |].
  - intros name target Hin.
    assert (find (fun m => String.eqb m.1 name) mappings = Some (name, target)) as Hf.
    { destruct (find _ mappings) as [[k t]|] eqn:Ef.
      - apply find_some in Ef as [Hin' Hk]. apply String.eqb_eq in Hk. cbn in Hk. subst k. apply list_elem_of_In in Hin'.
        apply list_elem_of_lookup in Hin as [i Hi], Hin' as [j Hj]. assert (i = j) as ->; [|congruence].
        eapply NoDup_lookup; [exact Hd1|by rewrite list_lookup_fmap, Hi|by rewrite list_lookup_fmap, Hj].
      - eapply (find_none _ _) in Ef; [|by apply list_elem_of_In]. cbn in Ef. by rewrite String.eqb_refl in Ef. }
    destruct (H3 _ _ Hf) as [H4 H5]. unfold count_of. destruct (decide (name ∈ (range sub).*1)) as [Hn|Hn].
    + destruct (H4 Hn) as (c & Hc & ->). by apply count_reported.
    + rewrite (H5 Hn), lookup_empty. cbn. split; [done|left]. destruct (sub !! name) eqn:E; [|done]. exfalso. apply Hn, range_names. by eexists.
  - intros name Hs. apply H1. by apply range_names.
Qed.

(** What is recorded of a provider's usage object is exact: each count present is the
    non-negative integer under its name, and a count is absent only where the name is; if
    the provider states a total, it is the sum without wrap-around; every member of the
    object and of its details is either counted or listed as unmapped; the evidence is the
    whole text and the result is a valid complete usage of the provider. *)
Theorem provider_usage_is_exact raw complete u : parseUsage range raw complete = Ok u ->
  exists fields prompt completion total,
    decode_map raw = Some (Some fields) /\
    reported fields "prompt_tokens" (u_InputTokens u) /\ reported fields "completion_tokens" (u_OutputTokens u) /\ reported fields "total_tokens" total /\
    (tc_Present total = true -> tc_Present (u_InputTokens u) = true -> tc_Present (u_OutputTokens u) = true ->
      tc_Value total = tc_Value (u_InputTokens u) + tc_Value (u_OutputTokens u)) /\
    details_reported (default [] (fields !! "prompt_tokens_details")) "/prompt_tokens_details" prompt_mappings prompt (u_UnmappedFields u) /\
    details_reported (default [] (fields !! "completion_tokens_details")) "/completion_tokens_details" completion_mappings completion (u_UnmappedFields u) /\
    u_CacheReadTokens u = count_of prompt "cache_read" /\ u_CacheWriteTokens u = count_of prompt "cache_write" /\ u_AudioInputTokens u = count_of prompt "audio_input" /\
    u_ReasoningTokens u = count_of completion "reasoning" /\ u_AudioOutputTokens u = count_of completion "audio_output" /\
    (forall name, is_Some (fields !! name) -> name ∈ usage_names \/ pointer "" name ∈ u_UnmappedFields u) /\
    u_EvidenceBytes u = Z.of_nat (length raw) /\ u_Source u = SourceProvider /\ u_Complete u = complete /\ NormalizedUsage_Validate u = true.
Proof.
  unfold parseUsage. destruct (decode_map raw) as [[fields|]|]; try done.
  destruct (parseTokenCount fields "prompt_tokens") as [input|] eqn:Ei; [cbn [result_bind]|done].
  destruct (parseTokenCount fields "completion_tokens") as [output|] eqn:Eo; [cbn [result_bind]|done].
  destruct (parseTokenCount fields "total_tokens") as [total|] eqn:Et; [cbn [result_bind]|done].
  destruct (negb _) eqn:Esum; [|done]. apply negb_true_iff in Esum.
  destruct (parseDetailCounts _ _ "/prompt_tokens_details" _) as [[prompt up]|] eqn:Ep; [cbn [result_bind]|done].
  destruct (parseDetailCounts _ _ "/completion_tokens_details" _) as [[completion uc]|] eqn:Ec; [cbn [result_bind fst snd]|done].
  destruct (NewUsageEvidence raw) as [size|] eqn:Ev; [|done]. destruct (NormalizedUsage_Validate _) eqn:Evalid; [|done]. intros [= <-].
  apply count_reported in Ei, Eo, Et. destruct mappings_distinct as (D1 & D2 & D3 & D4).
  apply details_spec in Ep, Ec; [|done..].
  assert (forall x, x ∈ unknownPointers range fields usage_names ++ up ++ uc -> x ∈ sort_strings (unknownPointers range fields usage_names ++ up ++ uc)) as Hsort
    by (intros x Hx; by rewrite sort_strings_perm).
  assert (forall r prefix mappings counts unmapped, unmapped ⊆ up ++ uc -> details_reported r prefix mappings counts unmapped ->
    details_reported r prefix mappings counts (sort_strings (unknownPointers range fields usage_names ++ up ++ uc))) as Hweaken.
  { intros r prefix mappings counts unmapped Hsub. unfold details_reported. destruct (hasNonNullValue r); [|done]. intros (sub & Hs & H1 & H2). exists sub. split_and!; [done..|].
    intros name Hn. destruct (H2 name Hn) as [|Hx]; [by left|right]. apply Hsort. apply elem_of_app. right. by apply Hsub. }
  exists fields, prompt, completion, total. cbn [u_InputTokens u_OutputTokens u_UnmappedFields u_EvidenceBytes u_CacheReadTokens u_CacheWriteTokens u_AudioInputTokens u_ReasoningTokens u_AudioOutputTokens u_Source u_Complete].
  split_and!; try done.
  - intros H1 H2 H3. rewrite H1, H2, H3 in Esum. cbn [andb] in Esum. apply negb_false_iff, Z.eqb_eq in Esum. rewrite Esum. apply i64_small.
    unfold reported in Ei, Eo, Et. rewrite H1 in Et. rewrite H2 in Ei. rewrite H3 in Eo. destruct Ei as (? & _ & _ & Ei), Eo as (? & _ & _ & Eo), Et as (? & _ & _ & Et).
    unfold i64, i64_min, i64_max in *. pose proof (Z.mod_pos_bound (tc_Value input + tc_Value output + 9223372036854775808) 18446744073709551616).
    destruct (decide (tc_Value input + tc_Value output <= 9223372036854775807)); [lia|].
    rewrite (Z.mod_eq (tc_Value input + tc_Value output + 9223372036854775808) 18446744073709551616) in Esum by lia.
    assert ((tc_Value input + tc_Value output + 9223372036854775808) / 18446744073709551616 = 1) as Hdiv by (symmetry; apply (Z.div_unique _ _ _ (tc_Value input + tc_Value output - 9223372036854775808)); lia).
    rewrite Hdiv in Esum. lia.
  - apply (Hweaken _ _ _ _ up); [set_solver|done].
  - apply (Hweaken _ _ _ _ uc); [set_solver|done].
  - intros name Hn. destruct (decide (name ∈ usage_names)) as [|Hno]; [by left|right]. apply Hsort, elem_of_app. left. unfold unknownPointers.
    apply list_elem_of_fmap. apply range_names in Hn. apply list_elem_of_fmap in Hn as ([k v] & -> & Hin). exists (k, v). split; [done|]. by apply list_elem_of_filter.
  - unfold NewUsageEvidence in Ev. destruct (_ && json_object raw); [|done]. by injection Ev as <-.
Qed.
End Usage.

Definition demo_usage_text : list Z :=
  json_text "{'prompt_tokens':12,'completion_tokens':5,'total_tokens':17,'prompt_tokens_details':{'cached_tokens':4,'x/y':1},'service':{}}".

Lemma demo_usage_parses : exists u, parseUsage map_to_list demo_usage_text true = Ok u.
Proof. eexists. vm_compute. reflexivity. Qed.

Lemma provider_usage_is_exact_witness : exists u, parseUsage map_to_list demo_usage_text true = Ok u /\
  exists fields, decode_map demo_usage_text = Some (Some fields) /\ reported fields "prompt_tokens" (u_InputTokens u).
Proof.
  destruct demo_usage_parses as [u Hu]. exists u. split; [exact Hu|].
  destruct (provider_usage_is_exact map_to_list (fun m => reflexivity _) demo_usage_text true u Hu) as (fields & _ & _ & _ & H1 & H2 & _).
  exact (ex_intro _ fields (conj H1 H2)).
Defined.
