(* ===== verification/OpenAIRequest.v ===== *)
(** * Requests to OpenAI (src/internal/openaiadapter/request.go, factory.go)

    The factory checks catalog records and the endpoint, the adapter translates a normalized
    request and attaches the credential of its deployment. [json.Marshal], [url.Parse] and
    [URL.String], [net.ParseIP] and the secret resolver are arguments; a JSON [any] is the
    inductive type of the shapes the code puts into it. *)
From Stdlib Require Import ZArith Lia Bool Ascii String SpecFloat.
From stdpp Require Import base tactics option list strings gmap fin_maps.
From S2P Require Import Prelude Identifiers Unicode Encoding JSON JSONDecode Catalog ProviderSecret Retry Metering MeteringCost Adapter OpenAIAdapter.
(** ** The body *)
Record upstreamImageValue := { im_URL : string; im_Detail : string }.
Record upstreamContentPart := { uc_Type : string; uc_Text : string; uc_ImageURL : option upstreamImageValue }.
Inductive upstreamContent := NoContent | TextContent (text : string) | PartsContent (parts : list upstreamContentPart).

Record upstreamToolCallFunction := { uf_Name : string; uf_Arguments : string }.
Record upstreamToolCall := { ut_ID : string; ut_Type : string; ut_Function : upstreamToolCallFunction }.
Record upstreamMessage := {
  um_Role : MessageRole; um_Name : string; um_Content : upstreamContent; um_ToolCalls : list upstreamToolCall; um_ToolCallID : string }.

Record upstreamToolFunction := { un_Name : string; un_Description : string; un_Parameters : RawMessage }.
Record upstreamTool := { uo_Type : string; uo_Function : upstreamToolFunction }.

Inductive upstreamToolChoice := ModeChoice (mode : ToolChoiceMode) | NamedChoice (name : string).
Record responseSchema := { rs_Name : string; rs_Description : string; rs_Schema : RawMessage; rs_Strict : option bool }.
Inductive upstreamFormat := PlainFormat (type : ResponseFormatType) | SchemaFormat (schema : responseSchema).

Record upstreamRequest := {
  ur_Model : string; ur_User : string; ur_Messages : list upstreamMessage; ur_Stream : bool; ur_IncludeUsage : option bool;
  ur_Temperature : option float64; ur_TopP : option float64; ur_MaxCompletionTokens : option Z; ur_Stop : list string; ur_Tools : list upstreamTool;
  ur_ToolChoice : option upstreamToolChoice; ur_ResponseFormat : option upstreamFormat }.

Definition buildPart (part : ContentPart) : result upstreamContentPart openai_error :=
  match part_Kind part with
  | ContentText => Ok {| uc_Type := "text"; uc_Text := part_Text part; uc_ImageURL := None |}
  | ContentImageReference =>
      Ok {| uc_Type := "image_url"; uc_Text := ""; uc_ImageURL := Some {| im_URL := part_Reference part; im_Detail := part_Detail part |} |}
  | ContentAudioReference => Err (unsupported "messages.parts.audio_reference")
  | ContentOther _ => Err (unsupported "messages.parts.kind")
  end.

Fixpoint map_results {A B E : Type} (f : A -> result B E) (l : list A) : result (list B) E :=
  match l with [] => Ok [] | a :: l => let? b := f a in let? rest := map_results f l in Ok (b :: rest) end.

Definition buildContent (parts : list ContentPart) : result upstreamContent openai_error :=
  let built := let? content := map_results buildPart parts in Ok (PartsContent content) in
  match parts with
  | [] => Ok NoContent
  | [part] => match part_Kind part with ContentText => Ok (TextContent (part_Text part)) | _ => built end
  | _ => built
  end.

Definition buildCall (call : ToolCall) : upstreamToolCall :=
  {| ut_ID := call_ID call; ut_Type := "function"; ut_Function := {| uf_Name := call_Name call; uf_Arguments := string_of (call_Arguments call) |} |}.

Definition buildMessage (message : Message) : result upstreamMessage openai_error :=
  let? content := buildContent (msg_Parts message) in
  Ok {| um_Role := msg_Role message; um_Name := msg_Name message; um_Content := content; um_ToolCalls := buildCall <$> msg_ToolCalls message;
        um_ToolCallID := msg_ToolCallID message |}.
Definition buildMessages (messages : list Message) : result (list upstreamMessage) openai_error := map_results buildMessage messages.

Definition buildTools (tools : list ToolDefinition) : list upstreamTool :=
  (fun tool => {| uo_Type := "function"; uo_Function := {| un_Name := tool_Name tool; un_Description := tool_Description tool; un_Parameters := tool_InputSchema tool |} |}) <$> tools.

Definition buildToolChoice (choice : option ToolChoice) : option upstreamToolChoice :=
  (fun c => match choice_Mode c with ToolChoiceNamed => NamedChoice (choice_Name c) | mode => ModeChoice mode end) <$> choice.

Definition buildResponseFormat (format : option ResponseFormat) : option upstreamFormat :=
  (fun f => match fmt_Type f with
            | ResponseFormatJSONSchema =>
                SchemaFormat {| rs_Name := fmt_Name f; rs_Description := fmt_Description f; rs_Schema := fmt_Schema f; rs_Strict := fmt_Strict f |}
            | type => PlainFormat type
            end) <$> format.

(** ** The endpoint (factory.go) *)
Record Endpoint := { ep_URL : URL; ep_Host : string; ep_Path : string; ep_EscapedPath : string }.
Record Factory := { fc_userAgent : string; fc_allowInsecureLoopback : bool }.
Record openAIAdapter := {
  oa_endpoint : Endpoint; oa_physicalModel : string; oa_capabilities : CapabilitySet; oa_secretLocator : SecretLocator; oa_userAgent : string }.

Definition trim_slash (path : string) : string :=
  match String.get (String.length path - 1) path with
  | Some c => if Ascii.eqb c "/" then String.substring 0 (String.length path - 1) path else path
  | None => path
  end.
Definition with_path (e : Endpoint) (path : string) : Endpoint :=
  {| ep_URL := ep_URL e; ep_Host := ep_Host e; ep_Path := path; ep_EscapedPath := path |}.

Definition defaultUserAgent : string := "ai-gateway-platform/openai-adapter".
Definition contains_any (cs : list ascii) (s : string) : bool := existsb (fun c => contains_char c s) cs.
Definition CRLF : list ascii := ["013"; "010"]%char.

(** [NewFactory]; the clock is [now]. *)
Definition NewFactory (userAgent : string) (allowInsecureLoopback : bool) (now : Time) : option Factory :=
  if time_is_zero now then None
  else
    let userAgent := TrimSpace userAgent in
    let userAgent := if is_empty userAgent then defaultUserAgent else userAgent in
    if (256 <? len userAgent) || contains_any CRLF userAgent then None
    else Some {| fc_userAgent := userAgent; fc_allowInsecureLoopback := allowInsecureLoopback |}.

Section Requests.
Context (url_Parse : string -> option Endpoint) (IsLoopbackIP : string -> bool) (url_String : Endpoint -> string).

Definition parseEndpoint (raw : string) (allowInsecureLoopback : bool) : option Endpoint :=
  e ← url_Parse raw;
  if negb (is_empty (Opaque (ep_URL e))) || has_User (ep_URL e) || is_empty (ep_Host e) || negb (is_empty (RawQuery (ep_URL e))) || negb (is_empty (Fragment (ep_URL e)))
  then None
  else if negb (String.eqb (Scheme (ep_URL e)) "https" ||
                (String.eqb (Scheme (ep_URL e)) "http" && allowInsecureLoopback && IsLoopbackIP (Hostname (ep_URL e))))
  then None
  else if negb (existsb (String.eqb (trim_slash (ep_EscapedPath e))) [""; "/v1"; "/v1/chat/completions"]%string) then None
  else Some (with_path e (trim_slash (ep_Path e))).

(** [Factory.New]; [None] stands for its errors. *)
Definition Factory_New (factory : Factory) (cancelled : bool) (provider : Catalog.Provider) (deployment : Deployment) : option openAIAdapter :=
  if cancelled || negb (Provider_Validate provider) || negb (Deployment_Validate (fun s => ep_URL <$> url_Parse s) deployment) ||
     negb (String.eqb (prov_AdapterType provider) "openai") ||
     negb (bool_decide (aud_Status (prov_Audit provider) = StatusActive) && bool_decide (aud_Status (dep_Audit deployment) = StatusActive)) ||
     negb (String.eqb (dep_ProviderID deployment) (prov_ID provider)) || negb (has_Chat (dep_Capabilities deployment))
  then None
  else
    secret ← dep_SecretReferenceID deployment;
    endpoint ← parseEndpoint (dep_EndpointURL deployment) (fc_allowInsecureLoopback factory);
    Some {| oa_endpoint := endpoint; oa_physicalModel := dep_PhysicalModel deployment; oa_capabilities := dep_Capabilities deployment;
            oa_secretLocator := {| lc_ProviderID := prov_ID provider; lc_ID := secret |}; oa_userAgent := fc_userAgent factory |}.

(** ** Building a request (request.go) *)
Definition maximumUpstreamRequestBytes : Z := 1048576.

Definition validateCapabilities (a : openAIAdapter) (input : NormalizedRequest) : option openai_error :=
  let c := oa_capabilities a in
  if negb (Nat.eqb (length (req_ProviderOptions input)) 0) then Some (unsupported "provider_options")
  else if negb (Nat.eqb (length (req_PolicyLabels input)) 0) then Some (unsupported "policy_labels")
  else if req_Stream input && negb (has_Stream c) then Some (unsupported "stream")
  else if negb (Nat.eqb (length (req_Tools input)) 0) && negb (has_Tools c) then Some (unsupported "tools")
  else if match req_ResponseFormat input with Some f => negb (bool_decide (fmt_Type f = ResponseFormatText)) && negb (has_StructuredOutput c) | None => false end
  then Some (unsupported "response_format")
  else if match req_MaxOutputTokens input with Some m => (0 <? MaxOutputTokens c) && (MaxOutputTokens c <? m) | None => false end
  then Some (unsupported "max_output_tokens")
  else None.

Definition validCredential (value : list Z) : bool :=
  negb (Nat.eqb (length value) 0) && (Z.of_nat (length value) <=? 16384) && bool_decide (value = trim_bytes value) &&
  forallb (fun b => negb (existsb (Z.eqb b) [0; 13; 10])) value.

Definition completionURL (a : openAIAdapter) : string :=
  let path := ep_Path (oa_endpoint a) in
  url_String (with_path (oa_endpoint a)
    (if existsb (String.eqb (trim_slash path)) [""; "/"; "/v1"; "/v1/chat/completions"]%string then "/v1/chat/completions"%string else path)).

Definition translate (a : openAIAdapter) (input : NormalizedRequest) : result upstreamRequest openai_error :=
  let? messages := buildMessages (req_Messages input) in
  Ok {| ur_Model := oa_physicalModel a; ur_User := req_EndUserReference input; ur_Messages := messages; ur_Stream := req_Stream input;
        ur_IncludeUsage := if req_Stream input then Some true else None; ur_Temperature := req_Temperature input; ur_TopP := req_TopP input;
        ur_MaxCompletionTokens := req_MaxOutputTokens input; ur_Stop := req_Stop input; ur_Tools := buildTools (req_Tools input);
        ur_ToolChoice := buildToolChoice (req_ToolChoice input); ur_ResponseFormat := buildResponseFormat (req_ResponseFormat input) |}.

Record HTTPRequest := { hq_Method : string; hq_URL : string; hq_Headers : list (string * string); hq_Body : list Z }.

(** [accepts_url] is whether [http.NewRequestWithContext] takes the address. *)
Definition BuildRequest (marshal : upstreamRequest -> option (list Z)) (accepts_url : string -> bool) (resolve : SecretLocator -> option (list Z))
    (a : openAIAdapter) (cancelled : bool) (input : NormalizedRequest) : result HTTPRequest openai_error :=
  ensure negb cancelled else CallCancelled in
  ensure NormalizedRequest_Validate input else AdapterError "validate normalized openai request" in
  match validateCapabilities a input with
  | Some e => Err e
  | None =>
      let? body := translate a input in
      match marshal body with
      | None => Err (AdapterError "encode openai provider request failed")
      | Some encoded =>
          ensure Z.of_nat (length encoded) <=? maximumUpstreamRequestBytes else ErrRequestTooLarge in
          ensure accepts_url (completionURL a) else AdapterError "create openai provider request failed" in
          match resolve (oa_secretLocator a) with
          | Some credential =>
              ensure validCredential credential else ErrCredentialUnavailable in
              Ok {| hq_Method := "POST"; hq_URL := completionURL a; hq_Body := encoded;
                    hq_Headers := [("Authorization", "Bearer " +:+ string_of credential); ("Content-Type", "application/json");
                                   ("Accept", if req_Stream input then "text/event-stream" else "application/json");
                                   ("User-Agent", oa_userAgent a); ("X-Client-Request-Id", req_RequestID input)]%string |}
          | None => Err ErrCredentialUnavailable
          end
      end
  end.
End Requests.
