(* ===== verification/MeteringOutbox.v ===== *)
(** * The usage event relay (src/internal/meteringoutbox/relay.go, kafka.go)

    The outbox table of migrations/000016_create_usage_event_outbox.up.sql (with the
    columns of 000018 and 000019) and the relay that moves its rows to the event bus:
    claim with a lease, publish outside the transaction, record the outcome. The rows a
    statement skips because they are locked, the order in which UPDATE ... RETURNING
    delivers its rows, faults of the database, replies of the broker, lease identities
    and the clock are arguments. [json.Marshal] is the argument [marshal]. Retention
    jobs, which may delete published rows, are not part of the repository. *)
From Stdlib Require Import ZArith Lia Bool Ascii String.
From stdpp Require Import base tactics option list strings gmap fin_maps sets sorting.
From S2P Require Import Prelude Postgres Identifiers Unicode Catalog Retry Metering.
(** ** The outbox table *)
Inductive OutboxStatus := OutboxPending | OutboxPublishing | OutboxPublished.

#[export] Instance OutboxStatus_eq_dec : EqDecision OutboxStatus.
Proof. solve_decision. Defined.
#[export] Instance UsageEstimateMetadata_eq_dec : EqDecision UsageEstimateMetadata.
Proof. solve_decision. Defined.
#[export] Instance UsageIdentity_eq_dec : EqDecision UsageIdentity.
Proof. solve_decision. Defined.
#[export] Instance UsageEvent_eq_dec : EqDecision UsageEvent.
Proof. solve_decision. Defined.

Record OutboxRow := {
  ob_event : UsageEvent; ob_status : OutboxStatus; ob_attempts : Z; ob_availableAt : Time; ob_leaseID : option string;
  ob_leaseExpiresAt : option Time; ob_publishedAt : option Time; ob_lastErrorCode : option string; ob_createdAt : Time;
  ob_updatedAt : Time }.

Notation Outbox := (gmap string OutboxRow).
Notation Bus := (list (string * string)).

Definition present {A : Type} (o : option A) : bool := match o with Some _ => true | None => false end.

Definition outbox_lifecycle (row : OutboxRow) : bool :=
  match ob_status row with
  | OutboxPending => negb (present (ob_leaseID row)) && negb (present (ob_leaseExpiresAt row)) && negb (present (ob_publishedAt row))
  | OutboxPublishing => present (ob_leaseID row) && present (ob_leaseExpiresAt row) && negb (present (ob_publishedAt row))
  | OutboxPublished =>
      negb (present (ob_leaseID row)) && negb (present (ob_leaseExpiresAt row)) && present (ob_publishedAt row) &&
      negb (present (ob_lastErrorCode row))
  end.

Definition outbox_checks (row : OutboxRow) : bool :=
  (0 <=? ob_attempts row) && (ob_attempts row <=? 1000000) && (ob_createdAt row <=? ob_availableAt row) &&
  (ob_createdAt row <=? ob_updatedAt row) &&
  match ob_leaseExpiresAt row with Some t => ob_updatedAt row <? t | None => true end &&
  match ob_publishedAt row with Some t => ob_createdAt row <=? t | None => true end && outbox_lifecycle row.

(** The trigger on updates. *)
Definition enforce_usage_event_outbox_update (old new : OutboxRow) : bool :=
  bool_decide (ob_event new = ob_event old) && (ob_createdAt new =? ob_createdAt old) && (ob_updatedAt old <=? ob_updatedAt new) &&
  match ob_status old, ob_status new with
  | OutboxPending, OutboxPublishing =>
      (ob_attempts new =? ob_attempts old) && (ob_availableAt new =? ob_availableAt old) && present (ob_leaseID new) &&
      present (ob_leaseExpiresAt new) && negb (present (ob_publishedAt new))
  | OutboxPublishing, OutboxPending =>
      (ob_attempts new =? ob_attempts old + 1) && (ob_updatedAt new <=? ob_availableAt new) && negb (present (ob_leaseID new)) &&
      negb (present (ob_leaseExpiresAt new)) && negb (present (ob_publishedAt new)) && present (ob_lastErrorCode new)
  | OutboxPublishing, OutboxPublished =>
      (ob_attempts new =? ob_attempts old) && (ob_availableAt new =? ob_availableAt old) && negb (present (ob_leaseID new)) &&
      negb (present (ob_leaseExpiresAt new)) && present (ob_publishedAt new) && negb (present (ob_lastErrorCode new))
  | _, _ => false
  end.

(** What [insertUsageEventsInTransaction] of the recorder stores. *)
Definition new_row (event : UsageEvent) : OutboxRow :=
  let at_ := ui_ObservedAt (ue_Identity event) in
  {| ob_event := event; ob_status := OutboxPending; ob_attempts := 0; ob_availableAt := at_; ob_leaseID := None;
     ob_leaseExpiresAt := None; ob_publishedAt := None; ob_lastErrorCode := None; ob_createdAt := at_; ob_updatedAt := at_ |}.

(** UPDATE of the rows [ids]; any violation fails the whole statement. *)
Fixpoint update_outbox (rows : Outbox) (ids : list string) (change : OutboxRow -> OutboxRow) : result Outbox db_failure :=
  match ids with
  | [] => Ok rows
  | id :: rest =>
      match rows !! id with
      | None => update_outbox rows rest change
      | Some old =>
          if enforce_usage_event_outbox_update old (change old) && outbox_checks (change old)
          then update_outbox (<[id := change old]> rows) rest change
          else Err (PqError "23514" "")
      end
  end.

(** SELECT ... WHERE [matches] ORDER BY [key] FOR UPDATE SKIP LOCKED LIMIT [limit]. *)
Definition key_leb (a b : Z * Z * string) : bool :=
  (a.1.1 <? b.1.1) ||
  ((a.1.1 =? b.1.1) && ((a.1.2 <? b.1.2) || ((a.1.2 =? b.1.2) && negb (String.ltb b.2 a.2)))).

Definition key_le (key : string * OutboxRow -> Z * Z * string) (a b : string * OutboxRow) : Prop := key_leb (key a) (key b) = true.
#[export] Instance key_le_dec key a b : base.Decision (key_le key a b).
Proof. unfold key_le. apply _. Defined.

Definition candidates (matches : OutboxRow -> bool) (skip : string -> bool) (rows : Outbox) : list (string * OutboxRow) :=
  filter (fun entry => matches entry.2 = true /\ skip entry.1 = false) (map_to_list rows).

Definition select_ids (limit : Z) (matches : OutboxRow -> bool) (key : string * OutboxRow -> Z * Z * string) (skip : string -> bool)
    (rows : Outbox) : list string :=
  fst <$> take (Z.to_nat limit) (merge_sort (key_le key) (candidates matches skip rows)).

(** ** The relay *)
Inductive relay_error := ErrRelayInvalid | ErrRelayUnavailable | RelayCancelled (cause : ctx_error).

Definition maximumBatchSize : Z := 1000.

(** [ro_database], [ro_sink], [ro_clock] and [ro_random] tell whether the dependency is
    not nil, and the clock also that it does not read the zero time. *)
Record RelayOptions := {
  ro_database : bool; ro_sink : bool; ro_clock : bool; ro_random : bool; ro_BatchSize : Z; ro_PollInterval : Duration;
  ro_LeaseDuration : Duration; ro_PublishTimeout : Duration; ro_MinimumRetry : Duration; ro_MaximumRetry : Duration }.

Definition DefaultOptions : RelayOptions :=
  {| ro_database := true; ro_sink := true; ro_clock := true; ro_random := true; ro_BatchSize := 100; ro_PollInterval := 250 * millisecond;
     ro_LeaseDuration := 10 * second; ro_PublishTimeout := 2 * second; ro_MinimumRetry := second; ro_MaximumRetry := minute |}.

Record Relay := {
  rl_batchSize : Z; rl_pollInterval : Duration; rl_leaseDuration : Duration; rl_publishTimeout : Duration; rl_minimumRetry : Duration;
  rl_maximumRetry : Duration }.

Definition NewRelay (options : RelayOptions) : result Relay relay_error :=
  if negb (ro_database options) || negb (ro_sink options) || (ro_BatchSize options <? 1) || (maximumBatchSize <? ro_BatchSize options) ||
     (ro_PollInterval options <=? 0) || (ro_LeaseDuration options <=? ro_PublishTimeout options) || (ro_PublishTimeout options <=? 0) ||
     (ro_MinimumRetry options <=? 0) || (ro_MaximumRetry options <? ro_MinimumRetry options) || negb (ro_clock options) ||
     negb (ro_random options)
  then Err ErrRelayInvalid
  else Ok {| rl_batchSize := ro_BatchSize options; rl_pollInterval := ro_PollInterval options;
    rl_leaseDuration := ro_LeaseDuration options; rl_publishTimeout := ro_PublishTimeout options;
    rl_minimumRetry := ro_MinimumRetry options; rl_maximumRetry := ro_MaximumRetry options |}.

Record BatchResult := { br_Reclaimed : Z; br_Claimed : Z; br_Published : Z; br_Retried : Z }.
Record claimedEvent := { ce_event : UsageEvent; ce_PublishAttempts : Z }.

(** *** Retry delays *)
Fixpoint retry_loop (attempts : nat) (delay maximum : Duration) : Duration :=
  match attempts with
  | O => delay
  | S attempts' =>
      if delay <? maximum then
        if Z.quot maximum 2 <? delay then maximum else retry_loop attempts' (i64 (delay * 2)) maximum
      else delay
  end.

Definition retryDelay (relay : Relay) (publishAttempts : Z) : Duration :=
  let delay := retry_loop (Z.to_nat publishAttempts) (rl_minimumRetry relay) (rl_maximumRetry relay) in
  if rl_maximumRetry relay <? delay then rl_maximumRetry relay else delay.

(** *** Claiming a batch *)
Definition expired (now : Time) (row : OutboxRow) : bool :=
  bool_decide (ob_status row = OutboxPublishing) && match ob_leaseExpiresAt row with Some t => t <=? now | None => false end.
Definition due (now : Time) (row : OutboxRow) : bool :=
  bool_decide (ob_status row = OutboxPending) && (ob_availableAt row <=? now).

Definition reclaim_row (now : Time) (row : OutboxRow) : OutboxRow :=
  {| ob_event := ob_event row; ob_status := OutboxPending; ob_attempts := ob_attempts row + 1; ob_availableAt := now; ob_leaseID := None;
     ob_leaseExpiresAt := None; ob_publishedAt := ob_publishedAt row; ob_lastErrorCode := Some "LEASE_EXPIRED"%string;
     ob_createdAt := ob_createdAt row; ob_updatedAt := now |}.
Definition lease_row (leaseID : string) (expires now : Time) (row : OutboxRow) : OutboxRow :=
  {| ob_event := ob_event row; ob_status := OutboxPublishing; ob_attempts := ob_attempts row; ob_availableAt := ob_availableAt row;
     ob_leaseID := Some leaseID; ob_leaseExpiresAt := Some expires; ob_publishedAt := ob_publishedAt row;
     ob_lastErrorCode := ob_lastErrorCode row; ob_createdAt := ob_createdAt row; ob_updatedAt := now |}.

(** The columns read back: the estimate exists only in estimated events of schema 2. *)
Definition scan_event (event : UsageEvent) : UsageEvent :=
  {| ue_EventID := ue_EventID event; ue_SchemaVersion := ue_SchemaVersion event; ue_Kind := ue_Kind event; ue_Identity := ue_Identity event;
     ue_TokenType := ue_TokenType event; ue_BillingUnit := ue_BillingUnit event; ue_Quantity := ue_Quantity event;
     ue_Source := ue_Source event; ue_UsageComplete := ue_UsageComplete event;
     ue_Estimate :=
       if (ue_SchemaVersion event =? UsageEventSchemaVersion) && bool_decide (ue_Source event = SourceEstimated)
       then match ue_Estimate event with
            | Some m => Some {| est_Estimated := true; est_Tokenizer := est_Tokenizer m; est_TokenizerVersion := est_TokenizerVersion m;
                est_PhysicalModel := est_PhysicalModel m; est_DeploymentVersion := est_DeploymentVersion m;
                est_ProviderProtocolVersion := est_ProviderProtocolVersion m |}
            | None => None
            end
       else None |}.

(** [ce_skipReclaim] and [ce_skipClaim] are the rows locked by others when the two
    statements run, [ce_arrange] the order of the returned rows. *)
Record ClaimEnv := {
  cl_faults : Faults; cl_skipReclaim : string -> bool; cl_skipClaim : string -> bool; cl_arrange : list claimedEvent -> list claimedEvent }.

Definition expired_key (entry : string * OutboxRow) : Z * Z * string := (default 0 (ob_leaseExpiresAt entry.2), 0, entry.1).
Definition due_key (entry : string * OutboxRow) : Z * Z * string := (ob_availableAt entry.2, ob_createdAt entry.2, entry.1).
Definition unavailable (_ : db_failure) : relay_error := ErrRelayUnavailable.

Definition claim (relay : Relay) (env : ClaimEnv) (rows : Outbox) (leaseID : string) (now : Time)
    : Outbox * result (list claimedEvent * Z) relay_error :=
  let faults := cl_faults env in
  in_transaction faults ErrRelayUnavailable rows
    (let reclaimed := select_ids (rl_batchSize relay) (expired now) expired_key (cl_skipReclaim env) rows in
     let? rows1 := statement faults 0 unavailable (update_outbox rows reclaimed (reclaim_row now)) in
     let claimed := select_ids (rl_batchSize relay) (due now) due_key (cl_skipClaim env) rows1 in
     let? rows2 := statement faults 1 unavailable
       (update_outbox rows1 claimed (lease_row leaseID (now + rl_leaseDuration relay) now)) in
     let? scanned := statement faults 2 unavailable (Ok (omap (fun id => rows2 !! id) claimed)) in
     Ok (rows2,
       (cl_arrange env ((fun row => {| ce_event := scan_event (ob_event row); ce_PublishAttempts := ob_attempts row |}) <$> scanned),
        Z.of_nat (length reclaimed)))).

(** *** Recording an outcome *)
Definition holds_lease (leaseID : string) (row : OutboxRow) : bool :=
  bool_decide (ob_status row = OutboxPublishing) && bool_decide (ob_leaseID row = Some leaseID).

Definition expectOneTransition (updated : Z) (rows : Outbox) : result (Outbox * unit) relay_error :=
  if updated =? 1 then Ok (rows, tt) else Err ErrRelayUnavailable.

(** UPDATE ... WHERE event_id = $1 AND status = 'publishing' AND lease_id = $2 *)
Definition update_leased (faults : Faults) (rows : Outbox) (eventID leaseID : string) (change : OutboxRow -> OutboxRow)
    : Outbox * result unit relay_error :=
  let ids := match rows !! eventID with Some row => if holds_lease leaseID row then [eventID] else [] | None => [] end in
  autocommit faults ErrRelayUnavailable rows
    (let? rows' := statement faults 0 unavailable (update_outbox rows ids change) in
     expectOneTransition (Z.of_nat (length ids)) rows').

Definition publish_row (now : Time) (row : OutboxRow) : OutboxRow :=
  {| ob_event := ob_event row; ob_status := OutboxPublished; ob_attempts := ob_attempts row; ob_availableAt := ob_availableAt row;
     ob_leaseID := None; ob_leaseExpiresAt := None; ob_publishedAt := Some now; ob_lastErrorCode := None;
     ob_createdAt := ob_createdAt row; ob_updatedAt := now |}.
Definition retry_row (now availableAt : Time) (row : OutboxRow) : OutboxRow :=
  {| ob_event := ob_event row; ob_status := OutboxPending; ob_attempts := ob_attempts row + 1; ob_availableAt := availableAt;
     ob_leaseID := None; ob_leaseExpiresAt := None; ob_publishedAt := ob_publishedAt row;
     ob_lastErrorCode := Some "EVENT_BUS_UNAVAILABLE"%string; ob_createdAt := ob_createdAt row; ob_updatedAt := now |}.

Definition markPublished (faults : Faults) (rows : Outbox) (eventID leaseID : string) (now : Time) : Outbox * result unit relay_error :=
  update_leased faults rows eventID leaseID (publish_row now).
Definition markRetry (faults : Faults) (rows : Outbox) (eventID leaseID : string) (now availableAt : Time) : Outbox * result unit relay_error :=
  update_leased faults rows eventID leaseID (retry_row now availableAt).

(** *** Publishing *)
Inductive publish_reply := Acknowledged | Rejected (stored : bool).

(** [NewKafkaSink] takes brokers without surrounding space. *)
Definition NewKafkaSink (brokers : list string) : bool :=
  negb (Nat.eqb (length brokers) 0) &&
  forallb (fun broker => negb (bool_decide (broker = ""%string)) && trimmed (runes (bytes_of broker))) brokers.

(** [KafkaSink.Publish]: an acknowledged record is on the bus, one without an
    acknowledgement may be there. *)
Definition Publish (bus : Bus) (eventID payload : string) (produced : publish_reply) : Bus * publish_reply :=
  if bool_decide (eventID = ""%string) || bool_decide (payload = ""%string) then (bus, Rejected false)
  else match produced with
  | Acknowledged => (bus ++ [(eventID, payload)], Acknowledged)
  | Rejected stored => (if stored then bus ++ [(eventID, payload)] else bus, Rejected stored)
  end.

Definition acknowledged (reply : publish_reply) : bool := match reply with Acknowledged => true | Rejected _ => false end.

(** Marshal, validate and publish one claimed event. *)
Definition publish_event (marshal : UsageEvent -> option string) (bus : Bus) (event : claimedEvent) (produced : publish_reply)
    : result (Bus * bool) relay_error :=
  match marshal (ce_event event) with
  | Some payload =>
      if UsageEvent_Validate (ce_event event)
      then let '(bus', reply) := Publish bus (ue_EventID (ce_event event)) payload produced in Ok (bus', acknowledged reply)
      else Err ErrRelayUnavailable
  | None => Err ErrRelayUnavailable
  end.

Definition record_outcome (relay : Relay) (faults : Faults) (rows : Outbox) (leaseID : string) (event : claimedEvent) (acked : bool)
    (transitionAt : Time) : Outbox * result unit relay_error :=
  if acked then markPublished faults rows (ue_EventID (ce_event event)) leaseID transitionAt
  else markRetry faults rows (ue_EventID (ce_event event)) leaseID transitionAt (transitionAt + retryDelay relay (ce_PublishAttempts event)).

Definition count_outcome (r : BatchResult) (acked : bool) : BatchResult :=
  {| br_Reclaimed := br_Reclaimed r; br_Claimed := br_Claimed r; br_Published := br_Published r + (if acked then 1 else 0);
     br_Retried := br_Retried r + (if acked then 0 else 1) |}.

(** What the [n]-th event of a pass meets: the broker's reply, the state of the context
    afterwards, the clock and the database. *)
Record PublishEnv := { pe_produced : publish_reply; pe_ctx : option ctx_error; pe_now : Time; pe_faults : Faults }.

Fixpoint relay_loop (marshal : UsageEvent -> option string) (relay : Relay) (leaseID : string) (env : nat -> PublishEnv) (n : nat)
    (events : list claimedEvent) (rows : Outbox) (bus : Bus) (r : BatchResult) : Outbox * Bus * BatchResult * option relay_error :=
  match events with
  | [] => (rows, bus, r, None)
  | event :: rest =>
      match publish_event marshal bus event (pe_produced (env n)) with
      | Err e => (rows, bus, r, Some e)
      | Ok (bus', acked) =>
          match pe_ctx (env n) with
          | Some cause => (rows, bus', r, Some (RelayCancelled cause))
          | None =>
              match record_outcome relay (pe_faults (env n)) rows leaseID event acked (pe_now (env n)) with
              | (rows', Err e) => (rows', bus', r, Some e)
              | (rows', Ok _) => relay_loop marshal relay leaseID env (S n) rest rows' bus' (count_outcome r acked)
              end
          end
      end
  end.

Definition no_result : BatchResult := {| br_Reclaimed := 0; br_Claimed := 0; br_Published := 0; br_Retried := 0 |}.
Record RelayEnv := { re_now : Time; re_leaseID : option string; re_claim : ClaimEnv; re_publish : nat -> PublishEnv }.

Definition RelayOnce (marshal : UsageEvent -> option string) (relay : Relay) (env : RelayEnv) (rows : Outbox) (bus : Bus)
    : Outbox * Bus * BatchResult * option relay_error :=
  match re_leaseID env with
  | None => (rows, bus, no_result, Some ErrRelayUnavailable)
  | Some leaseID =>
      match claim relay (re_claim env) rows leaseID (re_now env) with
      | (rows', Err e) => (rows', bus, no_result, Some e)
      | (rows', Ok (events, reclaimed)) =>
          relay_loop marshal relay leaseID (re_publish env) 0 events rows' bus
            {| br_Reclaimed := reclaimed; br_Claimed := Z.of_nat (length events); br_Published := 0; br_Retried := 0 |}
      end
  end.

(** [Run] makes one pass after another until its context ends, whatever they return. *)
Fixpoint Run (marshal : UsageEvent -> option string) (relay : Relay) (passes : list RelayEnv) (rows : Outbox) (bus : Bus) : Outbox * Bus :=
  match passes with
  | [] => (rows, bus)
  | env :: rest => let '(rows', bus', _, _) := RelayOnce marshal relay env rows bus in Run marshal relay rest rows' bus'
  end.

(** ** Concurrent relays
    Passes of any number of relays over one table and one bus, interleaved between
    their transactions and broker calls; a pass may stop at any point. *)
Record RelayPass := { ps_relay : Relay; ps_leaseID : string; ps_events : list claimedEvent; ps_acked : option bool }.
Record RelaySys := { rs_rows : Outbox; rs_bus : Bus; rs_passes : gmap nat RelayPass }.

Definition start_pass (s : RelaySys) (id : nat) (relay : Relay) (leaseID : string)
    (r : Outbox * result (list claimedEvent * Z) relay_error) : RelaySys :=
  {| rs_rows := r.1; rs_bus := rs_bus s;
     rs_passes := match r.2 with
       | Ok (events, _) => <[id := {| ps_relay := relay; ps_leaseID := leaseID; ps_events := events; ps_acked := None |}]> (rs_passes s)
       | Err _ => rs_passes s end |}.

Definition finish_event (s : RelaySys) (id : nat) (pass : RelayPass) (rest : list claimedEvent) (r : Outbox * result unit relay_error) : RelaySys :=
  {| rs_rows := r.1; rs_bus := rs_bus s;
     rs_passes := match r.2 with
       | Ok _ => <[id := {| ps_relay := ps_relay pass; ps_leaseID := ps_leaseID pass; ps_events := rest; ps_acked := None |}]> (rs_passes s)
       | Err _ => delete id (rs_passes s) end |}.

Section Relays.
Context (marshal : UsageEvent -> option string).

Inductive relay_step : RelaySys -> RelaySys -> Prop :=
| relay_insert s event :
    rs_rows s !! ue_EventID event = None -> UsageEvent_Validate event = true ->
    relay_step s {| rs_rows := <[ue_EventID event := new_row event]> (rs_rows s); rs_bus := rs_bus s; rs_passes := rs_passes s |}
| relay_claim s id relay env leaseID now :
    rs_passes s !! id = None -> (forall events, cl_arrange env events ≡ₚ events) ->
    relay_step s (start_pass s id relay leaseID (claim relay env (rs_rows s) leaseID now))
| relay_publish s id pass event rest produced bus acked :
    rs_passes s !! id = Some pass -> ps_events pass = event :: rest -> ps_acked pass = None ->
    publish_event marshal (rs_bus s) event produced = Ok (bus, acked) ->
    relay_step s {| rs_rows := rs_rows s; rs_bus := bus;
      rs_passes := <[id := {| ps_relay := ps_relay pass; ps_leaseID := ps_leaseID pass; ps_events := event :: rest; ps_acked := Some acked |}]>
        (rs_passes s) |}
| relay_record s id pass event rest acked faults now :
    rs_passes s !! id = Some pass -> ps_events pass = event :: rest -> ps_acked pass = Some acked ->
    relay_step s (finish_event s id pass rest (record_outcome (ps_relay pass) faults (rs_rows s) (ps_leaseID pass) event acked now))
| relay_stop s id : relay_step s {| rs_rows := rs_rows s; rs_bus := rs_bus s; rs_passes := delete id (rs_passes s) |}.

Definition relay_start : RelaySys := {| rs_rows := ∅; rs_bus := []; rs_passes := ∅ |}.
Definition relay_reachable (s : RelaySys) : Prop := rtc relay_step relay_start s.
End Relays.
