(* ===== verification/MeteringOutboxTheorems.v ===== *)
(** * What the usage event relay guarantees

    Rows and bus under any interleaving of relays and faults, and the delays between
    attempts.

    Then: progress of the usage event relay. *)
From Stdlib Require Import ZArith Lia Bool Ascii String.
From stdpp Require Import base tactics option list strings gmap fin_maps sets sorting.
From S2P Require Import Prelude Postgres Identifiers Unicode Catalog Retry Metering MeteringOutbox.
(** ** Retry delays *)
Lemma retry_loop_doubles n delay maximum : 0 < delay -> maximum <= i64_max ->
  Z.min maximum (retry_loop n delay maximum) = Z.min maximum (delay * 2 ^ Z.of_nat n).
Proof.
  revert delay; induction n as [|n IH]; intros delay Hd Hm; simpl retry_loop; [by rewrite Z.mul_1_r|].
  assert (Hp : 1 <= 2 ^ Z.of_nat n) by (apply (Z.pow_le_mono_r 2 0); lia).
  rewrite Nat2Z.inj_succ, Z.pow_succ_r by lia. destruct (Z.ltb_spec delay maximum); [|nia].
  rewrite Z.quot_div_nonneg by lia. pose proof (Z.mod_pos_bound maximum 2). pose proof (Z.div_mod maximum 2).
  destruct (Z.ltb_spec (maximum / 2) delay); [nia|]. unfold i64_max in Hm. rewrite i64_small by (unfold i64_min, i64_max; lia).
  rewrite IH by (unfold i64_max; lia). f_equal. lia.
Qed.

(** The delay before another attempt is [minimumRetry] doubled once per earlier
    attempt and capped at [maximumRetry], computed without overflow for every relay
    that [NewRelay] accepts. *)
Theorem retryDelay_is_capped_doubling options relay attempts : NewRelay options = Ok relay -> ro_MaximumRetry options <= i64_max -> 0 <= attempts ->
  retryDelay relay attempts = Z.min (ro_MaximumRetry options) (ro_MinimumRetry options * 2 ^ attempts) /\
  ro_MinimumRetry options <= retryDelay relay attempts <= ro_MaximumRetry options.
Proof.
  unfold NewRelay. intros Hnew Hmax Ha. split_tests. unfold retryDelay. simpl.
  pose proof (retry_loop_doubles (Z.to_nat attempts) (ro_MinimumRetry options) (ro_MaximumRetry options) ltac:(lia) Hmax) as Hloop.
  rewrite Z2Nat.id in Hloop by done. assert (Hp : 1 <= 2 ^ attempts) by (apply (Z.pow_le_mono_r 2 0); lia).
  destruct (Z.ltb_spec (ro_MaximumRetry options) (retry_loop (Z.to_nat attempts) (ro_MinimumRetry options) (ro_MaximumRetry options))); nia.
Qed.

(** ** Updates of the table *)
Definition row_step (old new : OutboxRow) : Prop :=
  enforce_usage_event_outbox_update old new = true /\ outbox_checks new = true.

(** Every row is kept and moves only along transitions of the trigger. *)
Definition table_evolves (rows rows' : Outbox) : Prop :=
  forall id, match rows !! id with
    | Some row => exists row', rows' !! id = Some row' /\ rtc row_step row row'
    | None => rows' !! id = None
    end.

#[export] Instance table_evolves_preorder : PreOrder table_evolves.
Proof.
  split.
  - intros rows id. destruct (rows !! id); eauto using rtc_refl.
  - intros r1 r2 r3 H12 H23 id. specialize (H12 id). specialize (H23 id). destruct (r1 !! id) as [row|].
    + destruct H12 as (row2 & E2 & S12). rewrite E2 in H23. destruct H23 as (row3 & E3 & S23). exists row3. split; [done|]. by etrans.
    + by rewrite H12 in H23.
Qed.

Lemma update_outbox_evolves rows ids change rows' : update_outbox rows ids change = Ok rows' -> table_evolves rows rows'.
Proof.
  revert rows; induction ids as [|id ids IH]; intros rows; simpl; [intros [= ->]; reflexivity|].
  destruct (rows !! id) as [old|] eqn:Hold; [|by apply IH]. destruct (_ && _) eqn:Hok; [|done]. intros H%IH. etrans; [|exact H].
  apply andb_true_iff in Hok. intros id'. destruct (decide (id' = id)) as [->|Hne].
  - rewrite Hold, lookup_insert_eq. eexists. split; [done|]. by apply rtc_once.
  - rewrite lookup_insert_ne by done. destruct (rows !! id'); eauto using rtc_refl.
Qed.

Lemma claim_evolves relay env rows leaseID now : table_evolves rows (claim relay env rows leaseID now).1.
Proof.
  unfold claim. edestruct @in_transaction_cases as [(rows' & a & E & -> & _)|[-> _]]; [|reflexivity].
  destruct (statement (cl_faults env) 0 _ _) as [rows1|] eqn:E1; [|done]. simpl in E.
  destruct (statement (cl_faults env) 1 _ _) as [rows2|] eqn:E2; [|done]. simpl in E.
  destruct (statement (cl_faults env) 2 _ _) as [?|] eqn:E3; [|done]. simplify_eq/=.
  etrans; eapply update_outbox_evolves; eapply statement_ok; eassumption.
Qed.

Lemma update_leased_evolves faults rows eventID leaseID change : table_evolves rows (update_leased faults rows eventID leaseID change).1.
Proof.
  unfold update_leased. edestruct @autocommit_cases as [(rows' & a & E & -> & _)|[-> _]]; [|reflexivity].
  destruct (statement faults 0 _ _) as [rows1|] eqn:E1; [|done]. simpl in E. unfold expectOneTransition in E.
  destruct (_ =? 1); [|done]. simplify_eq. eapply update_outbox_evolves, statement_ok, E1.
Qed.

Lemma record_outcome_evolves relay faults rows leaseID event acked now :
  table_evolves rows (record_outcome relay faults rows leaseID event acked now).1.
Proof. unfold record_outcome, markPublished, markRetry. destruct acked; apply update_leased_evolves. Qed.

(** ** Rows along transitions *)
Lemma row_step_facts old new : row_step old new ->
  ob_event new = ob_event old /\ outbox_checks new = true /\ ob_attempts old <= ob_attempts new /\ ob_status old <> OutboxPublished.
Proof. intros [Ht Hc]. unfold enforce_usage_event_outbox_update in Ht. prop_hyps. destruct (ob_status old), (ob_status new); prop_hyps; try done; split_and!; try done; lia. Qed.

Lemma row_steps_facts row row' : rtc row_step row row' ->
  ob_event row' = ob_event row /\ (outbox_checks row = true -> outbox_checks row' = true) /\ ob_attempts row <= ob_attempts row' /\
  (ob_status row = OutboxPublished -> row' = row).
Proof.
  induction 1 as [|r1 r2 r3 H12 _ (E & C & A & F)]; [done|]. apply row_step_facts in H12 as (E1 & C1 & A1 & F1).
  split_and!; [congruence|auto|lia|done].
Qed.

(** An update that is not a publication never reaches the published state. *)
Lemma update_outbox_published rows ids change rows' id row' : update_outbox rows ids change = Ok rows' ->
  (forall row, ob_status (change row) <> OutboxPublished) -> rows' !! id = Some row' -> ob_status row' = OutboxPublished -> rows !! id = Some row'.
Proof.
  revert rows; induction ids as [|i ids IH]; intros rows; simpl; [by intros [= ->]|].
  destruct (rows !! i) as [old|]; [|by apply IH]. destruct (_ && _); [|done]. intros H Hc Hr Hs. pose proof (IH _ H Hc Hr Hs) as Hl.
  destruct (decide (id = i)) as [->|]; [|by rewrite lookup_insert_ne in Hl]. rewrite lookup_insert_eq in Hl. simplify_eq. by destruct (Hc old).
Qed.

Lemma claim_published relay env rows leaseID now id row' :
  (claim relay env rows leaseID now).1 !! id = Some row' -> ob_status row' = OutboxPublished -> rows !! id = Some row'.
Proof.
  unfold claim. edestruct @in_transaction_cases as [(rows' & a & E & -> & _)|[-> _]]; [|done].
  destruct (statement (cl_faults env) 0 _ _) as [rows1|] eqn:E1; [|done]. simpl in E.
  destruct (statement (cl_faults env) 1 _ _) as [rows2|] eqn:E2; [|done]. simpl in E.
  destruct (statement (cl_faults env) 2 _ _) as [?|] eqn:E3; [|done]. simplify_eq/=. apply statement_ok in E1, E2. intros Hr Hs.
  eapply update_outbox_published, Hs; [exact E1|done|]. by eapply update_outbox_published, Hs.
Qed.

Lemma claim_events relay env rows leaseID now rows' events n : (forall l, cl_arrange env l ≡ₚ l) ->
  claim relay env rows leaseID now = (rows', Ok (events, n)) ->
  Forall (fun event => exists id row, rows' !! id = Some row /\ ce_event event = scan_event (ob_event row)) events.
Proof.
  intros Harrange H%in_transaction_ok. cbv zeta in H.
  destruct (statement (cl_faults env) 0 _ _) as [rows1|] eqn:E1; [|done]. simpl in H.
  destruct (statement (cl_faults env) 1 _ _) as [rows2|] eqn:E2; [|done]. simpl in H.
  destruct (statement (cl_faults env) 2 _ _) as [scanned|] eqn:E3; [|done]. simplify_eq/=. apply statement_ok in E3. simplify_eq.
  rewrite Harrange, Forall_fmap, Forall_forall. intros row (id & Hid & Hrow)%list_elem_of_omap. by exists id, row.
Qed.

Lemma record_published relay faults rows leaseID event acked now id row' :
  (record_outcome relay faults rows leaseID event acked now).1 !! id = Some row' -> ob_status row' = OutboxPublished ->
  rows !! id = Some row' \/ (acked = true /\ id = ue_EventID (ce_event event)).
Proof.
  unfold record_outcome, markPublished, markRetry, update_leased.
  destruct acked; (edestruct @autocommit_cases as [(rows' & a & E & -> & _)|[-> _]]; [|by left]);
    destruct (statement faults 0 _ _) as [rows1|] eqn:E1; try done; simpl in E; unfold expectOneTransition in E;
    destruct (_ =? 1) eqn:Hn; try done; simplify_eq; apply statement_ok in E1; intros Hr Hs.
  - destruct (rows !! ue_EventID (ce_event event)) as [row|] eqn:Hrow; [|simpl in E1; simplify_eq; by left].
    destruct (holds_lease leaseID row); [|simpl in E1; simplify_eq; by left]. simpl in E1. rewrite Hrow in E1.
    destruct (_ && _); [|done]. simplify_eq. destruct (decide (id = ue_EventID (ce_event event))) as [->|Hne]; [by right|].
    rewrite lookup_insert_ne in Hr by done. by left.
  - left. by eapply update_outbox_published, Hs.
Qed.

(** Reading a valid event back gives the event. *)
Lemma scan_valid event : UsageEvent_Validate event = true -> scan_event event = event.
Proof.
  unfold UsageEvent_Validate, scan_event. intros Hv. destruct event as [a b c d e f g h i est]; simpl in *. f_equal.
  apply andb_true_iff in Hv as [Hv Hest]. destruct (Z.eqb_spec b UsageEventSchemaVersionV1) as [->|Hne]; simpl.
  - by destruct est.
  - destruct (bool_decide (h = SourceEstimated)) eqn:Eh.
    + apply andb_true_iff in Hv as [Hv _]. prop_hyps. assert ((b =? UsageEventSchemaVersion) = true) as ->.
      { destruct (b =? UsageEventSchemaVersion); [done|]. simpl in *. destruct (Z.eqb_spec b UsageEventSchemaVersionV1); done. }
      simpl. destruct est as [m|]; [|done]. unfold UsageEstimateMetadata_Validate in Hest. prop_hyps. destruct m; simpl in *. by subst.
    + rewrite andb_false_r. by destruct est.
Qed.

(** ** The invariant of concurrent relays *)
Section Relays.
Context (marshal : UsageEvent -> option string).

Definition on_bus (bus : Bus) (event : UsageEvent) : Prop :=
  exists payload, marshal event = Some payload /\ (ue_EventID event, payload) ∈ bus.

Definition row_good (bus : Bus) (id : string) (row : OutboxRow) : Prop :=
  ue_EventID (ob_event row) = id /\ UsageEvent_Validate (ob_event row) = true /\ outbox_checks row = true /\
  (ob_status row = OutboxPublished -> on_bus bus (ob_event row)).

Definition from_table (rows : Outbox) (event : UsageEvent) : Prop :=
  exists row, rows !! ue_EventID event = Some row /\ ob_event row = event.

Definition pass_good (rows : Outbox) (bus : Bus) (pass : RelayPass) : Prop :=
  Forall (fun event => from_table rows (ce_event event)) (ps_events pass) /\
  (ps_acked pass = Some true -> forall event, head (ps_events pass) = Some event -> on_bus bus (ce_event event)).

Record relay_inv (s : RelaySys) : Prop := {
  ri_rows : map_Forall (row_good (rs_bus s)) (rs_rows s);
  ri_bus : forall id payload, (id, payload) ∈ rs_bus s ->
    exists row, rs_rows s !! id = Some row /\ marshal (ob_event row) = Some payload;
  ri_passes : map_Forall (fun _ => pass_good (rs_rows s) (rs_bus s)) (rs_passes s) }.

Lemma on_bus_mono bus bus' event : bus `prefix_of` bus' -> on_bus bus event -> on_bus bus' event.
Proof. intros [k ->] (payload & Hm & Hin). exists payload. split; [done|]. apply elem_of_app. by left. Qed.

Lemma from_table_mono rows rows' event : table_evolves rows rows' -> from_table rows event -> from_table rows' event.
Proof.
  intros He (row & Hrow & Hev). specialize (He (ue_EventID event)). rewrite Hrow in He. destruct He as (row' & Hrow' & Hs).
  exists row'. split; [done|]. apply row_steps_facts in Hs as (-> & _). done.
Qed.

Lemma pass_good_mono rows rows' bus bus' pass : table_evolves rows rows' -> bus `prefix_of` bus' ->
  pass_good rows bus pass -> pass_good rows' bus' pass.
Proof.
  intros Hr Hb [He Ha]. split; [eapply Forall_impl; [exact He|]; intros; by eapply from_table_mono|].
  intros Hacked event Hh. eapply on_bus_mono; [done|]. by apply Ha.
Qed.

(** A transaction keeps the invariant when the rows it publishes are on the bus. *)
Lemma rows_good_mono rows rows' bus : table_evolves rows rows' ->
  (forall id row', rows' !! id = Some row' -> ob_status row' = OutboxPublished -> rows !! id = Some row' \/ on_bus bus (ob_event row')) ->
  map_Forall (row_good bus) rows -> map_Forall (row_good bus) rows'.
Proof.
  intros He Hp Hg id row' Hrow'. specialize (He id). destruct (rows !! id) as [row|] eqn:Hrow; [|congruence].
  destruct He as (row1 & Hrow1 & Hs). assert (row1 = row') as -> by congruence. destruct (Hg _ _ Hrow) as (G1 & G2 & G3 & G4).
  apply row_steps_facts in Hs as (E & C & _). split_and!; [congruence|congruence|auto|]. intros Hpub.
  destruct (Hp _ _ Hrow' Hpub) as [Hold|?]; [|done]. simplify_eq. auto.
Qed.

Lemma bus_known_mono rows rows' (bus : Bus) : table_evolves rows rows' ->
  (forall id payload, (id, payload) ∈ bus -> exists row, rows !! id = Some row /\ marshal (ob_event row) = Some payload) ->
  forall id payload, (id, payload) ∈ bus -> exists row, rows' !! id = Some row /\ marshal (ob_event row) = Some payload.
Proof.
  intros He Hb id payload Hin. destruct (Hb _ _ Hin) as (row & Hrow & Hm). specialize (He id). rewrite Hrow in He.
  destruct He as (row' & Hrow' & Hs). exists row'. split; [done|]. by apply row_steps_facts in Hs as (-> & _).
Qed.

(** Transactions on the table, with the passes they start or advance. *)
Lemma inv_table s rows passes : relay_inv s -> table_evolves (rs_rows s) rows ->
  (forall id row', rows !! id = Some row' -> ob_status row' = OutboxPublished -> rs_rows s !! id = Some row' \/ on_bus (rs_bus s) (ob_event row')) ->
  (forall id pass, passes !! id = Some pass -> rs_passes s !! id = Some pass \/ pass_good rows (rs_bus s) pass) ->
  relay_inv {| rs_rows := rows; rs_bus := rs_bus s; rs_passes := passes |}.
Proof.
  intros [Hr Hb Hp] He Hpub Hpass. split; simpl; [by eapply rows_good_mono|by eapply bus_known_mono|].
  intros id pass Hid. destruct (Hpass _ _ Hid) as [Hold|?]; [|done]. eapply pass_good_mono; [done|done|]. by eapply Hp.
Qed.

Lemma inv_insert s event : relay_inv s -> rs_rows s !! ue_EventID event = None -> UsageEvent_Validate event = true ->
  relay_inv {| rs_rows := <[ue_EventID event := new_row event]> (rs_rows s); rs_bus := rs_bus s; rs_passes := rs_passes s |}.
Proof.
  intros [Hr Hb Hp] Hnew Hv. assert (Hkeep : forall id row, rs_rows s !! id = Some row -> <[ue_EventID event := new_row event]> (rs_rows s) !! id = Some row).
  { intros id row Hrow. rewrite lookup_insert_ne; [done|]. congruence. }
  split; simpl.
  - apply map_Forall_insert_2; [|done]. split_and!; try done. unfold outbox_checks. simpl. prop_goal; try done; lia.
  - intros id payload (row & Hrow & Hm)%Hb. eauto.
  - intros id pass Hid. destruct (Hp _ _ Hid) as [He Ha]. split; [|done]. eapply Forall_impl; [exact He|].
    intros e (row & Hrow & Hev). exists row. eauto.
Qed.

Lemma inv_claim s id relay env leaseID now : relay_inv s -> (forall l, cl_arrange env l ≡ₚ l) ->
  relay_inv (start_pass s id relay leaseID (claim relay env (rs_rows s) leaseID now)).
Proof.
  intros Hinv Harr. unfold start_pass. pose proof (claim_evolves relay env (rs_rows s) leaseID now) as He.
  pose proof (fun i r => claim_published relay env (rs_rows s) leaseID now i r) as Hpub.
  destruct (claim relay env (rs_rows s) leaseID now) as [rows' r] eqn:Ec. simpl in *.
  assert (Hg : map_Forall (row_good (rs_bus s)) rows').
  { eapply rows_good_mono; [exact He| |apply (ri_rows _ Hinv)]. left. by eapply Hpub. }
  apply inv_table; [done|done|left; by eapply Hpub|].
  destruct r as [[events n]|]; [|by left]. intros i pass Hi. destruct (decide (i = id)) as [->|Hne]; [|left; by rewrite lookup_insert_ne in Hi].
  rewrite lookup_insert_eq in Hi. simplify_eq. right. split; simpl; [|done]. pose proof (claim_events _ _ _ _ _ _ _ _ Harr Ec) as Hev.
  eapply Forall_impl; [exact Hev|]. intros event (k & row & Hrow & Heq). destruct (Hg _ _ Hrow) as (G1 & G2 & _).
  rewrite scan_valid in Heq by done. exists row. rewrite Heq, G1. done.
Qed.

Lemma publish_event_spec bus event produced bus' acked : publish_event marshal bus event produced = Ok (bus', acked) ->
  exists payload, marshal (ce_event event) = Some payload /\
    ((bus' = bus ++ [(ue_EventID (ce_event event), payload)]) \/ (bus' = bus /\ acked = false)).
Proof.
  unfold publish_event, Publish. destruct (marshal (ce_event event)) as [payload|]; [|done]. destruct (UsageEvent_Validate _); [|done].
  intros H. exists payload. split; [done|]. destruct (_ || _); [simplify_eq/=; by right|]. destruct produced as [|[]]; simplify_eq/=; auto.
Qed.

Lemma inv_publish s id pass event rest produced bus acked : relay_inv s ->
  rs_passes s !! id = Some pass -> ps_events pass = event :: rest -> publish_event marshal (rs_bus s) event produced = Ok (bus, acked) ->
  relay_inv {| rs_rows := rs_rows s; rs_bus := bus;
    rs_passes := <[id := {| ps_relay := ps_relay pass; ps_leaseID := ps_leaseID pass; ps_events := event :: rest; ps_acked := Some acked |}]>
      (rs_passes s) |}.
Proof.
  intros [Hr Hb Hp] Hpass Hev Hpub. destruct (Hp _ _ Hpass) as [He _]. rewrite Hev in He. apply publish_event_spec in Hpub as (payload & Hm & Hbus).
  assert (Hpre : rs_bus s `prefix_of` bus) by (destruct Hbus as [-> | [-> _]]; [by eexists|done]).
  pose proof He as He'. apply Forall_cons in He' as [(row & Hrow & Hre) _]. split; simpl.
  - intros i r Hi. destruct (Hr _ _ Hi) as (G1 & G2 & G3 & G4). split_and!; [done..|]. intros. eapply on_bus_mono; [done|]. auto.
  - intros i p Hin. destruct Hbus as [-> | [-> _]]; [|by apply Hb]. apply elem_of_app in Hin as [Hin|Hin%list_elem_of_singleton]; [by apply Hb|].
    simplify_eq. exists row. split; [done|by rewrite Hre].
  - apply map_Forall_insert_2; [|intros i p Hi; eapply pass_good_mono; [reflexivity|done|]; by eapply Hp].
    split; simpl; [done|]. intros [= ->] e [= <-]. destruct Hbus as [-> | [_ ?]]; [|done]. exists payload. split; [done|].
    apply elem_of_app. right. by apply list_elem_of_singleton.
Qed.

Lemma inv_record s id pass event rest acked faults now : relay_inv s ->
  rs_passes s !! id = Some pass -> ps_events pass = event :: rest -> ps_acked pass = Some acked ->
  relay_inv (finish_event s id pass rest (record_outcome (ps_relay pass) faults (rs_rows s) (ps_leaseID pass) event acked now)).
Proof.
  intros Hinv Hpass Hev Hacked. destruct (ri_passes _ Hinv _ _ Hpass) as [He Ha]. rewrite Hev in He, Ha. unfold finish_event.
  pose proof (record_outcome_evolves (ps_relay pass) faults (rs_rows s) (ps_leaseID pass) event acked now) as Hevo.
  pose proof (fun i r => record_published (ps_relay pass) faults (rs_rows s) (ps_leaseID pass) event acked now i r) as Hpub.
  destruct (record_outcome _ _ _ _ _ _ _) as [rows' r]. simpl in *. apply Forall_cons in He as [Hfrom Hrest].
  apply inv_table; [done|done| |].
  - intros i row' Hi Hs. destruct (Hpub _ _ Hi Hs) as [?|[-> ->]]; [by left|]. right.
    destruct (from_table_mono _ _ _ Hevo Hfrom) as (row1 & Hrow1 & Hre). simplify_eq. rewrite Hre. by apply Ha.
  - intros i p Hi. destruct r as [[]|]; [|apply lookup_delete_Some in Hi as [_ ?]; by left].
    destruct (decide (i = id)) as [->|Hne]; [|left; by rewrite lookup_insert_ne in Hi]. rewrite lookup_insert_eq in Hi. simplify_eq.
    right. split; simpl; [|done]. eapply Forall_impl; [exact Hrest|]. intros. by eapply from_table_mono.
Qed.

Lemma relay_step_inv s s' : relay_step marshal s s' -> relay_inv s -> relay_inv s'.
Proof.
  destruct 1; intros Hinv; [by apply inv_insert|by apply inv_claim|by eapply inv_publish|by eapply inv_record|].
  apply inv_table; [done|reflexivity|by left|]. intros i pass [_ ?]%lookup_delete_Some. by left.
Qed.

Lemma relay_reachable_inv s : relay_reachable marshal s -> relay_inv s.
Proof.
  intros H. assert (H0 : relay_inv relay_start). { split; simpl; [done|set_solver|done]. }
  revert H0. unfold relay_reachable in H. induction H as [|s1 s2 s3 H12 _ IH]; [done|]. intros H1. by apply IH, (relay_step_inv s1).
Qed.

Lemma relay_step_evolves s s' : relay_step marshal s s' ->
  (forall id row, rs_rows s !! id = Some row -> exists row', rs_rows s' !! id = Some row' /\ rtc row_step row row') /\ rs_bus s `prefix_of` rs_bus s'.
Proof.
  assert (Hk : forall rows rows', table_evolves rows rows' -> forall id row, rows !! id = Some row -> exists row', rows' !! id = Some row' /\ rtc row_step row row').
  { intros rows rows' He id row Hrow. specialize (He id). by rewrite Hrow in He. }
  destruct 1; simpl; (split; [|done || idtac]).
  - intros id row Hrow. exists row. split; [|done]. rewrite lookup_insert_ne; [done|]. congruence.
  - apply Hk, claim_evolves.
  - apply Hk. reflexivity.
  - match goal with H : publish_event _ _ _ _ = _ |- _ => apply publish_event_spec in H as (? & _ & [-> | [-> _]]) end; [by eexists|done].
  - apply Hk, record_outcome_evolves.
  - apply Hk. reflexivity.
Qed.

Lemma relay_steps_evolve s s' : rtc (relay_step marshal) s s' ->
  (forall id row, rs_rows s !! id = Some row -> exists row', rs_rows s' !! id = Some row' /\ rtc row_step row row') /\ rs_bus s `prefix_of` rs_bus s'.
Proof.
  induction 1 as [|s1 s2 s3 H12 _ [IHr IHb]]; [split; [eauto using rtc_refl|done]|]. apply relay_step_evolves in H12 as [Hr Hb].
  split; [|by etrans]. intros id row (row2 & Hrow2 & S12)%Hr. destruct (IHr _ _ Hrow2) as (row3 & Hrow3 & S23). exists row3. split; [done|]. by etrans.
Qed.

(** A pass of [RelayOnce] is a run of these steps, wherever it stops. *)
Lemma relay_loop_steps relay leaseID env n events s id r :
  rs_passes s !! id = Some {| ps_relay := relay; ps_leaseID := leaseID; ps_events := events; ps_acked := None |} ->
  exists s', rtc (relay_step marshal) s s' /\
    let '(rows, bus, _, _) := relay_loop marshal relay leaseID env n events (rs_rows s) (rs_bus s) r in rs_rows s' = rows /\ rs_bus s' = bus.
Proof.
  revert n s r; induction events as [|event rest IH]; intros n s r Hpass; simpl; [exists s; done|].
  destruct (publish_event marshal (rs_bus s) event (pe_produced (env n))) as [[bus' acked]|] eqn:Hpub; [|exists s; done].
  pose proof (relay_publish marshal s id _ event rest _ bus' acked Hpass eq_refl eq_refl Hpub) as S1. simpl in S1.
  match type of S1 with relay_step _ _ ?t => set (s1 := t) in S1 end.
  destruct (pe_ctx (env n)); [exists s1; split; [by apply rtc_once|done]|].
  assert (Hpass1 : rs_passes s1 !! id = Some {| ps_relay := relay; ps_leaseID := leaseID; ps_events := event :: rest; ps_acked := Some acked |})
    by (unfold s1; simpl; by rewrite lookup_insert_eq).
  pose proof (relay_record marshal s1 id _ event rest acked (pe_faults (env n)) (pe_now (env n)) Hpass1 eq_refl eq_refl) as S2. simpl in S2.
  match type of S2 with relay_step _ _ ?t => set (s2 := t) in S2 end.
  assert (H02 : rtc (relay_step marshal) s s2) by (eapply rtc_l; [exact S1|by apply rtc_once]). unfold finish_event in s2. simpl in s2.
  destruct (record_outcome relay (pe_faults (env n)) (rs_rows s) leaseID event acked (pe_now (env n))) as [rows' [[]|]].
  - destruct (IH (S n) s2 (count_outcome r acked)) as (s3 & S3 & E3); [unfold s2; simpl; by rewrite lookup_insert_eq|].
    exists s3. split; [by etrans|done].
  - by exists s2.
Qed.

Lemma RelayOnce_steps relay env s id : rs_passes s !! id = None -> (forall l, cl_arrange (re_claim env) l ≡ₚ l) ->
  exists s', rtc (relay_step marshal) s s' /\
    let '(rows, bus, _, _) := RelayOnce marshal relay env (rs_rows s) (rs_bus s) in rs_rows s' = rows /\ rs_bus s' = bus.
Proof.
  intros Hid Harr. unfold RelayOnce. destruct (re_leaseID env) as [leaseID|]; [|exists s; done].
  pose proof (relay_claim marshal s id relay (re_claim env) leaseID (re_now env) Hid Harr) as S1.
  match type of S1 with relay_step _ _ ?t => set (s1 := t) in S1 end. unfold start_pass in s1.
  destruct (claim relay (re_claim env) (rs_rows s) leaseID (re_now env)) as [rows' [[events n]|]]; simpl in s1.
  - destruct (relay_loop_steps relay leaseID (re_publish env) 0 events s1 id
      {| br_Reclaimed := n; br_Claimed := Z.of_nat (length events); br_Published := 0; br_Retried := 0 |}) as (s2 & S2 & E2);
      [unfold s1; simpl; by rewrite lookup_insert_eq|]. exists s2. split; [by eapply rtc_l|done].
  - exists s1. split; [by apply rtc_once|done].
Qed.

(** Usage events are delivered at least once and never invented. Whatever relays
    compete, crash, lose their lease or see a database or broker fail: a row marked
    published has its event on the bus, every record on the bus is the encoding of the
    event stored under its key, no row is lost and its facts never change, a published
    row is final, attempts only grow and the bus is only appended to. *)
Theorem published_usage_reached_the_bus s s' : relay_reachable marshal s -> rtc (relay_step marshal) s s' ->
  (forall id row, rs_rows s !! id = Some row ->
    (ob_status row = OutboxPublished -> exists payload, marshal (ob_event row) = Some payload /\ (id, payload) ∈ rs_bus s) /\
    exists row', rs_rows s' !! id = Some row' /\ ob_event row' = ob_event row /\ ob_attempts row <= ob_attempts row' <= 1000000 /\
      (ob_status row = OutboxPublished -> row' = row)) /\
  (forall id payload, (id, payload) ∈ rs_bus s -> exists row, rs_rows s !! id = Some row /\ marshal (ob_event row) = Some payload) /\
  rs_bus s `prefix_of` rs_bus s'.
Proof.
  intros [Hr Hb _]%relay_reachable_inv [He Hpre]%relay_steps_evolve. split_and!; [|done|done]. intros id row Hrow.
  destruct (Hr _ _ Hrow) as (G1 & _ & G3 & G4). split.
  - intros (payload & Hm & Hin)%G4. rewrite G1 in Hin. eauto.
  - destruct (He _ _ Hrow) as (row' & Hrow' & Hs). exists row'. apply row_steps_facts in Hs as (E & C & A & F).
    split_and!; try done. specialize (C G3). unfold outbox_checks in C. prop_hyps. lia.
Qed.
End Relays.

(** A pass that lost its lease cannot record an outcome. *)
Lemma lost_lease_cannot_write relay faults rows leaseID event acked now :
  (forall row, rows !! ue_EventID (ce_event event) = Some row -> holds_lease leaseID row = false) ->
  record_outcome relay faults rows leaseID event acked now = (rows, Err ErrRelayUnavailable).
Proof.
  intros Hlost. unfold record_outcome, markPublished, markRetry, update_leased.
  assert (Hids : match rows !! ue_EventID (ce_event event) with
    | Some row => if holds_lease leaseID row then [ue_EventID (ce_event event)] else [] | None => [] end = []).
  { destruct (rows !! _) as [row|]; [|done]. by rewrite (Hlost _ eq_refl). }
  destruct acked; rewrite Hids; unfold statement, autocommit; by destruct (fl_statement faults 0).
Qed.

(** ** A run *)
Module OutboxDemo.
Definition event : UsageEvent :=
  {| ue_EventID := "44444444-4444-4444-8444-444444444444"; ue_SchemaVersion := 2; ue_Kind := UsageEventObserved; ue_Identity := demo_identity;
     ue_TokenType := TokenTypeInput; ue_BillingUnit := BillingUnitToken; ue_Quantity := 12; ue_Source := SourceProvider;
     ue_UsageComplete := true; ue_Estimate := None |}.
(** An encoder of this event alone. *)
Definition encode (e : UsageEvent) : option string := if bool_decide (e = event) then Some "{usage}"%string else None.
Definition relay : Relay :=
  {| rl_batchSize := 100; rl_pollInterval := 250 * millisecond; rl_leaseDuration := 10 * second; rl_publishTimeout := 2 * second;
     rl_minimumRetry := second; rl_maximumRetry := minute |}.
Definition lease : string := "66666666-6666-4666-8666-666666666666".
Definition claim_env : ClaimEnv := {| cl_faults := no_faults; cl_skipReclaim := fun _ => false; cl_skipClaim := fun _ => false; cl_arrange := fun l => l |}.
Definition env (now : Time) : RelayEnv :=
  {| re_now := now; re_leaseID := Some lease; re_claim := claim_env;
     re_publish := fun _ => {| pe_produced := Acknowledged; pe_ctx := None; pe_now := now; pe_faults := no_faults |} |}.

Definition s1 : RelaySys := {| rs_rows := <[ue_EventID event := new_row event]> ∅; rs_bus := []; rs_passes := ∅ |}.
Definition s2 : RelaySys := start_pass s1 0 relay lease (claim relay claim_env (rs_rows s1) lease 2).
Definition claimed : claimedEvent := {| ce_event := event; ce_PublishAttempts := 0 |}.
Definition leased (acked : option bool) : RelayPass := {| ps_relay := relay; ps_leaseID := lease; ps_events := [claimed]; ps_acked := acked |}.
Definition payload : string := default ""%string (encode event).
Definition s3 : RelaySys :=
  {| rs_rows := rs_rows s2; rs_bus := [(ue_EventID event, payload)]; rs_passes := <[0%nat := leased (Some true)]> (rs_passes s2) |}.
Definition s4 : RelaySys := finish_event s3 0 (leased (Some true)) [] (record_outcome relay no_faults (rs_rows s3) lease claimed true 3).

Lemma s1_reachable : relay_reachable encode s1.
Proof. apply rtc_once, (relay_insert encode relay_start event); vm_compute; reflexivity. Defined.

Lemma s4_reachable : relay_reachable encode s4.
Proof.
  eapply rtc_r; [eapply rtc_r; [eapply rtc_r; [exact s1_reachable|]|]|].
  - apply (relay_claim encode s1 0 relay claim_env lease 2); [vm_compute; reflexivity|intros; reflexivity].
  - apply (relay_publish encode s2 0 (leased None) claimed [] Acknowledged [(ue_EventID event, payload)] true); vm_compute; reflexivity.
  - apply (relay_record encode s3 0 (leased (Some true)) claimed [] true no_faults 3); vm_compute; reflexivity.
Defined.
End OutboxDemo.

Lemma retryDelay_is_capped_doubling_witness :
  retryDelay OutboxDemo.relay 3 = 8 * second /\ second <= retryDelay OutboxDemo.relay 3 <= minute.
Proof. apply (retryDelay_is_capped_doubling DefaultOptions OutboxDemo.relay 3); [reflexivity|vm_compute; discriminate|lia]. Defined.

Lemma published_usage_reached_the_bus_witness :
  OutboxPublished = default OutboxPending (ob_status <$> rs_rows OutboxDemo.s4 !! ue_EventID OutboxDemo.event) /\
  exists row, rs_rows OutboxDemo.s4 !! ue_EventID OutboxDemo.event = Some row /\
    exists payload, OutboxDemo.encode (ob_event row) = Some payload /\ (ue_EventID OutboxDemo.event, payload) ∈ rs_bus OutboxDemo.s4.
Proof.
  split; [vm_compute; reflexivity|].
  pose proof (published_usage_reached_the_bus OutboxDemo.encode OutboxDemo.s4 OutboxDemo.s4 OutboxDemo.s4_reachable (rtc_refl _ _)) as (H & _).
  destruct (rs_rows OutboxDemo.s4 !! ue_EventID OutboxDemo.event) as [row|] eqn:E; [|vm_compute in E; discriminate].
  exists row. split; [reflexivity|]. apply (H _ _ E). vm_compute in E. injection E as <-. reflexivity.
Defined.

(** ** Progress of the usage event relay

    From every state that competing relays, crashes and faults can leave, undisturbed
    passes publish what is due, a batch per pass. *)
(** ** Undisturbed passes *)
Lemma update_outbox_clean rows ids change : NoDup ids ->
  (forall id, id ∈ ids -> exists old, rows !! id = Some old /\ row_step old (change old)) ->
  exists rows', update_outbox rows ids change = Ok rows' /\
    forall id, rows' !! id = if bool_decide (id ∈ ids) then change <$> rows !! id else rows !! id.
Proof.
  revert rows; induction ids as [|i ids IH]; intros rows Hnd Hids; simpl; [by exists rows|].
  apply NoDup_cons in Hnd as [Hni Hnd]. destruct (Hids i) as (old & Hold & Ht & Hc); [left|]. rewrite Hold, Ht, Hc. simpl.
  destruct (IH (<[i := change old]> rows)) as (rows' & E & Hl); [done| |].
  { intros id Hid. rewrite lookup_insert_ne by (by intros ->). apply Hids. by right. }
  exists rows'. split; [done|]. intros id. rewrite Hl. destruct (decide (id = i)) as [->|Hne].
  - rewrite bool_decide_eq_false_2 by done. rewrite bool_decide_eq_true_2 by left. by rewrite lookup_insert_eq, Hold.
  - rewrite lookup_insert_ne by done. destruct (decide (id ∈ ids)).
    + rewrite !bool_decide_eq_true_2; [done|by right|done].
    + rewrite !bool_decide_eq_false_2; [done| |done]. intros [?|?]%elem_of_cons; done.
Qed.

Lemma select_ids_spec limit matches key skip rows : let ids := select_ids limit matches key skip rows in
  NoDup ids /\ (length ids <= Z.to_nat limit)%nat /\
  (forall id, id ∈ ids -> exists row, rows !! id = Some row /\ matches row = true) /\
  (length ids = Z.to_nat limit \/ forall id row, rows !! id = Some row -> matches row = true -> skip id = false -> id ∈ ids).
Proof.
  intros ids. pose proof (merge_sort_Permutation (key_le key) (candidates matches skip rows)) as Hperm.
  assert (Hsub : forall entry, entry ∈ take (Z.to_nat limit) (merge_sort (key_le key) (candidates matches skip rows)) ->
    entry ∈ candidates matches skip rows).
  { intros entry Hin. rewrite <- Hperm. eapply sublist_subseteq; [apply sublist_take|exact Hin]. }
  split_and!.
  - unfold ids, select_ids. eapply sublist_NoDup; [|apply fmap_sublist, sublist_take].
    rewrite Hperm. unfold candidates. eapply sublist_NoDup; [apply (NoDup_fst_map_to_list rows)|apply fmap_sublist, sublist_filter].
  - unfold ids, select_ids. rewrite length_fmap, length_take. lia.
  - unfold ids, select_ids. intros id ([i row] & -> & Hin)%list_elem_of_fmap. apply Hsub in Hin. unfold candidates in Hin.
    apply list_elem_of_filter in Hin as [[Hm _] Hin]. apply elem_of_map_to_list in Hin. by exists row.
  - unfold ids, select_ids. rewrite length_fmap, length_take.
    destruct (decide (Z.to_nat limit <= length (merge_sort (key_le key) (candidates matches skip rows)))%nat) as [|Hlt]; [left; lia|right].
    intros id row Hrow Hm Hs. rewrite take_ge by lia. apply list_elem_of_fmap. exists (id, row). split; [done|]. rewrite Hperm.
    apply list_elem_of_filter. split; [done|]. by apply elem_of_map_to_list.
Qed.

Section Drain.
Context (marshal : UsageEvent -> option string) (options : RelayOptions) (relay : Relay) (Hrelay : NewRelay options = Ok relay).

Definition ready (now : Time) (row : OutboxRow) : bool := due now row || expired now row.

(** A row whose remaining transitions cannot fail from [now] on: it was written by the
    recorder and the relays, its event can be encoded, the clock is not behind its last
    update, and its attempts are not exhausted. *)
Definition fit (now : Time) (id : string) (row : OutboxRow) : Prop :=
  ob_status row <> OutboxPublished ->
  ue_EventID (ob_event row) = id /\ UsageEvent_Validate (ob_event row) = true /\ outbox_checks row = true /\
  (exists payload, marshal (ob_event row) = Some payload /\ payload <> ""%string) /\ ob_updatedAt row <= now /\
  (ob_status row = OutboxPublishing -> ob_attempts row < 1000000).

(** A pass without competitors, faults or cancellation, acknowledged by the broker. *)
Record clean_env (env : RelayEnv) : Prop := {
  cle_lease : is_Some (re_leaseID env);
  cle_claim : cl_faults (re_claim env) = no_faults;
  cle_skip : forall id, cl_skipReclaim (re_claim env) id = false /\ cl_skipClaim (re_claim env) id = false;
  cle_arrange : forall l, cl_arrange (re_claim env) l ≡ₚ l;
  cle_publish : forall n, pe_produced (re_publish env n) = Acknowledged /\ pe_ctx (re_publish env n) = None /\
    re_now env <= pe_now (re_publish env n) /\ pe_faults (re_publish env n) = no_faults }.

Lemma relay_positive : 1 <= rl_batchSize relay /\ 0 < rl_leaseDuration relay.
Proof. unfold NewRelay in Hrelay. split_tests. simpl. lia. Qed.

Lemma ready_unpublished now row : ready now row = true -> ob_status row <> OutboxPublished.
Proof. unfold ready, due, expired. destruct (ob_status row); [done..|]. by rewrite !bool_decide_eq_false_2. Qed.

Lemma ready_mono now now' row : now <= now' -> ready now row = true -> ready now' row = true.
Proof.
  unfold ready, due, expired. intros Hle [[Hs Ht]%andb_true_iff|[Hs Ht]%andb_true_iff]%orb_true_iff; apply orb_true_iff; rewrite Hs; simpl.
  - left. apply Z.leb_le in Ht. apply Z.leb_le. lia.
  - right. destruct (ob_leaseExpiresAt row); [|done]. apply Z.leb_le in Ht. apply Z.leb_le. lia.
Qed.

Lemma fit_mono now now' id row : now <= now' -> fit now id row -> fit now' id row.
Proof. intros Hle Hf Hs. destruct (Hf Hs) as (? & ? & ? & ? & ? & ?). split_and!; try done. lia. Qed.

Lemma reclaim_step now id row : fit now id row -> expired now row = true ->
  row_step row (reclaim_row now row) /\ due now (reclaim_row now row) = true /\ fit now id (reclaim_row now row).
Proof.
  intros Hf He. unfold expired in He. apply andb_true_iff in He as [Hs He]. apply bool_decide_eq_true in Hs.
  destruct Hf as (F1 & F2 & F3 & F4 & F5 & F6); [by rewrite Hs|]. specialize (F6 Hs).
  assert (Hc : outbox_checks (reclaim_row now row) = true).
  { unfold outbox_checks in *. unfold outbox_lifecycle in *. rewrite Hs in F3. simpl. prop_hyps. destruct (ob_publishedAt row); [done|].
    prop_goal; try done; lia. }
  split_and!.
  - split; [|done]. unfold enforce_usage_event_outbox_update. simpl. rewrite Hs. unfold outbox_checks, outbox_lifecycle in F3. rewrite Hs in F3. prop_hyps.
    destruct (ob_publishedAt row); [done|]. prop_goal; try done; lia.
  - unfold due. simpl. apply Z.leb_refl.
  - intros _. split_and!; try done.
Qed.

Lemma lease_step now leaseID id row : fit now id row -> due now row = true ->
  row_step row (lease_row leaseID (now + rl_leaseDuration relay) now row).
Proof.
  intros Hf He. unfold due in He. apply andb_true_iff in He as [Hs He]. apply bool_decide_eq_true in Hs.
  destruct Hf as (F1 & F2 & F3 & F4 & F5 & _); [by rewrite Hs|]. pose proof relay_positive. unfold outbox_checks, outbox_lifecycle in F3. rewrite Hs in F3. prop_hyps.
  destruct (ob_publishedAt row) eqn:Hp; [done|]. split.
  - unfold enforce_usage_event_outbox_update. simpl. rewrite Hs, Hp. prop_goal; try done; lia.
  - unfold outbox_checks, outbox_lifecycle. simpl. rewrite Hp. prop_goal; try done; lia.
Qed.

(** The rows [claimed] of a pass: either a full batch or everything that is ready. *)
Record claimed_batch (now : Time) (leaseID : string) (rows rows2 : Outbox) (claimed : list string) : Prop := {
  cb_nodup : NoDup claimed;
  cb_full : Z.of_nat (length claimed) <= rl_batchSize relay /\
    (Z.of_nat (length claimed) = rl_batchSize relay \/ forall id row, rows !! id = Some row -> ready now row = true -> id ∈ claimed);
  cb_claimed : forall id, id ∈ claimed -> exists row row1, rows !! id = Some row /\ ob_status row <> OutboxPublished /\ fit now id row1 /\
    ob_event row1 = ob_event row /\ due now row1 = true /\ rows2 !! id = Some (lease_row leaseID (now + rl_leaseDuration relay) now row1);
  cb_others : forall id row, id ∉ claimed -> rows !! id = Some row -> exists row', rows2 !! id = Some row' /\
    (row' = row \/ (ob_status row <> OutboxPublished /\ ready now row' = true /\ fit now id row' /\ ob_event row' = ob_event row)) }.

(** The first statement of a claim: [reclaimed] rows become due, the others stay. *)
Record reclaimed_rows (now : Time) (rows rows1 : Outbox) (reclaimed : list string) : Prop := {
  rr_nodup : NoDup reclaimed;
  rr_full : Z.of_nat (length reclaimed) = rl_batchSize relay \/ forall id row, rows !! id = Some row -> expired now row = true -> id ∈ reclaimed;
  rr_due : forall id, id ∈ reclaimed -> exists row, rows !! id = Some row /\ ready now row = true /\ fit now id (reclaim_row now row) /\
    due now (reclaim_row now row) = true /\ rows1 !! id = Some (reclaim_row now row);
  rr_others : forall id, id ∉ reclaimed -> rows1 !! id = rows !! id }.

Lemma clean_reclaim now key skip rows : (forall id, skip id = false) -> map_Forall (fit now) rows ->
  let reclaimed := select_ids (rl_batchSize relay) (expired now) key skip rows in
  exists rows1, update_outbox rows reclaimed (reclaim_row now) = Ok rows1 /\ reclaimed_rows now rows rows1 reclaimed.
Proof.
  intros Hskip Hfit reclaimed. pose proof relay_positive as [Hb _].
  destruct (select_ids_spec (rl_batchSize relay) (expired now) key skip rows) as (R1 & R2 & R3 & R4). fold reclaimed in R1, R2, R3, R4.
  destruct (update_outbox_clean rows reclaimed (reclaim_row now) R1) as (rows1 & E1 & L1).
  { intros id (row & Hrow & He)%R3. exists row. split; [done|]. apply (reclaim_step now id row); [by apply Hfit|done]. }
  exists rows1. split; [done|]. split; [done| | |].
  - destruct R4 as [R4|R4]; [left; lia|right]. intros id row Hrow He. by eapply R4.
  - intros id Hid. destruct (R3 _ Hid) as (row & Hrow & He). exists row. destruct (reclaim_step now id row) as (_ & Hd & Hf); [by apply Hfit|done|].
    split_and!; try done; [unfold ready; rewrite He; apply orb_true_r|]. by rewrite L1, bool_decide_eq_true_2, Hrow by done.
  - intros id Hid. by rewrite L1, bool_decide_eq_false_2.
Qed.

Lemma reclaimed_fit now rows rows1 reclaimed id row1 : reclaimed_rows now rows rows1 reclaimed -> map_Forall (fit now) rows ->
  rows1 !! id = Some row1 -> fit now id row1 /\ exists row, rows !! id = Some row /\
    (row1 = row \/ (ready now row1 = true /\ ob_event row1 = ob_event row /\ ob_status row <> OutboxPublished)).
Proof.
  intros [_ _ Hd Ho] Hfit Hrow1. destruct (decide (id ∈ reclaimed)) as [Hin|Hni].
  - destruct (Hd _ Hin) as (row & Hrow & Hr & Hf & Hdue & E). simplify_eq. split; [done|]. exists row. split; [done|]. right.
    split_and!; [unfold ready; by rewrite Hdue|done|by eapply ready_unpublished].
  - rewrite Ho in Hrow1 by done. split; [by apply Hfit|eauto].
Qed.

Lemma clean_lease now leaseID key skip rows rows1 reclaimed : (forall id, skip id = false) -> map_Forall (fit now) rows ->
  reclaimed_rows now rows rows1 reclaimed ->
  let claimed := select_ids (rl_batchSize relay) (due now) key skip rows1 in
  exists rows2, update_outbox rows1 claimed (lease_row leaseID (now + rl_leaseDuration relay) now) = Ok rows2 /\
    claimed_batch now leaseID rows rows2 claimed.
Proof.
  intros Hskip Hfit Hre claimed. pose proof relay_positive as [Hb _]. pose proof (fun id row1 => reclaimed_fit _ _ _ _ id row1 Hre Hfit) as Hfit1.
  destruct Hre as [R1 R4 R3 R5].
  destruct (select_ids_spec (rl_batchSize relay) (due now) key skip rows1) as (C1 & C2 & C3 & C4). fold claimed in C1, C2, C3, C4.
  destruct (update_outbox_clean rows1 claimed (lease_row leaseID (now + rl_leaseDuration relay) now) C1) as (rows2 & E2 & L2).
  { intros id (row & Hrow & He)%C3. exists row. split; [done|]. eapply lease_step; [apply (Hfit1 _ _ Hrow)|done]. }
  exists rows2. split; [done|]. split; [done| | |].
  - split; [lia|]. destruct C4 as [C4|C4]; [left; lia|].
    assert (Hsub : reclaimed ⊆ claimed). { intros id Hid. destruct (R3 _ Hid) as (row & _ & _ & _ & Hd & E). by eapply C4. }
    destruct R4 as [R4|R4]; [left|right].
    + pose proof (submseteq_length _ _ (NoDup_submseteq _ _ R1 Hsub)). lia.
    + intros id row Hrow Hr. destruct (decide (id ∈ reclaimed)) as [Hin|Hni]; [by apply Hsub|]. unfold ready in Hr. apply orb_true_iff in Hr as [Hd|He].
      * apply (C4 id row); [by rewrite R5|done|done].
      * destruct Hni. by eapply R4.
  - intros id Hid. destruct (C3 _ Hid) as (row1 & Hrow1 & Hd). destruct (Hfit1 _ _ Hrow1) as (Hf & row & Hrow & Hor).
    exists row, row1. split_and!; try done; [|by destruct Hor as [->|(_ & ? & _)]|by rewrite L2, bool_decide_eq_true_2, Hrow1 by done].
    destruct Hor as [->|(_ & _ & ?)]; [|done]. eapply ready_unpublished. unfold ready. by rewrite Hd.
  - intros id row Hni Hrow. rewrite L2, bool_decide_eq_false_2 by done. destruct (decide (id ∈ reclaimed)) as [Hin|Hni'].
    + destruct (R3 _ Hin) as (row0 & Hrow0 & Hr & Hf & Hd & E). simplify_eq. eexists. split; [exact E|]. right.
      split_and!; [by eapply ready_unpublished|unfold ready; by rewrite Hd|done|done].
    + exists row. rewrite R5 by done. auto.
Qed.

Lemma clean_claim env rows leaseID : clean_env env -> map_Forall (fit (re_now env)) rows ->
  exists rows2 claimed events n, claim relay (re_claim env) rows leaseID (re_now env) = (rows2, Ok (events, n)) /\
    claimed_batch (re_now env) leaseID rows rows2 claimed /\
    events ≡ₚ (fun row => {| ce_event := scan_event (ob_event row); ce_PublishAttempts := ob_attempts row |}) <$> omap (fun id => rows2 !! id) claimed.
Proof.
  intros [_ Hfaults Hskip Harr _] Hfit. unfold claim. rewrite Hfaults. cbv zeta.
  destruct (clean_reclaim (re_now env) expired_key (cl_skipReclaim (re_claim env)) rows) as (rows1 & E1 & Hre); [apply Hskip|done|].
  destruct (clean_lease (re_now env) leaseID due_key (cl_skipClaim (re_claim env)) rows rows1 _ (fun id => proj2 (Hskip id)) Hfit Hre) as (rows2 & E2 & Hcl).
  unfold statement. simpl. rewrite E1. simpl. rewrite E2. simpl. do 4 eexists. split; [reflexivity|]. split; [exact Hcl|apply Harr].
Qed.

(** What a claimed event needs to be published by the pass that holds its lease. *)
Definition publishable (now : Time) (leaseID : string) (rows : Outbox) (event : claimedEvent) : Prop :=
  UsageEvent_Validate (ce_event event) = true /\ (exists payload, marshal (ce_event event) = Some payload /\ payload <> ""%string) /\
  exists row, rows !! ue_EventID (ce_event event) = Some row /\ ob_event row = ce_event event /\ holds_lease leaseID row = true /\
    outbox_checks row = true /\ ob_updatedAt row <= now.

Lemma valid_id_nonempty event : UsageEvent_Validate event = true -> ue_EventID event <> ""%string.
Proof. unfold UsageEvent_Validate. intros Hv He. prop_hyps. match goal with H : uuidPattern _ = true |- _ => rewrite He in H; done end. Qed.

(** Publishing one leased event and recording it. *)
Lemma publish_leased now leaseID rows bus event env : publishable now leaseID rows event ->
  pe_produced env = Acknowledged -> now <= pe_now env -> pe_faults env = no_faults ->
  exists rows' row', publish_event marshal bus event (pe_produced env) =
      Ok (bus ++ [(ue_EventID (ce_event event), default ""%string (marshal (ce_event event)))], true) /\
    record_outcome relay (pe_faults env) rows leaseID event true (pe_now env) = (rows', Ok tt) /\
    rows' = <[ue_EventID (ce_event event) := row']> rows /\ ob_status row' = OutboxPublished /\ ob_event row' = ce_event event.
Proof.
  intros (Hv & (payload & Hm & Hp) & row & Hrow & Hev & Hl & Hc & Hu) -> Hn ->.
  unfold publish_event, Publish. rewrite Hm, Hv, !bool_decide_eq_false_2 by (done || by apply valid_id_nonempty). simpl.
  unfold record_outcome, markPublished, update_leased. rewrite Hrow, Hl. unfold statement, autocommit. simpl. rewrite Hrow.
  unfold holds_lease in Hl. prop_hyps. unfold outbox_checks, outbox_lifecycle in Hc.
  match goal with H : ob_status row = _ |- _ => rewrite H in Hc; rename H into Hs end. prop_hyps.
  assert (enforce_usage_event_outbox_update row (publish_row (pe_now env) row) = true) as ->.
  { unfold enforce_usage_event_outbox_update. simpl. rewrite Hs. prop_goal; try done; lia. }
  assert (outbox_checks (publish_row (pe_now env) row) = true) as ->.
  { unfold outbox_checks, outbox_lifecycle. simpl. prop_goal; try done; lia. }
  simpl. do 2 eexists. split_and!; done.
Qed.

Lemma publishable_insert now leaseID rows event id row' : publishable now leaseID rows event -> id <> ue_EventID (ce_event event) ->
  publishable now leaseID (<[id := row']> rows) event.
Proof. intros (Hv & Hm & row & Hrow & Hrest) Hne. split_and!; [done..|]. exists row. split; [|done]. by rewrite lookup_insert_ne. Qed.

Lemma clean_loop env leaseID n events rows bus r : clean_env env ->
  NoDup ((fun event => ue_EventID (ce_event event)) <$> events) -> Forall (publishable (re_now env) leaseID rows) events ->
  exists rows' bus' r', relay_loop marshal relay leaseID (re_publish env) n events rows bus r = (rows', bus', r', None) /\
    br_Published r' = br_Published r + Z.of_nat (length events) /\ br_Claimed r' = br_Claimed r /\ br_Retried r' = br_Retried r /\
    (forall event, event ∈ events -> exists row', rows' !! ue_EventID (ce_event event) = Some row' /\ ob_status row' = OutboxPublished /\
      ob_event row' = ce_event event) /\
    (forall id, id ∉ (fun event => ue_EventID (ce_event event)) <$> events -> rows' !! id = rows !! id).
Proof.
  intros Hclean. revert n rows bus r; induction events as [|event rest IH]; intros n rows bus r Hnd Hall.
  { exists rows, bus, r. simpl. split_and!; [done|lia|done|done| |done]. intros ? []%not_elem_of_nil. }
  simpl in Hnd. apply NoDup_cons in Hnd as [Hni Hnd]. apply Forall_cons in Hall as [He Hall]. destruct (cle_publish _ Hclean n) as (P1 & P2 & P3 & P4).
  destruct (publish_leased _ _ _ bus _ _ He P1 P3 P4) as (rows1 & row1 & E1 & E2 & -> & S1 & V1). simpl. rewrite E1, P2, E2.
  set (bus1 := bus ++ _). destruct (IH (S n) (<[ue_EventID (ce_event event) := row1]> rows) bus1 (count_outcome r true)) as (rows' & bus' & r' & E & B1 & B2 & B3 & Hin & Hout); [done| |].
  { rewrite Forall_forall in *. intros e He'. apply publishable_insert; [by apply Hall|]. intros Heq. apply Hni. rewrite Heq. apply list_elem_of_fmap. eauto. }
  exists rows', bus', r'. split; [done|]. simpl in *. split_and!; [lia|done|lia| |].
  - intros e [->|He']%elem_of_cons; [|by apply Hin]. exists row1. rewrite Hout by done. by rewrite lookup_insert_eq.
  - intros id [Hne Hid]%not_elem_of_cons. rewrite Hout by done. by rewrite lookup_insert_ne.
Qed.

(** The events not yet published. *)
Definition unpublished (rows : Outbox) : gset string := dom (filter (fun entry => ob_status entry.2 <> OutboxPublished) rows).

Lemma elem_of_unpublished rows id : id ∈ unpublished rows <-> exists row, rows !! id = Some row /\ ob_status row <> OutboxPublished.
Proof.
  unfold unpublished. rewrite elem_of_dom. split.
  - intros [row [Hrow Hs]%map_lookup_filter_Some]. by exists row.
  - intros (row & Hrow & Hs). exists row. by apply map_lookup_filter_Some.
Qed.

Lemma claimed_events_publishable now leaseID rows rows2 claimed events : claimed_batch now leaseID rows rows2 claimed ->
  events ≡ₚ (fun row => {| ce_event := scan_event (ob_event row); ce_PublishAttempts := ob_attempts row |}) <$> omap (fun id => rows2 !! id) claimed ->
  Forall (publishable now leaseID rows2) events /\ ((fun event => ue_EventID (ce_event event)) <$> events) ≡ₚ claimed.
Proof.
  intros [Hnd _ Hcl _] Hperm. split.
  - rewrite Hperm, Forall_fmap, Forall_forall. intros row2 (id & Hid & Hrow2)%list_elem_of_omap.
    destruct (Hcl _ Hid) as (row & row1 & Hrow & Hs & Hf & Hev & Hd & E). rewrite E in Hrow2. simplify_eq/=.
    destruct Hf as (F1 & F2 & F3 & F4 & F5 & F6); [eapply ready_unpublished; unfold ready; by rewrite Hd|].
    unfold publishable. simpl. rewrite scan_valid by done. split_and!; [done..|]. rewrite F1. eexists. split; [exact E|].
    split_and!; [done| |apply (lease_step now leaseID id row1); [by intros _|done]|simpl; lia].
    unfold holds_lease. simpl. by rewrite !bool_decide_eq_true_2.
  - rewrite Hperm. clear Hperm Hnd. rewrite <- list_fmap_compose. induction claimed as [|id claimed IH]; [done|]. simpl.
    destruct (Hcl id) as (row & row1 & Hrow & Hs & Hf & Hev & Hd & E); [left|]. rewrite E. simpl.
    destruct Hf as (F1 & _); [eapply ready_unpublished; unfold ready; by rewrite Hd|]. rewrite F1. f_equiv. apply IH. intros i Hi. apply Hcl. by right.
Qed.

(** One undisturbed pass. *)
Lemma clean_pass env rows bus : clean_env env -> map_Forall (fit (re_now env)) rows ->
  exists rows' bus' r claimed, RelayOnce marshal relay env rows bus = (rows', bus', r, None) /\
    NoDup claimed /\ br_Published r = Z.of_nat (length claimed) /\ br_Claimed r = br_Published r /\ br_Retried r = 0 /\
    (br_Published r = rl_batchSize relay \/ forall id row, rows !! id = Some row -> ready (re_now env) row = true -> id ∈ claimed) /\
    (forall id row, rows !! id = Some row -> exists row', rows' !! id = Some row' /\ ob_event row' = ob_event row /\
      (id ∈ claimed -> ob_status row <> OutboxPublished /\ ob_status row' = OutboxPublished) /\
      (id ∉ claimed -> row' = row \/ (ob_status row <> OutboxPublished /\ ready (re_now env) row' = true /\ fit (re_now env) id row'))) /\
    (forall id, id ∈ claimed -> is_Some (rows !! id)).
Proof.
  intros Hclean Hfit. unfold RelayOnce. destruct (cle_lease _ Hclean) as [leaseID ->].
  destruct (clean_claim env rows leaseID Hclean Hfit) as (rows2 & claimed & events & n & -> & Hcb & Hev).
  destruct (claimed_events_publishable _ _ _ _ _ _ Hcb Hev) as [Hpub Hids]. destruct Hcb as [Hnd [Hmax Hfull] Hcl Hot].
  destruct (clean_loop env leaseID 0 events rows2 bus
    {| br_Reclaimed := n; br_Claimed := Z.of_nat (length events); br_Published := 0; br_Retried := 0 |} Hclean) as (rows' & bus' & r & E & B1 & B2 & B3 & Hin & Hout);
    [by rewrite Hids|done|]. simpl in *.
  assert (Hlen : length events = length claimed) by (rewrite <- Hids; by rewrite length_fmap).
  exists rows', bus', r, claimed. split; [done|]. split_and!; [done|lia|lia|done|destruct Hfull; [left; lia|by right]| |].
  2: { intros id Hid. destruct (Hcl _ Hid) as (row & _ & Hrow & _). by exists row. }
  intros id row Hrow. destruct (decide (id ∈ claimed)) as [Hc|Hc].
  - pose proof Hc as Hc'. rewrite <- Hids in Hc'. apply list_elem_of_fmap in Hc' as (event & -> & Hevent). destruct (Hin _ Hevent) as (row' & Hrow' & Hs & He).
    exists row'. destruct (Hcl _ Hc) as (row0 & row1 & Hrow0 & Hs0 & _ & Hev1 & _ & E2). simplify_eq. split_and!; [done| |done|done].
    rewrite Forall_forall in Hpub. destruct (Hpub _ Hevent) as (_ & _ & row2 & Hrow2 & Hev2 & _). rewrite E2 in Hrow2. simplify_eq/=. congruence.
  - destruct (Hot _ _ Hc Hrow) as (row' & Hrow' & Hor). exists row'. rewrite Hout by (by rewrite Hids).
    split; [done|]. destruct Hor as [->|(? & ? & ? & ?)]; split_and!; auto; done.
Qed.

Lemma relay_loop_evolves leaseID env n events rows bus r : table_evolves rows (relay_loop marshal relay leaseID env n events rows bus r).1.1.1.
Proof.
  revert n rows bus r; induction events as [|event rest IH]; intros n rows bus r; simpl; [reflexivity|].
  destruct (publish_event _ _ _ _) as [[bus' acked]|]; [|reflexivity]. destruct (pe_ctx _); [reflexivity|].
  pose proof (record_outcome_evolves relay (pe_faults (env n)) rows leaseID event acked (pe_now (env n))) as He.
  destruct (record_outcome _ _ _ _ _ _ _) as [rows' [[]|]]; simpl in *; [|done]. by etrans.
Qed.

Lemma RelayOnce_evolves env rows bus : table_evolves rows (RelayOnce marshal relay env rows bus).1.1.1.
Proof.
  unfold RelayOnce. destruct (re_leaseID env) as [leaseID|]; [|reflexivity]. pose proof (claim_evolves relay (re_claim env) rows leaseID (re_now env)) as He.
  destruct (claim _ _ _ _ _) as [rows' [[events n]|]]; simpl in *; [|done]. etrans; [exact He|apply relay_loop_evolves].
Qed.

Lemma Run_evolves passes rows bus : table_evolves rows (Run marshal relay passes rows bus).1.
Proof.
  revert rows bus; induction passes as [|env passes IH]; intros rows bus; simpl; [reflexivity|].
  pose proof (RelayOnce_evolves env rows bus) as He. destruct (RelayOnce _ _ _ _ _) as [[[rows' bus'] r] e]. simpl in He. by etrans.
Qed.

Lemma unpublished_after rows rows' claimed (fits : string -> OutboxRow -> Prop) : NoDup claimed -> table_evolves rows rows' ->
  (forall id row, rows !! id = Some row -> exists row', rows' !! id = Some row' /\ ob_event row' = ob_event row /\
    (id ∈ claimed -> ob_status row <> OutboxPublished /\ ob_status row' = OutboxPublished) /\
    (id ∉ claimed -> row' = row \/ (ob_status row <> OutboxPublished /\ fits id row'))) ->
  (forall id, id ∈ claimed -> is_Some (rows !! id)) ->
  Z.of_nat (size (unpublished rows')) <= Z.of_nat (size (unpublished rows)) - Z.of_nat (length claimed).
Proof.
  intros Hnd Hev Hsome Hin. assert (Hsub : unpublished rows' ⊆ unpublished rows ∖ list_to_set claimed).
  { intros id (row' & Hrow' & Hs)%elem_of_unpublished. specialize (Hev id). destruct (rows !! id) as [row|] eqn:Hrow; [|congruence].
    destruct (Hsome _ _ Hrow) as (row1 & Hrow1 & _ & Hc & Hn). simplify_eq. apply elem_of_difference. split.
    - apply elem_of_unpublished. exists row. split; [done|]. destruct (decide (id ∈ claimed)) as [Hi|Hi]; [by destruct (Hc Hi)|].
      by destruct (Hn Hi) as [->|[Hr _]].
    - rewrite elem_of_list_to_set. intros Hi. by destruct (Hc Hi). }
  apply subseteq_size in Hsub. rewrite size_difference in Hsub; [rewrite size_list_to_set in Hsub by done; pose proof (NoDup_submseteq claimed (elements (unpublished rows))) as Hle|].
  2: { intros id Hid%elem_of_list_to_set. apply elem_of_unpublished. destruct (Hin _ Hid) as [row Hrow].
    destruct (Hsome _ _ Hrow) as (r1 & _ & _ & Hc & _). exists row. split; [done|]. by apply Hc. }
  specialize (Hle Hnd). apply submseteq_length in Hle; [unfold size, set_size in *; simpl in *; lia|].
  intros id Hid. apply elem_of_elements, elem_of_unpublished. destruct (Hin _ Hid) as [row Hrow]. destruct (Hsome _ _ Hrow) as (r1 & _ & _ & Hc & _).
  exists row. split; [done|]. by apply Hc.
Qed.

Lemma clean_run passes now rows bus : Forall clean_env passes -> Sorted Z.le (now :: (re_now <$> passes)) -> map_Forall (fit now) rows ->
  Z.of_nat (size (unpublished rows)) <= Z.of_nat (length passes) * rl_batchSize relay ->
  forall id row, rows !! id = Some row -> ready now row = true ->
  exists row', (Run marshal relay passes rows bus).1 !! id = Some row' /\ ob_status row' = OutboxPublished /\ ob_event row' = ob_event row.
Proof.
  revert now rows bus; induction passes as [|env passes IH]; intros now rows bus Hclean Hsort Hfit Hsize id row Hrow Hr.
  { assert (Hin : id ∈ unpublished rows) by (apply elem_of_unpublished; exists row; split; [done|by eapply ready_unpublished]).
    simpl in Hsize. assert (Hz : size (unpublished rows) = 0%nat) by lia. apply size_empty_inv in Hz. set_solver. }
  apply Forall_cons in Hclean as [Henv Hclean]. simpl in Hsort. apply Sorted_inv in Hsort as [Hsort Hle%HdRel_inv].
  assert (Hfit' : map_Forall (fit (re_now env)) rows) by (intros i r Hi; eapply fit_mono; [exact Hle|by apply Hfit]).
  destruct (clean_pass env rows bus Henv Hfit') as (rows' & bus' & r & claimed & E & Hnd & B1 & _ & _ & Hfull & Hsome & Hin).
  pose proof (RelayOnce_evolves env rows bus) as Hev. rewrite E in Hev. simpl in Hev. simpl. rewrite E.
  destruct (Hsome _ _ Hrow) as (row' & Hrow' & He & Hc & Hn). destruct (decide (id ∈ claimed)) as [Hi|Hi].
  - destruct (Hc Hi) as [_ Hp]. pose proof (Run_evolves passes rows' bus' id) as Hrun. rewrite Hrow' in Hrun. destruct Hrun as (row2 & Hrow2 & Hs).
    apply row_steps_facts in Hs as (_ & _ & _ & Hf). specialize (Hf Hp). subst row2. eauto.
  - destruct Hfull as [Hb|Hall]; [|destruct Hi; eapply Hall; [done|by eapply ready_mono]].
    destruct (IH (re_now env) rows' bus') with (id := id) (row := row') as (row2 & Hrow2 & Hs & He2); [done|done| | |done| |].
    + intros i ri Hri. specialize (Hev i). destruct (rows !! i) as [ri0|] eqn:Hri0; [|congruence].
      destruct (Hsome _ _ Hri0) as (ri1 & Hri1 & _ & Hci & Hni). simplify_eq. destruct (decide (i ∈ claimed)) as [Hc'|Hc'].
      * intros Hs. by destruct (Hci Hc').
      * destruct (Hni Hc') as [->|(_ & _ & ?)]; [by apply Hfit'|done].
    + pose proof (unpublished_after rows rows' claimed (fun i r => ready (re_now env) r = true /\ fit (re_now env) i r) Hnd Hev Hsome Hin). simpl in Hsize. lia.
    + destruct (Hn Hi) as [->|(_ & ? & _)]; [by eapply ready_mono|done].
    + exists row2. split_and!; [done|done|congruence].
Qed.

Lemma Run_steps passes s : Forall (fun env => forall l, cl_arrange (re_claim env) l ≡ₚ l) passes ->
  exists s', rtc (relay_step marshal) s s' /\ (rs_rows s', rs_bus s') = Run marshal relay passes (rs_rows s) (rs_bus s).
Proof.
  revert s; induction passes as [|env passes IH]; intros s; simpl; [by exists s|]. intros [Harr Hrest]%Forall_cons.
  destruct (RelayOnce_steps marshal relay env s (fresh (dom (rs_passes s)))) as (s1 & S1 & E1); [apply not_elem_of_dom, is_fresh|done|].
  destruct (RelayOnce marshal relay env (rs_rows s) (rs_bus s)) as [[[rows bus] r] e]. destruct E1 as [<- <-].
  destruct (IH s1 Hrest) as (s2 & S2 & E2). exists s2. split; [by etrans|done].
Qed.

(** C20: Undisturbed passes empty the outbox. From any state that competing and crashing
    relays left behind, enough passes without faults whose records the broker
    acknowledges (a batch per pass for every unpublished row) publish each event that
    was due or whose lease had expired, and leave it on the bus. *)
Theorem relay_drains_the_outbox s now passes : relay_reachable marshal s ->
  (forall id row, rs_rows s !! id = Some row -> ob_status row <> OutboxPublished -> ob_updatedAt row <= now /\ ob_attempts row < 1000000 /\
    exists payload, marshal (ob_event row) = Some payload /\ payload <> ""%string) ->
  Forall clean_env passes -> Sorted Z.le (now :: (re_now <$> passes)) ->
  Z.of_nat (size (unpublished (rs_rows s))) <= Z.of_nat (length passes) * rl_batchSize relay ->
  forall id row, rs_rows s !! id = Some row -> ready now row = true ->
  exists row' payload, (Run marshal relay passes (rs_rows s) (rs_bus s)).1 !! id = Some row' /\ ob_status row' = OutboxPublished /\
    ob_event row' = ob_event row /\ marshal (ob_event row) = Some payload /\ (id, payload) ∈ (Run marshal relay passes (rs_rows s) (rs_bus s)).2.
Proof.
  intros Hreach Hrows Hclean Hsort Hsize id row Hrow Hr. pose proof (relay_reachable_inv _ _ Hreach) as [Hg _ _].
  assert (Hfit : map_Forall (fit now) (rs_rows s)).
  { intros i ri Hri Hs. destruct (Hg _ _ Hri) as (G1 & G2 & G3 & _). destruct (Hrows _ _ Hri Hs) as (? & ? & ?). split_and!; done. }
  destruct (clean_run passes now (rs_rows s) (rs_bus s) Hclean Hsort Hfit Hsize id row Hrow Hr) as (row' & Hrow' & Hp & He).
  destruct (Run_steps passes s) as (s' & Hs & E); [eapply Forall_impl; [exact Hclean|]; intros env Henv; apply Henv|].
  assert (Hreach' : relay_reachable marshal s') by (unfold relay_reachable; by etrans). apply relay_reachable_inv in Hreach' as [Hg' _ _].
  rewrite <- E in *. simpl in *. destruct (Hg' _ _ Hrow') as (G1 & _ & _ & G4). destruct (G4 Hp) as (payload & Hm & Hin).
  exists row', payload. rewrite G1 in Hin. split_and!; try done. by rewrite <- He.
Qed.
End Drain.

Lemma demo_env_clean now : clean_env (OutboxDemo.env now).
Proof. split; simpl; done || (intros _; split_and!; done || lia). Qed.

Lemma relay_drains_the_outbox_witness : exists row' payload,
  (Run OutboxDemo.encode OutboxDemo.relay [OutboxDemo.env 5] (rs_rows OutboxDemo.s1) []).1 !! ue_EventID OutboxDemo.event = Some row' /\
  ob_status row' = OutboxPublished /\ ob_event row' = OutboxDemo.event /\ OutboxDemo.encode OutboxDemo.event = Some payload /\
  (ue_EventID OutboxDemo.event, payload) ∈ (Run OutboxDemo.encode OutboxDemo.relay [OutboxDemo.env 5] (rs_rows OutboxDemo.s1) []).2.
Proof.
  apply (relay_drains_the_outbox OutboxDemo.encode DefaultOptions OutboxDemo.relay eq_refl OutboxDemo.s1 5 [OutboxDemo.env 5] OutboxDemo.s1_reachable) with (row := new_row OutboxDemo.event).
  - intros id row H _. unfold OutboxDemo.s1 in H. simpl in H. apply lookup_insert_Some in H as [[<- <-]|[_ H]]; [|discriminate H].
    split; [vm_compute; discriminate|]. split; [vm_compute; reflexivity|]. exists OutboxDemo.payload. split; [reflexivity|vm_compute; discriminate].
  - constructor; [apply demo_env_clean|constructor].
  - repeat constructor; simpl; lia.
  - vm_compute. discriminate.
  - reflexivity.
  - reflexivity.
Defined.
