(* ===== verification/MeteringLedger.v ===== *)
(** * The usage ledger and its consumer (src/internal/meteringconsumer/processor.go, kafka.go)

    The append-only table app.usage_ledger_entries with the constraints and triggers of
    migrations 000013 to 000020, the receipts of 000017, and the consumer that prices
    one usage event per receipt. Decoding and encoding of JSON and SHA-256 are the
    arguments [decode], [marshal] and [sha256]; the other tables a transaction reads are
    an argument of it.

    Then: corrections of the usage ledger (src/internal/meteringadjustment). *)
From Stdlib Require Import ZArith Lia Bool Ascii String.
From stdpp Require Import base tactics option list strings gmap fin_maps sets.
From S2P Require Import Prelude Postgres Identifiers Unicode Catalog Retry Metering Execution MeteringCost MeteringOutbox.
(** ** Tables *)
Record AdjustmentColumns := {
  aj_target : string; aj_key : string; aj_origin : Origin; aj_reason : string; aj_reference : string; aj_actor : string;
  aj_resultQuantity : Z; aj_resultAmount : Z }.

(** A NULL attempt is the empty string, which is not a UUID. *)
Record LedgerRow := {
  lr_eventID : string; lr_tenantID : string; lr_requestID : string; lr_attemptID : string; lr_tokenType : TokenType; lr_quantity : Z;
  lr_source : Source; lr_observedAt : Time; lr_createdAt : Time; lr_createdBy : string; lr_priceVersionID : string; lr_amountMicros : Z;
  lr_schemaVersion : option Z; lr_estimate : option UsageEstimateMetadata; lr_adjustment : option AdjustmentColumns }.
Notation Ledger := (list LedgerRow).

Record Receipt := { rcp_schemaVersion : Z; rcp_fingerprint : string; rcp_group : string; rcp_consumedAt : Time }.
Record MeterDB := { md_receipts : gmap string Receipt; md_ledger : Ledger }.

(** The tables of other components. *)
Record MeterTables := {
  mt_requests : gmap string GatewayRequest; mt_attempts : gmap string RouteAttempt; mt_region : string -> option string;
  mt_prices : list PriceVersion }.

Definition find_entry (id : string) (ledger : Ledger) : option LedgerRow := find (fun row => bool_decide (lr_eventID row = id)) ledger.
Definition find_price (tables : MeterTables) (id : string) : option PriceVersion := find (fun p => bool_decide (pv_ID p = id)) (mt_prices tables).
Definition target_of (row : LedgerRow) : option string := aj_target <$> lr_adjustment row.
Definition adjusting (target : string) (ledger : Ledger) : Ledger := filter (fun row => target_of row = Some target) ledger.
Definition is_adjustment (row : LedgerRow) : bool := bool_decide (lr_source row = SourceAdjustment).

(** ** Constraints and triggers *)
Definition exact (low value : Z) : bool := (low <=? value) && (value <=? MaximumExactInteger).

(** [^[A-Za-z0-9][A-Za-z0-9._:/-]{7,127}$] *)
Definition idempotencyPattern : string -> bool := match_head_tail alnum (or_class alnum (one_of "._:/-")) 7 127.

Definition adjustment_metadata_valid (row : LedgerRow) : bool :=
  match lr_adjustment row with
  | None => negb (is_adjustment row)
  | Some a =>
      is_adjustment row && idempotencyPattern (aj_key a) && Origin_Valid (aj_origin a) && reasonPattern (aj_reason a) &&
      auditPattern (aj_reference a) && auditPattern (aj_actor a) && exact 0 (aj_resultQuantity a) && exact 0 (aj_resultAmount a) &&
      negb ((lr_quantity row =? 0) && (lr_amountMicros row =? 0))
  end.

Definition estimate_metadata_valid (row : LedgerRow) : bool :=
  if is_adjustment row then negb (present (lr_schemaVersion row)) && negb (present (lr_estimate row))
  else match lr_schemaVersion row with
  | Some v =>
      ((v =? 1) && negb (present (lr_estimate row))) ||
      ((v =? 2) && negb (bool_decide (lr_source row = SourceEstimated)) && negb (present (lr_estimate row))) ||
      ((v =? 2) && bool_decide (lr_source row = SourceEstimated) &&
       match lr_estimate row with
       | Some m => labelPattern (est_Tokenizer m) && labelPattern (est_TokenizerVersion m) && validateIdentifier (est_PhysicalModel m) 200 &&
           (1 <=? est_DeploymentVersion m) && validateIdentifier (est_ProviderProtocolVersion m) 64
       | None => false
       end)
  | None => false
  end.

Definition usage_ledger_checks (row : LedgerRow) : bool :=
  TokenType_Valid (lr_tokenType row) && ValidSource (lr_source row) &&
  exact (if is_adjustment row then - MaximumExactInteger else 1) (lr_quantity row) &&
  exact (if is_adjustment row then - MaximumExactInteger else 0) (lr_amountMicros row) &&
  validActor (lr_createdBy row) && adjustment_metadata_valid row && estimate_metadata_valid row.

Definition enforce_usage_ledger_price_lock (tables : MeterTables) (row : LedgerRow) : bool :=
  match find_price tables (lr_priceVersionID row) with
  | None => true
  | Some price =>
      bool_decide (pv_Status price = PriceStatusPublished) && (pv_EffectiveAt price <=? lr_observedAt row) &&
      match mt_attempts tables !! lr_attemptID row with
      | Some attempt => negb (bool_decide (ra_RequestID attempt = lr_requestID row)) || bool_decide (ra_DeploymentID attempt = pv_DeploymentID price)
      | None => true
      end
  end.

Definition enforce_usage_ledger_adjustment_integrity (ledger : Ledger) (row : LedgerRow) : bool :=
  if negb (is_adjustment row) then true
  else match lr_adjustment row with
  | None => false
  | Some a =>
      match find_entry (aj_target a) ledger with
      | None => false
      | Some target =>
          negb (is_adjustment target) && bool_decide (lr_tenantID row = lr_tenantID target) && bool_decide (lr_requestID row = lr_requestID target) &&
          bool_decide (lr_attemptID row = lr_attemptID target) && bool_decide (lr_tokenType row = lr_tokenType target) &&
          bool_decide (lr_priceVersionID row = lr_priceVersionID target) && (lr_observedAt target <=? lr_observedAt row) &&
          bool_decide (lr_createdBy row = aj_actor a) &&
          (lr_quantity target + sum_by lr_quantity (adjusting (aj_target a) ledger) + lr_quantity row =? aj_resultQuantity a) &&
          (lr_amountMicros target + sum_by lr_amountMicros (adjusting (aj_target a) ledger) + lr_amountMicros row =? aj_resultAmount a)
      end
  end.

Definition same_key (row other : LedgerRow) : bool :=
  match lr_adjustment row, lr_adjustment other with
  | Some a, Some b => bool_decide (lr_tenantID row = lr_tenantID other) && bool_decide (aj_key a = aj_key b)
  | _, _ => false
  end.

Definition ledger_references (tables : MeterTables) (row : LedgerRow) : bool :=
  match mt_requests tables !! lr_requestID row with Some r => bool_decide (gr_TenantID r = lr_tenantID row) | None => false end &&
  (no_text (lr_attemptID row) ||
   match mt_attempts tables !! lr_attemptID row with Some a => bool_decide (ra_RequestID a = lr_requestID row) | None => false end) &&
  match find_price tables (lr_priceVersionID row) with
  | Some price => existsb (fun r => bool_decide (rate_TokenType r = lr_tokenType row)) (pv_Rates price)
  | None => false
  end.

(** INSERT INTO app.usage_ledger_entries *)
Definition insert_usage_entry (tables : MeterTables) (ledger : Ledger) (row : LedgerRow) : result Ledger db_failure :=
  if negb (enforce_usage_ledger_adjustment_integrity ledger row) || negb (enforce_usage_ledger_price_lock tables row) ||
     negb (usage_ledger_checks row)
  then Err (PqError "23514" "")
  else if present (find_entry (lr_eventID row) ledger) || existsb (same_key row) ledger then Err (PqError "23505" "")
  else if negb (ledger_references tables row) then Err (PqError "23503" "")
  else Ok (ledger ++ [row]).

(** ** The consumer *)
Inductive consumer_error := ErrInvalidEvent | ErrEventConflict | ErrPriceUnavailable | ErrConsumerUnavailable.

Definition maximumUsageEventBytes : Z := 64 * 1024.
Definition ledgerWriter : string := "metering-worker:usage-v1".

(** [^[a-z0-9][a-z0-9._-]{2,127}$] *)
Definition consumerGroupPattern : string -> bool := match_head_tail lower_digit (or_class lower_digit (one_of "._-")) 2 127.

Record Processor := { pr_consumerGroup : string }.
Record ConsumerResult := { cr_EventID : string; cr_PriceVersionID : string; cr_AmountMicros : Z; cr_Inserted : bool; cr_Replayed : bool }.

Definition NewProcessor (database clock : bool) (consumerGroup : string) : result Processor consumer_error :=
  if negb database || negb (consumerGroupPattern consumerGroup) || negb clock then Err ErrInvalidEvent
  else Ok {| pr_consumerGroup := consumerGroup |}.

Definition mapConsumerDatabaseError (failure : db_failure) : consumer_error :=
  match failure with
  | PqError code _ => if bool_decide (code = "23505"%string) then ErrEventConflict else ErrConsumerUnavailable
  | DriverError => ErrConsumerUnavailable
  end.

(** INSERT ... ON CONFLICT (event_id) DO NOTHING; the second component tells whether a
    row was inserted. *)
Definition insertReceipt (db : MeterDB) (event : UsageEvent) (fingerprint group : string) (consumedAt : Time) : result (MeterDB * bool) db_failure :=
  if negb ((ue_SchemaVersion event =? 1) || (ue_SchemaVersion event =? 2)) || negb (Nat.eqb (String.length fingerprint) 32) ||
     negb (consumerGroupPattern group)
  then Err (PqError "23514" "")
  else match md_receipts db !! ue_EventID event with
  | Some _ => Ok (db, false)
  | None =>
      Ok ({| md_receipts := <[ue_EventID event := {| rcp_schemaVersion := ue_SchemaVersion event; rcp_fingerprint := fingerprint;
               rcp_group := group; rcp_consumedAt := consumedAt |}]> (md_receipts db); md_ledger := md_ledger db |}, true)
  end.

Definition loadReplay (db : MeterDB) (eventID fingerprint : string) : result ConsumerResult consumer_error :=
  match md_receipts db !! eventID, find_entry eventID (md_ledger db) with
  | Some receipt, Some row =>
      if bool_decide (rcp_fingerprint receipt = fingerprint)
      then Ok {| cr_EventID := eventID; cr_PriceVersionID := lr_priceVersionID row; cr_AmountMicros := lr_amountMicros row;
                 cr_Inserted := false; cr_Replayed := true |}
      else Err ErrEventConflict
  | _, _ => Err ErrConsumerUnavailable
  end.

(** The published prices of the attempt's deployment and region that are effective when
    the usage was observed and have a rate for it. *)
Definition effective_prices (tables : MeterTables) (event : UsageEvent) : list (PriceVersion * PriceRate) :=
  let identity := ue_Identity event in
  match mt_requests tables !! ui_RequestID identity, mt_attempts tables !! ui_AttemptID identity, mt_region tables (ui_DeploymentID identity) with
  | Some request, Some attempt, Some region =>
      if bool_decide (gr_TenantID request = ui_TenantID identity) && bool_decide (ra_RequestID attempt = ui_RequestID identity) &&
         bool_decide (ra_DeploymentID attempt = ui_DeploymentID identity)
      then omap (fun price =>
        if bool_decide (pv_DeploymentID price = ui_DeploymentID identity) && bool_decide (pv_Region price = region) &&
           bool_decide (pv_Status price = PriceStatusPublished) && (pv_EffectiveAt price <=? ui_ObservedAt identity)
        then pair price <$> find (fun rate => bool_decide (rate_TokenType rate = ue_TokenType event) &&
               bool_decide (rate_BillingUnit rate = ue_BillingUnit event)) (pv_Rates price)
        else None) (mt_prices tables)
      else []
  | _, _, _ => []
  end.

(** ORDER BY price.effective_at DESC, price.id DESC LIMIT 1 *)
Definition newer (a b : PriceVersion * PriceRate) : bool :=
  (pv_EffectiveAt b.1 <? pv_EffectiveAt a.1) || ((pv_EffectiveAt b.1 =? pv_EffectiveAt a.1) && String.ltb (pv_ID b.1) (pv_ID a.1)).
Definition latest (prices : list (PriceVersion * PriceRate)) : option (PriceVersion * PriceRate) :=
  foldr (fun p best => match best with Some b => if newer b p then Some b else Some p | None => Some p end) None prices.

Definition selectEffectiveRate (tables : MeterTables) (event : UsageEvent) : result (string * PriceRate) consumer_error :=
  match latest (effective_prices tables event) with
  | None => Err ErrPriceUnavailable
  | Some (price, rate) =>
      let rate := {| rate_TokenType := ue_TokenType event; rate_BillingUnit := rate_BillingUnit rate; UnitQuantity := UnitQuantity rate;
                     UnitPriceMicros := UnitPriceMicros rate |} in
      if PriceRate_Validate rate then Ok (pv_ID price, rate) else Err ErrPriceUnavailable
  end.

Definition priced_row (event : UsageEvent) (consumedAt : Time) (priceVersionID : string) (amountMicros : Z) : LedgerRow :=
  {| lr_eventID := ue_EventID event; lr_tenantID := ui_TenantID (ue_Identity event); lr_requestID := ui_RequestID (ue_Identity event);
     lr_attemptID := ui_AttemptID (ue_Identity event); lr_tokenType := ue_TokenType event; lr_quantity := ue_Quantity event;
     lr_source := ue_Source event; lr_observedAt := ui_ObservedAt (ue_Identity event); lr_createdAt := consumedAt; lr_createdBy := ledgerWriter;
     lr_priceVersionID := priceVersionID; lr_amountMicros := amountMicros; lr_schemaVersion := Some (ue_SchemaVersion event);
     lr_estimate := ue_Estimate event; lr_adjustment := None |}.

Section Consumer.
Context (decode : string -> option UsageEvent) (marshal : UsageEvent -> option string) (sha256 : string -> string).

(** A missing billing unit, the empty string, means token. *)
Definition default_unit (event : UsageEvent) : UsageEvent :=
  if bool_decide (ue_BillingUnit event = BillingUnitOther "")
  then {| ue_EventID := ue_EventID event; ue_SchemaVersion := ue_SchemaVersion event; ue_Kind := ue_Kind event; ue_Identity := ue_Identity event;
          ue_TokenType := ue_TokenType event; ue_BillingUnit := BillingUnitToken; ue_Quantity := ue_Quantity event; ue_Source := ue_Source event;
          ue_UsageComplete := ue_UsageComplete event; ue_Estimate := ue_Estimate event |}
  else event.

Definition canonicalUsageEvent (key payload : string) : result (UsageEvent * string) consumer_error :=
  if bool_decide (key = ""%string) || bool_decide (payload = ""%string) || (maximumUsageEventBytes <? Z.of_nat (String.length payload))
  then Err ErrInvalidEvent
  else match decode payload with
  | None => Err ErrInvalidEvent
  | Some decoded =>
      let event := default_unit decoded in
      if negb (bool_decide (ue_EventID event = key)) || negb (UsageEvent_Validate event) then Err ErrInvalidEvent
      else match marshal event with
      | None => Err ErrInvalidEvent
      | Some canonical => Ok (event, sha256 canonical)
      end
  end.

Definition Process (processor : Processor) (faults : Faults) (tables : MeterTables) (db : MeterDB) (now : Time) (key payload : string)
    : MeterDB * result ConsumerResult consumer_error :=
  match canonicalUsageEvent key payload with
  | Err e => (db, Err e)
  | Ok (event, fingerprint) =>
      if time_is_zero now then (db, Err ErrConsumerUnavailable)
      else in_transaction faults ErrConsumerUnavailable db
        (let? '(db1, inserted) := statement faults 0 mapConsumerDatabaseError (insertReceipt db event fingerprint (pr_consumerGroup processor) now) in
         let? read := statement faults 1 (fun _ => ErrConsumerUnavailable) (Ok db1) in
         if negb inserted then
           let? replay := loadReplay read (ue_EventID event) fingerprint in
           Ok (db1, replay)
         else
           let? '(priceVersionID, rate) := selectEffectiveRate tables event in
           match CalculateAmountMicros (ue_Quantity event) rate with
           | Err _ => Err ErrPriceUnavailable
           | Ok amountMicros =>
               let? ledger := statement faults 2 mapConsumerDatabaseError
                 (insert_usage_entry tables (md_ledger db1) (priced_row event now priceVersionID amountMicros)) in
               Ok ({| md_receipts := md_receipts db1; md_ledger := ledger |},
                   {| cr_EventID := ue_EventID event; cr_PriceVersionID := priceVersionID; cr_AmountMicros := amountMicros;
                      cr_Inserted := true; cr_Replayed := false |})
           end)
  end.

(** ** Kafka sessions (kafka.go) *)
Inductive session_error := ErrKafkaConsumerUnavailable | ErrKafkaRecordFailed.
Definition UsageEventTopic : string := "ai-gateway.usage.v1".
Record KafkaRecord := { kr_position : nat; kr_topic : string; kr_key : string; kr_value : string }.

(** What one record meets; [ke_commit] is the failure of CommitRecords, with the offset
    committed or not. *)
Record RecordEnv := { ke_faults : Faults; ke_tables : MeterTables; ke_now : Time; ke_commit : option bool }.

(** The loop over the records of one fetch; the second component is the set of
    positions committed. *)
Fixpoint handle_records (processor : Processor) (env : nat -> RecordEnv) (records : list KafkaRecord) (db : MeterDB) (committed : gset nat)
    : MeterDB * gset nat * option session_error :=
  match records with
  | [] => (db, committed, None)
  | record :: rest =>
      if negb (bool_decide (kr_topic record = UsageEventTopic)) then (db, committed, Some ErrKafkaRecordFailed)
      else
        let e := env (kr_position record) in
        match Process processor (ke_faults e) (ke_tables e) db (ke_now e) (kr_key record) (kr_value record) with
        | (db', Err _) => (db', committed, Some ErrKafkaRecordFailed)
        | (db', Ok _) =>
            match ke_commit e with
            | Some applied => (db', if applied then {[kr_position record]} ∪ committed else committed, Some ErrKafkaConsumerUnavailable)
            | None => handle_records processor env rest db' ({[kr_position record]} ∪ committed)
            end
        end
  end.

Inductive fetch := FetchCancelled | FetchErrors | FetchRecords (records : list KafkaRecord).

(** [kafkaSession.Run] polls until its context ends or something fails. *)
Fixpoint Session_Run (processor : Processor) (env : nat -> RecordEnv) (fetches : list fetch) (db : MeterDB) (committed : gset nat)
    : MeterDB * gset nat * option session_error :=
  match fetches with
  | [] | FetchCancelled :: _ => (db, committed, None)
  | FetchErrors :: _ => (db, committed, Some ErrKafkaConsumerUnavailable)
  | FetchRecords records :: rest =>
      match handle_records processor env records db committed with
      | (db', committed', Some e) => (db', committed', Some e)
      | (db', committed', None) => Session_Run processor env rest db' committed'
      end
  end.
End Consumer.

(** ** Corrections of the usage ledger (src/internal/meteringadjustment)

    A correction is an appended row with signed deltas; the writer derives them from the
    absolute result that is asked for and the chain of earlier corrections. Reads of a
    transaction see the snapshots [seen1] (before the target row is locked) and [seen2]
    (after), the insertion the ledger itself; what other transactions may append in
    between is stated by [snapshots]. *)
(** ** Commands (model.go) *)
Inductive adjustment_error := ErrAdjustInvalid | ErrAdjustNotFound | ErrInvalidTarget | ErrNoChange | ErrAdjustConflict | ErrAdjustUnavailable.

#[export] Instance Origin_eq_dec : EqDecision Origin.
Proof. solve_decision. Defined.
#[export] Instance AdjustmentColumns_eq_dec : EqDecision AdjustmentColumns.
Proof. solve_decision. Defined.

Record Command := {
  cmd_Scope : Scope; cmd_EventID : string; cmd_IdempotencyKey : string; cmd_TargetEventID : string; cmd_CorrectedQuantity : Z;
  cmd_CorrectedAmountMicros : Z; cmd_Origin : Origin; cmd_Reason : string; cmd_Reference : string; cmd_Actor : string }.

Definition Command_Validate (command : Command) : bool :=
  Scope_Validate (cmd_Scope command) && uuidPattern (cmd_EventID command) && uuidPattern (cmd_TargetEventID command) &&
  negb (bool_decide (cmd_EventID command = cmd_TargetEventID command)) && idempotencyPattern (cmd_IdempotencyKey command) &&
  Origin_Valid (cmd_Origin command) && reasonPattern (cmd_Reason command) && auditPattern (cmd_Reference command) &&
  auditPattern (cmd_Actor command) && (0 <=? cmd_CorrectedQuantity command) && (cmd_CorrectedQuantity command <=? MaximumExactInteger) &&
  (0 <=? cmd_CorrectedAmountMicros command) && (cmd_CorrectedAmountMicros command <=? MaximumExactInteger).

Record AdjustmentResult := {
  ar_EventID : string; ar_TargetEventID : string; ar_TenantID : string; ar_RequestID : string; ar_AttemptID : string; ar_TokenType : TokenType;
  ar_PriceVersionID : string; ar_Currency : string; ar_QuantityDelta : Z; ar_AmountMicrosDelta : Z; ar_CorrectedQuantity : Z;
  ar_CorrectedAmountMicros : Z; ar_Origin : Origin; ar_Reason : string; ar_Reference : string; ar_Actor : string; ar_CreatedAt : Time;
  ar_Inserted : bool; ar_Replayed : bool }.

(** ** The writer (postgres.go) *)
Record targetFact := {
  tf_tenantID : string; tf_requestID : string; tf_attemptID : string; tf_tokenType : TokenType; tf_priceVersionID : string; tf_currency : string;
  tf_source : Source; tf_quantity : Z; tf_amountMicros : Z }.

(** A row of the ledger within a scope, joined with its request and its price. *)
Definition scoped_row (tables : MeterTables) (scope : Scope) (row : LedgerRow) : option string :=
  match mt_requests tables !! lr_requestID row, find_price tables (lr_priceVersionID row) with
  | Some request, Some price =>
      if bool_decide (lr_tenantID row = scope_TenantID scope) && bool_decide (gr_TenantID request = lr_tenantID row) &&
         bool_decide (gr_ProjectID request = scope_ProjectID scope)
      then Some (pv_Currency price) else None
  | _, _ => None
  end.

Definition lockTarget (tables : MeterTables) (ledger : Ledger) (command : Command) : result targetFact adjustment_error :=
  match find_entry (cmd_TargetEventID command) ledger with
  | None => Err ErrAdjustNotFound
  | Some row =>
      match scoped_row tables (cmd_Scope command) row with
      | None => Err ErrAdjustNotFound
      | Some currency =>
          if is_adjustment row || negb (TokenType_Valid (lr_tokenType row)) || (lr_quantity row <? 1) || (MaximumExactInteger <? lr_quantity row) ||
             (lr_amountMicros row <? 0) || (MaximumExactInteger <? lr_amountMicros row)
          then Err ErrInvalidTarget
          else Ok {| tf_tenantID := lr_tenantID row; tf_requestID := lr_requestID row; tf_attemptID := lr_attemptID row;
            tf_tokenType := lr_tokenType row; tf_priceVersionID := lr_priceVersionID row; tf_currency := currency; tf_source := lr_source row;
            tf_quantity := lr_quantity row; tf_amountMicros := lr_amountMicros row |}
      end
  end.

(** [exactNonnegative] on the decimal text of a number. *)
Definition exactNonnegative (value : Z) : option Z := if (value <? 0) || (MaximumExactInteger <? value) then None else Some value.

Definition loadCurrentResult (ledger : Ledger) (targetEventID : string) (target : targetFact) : result (Z * Z) adjustment_error :=
  match exactNonnegative (tf_quantity target + sum_by lr_quantity (adjusting targetEventID ledger)),
        exactNonnegative (tf_amountMicros target + sum_by lr_amountMicros (adjusting targetEventID ledger)) with
  | Some quantity, Some amount => Ok (quantity, amount)
  | _, _ => Err ErrInvalidTarget
  end.

(** The first row in the scope with the key of the command. *)
Definition existing_row (tables : MeterTables) (ledger : Ledger) (command : Command) : option (LedgerRow * AdjustmentColumns * string) :=
  head (omap (fun row =>
    match lr_adjustment row, scoped_row tables (cmd_Scope command) row with
    | Some a, Some currency => if bool_decide (aj_key a = cmd_IdempotencyKey command) then Some (row, a, currency) else None
    | _, _ => None
    end) ledger).

Definition loadExisting (tables : MeterTables) (ledger : Ledger) (command : Command) : result (option AdjustmentResult) adjustment_error :=
  match existing_row tables ledger command with
  | None => Ok None
  | Some (row, a, currency) =>
      if negb (bool_decide (lr_eventID row = cmd_EventID command)) || negb (bool_decide (aj_target a = cmd_TargetEventID command)) ||
         negb (bool_decide (aj_key a = cmd_IdempotencyKey command)) || negb (aj_resultQuantity a =? cmd_CorrectedQuantity command) ||
         negb (aj_resultAmount a =? cmd_CorrectedAmountMicros command) || negb (bool_decide (aj_origin a = cmd_Origin command)) ||
         negb (bool_decide (aj_reason a = cmd_Reason command)) || negb (bool_decide (aj_reference a = cmd_Reference command)) ||
         negb (bool_decide (aj_actor a = cmd_Actor command))
      then Err ErrAdjustConflict
      else Ok (Some {| ar_EventID := lr_eventID row; ar_TargetEventID := aj_target a; ar_TenantID := lr_tenantID row;
        ar_RequestID := lr_requestID row; ar_AttemptID := lr_attemptID row; ar_TokenType := lr_tokenType row;
        ar_PriceVersionID := lr_priceVersionID row; ar_Currency := currency; ar_QuantityDelta := lr_quantity row;
        ar_AmountMicrosDelta := lr_amountMicros row; ar_CorrectedQuantity := aj_resultQuantity a; ar_CorrectedAmountMicros := aj_resultAmount a;
        ar_Origin := aj_origin a; ar_Reason := aj_reason a; ar_Reference := aj_reference a; ar_Actor := aj_actor a;
        ar_CreatedAt := lr_createdAt row; ar_Inserted := false; ar_Replayed := true |})
  end.

Definition resultFrom (command : Command) (target : targetFact) (quantityDelta amountDelta : Z) (createdAt : Time) (inserted replayed : bool) : AdjustmentResult :=
  {| ar_EventID := cmd_EventID command; ar_TargetEventID := cmd_TargetEventID command; ar_TenantID := tf_tenantID target;
     ar_RequestID := tf_requestID target; ar_AttemptID := tf_attemptID target; ar_TokenType := tf_tokenType target;
     ar_PriceVersionID := tf_priceVersionID target; ar_Currency := tf_currency target; ar_QuantityDelta := quantityDelta;
     ar_AmountMicrosDelta := amountDelta; ar_CorrectedQuantity := cmd_CorrectedQuantity command;
     ar_CorrectedAmountMicros := cmd_CorrectedAmountMicros command; ar_Origin := cmd_Origin command; ar_Reason := cmd_Reason command;
     ar_Reference := cmd_Reference command; ar_Actor := cmd_Actor command; ar_CreatedAt := createdAt; ar_Inserted := inserted; ar_Replayed := replayed |}.

Definition mapAdjustmentError (failure : db_failure) : adjustment_error :=
  match failure with
  | PqError code _ =>
      if bool_decide (code = "23505"%string) then ErrAdjustConflict
      else if bool_decide (code ∈ ["23503"; "23514"]%string) then ErrInvalidTarget
      else ErrAdjustUnavailable
  | DriverError => ErrAdjustUnavailable
  end.

Definition adjustment_row (command : Command) (target : targetFact) (quantityDelta amountDelta : Z) (createdAt : Time) : LedgerRow :=
  {| lr_eventID := cmd_EventID command; lr_tenantID := tf_tenantID target; lr_requestID := tf_requestID target; lr_attemptID := tf_attemptID target;
     lr_tokenType := tf_tokenType target; lr_quantity := quantityDelta; lr_source := SourceAdjustment; lr_observedAt := createdAt;
     lr_createdAt := createdAt; lr_createdBy := cmd_Actor command; lr_priceVersionID := tf_priceVersionID target; lr_amountMicros := amountDelta;
     lr_schemaVersion := None; lr_estimate := None;
     lr_adjustment := Some {| aj_target := cmd_TargetEventID command; aj_key := cmd_IdempotencyKey command; aj_origin := cmd_Origin command;
       aj_reason := cmd_Reason command; aj_reference := cmd_Reference command; aj_actor := cmd_Actor command;
       aj_resultQuantity := cmd_CorrectedQuantity command; aj_resultAmount := cmd_CorrectedAmountMicros command |} |}.

(** A query of the transaction, which may fail in the driver. *)
Definition query {A : Type} (faults : Faults) (n : nat) (r : result A adjustment_error) : result A adjustment_error :=
  let? _ := statement faults n (fun _ => ErrAdjustUnavailable) (Ok tt) in r.

Definition Apply (faults : Faults) (tables : MeterTables) (seen1 seen2 : Ledger) (db : MeterDB) (now : Time) (command : Command)
    : MeterDB * result AdjustmentResult adjustment_error :=
  if negb (Command_Validate command) then (db, Err ErrAdjustInvalid)
  else if time_is_zero now then (db, Err ErrAdjustUnavailable)
  else in_transaction faults ErrAdjustUnavailable db
    (let? existing := query faults 0 (loadExisting tables seen1 command) in
     match existing with
     | Some found => Ok (db, found)
     | None =>
         let? target := query faults 1 (lockTarget tables seen2 command) in
         let? existing := query faults 2 (loadExisting tables seen2 command) in
         match existing with
         | Some found => Ok (db, found)
         | None =>
             let? '(currentQuantity, currentAmount) := query faults 3 (loadCurrentResult seen2 (cmd_TargetEventID command) target) in
             if (currentQuantity =? cmd_CorrectedQuantity command) && (currentAmount =? cmd_CorrectedAmountMicros command) then Err ErrNoChange
             else
               let quantityDelta := cmd_CorrectedQuantity command - currentQuantity in
               let amountDelta := cmd_CorrectedAmountMicros command - currentAmount in
               let? ledger := statement faults 4 mapAdjustmentError
                 (insert_usage_entry tables (md_ledger db) (adjustment_row command target quantityDelta amountDelta now)) in
               Ok ({| md_receipts := md_receipts db; md_ledger := ledger |},
                   resultFrom command target quantityDelta amountDelta now true false)
         end
     end).

(** The ledger is append-only, so a snapshot is a prefix of it; the lock on the target
    keeps other corrections of it out after the second one. *)
Definition snapshots (seen1 seen2 ledger : Ledger) (command : Command) : Prop :=
  seen1 `prefix_of` seen2 /\ exists appended, ledger = seen2 ++ appended /\ adjusting (cmd_TargetEventID command) appended = [].
