(* ===== verification/MeteringLedgerTheorems.v ===== *)
(** * What the usage ledger guarantees

    Histories of the ledger under any interleaving of consumers and corrections, with
    injected faults and replays: one priced entry per event, correction chains that add
    up, and answers that the tables back. *)
From Stdlib Require Import ZArith Lia Bool Ascii String.
From stdpp Require Import base tactics option list strings gmap fin_maps sets.
From S2P Require Import Prelude Postgres Identifiers Unicode Catalog Retry Metering Execution MeteringCost MeteringOutbox MeteringOutboxTheorems MeteringLedger.
(** ** The ledger as a sequence of accepted insertions *)
Inductive ledger_history : Ledger -> Prop :=
| history_nil : ledger_history []
| history_snoc tables ledger row : ledger_history ledger -> insert_usage_entry tables ledger row = Ok (ledger ++ [row]) -> ledger_history (ledger ++ [row]).

Lemma insert_usage_entry_ok tables ledger row ledger' : insert_usage_entry tables ledger row = Ok ledger' ->
  ledger' = ledger ++ [row] /\ enforce_usage_ledger_adjustment_integrity ledger row = true /\ enforce_usage_ledger_price_lock tables row = true /\
  usage_ledger_checks row = true /\ find_entry (lr_eventID row) ledger = None /\ existsb (same_key row) ledger = false /\ ledger_references tables row = true.
Proof.
  unfold insert_usage_entry. destruct (_ || _) eqn:E1; [done|]. destruct (_ || existsb _ _) eqn:E2; [done|]. destruct (ledger_references _ _) eqn:E3; [|done].
  intros [= <-]. prop_hyps. destruct (find_entry _ _); [done|]. split_and!; done.
Qed.

Lemma find_entry_Some id ledger row : find_entry id ledger = Some row -> row ∈ ledger /\ lr_eventID row = id.
Proof. unfold find_entry. intros [Hin Hid]%find_some. apply bool_decide_eq_true in Hid. by rewrite list_elem_of_In. Qed.

Lemma find_entry_None id ledger : find_entry id ledger = None <-> id ∉ lr_eventID <$> ledger.
Proof.
  split.
  - intros Hn (row & -> & Hin)%list_elem_of_fmap. unfold find_entry in Hn. rewrite list_elem_of_In in Hin. pose proof (find_none _ _ Hn _ Hin) as Hb. simpl in Hb. by apply bool_decide_eq_false in Hb.
  - intros Hn. destruct (find_entry id ledger) as [row|] eqn:E; [|done]. apply find_entry_Some in E as [Hin <-]. destruct Hn. apply list_elem_of_fmap. eauto.
Qed.

Lemma find_entry_app id l1 l2 : find_entry id (l1 ++ l2) = match find_entry id l1 with Some row => Some row | None => find_entry id l2 end.
Proof. unfold find_entry. induction l1 as [|row l1 IH]; simpl; [done|]. by destruct (bool_decide _). Qed.

Lemma find_entry_elem ledger row : NoDup (lr_eventID <$> ledger) -> row ∈ ledger -> find_entry (lr_eventID row) ledger = Some row.
Proof.
  intros Hnd Hin. destruct (find_entry (lr_eventID row) ledger) as [r|] eqn:E.
  - apply find_entry_Some in E as [Hr Hid]. apply list_elem_of_lookup in Hin as [i Hi]. apply list_elem_of_lookup in Hr as [j Hj].
    assert (i = j) as ->; [|congruence]. eapply NoDup_lookup; [exact Hnd|rewrite list_lookup_fmap, Hi; reflexivity|]. by rewrite list_lookup_fmap, Hj; simpl; rewrite Hid.
  - apply find_entry_None in E. destruct E. apply list_elem_of_fmap. eauto.
Qed.

Lemma history_nodup ledger : ledger_history ledger -> NoDup (lr_eventID <$> ledger).
Proof.
  induction 1 as [|tables ledger row _ IH Hins]; [constructor|]. apply insert_usage_entry_ok in Hins as (_ & _ & _ & _ & Hn & _).
  rewrite fmap_app. simpl. apply NoDup_app. split_and!; [done| |apply NoDup_singleton]. apply find_entry_None in Hn. intros id Hid ->%list_elem_of_singleton. done.
Qed.

Lemma adjusting_app target l1 l2 : adjusting target (l1 ++ l2) = adjusting target l1 ++ adjusting target l2.
Proof. apply filter_app. Qed.

(** Corrections come after the entry they correct. *)
Lemma adjusting_known ledger target : ledger_history ledger -> find_entry target ledger = None -> adjusting target ledger = [].
Proof.
  induction 1 as [|tables ledger row _ IH Hins]; [done|]. rewrite find_entry_app, adjusting_app. destruct (find_entry target ledger) as [r|] eqn:E; [done|].
  intros _. rewrite IH by done. simpl. unfold adjusting. rewrite filter_cons, filter_nil. case_decide as Ht; [|done]. exfalso.
  apply insert_usage_entry_ok in Hins as (_ & Hi & _ & Hc & _). unfold target_of in Ht. destruct (lr_adjustment row) as [a|] eqn:Ha; [|done]. injection Ht as Ht.
  unfold enforce_usage_ledger_adjustment_integrity in Hi. rewrite Ha, Ht, E in Hi. unfold usage_ledger_checks, adjustment_metadata_valid in Hc. rewrite Ha in Hc.
  destruct (is_adjustment row); [done|]. prop_hyps. done.
Qed.

Definition effective_quantity (id : string) (ledger : Ledger) : Z :=
  sum_by lr_quantity (match find_entry id ledger with Some row => [row] | None => [] end) + sum_by lr_quantity (adjusting id ledger).
Definition effective_amount (id : string) (ledger : Ledger) : Z :=
  sum_by lr_amountMicros (match find_entry id ledger with Some row => [row] | None => [] end) + sum_by lr_amountMicros (adjusting id ledger).

(** The result an entry is left with: that of its last correction. *)
Definition recorded_result (ledger : Ledger) (row : LedgerRow) : Z * Z :=
  match last (omap lr_adjustment (adjusting (lr_eventID row) ledger)) with
  | Some a => (aj_resultQuantity a, aj_resultAmount a)
  | None => (lr_quantity row, lr_amountMicros row)
  end.

Lemma accepted_original ledger row tables ledger' : insert_usage_entry tables ledger row = Ok ledger' -> is_adjustment row = false ->
  lr_adjustment row = None /\ 1 <= lr_quantity row <= MaximumExactInteger /\ 0 <= lr_amountMicros row <= MaximumExactInteger.
Proof.
  intros (_ & _ & _ & Hc & _)%insert_usage_entry_ok Ha. unfold usage_ledger_checks, adjustment_metadata_valid, exact in Hc. rewrite Ha in Hc. simpl in Hc.
  destruct (lr_adjustment row); prop_hyps; [done|]. done.
Qed.

Lemma accepted_correction ledger row tables ledger' : insert_usage_entry tables ledger row = Ok ledger' -> is_adjustment row = true ->
  exists a target, lr_adjustment row = Some a /\ find_entry (aj_target a) ledger = Some target /\ is_adjustment target = false /\
    lr_priceVersionID row = lr_priceVersionID target /\ lr_requestID row = lr_requestID target /\ lr_tenantID row = lr_tenantID target /\
    lr_attemptID row = lr_attemptID target /\ lr_tokenType row = lr_tokenType target /\
    effective_quantity (aj_target a) ledger + lr_quantity row = aj_resultQuantity a /\
    effective_amount (aj_target a) ledger + lr_amountMicros row = aj_resultAmount a /\
    0 <= aj_resultQuantity a <= MaximumExactInteger /\ 0 <= aj_resultAmount a <= MaximumExactInteger.
Proof.
  intros (_ & Hi & _ & Hc & _)%insert_usage_entry_ok Ha. unfold usage_ledger_checks, adjustment_metadata_valid, exact in Hc.
  unfold enforce_usage_ledger_adjustment_integrity in Hi. rewrite Ha in *. simpl in *. destruct (lr_adjustment row) as [a|]; [|done].
  destruct (find_entry (aj_target a) ledger) as [target|] eqn:E; [|done]. prop_hyps. exists a, target.
  unfold effective_quantity, effective_amount. rewrite E. simpl. split_and!; try done; lia.
Qed.

Lemma adjusting_snoc target ledger row : adjusting target (ledger ++ [row]) =
  adjusting target ledger ++ (if bool_decide (target_of row = Some target) then [row] else []).
Proof. rewrite adjusting_app. f_equal. unfold adjusting. rewrite filter_cons, filter_nil. case_decide; [by rewrite bool_decide_eq_true_2|by rewrite bool_decide_eq_false_2]. Qed.

(** A correction chain adds up to the result of its last correction. *)
Lemma correction_chain ledger : ledger_history ledger -> forall id row, find_entry id ledger = Some row -> is_adjustment row = false ->
  (effective_quantity id ledger, effective_amount id ledger) = recorded_result ledger row /\
  0 <= effective_quantity id ledger <= MaximumExactInteger /\ 0 <= effective_amount id ledger <= MaximumExactInteger.
Proof.
  induction 1 as [|tables ledger new Hh IH Hins]; [done|]. intros id row Hfind Hrow. unfold effective_quantity, effective_amount. rewrite Hfind, find_entry_app in *.
  rewrite adjusting_snoc, !sum_by_app. destruct (find_entry id ledger) as [old|] eqn:Eold.
  - simplify_eq. destruct (IH id row Eold Hrow) as (Hr & Hq & Ha). unfold effective_quantity, effective_amount in Hr, Hq, Ha. rewrite Eold in Hr, Hq, Ha.
    apply find_entry_Some in Eold as Hid. destruct Hid as [_ Hid]. unfold recorded_result in *. rewrite Hid in *. rewrite adjusting_snoc, omap_app.
    destruct (bool_decide (target_of new = Some id)) eqn:Et; [|simpl in *; rewrite app_nil_r, <- Hr; split_and!; [f_equal; lia|lia..]]. apply bool_decide_eq_true in Et.
    unfold target_of in Et. destruct (lr_adjustment new) as [b|] eqn:Eb; [|done]. injection Et as Et.
    destruct (is_adjustment new) eqn:En; [|by destruct (accepted_original _ _ _ _ Hins En) as [? _]; congruence].
    destruct (accepted_correction _ _ _ _ Hins En) as (a & target & Ea & Et' & _ & _ & _ & _ & _ & _ & Sq & Sa & Bq & Ba). simplify_eq.
    rewrite Et in Et', Sq, Sa. unfold effective_quantity, effective_amount in Sq, Sa. rewrite Et' in *. simplify_eq/=. rewrite Eb. simpl. rewrite last_snoc. split_and!; [f_equal; lia|lia..].
  - unfold find_entry in Hfind. simpl in Hfind. destruct (bool_decide (lr_eventID new = id)) eqn:Eid; [|done]. apply bool_decide_eq_true in Eid. simplify_eq.
    destruct (accepted_original _ _ _ _ Hins Hrow) as (Hn & Hq & Ha). unfold recorded_result. rewrite adjusting_snoc, adjusting_known by done.
    unfold target_of. rewrite Hn. simpl. split_and!; [f_equal; lia|lia..].
Qed.

(** ** Interleavings of consumers and corrections *)
Section Histories.
Context (decode : string -> option UsageEvent) (marshal : UsageEvent -> option string) (sha256 : string -> string).

Inductive meter_step : MeterDB -> MeterDB -> Prop :=
| step_process processor faults tables db now key payload :
    meter_step db (Process decode marshal sha256 processor faults tables db now key payload).1
| step_apply faults tables seen1 seen2 db now command :
    snapshots seen1 seen2 (md_ledger db) command -> meter_step db (Apply faults tables seen1 seen2 db now command).1.

Definition meter_start : MeterDB := {| md_receipts := ∅; md_ledger := [] |}.
Definition meter_reachable (db : MeterDB) : Prop := rtc meter_step meter_start db.

(** A ledger row is the priced fact of [event]: it has the receipt of the canonical
    event, carries its facts, and costs what the rate effective at its observation says. *)
Definition prices (event : UsageEvent) (receipt : Receipt) (row : LedgerRow) : Prop :=
  exists tables canonical consumedAt priceVersionID rate amount,
    UsageEvent_Validate event = true /\ marshal event = Some canonical /\ rcp_fingerprint receipt = sha256 canonical /\
    selectEffectiveRate tables event = Ok (priceVersionID, rate) /\ CalculateAmountMicros (ue_Quantity event) rate = Ok amount /\
    row = priced_row event consumedAt priceVersionID amount.

Record meter_inv (db : MeterDB) : Prop := {
  mi_history : ledger_history (md_ledger db);
  mi_receipts : forall id receipt, md_receipts db !! id = Some receipt ->
    exists row event, find_entry id (md_ledger db) = Some row /\ is_adjustment row = false /\ prices event receipt row;
  mi_originals : forall row, row ∈ md_ledger db -> is_adjustment row = false -> is_Some (md_receipts db !! lr_eventID row) }.

(** What a call of [Process] does. *)
Inductive processed (db : MeterDB) (key payload : string) : MeterDB -> result ConsumerResult consumer_error -> Prop :=
| processed_refused e : processed db key payload db (Err e)
| processed_replayed event fingerprint receipt row r :
    canonicalUsageEvent decode marshal sha256 key payload = Ok (event, fingerprint) ->
    md_receipts db !! key = Some receipt -> rcp_fingerprint receipt = fingerprint -> find_entry key (md_ledger db) = Some row ->
    r = Ok {| cr_EventID := key; cr_PriceVersionID := lr_priceVersionID row; cr_AmountMicros := lr_amountMicros row; cr_Inserted := false; cr_Replayed := true |} \/
    r = Err ErrConsumerUnavailable -> processed db key payload db r
| processed_inserted event fingerprint receipt tables now priceVersionID rate amount ledger r :
    canonicalUsageEvent decode marshal sha256 key payload = Ok (event, fingerprint) ->
    md_receipts db !! key = None -> rcp_fingerprint receipt = fingerprint -> selectEffectiveRate tables event = Ok (priceVersionID, rate) ->
    CalculateAmountMicros (ue_Quantity event) rate = Ok amount ->
    insert_usage_entry tables (md_ledger db) (priced_row event now priceVersionID amount) = Ok ledger ->
    r = Ok {| cr_EventID := key; cr_PriceVersionID := priceVersionID; cr_AmountMicros := amount; cr_Inserted := true; cr_Replayed := false |} \/
    r = Err ErrConsumerUnavailable ->
    processed db key payload {| md_receipts := <[key := receipt]> (md_receipts db); md_ledger := ledger |} r.

Lemma canonical_ok key payload event fingerprint : canonicalUsageEvent decode marshal sha256 key payload = Ok (event, fingerprint) ->
  exists decoded canonical, decode payload = Some decoded /\ event = default_unit decoded /\ ue_EventID event = key /\ UsageEvent_Validate event = true /\
    marshal event = Some canonical /\ fingerprint = sha256 canonical.
Proof.
  unfold canonicalUsageEvent. destruct (_ || _); [done|]. destruct (decode payload) as [decoded|]; [|done]. destruct (_ || _) eqn:E; [done|].
  destruct (marshal _) as [canonical|] eqn:Em; [|done]. intros [= <- <-]. prop_hyps. eauto 10.
Qed.

Lemma Process_processed processor faults tables db now key payload :
  let '(db', r) := Process decode marshal sha256 processor faults tables db now key payload in processed db key payload db' r.
Proof.
  unfold Process. destruct (canonicalUsageEvent _ _ _ _ _) as [[event fingerprint]|] eqn:Ec; [|constructor].
  destruct (canonical_ok _ _ _ _ Ec) as (decoded & canonical & _ & _ & Hid & _).
  destruct (time_is_zero now); [constructor|]. match goal with |- context [in_transaction ?f ?u ?d ?body] => set (tx := body) end.
  pose proof (in_transaction_cases faults ErrConsumerUnavailable db tx) as Hcases. destruct (in_transaction _ _ _ _) as [db' r]. simpl in Hcases.
  destruct Hcases as [(db1 & a & Etx & -> & Hr)|(-> & e & ->)]; [|constructor]. unfold tx in Etx. clear tx.
  destruct (statement faults 0 _ _) as [[db0 inserted]|] eqn:E0; [|done]. simpl in Etx. apply statement_ok in E0. unfold insertReceipt in E0.
  destruct (_ || _); [done|]. destruct (statement faults 1 _ _) as [read|] eqn:E1; [|done]. simpl in Etx. apply statement_ok in E1. injection E1 as <-.
  rewrite Hid in E0. destruct (md_receipts db !! key) as [receipt|] eqn:Er; simplify_eq/=.
  - unfold loadReplay in Etx. rewrite Er in Etx. destruct (find_entry _ _) as [row|] eqn:Ef; [|done].
    destruct (bool_decide _) eqn:Eb; [|done]. apply bool_decide_eq_true in Eb. simplify_eq/=. by eapply processed_replayed.
  - destruct (selectEffectiveRate tables event) as [[priceVersionID rate]|] eqn:Es; [|done]. simpl in Etx.
    destruct (CalculateAmountMicros _ _) as [amount|] eqn:Ea; [|done]. destruct (statement faults 2 _ _) as [ledger|] eqn:E2; [|done].
    simplify_eq/=. apply statement_ok in E2. by eapply processed_inserted.
Qed.

(** The correction [command] as stored in [row]. *)
Definition stores (row : LedgerRow) (command : Command) : Prop :=
  lr_eventID row = cmd_EventID command /\ is_adjustment row = true /\ lr_tenantID row = scope_TenantID (cmd_Scope command) /\
  lr_adjustment row = Some {| aj_target := cmd_TargetEventID command; aj_key := cmd_IdempotencyKey command; aj_origin := cmd_Origin command;
    aj_reason := cmd_Reason command; aj_reference := cmd_Reference command; aj_actor := cmd_Actor command;
    aj_resultQuantity := cmd_CorrectedQuantity command; aj_resultAmount := cmd_CorrectedAmountMicros command |}.

(** The answer that [row] backs. *)
Definition result_of (row : LedgerRow) (command : Command) (currency : string) (inserted : bool) : AdjustmentResult :=
  {| ar_EventID := lr_eventID row; ar_TargetEventID := cmd_TargetEventID command; ar_TenantID := lr_tenantID row;
     ar_RequestID := lr_requestID row; ar_AttemptID := lr_attemptID row; ar_TokenType := lr_tokenType row;
     ar_PriceVersionID := lr_priceVersionID row; ar_Currency := currency; ar_QuantityDelta := lr_quantity row;
     ar_AmountMicrosDelta := lr_amountMicros row; ar_CorrectedQuantity := cmd_CorrectedQuantity command;
     ar_CorrectedAmountMicros := cmd_CorrectedAmountMicros command; ar_Origin := cmd_Origin command; ar_Reason := cmd_Reason command;
     ar_Reference := cmd_Reference command; ar_Actor := cmd_Actor command; ar_CreatedAt := lr_createdAt row; ar_Inserted := inserted;
     ar_Replayed := negb inserted |}.

Inductive applied (tables : MeterTables) (db : MeterDB) (command : Command) : MeterDB -> result AdjustmentResult adjustment_error -> Prop :=
| applied_refused e : applied tables db command db (Err e)
| applied_replayed row currency r :
    row ∈ md_ledger db -> lr_adjustment row <> None -> scoped_row tables (cmd_Scope command) row = Some currency ->
    (is_adjustment row = true -> stores row command) ->
    r = Ok (result_of row command currency false) \/ r = Err ErrAdjustUnavailable -> applied tables db command db r
| applied_inserted row currency ledger r :
    insert_usage_entry tables (md_ledger db) row = Ok ledger -> stores row command -> scoped_row tables (cmd_Scope command) row = Some currency ->
    r = Ok (result_of row command currency true) \/ r = Err ErrAdjustUnavailable ->
    applied tables db command {| md_receipts := md_receipts db; md_ledger := ledger |} r.

Lemma scoped_row_tenant tables scope row currency : scoped_row tables scope row = Some currency -> lr_tenantID row = scope_TenantID scope.
Proof. unfold scoped_row. destruct (mt_requests tables !! lr_requestID row), (find_price tables (lr_priceVersionID row)); try done. destruct (_ && _) eqn:E; [|done]. by prop_hyps. Qed.

Lemma loadExisting_found tables ledger command found : loadExisting tables ledger command = Ok (Some found) ->
  exists row currency, row ∈ ledger /\ lr_adjustment row <> None /\ scoped_row tables (cmd_Scope command) row = Some currency /\
    (is_adjustment row = true -> stores row command) /\ found = result_of row command currency false.
Proof.
  unfold loadExisting. destruct (existing_row tables ledger command) as [[[row a] currency]|] eqn:E; [|done].
  unfold existing_row in E. apply head_Some_elem_of in E. apply list_elem_of_omap in E as (row' & Hin & E).
  destruct (lr_adjustment row') as [a'|] eqn:Ea; [|done]. destruct (scoped_row tables (cmd_Scope command) row') as [cur|] eqn:Es; [|done].
  destruct (bool_decide (aj_key a' = _)) eqn:Ek; [|done]. simplify_eq. destruct (_ || _) eqn:Ec; [done|]. intros [= <-]. prop_hyps. exists row, currency.
  destruct a as [t k o re rf ac q am]; simpl in *. subst. unfold result_of. split_and!; [done|congruence|done| |by f_equal].
  intros Hadj. split_and!; try done. by apply scoped_row_tenant in Es.
Qed.

Lemma query_ok {A} faults n (r : result A adjustment_error) a : query faults n r = Ok a -> r = Ok a.
Proof. unfold query, statement. by destruct (fl_statement faults n). Qed.

Lemma Apply_applied faults tables seen1 seen2 db now command : snapshots seen1 seen2 (md_ledger db) command ->
  let '(db', r) := Apply faults tables seen1 seen2 db now command in applied tables db command db' r.
Proof.
  intros (Hpre & appended & Hl & Hno). unfold Apply. destruct (Command_Validate command) eqn:Ev; [|constructor]. simpl.
  destruct (time_is_zero now); [constructor|]. match goal with |- context [in_transaction ?f ?u ?d ?body] => set (tx := body) end.
  pose proof (in_transaction_cases faults ErrAdjustUnavailable db tx) as Hcases. destruct (in_transaction _ _ _ _) as [db' r]. simpl in Hcases.
  destruct Hcases as [(db1 & a & Etx & -> & Hr)|(-> & e & ->)]; [|constructor]. unfold tx in Etx. clear tx.
  destruct (query faults 0 _) as [[found|]|] eqn:E0; [| |done]; simpl in Etx; apply query_ok in E0.
  { simplify_eq. apply loadExisting_found in E0 as (row & cur & Hin & Hn & Hs & Hst & ->). eapply applied_replayed; [|done..].
    destruct Hpre as [k1 ->]. rewrite Hl, !elem_of_app. auto. }
  destruct (query faults 1 _) as [target|] eqn:E1; [|done]. simpl in Etx. apply query_ok in E1.
  destruct (query faults 2 _) as [[found|]|] eqn:E2; [| |done]; simpl in Etx; apply query_ok in E2.
  { simplify_eq. apply loadExisting_found in E2 as (row & cur & Hin & Hn & Hs & Hst & ->). eapply applied_replayed; [|done..].
    rewrite Hl, elem_of_app. auto. }
  destruct (query faults 3 _) as [[cq ca]|] eqn:E3; [|done]. simpl in Etx. destruct (_ && _); [done|].
  destruct (statement faults 4 _ _) as [ledger|] eqn:E4; [|done]. simplify_eq/=. apply statement_ok in E4.
  unfold lockTarget in E1. destruct (find_entry _ seen2) as [trow|]; [|done]. destruct (scoped_row tables (cmd_Scope command) trow) as [cur|] eqn:Es; [|done].
  destruct (_ || _); [done|]. simplify_eq. pose proof (scoped_row_tenant _ _ _ _ Es) as Ht.
  eapply (applied_inserted _ _ _ _ cur); [exact E4|split_and!; try done| |].
  - unfold scoped_row in *. simpl. done.
  - destruct Hr as [->|?]; [left|by right]. done.
Qed.

Lemma inv_append db row ledger receipts : meter_inv db -> ledger_history ledger -> ledger = md_ledger db ++ [row] ->
  (forall id receipt, receipts !! id = Some receipt -> md_receipts db !! id = Some receipt \/
    (id = lr_eventID row /\ is_adjustment row = false /\ exists event, prices event receipt row)) ->
  (forall id, is_Some (md_receipts db !! id) -> is_Some (receipts !! id)) -> (is_adjustment row = false -> is_Some (receipts !! lr_eventID row)) ->
  meter_inv {| md_receipts := receipts; md_ledger := ledger |}.
Proof.
  intros [Hh Hr Ho] Hh' -> Hrec Hkeep Hnew. split; simpl; [done| |].
  - intros id receipt Hid. destruct (Hrec _ _ Hid) as [Hold|(-> & Ha & event & Hp)].
    + destruct (Hr _ _ Hold) as (r & event & Hf & ?). exists r, event. rewrite find_entry_app, Hf. done.
    + exists row, event. split; [|done]. apply find_entry_elem; [by apply history_nodup|]. apply elem_of_app. right. by apply list_elem_of_singleton.
  - intros r [Hin|Hin%list_elem_of_singleton]%elem_of_app Ha; [by apply Hkeep, Ho|]. subst. by apply Hnew.
Qed.

Lemma meter_step_inv db db' : meter_step db db' -> meter_inv db -> meter_inv db'.
Proof.
  destruct 1 as [processor faults tables db now key payload|faults tables seen1 seen2 db now command Hsnap]; intros Hinv.
  - pose proof (Process_processed processor faults tables db now key payload) as Hp. destruct (Process _ _ _ _ _ _ _ _ _ _) as [db' r]. simpl.
    destruct Hp as [e|event fp receipt row r Hc|event fp receipt tables' now' pv rate amount ledger r Hc Hn Hfp Hs Ha Hins Hr]; [done|done|].
    destruct (canonical_ok _ _ _ _ Hc) as (decoded & canonical & _ & _ & Hid & Hv & Hm & ->). pose proof (insert_usage_entry_ok _ _ _ _ Hins) as (-> & _).
    assert (Hnot : is_adjustment (priced_row event now' pv amount) = false).
    { unfold is_adjustment. simpl. apply bool_decide_eq_false. intros Heq. unfold UsageEvent_Validate in Hv. prop_hyps. rewrite Heq in *. done. }
    eapply (inv_append db); [done|eapply history_snoc; [apply Hinv|exact Hins]|reflexivity| | |].
    + intros id rc Hid'. destruct (decide (id = key)) as [->|Hne]; [|left; by rewrite lookup_insert_ne in Hid']. rewrite lookup_insert_eq in Hid'. simplify_eq.
      right. split_and!; [done|done|]. exists event, tables', canonical, now', pv, rate, amount. split_and!; done.
    + intros id [rc Hrc]. destruct (decide (id = key)) as [->|Hne]; [by rewrite lookup_insert_eq|]. rewrite lookup_insert_ne by done. eauto.
    + intros _. simpl. rewrite Hid, lookup_insert_eq. eauto.
  - pose proof (Apply_applied faults tables seen1 seen2 db now command Hsnap) as Hp. destruct (Apply _ _ _ _ _ _ _) as [db' r]. simpl.
    destruct Hp as [e|row cur r|row cur ledger r Hins (_ & Hadj & _) Hs Hr]; [done|done|]. pose proof (insert_usage_entry_ok _ _ _ _ Hins) as (-> & _).
    eapply (inv_append db); [done|eapply history_snoc; [apply Hinv|exact Hins]|reflexivity|auto|auto|congruence].
Qed.

Lemma meter_reachable_inv db : meter_reachable db -> meter_inv db.
Proof.
  intros H. assert (H0 : meter_inv meter_start). { split; simpl; [constructor|intros id r Hid; by rewrite lookup_empty in Hid|intros r Hr; by apply not_elem_of_nil in Hr]. }
  revert H0. unfold meter_reachable in H. induction H as [|s1 s2 s3 H12 _ IH]; [done|]. intros H1. by apply IH, (meter_step_inv s1).
Qed.

(** Both tables are append-only. *)
Lemma meter_step_grows db db' : meter_step db db' ->
  md_ledger db `prefix_of` md_ledger db' /\ forall id receipt, md_receipts db !! id = Some receipt -> md_receipts db' !! id = Some receipt.
Proof.
  destruct 1 as [processor faults tables db now key payload|faults tables seen1 seen2 db now command Hsnap].
  - pose proof (Process_processed processor faults tables db now key payload) as Hp. destruct (Process _ _ _ _ _ _ _ _ _ _) as [db' r]. simpl.
    destruct Hp as [e|event fp receipt row r Hc|event fp receipt tables' now' pv rate amount ledger r Hc Hn Hfp Hs Ha Hins Hr]; [done|done|].
    apply insert_usage_entry_ok in Hins as (-> & _). simpl. split; [by eexists|]. intros id rc Hrc. rewrite lookup_insert_ne; [done|congruence].
  - pose proof (Apply_applied faults tables seen1 seen2 db now command Hsnap) as Hp. destruct (Apply _ _ _ _ _ _ _) as [db' r]. simpl.
    destruct Hp as [e|row cur r|row cur ledger r Hins]; [done|done|]. apply insert_usage_entry_ok in Hins as (-> & _). split; [by eexists|done].
Qed.

Lemma meter_steps_grow db db' : rtc meter_step db db' ->
  md_ledger db `prefix_of` md_ledger db' /\ forall id receipt, md_receipts db !! id = Some receipt -> md_receipts db' !! id = Some receipt.
Proof.
  induction 1 as [|s1 s2 s3 H12 _ [IHl IHr]]; [done|]. apply meter_step_grows in H12 as [Hl Hr]. split; [by etrans|auto].
Qed.

Lemma find_entry_prefix id l1 l2 row : l1 `prefix_of` l2 -> find_entry id l1 = Some row -> find_entry id l2 = Some row.
Proof. intros [k ->] E. by rewrite find_entry_app, E. Qed.

(** Usage is priced exactly once. However consumers race, crash, replay and see
    faults, and corrections interleave: event identities are unique in the ledger; an
    entry that is not a correction has a receipt of its canonical event, carries the
    event's facts, and costs the exact rounded-up price at the rate effective when the
    usage was observed; every receipt has its entry; rows and receipts are never
    changed or removed. *)
Theorem usage_is_priced_exactly_once db db' : meter_reachable db -> rtc meter_step db db' ->
  NoDup (lr_eventID <$> md_ledger db) /\
  (forall row, row ∈ md_ledger db -> is_adjustment row = false ->
    exists receipt event, md_receipts db !! lr_eventID row = Some receipt /\ prices event receipt row) /\
  (forall id receipt, md_receipts db !! id = Some receipt ->
    exists row, row ∈ md_ledger db /\ lr_eventID row = id /\ is_adjustment row = false /\ md_receipts db' !! id = Some receipt) /\
  md_ledger db `prefix_of` md_ledger db'.
Proof.
  intros Hinv%meter_reachable_inv [Hl Hr]%meter_steps_grow. pose proof (history_nodup _ (mi_history _ Hinv)) as Hnd. split_and!; [done| | |done].
  - intros row Hin Ha. destruct (mi_originals _ Hinv _ Hin Ha) as [receipt Hrec]. destruct (mi_receipts _ Hinv _ _ Hrec) as (row' & event & Hf & _ & Hp).
    rewrite find_entry_elem in Hf by done. simplify_eq. eauto.
  - intros id receipt Hrec. destruct (mi_receipts _ Hinv _ _ Hrec) as (row & event & Hf & Ha & _). apply find_entry_Some in Hf as [Hin Hid]. eauto 6.
Qed.

Lemma history_corrections ledger row : ledger_history ledger -> row ∈ ledger -> is_adjustment row = true ->
  exists a target, lr_adjustment row = Some a /\ find_entry (aj_target a) ledger = Some target /\ is_adjustment target = false /\
    lr_priceVersionID row = lr_priceVersionID target /\ lr_requestID row = lr_requestID target /\ lr_tenantID row = lr_tenantID target /\
    lr_attemptID row = lr_attemptID target /\ lr_tokenType row = lr_tokenType target.
Proof.
  induction 1 as [|tables ledger new Hh IH Hins]; [by intros ?%not_elem_of_nil|]. intros Hin Ha.
  assert (Hk : ledger `prefix_of` ledger ++ [new]) by (by eexists). apply elem_of_app in Hin as [Hin|Hin%list_elem_of_singleton].
  - destruct (IH Hin Ha) as (a & target & E1 & E2 & Hrest). exists a, target. split_and!; try apply Hrest; [done|]. by eapply find_entry_prefix.
  - subst. destruct (accepted_correction _ _ _ _ Hins Ha) as (a & target & E1 & E2 & E3 & E4 & E5 & E6 & E7 & E8 & _). exists a, target.
    split_and!; try done. by eapply find_entry_prefix.
Qed.

Lemma history_keys ledger i j r1 r2 : ledger_history ledger -> ledger !! i = Some r1 -> ledger !! j = Some r2 -> same_key r1 r2 = true -> i = j.
Proof.
  assert (Hsym : forall a b, same_key a b = same_key b a).
  { intros a b. unfold same_key. destruct (lr_adjustment a), (lr_adjustment b); try done. f_equal; apply bool_decide_ext; split; congruence. }
  assert (Hno : forall l x r, existsb (same_key x) l = false -> r ∈ l -> same_key x r = true -> False).
  { intros l x r He Hin Hk. rewrite <- not_true_iff_false, existsb_exists in He. apply He. exists r. by rewrite <- list_elem_of_In. }
  intros Hh. revert i j. induction Hh as [|tables ledger new Hh IH Hins]; intros i j; [done|]. apply insert_usage_entry_ok in Hins as (_ & _ & _ & _ & _ & Hk & _).
  intros [H1|[Hi H1]]%lookup_app_Some [H2|[Hj H2]]%lookup_app_Some Hs; [by eapply IH| | |].
  - apply list_lookup_singleton_Some in H2 as [_ <-]. exfalso. rewrite Hsym in Hs. eapply Hno; [exact Hk| |exact Hs]. by eapply list_elem_of_lookup_2.
  - apply list_lookup_singleton_Some in H1 as [_ <-]. exfalso. eapply Hno; [exact Hk| |exact Hs]. by eapply list_elem_of_lookup_2.
  - apply list_lookup_singleton_Some in H1 as [H1 _], H2 as [H2 _]. lia.
Qed.

(** C24: Corrections add up. In every interleaving the effective quantity and amount of
    an entry, the sums over the entry and its signed corrections, are exactly the result
    its last correction asked for (its own values when there is none) and stay within
    the exact integer range; a correction keeps tenant, request, attempt, token type and
    price of an original entry, and a tenant's idempotency key names one correction. *)
Theorem corrections_add_up db : meter_reachable db ->
  (forall row, row ∈ md_ledger db -> is_adjustment row = false ->
    (effective_quantity (lr_eventID row) (md_ledger db), effective_amount (lr_eventID row) (md_ledger db)) = recorded_result (md_ledger db) row /\
    0 <= effective_quantity (lr_eventID row) (md_ledger db) <= MaximumExactInteger /\
    0 <= effective_amount (lr_eventID row) (md_ledger db) <= MaximumExactInteger) /\
  (forall row, row ∈ md_ledger db -> is_adjustment row = true ->
    exists a target, lr_adjustment row = Some a /\ find_entry (aj_target a) (md_ledger db) = Some target /\ is_adjustment target = false /\
      lr_priceVersionID row = lr_priceVersionID target /\ lr_requestID row = lr_requestID target /\ lr_tenantID row = lr_tenantID target /\
      lr_attemptID row = lr_attemptID target /\ lr_tokenType row = lr_tokenType target) /\
  (forall i j r1 r2, md_ledger db !! i = Some r1 -> md_ledger db !! j = Some r2 -> same_key r1 r2 = true -> i = j).
Proof.
  intros [Hh _ _]%meter_reachable_inv. split_and!.
  - intros row Hin Ha. apply correction_chain; [done| |done]. apply find_entry_elem; [by apply history_nodup|done].
  - intros row Hin Ha. by apply history_corrections.
  - intros i j r1 r2. by apply history_keys.
Qed.

(** What a successful answer says about the tables. *)
Lemma Process_backed processor faults tables db now key payload db' r event fingerprint : meter_inv db ->
  Process decode marshal sha256 processor faults tables db now key payload = (db', Ok r) ->
  canonicalUsageEvent decode marshal sha256 key payload = Ok (event, fingerprint) ->
  exists receipt row, md_receipts db' !! key = Some receipt /\ rcp_fingerprint receipt = fingerprint /\ find_entry key (md_ledger db') = Some row /\
    cr_EventID r = key /\ cr_PriceVersionID r = lr_priceVersionID row /\ cr_AmountMicros r = lr_amountMicros row.
Proof.
  intros Hinv Hrun Hcan. pose proof (Process_processed processor faults tables db now key payload) as Hp. rewrite Hrun in Hp.
  inversion Hp as [e|event' fp receipt row r' Hc Hrec Hfp Hf Hor|event' fp receipt tables' now' pv rate amount ledger r' Hc Hn Hfp Hs Ha Hins Hor]; subst.
  - destruct Hor as [[= ->]|]; [|done]. rewrite Hcan in Hc. injection Hc as <- Hfp. exists receipt, row. split_and!; done.
  - destruct Hor as [[= ->]|]; [|done]. rewrite Hcan in Hc. injection Hc as <- Hfp. exists receipt, (priced_row event now' pv amount). simpl. rewrite lookup_insert_eq. split_and!; try done.
    pose proof (insert_usage_entry_ok _ _ _ _ Hins) as (-> & _ & _ & _ & Hnone & _). destruct (canonical_ok _ _ _ _ Hcan) as (? & ? & _ & _ & Hid & _).
    rewrite find_entry_app. simpl in Hnone. rewrite Hid in Hnone. rewrite Hnone. unfold find_entry. simpl. by rewrite bool_decide_eq_true_2.
Qed.

(** Delivering a usage event again changes nothing. After an event was processed,
    another delivery under its key, by any consumer and however much later, is answered
    with the price version and amount in the ledger when its canonical form is the same
    and refused as a conflict otherwise; the tables stay as they are. *)
Theorem repeated_usage_changes_nothing processor1 faults tables1 db now1 key payload1 db1 r db2 processor tables now payload event1 fp1 event fp :
  (forall text, String.length (sha256 text) = 32%nat) -> meter_reachable db ->
  Process decode marshal sha256 processor1 faults tables1 db now1 key payload1 = (db1, Ok r) -> rtc meter_step db1 db2 ->
  canonicalUsageEvent decode marshal sha256 key payload1 = Ok (event1, fp1) -> canonicalUsageEvent decode marshal sha256 key payload = Ok (event, fp) ->
  NewProcessor true true (pr_consumerGroup processor) = Ok processor -> time_is_zero now = false ->
  Process decode marshal sha256 processor no_faults tables db2 now key payload =
    (db2, if bool_decide (fp = fp1)
          then Ok {| cr_EventID := key; cr_PriceVersionID := cr_PriceVersionID r; cr_AmountMicros := cr_AmountMicros r; cr_Inserted := false; cr_Replayed := true |}
          else Err ErrEventConflict).
Proof.
  intros Hsha Hreach Hrun Hsteps Hc1 Hc Hnew Hnow. destruct (Process_backed _ _ _ _ _ _ _ _ _ _ _ (meter_reachable_inv _ Hreach) Hrun Hc1) as (receipt & row & Hrec & Hfp & Hf & _ & -> & ->).
  destruct (meter_steps_grow _ _ Hsteps) as [Hl Hr]. apply Hr in Hrec. apply (find_entry_prefix _ _ _ _ Hl) in Hf.
  unfold Process. rewrite Hc, Hnow. destruct (canonical_ok _ _ _ _ Hc) as (decoded & canonical & _ & _ & Hid & Hv & _ & ->).
  unfold NewProcessor in Hnew. simpl in Hnew. destruct (consumerGroupPattern (pr_consumerGroup processor)) eqn:Eg; [|done].
  unfold insertReceipt. rewrite Hid, Hrec, Hsha, Eg. assert (((ue_SchemaVersion event =? 1) || (ue_SchemaVersion event =? 2)) = true) as ->.
  { unfold UsageEvent_Validate in Hv. prop_hyps. match goal with H : _ || _ = true |- _ => exact H end. }
  unfold in_transaction, autocommit, statement. simpl. unfold loadReplay. rewrite Hrec, Hf, Hfp.
  destruct (bool_decide (sha256 canonical = fp1)) eqn:Eb; prop_hyps.
  - rewrite bool_decide_eq_true_2 by done. done.
  - rewrite bool_decide_eq_false_2 by done. done.
Qed.

Lemma history_adjustment ledger row : ledger_history ledger -> row ∈ ledger -> lr_adjustment row <> None -> is_adjustment row = true.
Proof.
  induction 1 as [|tables ledger new Hh IH Hins]; [by intros ?%not_elem_of_nil|]. intros [Hin|Hin%list_elem_of_singleton]%elem_of_app Hn; [by apply IH|]. subst.
  destruct (is_adjustment new) eqn:E; [done|]. by destruct (accepted_original _ _ _ _ Hins E).
Qed.

(** A stored correction is found by its key. *)
Lemma loadExisting_stored tables ledger seen command row currency : ledger_history ledger -> seen `prefix_of` ledger -> row ∈ seen -> stores row command ->
  scoped_row tables (cmd_Scope command) row = Some currency -> loadExisting tables seen command = Ok (Some (result_of row command currency false)).
Proof.
  intros Hh [k ->] Hin (S1 & S2 & S3 & S4) Hs. unfold loadExisting. destruct (existing_row tables seen command) as [[[row' a] cur]|] eqn:E.
  - unfold existing_row in E. apply head_Some_elem_of, list_elem_of_omap in E as (r & Hr & E). destruct (lr_adjustment r) as [b|] eqn:Eb; [|done].
    destruct (scoped_row tables (cmd_Scope command) r) as [c|] eqn:Ec; [|done]. destruct (bool_decide (aj_key b = _)) eqn:Ek; [|done]. simplify_eq. prop_hyps.
    assert (row' = row) as ->.
    { apply list_elem_of_lookup in Hr as [i Hi], Hin as [j Hj]. assert (i = j) as ->; [|congruence].
      eapply (history_keys (seen ++ k) i j row' row); [done|by apply lookup_app_l_Some|by apply lookup_app_l_Some|].
      unfold same_key. rewrite Eb, S4. simpl. rewrite !bool_decide_eq_true_2; [done|done|]. apply scoped_row_tenant in Ec. congruence. }
    rewrite S4 in Eb. simplify_eq/=. rewrite S1, !Z.eqb_refl, !bool_decide_eq_true_2 by done. simpl. by rewrite <- S1.
  - exfalso. unfold existing_row in E. apply head_None in E. assert (Hx : (row, default {| aj_target := ""; aj_key := ""; aj_origin := OriginManual;
      aj_reason := ""; aj_reference := ""; aj_actor := ""; aj_resultQuantity := 0; aj_resultAmount := 0 |} (lr_adjustment row), currency) ∈
      omap (fun row => match lr_adjustment row, scoped_row tables (cmd_Scope command) row with
        | Some a, Some currency => if bool_decide (aj_key a = cmd_IdempotencyKey command) then Some (row, a, currency) else None | _, _ => None end) seen).
    { apply list_elem_of_omap. exists row. split; [done|]. rewrite S4, Hs. simpl. by rewrite bool_decide_eq_true_2. }
    rewrite E in Hx. by apply not_elem_of_nil in Hx.
Qed.

(** Applying a correction again changes nothing. After a correction was applied, the
    same command by any writer that sees it, however much later and in whatever order
    with other corrections of the same entry, is answered from the ledger with the
    original deltas and appends nothing, so a delta is never applied twice. *)
Theorem repeated_correction_changes_nothing faults tables1 seen1 seen2 db now1 command db1 r db2 tables seen1' seen2' now :
  meter_reachable db -> snapshots seen1 seen2 (md_ledger db) command ->
  Apply faults tables1 seen1 seen2 db now1 command = (db1, Ok r) -> rtc meter_step db1 db2 ->
  md_ledger db1 `prefix_of` seen1' -> snapshots seen1' seen2' (md_ledger db2) command ->
  (forall scope row, scoped_row tables scope row = scoped_row tables1 scope row) -> time_is_zero now = false ->
  exists r', Apply no_faults tables seen1' seen2' db2 now command = (db2, Ok r') /\ ar_Replayed r' = true /\ ar_EventID r' = ar_EventID r /\
    ar_QuantityDelta r' = ar_QuantityDelta r /\ ar_AmountMicrosDelta r' = ar_AmountMicrosDelta r /\ ar_CreatedAt r' = ar_CreatedAt r /\
    ar_CorrectedQuantity r' = cmd_CorrectedQuantity command /\ ar_CorrectedAmountMicros r' = cmd_CorrectedAmountMicros command.
Proof.
  intros Hreach Hsnap Hrun Hsteps Hseen Hsnap' Htables Hnow. assert (Hreach1 : meter_reachable db1).
  { unfold meter_reachable. eapply rtc_r; [exact Hreach|]. replace db1 with (Apply faults tables1 seen1 seen2 db now1 command).1 by (by rewrite Hrun). by constructor. }
  pose proof (meter_reachable_inv _ Hreach1) as Hinv1.
  assert (Hrow : exists row currency, row ∈ md_ledger db1 /\ lr_adjustment row <> None /\ stores row command /\
    scoped_row tables1 (cmd_Scope command) row = Some currency /\ exists b, r = result_of row command currency b).
  { pose proof (Apply_applied faults tables1 seen1 seen2 db now1 command Hsnap) as Ha. rewrite Hrun in Ha.
    inversion Ha as [e|row cur r' Hin Hn Hs Hst Hor|row cur ledger r' Hins Hst Hs Hor]; subst; destruct Hor as [[= ->]|]; try done.
    - exists row, cur. split_and!; eauto. apply Hst. eapply history_adjustment; [apply Hinv1|done|done].
    - exists row, cur. pose proof (insert_usage_entry_ok _ _ _ _ Hins) as (-> & _). split_and!; eauto; [|by destruct Hst as (_ & _ & _ & ->)].
      apply elem_of_app. right. by apply list_elem_of_singleton. }
  destruct Hrow as (row & cur & Hin & _ & Hst & Hs & b & ->). destruct Hsnap' as ([k1 Hk1] & appended & Hl & Hno). destruct Hseen as [k0 Hk0].
  assert (Hreach2 : meter_reachable db2) by (unfold meter_reachable; by etrans). pose proof (mi_history _ (meter_reachable_inv _ Hreach2)) as Hh2.
  assert (Hload : loadExisting tables seen1' command = Ok (Some (result_of row command cur false))).
  { eapply loadExisting_stored; [exact Hh2|rewrite Hl, Hk1, <- app_assoc; by eexists|rewrite Hk0, elem_of_app; by left|done|by rewrite Htables]. }
  exists (result_of row command cur false). split; [|done]. unfold Apply. destruct (Command_Validate command) eqn:Ev.
  - simpl. rewrite Hnow. unfold in_transaction, autocommit, query, statement. simpl. by rewrite Hload.
  - unfold Apply in Hrun. by rewrite Ev in Hrun.
Qed.
End Histories.

(** ** A ledger with one event and one correction *)
Module LedgerDemo.
Definition event : UsageEvent := OutboxDemo.event.
Definition key : string := ue_EventID event.
Definition payload : string := OutboxDemo.payload.
Definition decode (text : string) : option UsageEvent := if bool_decide (text = payload) then Some event else None.
Definition digest (_ : string) : string := "0123456789abcdef0123456789abcdef".
Definition project : string := "88888888-8888-4888-8888-888888888888".
Definition price_id : string := "77777777-7777-4777-8777-777777777777".

Definition request : GatewayRequest :=
  {| gr_ID := "request-1"; gr_TenantID := ui_TenantID demo_identity; gr_ProjectID := project; gr_VirtualKeyID := project; gr_LogicalModel := "chat";
     gr_TraceID := ui_TraceID demo_identity; gr_SpanID := ui_SpanID demo_identity; gr_Status := RequestSucceeded; gr_AttemptCount := 1;
     gr_StartedAt := 1; gr_EndedAt := Some 1; gr_EndReason := "completed"; gr_Version := 4; gr_UpdatedAt := 1 |}.
Definition attempt : RouteAttempt :=
  {| ra_ID := ui_AttemptID demo_identity; ra_RequestID := "request-1"; ra_AttemptNo := 1; ra_DeploymentID := ui_DeploymentID demo_identity;
     ra_Status := AttemptSucceeded; ra_StartedAt := 1; ra_HeadersReceivedAt := Some 1; ra_FirstByteAt := None; ra_EndedAt := Some 1;
     ra_EndReason := "completed"; ra_ProviderRequestID := ""; ra_ErrorCategory := ""; ra_ErrorCode := ""; ra_UsageSummary := None;
     ra_Version := 4; ra_UpdatedAt := 1 |}.
Definition price : PriceVersion :=
  {| pv_ID := price_id; pv_DeploymentID := ui_DeploymentID demo_identity; pv_Region := "eu-west"; pv_Currency := "USD"; pv_EffectiveAt := 1;
     pv_Status := PriceStatusPublished; pv_Rates := [{| rate_TokenType := TokenTypeInput; rate_BillingUnit := BillingUnitToken; UnitQuantity := 5; UnitPriceMicros := 3 |}];
     pv_Version := 2; pv_CreatedAt := 1; pv_CreatedBy := "ops"; pv_UpdatedAt := 1; pv_UpdatedBy := "ops"; pv_PublishedAt := Some 1 |}.
Definition tables : MeterTables :=
  {| mt_requests := {["request-1"%string := request]}; mt_attempts := {[ra_ID attempt := attempt]}; mt_region := fun _ => Some "eu-west"%string;
     mt_prices := [price] |}.
Definition processor : Processor := {| pr_consumerGroup := "ai-gateway-metering-v1" |}.

Definition process (db : MeterDB) (now : Time) : MeterDB * result ConsumerResult consumer_error :=
  Process decode OutboxDemo.encode digest processor no_faults tables db now key payload.
Definition db1 : MeterDB := (process meter_start 5).1.

Definition command : Command :=
  {| cmd_Scope := {| scope_TenantID := ui_TenantID demo_identity; scope_ProjectID := project |}; cmd_EventID := "99999999-9999-4999-8999-999999999999";
     cmd_IdempotencyKey := "ticket-1042"; cmd_TargetEventID := key; cmd_CorrectedQuantity := 10; cmd_CorrectedAmountMicros := 6;
     cmd_Origin := OriginManual; cmd_Reason := "miscount"; cmd_Reference := "T-1042"; cmd_Actor := "ops@example.org" |}.
Definition apply (db : MeterDB) (now : Time) : MeterDB * result AdjustmentResult adjustment_error :=
  Apply no_faults tables (md_ledger db) (md_ledger db) db now command.
Definition db2 : MeterDB := (apply db1 7).1.

Lemma seen db : snapshots (md_ledger db) (md_ledger db) (md_ledger db) command.
Proof. split; [reflexivity|]. exists []. split; [by rewrite app_nil_r|done]. Qed.

Lemma db1_reachable : meter_reachable decode OutboxDemo.encode digest db1.
Proof. apply rtc_once. apply step_process. Qed.
Lemma db2_reachable : meter_reachable decode OutboxDemo.encode digest db2.
Proof. eapply rtc_r; [exact db1_reachable|]. apply step_apply, seen. Qed.

(** 12 tokens at 3 micros per 5 tokens cost 8 micros; the correction replaces this by 6. *)
Example db2_ledger : (fun row => (lr_quantity row, lr_amountMicros row)) <$> md_ledger db2 = [(12, 8); (-2, -2)].
Proof. vm_compute. reflexivity. Qed.
End LedgerDemo.

Lemma usage_is_priced_exactly_once_witness :
  length (md_ledger LedgerDemo.db1) = 1%nat /\ NoDup (lr_eventID <$> md_ledger LedgerDemo.db1).
Proof.
  split; [vm_compute; reflexivity|].
  exact (proj1 (usage_is_priced_exactly_once _ _ _ LedgerDemo.db1 LedgerDemo.db1 LedgerDemo.db1_reachable (rtc_refl _ _))).
Defined.

Lemma corrections_add_up_witness : exists row, row ∈ md_ledger LedgerDemo.db2 /\ is_adjustment row = false /\
  (effective_quantity (lr_eventID row) (md_ledger LedgerDemo.db2), effective_amount (lr_eventID row) (md_ledger LedgerDemo.db2)) =
    recorded_result (md_ledger LedgerDemo.db2) row.
Proof.
  pose proof (proj1 (corrections_add_up _ _ _ LedgerDemo.db2 LedgerDemo.db2_reachable)) as H.
  destruct (find_entry LedgerDemo.key (md_ledger LedgerDemo.db2)) as [row|] eqn:E; [|vm_compute in E; discriminate].
  assert (Ha : is_adjustment row = false) by (vm_compute in E; injection E as <-; reflexivity).
  exists row. pose proof (proj1 (find_entry_Some _ _ _ E)) as Hin. split; [exact Hin|]. split; [exact Ha|]. exact (proj1 (H row Hin Ha)).
Defined.

Lemma repeated_usage_changes_nothing_witness :
  LedgerDemo.process LedgerDemo.db2 9 =
    (LedgerDemo.db2, Ok {| cr_EventID := LedgerDemo.key; cr_PriceVersionID := LedgerDemo.price_id; cr_AmountMicros := 8; cr_Inserted := false; cr_Replayed := true |}).
Proof.
  apply (repeated_usage_changes_nothing LedgerDemo.decode OutboxDemo.encode LedgerDemo.digest LedgerDemo.processor no_faults LedgerDemo.tables meter_start 5
    LedgerDemo.key LedgerDemo.payload LedgerDemo.db1
    {| cr_EventID := LedgerDemo.key; cr_PriceVersionID := LedgerDemo.price_id; cr_AmountMicros := 8; cr_Inserted := true; cr_Replayed := false |}
    LedgerDemo.db2 LedgerDemo.processor LedgerDemo.tables 9 LedgerDemo.payload LedgerDemo.event (LedgerDemo.digest "") LedgerDemo.event (LedgerDemo.digest "")).
  - reflexivity.
  - apply rtc_refl.
  - vm_compute. reflexivity.
  - apply rtc_once. apply step_apply, LedgerDemo.seen.
  - vm_compute. reflexivity.
  - vm_compute. reflexivity.
  - vm_compute. reflexivity.
  - reflexivity.
Defined.

Lemma repeated_correction_changes_nothing_witness : exists r, LedgerDemo.apply LedgerDemo.db2 11 = (LedgerDemo.db2, Ok r) /\ ar_Replayed r = true /\ ar_QuantityDelta r = -2.
Proof.
  destruct (LedgerDemo.apply LedgerDemo.db1 7) as [db r] eqn:E. assert (Hr : exists r0, r = Ok r0 /\ ar_QuantityDelta r0 = -2).
  { vm_compute in E. injection E as <- <-. eexists. split; reflexivity. }
  destruct Hr as (r0 & -> & Hq). assert (Hdb : db = LedgerDemo.db2) by (unfold LedgerDemo.db2; rewrite E; reflexivity). subst db.
  destruct (repeated_correction_changes_nothing LedgerDemo.decode OutboxDemo.encode LedgerDemo.digest no_faults LedgerDemo.tables (md_ledger LedgerDemo.db1)
    (md_ledger LedgerDemo.db1) LedgerDemo.db1 7 LedgerDemo.command LedgerDemo.db2 r0 LedgerDemo.db2 LedgerDemo.tables (md_ledger LedgerDemo.db2)
    (md_ledger LedgerDemo.db2) 11 LedgerDemo.db1_reachable (LedgerDemo.seen _) E (rtc_refl _ _) ltac:(reflexivity) (LedgerDemo.seen _) ltac:(reflexivity) ltac:(reflexivity))
    as (r' & H1 & H2 & _ & H3 & _).
  exists r'. split; [exact H1|]. split; [exact H2|]. rewrite H3. exact Hq.
Defined.
