(* ===== verification/MeteringPipeline.v ===== *)
(** * Reading the cost of a request (src/internal/meteringcost/postgres.go)

    The queries of one repeatable-read snapshot, over the tables of the recorder, the
    outbox and the ledger, and what their result means: every usage event of the request
    is priced, and the totals are the effective amounts of its ledger entries.

    Then: from recorded usage to the bill. *)
From Stdlib Require Import ZArith Lia Bool Ascii String.
From stdpp Require Import base tactics option list strings gmap fin_maps sets.
From S2P Require Import Prelude Postgres Identifiers Unicode Catalog Retry Metering Execution MeteringCost MeteringOutbox MeteringOutboxTheorems MeteringLedger MeteringLedgerTheorems.
Inductive aggregate_error := ErrAggregateInvalid | ErrAggregateNotFound | ErrNotTerminal | ErrPending | ErrAggregateUnavailable.

Definition loadRequest (tables : MeterTables) (scope : Scope) (requestID : string) : result (RequestStatus * Z) aggregate_error :=
  match mt_requests tables !! requestID with
  | Some request =>
      if bool_decide (gr_TenantID request = scope_TenantID scope) && bool_decide (gr_ProjectID request = scope_ProjectID scope)
      then Ok (gr_Status request, gr_AttemptCount request) else Err ErrAggregateNotFound
  | None => Err ErrAggregateNotFound
  end.

Definition loadAttempts (tables : MeterTables) (requestID : string) : list attemptFact :=
  sort_attempts ((fun entry : string * RouteAttempt =>
      {| af_id := entry.1; af_number := ra_AttemptNo entry.2; af_deploymentID := ra_DeploymentID entry.2; af_status := ra_Status entry.2 |}) <$>
    filter (fun entry : string * RouteAttempt => ra_RequestID entry.2 = requestID) (map_to_list (mt_attempts tables))).

Definition of_request (tenantID requestID : string) (identity : UsageIdentity) : Prop :=
  ui_TenantID identity = tenantID /\ ui_RequestID identity = requestID.
#[export] Instance of_request_dec tenantID requestID identity : base.Decision (of_request tenantID requestID identity).
Proof. unfold of_request. apply _. Defined.

Definition outbox_of (outbox : Outbox) (tenantID requestID : string) : list UsageEvent :=
  filter (fun event => of_request tenantID requestID (ue_Identity event)) (ob_event <$> (map_to_list outbox).*2).

(** LEFT JOIN of an outbox event with its ledger entry. *)
Definition joins (ledger : Ledger) (event : UsageEvent) : Prop :=
  match find_entry (ue_EventID event) ledger with
  | Some row => lr_tenantID row = ui_TenantID (ue_Identity event) /\ lr_requestID row = ui_RequestID (ue_Identity event) /\
      lr_attemptID row = ui_AttemptID (ue_Identity event)
  | None => False
  end.
#[export] Instance joins_dec ledger event : base.Decision (joins ledger event).
Proof. unfold joins. destruct (find_entry _ _); apply _. Defined.

Definition outboxComplete (outbox : Outbox) (ledger : Ledger) (tenantID requestID : string) : result bool aggregate_error :=
  let expected := Z.of_nat (length (outbox_of outbox tenantID requestID)) in
  let priced := Z.of_nat (length (filter (joins ledger) (outbox_of outbox tenantID requestID))) in
  if (expected <? 0) || (priced <? 0) || (expected <? priced) then Err ErrAggregateUnavailable else Ok (expected =? priced).

(** One ledger row joined with its price and rate. *)
Definition ledger_fact (tables : MeterTables) (row : LedgerRow) : option ledgerFact :=
  match find_price tables (lr_priceVersionID row) with
  | None => None
  | Some price =>
      match find (fun rate => bool_decide (rate_TokenType rate = lr_tokenType row)) (pv_Rates price) with
      | None => None
      | Some rate =>
          Some {| lf_eventID := lr_eventID row; lf_attemptID := lr_attemptID row; lf_tokenType := lr_tokenType row; lf_quantity := lr_quantity row;
            lf_source := lr_source row; lf_observedAt := lr_observedAt row; lf_createdAt := lr_createdAt row; lf_priceVersionID := lr_priceVersionID row;
            lf_currency := pv_Currency price; lf_billingUnit := rate_BillingUnit rate; lf_unitQuantity := UnitQuantity rate;
            lf_unitPriceMicros := UnitPriceMicros rate; lf_amountMicros := lr_amountMicros row;
            lf_adjustment := (fun a => {| adj_TargetEventID := aj_target a; adj_Origin := aj_origin a; adj_Reason := aj_reason a;
              adj_Reference := aj_reference a; adj_Actor := aj_actor a; adj_CorrectedQuantity := aj_resultQuantity a;
              adj_CorrectedAmountMicros := aj_resultAmount a |}) <$> lr_adjustment row |}
      end
  end.

(** ORDER BY ledger.attempt_id NULLS FIRST, ledger.id, the order of the list. *)
Fixpoint insert_fact (fact : ledgerFact) (facts : list ledgerFact) : list ledgerFact :=
  match facts with
  | [] => [fact]
  | next :: rest => if String.ltb (lf_attemptID next) (lf_attemptID fact) then next :: insert_fact fact rest else fact :: next :: rest
  end.
Definition sort_facts (facts : list ledgerFact) : list ledgerFact := foldr insert_fact [] facts.

Definition request_entries (ledger : Ledger) (tenantID requestID : string) : Ledger :=
  filter (fun row => lr_tenantID row = tenantID /\ lr_requestID row = requestID) ledger.

Definition loadLedger (tables : MeterTables) (ledger : Ledger) (tenantID requestID : string) : list ledgerFact :=
  sort_facts (omap (ledger_fact tables) (request_entries ledger tenantID requestID)).

Definition Aggregate (faults : Faults) (tables : MeterTables) (outbox : Outbox) (ledger : Ledger) (scope : Scope) (requestID : string)
    : result RequestCost aggregate_error :=
  let failed (_ : db_failure) := ErrAggregateUnavailable in
  if negb (Scope_Validate scope) || negb (requestIDPattern requestID) then Err ErrAggregateInvalid
  else if fl_begin faults then Err ErrAggregateUnavailable
  else
    let? _ := statement faults 0 failed (Ok tt) in
    let? '(status, attemptCount) := loadRequest tables scope requestID in
    if negb (terminalRequestStatus status) then Err ErrNotTerminal
    else
      let? attempts := statement faults 1 failed (Ok (loadAttempts tables requestID)) in
      let? _ := statement faults 2 failed (Ok tt) in
      let? complete := outboxComplete outbox ledger (scope_TenantID scope) requestID in
      if negb complete then Err ErrPending
      else
        let? entries := statement faults 3 failed (Ok (loadLedger tables ledger (scope_TenantID scope) requestID)) in
        match buildRequestCost scope requestID status attemptCount attempts entries with
        | Err _ => Err ErrAggregateUnavailable
        | Ok cost => if bool_decide (fl_commit faults = None) then Ok cost else Err ErrAggregateUnavailable
        end.

(** ** Sums over the ledger *)
Lemma effective_amount_snoc ledger new id : find_entry (lr_eventID new) ledger = None -> id <> lr_eventID new ->
  effective_amount id (ledger ++ [new]) = effective_amount id ledger + (if bool_decide (target_of new = Some id) then lr_amountMicros new else 0).
Proof.
  intros Hn Hne. unfold effective_amount. rewrite find_entry_app, adjusting_snoc, sum_by_app.
  assert (find_entry id [new] = None) as -> by (unfold find_entry; simpl; by rewrite bool_decide_eq_false_2 by congruence).
  destruct (find_entry id ledger), (bool_decide _); simpl; lia.
Qed.

(** Corrections move no money between groups of entries: over the rows of a group that
    corrections do not leave, all amounts add up to the effective amounts of the
    original entries. *)
Lemma amounts_are_effective (P : LedgerRow -> bool) ledger : ledger_history ledger ->
  (forall row target, row ∈ ledger -> target_of row = Some (lr_eventID target) -> target ∈ ledger -> is_adjustment target = false -> P row = P target) ->
  sum_by (fun row => if P row then lr_amountMicros row else 0) ledger =
  sum_by (fun row => if P row && negb (is_adjustment row) then effective_amount (lr_eventID row) ledger else 0) ledger.
Proof.
  induction 1 as [|tables ledger new Hh IH Hins]; [done|]. intros HP. rewrite !sum_by_app. simpl. rewrite !Z.add_0_r.
  rewrite IH by (intros row target Hr Ht Hin Ha; apply HP; [apply elem_of_app; by left|done|apply elem_of_app; by left|done]).
  pose proof (insert_usage_entry_ok _ _ _ _ Hins) as (_ & _ & _ & _ & Hn & _). pose proof (history_nodup _ Hh) as Hnd.
  assert (Hother : forall row, row ∈ ledger -> lr_eventID row <> lr_eventID new).
  { intros row Hin Heq. apply find_entry_None in Hn. apply Hn. rewrite <- Heq. apply list_elem_of_fmap. eauto. }
  destruct (is_adjustment new) eqn:Ea.
  - rewrite andb_false_r. simpl. rewrite Z.add_0_r. destruct (accepted_correction _ _ _ _ Hins Ea) as (a & target & E1 & E2 & E3 & _).
    apply find_entry_Some in E2 as [Hin Hid]. assert (Ht : target_of new = Some (lr_eventID target)) by (unfold target_of; rewrite E1; simpl; congruence).
    rewrite (sum_by_ext (fun row => if P row && negb (is_adjustment row) then effective_amount (lr_eventID row) (ledger ++ [new]) else 0)
      (fun row => (if P row && negb (is_adjustment row) then effective_amount (lr_eventID row) ledger else 0) +
                  (if bool_decide (lr_eventID row = lr_eventID target) then (if P new then lr_amountMicros new else 0) else 0)) ledger).
    + rewrite sum_by_add. f_equal. apply list_elem_of_lookup in Hin as [i Hi]. rewrite (sum_by_only _ ledger i target Hi); [by rewrite bool_decide_eq_true_2|].
      intros j y Hj Hne. rewrite bool_decide_eq_false_2; [done|]. intros Heq. apply Hne. eapply NoDup_lookup; [exact Hnd|rewrite list_lookup_fmap, Hj; reflexivity|].
      rewrite list_lookup_fmap, Hi. simpl. congruence.
    + intros row Hrow. rewrite effective_amount_snoc by (done || by apply Hother). rewrite Ht. destruct (decide (lr_eventID row = lr_eventID target)) as [Heq|Hne].
      * rewrite Heq, !bool_decide_eq_true_2 by congruence. assert (row = target) as ->.
        { pose proof (find_entry_elem _ _ Hnd Hrow) as F1. pose proof (find_entry_elem _ _ Hnd Hin) as F2. congruence. }
        assert (P new = P target) as -> by (apply HP; [apply elem_of_app; right; by apply list_elem_of_singleton|done|apply elem_of_app; by left|done]).
        rewrite E3. simpl. rewrite andb_true_r. destruct (P target); lia.
      * rewrite !bool_decide_eq_false_2 by congruence. destruct (_ && _); lia.
  - destruct (accepted_original _ _ _ _ Hins Ea) as (Hadj & _). rewrite andb_true_r. f_equal.
    + apply sum_by_ext. intros row Hrow. rewrite effective_amount_snoc by (done || by apply Hother). unfold target_of. rewrite Hadj. simpl. by rewrite Z.add_0_r.
    + destruct (P new); [|done]. unfold effective_amount. rewrite find_entry_app, Hn, adjusting_snoc, adjusting_known by done. unfold find_entry, target_of. rewrite Hadj. simpl.
      rewrite bool_decide_eq_true_2 by done. simpl. lia.
Qed.

(** ** Facts and rows *)
Lemma insert_fact_perm fact facts : insert_fact fact facts ≡ₚ fact :: facts.
Proof. induction facts as [|f facts IH]; simpl; [done|]. destruct (String.ltb _ _); [|done]. rewrite IH. apply Permutation_swap. Qed.
Lemma sort_facts_perm facts : sort_facts facts ≡ₚ facts.
Proof. induction facts; [done|]. simpl. rewrite insert_fact_perm. by f_equiv. Qed.

(** The price of every row is known, with a rate for it, as the foreign keys demand. *)
Definition priced_in (tables : MeterTables) (ledger : Ledger) : Prop :=
  forall row, row ∈ ledger -> is_Some (ledger_fact tables row).

Definition currency_of (tables : MeterTables) (row : LedgerRow) : option string := pv_Currency <$> find_price tables (lr_priceVersionID row).

Lemma charged_facts tables currency rows : (forall row, row ∈ rows -> is_Some (ledger_fact tables row)) ->
  charged currency (omap (ledger_fact tables) rows) =
  sum_by (fun row => if bool_decide (currency_of tables row = Some currency) then lr_amountMicros row else 0) rows.
Proof.
  intros Hall. induction rows as [|row rows IH]; [done|]. simpl. destruct (Hall row) as [fact Hf]; [left|]. rewrite Hf.
  change (charged currency (fact :: list_omap LedgerRow ledgerFact (ledger_fact tables) rows)) with
    ((if decide (lf_currency fact = currency) then lf_amountMicros fact else 0) + charged currency (omap (ledger_fact tables) rows)).
  rewrite IH by (intros; apply Hall; by right). f_equal. unfold ledger_fact in Hf. unfold currency_of.
  destruct (find_price tables (lr_priceVersionID row)) as [price|]; [|done]. destruct (find _ _); [|done]. simplify_eq/=.
  destruct (decide (pv_Currency price = currency)) as [->|]; [by rewrite bool_decide_eq_true_2|]. rewrite bool_decide_eq_false_2; [done|congruence].
Qed.

Lemma Aggregate_ok faults tables outbox ledger scope requestID cost : Aggregate faults tables outbox ledger scope requestID = Ok cost ->
  exists status n, buildRequestCost scope requestID status n (loadAttempts tables requestID) (loadLedger tables ledger (scope_TenantID scope) requestID) = Ok cost /\
    terminalRequestStatus status = true /\ loadRequest tables scope requestID = Ok (status, n) /\
    Forall (joins ledger) (outbox_of outbox (scope_TenantID scope) requestID).
Proof.
  unfold Aggregate. destruct (_ || _); [done|]. destruct (fl_begin faults); [done|]. destruct (statement faults 0 _ _); [|done]. simpl.
  destruct (loadRequest tables scope requestID) as [[status n]|]; [|done]. simpl. destruct (terminalRequestStatus status) eqn:Et; [|done]. simpl.
  destruct (statement faults 1 _ _) as [attempts|] eqn:E1; [|done]. simpl. apply statement_ok in E1. injection E1 as <-. destruct (statement faults 2 _ _); [|done]. simpl.
  destruct (outboxComplete _ _ _ _) as [complete|] eqn:Eo; [|done]. simpl. destruct complete; [|done]. simpl.
  destruct (statement faults 3 _ _) as [entries|] eqn:E3; [|done]. simpl. apply statement_ok in E3. injection E3 as <-.
  destruct (buildRequestCost _ _ _ _ _ _) as [c|] eqn:Eb; [|done]. case_bool_decide; [|done]. intros [= <-]. exists status, n. split_and!; try done.
  unfold outboxComplete in Eo. destruct (_ || _); [done|]. injection Eo as Eo. apply Z.eqb_eq in Eo. apply Forall_forall. intros event Hin.
  destruct (decide (joins ledger event)) as [|Hno]; [done|]. exfalso.
  pose proof (length_filter_lt (joins ledger) (outbox_of outbox (scope_TenantID scope) requestID) event Hin Hno). lia.
Qed.

(** ** From recorded usage to the bill

    Composition of the metering components: the outbox and its relays, the event bus,
    the consumers with their offsets, corrections, and the cost projection. The bus
    keeps what the relay published; a consumer may be handed any record of it, any
    number of times, and commits the position of a record after processing it. *)
Record PipeSys := { pp_relay : RelaySys; pp_db : MeterDB; pp_committed : gset nat }.

Section Pipeline.
Context (decode : string -> option UsageEvent) (marshal : UsageEvent -> option string) (sha256 : string -> string).
(** Decoding inverts encoding: the contract of encoding/json for the fields of an event. *)
Context (decode_marshal : forall event payload, UsageEvent_Validate event = true -> marshal event = Some payload -> decode payload = Some event).

(** One delivery: [Process], then the commit of the offset, which may fail either way. *)
Definition deliver (p : PipeSys) (position : nat) (r : MeterDB * result ConsumerResult consumer_error) (commit : option bool) : PipeSys :=
  {| pp_relay := pp_relay p; pp_db := r.1;
     pp_committed := match r.2, commit with
       | Ok _, (None | Some true) => {[position]} ∪ pp_committed p
       | _, _ => pp_committed p end |}.

Inductive pipe_step : PipeSys -> PipeSys -> Prop :=
| pipe_relay p s : relay_step marshal (pp_relay p) s -> pipe_step p {| pp_relay := s; pp_db := pp_db p; pp_committed := pp_committed p |}
| pipe_deliver p position key value processor e :
    rs_bus (pp_relay p) !! position = Some (key, value) ->
    pipe_step p (deliver p position (Process decode marshal sha256 processor (ke_faults e) (ke_tables e) (pp_db p) (ke_now e) key value) (ke_commit e))
| pipe_correct p faults tables seen1 seen2 now command :
    snapshots seen1 seen2 (md_ledger (pp_db p)) command ->
    pipe_step p {| pp_relay := pp_relay p; pp_db := (Apply faults tables seen1 seen2 (pp_db p) now command).1; pp_committed := pp_committed p |}.

Definition pipe_start : PipeSys := {| pp_relay := relay_start; pp_db := meter_start; pp_committed := ∅ |}.
Definition pipe_reachable (p : PipeSys) : Prop := rtc pipe_step pipe_start p.

(** The records of a fetch are records of the bus. *)
Definition fetched (bus : Bus) (record : KafkaRecord) : Prop :=
  bus !! kr_position record = Some (kr_key record, kr_value record).

(** A consumer session is a run of deliveries. *)
Lemma handle_records_steps processor env records p : Forall (fetched (rs_bus (pp_relay p))) records ->
  exists p', rtc pipe_step p p' /\ pp_relay p' = pp_relay p /\
    (handle_records decode marshal sha256 processor env records (pp_db p) (pp_committed p)).1 = (pp_db p', pp_committed p').
Proof.
  revert p; induction records as [|record records IH]; intros p; simpl; [by exists p|]. intros [Hf Hrest]%Forall_cons.
  destruct (negb _); [by exists p|]. pose proof (pipe_deliver p _ _ _ processor (env (kr_position record)) Hf) as Hs.
  destruct (Process _ _ _ _ _ _ _ _ _ _) as [db' [r|e]].
  - destruct (ke_commit (env (kr_position record))) as [[]|]; unfold deliver in Hs; simpl in Hs.
    + eexists. split; [by apply rtc_once|]. done.
    + eexists. split; [by apply rtc_once|]. done.
    + match type of Hs with pipe_step _ ?q => destruct (IH q) as (p' & S & Hr & E); [done|] end. exists p'. split; [by eapply rtc_l|]. simpl in *. done.
  - unfold deliver in Hs. simpl in Hs. eexists. split; [by apply rtc_once|]. done.
Qed.

Lemma Session_Run_steps processor env fetches p :
  Forall (fun f => match f with FetchRecords records => Forall (fetched (rs_bus (pp_relay p))) records | _ => True end) fetches ->
  exists p', rtc pipe_step p p' /\ pp_relay p' = pp_relay p /\
    (Session_Run decode marshal sha256 processor env fetches (pp_db p) (pp_committed p)).1 = (pp_db p', pp_committed p').
Proof.
  revert p; induction fetches as [|[| |records] fetches IH]; intros p; simpl; try (intros _; by exists p).
  intros [Hf Hrest]%Forall_cons. destruct (handle_records_steps processor env records p Hf) as (p1 & S1 & R1 & E1).
  destruct (handle_records _ _ _ _ _ _ _ _) as [[db1 c1] [e|]]; simpl in E1; simplify_eq.
  - by exists p1.
  - destruct (IH p1) as (p2 & S2 & R2 & E2); [by rewrite R1|]. exists p2. split_and!; [by etrans|congruence|done].
Qed.

(** ** The invariant *)
Definition priced_as (event : UsageEvent) (row : LedgerRow) : Prop :=
  exists tables consumedAt priceVersionID rate amount,
    selectEffectiveRate tables event = Ok (priceVersionID, rate) /\ CalculateAmountMicros (ue_Quantity event) rate = Ok amount /\
    row = priced_row event consumedAt priceVersionID amount.

Record pipe_inv (p : PipeSys) : Prop := {
  pi_relay : relay_inv marshal (pp_relay p);
  pi_meter : meter_inv marshal sha256 (pp_db p);
  pi_origin : forall row, row ∈ md_ledger (pp_db p) -> is_adjustment row = false ->
    exists out, rs_rows (pp_relay p) !! lr_eventID row = Some out /\ priced_as (ob_event out) row;
  pi_committed : forall position, position ∈ pp_committed p ->
    exists key value, rs_bus (pp_relay p) !! position = Some (key, value) /\ is_Some (md_receipts (pp_db p) !! key) }.

Lemma default_unit_valid event : UsageEvent_Validate event = true -> default_unit event = event.
Proof. intros Hv. unfold default_unit. unfold UsageEvent_Validate in Hv. prop_hyps. rewrite bool_decide_eq_false_2; [done|]. congruence. Qed.

(** What the consumer decodes from the bus is the event of the outbox. *)
Lemma canonical_from_bus s position key value event fingerprint : relay_inv marshal s -> rs_bus s !! position = Some (key, value) ->
  canonicalUsageEvent decode marshal sha256 key value = Ok (event, fingerprint) ->
  exists out, rs_rows s !! key = Some out /\ ob_event out = event /\ ue_EventID event = key.
Proof.
  intros [Hr Hb _] Hpos Hc. destruct (Hb key value) as (out & Hout & Hm); [by eapply list_elem_of_lookup_2|]. destruct (Hr _ _ Hout) as (G1 & G2 & _).
  destruct (canonical_ok _ _ _ _ _ _ _ Hc) as (decoded & canonical & Hd & -> & Hid & _). rewrite (decode_marshal _ _ G2 Hm) in Hd. injection Hd as <-.
  exists out. rewrite default_unit_valid by done. done.
Qed.

Lemma pipe_relay_inv p s : pipe_inv p -> relay_step marshal (pp_relay p) s ->
  pipe_inv {| pp_relay := s; pp_db := pp_db p; pp_committed := pp_committed p |}.
Proof.
  intros [Hr Hm Ho Hc] Hs. pose proof (relay_step_evolves _ _ _ Hs) as [Hrows [k Hbus]]. split; simpl; [by eapply relay_step_inv|done| |].
  - intros row Hin Ha. destruct (Ho _ Hin Ha) as (out & Hout & Hp). destruct (Hrows _ _ Hout) as (out' & Hout' & Hst). exists out'. split; [done|].
    by apply row_steps_facts in Hst as (-> & _).
  - intros position Hpos. destruct (Hc _ Hpos) as (key & value & Hb & Hrec). exists key, value. split; [|done]. rewrite Hbus. by apply lookup_app_l_Some.
Qed.

Lemma pipe_deliver_inv p position key value processor e : pipe_inv p -> rs_bus (pp_relay p) !! position = Some (key, value) ->
  pipe_inv (deliver p position (Process decode marshal sha256 processor (ke_faults e) (ke_tables e) (pp_db p) (ke_now e) key value) (ke_commit e)).
Proof.
  intros [Hr Hm Ho Hc] Hpos.
  pose proof (meter_step_inv decode marshal sha256 _ _ (step_process decode marshal sha256 processor (ke_faults e) (ke_tables e) (pp_db p) (ke_now e) key value) Hm) as Hm'.
  pose proof (meter_step_grows decode marshal sha256 _ _ (step_process decode marshal sha256 processor (ke_faults e) (ke_tables e) (pp_db p) (ke_now e) key value)) as [_ Hrec].
  pose proof (Process_processed decode marshal sha256 processor (ke_faults e) (ke_tables e) (pp_db p) (ke_now e) key value) as Hp.
  destruct (Process _ _ _ _ _ _ _ _ _ _) as [db' r]. unfold deliver. simpl in *.
  assert (Hnew : forall r0, r = Ok r0 -> is_Some (md_receipts db' !! key)).
  { intros r0 ->. inversion Hp as [ |? ? receipt row ? _ Hin _ _ _| ? ? receipt]; subst; [eauto|]. simpl. rewrite lookup_insert_eq. eauto. }
  split; simpl; [done|done| |].
  - destruct Hp as [err|event fp receipt row r Hcan|event fp receipt tables now pv rate amount ledger r Hcan Hn Hfp Hs Ha Hins Hor]; [done|done|]. simpl.
    intros row Hin Hadj. pose proof (insert_usage_entry_ok _ _ _ _ Hins) as (-> & _). apply elem_of_app in Hin as [Hin|Hin%list_elem_of_singleton]; [by apply Ho|]. subst row.
    destruct (canonical_from_bus _ _ _ _ _ _ Hr Hpos Hcan) as (out & Hout & <- & Hid). exists out. simpl. rewrite Hid. split; [done|].
    exists tables, now, pv, rate, amount. done.
  - intros i Hi. assert (Hcase : i ∈ pp_committed p \/ (i = position /\ exists r0, r = Ok r0)).
    { destruct r as [r0|]; [|by left]. destruct (ke_commit e) as [[]|]; [|by left|]; apply elem_of_union in Hi as [->%elem_of_singleton|]; eauto. }
    destruct Hcase as [Hold|[-> [r0 Hr0]]]; [|exists key, value; eauto]. destruct (Hc _ Hold) as (k & v & Hb & [rc Hk]). exists k, v. eauto.
Qed.

Lemma pipe_step_inv p p' : pipe_step p p' -> pipe_inv p -> pipe_inv p'.
Proof.
  destruct 1 as [p s Hs|p position key value processor e Hpos|p faults tables seen1 seen2 now command Hsnap]; intros Hinv.
  - by apply pipe_relay_inv.
  - by apply pipe_deliver_inv.
  - destruct Hinv as [Hr Hm Ho Hc]. pose proof (step_apply decode marshal sha256 faults tables seen1 seen2 (pp_db p) now command Hsnap) as Hs.
    split; simpl; [done|by eapply meter_step_inv| |].
    + pose proof (Apply_applied faults tables seen1 seen2 (pp_db p) now command Hsnap) as Ha. destruct (Apply _ _ _ _ _ _ _) as [db' r]. simpl.
      destruct Ha as [e|row cur r|row cur ledger r Hins (_ & Hadj & _)]; [done|done|]. pose proof (insert_usage_entry_ok _ _ _ _ Hins) as (-> & _). simpl.
      intros row' [Hin|Hin%list_elem_of_singleton]%elem_of_app Hn; [by apply Ho|]. congruence.
    + intros i Hi. destruct (Hc _ Hi) as (k & v & Hb & [rc Hk]). exists k, v. split; [done|]. exists rc. by apply (meter_step_grows decode marshal sha256 _ _ Hs).
Qed.

Lemma pipe_reachable_inv p : pipe_reachable p -> pipe_inv p.
Proof.
  intros H. assert (H0 : pipe_inv pipe_start).
  { split; simpl; [by apply relay_reachable_inv, rtc_refl|by apply (meter_reachable_inv decode), rtc_refl|intros r Hr; by apply not_elem_of_nil in Hr|set_solver]. }
  revert H0. unfold pipe_reachable in H. induction H as [|p1 p2 p3 H12 _ IH]; [done|]. intros H1. by apply IH, (pipe_step_inv p1).
Qed.

(** C8: Every usage event is billed exactly once. Whatever relays and consumers race,
    crash, replay, lose leases or see faults, and whatever is corrected meanwhile: an
    original ledger entry is the price of an event the recorder stored, with its facts;
    an event has at most one entry; a published event is on the bus, and once the
    position of its record is committed it has its entry. *)
Theorem every_usage_event_is_billed_once p : pipe_reachable p ->
  NoDup (lr_eventID <$> md_ledger (pp_db p)) /\
  (forall row, row ∈ md_ledger (pp_db p) -> is_adjustment row = false ->
    exists out, rs_rows (pp_relay p) !! lr_eventID row = Some out /\ priced_as (ob_event out) row) /\
  (forall id out, rs_rows (pp_relay p) !! id = Some out -> ob_status out = OutboxPublished ->
    exists position value, rs_bus (pp_relay p) !! position = Some (id, value)) /\
  (forall position, position ∈ pp_committed p -> exists id value out row,
    rs_bus (pp_relay p) !! position = Some (id, value) /\ rs_rows (pp_relay p) !! id = Some out /\
    find_entry id (md_ledger (pp_db p)) = Some row /\ is_adjustment row = false /\ priced_as (ob_event out) row).
Proof.
  intros [[Hrows Hbus _] Hm Ho Hc]%pipe_reachable_inv. split_and!; [apply history_nodup, Hm|done| |].
  - intros id out Hout Hp. destruct (Hrows _ _ Hout) as (G1 & _ & _ & G4). destruct (G4 Hp) as (payload & _ & Hin). rewrite G1 in Hin.
    apply list_elem_of_lookup in Hin as [i Hi]. eauto.
  - intros position Hpos. destruct (Hc _ Hpos) as (id & value & Hb & [receipt Hrec]). destruct (mi_receipts _ _ _ Hm _ _ Hrec) as (row & event & Hf & Ha & _).
    apply find_entry_Some in Hf as Hfe. destruct Hfe as [Hin Hid]. destruct (Ho _ Hin Ha) as (out & Hout & Hp). rewrite Hid in Hout. exists id, value, out, row. done.
Qed.

(** ** The bill *)
Lemma outbox_ids rows : map_Forall (fun id row => ue_EventID (ob_event row) = id) rows ->
  ue_EventID <$> (ob_event <$> (map_to_list rows).*2) = (map_to_list rows).*1.
Proof.
  intros Hall. rewrite <- !list_fmap_compose. apply list_fmap_ext. intros i [id row] Hi. simpl. apply Hall. apply elem_of_map_to_list. by eapply list_elem_of_lookup_2.
Qed.

Lemma outbox_of_nodup rows tenantID requestID : map_Forall (fun id row => ue_EventID (ob_event row) = id) rows ->
  NoDup (ue_EventID <$> outbox_of rows tenantID requestID).
Proof.
  intros Hall. eapply sublist_NoDup; [|apply fmap_sublist, sublist_filter]. rewrite outbox_ids by done. apply NoDup_fst_map_to_list.
Qed.

Lemma elem_of_outbox_of rows tenantID requestID event : event ∈ outbox_of rows tenantID requestID <->
  of_request tenantID requestID (ue_Identity event) /\ exists id out, rows !! id = Some out /\ ob_event out = event.
Proof.
  unfold outbox_of. rewrite list_elem_of_filter. apply and_iff_compat_l. split.
  - intros (out & -> & Hin)%list_elem_of_fmap. apply list_elem_of_fmap in Hin as ([id row] & -> & Hin). apply elem_of_map_to_list in Hin. eauto.
  - intros (id & out & Hout & <-). apply list_elem_of_fmap. exists out. split; [done|]. apply list_elem_of_fmap. exists (id, out). split; [done|]. by apply elem_of_map_to_list.
Qed.

Definition originals (ledger : Ledger) (tenantID requestID : string) : Ledger :=
  filter (fun row => is_adjustment row = false) (request_entries ledger tenantID requestID).

Lemma elem_of_originals ledger tenantID requestID row : row ∈ originals ledger tenantID requestID <->
  is_adjustment row = false /\ lr_tenantID row = tenantID /\ lr_requestID row = requestID /\ row ∈ ledger.
Proof. unfold originals, request_entries. rewrite !list_elem_of_filter. tauto. Qed.

(** Tenant, request and currency of a correction are those of its target. *)
Lemma correction_group tables ledger tenantID requestID currency row target : ledger_history ledger -> row ∈ ledger ->
  target_of row = Some (lr_eventID target) -> target ∈ ledger ->
  bool_decide (lr_tenantID row = tenantID /\ lr_requestID row = requestID) && bool_decide (currency_of tables row = Some currency) =
  bool_decide (lr_tenantID target = tenantID /\ lr_requestID target = requestID) && bool_decide (currency_of tables target = Some currency).
Proof.
  intros Hh Hin Ht Htin. unfold target_of in Ht. destruct (lr_adjustment row) as [a|] eqn:Ea; [|done]. injection Ht as Ht.
  assert (Hadj : is_adjustment row = true) by (eapply history_adjustment; [done|done|congruence]).
  destruct (history_corrections _ _ Hh Hin Hadj) as (a' & t & E1 & E2 & _ & E4 & E5 & E6 & _). simplify_eq. rewrite Ht in E2.
  rewrite (find_entry_elem _ _ (history_nodup _ Hh) Htin) in E2. injection E2 as <-. unfold currency_of. by rewrite E4, E5, E6.
Qed.

Lemma bill_of_entries tables ledger tenantID requestID currency : ledger_history ledger -> priced_in tables ledger ->
  charged currency (loadLedger tables ledger tenantID requestID) =
  sum_by (fun row => if bool_decide (currency_of tables row = Some currency) then effective_amount (lr_eventID row) ledger else 0)
    (originals ledger tenantID requestID).
Proof.
  intros Hh Hp. unfold loadLedger, charged. rewrite (sum_by_Permutation _ _ _ (sort_facts_perm _)). fold (charged currency (omap (ledger_fact tables) (request_entries ledger tenantID requestID))).
  rewrite charged_facts by (intros row [_ Hin]%list_elem_of_filter; by apply Hp). unfold originals, request_entries. rewrite !sum_by_filter.
  set (P row := bool_decide (lr_tenantID row = tenantID /\ lr_requestID row = requestID) && bool_decide (currency_of tables row = Some currency)).
  etrans; [|etrans; [apply (amounts_are_effective P ledger Hh); intros; unfold P; by eapply correction_group|]]; apply sum_by_ext; intros row Hrow; unfold P; clear P.
  - destruct (decide (lr_tenantID row = tenantID /\ lr_requestID row = requestID)) as [Hd|Hd].
    + rewrite (bool_decide_eq_true_2 _ Hd). reflexivity.
    + rewrite (bool_decide_eq_false_2 _ Hd). reflexivity.
  - destruct (decide (lr_tenantID row = tenantID /\ lr_requestID row = requestID)) as [Hd|Hd].
    + rewrite (bool_decide_eq_true_2 _ Hd). destruct (is_adjustment row), (bool_decide (currency_of tables row = Some currency)); reflexivity.
    + rewrite (bool_decide_eq_false_2 _ Hd). reflexivity.
Qed.

(** C9: A bill is complete and exact. When the cost of a request is returned, its
    original ledger entries are exactly the usage events recorded for it, each once, and
    the total of every currency is the sum of their effective amounts, that is of the
    prices with all corrections applied. [priced_in] states the foreign keys from the
    ledger to the price tables; the identity of a correction, which its author chooses,
    must not be that of a usage event. *)
Theorem bill_is_complete_and_exact p faults tables scope requestID cost : pipe_reachable p -> priced_in tables (md_ledger (pp_db p)) ->
  (forall row, row ∈ md_ledger (pp_db p) -> is_adjustment row = true -> rs_rows (pp_relay p) !! lr_eventID row = None) ->
  Aggregate faults tables (rs_rows (pp_relay p)) (md_ledger (pp_db p)) scope requestID = Ok cost ->
  (lr_eventID <$> originals (md_ledger (pp_db p)) (scope_TenantID scope) requestID) ≡ₚ
    (ue_EventID <$> outbox_of (rs_rows (pp_relay p)) (scope_TenantID scope) requestID) /\
  forall currency, amount_in currency (rc_Totals cost) =
    sum_by (fun row => if bool_decide (currency_of tables row = Some currency) then effective_amount (lr_eventID row) (md_ledger (pp_db p)) else 0)
      (originals (md_ledger (pp_db p)) (scope_TenantID scope) requestID).
Proof.
  intros [Hr Hm Ho _]%pipe_reachable_inv Hp Hfresh (status & n & Hb & _ & _ & Hall)%Aggregate_ok. pose proof (mi_history _ _ _ Hm) as Hh. split.
  - assert (Hids : map_Forall (fun id row => ue_EventID (ob_event row) = id) (rs_rows (pp_relay p))) by (intros id row Hrow; apply (ri_rows _ _ Hr _ _ Hrow)).
    apply NoDup_Permutation.
    + unfold originals, request_entries. do 2 (eapply sublist_NoDup; [|apply fmap_sublist, sublist_filter]). by apply history_nodup.
    + by apply outbox_of_nodup.
    + intros id. rewrite !list_elem_of_fmap. split.
      * intros (row & -> & (Ha & Ht & Hq & Hin)%elem_of_originals). destruct (Ho _ Hin Ha) as (out & Hout & tables0 & t & pv & rate & amount & _ & _ & Hrow).
        exists (ob_event out). rewrite Hrow in Ht, Hq. simpl in Ht, Hq. split; [symmetry; by apply Hids|]. apply elem_of_outbox_of. split; [done|eauto].
      * intros (event & -> & Hin). rewrite Forall_forall in Hall. pose proof (Hall _ Hin) as Hj. apply elem_of_outbox_of in Hin as [[Ht Hq] (id & out & Hout & Hev)]. unfold joins in Hj.
        destruct (find_entry (ue_EventID event) (md_ledger (pp_db p))) as [row|] eqn:Ef; [|done]. destruct Hj as (J1 & J2 & _). apply find_entry_Some in Ef as [Hrow Hid].
        exists row. split; [done|]. apply elem_of_originals. split_and!; [|congruence|congruence|done].
        destruct (is_adjustment row) eqn:Ha; [|done]. pose proof (Hfresh _ Hrow Ha) as Hno. rewrite Hid, <- Hev, (Hids _ _ Hout) in Hno. congruence.
  - intros currency. rewrite (buildRequestCost_totals _ _ _ _ _ _ _ currency Hb). by apply bill_of_entries.
Qed.
End Pipeline.

(** ** A bill *)
Module BillDemo.
Lemma decode_encode event payload : UsageEvent_Validate event = true -> OutboxDemo.encode event = Some payload -> LedgerDemo.decode payload = Some event.
Proof. intros _. unfold OutboxDemo.encode. case_bool_decide as He; [|done]. intros [= <-]. subst event. reflexivity. Qed.

Definition published : PipeSys := {| pp_relay := OutboxDemo.s4; pp_db := meter_start; pp_committed := ∅ |}.
Definition record_env : RecordEnv := {| ke_faults := no_faults; ke_tables := LedgerDemo.tables; ke_now := 5; ke_commit := None |}.
Definition consumed : PipeSys := deliver published 0 (LedgerDemo.process meter_start 5) None.
Definition corrected : PipeSys := {| pp_relay := OutboxDemo.s4; pp_db := LedgerDemo.db2; pp_committed := pp_committed consumed |}.

Lemma published_reachable : pipe_reachable LedgerDemo.decode OutboxDemo.encode LedgerDemo.digest published.
Proof.
  pose proof OutboxDemo.s4_reachable as H. unfold relay_reachable in H. unfold pipe_reachable, pipe_start, published.
  induction H as [s|s1 s2 s3 H12 _ IH]; [apply rtc_refl|]. eapply rtc_l; [|exact IH]. exact (pipe_relay _ _ _ {| pp_relay := s1; pp_db := meter_start; pp_committed := ∅ |} s2 H12).
Qed.

Lemma corrected_reachable : pipe_reachable LedgerDemo.decode OutboxDemo.encode LedgerDemo.digest corrected.
Proof.
  eapply rtc_r; [eapply rtc_r; [exact published_reachable|]|].
  - apply (pipe_deliver _ _ _ published 0 LedgerDemo.key LedgerDemo.payload LedgerDemo.processor record_env). vm_compute. reflexivity.
  - apply (pipe_correct _ _ _ consumed no_faults LedgerDemo.tables (md_ledger LedgerDemo.db1) (md_ledger LedgerDemo.db1) 7 LedgerDemo.command). apply LedgerDemo.seen.
Qed.

Definition bill : result RequestCost aggregate_error :=
  Aggregate no_faults LedgerDemo.tables (rs_rows OutboxDemo.s4) (md_ledger LedgerDemo.db2) (cmd_Scope LedgerDemo.command) "request-1".

Lemma prices_known : priced_in LedgerDemo.tables (md_ledger (pp_db corrected)).
Proof.
  assert (H : forallb (fun row => present (ledger_fact LedgerDemo.tables row)) (md_ledger (pp_db corrected)) = true) by (vm_compute; reflexivity).
  rewrite forallb_forall in H. intros row Hin%list_elem_of_In. specialize (H _ Hin). cbv beta in H. revert H.
  destruct (ledger_fact LedgerDemo.tables row) as [f|]; intros H; [exists f; reflexivity|discriminate H].
Qed.

Lemma corrections_fresh row : row ∈ md_ledger (pp_db corrected) -> is_adjustment row = true -> rs_rows (pp_relay corrected) !! lr_eventID row = None.
Proof.
  assert (H : forallb (fun row => negb (is_adjustment row) || negb (present (rs_rows (pp_relay corrected) !! lr_eventID row))) (md_ledger (pp_db corrected)) = true) by (vm_compute; reflexivity).
  rewrite forallb_forall in H. intros Hin%list_elem_of_In Ha. specialize (H _ Hin). cbv beta in H. rewrite Ha in H. revert H.
  generalize (rs_rows (pp_relay corrected) !! lr_eventID row). intros [out|] H; [discriminate H|reflexivity].
Qed.
End BillDemo.

Lemma every_usage_event_is_billed_once_witness :
  0%nat ∈ pp_committed BillDemo.corrected /\ exists id value out row,
    rs_bus (pp_relay BillDemo.corrected) !! 0%nat = Some (id, value) /\ rs_rows (pp_relay BillDemo.corrected) !! id = Some out /\
    find_entry id (md_ledger (pp_db BillDemo.corrected)) = Some row /\ is_adjustment row = false /\ priced_as (ob_event out) row.
Proof.
  assert (H : 0%nat ∈ pp_committed BillDemo.corrected) by (apply (bool_decide_unpack _); vm_compute; exact I).
  split; [exact H|].
  destruct (every_usage_event_is_billed_once _ _ _ BillDemo.decode_encode BillDemo.corrected BillDemo.corrected_reachable) as (_ & _ & _ & Hc).
  exact (Hc _ H).
Defined.

Lemma bill_is_complete_and_exact_witness : exists cost, BillDemo.bill = Ok cost /\ amount_in "USD" (rc_Totals cost) = 6.
Proof.
  destruct BillDemo.bill as [cost|] eqn:E; [|vm_compute in E; discriminate]. exists cost. split; [reflexivity|].
  rewrite (proj2 (bill_is_complete_and_exact _ _ _ BillDemo.decode_encode BillDemo.corrected no_faults LedgerDemo.tables _ _ cost BillDemo.corrected_reachable
    BillDemo.prices_known BillDemo.corrections_fresh E)). vm_compute. reflexivity.
Defined.
