(* ===== verification/StreamBuffer.v ===== *)
(** * The bounded stream buffer (src/internal/streaming/buffer.go)

    The FIFO between the upstream reader and the client writer. Every critical section
    of the mutex is one step; between them goroutines interleave freely, so a call of
    [Push] or [Next] is a small machine whose program counter says where it is. A wake-up
    channel is the number of times [notifyLocked] has replaced it: the channel with
    number g is closed exactly when the buffer's number is no longer g.

    Then: theorems on the stream buffer. *)
From Stdlib Require Import ZArith Lia Bool Ascii String.
From stdpp Require Import base tactics option list strings gmap fin_maps sets.
From S2P Require Import Prelude Identifiers Unicode JSON Catalog Retry Metering Adapter.
(** ** Contexts *)
(** A context is live, or done with its error and its cause. *)
Notation Context := (option (Sentinel * option Failure)).

(** Also [contextCancellation] of timeout.go. *)
Definition cancellationError (ctx : Context) : option Failure :=
  match ctx with
  | None => None
  | Some (err, None) => Some (Leaf err)
  | Some (err, Some cause) => Some (Wrap [Leaf err; cause])
  end.

(** The [CancelCauseFunc] of a context: the first cancellation wins. *)
Definition cancel_context (ctx : Context) (cause : Failure) : Context :=
  match ctx with None => Some (ContextCanceled, Some cause) | Some _ => ctx end.

(** ** Errors *)
Definition stream_error (text : string) : Failure := Leaf (SentinelOther text).
Definition ErrBufferInvalid : Failure := stream_error "stream buffer input is invalid".
Definition ErrBufferClosed : Failure := stream_error "stream buffer is closed".
Definition ErrBackpressure : Failure := stream_error "stream backpressure limit exceeded".
Definition ErrChunkTooLarge : Failure := stream_error "stream chunk exceeds buffer byte limit".
Definition EOF : Failure := stream_error "EOF".

(** ** Data *)
Record BufferOptions := { MaxChunks : Z; MaxBytes : Z; BackpressureTimeout : Duration }.
Record BufferStats := {
  QueuedChunks : Z; QueuedBytes : Z; MaxObservedChunks : Z; MaxObservedBytes : Z; BackpressureWaits : Z; OverflowCount : Z }.
Record bufferedChunk := { bc_chunk : NormalizedChunk; bc_bytes : Z }.
Record Buffer := {
  bf_ctx : Context; bf_options : BufferOptions; bf_queue : list bufferedChunk; bf_bytes : Z; bf_finished : bool;
  bf_finishErr : option Failure; bf_aborted : bool; bf_abortErr : option Failure; bf_changed : nat; bf_stats : BufferStats }.

Definition chunkAllocationOverhead : Z := 512.

Definition NewBuffer (parent : Context) (options : BufferOptions) : result Buffer Failure :=
  if (MaxChunks options <? 1) || (4096 <? MaxChunks options) || (MaxBytes options <? 1024) || (67108864 <? MaxBytes options) ||
     (BackpressureTimeout options <=? 0) || (30000000000 <? BackpressureTimeout options)
  then Err ErrBufferInvalid
  else Ok {| bf_ctx := parent; bf_options := options; bf_queue := []; bf_bytes := 0; bf_finished := false; bf_finishErr := None;
             bf_aborted := false; bf_abortErr := None; bf_changed := 0;
             bf_stats := {| QueuedChunks := 0; QueuedBytes := 0; MaxObservedChunks := 0; MaxObservedBytes := 0; BackpressureWaits := 0;
                            OverflowCount := 0 |} |}.

(** ** The estimated size of a chunk *)
Definition ChunkKind_string (k : ChunkKind) : string :=
  match k with
  | ChunkMessageStart => "message_start" | ChunkContentDelta => "content_delta" | ChunkReasoningDelta => "reasoning_delta"
  | ChunkToolDelta => "tool_delta" | ChunkUsageDelta => "usage_delta" | ChunkMessageEnd => "message_end" | ChunkHeartbeat => "heartbeat"
  | ChunkProviderExtension => "provider_extension" | ChunkOther value => value
  end.
Definition MessageRole_string (r : MessageRole) : string :=
  match r with
  | RoleSystem => "system" | RoleDeveloper => "developer" | RoleUser => "user" | RoleAssistant => "assistant" | RoleTool => "tool"
  | RoleOther value => value
  end.
Definition FinishReason_string (r : FinishReason) : string :=
  match r with
  | FinishStop => "stop" | FinishLength => "length" | FinishToolCalls => "tool_calls" | FinishContentPolicy => "content_policy"
  | FinishCancelled => "cancelled" | FinishError => "error" | FinishUnknown => "unknown" | FinishOther value => value
  end.
Definition UsageStatus_string (s : UsageStatus) : string :=
  match s with
  | UsageStatusPresent => "present" | UsageStatusPartial => "partial" | UsageStatusMissing => "missing" | UsageStatusOther value => value
  end.

Definition chunk_parts (chunk : NormalizedChunk) : list Z :=
  [len (ChunkKind_string (ch_Kind chunk)); len (MessageRole_string (ch_Role chunk)); len (ch_ContentDelta chunk);
   len (ch_ReasoningDelta chunk); len (FinishReason_string (ch_FinishReason chunk)); len (ch_ProviderFinishReason chunk);
   len (UsageStatus_string (ch_UsageStatus chunk)); len (ch_ProviderEventType chunk); Z.of_nat (length (ch_ProviderExtension chunk))] ++
  match ch_ToolDelta chunk with
  | Some delta => [128; len (td_ID delta); len (td_Name delta); len (td_ArgumentsFragment delta)]
  | None => []
  end ++
  match ch_Usage chunk with
  | Some usage => [256; u_EvidenceBytes usage] ++ concat (map (fun field => [16; len field]) (u_UnmappedFields usage))
  | None => []
  end.

Fixpoint add_parts (weight : Z) (parts : list Z) : result Z Failure :=
  match parts with
  | [] => Ok weight
  | part :: rest => if (part <? 0) || (i64_max - part <? weight) then Err ErrChunkTooLarge else add_parts (weight + part) rest
  end.

Definition estimateChunkBytes (chunk : NormalizedChunk) : result Z Failure :=
  if negb (NormalizedChunk_Validate chunk) then Err ErrBufferInvalid else add_parts chunkAllocationOverhead (chunk_parts chunk).

(** ** Critical sections *)
Definition set_buffer (b : Buffer) (queue : list bufferedChunk) (bytes : Z) (stats : BufferStats) : Buffer :=
  {| bf_ctx := bf_ctx b; bf_options := bf_options b; bf_queue := queue; bf_bytes := bytes; bf_finished := bf_finished b;
     bf_finishErr := bf_finishErr b; bf_aborted := bf_aborted b; bf_abortErr := bf_abortErr b; bf_changed := S (bf_changed b);
     bf_stats := stats |}.

(** The part of [abort] under the mutex; the caller cancels the context when it took
    effect. *)
Definition abort_locked (b : Buffer) (cause : Failure) (overflow : bool) : option Buffer :=
  if bf_finished b || bf_aborted b then None
  else
    let st := bf_stats b in
    Some {| bf_ctx := bf_ctx b; bf_options := bf_options b; bf_queue := []; bf_bytes := 0; bf_finished := bf_finished b;
            bf_finishErr := bf_finishErr b; bf_aborted := true; bf_abortErr := Some cause; bf_changed := S (bf_changed b);
            bf_stats := {| QueuedChunks := 0; QueuedBytes := 0; MaxObservedChunks := MaxObservedChunks st;
                           MaxObservedBytes := MaxObservedBytes st; BackpressureWaits := BackpressureWaits st;
                           OverflowCount := if overflow then u64_add (OverflowCount st) 1 else OverflowCount st |} |}.

Definition cancel (b : Buffer) (cause : Failure) : Buffer :=
  {| bf_ctx := cancel_context (bf_ctx b) cause; bf_options := bf_options b; bf_queue := bf_queue b; bf_bytes := bf_bytes b;
     bf_finished := bf_finished b; bf_finishErr := bf_finishErr b; bf_aborted := bf_aborted b; bf_abortErr := bf_abortErr b;
     bf_changed := bf_changed b; bf_stats := bf_stats b |}.

Definition Finish (b : Buffer) (err : option Failure) : Buffer :=
  if bf_finished b || bf_aborted b then b
  else {| bf_ctx := bf_ctx b; bf_options := bf_options b; bf_queue := bf_queue b; bf_bytes := bf_bytes b; bf_finished := true;
          bf_finishErr := err; bf_aborted := bf_aborted b; bf_abortErr := bf_abortErr b; bf_changed := S (bf_changed b);
          bf_stats := bf_stats b |}.

Definition has_room (b : Buffer) (weight : Z) : bool :=
  (Z.of_nat (length (bf_queue b)) <? MaxChunks (bf_options b)) && (bf_bytes b <=? MaxBytes (bf_options b) - weight).

Definition enqueue (b : Buffer) (queued : bufferedChunk) : Buffer :=
  let queue := bf_queue b ++ [queued] in
  let bytes := bf_bytes b + bc_bytes queued in
  let st := bf_stats b in
  set_buffer b queue bytes
    {| QueuedChunks := Z.of_nat (length queue); QueuedBytes := bytes;
       MaxObservedChunks := Z.max (MaxObservedChunks st) (Z.of_nat (length queue)); MaxObservedBytes := Z.max (MaxObservedBytes st) bytes;
       BackpressureWaits := BackpressureWaits st; OverflowCount := OverflowCount st |}.

Definition dequeue (b : Buffer) (queued : bufferedChunk) (rest : list bufferedChunk) : Buffer :=
  let bytes := bf_bytes b - bc_bytes queued in
  let st := bf_stats b in
  set_buffer b rest bytes
    {| QueuedChunks := Z.of_nat (length rest); QueuedBytes := bytes; MaxObservedChunks := MaxObservedChunks st;
       MaxObservedBytes := MaxObservedBytes st; BackpressureWaits := BackpressureWaits st; OverflowCount := OverflowCount st |}.

Definition record_wait (b : Buffer) : Buffer :=
  let st := bf_stats b in
  {| bf_ctx := bf_ctx b; bf_options := bf_options b; bf_queue := bf_queue b; bf_bytes := bf_bytes b; bf_finished := bf_finished b;
     bf_finishErr := bf_finishErr b; bf_aborted := bf_aborted b; bf_abortErr := bf_abortErr b; bf_changed := bf_changed b;
     bf_stats := {| QueuedChunks := QueuedChunks st; QueuedBytes := QueuedBytes st; MaxObservedChunks := MaxObservedChunks st;
                    MaxObservedBytes := MaxObservedBytes st; BackpressureWaits := u64_add (BackpressureWaits st) 1;
                    OverflowCount := OverflowCount st |} |}.

(** ** Push *)
(** Where a call is: testing the contexts, before the mutex, before the timer is made,
    blocked in the select on channel [changed], between the mutex and the cancellation
    of an abort, or returned. *)
Inductive push_pc :=
| PushCheck | PushLock | PushArm (changed : nat) | PushSelect (changed : nat) | PushCancel (cause : Failure)
| PushDone (err : option Failure).

Record PushCall := { pu_queued : bufferedChunk; pu_waitRecorded : bool; pu_deadline : option Time; pu_pc : push_pc }.

Definition push_at (c : PushCall) (pc : push_pc) : PushCall :=
  {| pu_queued := pu_queued c; pu_waitRecorded := pu_waitRecorded c; pu_deadline := pu_deadline c; pu_pc := pc |}.

(** [abort] from within [Push], which then returns [cause]. *)
Definition push_abort (b : Buffer) (c : PushCall) (cause : Failure) : Buffer * PushCall :=
  match abort_locked b cause true with
  | Some b' => (b', push_at c (PushCancel cause))
  | None => (b, push_at c (PushDone (Some cause)))
  end.

(** Up to the loop. *)
Definition Push_enter (b : Buffer) (chunk : NormalizedChunk) : Buffer * PushCall :=
  let call queued pc := {| pu_queued := queued; pu_waitRecorded := false; pu_deadline := None; pu_pc := pc |} in
  if negb (NormalizedChunk_Validate chunk) then (b, call {| bc_chunk := chunk; bc_bytes := 0 |} (PushDone (Some ErrBufferInvalid)))
  else match estimateChunkBytes chunk with
  | Err e => (b, call {| bc_chunk := chunk; bc_bytes := 0 |} (PushDone (Some e)))
  | Ok weight =>
      let c := call {| bc_chunk := chunk; bc_bytes := weight |} PushCheck in
      if MaxBytes (bf_options b) <? weight then push_abort b c ErrChunkTooLarge else (b, c)
  end.

(** The critical section of the loop, and whether it took the chunk. *)
Definition Push_lock (b : Buffer) (c : PushCall) : Buffer * PushCall * bool :=
  if bf_aborted b || bf_finished b
  then (b, push_at c (PushDone (Some (default ErrBufferClosed (bf_abortErr b)))), false)
  else if has_room b (bc_bytes (pu_queued c)) then (enqueue b (pu_queued c), push_at c (PushDone None), true)
  else (if pu_waitRecorded c then b else record_wait b,
        {| pu_queued := pu_queued c; pu_waitRecorded := true; pu_deadline := pu_deadline c; pu_pc := PushArm (bf_changed b) |}, false).

(** What makes a call advance: its own next statement, its context being done, or one
    of the channels of the select. *)
Inductive push_event := PushRuns | PushCallerDone (ctx : Context) | PushBufferDone | PushWakes | PushTimer.

Definition Push_step (now : Time) (b : Buffer) (c : PushCall) (e : push_event) : option (Buffer * PushCall * bool) :=
  match pu_pc c, e with
  | PushCheck, PushCallerDone ctx => (fun f => (b, push_at c (PushDone (Some f)), false)) <$> cancellationError ctx
  | PushCheck, PushRuns =>
      match cancellationError (bf_ctx b) with
      | Some f => Some (b, push_at c (PushDone (Some f)), false)
      | None => Some (b, push_at c PushLock, false)
      end
  | PushLock, PushRuns => Some (Push_lock b c)
  | PushArm changed, PushRuns =>
      Some (b, {| pu_queued := pu_queued c; pu_waitRecorded := pu_waitRecorded c;
                  pu_deadline := Some (default (now + BackpressureTimeout (bf_options b)) (pu_deadline c)); pu_pc := PushSelect changed |}, false)
  | PushSelect changed, PushWakes => if Nat.eqb changed (bf_changed b) then None else Some (b, push_at c PushCheck, false)
  | PushSelect _, PushCallerDone ctx => (fun f => (b, push_at c (PushDone (Some f)), false)) <$> cancellationError ctx
  | PushSelect _, PushBufferDone => (fun f => (b, push_at c (PushDone (Some f)), false)) <$> cancellationError (bf_ctx b)
  | PushSelect _, PushTimer =>
      match pu_deadline c with
      | Some deadline => if deadline <=? now then Some (push_abort b c ErrBackpressure, false) else None
      | None => None
      end
  | PushCancel cause, PushRuns => Some (cancel b cause, push_at c (PushDone (Some cause)), false)
  | _, _ => None
  end.

(** ** Next *)
Inductive next_pc := NextCheck | NextLock | NextSelect (changed : nat) | NextDone (r : result NormalizedChunk Failure).
Inductive next_event := NextRuns | NextCallerDone (ctx : Context) | NextBufferDone | NextWakes.

(** The critical section, and the chunk it took. *)
Definition Next_lock (b : Buffer) : Buffer * next_pc * option NormalizedChunk :=
  match bf_queue b with
  | queued :: rest => (dequeue b queued rest, NextDone (Ok (bc_chunk queued)), Some (bc_chunk queued))
  | [] =>
      if bf_finished b then (b, NextDone (Err (default EOF (bf_finishErr b))), None)
      else if bf_aborted b then (b, NextDone (Err (default ErrBufferClosed (bf_abortErr b))), None)
      else (b, NextSelect (bf_changed b), None)
  end.

Definition Next_step (b : Buffer) (pc : next_pc) (e : next_event) : option (Buffer * next_pc * option NormalizedChunk) :=
  match pc, e with
  | NextCheck, NextCallerDone ctx => (fun f => (b, NextDone (Err f), None)) <$> cancellationError ctx
  | NextCheck, NextRuns =>
      match cancellationError (bf_ctx b) with
      | Some f => Some (b, NextDone (Err f), None)
      | None => Some (b, NextLock, None)
      end
  | NextLock, NextRuns => Some (Next_lock b)
  | NextSelect changed, NextWakes => if Nat.eqb changed (bf_changed b) then None else Some (b, NextCheck, None)
  | NextSelect _, NextCallerDone ctx => (fun f => (b, NextDone (Err f), None)) <$> cancellationError ctx
  | NextSelect _, NextBufferDone => (fun f => (b, NextDone (Err f), None)) <$> cancellationError (bf_ctx b)
  | _, _ => None
  end.

(** ** Interleavings *)
(** A buffer with the calls in flight, the causes that [Abort] calls have yet to cancel
    the context with, the clock, and the chunks accepted and delivered so far. *)
Record BufferSys := {
  bs_buffer : Buffer; bs_pushes : gmap nat PushCall; bs_nexts : gmap nat next_pc; bs_cancels : list Failure; bs_now : Time;
  bs_accepted : list NormalizedChunk; bs_delivered : list NormalizedChunk }.

Definition with_push (s : BufferSys) (id : nat) (r : Buffer * PushCall * bool) : BufferSys :=
  {| bs_buffer := r.1.1; bs_pushes := <[id := r.1.2]> (bs_pushes s); bs_nexts := bs_nexts s; bs_cancels := bs_cancels s; bs_now := bs_now s;
     bs_accepted := bs_accepted s ++ (if r.2 then [bc_chunk (pu_queued r.1.2)] else []); bs_delivered := bs_delivered s |}.
Definition with_next (s : BufferSys) (id : nat) (r : Buffer * next_pc * option NormalizedChunk) : BufferSys :=
  {| bs_buffer := r.1.1; bs_pushes := bs_pushes s; bs_nexts := <[id := r.1.2]> (bs_nexts s); bs_cancels := bs_cancels s; bs_now := bs_now s;
     bs_accepted := bs_accepted s; bs_delivered := bs_delivered s ++ option_list r.2 |}.
Definition with_buffer (s : BufferSys) (b : Buffer) (cancels : list Failure) (now : Time) : BufferSys :=
  {| bs_buffer := b; bs_pushes := bs_pushes s; bs_nexts := bs_nexts s; bs_cancels := cancels; bs_now := now;
     bs_accepted := bs_accepted s; bs_delivered := bs_delivered s |}.

(** [Abort] up to the cancellation. *)
Definition Abort (b : Buffer) (cause : option Failure) : Buffer * list Failure :=
  let cause := default ErrBufferClosed cause in
  match abort_locked b cause false with Some b' => (b', [cause]) | None => (b, []) end.

(** The parent context is done: so is the buffer's. *)
Definition parent_done (b : Buffer) (ctx : Context) : Buffer :=
  {| bf_ctx := match bf_ctx b with None => ctx | Some _ => bf_ctx b end; bf_options := bf_options b; bf_queue := bf_queue b; bf_bytes := bf_bytes b;
     bf_finished := bf_finished b; bf_finishErr := bf_finishErr b; bf_aborted := bf_aborted b; bf_abortErr := bf_abortErr b;
     bf_changed := bf_changed b; bf_stats := bf_stats b |}.

Inductive buffer_step : BufferSys -> BufferSys -> Prop :=
| step_push_enter s id chunk :
    bs_pushes s !! id = None -> buffer_step s (with_push s id (Push_enter (bs_buffer s) chunk, false))
| step_push s id c e r :
    bs_pushes s !! id = Some c -> Push_step (bs_now s) (bs_buffer s) c e = Some r -> buffer_step s (with_push s id r)
| step_next_enter s id : bs_nexts s !! id = None -> buffer_step s (with_next s id (bs_buffer s, NextCheck, None))
| step_next s id pc e r :
    bs_nexts s !! id = Some pc -> Next_step (bs_buffer s) pc e = Some r -> buffer_step s (with_next s id r)
| step_finish s err : buffer_step s (with_buffer s (Finish (bs_buffer s) err) (bs_cancels s) (bs_now s))
| step_abort s cause :
    buffer_step s (with_buffer s (Abort (bs_buffer s) cause).1 ((Abort (bs_buffer s) cause).2 ++ bs_cancels s) (bs_now s))
| step_cancel s cause rest :
    bs_cancels s = cause :: rest -> buffer_step s (with_buffer s (cancel (bs_buffer s) cause) rest (bs_now s))
| step_parent s ctx : buffer_step s (with_buffer s (parent_done (bs_buffer s) ctx) (bs_cancels s) (bs_now s))
| step_clock s now : bs_now s <= now -> buffer_step s (with_buffer s (bs_buffer s) (bs_cancels s) now).

Definition buffer_start (b : Buffer) (now : Time) : BufferSys :=
  {| bs_buffer := b; bs_pushes := ∅; bs_nexts := ∅; bs_cancels := []; bs_now := now; bs_accepted := []; bs_delivered := [] |}.

Definition buffer_reachable (parent : Context) (options : BufferOptions) (s : BufferSys) : Prop :=
  exists b now, NewBuffer parent options = Ok b /\ rtc buffer_step (buffer_start b now) s.

(** ** Theorems on the stream buffer

    Over all interleavings of producers, consumers, [Finish], [Abort] and cancellations:
    the bounds hold, chunks leave in the order they came, and nobody sleeps through a
    wake-up. *)
(** ** The invariant *)
Definition weights (queue : list bufferedChunk) : Z := sum_by bc_bytes queue.
Definition contents (b : Buffer) : list NormalizedChunk := bc_chunk <$> bf_queue b.
Definition weighed (q : bufferedChunk) : Prop := estimateChunkBytes (bc_chunk q) = Ok (bc_bytes q).
Definition open (b : Buffer) : Prop := bf_finished b = false /\ bf_aborted b = false.

Record buf_ok (o : BufferOptions) (b : Buffer) (accepted delivered : list NormalizedChunk) : Prop := {
  bo_options : bf_options b = o;
  bo_weighed : Forall weighed (bf_queue b);
  bo_bytes : bf_bytes b = weights (bf_queue b) /\ bf_bytes b <= MaxBytes o /\ Z.of_nat (length (bf_queue b)) <= MaxChunks o;
  bo_stats : QueuedChunks (bf_stats b) = Z.of_nat (length (bf_queue b)) /\ QueuedBytes (bf_stats b) = bf_bytes b /\
    QueuedChunks (bf_stats b) <= MaxObservedChunks (bf_stats b) <= MaxChunks o /\
    QueuedBytes (bf_stats b) <= MaxObservedBytes (bf_stats b) <= MaxBytes o;
  bo_aborted : bf_aborted b = true -> bf_queue b = [] /\ bf_finished b = false;
  bo_fifo : delivered `prefix_of` accepted /\ (bf_aborted b = false -> accepted = delivered ++ contents b) }.

(** What a blocked call has seen, as long as its channel is the current one. *)
Definition push_waits (b : Buffer) (c : PushCall) : Prop :=
  match pu_pc c with
  | PushDone _ | PushCancel _ => True
  | PushCheck | PushLock => weighed (pu_queued c) /\ bc_bytes (pu_queued c) <= MaxBytes (bf_options b)
  | PushArm g =>
      weighed (pu_queued c) /\ bc_bytes (pu_queued c) <= MaxBytes (bf_options b) /\
      (g <= bf_changed b)%nat /\ (g = bf_changed b -> open b /\ has_room b (bc_bytes (pu_queued c)) = false)
  | PushSelect g =>
      weighed (pu_queued c) /\ bc_bytes (pu_queued c) <= MaxBytes (bf_options b) /\ is_Some (pu_deadline c) /\
      (g <= bf_changed b)%nat /\ (g = bf_changed b -> open b /\ has_room b (bc_bytes (pu_queued c)) = false)
  end.

Definition next_waits (b : Buffer) (pc : next_pc) : Prop :=
  match pc with
  | NextSelect g => (g <= bf_changed b)%nat /\ (g = bf_changed b -> open b /\ bf_queue b = [])
  | _ => True
  end.

Record buffer_inv (o : BufferOptions) (s : BufferSys) : Prop := {
  bi_buffer : buf_ok o (bs_buffer s) (bs_accepted s) (bs_delivered s);
  bi_pushes : map_Forall (fun _ c => push_waits (bs_buffer s) c) (bs_pushes s);
  bi_nexts : map_Forall (fun _ pc => next_waits (bs_buffer s) pc) (bs_nexts s) }.

(** ** What a step does to the waiting calls *)
(** Either nothing a waiter depends on changes, or every waiter is woken. *)
Definition settled (b b' : Buffer) : Prop :=
  bf_queue b' = bf_queue b /\ bf_bytes b' = bf_bytes b /\ bf_finished b' = bf_finished b /\ bf_aborted b' = bf_aborted b /\
  bf_changed b' = bf_changed b.
Definition notifies (b b' : Buffer) : Prop := bf_options b' = bf_options b /\ (settled b b' \/ (bf_changed b < bf_changed b')%nat).

#[export] Instance notifies_refl : Reflexive notifies.
Proof. intros b. split; [done|]. left. done. Qed.

Lemma room_settled b b' w : bf_options b' = bf_options b -> settled b b' -> has_room b' w = has_room b w.
Proof. unfold has_room. by intros -> (-> & -> & _). Qed.

Lemma push_waits_later b b' c : notifies b b' -> push_waits b c -> push_waits b' c.
Proof.
  intros [Ho Hn]. unfold push_waits, open.
  assert (Hw : forall g w, (g <= bf_changed b)%nat /\ (g = bf_changed b -> (bf_finished b = false /\ bf_aborted b = false) /\ has_room b w = false) ->
    (g <= bf_changed b')%nat /\ (g = bf_changed b' -> (bf_finished b' = false /\ bf_aborted b' = false) /\ has_room b' w = false)).
  { intros g w [Hg Hb]. destruct Hn as [Hs|Hlt]; [|split; [lia|intros ->; lia]].
    rewrite (room_settled _ _ _ Ho Hs). by destruct Hs as (_ & _ & -> & -> & ->). }
  rewrite Ho. destruct (pu_pc c); naive_solver.
Qed.

Lemma next_waits_later b b' pc : notifies b b' -> next_waits b pc -> next_waits b' pc.
Proof.
  intros [Ho Hn]. unfold next_waits, open. destruct pc; try done. intros [Hg Hb].
  destruct Hn as [(Hq & _ & -> & -> & ->)|Hlt]; [|split; [lia|intros ->; lia]]. by rewrite Hq.
Qed.

(** ** Each change of the buffer *)
Lemma add_parts_ge parts : forall w w', add_parts w parts = Ok w' -> w <= w'.
Proof.
  induction parts as [|p parts IH]; intros w w'; simpl; [by intros [= ->]|]. destruct ((p <? 0) || (i64_max - p <? w)) eqn:E; [done|].
  prop_hyps. intros Hw%IH. lia.
Qed.

Lemma weighed_ge q : weighed q -> chunkAllocationOverhead <= bc_bytes q.
Proof. unfold weighed, estimateChunkBytes. case_match; [done|]. apply add_parts_ge. Qed.

Lemma weights_nonneg queue : Forall weighed queue -> 0 <= weights queue.
Proof.
  induction 1 as [|q queue Hq _ IH]; [done|]. apply weighed_ge in Hq. unfold weights, chunkAllocationOverhead in *. cbn. lia.
Qed.

Lemma weights_snoc queue q : weights (queue ++ [q]) = weights queue + bc_bytes q.
Proof. unfold weights. rewrite sum_by_app. simpl. lia. Qed.

Section Changes.
Context (o : BufferOptions) (b : Buffer) (accepted delivered : list NormalizedChunk).
Hypothesis Hok : buf_ok o b accepted delivered.

Lemma enqueue_ok q : weighed q -> has_room b (bc_bytes q) = true -> bf_aborted b = false ->
  buf_ok o (enqueue b q) (accepted ++ [bc_chunk q]) delivered.
Proof.
  intros Hq Hr Ha. destruct Hok as [Ho Hw (Hb & Hmax & Hlen) (S1 & S2 & S3 & S4) _ [Hp Hf]]. unfold has_room in Hr. prop_hyps. rewrite Ho in *.
  specialize (Hf Ha). pose proof (weighed_ge _ Hq). unfold chunkAllocationOverhead in *.
  split; simpl; rewrite ?length_app, ?weights_snoc; simpl; try done; try lia.
  - by apply Forall_app_2; [|apply Forall_singleton].
  - congruence.
  - split; [by apply prefix_app_r|]. intros _. unfold contents. simpl. rewrite Hf, fmap_app. by rewrite <- app_assoc.
Qed.

Lemma dequeue_ok q rest : bf_queue b = q :: rest -> buf_ok o (dequeue b q rest) accepted (delivered ++ [bc_chunk q]).
Proof.
  intros Hq. destruct Hok as [Ho Hw (Hb & Hmax & Hlen) (S1 & S2 & S3 & S4) Ha [Hp Hf]]. rewrite Hq in *. apply Forall_cons in Hw as [Hw1 Hw].
  pose proof (weighed_ge _ Hw1). pose proof (weights_nonneg _ Hw). unfold weights, chunkAllocationOverhead in *. simpl in Hb, Hlen, S1.
  split; unfold weights; simpl; try done; try lia.
  - intros E. by destruct (Ha E).
  - destruct (bf_aborted b) eqn:Ea; [by destruct (Ha eq_refl)|]. specialize (Hf eq_refl). unfold contents in *. rewrite Hq in Hf. simpl in *.
    rewrite Hf. split; [|intros _; by rewrite <- app_assoc]. exists (bc_chunk <$> rest). by rewrite <- app_assoc.
Qed.

Lemma abort_ok cause overflow b' : abort_locked b cause overflow = Some b' -> buf_ok o b' accepted delivered.
Proof.
  unfold abort_locked. destruct (bf_finished b) eqn:Ef; [done|]. destruct (bf_aborted b) eqn:Ea; [done|]. simpl. intros [= <-].
  destruct Hok as [Ho Hw (Hb & Hmax & Hlen) (S1 & S2 & S3 & S4) _ [Hp Hf]]. pose proof (weights_nonneg _ Hw).
  split; simpl; try done; try lia. split; [done|]. split; lia.
Qed.

Lemma same_ok b' : bf_options b' = bf_options b -> bf_queue b' = bf_queue b -> bf_bytes b' = bf_bytes b ->
  (bf_aborted b' = bf_aborted b) -> (bf_aborted b = false \/ bf_finished b' = bf_finished b) ->
  QueuedChunks (bf_stats b') = QueuedChunks (bf_stats b) -> QueuedBytes (bf_stats b') = QueuedBytes (bf_stats b) ->
  MaxObservedChunks (bf_stats b') = MaxObservedChunks (bf_stats b) -> MaxObservedBytes (bf_stats b') = MaxObservedBytes (bf_stats b) ->
  buf_ok o b' accepted delivered.
Proof.
  intros E1 E2 E3 E4 E5 E6 E7 E8 E9. destruct Hok as [Ho Hw Hb Hs Ha Hf]. split; unfold contents in *; rewrite ?E1, ?E2, ?E3, ?E4, ?E6, ?E7, ?E8, ?E9; try done.
  intros Ht. destruct (Ha Ht) as [Hq Hfin]. split; [done|]. destruct E5 as [E5| ->]; [congruence|done].
Qed.
End Changes.

(** ** Every step preserves the invariant *)
Lemma abort_notifies b cause overflow b' : abort_locked b cause overflow = Some b' -> notifies b b'.
Proof. unfold abort_locked. case_match; [done|]. intros [= <-]. split; [done|]. right. simpl. lia. Qed.

Lemma cancel_ok o b accepted delivered cause : buf_ok o b accepted delivered -> buf_ok o (cancel b cause) accepted delivered.
Proof. intros H. eapply same_ok; try done. by right. Qed.
Lemma cancel_notifies b cause : notifies b (cancel b cause).
Proof. split; [done|]. by left. Qed.

Lemma push_abort_ok o b accepted delivered c cause : buf_ok o b accepted delivered ->
  buf_ok o (push_abort b c cause).1 accepted delivered /\ notifies b (push_abort b c cause).1 /\
  push_waits (push_abort b c cause).1 (push_abort b c cause).2.
Proof.
  intros H. unfold push_abort. destruct (abort_locked b cause true) as [b'|] eqn:E; simpl; [|done].
  split; [by eapply abort_ok|]. split; [by eapply abort_notifies|done].
Qed.

Lemma push_enter_ok o b accepted delivered chunk : buf_ok o b accepted delivered ->
  buf_ok o (Push_enter b chunk).1 accepted delivered /\ notifies b (Push_enter b chunk).1 /\
  push_waits (Push_enter b chunk).1 (Push_enter b chunk).2.
Proof.
  intros H. unfold Push_enter. case_match; [done|]. destruct (estimateChunkBytes chunk) as [w|e] eqn:E; [|done].
  case_match; prop_hyps; [by apply push_abort_ok|]. unfold push_waits, weighed. simpl. by split_and!.
Qed.

Definition taken (r : Buffer * PushCall * bool) : list NormalizedChunk := if r.2 then [bc_chunk (pu_queued r.1.2)] else [].

Lemma push_lock_ok o b accepted delivered c : buf_ok o b accepted delivered -> pu_pc c = PushLock -> push_waits b c ->
  buf_ok o (Push_lock b c).1.1 (accepted ++ taken (Push_lock b c)) delivered /\ notifies b (Push_lock b c).1.1 /\
  push_waits (Push_lock b c).1.1 (Push_lock b c).1.2.
Proof.
  intros Hok Hpc Hw. unfold push_waits in Hw. rewrite Hpc in Hw. destruct Hw as [Hq Hm]. unfold Push_lock, taken. destruct (_ || _) eqn:Ec; prop_hyps.
  { simpl. by rewrite app_nil_r. }
  destruct (has_room b (bc_bytes (pu_queued c))) eqn:Er; simpl.
  - split; [by apply enqueue_ok|]. split; [|done]. split; [done|]. right. simpl. lia.
  - rewrite app_nil_r. destruct (pu_waitRecorded c); simpl.
    + by split_and!.
    + split; [eapply same_ok; try done; by right|]. split; [split; [done|]; by left|]. unfold push_waits. simpl. by split_and!.
Qed.

Lemma push_step_ok o now b accepted delivered c e r : buf_ok o b accepted delivered -> push_waits b c -> Push_step now b c e = Some r ->
  buf_ok o r.1.1 (accepted ++ taken r) delivered /\ notifies b r.1.1 /\ push_waits r.1.1 r.1.2.
Proof.
  intros Hok Hw. unfold Push_step, taken. destruct (pu_pc c) eqn:Hpc, e; try done.
  - destruct (cancellationError (bf_ctx b)); intros [= <-]; simpl; rewrite app_nil_r; try done. unfold push_waits in *. rewrite Hpc in Hw. done.
  - destruct (cancellationError ctx); intros [= <-]; simpl. by rewrite app_nil_r.
  - intros [= <-]. by apply push_lock_ok.
  - intros [= <-]. simpl. rewrite app_nil_r. unfold push_waits in *. rewrite Hpc in Hw. simpl. destruct Hw as (? & ? & ? & ?).
    refine (conj Hok (conj (notifies_refl b) _)). split_and!; try done; by eexists.
  - destruct (cancellationError ctx); intros [= <-]; simpl. by rewrite app_nil_r.
  - destruct (cancellationError (bf_ctx b)); intros [= <-]; simpl. by rewrite app_nil_r.
  - case_match; [done|]. intros [= <-]. simpl. rewrite app_nil_r. unfold push_waits in *. rewrite Hpc in Hw. simpl. destruct Hw as (? & ? & ?). by refine (conj Hok (conj (notifies_refl b) _)).
  - case_match; [|done]. case_match; [|done]. intros [= <-]. simpl. rewrite app_nil_r. by apply push_abort_ok.
  - intros [= <-]. simpl. rewrite app_nil_r. split; [by apply cancel_ok|]. split; [apply cancel_notifies|done].
Qed.

Lemma next_step_ok o b accepted delivered pc e r : buf_ok o b accepted delivered -> next_waits b pc -> Next_step b pc e = Some r ->
  buf_ok o r.1.1 accepted (delivered ++ option_list r.2) /\ notifies b r.1.1 /\ next_waits r.1.1 r.1.2.
Proof.
  intros Hok Hw. unfold Next_step. destruct pc, e; try done.
  - destruct (cancellationError (bf_ctx b)); intros [= <-]; simpl; by rewrite app_nil_r.
  - destruct (cancellationError ctx); intros [= <-]; simpl. by rewrite app_nil_r.
  - intros [= <-]. unfold Next_lock. destruct (bf_queue b) as [|q rest] eqn:Eq.
    + destruct (bf_finished b) eqn:Ef; [by simpl; rewrite app_nil_r|]. destruct (bf_aborted b) eqn:Ea; simpl; rewrite app_nil_r; [done|].
      unfold next_waits, open. by split_and!.
    + simpl. split; [by apply dequeue_ok|]. split; [|done]. split; [done|]. right. simpl. lia.
  - destruct (cancellationError ctx); intros [= <-]; simpl. by rewrite app_nil_r.
  - destruct (cancellationError (bf_ctx b)); intros [= <-]; simpl. by rewrite app_nil_r.
  - case_match; [done|]. intros [= <-]. simpl. by rewrite app_nil_r.
Qed.

(** A change of the buffer alone. *)
Lemma buffer_inv_change o s b cancels now : buffer_inv o s -> buf_ok o b (bs_accepted s) (bs_delivered s) -> notifies (bs_buffer s) b ->
  buffer_inv o (with_buffer s b cancels now).
Proof.
  intros [Hb Hp Hn] Hok Hnot. split; simpl; [done|..].
  - eapply map_Forall_impl; [exact Hp|]. intros i c; simpl; by apply push_waits_later.
  - eapply map_Forall_impl; [exact Hn|]. intros i c; simpl; by apply next_waits_later.
Qed.

Lemma buffer_inv_push o s id r : buffer_inv o s -> buf_ok o r.1.1 (bs_accepted s ++ taken r) (bs_delivered s) -> notifies (bs_buffer s) r.1.1 ->
  push_waits r.1.1 r.1.2 -> buffer_inv o (with_push s id r).
Proof.
  intros [Hb Hp Hn] Hok Hnot Hw. split; simpl; [done|..].
  - apply map_Forall_insert_2; [done|]. eapply map_Forall_impl; [exact Hp|]. intros i c; simpl; by apply push_waits_later.
  - eapply map_Forall_impl; [exact Hn|]. intros i c; simpl; by apply next_waits_later.
Qed.

Lemma buffer_inv_next o s id r : buffer_inv o s -> buf_ok o r.1.1 (bs_accepted s) (bs_delivered s ++ option_list r.2) -> notifies (bs_buffer s) r.1.1 ->
  next_waits r.1.1 r.1.2 -> buffer_inv o (with_next s id r).
Proof.
  intros [Hb Hp Hn] Hok Hnot Hw. split; simpl; [done|..].
  - eapply map_Forall_impl; [exact Hp|]. intros i c; simpl; by apply push_waits_later.
  - apply map_Forall_insert_2; [done|]. eapply map_Forall_impl; [exact Hn|]. intros i c; simpl; by apply next_waits_later.
Qed.

Lemma finish_ok o b accepted delivered err : buf_ok o b accepted delivered ->
  buf_ok o (Finish b err) accepted delivered /\ notifies b (Finish b err).
Proof.
  intros H. unfold Finish. destruct (_ || _) eqn:E; [done|]. prop_hyps. split; [eapply same_ok; try done; by left|]. split; [done|]. right. simpl. lia.
Qed.

Lemma abort_call_ok o b accepted delivered cause : buf_ok o b accepted delivered ->
  buf_ok o (Abort b cause).1 accepted delivered /\ notifies b (Abort b cause).1.
Proof.
  intros H. unfold Abort. destruct (abort_locked _ _ _) as [b'|] eqn:E; [|done]. split; [by eapply abort_ok|by eapply abort_notifies].
Qed.

Lemma buffer_step_inv o s s' : buffer_inv o s -> buffer_step s s' -> buffer_inv o s'.
Proof.
  intros Hinv Hs. pose proof (bi_buffer _ _ Hinv) as Hb. destruct Hs as [s id chunk _|s id c e r Hc He|s id _|s id pc e r Hc He|s err|s cause|s cause rest _|s ctx|s now _].
  - destruct (push_enter_ok _ _ _ _ chunk Hb) as (H1 & H2 & H3). apply buffer_inv_push; simpl; try done. by rewrite app_nil_r.
  - destruct (push_step_ok _ _ _ _ _ _ _ _ Hb (bi_pushes _ _ Hinv _ _ Hc) He) as (H1 & H2 & H3). by apply buffer_inv_push.
  - apply buffer_inv_next; simpl; try done. by rewrite app_nil_r.
  - destruct (next_step_ok _ _ _ _ _ _ _ Hb (bi_nexts _ _ Hinv _ _ Hc) He) as (H1 & H2 & H3). by apply buffer_inv_next.
  - destruct (finish_ok _ _ _ _ err Hb). by apply buffer_inv_change.
  - destruct (abort_call_ok _ _ _ _ cause Hb). by apply buffer_inv_change.
  - apply buffer_inv_change; [done|by apply cancel_ok|apply cancel_notifies].
  - apply buffer_inv_change; [done|eapply same_ok; try done; by right|]. split; [done|]. by left.
  - by apply buffer_inv_change.
Qed.

Lemma buffer_start_inv parent o b now : NewBuffer parent o = Ok b -> buffer_inv o (buffer_start b now).
Proof.
  unfold NewBuffer. case_match; [done|]. prop_hyps. intros [= <-]. split; simpl; [|done|done]. split; unfold weights; simpl; try done; split_and!; try done; lia.
Qed.

Lemma buffer_reachable_inv parent o s : buffer_reachable parent o s -> buffer_inv o s.
Proof.
  intros (b & now & Hb & Hs). apply (buffer_start_inv _ _ _ now) in Hb. induction Hs; [done|]. apply IHHs. by eapply buffer_step_inv.
Qed.

(** ** After [Finish] nothing is accepted and nothing is dropped *)
Lemma finished_step s s' : buffer_step s s' -> bf_finished (bs_buffer s) = true ->
  bf_finished (bs_buffer s') = true /\ bf_finishErr (bs_buffer s') = bf_finishErr (bs_buffer s) /\ bs_accepted s' = bs_accepted s.
Proof.
  assert (Habort : forall b cause overflow, bf_finished b = true -> abort_locked b cause overflow = None) by (intros b ? ? Hf; unfold abort_locked; by rewrite Hf).
  intros Hs Hf. destruct Hs as [s id chunk _|s id c e r Hc He|s id _|s id pc e r Hc He|s err|s cause|s cause rest _|s ctx|s now _]; simpl; try done.
  - rewrite app_nil_r. unfold Push_enter, push_abort. repeat case_match; simpl; try done. by rewrite Habort in *.
  - unfold Push_step, Push_lock, push_abort in He. rewrite Hf, orb_true_r in He. rewrite Habort in He by done.
    destruct (pu_pc c), e; try done; repeat (case_match; simplify_eq/=); simpl in *; simplify_eq/=; try (by rewrite app_nil_r).
    all: destruct (cancellationError _); simplify_eq/=; by rewrite app_nil_r.
  - unfold Next_step, Next_lock in He. rewrite Hf in He. destruct pc, e; try done; repeat (case_match; simplify_eq/=); simpl in *; simplify_eq/=; try done.
    all: destruct (cancellationError _); by simplify_eq/=.
  - unfold Finish. by rewrite Hf.
  - unfold Abort. by rewrite Habort.
Qed.

Lemma finished_steps s s' : rtc buffer_step s s' -> bf_finished (bs_buffer s) = true ->
  bf_finished (bs_buffer s') = true /\ bf_finishErr (bs_buffer s') = bf_finishErr (bs_buffer s) /\ bs_accepted s' = bs_accepted s.
Proof.
  induction 1 as [|s1 s2 s3 H12 _ IH]; intros Hf; [done|]. destruct (finished_step _ _ H12 Hf) as (F & E & A). destruct (IH F) as (F' & E' & A').
  split_and!; congruence.
Qed.

(** The queue never outgrows its two bounds. In every interleaving the queued chunks
    are at most MaxChunks and their estimated sizes add up to at most MaxBytes, the
    statistics report exactly the queue, and the high-water marks cover it and stay
    within the bounds. *)
Theorem buffer_stays_within_bounds parent options s : buffer_reachable parent options s ->
  let b := bs_buffer s in
  Z.of_nat (length (bf_queue b)) <= MaxChunks options /\
  bf_bytes b = sum_by bc_bytes (bf_queue b) /\ bf_bytes b <= MaxBytes options /\
  Forall (fun q => estimateChunkBytes (bc_chunk q) = Ok (bc_bytes q) /\ 512 <= bc_bytes q) (bf_queue b) /\
  QueuedChunks (bf_stats b) = Z.of_nat (length (bf_queue b)) /\ QueuedBytes (bf_stats b) = bf_bytes b /\
  Z.of_nat (length (bf_queue b)) <= MaxObservedChunks (bf_stats b) <= MaxChunks options /\
  bf_bytes b <= MaxObservedBytes (bf_stats b) <= MaxBytes options.
Proof.
  intros H%buffer_reachable_inv b. destruct (bi_buffer _ _ H) as [Ho Hw (Hb & Hmax & Hlen) (S1 & S2 & S3 & S4) _ _].
  rewrite S1 in S3. rewrite S2 in S4. split_and!; try done; try apply S3; try apply S4.
  eapply Forall_impl; [exact Hw|]. intros q Hq. split; [done|]. by apply weighed_ge.
Qed.

(** The stream is delivered in order, without loss or duplication. The chunks
    delivered are a prefix of the chunks accepted, and unless the buffer was aborted the
    rest is exactly the queue; once [Finish] was called its result is final, no chunk
    is accepted and none is dropped, so a drained queue means that everything was
    delivered. *)
Theorem buffer_is_fifo parent options s s' : buffer_reachable parent options s -> rtc buffer_step s s' ->
  bs_delivered s `prefix_of` bs_accepted s /\
  (bf_aborted (bs_buffer s) = false -> bs_accepted s = bs_delivered s ++ (bc_chunk <$> bf_queue (bs_buffer s))) /\
  (bf_finished (bs_buffer s) = true ->
    bf_finishErr (bs_buffer s') = bf_finishErr (bs_buffer s) /\ bs_accepted s' = bs_accepted s /\
    bs_accepted s' = bs_delivered s' ++ (bc_chunk <$> bf_queue (bs_buffer s'))).
Proof.
  intros H Hs. assert (H' : buffer_reachable parent options s').
  { destruct H as (b & now & Hb & H). exists b, now. split; [done|]. by etrans. }
  apply buffer_reachable_inv in H, H'. destruct (bo_fifo _ _ _ _ (bi_buffer _ _ H)) as [Hp Hf]. split_and!; [done..|]. intros Hfin.
  destruct (finished_steps _ _ Hs Hfin) as (F & E & A). split_and!; [done..|]. apply (bo_fifo _ _ _ _ (bi_buffer _ _ H')).
  destruct (bf_aborted (bs_buffer s')) eqn:Ea; [|done]. destruct (bo_aborted _ _ _ _ (bi_buffer _ _ H') Ea). congruence.
Qed.

(** What can make a call move while its own context is live. *)
Definition push_moves : list push_event := [PushRuns; PushBufferDone; PushWakes; PushTimer].
Definition next_moves : list next_event := [NextRuns; NextBufferDone; NextWakes].

(** Nobody sleeps through a wake-up. In every interleaving, a [Push] with a live
    context that cannot take a step has returned or is blocked in its select while the
    buffer is open, without room for its chunk, not cancelled and before its deadline; a
    [Next] that cannot take a step is blocked while the buffer is open, empty and not
    cancelled. *)
Theorem buffer_blocks_only_when_it_must parent options s : buffer_reachable parent options s ->
  (forall id c, bs_pushes s !! id = Some c -> Forall (fun e => Push_step (bs_now s) (bs_buffer s) c e = None) push_moves ->
    (exists err, pu_pc c = PushDone err) \/
    (exists deadline, pu_deadline c = Some deadline /\ bs_now s < deadline /\ bf_ctx (bs_buffer s) = None /\
      bf_finished (bs_buffer s) = false /\ bf_aborted (bs_buffer s) = false /\
      has_room (bs_buffer s) (bc_bytes (pu_queued c)) = false)) /\
  (forall id pc, bs_nexts s !! id = Some pc -> Forall (fun e => Next_step (bs_buffer s) pc e = None) next_moves ->
    (exists r, pc = NextDone r) \/
    (bf_queue (bs_buffer s) = [] /\ bf_ctx (bs_buffer s) = None /\ bf_finished (bs_buffer s) = false /\ bf_aborted (bs_buffer s) = false)).
Proof.
  intros H%buffer_reachable_inv. split.
  - intros id c Hc Hstuck. pose proof (bi_pushes _ _ H _ _ Hc) as Hw. simpl in Hw. unfold push_waits in Hw.
    unfold push_moves in Hstuck. rewrite !Forall_cons in Hstuck. destruct Hstuck as (H0 & H3 & H1 & H2 & _). destruct (pu_pc c) eqn:Hpc.
    + unfold Push_step in H0. rewrite Hpc in H0. by destruct (cancellationError _).
    + unfold Push_step in H0. by rewrite Hpc in H0.
    + unfold Push_step in H0. by rewrite Hpc in H0.
    + right. destruct Hw as (_ & _ & [deadline Hd] & Hg & Hb). exists deadline.
      unfold Push_step in H1, H2, H3. rewrite Hpc in H1, H2, H3. rewrite Hd in H2. destruct (Nat.eqb_spec changed (bf_changed (bs_buffer s))); [|done].
      destruct (Hb e) as [[? ?] ?]. destruct (deadline <=? bs_now s) eqn:El; [done|]. prop_hyps. split_and!; try done.
      by destruct (bf_ctx (bs_buffer s)) as [[? [?|]]|].
    + unfold Push_step in H0. by rewrite Hpc in H0.
    + left. by eexists.
  - intros id pc Hc Hstuck. pose proof (bi_nexts _ _ H _ _ Hc) as Hw. simpl in Hw.
    unfold next_moves in Hstuck. rewrite !Forall_cons in Hstuck. destruct Hstuck as (H0 & H2 & H1 & _). destruct pc as [| |g|r]; simpl in H0, H1, H2.
    + by destruct (cancellationError _).
    + done.
    + right. destruct Hw as [Hg Hb].
      destruct (Nat.eqb_spec g (bf_changed (bs_buffer s))); [|done]. destruct (Hb e) as [[? ?] ?]. split_and!; try done.
      by destruct (bf_ctx (bs_buffer s)) as [[? [?|]]|].
    + left. by eexists.
Qed.

(** ** A run *)
(** Moves of a run, and the state they lead to. *)
Inductive buffer_move :=
| MovePush (id : nat) (chunk : NormalizedChunk) | MovePushStep (id : nat) (e : push_event) | MoveNext (id : nat)
| MoveNextStep (id : nat) (e : next_event) | MoveFinish (err : option Failure).

Definition buffer_run_step (s : BufferSys) (m : buffer_move) : option BufferSys :=
  match m with
  | MovePush id chunk => match bs_pushes s !! id with None => Some (with_push s id (Push_enter (bs_buffer s) chunk, false)) | Some _ => None end
  | MovePushStep id e => c ← bs_pushes s !! id; with_push s id <$> Push_step (bs_now s) (bs_buffer s) c e
  | MoveNext id => match bs_nexts s !! id with None => Some (with_next s id (bs_buffer s, NextCheck, None)) | Some _ => None end
  | MoveNextStep id e => pc ← bs_nexts s !! id; with_next s id <$> Next_step (bs_buffer s) pc e
  | MoveFinish err => Some (with_buffer s (Finish (bs_buffer s) err) (bs_cancels s) (bs_now s))
  end.

Lemma buffer_run_step_ok s m s' : buffer_run_step s m = Some s' -> buffer_step s s'.
Proof.
  destruct m; simpl.
  - destruct (bs_pushes s !! id) eqn:E; [done|]. intros [= <-]. by constructor.
  - destruct (bs_pushes s !! id) eqn:E; simpl; [|done]. destruct (Push_step _ _ _ _) eqn:E'; simpl; [|done]. intros [= <-]. by econstructor.
  - destruct (bs_nexts s !! id) eqn:E; [done|]. intros [= <-]. by constructor.
  - destruct (bs_nexts s !! id) eqn:E; simpl; [|done]. destruct (Next_step _ _ _) eqn:E'; simpl; [|done]. intros [= <-]. by econstructor.
  - intros [= <-]. constructor.
Qed.

Fixpoint buffer_run (s : BufferSys) (moves : list buffer_move) : option BufferSys :=
  match moves with [] => Some s | m :: rest => s' ← buffer_run_step s m; buffer_run s' rest end.

Lemma buffer_run_ok moves : forall s s', buffer_run s moves = Some s' -> rtc buffer_step s s'.
Proof.
  induction moves as [|m moves IH]; intros s s'; simpl; [by intros [= ->]|]. destruct (buffer_run_step s m) as [s1|] eqn:E; simpl; [|done].
  intros H. eapply rtc_l; [by eapply buffer_run_step_ok|]. by apply IH.
Qed.

Module BufferDemo.
(** A queue of one chunk: the second producer has to wait. *)
Definition options : BufferOptions := {| MaxChunks := 1; MaxBytes := 4096; BackpressureTimeout := 1000000000 |}.
Definition first : NormalizedChunk := demo_content_chunk 1 "Hel".
Definition second : NormalizedChunk := demo_content_chunk 2 "lo".
Definition empty : Buffer :=
  {| bf_ctx := None; bf_options := options; bf_queue := []; bf_bytes := 0; bf_finished := false; bf_finishErr := None; bf_aborted := false;
     bf_abortErr := None; bf_changed := 0; bf_stats := Build_BufferStats 0 0 0 0 0 0 |}.
Definition moves1 : list buffer_move :=
  [MovePush 1 first; MovePushStep 1 PushRuns; MovePushStep 1 PushRuns; MovePush 2 second; MovePushStep 2 PushRuns; MovePushStep 2 PushRuns;
   MovePushStep 2 PushRuns].
Definition moves2 : list buffer_move :=
  [MoveNext 1; MoveNextStep 1 NextRuns; MoveNextStep 1 NextRuns; MovePushStep 2 PushWakes; MovePushStep 2 PushRuns; MovePushStep 2 PushRuns;
   MoveFinish None].
Definition moves3 : list buffer_move := [MoveNext 2; MoveNextStep 2 NextRuns; MoveNextStep 2 NextRuns].
Definition blocked : BufferSys := default (buffer_start empty 0) (buffer_run (buffer_start empty 0) moves1).
Definition finished : BufferSys := default (buffer_start empty 0) (buffer_run (buffer_start empty 0) (moves1 ++ moves2)).
Definition drained : BufferSys := default (buffer_start empty 0) (buffer_run finished moves3).

Lemma run_reachable moves s : buffer_run (buffer_start empty 0) moves = Some s -> buffer_reachable None options s.
Proof. intros H. exists empty, 0. split; [reflexivity|]. by apply buffer_run_ok in H. Qed.
End BufferDemo.

Lemma buffer_stays_within_bounds_witness : bf_bytes (bs_buffer BufferDemo.finished) <= 4096 /\ length (bf_queue (bs_buffer BufferDemo.finished)) = 1%nat.
Proof.
  split; [|vm_compute; reflexivity].
  assert (H : buffer_reachable None BufferDemo.options BufferDemo.finished).
  { apply (BufferDemo.run_reachable (BufferDemo.moves1 ++ BufferDemo.moves2)). vm_compute. reflexivity. }
  apply (buffer_stays_within_bounds _ _ _ H).
Defined.

Lemma buffer_is_fifo_witness :
  bf_finished (bs_buffer BufferDemo.finished) = true /\ bs_delivered BufferDemo.drained = [BufferDemo.first; BufferDemo.second] /\
  bs_accepted BufferDemo.drained = bs_delivered BufferDemo.drained ++ (bc_chunk <$> bf_queue (bs_buffer BufferDemo.drained)).
Proof.
  split; [vm_compute; reflexivity|]. split; [vm_compute; reflexivity|].
  assert (H : buffer_reachable None BufferDemo.options BufferDemo.finished).
  { apply (BufferDemo.run_reachable (BufferDemo.moves1 ++ BufferDemo.moves2)). vm_compute. reflexivity. }
  assert (Hs : rtc buffer_step BufferDemo.finished BufferDemo.drained).
  { apply (buffer_run_ok BufferDemo.moves3). vm_compute. reflexivity. }
  apply (buffer_is_fifo _ _ _ _ H Hs). vm_compute. reflexivity.
Defined.

Lemma buffer_blocks_only_when_it_must_witness : exists c, bs_pushes BufferDemo.blocked !! 2%nat = Some c /\ pu_pc c = PushSelect 1 /\
  has_room (bs_buffer BufferDemo.blocked) (bc_bytes (pu_queued c)) = false.
Proof.
  assert (H : buffer_reachable None BufferDemo.options BufferDemo.blocked).
  { apply (BufferDemo.run_reachable BufferDemo.moves1). vm_compute. reflexivity. }
  destruct (bs_pushes BufferDemo.blocked !! 2%nat) as [c|] eqn:E; [|vm_compute in E; discriminate E].
  exists c. split; [reflexivity|]. pose proof E as E'. vm_compute in E'. injection E' as <-. split; [reflexivity|].
  edestruct (proj1 (buffer_blocks_only_when_it_must _ _ _ H) _ _ E) as [[err He]|(d & _ & _ & _ & _ & _ & Hr)].
  - repeat constructor.
  - discriminate He.
  - exact Hr.
Defined.
