(* ===== verification/StreamFailover.v ===== *)
(** * The failover gate (src/internal/streaming/failover.go)

    The gate decides which upstream attempt may write to the client and whether another
    attempt may still replace it. Its critical sections are single steps; [Forward] holds
    [forwardMu] from its check to the end of the sink call, so at most one forward is in
    flight, while starts and [Close] may happen in between. *)
From Stdlib Require Import ZArith Lia Bool Ascii String.
From stdpp Require Import base tactics option list strings gmap fin_maps sets sorting.
From S2P Require Import Prelude Identifiers Unicode JSON Catalog Retry Metering Adapter StreamBuffer.
(** ** Errors and data *)
Definition ErrFailoverInvalid : Failure := stream_error "stream failover input is invalid".
Definition ErrFailoverState : Failure := stream_error "stream failover lifecycle state is invalid".
Definition ErrFailoverAfterOutput : Failure := stream_error "stream failover forbidden after model output".
Definition ErrFailoverNotEligible : Failure := stream_error "stream failure is not eligible for failover".
Definition ErrFailoverLimit : Failure := stream_error "stream failover attempt limit reached".
Definition ErrFailoverClosed : Failure := stream_error "stream failover gate is closed".

Definition maximumFailoverAttempts : Z := 32.
Record FailoverOptions := { MaxAttempts : Z }.
Record AttemptStart := { as_Number : Z; as_DeploymentID : string; as_Failover : bool }.
Record AttemptToken := { tok_gateID : Z; tok_generation : Z; tok_number : Z }.
Definition no_token : AttemptToken := {| tok_gateID := 0; tok_generation := 0; tok_number := 0 |}.

Record FailoverGate := {
  fg_options : FailoverOptions; fg_gateID : Z; fg_generation : Z; fg_attemptsStarted : Z; fg_currentAttempt : Z;
  fg_modelOutputStarted : bool; fg_firstModelOutputAttempt : Z; fg_modelChunksForwarded : Z; fg_nonModelChunksForwarded : Z;
  fg_postOutputFailoverDenials : Z; fg_closed : bool }.

(** The gate and the new value of the process-wide sequence. *)
Definition NewFailoverGate (options : FailoverOptions) (sequence : Z) : result (FailoverGate * Z) Failure :=
  if (MaxAttempts options <? 1) || (maximumFailoverAttempts <? MaxAttempts options) then Err ErrFailoverInvalid
  else
    let gateID := u64_add sequence 1 in
    Ok ({| fg_options := options; fg_gateID := gateID; fg_generation := 0; fg_attemptsStarted := 0; fg_currentAttempt := 0;
           fg_modelOutputStarted := false; fg_firstModelOutputAttempt := 0; fg_modelChunksForwarded := 0; fg_nonModelChunksForwarded := 0;
           fg_postOutputFailoverDenials := 0; fg_closed := false |}, gateID).

(** [isModelOutput] of timeout.go *)
Definition isModelOutput (kind : ChunkKind) : bool :=
  bool_decide (kind = ChunkContentDelta) || bool_decide (kind = ChunkReasoningDelta) || bool_decide (kind = ChunkToolDelta).

Definition currentTokenLocked (gate : FailoverGate) (token : AttemptToken) : bool :=
  negb (tok_gateID token =? 0) && (tok_gateID token =? fg_gateID gate) && (tok_generation token =? fg_generation gate) &&
  (tok_number token =? fg_currentAttempt gate).

(** ** Starting attempts *)
(** [starts] tells whether the starter is not nil. *)
Definition validateFailoverStart (ctx : Context) (deploymentID : string) (starts : bool) : option Failure :=
  if is_empty deploymentID || (128 <? len deploymentID) || negb starts then Some ErrFailoverInvalid else cancellationError ctx.

Definition reserveAttemptLocked (gate : FailoverGate) : FailoverGate * AttemptToken :=
  let started := fg_attemptsStarted gate + 1 in
  let generation := u64_add (fg_generation gate) 1 in
  ({| fg_options := fg_options gate; fg_gateID := fg_gateID gate; fg_generation := generation; fg_attemptsStarted := started;
      fg_currentAttempt := started; fg_modelOutputStarted := fg_modelOutputStarted gate;
      fg_firstModelOutputAttempt := fg_firstModelOutputAttempt gate; fg_modelChunksForwarded := fg_modelChunksForwarded gate;
      fg_nonModelChunksForwarded := fg_nonModelChunksForwarded gate; fg_postOutputFailoverDenials := fg_postOutputFailoverDenials gate;
      fg_closed := fg_closed gate |},
   {| tok_gateID := fg_gateID gate; tok_generation := generation; tok_number := started |}).

(** The gate after the critical section, and the error or the token with the attempt
    that the starter is then called for. *)
Definition StartInitial (gate : FailoverGate) (ctx : Context) (deploymentID : string) (starts : bool)
    : FailoverGate * result (AttemptToken * AttemptStart) Failure :=
  match validateFailoverStart ctx deploymentID starts with
  | Some err => (gate, Err err)
  | None =>
      if fg_closed gate then (gate, Err ErrFailoverClosed)
      else if negb (fg_attemptsStarted gate =? 0) then (gate, Err ErrFailoverState)
      else let '(gate', token) := reserveAttemptLocked gate in
           (gate', Ok (token, {| as_Number := tok_number token; as_DeploymentID := deploymentID; as_Failover := false |}))
  end.

Definition deny_failover (gate : FailoverGate) : FailoverGate :=
  {| fg_options := fg_options gate; fg_gateID := fg_gateID gate; fg_generation := fg_generation gate;
     fg_attemptsStarted := fg_attemptsStarted gate; fg_currentAttempt := fg_currentAttempt gate;
     fg_modelOutputStarted := fg_modelOutputStarted gate; fg_firstModelOutputAttempt := fg_firstModelOutputAttempt gate;
     fg_modelChunksForwarded := fg_modelChunksForwarded gate; fg_nonModelChunksForwarded := fg_nonModelChunksForwarded gate;
     fg_postOutputFailoverDenials := u64_add (fg_postOutputFailoverDenials gate) 1; fg_closed := fg_closed gate |}.

Definition eligible (failure : option TimeoutFailure) : bool :=
  match failure with Some f => negb (modelOutputStarted f) && retryEligibleBeforeOutput f | None => false end.

Definition StartFailover (gate : FailoverGate) (ctx : Context) (previous : AttemptToken) (failure : option TimeoutFailure) (deploymentID : string)
    (starts : bool) : FailoverGate * result (AttemptToken * AttemptStart) Failure :=
  match validateFailoverStart ctx deploymentID starts with
  | Some err => (gate, Err err)
  | None =>
      if fg_closed gate then (gate, Err ErrFailoverClosed)
      else if negb (currentTokenLocked gate previous) then (gate, Err ErrFailoverState)
      else if fg_modelOutputStarted gate then (deny_failover gate, Err ErrFailoverAfterOutput)
      else if negb (eligible failure) then (gate, Err ErrFailoverNotEligible)
      else if MaxAttempts (fg_options gate) <=? fg_attemptsStarted gate then (gate, Err ErrFailoverLimit)
      else let '(gate', token) := reserveAttemptLocked gate in
           (gate', Ok (token, {| as_Number := tok_number token; as_DeploymentID := deploymentID; as_Failover := true |}))
  end.

(** What both return once the starter has answered [started]. *)
Definition start_result (r : result (AttemptToken * AttemptStart) Failure) (started : AttemptStart -> option Failure)
    : AttemptToken * option Failure :=
  match r with Ok (token, start) => (token, started start) | Err err => (no_token, Some err) end.

(** ** Forwarding *)
(** Before [forwardMu]. *)
Definition Forward_check (ctx : Context) (chunk : NormalizedChunk) (sinks : bool) : option Failure :=
  if negb (NormalizedChunk_Validate chunk) || negb sinks then Some ErrFailoverInvalid else cancellationError ctx.

(** The first critical section. *)
Definition Forward_begin (gate : FailoverGate) (token : AttemptToken) (chunk : NormalizedChunk) : FailoverGate * option Failure :=
  if fg_closed gate then (gate, Some ErrFailoverClosed)
  else if negb (currentTokenLocked gate token) then (gate, Some ErrFailoverState)
  else if isModelOutput (ch_Kind chunk) && negb (fg_modelOutputStarted gate)
  then ({| fg_options := fg_options gate; fg_gateID := fg_gateID gate; fg_generation := fg_generation gate;
           fg_attemptsStarted := fg_attemptsStarted gate; fg_currentAttempt := fg_currentAttempt gate; fg_modelOutputStarted := true;
           fg_firstModelOutputAttempt := tok_number token; fg_modelChunksForwarded := fg_modelChunksForwarded gate;
           fg_nonModelChunksForwarded := fg_nonModelChunksForwarded gate; fg_postOutputFailoverDenials := fg_postOutputFailoverDenials gate;
           fg_closed := fg_closed gate |}, None)
  else (gate, None).

(** The second one, after the sink succeeded. *)
Definition Forward_end (gate : FailoverGate) (chunk : NormalizedChunk) : FailoverGate :=
  let model := isModelOutput (ch_Kind chunk) in
  {| fg_options := fg_options gate; fg_gateID := fg_gateID gate; fg_generation := fg_generation gate;
     fg_attemptsStarted := fg_attemptsStarted gate; fg_currentAttempt := fg_currentAttempt gate;
     fg_modelOutputStarted := fg_modelOutputStarted gate; fg_firstModelOutputAttempt := fg_firstModelOutputAttempt gate;
     fg_modelChunksForwarded := if model then u64_add (fg_modelChunksForwarded gate) 1 else fg_modelChunksForwarded gate;
     fg_nonModelChunksForwarded := if model then fg_nonModelChunksForwarded gate else u64_add (fg_nonModelChunksForwarded gate) 1;
     fg_postOutputFailoverDenials := fg_postOutputFailoverDenials gate; fg_closed := fg_closed gate |}.

Definition Close (gate : FailoverGate) (token : AttemptToken) : FailoverGate * option Failure :=
  if negb (currentTokenLocked gate token) then (gate, Some ErrFailoverState)
  else ({| fg_options := fg_options gate; fg_gateID := fg_gateID gate; fg_generation := fg_generation gate;
           fg_attemptsStarted := fg_attemptsStarted gate; fg_currentAttempt := fg_currentAttempt gate;
           fg_modelOutputStarted := fg_modelOutputStarted gate; fg_firstModelOutputAttempt := fg_firstModelOutputAttempt gate;
           fg_modelChunksForwarded := fg_modelChunksForwarded gate; fg_nonModelChunksForwarded := fg_nonModelChunksForwarded gate;
           fg_postOutputFailoverDenials := fg_postOutputFailoverDenials gate; fg_closed := true |}, None).

(** ** Interleavings *)
(** The gate, the tokens it issued, the forward that holds [forwardMu], the attempts
    started and the chunks handed to the sink with the attempt they came from, oldest
    first. *)
Record GateSys := {
  gs_gate : FailoverGate; gs_tokens : list AttemptToken; gs_forwarding : option (AttemptToken * NormalizedChunk);
  gs_started : list AttemptStart; gs_sent : list (Z * NormalizedChunk) }.

(** The fields of a token are private: it comes from this gate, from another one, or it
    is the zero value. *)
Definition genuine (s : GateSys) (token : AttemptToken) : Prop :=
  token ∈ gs_tokens s \/ tok_gateID token <> fg_gateID (gs_gate s) \/ token = no_token.

Definition gate_started (s : GateSys) (r : FailoverGate * result (AttemptToken * AttemptStart) Failure) : GateSys :=
  {| gs_gate := r.1; gs_tokens := gs_tokens s ++ match r.2 with Ok (token, _) => [token] | Err _ => [] end; gs_forwarding := gs_forwarding s;
     gs_started := gs_started s ++ match r.2 with Ok (_, start) => [start] | Err _ => [] end; gs_sent := gs_sent s |}.

Inductive gate_step : GateSys -> GateSys -> Prop :=
| step_initial s ctx deploymentID starts : gate_step s (gate_started s (StartInitial (gs_gate s) ctx deploymentID starts))
| step_failover s ctx previous failure deploymentID starts :
    genuine s previous -> gate_step s (gate_started s (StartFailover (gs_gate s) ctx previous failure deploymentID starts))
| step_forward_begin s ctx token chunk sinks :
    genuine s token -> gs_forwarding s = None -> Forward_check ctx chunk sinks = None ->
    gate_step s {| gs_gate := (Forward_begin (gs_gate s) token chunk).1; gs_tokens := gs_tokens s;
                   gs_forwarding := match (Forward_begin (gs_gate s) token chunk).2 with None => Some (token, chunk) | Some _ => None end;
                   gs_started := gs_started s; gs_sent := gs_sent s |}
| step_forward_sent s token chunk (failed : bool) :
    gs_forwarding s = Some (token, chunk) ->
    gate_step s {| gs_gate := if failed then gs_gate s else Forward_end (gs_gate s) chunk; gs_tokens := gs_tokens s; gs_forwarding := None;
                   gs_started := gs_started s; gs_sent := gs_sent s ++ [(tok_number token, chunk)] |}
| step_close s token :
    genuine s token ->
    gate_step s {| gs_gate := (Close (gs_gate s) token).1; gs_tokens := gs_tokens s; gs_forwarding := gs_forwarding s; gs_started := gs_started s; gs_sent := gs_sent s |}.

Definition gate_start (gate : FailoverGate) : GateSys := {| gs_gate := gate; gs_tokens := []; gs_forwarding := None; gs_started := []; gs_sent := [] |}.
Definition gate_reachable (options : FailoverOptions) (s : GateSys) : Prop :=
  exists gate sequence sequence', NewFailoverGate options sequence = Ok (gate, sequence') /\ rtc gate_step (gate_start gate) s.

(** ** The invariant *)
Definition sent_ok (gate : FailoverGate) (entry : Z * NormalizedChunk) : Prop :=
  1 <= entry.1 <= fg_currentAttempt gate /\
  (isModelOutput (ch_Kind entry.2) = true -> fg_modelOutputStarted gate = true /\ entry.1 = fg_firstModelOutputAttempt gate).

Record gate_inv (o : FailoverOptions) (s : GateSys) : Prop := {
  gi_options : fg_options (gs_gate s) = o /\ 1 <= MaxAttempts o;
  gi_current : fg_currentAttempt (gs_gate s) = fg_attemptsStarted (gs_gate s) /\ 0 <= fg_attemptsStarted (gs_gate s) <= MaxAttempts o;
  gi_tokens : Forall (fun t => 1 <= tok_number t) (gs_tokens s);
  gi_started : as_Number <$> gs_started s = seqZ 1 (fg_attemptsStarted (gs_gate s));
  gi_output : fg_modelOutputStarted (gs_gate s) = true ->
    fg_firstModelOutputAttempt (gs_gate s) = fg_currentAttempt (gs_gate s) /\ 1 <= fg_currentAttempt (gs_gate s);
  gi_forwarding : forall token chunk, gs_forwarding s = Some (token, chunk) ->
    sent_ok (gs_gate s) (tok_number token, chunk) /\ Forall (fun e => e.1 <= tok_number token) (gs_sent s);
  gi_sent : Forall (sent_ok (gs_gate s)) (gs_sent s) /\ StronglySorted (fun a b => a.1 <= b.1) (gs_sent s) }.

Section GateSteps.
Context (o : FailoverOptions) (s : GateSys).
Hypothesis Hinv : gate_inv o s.

Lemma current_genuine token : genuine s token -> currentTokenLocked (gs_gate s) token = true ->
  1 <= tok_number token /\ tok_number token = fg_currentAttempt (gs_gate s).
Proof.
  unfold currentTokenLocked. intros Hg H. prop_hyps. split; [|done]. destruct Hg as [Hin|[Hne| ->]]; [|congruence|by simpl in *].
  pose proof (gi_tokens _ _ Hinv) as Ht. rewrite Forall_forall in Ht. by apply Ht.
Qed.

(** A reservation: allowed while no model output has started. *)
Lemma reserve_attempt_inv r start : fg_modelOutputStarted (gs_gate s) = false -> fg_attemptsStarted (gs_gate s) < MaxAttempts o ->
  r = ((reserveAttemptLocked (gs_gate s)).1, Ok ((reserveAttemptLocked (gs_gate s)).2, start)) ->
  as_Number start = tok_number (reserveAttemptLocked (gs_gate s)).2 -> gate_inv o (gate_started s r).
Proof.
  intros Hout Hlt -> Hnum. destruct Hinv as [[Ho Ho'] [Hc Hb] Ht Hst Hm Hf [Hs Hsort]].
  assert (Hsent : forall e, sent_ok (gs_gate s) e -> sent_ok (reserveAttemptLocked (gs_gate s)).1 e).
  { intros e [He Hmo]. split; simpl; [lia|]. intros Hk. destruct (Hmo Hk). congruence. }
  split; simpl; try done.
  - split; [done|]. lia.
  - apply Forall_app_2; [done|]. apply Forall_singleton. simpl. lia.
  - rewrite fmap_app, Hst. simpl. rewrite Hnum. simpl. rewrite seqZ_app by lia. f_equal. rewrite (Z.add_comm 1). done.
  - rewrite Hout. done.
  - intros token chunk E. destruct (Hf _ _ E) as [H1 H2]. split; [by apply Hsent|done].
  - split; [|done]. eapply Forall_impl; [exact Hs|]. done.
Qed.

Lemma unstarted_inv gate err : gate_inv o {| gs_gate := gate; gs_tokens := gs_tokens s; gs_forwarding := gs_forwarding s; gs_started := gs_started s; gs_sent := gs_sent s |} ->
  gate_inv o (gate_started s (gate, Err err)).
Proof. unfold gate_started. simpl. by rewrite !app_nil_r. Qed.

(** A change of counters or of [closed] alone. *)
Lemma counters_inv gate : fg_options gate = fg_options (gs_gate s) -> fg_attemptsStarted gate = fg_attemptsStarted (gs_gate s) ->
  fg_currentAttempt gate = fg_currentAttempt (gs_gate s) -> fg_modelOutputStarted gate = fg_modelOutputStarted (gs_gate s) ->
  fg_firstModelOutputAttempt gate = fg_firstModelOutputAttempt (gs_gate s) ->
  gate_inv o {| gs_gate := gate; gs_tokens := gs_tokens s; gs_forwarding := gs_forwarding s; gs_started := gs_started s; gs_sent := gs_sent s |}.
Proof.
  intros E1 E2 E3 E4 E5. destruct Hinv as [Ho Hc Ht Hst Hm Hf Hs]. split; simpl; unfold sent_ok in *; rewrite ?E1, ?E2, ?E3, ?E4, ?E5; done.
Qed.

Lemma begin_inv token chunk : genuine s token -> gs_forwarding s = None ->
  gate_inv o {| gs_gate := (Forward_begin (gs_gate s) token chunk).1; gs_tokens := gs_tokens s;
                gs_forwarding := match (Forward_begin (gs_gate s) token chunk).2 with None => Some (token, chunk) | Some _ => None end;
                gs_started := gs_started s; gs_sent := gs_sent s |}.
Proof.
  intros Hg Hnone. destruct Hinv as [[Ho Ho'] [Hc Hb] Ht Hst Hm Hf [Hs Hsort]]. unfold Forward_begin.
  destruct (fg_closed (gs_gate s)); [by split|]. destruct (currentTokenLocked (gs_gate s) token) eqn:Ecur; [|by split]. cbn [negb].
  destruct (current_genuine _ Hg Ecur) as [H1 Hcur].
  assert (Hle : Forall (fun e => e.1 <= tok_number token) (gs_sent s)).
  { eapply Forall_impl; [exact Hs|]. intros e [He _]. simpl. lia. }
  destruct (isModelOutput (ch_Kind chunk)) eqn:Emod; simpl.
  - destruct (fg_modelOutputStarted (gs_gate s)) eqn:Eout; simpl.
    + split; simpl; try done; [by auto|]. intros t c [= <- <-]. split; [|done]. split; simpl; [lia|]. intros _. split; [done|]. destruct (Hm eq_refl). lia.
    + split; simpl; try done; [lia|..].
      * intros t c [= <- <-]. split; [|done]. split; simpl; [lia|done].
      * split; [|done]. eapply Forall_impl; [exact Hs|]. intros e [He Hmo]. split; simpl; [done|]. intros Hk. destruct (Hmo Hk). congruence.
  - split; simpl; try done. intros t c [= <- <-]. split; [|done]. split; simpl; [lia|]. by rewrite Emod.
Qed.

Lemma sent_inv token chunk (failed : bool) : gs_forwarding s = Some (token, chunk) ->
  gate_inv o {| gs_gate := if failed then gs_gate s else Forward_end (gs_gate s) chunk; gs_tokens := gs_tokens s; gs_forwarding := None;
                gs_started := gs_started s; gs_sent := gs_sent s ++ [(tok_number token, chunk)] |}.
Proof.
  intros Hfw. destruct Hinv as [[Ho Ho'] [Hc Hb] Ht Hst Hm Hf [Hs Hsort]]. destruct (Hf _ _ Hfw) as [Hok Hle].
  assert (Hall : Forall (sent_ok (gs_gate s)) (gs_sent s ++ [(tok_number token, chunk)])) by (by apply Forall_app_2; [|apply Forall_singleton]).
  assert (Hso : StronglySorted (fun a b => a.1 <= b.1) (gs_sent s ++ [(tok_number token, chunk)])).
  { apply StronglySorted_app_2; [|done|by repeat constructor]. intros a b Ha ->%list_elem_of_singleton. rewrite Forall_forall in Hle. by apply Hle. }
  split; simpl; destruct failed; try done.
Qed.
End GateSteps.

Lemma refused_start_inv o s err : gate_inv o s -> gate_inv o (gate_started s (gs_gate s, Err err)).
Proof. intros H. apply unstarted_inv. by destruct s. Qed.

Lemma reserved_inv o s dep failover : gate_inv o s -> fg_modelOutputStarted (gs_gate s) = false -> fg_attemptsStarted (gs_gate s) < MaxAttempts o ->
  gate_inv o (gate_started s (let '(gate', token) := reserveAttemptLocked (gs_gate s) in
    (gate', Ok (token, {| as_Number := tok_number token; as_DeploymentID := dep; as_Failover := failover |})))).
Proof. intros. by eapply reserve_attempt_inv. Qed.

Lemma gate_step_inv o s s' : gate_inv o s -> gate_step s s' -> gate_inv o s'.
Proof.
  intros Hinv Hs. destruct Hs as [s ctx dep starts|s ctx previous failure dep starts Hg|s ctx token chunk sinks Hg Hn _|s token chunk failed Hf|s token Hg].
  - unfold StartInitial. destruct (validateFailoverStart _ _ _); [by apply refused_start_inv|].
    destruct (fg_closed (gs_gate s)); [by apply refused_start_inv|].
    destruct (fg_attemptsStarted (gs_gate s) =? 0) eqn:E0; cbn [negb]; [|by apply refused_start_inv]. prop_hyps.
    apply reserved_inv; [done|..].
    + destruct (fg_modelOutputStarted (gs_gate s)) eqn:Eo; [|done]. destruct (gi_output _ _ Hinv Eo). pose proof (gi_current _ _ Hinv). lia.
    + pose proof (gi_options _ _ Hinv). lia.
  - unfold StartFailover. destruct (validateFailoverStart _ _ _); [by apply refused_start_inv|].
    destruct (fg_closed (gs_gate s)); [by apply refused_start_inv|].
    destruct (currentTokenLocked (gs_gate s) previous); cbn [negb]; [|by apply refused_start_inv].
    destruct (fg_modelOutputStarted (gs_gate s)) eqn:Eo; [by apply unstarted_inv, counters_inv|].
    destruct (eligible failure); cbn [negb]; [|by apply refused_start_inv].
    destruct (_ <=? _) eqn:El; [by apply refused_start_inv|]. prop_hyps. apply reserved_inv; [done..|]. destruct (gi_options _ _ Hinv) as [<- _]. lia.
  - by apply begin_inv.
  - by apply sent_inv.
  - unfold Close. destruct (currentTokenLocked _ _); cbn [negb]; [by apply counters_inv|by destruct s].
Qed.

Lemma gate_reachable_inv o s : gate_reachable o s -> gate_inv o s.
Proof.
  intros (gate & sequence & sequence' & Hg & Hs).
  assert (H0 : gate_inv o (gate_start gate)).
  { unfold NewFailoverGate in Hg. destruct (_ || _) eqn:E; [done|]. prop_hyps. injection Hg as <- _. split; simpl; try done; try lia. split; constructor. }
  clear Hg. induction Hs; [done|]. apply IHHs. by eapply gate_step_inv.
Qed.

(** After model output no step starts an attempt. *)
Lemma output_step s s' : gate_step s s' -> fg_modelOutputStarted (gs_gate s) = true -> 1 <= fg_attemptsStarted (gs_gate s) ->
  fg_modelOutputStarted (gs_gate s') = true /\ fg_firstModelOutputAttempt (gs_gate s') = fg_firstModelOutputAttempt (gs_gate s) /\
  fg_attemptsStarted (gs_gate s') = fg_attemptsStarted (gs_gate s) /\ gs_started s' = gs_started s.
Proof.
  intros Hs Hout Hn. destruct Hs as [s ctx dep starts|s ctx previous failure dep starts Hg|s ctx token chunk sinks Hg Hnone _|s token chunk failed Hf|s token Hg]; simpl.
  - unfold StartInitial. destruct (validateFailoverStart _ _ _); [by rewrite app_nil_r|]. destruct (fg_closed _); [by rewrite app_nil_r|].
    destruct (fg_attemptsStarted (gs_gate s) =? 0) eqn:E; prop_hyps; [lia|]. simpl. by rewrite app_nil_r.
  - unfold StartFailover. rewrite Hout. destruct (validateFailoverStart _ _ _); [by rewrite app_nil_r|]. destruct (fg_closed _); [by rewrite app_nil_r|].
    destruct (currentTokenLocked _ _); simpl; by rewrite app_nil_r.
  - unfold Forward_begin. rewrite Hout, andb_false_r. destruct (fg_closed _); [done|]. by destruct (currentTokenLocked _ _).
  - by destruct failed.
  - unfold Close. by destruct (currentTokenLocked _ _).
Qed.

Lemma output_steps s s' : rtc gate_step s s' -> fg_modelOutputStarted (gs_gate s) = true -> 1 <= fg_attemptsStarted (gs_gate s) ->
  gs_started s' = gs_started s /\ fg_firstModelOutputAttempt (gs_gate s') = fg_firstModelOutputAttempt (gs_gate s).
Proof.
  induction 1 as [|s1 s2 s3 H12 _ IH]; intros Hout Hn; [done|]. destruct (output_step _ _ H12 Hout Hn) as (O & F & A & S).
  destruct IH as [S' F']; [done|lia|]. split; congruence.
Qed.

(** C31: The client sees the output of one attempt. In every interleaving of starts,
    forwards and closes: attempts are numbered from one, at most MaxAttempts; the
    chunks handed to the client never go back to an earlier attempt; all model output
    among them comes from one and the same attempt, which is the last one started, and
    once it has begun no further attempt is ever started. *)
Theorem client_output_comes_from_one_attempt options s s' : gate_reachable options s -> rtc gate_step s s' ->
  as_Number <$> gs_started s = seqZ 1 (fg_attemptsStarted (gs_gate s)) /\ fg_attemptsStarted (gs_gate s) <= MaxAttempts options /\
  StronglySorted (fun a b => a.1 <= b.1) (gs_sent s) /\
  (forall n chunk, (n, chunk) ∈ gs_sent s -> isModelOutput (ch_Kind chunk) = true ->
    n = fg_firstModelOutputAttempt (gs_gate s) /\ n = fg_attemptsStarted (gs_gate s) /\ gs_started s' = gs_started s) /\
  (fg_modelOutputStarted (gs_gate s) = true -> gs_started s' = gs_started s).
Proof.
  intros H%gate_reachable_inv Hs. destruct (gi_current _ _ H) as [Hc Hb]. destruct (gi_sent _ _ H) as [Hsent Hsort].
  assert (Hlast : fg_modelOutputStarted (gs_gate s) = true -> gs_started s' = gs_started s).
  { intros Ho. destruct (gi_output _ _ H Ho). apply output_steps; [done..|lia]. }
  split_and!; [apply (gi_started _ _ H)|lia|done| |done]. intros n chunk Hin Hk. rewrite Forall_forall in Hsent.
  destruct (Hsent _ Hin) as [_ Hm]. destruct (Hm Hk) as [Ho Hn]. destruct (gi_output _ _ H Ho). simpl in Hn. split_and!; [done|congruence|by apply Hlast].
Qed.

(** ** A run *)
(** The first attempt times out before output; the second one answers. *)
Module FailoverDemo.
Definition options : FailoverOptions := {| MaxAttempts := 2 |}.
Definition gate : FailoverGate :=
  {| fg_options := options; fg_gateID := 1; fg_generation := 0; fg_attemptsStarted := 0; fg_currentAttempt := 0; fg_modelOutputStarted := false;
     fg_firstModelOutputAttempt := 0; fg_modelChunksForwarded := 0; fg_nonModelChunksForwarded := 0; fg_postOutputFailoverDenials := 0;
     fg_closed := false |}.
Definition token (n : Z) : AttemptToken := {| tok_gateID := 1; tok_generation := n; tok_number := n |}.
Definition failure : TimeoutFailure :=
  {| kind := TimeoutFirstToken; headersReceived := true; modelOutputStarted := false; retryEligibleBeforeOutput := true; partialFailure := false |}.
Definition chunk : NormalizedChunk := demo_content_chunk 1 "Hello".
Definition s1 : GateSys := gate_started (gate_start gate) (StartInitial gate None "primary" true).
Definition s2 : GateSys := gate_started s1 (StartFailover (gs_gate s1) None (token 1) (Some failure) "backup" true).
Definition s3 : GateSys :=
  {| gs_gate := (Forward_begin (gs_gate s2) (token 2) chunk).1; gs_tokens := gs_tokens s2; gs_forwarding := Some (token 2, chunk);
     gs_started := gs_started s2; gs_sent := gs_sent s2 |}.
Definition s4 : GateSys :=
  {| gs_gate := Forward_end (gs_gate s3) chunk; gs_tokens := gs_tokens s3; gs_forwarding := None; gs_started := gs_started s3;
     gs_sent := gs_sent s3 ++ [(2, chunk)] |}.

Lemma reachable : gate_reachable options s4.
Proof.
  exists gate, 0, 1. split; [reflexivity|]. eapply rtc_l; [apply (step_initial _ None "primary" true)|].
  eapply rtc_l; [apply (step_failover s1 None (token 1) (Some failure) "backup" true); left; vm_compute; left|].
  eapply rtc_l; [apply (step_forward_begin s2 None (token 2) chunk true); [left; vm_compute; right; left|reflexivity|vm_compute; reflexivity]|].
  eapply rtc_l; [apply (step_forward_sent s3 (token 2) chunk false); reflexivity|]. apply rtc_refl.
Qed.
End FailoverDemo.

Lemma client_output_comes_from_one_attempt_witness :
  as_Number <$> gs_started FailoverDemo.s4 = [1; 2] /\ fg_firstModelOutputAttempt (gs_gate FailoverDemo.s4) = 2.
Proof.
  destruct (client_output_comes_from_one_attempt _ _ _ FailoverDemo.reachable (rtc_refl _ _)) as (Hn & _ & _ & Hm & _).
  split; [rewrite Hn; vm_compute; reflexivity|]. symmetry. apply (Hm 2 FailoverDemo.chunk); [|vm_compute; reflexivity].
  vm_compute. left.
Defined.
