(* ===== verification/StreamTimeout.v ===== *)
(** * Stream deadlines (src/internal/streaming/timeout.go)

    The controller of one upstream attempt: a total deadline from the start, a
    first-token deadline from the response headers, and a no-progress deadline that
    every upstream event renews once model output has begun. The critical sections of
    the controller's mutex are single steps, interleaved with the firing of timers, with
    timer callbacks that were already running when their timer was stopped, with the
    heartbeat recorder and with a [Next] of the guarded stream. What follows a
    termination outside the mutex (cancelling the context, closing the upstream) is a
    task of its own. [closeAttached] only runs after termination, when nothing it
    reads changes any more, so it is one step.

    Then: theorems on stream deadlines. *)
From Stdlib Require Import ZArith Lia Bool Ascii String.
From stdpp Require Import base tactics option list strings gmap fin_maps sets.
From S2P Require Import Prelude Identifiers Unicode JSON Catalog Retry Metering Adapter StreamBuffer StreamFailover.
(** ** Data *)
Definition ErrTimeoutConfiguration : Failure := stream_error "stream timeout configuration is invalid".
Definition ErrTimeoutState : Failure := stream_error "stream timeout lifecycle state is invalid".
Definition ErrStreamClosed : Failure := stream_error "guarded stream is closed".

Definition maximumStreamTimeout : Duration := 86400000000000.
Definition validStreamTimeout (value : Duration) : bool := (0 <? value) && (value <=? maximumStreamTimeout).

#[export] Instance TimeoutKind_eq_dec : EqDecision TimeoutKind.
Proof. solve_decision. Defined.

Record TimeoutOptions := { FirstTokenTimeout : Duration; NoProgressTimeout : Duration; TotalTimeout : Duration }.

(** A timer of [time.AfterFunc] whose callback is [timeout kind generation]. *)
Record Timer := { tm_kind : TimeoutKind; tm_generation : Z; tm_deadline : Time }.

#[export] Instance Timer_eq_dec : EqDecision Timer.
Proof. solve_decision. Defined.

Record TimeoutController := {
  ct_ctx : Context; ct_options : TimeoutOptions; ct_startedAt : Time; ct_headersReceivedAt : option Time; ct_firstModelEventAt : option Time;
  ct_lastUpstreamEventAt : option Time; ct_cancellationObservedAt : option Time; ct_upstreamReleasedAt : option Time;
  ct_cancellationPropagation : Duration; ct_upstreamEvents : Z; ct_gatewayHeartbeats : Z; ct_stream : bool; ct_terminalErr : option Failure;
  ct_timeoutFailure : option TimeoutFailure; ct_totalTimer : option Timer; ct_firstTokenTimer : option Timer; ct_noProgressTimer : option Timer;
  ct_noProgressGeneration : Z; ct_closeOnce : bool; ct_closeErr : option Failure }.

(** The timers that are armed: running and neither stopped nor fired. *)
Notation Armed := (list Timer).
Definition stop (armed : Armed) (timer : option Timer) : Armed :=
  match timer with Some t => filter (fun t' => t' <> t) armed | None => armed end.

(** [now1] and [now2] are the clock when the start is recorded and when the timer is made. *)
Definition NewTimeoutController (parent : Context) (options : TimeoutOptions) (now1 now2 : Time) : result (TimeoutController * Armed) Failure :=
  if negb (validStreamTimeout (FirstTokenTimeout options)) || negb (validStreamTimeout (NoProgressTimeout options)) ||
     negb (validStreamTimeout (TotalTimeout options)) then Err ErrTimeoutConfiguration
  else
    let total := {| tm_kind := TimeoutTotal; tm_generation := 0; tm_deadline := now2 + TotalTimeout options |} in
    Ok ({| ct_ctx := parent; ct_options := options; ct_startedAt := now1; ct_headersReceivedAt := None; ct_firstModelEventAt := None;
           ct_lastUpstreamEventAt := None; ct_cancellationObservedAt := None; ct_upstreamReleasedAt := None; ct_cancellationPropagation := 0;
           ct_upstreamEvents := 0; ct_gatewayHeartbeats := 0; ct_stream := false; ct_terminalErr := None; ct_timeoutFailure := None;
           ct_totalTimer := Some total; ct_firstTokenTimer := None; ct_noProgressTimer := None; ct_noProgressGeneration := 0;
           ct_closeOnce := false; ct_closeErr := None |}, [total]).

(** ** Critical sections *)
(** [at_] is the clock read before the mutex, [now] the clock inside. An error means
    that the caller closes [upstream] itself. *)
Definition Attach (c : TimeoutController) (armed : Armed) (at_ now : Time) : result (TimeoutController * Armed) Failure :=
  if bool_decide (is_Some (ct_headersReceivedAt c)) || ct_stream c then Err ErrTimeoutState
  else match ct_terminalErr c with
  | Some err => Err err
  | None =>
      let timer := {| tm_kind := TimeoutFirstToken; tm_generation := 0; tm_deadline := now + FirstTokenTimeout (ct_options c) |} in
      Ok ({| ct_ctx := ct_ctx c; ct_options := ct_options c; ct_startedAt := ct_startedAt c; ct_headersReceivedAt := Some at_;
             ct_firstModelEventAt := ct_firstModelEventAt c; ct_lastUpstreamEventAt := ct_lastUpstreamEventAt c;
             ct_cancellationObservedAt := ct_cancellationObservedAt c; ct_upstreamReleasedAt := ct_upstreamReleasedAt c;
             ct_cancellationPropagation := ct_cancellationPropagation c; ct_upstreamEvents := ct_upstreamEvents c;
             ct_gatewayHeartbeats := ct_gatewayHeartbeats c; ct_stream := true; ct_terminalErr := ct_terminalErr c;
             ct_timeoutFailure := ct_timeoutFailure c; ct_totalTimer := ct_totalTimer c; ct_firstTokenTimer := Some timer;
             ct_noProgressTimer := ct_noProgressTimer c; ct_noProgressGeneration := ct_noProgressGeneration c;
             ct_closeOnce := ct_closeOnce c; ct_closeErr := ct_closeErr c |}, timer :: armed)
  end.

Definition RecordGatewayHeartbeat (c : TimeoutController) : result TimeoutController Failure :=
  if bool_decide (ct_headersReceivedAt c = None) || bool_decide (is_Some (ct_terminalErr c)) then Err ErrTimeoutState
  else Ok {| ct_ctx := ct_ctx c; ct_options := ct_options c; ct_startedAt := ct_startedAt c; ct_headersReceivedAt := ct_headersReceivedAt c;
             ct_firstModelEventAt := ct_firstModelEventAt c; ct_lastUpstreamEventAt := ct_lastUpstreamEventAt c;
             ct_cancellationObservedAt := ct_cancellationObservedAt c; ct_upstreamReleasedAt := ct_upstreamReleasedAt c;
             ct_cancellationPropagation := ct_cancellationPropagation c; ct_upstreamEvents := ct_upstreamEvents c;
             ct_gatewayHeartbeats := u64_add (ct_gatewayHeartbeats c) 1; ct_stream := ct_stream c; ct_terminalErr := ct_terminalErr c;
             ct_timeoutFailure := ct_timeoutFailure c; ct_totalTimer := ct_totalTimer c; ct_firstTokenTimer := ct_firstTokenTimer c;
             ct_noProgressTimer := ct_noProgressTimer c; ct_noProgressGeneration := ct_noProgressGeneration c;
             ct_closeOnce := ct_closeOnce c; ct_closeErr := ct_closeErr c |}.

(** The new timer of [resetNoProgressTimerLocked]. *)
Definition no_progress_timer (c : TimeoutController) (now : Time) : Timer :=
  {| tm_kind := TimeoutNoProgress; tm_generation := u64_add (ct_noProgressGeneration c) 1; tm_deadline := now + NoProgressTimeout (ct_options c) |}.

Definition resetNoProgressTimerLocked (c : TimeoutController) (armed : Armed) (now : Time) : TimeoutController * Armed :=
  let timer := no_progress_timer c now in
  ({| ct_ctx := ct_ctx c; ct_options := ct_options c; ct_startedAt := ct_startedAt c; ct_headersReceivedAt := ct_headersReceivedAt c;
      ct_firstModelEventAt := ct_firstModelEventAt c; ct_lastUpstreamEventAt := ct_lastUpstreamEventAt c;
      ct_cancellationObservedAt := ct_cancellationObservedAt c; ct_upstreamReleasedAt := ct_upstreamReleasedAt c;
      ct_cancellationPropagation := ct_cancellationPropagation c; ct_upstreamEvents := ct_upstreamEvents c;
      ct_gatewayHeartbeats := ct_gatewayHeartbeats c; ct_stream := ct_stream c; ct_terminalErr := ct_terminalErr c;
      ct_timeoutFailure := ct_timeoutFailure c; ct_totalTimer := ct_totalTimer c; ct_firstTokenTimer := ct_firstTokenTimer c;
      ct_noProgressTimer := Some timer; ct_noProgressGeneration := tm_generation timer; ct_closeOnce := ct_closeOnce c;
      ct_closeErr := ct_closeErr c |}, timer :: stop armed (ct_noProgressTimer c)).

(** The facts [observe] records of an event: [first] when it is the first model output. *)
Definition note_event (c : TimeoutController) (at_ : Time) (first : bool) : TimeoutController :=
  {| ct_ctx := ct_ctx c; ct_options := ct_options c; ct_startedAt := ct_startedAt c; ct_headersReceivedAt := ct_headersReceivedAt c;
     ct_firstModelEventAt := if first then Some at_ else ct_firstModelEventAt c; ct_lastUpstreamEventAt := Some at_;
     ct_cancellationObservedAt := ct_cancellationObservedAt c; ct_upstreamReleasedAt := ct_upstreamReleasedAt c;
     ct_cancellationPropagation := ct_cancellationPropagation c; ct_upstreamEvents := u64_add (ct_upstreamEvents c) 1;
     ct_gatewayHeartbeats := ct_gatewayHeartbeats c; ct_stream := ct_stream c; ct_terminalErr := ct_terminalErr c;
     ct_timeoutFailure := ct_timeoutFailure c; ct_totalTimer := ct_totalTimer c;
     ct_firstTokenTimer := if first then None else ct_firstTokenTimer c; ct_noProgressTimer := ct_noProgressTimer c;
     ct_noProgressGeneration := ct_noProgressGeneration c; ct_closeOnce := ct_closeOnce c; ct_closeErr := ct_closeErr c |}.

Definition observe (c : TimeoutController) (armed : Armed) (chunk : NormalizedChunk) (at_ now : Time) : result (TimeoutController * Armed) Failure :=
  match ct_terminalErr c with
  | Some err => Err err
  | None =>
      let first := bool_decide (ct_firstModelEventAt c = None) && isModelOutput (ch_Kind chunk) in
      let c' := note_event c at_ first in
      if first then Ok (resetNoProgressTimerLocked c' (stop armed (ct_firstTokenTimer c)) now)
      else if bool_decide (is_Some (ct_firstModelEventAt c')) then Ok (resetNoProgressTimerLocked c' armed now)
      else Ok (c', armed)
  end.

(** The end of [timeout] and [terminateObserved] under the mutex: the terminal error, its
    timeout, the time of an observed cancellation, and [stopTimersLocked]. *)
Definition terminated (c : TimeoutController) (cause : Failure) (failure : option TimeoutFailure) (observedAt : option Time) : TimeoutController :=
  {| ct_ctx := ct_ctx c; ct_options := ct_options c; ct_startedAt := ct_startedAt c; ct_headersReceivedAt := ct_headersReceivedAt c;
     ct_firstModelEventAt := ct_firstModelEventAt c; ct_lastUpstreamEventAt := ct_lastUpstreamEventAt c;
     ct_cancellationObservedAt := match observedAt with Some t => Some t | None => ct_cancellationObservedAt c end;
     ct_upstreamReleasedAt := ct_upstreamReleasedAt c; ct_cancellationPropagation := ct_cancellationPropagation c;
     ct_upstreamEvents := ct_upstreamEvents c; ct_gatewayHeartbeats := ct_gatewayHeartbeats c; ct_stream := ct_stream c;
     ct_terminalErr := Some cause; ct_timeoutFailure := failure; ct_totalTimer := None; ct_firstTokenTimer := None;
     ct_noProgressTimer := None; ct_noProgressGeneration := u64_add (ct_noProgressGeneration c) 1; ct_closeOnce := ct_closeOnce c;
     ct_closeErr := ct_closeErr c |}.

Definition stopTimersLocked (c : TimeoutController) (armed : Armed) : Armed :=
  stop (stop (stop armed (ct_totalTimer c)) (ct_firstTokenTimer c)) (ct_noProgressTimer c).

Definition timeout_failure (c : TimeoutController) (k : TimeoutKind) : TimeoutFailure :=
  let headers := bool_decide (is_Some (ct_headersReceivedAt c)) in
  let output := bool_decide (is_Some (ct_firstModelEventAt c)) in
  {| kind := k; headersReceived := headers; modelOutputStarted := output;
     retryEligibleBeforeOutput := bool_decide (k = TimeoutFirstToken) && headers && negb output; partialFailure := output |}.

(** [None]: the callback has nothing to do. Otherwise the cause to cancel with. *)
Definition timeout (c : TimeoutController) (armed : Armed) (k : TimeoutKind) (generation : Z) : option (TimeoutController * Armed * Failure) :=
  if bool_decide (is_Some (ct_terminalErr c)) ||
     (bool_decide (k = TimeoutFirstToken) && bool_decide (is_Some (ct_firstModelEventAt c))) ||
     (bool_decide (k = TimeoutNoProgress) &&
      (bool_decide (ct_firstModelEventAt c = None) || negb (generation =? ct_noProgressGeneration c)))
  then None
  else
    let failure := timeout_failure c k in
    Some (terminated c (Timeout failure) (Some failure) None, stopTimersLocked c armed, Timeout failure).

Definition terminateObserved (c : TimeoutController) (armed : Armed) (cause : option Failure) (timeoutFailure : option TimeoutFailure)
    (cancellation : bool) (at_ : Time) : option (TimeoutController * Armed * Failure) :=
  let cause := default ErrStreamClosed cause in
  if bool_decide (is_Some (ct_terminalErr c)) then None
  else Some (terminated c cause timeoutFailure (if cancellation then Some at_ else None), stopTimersLocked c armed, cause).

(** A change of the context alone: [controller.cancel], or the parent being done. *)
Definition set_ctx (c : TimeoutController) (ctx : Context) : TimeoutController :=
  {| ct_ctx := ctx; ct_options := ct_options c; ct_startedAt := ct_startedAt c;
     ct_headersReceivedAt := ct_headersReceivedAt c; ct_firstModelEventAt := ct_firstModelEventAt c;
     ct_lastUpstreamEventAt := ct_lastUpstreamEventAt c; ct_cancellationObservedAt := ct_cancellationObservedAt c;
     ct_upstreamReleasedAt := ct_upstreamReleasedAt c; ct_cancellationPropagation := ct_cancellationPropagation c;
     ct_upstreamEvents := ct_upstreamEvents c; ct_gatewayHeartbeats := ct_gatewayHeartbeats c; ct_stream := ct_stream c;
     ct_terminalErr := ct_terminalErr c; ct_timeoutFailure := ct_timeoutFailure c; ct_totalTimer := ct_totalTimer c;
     ct_firstTokenTimer := ct_firstTokenTimer c; ct_noProgressTimer := ct_noProgressTimer c;
     ct_noProgressGeneration := ct_noProgressGeneration c; ct_closeOnce := ct_closeOnce c; ct_closeErr := ct_closeErr c |}.

Definition cancel_controller (c : TimeoutController) (cause : Failure) : TimeoutController := set_ctx c (cancel_context (ct_ctx c) cause).

(** Whether the upstream is closed by this call, [err] being what its [Close] returns. *)
Definition closeAttached (c : TimeoutController) (err : option Failure) (released : Time) : TimeoutController * bool :=
  if negb (ct_stream c) || ct_closeOnce c then (c, false)
  else
    ({| ct_ctx := ct_ctx c; ct_options := ct_options c; ct_startedAt := ct_startedAt c; ct_headersReceivedAt := ct_headersReceivedAt c;
        ct_firstModelEventAt := ct_firstModelEventAt c; ct_lastUpstreamEventAt := ct_lastUpstreamEventAt c;
        ct_cancellationObservedAt := ct_cancellationObservedAt c;
        ct_upstreamReleasedAt := match ct_cancellationObservedAt c with Some _ => Some released | None => ct_upstreamReleasedAt c end;
        ct_cancellationPropagation :=
          match ct_cancellationObservedAt c with Some t => Z.max 0 (released - t) | None => ct_cancellationPropagation c end;
        ct_upstreamEvents := ct_upstreamEvents c; ct_gatewayHeartbeats := ct_gatewayHeartbeats c; ct_stream := ct_stream c;
        ct_terminalErr := ct_terminalErr c; ct_timeoutFailure := ct_timeoutFailure c; ct_totalTimer := ct_totalTimer c;
        ct_firstTokenTimer := ct_firstTokenTimer c; ct_noProgressTimer := ct_noProgressTimer c;
        ct_noProgressGeneration := ct_noProgressGeneration c; ct_closeOnce := true; ct_closeErr := err |}, true).

(** ** Next of the guarded stream *)
(** Before the first test, waiting for the upstream, its answer, the answer after the
    terminal test, a chunk about to be observed, and the result. *)
Inductive guard_pc :=
| GuardStart | GuardWaiting | GuardReturned (r : result NormalizedChunk Failure) | GuardChecked (r : result NormalizedChunk Failure)
| GuardObserving (chunk : NormalizedChunk) | GuardDone (r : result NormalizedChunk Failure).

(** What is left to do after a termination: cancel the context, then close. *)
Inductive task := TaskCancel (cause : Failure) | TaskClose.

(** ** Interleavings *)
Record TimeoutSys := {
  ts_ctl : TimeoutController; ts_armed : Armed; ts_fired : list Timer; ts_now : Time; ts_next : guard_pc; ts_tasks : list task;
  ts_closes : Z; ts_returned : list NormalizedChunk; ts_endedAt : option Time }.

Definition ts_set (s : TimeoutSys) (c : TimeoutController) (armed : Armed) : TimeoutSys :=
  {| ts_ctl := c; ts_armed := armed; ts_fired := ts_fired s; ts_now := ts_now s; ts_next := ts_next s; ts_tasks := ts_tasks s;
     ts_closes := ts_closes s; ts_returned := ts_returned s; ts_endedAt := ts_endedAt s |}.
Definition ts_goto (s : TimeoutSys) (pc : guard_pc) : TimeoutSys :=
  {| ts_ctl := ts_ctl s; ts_armed := ts_armed s; ts_fired := ts_fired s; ts_now := ts_now s; ts_next := pc; ts_tasks := ts_tasks s;
     ts_closes := ts_closes s; ts_returned := ts_returned s ++ match pc with GuardDone (Ok chunk) => [chunk] | _ => [] end;
     ts_endedAt := ts_endedAt s |}.
(** After a termination (or none), with its tasks. *)
Definition ts_end (s : TimeoutSys) (r : option (TimeoutController * Armed * Failure)) : TimeoutSys :=
  match r with
  | None => s
  | Some (c, armed, cause) =>
      {| ts_ctl := c; ts_armed := armed; ts_fired := ts_fired s; ts_now := ts_now s; ts_next := ts_next s;
         ts_tasks := TaskCancel cause :: ts_tasks s; ts_closes := ts_closes s; ts_returned := ts_returned s; ts_endedAt := Some (ts_now s) |}
  end.
Definition ts_close (s : TimeoutSys) (err : option Failure) (tasks : list task) : TimeoutSys :=
  let '(c, closed) := closeAttached (ts_ctl s) err (ts_now s) in
  {| ts_ctl := c; ts_armed := ts_armed s; ts_fired := ts_fired s; ts_now := ts_now s; ts_next := ts_next s; ts_tasks := tasks;
     ts_closes := if closed then ts_closes s + 1 else ts_closes s; ts_returned := ts_returned s; ts_endedAt := ts_endedAt s |}.

(** The steps of [Next] that do not depend on the caller's context; [err] is what
    closing the upstream returns, [at_] the clock read before a critical section. *)
Definition guard_step (s : TimeoutSys) (err : option Failure) (at_ : Time) : option TimeoutSys :=
  let c := ts_ctl s in
  match ts_next s with
  | GuardStart =>
      Some (match ct_terminalErr c with
            | Some e => ts_goto (ts_close s err (ts_tasks s)) (GuardDone (Err e))
            | None => ts_goto s GuardWaiting
            end)
  | GuardReturned r =>
      Some (match ct_terminalErr c with
            | Some e => ts_goto (ts_close s err (ts_tasks s)) (GuardDone (Err e))
            | None => ts_goto s (GuardChecked r)
            end)
  | GuardChecked r =>
      Some (match cancellationError (ct_ctx c), r with
            | Some e, _ => ts_goto (ts_end s (terminateObserved c (ts_armed s) (Some e) None true at_)) (GuardDone (Err e))
            | None, Err e => ts_goto (ts_end s (terminateObserved c (ts_armed s) (Some e) None false at_)) (GuardDone (Err e))
            | None, Ok chunk =>
                if negb (NormalizedChunk_Validate chunk)
                then ts_goto (ts_end s (terminateObserved c (ts_armed s) (Some ErrTimeoutState) None false at_)) (GuardDone (Err ErrTimeoutState))
                else ts_goto s (GuardObserving chunk)
            end)
  | GuardObserving chunk =>
      Some (match observe c (ts_armed s) chunk at_ (ts_now s) with
            | Err e => ts_goto s (GuardDone (Err e))
            | Ok (c', armed) => ts_goto (ts_set s c' armed) (GuardDone (Ok chunk))
            end)
  | GuardWaiting | GuardDone _ => None
  end.

Inductive timeout_step : TimeoutSys -> TimeoutSys -> Prop :=
| step_attach s at_ c armed :
    at_ <= ts_now s -> Attach (ts_ctl s) (ts_armed s) at_ (ts_now s) = Ok (c, armed) -> timeout_step s (ts_set s c armed)
| step_heartbeat s c : RecordGatewayHeartbeat (ts_ctl s) = Ok c -> timeout_step s (ts_set s c (ts_armed s))
| step_fire s timer rest :
    ts_armed s ≡ₚ timer :: rest -> tm_deadline timer <= ts_now s ->
    timeout_step s {| ts_ctl := ts_ctl s; ts_armed := rest; ts_fired := timer :: ts_fired s; ts_now := ts_now s; ts_next := ts_next s;
                      ts_tasks := ts_tasks s; ts_closes := ts_closes s; ts_returned := ts_returned s; ts_endedAt := ts_endedAt s |}
| step_callback s timer rest :
    ts_fired s ≡ₚ timer :: rest ->
    timeout_step s (ts_end {| ts_ctl := ts_ctl s; ts_armed := ts_armed s; ts_fired := rest; ts_now := ts_now s; ts_next := ts_next s;
                              ts_tasks := ts_tasks s; ts_closes := ts_closes s; ts_returned := ts_returned s; ts_endedAt := ts_endedAt s |}
                      (timeout (ts_ctl s) (ts_armed s) (tm_kind timer) (tm_generation timer)))
| step_close_call s at_ : timeout_step s (ts_end s (terminateObserved (ts_ctl s) (ts_armed s) (Some ErrStreamClosed) None false at_))
| step_caller_done s cause at_ : timeout_step s (ts_end s (terminateObserved (ts_ctl s) (ts_armed s) cause None true at_))
| step_parent_done s (ctx : Context) :
    ct_ctx (ts_ctl s) = None -> timeout_step s (ts_set s (set_ctx (ts_ctl s) ctx) (ts_armed s))
| step_task_cancel s cause rest :
    ts_tasks s ≡ₚ TaskCancel cause :: rest ->
    timeout_step s {| ts_ctl := cancel_controller (ts_ctl s) cause; ts_armed := ts_armed s; ts_fired := ts_fired s; ts_now := ts_now s;
                      ts_next := ts_next s; ts_tasks := TaskClose :: rest; ts_closes := ts_closes s; ts_returned := ts_returned s;
                      ts_endedAt := ts_endedAt s |}
| step_task_close s err rest : ts_tasks s ≡ₚ TaskClose :: rest -> timeout_step s (ts_close s err rest)
| step_next_call s r : ct_stream (ts_ctl s) = true -> ts_next s = GuardDone r -> timeout_step s (ts_goto s GuardStart)
| step_next_answer s r : ts_next s = GuardWaiting -> timeout_step s (ts_goto s (GuardReturned r))
| step_next_cancelled s e at_ :
    ts_next s = GuardStart \/ (exists r, ts_next s = GuardChecked r) ->
    timeout_step s (ts_goto (ts_end s (terminateObserved (ts_ctl s) (ts_armed s) (Some e) None true at_)) (GuardDone (Err e)))
| step_next s err at_ s' : at_ <= ts_now s -> guard_step s err at_ = Some s' -> timeout_step s s'
| step_time s now :
    ts_now s <= now ->
    timeout_step s {| ts_ctl := ts_ctl s; ts_armed := ts_armed s; ts_fired := ts_fired s; ts_now := now; ts_next := ts_next s;
                      ts_tasks := ts_tasks s; ts_closes := ts_closes s; ts_returned := ts_returned s; ts_endedAt := ts_endedAt s |}.

(** [Next] has not been called yet. *)
Definition timeout_start (r : TimeoutController * Armed) (now : Time) : TimeoutSys :=
  {| ts_ctl := r.1; ts_armed := r.2; ts_fired := []; ts_now := now; ts_next := GuardDone (Err ErrTimeoutState); ts_tasks := []; ts_closes := 0;
     ts_returned := []; ts_endedAt := None |}.
Definition timeout_reachable (parent : Context) (options : TimeoutOptions) (s : TimeoutSys) : Prop :=
  exists r now1 now2, now1 <= now2 /\ NewTimeoutController parent options now1 now2 = Ok r /\ rtc timeout_step (timeout_start r now2) s.

(** ** Theorems on stream deadlines

    Over all interleavings of the guarded stream, timers, late callbacks, cancellations
    and heartbeats: a timeout is only reported when its deadline has really passed, every
    deadline is enforced, and termination is final and releases the upstream once. *)
(** ** The invariant *)
(** Timers that may still call back. *)
Definition pending (s : TimeoutSys) : list Timer := ts_armed s ++ ts_fired s.

(** What the deadlines of pending timers are counted from. *)
Definition timer_ok (o : TimeoutOptions) (c : TimeoutController) (t : Timer) : Prop :=
  match tm_kind t with
  | TimeoutTotal => ct_startedAt c + TotalTimeout o <= tm_deadline t
  | TimeoutFirstToken => exists h, ct_headersReceivedAt c = Some h /\ h + FirstTokenTimeout o <= tm_deadline t
  | TimeoutNoProgress =>
      is_Some (ct_firstModelEventAt c) /\ tm_generation t <= ct_noProgressGeneration c /\
      (tm_generation t = ct_noProgressGeneration c ->
        exists l, ct_lastUpstreamEventAt c = Some l /\ l + NoProgressTimeout o <= tm_deadline t)
  | TimeoutKindOther _ => False
  end.

(** The timer that guards the present phase. *)
Definition guards (c : TimeoutController) (t : Timer) : Prop :=
  match ct_firstModelEventAt c, ct_stream c with
  | Some _, _ => tm_kind t = TimeoutNoProgress /\ tm_generation t = ct_noProgressGeneration c
  | None, true => tm_kind t = TimeoutFirstToken
  | None, false => tm_kind t = TimeoutTotal
  end.

Definition allowance (o : TimeoutOptions) (k : TimeoutKind) : Duration :=
  match k with TimeoutFirstToken => FirstTokenTimeout o | TimeoutNoProgress => NoProgressTimeout o | _ => TotalTimeout o end.

Record running (o : TimeoutOptions) (now : Time) (c : TimeoutController) (timers : list Timer) : Prop := {
  ru_timers : Forall (fun t => timer_ok o c t /\ tm_deadline t <= now + allowance o (tm_kind t)) timers;
  ru_total : exists t, t ∈ timers /\ tm_kind t = TimeoutTotal;
  ru_phase : exists t, t ∈ timers /\ guards c t;
  ru_fields : (forall t, ct_firstTokenTimer c = Some t -> tm_kind t = TimeoutFirstToken) /\
    (forall t, ct_noProgressTimer c = Some t -> tm_kind t = TimeoutNoProgress);
  ru_failure : ct_timeoutFailure c = None }.

(** A reported timeout, and why it was due at time [te]. *)
Definition genuine_timeout (o : TimeoutOptions) (c : TimeoutController) (te : Time) (f : TimeoutFailure) : Prop :=
  f = timeout_failure c (kind f) /\
  match kind f with
  | TimeoutTotal => ct_startedAt c + TotalTimeout o <= te
  | TimeoutFirstToken => ct_firstModelEventAt c = None /\ exists h, ct_headersReceivedAt c = Some h /\ h + FirstTokenTimeout o <= te
  | TimeoutNoProgress =>
      is_Some (ct_firstModelEventAt c) /\ exists l, ct_lastUpstreamEventAt c = Some l /\ l + NoProgressTimeout o <= te
  | TimeoutKindOther _ => False
  end.

Record ended (o : TimeoutOptions) (s : TimeoutSys) : Prop := {
  en_time : exists te, ts_endedAt s = Some te /\ te <= ts_now s /\
    forall f, ct_timeoutFailure (ts_ctl s) = Some f -> ct_terminalErr (ts_ctl s) = Some (Timeout f) /\ genuine_timeout o (ts_ctl s) te f;
  en_cancel : is_Some (ct_ctx (ts_ctl s)) \/ exists cause, TaskCancel cause ∈ ts_tasks s;
  en_close : ct_stream (ts_ctl s) = true -> ct_closeOnce (ts_ctl s) = true \/ ts_tasks s <> [] }.

Definition events (s : TimeoutSys) : Z := Z.of_nat (length (ts_returned s)).

Record timeout_base (o : TimeoutOptions) (s : TimeoutSys) : Prop := {
  ti_options : ct_options (ts_ctl s) = o;
  ti_started : ct_startedAt (ts_ctl s) <= ts_now s;
  ti_generation : 0 <= ct_noProgressGeneration (ts_ctl s) <= events s + (match ct_terminalErr (ts_ctl s) with Some _ => 1 | None => 0 end);
  ti_stream : ct_stream (ts_ctl s) = bool_decide (is_Some (ct_headersReceivedAt (ts_ctl s)));
  ti_model : is_Some (ct_firstModelEventAt (ts_ctl s)) -> ct_stream (ts_ctl s) = true;
  ti_next : match ts_next s with GuardDone _ => True | _ => ct_stream (ts_ctl s) = true end;
  ti_fired : Forall (fun t => tm_deadline t <= ts_now s) (ts_fired s);
  ti_closes : ts_closes s = (if ct_closeOnce (ts_ctl s) then 1 else 0) }.

Definition timeout_phase (o : TimeoutOptions) (s : TimeoutSys) : Prop :=
  match ct_terminalErr (ts_ctl s) with
  | None => running o (ts_now s) (ts_ctl s) (pending s) /\ ts_tasks s = [] /\ ct_closeOnce (ts_ctl s) = false
  | Some _ => ended o s
  end.

Definition timeout_inv (o : TimeoutOptions) (s : TimeoutSys) : Prop := timeout_base o s /\ timeout_phase o s.

(** Generations are 64-bit: the theorems are about streams of fewer events than that. *)
Definition short (s : TimeoutSys) : Prop := events s + 1 < 18446744073709551616.

(** ** Terminating *)
Lemma terminated_genuine o c te f : genuine_timeout o c te f -> forall cause observed, genuine_timeout o (terminated c cause (Some f) observed) te f.
Proof. by unfold genuine_timeout, timeout_failure. Qed.


(** Any termination that carries no timeout, or a genuine one. *)
Lemma end_inv o s cause failure observed armed : timeout_base o s -> ct_terminalErr (ts_ctl s) = None -> short s ->
  (forall f, failure = Some f -> cause = Timeout f /\ genuine_timeout o (ts_ctl s) (ts_now s) f) ->
  timeout_inv o (ts_end s (Some (terminated (ts_ctl s) cause failure observed, armed, cause))).
Proof.
  intros H Ht Hshort Hf. destruct H as [H1 H2 H3 H4 H5 H6 H7 H8]. rewrite Ht in *. unfold short in *. split; [split; simpl; try done|].
  - unfold u64_add, u64. rewrite Z.mod_small by lia. unfold events in *. simpl in *. lia.
  - split; simpl.
    + exists (ts_now s). split_and!; [done..|]. intros f ->. destruct (Hf f eq_refl) as [-> Hg]. split; [done|]. by apply terminated_genuine.
    + right. exists cause. left.
    + by right.
Qed.

Lemma ts_terminate_inv o s cause cancellation at_ : timeout_inv o s -> short s ->
  timeout_inv o (ts_end s (terminateObserved (ts_ctl s) (ts_armed s) cause None cancellation at_)).
Proof.
  intros H Hs. unfold terminateObserved. destruct (ct_terminalErr (ts_ctl s)) eqn:E; [done|]. simpl. apply end_inv; [apply H|done..].
Qed.

(** ** Timers *)
Definition with_timers (s : TimeoutSys) (armed fired : list Timer) : TimeoutSys :=
  {| ts_ctl := ts_ctl s; ts_armed := armed; ts_fired := fired; ts_now := ts_now s; ts_next := ts_next s; ts_tasks := ts_tasks s;
     ts_closes := ts_closes s; ts_returned := ts_returned s; ts_endedAt := ts_endedAt s |}.

Lemma running_perm o now c timers timers' : (forall t, t ∈ timers <-> t ∈ timers') -> running o now c timers -> running o now c timers'.
Proof.
  intros Heq [R1 (t1 & Ht1 & Hk1) (t2 & Ht2 & Hg2) R4 R5]. split; [|by exists t1; split; [apply Heq|]|by exists t2; split; [apply Heq|]|done|done].
  rewrite Forall_forall in *. intros t Ht. by apply R1, Heq.
Qed.

Lemma fire_inv o s timer rest : ts_armed s ≡ₚ timer :: rest -> tm_deadline timer <= ts_now s -> timeout_inv o s ->
  timeout_inv o (with_timers s rest (timer :: ts_fired s)).
Proof.
  intros Hp Hd [[H1 H2 H3 H4 H5 H6 H7 H8] H9]. split; [split; simpl; try done; by constructor|].
  unfold timeout_phase in *. simpl. destruct (ct_terminalErr (ts_ctl s)); [by destruct H9 as [E1 E2 E3]; split|]. destruct H9 as (R & ? & ?).
  split; [|done]. eapply running_perm; [|exact R]. intros t. unfold pending. simpl. rewrite Hp. set_solver.
Qed.

Lemma no_callback o now c t timers : running o now c (t :: timers) -> timeout c [] (tm_kind t) (tm_generation t) = None -> ct_terminalErr c = None ->
  running o now c timers.
Proof.
  intros [R1 (t1 & Ht1 & Hk1) (t2 & Ht2 & Hg2) R4 R5] Hn Hterm. unfold timeout in Hn. destruct (_ || _) eqn:E; [|done]. rewrite Hterm in E.
  apply Forall_cons in R1 as [_ R1]. split; [done| | |done|done].
  - exists t1. split; [|done]. apply elem_of_cons in Ht1 as [->|]; [|done]. rewrite Hk1 in E. vm_compute in E. done.
  - exists t2. split; [|done]. apply elem_of_cons in Ht2 as [->|]; [|done]. unfold guards in Hg2. exfalso.
    destruct (ct_firstModelEventAt c) as [m|]; [destruct Hg2 as [Hk Hg]; rewrite Hk, Hg, Z.eqb_refl in E|destruct (ct_stream c); rewrite Hg2 in E];
    vm_compute in E; done.
Qed.

Lemma callback_failure c armed k generation c' armed' cause : timeout c armed k generation = Some (c', armed', cause) ->
  c' = terminated c cause (Some (timeout_failure c k)) None /\ armed' = stopTimersLocked c armed /\ cause = Timeout (timeout_failure c k) /\
  ct_terminalErr c = None /\ (k = TimeoutFirstToken -> ct_firstModelEventAt c = None) /\
  (k = TimeoutNoProgress -> is_Some (ct_firstModelEventAt c) /\ generation = ct_noProgressGeneration c).
Proof.
  unfold timeout. destruct (_ || _) eqn:E; [done|]. intros [= <- <- <-]. apply orb_false_iff in E as [[E1 E2]%orb_false_iff E3].
  split_and!; try done.
  - destruct (ct_terminalErr c); [by rewrite bool_decide_eq_true_2 in E1|done].
  - intros ->. simpl in E2. by destruct (ct_firstModelEventAt c).
  - intros ->. simpl in E3. destruct (ct_firstModelEventAt c); [|done]. simpl in E3. split; [done|]. prop_hyps. done.
Qed.

Lemma callback_inv o s timer rest : ts_fired s ≡ₚ timer :: rest -> timeout_inv o s -> short s ->
  timeout_inv o (ts_end (with_timers s (ts_armed s) rest) (timeout (ts_ctl s) (ts_armed s) (tm_kind timer) (tm_generation timer))).
Proof.
  intros Hp [H9 Hph] Hshort. assert (Hb : timeout_base o (with_timers s (ts_armed s) rest)).
  { destruct H9 as [H1 H2 H3 H4 H5 H6 H7 H8]. split; simpl; try done. rewrite Hp in H7. by apply Forall_cons in H7 as []. }
  destruct (timeout _ _ _ _) as [[[c armed] cause]|] eqn:E.
  - apply callback_failure in E as (-> & -> & Hcause & Hterm & Hfirst & Hprog). change (ts_ctl s) with (ts_ctl (with_timers s (ts_armed s) rest)).
    apply end_inv; [done..|]. intros f [= <-]. split; [done|]. simpl.
    unfold timeout_phase in Hph. rewrite Hterm in Hph. destruct Hph as ([R1 _ _ _ _] & _ & _).
    assert (Hin : timer ∈ ts_fired s) by (rewrite Hp; left).
    assert (Hd : tm_deadline timer <= ts_now s /\ timer_ok o (ts_ctl s) timer).
    { destruct H9 as [_ _ _ _ _ _ H7 _]. unfold pending in R1. rewrite Forall_forall in H7, R1. split; [by apply H7|]. apply R1, elem_of_app. by right. }
    destruct Hd as [Hd Hok]. split; [done|]. unfold timer_ok in Hok. cbn [timeout_failure kind]. destruct (tm_kind timer) eqn:Ek.
    + split; [by apply Hfirst|]. destruct Hok as (h & -> & ?). exists h. split; [done|]. lia.
    + destruct (Hprog eq_refl) as [? Hg]. split; [done|]. destruct Hok as (_ & _ & Hok). destruct (Hok Hg) as (l & -> & ?). exists l. split; [done|]. lia.
    + lia.
    + done.
  - simpl. split; [done|]. unfold timeout_phase in *. simpl. destruct (ct_terminalErr (ts_ctl s)) eqn:Ht; [by destruct Hph as [E1 E2 E3]; split|].
    destruct Hph as (R & ? & ?). split; [|done]. eapply (no_callback _ _ _ timer); [|by unfold timeout in *; destruct (_ || _)|done].
    eapply running_perm; [|exact R]. intros t. unfold pending. simpl. rewrite Hp. set_solver.
Qed.

(** ** Changes of facts no deadline depends on *)
(** The same deadlines, events and termination. *)
Definition same_facts (c c' : TimeoutController) : Prop :=
  ct_options c' = ct_options c /\ ct_startedAt c' = ct_startedAt c /\ ct_headersReceivedAt c' = ct_headersReceivedAt c /\
  ct_firstModelEventAt c' = ct_firstModelEventAt c /\ ct_lastUpstreamEventAt c' = ct_lastUpstreamEventAt c /\ ct_stream c' = ct_stream c /\
  ct_terminalErr c' = ct_terminalErr c /\ ct_timeoutFailure c' = ct_timeoutFailure c /\ ct_firstTokenTimer c' = ct_firstTokenTimer c /\
  ct_noProgressTimer c' = ct_noProgressTimer c /\ ct_noProgressGeneration c' = ct_noProgressGeneration c.

Lemma running_same o now c c' timers : same_facts c c' -> running o now c timers -> running o now c' timers.
Proof.
  intros (E1 & E2 & E3 & E4 & E5 & E6 & E7 & E8 & E9 & E10 & E11) [R1 R2 R3 R4 R5]. split; unfold guards in *; rewrite ?E4, ?E6, ?E8, ?E9, ?E10, ?E11; try done.
  eapply Forall_impl; [exact R1|]. intros t. simpl. unfold timer_ok. by rewrite E2, E3, E4, E5, E11.
Qed.

Lemma genuine_same o c c' te f : same_facts c c' -> genuine_timeout o c te f -> genuine_timeout o c' te f.
Proof.
  intros (E1 & E2 & E3 & E4 & E5 & _). unfold genuine_timeout, timeout_failure. by rewrite E2, E3, E4, E5.
Qed.

(** Such a change with the tasks and closes that go with it. *)
Lemma same_inv o s c' tasks closes : timeout_inv o s -> same_facts (ts_ctl s) c' ->
  closes = (if ct_closeOnce c' then 1 else 0) ->
  (ct_terminalErr (ts_ctl s) = None -> tasks = [] /\ ct_closeOnce c' = false) ->
  (is_Some (ct_terminalErr (ts_ctl s)) -> (is_Some (ct_ctx c') \/ exists cause, TaskCancel cause ∈ tasks) /\
    (ct_stream c' = true -> ct_closeOnce c' = true \/ tasks <> [])) ->
  timeout_inv o {| ts_ctl := c'; ts_armed := ts_armed s; ts_fired := ts_fired s; ts_now := ts_now s; ts_next := ts_next s; ts_tasks := tasks;
                   ts_closes := closes; ts_returned := ts_returned s; ts_endedAt := ts_endedAt s |}.
Proof.
  intros [[H1 H2 H3 H4 H5 H6 H7 H8] Hph] Hs Hcl Hrun Hend. pose proof Hs as (E1 & E2 & E3 & E4 & E5 & E6 & E7 & E8 & E9 & E10 & E11).
  split; [split; simpl; rewrite ?E1, ?E2, ?E3, ?E4, ?E6, ?E7, ?E11; done|]. unfold timeout_phase in *. simpl. rewrite E7.
  destruct (ct_terminalErr (ts_ctl s)) as [e|] eqn:Et.
  - destruct (Hend ltac:(done)) as [Hc Hcl']. destruct Hph as [(te & Hte & Hle & Hf) _ _]. split; simpl; [|done|done].
    exists te. split_and!; [done..|]. intros f. rewrite E8, E7. intros Hff. destruct (Hf f Hff). split; [congruence|]. by eapply genuine_same.
  - destruct Hph as (R & _ & _). split; [|by apply Hrun]. by eapply running_same.
Qed.

Lemma set_ctx_same c ctx : same_facts c (set_ctx c ctx).
Proof. by unfold same_facts. Qed.

Lemma close_same c err released : same_facts c (closeAttached c err released).1.
Proof. unfold closeAttached. by destruct (_ || _). Qed.

Lemma tasks_terminal o s : timeout_inv o s -> ts_tasks s <> [] -> is_Some (ct_terminalErr (ts_ctl s)).
Proof. intros [_ Hph] Hne. unfold timeout_phase in Hph. destruct (ct_terminalErr (ts_ctl s)); [done|]. by destruct Hph as (_ & ? & _). Qed.

Lemma ts_close_inv o s err tasks : timeout_inv o s -> is_Some (ct_terminalErr (ts_ctl s)) ->
  (is_Some (ct_ctx (ts_ctl s)) \/ exists cause, TaskCancel cause ∈ tasks) -> timeout_inv o (ts_close s err tasks).
Proof.
  intros H Ht Hc. unfold ts_close. pose proof (close_same (ts_ctl s) err (ts_now s)) as Hs.
  assert (Hclose : (closeAttached (ts_ctl s) err (ts_now s)).2 = ct_stream (ts_ctl s) && negb (ct_closeOnce (ts_ctl s)) /\
    ct_closeOnce (closeAttached (ts_ctl s) err (ts_now s)).1 = ct_closeOnce (ts_ctl s) || ct_stream (ts_ctl s) /\
    ct_ctx (closeAttached (ts_ctl s) err (ts_now s)).1 = ct_ctx (ts_ctl s)).
  { unfold closeAttached. by destruct (ct_stream (ts_ctl s)), (ct_closeOnce (ts_ctl s)) eqn:E; simpl; rewrite ?E. }
  destruct (closeAttached (ts_ctl s) err (ts_now s)) as [c' closed]. simpl in *. destruct Hclose as (-> & Ho & Hx).
  apply same_inv; [done..| | |].
  - destruct H as [Hb _]. rewrite (ti_closes _ _ Hb), Ho. by destruct (ct_stream (ts_ctl s)), (ct_closeOnce (ts_ctl s)).
  - intros E. rewrite E in Ht. by destruct Ht.
  - intros _. rewrite Hx, Ho. split; [done|]. intros E. left. destruct Hs as (_ & _ & _ & _ & _ & E6 & _). rewrite <- E6, E. by rewrite orb_true_r.
Qed.

Lemma goto_inv o s pc : timeout_inv o s -> match pc with GuardDone _ => True | _ => ct_stream (ts_ctl s) = true end ->
  timeout_inv o (ts_goto s pc).
Proof.
  intros [[H1 H2 H3 H4 H5 H6 H7 H8] Hph] Hpc. split; [split; simpl; try done|].
  - unfold events in *. simpl. rewrite length_app. destruct (ct_terminalErr (ts_ctl s)); lia.
  - unfold timeout_phase in *. simpl. destruct (ct_terminalErr (ts_ctl s)); [|done]. by destruct Hph as [E1 E2 E3]; split.
Qed.

(** ** Attaching and observing *)
Lemma elem_of_stop armed timer t : t ∈ armed -> (forall t', timer = Some t' -> t <> t') -> t ∈ stop armed timer.
Proof. intros Ht Hne. destruct timer as [t'|]; simpl; [|done]. apply list_elem_of_filter. split; [by apply Hne|done]. Qed.

Lemma stop_elem armed timer t : t ∈ stop armed timer -> t ∈ armed.
Proof. destruct timer; simpl; [|done]. by intros [_ ?]%list_elem_of_filter. Qed.

Lemma attach_inv o s at_ c armed : timeout_inv o s -> at_ <= ts_now s -> Attach (ts_ctl s) (ts_armed s) at_ (ts_now s) = Ok (c, armed) ->
  timeout_inv o (ts_set s c armed).
Proof.
  intros [[H1 H2 H3 H4 H5 H6 H7 H8] Hph] Hat. unfold Attach. destruct (_ || _) eqn:E; [done|]. apply orb_false_iff in E as [Eh Es].
  apply bool_decide_eq_false in Eh. unfold timeout_phase in Hph. destruct (ct_terminalErr (ts_ctl s)) eqn:Et; [done|]. intros [= <- <-].
  assert (Hm : ct_firstModelEventAt (ts_ctl s) = None).
  { destruct (ct_firstModelEventAt (ts_ctl s)) eqn:Em; [|done]. rewrite H5 in Es by done. done. }
  split; [split; simpl; rewrite ?Et; try done|]; [by destruct (ts_next s)|]. unfold timeout_phase. simpl. destruct Hph as ([R1 (t1 & Ht1 & Hk1) _ [F1 F2] R5] & Htasks & Hco).
  split; [|done]. unfold pending in *. simpl. split; simpl.
  - apply Forall_cons. split.
    { simpl. rewrite H1. split; [|lia]. exists at_. split; [done|]. simpl. lia. }
    eapply Forall_impl; [exact R1|]. intros t. simpl. unfold timer_ok. simpl. intros [Hok Hd]. split; [|done].
    destruct (tm_kind t); try done. destruct Hok as (h & Hh & _). rewrite Hh in Eh. by destruct Eh.
  - exists t1. split; [by right|done].
  - eexists. split; [left|]. unfold guards. simpl. by rewrite Hm.
  - split; [by intros t [= <-]|done].
  - done.
Qed.

Lemma reset_running o c armed fired at_ now (first : bool) c0 armed0 :
  running o now c (armed ++ fired) -> ct_options c = o -> 0 <= ct_noProgressGeneration c -> ct_noProgressGeneration c + 1 < 18446744073709551616 ->
  at_ <= now -> c0 = note_event c at_ first -> is_Some (ct_firstModelEventAt c0) ->
  armed0 = (if first then stop armed (ct_firstTokenTimer c) else armed) ->
  running o now (resetNoProgressTimerLocked c0 armed0 now).1 ((resetNoProgressTimerLocked c0 armed0 now).2 ++ fired).
Proof.
  intros [R1 (t1 & Ht1 & Hk1) _ [F1 F2] R5] Ho Hg Hg' Hat -> Hm ->. set (c0 := note_event c at_ first) in *.
  assert (Hgen : u64_add (ct_noProgressGeneration c) 1 = ct_noProgressGeneration c + 1) by (unfold u64_add, u64; apply Z.mod_small; lia).
  split.
  - simpl. apply Forall_cons. split.
    + simpl. rewrite Ho. split; [|lia]. unfold timer_ok. simpl. rewrite Hgen, Ho. split_and!; [done|lia|]. intros _. exists at_. split; [done|]. lia.
    + rewrite Forall_forall in *. intros t Ht. assert (Hold : t ∈ armed ++ fired).
      { rewrite elem_of_app in *. destruct Ht as [Ht|]; [left|by right]. apply stop_elem in Ht. destruct first; [by apply stop_elem in Ht|done]. }
      apply R1 in Hold as [Hold Hd]. split; [|done]. unfold timer_ok in *. simpl. rewrite Hgen.
      destruct (tm_kind t); try done. destruct Hold as (? & ? & _). split_and!; [done|lia|lia].
  - exists t1. split; [|done]. simpl. right. rewrite elem_of_app in *. destruct Ht1 as [Ht1|]; [left|by right].
    apply elem_of_stop; [destruct first; [apply elem_of_stop; [done|]|done]|].
    + intros t' E%F1 ->. congruence.
    + intros t' E%F2 ->. congruence.
  - eexists. split; [left|]. unfold guards. simpl. destruct Hm as [m Hm]. unfold c0 in Hm. simpl in Hm. by rewrite Hm.
  - simpl. split; [destruct first; [done|exact F1]|by intros t [= <-]].
  - done.
Qed.

Lemma observe_inv o s chunk c armed at_ : timeout_inv o s -> events s + 2 < 18446744073709551616 -> at_ <= ts_now s ->
  ts_next s = GuardObserving chunk -> observe (ts_ctl s) (ts_armed s) chunk at_ (ts_now s) = Ok (c, armed) ->
  timeout_inv o (ts_goto (ts_set s c armed) (GuardDone (Ok chunk))).
Proof.
  intros [[H1 H2 H3 H4 H5 H6 H7 H8] Hph] Hev Hat Hpc. rewrite Hpc in H6. unfold observe, resetNoProgressTimerLocked. unfold timeout_phase in Hph.
  destruct (ct_terminalErr (ts_ctl s)) eqn:Et; [done|]. destruct Hph as (R & Htasks & Hco).
  assert (Hgen : u64_add (ct_noProgressGeneration (ts_ctl s)) 1 = ct_noProgressGeneration (ts_ctl s) + 1) by (unfold u64_add, u64; apply Z.mod_small; lia).
  assert (Hlen : forall c armed, events (ts_goto (ts_set s c armed) (GuardDone (Ok chunk))) = events s + 1).
  { intros c0 armed0. unfold events. simpl. rewrite length_app. simpl. lia. }
  destruct (_ && _) eqn:Ef; [|destruct (bool_decide (is_Some (ct_firstModelEventAt (note_event (ts_ctl s) at_ false)))) eqn:Em; [apply bool_decide_eq_true in Em|apply bool_decide_eq_false in Em]]; intros Hr; injection Hr as <- <-; split;
    try (split; simpl; try rewrite Hlen; rewrite ?Et, ?Hgen; try done; lia); unfold timeout_phase, pending; simpl; rewrite Et; (split; [|done]).
  - eapply running_same; [|apply (reset_running o (ts_ctl s) (ts_armed s) (ts_fired s) at_ (ts_now s) true (note_event (ts_ctl s) at_ true) (stop (ts_armed s) (ct_firstTokenTimer (ts_ctl s))) R); try done; lia].
    unfold same_facts. simpl. by rewrite Et.
  - eapply running_same; [|apply (reset_running o (ts_ctl s) (ts_armed s) (ts_fired s) at_ (ts_now s) false (note_event (ts_ctl s) at_ false) (ts_armed s) R); try done; lia].
    unfold same_facts. simpl. by rewrite Et.
  - destruct R as [R1 R2 R3 R4 R5]. split; try done. eapply Forall_impl; [exact R1|]. intros t [Hok Hd]. split; [|done].
    unfold timer_ok in *. simpl. destruct (tm_kind t); try done. destruct Hok as [? _]. by destruct Em.
Qed.

(** ** Every step preserves the invariant *)
Lemma end_next s r : ts_next (ts_end s r) = ts_next s /\ ts_returned (ts_end s r) = ts_returned s.
Proof. by destruct r as [[[]]|]. Qed.

Lemma close_next s err tasks : ts_next (ts_close s err tasks) = ts_next s /\ ts_returned (ts_close s err tasks) = ts_returned s.
Proof. unfold ts_close. by destruct (closeAttached _ _ _). Qed.

Lemma ended_tasks o s : timeout_inv o s -> is_Some (ct_terminalErr (ts_ctl s)) ->
  is_Some (ct_ctx (ts_ctl s)) \/ exists cause, TaskCancel cause ∈ ts_tasks s.
Proof. intros [_ Hph] [e He]. unfold timeout_phase in Hph. rewrite He in Hph. apply (en_cancel _ _ Hph). Qed.

Lemma guard_step_inv o s err at_ s' : timeout_inv o s -> short s' -> at_ <= ts_now s -> guard_step s err at_ = Some s' -> timeout_inv o s'.
Proof.
  intros H Hshort Hat Hg. pose proof (ti_next _ _ (proj1 H)) as Hnext. unfold guard_step in Hg.
  assert (Hsh : forall e s0, ts_returned s0 = ts_returned s -> short (ts_goto s0 (GuardDone (Err e))) -> short s).
  { intros e s0 E. unfold short, events. simpl. by rewrite app_nil_r, E. }
  destruct (ts_next s) eqn:En; try done; injection Hg as <-.
  - destruct (ct_terminalErr (ts_ctl s)) eqn:Et; [|by apply goto_inv]. apply goto_inv; [|done]. apply ts_close_inv; [done|by rewrite Et|]. by eapply ended_tasks; [|rewrite Et].
  - destruct (ct_terminalErr (ts_ctl s)) eqn:Et; [|by apply goto_inv]. apply goto_inv; [|done]. apply ts_close_inv; [done|by rewrite Et|]. by eapply ended_tasks; [|rewrite Et].
  - destruct (cancellationError (ct_ctx (ts_ctl s))) as [e|].
    { apply goto_inv; [|done]. apply ts_terminate_inv; [done|]. eapply Hsh; [|exact Hshort]. by apply end_next. }
    destruct r as [chunk|e]; [destruct (NormalizedChunk_Validate chunk)|]; cbn [negb].
    + by apply goto_inv.
    + apply goto_inv; [|done]. apply ts_terminate_inv; [done|]. eapply Hsh; [|exact Hshort]. by apply end_next.
    + apply goto_inv; [|done]. apply ts_terminate_inv; [done|]. eapply Hsh; [|exact Hshort]. by apply end_next.
  - destruct (observe _ _ _ _ _) as [[c armed]|e] eqn:Eo; [|by apply goto_inv]. eapply observe_inv; try done.
    unfold short, events in *. simpl in Hshort. rewrite length_app in Hshort. simpl in Hshort. lia.
Qed.

Lemma short_before s s' : timeout_step s s' -> short s' -> short s.
Proof.
  assert (Hlen : forall s0, (length (ts_returned s) <= length (ts_returned s0))%nat -> short s0 -> short s) by (unfold short, events; lia).
  intros Hs. apply Hlen. destruct Hs; simpl; try lia.
  all: try (rewrite ?length_app, ?(proj2 (end_next _ _)), ?(proj2 (close_next _ _ _)); simpl; lia).
  unfold guard_step in *. destruct (ts_next s); simplify_eq/=; repeat case_match; simpl;
      rewrite ?length_app, ?(proj2 (end_next _ _)), ?(proj2 (close_next _ _ _)); lia.
Qed.

Lemma heartbeat_inv o s c : timeout_inv o s -> RecordGatewayHeartbeat (ts_ctl s) = Ok c -> timeout_inv o (ts_set s c (ts_armed s)).
Proof.
  intros H. unfold RecordGatewayHeartbeat. destruct (_ || _) eqn:E; [done|]. intros Hr. injection Hr as <-. prop_hyps.
  apply same_inv; simpl; [done|done|apply (proj1 H)|..].
  - intros Et. destruct H as [_ Hph]. unfold timeout_phase in Hph. rewrite Et in Hph. by destruct Hph as (_ & ? & ?).
  - intros [e He]. rewrite He in *. exfalso. eauto.
Qed.

Lemma timeout_step_inv o s s' : timeout_inv o s -> timeout_step s s' -> short s' -> timeout_inv o s'.
Proof.
  intros H Hs Hshort. pose proof (short_before _ _ Hs Hshort) as Hshort0.
  destruct Hs as [s at_ c armed Hat Ha|s c Hb|s timer rest Hp Hd|s timer rest Hp|s at_|s cause at_|s ctx Hx|s cause rest Hp|s err rest Hp|s r Hst Hn|s r Hn|s e at_ Hn
    |s err at_ s' Hat Hg|s now Hnow].
  - by eapply attach_inv.
  - by apply heartbeat_inv.
  - by apply fire_inv.
  - by apply callback_inv.
  - by apply ts_terminate_inv.
  - by apply ts_terminate_inv.
  - apply same_inv; [done|apply set_ctx_same|apply (proj1 H)|..]; simpl.
    + intros Et. destruct H as [_ Hph]. unfold timeout_phase in Hph. rewrite Et in Hph. by destruct Hph as (_ & ? & ?).
    + intros [e He]. destruct H as [_ Hph]. unfold timeout_phase in Hph. rewrite He in Hph. destruct Hph as [_ [Hc|Hc] Hcl]; [by rewrite Hx in Hc; destruct Hc|].
      split; [by right|done].
  - assert (Ht : is_Some (ct_terminalErr (ts_ctl s))) by (eapply tasks_terminal; [done|]; intros E; rewrite E in Hp; by apply Permutation_nil_cons in Hp).
    apply same_inv; [done|apply set_ctx_same|apply (proj1 H)|..]; simpl.
    + intros Et. rewrite Et in Ht. by destruct Ht.
    + intros _. split; [left; unfold cancel_context; by destruct (ct_ctx (ts_ctl s))|]. by right.
  - assert (Ht : is_Some (ct_terminalErr (ts_ctl s))) by (eapply tasks_terminal; [done|]; intros E; rewrite E in Hp; by apply Permutation_nil_cons in Hp).
    apply ts_close_inv; [done..|]. destruct (ended_tasks _ _ H Ht) as [Hc|[cause Hc]]; [by left|right]. exists cause. rewrite Hp in Hc. by apply elem_of_cons in Hc as [|].
  - by apply goto_inv.
  - apply goto_inv; [done|]. pose proof (ti_next _ _ (proj1 H)) as Hnext. by rewrite Hn in Hnext.
  - apply goto_inv; [|done]. by apply ts_terminate_inv.
  - by eapply guard_step_inv.
  - destruct H as [[H1 H2 H3 H4 H5 H6 H7 H8] Hph]. split; [split; simpl; try done; [lia|]; eapply Forall_impl; [exact H7|]; simpl; lia|].
    unfold timeout_phase in *. simpl. destruct (ct_terminalErr (ts_ctl s)).
    + destruct Hph as [(te & ? & ? & ?) E2 E3]. split; [|done|done]. exists te. split_and!; try done. simpl. lia.
    + destruct Hph as ([R1 R2 R3 R4 R5] & ? & ?). split; [|done]. split; try done. eapply Forall_impl; [exact R1|]. simpl. intros t [? ?]. split; [done|lia].
Qed.

Lemma timeout_start_inv parent o now1 now2 r : now1 <= now2 -> NewTimeoutController parent o now1 now2 = Ok r -> timeout_inv o (timeout_start r now2).
Proof.
  intros Hle. unfold NewTimeoutController. destruct (_ || _); [done|]. intros Hr. injection Hr as <-. split.
  - split; simpl; try done; try lia.
  - unfold timeout_phase. simpl. split; [|done]. unfold pending. simpl. split; simpl; try done.
    + repeat constructor; unfold timer_ok; simpl; lia.
    + eexists. split; [left|done].
    + eexists. split; [left|done].
Qed.

Lemma timeout_steps_inv o s s' : rtc timeout_step s s' -> timeout_inv o s -> short s' -> timeout_inv o s' /\ short s.
Proof.
  induction 1 as [s|s1 s2 s3 H12 H23 IH]; intros Hinv Hshort; [done|]. assert (Hs2 : short s2).
  { clear IH H12 Hinv. induction H23; [done|]. eapply short_before; [done|]. by apply IHrtc. }
  split; [|by eapply short_before]. apply IH; [|done]. by eapply timeout_step_inv.
Qed.

Lemma timeout_reachable_inv parent o s : timeout_reachable parent o s -> short s -> timeout_inv o s.
Proof. intros (r & now1 & now2 & Hle & Hr & Hs) Hshort. eapply timeout_steps_inv; [done| |done]. by eapply timeout_start_inv. Qed.

(** ** After the end *)
Lemma ended_step s s' : timeout_step s s' -> is_Some (ct_terminalErr (ts_ctl s)) ->
  ct_terminalErr (ts_ctl s') = ct_terminalErr (ts_ctl s) /\ ct_timeoutFailure (ts_ctl s') = ct_timeoutFailure (ts_ctl s) /\
  ts_endedAt s' = ts_endedAt s /\ ts_returned s' = ts_returned s.
Proof.
  intros Hs [e He].
  assert (Hterm : forall s0 cause f b at_, ts_ctl s0 = ts_ctl s -> ts_end s0 (terminateObserved (ts_ctl s) (ts_armed s) cause f b at_) = s0).
  { intros s0 cause f b at_ _. unfold terminateObserved. by rewrite He. }
  assert (Hclose : forall s0 err tasks, ct_terminalErr (ts_ctl (ts_close s0 err tasks)) = ct_terminalErr (ts_ctl s0) /\
    ct_timeoutFailure (ts_ctl (ts_close s0 err tasks)) = ct_timeoutFailure (ts_ctl s0) /\ ts_endedAt (ts_close s0 err tasks) = ts_endedAt s0 /\
    ts_returned (ts_close s0 err tasks) = ts_returned s0).
  { intros s0 err tasks. unfold ts_close, closeAttached. by destruct (_ || _). }
  destruct Hs as [s at_ c armed Hat Ha|s c Hb|s timer rest Hp Hd|s timer rest Hp|s at_|s cause at_|s ctx Hx|s cause rest Hp|s err rest Hp|s r Hst Hn|s r Hn|s e' at_ Hn
    |s err at_ s' Hat Hg|s now Hnow]; try done.
  - unfold Attach in Ha. rewrite He in Ha. by destruct (_ || _).
  - unfold RecordGatewayHeartbeat in Hb. rewrite He in Hb. by destruct (bool_decide (ct_headersReceivedAt (ts_ctl s) = None)).
  - unfold timeout. rewrite He. done.
  - by rewrite Hterm.
  - by rewrite Hterm.
  - simpl. by rewrite app_nil_r.
  - simpl. by rewrite app_nil_r.
  - rewrite Hterm by done. simpl. by rewrite app_nil_r.
  - unfold guard_step, observe in Hg. rewrite He in Hg. destruct (Hclose s err (ts_tasks s)) as (C1 & C2 & C3 & C4).
    destruct (ts_next s); try done; injection Hg as <-; simpl; rewrite ?app_nil_r; try done.
    destruct (cancellationError _); [|destruct r; [case_match|]]; rewrite ?Hterm by done; simpl; by rewrite ?app_nil_r.
Qed.

Lemma ended_steps s s' : rtc timeout_step s s' -> is_Some (ct_terminalErr (ts_ctl s)) ->
  ct_terminalErr (ts_ctl s') = ct_terminalErr (ts_ctl s) /\ ct_timeoutFailure (ts_ctl s') = ct_timeoutFailure (ts_ctl s) /\
  ts_returned s' = ts_returned s.
Proof.
  induction 1 as [|s1 s2 s3 H12 _ IH]; intros Ht; [done|]. destruct (ended_step _ _ H12 Ht) as (E1 & E2 & _ & E4).
  rewrite <- E1 in Ht. destruct (IH Ht) as (F1 & F2 & F3). split_and!; congruence.
Qed.

(** C30: Timeouts are genuine. Whatever interleaving of stream reads, timers, callbacks of
    stopped timers, heartbeats and cancellations led there: a reported first-token
    timeout means that no model output came within FirstTokenTimeout of the headers, a
    no-progress timeout that output had begun and NoProgressTimeout passed since the
    last upstream event, a total timeout that TotalTimeout passed since the start; the
    failure offers a retry exactly if it is a first-token timeout, so that a total timeout
    before any output offers none, and it is partial exactly when output had begun. The
    streams are those with fewer than 2^64 - 1 events ([short]). *)
Theorem timeouts_are_genuine parent options s f : timeout_reachable parent options s -> short s ->
  ct_timeoutFailure (ts_ctl s) = Some f ->
  exists ended, ts_endedAt s = Some ended /\ ended <= ts_now s /\ ct_terminalErr (ts_ctl s) = Some (Timeout f) /\
    genuine_timeout options (ts_ctl s) ended f /\
    (retryEligibleBeforeOutput f = true <-> kind f = TimeoutFirstToken) /\
    (partialFailure f = true <-> is_Some (ct_firstModelEventAt (ts_ctl s))).
Proof.
  intros Hr Hshort Hf. destruct (timeout_reachable_inv _ _ _ Hr Hshort) as [Hb Hph]. unfold timeout_phase in Hph.
  destruct (ct_terminalErr (ts_ctl s)) as [e|] eqn:Et.
  - destruct Hph as [(te & Hte & Hle & Hg) _ _]. destruct (Hg _ Hf) as [He Hgen]. exists te. split_and!; try done; [congruence|..]; destruct Hgen as [Hfe Hk].
    + rewrite Hfe. simpl. split; intros Hx.
      * prop_hyps. done.
      * rewrite Hx in *. destruct Hk as (-> & h & -> & _). done.
    + rewrite Hfe. simpl. apply bool_decide_eq_true.
  - destruct Hph as ([_ _ _ _ Hnone] & _). congruence.
Qed.

(** A pending timer of the present phase, or of the whole attempt, ends the stream. *)
Lemma due_ends s t now : t ∈ pending s -> guards (ts_ctl s) t \/ tm_kind t = TimeoutTotal -> ct_terminalErr (ts_ctl s) = None -> ts_now s <= now ->
  tm_deadline t <= now ->
  exists s', rtc timeout_step s s' /\ ts_now s' = now /\ ct_timeoutFailure (ts_ctl s') = Some (timeout_failure (ts_ctl s) (tm_kind t)) /\
    ts_returned s' = ts_returned s.
Proof.
  intros Hin Hg Ht Hnow Hd.
  assert (Hfire : exists s1 rest, rtc timeout_step s s1 /\ ts_ctl s1 = ts_ctl s /\ ts_now s1 = now /\ ts_returned s1 = ts_returned s /\
    ts_fired s1 ≡ₚ t :: rest).
  { apply elem_of_app in Hin as [Hin|Hin]; apply elem_of_Permutation in Hin as [rest Hp].
    - eexists _, (ts_fired s). split; [eapply rtc_l; [by apply (step_time s now)|]; eapply rtc_l; [|apply rtc_refl]|].
      + match goal with |- timeout_step ?s1 _ => apply (step_fire s1 t rest); done end.
      + done.
    - eexists _, rest. split; [eapply rtc_l; [by apply (step_time s now)|]; apply rtc_refl|]. done. }
  assert (Hcb : forall armed, exists armed', timeout (ts_ctl s) armed (tm_kind t) (tm_generation t) =
    Some (terminated (ts_ctl s) (Timeout (timeout_failure (ts_ctl s) (tm_kind t))) (Some (timeout_failure (ts_ctl s) (tm_kind t))) None, armed',
      Timeout (timeout_failure (ts_ctl s) (tm_kind t)))).
  { intros armed. exists (stopTimersLocked (ts_ctl s) armed). unfold timeout. rewrite Ht. unfold guards in Hg.
    destruct Hg as [Hg|Hg]; [|by rewrite Hg]. destruct (ct_firstModelEventAt (ts_ctl s)) as [m|]; [|destruct (ct_stream (ts_ctl s)); by rewrite Hg].
    destruct Hg as [-> ->]. by rewrite Z.eqb_refl. }
  destruct Hfire as (s1 & rest & Hs & Ec & En & Er & Hp). destruct (Hcb (ts_armed s1)) as [armed' Ecb].
  eexists. split; [eapply rtc_r; [exact Hs|by apply (step_callback s1 t rest)]|]. rewrite Ec, Ecb. done.
Qed.

(** Deadlines are enforced. While the stream has not ended, a timer of the present
    phase (total before the headers, first token until model output, no progress
    afterwards) and the total timer are pending, both due within their timeout from now
    at the latest; if nothing else happens until then, the stream ends with exactly that
    timeout and no further chunk is returned. *)
Theorem deadlines_are_enforced parent options s : timeout_reachable parent options s -> short s -> ct_terminalErr (ts_ctl s) = None ->
  let c := ts_ctl s in
  let phase := match ct_firstModelEventAt c, ct_stream c with
               | Some _, _ => TimeoutNoProgress | None, true => TimeoutFirstToken | None, false => TimeoutTotal end in
  forall k, k = phase \/ k = TimeoutTotal ->
  exists deadline, deadline <= ts_now s + allowance options k /\
    forall now, ts_now s <= now -> deadline <= now ->
    exists s', rtc timeout_step s s' /\ ts_now s' = now /\ ct_timeoutFailure (ts_ctl s') = Some (timeout_failure c k) /\ ts_returned s' = ts_returned s.
Proof.
  intros Hr Hshort Ht c phase k Hk. destruct (timeout_reachable_inv _ _ _ Hr Hshort) as [Hb Hph]. unfold timeout_phase in Hph. rewrite Ht in Hph.
  destruct Hph as ([R1 (t1 & Ht1 & Hk1) (t2 & Ht2 & Hg2) _ _] & _). rewrite Forall_forall in R1. destruct Hk as [->| ->].
  - assert (Hk2 : tm_kind t2 = phase).
    { unfold phase, c, guards in *. destruct (ct_firstModelEventAt (ts_ctl s)); [apply Hg2|]. by destruct (ct_stream (ts_ctl s)). }
    exists (tm_deadline t2). rewrite <- Hk2. split; [apply (R1 _ Ht2)|]. intros now Hn Hd. apply due_ends; try done. by left.
  - exists (tm_deadline t1). rewrite <- Hk1. split; [apply (R1 _ Ht1)|]. intros now Hn Hd. apply due_ends; try done. by right.
Qed.

(** Termination is final and releases the upstream once. Once ended, the terminal
    error and the timeout never change and no chunk is returned any more; the upstream
    is closed at most once, never before the end, and when the ending goroutine is done
    the context is cancelled and an attached upstream has been closed. *)
Theorem stream_ends_once parent options s s' : timeout_reachable parent options s -> rtc timeout_step s s' -> short s' ->
  is_Some (ct_terminalErr (ts_ctl s)) ->
  ct_terminalErr (ts_ctl s') = ct_terminalErr (ts_ctl s) /\ ct_timeoutFailure (ts_ctl s') = ct_timeoutFailure (ts_ctl s) /\
  ts_returned s' = ts_returned s /\ ts_closes s' <= 1 /\
  (ts_tasks s' = [] -> is_Some (ct_ctx (ts_ctl s')) /\ (ct_stream (ts_ctl s') = true -> ts_closes s' = 1)).
Proof.
  intros Hr Hs Hshort Ht. assert (Hr' : timeout_reachable parent options s').
  { destruct Hr as (r & n1 & n2 & Hle & Hr & Hs0). exists r, n1, n2. split_and!; [done..|]. by etrans. }
  destruct (ended_steps _ _ Hs Ht) as (E1 & E2 & E3). destruct (timeout_reachable_inv _ _ _ Hr' Hshort) as [Hb Hph].
  pose proof (ti_closes _ _ Hb) as Hc. unfold timeout_phase in Hph. rewrite E1 in Hph. destruct Ht as [e He]. rewrite He in *. destruct Hph as [_ Hcancel Hclose].
  split_and!; try done; [by rewrite Hc; destruct (ct_closeOnce (ts_ctl s'))|]. intros Htasks. split.
  - destruct Hcancel as [?|[cause Hin]]; [done|]. rewrite Htasks in Hin. by apply not_elem_of_nil in Hin.
  - intros Hst. destruct (Hclose Hst) as [Ho|?]; [by rewrite Hc, Ho|done].
Qed.

(** The upstream is not closed while the stream runs. *)
Lemma open_while_running parent options s : timeout_reachable parent options s -> short s -> ct_terminalErr (ts_ctl s) = None -> ts_closes s = 0.
Proof.
  intros Hr Hshort Ht. destruct (timeout_reachable_inv _ _ _ Hr Hshort) as [Hb Hph]. unfold timeout_phase in Hph. rewrite Ht in Hph.
  destruct Hph as (_ & _ & Ho). by rewrite (ti_closes _ _ Hb), Ho.
Qed.

(** ** A run *)
(** Headers at 5, one chunk at 10, then silence: the no-progress timer ends the stream. *)
Module TimeoutDemo.
Definition options : TimeoutOptions := {| FirstTokenTimeout := 20; NoProgressTimeout := 30; TotalTimeout := 1000 |}.
Definition at_time (s : TimeoutSys) (now : Time) : TimeoutSys :=
  {| ts_ctl := ts_ctl s; ts_armed := ts_armed s; ts_fired := ts_fired s; ts_now := now; ts_next := ts_next s; ts_tasks := ts_tasks s;
     ts_closes := ts_closes s; ts_returned := ts_returned s; ts_endedAt := ts_endedAt s |}.
Definition total : Timer := {| tm_kind := TimeoutTotal; tm_generation := 0; tm_deadline := 1000 |}.
Definition controller : TimeoutController :=
  {| ct_ctx := None; ct_options := options; ct_startedAt := 0; ct_headersReceivedAt := None; ct_firstModelEventAt := None;
     ct_lastUpstreamEventAt := None; ct_cancellationObservedAt := None; ct_upstreamReleasedAt := None; ct_cancellationPropagation := 0;
     ct_upstreamEvents := 0; ct_gatewayHeartbeats := 0; ct_stream := false; ct_terminalErr := None; ct_timeoutFailure := None;
     ct_totalTimer := Some total; ct_firstTokenTimer := None; ct_noProgressTimer := None; ct_noProgressGeneration := 0;
     ct_closeOnce := false; ct_closeErr := None |}.
Definition s0 : TimeoutSys := at_time (timeout_start (controller, [total]) 0) 5.
Definition s1 : TimeoutSys := match Attach (ts_ctl s0) (ts_armed s0) 5 5 with Ok (c, armed) => ts_set s0 c armed | Err _ => s0 end.
Definition s2 : TimeoutSys := at_time (ts_goto s1 GuardStart) 10.
Definition chunk : NormalizedChunk := demo_content_chunk 1 "Hello".
Definition s3 : TimeoutSys := ts_goto (default s2 (guard_step s2 None 10)) (GuardReturned (Ok chunk)).
Definition s4 : TimeoutSys := default s3 (guard_step s3 None 10).
Definition s5 : TimeoutSys := default s4 (guard_step s4 None 10).
Definition s6 : TimeoutSys := default s5 (guard_step s5 None 10).
Definition s7 : TimeoutSys := at_time s6 40.
Definition progress : Timer := {| tm_kind := TimeoutNoProgress; tm_generation := 1; tm_deadline := 40 |}.
Definition s8 : TimeoutSys := with_timers s7 [total] [progress].
Definition s9 : TimeoutSys := ts_end (with_timers s8 [total] []) (timeout (ts_ctl s8) (ts_armed s8) TimeoutNoProgress 1).

Lemma reach6 : timeout_reachable None options s6.
Proof.
  exists (controller, [total]), 0, 0. split; [lia|]. split; [vm_compute; reflexivity|].
  eapply rtc_l; [apply (step_time _ 5); vm_compute; congruence|]. eapply rtc_l; [eapply (step_attach s0 5); [vm_compute; congruence|vm_compute; reflexivity]|].
  eapply rtc_l; [eapply (step_next_call s1); vm_compute; reflexivity|]. eapply rtc_l; [apply (step_time _ 10); vm_compute; congruence|].
  eapply rtc_l; [eapply (step_next s2 None 10); [vm_compute; congruence|vm_compute; reflexivity]|].
  eapply rtc_l; [eapply (step_next_answer _ (Ok chunk)); vm_compute; reflexivity|].
  eapply rtc_l; [eapply (step_next s3 None 10); [vm_compute; congruence|vm_compute; reflexivity]|].
  eapply rtc_l; [eapply (step_next s4 None 10); [vm_compute; congruence|vm_compute; reflexivity]|].
  eapply rtc_l; [eapply (step_next s5 None 10); [vm_compute; congruence|vm_compute; reflexivity]|]. apply rtc_refl.
Qed.

Lemma steps : rtc timeout_step s6 s9.
Proof.
  eapply rtc_l; [apply (step_time _ 40); vm_compute; congruence|].
  eapply rtc_l; [eapply (step_fire s7 progress [total]); [vm_compute; reflexivity|vm_compute; congruence]|].
  eapply rtc_l; [eapply (step_callback s8 progress []); vm_compute; reflexivity|]. apply rtc_refl.
Qed.

Lemma reach9 : timeout_reachable None options s9.
Proof. destruct reach6 as (r & n1 & n2 & Hle & Hr & Hs). exists r, n1, n2. split_and!; [done..|]. etrans; [exact Hs|apply steps]. Qed.
End TimeoutDemo.

Lemma timeouts_are_genuine_witness : exists f, ct_timeoutFailure (ts_ctl TimeoutDemo.s9) = Some f /\ kind f = TimeoutNoProgress /\ partialFailure f = true.
Proof.
  destruct (ct_timeoutFailure (ts_ctl TimeoutDemo.s9)) as [f|] eqn:E; [|vm_compute in E; discriminate E]. exists f. split; [reflexivity|].
  destruct (timeouts_are_genuine _ _ _ f TimeoutDemo.reach9 ltac:(vm_compute; reflexivity) E) as (te & _ & _ & _ & _ & _ & Hp).
  split; [vm_compute in E; injection E as <-; reflexivity|]. apply Hp. exists 10. vm_compute. reflexivity.
Defined.

Lemma deadlines_are_enforced_witness : exists deadline, deadline <= 40 /\ forall now, 10 <= now -> deadline <= now ->
  exists s', rtc timeout_step TimeoutDemo.s6 s' /\ ts_now s' = now /\
    ct_timeoutFailure (ts_ctl s') = Some (timeout_failure (ts_ctl TimeoutDemo.s6) TimeoutNoProgress) /\ ts_returned s' = [TimeoutDemo.chunk].
Proof.
  exact (deadlines_are_enforced _ _ _ TimeoutDemo.reach6 ltac:(vm_compute; reflexivity) ltac:(vm_compute; reflexivity) TimeoutNoProgress ltac:(left; vm_compute; reflexivity)).
Defined.

Lemma stream_ends_once_witness : ts_returned TimeoutDemo.s9 = [TimeoutDemo.chunk] /\ ts_closes TimeoutDemo.s9 <= 1.
Proof.
  split; [vm_compute; reflexivity|].
  apply (stream_ends_once None TimeoutDemo.options TimeoutDemo.s9 TimeoutDemo.s9 TimeoutDemo.reach9 (rtc_refl _ _));
    [vm_compute; reflexivity|eexists; vm_compute; reflexivity].
Defined.
