(* ===== verification/StreamUsage.v ===== *)
(** * Usage and heartbeats of a stream (src/internal/streaming/usage.go, heartbeat.go)

    The aggregator turns the usage reports of a stream into the one fact that is
    accounted: reports are cumulative, so the last one stands, and none may fall below
    an earlier one. The heartbeat sends comments to the client while the model is silent. *)
From Stdlib Require Import ZArith Lia Bool Ascii String.
From stdpp Require Import base tactics option list strings gmap fin_maps sets sorting.
From S2P Require Import Prelude Identifiers Unicode JSON Catalog Retry Metering Adapter StreamBuffer.
(** ** Data of the aggregator *)
Inductive usage_error :=
| ErrUsageAggregationInvalid | ErrUsageAggregationOrder | ErrUsageAggregationRegression | ErrUsageAggregationLimit
| ErrUsageAggregationClosed | ErrUsageEstimateExists.
Inductive UsageOrigin := UsageOriginProviderFinal | UsageOriginProviderChunks | UsageOriginLocalEstimate.

Definition maximumUsageEvents : Z := 1000000.
Record UsageTrack := { ut_Origin : UsageOrigin; ut_Usage : NormalizedUsage; ut_Events : Z; ut_FirstSequence : Z; ut_LastSequence : Z }.
Record UsageAggregator := {
  ua_MaxUsageEvents : Z; ua_sequenceObserved : bool; ua_lastSequence : Z; ua_usageEvents : Z; ua_providerFinal : option UsageTrack;
  ua_providerChunks : option UsageTrack; ua_localEstimate : option UsageTrack; ua_terminalObserved : bool; ua_terminalStatus : UsageStatus;
  ua_closed : bool }.

Definition NewUsageAggregator (maxUsageEvents : Z) : result UsageAggregator usage_error :=
  if (maxUsageEvents <? 1) || (maximumUsageEvents <? maxUsageEvents) then Err ErrUsageAggregationInvalid
  else Ok {| ua_MaxUsageEvents := maxUsageEvents; ua_sequenceObserved := false; ua_lastSequence := 0; ua_usageEvents := 0;
             ua_providerFinal := None; ua_providerChunks := None; ua_localEstimate := None; ua_terminalObserved := false;
             ua_terminalStatus := UsageStatusOther ""; ua_closed := false |}.

(** ** Operations of the aggregator *)
Definition SetLocalEstimate (a : UsageAggregator) (usage : NormalizedUsage) : UsageAggregator * option usage_error :=
  if negb (NormalizedUsage_Validate usage) || negb (bool_decide (u_Source usage = SourceEstimated)) then (a, Some ErrUsageAggregationInvalid)
  else match ua_localEstimate a with
  | Some _ => (a, Some ErrUsageEstimateExists)
  | None =>
      ({| ua_MaxUsageEvents := ua_MaxUsageEvents a; ua_sequenceObserved := ua_sequenceObserved a; ua_lastSequence := ua_lastSequence a;
          ua_usageEvents := ua_usageEvents a; ua_providerFinal := ua_providerFinal a; ua_providerChunks := ua_providerChunks a;
          ua_localEstimate := Some {| ut_Origin := UsageOriginLocalEstimate; ut_Usage := usage; ut_Events := 1; ut_FirstSequence := 0;
                                      ut_LastSequence := 0 |};
          ua_terminalObserved := ua_terminalObserved a; ua_terminalStatus := ua_terminalStatus a; ua_closed := ua_closed a |}, None)
  end.

Definition usage_counts (u : NormalizedUsage) : list TokenCount :=
  [u_InputTokens u; u_OutputTokens u; u_CacheReadTokens u; u_CacheWriteTokens u; u_ReasoningTokens u; u_AudioInputTokens u; u_AudioOutputTokens u].

Definition validateCumulativeUsage (previous next : NormalizedUsage) : bool :=
  forallb (fun '(p, n) => negb (tc_Present p && (negb (tc_Present n) || (tc_Value n <? tc_Value p)))) (zip (usage_counts previous) (usage_counts next)).

Definition observeProviderUsageLocked (a : UsageAggregator) (chunk : NormalizedChunk) (terminal : bool) : result UsageAggregator usage_error :=
  match ch_Usage chunk with
  | None => Err ErrUsageAggregationInvalid
  | Some usage =>
      if negb (bool_decide (u_Source usage = SourceProvider)) then Err ErrUsageAggregationInvalid
      else if ua_MaxUsageEvents a <=? ua_usageEvents a then Err ErrUsageAggregationLimit
      else if match ua_providerChunks a with Some t => negb (validateCumulativeUsage (ut_Usage t) usage) | None => false end
      then Err ErrUsageAggregationRegression
      else
        let track := {| ut_Origin := if terminal then UsageOriginProviderFinal else UsageOriginProviderChunks; ut_Usage := usage;
                        ut_Events := match ua_providerChunks a with Some t => if terminal then 1 else ut_Events t + 1 | None => 1 end;
                        ut_FirstSequence := match ua_providerChunks a with Some t => if terminal then ch_Sequence chunk else ut_FirstSequence t
                                            | None => ch_Sequence chunk end;
                        ut_LastSequence := ch_Sequence chunk |} in
        Ok {| ua_MaxUsageEvents := ua_MaxUsageEvents a; ua_sequenceObserved := ua_sequenceObserved a; ua_lastSequence := ua_lastSequence a;
              ua_usageEvents := ua_usageEvents a + 1; ua_providerFinal := if terminal then Some track else ua_providerFinal a;
              ua_providerChunks := if terminal then ua_providerChunks a else Some track; ua_localEstimate := ua_localEstimate a;
              ua_terminalObserved := ua_terminalObserved a; ua_terminalStatus := ua_terminalStatus a; ua_closed := ua_closed a |}
  end.

Definition end_aggregation (a : UsageAggregator) (status : UsageStatus) : UsageAggregator :=
  {| ua_MaxUsageEvents := ua_MaxUsageEvents a; ua_sequenceObserved := ua_sequenceObserved a; ua_lastSequence := ua_lastSequence a;
     ua_usageEvents := ua_usageEvents a; ua_providerFinal := ua_providerFinal a; ua_providerChunks := ua_providerChunks a;
     ua_localEstimate := ua_localEstimate a; ua_terminalObserved := true; ua_terminalStatus := status; ua_closed := true |}.

Definition note_sequence (a : UsageAggregator) (sequence : Z) : UsageAggregator :=
  {| ua_MaxUsageEvents := ua_MaxUsageEvents a; ua_sequenceObserved := true; ua_lastSequence := sequence; ua_usageEvents := ua_usageEvents a;
     ua_providerFinal := ua_providerFinal a; ua_providerChunks := ua_providerChunks a; ua_localEstimate := ua_localEstimate a;
     ua_terminalObserved := ua_terminalObserved a; ua_terminalStatus := ua_terminalStatus a; ua_closed := ua_closed a |}.

Definition Usage_Observe (a : UsageAggregator) (chunk : NormalizedChunk) : result UsageAggregator usage_error :=
  if negb (NormalizedChunk_Validate chunk) then Err ErrUsageAggregationInvalid
  else if ua_closed a then Err ErrUsageAggregationClosed
  else if ua_sequenceObserved a && (ch_Sequence chunk <=? ua_lastSequence a) then Err ErrUsageAggregationOrder
  else
    let? a' :=
      match ch_Kind chunk with
      | ChunkUsageDelta => observeProviderUsageLocked a chunk false
      | ChunkMessageEnd =>
          let? a1 := match ch_Usage chunk with Some _ => observeProviderUsageLocked a chunk true | None => Ok a end in
          Ok (end_aggregation a1 (ch_UsageStatus chunk))
      | _ => Ok a
      end in
    Ok (note_sequence a' (ch_Sequence chunk)).

Definition ClosePartial (a : UsageAggregator) : UsageAggregator :=
  {| ua_MaxUsageEvents := ua_MaxUsageEvents a; ua_sequenceObserved := ua_sequenceObserved a; ua_lastSequence := ua_lastSequence a;
     ua_usageEvents := ua_usageEvents a; ua_providerFinal := ua_providerFinal a; ua_providerChunks := ua_providerChunks a;
     ua_localEstimate := ua_localEstimate a; ua_terminalObserved := ua_terminalObserved a; ua_terminalStatus := ua_terminalStatus a;
     ua_closed := true |}.

Definition effectiveUsageTrack (providerFinal providerChunks localEstimate : option UsageTrack) : option UsageTrack :=
  match providerFinal, providerChunks with Some t, _ => Some t | None, Some t => Some t | None, None => localEstimate end.

Definition KnownUsage (a : UsageAggregator) : option (NormalizedUsage * UsageOrigin) :=
  (fun t => (ut_Usage t, ut_Origin t)) <$> effectiveUsageTrack (ua_providerFinal a) (ua_providerChunks a) (ua_localEstimate a).

(** ** The specification *)
(** A report [b] covers [a]: every count known in [a] is known in [b] and not smaller. *)
Definition covers (b a : NormalizedUsage) : Prop :=
  Forall2 (fun n p => tc_Present p = true -> tc_Present n = true /\ tc_Value p <= tc_Value n) (usage_counts b) (usage_counts a).

(** Whatever is done to an aggregator; [accepted] are the chunks [Observe] accepted,
    oldest first, and [estimates] the accepted local estimates. *)
Inductive usage_history (max : Z) : UsageAggregator -> list NormalizedChunk -> list NormalizedUsage -> Prop :=
| usage_new a : NewUsageAggregator max = Ok a -> usage_history max a [] []
| usage_observed a accepted estimates chunk a' :
    usage_history max a accepted estimates -> Usage_Observe a chunk = Ok a' -> usage_history max a' (accepted ++ [chunk]) estimates
| usage_estimated a accepted estimates usage :
    usage_history max a accepted estimates ->
    usage_history max (SetLocalEstimate a usage).1 accepted
      (estimates ++ match (SetLocalEstimate a usage).2 with None => [usage] | Some _ => [] end)
| usage_closed a accepted estimates : usage_history max a accepted estimates -> usage_history max (ClosePartial a) accepted estimates.

Definition reports (accepted : list NormalizedChunk) : list NormalizedUsage := omap ch_Usage accepted.

Lemma cumulative_counts ps : forall ns, length ps = length ns ->
  forallb (fun '(p, n) => negb (tc_Present p && (negb (tc_Present n) || (tc_Value n <? tc_Value p)))) (zip ps ns) = true ->
  Forall2 (fun n p => tc_Present p = true -> tc_Present n = true /\ tc_Value p <= tc_Value n) ns ps.
Proof.
  induction ps as [|p ps IH]; intros [|n ns] Hlen H; simpl in *; try done. apply andb_true_iff in H as [H Hr]. constructor; [|apply IH; [lia|done]].
  intros Hp. rewrite Hp in H. simpl in H. prop_hyps. done.
Qed.

Lemma cumulative_covers previous next : validateCumulativeUsage previous next = true -> covers next previous.
Proof. intros H. by apply cumulative_counts. Qed.

#[export] Instance covers_trans : Transitive covers.
Proof.
  intros a b c. unfold covers. generalize (usage_counts a), (usage_counts b), (usage_counts c). intros l1 l2 l3 H1. revert l3.
  induction H1 as [|x y l1 l2 Hxy _ IH]; intros l3 H2; [by inversion H2|]. inversion H2 as [|? z ? l3' Hyz H23]; subst. constructor; [|by apply IH].
  intros Hz. destruct (Hyz Hz) as [Hy ?]. destruct (Hxy Hy). split; [done|lia].
Qed.

(** ** What an aggregator knows *)
Record usage_inv (max : Z) (a : UsageAggregator) (accepted : list NormalizedChunk) (estimates : list NormalizedUsage) : Prop := {
  uu_max : ua_MaxUsageEvents a = max /\ 1 <= max;
  uu_events : ua_usageEvents a = Z.of_nat (length (reports accepted)) /\ ua_usageEvents a <= max;
  uu_sequence : StronglySorted (fun x y => ch_Sequence x < ch_Sequence y) accepted /\
    Forall (fun x => ua_sequenceObserved a = true /\ ch_Sequence x <= ua_lastSequence a) accepted;
  uu_ordered : StronglySorted (fun x y => covers y x) (reports accepted);
  uu_known : (ut_Usage <$> effectiveUsageTrack (ua_providerFinal a) (ua_providerChunks a) None) = last (reports accepted);
  uu_open : ua_closed a = false -> ua_providerFinal a = None;
  uu_estimate : (ut_Usage <$> ua_localEstimate a) = head estimates /\ (length estimates <= 1)%nat }.

(** A valid chunk of another kind carries no usage. *)
Lemma payload_usage chunk allowed : validateChunkEmptyPayload chunk allowed = true -> Z.testbit allowed 5 = false -> ch_Usage chunk = None.
Proof.
  unfold validateChunkEmptyPayload. intros H Ha. apply Z.eqb_eq in H.
  assert (Hbit : Z.testbit (chunk_payload chunk) 5 = false).
  { assert (E : Z.testbit (Z.land (chunk_payload chunk) (Z.lxor 255 allowed)) 5 = false) by (by rewrite H, Z.bits_0).
    rewrite Z.land_spec, Z.lxor_spec, Ha in E. by rewrite andb_true_r in E. }
  destruct (ch_Usage chunk) as [u|] eqn:Eu; [|done]. exfalso. unfold chunk_payload in Hbit.
  assert (Hu : has_usage chunk = true) by (unfold has_usage; by rewrite Eu). rewrite Hu in Hbit.
  destruct (has_role chunk), (is_empty (ch_ContentDelta chunk)), (is_empty (ch_ReasoningDelta chunk)), (bool_decide (is_Some (ch_ToolDelta chunk))),
    (has_finish chunk), (Nat.eqb (length (ch_ProviderExtension chunk)) 0); by vm_compute in Hbit.
Qed.

Lemma other_kind_no_usage chunk : NormalizedChunk_Validate chunk = true -> ch_Kind chunk <> ChunkUsageDelta -> ch_Kind chunk <> ChunkMessageEnd ->
  ch_Usage chunk = None.
Proof.
  unfold NormalizedChunk_Validate. intros [_ H]%andb_true_iff Hd He. destruct (ch_Kind chunk); try done; repeat (apply andb_true_iff in H as [_ H]);
    by eapply payload_usage.
Qed.

Lemma sorted_last {A : Type} (R : A -> A -> Prop) l x y : StronglySorted R l -> last l = Some y -> x ∈ l -> x = y \/ R x y.
Proof.
  induction 1 as [|a l Hs IH Ha]; intros Hl Hx; [by apply not_elem_of_nil in Hx|]. destruct l as [|b l].
  - apply list_elem_of_singleton in Hx as ->. injection Hl as ->. by left.
  - apply elem_of_cons in Hx as [->|Hx]; [|by apply IH]. right. rewrite Forall_forall in Ha. apply Ha. by apply last_Some_elem_of.
Qed.

Lemma reports_snoc accepted chunk : reports (accepted ++ [chunk]) = reports accepted ++ option_list (ch_Usage chunk).
Proof. unfold reports. rewrite omap_app. simpl. by destruct (ch_Usage chunk). Qed.

(** Accepting one report. *)
Lemma provider_usage_inv max a accepted estimates chunk terminal a' :
  usage_inv max a accepted estimates -> ua_closed a = false -> observeProviderUsageLocked a chunk terminal = Ok a' ->
  exists usage, ch_Usage chunk = Some usage /\ ua_MaxUsageEvents a' = max /\
    ua_usageEvents a' = Z.of_nat (length (reports accepted ++ [usage])) /\ ua_usageEvents a' <= max /\
    StronglySorted (fun x y => covers y x) (reports accepted ++ [usage]) /\
    (ut_Usage <$> effectiveUsageTrack (ua_providerFinal a') (ua_providerChunks a') None) = Some usage /\
    (terminal = false -> ua_providerFinal a' = None) /\ ua_localEstimate a' = ua_localEstimate a /\ ua_closed a' = false.
Proof.
  intros [[Hm Hm1] [He Hle] _ Ho Hk Hop _] Hc. unfold observeProviderUsageLocked. destruct (ch_Usage chunk) as [u|] eqn:Eu; [|done].
  destruct (negb _); [done|]. destruct (_ <=? _) eqn:El; [done|]. prop_hyps.
  destruct (match ua_providerChunks a with Some t => _ | None => false end) eqn:Ec; [done|]. intros [= <-]. exists u.
  pose proof (Hop Hc) as Hfin. rewrite Hfin in Hk. simpl. split_and!; try done.
  - rewrite length_app. simpl. lia.
  - lia.
  - apply StronglySorted_app_2; [|done|by repeat constructor]. intros x y Hx ->%list_elem_of_singleton.
    destruct (ua_providerChunks a) as [t|] eqn:Et; simpl in Hk.
    + prop_hyps. apply cumulative_covers in Ec. destruct (sorted_last _ _ _ _ Ho (eq_sym Hk) Hx) as [->|Hcov]; [done|]. by etrans.
    + symmetry in Hk. apply last_None in Hk. rewrite Hk in Hx. by apply not_elem_of_nil in Hx.
  - destruct terminal; simpl; [done|]. by rewrite Hfin.
  - by intros ->.
Qed.

Lemma observed_sequence a accepted chunk : StronglySorted (fun x y => ch_Sequence x < ch_Sequence y) accepted ->
  Forall (fun x => ua_sequenceObserved a = true /\ ch_Sequence x <= ua_lastSequence a) accepted ->
  ua_sequenceObserved a && (ch_Sequence chunk <=? ua_lastSequence a) = false ->
  StronglySorted (fun x y => ch_Sequence x < ch_Sequence y) (accepted ++ [chunk]) /\
  Forall (fun x => true = true /\ ch_Sequence x <= ch_Sequence chunk) (accepted ++ [chunk]).
Proof.
  intros Hs Hall Hlt. assert (Hless : forall x, x ∈ accepted -> ch_Sequence x < ch_Sequence chunk).
  { intros x Hx. rewrite Forall_forall in Hall. destruct (Hall _ Hx) as [Ho Hle]. rewrite Ho in Hlt. simpl in Hlt. prop_hyps. lia. }
  split.
  - apply StronglySorted_app_2; [|done|by repeat constructor]. intros x y Hx ->%list_elem_of_singleton. by apply Hless.
  - apply Forall_app_2; [|by repeat constructor]. apply Forall_forall. intros x Hx. split; [done|]. specialize (Hless _ Hx). lia.
Qed.

Lemma observe_usage_inv max a accepted estimates chunk a' : usage_inv max a accepted estimates -> Usage_Observe a chunk = Ok a' ->
  usage_inv max a' (accepted ++ [chunk]) estimates.
Proof.
  intros Hinv. unfold Usage_Observe. destruct (NormalizedChunk_Validate chunk) eqn:Ev; cbn [negb]; [|done]. destruct (ua_closed a) eqn:Ec; [done|].
  destruct (ua_sequenceObserved a && _) eqn:Es; [done|]. intros H.
  destruct (observed_sequence _ _ _ (proj1 (uu_sequence _ _ _ _ Hinv)) (proj2 (uu_sequence _ _ _ _ Hinv)) Es) as [Hs1 Hs2].
  pose proof (fun terminal a1 => provider_usage_inv max a accepted estimates chunk terminal a1 Hinv Ec) as Hprov.
  assert (Hsame : ch_Usage chunk = None -> forall a0, ua_MaxUsageEvents a0 = ua_MaxUsageEvents a -> ua_usageEvents a0 = ua_usageEvents a ->
    ua_providerFinal a0 = ua_providerFinal a -> ua_providerChunks a0 = ua_providerChunks a -> ua_localEstimate a0 = ua_localEstimate a ->
    usage_inv max (note_sequence a0 (ch_Sequence chunk)) (accepted ++ [chunk]) estimates).
  { intros Hnone a0 E1 E2 E3 E4 E5. destruct Hinv as [U1 U2 U3 U4 U5 U6 U7]. split; simpl; rewrite ?E1, ?E2, ?E3, ?E4, ?E5, ?reports_snoc, ?Hnone; simpl;
      rewrite ?app_nil_r; try done. intros _. by apply U6. }
  destruct (ch_Kind chunk) eqn:Ek; try (simpl in H; injection H as <-; apply Hsame; [by apply other_kind_no_usage; rewrite ?Ek|done..]).
  - destruct (observeProviderUsageLocked a chunk false) as [a1|] eqn:E1; [|done]. simpl in H. injection H as <-.
    destruct (Hprov _ _ E1) as (u & Eu & P1 & P2 & P3 & P4 & P5 & P6 & P7 & P8). destruct Hinv as [U1 U2 U3 U4 U5 U6 U7].
    split; simpl; rewrite ?reports_snoc, ?Eu; simpl; try done.
    + by destruct U1.
    + by rewrite P5, last_snoc.
    + by auto.
    + by rewrite P7.
  - destruct (ch_Usage chunk) as [u0|] eqn:Eu0.
    + destruct (observeProviderUsageLocked a chunk true) as [a1|] eqn:E1; [|done]. simpl in H. injection H as <-.
      destruct (Hprov _ _ E1) as (u & Eu & P1 & P2 & P3 & P4 & P5 & P6 & P7 & P8). destruct Hinv as [U1 U2 U3 U4 U5 U6 U7].
      assert (u0 = u) as -> by congruence. split; simpl; rewrite ?reports_snoc, ?Eu0; simpl; try done.
      * by destruct U1.
      * by rewrite P5, last_snoc.
      * by rewrite P7.
    + simpl in H. injection H as <-. by apply Hsame.
Qed.

Lemma usage_history_inv max a accepted estimates : usage_history max a accepted estimates -> usage_inv max a accepted estimates.
Proof.
  induction 1 as [a Ha|a accepted estimates chunk a' _ IH Hs|a accepted estimates usage _ IH|a accepted estimates _ IH].
  - unfold NewUsageAggregator in Ha. destruct (_ || _) eqn:E; [done|]. prop_hyps. injection Ha as <-. split; simpl; try done; try lia; try (split; constructor; lia); try (by split; constructor); constructor.
  - by eapply observe_usage_inv.
  - unfold SetLocalEstimate. destruct (_ || _); [by simpl; rewrite app_nil_r|]. destruct (ua_localEstimate a) eqn:El; simpl; [by rewrite app_nil_r|].
    destruct IH as [U1 U2 U3 U4 U5 U6 [U7 U8]]. split; try done. rewrite El in U7. simpl in U7. destruct estimates as [|e estimates]; [by simpl|done].
  - destruct IH as [U1 U2 U3 U4 U5 U6 U7]. by split.
Qed.

(** The accounted usage is the last provider report, and nothing was lost on the way.
    However chunks, estimates and closes arrive: the accepted chunks have strictly
    increasing sequence numbers, at most MaxUsageEvents of them report usage, every
    report keeps and never lowers each count known to an earlier one, and the known
    usage is the last report, or the local estimate when there is none; at most one
    estimate is ever taken. *)
Theorem known_usage_is_the_last_report max a accepted estimates : usage_history max a accepted estimates ->
  StronglySorted (fun x y => ch_Sequence x < ch_Sequence y) accepted /\
  Z.of_nat (length (reports accepted)) <= max /\
  StronglySorted (fun x y => covers y x) (reports accepted) /\
  fst <$> KnownUsage a = match last (reports accepted) with Some usage => Some usage | None => head estimates end /\
  (length estimates <= 1)%nat.
Proof.
  intros H%usage_history_inv. destruct H as [[U1 U1'] [U2 U2'] [U3 _] U4 U5 U6 [U7 U8]]. split_and!; try done; [lia|].
  unfold KnownUsage. rewrite <- U5, <- option_fmap_compose. unfold effectiveUsageTrack in *.
  destruct (ua_providerFinal a), (ua_providerChunks a); simpl in *; try done.
Qed.

(** ** Heartbeats *)
Inductive heartbeat_error := ErrHeartbeatConfiguration | ErrHeartbeatState | HeartbeatCancelled | HeartbeatSinkFailed (cause : Failure).

Definition minimumHeartbeatInterval : Duration := 10000000.
Definition maximumHeartbeatInterval : Duration := 300000000000.
Record HeartbeatOptions := { hb_Enabled : bool; hb_Interval : Duration }.
Record Heartbeat := {
  hb_options : HeartbeatOptions; hb_running : bool; hb_finished : bool; hb_startedAt : option Time; hb_lastSentAt : option Time; hb_sent : Z }.

Definition validHeartbeatInterval (interval : Duration) : bool := (minimumHeartbeatInterval <=? interval) && (interval <=? maximumHeartbeatInterval).

Definition ResolveHeartbeatOptions (platformInterval : Duration) (preference : string) : result HeartbeatOptions heartbeat_error :=
  if negb (validHeartbeatInterval platformInterval) then Err ErrHeartbeatConfiguration
  else if bool_decide (preference = ""%string) || bool_decide (preference = "on"%string) then Ok {| hb_Enabled := true; hb_Interval := platformInterval |}
  else if bool_decide (preference = "off"%string) then Ok {| hb_Enabled := false; hb_Interval := 0 |}
  else Err ErrHeartbeatConfiguration.

(** [clocked] tells whether the clock reads a time that is not zero. *)
Definition newHeartbeat (options : HeartbeatOptions) (clocked : bool) : result Heartbeat heartbeat_error :=
  if (negb (hb_Enabled options) && negb (hb_Interval options =? 0)) || (hb_Enabled options && negb (validHeartbeatInterval (hb_Interval options))) ||
     negb clocked then Err ErrHeartbeatConfiguration
  else Ok {| hb_options := options; hb_running := false; hb_finished := false; hb_startedAt := None; hb_lastSentAt := None; hb_sent := 0 |}.

Definition set_heartbeat (h : Heartbeat) (running finished : bool) (startedAt lastSentAt : option Time) (sent : Z) : Heartbeat :=
  {| hb_options := hb_options h; hb_running := running; hb_finished := finished; hb_startedAt := startedAt; hb_lastSentAt := lastSentAt; hb_sent := sent |}.

Definition recordSent (h : Heartbeat) (now : Time) : Heartbeat :=
  set_heartbeat h (hb_running h) (hb_finished h) (hb_startedAt h) (Some now) (u64_add (hb_sent h) 1).
Definition finish_heartbeat (h : Heartbeat) : Heartbeat := set_heartbeat h false true (hb_startedAt h) (hb_lastSentAt h) (hb_sent h).

(** One turn of the loop of [Run]: what the select sees. A tick carries the answers of
    the sink and of the recorder and the time it is recorded at. *)
Inductive heartbeat_event := HeartbeatDone | HeartbeatTick (sink : option Failure) (recorded : bool) (now : Time).

Fixpoint run_loop (h : Heartbeat) (events : list heartbeat_event) : Heartbeat * option heartbeat_error :=
  match events with
  | [] => (h, None)
  | HeartbeatDone :: _ => (finish_heartbeat h, Some HeartbeatCancelled)
  | HeartbeatTick (Some cause) _ _ :: _ => (finish_heartbeat h, Some (HeartbeatSinkFailed cause))
  | HeartbeatTick None false _ :: _ => (finish_heartbeat h, Some ErrHeartbeatState)
  | HeartbeatTick None true now :: rest => run_loop (recordSent h now) rest
  end.

(** [ticker]: the factory made a ticker. The result is [None] while the loop still runs. *)
Definition Heartbeat_Run (h : Heartbeat) (started : Time) (ticker : bool) (events : list heartbeat_event)
    : Heartbeat * option (result unit heartbeat_error) :=
  if hb_running h || hb_finished h then (h, Some (Err ErrHeartbeatState))
  else
    let enabled := hb_Enabled (hb_options h) in
    let h1 := set_heartbeat h enabled (negb enabled) (Some started) (hb_lastSentAt h) (hb_sent h) in
    if negb enabled then (h1, Some (Ok tt))
    else if negb ticker then (finish_heartbeat h1, Some (Err ErrHeartbeatConfiguration))
    else let '(h2, r) := run_loop h1 events in (h2, Err <$> r).

(** The comments sent by a run: ticks before the first failure or the end. *)
Fixpoint delivered_ticks (events : list heartbeat_event) : Z :=
  match events with HeartbeatTick None true _ :: rest => 1 + delivered_ticks rest | _ => 0 end.

Lemma run_loop_sent events : forall h h' r, run_loop h events = (h', r) -> 0 <= hb_sent h -> hb_sent h + delivered_ticks events < 18446744073709551616 ->
  hb_sent h' = hb_sent h + delivered_ticks events /\ (r <> None -> hb_running h' = false /\ hb_finished h' = true).
Proof.
  induction events as [|e events IH]; intros h h' r; simpl; [intros [= <- <-]; split; [lia|done]|].
  destruct e as [|[cause|] [|] now]; try (intros [= <- <-]; simpl; split; [lia|done]).
  intros H Hn Hb. assert (Hd : 0 <= delivered_ticks events) by (clear; induction events as [|[|[] [] ?] events IH]; simpl; lia).
  assert (Hs : hb_sent (recordSent h now) = hb_sent h + 1) by (simpl; unfold u64_add, u64; apply Z.mod_small; lia).
  destruct (IH _ _ _ H) as [E ?]; rewrite ?Hs; try lia. split; [|done]. rewrite E, Hs. lia.
Qed.

(** A heartbeat runs once: it counts exactly the comments written and recorded before
    the first failure, and a second run is refused without any effect. *)
Theorem heartbeat_runs_once h started ticker events h' r : hb_running h = false -> hb_finished h = false -> hb_sent h = 0 ->
  delivered_ticks events < 18446744073709551616 -> Heartbeat_Run h started ticker events = (h', Some r) ->
  hb_running h' = false /\ hb_finished h' = true /\
  hb_sent h' = (if hb_Enabled (hb_options h) && ticker then delivered_ticks events else 0) /\
  forall started' ticker' events', Heartbeat_Run h' started' ticker' events' = (h', Some (Err ErrHeartbeatState)).
Proof.
  intros Hr Hf Hs Hd. unfold Heartbeat_Run at 1. rewrite Hr, Hf. simpl. intros H.
  assert (Hdone : hb_running h' = false /\ hb_finished h' = true /\ hb_sent h' = (if hb_Enabled (hb_options h) && ticker then delivered_ticks events else 0)).
  { destruct (hb_Enabled (hb_options h)); simpl in H; [|by injection H as <- _]. destruct ticker; simpl in H; [|by injection H as <- _].
    destruct (run_loop _ events) as [h2 e] eqn:E. injection H as <- He. apply run_loop_sent in E; simpl in *; try lia.
    destruct E as [E1 E2]. destruct e as [e|]; [|done]. destruct (E2 ltac:(done)). split_and!; [done..|]. simpl. lia. }
  destruct Hdone as (E1 & E2 & E3). split_and!; [done..|]. intros. unfold Heartbeat_Run. by rewrite E1, E2.
Qed.

(** ** A run *)
Module UsageDemo.
Definition usage (input : Z) : NormalizedUsage :=
  let none := {| tc_Value := 0; tc_Present := false |} in
  {| u_InputTokens := {| tc_Value := input; tc_Present := true |}; u_OutputTokens := none; u_CacheReadTokens := none; u_CacheWriteTokens := none;
     u_ReasoningTokens := none; u_AudioInputTokens := none; u_AudioOutputTokens := none; u_Source := SourceProvider; u_Complete := false;
     u_Estimate := None; u_EvidenceBytes := 20; u_UnmappedFields := [] |}.
Definition report (sequence input : Z) : NormalizedChunk :=
  {| ch_Sequence := sequence; ch_Kind := ChunkUsageDelta; ch_ChoiceIndex := 0; ch_Role := RoleOther ""; ch_ContentDelta := "";
     ch_ReasoningDelta := ""; ch_ToolDelta := None; ch_FinishReason := FinishOther ""; ch_ProviderFinishReason := ""; ch_Usage := Some (usage input);
     ch_UsageStatus := UsageStatusPartial; ch_ProviderEventType := ""; ch_ProviderExtension := []; ch_ObservedAt := 1 |}.
Definition start : UsageAggregator :=
  {| ua_MaxUsageEvents := 8; ua_sequenceObserved := false; ua_lastSequence := 0; ua_usageEvents := 0; ua_providerFinal := None;
     ua_providerChunks := None; ua_localEstimate := None; ua_terminalObserved := false; ua_terminalStatus := UsageStatusOther "";
     ua_closed := false |}.
Definition observed (a : UsageAggregator) (chunk : NormalizedChunk) : UsageAggregator := match Usage_Observe a chunk with Ok a' => a' | Err _ => a end.
Definition second : UsageAggregator := observed (observed start (report 1 5)) (report 2 9).

Lemma history : usage_history 8 second [report 1 5; report 2 9] [].
Proof.
  apply (usage_observed _ (observed start (report 1 5)) [report 1 5]); [|vm_compute; reflexivity].
  apply (usage_observed _ start []); [|vm_compute; reflexivity]. by apply usage_new.
Qed.
End UsageDemo.

Lemma known_usage_is_the_last_report_witness : fst <$> KnownUsage UsageDemo.second = Some (UsageDemo.usage 9).
Proof. exact (proj1 (proj2 (proj2 (proj2 (known_usage_is_the_last_report _ _ _ _ UsageDemo.history))))). Defined.
