(* ===== verification/TPM.v ===== *)
(** * Token reservations (src/internal/limits/tpm.go)

    How many tokens a request reserves and how many it used. The estimator is an
    interface; [json.Marshal] of a request is a parameter of the fallback estimator. *)
From Stdlib Require Import ZArith Lia Bool Ascii String.
From stdpp Require Import base tactics option list strings gmap fin_maps sets.
From S2P Require Import Prelude Identifiers LimitPolicy Unicode Retry Metering Adapter.
Inductive tpm_error :=
| ErrInvalidTPM | ErrTPMEstimateUnavailable (cause : option tpm_error) | ErrTPMUsageUnavailable | ErrTPMContext (cause : ctx_error)
| ErrEstimator (what : string).

Record InputTokenEstimate := {
  ie_Tokens : Z; ie_Tokenizer : string; ie_TokenizerVersion : string; ie_PhysicalModel : string; ie_DeploymentVersion : Z;
  ie_ProviderProtocolVersion : string; ie_Estimated : bool }.

Record TPMReservationPlan := {
  plan_InputTokens : Z; plan_MaximumOutputTokens : Z; plan_ReservedTokens : Z; plan_Tokenizer : string; plan_TokenizerVersion : string;
  plan_PhysicalModel : string; plan_DeploymentVersion : Z; plan_ProviderProtocolVersion : string; plan_Estimated : bool }.

Record TPMActual := {
  act_InputTokens : Z; act_OutputTokens : Z; act_Tokens : Z; act_Source : Source; act_Complete : bool }.

(** [InputTokenEstimator]: may keep state, and looks at its context at its own times. *)
Class InputTokenEstimator (E : Type) :=
  EstimateInputTokens : E -> Context -> NormalizedRequest -> E * result InputTokenEstimate tpm_error.

(** ** The fallback estimator *)
Definition normalizedJSONEstimatorOverhead : Z := 32.

Record NormalizedJSONByteEstimator := { je_maximumInputTokens : Z; je_metadata : UsageEstimateMetadata }.

Definition NewNormalizedJSONByteEstimator (maximumInputTokens : Z) (physicalModel : string) (deploymentVersion : Z)
    (providerProtocolVersion : string) : result NormalizedJSONByteEstimator tpm_error :=
  let metadata := {| est_Estimated := true; est_Tokenizer := "normalized-json-byte-bound"; est_TokenizerVersion := "v1";
    est_PhysicalModel := physicalModel; est_DeploymentVersion := deploymentVersion;
    est_ProviderProtocolVersion := providerProtocolVersion |} in
  if (maximumInputTokens <=? normalizedJSONEstimatorOverhead) || (MaximumValue <? maximumInputTokens) ||
     negb (UsageEstimateMetadata_Validate metadata)
  then Err ErrInvalidTPM
  else Ok {| je_maximumInputTokens := maximumInputTokens; je_metadata := metadata |}.

(** [after] is the context at the second look, [marshal] what json.Marshal returns. *)
Definition json_estimate (marshal : NormalizedRequest -> option (list Z)) (after : Context) (e : NormalizedJSONByteEstimator)
    (ctx : Context) (request : NormalizedRequest) : result InputTokenEstimate tpm_error :=
  match ctx with
  | ctx_nil => Err ErrInvalidTPM
  | ctx_done cause => Err (ErrTPMContext cause)
  | ctx_live =>
      if negb (NormalizedRequest_Validate request) then Err ErrInvalidTPM
      else match marshal request with
      | None => Err (ErrTPMEstimateUnavailable None)
      | Some payload =>
          let bytes := Z.of_nat (length payload) in
          if je_maximumInputTokens e - normalizedJSONEstimatorOverhead <? bytes then Err (ErrTPMEstimateUnavailable None)
          else match after with
          | ctx_done cause => Err (ErrTPMContext cause)
          | _ =>
              let m := je_metadata e in
              Ok {| ie_Tokens := bytes + normalizedJSONEstimatorOverhead; ie_Tokenizer := est_Tokenizer m;
                    ie_TokenizerVersion := est_TokenizerVersion m; ie_PhysicalModel := est_PhysicalModel m;
                    ie_DeploymentVersion := est_DeploymentVersion m; ie_ProviderProtocolVersion := est_ProviderProtocolVersion m;
                    ie_Estimated := true |}
          end
      end
  end.

(** ** Validation *)
Definition estimate_metadata (e : InputTokenEstimate) : UsageEstimateMetadata :=
  {| est_Estimated := ie_Estimated e; est_Tokenizer := ie_Tokenizer e; est_TokenizerVersion := ie_TokenizerVersion e;
     est_PhysicalModel := ie_PhysicalModel e; est_DeploymentVersion := ie_DeploymentVersion e;
     est_ProviderProtocolVersion := ie_ProviderProtocolVersion e |}.

Definition estimate_validate (e : InputTokenEstimate) : bool :=
  negb ((ie_Tokens e =? 0) || (MaximumValue <? ie_Tokens e) || negb (UsageEstimateMetadata_Validate (estimate_metadata e))).

Definition plan_metadata (p : TPMReservationPlan) : UsageEstimateMetadata :=
  {| est_Estimated := plan_Estimated p; est_Tokenizer := plan_Tokenizer p; est_TokenizerVersion := plan_TokenizerVersion p;
     est_PhysicalModel := plan_PhysicalModel p; est_DeploymentVersion := plan_DeploymentVersion p;
     est_ProviderProtocolVersion := plan_ProviderProtocolVersion p |}.

(** The uint64 subtraction and addition of the code wrap around. *)
Definition plan_validate (p : TPMReservationPlan) : bool :=
  negb (negb (plan_Estimated p) || (plan_InputTokens p =? 0) || (plan_MaximumOutputTokens p =? 0) || (plan_ReservedTokens p =? 0) ||
        (MaximumValue <? plan_ReservedTokens p) || (u64_sub MaximumValue (plan_MaximumOutputTokens p) <? plan_InputTokens p) ||
        negb (plan_ReservedTokens p =? u64_add (plan_InputTokens p) (plan_MaximumOutputTokens p)) ||
        negb (UsageEstimateMetadata_Validate (plan_metadata p))).

Definition actual_validate (a : TPMActual) : bool :=
  negb ((MaximumValue <? act_InputTokens a) || (MaximumValue <? act_OutputTokens a) ||
        (u64_sub MaximumValue (act_OutputTokens a) <? act_InputTokens a) ||
        negb (act_Tokens a =? u64_add (act_InputTokens a) (act_OutputTokens a))) &&
  match act_Source a with SourceProvider | SourceEstimated | SourceReconciled => true | SourceAdjustment | SourceOther _ => false end.

(** ** Planning *)
Definition PlanTPMReservation {E : Type} `{InputTokenEstimator E} (estimator : E) (ctx : Context) (request : NormalizedRequest)
    (capabilityMaximumOutputTokens : Z) : E * result TPMReservationPlan tpm_error :=
  match ctx with
  | ctx_nil => (estimator, Err ErrInvalidTPM)
  | _ =>
      if (capabilityMaximumOutputTokens =? 0) || (MaximumValue <? capabilityMaximumOutputTokens) then (estimator, Err ErrInvalidTPM)
      else if negb (NormalizedRequest_Validate request) then (estimator, Err ErrInvalidTPM)
      else
        match (match req_MaxOutputTokens request with
               | Some n => if (n <=? 0) || (capabilityMaximumOutputTokens <? n) then None else Some n
               | None => Some capabilityMaximumOutputTokens
               end) with
        | None => (estimator, Err ErrInvalidTPM)
        | Some maximumOutput =>
            match EstimateInputTokens estimator ctx request with
            | (estimator', Err cause) => (estimator', Err (ErrTPMEstimateUnavailable (Some cause)))
            | (estimator', Ok estimate) =>
                (estimator',
                 if negb (estimate_validate estimate) then Err (ErrTPMEstimateUnavailable None)
                 else if u64_sub MaximumValue maximumOutput <? ie_Tokens estimate then Err ErrInvalidTPM
                 else Ok {| plan_InputTokens := ie_Tokens estimate; plan_MaximumOutputTokens := maximumOutput;
                            plan_ReservedTokens := u64_add (ie_Tokens estimate) maximumOutput;
                            plan_Tokenizer := ie_Tokenizer estimate; plan_TokenizerVersion := ie_TokenizerVersion estimate;
                            plan_PhysicalModel := ie_PhysicalModel estimate; plan_DeploymentVersion := ie_DeploymentVersion estimate;
                            plan_ProviderProtocolVersion := ie_ProviderProtocolVersion estimate; plan_Estimated := true |})
            end
        end
  end.

(** ** Usage *)
Definition ActualTPM (usage : NormalizedUsage) : result TPMActual tpm_error :=
  ensure (NormalizedUsage_Validate usage) else ErrTPMUsageUnavailable in
  ensure (negb (bool_decide (u_Source usage = SourceAdjustment))) else ErrTPMUsageUnavailable in
  ensure (tc_Present (u_InputTokens usage) && tc_Present (u_OutputTokens usage) && (0 <=? tc_Value (u_InputTokens usage)) &&
          (0 <=? tc_Value (u_OutputTokens usage))) else ErrTPMUsageUnavailable in
  let input := tc_Value (u_InputTokens usage) in
  let output := tc_Value (u_OutputTokens usage) in
  ensure (negb ((MaximumValue <? input) || (MaximumValue <? output) || (u64_sub MaximumValue output <? input))) else ErrTPMUsageUnavailable in
  Ok {| act_InputTokens := input; act_OutputTokens := output; act_Tokens := u64_add input output;
        act_Source := u_Source usage; act_Complete := u_Complete usage |}.

(** ** What is planned and what was used *)
Lemma sum_small a b : 0 <= a -> 0 <= b <= MaximumValue -> a <= u64_sub MaximumValue b -> u64_add a b = a + b /\ a + b <= MaximumValue.
Proof.
  intros Ha Hb. unfold MaximumValue in *. rewrite u64_sub_small by (unfold u64_max; lia). intros.
  rewrite u64_add_small by (unfold u64_max; lia). lia.
Qed.

Lemma plan_validate_spec p :
  0 <= plan_InputTokens p -> 0 <= plan_MaximumOutputTokens p <= MaximumValue -> plan_validate p = true ->
  plan_ReservedTokens p = plan_InputTokens p + plan_MaximumOutputTokens p /\ 0 < plan_ReservedTokens p <= MaximumValue.
Proof.
  intros Hi Ho H. unfold plan_validate in H. apply negb_true_iff in H. prop_hyps.
  destruct (sum_small (plan_InputTokens p) (plan_MaximumOutputTokens p)) as [Hs _]; [lia..|]. lia.
Qed.

Lemma actual_validate_spec a :
  0 <= act_InputTokens a -> 0 <= act_OutputTokens a -> actual_validate a = true ->
  act_Tokens a = act_InputTokens a + act_OutputTokens a /\ 0 <= act_Tokens a <= MaximumValue.
Proof.
  intros Hi Ho H. unfold actual_validate in H. apply andb_true_iff in H as [H _]. apply negb_true_iff in H. prop_hyps.
  destruct (sum_small (act_InputTokens a) (act_OutputTokens a)) as [Hs Hm]; [lia..|]. lia.
Qed.
