(* ===== verification/RouteFilter.v ===== *)
(** * Candidate filtering and selection (src/internal/routing/{filter,selector,composite_health}.go)

    The catalog source, the health, budget and capacity readers and the policy
    resolver are interfaces; readers may keep state, which the filter threads
    through in call order. The circuit breaker is one implementation of the health
    interface, the composition of readers another.

    Then: routing theorems. *)
From Stdlib Require Import ZArith Lia Bool Ascii String Sorting.
From stdpp Require Import base tactics option list strings gmap fin_maps sets.
From S2P Require Import Prelude Identifiers Circuit Catalog RoutePolicy Retry Metering Adapter.
(** ** Requests *)
Record SelectionRequest := {
  sel_Access : Access; sel_Request : NormalizedRequest; ExcludedDeploymentIDs : list string }.

Record EligibilityRequest := {
  el_TenantID : string; el_ProjectID : string; el_LogicalModel : string; el_DeploymentID : string;
  el_ProviderID : string; el_Stream : bool; el_MaxOutputTokens : option Z }.

(** ** Interfaces *)
Class HealthReader (H : Type) := Healthy : H -> Context -> string -> H * result bool reader_error.
Class EligibilityReader (E : Type) := Eligible : E -> Context -> EligibilityRequest -> E * result bool reader_error.

(** The bootstrap readers that accept everything unless the call was cancelled. *)
Definition allow (ctx : Context) : result bool reader_error :=
  match ctx with
  | ctx_nil => Err (ReaderFailed "context must not be nil")
  | ctx_done cause => Err (ReaderContext cause)
  | ctx_live => Ok true
  end.

Inductive ActiveCatalogHealth := activeCatalogHealth.
Inductive allowAllEligibility := allowAll.
#[export] Instance ActiveCatalogHealth_reader : HealthReader ActiveCatalogHealth := fun h ctx _ => (h, allow ctx).
#[export] Instance allowAllEligibility_reader : EligibilityReader allowAllEligibility := fun e ctx _ => (e, allow ctx).

(** The circuit breaker with the clock it calls. *)
Record ClockedBreaker := { cb_breaker : CircuitBreaker; cb_clock : nat -> Time; cb_calls : nat }.

Definition circuit_reader_error (e : Circuit.error) : reader_error :=
  match e with ErrContext cause => ReaderContext cause | _ => ReaderFailed "circuit breaker input is invalid" end.

#[export] Instance CircuitBreaker_reader : HealthReader ClockedBreaker := fun h ctx id =>
  let '(b, r) := CircuitBreaker_Healthy (cb_breaker h) ctx id (cb_clock h (cb_calls h)) in
  ({| cb_breaker := b; cb_clock := cb_clock h; cb_calls := S (cb_calls h) |},
   match r with Ok v => Ok v | Err e => Err (circuit_reader_error e) end).

(** [CompositeHealth]: readers run in order; the first denial or error decides. *)
Section composite.
Context {H : Type} `{HealthReader H}.

Fixpoint composite_loop (readers : list H) (ctx : Context) (id : string) : list H * result bool reader_error :=
  match readers with
  | [] => ([], Ok true)
  | r :: rest =>
      match Healthy r ctx id with
      | (r', Err e) => (r' :: rest, Err e)
      | (r', Ok false) => (r' :: rest, Ok false)
      | (r', Ok true) => let '(rest', v) := composite_loop rest ctx id in (r' :: rest', v)
      end
  end.

Definition NewCompositeHealth (readers : list H) : option (list H) :=
  if Nat.ltb (length readers) 2 then None else Some readers.

Definition CompositeHealth_Healthy (readers : list H) (ctx : Context) (id : string) : list H * result bool reader_error :=
  if Nat.ltb (length readers) 2 then (readers, Err (ReaderFailed "composite health is not initialized"))
  else match ctx with
  | ctx_nil => (readers, Err (ReaderFailed "composite health context must not be nil"))
  | _ => composite_loop readers ctx id
  end.

#[export] Instance CompositeHealth_reader : HealthReader (list H) := CompositeHealth_Healthy.
End composite.

(** ** Filter decisions *)
Inductive FilterReason :=
| FilterEligible | FilterTenantNotAllowed | FilterCapabilityMissing | FilterRegionNotAllowed | FilterInactive
| FilterPreviouslyAttempted | FilterUnhealthy | FilterBudgetDenied | FilterCapacityUnavailable | FilterOther (value : string).

#[export] Instance FilterReason_eq_dec : EqDecision FilterReason.
Proof. solve_decision. Defined.

Record CandidateDecision := { cd_DeploymentID : string; cd_Eligible : bool; cd_Reason : FilterReason }.

Record FilterResult := { fr_PolicyVersion : string; fr_Decisions : list CandidateDecision; fr_eligible : list RouteCandidate }.

Definition candidateFilterPolicyVersion : string := "candidate-filter/v1".
Definition maximumExcludedDeployments : nat := 32.

Definition empty_result : FilterResult :=
  {| fr_PolicyVersion := candidateFilterPolicyVersion; fr_Decisions := []; fr_eligible := [] |}.

Definition DecisionFor (result : FilterResult) (deploymentID : string) : option CandidateDecision :=
  find (fun d => bool_decide (cd_DeploymentID d = deploymentID)) (fr_Decisions result).

Definition validFilterReason (reason : FilterReason) : bool := match reason with FilterOther _ => false | _ => true end.

Fixpoint explanation_ok (decisions : list CandidateDecision) (seen : list string) : bool :=
  match decisions with
  | [] => true
  | d :: rest =>
      routeDeploymentIDPattern (cd_DeploymentID d) && validFilterReason (cd_Reason d) &&
      Bool.eqb (cd_Eligible d) (bool_decide (cd_Reason d = FilterEligible)) &&
      negb (bool_decide (cd_DeploymentID d ∈ seen)) && explanation_ok rest (cd_DeploymentID d :: seen)
  end.

Definition ValidateExplanation (result : FilterResult) : bool :=
  routePolicyVersionPattern (fr_PolicyVersion result) && (Z.of_nat (length (fr_Decisions result)) <=? maximumCandidates) &&
  explanation_ok (fr_Decisions result) [].

(** ** Ordering *)
Definition candidateLess (left right : RouteCandidate) : bool :=
  let lb := cand_Binding left in let rb := cand_Binding right in
  if negb (bind_Priority lb =? bind_Priority rb) then bind_Priority lb <? bind_Priority rb
  else if negb (bool_decide (prov_Code (cand_Provider left) = prov_Code (cand_Provider right)))
  then String.ltb (prov_Code (cand_Provider left)) (prov_Code (cand_Provider right))
  else if negb (bool_decide (dep_Code (cand_Deployment left) = dep_Code (cand_Deployment right)))
  then String.ltb (dep_Code (cand_Deployment left)) (dep_Code (cand_Deployment right))
  else String.ltb (dep_ID (cand_Deployment left)) (dep_ID (cand_Deployment right)).

(** [sort.SliceStable]: a stable sort by a strict order has one result. *)
Fixpoint insert_stable (c : RouteCandidate) (l : list RouteCandidate) : list RouteCandidate :=
  match l with
  | [] => [c]
  | d :: l' => if candidateLess d c then d :: insert_stable c l' else c :: d :: l'
  end.
Definition SliceStable (l : list RouteCandidate) : list RouteCandidate := foldr insert_stable [] l.

(** ** Rules *)
Definition allowed_in (values : option (list string)) (value : string) : bool :=
  match values with None => true | Some vs => existsb (fun v => bool_decide (v = value)) vs end.
Definition modelAllowed (allowedModels : option (list string)) (logicalModel : string) : bool := allowed_in allowedModels logicalModel.
Definition regionAllowed (allowedRegions : option (list string)) (region : string) : bool := allowed_in allowedRegions region.

Definition requiredRequestCapabilities (request : NormalizedRequest) : CapabilityRequirements :=
  {| need_Chat := true; need_Stream := req_Stream request;
     need_Tools := negb (Nat.eqb (length (req_Tools request)) 0) ||
       existsb (fun m => negb (Nat.eqb (length (msg_ToolCalls m)) 0) || bool_decide (msg_Role m = RoleTool)) (req_Messages request);
     need_ParallelTools := false;
     need_StructuredOutput := match req_ResponseFormat request with
       | Some f => negb (bool_decide (fmt_Type f = ResponseFormatText)) | None => false end;
     need_Vision := existsb (fun m => existsb (fun part => bool_decide (part_Kind part = ContentImageReference)) (msg_Parts m)) (req_Messages request);
     need_AudioInput := existsb (fun m => existsb (fun part => bool_decide (part_Kind part = ContentAudioReference)) (msg_Parts m)) (req_Messages request);
     need_AudioOutput := false; need_Embeddings := false;
     MinContextTokens := None; MinOutputTokens := req_MaxOutputTokens request; DataRetentionModes := [] |}.

Definition eligibilityRequest (request : SelectionRequest) (c : RouteCandidate) : EligibilityRequest :=
  {| el_TenantID := access_TenantID (sel_Access request); el_ProjectID := access_ProjectID (sel_Access request);
     el_LogicalModel := req_LogicalModel (sel_Request request); el_DeploymentID := dep_ID (cand_Deployment c);
     el_ProviderID := prov_ID (cand_Provider c); el_Stream := req_Stream (sel_Request request);
     el_MaxOutputTokens := req_MaxOutputTokens (sel_Request request) |}.

Fixpoint excluded_loop (ids : list string) (excluded : list string) : option (list string) :=
  match ids with
  | [] => Some excluded
  | id :: rest =>
      if routeDeploymentIDPattern id && negb (bool_decide (id ∈ excluded)) then excluded_loop rest (id :: excluded) else None
  end.

Definition excludedDeploymentSet (ids : list string) : option (list string) :=
  if Nat.ltb maximumExcludedDeployments (length ids) then None else excluded_loop ids [].

(** The rules that need no reader, in their fixed order. *)
Definition static_reason (request : SelectionRequest) (needs : CapabilityRequirements) (c : RouteCandidate)
    (excluded : list string) : option FilterReason :=
  if negb (modelAllowed (KeyAllowedModels (sel_Access request)) (req_LogicalModel (sel_Request request))) then Some FilterTenantNotAllowed
  else if negb (CapabilitySet_Satisfies (dep_Capabilities (cand_Deployment c)) (RequiredCapabilities (cand_LogicalModel c))) ||
          negb (CapabilitySet_Satisfies (dep_Capabilities (cand_Deployment c)) needs) then Some FilterCapabilityMissing
  else if negb (regionAllowed (AllowedRegions (cand_LogicalModel c)) (dep_Region (cand_Deployment c))) then Some FilterRegionNotAllowed
  else if negb (all_active c) then Some FilterInactive
  else if bool_decide (dep_ID (cand_Deployment c) ∈ excluded) then Some FilterPreviouslyAttempted
  else None.

Definition denied (c : RouteCandidate) (reason : FilterReason) : CandidateDecision :=
  {| cd_DeploymentID := dep_ID (cand_Deployment c); cd_Eligible := false; cd_Reason := reason |}.
Definition granted (c : RouteCandidate) : CandidateDecision :=
  {| cd_DeploymentID := dep_ID (cand_Deployment c); cd_Eligible := true; cd_Reason := FilterEligible |}.

Section filter.
Context {H B C : Type} `{HealthReader H} `{!EligibilityReader B} `{!EligibilityReader C}.
Context (url_Parse : string -> option URL).

(** The readers of a [CandidateFilter] in their current state. *)
Record Readers := { rd_health : H; rd_budget : B; rd_capacity : C }.

Definition validateCandidateFacts (request : SelectionRequest) (c : RouteCandidate) : bool :=
  records_ok url_Parse c && relationships_ok c &&
  bool_decide (model_TenantID (cand_LogicalModel c) = access_TenantID (sel_Access request)) &&
  bool_decide (model_Name (cand_LogicalModel c) = req_LogicalModel (sel_Request request)).

Definition evaluateCandidate (rd : Readers) (ctx : Context) (request : SelectionRequest) (needs : CapabilityRequirements)
    (c : RouteCandidate) (excluded : list string) : Readers * result CandidateDecision route_error :=
  match static_reason request needs c excluded with
  | Some reason => (rd, Ok (denied c reason))
  | None =>
  let '(h, healthy) := Healthy (rd_health rd) ctx (dep_ID (cand_Deployment c)) in
  let rd := {| rd_health := h; rd_budget := rd_budget rd; rd_capacity := rd_capacity rd |} in
  match healthy with
  | Err e => (rd, Err (ErrHealthUnavailable e))
  | Ok false => (rd, Ok (denied c FilterUnhealthy))
  | Ok true =>
  let '(b, within) := Eligible (rd_budget rd) ctx (eligibilityRequest request c) in
  let rd := {| rd_health := rd_health rd; rd_budget := b; rd_capacity := rd_capacity rd |} in
  match within with
  | Err e => (rd, Err (ErrBudgetUnavailable e))
  | Ok false => (rd, Ok (denied c FilterBudgetDenied))
  | Ok true =>
  let '(k, has) := Eligible (rd_capacity rd) ctx (eligibilityRequest request c) in
  let rd := {| rd_health := rd_health rd; rd_budget := rd_budget rd; rd_capacity := k |} in
  match has with
  | Err e => (rd, Err (ErrCapacityUnavailable e))
  | Ok false => (rd, Ok (denied c FilterCapacityUnavailable))
  | Ok true => (rd, Ok (granted c))
  end end end end.

(** The loop over the sorted candidates. *)
Fixpoint filter_loop (rd : Readers) (ctx : Context) (request : SelectionRequest) (needs : CapabilityRequirements)
    (excluded : list string) (candidates : list RouteCandidate) (seen : list string) (result : FilterResult)
    : Readers * FilterResult * option route_error :=
  match candidates with
  | [] => (rd, result, None)
  | c :: rest =>
      if negb (validateCandidateFacts request c) then (rd, empty_result, Some ErrCandidateSource)
      else if bool_decide (dep_ID (cand_Deployment c) ∈ seen) then (rd, empty_result, Some ErrCandidateSource)
      else match evaluateCandidate rd ctx request needs c excluded with
      | (rd, Err e) => (rd, result, Some e)
      | (rd, Ok d) =>
          filter_loop rd ctx request needs excluded rest (dep_ID (cand_Deployment c) :: seen)
            {| fr_PolicyVersion := fr_PolicyVersion result; fr_Decisions := fr_Decisions result ++ [d];
               fr_eligible := if cd_Eligible d then fr_eligible result ++ [c] else fr_eligible result |}
      end
  end.

(** [source] is the answer of [ListRouteCandidates] to the query of the request. *)
Definition Filter (rd : Readers) (ctx : Context) (request : SelectionRequest)
    (source : result (list RouteCandidate) reader_error) : Readers * FilterResult * option route_error :=
  match ctx with
  | ctx_nil => (rd, empty_result, Some (ErrInput "route filtering context must not be nil"))
  | _ =>
  if negb (NormalizedRequest_Validate (sel_Request request)) then (rd, empty_result, Some (ErrInput "validate route request"))
  else match excludedDeploymentSet (ExcludedDeploymentIDs request) with
  | None => (rd, empty_result, Some (ErrInput "route exclusion"))
  | Some excluded =>
  match source with
  | Err _ => (rd, empty_result, Some ErrCandidateSource)
  | Ok candidates =>
      if maximumCandidates <? count candidates then (rd, empty_result, Some ErrCandidateSource)
      else filter_loop rd ctx request (requiredRequestCapabilities (sel_Request request)) excluded
             (SliceStable candidates) [] empty_result
  end end end.

Record Selection := { sel_Candidate : RouteCandidate; sel_Filter : FilterResult; sel_Decision : PolicyDecision }.

(** [Select]; [policy] is the answer of the resolver. An error comes with the
    filter explanation. *)
Definition Select {R : Type} `{RandomSource R} (rd : Readers) (random : R) (ctx : Context) (request : SelectionRequest)
    (source : result (list RouteCandidate) reader_error) (policy : result RoutePolicy reader_error)
    : Readers * R * (result Selection (FilterResult * route_error)) :=
  let '(rd, filtered, err) := Filter rd ctx request source in
  match err with
  | Some e => (rd, random, Err (filtered, e))
  | None =>
      if Nat.eqb (length (fr_eligible filtered)) 0 then (rd, random, Err (filtered, ErrNoCandidate))
      else match policy with
      | Err _ => (rd, random, Err (filtered, ErrPolicyUnavailable))
      | Ok policy =>
          if negb (RoutePolicy_Validate policy) then (rd, random, Err (filtered, ErrPolicyUnavailable))
          else
            let '(random, r) := selectByPolicy (fr_eligible filtered) policy random in
            (rd, random,
             match r with
             | Ok (c, d) => Ok {| sel_Candidate := c; sel_Filter := filtered; sel_Decision := d |}
             | Err e => Err (filtered, e)
             end)
      end
  end.
End filter.

(** ** Routing theorems

    What a filter explanation says about every candidate, what a selection
    guarantees about the candidate it returns, and when a selection succeeds. *)
(** ** The candidate order *)
Definition compare_candidates : RouteCandidate -> RouteCandidate -> comparison :=
  lex (fun a b => Z.compare (bind_Priority (cand_Binding a)) (bind_Priority (cand_Binding b)))
    (lex (fun a b => String.compare (prov_Code (cand_Provider a)) (prov_Code (cand_Provider b)))
      (lex (fun a b => String.compare (dep_Code (cand_Deployment a)) (dep_Code (cand_Deployment b)))
        (fun a b => String.compare (dep_ID (cand_Deployment a)) (dep_ID (cand_Deployment b))))).

Lemma compare_candidates_ordering : ordering compare_candidates.
Proof. repeat apply ordering_lex; first [apply ordering_Z | apply ordering_string]. Qed.

Lemma string_compare_refl s : String.compare s s = Eq.
Proof. pose proof (String.compare_antisym s s). by destruct (String.compare s s). Qed.

Lemma string_ltb_compare (s t : string) (rest : bool) (o : comparison) :
  (rest = true <-> o = Lt) ->
  (if negb (bool_decide (s = t)) then String.ltb s t else rest) = true <->
  match String.compare s t with Eq => o | c => c end = Lt.
Proof.
  intros Hr. destruct (decide (s = t)) as [->|Hne].
  - rewrite bool_decide_eq_true_2, string_compare_refl by done. simpl. done.
  - rewrite bool_decide_eq_false_2 by done. simpl. rewrite string_ltb_true. destruct (String.compare s t) eqn:E; try done.
    apply String.compare_eq_iff in E. done.
Qed.

Lemma candidateLess_iff a b : candidateLess a b = true <-> compare_candidates a b = Lt.
Proof.
  unfold candidateLess, compare_candidates, lex. destruct (Z.compare_spec (bind_Priority (cand_Binding a)) (bind_Priority (cand_Binding b))) as [E|E|E].
  - rewrite E, Z.eqb_refl. simpl. apply string_ltb_compare, string_ltb_compare. apply string_ltb_true.
  - rewrite (proj2 (Z.eqb_neq _ _)) by lia. simpl. rewrite Z.ltb_lt. split; [done|lia].
  - rewrite (proj2 (Z.eqb_neq _ _)) by lia. simpl. rewrite Z.ltb_lt. split; [lia|done].
Qed.

Definition not_after (a b : RouteCandidate) : Prop := candidateLess b a = false.

Lemma not_after_trans a b c : not_after a b -> not_after b c -> not_after a c.
Proof.
  unfold not_after. intros Hab Hbc. apply not_true_iff_false in Hab, Hbc. apply not_true_iff_false.
  rewrite candidateLess_iff in *. by apply (ordering_negative_trans _ a b c compare_candidates_ordering).
Qed.

Lemma insert_stable_perm c l : insert_stable c l ≡ₚ c :: l.
Proof.
  induction l as [|d l IH]; simpl; [done|]. destruct (candidateLess d c); [|done]. rewrite IH. apply Permutation_swap.
Qed.

Lemma SliceStable_perm l : SliceStable l ≡ₚ l.
Proof. induction l as [|c l IH]; [done|]. simpl. by rewrite insert_stable_perm, IH. Qed.

Lemma less_not_after a b : candidateLess a b = true -> not_after a b.
Proof.
  unfold not_after. intros H%candidateLess_iff. apply not_true_iff_false. rewrite candidateLess_iff.
  rewrite (ord_antisym compare_candidates_ordering), H. done.
Qed.

Lemma insert_stable_sorted c l : StronglySorted not_after l -> StronglySorted not_after (insert_stable c l).
Proof.
  induction 1 as [|d l Hl IH Hd]; simpl; [repeat constructor|]. destruct (candidateLess d c) eqn:E.
  - constructor; [done|]. rewrite insert_stable_perm. apply Forall_cons. split; [by apply less_not_after|done].
  - constructor; [by constructor|]. apply Forall_cons. split; [done|].
    eapply Forall_impl; [exact Hd|]. intros x Hx. by eapply not_after_trans.
Qed.

Lemma SliceStable_sorted l : StronglySorted not_after (SliceStable l).
Proof. induction l; simpl; [constructor|]. by apply insert_stable_sorted. Qed.

(** ** Filtering *)
Section filtering.
Context {H B C : Type} `{HealthReader H} `{!EligibilityReader B} `{!EligibilityReader C}.
Context (url_Parse : string -> option URL).
Notation Readers := (@Readers H B C).

(** Every rule held for [c], each reader having said so in the state it was asked in. *)
Record approved (ctx : Context) (request : SelectionRequest) (excluded : list string) (c : RouteCandidate) : Prop := {
  app_static : static_reason request (requiredRequestCapabilities (sel_Request request)) c excluded = None;
  app_health : exists h h' : H, Healthy h ctx (dep_ID (cand_Deployment c)) = (h', Ok true);
  app_budget : exists b b' : B, Eligible b ctx (eligibilityRequest request c) = (b', Ok true);
  app_capacity : exists k k' : C, Eligible k ctx (eligibilityRequest request c) = (k', Ok true) }.

Record explains (ctx : Context) (request : SelectionRequest) (excluded : list string) (c : RouteCandidate)
    (d : CandidateDecision) : Prop := {
  exp_id : cd_DeploymentID d = dep_ID (cand_Deployment c);
  exp_reason : validFilterReason (cd_Reason d) = true;
  exp_eligible : cd_Eligible d = bool_decide (cd_Reason d = FilterEligible);
  exp_static : forall reason, static_reason request (requiredRequestCapabilities (sel_Request request)) c excluded = Some reason ->
    cd_Reason d = reason;
  exp_approved : cd_Eligible d = true -> approved ctx request excluded c }.

Lemma static_reason_valid request needs c excluded reason :
  static_reason request needs c excluded = Some reason -> validFilterReason reason = true /\ reason <> FilterEligible.
Proof using. unfold static_reason. repeat (case_match; [by intros [= <-]|]). done. Qed.

Lemma evaluateCandidate_explains (rd rd' : Readers) ctx request c excluded d :
  evaluateCandidate rd ctx request (requiredRequestCapabilities (sel_Request request)) c excluded = (rd', Ok d) ->
  explains ctx request excluded c d.
Proof using.
  unfold evaluateCandidate. destruct (static_reason _ _ _ _) as [reason|] eqn:Es.
  { intros [= <- <-]. destruct (static_reason_valid _ _ _ _ _ Es) as [Hv Hne].
    split; simpl; try done; [by rewrite bool_decide_eq_false_2|intros ?; congruence]. }
  assert (Hden : forall reason, validFilterReason reason = true -> reason <> FilterEligible ->
    explains ctx request excluded c (denied c reason)).
  { intros reason Hv Hne. split; simpl; try done; [by rewrite bool_decide_eq_false_2|intros ?; congruence]. }
  destruct (Healthy _ _ _) as [h [[]|]] eqn:Eh; [|by intros [= <- <-]; apply Hden|done].
  destruct (Eligible (rd_budget _) _ _) as [b [[]|]] eqn:Eb; [|by intros [= <- <-]; apply Hden|done].
  destruct (Eligible (rd_capacity _) _ _) as [k [[]|]] eqn:Ek; [|by intros [= <- <-]; apply Hden|done].
  intros [= <- <-]. split; simpl; try done; [congruence|]. intros _. split; eauto.
Qed.

Definition eligible_of (candidates : list RouteCandidate) (ds : list CandidateDecision) : list RouteCandidate :=
  (filter (fun p => cd_Eligible p.2 = true) (zip candidates ds)).*1.

Lemma filter_loop_explains ctx request excluded candidates : forall (rd rd' : Readers) seen res res',
  filter_loop url_Parse rd ctx request (requiredRequestCapabilities (sel_Request request)) excluded candidates seen res = (rd', res', None) ->
  exists ds, fr_PolicyVersion res' = fr_PolicyVersion res /\ fr_Decisions res' = fr_Decisions res ++ ds /\
    fr_eligible res' = fr_eligible res ++ eligible_of candidates ds /\
    Forall2 (explains ctx request excluded) candidates ds /\
    Forall (fun c => validateCandidateFacts url_Parse request c = true) candidates /\
    NoDup (deployment_id <$> candidates) /\ Forall (fun c => deployment_id c ∉ seen) candidates.
Proof using.
  induction candidates as [|c rest IH]; intros rd rd' seen res res'; simpl.
  { intros [= <- <-]. exists []. rewrite !app_nil_r. split_and!; try constructor. }
  destruct (negb _) eqn:Ev; [done|]. destruct (bool_decide _) eqn:Es; [done|].
  destruct (evaluateCandidate _ _ _ _ _ _) as [rd1 [d|]] eqn:Ee; [|done]. intros Hloop.
  apply evaluateCandidate_explains in Ee. apply IH in Hloop as (ds & Hp & Hd & Hel & Hall & Hf & Hnd & Hns). prop_hyps.
  exists (d :: ds). simpl in Hp, Hd, Hel. split_and!; try done.
  - by rewrite Hd, <- app_assoc.
  - rewrite Hel. unfold eligible_of. simpl. destruct (cd_Eligible d) eqn:E.
    + rewrite filter_cons_True by done. simpl. by rewrite <- app_assoc.
    + by rewrite filter_cons_False by (simpl; congruence).
  - by constructor.
  - apply Forall_cons. by split.
  - simpl. apply NoDup_cons. split; [|done]. intros (x & Heq & Hx)%list_elem_of_fmap.
    rewrite Forall_forall in Hns. apply (Hns x Hx). rewrite <- Heq. left.
  - apply Forall_cons. split; [done|]. eapply Forall_impl; [exact Hns|]. intros x Hx Hin. apply Hx. by right.
Qed.

Lemma Filter_Ok (rd rd' : Readers) ctx request source res :
  Filter url_Parse rd ctx request source = (rd', res, None) ->
  exists candidates excluded, source = Ok candidates /\ excludedDeploymentSet (ExcludedDeploymentIDs request) = Some excluded /\
    count candidates <= maximumCandidates /\ NormalizedRequest_Validate (sel_Request request) = true /\
    fr_PolicyVersion res = candidateFilterPolicyVersion /\
    fr_eligible res = eligible_of (SliceStable candidates) (fr_Decisions res) /\
    Forall2 (explains ctx request excluded) (SliceStable candidates) (fr_Decisions res) /\
    Forall (fun c => validateCandidateFacts url_Parse request c = true) (SliceStable candidates) /\
    NoDup (deployment_id <$> SliceStable candidates).
Proof using.
  unfold Filter. destruct ctx; [done|..];
    (destruct (negb _) eqn:Ev; [done|]; destruct (excludedDeploymentSet _) as [excluded|] eqn:Ex; [|done];
     destruct source as [candidates|]; [|done]; destruct (_ <? _) eqn:El; [done|];
     intros (ds & Hp & Hd & Hel & Hall & Hf & Hnd & _)%filter_loop_explains; prop_hyps; simpl in *; subst;
     exists candidates, excluded; split_and!; done).
Qed.

Lemma eligible_of_elem candidates ds c :
  Forall2 (fun c d => True) candidates ds -> c ∈ eligible_of candidates ds ->
  exists i d, candidates !! i = Some c /\ ds !! i = Some d /\ cd_Eligible d = true.
Proof using.
  intros Hf (p & -> & Hp)%list_elem_of_fmap. apply list_elem_of_filter in Hp as [He Hp].
  apply list_elem_of_lookup in Hp as [i Hi]. destruct p as [c d]. apply lookup_zip_with_Some in Hi as (x & y & [= <- <-] & Hx & Hy).
  eauto.
Qed.

Lemma eligible_of_sublist candidates : forall ds, sublist (eligible_of candidates ds) candidates.
Proof using.
  induction candidates as [|c rest IH]; intros [|d ds]; unfold eligible_of; simpl; try apply sublist_nil_l.
  destruct (decide (cd_Eligible d = true)).
  - rewrite filter_cons_True by done. simpl. apply sublist_skip, IH.
  - rewrite filter_cons_False by done. apply sublist_cons, IH.
Qed.

Lemma approved_of_filter (rd rd' : Readers) ctx request source res c :
  Filter url_Parse rd ctx request source = (rd', res, None) -> c ∈ fr_eligible res ->
  exists candidates excluded, source = Ok candidates /\ c ∈ candidates /\ validateCandidateFacts url_Parse request c = true /\
    excludedDeploymentSet (ExcludedDeploymentIDs request) = Some excluded /\ approved ctx request excluded c.
Proof using.
  intros (cs & ex & -> & Hex & _ & _ & _ & Hel & Hall & Hf & _)%Filter_Ok Hc. rewrite Hel in Hc.
  apply eligible_of_elem in Hc as (i & d & Hi & Hd & He); [|by eapply Forall2_impl].
  exists cs, ex. destruct (Forall2_lookup_lr _ _ _ _ _ _ Hall Hi Hd). rewrite Forall_forall in Hf.
  apply list_elem_of_lookup_2 in Hi as Hin. split_and!; auto. by rewrite <- (SliceStable_perm cs).
Qed.
End filtering.

(** ** Selection *)
Record chosen (candidates : list RouteCandidate) (policy : RoutePolicy) (c : RouteCandidate) (d : PolicyDecision) : Prop := {
  cho_in : c ∈ candidates;
  cho_id : SelectedDeploymentID d = deployment_id c;
  cho_mode : dec_Mode d = pol_Mode policy /\ dec_PolicyVersion d = pol_Version policy;
  cho_fixed : pol_Mode policy = RouteFixed -> deployment_id c = FixedDeploymentID policy;
  cho_priority : pol_Mode policy = RoutePriority -> head candidates = Some c;
  cho_facts : dec_Priority d = bind_Priority (cand_Binding c) /\ dec_Weight d = weight_of c /\ EligibleCount d = count candidates;
  cho_score : match pol_Mode policy with
    | RouteWeighted => total_weight candidates 0 = Ok (TotalWeight d) /\ TotalWeight d <> 0 /\
        match RandomDraw d with None => candidates = [c] | Some draw => draw < TotalWeight d /\ pick_interval candidates draw 0 = Some c end
    | _ => TotalWeight d = 0 /\ RandomDraw d = None
    end }.

Lemma pick_interval_elem candidates : forall draw cum c, pick_interval candidates draw cum = Some c -> c ∈ candidates.
Proof.
  induction candidates as [|x rest IH]; intros draw cum c; simpl; [done|].
  destruct (_ <? _); [intros [= <-]; left|intros ?%IH; by right].
Qed.

Lemma selectByPolicy_chosen {R} `{RandomSource R} candidates policy (random random' : R) c d :
  selectByPolicy candidates policy random = (random', Ok (c, d)) -> chosen candidates policy c d.
Proof.
  unfold selectByPolicy. destruct candidates as [|first rest]; [done|]. destruct (pol_Mode policy) eqn:Em.
  - unfold selectFixed. destruct (find _ _) as [x|] eqn:Ef; intros [= <- <- <-]. apply find_some in Ef as [Hin Hid].
    rewrite <- list_elem_of_In in Hin. apply bool_decide_eq_true in Hid. split; simpl; rewrite ?Em; try done.
  - intros [= <- <- <-]. split; simpl; rewrite ?Em; try done. left.
  - unfold selectWeighted. destruct (total_weight _ _) as [total|] eqn:Et; [|done].
    destruct (total =? 0) eqn:Ez; [done|]. prop_hyps. destruct rest as [|second rest].
    + intros [= <- <- <-]. split; simpl; rewrite ?Em; try done. left.
    + destruct (Uint64N random total) as [r1 [draw|]]; [|done]. destruct (total <=? draw) eqn:Ed; [done|].
      destruct (pick_interval _ _ _) as [x|] eqn:Ep; intros [= <- <- <-]. prop_hyps.
      split; simpl; rewrite ?Em; try done; by eapply pick_interval_elem.
  - done.
Qed.

Lemma chosen_validates candidates policy c d :
  RoutePolicy_Validate policy = true -> chosen candidates policy c d -> weights_ok candidates ->
  0 <= bind_Priority (cand_Binding c) -> routeDeploymentIDPattern (deployment_id c) = true ->
  PolicyDecision_Validate d = true.
Proof.
  intros Hp [Hin Hid [Hm Hv] _ _ (Hpr & Hw & Hn) Hs] [Hall Hmax] Hprio Hpat.
  rewrite Forall_forall in Hall. specialize (Hall c Hin).
  assert (1 <= count candidates) by (unfold count; destruct candidates; [by apply elem_of_nil in Hin|simpl; lia]).
  unfold RoutePolicy_Validate in Hp. unfold PolicyDecision_Validate. rewrite Hid, Hv, Hm, Hpr, Hw, Hn. prop_hyps.
  assert (Hhead : routePolicyVersionPattern (pol_Version policy) && routeDeploymentIDPattern (deployment_id c) &&
    (0 <=? bind_Priority (cand_Binding c)) && (0 <=? weight_of c) && (1 <=? count candidates) && (count candidates <=? maximumCandidates) = true)
    by (prop_goal; try done; lia).
  rewrite Hhead. simpl. destruct (pol_Mode policy); try done.
  - destruct Hs as [-> ->]. done.
  - destruct Hs as [-> ->]. done.
  - destruct Hs as (Ht & Hne & Hd). apply andb_true_iff. split; [prop_goal; [lia|done]|].
    destruct (RandomDraw d) as [draw|]; [prop_goal; lia|]. subst candidates. simpl in Ht.
    rewrite (proj2 (Z.ltb_lt _ _)) in Ht by lia. rewrite u64_sub_small in Ht by (unfold u64_max; lia).
    rewrite (proj2 (Z.ltb_ge _ _)) in Ht by (unfold u64_max; lia). simpl in Ht. rewrite u64_add_small in Ht by (unfold u64_max; lia).
    injection Ht as <-. unfold count. simpl. prop_goal; lia.
Qed.

Lemma excluded_loop_spec ids : forall acc excluded, excluded_loop ids acc = Some excluded ->
  forall x, x ∈ excluded <-> x ∈ ids \/ x ∈ acc.
Proof.
  induction ids as [|id rest IH]; intros acc excluded; simpl; [intros [= <-] x; set_solver|].
  destruct (_ && _); [|done]. intros Hl x. rewrite (IH _ _ Hl). set_solver.
Qed.

Lemma excludedDeploymentSet_spec ids excluded x : excludedDeploymentSet ids = Some excluded -> x ∈ excluded <-> x ∈ ids.
Proof.
  unfold excludedDeploymentSet. destruct (Nat.ltb _ _); [done|]. intros H. rewrite (excluded_loop_spec _ _ _ H). set_solver.
Qed.

Lemma static_reason_None request needs c excluded :
  static_reason request needs c excluded = None ->
  modelAllowed (KeyAllowedModels (sel_Access request)) (req_LogicalModel (sel_Request request)) = true /\
  Deployment_Satisfies (cand_Deployment c) (cand_LogicalModel c) = true /\
  CapabilitySet_Satisfies (dep_Capabilities (cand_Deployment c)) needs = true /\
  all_active c = true /\ deployment_id c ∉ excluded.
Proof.
  unfold static_reason. destruct (negb _) eqn:E1; [done|]. destruct (negb _ || _) eqn:E2; [done|].
  destruct (negb (regionAllowed _ _)) eqn:E3; [done|]. destruct (negb (all_active c)) eqn:E4; [done|].
  destruct (bool_decide _) eqn:E5; [done|]. intros _. prop_hyps. split_and!; try done.
  unfold Deployment_Satisfies. prop_goal; [done|]. unfold regionAllowed, allowed_in in *.
  destruct (AllowedRegions (cand_LogicalModel c)) as [rs|]; [|done]. prop_goal.
  match goal with H : existsb _ _ = true |- _ => apply existsb_exists in H as (x & Hx & Heq) end.
  apply bool_decide_eq_true in Heq as ->. by apply list_elem_of_In.
Qed.

Lemma StronglySorted_sublist (l k : list RouteCandidate) :
  sublist l k -> StronglySorted not_after k -> StronglySorted not_after l.
Proof.
  induction 1 as [|x l k Hlk IH|x l k Hlk IH]; intros Hs; [done|..]; inversion Hs as [|? ? Hk Hall]; subst; [|auto].
  constructor; [auto|]. rewrite Forall_forall in *. intros y Hy. apply Hall. by eapply elem_of_sublist.
Qed.

Section selection.
Context {H B C R : Type} `{HealthReader H} `{!EligibilityReader B} `{!EligibilityReader C} `{!RandomSource R}.
Context (url_Parse : string -> option URL).
Notation Readers := (@Readers H B C).

Lemma eligible_weights (rd rd' : Readers) ctx request source res :
  Filter url_Parse rd ctx request source = (rd', res, None) -> weights_ok (fr_eligible res).
Proof using.
  intros Hf. split.
  - apply Forall_forall. intros c Hc. apply (approved_of_filter _ _ _ _ _ _ _ _ Hf) in Hc as (cs & ex & _ & _ & Hv & _).
    unfold validateCandidateFacts, records_ok, Binding_Validate in Hv. prop_hyps. unfold weight_of. lia.
  - apply Filter_Ok in Hf as (cs & ex & _ & _ & Hn & _ & _ & Hel & _). rewrite Hel. unfold count in *.
    pose proof (sublist_length _ _ (eligible_of_sublist (SliceStable cs) (fr_Decisions res))) as Hl.
    pose proof (Permutation_length (SliceStable_perm cs)). lia.
Qed.

(** The first eligible candidate comes before every other one. *)
Lemma eligible_head (rd rd' : Readers) ctx request source res c :
  Filter url_Parse rd ctx request source = (rd', res, None) -> head (fr_eligible res) = Some c ->
  forall c', c' ∈ fr_eligible res -> c' = c \/ not_after c c'.
Proof using.
  intros Hf Hh c' Hc'. apply Filter_Ok in Hf as (cs & ex & _ & _ & _ & _ & _ & Hel & _). rewrite Hel in *.
  pose proof (StronglySorted_sublist _ _ (eligible_of_sublist (SliceStable cs) (fr_Decisions res)) (SliceStable_sorted cs)) as Hs.
  destruct (eligible_of _ _) as [|x l]; [done|]. injection Hh as ->. apply elem_of_cons in Hc' as [->|Hc']; [by left|right].
  inversion Hs as [|? ? _ Hall]; subst. rewrite Forall_forall in Hall. auto.
Qed.
End selection.

(** ** Theorems *)

(** The guarantees of a successful selection, see [Select_is_sound]. *)
Record sound_selection {H B C : Type} `{HealthReader H} `{!EligibilityReader B} `{!EligibilityReader C}
    (url_Parse : string -> option URL) (ctx : Context) (request : SelectionRequest) (candidates : list RouteCandidate)
    (policy : RoutePolicy) (s : Selection) : Prop := {
  sound_source : sel_Candidate s ∈ candidates;
  sound_valid : RouteCandidate_Validate url_Parse (sel_Candidate s) = true;
  sound_tenant : model_TenantID (cand_LogicalModel (sel_Candidate s)) = access_TenantID (sel_Access request);
  sound_model : model_Name (cand_LogicalModel (sel_Candidate s)) = req_LogicalModel (sel_Request request) /\
    modelAllowed (KeyAllowedModels (sel_Access request)) (req_LogicalModel (sel_Request request)) = true;
  sound_capable : CapabilitySet_Satisfies (dep_Capabilities (cand_Deployment (sel_Candidate s)))
    (requiredRequestCapabilities (sel_Request request)) = true;
  sound_fresh : deployment_id (sel_Candidate s) ∉ ExcludedDeploymentIDs request;
  sound_healthy : exists h h' : H, Healthy h ctx (deployment_id (sel_Candidate s)) = (h', Ok true);
  sound_budget : exists b b' : B, Eligible b ctx (eligibilityRequest request (sel_Candidate s)) = (b', Ok true);
  sound_capacity : exists k k' : C, Eligible k ctx (eligibilityRequest request (sel_Candidate s)) = (k', Ok true);
  sound_policy : chosen (fr_eligible (sel_Filter s)) policy (sel_Candidate s) (sel_Decision s);
  sound_priority : pol_Mode policy = RoutePriority -> forall c, c ∈ fr_eligible (sel_Filter s) ->
    c = sel_Candidate s \/ candidateLess c (sel_Candidate s) = false;
  sound_decision : routeDeploymentIDPattern (deployment_id (sel_Candidate s)) = true ->
    PolicyDecision_Validate (sel_Decision s) = true }.

(** C34: whatever the catalog, the readers, the policy resolver and the random source
    answer, a selection [Select] returns is a valid active candidate of the request's
    tenant and model that satisfies the model's and the request's capability
    contracts, is allowed to the key, was not attempted before, and was accepted by
    the health, budget and capacity readers; it obeys the policy (a fixed policy
    never substitutes, priority takes the least candidate) and its decision record
    passes its own validation. *)
Theorem Select_is_sound {H B C R : Type} `{HealthReader H} `{!EligibilityReader B} `{!EligibilityReader C} `{!RandomSource R}
    url_Parse (rd rd' : @Readers H B C) (random random' : R) ctx request source policy s :
  Select url_Parse rd random ctx request source policy = (rd', random', Ok s) ->
  exists candidates pol, source = Ok candidates /\ policy = Ok pol /\
    sound_selection (H := H) (B := B) (C := C) url_Parse ctx request candidates pol s.
Proof.
  unfold Select. destruct (Filter _ _ _ _ _) as [[rd1 filtered] [e|]] eqn:Ef; [done|].
  destruct (Nat.eqb _ _); [done|]. destruct policy as [pol|]; [|done]. destruct (negb _) eqn:Ep; [done|].
  destruct (selectByPolicy _ _ _) as [r1 [[c d]|]] eqn:Es; [|done]. intros [= <- <- <-]. prop_hyps.
  apply selectByPolicy_chosen in Es as Hc. destruct (approved_of_filter _ _ _ _ _ _ _ _ Ef (cho_in _ _ _ _ Hc))
    as (cs & ex & -> & Hin & Hv & Hex & [Hst Hh Hb Hk]).
  apply static_reason_None in Hst as (Hm & Hsat & Hcap & Hact & Hnew). exists cs, pol. split_and!; try done.
  unfold validateCandidateFacts in Hv. prop_hyps. split; simpl; try done.
  - unfold RouteCandidate_Validate. prop_goal; done.
  - by rewrite <- (excludedDeploymentSet_spec _ _ _ Hex).
  - intros Hpr x Hx. by apply (eligible_head _ _ _ _ _ _ _ _ Ef (cho_priority _ _ _ _ Hc Hpr)).
  - intros Hpat. apply (chosen_validates _ _ _ _ Ep Hc); [exact (eligible_weights _ _ _ _ _ _ _ Ef)| |done].
    match goal with H : records_ok _ _ = true |- _ => unfold records_ok, Binding_Validate in H end. prop_hyps. lia.
Qed.

(** A completed filter run explains every candidate the catalog returned, once
    and in routing order: the decisions follow the sorted candidates, each with its
    first failed rule, the eligible list is exactly the candidates decided eligible,
    and the explanation passes [ValidateExplanation] (for canonical identifiers). *)
Theorem Filter_explains_every_candidate {H B C : Type} `{HealthReader H} `{!EligibilityReader B} `{!EligibilityReader C}
    url_Parse (rd rd' : @Readers H B C) ctx request source res :
  Filter url_Parse rd ctx request source = (rd', res, None) ->
  exists candidates excluded, source = Ok candidates /\ excludedDeploymentSet (ExcludedDeploymentIDs request) = Some excluded /\
    SliceStable candidates ≡ₚ candidates /\ StronglySorted not_after (SliceStable candidates) /\
    Forall2 (explains (H := H) (B := B) (C := C) ctx request excluded) (SliceStable candidates) (fr_Decisions res) /\
    fr_eligible res = eligible_of (SliceStable candidates) (fr_Decisions res) /\
    (Forall (fun c => routeDeploymentIDPattern (deployment_id c) = true) candidates -> ValidateExplanation res = true).
Proof.
  intros (cs & ex & -> & Hex & Hn & _ & Hpv & Hel & Hall & _ & Hnd)%Filter_Ok. exists cs, ex. split_and!; try done.
  - apply SliceStable_perm.
  - apply SliceStable_sorted.
  - intros Hpat. rewrite <- (SliceStable_perm cs) in Hpat. unfold ValidateExplanation. rewrite Hpv.
    apply Forall2_length in Hall as Hlen. pose proof (Permutation_length (SliceStable_perm cs)). unfold count in Hn.
    apply andb_true_iff. split; [apply andb_true_iff; split; [by vm_compute|prop_goal; lia]|].
    assert (Hgen : forall cs ds seen, Forall2 (explains (H := H) (B := B) (C := C) ctx request ex) cs ds ->
      Forall (fun c => routeDeploymentIDPattern (deployment_id c) = true) cs -> NoDup (deployment_id <$> cs) ->
      Forall (fun c => deployment_id c ∉ seen) cs -> explanation_ok ds seen = true).
    { clear. intros cs ds seen Hf. revert seen. induction Hf as [|c d cs ds [Hid Hr He _ _] _ IH]; intros seen Hp Hnd Hs; [done|].
      apply Forall_cons in Hp as [Hpc Hp], Hs as [Hsc Hs]. simpl in Hnd. apply NoDup_cons in Hnd as [Hc Hnd].
      simpl. rewrite Hid, Hr, He, eqb_reflx, IH; try done.
      - unfold deployment_id in *. rewrite Hpc, bool_decide_eq_false_2 by done. done.
      - rewrite Forall_forall in *. intros x Hx [Heq|Hin]%elem_of_cons; [|by apply (Hs x)].
        apply Hc. apply list_elem_of_fmap. exists x. unfold deployment_id in *. by rewrite Heq. }
    apply (Hgen _ _ [] Hall Hpat Hnd). apply Forall_forall. intros x _. by apply not_elem_of_nil.
Qed.

(** The composition of health readers admits a deployment exactly when every
    reader, asked in order, admits it: no signal overrides another, and an error of
    any reader reached is reported. *)
Theorem CompositeHealth_is_conjunction {H : Type} `{HealthReader H} (readers : list H) ctx id :
  (2 <= length readers)%nat -> ctx <> ctx_nil ->
  (CompositeHealth_Healthy readers ctx id).2 = Ok true <-> Forall (fun r => (Healthy r ctx id).2 = Ok true) readers.
Proof.
  intros Hl Hctx. unfold CompositeHealth_Healthy. rewrite (proj2 (Nat.ltb_ge _ _)) by done.
  enough (Hloop : (composite_loop readers ctx id).2 = Ok true <-> Forall (fun r => (Healthy r ctx id).2 = Ok true) readers)
    by by destruct ctx.
  clear Hl Hctx. induction readers as [|r rest IH]; simpl; [by rewrite Forall_nil|]. rewrite Forall_cons, <- IH.
  destruct (Healthy r ctx id) as [r' [[]|]]; simpl; [|by intuition congruence..].
  destruct (composite_loop rest ctx id); simpl. tauto.
Qed.

(** With a non-empty eligible list and a resolved valid priority or weighted
    policy, [Select] returns a selection, provided that the random source draws
    inside its bound. *)
Theorem Select_succeeds_with_eligible {H B C R : Type} `{HealthReader H} `{!EligibilityReader B} `{!EligibilityReader C} `{!RandomSource R}
    url_Parse (rd rd' : @Readers H B C) (random : R) ctx request source res pol :
  Filter url_Parse rd ctx request source = (rd', res, None) -> fr_eligible res <> [] ->
  RoutePolicy_Validate pol = true -> pol_Mode pol <> RouteFixed ->
  (forall bound, 0 < bound -> exists random' draw, Uint64N random bound = (random', Ok draw) /\ 0 <= draw < bound) ->
  exists random' s, Select url_Parse rd random ctx request source (Ok pol) = (rd', random', Ok s).
Proof.
  intros Hf Hne Hp Hmode Hrand. unfold Select. rewrite Hf.
  pose proof (eligible_weights _ _ _ _ _ _ _ Hf) as Hw. destruct (weights_total _ Hw Hne) as [Ht Hpos].
  destruct Hw as [Hw _]. destruct (fr_eligible res) as [|first rest] eqn:Eel; [done|]. rewrite Hp. simpl.
  assert (Hm : pol_Mode pol = RoutePriority \/ pol_Mode pol = RouteWeighted).
  { unfold RoutePolicy_Validate in Hp. prop_hyps. destruct (pol_Mode pol); auto; done. }
  destruct Hm as [-> | ->]; [by do 2 eexists|]. unfold selectWeighted. rewrite Ht.
  rewrite (proj2 (Z.eqb_neq _ _)) by lia. destruct rest as [|second rest]; [by do 2 eexists|].
  destruct (Hrand _ (proj1 Hpos)) as (r' & draw & -> & Hd). rewrite (proj2 (Z.leb_gt _ _)) by lia.
  destruct (pick_interval_spec _ draw 0 Hw) as (b & x & a & _ & -> & _); [lia..|]. by do 2 eexists.
Qed.

(** ** Concrete instances *)
#[local] Instance demo_random : RandomSource Z := fun draw _ => (draw, Ok draw).

Definition demo_url (_ : string) : option URL :=
  Some {| Scheme := "https"; Hostname := "api.example"; has_User := false; RawQuery := ""; ForceQuery := false;
          Fragment := ""; Opaque := "" |}.

Definition demo_request (excluded : list string) : SelectionRequest :=
  {| sel_Access := {| access_TenantID := "22222222-2222-4222-8222-222222222222"; access_ProjectID := "p"; KeyAllowedModels := None |};
     sel_Request := demo_chat_request;
     ExcludedDeploymentIDs := excluded |}.

Definition demo_readers : @Readers ActiveCatalogHealth allowAllEligibility allowAllEligibility :=
  {| rd_health := activeCatalogHealth; rd_budget := allowAll; rd_capacity := allowAll |}.

(** Candidates given out of order; the first by priority was attempted before. *)
Definition demo_source : result (list RouteCandidate) reader_error :=
  Ok [demo_candidate demo_d2 2 5; demo_candidate demo_d1 1 3].

Definition demo_filtered : FilterResult :=
  (Filter demo_url demo_readers ctx_live (demo_request [demo_d1]) demo_source).1.2.

Lemma demo_filter :
  Filter demo_url demo_readers ctx_live (demo_request [demo_d1]) demo_source = (demo_readers, demo_filtered, None).
Proof. vm_compute. reflexivity. Qed.

Definition demo_selection : Selection :=
  {| sel_Candidate := demo_candidate demo_d2 2 5; sel_Filter := demo_filtered;
     sel_Decision := (selectedCandidate (demo_candidate demo_d2 2 5) demo_policy 1 5 None).2 |}.

Lemma demo_select :
  Select demo_url demo_readers 0 ctx_live (demo_request [demo_d1]) demo_source (Ok demo_policy) =
    (demo_readers, 0, Ok demo_selection).
Proof. vm_compute. reflexivity. Qed.

Lemma Select_is_sound_witness : PolicyDecision_Validate (sel_Decision demo_selection) = true.
Proof.
  destruct (Select_is_sound _ _ _ _ _ _ _ _ _ _ demo_select) as (cs & pol & _ & _ & Hs).
  apply (sound_decision _ _ _ _ _ _ Hs). vm_compute. reflexivity.
Defined.

Lemma Filter_explains_every_candidate_witness : ValidateExplanation demo_filtered = true.
Proof.
  destruct (Filter_explains_every_candidate _ _ _ _ _ _ _ demo_filter) as (cs & ex & Hcs & _ & _ & _ & _ & _ & Hv).
  apply Hv. injection Hcs as <-. rewrite !Forall_cons, Forall_nil.
  split; [vm_compute; reflexivity|]. split; [vm_compute; reflexivity|exact I].
Defined.

Lemma CompositeHealth_is_conjunction_witness :
  (CompositeHealth_Healthy [activeCatalogHealth; activeCatalogHealth] ctx_live demo_d1).2 = Ok true.
Proof.
  apply (proj2 (CompositeHealth_is_conjunction [activeCatalogHealth; activeCatalogHealth] ctx_live demo_d1 ltac:(simpl; lia) ltac:(discriminate))).
  rewrite !Forall_cons, Forall_nil. split; [reflexivity|]. split; [reflexivity|exact I].
Defined.

Lemma Select_succeeds_with_eligible_witness :
  exists random' s, Select demo_url demo_readers 0 ctx_live (demo_request [demo_d1]) demo_source (Ok demo_policy) =
    (demo_readers, random', Ok s).
Proof.
  apply (Select_succeeds_with_eligible _ _ _ _ _ _ _ _ _ demo_filter).
  - vm_compute. discriminate.
  - vm_compute. reflexivity.
  - discriminate.
  - intros bound Hb. exists 0, 0. split; [reflexivity|lia].
Defined.
