(* ===== verification/Redis.v ===== *)
(** * Redis as the admission scripts use it (src/internal/limits/redis_*.go)

    Redis is not under src/. The scripts that the gateway sends are, so they are
    definitions; the commands they call are the documented ones, on a keyspace of
    hashes whose fields hold strings. A script runs atomically at one server time.
    A Lua number of these scripts is an integer below 2^53 whenever its value is
    used, where double arithmetic is exact.

    Then: Redis sorted sets as the concurrency scripts use them
    (src/internal/limits/redis_concurrency.go). *)
From Stdlib Require Import ZArith Lia Bool Ascii String DecimalString DecimalZ.
From stdpp Require Import base tactics option list strings gmap fin_maps sets.
From S2P Require Import Prelude.
(** ** Decimal text: [strconv.FormatInt], and the integers a script reads *)
Definition FormatInt (z : Z) : string := NilZero.string_of_int (Z.to_int z).

(** [tonumber] of the decimal integers the client sends. *)
Definition tonumber (s : string) : option Z := Z.of_int <$> NilZero.int_of_string s.

(** A string of digits, [string.match(raw, '^%d+$')], and its value. *)
Definition digits (s : string) : option Z := (fun d => Z.of_int (Decimal.Pos d)) <$> NilZero.uint_of_string s.

Lemma to_int_not_nil z : Z.to_int z <> Decimal.Pos Decimal.Nil /\ Z.to_int z <> Decimal.Neg Decimal.Nil.
Proof.
  split; intros H; pose proof (DecimalZ.of_to z) as E; rewrite H in E; simpl in E; subst z; discriminate H.
Qed.

Lemma tonumber_FormatInt z : tonumber (FormatInt z) = Some z.
Proof.
  unfold tonumber, FormatInt. destruct (to_int_not_nil z). rewrite NilZero.isi by done. simpl. by rewrite DecimalZ.of_to.
Qed.

Lemma FormatInt_inj a b : FormatInt a = FormatInt b -> a = b.
Proof. intros H. pose proof (tonumber_FormatInt a) as Ha. rewrite H, tonumber_FormatInt in Ha. congruence. Qed.

Lemma digits_FormatInt z : 0 <= z -> digits (FormatInt z) = Some z.
Proof.
  intros Hz. unfold digits, FormatInt. destruct (to_int_not_nil z) as [Hn _]. pose proof (DecimalZ.of_to z) as E.
  destruct (Z.to_int z) as [d|d] eqn:Ed.
  - simpl. rewrite NilZero.usu by congruence. simpl. by f_equal.
  - exfalso. destruct z; try lia; discriminate Ed.
Qed.

(** ** Keyspace *)
Record Hash := { h_fields : gmap string string; h_expires : option Z }.
Notation Keyspace := (gmap string Hash).

(** The hash at a key, unless its expiry (in milliseconds) has passed. *)
Definition hash_at (ks : Keyspace) (now_ms : Z) (key : string) : option Hash :=
  match ks !! key with
  | Some h => match h_expires h with Some at_ => if at_ <? now_ms then None else Some h | None => Some h end
  | None => None
  end.

Definition HGET (ks : Keyspace) (now_ms : Z) (key field : string) : option string :=
  h ← hash_at ks now_ms key; h_fields h !! field.

(** A stored integer in the only form HINCRBY accepts. *)
Definition stored_int (s : string) : option Z :=
  match tonumber s with
  | Some z => if bool_decide (FormatInt z = s) && (i64_min <=? z) && (z <=? i64_max) then Some z else None
  | None => None
  end.

Definition live_hash (ks : Keyspace) (now_ms : Z) (key : string) : Hash :=
  default {| h_fields := ∅; h_expires := None |} (hash_at ks now_ms key).

Definition HSET (ks : Keyspace) (now_ms : Z) (key field value : string) : Keyspace :=
  let h := live_hash ks now_ms key in
  <[key := {| h_fields := <[field := value]> (h_fields h); h_expires := h_expires h |}]> ks.

(** HINCRBY key field increment; [None] is the error reply: the field is not an
    integer, or the sum would overflow. *)
Definition HINCRBY (ks : Keyspace) (now_ms : Z) (key field : string) (increment : Z) : option (Keyspace * Z) :=
  match (match HGET ks now_ms key field with Some raw => stored_int raw | None => Some 0 end) with
  | Some z =>
      if (z + increment <? i64_min) || (i64_max <? z + increment) then None
      else Some (HSET ks now_ms key field (FormatInt (z + increment)), z + increment)
  | None => None
  end.

Definition PEXPIREAT (ks : Keyspace) (now_ms : Z) (key : string) (at_ : Z) : Keyspace :=
  match hash_at ks now_ms key with
  | Some h => <[key := {| h_fields := h_fields h; h_expires := Some at_ |}]> ks
  | None => ks
  end.

(** ** Scripts and their replies *)
Inductive reply := RInt (z : Z) | RArray (values : list reply) | ROther (what : string).
Inductive eval_error := ScriptError | Transport (what : string).

(** Server time in seconds and microseconds, as TIME returns it. *)
Notation Clock := (Z * Z)%type.

(** A script transforms the database; the request and token limiters only use
    hashes, for them it is the keyspace above. *)
Definition Script (D : Type) := Clock -> D -> list string -> list string -> D * result reply eval_error.

(** [RedisEvaluator]: evaluate a script with KEYS and ARGV. *)
Class RedisEvaluator (D E : Type) := Eval : E -> Context -> Script D -> list string -> list string -> E * result reply eval_error.

(** What happens to one call on its way: it reaches the server and the answer comes
    back, or it fails before or after the script ran. *)
Inductive delivery := Delivered | Lost (executed : bool) (what : string).

Record Server (D : Type) := { srv_keys : D; srv_clock : nat -> Clock; srv_net : nat -> delivery; srv_calls : nat }.
Arguments srv_keys {D} _.
Arguments srv_clock {D} _ _.
Arguments srv_net {D} _ _.
Arguments srv_calls {D} _.

Definition called {D : Type} (srv : Server D) (ks : D) : Server D :=
  {| srv_keys := ks; srv_clock := srv_clock srv; srv_net := srv_net srv; srv_calls := S (srv_calls srv) |}.

#[export] Instance Server_evaluator (D : Type) : RedisEvaluator D (Server D) := fun srv _ script keys argv =>
  let '(ks, r) := script (srv_clock srv (srv_calls srv)) (srv_keys srv) keys argv in
  match srv_net srv (srv_calls srv) with
  | Delivered => (called srv ks, r)
  | Lost executed what => (called srv (if executed then ks else srv_keys srv), Err (Transport what))
  end.

(** A server whose clock stands still and whose answers arrive. *)
Definition steady {D : Type} (srv : Server D) (clock : Clock) : Prop :=
  forall i, srv_clock srv i = clock /\ srv_net srv i = Delivered.

Lemma Eval_steady {D : Type} (srv : Server D) clock ctx (script : Script D) keys argv ks r :
  steady srv clock -> script clock (srv_keys srv) keys argv = (ks, r) -> Eval srv ctx script keys argv = (called srv ks, r).
Proof. intros Hst E. unfold Eval, Server_evaluator. destruct (Hst (srv_calls srv)) as [-> ->]. by rewrite E. Qed.

(** ** Server time *)
Definition time_ms (clock : Clock) : Z := clock.1 * 1000 + clock.2 / 1000.
Definition minute_of (clock : Clock) : Z := clock.1 / 60.
Definition reset_ms (clock : Clock) : Z := (minute_of clock + 1) * 60 * 1000.
Definition clock_ok (clock : Clock) : Prop := 0 <= clock.1 /\ 0 <= clock.2 < 1000000.

Lemma clock_times clock : clock_ok clock ->
  0 <= minute_of clock /\ 0 <= time_ms clock < reset_ms clock /\ time_ms clock / 60000 = minute_of clock.
Proof.
  destruct clock as [sec us]. unfold clock_ok, time_ms, reset_ms, minute_of. simpl. intros [Hs Hu].
  pose proof (Z.div_mod sec 60 ltac:(lia)). pose proof (Z.mod_pos_bound sec 60 ltac:(lia)).
  assert (0 <= us / 1000 < 1000) by (split; [apply Z.div_pos; lia|apply Z.div_lt_upper_bound; lia]).
  assert (0 <= sec / 60) by (apply Z.div_pos; lia). split_and!; try lia.
  symmetry. apply (Z.div_unique _ _ _ (sec mod 60 * 1000 + us / 1000)); lia.
Qed.

(** ** Counters *)

(** The field holds the counter [c] in canonical form (or is absent and [c] is 0). *)
Definition counts (ks : Keyspace) (now_ms : Z) (key field : string) (c : Z) : Prop :=
  0 <= c <= exact_max /\ match HGET ks now_ms key field with Some raw => raw = FormatInt c | None => c = 0 end.

Lemma counts_fun ks now key f c1 c2 : counts ks now key f c1 -> counts ks now key f c2 -> c1 = c2.
Proof. intros [_ H1] [_ H2]. destruct (HGET ks now key f); [subst; by apply FormatInt_inj|congruence]. Qed.

Lemma stored_FormatInt z : i64_min <= z <= i64_max -> stored_int (FormatInt z) = Some z.
Proof.
  intros [? ?]. unfold stored_int. rewrite tonumber_FormatInt, bool_decide_eq_true_2 by done.
  by rewrite (proj2 (Z.leb_le _ _)), (proj2 (Z.leb_le _ _)).
Qed.

Lemma hash_at_insert ks now key h key' :
  hash_at (<[key := h]> ks) now key' =
  if decide (key' = key) then match h_expires h with Some t => if t <? now then None else Some h | None => Some h end
  else hash_at ks now key'.
Proof. unfold hash_at. destruct (decide (key' = key)) as [->|]; [by rewrite lookup_insert_eq|by rewrite lookup_insert_ne]. Qed.

Lemma hash_at_HSET ks now key f v :
  hash_at (HSET ks now key f v) now key =
  Some {| h_fields := <[f := v]> (h_fields (live_hash ks now key)); h_expires := h_expires (live_hash ks now key) |}.
Proof.
  unfold HSET. rewrite hash_at_insert, decide_True by done. simpl. unfold live_hash, hash_at.
  destruct (ks !! key) as [[fs [t|]]|]; simpl; try done. destruct (t <? now) eqn:E; simpl; [done|]. by rewrite E.
Qed.

Lemma HGET_HSET ks now key f v f' :
  HGET (HSET ks now key f v) now key f' = if decide (f' = f) then Some v else HGET ks now key f'.
Proof.
  unfold HGET. rewrite hash_at_HSET. simpl. destruct (decide (f' = f)) as [->|]; [by rewrite lookup_insert_eq|].
  rewrite lookup_insert_ne by done. unfold live_hash. by destruct (hash_at ks now key).
Qed.

Lemma HSET_other_key ks now key f v key' : key' <> key -> HSET ks now key f v !! key' = ks !! key'.
Proof. intros. unfold HSET. by rewrite lookup_insert_ne. Qed.

(** HINCRBY adds to its own counter and leaves every other one alone. *)
Lemma HINCRBY_spec ks now key f c n :
  counts ks now key f c -> i64_min <= c + n <= i64_max ->
  HINCRBY ks now key f n = Some (HSET ks now key f (FormatInt (c + n)), c + n).
Proof.
  intros [Hb H] Hn. unfold HINCRBY.
  assert (Hz : match HGET ks now key f with Some raw => stored_int raw | None => Some 0 end = Some c).
  { destruct (HGET ks now key f); [subst; apply stored_FormatInt; unfold exact_max, i64_min, i64_max in *; lia|by subst]. }
  rewrite Hz. by destruct (Z.ltb_spec (c + n) i64_min), (Z.ltb_spec i64_max (c + n)); try lia.
Qed.

Lemma HINCRBY_counts ks now key f c n :
  counts ks now key f c -> 0 <= c + n <= exact_max ->
  exists ks', HINCRBY ks now key f n = Some (ks', c + n) /\ counts ks' now key f (c + n) /\
    (forall f', f' <> f -> HGET ks' now key f' = HGET ks now key f') /\
    (forall key', key' <> key -> ks' !! key' = ks !! key').
Proof.
  intros Hc Hn. exists (HSET ks now key f (FormatInt (c + n))).
  rewrite (HINCRBY_spec _ _ _ _ c) by (done || unfold exact_max, i64_min, i64_max in *; lia). split_and!; [done|..].
  - split; [done|]. by rewrite HGET_HSET, decide_True.
  - intros f' Hf. by rewrite HGET_HSET, decide_False.
  - intros key' Hk. by apply HSET_other_key.
Qed.

(** ** Redis sorted sets as the concurrency scripts use them
    (src/internal/limits/redis_concurrency.go)

    Members with integer scores, kept in a keyspace of their own: a script names a
    lease hash and scope sets, whose keys never coincide (see [lease_key_not_scope] in
    RedisConcurrencyTheorems.v). An empty sorted set does not exist. *)
Record ZSet := { z_members : gmap string Z; z_expires : option Z }.
Notation ZSets := (gmap string ZSet).

(** ** Commands *)
Definition zset_at (zs : ZSets) (now_ms : Z) (key : string) : option ZSet :=
  match zs !! key with
  | Some z => match z_expires z with Some at_ => if at_ <? now_ms then None else Some z | None => Some z end
  | None => None
  end.

Definition zmembers (zs : ZSets) (now_ms : Z) (key : string) : gmap string Z := default ∅ (z_members <$> zset_at zs now_ms key).

(** The set at the key gets these members and keeps its expiry. *)
Definition put_members (zs : ZSets) (now_ms : Z) (key : string) (members : gmap string Z) : ZSets :=
  if decide (members = ∅) then delete key zs
  else <[key := {| z_members := members; z_expires := zset_at zs now_ms key ≫= z_expires |}]> zs.

Definition ZSCORE (zs : ZSets) (now_ms : Z) (key member : string) : option Z := zmembers zs now_ms key !! member.
Definition ZCARD (zs : ZSets) (now_ms : Z) (key : string) : Z := Z.of_nat (size (zmembers zs now_ms key)).
Definition ZADD (zs : ZSets) (now_ms : Z) (key : string) (score : Z) (member : string) : ZSets :=
  put_members zs now_ms key (<[member := score]> (zmembers zs now_ms key)).

(** With XX only a member that is there gets the score. *)
Definition ZADD_XX (zs : ZSets) (now_ms : Z) (key : string) (score : Z) (member : string) : ZSets :=
  match ZSCORE zs now_ms key member with Some _ => ZADD zs now_ms key score member | None => zs end.

Definition ZREM (zs : ZSets) (now_ms : Z) (key member : string) : ZSets :=
  put_members zs now_ms key (delete member (zmembers zs now_ms key)).

(** ZREMRANGEBYSCORE key -inf maximum. *)
Definition ZREMRANGEBYSCORE (zs : ZSets) (now_ms : Z) (key : string) (maximum : Z) : ZSets :=
  put_members zs now_ms key (filter (fun me => maximum < me.2) (zmembers zs now_ms key)).

(** The score of ZRANGE key 0 0 WITHSCORES: the lowest. *)
Definition lowest (members : gmap string Z) : option Z :=
  map_fold (fun _ score acc => Some match acc with Some low => Z.min score low | None => score end) None members.
Definition ZRANGE_first (zs : ZSets) (now_ms : Z) (key : string) : option Z := lowest (zmembers zs now_ms key).

Definition ZPEXPIREAT (zs : ZSets) (now_ms : Z) (key : string) (at_ : Z) : ZSets :=
  match zset_at zs now_ms key with
  | Some z => <[key := {| z_members := z_members z; z_expires := Some at_ |}]> zs
  | None => zs
  end.

(** ** What a command does to the members *)
Lemma zset_at_insert zs now key z key' :
  zset_at (<[key := z]> zs) now key' =
  if decide (key' = key) then match z_expires z with Some t => if t <? now then None else Some z | None => Some z end
  else zset_at zs now key'.
Proof. unfold zset_at. destruct (decide (key' = key)) as [->|]; [by rewrite lookup_insert_eq|by rewrite lookup_insert_ne]. Qed.

Lemma zmembers_put zs now key ms key' :
  zmembers (put_members zs now key ms) now key' = if decide (key' = key) then ms else zmembers zs now key'.
Proof.
  unfold put_members, zmembers. destruct (decide (ms = ∅)) as [->|Hne].
  - unfold zset_at. destruct (decide (key' = key)) as [->|]; [by rewrite lookup_delete_eq|by rewrite lookup_delete_ne].
  - rewrite zset_at_insert. destruct (decide (key' = key)) as [->|]; [|done]. simpl. unfold zset_at.
    destruct (zs !! key) as [[m [t|]]|]; simpl; try done. destruct (t <? now) eqn:E; simpl; [done|]. by rewrite E.
Qed.

Lemma zmembers_expire zs now key at_ key' : now <= at_ -> zmembers (ZPEXPIREAT zs now key at_) now key' = zmembers zs now key'.
Proof.
  intros Ht. unfold ZPEXPIREAT, zmembers. destruct (zset_at zs now key) as [z|] eqn:E; [|done]. rewrite zset_at_insert.
  destruct (decide (key' = key)) as [->|]; [|done]. simpl. destruct (Z.ltb_spec at_ now); [lia|]. by rewrite E.
Qed.

Lemma lowest_spec (ms : gmap string Z) :
  match lowest ms with
  | Some low => (exists m, ms !! m = Some low) /\ map_Forall (fun _ e => low <= e) ms
  | None => ms = ∅
  end.
Proof.
  unfold lowest. apply (map_fold_weak_ind (fun acc (ms : gmap string Z) => match acc with
    | Some low => (exists m, ms !! m = Some low) /\ map_Forall (fun _ e => low <= e) ms | None => ms = ∅ end)); [done|].
  intros i x m [low|] Hi; [intros [[m0 Hm0] Hall]|intros ->]; split.
  - destruct (Z.min_spec x low) as [[_ ->]|[_ ->]]; [exists i; apply lookup_insert_eq|exists m0]. rewrite lookup_insert_ne; [done|congruence].
  - apply map_Forall_insert; [done|]. split; [lia|]. eapply map_Forall_impl; [done|]. simpl. lia.
  - exists i. apply lookup_insert_eq.
  - apply map_Forall_insert; [done|]. split; [lia|apply map_Forall_empty].
Qed.

(** ** Time passes *)

(** The members whose score is still ahead of the time. *)
Definition live (zs : ZSets) (t : Z) (key : string) : gmap string Z := filter (fun me => t < me.2) (zmembers zs t key).

(** Every set expires, not before its members do, and no member is beyond the bound. *)
Definition zset_ok (bound : Z) (z : ZSet) : Prop :=
  exists t, z_expires z = Some t /\ map_Forall (fun _ e => e <= t /\ e <= bound) (z_members z).
Definition zsets_ok (bound : Z) (zs : ZSets) : Prop := map_Forall (fun _ z => zset_ok bound z) zs.

Lemma live_later bound zs t t' key : zsets_ok bound zs -> t <= t' -> live zs t' key = filter (fun me => t' < me.2) (live zs t key).
Proof.
  intros Hok Ht. unfold live, zmembers, zset_at. destruct (zs !! key) as [z|] eqn:E; [|done].
  destruct (Hok _ _ E) as (u & -> & Hall). destruct (Z.ltb_spec u t'), (Z.ltb_spec u t); simpl; try lia; [done|..].
  - etrans; [apply map_filter_empty|]. symmetry. apply map_empty. intros m. apply map_lookup_filter_None. right.
    intros e [He _]%map_lookup_filter_Some. apply Hall in He. simpl. lia.
  - rewrite map_filter_filter. apply map_filter_ext. simpl. intros. lia.
Qed.

Lemma zsets_ok_weaken b b' zs : b <= b' -> zsets_ok b zs -> zsets_ok b' zs.
Proof.
  intros Hb Hok key z Hz. destruct (Hok _ _ Hz) as (t & Ht & Hall). exists t. split; [done|].
  eapply map_Forall_impl; [done|]. simpl. lia.
Qed.

Lemma zmembers_ok bound zs now key : zsets_ok bound zs -> map_Forall (fun _ e => e <= bound) (zmembers zs now key).
Proof.
  intros Hok. unfold zmembers, zset_at. destruct (zs !! key) as [z|] eqn:E; [|apply map_Forall_empty].
  destruct (Hok _ _ E) as (u & -> & Hall). destruct (u <? now); simpl; [apply map_Forall_empty|]. eapply map_Forall_impl; [done|]. simpl. lia.
Qed.

(** Taking members away keeps the sets well formed. *)
Lemma put_ok bound zs now key ms : zsets_ok bound zs -> ms ⊆ zmembers zs now key -> zsets_ok bound (put_members zs now key ms).
Proof.
  intros Hok Hsub. unfold put_members. destruct (decide (ms = ∅)) as [_|Hne]; [by apply map_Forall_delete|].
  apply map_Forall_insert_2; [|done]. unfold zmembers, zset_at in *. destruct (zs !! key) as [z|] eqn:E.
  - destruct (Hok _ _ E) as (u & Hu & Hall). rewrite Hu in *. destruct (u <? now); simpl in *.
    + destruct Hne. apply map_empty. intros i. apply eq_None_not_Some. intros [x Hx]. by apply (lookup_weaken _ _ _ _ Hx), lookup_empty_Some in Hsub.
    + exists u. split; [done|]. intros i x Hx. apply (Hall i). by eapply lookup_weaken.
  - simpl in Hsub. destruct Hne. apply map_empty. intros i. apply eq_None_not_Some. intros [x Hx].
    by apply (lookup_weaken _ _ _ _ Hx), lookup_empty_Some in Hsub.
Qed.

(** Adding a member that expires within the bound, and moving the expiry past it. *)
Definition ZADD_PEXPIREAT (zs : ZSets) (now_ms : Z) (key : string) (score : Z) (member : string) (at_ : Z) : ZSets :=
  ZPEXPIREAT (ZADD zs now_ms key score member) now_ms key at_.

Lemma ZADD_PEXPIREAT_eq zs now key e m at_ :
  ZADD_PEXPIREAT zs now key e m at_ = <[key := {| z_members := <[m := e]> (zmembers zs now key); z_expires := Some at_ |}]> zs.
Proof.
  unfold ZADD_PEXPIREAT, ZPEXPIREAT, ZADD, put_members. rewrite decide_False by apply insert_non_empty.
  rewrite zset_at_insert, decide_True by done. simpl. unfold zset_at. destruct (zs !! key) as [[ms [t|]]|]; simpl; rewrite ?insert_insert_eq; try done.
  destruct (t <? now) eqn:E; simpl; rewrite ?E, insert_insert_eq; done.
Qed.

Lemma zmembers_ZADD_PEXPIREAT zs now key e m at_ key' : now <= at_ ->
  zmembers (ZADD_PEXPIREAT zs now key e m at_) now key' = if decide (key' = key) then <[m := e]> (zmembers zs now key) else zmembers zs now key'.
Proof.
  intros. rewrite ZADD_PEXPIREAT_eq. unfold zmembers at 1. rewrite zset_at_insert. destruct (decide (key' = key)); [|done].
  simpl. by destruct (Z.ltb_spec at_ now); [lia|].
Qed.

Lemma ZADD_PEXPIREAT_ok bound zs now key e m at_ :
  zsets_ok bound zs -> e <= bound <= at_ -> zsets_ok bound (ZADD_PEXPIREAT zs now key e m at_).
Proof.
  intros Hok [He Hb]. rewrite ZADD_PEXPIREAT_eq. apply map_Forall_insert_2; [|done]. exists at_. split; [done|].
  apply map_Forall_insert_2; [lia|]. eapply map_Forall_impl; [by apply zmembers_ok|]. simpl. lia.
Qed.
