(* ===== verification/RedisRPM.v ===== *)
(** * Distributed request limit (src/internal/limits/redis_rpm.go)

    One Redis hash per key prefix and minute holds a counter per scope. The
    admission script checks the four counters of a request against their hard
    boundaries and increments all of them or none. *)
From Stdlib Require Import ZArith Lia Bool Ascii String.
From stdpp Require Import base tactics option list strings gmap fin_maps sets.
From S2P Require Import Prelude Identifiers LimitPolicy LocalLimiter Redis.
(** ** Data *)
Record RedisRPMOptions := { KeyPrefix : string; Retention : Duration; ClockRetries : Z }.

Definition DefaultRedisRPMOptions : RedisRPMOptions :=
  {| KeyPrefix := "agw:limits:rpm:v1:{rpm}"; Retention := 5 * second; ClockRetries := 3 |}.

Definition maximumRedisRPMClockRetries : Z := 5.
Definition maximumRedisRPMPrefixLength : nat := 128.

Record RedisRPMCount := { rc_Scope : Scope; rc_Count : Z; rc_Soft : Z; rc_SoftExceeded : bool }.
Record RedisRPMRejection := { rj_Scope : Scope; rj_Count : Z; rj_Hard : Z; rj_RetryAfter : Duration; rj_ResetAt : Time }.
Record RedisRPMAdmission := {
  Window : Z; WindowKey : string; ServerTime : Time; ResetAt : Time; Counts : list RedisRPMCount;
  Rejection : option RedisRPMRejection }.

Record RedisRPMLimiter := { keyPrefix : string; retentionMS : Z; clockRetries : Z }.

Inductive rpm_error := ErrInvalidRPM | ErrEval (cause : eval_error) | ErrRedisRPMProtocol | ErrRedisRPMClockBoundary.

Definition RPM_Allowed (a : RedisRPMAdmission) : bool :=
  match Rejection a with None => Nat.eqb (length (Counts a)) requiredScopeCount | Some _ => false end.

(** ** Construction *)

(** [^[A-Za-z0-9][A-Za-z0-9:._{}-]*$], for strings of at most 128 bytes. *)
Definition redisRPMPrefixPattern : string -> bool :=
  match_head_tail alnum (or_class alnum (one_of ":._{}-")) 0 127.

(** [strings.Count(s, needle)] for a needle that cannot overlap itself. *)
Fixpoint count_substring (needle s : string) : nat :=
  match s with
  | EmptyString => 0
  | String _ s' => (if String.prefix needle s then 1 else 0) + count_substring needle s'
  end.

Definition validRedisRPMKeyPrefix (p : string) : bool :=
  Nat.leb 1 (String.length p) && Nat.leb (String.length p) maximumRedisRPMPrefixLength &&
  redisRPMPrefixPattern p && Nat.eqb (count_substring "{rpm}" p) 1.

Definition NewRedisRPMLimiter (options : RedisRPMOptions) : result RedisRPMLimiter rpm_error :=
  let retentionMilliseconds := Z.quot (Retention options) millisecond in
  ensure (validRedisRPMKeyPrefix (KeyPrefix options) && (1 <=? retentionMilliseconds) && (Retention options <=? minute) &&
          (1 <=? ClockRetries options) && (ClockRetries options <=? maximumRedisRPMClockRetries)) else ErrInvalidRPM in
  Ok {| keyPrefix := KeyPrefix options; retentionMS := retentionMilliseconds; clockRetries := ClockRetries options |}.

(** ** Arguments of the script *)
Definition redisRPMField (scope : Scope) : string :=
  match Kind scope with
  | ScopePlatform => "platform"
  | ScopeTenant => "tenant:" +:+ TenantID scope
  | ScopeProject => "project:" +:+ TenantID scope +:+ ":" +:+ ProjectID scope
  | ScopeKey => "key:" +:+ TenantID scope +:+ ":" +:+ ProjectID scope +:+ ":" +:+ KeyID scope
  | ScopeKindOther _ => ""
  end.

Definition windowKey (limiter : RedisRPMLimiter) (window : Z) : string := keyPrefix limiter +:+ ":" +:+ FormatInt window.

Fixpoint scope_arguments (scoped : list (Scope * Effective)) : list string :=
  match scoped with
  | [] => []
  | (scope, policy) :: rest => redisRPMField scope :: FormatInt (eff_Hard (eff_RPM policy)) :: scope_arguments rest
  end.

Definition redisRPMArguments (window retentionMilliseconds : Z) (scoped : list (Scope * Effective)) : list string :=
  FormatInt window :: FormatInt retentionMilliseconds :: scope_arguments scoped.

(** The loop over the bindings of [normalizeRPMBindings] is that of [Replace]. *)
Definition normalizeRPMBindings (bindings : list Binding) : result (list (Scope * Effective)) rpm_error :=
  ensure (Nat.eqb (length bindings) requiredScopeCount) else ErrInvalidRPM in
  match next_policies bindings ∅ with
  | Err _ => Err ErrInvalidRPM
  | Ok policyByScope =>
      match normalizeScopes (binding_Scope <$> bindings) with
      | Err _ => Err ErrInvalidRPM
      | Ok scopes =>
          match lookup_policies policyByScope scopes with
          | Ok policies => Ok (zip scopes policies)
          | Err _ => Err ErrInvalidRPM
          end
      end
  end.

(** ** The admission script *)
Definition redis_maximum : Z := 9007199254740991.

(** The first loop: counters with their fields and hard boundaries, from [index] on. *)
Inductive counters := Read (items : list (string * Z * Z)) | CorruptAt (index : Z) | Raised.

Fixpoint read_counters (n : nat) (index : Z) (ks : Keyspace) (now_ms : Z) (key : string) (argv : list string) : counters :=
  match n with
  | O => Read []
  | S n' =>
      match argv with
      | field :: hardText :: rest =>
          match tonumber hardText with
          | None => Raised
          | Some hard =>
              match (match HGET ks now_ms key field with
                     | None => Some 0
                     | Some raw =>
                         match digits raw with
                         | Some count => if (count <? 0) || (redis_maximum <? count) then None else Some count
                         | None => None
                         end
                     end) with
              | None => CorruptAt index
              | Some count =>
                  match read_counters n' (index + 1) ks now_ms key rest with
                  | Read items => Read ((field, hard, count) :: items)
                  | other => other
                  end
              end
          end
      | _ => Raised
      end
  end.

(** The second loop: the first counter without room. *)
Fixpoint first_full (index : Z) (items : list (string * Z * Z)) : option (Z * Z * Z) :=
  match items with
  | [] => None
  | (_, hard, count) :: rest => if hard <? count + 1 then Some (index, count, hard) else first_full (index + 1) rest
  end.

(** The third loop; [None] is an error of HINCRBY, which leaves the earlier increments. *)
Fixpoint increment_all (ks : Keyspace) (now_ms : Z) (key : string) (items : list (string * Z * Z)) : Keyspace * option (list Z) :=
  match items with
  | [] => (ks, Some [])
  | (field, _, _) :: rest =>
      match HINCRBY ks now_ms key field 1 with
      | None => (ks, None)
      | Some (ks', count) =>
          let '(ks'', counts) := increment_all ks' now_ms key rest in (ks'', cons count <$> counts)
      end
  end.

Definition redisRPMAdmissionScript : Script Keyspace := fun '(seconds, microseconds) ks keys argv =>
  match keys, argv with
  | key :: _, expected :: retention :: rest =>
      let now_ms := seconds * 1000 + microseconds / 1000 in
      let server_window := seconds / 60 in
      let reset_ms := (server_window + 1) * 60 * 1000 in
      if negb (bool_decide (tonumber expected = Some server_window))
      then (ks, Ok (RArray [RInt 2; RInt server_window; RInt now_ms; RInt reset_ms]))
      else
        match read_counters 4 1 ks now_ms key rest with
        | Raised => (ks, Err ScriptError)
        | CorruptAt index => (ks, Ok (RArray [RInt 3; RInt index]))
        | Read items =>
            match first_full 1 items with
            | Some (index, count, hard) =>
                (ks, Ok (RArray [RInt 0; RInt index; RInt count; RInt hard; RInt server_window; RInt now_ms; RInt reset_ms]))
            | None =>
                match increment_all ks now_ms key items with
                | (ks', None) => (ks', Err ScriptError)
                | (ks', Some counts) =>
                    match tonumber retention with
                    | None => (ks', Err ScriptError)
                    | Some retention_ms =>
                        (PEXPIREAT ks' now_ms key (reset_ms + retention_ms),
                         Ok (RArray (RInt 1 :: RInt server_window :: RInt now_ms :: RInt reset_ms :: (RInt <$> counts))))
                    end
                end
            end
        end
  | _, _ => (ks, Err ScriptError)
  end.

(** ** Replies *)
Record parsedRedisRPMResponse := {
  code : Z; p_window : Z; nowMS : Z; resetMS : Z; scopeIndex : nat; p_count : Z; p_hard : Z; p_counts : list Z }.

Definition redisRPMInt64 (v : reply) : option Z := match v with RInt z => Some z | _ => None end.
Definition redisRPMUint64 (v : reply) : option Z := match v with RInt z => if z <? 0 then None else Some z | _ => None end.

Definition assignRedisRPMTimeFields (windowValue nowValue resetValue : reply) : option (Z * Z * Z) :=
  match redisRPMInt64 windowValue, redisRPMInt64 nowValue, redisRPMInt64 resetValue with
  | Some window, Some now, Some reset =>
      if (window <? 0) || (now <? 0) || (reset <=? now) then None else Some (window, now, reset)
  | _, _, _ => None
  end.

Definition with_times (c : Z) (times : Z * Z * Z) (index : nat) (count hard : Z) (counts : list Z) : parsedRedisRPMResponse :=
  {| code := c; p_window := times.1.1; nowMS := times.1.2; resetMS := times.2; scopeIndex := index; p_count := count;
     p_hard := hard; p_counts := counts |}.

Definition index_ok (index : Z) : bool := (1 <=? index) && (index <=? Z.of_nat requiredScopeCount).

Definition assignRedisRPMDenial (i c h w n r : reply) : option parsedRedisRPMResponse :=
  match redisRPMInt64 i, redisRPMUint64 c, redisRPMUint64 h with
  | Some index, Some count, Some hard =>
      if negb (index_ok index) || (hard =? 0) || (MaximumValue <? hard) || (count <? hard) then None
      else times ← assignRedisRPMTimeFields w n r; Some (with_times 0 times (Z.to_nat (index - 1)) count hard [])
  | _, _, _ => None
  end.

Definition allowed_count (v : reply) : option Z :=
  count ← redisRPMUint64 v; if (count =? 0) || (MaximumValue <? count) then None else Some count.

Definition redisRPMResponse (raw : reply) : result parsedRedisRPMResponse rpm_error :=
  match raw with
  | RArray (c :: values) =>
      match redisRPMInt64 c with
      | Some 2 =>
          match values with
          | [w; n; r] =>
              match assignRedisRPMTimeFields w n r with
              | Some times => Ok (with_times 2 times 0 0 0 [])
              | None => Err ErrRedisRPMProtocol
              end
          | _ => Err ErrRedisRPMProtocol
          end
      | Some 0 =>
          match values with
          | [i; c; h; w; n; r] =>
              match assignRedisRPMDenial i c h w n r with Some p => Ok p | None => Err ErrRedisRPMProtocol end
          | _ => Err ErrRedisRPMProtocol
          end
      | Some 1 =>
          match values with
          | [w; n; r; c1; c2; c3; c4] =>
              match assignRedisRPMTimeFields w n r, mapM allowed_count [c1; c2; c3; c4] with
              | Some times, Some counts => Ok (with_times 1 times 0 0 0 counts)
              | _, _ => Err ErrRedisRPMProtocol
              end
          | _ => Err ErrRedisRPMProtocol
          end
      | Some 3 =>
          match values with
          | [i] =>
              match redisRPMInt64 i with
              | Some index =>
                  if index_ok index then Ok (with_times 3 (0, 0, 0) (Z.to_nat (index - 1)) 0 0 []) else Err ErrRedisRPMProtocol
              | None => Err ErrRedisRPMProtocol
              end
          | _ => Err ErrRedisRPMProtocol
          end
      | _ => Err ErrRedisRPMProtocol
      end
  | _ => Err ErrRedisRPMProtocol
  end.

(** ** Admissions *)
Definition UnixMilli (ms : Z) : Time := unix_epoch + ms * millisecond.

Definition deniedRedisRPMAdmission (key : string) (scoped : list (Scope * Effective)) (p : parsedRedisRPMResponse)
    : result RedisRPMAdmission rpm_error :=
  match scoped !! scopeIndex p with
  | None => Err ErrRedisRPMProtocol
  | Some (scope, policy) =>
      ensure (p_hard p =? eff_Hard (eff_RPM policy)) else ErrRedisRPMProtocol in
      let serverTime := UnixMilli (nowMS p) in
      let resetAt := UnixMilli (resetMS p) in
      let retryAfter := time_sub resetAt serverTime in
      let retryAfter := if retryAfter <? 0 then 0 else retryAfter in
      Ok {| Window := p_window p; WindowKey := key; ServerTime := serverTime; ResetAt := resetAt; Counts := [];
            Rejection := Some {| rj_Scope := scope; rj_Count := p_count p; rj_Hard := p_hard p;
                                 rj_RetryAfter := retryAfter; rj_ResetAt := resetAt |} |}
  end.

Fixpoint allowed_counts (scoped : list (Scope * Effective)) (counts : list Z) : result (list RedisRPMCount) rpm_error :=
  match scoped, counts with
  | (scope, policy) :: scoped', count :: counts' =>
      ensure (count <=? eff_Hard (eff_RPM policy)) else ErrRedisRPMProtocol in
      let? rest := allowed_counts scoped' counts' in
      Ok ({| rc_Scope := scope; rc_Count := count; rc_Soft := eff_Soft (eff_RPM policy);
             rc_SoftExceeded := eff_Soft (eff_RPM policy) <? count |} :: rest)
  | _, _ => Ok []
  end.

Definition allowedRedisRPMAdmission (key : string) (scoped : list (Scope * Effective)) (p : parsedRedisRPMResponse)
    : result RedisRPMAdmission rpm_error :=
  let? counts := allowed_counts scoped (p_counts p) in
  Ok {| Window := p_window p; WindowKey := key; ServerTime := UnixMilli (nowMS p); ResetAt := UnixMilli (resetMS p);
        Counts := counts; Rejection := None |}.

(** ** AcquireRPM *)
Fixpoint acquire_loop {E : Type} `{RedisEvaluator Keyspace E} (fuel : nat) (e : E) (ctx : Context) (limiter : RedisRPMLimiter)
    (scoped : list (Scope * Effective)) (window : Z) : E * result RedisRPMAdmission rpm_error :=
  match fuel with
  | O => (e, Err ErrRedisRPMClockBoundary)
  | S fuel' =>
      let key := windowKey limiter window in
      match Eval e ctx redisRPMAdmissionScript [key] (redisRPMArguments window (retentionMS limiter) scoped) with
      | (e', Err cause) => (e', Err (ErrEval cause))
      | (e', Ok raw) =>
          match redisRPMResponse raw with
          | Err err => (e', Err err)
          | Ok response =>
              if code response =? 2 then acquire_loop fuel' e' ctx limiter scoped (p_window response)
              else if code response =? 0 then (e', deniedRedisRPMAdmission key scoped response)
              else if code response =? 1 then (e', allowedRedisRPMAdmission key scoped response)
              else (e', Err ErrRedisRPMProtocol)
          end
      end
  end.

(** [Time.Unix], and the minute it falls in. *)
Definition Unix (t : Time) : Z := (t - unix_epoch) / second.
Definition local_window (now : Time) : Z := Z.quot (Unix now) 60.

Definition AcquireRPM {E : Type} `{RedisEvaluator Keyspace E} (e : E) (limiter : RedisRPMLimiter) (ctx : Context)
    (bindings : list Binding) (now : Time) : E * result RedisRPMAdmission rpm_error :=
  match ctx with
  | ctx_nil => (e, Err ErrInvalidRPM)
  | _ =>
      match normalizeRPMBindings bindings with
      | Err err => (e, Err err)
      | Ok scoped => acquire_loop (Z.to_nat (clockRetries limiter)) e ctx limiter scoped (local_window now)
      end
  end.
