(* ===== verification/RedisRPMTheorems.v ===== *)
(** * The distributed request limit holds (src/internal/limits/redis_rpm.go)

    Every gateway of a fleet evaluates the admission script against the same Redis.
    A fleet state records the keyspace, the last server time and, per grant, the
    minute and the scopes of the request. *)
From Stdlib Require Import ZArith Lia Bool Ascii String.
From stdpp Require Import base tactics option list strings gmap fin_maps sets relations.
From S2P Require Import Prelude Identifiers LimitPolicy LocalLimiter Redis RedisRPM.
(** ** Fields and keys are injective *)
Lemma append_inj a : forall b c d, String.length a = String.length c -> a +:+ b = c +:+ d -> a = c /\ b = d.
Proof.
  induction a as [|x a IH]; intros b [|y c] d Hl H; simpl in *; try done.
  simplify_eq. destruct (IH b c d) as [E1 E2]; [done..|]. split; congruence.
Qed.

Lemma append_cancel a b d : a +:+ b = a +:+ d -> b = d.
Proof. intros H. by destruct (append_inj a b a d eq_refl H). Qed.

Ltac same_uuids :=
  repeat match goal with
  | H : uuidPattern _ = true |- _ => apply uuidPattern_length in H
  end;
  repeat match goal with
  | H : ?a +:+ ?b = ?c +:+ ?d |- _ => apply append_inj in H as [? ?]; [|congruence]
  | H : String _ _ = String _ _ |- _ => injection H as H
  end; simpl in *.

Lemma redisRPMField_inj s1 s2 :
  Scope_Validate s1 = true -> Scope_Validate s2 = true -> redisRPMField s1 = redisRPMField s2 -> s1 = s2.
Proof.
  destruct s1 as [k1 t1 p1 i1], s2 as [k2 t2 p2 i2]. unfold Scope_Validate, redisRPMField. simpl.
  destruct k1, k2; simpl; try done; intros H1 H2 H; prop_hyps; subst; try done; same_uuids; by subst.
Qed.

Lemma windowKey_inj limiter1 limiter2 w1 w2 :
  keyPrefix limiter1 = keyPrefix limiter2 -> windowKey limiter1 w1 = windowKey limiter2 w2 -> w1 = w2.
Proof.
  unfold windowKey. intros -> H. apply append_cancel in H. by apply (append_cancel ":"), FormatInt_inj in H.
Qed.

(** ** The loops of the script *)

(** The counters of the scopes of a request are given by [cnt]. *)
Notation hard policy := (eff_Hard (eff_RPM policy)).
Definition item (cnt : Scope -> Z) (sp : Scope * Effective) : string * Z * Z := (redisRPMField sp.1, hard sp.2, cnt sp.1).
Definition field (sp : Scope * Effective) : string := redisRPMField sp.1.
Definition counted (ks : Keyspace) (now : Z) (key : string) (cnt : Scope -> Z) (scoped : list (Scope * Effective)) : Prop :=
  Forall (fun sp => counts ks now key (field sp) (cnt sp.1)) scoped.
Definition roomy (cnt : Scope -> Z) (scoped : list (Scope * Effective)) : Prop :=
  Forall (fun sp => cnt sp.1 < hard sp.2) scoped.

#[export] Instance roomy_dec cnt scoped : Decision (roomy cnt scoped).
Proof. unfold roomy. apply _. Defined.

Lemma read_counters_spec ks now key cnt scoped : forall index,
  counted ks now key cnt scoped ->
  read_counters (length scoped) index ks now key (scope_arguments scoped) = Read (item cnt <$> scoped).
Proof.
  induction scoped as [|[s p] scoped IH]; intros index Hc; [done|]. apply Forall_cons in Hc as [[Hb Hs] Hr].
  simpl. rewrite tonumber_FormatInt. simpl in *. unfold exact_max, field in *. simpl in *.
  replace (match HGET ks now key (redisRPMField s) with None => _ | Some raw => _ end) with (Some (cnt s)).
  - by rewrite (IH _ Hr).
  - destruct (HGET ks now key (redisRPMField s)) as [raw|]; [subst raw|by rewrite Hs]. rewrite digits_FormatInt by lia.
    unfold redis_maximum. destruct (Z.ltb_spec (cnt s) 0), (Z.ltb_spec 9007199254740991 (cnt s)); simpl; try lia. done.
Qed.

Lemma first_full_None cnt scoped : forall index, roomy cnt scoped -> first_full index (item cnt <$> scoped) = None.
Proof.
  induction scoped as [|[s p] scoped IH]; intros index Hr; [done|]. apply Forall_cons in Hr as [Hs Hr]. simpl in *.
  destruct (Z.ltb_spec (hard p) (cnt s + 1)); [lia|]. by apply IH.
Qed.

Lemma first_full_Some cnt scoped : forall index, ~ roomy cnt scoped ->
  exists j s p, first_full index (item cnt <$> scoped) = Some (index + Z.of_nat j, cnt s, hard p) /\
    scoped !! j = Some (s, p) /\ hard p <= cnt s.
Proof.
  induction scoped as [|[s p] scoped IH]; intros index Hr; [destruct Hr; by apply Forall_nil|].
  rewrite fmap_cons. cbn [first_full item fst snd].
  destruct (Z.ltb_spec (hard p) (cnt s + 1)).
  - exists 0%nat, s, p. split_and!; [do 3 f_equal; lia|done|lia].
  - destruct (IH (index + 1)) as (j & s' & p' & E & Hj & Hc).
    { intros Hall. destruct Hr. apply Forall_cons. split; [simpl; lia|done]. }
    exists (S j), s', p'. rewrite E. split_and!; [do 3 f_equal; lia|done|done].
Qed.

Lemma counts_frame ks ks' now now' key f c : HGET ks' now' key f = HGET ks now key f -> counts ks now key f c -> counts ks' now' key f c.
Proof. unfold counts. by intros ->. Qed.

Lemma counted_frame ks ks' now key cnt scoped :
  (forall f, f ∈ (field <$> scoped) -> HGET ks' now key f = HGET ks now key f) ->
  counted ks now key cnt scoped -> counted ks' now key cnt scoped.
Proof.
  unfold counted. rewrite !Forall_forall. intros Hf Hc sp Hsp. eapply counts_frame; [|by apply Hc].
  apply Hf. by apply list_elem_of_fmap_2.
Qed.

Lemma increment_all_spec now key cnt scoped : forall ks,
  counted ks now key cnt scoped -> Forall (fun sp => cnt sp.1 < exact_max) scoped -> NoDup (field <$> scoped) ->
  exists ks', increment_all ks now key (item cnt <$> scoped) = (ks', Some ((fun sp => cnt sp.1 + 1) <$> scoped)) /\
    counted ks' now key (fun s => cnt s + 1) scoped /\
    (forall f, f ∉ (field <$> scoped) -> HGET ks' now key f = HGET ks now key f) /\
    (forall key', key' <> key -> ks' !! key' = ks !! key').
Proof.
  induction scoped as [|[s p] scoped IH]; intros ks Hc Hlt Hnd.
  { exists ks. repeat split; try done. apply Forall_nil_2. }
  apply Forall_cons in Hc as [Hs Hc]. apply Forall_cons in Hlt as [Hlts Hlt].
  rewrite fmap_cons in Hnd. apply NoDup_cons in Hnd as [Hnin Hnd]. simpl in Hs, Hlts.
  destruct (HINCRBY_counts ks now key (field (s, p)) (cnt s) 1 Hs ltac:(destruct Hs; lia)) as (ks1 & E & Hs1 & Hf1 & Hk1).
  destruct (IH ks1) as (ks2 & E2 & Hc2 & Hf2 & Hk2); [|done..|].
  { eapply counted_frame; [|exact Hc]. intros f Hf. apply Hf1. intros ->. by apply Hnin. }
  exists ks2. rewrite fmap_cons. cbn [increment_all item fst snd]. unfold field in E. simpl in E. rewrite E, E2. split_and!; [done|..].
  - apply Forall_cons. split; [|done]. simpl. eapply counts_frame; [|exact Hs1]. by apply Hf2.
  - intros f Hf. rewrite fmap_cons, not_elem_of_cons in Hf. destruct Hf. rewrite Hf2 by done. by apply Hf1.
  - intros key' Hk. rewrite Hk2 by done. by apply Hk1.
Qed.

(** ** One run of the script *)
Definition times_reply (clock : Clock) : list reply := [RInt (minute_of clock); RInt (time_ms clock); RInt (reset_ms clock)].
Definition mismatch_reply (clock : Clock) : reply := RArray (RInt 2 :: times_reply clock).
Definition denied_reply (clock : Clock) (j : nat) (count limit : Z) : reply :=
  RArray (RInt 0 :: RInt (1 + Z.of_nat j) :: RInt count :: RInt limit :: times_reply clock).
Definition allowed_reply (clock : Clock) (cnt : Scope -> Z) (scoped : list (Scope * Effective)) : reply :=
  RArray (RInt 1 :: times_reply clock ++ ((fun sp => RInt (cnt sp.1 + 1)) <$> scoped)).

Lemma PEXPIREAT_HGET ks now now' key at_ f :
  now <= now' <= at_ -> HGET (PEXPIREAT ks now key at_) now' key f = HGET ks now key f.
Proof.
  intros Ht. unfold PEXPIREAT, HGET. destruct (hash_at ks now key) as [h|] eqn:E.
  - rewrite hash_at_insert, decide_True by done. simpl. by destruct (Z.ltb_spec at_ now'); [lia|].
  - unfold hash_at in *. destruct (ks !! key) as [[fs [t|]]|]; simpl in *; try done.
    destruct (Z.ltb_spec t now); [|done]. by destruct (Z.ltb_spec t now'); [|lia].
Qed.

Lemma PEXPIREAT_other ks now key at_ key' : key' <> key -> PEXPIREAT ks now key at_ !! key' = ks !! key'.
Proof. intros. unfold PEXPIREAT. destruct (hash_at ks now key); [by rewrite lookup_insert_ne|done]. Qed.

(** What the script answers and writes, for canonical counters. *)
Record scripted (clock : Clock) (ks : Keyspace) (limiter : RedisRPMLimiter) (scoped : list (Scope * Effective))
    (cnt : Scope -> Z) (w : Z) (ks' : Keyspace) (r : result reply eval_error) : Prop := {
  scripted_mismatch : w <> minute_of clock -> ks' = ks /\ r = Ok (mismatch_reply clock);
  scripted_denied : w = minute_of clock -> ~ roomy cnt scoped ->
    ks' = ks /\ exists j s p, r = Ok (denied_reply clock j (cnt s) (hard p)) /\ scoped !! j = Some (s, p) /\ hard p <= cnt s;
  scripted_allowed : w = minute_of clock -> roomy cnt scoped ->
    r = Ok (allowed_reply clock cnt scoped) /\
    (forall now f, time_ms clock <= now <= reset_ms clock ->
      (f ∉ (field <$> scoped) -> HGET ks' now (windowKey limiter w) f = HGET ks (time_ms clock) (windowKey limiter w) f)) /\
    (forall now, time_ms clock <= now <= reset_ms clock -> counted ks' now (windowKey limiter w) (fun s => cnt s + 1) scoped) /\
    (forall key, key <> windowKey limiter w -> ks' !! key = ks !! key) }.

Lemma script_spec clock ks limiter scoped cnt w :
  clock_ok clock -> length scoped = 4%nat -> 0 <= retentionMS limiter ->
  (w = minute_of clock -> counted ks (time_ms clock) (windowKey limiter w) cnt scoped) ->
  Forall (fun sp => hard sp.2 <= exact_max) scoped -> NoDup (field <$> scoped) ->
  exists ks' r, redisRPMAdmissionScript clock ks [windowKey limiter w] (redisRPMArguments w (retentionMS limiter) scoped) = (ks', r) /\
    scripted clock ks limiter scoped cnt w ks' r.
Proof.
  intros Hclock Hl Hret Hc Hhard Hnd. pose proof (clock_times clock Hclock) as (_ & Htm & _).
  unfold redisRPMAdmissionScript, redisRPMArguments. destruct clock as [sec us].
  rewrite tonumber_FormatInt. fold (time_ms (sec, us)). fold (minute_of (sec, us)).
  destruct (decide (w = minute_of (sec, us))) as [->|Hw].
  2: { exists ks, (Ok (mismatch_reply (sec, us))). change (sec / 60) with (minute_of (sec, us)).
       rewrite bool_decide_eq_false_2 by congruence. split; [done|]. by split. }
  change (sec / 60) with (minute_of (sec, us)). change (sec * 1000 + us / 1000) with (time_ms (sec, us)).
  specialize (Hc eq_refl). rewrite bool_decide_eq_true_2 by done. cbn [negb]. replace 4%nat with (length scoped) by done.
  rewrite (read_counters_spec ks _ _ cnt _ 1 Hc). destruct (decide (roomy cnt scoped)) as [Hr|Hr].
  - rewrite first_full_None by done.
    destruct (increment_all_spec (time_ms (sec, us)) (windowKey limiter (minute_of (sec, us))) cnt scoped ks Hc) as (ks1 & E & Hc1 & Hf1 & Hk1); [|done|].
    { apply Forall_forall. intros sp Hsp. unfold roomy in Hr. rewrite Forall_forall in Hr, Hhard.
      specialize (Hr sp Hsp). specialize (Hhard sp Hsp). simpl in *. lia. }
    rewrite E, tonumber_FormatInt. do 2 eexists. split; [reflexivity|]. split; [done|done|]. intros _ _. split_and!.
    + unfold allowed_reply, times_reply. simpl. do 6 f_equal. by rewrite <- list_fmap_compose.
    + intros now f Hnow Hf. rewrite PEXPIREAT_HGET; [by apply Hf1|]. unfold reset_ms in Hnow. lia.
    + intros now Hnow. unfold counted in *. rewrite !Forall_forall in *. intros sp Hsp. specialize (Hc1 sp Hsp).
      unfold counts in *. rewrite PEXPIREAT_HGET; [done|]. unfold reset_ms in Hnow. lia.
    + intros key Hk. rewrite PEXPIREAT_other by done. by apply Hk1.
  - destruct (first_full_Some cnt scoped 1 Hr) as (j & s & p & E & Hj & Hle). rewrite E.
    do 2 eexists. split; [reflexivity|]. split; [done|..]; [|done]. intros _ _. split; [done|]. by exists j, s, p.
Qed.

(** ** Normalised bindings *)
Lemma normalizeRPMBindings_Ok bindings scoped :
  normalizeRPMBindings bindings = Ok scoped ->
  length scoped = 4%nat /\ Forall (fun sp => Scope_Validate sp.1 = true /\ Effective_Validate sp.2 = true) scoped /\
  NoDup scoped.*1 /\ NoDup (field <$> scoped).
Proof.
  unfold normalizeRPMBindings. destruct (Nat.eqb _ _); [|done].
  destruct (next_policies bindings ∅) as [ps|] eqn:Eps; [|done].
  destruct (normalizeScopes _) as [scopes|] eqn:Es; [|done].
  destruct (lookup_policies ps scopes) as [found|] eqn:Ef; [|done]. intros [= <-].
  destruct (normalizeScopes_chain _ _ Es) as ((p & t & pr & k & Hch) & Hnd & _).
  destruct (lookup_policies_zip _ _ _ Ef) as [Hz Hps].
  assert (Hv : map_Forall (fun _ p => Effective_Validate p = true) ps).
  { eapply next_policies_valid; [|exact Eps]. apply map_Forall_empty. }
  assert (Hval : Forall (fun sp => Scope_Validate sp.1 = true /\ Effective_Validate sp.2 = true) (zip scopes found)).
  { apply Forall_forall. intros [s pol] Hin. split; simpl.
    - pose proof (chain_valid _ _ _ _ _ Hch) as Hcv. rewrite Forall_forall in Hcv. apply Hcv. rewrite <- Hz.
      apply list_elem_of_fmap. by exists (s, pol).
    - by apply (Hv s), Hps. }
  split_and!; [| |by rewrite Hz|].
  - rewrite <- (length_fmap fst), Hz. by rewrite (chain_list _ _ _ _ _ Hch).
  - done.
  - replace (field <$> zip scopes found) with (redisRPMField <$> (zip scopes found).*1)
      by (rewrite <- list_fmap_compose; done).
    rewrite Hz. apply NoDup_fmap_2_strong; [|done]. intros s1 s2 H1 H2.
    pose proof (chain_valid _ _ _ _ _ Hch) as Hcv. rewrite Forall_forall in Hcv.
    apply redisRPMField_inj; by apply Hcv.
Qed.

(** ** The fleet *)
Record Fleet := { fl_keys : Keyspace; fl_time : Z; fl_log : list (Z * list Scope) }.

(** Admissions of a scope in a minute. *)
Definition admitted (w : Z) (s : Scope) (log : list (Z * list Scope)) : Z :=
  sum_by (fun g => if decide (g.1 = w /\ s ∈ g.2) then 1 else 0) log.

Definition granted (r : result reply eval_error) (scopes : list Scope) : list (Z * list Scope) :=
  match r with Ok (RArray (RInt 1 :: RInt w :: _)) => [(w, scopes)] | _ => [] end.

(** Any gateway evaluates the script for any valid bindings, believing in any minute,
    at a server time that is not before the last one. Whether its reply arrives does
    not matter to the keyspace. *)
Inductive fleet_step (prefix : string) : Fleet -> Fleet -> Prop :=
| fleet_eval fl clock limiter bindings scoped w ks r :
    clock_ok clock -> fl_time fl <= time_ms clock -> keyPrefix limiter = prefix -> 0 <= retentionMS limiter ->
    normalizeRPMBindings bindings = Ok scoped ->
    redisRPMAdmissionScript clock (fl_keys fl) [windowKey limiter w] (redisRPMArguments w (retentionMS limiter) scoped) = (ks, r) ->
    fleet_step prefix fl {| fl_keys := ks; fl_time := time_ms clock; fl_log := granted r scoped.*1 ++ fl_log fl |}.

Definition fleet_start : Fleet := {| fl_keys := ∅; fl_time := 0; fl_log := [] |}.
Definition fleet_reachable (prefix : string) (fl : Fleet) : Prop := rtc (fleet_step prefix) fleet_start fl.

(** In every minute that is not over, the stored counters are the admissions. *)
Definition fleet_inv (prefix : string) (fl : Fleet) : Prop :=
  forall limiter s now, keyPrefix limiter = prefix -> Scope_Validate s = true -> fl_time fl <= now ->
    counts (fl_keys fl) now (windowKey limiter (now / 60000)) (redisRPMField s) (admitted (now / 60000) s (fl_log fl)).

Lemma HGET_other_key ks ks' now key f : ks' !! key = ks !! key -> HGET ks' now key f = HGET ks now key f.
Proof. unfold HGET, hash_at. by intros ->. Qed.

Lemma hards_ok scoped :
  Forall (fun sp => Scope_Validate sp.1 = true /\ Effective_Validate sp.2 = true) scoped ->
  Forall (fun sp => hard sp.2 <= exact_max) scoped.
Proof.
  intros H. eapply Forall_impl; [exact H|]. intros [s p] [_ Hp]. simpl in *.
  pose proof (Effective_Validate_hard p ResourceRPM Hp). unfold MaximumValue, exact_max in *. simpl in *. lia.
Qed.

(** Running the script in a fleet that satisfies the invariant. *)
Lemma fleet_script prefix fl clock limiter bindings scoped w ks r :
  fleet_inv prefix fl -> clock_ok clock -> fl_time fl <= time_ms clock -> keyPrefix limiter = prefix ->
  0 <= retentionMS limiter -> normalizeRPMBindings bindings = Ok scoped ->
  redisRPMAdmissionScript clock (fl_keys fl) [windowKey limiter w] (redisRPMArguments w (retentionMS limiter) scoped) = (ks, r) ->
  scripted clock (fl_keys fl) limiter scoped (fun s => admitted (minute_of clock) s (fl_log fl)) w ks r.
Proof.
  intros Hinv Hclock Ht Hp Hret Hn E. destruct (normalizeRPMBindings_Ok _ _ Hn) as (Hl & Hv & _ & Hnd).
  destruct (script_spec clock (fl_keys fl) limiter scoped (fun s => admitted (minute_of clock) s (fl_log fl)) w)
    as (ks' & r' & E' & Hs); try done; [|by apply hards_ok|by rewrite E in E'; simplify_eq].
  intros ->. destruct (clock_times clock Hclock) as (_ & _ & Hmin). unfold counted.
  eapply Forall_impl; [exact Hv|]. intros [s p] [Hsv _]. rewrite <- Hmin. by apply Hinv.
Qed.

Lemma admitted_cons w s g log : admitted w s (g :: log) = (if decide (g.1 = w /\ s ∈ g.2) then 1 else 0) + admitted w s log.
Proof. done. Qed.

Lemma fleet_step_inv prefix fl fl' : fleet_inv prefix fl -> fleet_step prefix fl fl' -> fleet_inv prefix fl'.
Proof.
  intros Hinv Hstep. destruct Hstep as [fl clock limiter bindings scoped w ks r Hclock Ht Hp Hret Hn E].
  pose proof (fleet_script _ _ _ _ _ _ _ _ _ Hinv Hclock Ht Hp Hret Hn E) as [Hmis Hden Hall].
  destruct (normalizeRPMBindings_Ok _ _ Hn) as (_ & Hv & _ & _). destruct (clock_times clock Hclock) as (_ & Htm & Hmin).
  intros limiter' s now Hp' Hs Hnow. simpl in Hnow |- *.
  replace (windowKey limiter' (now / 60000)) with (windowKey limiter (now / 60000)) by (unfold windowKey; congruence).
  pose proof (Hinv limiter s now Hp Hs ltac:(lia)) as Hthen. pose proof (Hinv limiter s (time_ms clock) Hp Hs Ht) as Hold.
  destruct (decide (w = minute_of clock)) as [->|Hw]; [|by destruct (Hmis Hw) as [-> ->]].
  destruct (decide (roomy (fun s => admitted (minute_of clock) s (fl_log fl)) scoped)) as [Hr|Hr].
  2: { destruct (Hden eq_refl Hr) as (-> & j & s' & p' & -> & _). done. }
  destruct (Hall eq_refl Hr) as (-> & Hf & Hc & Hk).
  change (granted _ _ ++ _) with ((minute_of clock, scoped.*1) :: fl_log fl). rewrite admitted_cons. cbn [fst snd].
  destruct (decide (now / 60000 = minute_of clock)) as [Hsame|Hother].
  2: { rewrite decide_False by (intros [? _]; congruence). eapply counts_frame; [|exact Hthen].
       apply HGET_other_key, Hk. intros Heq. by apply windowKey_inj in Heq. }
  assert (Hin : time_ms clock <= now <= reset_ms clock).
  { split; [done|]. unfold reset_ms. rewrite <- Hsame. pose proof (Z.div_mod now 60000 ltac:(lia)).
    pose proof (Z.mod_pos_bound now 60000 ltac:(lia)). lia. }
  rewrite Hsame, Hmin in *. unfold counted in Hc. rewrite Forall_forall in Hv. destruct (decide (s ∈ scoped.*1)) as [Hel|Hnel].
  - rewrite decide_True by done. apply list_elem_of_fmap in Hel as ([s' p] & -> & Hel). specialize (Hc now Hin).
    rewrite Forall_forall in Hc. rewrite Z.add_comm. exact (Hc _ Hel).
  - rewrite decide_False by (intros [_ ?]; done). eapply counts_frame; [|exact Hold]. apply Hf; [done|].
    intros ([s' p] & Heq & Hel)%list_elem_of_fmap. apply Hnel. apply list_elem_of_fmap. exists (s', p). split; [|done].
    apply redisRPMField_inj; [done|by apply (Hv (s', p))|done].
Qed.

Lemma fleet_reachable_inv prefix fl : fleet_reachable prefix fl -> fleet_inv prefix fl.
Proof.
  intros H. assert (H0 : fleet_inv prefix fleet_start).
  { intros limiter s now _ _ _. unfold counts, HGET, hash_at. simpl. rewrite lookup_empty. by unfold exact_max. }
  unfold fleet_reachable in H. revert H0. induction H as [|fl1 fl2 fl3 Hstep _ IH]; [done|].
  intros Hinv. apply IH. by eapply fleet_step_inv.
Qed.

(** ** Properties *)

(** The request limit holds across the fleet. In every state that gateways can
    reach by evaluating the script, with any interleaving, any local clocks, any
    policies and lost replies, the next evaluation in the server's minute admits
    exactly when each of the four scopes has fewer admissions in this minute than
    its hard boundary, and then reports the admissions including this one;
    otherwise it writes nothing and names a scope whose admissions reached its
    boundary. With another minute it writes nothing and reports the server's. *)
Theorem fleet_enforces_request_limit prefix fl clock limiter bindings scoped w ks r :
  fleet_reachable prefix fl -> clock_ok clock -> fl_time fl <= time_ms clock -> keyPrefix limiter = prefix ->
  0 <= retentionMS limiter -> normalizeRPMBindings bindings = Ok scoped ->
  redisRPMAdmissionScript clock (fl_keys fl) [windowKey limiter w] (redisRPMArguments w (retentionMS limiter) scoped) = (ks, r) ->
  let n s := admitted (minute_of clock) s (fl_log fl) in
  if decide (w = minute_of clock) then
    if decide (Forall (fun sp => n sp.1 < hard sp.2) scoped) then r = Ok (allowed_reply clock n scoped)
    else ks = fl_keys fl /\
      exists j s p, r = Ok (denied_reply clock j (n s) (hard p)) /\ scoped !! j = Some (s, p) /\ hard p <= n s
  else ks = fl_keys fl /\ r = Ok (mismatch_reply clock).
Proof.
  intros Hfl Hclock Ht Hp Hret Hn E n.
  pose proof (fleet_script _ _ _ _ _ _ _ _ _ (fleet_reachable_inv _ _ Hfl) Hclock Ht Hp Hret Hn E) as [Hmis Hden Hall].
  destruct (decide (w = minute_of clock)) as [->|Hw]; [|by apply Hmis].
  destruct (decide (Forall _ _)) as [Hr|Hr]; [by apply Hall|by apply Hden].
Qed.

(** ** Replies are understood *)
Definition times_of (clock : Clock) : Z * Z * Z := (minute_of clock, time_ms clock, reset_ms clock).

Lemma times_parse clock : clock_ok clock ->
  assignRedisRPMTimeFields (RInt (minute_of clock)) (RInt (time_ms clock)) (RInt (reset_ms clock)) = Some (times_of clock).
Proof.
  intros (Hm & Ht & _)%clock_times. unfold assignRedisRPMTimeFields. simpl.
  destruct (Z.ltb_spec (minute_of clock) 0), (Z.ltb_spec (time_ms clock) 0), (Z.leb_spec (reset_ms clock) (time_ms clock)); simpl; try lia. done.
Qed.

Lemma mismatch_parse clock : clock_ok clock ->
  redisRPMResponse (mismatch_reply clock) = Ok (with_times 2 (times_of clock) 0 0 0 []).
Proof. intros H. cbn -[assignRedisRPMTimeFields]. by rewrite times_parse. Qed.

Lemma denied_parse clock j count limit :
  clock_ok clock -> (j < 4)%nat -> 0 < limit <= MaximumValue -> limit <= count ->
  redisRPMResponse (denied_reply clock j count limit) = Ok (with_times 0 (times_of clock) j count limit []).
Proof.
  intros H Hj Hl Hc. cbn -[assignRedisRPMTimeFields assignRedisRPMDenial Z.add]. unfold assignRedisRPMDenial.
  cbn -[assignRedisRPMTimeFields index_ok Z.add MaximumValue].
  destruct (Z.ltb_spec count 0); [lia|]. destruct (Z.ltb_spec limit 0); [lia|].
  replace (index_ok (1 + Z.of_nat j)) with true
    by (symmetry; unfold index_ok, requiredScopeCount; prop_goal; lia).
  destruct (Z.eqb_spec limit 0), (Z.ltb_spec MaximumValue limit), (Z.ltb_spec count limit); try lia. cbn [negb orb].
  rewrite times_parse by done. cbn [mbind option_bind]. do 2 f_equal. lia.
Qed.

Lemma allowed_parse clock cnt scoped :
  clock_ok clock -> length scoped = 4%nat -> Forall (fun sp => 0 <= cnt sp.1 < MaximumValue) scoped ->
  redisRPMResponse (allowed_reply clock cnt scoped) =
  Ok (with_times 1 (times_of clock) 0 0 0 ((fun sp => cnt sp.1 + 1) <$> scoped)).
Proof.
  intros H Hl Hb. assert (Hm : mapM allowed_count ((fun sp => RInt (cnt sp.1 + 1)) <$> scoped) = Some ((fun sp => cnt sp.1 + 1) <$> scoped)).
  { clear Hl. induction Hb as [|sp scoped Hsp _ IH]; [done|]. rewrite !fmap_cons. cbn [mapM]. rewrite IH.
    unfold allowed_count. cbn [redisRPMUint64 mbind option_bind]. destruct (Z.ltb_spec (cnt sp.1 + 1) 0); [lia|]. cbn [mbind option_bind].
    destruct (Z.eqb_spec (cnt sp.1 + 1) 0), (Z.ltb_spec MaximumValue (cnt sp.1 + 1)); try lia. done. }
  destruct scoped as [|a [|b [|c [|d [|]]]]]; try done. unfold allowed_reply, times_reply. rewrite !fmap_cons, fmap_nil in *.
  cbn [app redisRPMResponse redisRPMInt64]. rewrite times_parse by done. by rewrite Hm.
Qed.

Lemma allowed_counts_Ok cnt scoped : roomy cnt scoped ->
  allowed_counts scoped ((fun sp => cnt sp.1 + 1) <$> scoped) =
  Ok ((fun sp => {| rc_Scope := sp.1; rc_Count := cnt sp.1 + 1; rc_Soft := eff_Soft (eff_RPM sp.2);
                    rc_SoftExceeded := eff_Soft (eff_RPM sp.2) <? cnt sp.1 + 1 |}) <$> scoped).
Proof.
  induction 1 as [|[s p] scoped Hs _ IH]; [done|]. rewrite !fmap_cons. cbn [allowed_counts fst snd] in *.
  destruct (Z.leb_spec (cnt s + 1) (hard p)); [|lia]. by rewrite IH.
Qed.

(** ** One call *)

(** The answer to a request whose scopes have the counters [cnt]. *)
Record answer (clock : Clock) (limiter : RedisRPMLimiter) (scoped : list (Scope * Effective)) (cnt : Scope -> Z)
    (ks ks' : Keyspace) (adm : RedisRPMAdmission) : Prop := {
  answer_window : Window adm = minute_of clock /\ WindowKey adm = windowKey limiter (minute_of clock) /\
    ServerTime adm = UnixMilli (time_ms clock) /\ ResetAt adm = UnixMilli (reset_ms clock);
  answer_allowed : roomy cnt scoped ->
    RPM_Allowed adm = true /\ counted ks' (time_ms clock) (windowKey limiter (minute_of clock)) (fun s => cnt s + 1) scoped /\
    Counts adm = (fun sp => {| rc_Scope := sp.1; rc_Count := cnt sp.1 + 1; rc_Soft := eff_Soft (eff_RPM sp.2);
                               rc_SoftExceeded := eff_Soft (eff_RPM sp.2) <? cnt sp.1 + 1 |}) <$> scoped;
  answer_denied : ~ roomy cnt scoped ->
    RPM_Allowed adm = false /\ ks' = ks /\
    exists s p, (s, p) ∈ scoped /\ hard p <= cnt s /\
      Rejection adm = Some {| rj_Scope := s; rj_Count := cnt s; rj_Hard := hard p;
        rj_RetryAfter := (reset_ms clock - time_ms clock) * millisecond; rj_ResetAt := UnixMilli (reset_ms clock) |} }.

Lemma retry_after clock : clock_ok clock ->
  time_sub (UnixMilli (reset_ms clock)) (UnixMilli (time_ms clock)) = (reset_ms clock - time_ms clock) * millisecond /\
  0 <= (reset_ms clock - time_ms clock) * millisecond.
Proof.
  intros Hc. destruct (clock_times clock Hc) as (_ & Ht & Hm). pose proof (Z.div_mod (time_ms clock) 60000 ltac:(lia)) as Hd.
  pose proof (Z.mod_pos_bound (time_ms clock) 60000 ltac:(lia)).
  assert (reset_ms clock - time_ms clock <= 60000) by (unfold reset_ms; rewrite <- Hm; lia).
  unfold time_sub, UnixMilli, millisecond, i64_min, i64_max. lia.
Qed.

Lemma acquire_loop_S {E : Type} `{RedisEvaluator Keyspace E} fuel (e : E) ctx limiter scoped window :
  acquire_loop (S fuel) e ctx limiter scoped window =
  match Eval e ctx redisRPMAdmissionScript [windowKey limiter window] (redisRPMArguments window (retentionMS limiter) scoped) with
  | (e', Err cause) => (e', Err (ErrEval cause))
  | (e', Ok raw) =>
      match redisRPMResponse raw with
      | Err err => (e', Err err)
      | Ok response =>
          if code response =? 2 then acquire_loop fuel e' ctx limiter scoped (p_window response)
          else if code response =? 0 then (e', deniedRedisRPMAdmission (windowKey limiter window) scoped response)
          else if code response =? 1 then (e', allowedRedisRPMAdmission (windowKey limiter window) scoped response)
          else (e', Err ErrRedisRPMProtocol)
      end
  end.
Proof. done. Qed.

Lemma acquire_in_minute fuel srv clock ctx limiter bindings scoped cnt :
  steady srv clock -> clock_ok clock -> 0 <= retentionMS limiter -> normalizeRPMBindings bindings = Ok scoped ->
  counted (srv_keys srv) (time_ms clock) (windowKey limiter (minute_of clock)) cnt scoped ->
  exists ks' adm, acquire_loop (S fuel) srv ctx limiter scoped (minute_of clock) = (called srv ks', Ok adm) /\
    answer clock limiter scoped cnt (srv_keys srv) ks' adm.
Proof.
  intros Hst Hclock Hret Hn Hc. destruct (normalizeRPMBindings_Ok _ _ Hn) as (Hl & Hv & _ & Hnd).
  destruct (script_spec clock (srv_keys srv) limiter scoped cnt (minute_of clock)) as (ks' & r & E & [_ Hden Hall]);
    try done; [by apply hards_ok|].
  rewrite acquire_loop_S, (Eval_steady _ _ _ _ _ _ _ _ Hst E). destruct (clock_times clock Hclock) as (_ & Htm & _).
  destruct (decide (roomy cnt scoped)) as [Hr|Hr].
  - destruct (Hall eq_refl Hr) as (-> & _ & Hinc & _). rewrite allowed_parse; [|done..|].
    2: { apply Forall_forall. intros sp Hsp. pose proof (hards_ok _ Hv) as Hh. unfold roomy, counted in *. rewrite Forall_forall in *.
         destruct (Hc sp Hsp) as [? _]. specialize (Hr sp Hsp). specialize (Hh sp Hsp). simpl in *. unfold MaximumValue, exact_max in *. lia. }
    cbn [code with_times Z.eqb Pos.eqb]. unfold allowedRedisRPMAdmission. cbn [p_counts with_times]. rewrite allowed_counts_Ok by done.
    cbn [result_bind]. do 2 eexists. split; [reflexivity|]. split; [done| |done]. intros _. split; [|split; [|done]].
    + unfold RPM_Allowed. cbn [Rejection Counts]. rewrite length_fmap. by apply Nat.eqb_eq.
    + apply Hinc. lia.
  - destruct (Hden eq_refl Hr) as (-> & j & s & p & -> & Hj & Hle).
    assert (Hp : 0 < hard p <= MaximumValue).
    { rewrite Forall_forall in Hv. destruct (Hv (s, p)) as [_ Hp]; [by eapply list_elem_of_lookup_2|].
      exact (Effective_Validate_hard p ResourceRPM Hp). }
    rewrite denied_parse; try done; [|by rewrite <- Hl; eapply lookup_lt_Some].
    cbn [code with_times Z.eqb]. unfold deniedRedisRPMAdmission. cbn [scopeIndex with_times]. rewrite Hj. cbn [p_hard with_times].
    rewrite Z.eqb_refl. cbn [nowMS resetMS with_times times_of fst snd p_count p_window].
    destruct (retry_after clock Hclock) as [-> Hnn]. destruct (Z.ltb_spec ((reset_ms clock - time_ms clock) * millisecond) 0); [lia|].
    do 2 eexists. split; [reflexivity|]. split; [done..|]. intros _. split; [done|]. split; [done|].
    exists s, p. split; [by eapply list_elem_of_lookup_2|done].
Qed.

(** Against a reachable server, [AcquireRPM] decides every request by the
    counters of the server's minute, whatever the gateway's own clock says: two
    clock retries always suffice while the server's minute lasts. It admits exactly
    when all four scopes have room, having added one to each counter and reporting
    them; otherwise it changes nothing and reports a full scope, its counter, its
    boundary and the time until the next minute. *)
Theorem AcquireRPM_decides srv clock options limiter bindings scoped cnt now :
  NewRedisRPMLimiter options = Ok limiter -> steady srv clock -> clock_ok clock ->
  normalizeRPMBindings bindings = Ok scoped ->
  counted (srv_keys srv) (time_ms clock) (windowKey limiter (minute_of clock)) cnt scoped ->
  2 <= clockRetries limiter \/ local_window now = minute_of clock ->
  exists srv' adm, AcquireRPM srv limiter ctx_live bindings now = (srv', Ok adm) /\
    answer clock limiter scoped cnt (srv_keys srv) (srv_keys srv') adm.
Proof.
  intros Hnew Hst Hclock Hn Hc Hretry. destruct (normalizeRPMBindings_Ok _ _ Hn) as (Hl & Hv & _ & Hnd).
  unfold NewRedisRPMLimiter in Hnew. destruct (_ && _) eqn:Ho; [|done]. simplify_eq. prop_hyps.
  set (limiter := {| keyPrefix := _ |}) in *. unfold AcquireRPM. rewrite Hn. cbn [clockRetries limiter] in *.
  destruct (decide (local_window now = minute_of clock)) as [->|Hw].
  - destruct (Z.to_nat (ClockRetries options)) as [|fuel] eqn:Ef; [lia|].
    destruct (acquire_in_minute fuel srv clock ctx_live limiter bindings scoped cnt) as (ks' & adm & -> & Ha); try done; [simpl; lia|].
    by exists (called srv ks'), adm.
  - destruct (Z.to_nat (ClockRetries options)) as [|[|fuel]] eqn:Ef; [lia|destruct Hretry; [simpl in *; lia|done]|].
    destruct (script_spec clock (srv_keys srv) limiter scoped cnt (local_window now)) as (ks' & r & E & [Hmis _ _]);
      try done; [simpl; lia|by apply hards_ok|].
    destruct (Hmis Hw) as [-> ->]. rewrite acquire_loop_S, (Eval_steady _ _ _ _ _ _ _ _ Hst E), mismatch_parse by done.
    cbn [code with_times Z.eqb Pos.eqb p_window times_of fst].
    destruct (acquire_in_minute fuel (called srv (srv_keys srv)) clock ctx_live limiter bindings scoped cnt) as (ks' & adm & E2 & Ha);
      try done; [simpl; lia|]. rewrite E2. by exists (called (called srv (srv_keys srv)) ks'), adm.
Qed.

(** ** Witnesses *)
Definition demo_rpm : RedisRPMLimiter := {| keyPrefix := "agw:limits:rpm:v1:{rpm}"; retentionMS := 5000; clockRetries := 3 |}.
Definition demo_minute : Clock := (150, 250000).
Definition demo_scoped : list (Scope * Effective) := zip demo_chain (replicate 4 demo_policy).
Definition demo_run (fl : Fleet) : Keyspace * result reply eval_error :=
  redisRPMAdmissionScript demo_minute (fl_keys fl) [windowKey demo_rpm 2] (redisRPMArguments 2 5000 demo_scoped).
Definition demo_next (fl : Fleet) : Fleet :=
  {| fl_keys := (demo_run fl).1; fl_time := time_ms demo_minute; fl_log := granted (demo_run fl).2 demo_scoped.*1 ++ fl_log fl |}.
Definition demo_full : Fleet := demo_next (demo_next fleet_start).

Lemma demo_normalized : normalizeRPMBindings demo_bindings = Ok demo_scoped.
Proof. vm_compute. reflexivity. Qed.

Lemma demo_next_step fl : fl_time fl <= time_ms demo_minute -> fleet_step (keyPrefix demo_rpm) fl (demo_next fl).
Proof.
  intros Ht.
  refine (fleet_eval _ fl demo_minute demo_rpm demo_bindings demo_scoped 2 (demo_run fl).1 (demo_run fl).2 _ Ht eq_refl _
    demo_normalized (surjective_pairing _)); by vm_compute.
Qed.

Lemma demo_full_reachable : fleet_reachable (keyPrefix demo_rpm) demo_full.
Proof.
  eapply rtc_l; [apply (demo_next_step fleet_start); by vm_compute|]. apply rtc_once, demo_next_step. done.
Qed.

(** The third request of the minute is refused: the boundary is two. *)
Lemma fleet_enforces_request_limit_witness :
  (demo_run demo_full).1 = fl_keys demo_full /\ exists s p, (s, p) ∈ demo_scoped /\ hard p <= admitted 2 s (fl_log demo_full).
Proof.
  pose proof (fleet_enforces_request_limit (keyPrefix demo_rpm) demo_full demo_minute demo_rpm demo_bindings demo_scoped 2
    (demo_run demo_full).1 (demo_run demo_full).2 demo_full_reachable ltac:(by vm_compute) ltac:(done) ltac:(done) ltac:(by vm_compute)
    demo_normalized (surjective_pairing _)) as H.
  change (minute_of demo_minute) with 2 in H. cbv zeta in H. rewrite decide_True in H by reflexivity.
  rewrite decide_False in H by (intros Hall; apply Forall_inv in Hall; vm_compute in Hall; discriminate Hall).
  destruct H as (Hk & j & s & p & _ & Hj & Hle). split; [exact Hk|]. exists s, p.
  split; [exact (list_elem_of_lookup_2 _ _ _ Hj)|exact Hle].
Defined.

Definition demo_server : Server Keyspace := {| srv_keys := ∅; srv_clock := fun _ => demo_minute; srv_net := fun _ => Delivered; srv_calls := 0 |}.

(** A gateway whose clock is wrong by decades is answered within two evaluations. *)
Lemma AcquireRPM_decides_witness :
  exists srv' adm, AcquireRPM demo_server demo_rpm ctx_live demo_bindings 1 = (srv', Ok adm) /\ RPM_Allowed adm = true.
Proof.
  destruct (AcquireRPM_decides demo_server demo_minute DefaultRedisRPMOptions demo_rpm demo_bindings demo_scoped (fun _ => 0) 1)
    as (srv' & adm & E & Ha).
  - vm_compute. reflexivity.
  - intros i. split; reflexivity.
  - by vm_compute.
  - exact demo_normalized.
  - apply Forall_true. intros sp. by vm_compute.
  - left. by vm_compute.
  - exists srv', adm. split; [exact E|]. refine (proj1 (answer_allowed _ _ _ _ _ _ _ Ha _)).
    unfold roomy, demo_scoped. repeat (apply Forall_cons; split; [by vm_compute|]). apply Forall_nil_2.
Defined.
