(* ===== verification/RedisTPM.v ===== *)
(** * Distributed token limit (src/internal/limits/redis_tpm.go)

    One Redis hash per key prefix and minute holds a token counter per scope and a
    record per reservation. The reserve script charges a plan to four counters or to
    none; the settle script replaces a reservation by the tokens used. *)
From Stdlib Require Import ZArith Lia Bool Ascii String.
From stdpp Require Import base tactics option list strings gmap fin_maps sets.
From S2P Require Import Prelude Identifiers Retry Metering TPM LimitPolicy LocalLimiter Redis RedisRPM.
(** ** Data *)
Record RedisTPMOptions := { tpm_KeyPrefix : string; tpm_Retention : Duration; tpm_ClockRetries : Z }.

Definition DefaultRedisTPMOptions : RedisTPMOptions :=
  {| tpm_KeyPrefix := "agw:limits:tpm:v1:{tpm}"; tpm_Retention := hour; tpm_ClockRetries := 3 |}.

Record RedisTPMReserveRequest := { rr_ReservationID : string; rr_Bindings : list Binding; rr_Plan : TPMReservationPlan }.
Record RedisTPMCount := { tc_Scope : Scope; tc_Count : Z; tc_Soft : Z; tc_SoftExceeded : bool }.
Record RedisTPMRejection := {
  tj_Scope : Scope; tj_Count : Z; tj_Requested : Z; tj_Hard : Z; tj_RetryAfter : Duration; tj_ResetAt : Time }.
Record RedisTPMHandle := { hd_ReservationID : string; hd_Window : Z; hd_Scopes : list Scope; hd_ReservedTokens : Z }.

Definition empty_handle : RedisTPMHandle := {| hd_ReservationID := ""; hd_Window := 0; hd_Scopes := []; hd_ReservedTokens := 0 |}.

Record RedisTPMReservation := {
  rv_Handle : RedisTPMHandle; rv_WindowKey : string; rv_ServerTime : Time; rv_ResetAt : Time; rv_ExpiresAt : option Time;
  rv_Counts : list RedisTPMCount; rv_Idempotent : bool; rv_Rejection : option RedisTPMRejection }.

Definition TPM_Allowed (r : RedisTPMReservation) : bool :=
  match rv_Rejection r with
  | None => Nat.eqb (length (rv_Counts r)) requiredScopeCount && negb (bool_decide (hd_ReservationID (rv_Handle r) = ""%string))
  | Some _ => false
  end.

Record RedisTPMSettlement := {
  st_Handle : RedisTPMHandle; st_WindowKey : string; st_ServerTime : Time; st_Actual : TPMActual; st_ReleasedTokens : Z;
  st_OverageTokens : Z; st_Counts : list RedisTPMCount; st_Idempotent : bool }.

Record RedisTPMLimiter := { tl_keyPrefix : string; tl_retentionMS : Z; tl_clockRetries : Z }.

Inductive redis_tpm_error :=
| ErrInvalidTPMInput | ErrTPMEval (cause : eval_error) | ErrRedisTPMProtocol | ErrRedisTPMClockBoundary
| ErrRedisTPMReservationConflict | ErrRedisTPMReservationExpired | ErrTPMBindings (cause : rpm_error).

(** ** Construction *)
Definition maximumRedisTPMRetention : Duration := 24 * hour.
Definition maximumRedisTPMClockRetries : Z := 5.

Definition validRedisTPMKeyPrefix (p : string) : bool :=
  Nat.leb 1 (String.length p) && Nat.leb (String.length p) 128 && redisRPMPrefixPattern p && Nat.eqb (count_substring "{tpm}" p) 1.

(** [^[A-Za-z0-9][A-Za-z0-9._:-]*$], for strings of at most 128 bytes. *)
Definition validTPMReservationID (value : string) : bool :=
  Nat.leb 1 (String.length value) && Nat.leb (String.length value) 128 &&
  match_head_tail alnum (or_class alnum (one_of "._:-")) 0 127 value.

Definition NewRedisTPMLimiter (options : RedisTPMOptions) : result RedisTPMLimiter redis_tpm_error :=
  let retentionMilliseconds := Z.quot (tpm_Retention options) millisecond in
  ensure (validRedisTPMKeyPrefix (tpm_KeyPrefix options) && (1 <=? retentionMilliseconds) &&
          (tpm_Retention options <=? maximumRedisTPMRetention) && (1 <=? tpm_ClockRetries options) &&
          (tpm_ClockRetries options <=? maximumRedisTPMClockRetries)) else ErrInvalidTPMInput in
  Ok {| tl_keyPrefix := tpm_KeyPrefix options; tl_retentionMS := retentionMilliseconds; tl_clockRetries := tpm_ClockRetries options |}.

(** ** Keys, fields and values *)
Definition tpm_windowKey (limiter : RedisTPMLimiter) (window : Z) : string := tl_keyPrefix limiter +:+ ":" +:+ FormatInt window.
Definition redisTPMReservationField (reservationID : string) : string := "reservation:" +:+ reservationID.
Definition redisTPMPendingValue (reserved : Z) (fingerprint : string) : string := "r:" +:+ FormatInt reserved +:+ ":" +:+ fingerprint.
Definition redisTPMSettledValue (reserved actual : Z) (fingerprint : string) : string :=
  "s:" +:+ FormatInt reserved +:+ ":" +:+ FormatInt actual +:+ ":" +:+ fingerprint.

(** [strings.Join(fields, "\x00")] of the fields of the scopes; the fingerprint is the
    hexadecimal SHA-256 of it. *)
Fixpoint join_fields (scopes : list Scope) : string :=
  match scopes with
  | [] => ""
  | [scope] => redisRPMField scope
  | scope :: rest => redisRPMField scope +:+ String "000" (join_fields rest)
  end.

Definition redisScopeFingerprint (sha256hex : string -> string) (scopes : list Scope) : string := sha256hex (join_fields scopes).

(** ** Arguments *)
Fixpoint tpm_scope_arguments (scoped : list (Scope * Effective)) : list string :=
  match scoped with
  | [] => []
  | (scope, policy) :: rest =>
      redisRPMField scope :: FormatInt (eff_Hard (eff_TPM policy)) :: FormatInt (eff_Soft (eff_TPM policy)) :: tpm_scope_arguments rest
  end.

Definition redisTPMReserveArguments (window retentionMS : Z) (reservationID fingerprint : string) (requested : Z)
    (scoped : list (Scope * Effective)) : list string :=
  FormatInt window :: FormatInt retentionMS :: redisTPMReservationField reservationID ::
  redisTPMPendingValue requested fingerprint :: FormatInt requested :: tpm_scope_arguments scoped.

Definition redisTPMSettleArguments (handle : RedisTPMHandle) (actual : TPMActual) (fingerprint : string) (scopes : list Scope) : list string :=
  redisTPMReservationField (hd_ReservationID handle) :: redisTPMPendingValue (hd_ReservedTokens handle) fingerprint ::
  redisTPMSettledValue (hd_ReservedTokens handle) (act_Tokens actual) fingerprint :: FormatInt (hd_ReservedTokens handle) ::
  FormatInt (act_Tokens actual) :: (redisRPMField <$> scopes).

(** ** The reserve script *)

(** A stored counter: [None] when the field holds something else. *)
Definition read_count (ks : Keyspace) (now_ms : Z) (key field : string) : option (option Z) :=
  match HGET ks now_ms key field with
  | None => Some None
  | Some raw =>
      match digits raw with
      | Some count => if (count <? 0) || (redis_maximum <? count) then None else Some (Some count)
      | None => None
      end
  end.

(** The loop over the scopes: field, hard boundary and counter of each. *)
Fixpoint reserve_counters (n : nat) (index : Z) (ks : Keyspace) (now_ms : Z) (key : string) (argv : list string) : counters :=
  match n with
  | O => Read []
  | S n' =>
      match argv with
      | field :: hardText :: softText :: rest =>
          match tonumber hardText, tonumber softText with
          | Some hard, Some soft =>
              if (hard <? 1) || (redis_maximum <? hard) || (soft <? 1) || (hard <? soft) then CorruptAt index
              else match read_count ks now_ms key field with
              | None => CorruptAt index
              | Some count =>
                  match reserve_counters n' (index + 1) ks now_ms key rest with
                  | Read items => Read ((field, hard, default 0 count) :: items)
                  | other => other
                  end
              end
          | _, _ => CorruptAt index
          end
      | _ => CorruptAt index
      end
  end.

Fixpoint first_without_room (requested index : Z) (items : list (string * Z * Z)) : option (Z * Z * Z) :=
  match items with
  | [] => None
  | (_, hard, count) :: rest =>
      if (hard <? requested) || (hard - requested <? count) then Some (index, count, hard)
      else first_without_room requested (index + 1) rest
  end.

(** Adds to every field; an error of HINCRBY leaves the earlier changes. *)
Fixpoint add_all (ks : Keyspace) (now_ms : Z) (key : string) (fields : list string) (n : Z) : Keyspace * option (list Z) :=
  match fields with
  | [] => (ks, Some [])
  | field :: rest =>
      match HINCRBY ks now_ms key field n with
      | None => (ks, None)
      | Some (ks', count) => let '(ks'', counts) := add_all ks' now_ms key rest n in (ks'', cons count <$> counts)
      end
  end.

Definition item_field (item : string * Z * Z) : string := item.1.1.
Definition item_count (item : string * Z * Z) : Z := item.2.

Definition redisTPMReserveScript : Script Keyspace := fun '(seconds, microseconds) ks keys argv =>
  match keys, argv with
  | key :: _, expected :: retention :: reservation_field :: reservation_value :: requestedText :: rest =>
      let now_ms := seconds * 1000 + microseconds / 1000 in
      let server_window := seconds / 60 in
      let reset_ms := (server_window + 1) * 60 * 1000 in
      match tonumber retention with
      | None => (ks, Err ScriptError)
      | Some retention_ms =>
      let expires_ms := reset_ms + retention_ms in
      if negb (bool_decide (tonumber expected = Some server_window))
      then (ks, Ok (RArray [RInt 2; RInt server_window; RInt now_ms; RInt reset_ms]))
      else match tonumber requestedText with
      | None => (ks, Ok (RArray [RInt 3; RInt 0]))
      | Some requested =>
          if (requested <? 1) || (redis_maximum <? requested) then (ks, Ok (RArray [RInt 3; RInt 0]))
          else match reserve_counters 4 1 ks now_ms key rest with
          | Raised => (ks, Err ScriptError)
          | CorruptAt index => (ks, Ok (RArray [RInt 3; RInt index]))
          | Read items =>
              match HGET ks now_ms key reservation_field with
              | Some existing =>
                  if negb (bool_decide (existing = reservation_value)) then (ks, Ok (RArray [RInt 4]))
                  else (ks, Ok (RArray ([RInt 1; RInt server_window; RInt now_ms; RInt reset_ms; RInt expires_ms; RInt 1] ++
                                        (RInt ∘ item_count <$> items))))
              | None =>
                  match first_without_room requested 1 items with
                  | Some (index, count, hard) =>
                      (ks, Ok (RArray [RInt 0; RInt index; RInt count; RInt hard; RInt server_window; RInt now_ms; RInt reset_ms]))
                  | None =>
                      match add_all ks now_ms key (item_field <$> items) requested with
                      | (ks', None) => (ks', Err ScriptError)
                      | (ks', Some counts) =>
                          (PEXPIREAT (HSET ks' now_ms key reservation_field reservation_value) now_ms key expires_ms,
                           Ok (RArray ([RInt 1; RInt server_window; RInt now_ms; RInt reset_ms; RInt expires_ms; RInt 0] ++
                                       (RInt <$> counts))))
                      end
                  end
              end
          end
      end end
  | _, _ => (ks, Err ScriptError)
  end.

(** ** The settle script *)
Fixpoint settle_counters (n : nat) (index : Z) (ks : Keyspace) (now_ms : Z) (key : string) (argv : list string) : counters :=
  match n with
  | O => Read []
  | S n' =>
      match argv with
      | field :: rest =>
          match read_count ks now_ms key field with
          | Some (Some count) =>
              match settle_counters n' (index + 1) ks now_ms key rest with
              | Read items => Read ((field, 0, count) :: items)
              | other => other
              end
          | _ => CorruptAt index
          end
      | [] => CorruptAt index
      end
  end.

Fixpoint first_unsettled (delta index : Z) (items : list (string * Z * Z)) : option Z :=
  match items with
  | [] => None
  | (_, _, count) :: rest =>
      if (delta <? 0) && (count <? - delta) then Some index
      else if (0 <? delta) && (redis_maximum - delta <? count) then Some index
      else first_unsettled delta (index + 1) rest
  end.

Definition settled_reply (now_ms reserved actual idempotent : Z) (counts : list Z) : reply :=
  RArray ([RInt 0; RInt now_ms; RInt reserved; RInt actual; RInt (actual - reserved); RInt idempotent] ++ (RInt <$> counts)).

Definition redisTPMSettleScript : Script Keyspace := fun '(seconds, microseconds) ks keys argv =>
  match keys, argv with
  | key :: _, reservation_field :: pending_value :: settled_value :: reservedText :: actualText :: rest =>
      let now_ms := seconds * 1000 + microseconds / 1000 in
      match HGET ks now_ms key reservation_field with
      | None => (ks, Ok (RArray [RInt 1]))
      | Some existing =>
          if negb (bool_decide (existing = pending_value)) && negb (bool_decide (existing = settled_value))
          then (ks, Ok (RArray [RInt 2]))
          else match tonumber reservedText, tonumber actualText with
          | Some reserved, Some actual =>
              if (reserved <? 1) || (redis_maximum <? reserved) || (actual <? 0) || (redis_maximum <? actual)
              then (ks, Ok (RArray [RInt 3; RInt 0]))
              else match settle_counters 4 1 ks now_ms key rest with
              | Raised => (ks, Err ScriptError)
              | CorruptAt index => (ks, Ok (RArray [RInt 3; RInt index]))
              | Read items =>
                  if bool_decide (existing = settled_value)
                  then (ks, Ok (settled_reply now_ms reserved actual 1 (item_count <$> items)))
                  else match first_unsettled (actual - reserved) 1 items with
                  | Some index => (ks, Ok (RArray [RInt 3; RInt index]))
                  | None =>
                      match add_all ks now_ms key (item_field <$> items) (actual - reserved) with
                      | (ks', None) => (ks', Err ScriptError)
                      | (ks', Some counts) =>
                          (HSET ks' now_ms key reservation_field settled_value, Ok (settled_reply now_ms reserved actual 0 counts))
                      end
                  end
              end
          | _, _ => (ks, Ok (RArray [RInt 3; RInt 0]))
          end
      end
  | _, _ => (ks, Err ScriptError)
  end.

(** ** Replies *)
Record parsedRedisTPMReserve := {
  q_code : Z; q_window : Z; q_nowMS : Z; q_resetMS : Z; q_expiresMS : Z; q_scopeIndex : Z; q_count : Z; q_hard : Z;
  q_idempotent : bool; q_counts : list Z }.

Record parsedRedisTPMSettlement := {
  s_code : Z; s_nowMS : Z; s_delta : Z; s_scopeIndex : Z; s_idempotent : bool; s_counts : list Z }.

Definition reserve_response (code : Z) (times : Z * Z * Z) (expires index count hard : Z) (idempotent : bool) (counts : list Z) :=
  {| q_code := code; q_window := times.1.1; q_nowMS := times.1.2; q_resetMS := times.2; q_expiresMS := expires;
     q_scopeIndex := index; q_count := count; q_hard := hard; q_idempotent := idempotent; q_counts := counts |}.

(** [assignRedisTPMReserveTime] checks the three times as the request limiter does, and
    the expiry when there is one. *)
Definition assignRedisTPMReserveTime (windowValue nowValue resetValue : reply) (expiresValue : option reply) : option (Z * Z * Z * Z) :=
  times ← assignRedisRPMTimeFields windowValue nowValue resetValue;
  match expiresValue with
  | None => Some (times, 0)
  | Some v => expires ← redisRPMInt64 v; if expires <=? times.2 then None else Some (times, expires)
  end.

Definition flag (v : reply) : option bool :=
  z ← redisRPMInt64 v; if z =? 0 then Some false else if z =? 1 then Some true else None.

Definition assignRedisTPMDenial (requested : Z) (values : list reply) : option parsedRedisTPMReserve :=
  match values with
  | [i; c; h; w; n; r] =>
      index ← redisRPMInt64 i; count ← redisRPMUint64 c; hard ← redisRPMUint64 h;
      if negb (index_ok index) || (hard =? 0) || (MaximumValue <? hard) || negb (exceeds count requested hard) then None
      else times ← assignRedisTPMReserveTime w n r None; Some (reserve_response 0 times.1 0 (index - 1) count hard false [])
  | _ => None
  end.

Definition assignRedisTPMAllowed (values : list reply) : option parsedRedisTPMReserve :=
  match values with
  | [w; n; r; e; i; c1; c2; c3; c4] =>
      times ← assignRedisTPMReserveTime w n r (Some e); idempotent ← flag i; counts ← mapM allowed_count [c1; c2; c3; c4];
      Some (reserve_response 1 times.1 times.2 0 0 0 idempotent counts)
  | _ => None
  end.

Definition assignRedisTPMCorrupt (values : list reply) : option Z :=
  match values with
  | [i] => index ← redisRPMInt64 i; if (index <? 0) || (Z.of_nat requiredScopeCount <? index) then None else Some (index - 1)
  | _ => None
  end.

Definition or_protocol {A : Type} (o : option A) : result A redis_tpm_error :=
  match o with Some a => Ok a | None => Err ErrRedisTPMProtocol end.

Definition parseRedisTPMReserveResponse (raw : reply) (requested : Z) : result parsedRedisTPMReserve redis_tpm_error :=
  match raw with
  | RArray (c :: values) =>
      or_protocol match redisRPMInt64 c with
      | Some 2 =>
          match values with
          | [w; n; r] => times ← assignRedisTPMReserveTime w n r None; Some (reserve_response 2 times.1 0 0 0 0 false [])
          | _ => None
          end
      | Some 0 => assignRedisTPMDenial requested values
      | Some 1 => assignRedisTPMAllowed values
      | Some 3 => index ← assignRedisTPMCorrupt values; Some (reserve_response 3 (0, 0, 0) 0 index 0 0 false [])
      | Some 4 => match values with [] => Some (reserve_response 4 (0, 0, 0) 0 0 0 0 false []) | _ => None end
      | _ => None
      end
  | _ => Err ErrRedisTPMProtocol
  end.

Definition redisTPMDelta (reserved actual : Z) : option Z :=
  if reserved <=? actual
  then let difference := actual - reserved in if MaximumValue <? difference then None else Some difference
  else let difference := reserved - actual in if MaximumValue <? difference then None else Some (- difference).

Definition settled_count (v : reply) : option Z := count ← redisRPMUint64 v; if MaximumValue <? count then None else Some count.

Definition settle_response (code nowMS delta index : Z) (idempotent : bool) (counts : list Z) :=
  {| s_code := code; s_nowMS := nowMS; s_delta := delta; s_scopeIndex := index; s_idempotent := idempotent; s_counts := counts |}.

Definition assignRedisTPMSettlement (values : list reply) (handle : RedisTPMHandle) (actual : TPMActual) : option parsedRedisTPMSettlement :=
  match values with
  | [n; r; a; d; i; c1; c2; c3; c4] =>
      now ← redisRPMInt64 n; reserved ← redisRPMUint64 r; echoedActual ← redisRPMUint64 a; delta ← redisRPMInt64 d;
      wantDelta ← redisTPMDelta (hd_ReservedTokens handle) (act_Tokens actual);
      if (now <? 0) || negb (reserved =? hd_ReservedTokens handle) || negb (echoedActual =? act_Tokens actual) || negb (delta =? wantDelta)
      then None
      else idempotent ← flag i; counts ← mapM settled_count [c1; c2; c3; c4]; Some (settle_response 0 now delta 0 idempotent counts)
  | _ => None
  end.

Definition parseRedisTPMSettleResponse (raw : reply) (handle : RedisTPMHandle) (actual : TPMActual)
    : result parsedRedisTPMSettlement redis_tpm_error :=
  match raw with
  | RArray (c :: values) =>
      or_protocol match redisRPMInt64 c with
      | Some 0 => assignRedisTPMSettlement values handle actual
      | Some 1 => match values with [] => Some (settle_response 1 0 0 0 false []) | _ => None end
      | Some 2 => match values with [] => Some (settle_response 2 0 0 0 false []) | _ => None end
      | Some 3 => index ← assignRedisTPMCorrupt values; Some (settle_response 3 0 0 index false [])
      | _ => None
      end
  | _ => Err ErrRedisTPMProtocol
  end.

(** ** Results *)
Definition deniedRedisTPMReservation (key : string) (request : RedisTPMReserveRequest) (scoped : list (Scope * Effective))
    (p : parsedRedisTPMReserve) : result RedisTPMReservation redis_tpm_error :=
  match scoped !! Z.to_nat (q_scopeIndex p) with
  | None => Err ErrRedisTPMProtocol
  | Some (scope, policy) =>
      ensure (q_hard p =? eff_Hard (eff_TPM policy)) else ErrRedisTPMProtocol in
      let serverTime := UnixMilli (q_nowMS p) in
      let resetAt := UnixMilli (q_resetMS p) in
      Ok {| rv_Handle := empty_handle; rv_WindowKey := key; rv_ServerTime := serverTime; rv_ResetAt := resetAt; rv_ExpiresAt := None;
            rv_Counts := []; rv_Idempotent := false;
            rv_Rejection := Some {| tj_Scope := scope; tj_Count := q_count p; tj_Requested := plan_ReservedTokens (rr_Plan request);
              tj_Hard := q_hard p; tj_RetryAfter := Z.max (time_sub resetAt serverTime) 0; tj_ResetAt := resetAt |} |}
  end.

Fixpoint tpm_allowed_counts (idempotent : bool) (scoped : list (Scope * Effective)) (counts : list Z)
    : result (list RedisTPMCount) redis_tpm_error :=
  match scoped, counts with
  | (scope, policy) :: scoped', count :: counts' =>
      ensure (idempotent || (count <=? eff_Hard (eff_TPM policy))) else ErrRedisTPMProtocol in
      let? rest := tpm_allowed_counts idempotent scoped' counts' in
      Ok ({| tc_Scope := scope; tc_Count := count; tc_Soft := eff_Soft (eff_TPM policy);
             tc_SoftExceeded := eff_Soft (eff_TPM policy) <? count |} :: rest)
  | _, _ => Ok []
  end.

Definition allowedRedisTPMReservation (key : string) (request : RedisTPMReserveRequest) (scoped : list (Scope * Effective))
    (p : parsedRedisTPMReserve) : result RedisTPMReservation redis_tpm_error :=
  let? counts := tpm_allowed_counts (q_idempotent p) scoped (q_counts p) in
  Ok {| rv_Handle := {| hd_ReservationID := rr_ReservationID request; hd_Window := q_window p; hd_Scopes := scoped.*1;
          hd_ReservedTokens := plan_ReservedTokens (rr_Plan request) |};
        rv_WindowKey := key; rv_ServerTime := UnixMilli (q_nowMS p); rv_ResetAt := UnixMilli (q_resetMS p);
        rv_ExpiresAt := Some (UnixMilli (q_expiresMS p)); rv_Counts := counts; rv_Idempotent := q_idempotent p; rv_Rejection := None |}.

Definition redisTPMSettlement (key : string) (handle : RedisTPMHandle) (scopes : list Scope) (actual : TPMActual)
    (p : parsedRedisTPMSettlement) : RedisTPMSettlement :=
  {| st_Handle := handle; st_WindowKey := key; st_ServerTime := UnixMilli (s_nowMS p); st_Actual := actual;
     st_ReleasedTokens := if s_delta p <? 0 then - s_delta p else 0; st_OverageTokens := if s_delta p <? 0 then 0 else s_delta p;
     st_Counts := zip_with (fun scope count => {| tc_Scope := scope; tc_Count := count; tc_Soft := 0; tc_SoftExceeded := false |})
                    scopes (s_counts p);
     st_Idempotent := s_idempotent p |}.

Definition validateRedisTPMHandle (handle : RedisTPMHandle) : result (list Scope) redis_tpm_error :=
  ensure (validTPMReservationID (hd_ReservationID handle) && (0 <=? hd_Window handle) && negb (hd_ReservedTokens handle =? 0) &&
          (hd_ReservedTokens handle <=? MaximumValue)) else ErrInvalidTPMInput in
  match normalizeScopes (hd_Scopes handle) with Ok scopes => Ok scopes | Err _ => Err ErrInvalidTPMInput end.

(** ** ReserveTPM and SettleTPM *)
Section client.
Context {E : Type} `{RedisEvaluator Keyspace E} (sha256hex : string -> string).

Fixpoint tpm_reserve_loop (fuel : nat) (e : E) (ctx : Context) (limiter : RedisTPMLimiter) (request : RedisTPMReserveRequest)
    (scoped : list (Scope * Effective)) (window : Z) : E * result RedisTPMReservation redis_tpm_error :=
  match fuel with
  | O => (e, Err ErrRedisTPMClockBoundary)
  | S fuel' =>
      let key := tpm_windowKey limiter window in
      match Eval e ctx redisTPMReserveScript [key]
              (redisTPMReserveArguments window (tl_retentionMS limiter) (rr_ReservationID request)
                 (redisScopeFingerprint sha256hex scoped.*1) (plan_ReservedTokens (rr_Plan request)) scoped) with
      | (e', Err cause) => (e', Err (ErrTPMEval cause))
      | (e', Ok raw) =>
          match parseRedisTPMReserveResponse raw (plan_ReservedTokens (rr_Plan request)) with
          | Err err => (e', Err err)
          | Ok response =>
              if q_code response =? 2 then tpm_reserve_loop fuel' e' ctx limiter request scoped (q_window response)
              else (e',
                if q_code response =? 0 then
                  if negb (q_window response =? window) then Err ErrRedisTPMProtocol
                  else deniedRedisTPMReservation key request scoped response
                else if q_code response =? 1 then
                  if negb (q_window response =? window) || (i64_max - tl_retentionMS limiter <? q_resetMS response) ||
                     negb (q_expiresMS response =? q_resetMS response + tl_retentionMS limiter)
                  then Err ErrRedisTPMProtocol
                  else allowedRedisTPMReservation key request scoped response
                else if q_code response =? 3 then Err ErrRedisTPMProtocol
                else if q_code response =? 4 then Err ErrRedisTPMReservationConflict
                else Err ErrRedisTPMProtocol)
          end
      end
  end.

Definition ReserveTPM (e : E) (limiter : RedisTPMLimiter) (ctx : Context) (request : RedisTPMReserveRequest) (now : Time)
    : E * result RedisTPMReservation redis_tpm_error :=
  match ctx with
  | ctx_nil => (e, Err ErrInvalidTPMInput)
  | _ =>
      if negb (validTPMReservationID (rr_ReservationID request)) || negb (plan_validate (rr_Plan request)) then (e, Err ErrInvalidTPMInput)
      else match normalizeRPMBindings (rr_Bindings request) with
      | Err err => (e, Err (ErrTPMBindings err))
      | Ok scoped => tpm_reserve_loop (Z.to_nat (tl_clockRetries limiter)) e ctx limiter request scoped (local_window now)
      end
  end.

Definition SettleTPM (e : E) (limiter : RedisTPMLimiter) (ctx : Context) (handle : RedisTPMHandle) (actual : TPMActual)
    : E * result RedisTPMSettlement redis_tpm_error :=
  match ctx with
  | ctx_nil => (e, Err ErrInvalidTPMInput)
  | _ =>
      if negb (actual_validate actual) then (e, Err ErrInvalidTPMInput)
      else match validateRedisTPMHandle handle with
      | Err err => (e, Err err)
      | Ok scopes =>
          let key := tpm_windowKey limiter (hd_Window handle) in
          match Eval e ctx redisTPMSettleScript [key]
                  (redisTPMSettleArguments handle actual (redisScopeFingerprint sha256hex scopes) scopes) with
          | (e', Err cause) => (e', Err (ErrTPMEval cause))
          | (e', Ok raw) =>
              (e',
               match parseRedisTPMSettleResponse raw handle actual with
               | Err err => Err err
               | Ok response =>
                   if s_code response =? 0 then Ok (redisTPMSettlement key handle scopes actual response)
                   else if s_code response =? 1 then Err ErrRedisTPMReservationExpired
                   else if s_code response =? 2 then Err ErrRedisTPMReservationConflict
                   else Err ErrRedisTPMProtocol
               end)
          end
      end
  end.
End client.
