(* ===== verification/RedisTPMTheorems.v ===== *)
(** * The distributed token limit holds (src/internal/limits/redis_tpm.go)

    Every gateway of a fleet evaluates the reserve and settle scripts against the same
    Redis. A fleet state records the keyspace, the last server time and a ledger of
    the reservations granted, each with the tokens it reserved and, once settled, the
    tokens it used. The stored counters are the sums of that ledger.

    Then: a fleet of gateways sharing the token limit. *)
From Stdlib Require Import ZArith Lia Bool Ascii String DecimalString.
From stdpp Require Import base tactics option list strings gmap fin_maps sets relations.
From S2P Require Import Prelude Identifiers Retry Metering TPM LimitPolicy LocalLimiter Redis RedisRPM RedisRPMTheorems RedisTPM.
(** ** Separated text *)
Definition without (c : ascii) : string -> bool := all_chars (fun a => negb (Ascii.eqb a c)).

Lemma split_unique c a : forall b x y,
  without c a = true -> without c b = true -> a +:+ String c x = b +:+ String c y -> a = b /\ x = y.
Proof.
  induction a as [|h a IH]; intros [|h' b] x y Ha Hb H; unfold without in *; simpl in *; simplify_eq; prop_hyps;
    rewrite ?Ascii.eqb_refl in *; try done.
  by destruct (IH b x y) as [-> ->].
Qed.

Lemma without_app c a b : without c (a +:+ b) = without c a && without c b.
Proof.
  unfold without. induction a as [|h a IH]; [done|]. change (String h a +:+ b) with (String h (a +:+ b)). cbn [all_chars].
  by rewrite IH, andb_assoc.
Qed.

Lemma string_of_uint_digits d : without ":" (NilEmpty.string_of_uint d) = true.
Proof. induction d; simpl; done. Qed.

Lemma FormatInt_no_colon z : without ":" (FormatInt z) = true.
Proof.
  unfold FormatInt, NilZero.string_of_int, NilZero.string_of_uint. destruct (Z.to_int z) as [[] | []]; simpl; try done; apply string_of_uint_digits.
Qed.

Lemma match_classes_without c cs : forall s, Forall (fun k : char_class => k c = false) cs -> match_classes cs s = true -> without c s = true.
Proof.
  induction cs as [|k cs IH]; intros [|a s] Hc H; simpl in *; try done. apply Forall_cons in Hc as [Hk Hc]. prop_hyps. apply andb_true_iff.
  split; [|by apply IH]. apply negb_true_iff. destruct (Ascii.eqb_spec a c); [congruence|done].
Qed.

Lemma uuid_no_nul s : uuidPattern s = true -> without "000" s = true.
Proof. apply match_classes_without. repeat (apply Forall_cons; split; [reflexivity|]). apply Forall_nil_2. Qed.

Lemma field_no_nul s : Scope_Validate s = true -> without "000" (redisRPMField s) = true.
Proof.
  unfold Scope_Validate, redisRPMField. destruct (Kind s); intros H; try done; prop_hyps;
    rewrite ?without_app; repeat match goal with H : uuidPattern _ = true |- _ => rewrite (uuid_no_nul _ H); clear H end; done.
Qed.

Lemma join_fields_inj c1 : forall c2, Forall (fun s => Scope_Validate s = true) c1 -> Forall (fun s => Scope_Validate s = true) c2 ->
  length c1 = length c2 -> join_fields c1 = join_fields c2 -> c1 = c2.
Proof.
  induction c1 as [|s1 c1 IH]; intros [|s2 c2] H1 H2 Hl H; try done.
  apply Forall_cons in H1 as [Hs1 H1]. apply Forall_cons in H2 as [Hs2 H2]. injection Hl as Hl.
  destruct c1 as [|s1' c1], c2 as [|s2' c2]; try done.
  - f_equal. by apply redisRPMField_inj.
  - change (redisRPMField s1 +:+ String "000" (join_fields (s1' :: c1)) = redisRPMField s2 +:+ String "000" (join_fields (s2' :: c2))) in H.
    apply split_unique in H as [Hf Hj]; [|by apply field_no_nul..]. f_equal; [by apply redisRPMField_inj|by apply IH].
Qed.

Lemma pending_inj r r' fp fp' : redisTPMPendingValue r fp = redisTPMPendingValue r' fp' -> r = r' /\ fp = fp'.
Proof.
  unfold redisTPMPendingValue. intros H. apply (append_cancel "r:") in H.
  apply (split_unique ":") in H as [Hr ->]; [|apply FormatInt_no_colon..]. split; [by apply FormatInt_inj|done].
Qed.

Lemma settled_inj r r' a a' fp fp' : redisTPMSettledValue r a fp = redisTPMSettledValue r' a' fp' -> r = r' /\ a = a' /\ fp = fp'.
Proof.
  unfold redisTPMSettledValue. intros H. apply (append_cancel "s:") in H.
  apply (split_unique ":") in H as [Hr H]; [|apply FormatInt_no_colon..].
  apply (split_unique ":") in H as [Ha ->]; [|apply FormatInt_no_colon..]. split_and!; [by apply FormatInt_inj..|done].
Qed.

Lemma pending_not_settled r r' a fp fp' : redisTPMPendingValue r fp <> redisTPMSettledValue r' a fp'.
Proof. done. Qed.

Lemma reservation_field_inj a b : redisTPMReservationField a = redisTPMReservationField b -> a = b.
Proof. apply append_cancel. Qed.

Lemma reservation_not_scope id s : Scope_Validate s = true -> redisTPMReservationField id <> redisRPMField s.
Proof. unfold Scope_Validate, redisRPMField. destruct (Kind s); try done. Qed.

Lemma tpm_windowKey_inj l w1 w2 : tpm_windowKey l w1 = tpm_windowKey l w2 -> w1 = w2.
Proof. unfold tpm_windowKey. intros H. apply append_cancel in H. by apply (append_cancel ":"), FormatInt_inj in H. Qed.

(** ** Live hashes *)
Definition fields_at (ks : Keyspace) (now : Z) (key : string) : gmap string string := h_fields (live_hash ks now key).

Lemma HGET_fields ks now key f : HGET ks now key f = fields_at ks now key !! f.
Proof. unfold HGET, fields_at, live_hash. destruct (hash_at ks now key); simpl; [done|by rewrite lookup_empty]. Qed.

Lemma live_HSET ks now key f v :
  live_hash (HSET ks now key f v) now key =
  {| h_fields := <[f := v]> (fields_at ks now key); h_expires := h_expires (live_hash ks now key) |}.
Proof. unfold live_hash at 1. by rewrite hash_at_HSET. Qed.

(** The counter of a field. *)
Definition holds (fs : gmap string string) (f : string) (c : Z) : Prop :=
  0 <= c <= exact_max /\ match fs !! f with Some raw => raw = FormatInt c | None => c = 0 end.

Lemma counts_holds ks now key f c : counts ks now key f c <-> holds (fields_at ks now key) f c.
Proof. unfold counts, holds. by rewrite HGET_fields. Qed.

(** [add_all] adds [n] to every counter, keeps the expiry and touches nothing else. *)
Lemma add_all_spec now key n (c : string -> Z) fields : forall ks,
  Forall (fun f => holds (fields_at ks now key) f (c f) /\ 0 <= c f + n <= exact_max) fields -> NoDup fields ->
  exists ks', add_all ks now key fields n = (ks', Some ((fun f => c f + n) <$> fields)) /\
    (forall f, fields_at ks' now key !! f = if decide (f ∈ fields) then Some (FormatInt (c f + n)) else fields_at ks now key !! f) /\
    h_expires (live_hash ks' now key) = h_expires (live_hash ks now key) /\ (forall key', key' <> key -> ks' !! key' = ks !! key').
Proof.
  induction fields as [|f fields IH]; intros ks Hc Hnd.
  { by exists ks. }
  apply Forall_cons in Hc as [[Hf Hb] Hc]. apply NoDup_cons in Hnd as [Hnin Hnd]. cbn [add_all].
  rewrite (HINCRBY_spec _ _ _ _ (c f)) by (by apply counts_holds || (unfold exact_max, i64_min, i64_max in *; lia)).
  set (ks1 := HSET ks now key f (FormatInt (c f + n))).
  assert (H1 : forall f', fields_at ks1 now key !! f' = if decide (f' = f) then Some (FormatInt (c f + n)) else fields_at ks now key !! f').
  { intros f'. unfold ks1, fields_at at 1. rewrite live_HSET. simpl. destruct (decide (f' = f)) as [->|]; [by rewrite lookup_insert_eq|].
    by rewrite lookup_insert_ne. }
  destruct (IH ks1) as (ks2 & E & Hl & He & Hk); [|done|].
  { rewrite Forall_forall in *. intros f' Hf'. destruct (Hc f' Hf') as [[? Hh] ?]. split; [|done]. split; [done|].
    rewrite H1. destruct (decide (f' = f)) as [->|]; done. }
  exists ks2. rewrite E. split_and!; [done|..].
  - intros f'. rewrite Hl, H1. destruct (decide (f' ∈ fields)) as [Hin|Hout].
    + by rewrite decide_True by (by right).
    + destruct (decide (f' = f)) as [->|Hne]; [by rewrite decide_True by (by left)|].
      rewrite decide_False; [done|]. by rewrite not_elem_of_cons.
  - rewrite He. unfold ks1. by rewrite live_HSET.
  - intros key' Hne. rewrite Hk by done. unfold ks1. by apply HSET_other_key.
Qed.

(** ** The loops of the scripts *)
Notation tpm_hard policy := (eff_Hard (eff_TPM policy)).

(** The number a field counts; an absent field counts nothing. *)
Definition count_of (fs : gmap string string) (f : string) : Z := default 0 (fs !! f ≫= digits).
Definition canonical (fs : gmap string string) (f : string) : Prop := holds fs f (count_of fs f).

Lemma holds_count fs f c : holds fs f c -> count_of fs f = c.
Proof. intros [Hb H]. unfold count_of. destruct (fs !! f); simpl; [subst; rewrite digits_FormatInt by lia; done|by subst]. Qed.

Lemma holds_canonical fs f c : holds fs f c -> canonical fs f.
Proof. intros H. unfold canonical. by rewrite (holds_count _ _ _ H). Qed.

Lemma read_count_canonical ks now key f :
  canonical (fields_at ks now key) f ->
  read_count ks now key f = Some (if fields_at ks now key !! f then Some (count_of (fields_at ks now key) f) else None).
Proof.
  intros [Hb H]. unfold read_count. rewrite HGET_fields. destruct (fields_at ks now key !! f) as [raw|]; [|done].
  unfold exact_max in Hb. rewrite H, digits_FormatInt by lia. unfold redis_maximum.
  set (c := count_of _ _) in *. by destruct (Z.ltb_spec c 0), (Z.ltb_spec 9007199254740991 c); try lia.
Qed.

Lemma count_default fs f : default 0 (if fs !! f then Some (count_of fs f) else None) = count_of fs f.
Proof. unfold count_of. by destruct (fs !! f). Qed.

Definition tpm_item (fs : gmap string string) (sp : Scope * Effective) : string * Z * Z := (field sp, tpm_hard sp.2, count_of fs (field sp)).
Definition valid_scoped (scoped : list (Scope * Effective)) : Prop :=
  Forall (fun sp => Scope_Validate sp.1 = true /\ Effective_Validate sp.2 = true) scoped.

Lemma tpm_limits p : Effective_Validate p = true -> 1 <= eff_Soft (eff_TPM p) <= tpm_hard p /\ tpm_hard p <= exact_max.
Proof.
  unfold Effective_Validate. simpl. intros H. prop_hyps. unfold threshold_valid, validValue, MaximumValue, exact_max in *. prop_hyps. lia.
Qed.

Lemma reserve_counters_spec ks now key scoped : forall index,
  valid_scoped scoped -> Forall (fun sp => canonical (fields_at ks now key) (field sp)) scoped ->
  reserve_counters (length scoped) index ks now key (tpm_scope_arguments scoped) = Read (tpm_item (fields_at ks now key) <$> scoped).
Proof.
  induction scoped as [|[s p] scoped IH]; intros index Hv Hc; [done|].
  apply Forall_cons in Hv as [[_ Hp] Hv]. apply Forall_cons in Hc as [Hs Hc]. cbn [length reserve_counters tpm_scope_arguments].
  rewrite !tonumber_FormatInt. destruct (tpm_limits p Hp). unfold redis_maximum. unfold exact_max in *.
  destruct (Z.ltb_spec (tpm_hard p) 1), (Z.ltb_spec 9007199254740991 (tpm_hard p)), (Z.ltb_spec (eff_Soft (eff_TPM p)) 1),
    (Z.ltb_spec (tpm_hard p) (eff_Soft (eff_TPM p))); try lia. cbn [orb].
  change (redisRPMField s) with (field (s, p)). rewrite read_count_canonical, IH by done. by rewrite fmap_cons, count_default.
Qed.

Definition fits_in (fs : gmap string string) (requested : Z) (scoped : list (Scope * Effective)) : Prop :=
  Forall (fun sp => count_of fs (field sp) + requested <= tpm_hard sp.2) scoped.

#[export] Instance fits_in_dec fs requested scoped : base.Decision (fits_in fs requested scoped).
Proof. unfold fits_in. apply _. Defined.

Lemma no_room_iff fs requested p s : canonical fs (field (s, p)) ->
  (tpm_hard p <? requested) || (tpm_hard p - requested <? count_of fs (field (s, p))) = negb (count_of fs (field (s, p)) + requested <=? tpm_hard p).
Proof.
  intros [Hb _]. destruct (Z.ltb_spec (tpm_hard p) requested), (Z.ltb_spec (tpm_hard p - requested) (count_of fs (field (s, p)))),
    (Z.leb_spec (count_of fs (field (s, p)) + requested) (tpm_hard p)); simpl; try done; lia.
Qed.

Lemma first_without_room_spec fs requested scoped : forall index,
  Forall (fun sp => canonical fs (field sp)) scoped ->
  if decide (fits_in fs requested scoped) then first_without_room requested index (tpm_item fs <$> scoped) = None
  else exists j s p, first_without_room requested index (tpm_item fs <$> scoped) =
      Some (index + Z.of_nat j, count_of fs (field (s, p)), tpm_hard p) /\
    scoped !! j = Some (s, p) /\ tpm_hard p < count_of fs (field (s, p)) + requested.
Proof.
  induction scoped as [|[s p] scoped IH]; intros index Hc; [by rewrite decide_True by apply Forall_nil_2|].
  apply Forall_cons in Hc as [Hs Hc]. rewrite fmap_cons. cbn [first_without_room tpm_item snd]. rewrite no_room_iff by done.
  specialize (IH (index + 1) Hc). destruct (Z.leb_spec (count_of fs (field (s, p)) + requested) (tpm_hard p)); cbn [negb].
  - destruct (decide (fits_in fs requested scoped)) as [Hf|Hf].
    + by rewrite decide_True by (apply Forall_cons; done).
    + rewrite decide_False by (intros [_ ?]%Forall_cons; done). destruct IH as (j & s' & p' & E & Hj & Hle). exists (S j), s', p'.
      rewrite E. split_and!; [do 3 f_equal; lia|done|done].
  - rewrite decide_False by (intros [? _]%Forall_cons; simpl in *; lia). exists 0%nat, s, p. split_and!; [do 3 f_equal; lia|done|lia].
Qed.

Lemma settle_counters_spec ks now key scopes : forall index,
  Forall (fun s => canonical (fields_at ks now key) (redisRPMField s) /\ is_Some (fields_at ks now key !! redisRPMField s)) scopes ->
  settle_counters (length scopes) index ks now key (redisRPMField <$> scopes) =
  Read ((fun s => (redisRPMField s, 0, count_of (fields_at ks now key) (redisRPMField s))) <$> scopes).
Proof.
  induction scopes as [|s scopes IH]; intros index Hc; [done|]. apply Forall_cons in Hc as [[Hs [raw Hraw]] Hc].
  rewrite !fmap_cons. cbn [length settle_counters]. rewrite read_count_canonical, Hraw by done. by rewrite IH.
Qed.

Lemma first_unsettled_None fs delta scopes : forall index,
  Forall (fun s => 0 <= count_of fs (redisRPMField s) + delta <= exact_max) scopes ->
  first_unsettled delta index ((fun s => (redisRPMField s, 0, count_of fs (redisRPMField s))) <$> scopes) = None.
Proof.
  induction scopes as [|s scopes IH]; intros index Hc; [done|]. apply Forall_cons in Hc as [Hs Hc].
  rewrite fmap_cons. cbn [first_unsettled]. unfold redis_maximum. unfold exact_max in Hs.
  destruct (Z.ltb_spec delta 0), (Z.ltb_spec (count_of fs (redisRPMField s)) (- delta)), (Z.ltb_spec 0 delta),
    (Z.ltb_spec (9007199254740991 - delta) (count_of fs (redisRPMField s))); simpl; try lia; by apply IH.
Qed.

Lemma first_unsettled_Some fs delta scopes : forall index, 
  Forall (fun s => canonical fs (redisRPMField s)) scopes ->
  ~ Forall (fun s => 0 <= count_of fs (redisRPMField s) + delta <= exact_max) scopes ->
  exists j, first_unsettled delta index ((fun s => (redisRPMField s, 0, count_of fs (redisRPMField s))) <$> scopes) = Some (index + Z.of_nat j) /\
    (j < length scopes)%nat.
Proof.
  induction scopes as [|s scopes IH]; intros index Hcan Hn; [by destruct Hn|]. apply Forall_cons in Hcan as [[Hs _] Hcan].
  rewrite fmap_cons. cbn [first_unsettled]. unfold redis_maximum. unfold exact_max in *.
  destruct (decide (0 <= count_of fs (redisRPMField s) + delta <= 9007199254740991)) as [Hok|Hbad].
  - destruct (Z.ltb_spec delta 0), (Z.ltb_spec (count_of fs (redisRPMField s)) (- delta)), (Z.ltb_spec 0 delta),
      (Z.ltb_spec (9007199254740991 - delta) (count_of fs (redisRPMField s))); simpl; try lia;
      (destruct (IH (index + 1)) as (j & E & Hj); [done|intros Hall; apply Hn; by apply Forall_cons|]); exists (S j); rewrite E; (split; [f_equal; lia|simpl; lia]).
  - exists 0%nat. split; [|simpl; lia]. destruct (Z.ltb_spec delta 0), (Z.ltb_spec (count_of fs (redisRPMField s)) (- delta)), (Z.ltb_spec 0 delta),
      (Z.ltb_spec (9007199254740991 - delta) (count_of fs (redisRPMField s))); simpl; try lia; f_equal; lia.
Qed.

(** ** One run of the reserve script *)
Definition reserve_times (clock : Clock) (retention : Z) : list reply := times_reply clock ++ [RInt (reset_ms clock + retention)].
Definition reserved_reply (clock : Clock) (retention idempotent : Z) (counts : list Z) : reply :=
  RArray (RInt 1 :: reserve_times clock retention ++ RInt idempotent :: (RInt <$> counts)).

(** What the script answers and writes. [fs] are the fields stored for the minute. *)
Inductive reserve_outcome (clock : Clock) (ks : Keyspace) (l : RedisTPMLimiter) (id pending : string) (requested : Z)
    (scoped : list (Scope * Effective)) (w : Z) (fs : gmap string string) : Keyspace -> result reply eval_error -> Prop :=
| reserve_mismatch : w <> minute_of clock -> reserve_outcome clock ks l id pending requested scoped w fs ks (Ok (mismatch_reply clock))
| reserve_conflict v : w = minute_of clock -> fs !! redisTPMReservationField id = Some v -> v <> pending ->
    reserve_outcome clock ks l id pending requested scoped w fs ks (Ok (RArray [RInt 4]))
| reserve_replayed : w = minute_of clock -> fs !! redisTPMReservationField id = Some pending ->
    reserve_outcome clock ks l id pending requested scoped w fs ks
      (Ok (reserved_reply clock (tl_retentionMS l) 1 ((fun sp => count_of fs (field sp)) <$> scoped)))
| reserve_denied j s p : w = minute_of clock -> fs !! redisTPMReservationField id = None -> scoped !! j = Some (s, p) ->
    tpm_hard p < count_of fs (field (s, p)) + requested ->
    reserve_outcome clock ks l id pending requested scoped w fs ks (Ok (denied_reply clock j (count_of fs (field (s, p))) (tpm_hard p)))
| reserve_granted fs' : w = minute_of clock -> fs !! redisTPMReservationField id = None -> fits_in fs requested scoped ->
    (forall f, fs' !! f = if decide (f = redisTPMReservationField id) then Some pending
                          else if decide (f ∈ (field <$> scoped)) then Some (FormatInt (count_of fs f + requested)) else fs !! f) ->
    reserve_outcome clock ks l id pending requested scoped w fs
      (<[tpm_windowKey l w := {| h_fields := fs'; h_expires := Some (reset_ms clock + tl_retentionMS l) |}]> ks)
      (Ok (reserved_reply clock (tl_retentionMS l) 0 ((fun sp => count_of fs (field sp) + requested) <$> scoped))).

Lemma fits_in_bounds fs requested scoped :
  valid_scoped scoped -> Forall (fun sp => canonical fs (field sp)) scoped -> 1 <= requested -> fits_in fs requested scoped ->
  Forall (fun f => holds fs f (count_of fs f) /\ 0 <= count_of fs f + requested <= exact_max) (field <$> scoped).
Proof.
  intros Hv Hc Hr Hf. unfold fits_in, valid_scoped in *. rewrite Forall_fmap. rewrite Forall_forall in *. intros sp Hsp. simpl.
  specialize (Hc sp Hsp). specialize (Hf sp Hsp). destruct (Hv sp Hsp) as [_ Hp%tpm_limits]. split; [exact Hc|]. destruct Hc. lia.
Qed.

Lemma reserve_script clock ks l id fp requested scoped w ks' r :
  let key := tpm_windowKey l w in let fs := fields_at ks (time_ms clock) key in
  clock_ok clock -> 1 <= requested <= exact_max -> length scoped = 4%nat -> valid_scoped scoped -> NoDup (field <$> scoped) ->
  (w = minute_of clock -> Forall (fun sp => canonical fs (field sp)) scoped) ->
  redisTPMReserveScript clock ks [key] (redisTPMReserveArguments w (tl_retentionMS l) id fp requested scoped) = (ks', r) ->
  reserve_outcome clock ks l id (redisTPMPendingValue requested fp) requested scoped w fs ks' r.
Proof.
  intros key fs Hclock Hreq Hl Hv Hnd Hc. destruct clock as [sec us]. unfold redisTPMReserveScript, redisTPMReserveArguments.
  change (sec / 60) with (minute_of (sec, us)). change (sec * 1000 + us / 1000) with (time_ms (sec, us)) in *. rewrite !tonumber_FormatInt.
  destruct (decide (w = minute_of (sec, us))) as [Hw|Hw].
  2: { rewrite bool_decide_eq_false_2 by congruence. cbn [negb]. intros [= <- <-]. by apply reserve_mismatch. }
  specialize (Hc Hw). rewrite bool_decide_eq_true_2 by congruence. cbn [negb]. unfold redis_maximum. unfold exact_max in Hreq.
  destruct (Z.ltb_spec requested 1), (Z.ltb_spec 9007199254740991 requested); try lia. cbn [orb]. replace 4%nat with (length scoped) by done.
  rewrite reserve_counters_spec by done. fold key fs. rewrite HGET_fields. fold fs.
  destruct (fs !! redisTPMReservationField id) as [v|] eqn:Ev.
  - destruct (decide (v = redisTPMPendingValue requested fp)) as [->|Hne].
    + rewrite bool_decide_eq_true_2 by done. cbn [negb]. intros [= <- <-].
      replace (RInt ∘ item_count <$> (tpm_item fs <$> scoped)) with (RInt <$> ((fun sp => count_of fs (field sp)) <$> scoped))
        by (by rewrite <- !list_fmap_compose). by apply reserve_replayed.
    + rewrite bool_decide_eq_false_2 by done. cbn [negb]. intros [= <- <-]. by apply (reserve_conflict _ _ _ _ _ _ _ _ _ v).
  - pose proof (first_without_room_spec fs requested scoped 1 Hc) as Hroom. destruct (decide (fits_in fs requested scoped)) as [Hfit|Hfit].
    + rewrite Hroom. destruct (add_all_spec (time_ms (sec, us)) key requested (count_of fs) (field <$> scoped) ks) as (ks1 & E & Hfs & He & Hk);
        [apply fits_in_bounds; (done || lia)|done|].
      replace (item_field <$> (tpm_item fs <$> scoped)) with (field <$> scoped) by (by rewrite <- list_fmap_compose).
      rewrite E. intros [= <- <-]. unfold PEXPIREAT. rewrite hash_at_HSET. cbn [h_fields].
      assert (Hks : <[key:={| h_fields := <[redisTPMReservationField id := redisTPMPendingValue requested fp]> (h_fields (live_hash ks1 (time_ms (sec, us)) key));
                             h_expires := Some (reset_ms (sec, us) + tl_retentionMS l) |}]>
                  (HSET ks1 (time_ms (sec, us)) key (redisTPMReservationField id) (redisTPMPendingValue requested fp)) =
                <[key:={| h_fields := <[redisTPMReservationField id := redisTPMPendingValue requested fp]> (h_fields (live_hash ks1 (time_ms (sec, us)) key));
                          h_expires := Some (reset_ms (sec, us) + tl_retentionMS l) |}]> ks).
      { apply map_eq. intros k. destruct (decide (k = key)) as [->|Hne]; [by rewrite !lookup_insert_eq|].
        rewrite !lookup_insert_ne by done. rewrite HSET_other_key by done. by apply Hk. }
      unfold reset_ms in Hks |- *. rewrite Hks. clear Hks.
      replace (RInt <$> ((fun f => count_of fs f + requested) <$> (field <$> scoped)))
        with (RInt <$> ((fun sp => count_of fs (field sp) + requested) <$> scoped)) by (by rewrite <- !list_fmap_compose).
      apply (reserve_granted (sec, us)); [done..|]. intros f. destruct (decide (f = redisTPMReservationField id)) as [->|Hne].
      * by rewrite lookup_insert_eq.
      * rewrite lookup_insert_ne by done. apply Hfs.
    + destruct Hroom as (j & s & p & E & Hj & Hlt). rewrite E. intros [= <- <-]. by apply reserve_denied.
Qed.

(** ** One run of the settle script *)
Definition in_range (fs : gmap string string) (delta : Z) (scopes : list Scope) : Prop :=
  Forall (fun s => 0 <= count_of fs (redisRPMField s) + delta <= exact_max) scopes.

#[export] Instance in_range_dec fs delta scopes : base.Decision (in_range fs delta scopes).
Proof. unfold in_range. apply _. Defined.

Inductive settle_outcome (clock : Clock) (ks : Keyspace) (key id pending settled : string) (reserved actual : Z) (scopes : list Scope)
    (h : Hash) : Keyspace -> result reply eval_error -> Prop :=
| settle_missing : h_fields h !! redisTPMReservationField id = None ->
    settle_outcome clock ks key id pending settled reserved actual scopes h ks (Ok (RArray [RInt 1]))
| settle_conflict v : h_fields h !! redisTPMReservationField id = Some v -> v <> pending -> v <> settled ->
    settle_outcome clock ks key id pending settled reserved actual scopes h ks (Ok (RArray [RInt 2]))
| settle_replayed : h_fields h !! redisTPMReservationField id = Some settled ->
    settle_outcome clock ks key id pending settled reserved actual scopes h ks
      (Ok (settled_reply (time_ms clock) reserved actual 1 ((fun s => count_of (h_fields h) (redisRPMField s)) <$> scopes)))
| settle_overflow j : h_fields h !! redisTPMReservationField id = Some pending -> ~ in_range (h_fields h) (actual - reserved) scopes -> (j < 4)%nat ->
    settle_outcome clock ks key id pending settled reserved actual scopes h ks (Ok (RArray [RInt 3; RInt (1 + Z.of_nat j)]))
| settle_done fs' : h_fields h !! redisTPMReservationField id = Some pending -> in_range (h_fields h) (actual - reserved) scopes ->
    (forall f, fs' !! f = if decide (f = redisTPMReservationField id) then Some settled
                          else if decide (f ∈ (redisRPMField <$> scopes)) then Some (FormatInt (count_of (h_fields h) f + (actual - reserved)))
                          else h_fields h !! f) ->
    settle_outcome clock ks key id pending settled reserved actual scopes h
      (<[key := {| h_fields := fs'; h_expires := h_expires h |}]> ks)
      (Ok (settled_reply (time_ms clock) reserved actual 0 ((fun s => count_of (h_fields h) (redisRPMField s) + (actual - reserved)) <$> scopes))).

Lemma settle_script clock ks key handle actual fp scopes ks' r :
  let h := live_hash ks (time_ms clock) key in
  let pending := redisTPMPendingValue (hd_ReservedTokens handle) fp in
  let settled := redisTPMSettledValue (hd_ReservedTokens handle) (act_Tokens actual) fp in
  1 <= hd_ReservedTokens handle <= exact_max -> 0 <= act_Tokens actual <= exact_max -> length scopes = 4%nat ->
  NoDup (redisRPMField <$> scopes) ->
  (h_fields h !! redisTPMReservationField (hd_ReservationID handle) = Some pending \/
   h_fields h !! redisTPMReservationField (hd_ReservationID handle) = Some settled ->
   Forall (fun s => canonical (h_fields h) (redisRPMField s) /\ is_Some (h_fields h !! redisRPMField s)) scopes) ->
  redisTPMSettleScript clock ks [key] (redisTPMSettleArguments handle actual fp scopes) = (ks', r) ->
  settle_outcome clock ks key (hd_ReservationID handle) pending settled (hd_ReservedTokens handle) (act_Tokens actual) scopes h ks' r.
Proof.
  intros h pending settled Hr Ha Hl Hnd Hc. destruct clock as [sec us]. unfold redisTPMSettleScript, redisTPMSettleArguments.
  change (sec * 1000 + us / 1000) with (time_ms (sec, us)) in *. rewrite !tonumber_FormatInt, HGET_fields. unfold fields_at. fold h.
  destruct (h_fields h !! redisTPMReservationField (hd_ReservationID handle)) as [v|] eqn:Ev; [|intros [= <- <-]; by apply settle_missing].
  fold pending settled. assert (Hps : pending <> settled) by apply pending_not_settled. 
  assert (Hdec : (v <> pending /\ v <> settled) \/ v = pending \/ v = settled).
  { destruct (decide (v = pending)); [auto|]. destruct (decide (v = settled)); auto. }
  destruct Hdec as [[H1 H2]|Hv].
  { rewrite !bool_decide_eq_false_2 by done. cbn [negb andb]. intros [= <- <-]. by apply (settle_conflict _ _ _ _ _ _ _ _ _ _ v). }
  replace (negb (bool_decide (v = pending)) && negb (bool_decide (v = settled))) with false
    by (destruct Hv as [->| ->]; [rewrite (bool_decide_eq_true_2 (pending = pending))|rewrite (bool_decide_eq_true_2 (settled = settled))];
        by rewrite ?andb_false_r).
  unfold redis_maximum. unfold exact_max in *.
  destruct (Z.ltb_spec (hd_ReservedTokens handle) 1), (Z.ltb_spec 9007199254740991 (hd_ReservedTokens handle)),
    (Z.ltb_spec (act_Tokens actual) 0), (Z.ltb_spec 9007199254740991 (act_Tokens actual)); try lia. cbn [orb].
  specialize (Hc ltac:(destruct Hv as [->| ->]; auto)). replace 4%nat with (length scopes) by done.
  rewrite settle_counters_spec by done. unfold fields_at. fold h. destruct Hv as [->| ->].
  2: { rewrite bool_decide_eq_true_2 by done. intros [= <- <-]. rewrite <- list_fmap_compose. by apply settle_replayed. }
  rewrite bool_decide_eq_false_2 by done. set (delta := act_Tokens actual - hd_ReservedTokens handle).
  assert (Hcan : Forall (fun s => canonical (h_fields h) (redisRPMField s)) scopes) by (eapply Forall_impl; [exact Hc|]; by intros s []).
  destruct (decide (in_range (h_fields h) delta scopes)) as [Hin|Hout].
  - rewrite first_unsettled_None by done.
    destruct (add_all_spec (time_ms (sec, us)) key delta (count_of (h_fields h)) (redisRPMField <$> scopes) ks) as (ks1 & E & Hfs & He & Hk); [|done|].
    { rewrite Forall_fmap. unfold in_range in Hin. rewrite Forall_forall in *. intros s Hs. simpl. split; [by apply Hcan|by apply Hin]. }
    replace (item_field <$> ((fun s => (redisRPMField s, 0, count_of (h_fields h) (redisRPMField s))) <$> scopes)) with (redisRPMField <$> scopes)
      by (by rewrite <- list_fmap_compose).
    rewrite E. intros [= <- <-].
    replace ((fun f => count_of (h_fields h) f + delta) <$> (redisRPMField <$> scopes))
      with ((fun s => count_of (h_fields h) (redisRPMField s) + delta) <$> scopes) by (by rewrite <- !list_fmap_compose).
    replace (HSET ks1 _ key _ settled) with (<[key := {| h_fields := <[redisTPMReservationField (hd_ReservationID handle) := settled]>
      (fields_at ks1 (time_ms (sec, us)) key); h_expires := h_expires h |}]> ks).
    2: { unfold HSET. fold (fields_at ks1 (time_ms (sec, us)) key). rewrite He. fold h. apply map_eq. intros k.
         destruct (decide (k = key)) as [->|Hne]; [by rewrite !lookup_insert_eq|]. rewrite !lookup_insert_ne by done. symmetry. by apply Hk. }
    apply (settle_done (sec, us)); [done..|]. intros f. destruct (decide (f = redisTPMReservationField (hd_ReservationID handle))) as [->|Hne].
    + by rewrite lookup_insert_eq.
    + rewrite lookup_insert_ne by done. apply Hfs.
  - destruct (first_unsettled_Some (h_fields h) delta scopes 1 Hcan Hout) as (j & E & Hj). rewrite E. intros [= <- <-].
    apply settle_overflow; [done|done|lia].
Qed.

(** ** A fleet of gateways sharing the token limit

    The ledger of a fleet state maps the minute and the ID of a reservation to its
    scopes, the tokens it reserved and, once settled, the tokens it used. Every
    evaluation of a script by any gateway is a step. *)
Record Entry := { g_scopes : list Scope; g_reserved : Z; g_actual : option Z }.
Notation Ledger := (gmap (Z * string) Entry).

(** What a reservation counts: the tokens used once it is settled, until then the
    tokens reserved. *)
Definition charge (e : Entry) : Z := default (g_reserved e) (g_actual e).
Definition used (w : Z) (s : Scope) (log : Ledger) : Z :=
  map_sum (fun k e => if decide (k.1 = w /\ s ∈ g_scopes e) then charge e else 0) log.

Definition settle_entry (e : Entry) (actual : Z) : Entry := {| g_scopes := g_scopes e; g_reserved := g_reserved e; g_actual := Some actual |}.

Record TPMFleet := { tf_keys : Keyspace; tf_time : Z; tf_log : Ledger }.

(** The effect of a reply on the ledger. *)
Definition log_reserve (w : Z) (id : string) (scopes : list Scope) (requested : Z) (r : result reply eval_error) (log : Ledger) : Ledger :=
  match r with
  | Ok (RArray (RInt 1 :: _ :: _ :: _ :: _ :: RInt 0 :: _)) => <[(w, id) := {| g_scopes := scopes; g_reserved := requested; g_actual := None |}]> log
  | _ => log
  end.
Definition log_settle (w : Z) (id : string) (actual : Z) (r : result reply eval_error) (log : Ledger) : Ledger :=
  match r, log !! (w, id) with
  | Ok (RArray (RInt 0 :: _ :: _ :: _ :: _ :: RInt 0 :: _)), Some e => <[(w, id) := settle_entry e actual]> log
  | _, _ => log
  end.

Definition valid_chain (c : list Scope) : Prop := length c = 4%nat /\ Forall (fun s => Scope_Validate s = true) c /\ NoDup (redisRPMField <$> c).

Lemma normalized_chain input scopes : normalizeScopes input = Ok scopes -> valid_chain scopes.
Proof.
  intros H. destruct (normalizeScopes_chain _ _ H) as ((p & t & pr & k & Hch) & Hnd & _).
  pose proof (chain_valid _ _ _ _ _ Hch) as Hv. split_and!; [by rewrite (chain_list _ _ _ _ _ Hch)|exact Hv|].
  apply NoDup_fmap_2_strong; [|done]. rewrite Forall_forall in Hv. intros s1 s2 H1 H2. apply redisRPMField_inj; auto.
Qed.

Lemma bound_chain bindings scoped :
  normalizeRPMBindings bindings = Ok scoped -> valid_chain scoped.*1 /\ valid_scoped scoped /\ length scoped = 4%nat /\ NoDup (field <$> scoped).
Proof.
  intros H. destruct (normalizeRPMBindings_Ok _ _ H) as (Hl & Hv & Hn & Hf). split_and!; try done. split_and!.
  - by rewrite length_fmap.
  - rewrite Forall_fmap. eapply Forall_impl; [exact Hv|]. by intros sp [].
  - by rewrite <- list_fmap_compose.
Qed.

(** SHA-256 tells the scope chains apart. *)
Definition collision_free (sha256hex : string -> string) : Prop :=
  forall c1 c2, valid_chain c1 -> valid_chain c2 -> sha256hex (join_fields c1) = sha256hex (join_fields c2) -> join_fields c1 = join_fields c2.

Section fleet.
Context (sha256hex : string -> string) (prefix : string).
Hypothesis no_collision : collision_free sha256hex.
Notation fingerprint := (redisScopeFingerprint sha256hex).

(** Any gateway evaluates a script for arguments that [ReserveTPM] and [SettleTPM]
    accept, believing in any minute, at a server time that is not before the last.
    Whether its reply arrives does not matter to the keyspace. *)
Inductive tpm_step : TPMFleet -> TPMFleet -> Prop :=
| step_reserve fl clock l id plan bindings scoped w ks r :
    clock_ok clock -> tf_time fl <= time_ms clock -> tl_keyPrefix l = prefix -> 0 <= tl_retentionMS l ->
    1 <= plan_ReservedTokens plan <= exact_max -> normalizeRPMBindings bindings = Ok scoped ->
    redisTPMReserveScript clock (tf_keys fl) [tpm_windowKey l w]
      (redisTPMReserveArguments w (tl_retentionMS l) id (fingerprint scoped.*1) (plan_ReservedTokens plan) scoped) = (ks, r) ->
    tpm_step fl {| tf_keys := ks; tf_time := time_ms clock;
                   tf_log := log_reserve w id scoped.*1 (plan_ReservedTokens plan) r (tf_log fl) |}
| step_settle fl clock l handle actual scopes ks r :
    clock_ok clock -> tf_time fl <= time_ms clock -> tl_keyPrefix l = prefix ->
    1 <= hd_ReservedTokens handle <= exact_max -> 0 <= act_Tokens actual <= exact_max -> normalizeScopes (hd_Scopes handle) = Ok scopes ->
    redisTPMSettleScript clock (tf_keys fl) [tpm_windowKey l (hd_Window handle)]
      (redisTPMSettleArguments handle actual (fingerprint scopes) scopes) = (ks, r) ->
    tpm_step fl {| tf_keys := ks; tf_time := time_ms clock;
                   tf_log := log_settle (hd_Window handle) (hd_ReservationID handle) (act_Tokens actual) r (tf_log fl) |}.

Definition tpm_start : TPMFleet := {| tf_keys := ∅; tf_time := 0; tf_log := ∅ |}.
Definition tpm_reachable (fl : TPMFleet) : Prop := rtc tpm_step tpm_start fl.

(** ** The invariant *)
Definition entry_ok (e : Entry) : Prop :=
  valid_chain (g_scopes e) /\ 1 <= g_reserved e <= exact_max /\ match g_actual e with Some a => 0 <= a <= exact_max | None => True end.

(** The record of a reservation in Redis. *)
Definition value_of (e : Entry) : string :=
  match g_actual e with
  | None => redisTPMPendingValue (g_reserved e) (fingerprint (g_scopes e))
  | Some a => redisTPMSettledValue (g_reserved e) a (fingerprint (g_scopes e))
  end.

Record agrees (fs : gmap string string) (w : Z) (log : Ledger) : Prop := {
  agrees_counts : forall s, Scope_Validate s = true -> holds fs (redisRPMField s) (used w s log);
  agrees_present : forall id e s, log !! (w, id) = Some e -> s ∈ g_scopes e -> is_Some (fs !! redisRPMField s);
  agrees_records : forall id, fs !! redisTPMReservationField id = value_of <$> log !! (w, id) }.

Definition key_of (w : Z) : string := prefix +:+ ":" +:+ FormatInt w.

Record tpm_inv (fl : TPMFleet) : Prop := {
  inv_entries : map_Forall (fun _ e => entry_ok e) (tf_log fl);
  inv_hashes : forall w, match tf_keys fl !! key_of w with
    | Some h => agrees (h_fields h) w (tf_log fl) /\ exists t, h_expires h = Some t /\ (w + 1) * 60 * 1000 <= t
    | None => forall id, tf_log fl !! (w, id) = None
    end }.

Lemma windowKey_prefix l w : tl_keyPrefix l = prefix -> tpm_windowKey l w = key_of w.
Proof using. intros H. unfold tpm_windowKey, key_of. by rewrite H. Qed.

Lemma key_of_inj w1 w2 : key_of w1 = key_of w2 -> w1 = w2.
Proof using. unfold key_of. intros H. apply append_cancel in H. by apply (append_cancel ":"), FormatInt_inj in H. Qed.

Lemma used_unrelated w s log : (forall id, log !! (w, id) = None) -> used w s log = 0.
Proof using. intros H. apply map_sum_zero. intros [w' id] e He. rewrite decide_False; [done|]. simpl. intros [-> _]. by rewrite H in He. Qed.

Lemma agrees_empty w log : (forall id, log !! (w, id) = None) -> agrees ∅ w log.
Proof using.
  intros H. split.
  - intros s _. rewrite used_unrelated by done. split; [by unfold exact_max|by rewrite lookup_empty].
  - intros id e s He. by rewrite H in He.
  - intros id. by rewrite H, lookup_empty.
Qed.

(** The hash of the current minute is never expired. *)
Lemma agrees_current fl w now :
  tpm_inv fl -> now <= (w + 1) * 60 * 1000 -> agrees (fields_at (tf_keys fl) now (key_of w)) w (tf_log fl).
Proof using.
  intros Hinv Hnow. pose proof (inv_hashes _ Hinv w) as Hw. unfold fields_at, live_hash, hash_at.
  destruct (tf_keys fl !! key_of w) as [h|]; [|by apply agrees_empty]. destruct Hw as [Hag (t & Ht & Hle)]. rewrite Ht.
  by destruct (Z.ltb_spec t now); [lia|].
Qed.

(** A hash is live with all its records, or shows none. *)
Lemma agrees_live fl w now :
  tpm_inv fl ->
  (tf_keys fl !! key_of w = Some (live_hash (tf_keys fl) now (key_of w)) /\ agrees (fields_at (tf_keys fl) now (key_of w)) w (tf_log fl)) \/
  fields_at (tf_keys fl) now (key_of w) = ∅.
Proof using.
  intros Hinv. pose proof (inv_hashes _ Hinv w) as Hw. unfold fields_at, live_hash, hash_at.
  destruct (tf_keys fl !! key_of w) as [h|]; [|by right]. destruct Hw as [Hag (t & Ht & Hle)]. rewrite Ht.
  destruct (t <? now); [by right|by left].
Qed.

Lemma used_nonneg w s log : map_Forall (fun _ e => entry_ok e) log -> 0 <= used w s log.
Proof using.
  intros H. apply map_sum_nonneg. intros k e He. destruct (H k e He) as (_ & Hr & Ha). case_decide; [|done].
  unfold charge. destruct (g_actual e); simpl; lia.
Qed.

Lemma agrees_other fs w w' id e log : w <> w' -> agrees fs w log -> agrees fs w (<[(w', id) := e]> log).
Proof using.
  intros Hne Hag.
  assert (Hused : forall s, used w s (<[(w', id) := e]> log) = used w s log).
  { intros s. unfold used. destruct (log !! (w', id)) as [e0|] eqn:E; [rewrite (map_sum_insert _ _ _ e0) by done|rewrite map_sum_new by done];
      rewrite ?(decide_False (P := (w', id).1 = w /\ _)) by (simpl; intros [? _]; congruence); lia. }
  split.
  - intros s Hs. rewrite Hused. by apply Hag.
  - intros id' e' s. rewrite lookup_insert_ne by congruence. apply Hag.
  - intros id'. rewrite lookup_insert_ne by congruence. apply Hag.
Qed.

(** A reservation added or settled: its counters move by the change of its charge. *)
Lemma agrees_update fs fs' w id e' log delta :
  agrees fs w log -> entry_ok e' ->
  match log !! (w, id) with Some e => g_scopes e = g_scopes e' /\ delta = charge e' - charge e | None => delta = charge e' end ->
  (forall f, fs' !! f = if decide (f = redisTPMReservationField id) then Some (value_of e')
                        else if decide (f ∈ (redisRPMField <$> g_scopes e')) then Some (FormatInt (count_of fs f + delta)) else fs !! f) ->
  in_range fs delta (g_scopes e') -> agrees fs' w (<[(w, id) := e']> log).
Proof using.
  intros Hag ((_ & Hv & _) & _) Hold Hfs Hin. unfold in_range in Hin. rewrite Forall_forall in Hv, Hin.
  assert (Hused : forall s, used w s (<[(w, id) := e']> log) = used w s log + if decide (s ∈ g_scopes e') then delta else 0).
  { intros s. unfold used. destruct (log !! (w, id)) as [e|] eqn:E.
    - destruct Hold as [Hsc ->]. rewrite (map_sum_insert _ _ _ e) by done. cbn [fst]. rewrite Hsc.
      destruct (decide (s ∈ g_scopes e')); [rewrite !decide_True by done|rewrite !decide_False by (intros [_ ?]; done)]; lia.
    - subst delta. rewrite map_sum_new by done. cbn [fst].
      destruct (decide (s ∈ g_scopes e')); [rewrite decide_True by done|rewrite decide_False by (intros [_ ?]; done)]; lia. }
  assert (Hscope : forall s, Scope_Validate s = true ->
    fs' !! redisRPMField s = if decide (s ∈ g_scopes e') then Some (FormatInt (count_of fs (redisRPMField s) + delta)) else fs !! redisRPMField s).
  { intros s Hs. rewrite Hfs, decide_False by (intros Heq; by apply (reservation_not_scope id s Hs)).
    destruct (decide (s ∈ g_scopes e')) as [Hin'|Hout]; [by rewrite decide_True by (by apply list_elem_of_fmap_2)|].
    rewrite decide_False; [done|]. intros (s' & Heq & Hs')%list_elem_of_fmap. apply Hout. apply redisRPMField_inj in Heq; [by subst|done|by apply Hv]. }
  split.
  - intros s Hs. pose proof (agrees_counts _ _ _ Hag s Hs) as Hc. rewrite Hused. unfold holds. rewrite Hscope by done.
    case_decide as Hd; [|rewrite Z.add_0_r; exact Hc]. specialize (Hin s Hd). rewrite (holds_count _ _ _ Hc) in Hin |- *. by split.
  - intros id' e s He Hs. destruct (decide (id' = id)) as [->|Hne].
    + rewrite lookup_insert_eq in He. simplify_eq. rewrite Hscope by (by apply Hv). by rewrite decide_True.
    + rewrite lookup_insert_ne in He by congruence. pose proof (agrees_present _ _ _ Hag id' e s He Hs).
      rewrite Hfs. case_decide; [by eexists|]. case_decide; [by eexists|done].
  - intros id'. rewrite Hfs. destruct (decide (id' = id)) as [->|Hne]; [by rewrite decide_True, lookup_insert_eq|].
    rewrite decide_False by (intros Heq; by apply reservation_field_inj in Heq). rewrite lookup_insert_ne by congruence.
    rewrite decide_False; [apply Hag|]. intros (s' & Heq & Hs')%list_elem_of_fmap. by apply (reservation_not_scope id' s' (Hv _ Hs')).
Qed.

(** Replacing the hash of one minute. *)
Lemma inv_update fl w h e' id now :
  tpm_inv fl -> entry_ok e' -> agrees (h_fields h) w (<[(w, id) := e']> (tf_log fl)) ->
  (exists t, h_expires h = Some t /\ (w + 1) * 60 * 1000 <= t) ->
  tpm_inv {| tf_keys := <[key_of w := h]> (tf_keys fl); tf_time := now; tf_log := <[(w, id) := e']> (tf_log fl) |}.
Proof using.
  intros Hinv He Hag Ht. split; simpl; [by apply map_Forall_insert_2; [|apply Hinv]|]. intros w'.
  destruct (decide (w' = w)) as [->|Hne]; [by rewrite lookup_insert_eq|].
  rewrite lookup_insert_ne by (intros Heq; by apply key_of_inj in Heq). pose proof (inv_hashes _ Hinv w') as Hw'.
  destruct (tf_keys fl !! key_of w'); [destruct Hw'; split; [by apply agrees_other|done]|].
  intros id'. rewrite lookup_insert_ne by congruence. apply Hw'.
Qed.

Lemma inv_same fl now : tpm_inv fl -> tpm_inv {| tf_keys := tf_keys fl; tf_time := now; tf_log := tf_log fl |}.
Proof using. by intros []. Qed.

(** What a reserve evaluation finds, in terms of the ledger. *)
Lemma fleet_reserve fl clock l id plan bindings scoped w ks r :
  tpm_inv fl -> clock_ok clock -> tl_keyPrefix l = prefix -> 1 <= plan_ReservedTokens plan <= exact_max ->
  normalizeRPMBindings bindings = Ok scoped ->
  redisTPMReserveScript clock (tf_keys fl) [tpm_windowKey l w]
    (redisTPMReserveArguments w (tl_retentionMS l) id (fingerprint scoped.*1) (plan_ReservedTokens plan) scoped) = (ks, r) ->
  (w = minute_of clock -> agrees (fields_at (tf_keys fl) (time_ms clock) (key_of w)) w (tf_log fl)) /\
  reserve_outcome clock (tf_keys fl) l id (redisTPMPendingValue (plan_ReservedTokens plan) (fingerprint scoped.*1)) (plan_ReservedTokens plan)
    scoped w (fields_at (tf_keys fl) (time_ms clock) (key_of w)) ks r.
Proof using.
  intros Hinv Hclock Hp Hreq Hn E. destruct (bound_chain _ _ Hn) as (_ & Hv & Hl & Hnd).
  assert (Hag : w = minute_of clock -> agrees (fields_at (tf_keys fl) (time_ms clock) (key_of w)) w (tf_log fl)).
  { intros ->. apply agrees_current; [done|]. destruct (clock_times clock Hclock) as (_ & Ht & _). unfold reset_ms in Ht. lia. }
  split; [done|]. rewrite <- (windowKey_prefix l w Hp) in *. eapply reserve_script; try done.
  intros Hw. specialize (Hag Hw). eapply Forall_impl; [exact Hv|]. intros [s p] [Hs _]. eapply holds_canonical, Hag, Hs.
Qed.

Lemma used_fits scoped fs w log requested :
  agrees fs w log -> valid_scoped scoped ->
  fits_in fs requested scoped <-> Forall (fun sp => used w sp.1 log + requested <= tpm_hard sp.2) scoped.
Proof using.
  intros Hag Hv. unfold fits_in, valid_scoped in *. rewrite !Forall_forall. rewrite Forall_forall in Hv.
  split; intros H sp Hsp; specialize (H sp Hsp); destruct (Hv sp Hsp) as [Hs _]; pose proof (holds_count _ _ _ (agrees_counts _ _ _ Hag _ Hs)) as Hc;
    unfold field in *; simpl in *; lia.
Qed.

Lemma fingerprint_inj c1 c2 : valid_chain c1 -> valid_chain c2 -> fingerprint c1 = fingerprint c2 -> c1 = c2.
Proof using no_collision.
  intros H1 H2 H. pose proof (no_collision _ _ H1 H2 H) as Hj. destruct H1 as (Hl1 & Hv1 & _), H2 as (Hl2 & Hv2 & _).
  apply join_fields_inj; [done..|congruence|done].
Qed.

Lemma value_pending e r c :
  entry_ok e -> valid_chain c -> value_of e = redisTPMPendingValue r (fingerprint c) -> g_scopes e = c /\ g_reserved e = r /\ g_actual e = None.
Proof using no_collision.
  intros (Hc & _) Hv H. unfold value_of in H. destruct (g_actual e); [by apply eq_sym, pending_not_settled in H|].
  apply pending_inj in H as [Hr Hf]. split_and!; [by apply fingerprint_inj|done|done].
Qed.

Lemma value_settled e r a c :
  entry_ok e -> valid_chain c -> value_of e = redisTPMSettledValue r a (fingerprint c) -> g_scopes e = c /\ g_reserved e = r /\ g_actual e = Some a.
Proof using no_collision.
  intros (Hc & _) Hv H. unfold value_of in H. destruct (g_actual e) as [a'|]; [|by apply pending_not_settled in H].
  apply settled_inj in H as (Hr & -> & Hf). split_and!; [by apply fingerprint_inj|done|done].
Qed.

(** What a settle evaluation finds, in terms of the ledger. *)
Lemma fleet_settle fl clock l handle actual scopes ks r :
  tpm_inv fl -> tl_keyPrefix l = prefix -> 1 <= hd_ReservedTokens handle <= exact_max -> 0 <= act_Tokens actual <= exact_max ->
  normalizeScopes (hd_Scopes handle) = Ok scopes ->
  redisTPMSettleScript clock (tf_keys fl) [tpm_windowKey l (hd_Window handle)]
    (redisTPMSettleArguments handle actual (fingerprint scopes) scopes) = (ks, r) ->
  settle_outcome clock (tf_keys fl) (key_of (hd_Window handle)) (hd_ReservationID handle)
    (redisTPMPendingValue (hd_ReservedTokens handle) (fingerprint scopes))
    (redisTPMSettledValue (hd_ReservedTokens handle) (act_Tokens actual) (fingerprint scopes))
    (hd_ReservedTokens handle) (act_Tokens actual) scopes (live_hash (tf_keys fl) (time_ms clock) (key_of (hd_Window handle))) ks r.
Proof using no_collision.
  intros Hinv Hp Hr Ha Hn E. pose proof (normalized_chain _ _ Hn) as Hch. rewrite (windowKey_prefix l _ Hp) in E.
  destruct Hch as (Hl & Hv & Hnd) eqn:Hd. eapply settle_script; try done. clear Hd.
  destruct (agrees_live fl (hd_Window handle) (time_ms clock) Hinv) as [[_ Hag]|Hempty].
  2: { unfold fields_at in Hempty. rewrite Hempty, lookup_empty. by intros []. }
  intros Hrec. assert (Hentry : exists e, tf_log fl !! (hd_Window handle, hd_ReservationID handle) = Some e /\ g_scopes e = scopes).
  { pose proof (agrees_records _ _ _ Hag (hd_ReservationID handle)) as Hrec'. unfold fields_at in Hrec'.
    destruct (tf_log fl !! (hd_Window handle, hd_ReservationID handle)) as [e|] eqn:Ee; simpl in Hrec'.
    - exists e. split; [done|]. pose proof (inv_entries _ Hinv _ _ Ee) as Hok. rewrite Hrec' in Hrec.
      destruct Hrec as [[= Hv']|[= Hv']]; [by apply value_pending in Hv' as [? _]|by apply value_settled in Hv' as [? _]].
    - rewrite Hrec' in Hrec. by destruct Hrec. }
  destruct Hentry as (e & Ee & <-). rewrite Forall_forall in *. intros s Hs. split.
  - eapply holds_canonical, Hag. by apply Hv.
  - by eapply (agrees_present _ _ _ Hag).
Qed.

Lemma field_scopes (scoped : list (Scope * Effective)) : field <$> scoped = redisRPMField <$> scoped.*1.
Proof using. by rewrite <- list_fmap_compose. Qed.

Lemma reserve_step_inv fl clock l id plan bindings scoped w ks r :
  tpm_inv fl -> clock_ok clock -> tl_keyPrefix l = prefix -> 0 <= tl_retentionMS l -> 1 <= plan_ReservedTokens plan <= exact_max ->
  normalizeRPMBindings bindings = Ok scoped ->
  redisTPMReserveScript clock (tf_keys fl) [tpm_windowKey l w]
    (redisTPMReserveArguments w (tl_retentionMS l) id (fingerprint scoped.*1) (plan_ReservedTokens plan) scoped) = (ks, r) ->
  tpm_inv {| tf_keys := ks; tf_time := time_ms clock; tf_log := log_reserve w id scoped.*1 (plan_ReservedTokens plan) r (tf_log fl) |}.
Proof using.
  intros Hinv Hclock Hp Hret Hreq Hn E. destruct (bound_chain _ _ Hn) as (Hch & Hv & _ & _).
  destruct (fleet_reserve fl clock l id plan bindings scoped w ks r Hinv Hclock Hp Hreq Hn E) as [Hag Hout].
  destruct Hout as [Hw|v Hw Hf Hv'|Hw Hf|j s p Hw Hf Hj Hlt|fs' Hw Hf Hfit Hfs]; try by apply inv_same.
  specialize (Hag Hw). rewrite (windowKey_prefix l w Hp). cbn [log_reserve reserved_reply reserve_times times_reply app].
  assert (Hok : entry_ok {| g_scopes := scoped.*1; g_reserved := plan_ReservedTokens plan; g_actual := None |}) by (unfold entry_ok; simpl; auto).
  apply inv_update; [done|done| |].
  - eapply (agrees_update _ _ _ _ _ _ (plan_ReservedTokens plan)); [exact Hag|done| | |]; cbn [g_scopes h_fields].
    + by rewrite (agrees_records _ _ _ Hag), fmap_None in Hf; rewrite Hf.
    + intros f. rewrite Hfs, field_scopes. done.
    + assert (Hcan : Forall (fun sp => canonical (fields_at (tf_keys fl) (time_ms clock) (key_of w)) (field sp)) scoped).
      { eapply Forall_impl; [exact Hv|]. intros sp [Hs _]. eapply holds_canonical, Hag, Hs. }
      pose proof (fits_in_bounds _ _ _ Hv Hcan (proj1 Hreq) Hfit) as Hb.
      rewrite field_scopes, Forall_fmap in Hb. eapply Forall_impl; [exact Hb|]. by intros s [_ ?].
  - cbn [h_expires]. eexists. split; [done|]. subst w. unfold reset_ms. lia.
Qed.

Lemma settle_step_inv fl clock l handle actual scopes ks r :
  tpm_inv fl -> tl_keyPrefix l = prefix -> 1 <= hd_ReservedTokens handle <= exact_max -> 0 <= act_Tokens actual <= exact_max ->
  normalizeScopes (hd_Scopes handle) = Ok scopes ->
  redisTPMSettleScript clock (tf_keys fl) [tpm_windowKey l (hd_Window handle)]
    (redisTPMSettleArguments handle actual (fingerprint scopes) scopes) = (ks, r) ->
  tpm_inv {| tf_keys := ks; tf_time := time_ms clock;
             tf_log := log_settle (hd_Window handle) (hd_ReservationID handle) (act_Tokens actual) r (tf_log fl) |}.
Proof using no_collision.
  intros Hinv Hp Hr Ha Hn E. pose proof (normalized_chain _ _ Hn) as Hch. pose proof (fleet_settle _ _ _ _ _ _ _ _ Hinv Hp Hr Ha Hn E) as Hout.
  destruct (agrees_live fl (hd_Window handle) (time_ms clock) Hinv) as [[Hkey Hag]|Hempty]; cycle 1.
  { unfold fields_at in Hempty. destruct Hout as [| v Hf | Hf | j Hf | fs' Hf]; try (by apply inv_same); by rewrite Hempty, lookup_empty in Hf. }
  destruct Hout as [| v Hf | Hf | j Hf | fs' Hf Hin Hfs]; try (by apply inv_same).
  pose proof (agrees_records _ _ _ Hag (hd_ReservationID handle)) as Hrec. unfold fields_at in Hrec. rewrite Hf in Hrec.
  destruct (tf_log fl !! (hd_Window handle, hd_ReservationID handle)) as [e|] eqn:Ee; [|done]. injection Hrec as Hrec.
  pose proof (inv_entries _ Hinv _ _ Ee) as Hok. destruct (value_pending _ _ _ Hok Hch (eq_sym Hrec)) as (<- & Hres & Hact).
  unfold log_settle, settled_reply. cbn [app]. rewrite Ee.
  assert (Hok' : entry_ok (settle_entry e (act_Tokens actual))) by (unfold entry_ok in *; simpl; tauto).
  apply inv_update; [done|done| |].
  - eapply (agrees_update _ _ _ _ _ _ (act_Tokens actual - hd_ReservedTokens handle)); [exact Hag|done| | |]; cbn [g_scopes settle_entry h_fields].
    + rewrite Ee. split; [done|]. unfold charge. cbn. rewrite Hact. simpl. lia.
    + intros f. rewrite Hfs. unfold value_of. cbn [g_actual settle_entry g_reserved g_scopes]. by rewrite Hres.
    + exact Hin.
  - cbn [h_expires]. pose proof (inv_hashes _ Hinv (hd_Window handle)) as Hw. rewrite Hkey in Hw. by destruct Hw.
Qed.

Lemma tpm_step_inv fl fl' : tpm_inv fl -> tpm_step fl fl' -> tpm_inv fl'.
Proof using no_collision. intros Hinv Hstep. destruct Hstep; [by eapply reserve_step_inv|by eapply settle_step_inv]. Qed.

Lemma tpm_reachable_inv fl : tpm_reachable fl -> tpm_inv fl.
Proof using no_collision.
  assert (H0 : tpm_inv tpm_start) by (split; [apply map_Forall_empty|intros w; simpl; rewrite lookup_empty; intros; apply lookup_empty]).
  unfold tpm_reachable. intros H. revert H0. induction H as [|fl1 fl2 fl3 Hstep _ IH]; [done|]. intros Hinv. apply IH. by eapply tpm_step_inv.
Qed.

Lemma used_counts fs w log scopes (g : Z -> Z) :
  agrees fs w log -> Forall (fun s => Scope_Validate s = true) scopes ->
  (fun s => g (count_of fs (redisRPMField s))) <$> scopes = (fun s => g (used w s log)) <$> scopes.
Proof using.
  intros Hag Hv. apply list_fmap_ext. intros i s Hs. rewrite Forall_forall in Hv.
  by rewrite (holds_count _ _ _ (agrees_counts _ _ _ Hag s (Hv s (list_elem_of_lookup_2 _ _ _ Hs)))).
Qed.

Lemma used_counts_scoped fs w log scoped (g : Z -> Z) :
  agrees fs w log -> valid_scoped scoped ->
  (fun sp : Scope * Effective => g (count_of fs (field sp))) <$> scoped = (fun s => g (used w s log)) <$> scoped.*1.
Proof using.
  intros Hag Hv. rewrite <- (used_counts fs w log); [by rewrite <- list_fmap_compose|done|].
  rewrite Forall_fmap. eapply Forall_impl; [exact Hv|]. by intros sp [].
Qed.

(** A reservation in the ledger made by the same request, and not settled. *)
Definition same_pending (e : Entry) (scopes : list Scope) (requested : Z) : Prop :=
  g_scopes e = scopes /\ g_reserved e = requested /\ g_actual e = None.

Lemma value_pending_iff e r c :
  entry_ok e -> valid_chain c -> value_of e = redisTPMPendingValue r (fingerprint c) <-> same_pending e c r.
Proof using no_collision.
  intros Hok Hc. split; [by apply value_pending|]. intros (<- & <- & Ha). unfold value_of. by rewrite Ha.
Qed.

Lemma value_settled_iff e r a c :
  entry_ok e -> valid_chain c ->
  value_of e = redisTPMSettledValue r a (fingerprint c) <-> g_scopes e = c /\ g_reserved e = r /\ g_actual e = Some a.
Proof using no_collision.
  intros Hok Hc. split; [by apply value_settled|]. intros (<- & <- & Ha). unfold value_of. by rewrite Ha.
Qed.

#[local] Instance same_pending_dec e scopes requested : base.Decision (same_pending e scopes requested).
Proof using. unfold same_pending. apply _. Defined.

(** What the fleet answers to a reservation, by its ledger. *)
Definition reserve_spec (fl : TPMFleet) (clock : Clock) (retention : Z) (id : string) (requested : Z) (scoped : list (Scope * Effective))
    (w : Z) (ks : Keyspace) (r : result reply eval_error) : Prop :=
  let n s := used w s (tf_log fl) in
  if decide (w = minute_of clock) then
    match tf_log fl !! (w, id) with
    | Some e =>
        ks = tf_keys fl /\
        if decide (same_pending e scoped.*1 requested) then r = Ok (reserved_reply clock retention 1 (n <$> scoped.*1))
        else r = Ok (RArray [RInt 4])
    | None =>
        if decide (Forall (fun sp => n sp.1 + requested <= tpm_hard sp.2) scoped)
        then r = Ok (reserved_reply clock retention 0 ((fun s => n s + requested) <$> scoped.*1))
        else ks = tf_keys fl /\ exists j s p, scoped !! j = Some (s, p) /\ tpm_hard p < n s + requested /\
               r = Ok (denied_reply clock j (n s) (tpm_hard p))
    end
  else ks = tf_keys fl /\ r = Ok (mismatch_reply clock).

Lemma reserve_decides fl clock l id plan bindings scoped w ks r :
  tpm_inv fl -> clock_ok clock -> tl_keyPrefix l = prefix -> 1 <= plan_ReservedTokens plan <= exact_max ->
  normalizeRPMBindings bindings = Ok scoped ->
  redisTPMReserveScript clock (tf_keys fl) [tpm_windowKey l w]
    (redisTPMReserveArguments w (tl_retentionMS l) id (fingerprint scoped.*1) (plan_ReservedTokens plan) scoped) = (ks, r) ->
  reserve_spec fl clock (tl_retentionMS l) id (plan_ReservedTokens plan) scoped w ks r.
Proof using no_collision.
  intros Hinv Hclock Hp Hreq Hn E. destruct (bound_chain _ _ Hn) as (Hch & Hv & _ & _).
  destruct (fleet_reserve fl clock l id plan bindings scoped w ks r Hinv Hclock Hp Hreq Hn E) as [Hag Hout]. unfold reserve_spec.
  assert (Hrec : w = minute_of clock -> fields_at (tf_keys fl) (time_ms clock) (key_of w) !! redisTPMReservationField id =
    value_of <$> tf_log fl !! (w, id)) by (intros Hw; by apply (agrees_records _ _ _ (Hag Hw))).
  destruct Hout as [Hw|v Hw Hf Hv'|Hw Hf|j s p Hw Hf Hj Hlt|fs' Hw Hf Hfit Hfs];
    [by rewrite decide_False|rewrite decide_True by done; specialize (Hag Hw); rewrite Hrec in Hf by done..].
  - destruct (tf_log fl !! (w, id)) as [e|] eqn:Ee; [|done]. injection Hf as <-. split; [done|].
    rewrite decide_False; [done|]. by rewrite <- value_pending_iff by (done || by apply (inv_entries _ Hinv _ _ Ee)).
  - destruct (tf_log fl !! (w, id)) as [e|] eqn:Ee; [|done]. injection Hf as Hf. split; [done|].
    apply value_pending_iff in Hf; [|by apply (inv_entries _ Hinv _ _ Ee)|done].
    rewrite decide_True by done. by rewrite (used_counts_scoped _ _ _ _ (fun z => z) Hag Hv).
  - destruct (tf_log fl !! (w, id)) as [e|]; [done|].
    assert (Hs : Scope_Validate s = true) by (by eapply (Forall_lookup_1 _ _ _ _ Hv) in Hj as [? _]).
    pose proof (holds_count _ _ _ (agrees_counts _ _ _ Hag s Hs)) as Hc. unfold field in *. cbn [fst] in *. rewrite Hc in *.
    rewrite decide_False; [split; [done|]; by exists j, s, p|]. intros Hall. apply (Forall_lookup_1 _ _ _ _ Hall) in Hj. simpl in Hj. lia.
  - destruct (tf_log fl !! (w, id)) as [e|]; [done|]. rewrite decide_True by (by apply (used_fits _ _ _ _ _ Hag Hv)).
    by rewrite (used_counts_scoped _ _ _ _ (fun z => z + plan_ReservedTokens plan) Hag Hv).
Qed.

(** What the fleet answers to a settlement, by its ledger. *)
Definition settle_spec (fl : TPMFleet) (clock : Clock) (handle : RedisTPMHandle) (actual : Z) (scopes : list Scope)
    (ks : Keyspace) (r : result reply eval_error) : Prop :=
  let w := hd_Window handle in
  let reserved := hd_ReservedTokens handle in
  let n s := used w s (tf_log fl) in
  match hash_at (tf_keys fl) (time_ms clock) (key_of w), tf_log fl !! (w, hd_ReservationID handle) with
  | Some _, Some e =>
      if decide (same_pending e scopes reserved) then
        if decide (Forall (fun s => n s + (actual - reserved) <= exact_max) scopes)
        then r = Ok (settled_reply (time_ms clock) reserved actual 0 ((fun s => n s + (actual - reserved)) <$> scopes))
        else ks = tf_keys fl /\ exists j, (j < 4)%nat /\ r = Ok (RArray [RInt 3; RInt (1 + Z.of_nat j)])
      else
        ks = tf_keys fl /\
        if decide (g_scopes e = scopes /\ g_reserved e = reserved /\ g_actual e = Some actual)
        then r = Ok (settled_reply (time_ms clock) reserved actual 1 (n <$> scopes))
        else r = Ok (RArray [RInt 2])
  | _, _ => ks = tf_keys fl /\ r = Ok (RArray [RInt 1])
  end.

(** Releasing never drives a counter below zero. *)
Lemma used_release w id e log s : map_Forall (fun _ e => entry_ok e) log -> log !! (w, id) = Some e -> s ∈ g_scopes e -> charge e <= used w s log.
Proof using.
  intros Hok He Hs. pose proof (map_sum_ge (fun k e => if decide (k.1 = w /\ s ∈ g_scopes e) then charge e else 0) log (w, id) e) as H.
  cbv beta in H. rewrite decide_True in H by done. apply H; [|done]. intros k e' Hk. destruct (Hok k e' Hk) as (_ & Hr & Ha). case_decide; [|done].
  unfold charge. destruct (g_actual e'); simpl; lia.
Qed.

Lemma settle_decides fl clock l handle actual scopes ks r :
  tpm_inv fl -> tl_keyPrefix l = prefix -> 1 <= hd_ReservedTokens handle <= exact_max -> 0 <= act_Tokens actual <= exact_max ->
  normalizeScopes (hd_Scopes handle) = Ok scopes ->
  redisTPMSettleScript clock (tf_keys fl) [tpm_windowKey l (hd_Window handle)]
    (redisTPMSettleArguments handle actual (fingerprint scopes) scopes) = (ks, r) ->
  settle_spec fl clock handle (act_Tokens actual) scopes ks r.
Proof using no_collision.
  intros Hinv Hp Hr Ha Hn E. pose proof (normalized_chain _ _ Hn) as Hch. pose proof (fleet_settle _ _ _ _ _ _ _ _ Hinv Hp Hr Ha Hn E) as Hout.
  unfold settle_spec. pose proof (agrees_live fl (hd_Window handle) (time_ms clock) Hinv) as Hlive. unfold fields_at, live_hash in *.
  destruct (hash_at (tf_keys fl) (time_ms clock) (key_of (hd_Window handle))) as [h|] eqn:Eh; simpl in *.
  2: { by destruct Hout as [| v Hf | Hf | j Hf | fs' Hf]. }
  assert (Hag : agrees (h_fields h) (hd_Window handle) (tf_log fl)).
  { destruct Hlive as [[_ ?]|Hempty]; [done|]. pose proof (inv_hashes _ Hinv (hd_Window handle)) as Hw.
    unfold hash_at in Eh. destruct (tf_keys fl !! key_of (hd_Window handle)) as [h'|]; [|done]. destruct Hw as [Hw _].
    assert (h' = h) as -> by (by repeat case_match; simplify_eq). done. }
  pose proof (agrees_records _ _ _ Hag (hd_ReservationID handle)) as Hrec.
  destruct (tf_log fl !! (hd_Window handle, hd_ReservationID handle)) as [e|] eqn:Ee; simpl in Hrec.
  2: { destruct Hout as [| v Hf | Hf | j Hf | fs' Hf]; [done|by rewrite Hrec in Hf..]. }
  pose proof (inv_entries _ Hinv _ _ Ee) as Hok. destruct Hch as (Hl & Hv & Hnd) eqn:Hd. clear Hd.
  pose proof (value_pending_iff e (hd_ReservedTokens handle) scopes Hok Hch) as Hpend.
  pose proof (value_settled_iff e (hd_ReservedTokens handle) (act_Tokens actual) scopes Hok Hch) as Hset.
  assert (Hrange : same_pending e scopes (hd_ReservedTokens handle) ->
    in_range (h_fields h) (act_Tokens actual - hd_ReservedTokens handle) scopes <->
    Forall (fun s => used (hd_Window handle) s (tf_log fl) + (act_Tokens actual - hd_ReservedTokens handle) <= exact_max) scopes).
  { intros (Hsc & Hres & Hact). unfold in_range. rewrite !Forall_forall. rewrite Forall_forall in Hv. split; intros H s Hs; specialize (H s Hs);
      pose proof (holds_count _ _ _ (agrees_counts _ _ _ Hag s (Hv s Hs))) as Hc; rewrite Hc in *; [lia|].
    pose proof (used_release _ _ _ _ s (inv_entries _ Hinv) Ee ltac:(by rewrite Hsc)) as Hge. unfold charge in Hge. rewrite Hact in Hge. simpl in Hge. lia. }
  destruct Hout as [Hf | v Hf Hv1 Hv2 | Hf | j Hf Hin Hj | fs' Hf Hin Hfs]; rewrite Hrec in Hf; simplify_eq.
  - rewrite decide_False by (by rewrite <- Hpend). split; [done|]. by rewrite decide_False by (by rewrite <- Hset).
  - rewrite decide_False by (rewrite <- Hpend, Hf; apply not_eq_sym, pending_not_settled). split; [done|].
    rewrite decide_True by (by apply Hset). by rewrite (used_counts _ _ _ _ (fun z => z) Hag Hv).
  - rewrite decide_True by (by apply Hpend). rewrite decide_False by (rewrite <- Hrange by (by apply Hpend); done). split; [done|]. by exists j.
  - rewrite decide_True by (by apply Hpend). rewrite decide_True by (apply Hrange; [by apply Hpend|done]).
    by rewrite (used_counts _ _ _ _ (fun z => z + (act_Tokens actual - hd_ReservedTokens handle)) Hag Hv).
Qed.
End fleet.
