(* ===== verification/RedisTPMProperties.v ===== *)
(** * What the token limiter promises its callers *)
From Stdlib Require Import ZArith Lia Bool Ascii String.
From stdpp Require Import base tactics option list strings gmap fin_maps sets relations.
From S2P Require Import Prelude Identifiers Retry Metering TPM LimitPolicy LocalLimiter Redis RedisRPM RedisRPMTheorems RedisTPM RedisTPMTheorems.
(** ** Replies are understood *)
Lemma reserve_time_parse clock retention : clock_ok clock -> 0 < retention ->
  assignRedisTPMReserveTime (RInt (minute_of clock)) (RInt (time_ms clock)) (RInt (reset_ms clock)) None = Some (times_of clock, 0) /\
  assignRedisTPMReserveTime (RInt (minute_of clock)) (RInt (time_ms clock)) (RInt (reset_ms clock)) (Some (RInt (reset_ms clock + retention))) =
    Some (times_of clock, reset_ms clock + retention).
Proof.
  intros Hc Hr. unfold assignRedisTPMReserveTime. rewrite times_parse by done. split; [done|]. cbn [mbind option_bind redisRPMInt64 times_of snd].
  by destruct (Z.leb_spec (reset_ms clock + retention) (reset_ms clock)); [lia|].
Qed.

Lemma parse_mismatch clock requested : clock_ok clock ->
  parseRedisTPMReserveResponse (mismatch_reply clock) requested = Ok (reserve_response 2 (times_of clock) 0 0 0 0 false []).
Proof. intros Hc. destruct (reserve_time_parse clock 1 Hc ltac:(lia)) as [H _]. cbn -[assignRedisTPMReserveTime]. by rewrite H. Qed.

Lemma parse_denied clock j count limit requested :
  clock_ok clock -> (j < 4)%nat -> 0 < limit <= MaximumValue -> 0 <= count -> 1 <= requested <= MaximumValue -> limit < count + requested ->
  parseRedisTPMReserveResponse (denied_reply clock j count limit) requested =
    Ok (reserve_response 0 (times_of clock) 0 (Z.of_nat j) count limit false []).
Proof.
  intros Hc Hj Hl Hn Hr Hlt. destruct (reserve_time_parse clock 1 Hc ltac:(lia)) as [H _].
  cbn -[assignRedisTPMReserveTime assignRedisTPMDenial Z.add]. unfold assignRedisTPMDenial. cbn [redisRPMInt64 redisRPMUint64 mbind option_bind].
  destruct (Z.ltb_spec count 0); [lia|]. destruct (Z.ltb_spec limit 0); [lia|]. cbn [mbind option_bind].
  replace (index_ok (1 + Z.of_nat j)) with true by (symmetry; unfold index_ok, requiredScopeCount; prop_goal; lia).
  replace (exceeds count requested limit) with true.
  2: { symmetry. unfold exceeds. destruct (Z.ltb_spec limit requested); [done|]. simpl. apply Z.ltb_lt.
       unfold MaximumValue in *. rewrite u64_sub_small by (unfold u64_max; lia). lia. }
  destruct (Z.eqb_spec limit 0), (Z.ltb_spec MaximumValue limit); try lia. cbn [negb orb times_reply]. rewrite H. cbn [mbind option_bind fst or_protocol].
  do 2 f_equal. lia.
Qed.

Lemma mapM_counts (p : reply -> option Z) (counts : list Z) : (forall c, c ∈ counts -> p (RInt c) = Some c) -> mapM p (RInt <$> counts) = Some counts.
Proof.
  induction counts as [|c counts IH]; intros H; [done|]. rewrite fmap_cons. cbn [mapM].
  rewrite H by (by left). cbn [mbind option_bind]. rewrite IH; [done|]. intros; apply H. by right.
Qed.

Lemma parse_reserved clock retention (idempotent : bool) counts requested :
  clock_ok clock -> 0 < retention -> length counts = 4%nat -> Forall (fun c => 0 < c <= MaximumValue) counts ->
  parseRedisTPMReserveResponse (reserved_reply clock retention (if idempotent then 1 else 0) counts) requested =
    Ok (reserve_response 1 (times_of clock) (reset_ms clock + retention) 0 0 0 idempotent counts).
Proof.
  intros Hc Hr Hl Hb. destruct (reserve_time_parse clock retention Hc Hr) as [_ H].
  pose proof (mapM_counts allowed_count counts) as Hm. destruct (four _ Hl) as (a & b & c & d & ->).
  unfold reserved_reply, reserve_times, times_reply. rewrite !fmap_cons, fmap_nil in *. cbn [app parseRedisTPMReserveResponse redisRPMInt64 assignRedisTPMAllowed].
  rewrite H. cbn [mbind option_bind]. rewrite Hm.
  - by destruct idempotent.
  - intros x Hx. rewrite Forall_forall in Hb. specialize (Hb x Hx). unfold allowed_count. cbn [redisRPMUint64].
    destruct (Z.ltb_spec x 0); [lia|]. cbn [mbind option_bind]. by destruct (Z.eqb_spec x 0), (Z.ltb_spec MaximumValue x); try lia.
Qed.

Lemma allowed_counts_spec idempotent scoped (n : Scope -> Z) :
  (idempotent = true \/ Forall (fun sp => n sp.1 <= tpm_hard sp.2) scoped) ->
  tpm_allowed_counts idempotent scoped (n <$> scoped.*1) =
    Ok ((fun sp => {| tc_Scope := sp.1; tc_Count := n sp.1; tc_Soft := eff_Soft (eff_TPM sp.2);
                      tc_SoftExceeded := eff_Soft (eff_TPM sp.2) <? n sp.1 |}) <$> scoped).
Proof.
  induction scoped as [|[s p] scoped IH]; intros H; [done|]. rewrite !fmap_cons. cbn [tpm_allowed_counts fst snd].
  replace (idempotent || (n s <=? tpm_hard p)) with true
    by (symmetry; destruct H as [->|[H _]%Forall_cons]; [done|]; apply orb_true_iff; right; by apply Z.leb_le).
  rewrite IH; [done|]. destruct H as [H|[_ H]%Forall_cons]; auto.
Qed.

(** ** ReserveTPM *)
Section reserve.
Context (sha256hex : string -> string).
Hypothesis no_collision : collision_free sha256hex.

(** The answer to a reservation, by the ledger of the fleet. *)
Definition reservation_answer (fl : TPMFleet) (clock : Clock) (request : RedisTPMReserveRequest) (scoped : list (Scope * Effective))
    (answer : result RedisTPMReservation redis_tpm_error) : Prop :=
  let w := minute_of clock in
  let requested := plan_ReservedTokens (rr_Plan request) in
  let n s := used w s (tf_log fl) in
  match tf_log fl !! (w, rr_ReservationID request) with
  | Some e =>
      if decide (same_pending e scoped.*1 requested)
      then exists rv, answer = Ok rv /\ TPM_Allowed rv = true /\ rv_Idempotent rv = true /\ tc_Count <$> rv_Counts rv = n <$> scoped.*1
      else answer = Err ErrRedisTPMReservationConflict
  | None =>
      if decide (Forall (fun sp => n sp.1 + requested <= tpm_hard sp.2) scoped)
      then exists rv, answer = Ok rv /\ TPM_Allowed rv = true /\ rv_Idempotent rv = false /\
             tc_Count <$> rv_Counts rv = (fun s => n s + requested) <$> scoped.*1 /\
             rv_Handle rv = {| hd_ReservationID := rr_ReservationID request; hd_Window := w; hd_Scopes := scoped.*1; hd_ReservedTokens := requested |}
      else exists rv j s p, answer = Ok rv /\ TPM_Allowed rv = false /\ scoped !! j = Some (s, p) /\ tpm_hard p < n s + requested /\
             rv_Rejection rv = Some {| tj_Scope := s; tj_Count := n s; tj_Requested := requested; tj_Hard := tpm_hard p;
               tj_RetryAfter := (reset_ms clock - time_ms clock) * millisecond; tj_ResetAt := UnixMilli (reset_ms clock) |}
  end.

(** How the client reads a reply that is not a minute mismatch. *)
Definition interpret (l : RedisTPMLimiter) (request : RedisTPMReserveRequest) (scoped : list (Scope * Effective)) (window : Z) (p : parsedRedisTPMReserve)
    : result RedisTPMReservation redis_tpm_error :=
  if q_code p =? 0 then
    if negb (q_window p =? window) then Err ErrRedisTPMProtocol else deniedRedisTPMReservation (tpm_windowKey l window) request scoped p
  else if q_code p =? 1 then
    if negb (q_window p =? window) || (i64_max - tl_retentionMS l <? q_resetMS p) || negb (q_expiresMS p =? q_resetMS p + tl_retentionMS l)
    then Err ErrRedisTPMProtocol
    else allowedRedisTPMReservation (tpm_windowKey l window) request scoped p
  else if q_code p =? 3 then Err ErrRedisTPMProtocol
  else if q_code p =? 4 then Err ErrRedisTPMReservationConflict
  else Err ErrRedisTPMProtocol.

Notation arguments l request scoped window :=
  (redisTPMReserveArguments window (tl_retentionMS l) (rr_ReservationID request) (redisScopeFingerprint sha256hex scoped.*1)
     (plan_ReservedTokens (rr_Plan request)) scoped).

Lemma reserve_loop_reply {E : Type} `{RedisEvaluator Keyspace E} fuel (e e' : E) ctx l request scoped window raw p :
  Eval e ctx redisTPMReserveScript [tpm_windowKey l window] (arguments l request scoped window) = (e', Ok raw) ->
  parseRedisTPMReserveResponse raw (plan_ReservedTokens (rr_Plan request)) = Ok p ->
  tpm_reserve_loop sha256hex (S fuel) e ctx l request scoped window =
  if q_code p =? 2 then tpm_reserve_loop sha256hex fuel e' ctx l request scoped (q_window p) else (e', interpret l request scoped window p).
Proof using. intros H1 H2. cbn [tpm_reserve_loop]. by rewrite H1, H2. Qed.

Lemma interpret_reserved l request scoped clock (idempotent : bool) (n : Scope -> Z) :
  reset_ms clock <= i64_max - tl_retentionMS l -> length scoped = 4%nat -> rr_ReservationID request <> ""%string ->
  (idempotent = true \/ Forall (fun sp => n sp.1 <= tpm_hard sp.2) scoped) ->
  exists rv, interpret l request scoped (minute_of clock)
      (reserve_response 1 (times_of clock) (reset_ms clock + tl_retentionMS l) 0 0 0 idempotent (n <$> scoped.*1)) = Ok rv /\
    TPM_Allowed rv = true /\ rv_Idempotent rv = idempotent /\ tc_Count <$> rv_Counts rv = n <$> scoped.*1 /\
    rv_Handle rv = {| hd_ReservationID := rr_ReservationID request; hd_Window := minute_of clock; hd_Scopes := scoped.*1;
                      hd_ReservedTokens := plan_ReservedTokens (rr_Plan request) |}.
Proof using.
  intros Hi Hl Hid Hn. unfold interpret. cbn [q_code reserve_response Z.eqb Pos.eqb q_window times_of fst snd q_resetMS q_expiresMS].
  rewrite !Z.eqb_refl. destruct (Z.ltb_spec (i64_max - tl_retentionMS l) (reset_ms clock)); [lia|]. cbn [negb orb].
  unfold allowedRedisTPMReservation. cbn [q_idempotent q_counts reserve_response]. rewrite allowed_counts_spec by done. cbn [result_bind].
  eexists. split; [reflexivity|]. unfold TPM_Allowed. cbn [rv_Rejection rv_Counts rv_Handle rv_Idempotent hd_ReservationID].
  rewrite length_fmap, Hl, bool_decide_eq_false_2 by done. split_and!; try done. by rewrite <- !list_fmap_compose.
Qed.

Lemma interpret_denied l request scoped clock j s p c :
  clock_ok clock -> scoped !! j = Some (s, p) ->
  exists rv, interpret l request scoped (minute_of clock) (reserve_response 0 (times_of clock) 0 (Z.of_nat j) c (tpm_hard p) false []) = Ok rv /\
    TPM_Allowed rv = false /\
    rv_Rejection rv = Some {| tj_Scope := s; tj_Count := c; tj_Requested := plan_ReservedTokens (rr_Plan request); tj_Hard := tpm_hard p;
      tj_RetryAfter := (reset_ms clock - time_ms clock) * millisecond; tj_ResetAt := UnixMilli (reset_ms clock) |}.
Proof using.
  intros Hc Hj. unfold interpret. cbn [q_code reserve_response Z.eqb Pos.eqb q_window times_of fst snd]. rewrite Z.eqb_refl. cbn [negb].
  unfold deniedRedisTPMReservation. cbn [q_scopeIndex reserve_response q_hard q_nowMS q_resetMS q_count times_of fst snd]. rewrite Nat2Z.id, Hj, Z.eqb_refl.
  destruct (retry_after clock Hc) as [-> Hnn]. eexists. split; [reflexivity|]. split; [done|]. cbn [rv_Rejection]. by rewrite Z.max_l.
Qed.

Lemma used_positive w id e log s : map_Forall (fun _ e => entry_ok e) log -> log !! (w, id) = Some e -> g_actual e = None -> s ∈ g_scopes e -> 0 < used w s log.
Proof using.
  intros Hok He Ha Hs. pose proof (used_release _ _ _ _ s Hok He Hs) as H. destruct (Hok _ _ He) as (_ & Hr & _). unfold charge in H.
  rewrite Ha in H. simpl in H. lia.
Qed.

Lemma counts_bounded fl w s : tpm_inv sha256hex (tl_keyPrefix w.1) fl -> Scope_Validate s = true -> 0 <= used w.2 s (tf_log fl) <= MaximumValue.
Proof using.
  intros Hinv Hs. pose proof (inv_hashes _ _ _ Hinv w.2) as Hw. destruct (tf_keys fl !! key_of _ w.2) as [h|].
  - destruct Hw as [Hag _]. by destruct (agrees_counts _ _ _ _ Hag s Hs).
  - rewrite used_unrelated by done. by unfold MaximumValue.
Qed.

(** The loop in the minute of the server. *)
Lemma reserve_in_minute fuel srv fl clock ctx l request bindings scoped ks r :
  tpm_inv sha256hex (tl_keyPrefix l) fl -> steady srv clock -> srv_keys srv = tf_keys fl -> clock_ok clock -> 0 < tl_retentionMS l ->
  reset_ms clock <= i64_max - tl_retentionMS l ->
  1 <= plan_ReservedTokens (rr_Plan request) <= exact_max -> rr_ReservationID request <> ""%string ->
  normalizeRPMBindings bindings = Ok scoped ->
  redisTPMReserveScript clock (tf_keys fl) [tpm_windowKey l (minute_of clock)] (arguments l request scoped (minute_of clock)) = (ks, r) ->
  exists answer, tpm_reserve_loop sha256hex (S fuel) srv ctx l request scoped (minute_of clock) = (called srv ks, answer) /\
    reservation_answer fl clock request scoped answer.
Proof using no_collision.
  intros Hinv Hst Hkeys Hclock Hret Hi64 Hreq Hid Hn E.
  assert (HE : Eval srv ctx redisTPMReserveScript [tpm_windowKey l (minute_of clock)] (arguments l request scoped (minute_of clock)) = (called srv ks, r))
    by (apply (Eval_steady _ clock); [done|by rewrite Hkeys]).
  pose proof (reserve_decides _ _ no_collision fl clock l _ (rr_Plan request) bindings scoped _ ks r Hinv Hclock eq_refl Hreq Hn E) as Hspec.
  destruct (bound_chain _ _ Hn) as ((_ & Hvs & _) & Hv & Hl & _). rewrite Forall_forall in Hvs.
  assert (Hb : forall s, s ∈ scoped.*1 -> 0 <= used (minute_of clock) s (tf_log fl) <= MaximumValue)
    by (intros s Hs; by apply (counts_bounded fl (l, minute_of clock)); [|apply Hvs]).
  unfold reserve_spec in Hspec. rewrite decide_True in Hspec by done. unfold reservation_answer.
  assert (Hlen : forall n : Scope -> Z, length (n <$> scoped.*1) = 4%nat) by (intros; by rewrite !length_fmap).
  destruct (tf_log fl !! (minute_of clock, rr_ReservationID request)) as [e|] eqn:Ee.
  - destruct Hspec as [_ Hspec]. destruct (decide (same_pending _ _ _)) as [(Hsc & _ & Hact)|_]; subst r.
    + erewrite (reserve_loop_reply _ _ _ _ _ _ _ _ _ _ HE).
      2: { apply (parse_reserved clock (tl_retentionMS l) true); [done..|]. rewrite Forall_fmap. apply Forall_forall. intros s Hs. simpl.
           split; [|by apply Hb]. eapply used_positive; [apply Hinv|done..|by rewrite Hsc]. }
      eexists. split; [reflexivity|]. destruct (interpret_reserved l request scoped clock true (fun s => used (minute_of clock) s (tf_log fl)))
        as (rv & -> & H1 & H2 & H3 & _); auto. by exists rv.
    + erewrite (reserve_loop_reply _ _ _ _ _ _ _ _ _ _ HE) by reflexivity. by eexists.
  - destruct (decide (Forall _ _)) as [Hfit|_].
    + subst r. erewrite (reserve_loop_reply _ _ _ _ _ _ _ _ _ _ HE).
      2: { apply (parse_reserved clock (tl_retentionMS l) false); [done..|]. rewrite Forall_fmap. apply Forall_forall. intros s Hs. simpl.
           specialize (Hb s Hs). apply list_elem_of_fmap in Hs as ([s' p] & -> & Hs). unfold valid_scoped in Hv. rewrite Forall_forall in Hfit, Hv.
           specialize (Hfit _ Hs). destruct (Hv _ Hs) as [_ Hp%tpm_limits]. unfold exact_max, MaximumValue in *. simpl in *. lia. }
      eexists. split; [reflexivity|].
      destruct (interpret_reserved l request scoped clock false (fun s => used (minute_of clock) s (tf_log fl) + plan_ReservedTokens (rr_Plan request)))
        as (rv & -> & H1 & H2 & H3 & H4); auto. by exists rv.
    + destruct Hspec as (_ & j & s & p & Hj & Hlt & ->).
      assert (Hsp : (s, p) ∈ scoped) by (by eapply list_elem_of_lookup_2).
      erewrite (reserve_loop_reply _ _ _ _ _ _ _ _ _ _ HE).
      2: { unfold valid_scoped in Hv. rewrite Forall_forall in Hv. destruct (Hv _ Hsp) as [_ Hp%tpm_limits]. apply lookup_lt_Some in Hj as Hj'.
           assert (0 <= used (minute_of clock) s (tf_log fl) <= MaximumValue) by (apply Hb, list_elem_of_fmap; by exists (s, p)).
           cbn [snd] in Hp. unfold exact_max, MaximumValue in *. apply parse_denied; unfold MaximumValue; done || lia. }
      eexists. split; [reflexivity|]. destruct (interpret_denied l request scoped clock j s p (used (minute_of clock) s (tf_log fl))) as (rv & -> & H1 & H2);
        [done..|]. by exists rv, j, s, p.
Qed.

(** A first evaluation in the wrong minute only tells the minute. *)
Lemma reserve_elsewhere fuel srv fl clock ctx l request bindings scoped w :
  tpm_inv sha256hex (tl_keyPrefix l) fl -> steady srv clock -> srv_keys srv = tf_keys fl -> clock_ok clock ->
  1 <= plan_ReservedTokens (rr_Plan request) <= exact_max -> normalizeRPMBindings bindings = Ok scoped -> w <> minute_of clock ->
  tpm_reserve_loop sha256hex (S fuel) srv ctx l request scoped w =
  tpm_reserve_loop sha256hex fuel (called srv (tf_keys fl)) ctx l request scoped (minute_of clock).
Proof using no_collision.
  intros Hinv Hst Hkeys Hclock Hreq Hn Hw.
  destruct (redisTPMReserveScript clock (tf_keys fl) [tpm_windowKey l w] (arguments l request scoped w)) as [ks r] eqn:E.
  pose proof (reserve_decides _ _ no_collision fl clock l _ (rr_Plan request) bindings scoped _ ks r Hinv Hclock eq_refl Hreq Hn E) as Hspec.
  unfold reserve_spec in Hspec. rewrite decide_False in Hspec by done. destruct Hspec as [-> ->].
  erewrite reserve_loop_reply; [|by apply (Eval_steady _ clock); [|rewrite Hkeys]|by apply parse_mismatch]. done.
Qed.
End reserve.

Lemma NewRedisTPMLimiter_Ok options l :
  NewRedisTPMLimiter options = Ok l -> 0 < tl_retentionMS l <= 24 * 3600000 /\ 1 <= tl_clockRetries l.
Proof.
  unfold NewRedisTPMLimiter. destruct (_ && _) eqn:H; [|done]. intros [= <-]. prop_hyps. cbn [tl_retentionMS tl_clockRetries].
  unfold maximumRedisTPMRetention, hour, millisecond in *.
  assert (tpm_Retention options ÷ 1000000 <= 24 * 3600000).
  { destruct (Z_le_gt_dec 0 (tpm_Retention options)).
    - rewrite Z.quot_div_nonneg by lia. apply Z.div_le_upper_bound; lia.
    - enough (tpm_Retention options ÷ 1000000 <= 0) by lia. apply Z.quot_le_upper_bound; lia. }
  lia.
Qed.

Lemma reservation_id_nonempty id : validTPMReservationID id = true -> id <> ""%string.
Proof. by intros H ->. Qed.

(** ** Properties of reservations *)

(** C12: the token limit holds across the fleet. In every state that gateways can reach
    by evaluating the reserve and settle scripts, with any interleaving, local clocks,
    policies and lost replies, an evaluation in the server's minute charges a new
    reservation exactly when, in each of its four scopes, the tokens charged in this
    minute (reserved, or used once settled) and the requested ones fit under the hard
    boundary. A repeated unsettled reservation is confirmed without a charge, another
    use of its ID is a conflict, and a refusal names a scope without room; none of
    these writes anything. *)
Theorem fleet_enforces_token_limit sha256hex prefix fl clock l id plan bindings scoped w ks r :
  collision_free sha256hex -> tpm_reachable sha256hex prefix fl -> clock_ok clock -> tl_keyPrefix l = prefix ->
  1 <= plan_ReservedTokens plan <= exact_max -> normalizeRPMBindings bindings = Ok scoped ->
  redisTPMReserveScript clock (tf_keys fl) [tpm_windowKey l w]
    (redisTPMReserveArguments w (tl_retentionMS l) id (redisScopeFingerprint sha256hex scoped.*1) (plan_ReservedTokens plan) scoped) = (ks, r) ->
  reserve_spec fl clock (tl_retentionMS l) id (plan_ReservedTokens plan) scoped w ks r.
Proof.
  intros Hcf Hfl Hclock Hp Hreq Hn E. pose proof (tpm_reachable_inv _ _ Hcf _ Hfl) as Hinv. by eapply reserve_decides.
Qed.

(** Against a server in any state the fleet can reach, [ReserveTPM] decides every
    valid request by the ledger of the server's minute, whatever the gateway's own
    clock says, within two evaluations: it grants and reports the new counters, or
    confirms the same unsettled reservation, or reports a conflict, or names a full
    scope with the time until the next minute. *)
Theorem ReserveTPM_decides sha256hex options l fl srv clock request scoped now :
  collision_free sha256hex -> NewRedisTPMLimiter options = Ok l -> tpm_reachable sha256hex (tl_keyPrefix l) fl ->
  steady srv clock -> srv_keys srv = tf_keys fl -> clock_ok clock -> reset_ms clock <= exact_max ->
  validTPMReservationID (rr_ReservationID request) = true -> plan_validate (rr_Plan request) = true ->
  0 <= plan_ReservedTokens (rr_Plan request) -> normalizeRPMBindings (rr_Bindings request) = Ok scoped ->
  2 <= tl_clockRetries l \/ local_window now = minute_of clock ->
  exists srv' answer, ReserveTPM sha256hex srv l ctx_live request now = (srv', answer) /\ reservation_answer fl clock request scoped answer.
Proof.
  intros Hcf Hl Hfl Hst Hkeys Hclock Hreset Hid Hplan Hpos Hn Hretry. pose proof (tpm_reachable_inv _ _ Hcf _ Hfl) as Hinv.
  destruct (NewRedisTPMLimiter_Ok _ _ Hl) as [Hret Hcr]. unfold ReserveTPM. rewrite Hid, Hplan, Hn. cbn [negb orb].
  assert (Hreq : 1 <= plan_ReservedTokens (rr_Plan request) <= exact_max).
  { unfold plan_validate in Hplan. apply negb_true_iff in Hplan. prop_hyps. unfold MaximumValue, exact_max in *. lia. }
  apply reservation_id_nonempty in Hid. assert (Hi64 : reset_ms clock <= i64_max - tl_retentionMS l) by (unfold exact_max, i64_max in *; lia).
  destruct (redisTPMReserveScript clock (tf_keys fl) [tpm_windowKey l (minute_of clock)] (redisTPMReserveArguments (minute_of clock) (tl_retentionMS l)
    (rr_ReservationID request) (redisScopeFingerprint sha256hex scoped.*1) (plan_ReservedTokens (rr_Plan request)) scoped)) as [ks r] eqn:E.
  destruct (decide (local_window now = minute_of clock)) as [->|Hw].
  - destruct (Z.to_nat (tl_clockRetries l)) as [|fuel] eqn:Ef; [lia|].
    destruct (reserve_in_minute sha256hex Hcf fuel srv fl clock ctx_live l request (rr_Bindings request) scoped ks r) as (answer & -> & Ha); try done; [lia|].
    by exists (called srv ks), answer.
  - destruct (Z.to_nat (tl_clockRetries l)) as [|[|fuel]] eqn:Ef; [lia|destruct Hretry; [lia|done]|].
    rewrite (reserve_elsewhere sha256hex Hcf _ srv fl clock ctx_live l request (rr_Bindings request)) by done.
    destruct (reserve_in_minute sha256hex Hcf fuel (called srv (tf_keys fl)) fl clock ctx_live l request (rr_Bindings request) scoped ks r)
      as (answer & -> & Ha); try done; [lia|]. by exists (called (called srv (tf_keys fl)) ks), answer.
Qed.

(** ** SettleTPM *)
Lemma parse_settled clock handle actual (idempotent : bool) counts :
  clock_ok clock -> 0 < hd_ReservedTokens handle <= MaximumValue -> 0 <= act_Tokens actual <= MaximumValue ->
  length counts = 4%nat -> Forall (fun c => 0 <= c <= MaximumValue) counts ->
  parseRedisTPMSettleResponse (settled_reply (time_ms clock) (hd_ReservedTokens handle) (act_Tokens actual) (if idempotent then 1 else 0) counts) handle actual =
    Ok (settle_response 0 (time_ms clock) (act_Tokens actual - hd_ReservedTokens handle) 0 idempotent counts).
Proof.
  intros Hc Hr Ha Hl Hb. destruct (clock_times clock Hc) as (_ & Ht & _). pose proof (mapM_counts settled_count counts) as Hm.
  destruct (four _ Hl) as (a & b & c & d & ->). unfold settled_reply. rewrite !fmap_cons, fmap_nil in *.
  cbn [app parseRedisTPMSettleResponse redisRPMInt64 assignRedisTPMSettlement mbind option_bind redisRPMUint64].
  destruct (Z.ltb_spec (hd_ReservedTokens handle) 0); [lia|]. cbn [mbind option_bind]. destruct (Z.ltb_spec (act_Tokens actual) 0); [lia|]. cbn [mbind option_bind].
  replace (redisTPMDelta (hd_ReservedTokens handle) (act_Tokens actual)) with (Some (act_Tokens actual - hd_ReservedTokens handle)).
  2: { unfold redisTPMDelta. unfold MaximumValue in *. cbv zeta. destruct (Z.leb_spec (hd_ReservedTokens handle) (act_Tokens actual)).
       - by destruct (Z.ltb_spec 9007199254740991 (act_Tokens actual - hd_ReservedTokens handle)); [lia|].
       - destruct (Z.ltb_spec 9007199254740991 (hd_ReservedTokens handle - act_Tokens actual)); [lia|]. f_equal. lia. }
  cbn [mbind option_bind]. rewrite !Z.eqb_refl. destruct (Z.ltb_spec (time_ms clock) 0); [lia|]. cbn [negb orb]. rewrite Hm.
  - by destruct idempotent.
  - intros x Hx. rewrite Forall_forall in Hb. specialize (Hb x Hx). unfold settled_count. cbn [redisRPMUint64].
    destruct (Z.ltb_spec x 0); [lia|]. cbn [mbind option_bind]. by destruct (Z.ltb_spec MaximumValue x); [lia|].
Qed.

Lemma used_settle w id e log a s :
  log !! (w, id) = Some e -> s ∈ g_scopes e -> used w s (<[(w, id) := settle_entry e a]> log) = used w s log + (a - charge e).
Proof.
  intros He Hs. unfold used. rewrite (map_sum_insert _ _ _ e) by done. cbn [fst g_scopes settle_entry]. rewrite !decide_True by done.
  change (charge (settle_entry e a)) with a. lia.
Qed.

Lemma zip_counts (scopes : list Scope) (f : Scope -> Z) :
  tc_Count <$> zip_with (fun scope count => {| tc_Scope := scope; tc_Count := count; tc_Soft := 0; tc_SoftExceeded := false |}) scopes (f <$> scopes) =
  f <$> scopes.
Proof. induction scopes as [|s scopes IH]; [done|]. simpl. f_equal. exact IH. Qed.

Section settle.
Context (sha256hex : string -> string) (l : RedisTPMLimiter).
Hypothesis no_collision : collision_free sha256hex.
Notation settle_args handle actual scopes := (redisTPMSettleArguments handle actual (redisScopeFingerprint sha256hex scopes) scopes).

Lemma SettleTPM_reply srv clock handle actual scopes ks raw p :
  steady srv clock -> actual_validate actual = true -> validateRedisTPMHandle handle = Ok scopes ->
  redisTPMSettleScript clock (srv_keys srv) [tpm_windowKey l (hd_Window handle)] (settle_args handle actual scopes) = (ks, Ok raw) ->
  parseRedisTPMSettleResponse raw handle actual = Ok p ->
  SettleTPM sha256hex srv l ctx_live handle actual =
  (called srv ks, if s_code p =? 0 then Ok (redisTPMSettlement (tpm_windowKey l (hd_Window handle)) handle scopes actual p)
                  else if s_code p =? 1 then Err ErrRedisTPMReservationExpired
                  else if s_code p =? 2 then Err ErrRedisTPMReservationConflict else Err ErrRedisTPMProtocol).
Proof using.
  intros Hst Ha Hh E Hp. unfold SettleTPM. rewrite Ha, Hh. cbn [negb]. rewrite (Eval_steady _ clock _ _ _ _ _ _ Hst E). by rewrite Hp.
Qed.

Lemma validateRedisTPMHandle_Ok handle scopes :
  validateRedisTPMHandle handle = Ok scopes -> 0 <= hd_ReservedTokens handle ->
  normalizeScopes (hd_Scopes handle) = Ok scopes /\ 1 <= hd_ReservedTokens handle <= MaximumValue.
Proof using.
  unfold validateRedisTPMHandle. destruct (_ && _) eqn:H; [|done]. destruct (normalizeScopes _); [|done]. intros [= ->] Hp. prop_hyps. split; [done|lia].
Qed.

(** The keyspace after a settlement is that of the fleet with the ledger settled, and
    its hash is still there. *)
Lemma settle_next fl clock handle actual scopes ks r e :
  tpm_inv sha256hex (tl_keyPrefix l) fl -> 1 <= hd_ReservedTokens handle <= exact_max -> 0 <= act_Tokens actual <= exact_max ->
  normalizeScopes (hd_Scopes handle) = Ok scopes -> tf_log fl !! (hd_Window handle, hd_ReservationID handle) = Some e ->
  same_pending e scopes (hd_ReservedTokens handle) -> is_Some (hash_at (tf_keys fl) (time_ms clock) (key_of (tl_keyPrefix l) (hd_Window handle))) ->
  Forall (fun s => used (hd_Window handle) s (tf_log fl) + (act_Tokens actual - hd_ReservedTokens handle) <= exact_max) scopes ->
  redisTPMSettleScript clock (tf_keys fl) [tpm_windowKey l (hd_Window handle)] (settle_args handle actual scopes) = (ks, r) ->
  r = Ok (settled_reply (time_ms clock) (hd_ReservedTokens handle) (act_Tokens actual) 0
        ((fun s => used (hd_Window handle) s (tf_log fl) + (act_Tokens actual - hd_ReservedTokens handle)) <$> scopes)) /\
  tpm_inv sha256hex (tl_keyPrefix l) {| tf_keys := ks; tf_time := time_ms clock;
    tf_log := <[(hd_Window handle, hd_ReservationID handle) := settle_entry e (act_Tokens actual)]> (tf_log fl) |} /\
  is_Some (hash_at ks (time_ms clock) (key_of (tl_keyPrefix l) (hd_Window handle))).
Proof using no_collision.
  intros Hinv Hr Ha Hn He Hpend [h Hh] Hfit E.
  pose proof (settle_decides _ _ no_collision fl clock l handle actual scopes ks r Hinv eq_refl Hr Ha Hn E) as Hspec.
  unfold settle_spec in Hspec. rewrite Hh, He in Hspec. rewrite !decide_True in Hspec by done. split; [done|].
  pose proof (settle_step_inv _ _ no_collision fl clock l handle actual scopes ks r Hinv eq_refl Hr Ha Hn E) as Hinv'.
  unfold log_settle in Hinv'. rewrite Hspec, He in Hinv'. split; [done|].
  pose proof (fleet_settle _ _ no_collision fl clock l handle actual scopes ks r Hinv eq_refl Hr Ha Hn E) as Hout. subst r.
  inversion Hout as [| |  | |fs' _ _ _]; subst. rewrite hash_at_insert, decide_True by done. cbn [h_expires].
  unfold live_hash. rewrite Hh. simpl. unfold hash_at in Hh. destruct (tf_keys fl !! _) as [h'|]; [|done].
  destruct (h_expires h') as [t|] eqn:Et; [destruct (t <? time_ms clock) eqn:El; [done|]|]; simplify_eq; rewrite Et, ?El; by eexists.
Qed.

End settle.

(** A settlement replaces the reserved tokens by the tokens used, once. For a
    pending reservation of any reachable fleet whose hash has not expired and whose
    counters have room for an overage, [SettleTPM] reports the exact release or
    overage and the corrected counters of the four scopes; settling again with the
    same usage confirms it without a change, settling with another usage is a
    conflict that changes nothing. *)
Theorem SettleTPM_settles_once sha256hex l fl srv clock handle actual scopes e :
  collision_free sha256hex -> tpm_reachable sha256hex (tl_keyPrefix l) fl -> steady srv clock -> srv_keys srv = tf_keys fl -> clock_ok clock ->
  validateRedisTPMHandle handle = Ok scopes -> 0 <= hd_ReservedTokens handle ->
  actual_validate actual = true -> 0 <= act_InputTokens actual -> 0 <= act_OutputTokens actual ->
  tf_log fl !! (hd_Window handle, hd_ReservationID handle) = Some e -> same_pending e scopes (hd_ReservedTokens handle) ->
  is_Some (hash_at (tf_keys fl) (time_ms clock) (tpm_windowKey l (hd_Window handle))) ->
  let delta := act_Tokens actual - hd_ReservedTokens handle in
  let n s := used (hd_Window handle) s (tf_log fl) + delta in
  Forall (fun s => n s <= exact_max) scopes ->
  exists srv1 st, SettleTPM sha256hex srv l ctx_live handle actual = (srv1, Ok st) /\ st_Idempotent st = false /\
    st_ReleasedTokens st = Z.max 0 (- delta) /\ st_OverageTokens st = Z.max 0 delta /\ tc_Count <$> st_Counts st = n <$> scopes /\
    forall actual2, actual_validate actual2 = true -> 0 <= act_InputTokens actual2 -> 0 <= act_OutputTokens actual2 ->
      exists srv2 answer, SettleTPM sha256hex srv1 l ctx_live handle actual2 = (srv2, answer) /\ srv_keys srv2 = srv_keys srv1 /\
        if decide (act_Tokens actual2 = act_Tokens actual)
        then exists st2, answer = Ok st2 /\ st_Idempotent st2 = true /\ tc_Count <$> st_Counts st2 = n <$> scopes
        else answer = Err ErrRedisTPMReservationConflict.
Proof.
  intros Hcf Hfl Hst Hkeys Hclock Hh Hpos Ha Hi Ho He Hpend Hlive delta n Hfit. pose proof (tpm_reachable_inv _ _ Hcf _ Hfl) as Hinv.
  destruct (validateRedisTPMHandle_Ok _ _ Hh Hpos) as [Hn Hr]. destruct (actual_validate_spec _ Hi Ho Ha) as [_ Hact].
  rewrite (windowKey_prefix _ l (hd_Window handle) eq_refl) in Hlive.
  destruct (redisTPMSettleScript clock (tf_keys fl) [tpm_windowKey l (hd_Window handle)] (redisTPMSettleArguments handle actual
    (redisScopeFingerprint sha256hex scopes) scopes)) as [ks r] eqn:E.
  destruct (settle_next sha256hex l Hcf fl clock handle actual scopes ks r e Hinv Hr Hact Hn He Hpend Hlive Hfit E) as (-> & Hinv1 & Hlive1).
  fold delta in E. assert (Hsc : g_scopes e = scopes) by apply Hpend. assert (Hch : charge e = hd_ReservedTokens handle).
  { destruct Hpend as (_ & <- & Hnone). unfold charge. by rewrite Hnone. }
  destruct (normalized_chain _ _ Hn) as (Hlen & Hvs & _). rewrite Forall_forall in Hfit.
  assert (Hbounds : Forall (fun c => 0 <= c <= MaximumValue) (n <$> scopes)).
  { rewrite Forall_fmap. apply Forall_forall. intros s Hs. split; [|by apply Hfit]. unfold n, delta.
    pose proof (used_release _ _ _ _ s (inv_entries _ _ _ Hinv) He ltac:(by rewrite Hsc)). simpl. lia. }
  do 2 eexists. split.
  { erewrite (SettleTPM_reply sha256hex l srv clock handle actual scopes ks);
      [|done..|by rewrite Hkeys|by apply (parse_settled clock handle actual false); [done|lia|done|rewrite length_fmap|]]. reflexivity. }
  cbn [s_code settle_response Z.eqb redisTPMSettlement st_Idempotent st_ReleasedTokens st_OverageTokens st_Counts s_delta s_counts s_idempotent].
  fold delta. split_and!; [done|destruct (Z.ltb_spec delta 0); lia..|apply zip_counts|].
  intros actual2 Ha2 Hi2 Ho2. destruct (actual_validate_spec _ Hi2 Ho2 Ha2) as [_ Hact2].
  destruct (redisTPMSettleScript clock ks [tpm_windowKey l (hd_Window handle)] (redisTPMSettleArguments handle actual2
    (redisScopeFingerprint sha256hex scopes) scopes)) as [ks2 r2] eqn:E2.
  pose proof (settle_decides _ _ Hcf _ clock l handle actual2 scopes ks2 r2 Hinv1 eq_refl Hr Hact2 Hn E2) as Hspec.
  unfold settle_spec in Hspec. cbn [tf_log tf_keys] in Hspec. destruct Hlive1 as [h1 Hlive1]. rewrite Hlive1, lookup_insert_eq in Hspec.
  rewrite decide_False in Hspec by (intros (_ & _ & ?); done). destruct Hspec as [-> Hr2]. cbn [g_scopes g_reserved g_actual settle_entry] in Hr2.
  assert (Hn' : (fun s => used (hd_Window handle) s (<[(hd_Window handle, hd_ReservationID handle) := settle_entry e (act_Tokens actual)]> (tf_log fl))) <$> scopes = n <$> scopes).
  { apply list_fmap_ext. intros i s Hs. unfold n, delta. rewrite (used_settle _ _ e) by (done || (rewrite Hsc; by eapply list_elem_of_lookup_2)). by rewrite Hch. }
  destruct (decide (act_Tokens actual2 = act_Tokens actual)) as [Heq|Hne].
  - rewrite decide_True in Hr2 by (split_and!; [apply Hpend|apply Hpend|by rewrite Heq]). rewrite Hn' in Hr2. subst r2.
    do 2 eexists. split.
    { erewrite (SettleTPM_reply sha256hex l _ clock handle actual2 scopes ks);
        [|done..|exact E2|by apply (parse_settled clock handle actual2 true); [done|lia|done|rewrite length_fmap|]]. reflexivity. }
    split; [done|]. eexists. split; [reflexivity|]. split; [done|]. apply zip_counts.
  - rewrite decide_False in Hr2 by (intros (_ & _ & ?); congruence). subst r2.
    do 2 eexists. split; [erewrite (SettleTPM_reply sha256hex l _ clock handle actual2 scopes ks); [|done..|exact E2|reflexivity]; reflexivity|]. done.
Qed.

(** ** Witnesses: a fleet with one reservation of sixty tokens *)
Definition demo_tpm : RedisTPMLimiter := {| tl_keyPrefix := "agw:limits:tpm:v1:{tpm}"; tl_retentionMS := 3600000; tl_clockRetries := 3 |}.
Definition demo_plan : TPMReservationPlan :=
  {| plan_InputTokens := 40; plan_MaximumOutputTokens := 20; plan_ReservedTokens := 60; plan_Tokenizer := "t"; plan_TokenizerVersion := "v1";
     plan_PhysicalModel := "m"; plan_DeploymentVersion := 1; plan_ProviderProtocolVersion := "v1"; plan_Estimated := true |}.
Definition demo_reserve (id : string) : RedisTPMReserveRequest :=
  {| rr_ReservationID := id; rr_Bindings := demo_bindings; rr_Plan := demo_plan |}.
Definition demo_sha (s : string) : string := s.
Definition demo_tpm_run (fl : TPMFleet) (id : string) : Keyspace * result reply eval_error :=
  redisTPMReserveScript demo_minute (tf_keys fl) [tpm_windowKey demo_tpm 2]
    (redisTPMReserveArguments 2 3600000 id (redisScopeFingerprint demo_sha demo_scoped.*1) 60 demo_scoped).
Definition demo_tpm_fleet : TPMFleet :=
  {| tf_keys := (demo_tpm_run tpm_start "r1").1; tf_time := time_ms demo_minute;
     tf_log := log_reserve 2 "r1" demo_scoped.*1 60 (demo_tpm_run tpm_start "r1").2 ∅ |}.
Definition demo_tpm_server (clock : Clock) : Server Keyspace :=
  {| srv_keys := tf_keys demo_tpm_fleet; srv_clock := fun _ => clock; srv_net := fun _ => Delivered; srv_calls := 0 |}.

Lemma demo_collision_free : collision_free demo_sha.
Proof. by intros c1 c2 _ _ H. Qed.

Lemma demo_tpm_reachable : tpm_reachable demo_sha (tl_keyPrefix demo_tpm) demo_tpm_fleet.
Proof.
  apply rtc_once.
  refine (step_reserve demo_sha _ tpm_start demo_minute demo_tpm "r1" demo_plan demo_bindings demo_scoped 2 _ _ _ _ eq_refl _ _
    demo_normalized (surjective_pairing _)); by vm_compute.
Qed.

(** A second reservation of sixty tokens is refused under the boundary of a hundred. *)
Lemma fleet_enforces_token_limit_witness :
  (demo_tpm_run demo_tpm_fleet "r2").1 = tf_keys demo_tpm_fleet /\
  exists s p, (s, p) ∈ demo_scoped /\ tpm_hard p < used 2 s (tf_log demo_tpm_fleet) + 60.
Proof.
  pose proof (fleet_enforces_token_limit demo_sha (tl_keyPrefix demo_tpm) demo_tpm_fleet demo_minute demo_tpm "r2" demo_plan demo_bindings
    demo_scoped 2 (demo_tpm_run demo_tpm_fleet "r2").1 (demo_tpm_run demo_tpm_fleet "r2").2 demo_collision_free demo_tpm_reachable
    ltac:(by vm_compute) eq_refl ltac:(by vm_compute) demo_normalized (surjective_pairing _)) as H.
  unfold reserve_spec in H. cbv zeta in H. rewrite decide_True in H by (vm_compute; reflexivity).
  replace (tf_log demo_tpm_fleet !! (2, "r2"%string)) with (@None Entry) in H by (vm_compute; reflexivity).
  rewrite decide_False in H by (intros Hall; apply Forall_inv in Hall; vm_compute in Hall; by apply Hall).
  destruct H as (Hk & j & s & p & Hj & Hlt & _). split; [exact Hk|]. exists s, p. split; [exact (list_elem_of_lookup_2 _ _ _ Hj)|exact Hlt].
Defined.

(** The same reservation asked for again, by a gateway whose clock is far off. *)
Lemma ReserveTPM_decides_witness :
  exists srv' rv, ReserveTPM demo_sha (demo_tpm_server demo_minute) demo_tpm ctx_live (demo_reserve "r1") 1 = (srv', Ok rv) /\ rv_Idempotent rv = true.
Proof.
  destruct (ReserveTPM_decides demo_sha DefaultRedisTPMOptions demo_tpm demo_tpm_fleet (demo_tpm_server demo_minute) demo_minute (demo_reserve "r1")
    demo_scoped 1) as (srv' & answer & E & Ha); [exact demo_collision_free|vm_compute; reflexivity|exact demo_tpm_reachable
    |intros i; split; reflexivity|reflexivity|by vm_compute|by vm_compute|by vm_compute|by vm_compute|by vm_compute|exact demo_normalized|left; by vm_compute|].
  unfold reservation_answer in Ha.
  replace (tf_log demo_tpm_fleet !! (minute_of demo_minute, rr_ReservationID (demo_reserve "r1")))
    with (Some {| g_scopes := demo_scoped.*1; g_reserved := 60; g_actual := None |}) in Ha by (vm_compute; reflexivity).
  rewrite (decide_True (P := same_pending _ _ _)) in Ha by (split_and!; reflexivity). destruct Ha as (rv & -> & _ & Hi & _). exists srv', rv. split; [exact E|exact Hi].
Defined.

Definition demo_handle : RedisTPMHandle := {| hd_ReservationID := "r1"; hd_Window := 2; hd_Scopes := demo_chain; hd_ReservedTokens := 60 |}.
Definition demo_actual (output : Z) : TPMActual :=
  {| act_InputTokens := 40; act_OutputTokens := output; act_Tokens := 40 + output; act_Source := SourceProvider; act_Complete := true |}.

Lemma demo_pending :
  tf_log demo_tpm_fleet !! (2, "r1"%string) = Some {| g_scopes := demo_chain; g_reserved := 60; g_actual := None |} /\
  is_Some (hash_at (tf_keys demo_tpm_fleet) (time_ms demo_minute) (tpm_windowKey demo_tpm 2)).
Proof.
  split; [vm_compute; reflexivity|].
  assert (H : bool_decide (is_Some (hash_at (tf_keys demo_tpm_fleet) (time_ms demo_minute) (tpm_windowKey demo_tpm 2))) = true) by (vm_compute; reflexivity).
  exact (bool_decide_eq_true_1 _ H).
Qed.

Lemma demo_room : Forall (fun s => used 2 s (tf_log demo_tpm_fleet) + (55 - 60) <= exact_max) demo_chain.
Proof. repeat (apply Forall_cons; split; [by vm_compute|]). apply Forall_nil_2. Qed.

(** Five tokens of the sixty are released; another usage is then a conflict. *)
Lemma SettleTPM_settles_once_witness :
  exists srv1 st srv2, SettleTPM demo_sha (demo_tpm_server demo_minute) demo_tpm ctx_live demo_handle (demo_actual 15) = (srv1, Ok st) /\
    st_ReleasedTokens st = 5 /\
    SettleTPM demo_sha srv1 demo_tpm ctx_live demo_handle (demo_actual 16) = (srv2, Err ErrRedisTPMReservationConflict).
Proof.
  destruct (SettleTPM_settles_once demo_sha demo_tpm demo_tpm_fleet (demo_tpm_server demo_minute) demo_minute demo_handle (demo_actual 15) demo_chain
    {| g_scopes := demo_chain; g_reserved := 60; g_actual := None |}) as (srv1 & st & E & _ & Hrel & _ & _ & Hagain);
    [exact demo_collision_free|exact demo_tpm_reachable|intros i; split; reflexivity|reflexivity|by vm_compute|vm_compute; reflexivity|by vm_compute
    |by vm_compute|by vm_compute|by vm_compute|exact (proj1 demo_pending)|split_and!; reflexivity|exact (proj2 demo_pending)|exact demo_room|].
  destruct (Hagain (demo_actual 16)) as (srv2 & answer & E2 & _ & Ha); [by vm_compute..|]. rewrite decide_False in Ha by (by vm_compute). subst answer.
  exists srv1, st, srv2. split; [exact E|]. split; [exact Hrel|exact E2].
Defined.

(** A retry of the same ID and plan after the minute has passed is a second charge, and
    a retry after the settlement is a conflict: only a retry within the minute, before
    the settlement, returns the original reservation. *)
Lemma retry_next_minute_charges_twice :
  match ReserveTPM demo_sha (demo_tpm_server (190, 0)) demo_tpm ctx_live (demo_reserve "r1") (UnixMilli 190000) with
  | (srv', Ok rv) => TPM_Allowed rv = true /\ rv_Idempotent rv = false /\ hd_Window (rv_Handle rv) = 3
  | _ => False
  end.
Proof. vm_compute. by split_and!. Qed.

Lemma retry_after_settlement_conflicts :
  let srv := (SettleTPM demo_sha (demo_tpm_server demo_minute) demo_tpm ctx_live demo_handle (demo_actual 15)).1 in
  (ReserveTPM demo_sha srv demo_tpm ctx_live (demo_reserve "r1") 1).2 = Err ErrRedisTPMReservationConflict.
Proof. vm_compute. reflexivity. Qed.
