(* ===== verification/RedisConcurrency.v ===== *)
(** * Distributed concurrency limit (src/internal/limits/redis_concurrency.go)

    A lease is a hash (state, fingerprint of its scopes, expiry) and a member of four
    sorted sets, one per scope, with its expiry as the score. The acquire, renew and
    release scripts change them together. *)
From Stdlib Require Import ZArith Lia Bool Ascii String.
From stdpp Require Import base tactics option list strings gmap fin_maps sets.
From S2P Require Import Prelude Identifiers Retry LimitPolicy LocalLimiter Redis RedisRPM RedisTPM.
(** ** Data *)
Record RedisConcurrencyOptions := { co_KeyPrefix : string; co_LeaseDuration : Duration; co_Retention : Duration }.

Definition DefaultRedisConcurrencyOptions : RedisConcurrencyOptions :=
  {| co_KeyPrefix := "agw:limits:concurrency:v1:{concurrency}"; co_LeaseDuration := 30 * second; co_Retention := 5 * minute |}.

Record RedisConcurrencyAcquireRequest := { ca_LeaseID : string; ca_Bindings : list Binding }.
Record RedisConcurrencyCount := { cc_Scope : Scope; cc_Count : Z; cc_Soft : Z; cc_SoftExceeded : bool }.
Record RedisConcurrencyUsage := { cu_Scope : Scope; cu_Count : Z }.
Record RedisConcurrencyRejection := {
  cj_Scope : Scope; cj_Count : Z; cj_Hard : Z; cj_RetryAfter : Duration; cj_EarliestExpiry : Time }.
Record RedisConcurrencyHandle := { ch_LeaseID : string; ch_Scopes : list Scope }.
Record RedisConcurrencyAdmission := {
  cad_Handle : RedisConcurrencyHandle; cad_ServerTime : Time; cad_ExpiresAt : option Time; cad_Counts : list RedisConcurrencyCount;
  cad_Idempotent : bool; cad_Rejection : option RedisConcurrencyRejection }.

Definition Concurrency_Allowed (admission : RedisConcurrencyAdmission) : bool :=
  match cad_Rejection admission with
  | None => negb (String.eqb (ch_LeaseID (cad_Handle admission)) "") && Nat.eqb (length (cad_Counts admission)) requiredScopeCount
  | Some _ => false
  end.

Record RedisConcurrencyRenewal := {
  crn_Handle : RedisConcurrencyHandle; crn_ServerTime : Time; crn_ExpiresAt : Time; crn_Usage : list RedisConcurrencyUsage }.
Record RedisConcurrencyRelease := {
  crl_Handle : RedisConcurrencyHandle; crl_ServerTime : Time; crl_ExpiresAt : Time; crl_Usage : list RedisConcurrencyUsage;
  crl_Idempotent : bool; crl_Expired : bool }.

Record RedisConcurrencyLimiter := { cl_keyPrefix : string; leaseMS : Z; retainMS : Z }.

Inductive redis_concurrency_error :=
| ErrInvalidConcurrency | ErrConcurrencyBindings (cause : rpm_error) | ErrConcurrencyEval (cause : eval_error)
| ErrRedisConcurrencyProtocol | ErrRedisConcurrencyCorrupt (scopeIndex : Z)
| ErrRedisConcurrencyLeaseConflict | ErrRedisConcurrencyLeaseExpired.

(** ** Construction *)
Definition minimumRedisConcurrencyLease : Duration := 100 * millisecond.
Definition maximumRedisConcurrencyLease : Duration := 10 * minute.
Definition maximumRedisConcurrencyRetention : Duration := hour.

Definition validRedisConcurrencyPrefix (p : string) : bool :=
  Nat.leb 1 (String.length p) && Nat.leb (String.length p) 128 && redisRPMPrefixPattern p && Nat.eqb (count_substring "{concurrency}" p) 1.

Definition validRedisConcurrencyLeaseID (value : string) : bool :=
  Nat.leb 1 (String.length value) && Nat.leb (String.length value) 128 &&
  match_head_tail alnum (or_class alnum (one_of "._:-")) 0 127 value.

Definition NewRedisConcurrencyLimiter (options : RedisConcurrencyOptions) : result RedisConcurrencyLimiter redis_concurrency_error :=
  let leaseMilliseconds := Z.quot (co_LeaseDuration options) millisecond in
  let retentionMilliseconds := Z.quot (co_Retention options) millisecond in
  ensure (validRedisConcurrencyPrefix (co_KeyPrefix options) && (minimumRedisConcurrencyLease <=? co_LeaseDuration options) &&
          (co_LeaseDuration options <=? maximumRedisConcurrencyLease) && (1 <=? retentionMilliseconds) &&
          (co_Retention options <=? maximumRedisConcurrencyRetention)) else ErrInvalidConcurrency in
  Ok {| cl_keyPrefix := co_KeyPrefix options; leaseMS := leaseMilliseconds; retainMS := retentionMilliseconds |}.

(** ** Keys and arguments *)
Definition scopeKey (prefix : string) (scope : Scope) : string := prefix +:+ ":" +:+ redisRPMField scope.
Definition leaseKey (prefix leaseID : string) : string := prefix +:+ ":lease:" +:+ leaseID.
Definition concurrency_keys (limiter : RedisConcurrencyLimiter) (scopes : list Scope) (leaseID : string) : list string :=
  (scopeKey (cl_keyPrefix limiter) <$> scopes) ++ [leaseKey (cl_keyPrefix limiter) leaseID].

Definition redisConcurrencyAcquireArguments (leaseMS retainMS : Z) (leaseID fingerprint : string) (policies : list Effective) : list string :=
  [FormatInt leaseMS; FormatInt retainMS; leaseID; fingerprint] ++ ((fun policy => FormatInt (eff_Hard (eff_Concurrency policy))) <$> policies).

(** ** The database of the scripts, and what they read of a lease *)
Record LeaseDB := { db_hashes : Keyspace; db_zsets : ZSets }.

Inductive lease_read := NoLease | BadLease | FoundLease (state fingerprint : string) (expiry : Z).

Definition read_lease (hs : Keyspace) (now_ms : Z) (key : string) : lease_read :=
  match HGET hs now_ms key "state" with
  | None => NoLease
  | Some state =>
      match HGET hs now_ms key "fingerprint", HGET hs now_ms key "expiry_ms" with
      | Some stored_fingerprint, Some raw_expiry =>
          match digits raw_expiry with
          | Some expiry => if (expiry <? 0) || (redis_maximum <? expiry) then BadLease else FoundLease state stored_fingerprint expiry
          | None => BadLease
          end
      | _, _ => BadLease
      end
  end.

(** The loops of the scripts over KEYS[1] to KEYS[4]. A loop that stops at a key keeps
    what it changed before. *)
Fixpoint remove_member (zs : ZSets) (now_ms : Z) (keys : list string) (member : string) : ZSets :=
  match keys with [] => zs | key :: rest => remove_member (ZREM zs now_ms key member) now_ms rest member end.

Fixpoint purge (zs : ZSets) (now_ms : Z) (keys : list string) : ZSets :=
  match keys with [] => zs | key :: rest => purge (ZREMRANGEBYSCORE zs now_ms key now_ms) now_ms rest end.

(** Purge each set, check that it holds the lease with its expiry, and count it. *)
Fixpoint owned_counts (index : Z) (zs : ZSets) (now_ms : Z) (keys : list string) (member : string) (expiry : Z) : ZSets * (Z + list Z) :=
  match keys with
  | [] => (zs, inr [])
  | key :: rest =>
      let zs := ZREMRANGEBYSCORE zs now_ms key now_ms in
      if bool_decide (ZSCORE zs now_ms key member = Some expiry) then
        let '(zs', counts) := owned_counts (index + 1) zs now_ms rest member expiry in
        (zs', match counts with inr cs => inr (ZCARD zs now_ms key :: cs) | inl i => inl i end)
      else (zs, inl index)
  end.

(** Purge each set, check that it does not hold the lease, and count it: the count, the
    hard boundary and, when it is full, the earliest expiry. *)
Fixpoint free_counts (index : Z) (zs : ZSets) (now_ms : Z) (keys hards : list string) (member : string) : ZSets * (Z + list (Z * Z * Z)) :=
  match keys with
  | [] => (zs, inr [])
  | key :: rest =>
      match hards with
      | [] => (zs, inl index)
      | hardText :: hards' =>
          match tonumber hardText with
          | None => (zs, inl index)
          | Some hard =>
              if (hard <? 1) || (redis_maximum <? hard) then (zs, inl index)
              else
                let zs := ZREMRANGEBYSCORE zs now_ms key now_ms in
                if bool_decide (is_Some (ZSCORE zs now_ms key member)) then (zs, inl index)
                else
                  let count := ZCARD zs now_ms key in
                  let earliest := if hard <=? count then ZRANGE_first zs now_ms key else Some 0 in
                  match earliest with
                  | None => (zs, inl index)
                  | Some first =>
                      if (hard <=? count) && (first <=? now_ms) then (zs, inl index)
                      else
                        let '(zs', items) := free_counts (index + 1) zs now_ms rest hards' member in
                        (zs', match items with inr others => inr ((count, hard, first) :: others) | inl i => inl i end)
                  end
          end
      end
  end.

Fixpoint first_full_set (index : Z) (items : list (Z * Z * Z)) : option (Z * Z * Z * Z) :=
  match items with
  | [] => None
  | (count, hard, earliest) :: rest => if hard <=? count then Some (index, count, hard, earliest) else first_full_set (index + 1) rest
  end.

Fixpoint add_member (zs : ZSets) (now_ms : Z) (keys : list string) (expiry : Z) (member : string) (absolute_ttl : Z) : ZSets :=
  match keys with
  | [] => zs
  | key :: rest => add_member (ZPEXPIREAT (ZADD zs now_ms key expiry member) now_ms key absolute_ttl) now_ms rest expiry member absolute_ttl
  end.

Fixpoint extend_member (zs : ZSets) (now_ms : Z) (keys : list string) (expiry : Z) (member : string) (absolute_ttl : Z) : ZSets :=
  match keys with
  | [] => zs
  | key :: rest => extend_member (ZPEXPIREAT (ZADD_XX zs now_ms key expiry member) now_ms key absolute_ttl) now_ms rest expiry member absolute_ttl
  end.

(** The first set that holds the lease, or the counts of all. *)
Fixpoint gone_counts (index : Z) (zs : ZSets) (now_ms : Z) (keys : list string) (member : string) : Z + list Z :=
  match keys with
  | [] => inr []
  | key :: rest =>
      if bool_decide (is_Some (ZSCORE zs now_ms key member)) then inl index
      else match gone_counts (index + 1) zs now_ms rest member with inr cs => inr (ZCARD zs now_ms key :: cs) | inl i => inl i end
  end.

Fixpoint first_not_owned (index : Z) (zs : ZSets) (now_ms : Z) (keys : list string) (member : string) (expiry : Z) : option Z :=
  match keys with
  | [] => None
  | key :: rest =>
      if bool_decide (ZSCORE zs now_ms key member = Some expiry) then first_not_owned (index + 1) zs now_ms rest member expiry
      else Some index
  end.

Fixpoint remove_and_count (zs : ZSets) (now_ms : Z) (keys : list string) (member : string) : ZSets * list Z :=
  match keys with
  | [] => (zs, [])
  | key :: rest =>
      let zs := ZREM zs now_ms key member in
      let '(zs', counts) := remove_and_count zs now_ms rest member in (zs', ZCARD zs now_ms key :: counts)
  end.

(** ** The scripts *)
Definition conflict_reply : reply := RArray [RInt 2].
Definition corrupt_reply (index : Z) : reply := RArray [RInt 3; RInt index].

Definition redisConcurrencyAcquireScript : Script LeaseDB := fun '(seconds, microseconds) db keys argv =>
  match keys, argv with
  | [k1; k2; k3; k4; k5], leaseText :: retentionText :: member :: fingerprint :: hards =>
      let now_ms := seconds * 1000 + microseconds / 1000 in
      let sets := [k1; k2; k3; k4] in
      let zs := db_zsets db in
          match read_lease (db_hashes db) now_ms k5 with
          | BadLease => (db, Ok (corrupt_reply 0))
          | FoundLease state stored_fingerprint expiry =>
              if negb (bool_decide (stored_fingerprint = fingerprint)) then (db, Ok conflict_reply)
              else if negb (bool_decide (state = "active"%string)) then
                if bool_decide (state = "released"%string) || bool_decide (state = "expired"%string) then (db, Ok conflict_reply)
                else (db, Ok (corrupt_reply 0))
              else if expiry <=? now_ms then
                ({| db_hashes := HSET (db_hashes db) now_ms k5 "state" "expired"; db_zsets := remove_member zs now_ms sets member |},
                 Ok (RArray [RInt 4]))
              else
                let '(zs', counts) := owned_counts 1 zs now_ms sets member expiry in
                ({| db_hashes := db_hashes db; db_zsets := zs' |},
                 Ok match counts with
                    | inl index => corrupt_reply index
                    | inr cs => RArray ([RInt 1; RInt now_ms; RInt expiry; RInt 1] ++ (RInt <$> cs))
                    end)
          | NoLease =>
              let '(zs', items) := free_counts 1 zs now_ms sets hards member in
              match items with
              | inl index => ({| db_hashes := db_hashes db; db_zsets := zs' |}, Ok (corrupt_reply index))
              | inr items =>
                  match first_full_set 1 items with
                  | Some (index, count, hard, earliest) =>
                      ({| db_hashes := db_hashes db; db_zsets := zs' |},
                       Ok (RArray [RInt 0; RInt index; RInt count; RInt hard; RInt earliest; RInt now_ms]))
                  | None =>
                      match tonumber leaseText, tonumber retentionText with
                      | Some lease_ms, Some retention_ms =>
                      let expiry := now_ms + lease_ms in
                      let absolute_ttl := expiry + retention_ms in
                      let zs'' := add_member zs' now_ms sets expiry member absolute_ttl in
                      let hs := HSET (db_hashes db) now_ms k5 "state" "active" in
                      let hs := HSET hs now_ms k5 "fingerprint" fingerprint in
                      let hs := HSET hs now_ms k5 "expiry_ms" (FormatInt expiry) in
                      ({| db_hashes := PEXPIREAT hs now_ms k5 absolute_ttl; db_zsets := zs'' |},
                       Ok (RArray ([RInt 1; RInt now_ms; RInt expiry; RInt 0] ++ ((fun item => RInt (item.1.1 + 1)) <$> items))))
                      | _, _ => ({| db_hashes := db_hashes db; db_zsets := zs' |}, Err ScriptError)
                      end
                  end
              end
          end
  | _, _ => (db, Err ScriptError)
  end.

Definition redisConcurrencyRenewScript : Script LeaseDB := fun '(seconds, microseconds) db keys argv =>
  match keys, argv with
  | [k1; k2; k3; k4; k5], leaseText :: retentionText :: member :: fingerprint :: _ =>
      let now_ms := seconds * 1000 + microseconds / 1000 in
      let sets := [k1; k2; k3; k4] in
      let zs := db_zsets db in
          match read_lease (db_hashes db) now_ms k5 with
          | NoLease => (db, Ok (RArray [RInt 1]))
          | BadLease => (db, Ok (corrupt_reply 0))
          | FoundLease state stored_fingerprint expiry =>
              if negb (bool_decide (stored_fingerprint = fingerprint)) then (db, Ok conflict_reply)
              else if negb (bool_decide (state = "active"%string)) then
                if bool_decide (state = "released"%string) then (db, Ok conflict_reply)
                else if bool_decide (state = "expired"%string) then (db, Ok (RArray [RInt 1]))
                else (db, Ok (corrupt_reply 0))
              else if expiry <=? now_ms then
                ({| db_hashes := HSET (db_hashes db) now_ms k5 "state" "expired"; db_zsets := remove_member zs now_ms sets member |},
                 Ok (RArray [RInt 1]))
              else
                match owned_counts 1 zs now_ms sets member expiry with
                | (zs', inl index) => ({| db_hashes := db_hashes db; db_zsets := zs' |}, Ok (corrupt_reply index))
                | (zs', inr cs) =>
                    match tonumber leaseText, tonumber retentionText with
                    | Some lease_ms, Some retention_ms =>
                    let next_expiry := now_ms + lease_ms in
                    let absolute_ttl := next_expiry + retention_ms in
                    ({| db_hashes := PEXPIREAT (HSET (db_hashes db) now_ms k5 "expiry_ms" (FormatInt next_expiry)) now_ms k5 absolute_ttl;
                        db_zsets := extend_member zs' now_ms sets next_expiry member absolute_ttl |},
                     Ok (RArray ([RInt 0; RInt now_ms; RInt next_expiry] ++ (RInt <$> cs))))
                    | _, _ => ({| db_hashes := db_hashes db; db_zsets := zs' |}, Err ScriptError)
                    end
                end
          end
  | _, _ => (db, Err ScriptError)
  end.

Definition release_reply (now_ms expiry idempotent expired : Z) (counts : list Z) : reply :=
  RArray ([RInt 0; RInt now_ms; RInt expiry; RInt idempotent; RInt expired] ++ (RInt <$> counts)).

Definition redisConcurrencyReleaseScript : Script LeaseDB := fun '(seconds, microseconds) db keys argv =>
  match keys, argv with
  | [k1; k2; k3; k4; k5], member :: fingerprint :: _ =>
      let now_ms := seconds * 1000 + microseconds / 1000 in
      let sets := [k1; k2; k3; k4] in
      match read_lease (db_hashes db) now_ms k5 with
      | NoLease => (db, Ok (RArray [RInt 1]))
      | BadLease => (db, Ok (corrupt_reply 0))
      | FoundLease state stored_fingerprint expiry =>
          if negb (bool_decide (stored_fingerprint = fingerprint)) then (db, Ok conflict_reply)
          else
            let zs := purge (db_zsets db) now_ms sets in
            let purged := {| db_hashes := db_hashes db; db_zsets := zs |} in
            if bool_decide (state = "released"%string) || bool_decide (state = "expired"%string) then
              (purged, Ok match gone_counts 1 zs now_ms sets member with
                          | inl index => corrupt_reply index
                          | inr cs => release_reply now_ms expiry 1 (if bool_decide (state = "expired"%string) then 1 else 0) cs
                          end)
            else if negb (bool_decide (state = "active"%string)) then (purged, Ok (corrupt_reply 0))
            else if expiry <=? now_ms then
              let '(zs', cs) := remove_and_count zs now_ms sets member in
              ({| db_hashes := HSET (db_hashes db) now_ms k5 "state" "expired"; db_zsets := zs' |}, Ok (release_reply now_ms expiry 0 1 cs))
            else
              match first_not_owned 1 zs now_ms sets member expiry with
              | Some index => (purged, Ok (corrupt_reply index))
              | None =>
                  let '(zs', cs) := remove_and_count zs now_ms sets member in
                  ({| db_hashes := HSET (db_hashes db) now_ms k5 "state" "released"; db_zsets := zs' |}, Ok (release_reply now_ms expiry 0 0 cs))
              end
      end
  | _, _ => (db, Err ScriptError)
  end.

(** ** Replies *)
Record parsedRedisConcurrency := {
  pc_code : Z; pc_nowMS : Z; pc_expiresMS : Z; pc_earliestMS : Z; pc_scopeIndex : Z; pc_count : Z; pc_hard : Z;
  pc_idempotent : bool; pc_expired : bool; pc_counts : list Z }.

Definition parsed_code (code : Z) : parsedRedisConcurrency :=
  {| pc_code := code; pc_nowMS := 0; pc_expiresMS := 0; pc_earliestMS := 0; pc_scopeIndex := 0; pc_count := 0; pc_hard := 0;
     pc_idempotent := false; pc_expired := false; pc_counts := replicate requiredScopeCount 0 |}.

Definition assignRedisConcurrencyDenied (values : list reply) : option parsedRedisConcurrency :=
  match values with
  | [i; c; h; e; n] =>
      index ← redisRPMInt64 i; count ← redisRPMUint64 c; hard ← redisRPMUint64 h; earliest ← redisRPMInt64 e; now ← redisRPMInt64 n;
      if negb (index_ok index) || (hard =? 0) || (MaximumValue <? hard) || (count <? hard) || (now <? 0) || (earliest <=? now) then None
      else Some {| pc_code := 0; pc_nowMS := now; pc_expiresMS := 0; pc_earliestMS := earliest; pc_scopeIndex := index - 1;
                   pc_count := count; pc_hard := hard; pc_idempotent := false; pc_expired := false; pc_counts := replicate requiredScopeCount 0 |}
  | _ => None
  end.

Definition assignRedisConcurrencyAllowed (values : list reply) : option parsedRedisConcurrency :=
  match values with
  | [n; e; i; c1; c2; c3; c4] =>
      now ← redisRPMInt64 n; expires ← redisRPMInt64 e; idempotent ← flag i;
      if (now <? 0) || (expires <=? now) then None
      else counts ← mapM allowed_count [c1; c2; c3; c4];
        Some {| pc_code := 1; pc_nowMS := now; pc_expiresMS := expires; pc_earliestMS := 0; pc_scopeIndex := 0; pc_count := 0;
                pc_hard := 0; pc_idempotent := idempotent; pc_expired := false; pc_counts := counts |}
  | _ => None
  end.

(** [redisConcurrencyAcquireCorrupt] and [redisConcurrencyLifecycleCorrupt] are both 3. *)
Definition assignRedisConcurrencyCorrupt (values : list reply) : option parsedRedisConcurrency :=
  match values with
  | [i] =>
      index ← redisRPMInt64 i;
      if (index <? 0) || (Z.of_nat requiredScopeCount <? index) then None
      else Some {| pc_code := 3; pc_nowMS := 0; pc_expiresMS := 0; pc_earliestMS := 0; pc_scopeIndex := index - 1; pc_count := 0;
                   pc_hard := 0; pc_idempotent := false; pc_expired := false; pc_counts := replicate requiredScopeCount 0 |}
  | _ => None
  end.

Definition code_alone (code : Z) (values : list reply) : option parsedRedisConcurrency :=
  match values with [] => Some (parsed_code code) | _ => None end.

Definition or_concurrency_protocol {A : Type} (o : option A) : result A redis_concurrency_error :=
  match o with Some a => Ok a | None => Err ErrRedisConcurrencyProtocol end.

Definition parseRedisConcurrencyAcquire (raw : reply) : result parsedRedisConcurrency redis_concurrency_error :=
  match raw with
  | RArray (c :: values) =>
      or_concurrency_protocol match redisRPMInt64 c with
      | Some 0 => assignRedisConcurrencyDenied values
      | Some 1 => assignRedisConcurrencyAllowed values
      | Some 2 => code_alone 2 values
      | Some 4 => code_alone 4 values
      | Some 3 => assignRedisConcurrencyCorrupt values
      | _ => None
      end
  | _ => Err ErrRedisConcurrencyProtocol
  end.

(** [successLength] is fixed by [release]: 9 values with the two flags, 7 without. *)
Definition assignRedisConcurrencyLifecycleSuccess (release : bool) (values : list reply) : option parsedRedisConcurrency :=
  let success now expires idempotent expired cs :=
    counts ← mapM settled_count cs;
    Some {| pc_code := 0; pc_nowMS := now; pc_expiresMS := expires; pc_earliestMS := 0; pc_scopeIndex := 0; pc_count := 0; pc_hard := 0;
            pc_idempotent := idempotent; pc_expired := expired; pc_counts := counts |} in
  match release, values with
  | true, [n; e; i; x; c1; c2; c3; c4] =>
      now ← redisRPMInt64 n; expires ← redisRPMInt64 e;
      if (now <? 0) || (expires <? 0) then None
      else idempotent ← flag i; expired ← flag x; success now expires idempotent expired [c1; c2; c3; c4]
  | false, [n; e; c1; c2; c3; c4] =>
      now ← redisRPMInt64 n; expires ← redisRPMInt64 e;
      if (now <? 0) || (expires <? 0) || (expires <=? now) then None else success now expires false false [c1; c2; c3; c4]
  | _, _ => None
  end.

Definition parseRedisConcurrencyLifecycle (raw : reply) (release : bool) : result parsedRedisConcurrency redis_concurrency_error :=
  match raw with
  | RArray (c :: values) =>
      or_concurrency_protocol match redisRPMInt64 c with
      | Some 0 => assignRedisConcurrencyLifecycleSuccess release values
      | Some 1 => code_alone 1 values
      | Some 2 => code_alone 2 values
      | Some 3 => assignRedisConcurrencyCorrupt values
      | _ => None
      end
  | _ => Err ErrRedisConcurrencyProtocol
  end.

Definition parseRedisConcurrencyRenew (raw : reply) := parseRedisConcurrencyLifecycle raw false.
Definition parseRedisConcurrencyRelease (raw : reply) := parseRedisConcurrencyLifecycle raw true.

(** ** Answers *)
Definition deniedRedisConcurrencyAdmission (scoped : list (Scope * Effective)) (p : parsedRedisConcurrency)
    : result RedisConcurrencyAdmission redis_concurrency_error :=
  match scoped !! Z.to_nat (pc_scopeIndex p) with
  | None => Err ErrRedisConcurrencyProtocol
  | Some (scope, policy) =>
      ensure (pc_hard p =? eff_Hard (eff_Concurrency policy)) else ErrRedisConcurrencyProtocol in
      let serverTime := UnixMilli (pc_nowMS p) in
      let earliest := UnixMilli (pc_earliestMS p) in
      Ok {| cad_Handle := {| ch_LeaseID := ""; ch_Scopes := [] |}; cad_ServerTime := serverTime; cad_ExpiresAt := None; cad_Counts := [];
            cad_Idempotent := false;
            cad_Rejection := Some {| cj_Scope := scope; cj_Count := pc_count p; cj_Hard := pc_hard p;
              cj_RetryAfter := time_sub earliest serverTime; cj_EarliestExpiry := earliest |} |}
  end.

Fixpoint concurrency_counts (idempotent : bool) (scoped : list (Scope * Effective)) (counts : list Z)
    : result (list RedisConcurrencyCount) redis_concurrency_error :=
  match scoped, counts with
  | (scope, policy) :: scoped', count :: counts' =>
      let limit := eff_Concurrency policy in
      ensure (negb (negb idempotent && (eff_Hard limit <? count))) else ErrRedisConcurrencyProtocol in
      let? rest := concurrency_counts idempotent scoped' counts' in
      Ok ({| cc_Scope := scope; cc_Count := count; cc_Soft := eff_Soft limit; cc_SoftExceeded := eff_Soft limit <? count |} :: rest)
  | _, _ => Ok []
  end.

Definition allowedRedisConcurrencyAdmission (leaseID : string) (scoped : list (Scope * Effective)) (p : parsedRedisConcurrency)
    : result RedisConcurrencyAdmission redis_concurrency_error :=
  let? counts := concurrency_counts (pc_idempotent p) scoped (pc_counts p) in
  Ok {| cad_Handle := {| ch_LeaseID := leaseID; ch_Scopes := scoped.*1 |}; cad_ServerTime := UnixMilli (pc_nowMS p);
        cad_ExpiresAt := Some (UnixMilli (pc_expiresMS p)); cad_Counts := counts; cad_Idempotent := pc_idempotent p; cad_Rejection := None |}.

Definition redisConcurrencyUsage (scopes : list Scope) (counts : list Z) : list RedisConcurrencyUsage :=
  zip_with (fun scope count => {| cu_Scope := scope; cu_Count := count |}) scopes counts.

Definition validateRedisConcurrencyHandle (handle : RedisConcurrencyHandle) : result (list Scope) redis_concurrency_error :=
  ensure (validRedisConcurrencyLeaseID (ch_LeaseID handle)) else ErrInvalidConcurrency in
  match normalizeScopes (ch_Scopes handle) with Ok scopes => Ok scopes | Err _ => Err ErrInvalidConcurrency end.

(** ** Acquire, Renew, Release *)
Section client.
Context {E : Type} `{RedisEvaluator LeaseDB E} (sha256hex : string -> string).

Definition ConcurrencyAcquire (e : E) (limiter : RedisConcurrencyLimiter) (ctx : Context) (request : RedisConcurrencyAcquireRequest)
    : E * result RedisConcurrencyAdmission redis_concurrency_error :=
  match ctx with
  | ctx_nil => (e, Err ErrInvalidConcurrency)
  | _ =>
      if negb (validRedisConcurrencyLeaseID (ca_LeaseID request)) then (e, Err ErrInvalidConcurrency)
      else match normalizeRPMBindings (ca_Bindings request) with
      | Err err => (e, Err (ErrConcurrencyBindings err))
      | Ok scoped =>
          match Eval e ctx redisConcurrencyAcquireScript (concurrency_keys limiter scoped.*1 (ca_LeaseID request))
                  (redisConcurrencyAcquireArguments (leaseMS limiter) (retainMS limiter) (ca_LeaseID request)
                     (redisScopeFingerprint sha256hex scoped.*1) scoped.*2) with
          | (e', Err cause) => (e', Err (ErrConcurrencyEval cause))
          | (e', Ok raw) =>
              (e',
               let? response := parseRedisConcurrencyAcquire raw in
               if pc_code response =? 0 then deniedRedisConcurrencyAdmission scoped response
               else if pc_code response =? 1 then allowedRedisConcurrencyAdmission (ca_LeaseID request) scoped response
               else if pc_code response =? 2 then Err ErrRedisConcurrencyLeaseConflict
               else if pc_code response =? 3 then Err (ErrRedisConcurrencyCorrupt (pc_scopeIndex response))
               else if pc_code response =? 4 then Err ErrRedisConcurrencyLeaseExpired
               else Err ErrRedisConcurrencyProtocol)
          end
      end
  end.

Definition ConcurrencyRenew (e : E) (limiter : RedisConcurrencyLimiter) (ctx : Context) (handle : RedisConcurrencyHandle)
    : E * result RedisConcurrencyRenewal redis_concurrency_error :=
  match ctx with
  | ctx_nil => (e, Err ErrInvalidConcurrency)
  | _ =>
      match validateRedisConcurrencyHandle handle with
      | Err err => (e, Err err)
      | Ok scopes =>
          match Eval e ctx redisConcurrencyRenewScript (concurrency_keys limiter scopes (ch_LeaseID handle))
                  [FormatInt (leaseMS limiter); FormatInt (retainMS limiter); ch_LeaseID handle; redisScopeFingerprint sha256hex scopes] with
          | (e', Err cause) => (e', Err (ErrConcurrencyEval cause))
          | (e', Ok raw) =>
              (e',
               let? response := parseRedisConcurrencyRenew raw in
               if pc_code response =? 0 then
                 Ok {| crn_Handle := handle; crn_ServerTime := UnixMilli (pc_nowMS response); crn_ExpiresAt := UnixMilli (pc_expiresMS response);
                       crn_Usage := redisConcurrencyUsage scopes (pc_counts response) |}
               else if pc_code response =? 1 then Err ErrRedisConcurrencyLeaseExpired
               else if pc_code response =? 2 then Err ErrRedisConcurrencyLeaseConflict
               else if pc_code response =? 3 then Err (ErrRedisConcurrencyCorrupt (pc_scopeIndex response))
               else Err ErrRedisConcurrencyProtocol)
          end
      end
  end.

Definition ConcurrencyRelease (e : E) (limiter : RedisConcurrencyLimiter) (ctx : Context) (handle : RedisConcurrencyHandle)
    : E * result RedisConcurrencyRelease redis_concurrency_error :=
  match ctx with
  | ctx_nil => (e, Err ErrInvalidConcurrency)
  | _ =>
      match validateRedisConcurrencyHandle handle with
      | Err err => (e, Err err)
      | Ok scopes =>
          match Eval e ctx redisConcurrencyReleaseScript (concurrency_keys limiter scopes (ch_LeaseID handle))
                  [ch_LeaseID handle; redisScopeFingerprint sha256hex scopes] with
          | (e', Err cause) => (e', Err (ErrConcurrencyEval cause))
          | (e', Ok raw) =>
              (e',
               let? response := parseRedisConcurrencyRelease raw in
               if pc_code response =? 0 then
                 Ok {| crl_Handle := handle; crl_ServerTime := UnixMilli (pc_nowMS response); crl_ExpiresAt := UnixMilli (pc_expiresMS response);
                       crl_Usage := redisConcurrencyUsage scopes (pc_counts response);
                       crl_Idempotent := pc_idempotent response; crl_Expired := pc_expired response |}
               else if pc_code response =? 1 then Err ErrRedisConcurrencyLeaseExpired
               else if pc_code response =? 2 then Err ErrRedisConcurrencyLeaseConflict
               else if pc_code response =? 3 then Err (ErrRedisConcurrencyCorrupt (pc_scopeIndex response))
               else Err ErrRedisConcurrencyProtocol)
          end
      end
  end.
End client.
