(* ===== verification/RedisConcurrencyTheorems.v ===== *)
(** * The concurrency scripts implement a lease table

    The specification is a table of leases with one entry per lease ID; the sorted
    sets and hashes in Redis implement it. The simulation relation [sim] holds between
    a database and a table, every script preserves it and answers what the table says.

    Then: each concurrency script answers as the lease table does. *)
From Stdlib Require Import ZArith Lia Bool Ascii String.
From stdpp Require Import base tactics option list strings gmap fin_maps sets.
From S2P Require Import Prelude Identifiers Retry LimitPolicy LocalLimiter Redis RedisRPM RedisRPMTheorems RedisTPM RedisTPMTheorems RedisConcurrency.
(** ** Specification: the lease table *)
Inductive lease_state := Active | Released | Expired.
#[export] Instance lease_state_eq_dec : EqDecision lease_state.
Proof. solve_decision. Defined.

(** The table remembers a lease until [ls_until], also after its end. *)
Record Lease := { ls_state : lease_state; ls_scopes : list Scope; ls_expiry : Z; ls_until : Z }.
Notation Table := (gmap string Lease).

Definition with_state (l : Lease) (st : lease_state) : Lease :=
  {| ls_state := st; ls_scopes := ls_scopes l; ls_expiry := ls_expiry l; ls_until := ls_until l |}.

Definition known (now : Z) (id : string) (T : Table) : option Lease :=
  l ← T !! id; if ls_until l <? now then None else Some l.

(** The leases that hold a slot of the scope. *)
Definition holds_slot (now : Z) (s : Scope) (l : Lease) : Prop := ls_state l = Active /\ s ∈ ls_scopes l /\ now < ls_expiry l.
Definition holders (now : Z) (s : Scope) (T : Table) : Table := filter (fun il => holds_slot now s il.2) T.
Definition held (now : Z) (s : Scope) (T : Table) : Z := Z.of_nat (size (holders now s T)).
Definition expiries (now : Z) (s : Scope) (T : Table) : gmap string Z := ls_expiry <$> holders now s T.

Definition conc_hard (p : Effective) : Z := eff_Hard (eff_Concurrency p).

Fixpoint full_scope (now index : Z) (scoped : list (Scope * Effective)) (T : Table) : option (Z * Scope * Effective) :=
  match scoped with
  | [] => None
  | (s, p) :: rest => if conc_hard p <=? held now s T then Some (index, s, p) else full_scope now (index + 1) rest T
  end.

Definition table_acquire (now lease retain : Z) (id : string) (scoped : list (Scope * Effective)) (T : Table) : Table * reply :=
  let counts := fun n s => RInt (held now s T + n) in
  match known now id T with
  | Some l =>
      if negb (bool_decide (ls_scopes l = scoped.*1)) then (T, conflict_reply)
      else match ls_state l with
      | Active =>
          if ls_expiry l <=? now then (<[id := with_state l Expired]> T, RArray [RInt 4])
          else (T, RArray ([RInt 1; RInt now; RInt (ls_expiry l); RInt 1] ++ (counts 0 <$> scoped.*1)))
      | Released | Expired => (T, conflict_reply)
      end
  | None =>
      match full_scope now 1 scoped T with
      | Some (index, s, p) =>
          (T, RArray [RInt 0; RInt index; RInt (held now s T); RInt (conc_hard p); RInt (default 0 (lowest (expiries now s T))); RInt now])
      | None =>
          (<[id := {| ls_state := Active; ls_scopes := scoped.*1; ls_expiry := now + lease; ls_until := now + lease + retain |}]> T,
           RArray ([RInt 1; RInt now; RInt (now + lease); RInt 0] ++ (counts 1 <$> scoped.*1)))
      end
  end.

Definition table_renew (now lease retain : Z) (id : string) (scopes : list Scope) (T : Table) : Table * reply :=
  match known now id T with
  | None => (T, RArray [RInt 1])
  | Some l =>
      if negb (bool_decide (ls_scopes l = scopes)) then (T, conflict_reply)
      else match ls_state l with
      | Released => (T, conflict_reply)
      | Expired => (T, RArray [RInt 1])
      | Active =>
          if ls_expiry l <=? now then (<[id := with_state l Expired]> T, RArray [RInt 1])
          else (<[id := {| ls_state := Active; ls_scopes := scopes; ls_expiry := now + lease; ls_until := now + lease + retain |}]> T,
                RArray ([RInt 0; RInt now; RInt (now + lease)] ++ ((fun s => RInt (held now s T)) <$> scopes)))
      end
  end.

Definition table_release (now : Z) (id : string) (scopes : list Scope) (T : Table) : Table * reply :=
  match known now id T with
  | None => (T, RArray [RInt 1])
  | Some l =>
      let counts n := (fun s => held now s T - n) <$> scopes in
      if negb (bool_decide (ls_scopes l = scopes)) then (T, conflict_reply)
      else match ls_state l with
      | Released => (T, release_reply now (ls_expiry l) 1 0 (counts 0))
      | Expired => (T, release_reply now (ls_expiry l) 1 1 (counts 0))
      | Active =>
          if ls_expiry l <=? now then (<[id := with_state l Expired]> T, release_reply now (ls_expiry l) 0 1 (counts 0))
          else (<[id := with_state l Released]> T, release_reply now (ls_expiry l) 0 0 (counts 1))
      end
  end.

(** ** The loops of the scripts *)
Definition card (m : gmap string Z) : Z := Z.of_nat (size m).

Lemma live_frame zs zs' now key : zmembers zs' now key = zmembers zs now key -> live zs' now key = live zs now key.
Proof. unfold live. by intros ->. Qed.

Lemma live_live zs zs' now key : zmembers zs' now key = live zs now key -> live zs' now key = live zs now key.
Proof. unfold live. intros ->. rewrite map_filter_filter. apply map_filter_ext. simpl. tauto. Qed.

Lemma zmembers_ZREMRANGEBYSCORE zs now key key' :
  zmembers (ZREMRANGEBYSCORE zs now key now) now key' = if decide (key' = key) then live zs now key else zmembers zs now key'.
Proof. unfold ZREMRANGEBYSCORE. apply zmembers_put. Qed.

Lemma live_ZREMRANGEBYSCORE zs now key key' : live (ZREMRANGEBYSCORE zs now key now) now key' = live zs now key'.
Proof.
  destruct (decide (key' = key)) as [->|]; [apply live_live|apply live_frame]; rewrite zmembers_ZREMRANGEBYSCORE; [by rewrite decide_True|by rewrite decide_False].
Qed.

Lemma ZREMRANGEBYSCORE_ok bound zs now key : zsets_ok bound zs -> zsets_ok bound (ZREMRANGEBYSCORE zs now key now).
Proof. intros. apply put_ok; [done|]. apply map_filter_subseteq. Qed.

(** What a purge of the sets at [keys] leaves. *)
Definition purged (bound : Z) (zs : ZSets) (now : Z) (keys : list string) (zs' : ZSets) : Prop :=
  (zsets_ok bound zs -> zsets_ok bound zs') /\
  forall key, zmembers zs' now key = if decide (key ∈ keys) then live zs now key else zmembers zs now key.

Lemma purged_cons bound zs now key keys zs' :
  purged bound (ZREMRANGEBYSCORE zs now key now) now keys zs' -> purged bound zs now (key :: keys) zs'.
Proof.
  intros [Hok H]. split; [intros; by apply Hok, ZREMRANGEBYSCORE_ok|]. intros k. rewrite H, live_ZREMRANGEBYSCORE, zmembers_ZREMRANGEBYSCORE.
  destruct (decide (k ∈ keys)) as [Hin|Hin]; [by rewrite decide_True by by right|].
  destruct (decide (k = key)) as [->|Hne]; [by rewrite decide_True by left|]. rewrite decide_False; [done|]. rewrite elem_of_cons. tauto.
Qed.

Lemma purged_nil bound zs now : purged bound zs now [] zs.
Proof. split; [done|]. intros key. by rewrite decide_False by apply not_elem_of_nil. Qed.

Lemma live_purged bound zs now keys zs' key : purged bound zs now keys zs' -> live zs' now key = live zs now key.
Proof. intros [_ H]. specialize (H key). destruct (decide (key ∈ keys)); [by apply live_live|by apply live_frame]. Qed.

Lemma purge_spec bound now keys : forall zs, purged bound zs now keys (purge zs now keys).
Proof. induction keys as [|key keys IH]; intros zs; [apply purged_nil|]. apply purged_cons, IH. Qed.

Lemma ZCARD_purged zs now key : ZCARD (ZREMRANGEBYSCORE zs now key now) now key = card (live zs now key).
Proof. unfold ZCARD. by rewrite zmembers_ZREMRANGEBYSCORE, decide_True. Qed.

Lemma ZSCORE_purged zs now key m : ZSCORE (ZREMRANGEBYSCORE zs now key now) now key m = live zs now key !! m.
Proof. unfold ZSCORE. by rewrite zmembers_ZREMRANGEBYSCORE, decide_True. Qed.

Lemma owned_counts_spec bound now m e keys : forall index zs, Forall (fun key => live zs now key !! m = Some e) keys ->
  exists zs', owned_counts index zs now keys m e = (zs', inr ((fun key => card (live zs now key)) <$> keys)) /\ purged bound zs now keys zs'.
Proof.
  induction keys as [|key keys IH]; intros index zs H; [exists zs; split; [done|apply purged_nil]|].
  apply Forall_cons in H as [Hk H]. destruct (IH (index + 1) (ZREMRANGEBYSCORE zs now key now)) as (zs' & E & Hp).
  { eapply Forall_impl; [exact H|]. intros k. by rewrite live_ZREMRANGEBYSCORE. }
  exists zs'. split; [|by apply purged_cons]. simpl. rewrite ZSCORE_purged, bool_decide_eq_true_2 by done. rewrite E, ZCARD_purged. do 2 f_equal.
  simpl. f_equal. apply list_fmap_ext. intros. by rewrite live_ZREMRANGEBYSCORE.
Qed.

Definition free_item (zs : ZSets) (now : Z) (kh : string * Z) : Z * Z * Z :=
  let count := card (live zs now kh.1) in (count, kh.2, if kh.2 <=? count then default 0 (lowest (live zs now kh.1)) else 0).

Lemma free_counts_spec bound now m items : forall index zs,
  Forall (fun kh => live zs now kh.1 !! m = None /\ 1 <= kh.2 <= redis_maximum) items ->
  exists zs', free_counts index zs now items.*1 (FormatInt <$> items.*2) m = (zs', inr (free_item zs now <$> items)) /\
    purged bound zs now items.*1 zs'.
Proof.
  induction items as [|[key hard] items IH]; intros index zs H; [exists zs; split; [done|apply purged_nil]|].
  apply Forall_cons in H as [[Hk Hh] H]. simpl in Hk, Hh. destruct (IH (index + 1) (ZREMRANGEBYSCORE zs now key now)) as (zs' & E & Hp).
  { eapply Forall_impl; [exact H|]. intros k. by rewrite live_ZREMRANGEBYSCORE. }
  exists zs'. split; [|by apply purged_cons]. rewrite !fmap_cons. cbn [free_counts fst snd]. rewrite tonumber_FormatInt.
  destruct (Z.ltb_spec hard 1), (Z.ltb_spec redis_maximum hard); try lia. cbn [orb]. rewrite ZSCORE_purged, bool_decide_eq_false_2 by (rewrite Hk; by intros []).
  rewrite ZCARD_purged. unfold ZRANGE_first. rewrite zmembers_ZREMRANGEBYSCORE, decide_True by done. rewrite E.
  assert (Hitems : free_item (ZREMRANGEBYSCORE zs now key now) now <$> items = free_item zs now <$> items).
  { apply list_fmap_ext. intros. unfold free_item. by rewrite live_ZREMRANGEBYSCORE. }
  rewrite Hitems. unfold free_item at 2. cbn [fst snd]. destruct (Z.leb_spec hard (card (live zs now key))) as [Hle|]; [|done].
  pose proof (lowest_spec (live zs now key)) as Hlow. destruct (lowest _) as [low|].
  - destruct Hlow as [[i [_ Hi]%map_lookup_filter_Some] _]. simpl in Hi. by destruct (Z.leb_spec low now); [lia|].
  - rewrite Hlow in Hle. unfold card in Hle. rewrite map_size_empty in Hle. lia.
Qed.

(** Loops that change a set the same way at every key. *)
Definition updated (f : gmap string Z -> gmap string Z) (zs : ZSets) (now : Z) (keys : list string) (zs' : ZSets) : Prop :=
  forall key, zmembers zs' now key = if decide (key ∈ keys) then f (zmembers zs now key) else zmembers zs now key.

Lemma updated_cons f zs now key keys zs1 zs' :
  (forall m, f (f m) = f m) -> updated f zs now [key] zs1 -> updated f zs1 now keys zs' -> updated f zs now (key :: keys) zs'.
Proof.
  intros Hf H1 H2 k. rewrite H2, !H1. destruct (decide (k ∈ keys)), (decide (k ∈ [key])), (decide (k ∈ key :: keys)); set_solver.
Qed.

Lemma updated_one f zs now key zs' :
  (forall key', zmembers zs' now key' = if decide (key' = key) then f (zmembers zs now key) else zmembers zs now key') -> updated f zs now [key] zs'.
Proof. intros H k. rewrite H. destruct (decide (k = key)) as [->|]; [by rewrite decide_True by left|]. rewrite decide_False; [done|set_solver]. Qed.

Lemma updated_nil f zs now : updated f zs now [] zs.
Proof. intros key. by rewrite decide_False by apply not_elem_of_nil. Qed.

Lemma ZREM_updated zs now key m : updated (delete m) zs now [key] (ZREM zs now key m).
Proof. apply updated_one. intros. apply zmembers_put. Qed.

Lemma ZREM_ok bound zs now key m : zsets_ok bound zs -> zsets_ok bound (ZREM zs now key m).
Proof. intros. apply put_ok; [done|]. apply delete_subseteq. Qed.

Lemma remove_member_spec bound now m keys : forall zs, zsets_ok bound zs ->
  zsets_ok bound (remove_member zs now keys m) /\ updated (delete m) zs now keys (remove_member zs now keys m).
Proof.
  induction keys as [|key keys IH]; intros zs Hok; [split; [done|apply updated_nil]|]. simpl.
  destruct (IH (ZREM zs now key m)) as [Hok' Hup]; [by apply ZREM_ok|]. split; [done|].
  eapply updated_cons; [intros; apply delete_delete_eq|apply ZREM_updated|done].
Qed.

Lemma remove_and_count_spec now m keys : forall zs,
  remove_and_count zs now keys m = (remove_member zs now keys m, (fun key => card (delete m (zmembers zs now key))) <$> keys).
Proof.
  induction keys as [|key keys IH]; intros zs; [done|]. simpl. rewrite IH. f_equal. f_equal.
  - unfold ZCARD. by rewrite (ZREM_updated zs now key m key), decide_True by left.
  - apply list_fmap_ext. intros _ k _. rewrite (ZREM_updated zs now key m k). destruct (decide _); [by rewrite delete_delete_eq|done].
Qed.

Lemma add_member_spec bound now e m at_ keys : forall zs, zsets_ok bound zs -> e <= bound <= at_ -> now <= at_ ->
  zsets_ok bound (add_member zs now keys e m at_) /\ updated (insert m e) zs now keys (add_member zs now keys e m at_).
Proof.
  induction keys as [|key keys IH]; intros zs Hok He Ht; [split; [done|apply updated_nil]|]. simpl.
  destruct (IH (ZADD_PEXPIREAT zs now key e m at_)) as [Hok' Hup]; [by apply ZADD_PEXPIREAT_ok|done..|]. split; [done|].
  eapply updated_cons; [intros; apply insert_insert_eq|apply updated_one; intros; by apply zmembers_ZADD_PEXPIREAT|exact Hup].
Qed.

(** With the lease in every set XX makes no difference. *)
Lemma extend_member_add now e m at_ keys : forall zs, now <= at_ -> Forall (fun key => is_Some (zmembers zs now key !! m)) keys ->
  extend_member zs now keys e m at_ = add_member zs now keys e m at_.
Proof.
  induction keys as [|key keys IH]; intros zs Ht H; [done|]. apply Forall_cons in H as [[x Hx] H]. simpl. unfold ZADD_XX, ZSCORE. rewrite Hx.
  apply IH; [done|]. eapply Forall_impl; [exact H|]. intros k Hk. simpl. fold (ZADD_PEXPIREAT zs now key e m at_).
  rewrite zmembers_ZADD_PEXPIREAT by done. destruct (decide (k = key)); [|done]. rewrite lookup_insert_eq. by eexists.
Qed.

Lemma gone_counts_spec now m keys zs : forall index, Forall (fun key => zmembers zs now key !! m = None) keys ->
  gone_counts index zs now keys m = inr ((fun key => card (zmembers zs now key)) <$> keys).
Proof.
  induction keys as [|key keys IH]; intros index H; [done|]. apply Forall_cons in H as [Hk H]. simpl. unfold ZSCORE.
  rewrite bool_decide_eq_false_2 by (rewrite Hk; by intros []). by rewrite IH.
Qed.

Lemma first_not_owned_spec now m e keys zs : forall index, Forall (fun key => zmembers zs now key !! m = Some e) keys ->
  first_not_owned index zs now keys m e = None.
Proof.
  induction keys as [|key keys IH]; intros index H; [done|]. apply Forall_cons in H as [Hk H]. simpl. unfold ZSCORE.
  rewrite bool_decide_eq_true_2 by done. by apply IH.
Qed.

(** ** Keys *)
Lemma scopeKey_inj prefix s1 s2 :
  Scope_Validate s1 = true -> Scope_Validate s2 = true -> scopeKey prefix s1 = scopeKey prefix s2 -> s1 = s2.
Proof. intros H1 H2 H%append_cancel%append_cancel. by apply redisRPMField_inj. Qed.

Lemma leaseKey_inj prefix id1 id2 : leaseKey prefix id1 = leaseKey prefix id2 -> id1 = id2.
Proof. by intros H%append_cancel%append_cancel. Qed.

(** The hash of a lease and the set of a scope are never under the same key. *)
Lemma lease_key_not_scope prefix id s : leaseKey prefix id <> scopeKey prefix s.
Proof. intros H%append_cancel. unfold redisRPMField in H. by destruct (Kind s). Qed.

(** ** Simulation *)
Definition state_text (st : lease_state) : string := match st with Active => "active" | Released => "released" | Expired => "expired" end.

Definition lease_fields (state fingerprint expiry : string) : gmap string string :=
  <["state"%string := state]> (<["fingerprint"%string := fingerprint]> (<["expiry_ms"%string := expiry]> ∅)).

Definition lease_ok (l : Lease) : Prop := valid_chain (ls_scopes l) /\ 0 <= ls_expiry l <= exact_max /\ ls_expiry l <= ls_until l.

Lemma expiries_insert now s id l T :
  expiries now s (<[id := l]> T) = if decide (holds_slot now s l) then <[id := ls_expiry l]> (expiries now s T) else delete id (expiries now s T).
Proof.
  unfold expiries, holders. rewrite map_filter_insert. simpl. destruct (decide (holds_slot now s l)); [by rewrite fmap_insert|].
  rewrite map_filter_delete. apply fmap_delete.
Qed.

Lemma expiries_lookup now s T id e :
  expiries now s T !! id = Some e <-> exists l, T !! id = Some l /\ holds_slot now s l /\ ls_expiry l = e.
Proof.
  unfold expiries, holders. rewrite lookup_fmap_Some. setoid_rewrite map_lookup_filter_Some. simpl. naive_solver.
Qed.

Lemma expiries_none now s T id : (forall l, T !! id = Some l -> ~ holds_slot now s l) -> expiries now s T !! id = None.
Proof. intros H. apply eq_None_not_Some. intros [e (l & Hl & Hs & _)%expiries_lookup]. by eapply H. Qed.

Lemma expiries_later t t' s T : t <= t' -> expiries t' s T = filter (fun me => t' < me.2) (expiries t s T).
Proof.
  intros Ht. apply map_eq. intros id. apply option_eq. intros e. rewrite map_lookup_filter_Some, !expiries_lookup. simpl. unfold holds_slot.
  split; [intros (l & ? & (? & ? & ?) & <-); split; [exists l; split_and!; try done; lia|done]
         |intros [(l & ? & (? & ? & ?) & <-) ?]; by exists l].
Qed.

Lemma card_expiries now s T : card (expiries now s T) = held now s T.
Proof. unfold card, expiries, held. by rewrite map_size_fmap. Qed.

Lemma live_deleted m zs now keys zs' key : updated (delete m) zs now keys zs' ->
  live zs' now key = if decide (key ∈ keys) then delete m (live zs now key) else live zs now key.
Proof. intros H. unfold live. rewrite H. destruct (decide _); [apply map_filter_delete|done]. Qed.

Lemma live_inserted m e zs now keys zs' key : updated (insert m e) zs now keys zs' -> now < e ->
  live zs' now key = if decide (key ∈ keys) then <[m := e]> (live zs now key) else live zs now key.
Proof. intros H He. unfold live. rewrite H. destruct (decide _); [by apply map_filter_insert_True|done]. Qed.

Section simulation.
Context (sha256hex : string -> string) (prefix : string) (longest : Z).
Hypothesis no_collision : collision_free sha256hex.
Notation fingerprint := (redisScopeFingerprint sha256hex).

Definition hash_of (l : Lease) : Hash :=
  {| h_fields := lease_fields (state_text (ls_state l)) (fingerprint (ls_scopes l)) (FormatInt (ls_expiry l)); h_expires := Some (ls_until l) |}.

Record sim (db : LeaseDB) (t : Z) (T : Table) : Prop := {
  sim_leases : map_Forall (fun _ l => lease_ok l) T;
  sim_hashes : forall id, db_hashes db !! leaseKey prefix id = hash_of <$> T !! id;
  sim_ok : zsets_ok (t + longest) (db_zsets db);
  sim_sets : forall s, Scope_Validate s = true -> live (db_zsets db) t (scopeKey prefix s) = expiries t s T }.

Lemma sim_start t : sim {| db_hashes := ∅; db_zsets := ∅ |} t ∅.
Proof. split; [apply map_Forall_empty|intros; by rewrite !lookup_empty|apply map_Forall_empty|done]. Qed.

Lemma sim_later db t t' T : sim db t T -> t <= t' -> sim db t' T.
Proof.
  intros [H1 H2 H3 H4] Ht. split; [done..|eapply zsets_ok_weaken; [|done]; lia|].
  intros s Hs. rewrite (live_later _ _ _ _ _ H3 Ht), H4 by done. symmetry. by apply expiries_later.
Qed.

Lemma sim_read db now T id : sim db now T ->
  read_lease (db_hashes db) now (leaseKey prefix id) =
  match known now id T with Some l => FoundLease (state_text (ls_state l)) (fingerprint (ls_scopes l)) (ls_expiry l) | None => NoLease end.
Proof using.
  intros [H1 H2 _ _]. unfold read_lease, HGET, hash_at, known. rewrite H2. destruct (T !! id) as [l|] eqn:E; [|done]. simpl.
  destruct (ls_until l <? now); [done|]. simpl. destruct (H1 _ _ E) as (_ & He & _). unfold lease_fields.
  rewrite lookup_insert_eq, lookup_insert_ne, lookup_insert_eq, !lookup_insert_ne, lookup_insert_eq by done.
  rewrite digits_FormatInt by lia. by destruct (Z.ltb_spec (ls_expiry l) 0), (Z.ltb_spec redis_maximum (ls_expiry l)); unfold redis_maximum, exact_max in *; try lia.
Qed.

(** A fingerprint tells the chains of scopes apart. *)
Lemma same_fingerprint c1 c2 : valid_chain c1 -> valid_chain c2 -> bool_decide (fingerprint c1 = fingerprint c2) = bool_decide (c1 = c2).
Proof using no_collision.
  intros H1 H2. apply bool_decide_ext. split; [|by intros ->]. by apply fingerprint_inj.
Qed.

(** A change of one lease in the table. *)
Lemma sim_change db db' now T id l :
  sim db now T -> lease_ok l -> db_hashes db' = <[leaseKey prefix id := hash_of l]> (db_hashes db) -> zsets_ok (now + longest) (db_zsets db') ->
  (forall s, Scope_Validate s = true -> live (db_zsets db') now (scopeKey prefix s) = expiries now s (<[id := l]> T)) ->
  sim db' now (<[id := l]> T).
Proof using.
  intros [H1 H2 H3 H4] Hl Hh Hok Hs. split; [by apply map_Forall_insert_2| |done|done].
  intros id'. rewrite Hh. destruct (decide (id' = id)) as [->|Hne]; [by rewrite !lookup_insert_eq|].
  rewrite !lookup_insert_ne; [apply H2|done|]. intros H%leaseKey_inj. congruence.
Qed.

(** A purge changes nothing that the table shows. *)
Lemma sim_purged db now T keys zs' :
  sim db now T -> purged (now + longest) (db_zsets db) now keys zs' -> sim {| db_hashes := db_hashes db; db_zsets := zs' |} now T.
Proof using.
  intros [H1 H2 H3 H4] Hp. split; [done..|by apply Hp|]. intros s Hs. simpl. rewrite (live_purged _ _ _ _ _ _ Hp). by apply H4.
Qed.

Lemma scope_key_in scopes s : valid_chain scopes -> Scope_Validate s = true -> scopeKey prefix s ∈ scopeKey prefix <$> scopes <-> s ∈ scopes.
Proof using.
  intros (_ & Hv & _) Hs. rewrite list_elem_of_fmap. rewrite Forall_forall in Hv. split; [|naive_solver].
  intros (s' & E & Hin). apply scopeKey_inj in E; [by subst|done|by apply Hv].
Qed.

Lemma known_lookup now id T l : known now id T = Some l -> T !! id = Some l /\ now <= ls_until l.
Proof using.
  unfold known. destruct (T !! id) as [l'|]; [|done]. simpl. destruct (Z.ltb_spec (ls_until l') now); [done|]. intros [= ->]. by split; [|lia].
Qed.

Lemma unknown_free now id s T db : sim db now T -> known now id T = None -> expiries now s T !! id = None.
Proof using.
  intros Hs Hk. apply expiries_none. intros l Hl (_ & _ & He). destruct (sim_leases _ _ _ Hs _ _ Hl) as (_ & _ & Hu).
  unfold known in Hk. rewrite Hl in Hk. simpl in Hk. destruct (Z.ltb_spec (ls_until l) now); [lia|done].
Qed.

Lemma hash_at_known db now T id l : sim db now T -> known now id T = Some l ->
  hash_at (db_hashes db) now (leaseKey prefix id) = Some (hash_of l).
Proof using.
  intros Hs [Hl Hu]%known_lookup. unfold hash_at. rewrite (sim_hashes _ _ _ Hs), Hl. simpl. by destruct (Z.ltb_spec (ls_until l) now); [lia|].
Qed.

Lemma hash_at_unknown db now T id : sim db now T -> known now id T = None -> hash_at (db_hashes db) now (leaseKey prefix id) = None.
Proof using.
  intros Hs Hk. unfold hash_at. rewrite (sim_hashes _ _ _ Hs). unfold known in Hk. destruct (T !! id) as [l|]; [|done]. simpl in *.
  by destruct (ls_until l <? now).
Qed.

Lemma end_hash db now T id l st : sim db now T -> known now id T = Some l ->
  HSET (db_hashes db) now (leaseKey prefix id) "state" (state_text st) = <[leaseKey prefix id := hash_of (with_state l st)]> (db_hashes db).
Proof using.
  intros Hs Hk. unfold HSET, live_hash. rewrite (hash_at_known _ _ _ _ _ Hs Hk). simpl. unfold hash_of, lease_fields. simpl.
  by rewrite insert_insert_eq.
Qed.

(** A lease that runs until [e], remembered until [u]. *)
Definition running (scopes : list Scope) (e u : Z) : Lease := {| ls_state := Active; ls_scopes := scopes; ls_expiry := e; ls_until := u |}.

Lemma renew_hash db now T id l e u : sim db now T -> known now id T = Some l -> ls_state l = Active -> now <= u ->
  PEXPIREAT (HSET (db_hashes db) now (leaseKey prefix id) "expiry_ms" (FormatInt e)) now (leaseKey prefix id) u =
  <[leaseKey prefix id := hash_of (running (ls_scopes l) e u)]> (db_hashes db).
Proof using.
  intros Hs Hk Ha Hu. unfold PEXPIREAT. rewrite hash_at_HSET. unfold HSET, live_hash. rewrite (hash_at_known _ _ _ _ _ Hs Hk). simpl.
  rewrite insert_insert_eq. do 2 f_equal. unfold hash_of, running. simpl. f_equal. unfold lease_fields.
  rewrite Ha, (insert_insert_ne _ "expiry_ms" "state") by done. by rewrite (insert_insert_ne _ "expiry_ms" "fingerprint"), insert_insert_eq by done.
Qed.

Lemma HSET_lasting ks now key fields f v :
  HSET (<[key := {| h_fields := fields; h_expires := None |}]> ks) now key f v = <[key := {| h_fields := <[f := v]> fields; h_expires := None |}]> ks.
Proof using. unfold HSET, live_hash. rewrite hash_at_insert, decide_True by done. simpl. by rewrite insert_insert_eq. Qed.

Lemma new_hash db now T id scopes e u : sim db now T -> known now id T = None -> now <= u ->
  PEXPIREAT (HSET (HSET (HSET (db_hashes db) now (leaseKey prefix id) "state" "active") now (leaseKey prefix id) "fingerprint" (fingerprint scopes))
    now (leaseKey prefix id) "expiry_ms" (FormatInt e)) now (leaseKey prefix id) u =
  <[leaseKey prefix id := hash_of (running scopes e u)]> (db_hashes db).
Proof using.
  intros Hs Hk Hu. unfold HSET at 3. unfold live_hash. rewrite (hash_at_unknown _ _ _ _ Hs Hk). cbn [default h_fields h_expires]. rewrite !HSET_lasting.
  unfold PEXPIREAT. rewrite hash_at_insert, decide_True by done. simpl. rewrite insert_insert_eq. do 2 f_equal.
Qed.

(** The sets after a lease ended, and after it was granted or renewed. *)
Lemma ended_sets db now T id l st zs zs' : sim db now T -> known now id T = Some l -> st <> Active ->
  (forall key, live zs now key = live (db_zsets db) now key) -> updated (delete id) zs now (scopeKey prefix <$> ls_scopes l) zs' ->
  forall s, Scope_Validate s = true -> live zs' now (scopeKey prefix s) = expiries now s (<[id := with_state l st]> T).
Proof using.
  intros Hs [Hl _]%known_lookup Hst Hlive Hup s Hv. destruct (sim_leases _ _ _ Hs _ _ Hl) as (Hch & _).
  rewrite (live_deleted _ _ _ _ _ _ Hup), expiries_insert, Hlive, (sim_sets _ _ _ Hs) by done.
  rewrite (decide_False (P := holds_slot _ _ _)) by (by intros []). destruct (decide _) as [|Hni]; [done|].
  symmetry. apply delete_id, expiries_none. rewrite Hl. intros ? [= <-] (_ & Hin & _). apply Hni. by apply scope_key_in.
Qed.

Lemma running_sets db now T id scopes e u zs zs' : sim db now T -> valid_chain scopes -> now < e ->
  (forall s, s ∉ scopes -> expiries now s T !! id = None) ->
  (forall key, live zs now key = live (db_zsets db) now key) -> updated (insert id e) zs now (scopeKey prefix <$> scopes) zs' ->
  forall s, Scope_Validate s = true -> live zs' now (scopeKey prefix s) = expiries now s (<[id := running scopes e u]> T).
Proof using.
  intros Hs Hch He Hfree Hlive Hup s Hv. rewrite (live_inserted _ _ _ _ _ _ _ Hup He), expiries_insert, Hlive, (sim_sets _ _ _ Hs) by done.
  destruct (decide (s ∈ scopes)) as [Hin|Hni].
  - rewrite decide_True by (by apply scope_key_in). by rewrite decide_True by done.
  - rewrite decide_False by (by rewrite scope_key_in). rewrite decide_False by (by intros (_ & ? & _)). symmetry. by apply delete_id, Hfree.
Qed.

End simulation.

(** ** Each concurrency script answers as the lease table does *)
Section refinement.
Context (sha256hex : string -> string) (prefix : string) (longest : Z).
Hypothesis no_collision : collision_free sha256hex.
Notation fingerprint := (redisScopeFingerprint sha256hex).
Notation sim := (sim sha256hex prefix longest).
Notation sets scopes := (scopeKey prefix <$> scopes).

(** Gateways share the prefix, and what one remembers covers what another may hold. *)
Record settings_ok (l : RedisConcurrencyLimiter) : Prop := {
  set_prefix : cl_keyPrefix l = prefix; set_lease : 0 < leaseMS l <= longest; set_retain : longest <= leaseMS l + retainMS l }.

Lemma four_keys l scopes id : settings_ok l -> length scopes = 4%nat -> exists k1 k2 k3 k4,
  concurrency_keys l scopes id = [k1; k2; k3; k4; leaseKey prefix id] /\ sets scopes = [k1; k2; k3; k4].
Proof using.
  intros Hl Hlen. destruct (four _ Hlen) as (a & b & c & d & ->). unfold concurrency_keys. rewrite (set_prefix _ Hl). by repeat eexists.
Qed.

Lemma live_counts db now T scopes : sim db now T -> valid_chain scopes ->
  (fun key => card (live (db_zsets db) now key)) <$> sets scopes = (fun s => held now s T) <$> scopes.
Proof using.
  intros Hs (_ & Hv & _). rewrite <- list_fmap_compose. apply list_fmap_ext. intros i s Hi. simpl. rewrite (sim_sets _ _ _ _ _ _ Hs).
  - apply card_expiries.
  - rewrite Forall_forall in Hv. apply Hv. by eapply list_elem_of_lookup_2.
Qed.

Lemma live_all (P : gmap string Z -> Prop) db now T scopes : sim db now T -> valid_chain scopes ->
  (forall s, s ∈ scopes -> P (expiries now s T)) -> Forall (fun key => P (live (db_zsets db) now key)) (sets scopes).
Proof using.
  intros Hs (_ & Hv & _) HP. rewrite Forall_fmap. rewrite Forall_forall in *. intros s Hin. simpl. rewrite (sim_sets _ _ _ _ _ _ Hs) by auto. auto.
Qed.

(** An active lease that has not expired is in the set of each of its scopes. *)
Lemma owner now T id l s : known now id T = Some l -> ls_state l = Active -> now < ls_expiry l -> s ∈ ls_scopes l ->
  expiries now s T !! id = Some (ls_expiry l).
Proof using. intros [Hl _]%known_lookup Ha He Hs. apply expiries_lookup. by exists l. Qed.

Lemma not_owner now T id l s : known now id T = Some l -> ls_state l <> Active \/ ls_expiry l <= now -> expiries now s T !! id = None.
Proof using.
  intros [Hl _]%known_lookup H. apply expiries_none. rewrite Hl. intros ? [= <-] (? & _ & ?). destruct H; [done|lia].
Qed.

Lemma known_ok db now T id l : sim db now T -> known now id T = Some l -> lease_ok l.
Proof using. intros Hs [Hl _]%known_lookup. by apply (sim_leases _ _ _ _ _ _ Hs id). Qed.

Lemma ended_ok l st : lease_ok l -> lease_ok (with_state l st).
Proof using. done. Qed.

(** What a script leaves when it finds the lease past its expiry. *)
Lemma sim_expire db now T id l : sim db now T -> known now id T = Some l ->
  sim {| db_hashes := HSET (db_hashes db) now (leaseKey prefix id) "state" "expired";
         db_zsets := remove_member (db_zsets db) now (sets (ls_scopes l)) id |} now (<[id := with_state l Expired]> T).
Proof using.
  intros Hs Hk. destruct (remove_member_spec (now + longest) now id (sets (ls_scopes l)) (db_zsets db)) as [Hok Hup]; [apply Hs|].
  eapply (sim_change _ _ _ db); [done|apply (ended_ok l), (known_ok _ _ _ _ _ Hs Hk)|apply (end_hash _ _ _ _ _ _ _ _ Expired Hs Hk)|done|]. by eapply ended_sets.
Qed.

Ltac by_state := repeat (rewrite bool_decide_eq_true_2 by done || rewrite bool_decide_eq_false_2 by done); cbn [negb orb].

Lemma renew_refines db clock T l id scopes :
  sim db (time_ms clock) T -> settings_ok l -> valid_chain scopes -> clock_ok clock -> time_ms clock + leaseMS l <= exact_max ->
  exists db', redisConcurrencyRenewScript clock db (concurrency_keys l scopes id)
      [FormatInt (leaseMS l); FormatInt (retainMS l); id; fingerprint scopes] =
    (db', Ok (table_renew (time_ms clock) (leaseMS l) (retainMS l) id scopes T).2) /\
    sim db' (time_ms clock) (table_renew (time_ms clock) (leaseMS l) (retainMS l) id scopes T).1.
Proof using no_collision.
  intros Hs Hl Hch Hc Hmax. destruct (four_keys l scopes id Hl (proj1 Hch)) as (k1 & k2 & k3 & k4 & -> & Hsets). destruct clock as [sec us].
  set (now := time_ms (sec, us)) in *. unfold redisConcurrencyRenewScript. rewrite <- Hsets. fold (time_ms (sec, us)). change (sec * 1000 + us / 1000) with now.
  rewrite (sim_read _ _ _ _ _ _ _ Hs). unfold table_renew. destruct (known now id T) as [lease|] eqn:Ek; [|by exists db].
  pose proof (known_ok _ _ _ _ _ Hs Ek) as (Hlch & Hexp & Hun). rewrite (same_fingerprint sha256hex no_collision _ _ Hlch Hch).
  destruct (bool_decide_reflect (ls_scopes lease = scopes)) as [<-|Hne]; cbn [negb]; [|by exists db].
  destruct (ls_state lease) eqn:Est; cbn [state_text]; by_state; [|by exists db..].
  destruct (Z.leb_spec (ls_expiry lease) now) as [Hle|Hlt]; [eexists; split; [reflexivity|by apply sim_expire]|].
  destruct (owned_counts_spec (now + longest) now id (ls_expiry lease) (sets (ls_scopes lease)) 1 (db_zsets db)) as (zs' & -> & Hp).
  { apply (live_all (fun m => m !! id = Some (ls_expiry lease)) _ _ _ _ Hs Hlch). intros s. by apply owner. }
  rewrite !tonumber_FormatInt. destruct (set_lease _ Hl). pose proof (set_retain _ Hl). destruct (clock_times _ Hc) as (_ & Ht & _). fold now in Ht.
  assert (Hpos : forall key, live zs' now key = live (db_zsets db) now key) by (intros; by eapply live_purged).
  rewrite extend_member_add.
  2: lia.
  2: { apply Forall_forall. intros key Hin. rewrite (proj2 Hp), decide_True by done.
       pose proof (live_all (fun m => m !! id = Some (ls_expiry lease)) _ _ _ _ Hs Hlch (fun s => owner _ _ _ _ s Ek Est Hlt)) as Hall.
       rewrite Forall_forall in Hall. by rewrite (Hall key Hin). }
  destruct (add_member_spec (now + longest) now (now + leaseMS l) id (now + leaseMS l + retainMS l) (sets (ls_scopes lease)) zs') as [Hok Hup];
    [apply Hp, Hs|lia..|].
  eexists. split; [rewrite (live_counts _ _ _ _ Hs Hlch), <- list_fmap_compose; reflexivity|].
  eapply (sim_change _ _ _ db); [done|split_and!; [done|simpl; lia..]|apply (renew_hash _ _ _ _ _ _ _ _ _ _ Hs Ek Est); lia|done|].
  eapply running_sets; [done..|lia| |exact Hpos|exact Hup].
  intros s Hns. apply expiries_none. destruct (known_lookup _ _ _ _ Ek) as [-> _]. intros ? [= <-]. by intros (_ & ? & _).
Qed.
Lemma purged_members now keys zs zs' : purged (now + longest) zs now keys zs' ->
  (fun key => zmembers zs' now key) <$> keys = (fun key => live zs now key) <$> keys.
Proof using. intros [_ H]. apply list_fmap_ext. intros i key Hi. rewrite H, decide_True; [done|]. by eapply list_elem_of_lookup_2. Qed.

Lemma purged_all (P : gmap string Z -> Prop) now keys zs zs' : purged (now + longest) zs now keys zs' ->
  Forall (fun key => P (live zs now key)) keys -> Forall (fun key => P (zmembers zs' now key)) keys.
Proof using. intros [_ H] HP. rewrite Forall_forall in *. intros key Hin. rewrite H, decide_True by done. auto. Qed.

(** Removing the lease from purged sets, and what they count then. *)
Lemma removed_counts db now T zs id scopes (n : Z) : sim db now T -> valid_chain scopes ->
  purged (now + longest) (db_zsets db) now (sets scopes) zs ->
  (forall s, s ∈ scopes -> card (delete id (expiries now s T)) = held now s T - n) ->
  (fun key => card (delete id (zmembers zs now key))) <$> sets scopes = (fun s => held now s T - n) <$> scopes.
Proof using.
  intros Hs (_ & Hv & _) [_ Hp] Hn. rewrite <- list_fmap_compose. apply list_fmap_ext. intros i s Hi. apply list_elem_of_lookup_2 in Hi. simpl.
  rewrite Forall_forall in Hv. rewrite Hp, decide_True by (by apply list_elem_of_fmap_2). rewrite (sim_sets _ _ _ _ _ _ Hs) by auto. auto.
Qed.

Lemma card_delete_out now s T id : expiries now s T !! id = None -> card (delete id (expiries now s T)) = held now s T - 0.
Proof using. intros H. rewrite delete_id by done. rewrite card_expiries. lia. Qed.

Lemma card_delete_in now s T id e : expiries now s T !! id = Some e -> card (delete id (expiries now s T)) = held now s T - 1.
Proof using.
  intros H. rewrite <- card_expiries. unfold card. rewrite map_size_delete_Some by (by eexists).
  assert (size (expiries now s T) <> 0%nat) by (rewrite map_size_ne_0_lookup; eauto). lia.
Qed.

Lemma gone_held db now T zs id scopes : sim db now T -> valid_chain scopes -> purged (now + longest) (db_zsets db) now (sets scopes) zs ->
  (forall s, s ∈ scopes -> expiries now s T !! id = None) -> gone_counts 1 zs now (sets scopes) id = inr ((fun s => held now s T - 0) <$> scopes).
Proof using.
  intros Hs Hch Hp Hno.
  assert (Hall : Forall (fun key => zmembers zs now key !! id = None) (sets scopes)).
  { apply (purged_all (fun m => m !! id = None) _ _ _ _ Hp). by apply (live_all (fun m => m !! id = None) _ _ _ _ Hs Hch). }
  rewrite gone_counts_spec by done. f_equal. rewrite <- (removed_counts db now T zs id _ 0 Hs Hch Hp) by (intros; apply card_delete_out; auto).
  apply list_fmap_ext. intros i key Hi. rewrite delete_id; [done|]. rewrite Forall_forall in Hall. apply Hall. by eapply list_elem_of_lookup_2.
Qed.

Lemma release_refines db clock T l id scopes :
  sim db (time_ms clock) T -> settings_ok l -> valid_chain scopes ->
  exists db', redisConcurrencyReleaseScript clock db (concurrency_keys l scopes id) [id; fingerprint scopes] =
    (db', Ok (table_release (time_ms clock) id scopes T).2) /\ sim db' (time_ms clock) (table_release (time_ms clock) id scopes T).1.
Proof using no_collision.
  intros Hs Hl Hch. destruct (four_keys l scopes id Hl (proj1 Hch)) as (k1 & k2 & k3 & k4 & -> & Hsets). destruct clock as [sec us].
  set (now := time_ms (sec, us)) in *. unfold redisConcurrencyReleaseScript. rewrite <- Hsets. change (sec * 1000 + us / 1000) with now.
  rewrite (sim_read _ _ _ _ _ _ _ Hs). unfold table_release. destruct (known now id T) as [lease|] eqn:Ek; [|by exists db].
  pose proof (known_ok _ _ _ _ _ Hs Ek) as (Hlch & Hexp & Hun). rewrite (same_fingerprint sha256hex no_collision _ _ Hlch Hch).
  destruct (bool_decide_reflect (ls_scopes lease = scopes)) as [<-|Hne]; cbn [negb]; [|by exists db].
  pose proof (purge_spec (now + longest) now (sets (ls_scopes lease)) (db_zsets db)) as Hp. set (zs := purge _ _ _) in *.
  destruct (remove_member_spec (now + longest) now id (sets (ls_scopes lease)) zs) as [Hok Hup]; [by apply Hp, Hs|].
  assert (Hlive : forall key, live zs now key = live (db_zsets db) now key) by (intros; by eapply live_purged).
  destruct (ls_state lease) eqn:Est; cbn [state_text]; by_state.
  - destruct (Z.leb_spec (ls_expiry lease) now) as [Hle|Hlt].
    + rewrite remove_and_count_spec, (removed_counts _ _ _ _ _ _ 0 Hs Hlch Hp) by (intros; apply card_delete_out; eapply not_owner; [exact Ek|by right]).
      eexists. split; [reflexivity|].
      eapply (sim_change _ _ _ db); [done|apply (ended_ok lease), (known_ok _ _ _ _ _ Hs Ek)|apply (end_hash _ _ _ _ _ _ _ _ Expired Hs Ek)|done|].
      by eapply ended_sets.
    + rewrite first_not_owned_spec by (apply (purged_all (fun m => m !! id = Some (ls_expiry lease)) _ _ _ _ Hp),
        (live_all (fun m => m !! id = Some (ls_expiry lease)) _ _ _ _ Hs Hlch); intros s; by apply owner).
      rewrite remove_and_count_spec, (removed_counts _ _ _ _ _ _ 1 Hs Hlch Hp) by (intros; eapply card_delete_in, owner; [exact Ek|done..]).
      eexists. split; [reflexivity|].
      eapply (sim_change _ _ _ db); [done|apply (ended_ok lease), (known_ok _ _ _ _ _ Hs Ek)|apply (end_hash _ _ _ _ _ _ _ _ Released Hs Ek)|done|].
      by eapply ended_sets.
  - eexists. rewrite (gone_held _ _ _ _ _ _ Hs Hlch Hp) by (intros; eapply not_owner; [exact Ek|left; congruence]). split; [reflexivity|by eapply sim_purged].
  - eexists. rewrite (gone_held _ _ _ _ _ _ Hs Hlch Hp) by (intros; eapply not_owner; [exact Ek|left; congruence]). split; [reflexivity|by eapply sim_purged].
Qed.
Definition set_items (scoped : list (Scope * Effective)) : list (string * Z) := (fun sp => (scopeKey prefix sp.1, conc_hard sp.2)) <$> scoped.

Lemma set_items_fst scoped : (set_items scoped).*1 = sets scoped.*1.
Proof using. unfold set_items. by rewrite <- !list_fmap_compose. Qed.

Lemma set_items_hards scoped : FormatInt <$> (set_items scoped).*2 = (fun policy => FormatInt (eff_Hard (eff_Concurrency policy))) <$> scoped.*2.
Proof using. unfold set_items. by rewrite <- !list_fmap_compose. Qed.

Lemma full_sets db now T scoped : sim db now T -> Forall (fun sp => Scope_Validate sp.1 = true) scoped -> forall index,
  first_full_set index (free_item (db_zsets db) now <$> set_items scoped) =
  match full_scope now index scoped T with
  | Some (i, s, p) => Some (i, held now s T, conc_hard p, default 0 (lowest (expiries now s T)))
  | None => None
  end.
Proof using.
  intros Hs. induction scoped as [|[s p] scoped IH]; intros Hv index; [done|]. apply Forall_cons in Hv as [Hv1 Hv]. simpl in Hv1.
  cbn [set_items full_scope first_full_set fmap list_fmap free_item fst snd]. rewrite (sim_sets _ _ _ _ _ _ Hs), card_expiries by done.
  destruct (conc_hard p <=? held now s T); [done|]. by apply IH.
Qed.

Lemma held_plus_0 now T (scopes : list Scope) :
  RInt <$> ((fun s => held now s T) <$> scopes) = (fun s => RInt (held now s T + 0)) <$> scopes.
Proof using. rewrite <- list_fmap_compose. apply list_fmap_ext. intros. simpl. by rewrite Z.add_0_r. Qed.

Lemma free_counts_held db now T scoped : sim db now T -> valid_scoped scoped ->
  (fun item : Z * Z * Z => RInt (item.1.1 + 1)) <$> (free_item (db_zsets db) now <$> set_items scoped) = (fun s => RInt (held now s T + 1)) <$> scoped.*1.
Proof using.
  intros Hs Hv. unfold set_items. rewrite <- !list_fmap_compose. apply list_fmap_ext. intros i sp Hi. simpl.
  rewrite (sim_sets _ _ _ _ _ _ Hs), card_expiries; [done|]. unfold valid_scoped in Hv. rewrite Forall_forall in Hv. apply Hv. by eapply list_elem_of_lookup_2.
Qed.

Lemma conc_limits p : Effective_Validate p = true -> 1 <= conc_hard p <= redis_maximum.
Proof using.
  unfold Effective_Validate, redis_maximum, conc_hard. simpl. intros H. prop_hyps. unfold threshold_valid, validValue, MaximumValue in *. prop_hyps. lia.
Qed.

Lemma acquire_refines db clock T l id bindings scoped :
  sim db (time_ms clock) T -> settings_ok l -> normalizeRPMBindings bindings = Ok scoped -> clock_ok clock -> time_ms clock + leaseMS l <= exact_max ->
  exists db', redisConcurrencyAcquireScript clock db (concurrency_keys l scoped.*1 id)
      (redisConcurrencyAcquireArguments (leaseMS l) (retainMS l) id (fingerprint scoped.*1) scoped.*2) =
    (db', Ok (table_acquire (time_ms clock) (leaseMS l) (retainMS l) id scoped T).2) /\
    sim db' (time_ms clock) (table_acquire (time_ms clock) (leaseMS l) (retainMS l) id scoped T).1.
Proof using no_collision.
  intros Hs Hl Hn Hc Hmax. destruct (bound_chain _ _ Hn) as (Hch & Hv & _).
  destruct (four_keys l scoped.*1 id Hl (proj1 Hch)) as (k1 & k2 & k3 & k4 & -> & Hsets). destruct clock as [sec us].
  set (now := time_ms (sec, us)) in *. unfold redisConcurrencyAcquireScript, redisConcurrencyAcquireArguments. cbn [app]. rewrite <- Hsets.
  change (sec * 1000 + us / 1000) with now. rewrite (sim_read _ _ _ _ _ _ _ Hs). unfold table_acquire.
  destruct (known now id T) as [lease|] eqn:Ek.
  - pose proof (known_ok _ _ _ _ _ Hs Ek) as (Hlch & Hexp & Hun). rewrite (same_fingerprint sha256hex no_collision _ _ Hlch Hch).
    destruct (bool_decide_reflect (ls_scopes lease = scoped.*1)) as [Heq|Hne]; cbn [negb]; [|by exists db]. rewrite <- Heq in *.
    destruct (ls_state lease) eqn:Est; cbn [state_text]; by_state; [|by exists db..].
    destruct (Z.leb_spec (ls_expiry lease) now) as [Hle|Hlt]; [eexists; split; [reflexivity|by apply sim_expire]|].
    destruct (owned_counts_spec (now + longest) now id (ls_expiry lease) (sets (ls_scopes lease)) 1 (db_zsets db)) as (zs' & -> & Hp).
    { apply (live_all (fun m => m !! id = Some (ls_expiry lease)) _ _ _ _ Hs Hlch). intros s. by apply owner. }
    eexists. split; [by rewrite (live_counts _ _ _ _ Hs Hlch), held_plus_0|by eapply sim_purged].
  - rewrite <- set_items_fst, <- set_items_hards.
    destruct (free_counts_spec (now + longest) now id (set_items scoped) 1 (db_zsets db)) as (zs' & -> & Hp).
    { unfold set_items. rewrite Forall_fmap. eapply Forall_impl; [exact Hv|]. intros [s p] [Hsv Hpv]. simpl in *.
      rewrite (sim_sets _ _ _ _ _ _ Hs) by done. split; [by eapply unknown_free|by apply conc_limits]. }
    rewrite (full_sets _ _ _ _ Hs).
    2: { eapply Forall_impl; [exact Hv|]. by intros ? []. }
    destruct (full_scope now 1 scoped T) as [[[i s] p]|]; [eexists; split; [reflexivity|by eapply sim_purged]|].
    rewrite !tonumber_FormatInt, set_items_fst in *. destruct (set_lease _ Hl). pose proof (set_retain _ Hl). destruct (clock_times _ Hc) as (_ & Ht & _). fold now in Ht.
    assert (Hlive : forall key, live zs' now key = live (db_zsets db) now key) by (intros; by eapply live_purged).
    destruct (add_member_spec (now + longest) now (now + leaseMS l) id (now + leaseMS l + retainMS l) (sets scoped.*1) zs') as [Hok Hup];
      [apply Hp, Hs|lia..|].
    eexists. split; [rewrite (free_counts_held _ _ _ _ Hs Hv); reflexivity|].
    eapply (sim_change _ _ _ db); [done|split_and!; [done|simpl; lia..]|apply (new_hash _ _ _ _ _ _ _ _ _ _ Hs Ek); lia|done|].
    eapply running_sets; [done..|lia| |exact Hlive|exact Hup]. intros s _. by eapply unknown_free.
Qed.
End refinement.
