(* ===== verification/RedisConcurrencyProperties.v ===== *)
(** * Properties of the distributed concurrency limit

    Any sequence of script evaluations by any gateways, at server times that do not go
    back, against one Redis. *)
From Stdlib Require Import ZArith Lia Bool Ascii String.
From stdpp Require Import base tactics option list strings gmap fin_maps sets.
From S2P Require Import Prelude Identifiers Retry LimitPolicy LocalLimiter Redis RedisRPM RedisRPMTheorems RedisTPM.
From S2P Require Import RedisTPMTheorems RedisTPMProperties Redis RedisConcurrency RedisConcurrencyTheorems.
(** ** Evaluations of the scripts, and the same operations on the table *)
Inductive lease_op :=
| OpAcquire (l : RedisConcurrencyLimiter) (id : string) (scoped : list (Scope * Effective))
| OpRenew (l : RedisConcurrencyLimiter) (id : string) (scopes : list Scope)
| OpRelease (l : RedisConcurrencyLimiter) (id : string) (scopes : list Scope).

Definition run_op (sha256hex : string -> string) (clock : Clock) (op : lease_op) (db : LeaseDB) : LeaseDB * result reply eval_error :=
  match op with
  | OpAcquire l id scoped =>
      redisConcurrencyAcquireScript clock db (concurrency_keys l scoped.*1 id)
        (redisConcurrencyAcquireArguments (leaseMS l) (retainMS l) id (redisScopeFingerprint sha256hex scoped.*1) scoped.*2)
  | OpRenew l id scopes =>
      redisConcurrencyRenewScript clock db (concurrency_keys l scopes id)
        [FormatInt (leaseMS l); FormatInt (retainMS l); id; redisScopeFingerprint sha256hex scopes]
  | OpRelease l id scopes =>
      redisConcurrencyReleaseScript clock db (concurrency_keys l scopes id) [id; redisScopeFingerprint sha256hex scopes]
  end.

Definition table_op (now : Z) (op : lease_op) (T : Table) : Table * reply :=
  match op with
  | OpAcquire l id scoped => table_acquire now (leaseMS l) (retainMS l) id scoped T
  | OpRenew l id scopes => table_renew now (leaseMS l) (retainMS l) id scopes T
  | OpRelease l id scopes => table_release now id scopes T
  end.

Fixpoint run_trace (sha256hex : string -> string) (trace : list (Clock * lease_op)) (db : LeaseDB) : LeaseDB * list (result reply eval_error) :=
  match trace with
  | [] => (db, [])
  | (clock, op) :: rest =>
      let '(db1, r) := run_op sha256hex clock op db in let '(db2, rs) := run_trace sha256hex rest db1 in (db2, r :: rs)
  end.

Fixpoint table_trace (trace : list (Clock * lease_op)) (T : Table) : Table * list reply :=
  match trace with
  | [] => (T, [])
  | (clock, op) :: rest =>
      let '(T1, r) := table_op (time_ms clock) op T in let '(T2, rs) := table_trace rest T1 in (T2, r :: rs)
  end.

(** What the clients send: normalised scopes, settings of one fleet. *)
Definition op_ok (prefix : string) (longest now : Z) (op : lease_op) : Prop :=
  match op with
  | OpAcquire l _ scoped => settings_ok prefix longest l /\ now + leaseMS l <= exact_max /\ exists bindings, normalizeRPMBindings bindings = Ok scoped
  | OpRenew l _ scopes => settings_ok prefix longest l /\ now + leaseMS l <= exact_max /\ exists input, normalizeScopes input = Ok scopes
  | OpRelease l _ scopes => settings_ok prefix longest l /\ exists input, normalizeScopes input = Ok scopes
  end.

Fixpoint trace_ok (prefix : string) (longest t : Z) (trace : list (Clock * lease_op)) : Prop :=
  match trace with
  | [] => True
  | (clock, op) :: rest =>
      clock_ok clock /\ t <= time_ms clock /\ op_ok prefix longest (time_ms clock) op /\ trace_ok prefix longest (time_ms clock) rest
  end.

Fixpoint end_time (t : Z) (trace : list (Clock * lease_op)) : Z :=
  match trace with [] => t | (clock, _) :: rest => end_time (time_ms clock) rest end.

Definition empty_db : LeaseDB := {| db_hashes := ∅; db_zsets := ∅ |}.

Section fleet.
Context (sha256hex : string -> string) (prefix : string) (longest : Z).
Hypothesis no_collision : collision_free sha256hex.
Notation sim := (sim sha256hex prefix longest).

Lemma op_refines clock op db T : sim db (time_ms clock) T -> clock_ok clock -> op_ok prefix longest (time_ms clock) op ->
  exists db', run_op sha256hex clock op db = (db', Ok (table_op (time_ms clock) op T).2) /\ sim db' (time_ms clock) (table_op (time_ms clock) op T).1.
Proof using no_collision.
  intros Hs Hc. destruct op as [l id scoped|l id scopes|l id scopes]; [intros (Hl & Hm & bindings & Hn)|intros (Hl & Hm & input & Hn)|intros (Hl & input & Hn)].
  - by eapply acquire_refines.
  - apply renew_refines; try done. by eapply normalized_chain.
  - apply release_refines; try done. by eapply normalized_chain.
Qed.

Lemma trace_refines trace : forall db t T, sim db t T -> trace_ok prefix longest t trace ->
  exists db', run_trace sha256hex trace db = (db', Ok <$> (table_trace trace T).2) /\ sim db' (end_time t trace) (table_trace trace T).1.
Proof using no_collision.
  induction trace as [|[clock op] trace IH]; intros db t T Hs Hok; [by exists db|]. destruct Hok as (Hc & Ht & Hop & Hok).
  destruct (op_refines clock op db T) as (db1 & E1 & Hs1); [by eapply sim_later|done..|].
  destruct (IH db1 (time_ms clock) _ Hs1 Hok) as (db2 & E2 & Hs2). exists db2. simpl. rewrite E1, E2.
  destruct (table_op (time_ms clock) op T) as [T1 r]. simpl in *. by destruct (table_trace trace T1).
Qed.
End fleet.

(** ** Slots *)
Lemma held_later t t' s T : t <= t' -> held t' s T <= held t s T.
Proof.
  intros Ht. rewrite <- !card_expiries, (expiries_later t t') by done. unfold card. apply inj_le, map_size_filter.
Qed.

Lemma held_insert now s id l T : held now s (<[id := l]> T) <= held now s T + 1.
Proof.
  rewrite <- !card_expiries, expiries_insert. unfold card. destruct (decide _).
  - rewrite map_size_insert. destruct (expiries now s T !! id); simpl; lia.
  - rewrite map_size_delete. destruct (expiries now s T !! id); simpl; lia.
Qed.

Lemma held_insert_no_more now s id l T : (holds_slot now s l -> is_Some (expiries now s T !! id)) -> held now s (<[id := l]> T) <= held now s T.
Proof.
  intros H. rewrite <- !card_expiries, expiries_insert. unfold card. destruct (decide _) as [Hh|].
  - rewrite map_size_insert. destruct (H Hh) as [e ->]. simpl. lia.
  - rewrite map_size_delete. destruct (expiries now s T !! id); simpl; lia.
Qed.

Lemma full_scope_None now scoped T : forall index, full_scope now index scoped T = None <-> Forall (fun sp => held now sp.1 T < conc_hard sp.2) scoped.
Proof.
  induction scoped as [|[s p] scoped IH]; intros index; simpl; [by split|]. rewrite Forall_cons, <- (IH (index + 1)). simpl.
  destruct (Z.leb_spec (conc_hard p) (held now s T)); [split; [done|lia]|]. split; [by intros|by intros []].
Qed.

Lemma expired_no_more now s id l T : held now s (<[id := with_state l Expired]> T) <= held now s T.
Proof. apply held_insert_no_more. by intros []. Qed.

(** Every acquisition for the scope is under a boundary of at most [h]. *)
Definition bounded (s : Scope) (h : Z) (op : lease_op) : Prop :=
  match op with OpAcquire _ _ scoped => Forall (fun sp => sp.1 = s -> conc_hard sp.2 <= h) scoped | _ => True end.

Lemma op_within s h now op T : bounded s h op -> held now s T <= h -> held now s (table_op now op T).1 <= h.
Proof.
  intros Hb Hh. destruct op as [l id scoped|l id scopes|l id scopes]; simpl in *.
  - unfold table_acquire. destruct (known now id T) as [lease|].
    + destruct (negb _); [done|]. destruct (ls_state lease); try done. destruct (_ <=? now); [|done]. etrans; [apply expired_no_more|done].
    + destruct (full_scope now 1 scoped T) as [[[i s'] p]|] eqn:Ef; [done|]. simpl. apply full_scope_None in Ef.
      destruct (decide (s ∈ scoped.*1)) as [Hin|Hni].
      * etrans; [apply held_insert|]. apply list_elem_of_fmap in Hin as ([s' p] & -> & Hin). rewrite Forall_forall in *.
        specialize (Ef _ Hin). specialize (Hb _ Hin eq_refl). simpl in *. lia.
      * etrans; [apply held_insert_no_more|done]. by intros (_ & ? & _).
  - unfold table_renew. destruct (known now id T) as [lease|] eqn:Ek; [|done]. destruct (bool_decide_reflect (ls_scopes lease = scopes)) as [<-|]; [|done]. simpl.
    destruct (ls_state lease) eqn:Est; try done. destruct (Z.leb_spec (ls_expiry lease) now).
    + etrans; [apply expired_no_more|done].
    + etrans; [apply held_insert_no_more|done]. intros (_ & Hin & _). simpl in Hin. rewrite (owner _ _ _ _ _ Ek Est) by done. by eexists.
  - unfold table_release. destruct (known now id T) as [lease|] eqn:Ek; [|done]. destruct (negb _); [done|]. destruct (ls_state lease) eqn:Est; try done.
    destruct (Z.leb_spec (ls_expiry lease) now); [etrans; [apply expired_no_more|done]|].
    etrans; [apply held_insert_no_more|done]. by intros [].
Qed.

Lemma trace_within s h trace : forall t prefix longest T, trace_ok prefix longest t trace -> Forall (fun co => bounded s h co.2) trace ->
  held t s T <= h -> held (end_time t trace) s (table_trace trace T).1 <= h.
Proof.
  induction trace as [|[clock op] trace IH]; intros t prefix longest T Hok Hb Hh; [done|]. destruct Hok as (_ & Ht & _ & Hok).
  apply Forall_cons in Hb as [Hb1 Hb]. simpl. pose proof (held_later _ _ s T Ht). pose proof (op_within s h (time_ms clock) op T Hb1 ltac:(lia)) as H1.
  destruct (table_op (time_ms clock) op T) as [T1 r]. simpl in H1. specialize (IH _ _ _ T1 Hok Hb H1). by destruct (table_trace trace T1).
Qed.

(** ** Answers of the client *)
Lemma full_scope_Some now scoped T : forall index i s p, full_scope now index scoped T = Some (i, s, p) ->
  exists j, i = index + Z.of_nat j /\ scoped !! j = Some (s, p) /\ conc_hard p <= held now s T.
Proof.
  induction scoped as [|[s0 p0] scoped IH]; intros index i s p H; simpl in H; [done|].
  destruct (Z.leb_spec (conc_hard p0) (held now s0 T)); simplify_eq; [by exists 0%nat; split_and!; [lia|..]|].
  destruct (IH _ _ _ _ H) as (j & -> & Hj & Hle). exists (S j). split_and!; [lia|done..].
Qed.

(** The lease whose end a rejection announces: none of the scope ends earlier. *)
Definition earliest_end (now : Z) (s : Scope) (T : Table) (e : Z) : Prop :=
  (exists id l, holders now s T !! id = Some l /\ ls_expiry l = e) /\ map_Forall (fun _ l => e <= ls_expiry l) (holders now s T).

Lemma lowest_earliest now s T : 1 <= held now s T -> exists e, lowest (expiries now s T) = Some e /\ earliest_end now s T e /\ now < e.
Proof.
  intros Hh. pose proof (lowest_spec (expiries now s T)) as H. destruct (lowest (expiries now s T)) as [e|].
  - destruct H as [[id Hid] Hall]. exists e. split; [done|]. split.
    + split; [|intros id' l' Hl'; apply (Hall id'); unfold expiries; by rewrite lookup_fmap, Hl']. unfold expiries in Hid. apply lookup_fmap_Some in Hid as (l & He & Hl). by exists id, l.
    + by apply expiries_lookup in Hid as (l & _ & (_ & _ & ?) & <-).
  - rewrite <- card_expiries, H in Hh. by vm_compute in Hh.
Qed.

Definition admission_answer (now : Z) (l : RedisConcurrencyLimiter) (T : Table) (id : string) (scoped : list (Scope * Effective))
    (answer : result RedisConcurrencyAdmission redis_concurrency_error) : Prop :=
  let granted idempotent expiry n := exists adm, answer = Ok adm /\ Concurrency_Allowed adm = true /\ cad_Idempotent adm = idempotent /\
    cad_Handle adm = {| ch_LeaseID := id; ch_Scopes := scoped.*1 |} /\ cad_ExpiresAt adm = Some (UnixMilli expiry) /\
    cc_Count <$> cad_Counts adm = (fun s => held now s T + n) <$> scoped.*1 in
  match known now id T with
  | Some lease =>
      if decide (ls_scopes lease = scoped.*1 /\ ls_state lease = Active)
      then if ls_expiry lease <=? now then answer = Err ErrRedisConcurrencyLeaseExpired else granted true (ls_expiry lease) 0
      else answer = Err ErrRedisConcurrencyLeaseConflict
  | None =>
      if decide (Forall (fun sp => held now sp.1 T < conc_hard sp.2) scoped) then granted false (now + leaseMS l) 1
      else exists adm s p e, answer = Ok adm /\ Concurrency_Allowed adm = false /\ (s, p) ∈ scoped /\ conc_hard p <= held now s T /\ earliest_end now s T e /\
        cad_Rejection adm = Some {| cj_Scope := s; cj_Count := held now s T; cj_Hard := conc_hard p;
          cj_RetryAfter := time_sub (UnixMilli e) (UnixMilli now); cj_EarliestExpiry := UnixMilli e |}
  end.

Lemma concurrency_counts_Ok idempotent (n : Scope -> Z) scoped :
  (idempotent = true \/ Forall (fun sp => n sp.1 <= conc_hard sp.2) scoped) ->
  exists cs, concurrency_counts idempotent scoped (n <$> scoped.*1) = Ok cs /\ cc_Count <$> cs = n <$> scoped.*1.
Proof.
  induction scoped as [|[s p] scoped IH]; intros H; [by exists []|]. destruct IH as (cs & E & Hcs).
  { destruct H as [H|H]; [by left|right; by apply Forall_cons in H as []]. }
  rewrite !fmap_cons. cbn [concurrency_counts fst].
  assert (Hle : negb idempotent && (eff_Hard (eff_Concurrency p) <? n s) = false).
  { destruct H as [->|H]; [done|]. apply Forall_cons in H as [H _]. unfold conc_hard in H. simpl in H.
    destruct (Z.ltb_spec (eff_Hard (eff_Concurrency p)) (n s)); [lia|]. apply andb_false_r. }
  rewrite Hle. cbn [negb]. rewrite E. simpl. eexists. split; [reflexivity|]. rewrite fmap_cons. by rewrite Hcs.
Qed.

Lemma parse_concurrency_allowed now e (idempotent : bool) counts :
  0 <= now < e -> length counts = 4%nat -> Forall (fun c => 0 < c <= MaximumValue) counts ->
  parseRedisConcurrencyAcquire (RArray ([RInt 1; RInt now; RInt e; RInt (if idempotent then 1 else 0)] ++ (RInt <$> counts))) =
  Ok {| pc_code := 1; pc_nowMS := now; pc_expiresMS := e; pc_earliestMS := 0; pc_scopeIndex := 0; pc_count := 0;
        pc_hard := 0; pc_idempotent := idempotent; pc_expired := false; pc_counts := counts |}.
Proof.
  intros He Hl Hb. pose proof (mapM_counts allowed_count counts) as Hm.
  destruct (four _ Hl) as (a & b & c & d & ->). rewrite !fmap_cons, fmap_nil in *.
  cbn [app parseRedisConcurrencyAcquire redisRPMInt64 assignRedisConcurrencyAllowed mbind option_bind].
  destruct (Z.ltb_spec now 0), (Z.leb_spec e now); try lia. cbn [orb]. rewrite Hm; [by destruct idempotent|].
  intros x Hx. rewrite Forall_forall in Hb. specialize (Hb x Hx). unfold allowed_count. cbn [redisRPMUint64].
  destruct (Z.ltb_spec x 0); [lia|]. cbn [mbind option_bind]. by destruct (Z.eqb_spec x 0), (Z.ltb_spec MaximumValue x); try lia.
Qed.

Lemma parse_concurrency_denied now e j count hard :
  0 <= now < e -> (j < 4)%nat -> 1 <= hard <= MaximumValue -> hard <= count ->
  parseRedisConcurrencyAcquire (RArray [RInt 0; RInt (1 + Z.of_nat j); RInt count; RInt hard; RInt e; RInt now]) =
  Ok {| pc_code := 0; pc_nowMS := now; pc_expiresMS := 0; pc_earliestMS := e; pc_scopeIndex := Z.of_nat j;
        pc_count := count; pc_hard := hard; pc_idempotent := false; pc_expired := false; pc_counts := replicate requiredScopeCount 0 |}.
Proof.
  intros He Hj Hh Hc. cbn [parseRedisConcurrencyAcquire redisRPMInt64 assignRedisConcurrencyDenied mbind option_bind redisRPMUint64].
  destruct (Z.ltb_spec count 0); [lia|]. cbn [mbind option_bind]. destruct (Z.ltb_spec hard 0); [lia|]. cbn [mbind option_bind]. unfold index_ok.
  destruct (Z.leb_spec 1 (1 + Z.of_nat j)), (Z.leb_spec (1 + Z.of_nat j) (Z.of_nat requiredScopeCount)); unfold requiredScopeCount in *; try lia.
  destruct (Z.eqb_spec hard 0), (Z.ltb_spec MaximumValue hard), (Z.ltb_spec count hard), (Z.ltb_spec now 0), (Z.leb_spec e now); try lia.
  cbn [andb negb orb or_concurrency_protocol]. do 2 f_equal. lia.
Qed.

Lemma held_nonneg now s T : 0 <= held now s T.
Proof. unfold held. lia. Qed.

(** ** Properties *)

(** C13: the scripts refine a lease table. For every sequence of acquire, renew and
    release evaluations by any gateways of a fleet, at server times that do not go
    back, the hashes and sorted sets in Redis give, evaluation by evaluation, exactly
    the replies of a plain table with one lease per ID: a lease is granted when its ID
    is free and every scope has room, retried without a second slot, renewed or
    released while it runs, and its slots come back when it ends or expires. In
    particular no evaluation reports corrupt state or fails. *)
Theorem concurrency_scripts_refine_lease_table sha256hex prefix longest trace :
  collision_free sha256hex -> trace_ok prefix longest 0 trace ->
  (run_trace sha256hex trace empty_db).2 = Ok <$> (table_trace trace ∅).2.
Proof.
  intros Hcf Hok. destruct (trace_refines sha256hex prefix longest Hcf trace empty_db 0 ∅) as (db & -> & _); [apply sim_start|done|done].
Qed.

(** C14: no more leases than the hard boundary. If every acquisition of a scope in the
    sequence was made under a hard boundary of at most [h], the scope's sorted set in
    Redis holds at most [h] leases that have not expired. *)
Theorem concurrency_never_exceeds_limit sha256hex prefix longest trace s h :
  collision_free sha256hex -> trace_ok prefix longest 0 trace -> Forall (fun co => bounded s h co.2) trace -> 0 <= h -> Scope_Validate s = true ->
  card (live (db_zsets (run_trace sha256hex trace empty_db).1) (end_time 0 trace) (scopeKey prefix s)) <= h.
Proof.
  intros Hcf Hok Hb Hh Hv. destruct (trace_refines sha256hex prefix longest Hcf trace empty_db 0 ∅) as (db & -> & Hs); [apply sim_start|done|].
  simpl. rewrite (sim_sets _ _ _ _ _ _ Hs), card_expiries by done. by eapply trace_within.
Qed.

Lemma allowed_admission id scoped (n : Scope -> Z) now e idempotent :
  length scoped = 4%nat -> id <> ""%string -> (idempotent = true \/ Forall (fun sp => n sp.1 <= conc_hard sp.2) scoped) ->
  exists adm, allowedRedisConcurrencyAdmission id scoped {| pc_code := 1; pc_nowMS := now; pc_expiresMS := e; pc_earliestMS := 0; pc_scopeIndex := 0;
      pc_count := 0; pc_hard := 0; pc_idempotent := idempotent; pc_expired := false; pc_counts := n <$> scoped.*1 |} = Ok adm /\
    Concurrency_Allowed adm = true /\ cad_Idempotent adm = idempotent /\ cad_Handle adm = {| ch_LeaseID := id; ch_Scopes := scoped.*1 |} /\
    cad_ExpiresAt adm = Some (UnixMilli e) /\ cc_Count <$> cad_Counts adm = n <$> scoped.*1.
Proof.
  intros Hlen Hid Hn. destruct (concurrency_counts_Ok idempotent n scoped Hn) as (cs & Ecs & Hcs).
  unfold allowedRedisConcurrencyAdmission. cbn [pc_idempotent pc_counts]. rewrite Ecs. eexists. split; [reflexivity|].
  split_and!; [|done..]. unfold Concurrency_Allowed. simpl. rewrite (proj2 (String.eqb_neq _ _)) by done. simpl.
  rewrite <- (length_fmap cc_Count), Hcs, !length_fmap, Hlen. done.
Qed.

Lemma acquire_answer sha256hex srv clock l request scoped T ks raw :
  steady srv clock -> validRedisConcurrencyLeaseID (ca_LeaseID request) = true -> normalizeRPMBindings (ca_Bindings request) = Ok scoped ->
  run_op sha256hex clock (OpAcquire l (ca_LeaseID request) scoped) (srv_keys srv) = (ks, Ok raw) ->
  raw = (table_acquire (time_ms clock) (leaseMS l) (retainMS l) (ca_LeaseID request) scoped T).2 ->
  map_Forall (fun _ lease => lease_ok lease) T -> 0 < leaseMS l -> clock_ok clock ->
  Forall (fun s => held (time_ms clock) s T <= MaximumValue) scoped.*1 ->
  exists answer, ConcurrencyAcquire sha256hex srv l ctx_live request = (called srv ks, answer) /\
    admission_answer (time_ms clock) l T (ca_LeaseID request) scoped answer.
Proof.
  intros Hst Hid Hn E -> Hok Hlease Hc Hmax. destruct (clock_times clock Hc) as (_ & [Ht _] & _). set (now := time_ms clock) in *.
  destruct (bound_chain _ _ Hn) as ((_ & Hvs & _) & Hv & Hlen & _). assert (Hlen1 : forall n : Scope -> Z, length (n <$> scoped.*1) = 4%nat) by (intros; by rewrite !length_fmap).
  unfold ConcurrencyAcquire. rewrite Hid, Hn. cbn [negb]. rewrite (Eval_steady _ clock _ _ _ _ _ _ Hst E). eexists. split; [reflexivity|].
  assert (Hne : ca_LeaseID request <> ""%string) by (by intros Heq; rewrite Heq in Hid).
  unfold admission_answer, table_acquire. destruct (known now (ca_LeaseID request) T) as [lease|] eqn:Ek.
  - destruct (bool_decide_reflect (ls_scopes lease = scoped.*1)) as [Hsc|Hsc]; cbn [negb snd]; [|by rewrite decide_False by (by intros [])].
    destruct (ls_state lease) eqn:Est; [|by rewrite decide_False by (by intros [])..]. rewrite decide_True by done.
    destruct (Z.leb_spec (ls_expiry lease) now) as [|Hlt]; [done|]. cbn [snd].
    assert (Hb : Forall (fun c => 0 < c <= MaximumValue) ((fun s => held now s T + 0) <$> scoped.*1)).
    { rewrite Forall_fmap. rewrite Forall_forall in *. intros s Hs. specialize (Hmax s Hs). simpl. rewrite Z.add_0_r. split; [|done].
      pose proof (owner _ _ _ _ s Ek Est Hlt ltac:(by rewrite Hsc)) as Ho. rewrite <- card_expiries. unfold card.
      assert (size (expiries now s T) <> 0%nat) by (rewrite map_size_ne_0_lookup; eauto). lia. }
    rewrite (list_fmap_compose (fun s => held now s T + 0) RInt), (parse_concurrency_allowed now _ true) by (done || lia || apply Hlen1).
    cbn [pc_code Z.eqb]. apply allowed_admission; [done|done|by left].
  - destruct (full_scope now 1 scoped T) as [[[i s] p]|] eqn:Ef; cbn [snd].
    + rewrite decide_False by (rewrite <- (full_scope_None now scoped T 1); congruence).
      destruct (full_scope_Some _ _ _ _ _ _ _ Ef) as (j & -> & Hj & Hle). pose proof (list_elem_of_lookup_2 _ _ _ Hj) as Hin.
      unfold valid_scoped in Hv. rewrite Forall_forall in Hv. destruct (Hv _ Hin) as [_ Hp]. apply conc_limits in Hp. simpl in Hp.
      destruct (lowest_earliest now s T) as (e & Elow & He & Hlt); [unfold conc_hard in *; lia|]. rewrite Elow. change (default 0 (Some e)) with e.
      rewrite parse_concurrency_denied by (done || lia || (rewrite <- Hlen; by eapply lookup_lt_Some)).
      unfold deniedRedisConcurrencyAdmission. cbn [result_bind pc_code Z.eqb pc_scopeIndex pc_hard]. rewrite Nat2Z.id, Hj.
      unfold conc_hard at 1. rewrite Z.eqb_refl. do 4 eexists. split; [reflexivity|]. by split_and!.
    + pose proof (proj1 (full_scope_None _ _ _ _) Ef) as Hroom. rewrite decide_True by done.
      assert (Hb : Forall (fun sp => 0 < held now sp.1 T + 1 <= conc_hard sp.2) scoped).
      { eapply Forall_impl; [exact Hroom|]. intros sp. pose proof (held_nonneg now sp.1 T). simpl. lia. }
      rewrite (list_fmap_compose (fun s => held now s T + 1) RInt), (parse_concurrency_allowed now _ false); [|lia|apply Hlen1|].
      2: { rewrite !Forall_fmap. unfold valid_scoped in Hv. rewrite Forall_forall in *. intros sp Hsp. specialize (Hb _ Hsp). destruct (Hv _ Hsp) as [_ Hp].
           apply conc_limits in Hp. simpl. unfold redis_maximum, MaximumValue in *. lia. }
      cbn [pc_code Z.eqb]. apply allowed_admission; [done|done|right]. eapply Forall_impl; [exact Hb|]. by intros ? [].
Qed.

(** A server that has run the sequence, and a limiter of the fleet. *)
Record serves (sha256hex : string -> string) (prefix : string) (longest : Z) (trace : list (Clock * lease_op)) (srv : Server LeaseDB) (clock : Clock)
    (l : RedisConcurrencyLimiter) : Prop := {
  sv_hash : collision_free sha256hex; sv_trace : trace_ok prefix longest 0 trace; sv_settings : settings_ok prefix longest l;
  sv_steady : steady srv clock; sv_keys : srv_keys srv = (run_trace sha256hex trace empty_db).1;
  sv_clock : clock_ok clock; sv_time : end_time 0 trace <= time_ms clock; sv_exact : time_ms clock + leaseMS l <= exact_max }.

Lemma serves_sim sha256hex prefix longest trace srv clock l : serves sha256hex prefix longest trace srv clock l ->
  sim sha256hex prefix longest (srv_keys srv) (time_ms clock) (table_trace trace ∅).1.
Proof.
  intros [Hcf Hok _ _ -> _ Ht _]. destruct (trace_refines sha256hex prefix longest Hcf trace empty_db 0 ∅) as (db & -> & Hs); [apply sim_start|done|].
  by eapply sim_later.
Qed.

(** Against a Redis that has served any sequence of the fleet, [Acquire] decides by
    the leases that run: it grants and counts the new lease when the ID is free and
    every scope has room, confirms a running lease of the same scopes, reports a lease
    that expired or ended or belongs to other scopes, and otherwise names a full scope
    with the time until the first of its leases ends. *)
Theorem ConcurrencyAcquire_decides sha256hex prefix longest trace srv clock l request scoped :
  serves sha256hex prefix longest trace srv clock l -> validRedisConcurrencyLeaseID (ca_LeaseID request) = true ->
  normalizeRPMBindings (ca_Bindings request) = Ok scoped ->
  Forall (fun s => held (time_ms clock) s (table_trace trace ∅).1 <= MaximumValue) scoped.*1 ->
  exists srv' answer, ConcurrencyAcquire sha256hex srv l ctx_live request = (srv', answer) /\
    admission_answer (time_ms clock) l (table_trace trace ∅).1 (ca_LeaseID request) scoped answer.
Proof.
  intros Hsv Hid Hn Hmax. pose proof (serves_sim _ _ _ _ _ _ _ Hsv) as Hs. destruct Hsv as [Hcf _ Hl Hst _ Hc _ He].
  destruct (op_refines sha256hex prefix longest Hcf clock (OpAcquire l (ca_LeaseID request) scoped) _ _ Hs Hc) as (db & E & _).
  { split_and!; [done|done|by eexists]. }
  destruct (acquire_answer sha256hex srv clock l request scoped _ db _ Hst Hid Hn E eq_refl) as (answer & Ea & Ha); [apply Hs|apply Hl|done|done|].
  by exists (called srv db), answer.
Qed.

(** ** Release *)
Lemma parse_release now e (idempotent expired : bool) counts :
  0 <= now -> 0 <= e -> length counts = 4%nat -> Forall (fun c => 0 <= c <= MaximumValue) counts ->
  parseRedisConcurrencyRelease (release_reply now e (if idempotent then 1 else 0) (if expired then 1 else 0) counts) =
  Ok {| pc_code := 0; pc_nowMS := now; pc_expiresMS := e; pc_earliestMS := 0; pc_scopeIndex := 0; pc_count := 0; pc_hard := 0;
        pc_idempotent := idempotent; pc_expired := expired; pc_counts := counts |}.
Proof.
  intros Hn He Hl Hb. pose proof (mapM_counts settled_count counts) as Hm. destruct (four _ Hl) as (a & b & c & d & ->).
  unfold release_reply. rewrite !fmap_cons, fmap_nil in *. unfold parseRedisConcurrencyRelease.
  cbn [app parseRedisConcurrencyLifecycle redisRPMInt64 assignRedisConcurrencyLifecycleSuccess mbind option_bind].
  destruct (Z.ltb_spec now 0), (Z.ltb_spec e 0); try lia. cbn [orb]. rewrite Hm; [by destruct idempotent, expired|].
  intros x Hx. rewrite Forall_forall in Hb. specialize (Hb x Hx). unfold settled_count. cbn [redisRPMUint64].
  destruct (Z.ltb_spec x 0); [lia|]. cbn [mbind option_bind]. by destruct (Z.ltb_spec MaximumValue x); [lia|].
Qed.

Lemma usage_counts (scopes : list Scope) (f : Scope -> Z) : cu_Count <$> redisConcurrencyUsage scopes (f <$> scopes) = f <$> scopes.
Proof. induction scopes as [|s scopes IH]; [done|]. simpl. f_equal. exact IH. Qed.

Lemma release_answer sha256hex srv clock l handle scopes ks now e (idempotent expired : bool) (f : Scope -> Z) :
  steady srv clock -> validateRedisConcurrencyHandle handle = Ok scopes -> length scopes = 4%nat -> 0 <= now -> 0 <= e ->
  Forall (fun s => 0 <= f s <= MaximumValue) scopes ->
  run_op sha256hex clock (OpRelease l (ch_LeaseID handle) scopes) (srv_keys srv) =
    (ks, Ok (release_reply now e (if idempotent then 1 else 0) (if expired then 1 else 0) (f <$> scopes))) ->
  exists rel, ConcurrencyRelease sha256hex srv l ctx_live handle = (called srv ks, Ok rel) /\ crl_Idempotent rel = idempotent /\
    crl_Expired rel = expired /\ cu_Count <$> crl_Usage rel = f <$> scopes.
Proof.
  intros Hst Hh Hl Hn He Hb E. unfold ConcurrencyRelease. rewrite Hh, (Eval_steady _ clock _ _ _ _ _ _ Hst E).
  rewrite parse_release by (done || (by rewrite length_fmap) || (by rewrite Forall_fmap)). eexists. split; [reflexivity|].
  split_and!; [done..|apply usage_counts].
Qed.

Lemma held_released now s id l T : known now id T = Some l -> ls_state l = Active -> now < ls_expiry l -> s ∈ ls_scopes l ->
  held now s (<[id := with_state l Released]> T) = held now s T - 1.
Proof.
  intros Hk Ha He Hs. rewrite <- (card_expiries now s (<[_ := _]> T)), expiries_insert, decide_False by (by intros []).
  eapply card_delete_in. by apply owner.
Qed.

(** The operations on a lease that runs, and after its release. *)
Lemma table_release_running now id T lease : known now id T = Some lease -> ls_state lease = Active -> now < ls_expiry lease ->
  table_release now id (ls_scopes lease) T =
  (<[id := with_state lease Released]> T, release_reply now (ls_expiry lease) 0 0 ((fun s => held now s T - 1) <$> ls_scopes lease)).
Proof.
  intros Hk Ha Hlt. unfold table_release. rewrite Hk, bool_decide_eq_true_2 by done. cbn [negb]. rewrite Ha. by destruct (Z.leb_spec (ls_expiry lease) now); [lia|].
Qed.

Section released.
Context (now : Z) (id : string) (T : Table) (lease : Lease) (scopes : list Scope).
Hypothesis Hk : known now id T = Some lease.
Hypothesis Ha : ls_state lease = Released.
Hypothesis Hsc : ls_scopes lease = scopes.

Lemma table_release_released :
  table_release now id scopes T = (T, release_reply now (ls_expiry lease) 1 0 ((fun s => held now s T - 0) <$> scopes)).
Proof using Hk Ha Hsc. unfold table_release. rewrite Hk, bool_decide_eq_true_2 by done. cbn [negb]. by rewrite Ha. Qed.

Lemma table_renew_released lease_ms retain_ms : table_renew now lease_ms retain_ms id scopes T = (T, conflict_reply).
Proof using Hk Ha Hsc. unfold table_renew. rewrite Hk, bool_decide_eq_true_2 by done. cbn [negb]. by rewrite Ha. Qed.

Lemma table_acquire_released lease_ms retain_ms scoped : table_acquire now lease_ms retain_ms id scoped T = (T, conflict_reply).
Proof using Hk Ha. unfold table_acquire. rewrite Hk, Ha. by destruct (negb _). Qed.
End released.

Lemma known_insert now id l T : now <= ls_until l -> known now id (<[id := l]> T) = Some l.
Proof. intros H. unfold known. rewrite lookup_insert_eq. simpl. by destruct (Z.ltb_spec (ls_until l) now); [lia|]. Qed.

Lemma handle_scopes handle scopes : validateRedisConcurrencyHandle handle = Ok scopes ->
  validRedisConcurrencyLeaseID (ch_LeaseID handle) = true /\ normalizeScopes (ch_Scopes handle) = Ok scopes.
Proof. unfold validateRedisConcurrencyHandle. destruct (validRedisConcurrencyLeaseID _); [|done]. destruct (normalizeScopes _); [|done]. by intros [= ->]. Qed.

(** A release gives the slots back once, and the lease cannot return. For a lease
    that runs, [Release] succeeds and each of its scopes counts one lease less;
    releasing again confirms without another change, renewing it and acquiring its ID
    again are conflicts. *)
Theorem ConcurrencyRelease_frees_slots sha256hex prefix longest trace srv clock l handle scopes lease :
  serves sha256hex prefix longest trace srv clock l -> validateRedisConcurrencyHandle handle = Ok scopes ->
  let T := (table_trace trace ∅).1 in
  let now := time_ms clock in
  known now (ch_LeaseID handle) T = Some lease -> ls_scopes lease = scopes -> ls_state lease = Active -> now < ls_expiry lease ->
  Forall (fun s => held now s T <= MaximumValue) scopes ->
  exists srv1 rel, ConcurrencyRelease sha256hex srv l ctx_live handle = (srv1, Ok rel) /\ crl_Idempotent rel = false /\ crl_Expired rel = false /\
    cu_Count <$> crl_Usage rel = (fun s => held now s T - 1) <$> scopes /\
    (exists srv2 again, ConcurrencyRelease sha256hex srv1 l ctx_live handle = (srv2, Ok again) /\ crl_Idempotent again = true /\
      cu_Count <$> crl_Usage again = (fun s => held now s T - 1) <$> scopes) /\
    (exists srv2, ConcurrencyRenew sha256hex srv1 l ctx_live handle = (srv2, Err ErrRedisConcurrencyLeaseConflict)) /\
    (forall bindings scoped, normalizeRPMBindings bindings = Ok scoped ->
      exists srv2, ConcurrencyAcquire sha256hex srv1 l ctx_live {| ca_LeaseID := ch_LeaseID handle; ca_Bindings := bindings |} =
        (srv2, Err ErrRedisConcurrencyLeaseConflict)).
Proof.
  intros Hsv Hh T now Hk <- Ha Hlt Hmax. pose proof (serves_sim _ _ _ _ _ _ _ Hsv) as Hs. fold T now in Hs. destruct Hsv as [Hcf _ Hl Hst _ Hc _ He].
  destruct (clock_times clock Hc) as (_ & [Ht _] & _). fold now in Ht, He.
  destruct (handle_scopes _ _ Hh) as [Hid Hn]. pose proof (normalized_chain _ _ Hn) as (Hlen & _).
  destruct (sim_leases _ _ _ _ _ _ Hs _ _ (proj1 (known_lookup _ _ _ _ Hk))) as (_ & Hexp & _). set (id := ch_LeaseID handle) in *.
  set (T1 := <[id := with_state lease Released]> T).
  destruct (op_refines sha256hex prefix longest Hcf clock (OpRelease l id (ls_scopes lease)) _ _ Hs Hc) as (db1 & E1 & Hs1); [by split; [|eexists]|].
  cbn [table_op] in E1, Hs1. fold now in E1, Hs1. rewrite (table_release_running _ _ _ _ Hk Ha Hlt) in E1, Hs1. cbn [fst snd] in E1, Hs1. fold T1 in Hs1.
  assert (Hk1 : known now id T1 = Some (with_state lease Released)) by (apply known_insert; apply known_lookup in Hk as [_ ?]; done).
  assert (Hheld : forall s, s ∈ ls_scopes lease -> held now s T1 = held now s T - 1) by (intros; by apply held_released).
  assert (Hb : Forall (fun s => 0 <= held now s T - 1 <= MaximumValue) (ls_scopes lease)).
  { rewrite Forall_forall in *. intros s Hin. specialize (Hmax s Hin). pose proof (held_nonneg now s T1). specialize (Hheld s Hin). lia. }
  destruct (release_answer sha256hex srv clock l handle _ db1 now (ls_expiry lease) false false (fun s => held now s T - 1) Hst Hh Hlen Ht (proj1 Hexp) Hb E1)
    as (rel & Er & Hi & Hx & Hu). exists (called srv db1), rel. split_and!; [done..| | |].
  - destruct (op_refines sha256hex prefix longest Hcf clock (OpRelease l id (ls_scopes lease)) _ _ Hs1 Hc) as (db2 & E2 & _); [by split; [|eexists]|].
    cbn [table_op] in E2. fold now in E2. rewrite (table_release_released _ _ _ (with_state lease Released) (ls_scopes lease) Hk1 eq_refl eq_refl) in E2. cbn [snd ls_scopes with_state ls_expiry] in E2.
    rewrite (list_fmap_ext (fun s => held now s T1 - 0) (fun s => held now s T - 1) (ls_scopes lease)) in E2
      by (intros i s Hi'; rewrite Hheld by (by eapply list_elem_of_lookup_2); lia).
    destruct (release_answer sha256hex (called srv db1) clock l handle _ db2 now (ls_expiry lease) true false (fun s => held now s T - 1) Hst Hh Hlen Ht (proj1 Hexp) Hb E2)
      as (again & Ea & Hi2 & _ & Hu2). by exists (called (called srv db1) db2), again.
  - destruct (op_refines sha256hex prefix longest Hcf clock (OpRenew l id (ls_scopes lease)) _ _ Hs1 Hc) as (db2 & E2 & _); [by split_and!; [| |eexists]|].
    cbn [table_op] in E2. fold now in E2. rewrite (table_renew_released _ _ _ (with_state lease Released) (ls_scopes lease) Hk1 eq_refl eq_refl) in E2.
    exists (called (called srv db1) db2). unfold ConcurrencyRenew. rewrite Hh. by rewrite (Eval_steady (called srv db1) clock _ _ _ _ _ _ Hst E2).
  - intros bindings scoped Hnb.
    destruct (op_refines sha256hex prefix longest Hcf clock (OpAcquire l id scoped) _ _ Hs1 Hc) as (db2 & E2 & _); [by split_and!; [| |eexists]|].
    cbn [table_op] in E2. fold now in E2. rewrite (table_acquire_released _ _ _ (with_state lease Released) Hk1 eq_refl) in E2.
    exists (called (called srv db1) db2). unfold ConcurrencyAcquire. cbn [ca_LeaseID ca_Bindings]. fold id. rewrite Hid, Hnb. cbn [negb].
    by rewrite (Eval_steady (called srv db1) clock _ _ _ _ _ _ Hst E2).
Qed.

(** ** Witnesses: one slot, held by the lease a1 *)
Definition demo_conc : RedisConcurrencyLimiter :=
  {| cl_keyPrefix := "agw:limits:concurrency:v1:{concurrency}"; leaseMS := 30000; retainMS := 300000 |}.
Definition demo_trace : list (Clock * lease_op) :=
  [(demo_minute, OpAcquire demo_conc "a1" demo_scoped); (demo_minute, OpAcquire demo_conc "b2" demo_scoped)].
Definition demo_conc_server : Server LeaseDB :=
  {| srv_keys := (run_trace demo_sha demo_trace empty_db).1; srv_clock := fun _ => demo_minute; srv_net := fun _ => Delivered; srv_calls := 0 |}.

Lemma demo_settings : settings_ok (cl_keyPrefix demo_conc) 30000 demo_conc.
Proof. split; [done|by vm_compute..]. Qed.

Lemma demo_op_ok id : op_ok (cl_keyPrefix demo_conc) 30000 (time_ms demo_minute) (OpAcquire demo_conc id demo_scoped).
Proof. split; [exact demo_settings|]. split; [by vm_compute|]. exists demo_bindings. exact demo_normalized. Qed.

Lemma demo_trace_ok : trace_ok (cl_keyPrefix demo_conc) 30000 0 demo_trace.
Proof.
  assert (Hc : clock_ok demo_minute) by by vm_compute. assert (Ht : 0 <= time_ms demo_minute) by by vm_compute.
  split; [exact Hc|]. split; [exact Ht|]. split; [apply demo_op_ok|]. split; [exact Hc|]. split; [reflexivity|]. split; [apply demo_op_ok|]. exact I.
Qed.

Lemma demo_bounded : Forall (fun co => bounded demo_key_scope 1 co.2) demo_trace.
Proof. repeat (apply Forall_cons; split; [repeat (apply Forall_cons; split; [by vm_compute|]); apply Forall_nil_2|]). apply Forall_nil_2. Qed.

Lemma demo_serves : serves demo_sha (cl_keyPrefix demo_conc) 30000 demo_trace demo_conc_server demo_minute demo_conc.
Proof.
  split; [exact demo_collision_free|exact demo_trace_ok|exact demo_settings|intros i; split; reflexivity|reflexivity|by vm_compute..].
Qed.

(** The second acquisition is refused until the first lease ends. *)
Lemma concurrency_scripts_refine_lease_table_witness :
  (run_trace demo_sha demo_trace empty_db).2 =
  [Ok (RArray [RInt 1; RInt 150250; RInt 180250; RInt 0; RInt 1; RInt 1; RInt 1; RInt 1]);
   Ok (RArray [RInt 0; RInt 1; RInt 1; RInt 1; RInt 180250; RInt 150250])].
Proof.
  rewrite (concurrency_scripts_refine_lease_table demo_sha (cl_keyPrefix demo_conc) 30000 demo_trace demo_collision_free demo_trace_ok).
  vm_compute. reflexivity.
Defined.

Lemma concurrency_never_exceeds_limit_witness :
  card (live (db_zsets (run_trace demo_sha demo_trace empty_db).1) 150250 (scopeKey (cl_keyPrefix demo_conc) demo_key_scope)) <= 1.
Proof.
  exact (concurrency_never_exceeds_limit demo_sha (cl_keyPrefix demo_conc) 30000 demo_trace demo_key_scope 1 demo_collision_free demo_trace_ok
    demo_bounded ltac:(lia) eq_refl).
Defined.

Lemma demo_held : Forall (fun s => held (time_ms demo_minute) s (table_trace demo_trace ∅).1 <= MaximumValue) demo_chain.
Proof. repeat (apply Forall_cons; split; [by vm_compute|]). apply Forall_nil_2. Qed.

Definition demo_lease : Lease := {| ls_state := Active; ls_scopes := demo_chain; ls_expiry := 180250; ls_until := 480250 |}.

Lemma demo_known : known (time_ms demo_minute) "a1" (table_trace demo_trace ∅).1 = Some demo_lease.
Proof. vm_compute. reflexivity. Qed.

Lemma ConcurrencyAcquire_decides_witness :
  exists srv' adm, ConcurrencyAcquire demo_sha demo_conc_server demo_conc ctx_live {| ca_LeaseID := "a1"; ca_Bindings := demo_bindings |} = (srv', Ok adm) /\
    cad_Idempotent adm = true.
Proof.
  destruct (ConcurrencyAcquire_decides demo_sha (cl_keyPrefix demo_conc) 30000 demo_trace demo_conc_server demo_minute demo_conc
    {| ca_LeaseID := "a1"; ca_Bindings := demo_bindings |} demo_scoped demo_serves ltac:(by vm_compute) demo_normalized demo_held) as (srv' & answer & E & Ha).
  unfold admission_answer in Ha. cbn [ca_LeaseID] in Ha. rewrite demo_known in Ha. rewrite decide_True in Ha by (split; reflexivity).
  change (ls_expiry demo_lease <=? time_ms demo_minute) with false in Ha. destruct Ha as (adm & -> & _ & Hi & _). exists srv', adm. split; [exact E|exact Hi].
Defined.

Lemma ConcurrencyRelease_frees_slots_witness :
  exists srv1 rel, ConcurrencyRelease demo_sha demo_conc_server demo_conc ctx_live {| ch_LeaseID := "a1"; ch_Scopes := demo_chain |} = (srv1, Ok rel) /\
    cu_Count <$> crl_Usage rel = [0; 0; 0; 0].
Proof.
  destruct (ConcurrencyRelease_frees_slots demo_sha (cl_keyPrefix demo_conc) 30000 demo_trace demo_conc_server demo_minute demo_conc
    {| ch_LeaseID := "a1"; ch_Scopes := demo_chain |} demo_chain demo_lease demo_serves ltac:(vm_compute; reflexivity) demo_known eq_refl eq_refl
    ltac:(by vm_compute) demo_held) as (srv1 & rel & E & _ & _ & Hu & _).
  exists srv1, rel. split; [exact E|]. rewrite Hu. vm_compute. reflexivity.
Defined.
