(* ===== verification/PassiveHealth.v ===== *)
(** * Passive health windows (src/internal/routing/passive_health.go)

    Each deployment has a ring of time buckets. [Observe] adds one terminal attempt
    to the bucket of the current time, [Snapshot] merges the buckets of the last
    window. A float64 is a [spec_float] of 53 bits of precision, with the IEEE-754
    rounding of the operations the code uses.

    Then: the passive window is exact (src/internal/routing/passive_health.go). *)
From Stdlib Require Import ZArith Lia Bool Ascii String SpecFloat.
From stdpp Require Import base tactics option list strings gmap fin_maps sets relations.
From S2P Require Import Prelude Identifiers Circuit RoutePolicy.
(** ** float64 *)
Notation float64 := spec_float.
Definition to_float (z : Z) : float64 := binary_normalize 53 1024 z 0 false.
Definition float_mul (a b : float64) : float64 := SFmul 53 1024 a b.
Definition float_div (a b : float64) : float64 := SFdiv 53 1024 a b.
Definition float_finite (f : float64) : bool := match f with S754_zero _ | S754_finite _ _ _ => true | _ => false end.

(** [uint64(math.Ceil(f))] of a finite non-negative number. *)
Definition float_ceil (f : float64) : Z :=
  match f with
  | S754_finite false m e => if 0 <=? e then Z.pos m * 2 ^ e else - ((- Z.pos m) / 2 ^ (- e))
  | _ => 0
  end.

(** ** Data *)
Inductive passive_error := ErrPassiveHealthInvalid | ErrPassiveContext (cause : ctx_error).

Inductive PassiveOutcome :=
| PassiveSucceeded | PassiveRateLimited | PassiveServerError | PassiveTimedOut | PassiveCancelled | PassiveOtherFailure
| PassiveOutcomeOther (value : string).
Inductive PassiveState := PassiveStateWarmup | PassiveStateHealthy | PassiveStateDegraded.

#[export] Instance PassiveOutcome_eq_dec : EqDecision PassiveOutcome.
Proof. solve_decision. Defined.

Record PassiveHealthOptions := {
  ph_Window : Duration; BucketWidth : Duration; MinimumSamples : Z; FailureRatioThreshold : float64; ph_MaximumDeployments : Z }.

Record PassiveObservation := {
  obs_DeploymentID : string; obs_Outcome : PassiveOutcome; obs_ProviderStatus : Z; FirstTokenLatency : option Duration;
  TotalLatency : Duration }.

Record latencyAggregate := { lat_count : Z; totalNanos : Z; maximum : Duration; lat_buckets : list Z }.
Record passiveBucket := {
  startedAt : Time; requests : Z; successes : Z; rateLimits : Z; serverErrors : Z; timeouts : Z; cancelled : Z;
  otherFailure : Z; firstToken : latencyAggregate; total : latencyAggregate }.
Record passiveDeployment := { buckets : list passiveBucket; lastObserved : Time }.
Record PassiveHealth := {
  ph_options : PassiveHealthOptions; bucketCount : Z; ph_deployments : gmap string passiveDeployment; ph_evictions : Z }.

Record LatencyStatistics := {
  st_Count : Z; Average : Duration; Maximum : Duration; P50UpperBound : Duration; P95UpperBound : Duration; P99UpperBound : Duration }.
Record PassiveSnapshot := {
  ps_PolicyVersion : string; ps_DeploymentID : string; ps_State : PassiveState; ps_Healthy : bool; SampleSufficient : bool;
  WindowStart : Time; EvaluatedAt : Time; RequestCount : Z; SuccessCount : Z; RateLimitCount : Z; ServerErrorCount : Z;
  TimeoutCount : Z; CancelledCount : Z; OtherFailureCount : Z; HealthSampleCount : Z; FailureSignalCount : Z;
  FailureRatio : float64; ps_FirstToken : LatencyStatistics; ps_Total : LatencyStatistics; EvictedDeployments : Z }.

Definition passiveHealthPolicyVersion : string := "passive-health/v1".
Definition maximumPassiveLatency : Duration := 24 * hour.
Definition passiveLatencyBounds : list Duration :=
  [10 * millisecond; 25 * millisecond; 50 * millisecond; 100 * millisecond; 250 * millisecond; 500 * millisecond; second;
   2500 * millisecond; 5 * second; 10 * second; 30 * second; 60 * second].

(** ** Validation and construction *)
Definition DefaultPassiveHealthOptions : PassiveHealthOptions :=
  {| ph_Window := 2 * minute; BucketWidth := 5 * second; MinimumSamples := 20;
     FailureRatioThreshold := float_div (to_float 1) (to_float 2); ph_MaximumDeployments := 10000 |}.

Definition PassiveHealthOptions_Validate (o : PassiveHealthOptions) : bool :=
  let count := Z.quot (ph_Window o) (BucketWidth o) in
  (second <=? ph_Window o) && (ph_Window o <=? hour) && (100 * millisecond <=? BucketWidth o) &&
  (BucketWidth o <=? ph_Window o) && (Z.rem (ph_Window o) (BucketWidth o) =? 0) && (2 <=? count) && (count <=? 720) &&
  (2 <=? MinimumSamples o) && (MinimumSamples o <=? 1000000) && float_finite (FailureRatioThreshold o) &&
  SFltb (to_float 0) (FailureRatioThreshold o) && SFleb (FailureRatioThreshold o) (to_float 1) &&
  (1 <=? ph_MaximumDeployments o) && (ph_MaximumDeployments o <=? 100000).

Definition PassiveObservation_Validate (o : PassiveObservation) : bool :=
  routeDeploymentIDPattern (obs_DeploymentID o) &&
  ((obs_ProviderStatus o =? 0) || ((100 <=? obs_ProviderStatus o) && (obs_ProviderStatus o <=? 599))) &&
  match obs_Outcome o with
  | PassiveSucceeded => (obs_ProviderStatus o =? 0) || ((200 <=? obs_ProviderStatus o) && (obs_ProviderStatus o <=? 299))
  | PassiveRateLimited => obs_ProviderStatus o =? 429
  | PassiveServerError => (500 <=? obs_ProviderStatus o) && (obs_ProviderStatus o <=? 599)
  | PassiveTimedOut | PassiveCancelled | PassiveOtherFailure => true
  | PassiveOutcomeOther _ => false
  end &&
  (0 <=? TotalLatency o) && (TotalLatency o <=? maximumPassiveLatency) &&
  match FirstTokenLatency o with Some l => (0 <=? l) && (l <=? TotalLatency o) | None => true end.

Definition NewPassiveHealth (o : PassiveHealthOptions) (clock : bool) : result PassiveHealth passive_error :=
  ensure (PassiveHealthOptions_Validate o) else ErrPassiveHealthInvalid in
  ensure clock else ErrPassiveHealthInvalid in
  Ok {| ph_options := o; bucketCount := Z.quot (ph_Window o) (BucketWidth o); ph_deployments := ∅; ph_evictions := 0 |}.

(** ** Aggregates *)
Fixpoint saturating_from (acc : Z) (values : list Z) : Z :=
  match values with
  | [] => acc
  | value :: rest => if u64_max - acc <? value then u64_max else saturating_from (acc + value) rest
  end.
Definition saturatingSum (values : list Z) : Z := saturating_from 0 values.

Definition empty_latency : latencyAggregate := {| lat_count := 0; totalNanos := 0; maximum := 0; lat_buckets := replicate 13 0 |}.
Definition empty_bucket_at (at_ : Time) : passiveBucket :=
  {| startedAt := at_; requests := 0; successes := 0; rateLimits := 0; serverErrors := 0; timeouts := 0; cancelled := 0;
     otherFailure := 0; firstToken := empty_latency; total := empty_latency |}.

(** The first bound that is not below the value, or one past the last. *)
Fixpoint latency_index (value : Duration) (bounds : list Duration) : nat :=
  match bounds with
  | [] => 0
  | upperBound :: rest => if value <=? upperBound then 0 else S (latency_index value rest)
  end.

Definition latency_add (a : latencyAggregate) (value : Duration) : latencyAggregate :=
  {| lat_count := saturatingIncrement (lat_count a); totalNanos := saturatingSum [totalNanos a; value];
     maximum := if maximum a <? value then value else maximum a;
     lat_buckets := alter saturatingIncrement (latency_index value passiveLatencyBounds) (lat_buckets a) |}.

Definition latency_merge (a b : latencyAggregate) : latencyAggregate :=
  {| lat_count := saturatingSum [lat_count a; lat_count b]; totalNanos := saturatingSum [totalNanos a; totalNanos b];
     maximum := if maximum a <? maximum b then maximum b else maximum a;
     lat_buckets := zip_with (fun x y => saturatingSum [x; y]) (lat_buckets a) (lat_buckets b) |}.

Fixpoint quantile_loop (rank observed : Z) (counts : list Z) (bounds : list Duration) (max : Duration) : Duration :=
  match counts with
  | [] => max
  | count :: rest =>
      let observed := saturatingSum [observed; count] in
      if observed <? rank then quantile_loop rank observed rest (tail bounds) max
      else match bounds with [] => max | bound :: _ => bound end
  end.

Definition quantileUpperBound (a : latencyAggregate) (percentile : Z) : Duration :=
  let rank := float_ceil (float_div (float_mul (to_float (lat_count a)) (to_float percentile)) (to_float 100)) in
  quantile_loop rank 0 (lat_buckets a) passiveLatencyBounds (maximum a).

Definition statistics (a : latencyAggregate) : LatencyStatistics :=
  if lat_count a =? 0
  then {| st_Count := lat_count a; Average := 0; Maximum := maximum a; P50UpperBound := 0; P95UpperBound := 0; P99UpperBound := 0 |}
  else {| st_Count := lat_count a; Average := Z.min i64_max (totalNanos a / lat_count a); Maximum := maximum a;
          P50UpperBound := quantileUpperBound a 50; P95UpperBound := quantileUpperBound a 95;
          P99UpperBound := quantileUpperBound a 99 |}.

Definition bump_if (b : bool) (z : Z) : Z := if b then saturatingIncrement z else z.
Definition is_outcome (o : PassiveObservation) (outcome : PassiveOutcome) : bool := bool_decide (obs_Outcome o = outcome).

Definition bucket_add (b : passiveBucket) (o : PassiveObservation) : passiveBucket :=
  {| startedAt := startedAt b; requests := saturatingIncrement (requests b);
     successes := bump_if (is_outcome o PassiveSucceeded) (successes b);
     rateLimits := bump_if (is_outcome o PassiveRateLimited) (rateLimits b);
     serverErrors := bump_if (is_outcome o PassiveServerError) (serverErrors b);
     timeouts := bump_if (is_outcome o PassiveTimedOut) (timeouts b);
     cancelled := bump_if (is_outcome o PassiveCancelled) (cancelled b);
     otherFailure := bump_if (is_outcome o PassiveOtherFailure) (otherFailure b);
     firstToken := match FirstTokenLatency o with Some l => latency_add (firstToken b) l | None => firstToken b end;
     total := latency_add (total b) (TotalLatency o) |}.

Definition bucket_merge (b c : passiveBucket) : passiveBucket :=
  {| startedAt := startedAt b; requests := saturatingSum [requests b; requests c];
     successes := saturatingSum [successes b; successes c]; rateLimits := saturatingSum [rateLimits b; rateLimits c];
     serverErrors := saturatingSum [serverErrors b; serverErrors c]; timeouts := saturatingSum [timeouts b; timeouts c];
     cancelled := saturatingSum [cancelled b; cancelled c]; otherFailure := saturatingSum [otherFailure b; otherFailure c];
     firstToken := latency_merge (firstToken b) (firstToken c); total := latency_merge (total b) (total c) |}.

(** ** Observe *)
Definition UnixNano (t : Time) : Z := t - unix_epoch.

Definition bucketIndex (h : PassiveHealth) (started : Time) : nat :=
  let slot := Z.quot (UnixNano started) (BucketWidth (ph_options h)) in
  let index := Z.rem slot (bucketCount h) in
  Z.to_nat (if index <? 0 then index + bucketCount h else index).

Definition observed_before (a b : string * passiveDeployment) : bool :=
  time_before (lastObserved a.2) (lastObserved b.2) ||
  ((lastObserved a.2 =? lastObserved b.2) && String.ltb a.1 b.1).

Definition oldest_observed (entries : list (string * passiveDeployment)) : option (string * passiveDeployment) :=
  foldl (fun best c => match best with None => Some c | Some b => if observed_before c b then Some c else Some b end) None entries.

Definition evictOldestLocked (h : PassiveHealth) : PassiveHealth :=
  match oldest_observed (map_to_list (ph_deployments h)) with
  | Some (id, _) =>
      {| ph_options := ph_options h; bucketCount := bucketCount h; ph_deployments := delete id (ph_deployments h);
         ph_evictions := saturatingIncrement (ph_evictions h) |}
  | None => h
  end.

Definition new_deployment (h : PassiveHealth) : passiveDeployment :=
  {| buckets := replicate (Z.to_nat (bucketCount h)) (empty_bucket_at 0); lastObserved := 0 |}.

Definition observe_at (h : PassiveHealth) (d : passiveDeployment) (now : Time) (o : PassiveObservation) : passiveDeployment :=
  let started := time_truncate now (BucketWidth (ph_options h)) in
  {| buckets := alter (fun b => bucket_add (if startedAt b =? started then b else empty_bucket_at started) o)
                  (bucketIndex h started) (buckets d);
     lastObserved := now |}.

Definition Observe (h : PassiveHealth) (ctx : Context) (o : PassiveObservation) (now : Time) : PassiveHealth * option passive_error :=
  match ctx with
  | ctx_nil => (h, Some ErrPassiveHealthInvalid)
  | ctx_done cause => (h, Some (ErrPassiveContext cause))
  | ctx_live =>
      if negb (PassiveObservation_Validate o) || time_is_zero now then (h, Some ErrPassiveHealthInvalid)
      else
        let '(h1, d) :=
          match ph_deployments h !! obs_DeploymentID o with
          | Some d => (h, d)
          | None =>
              (if ph_MaximumDeployments (ph_options h) <=? Z.of_nat (size (ph_deployments h)) then evictOldestLocked h else h,
               new_deployment h)
          end in
        ({| ph_options := ph_options h1; bucketCount := bucketCount h1;
            ph_deployments := <[obs_DeploymentID o := observe_at h1 d now o]> (ph_deployments h1);
            ph_evictions := ph_evictions h1 |}, None)
  end.

(** ** Snapshot *)
Definition snapshot (h : PassiveHealth) (deploymentID : string) (windowStart now : Time) (a : passiveBucket) (ev : Z) : PassiveSnapshot :=
  let failureSignals := saturatingSum [rateLimits a; serverErrors a; timeouts a] in
  let healthSamples := saturatingSum [successes a; failureSignals] in
  let sufficient := MinimumSamples (ph_options h) <=? healthSamples in
  let ratio := if 0 <? healthSamples then float_div (to_float failureSignals) (to_float healthSamples) else to_float 0 in
  let degraded := sufficient && SFleb (FailureRatioThreshold (ph_options h)) ratio in
  {| ps_PolicyVersion := passiveHealthPolicyVersion; ps_DeploymentID := deploymentID;
     ps_State := if degraded then PassiveStateDegraded else if sufficient then PassiveStateHealthy else PassiveStateWarmup;
     ps_Healthy := negb degraded; SampleSufficient := sufficient; WindowStart := windowStart; EvaluatedAt := now;
     RequestCount := requests a; SuccessCount := successes a; RateLimitCount := rateLimits a;
     ServerErrorCount := serverErrors a; TimeoutCount := timeouts a; CancelledCount := cancelled a;
     OtherFailureCount := otherFailure a; HealthSampleCount := healthSamples; FailureSignalCount := failureSignals;
     FailureRatio := ratio; ps_FirstToken := statistics (firstToken a); ps_Total := statistics (total a);
     EvictedDeployments := ev |}.

Definition in_window (oldest current : Time) (b : passiveBucket) : bool :=
  negb (time_before (startedAt b) oldest) && negb (time_after (startedAt b) current).

Definition merge_window (oldest current : Time) (bs : list passiveBucket) : passiveBucket :=
  foldl (fun a b => if in_window oldest current b then bucket_merge a b else a) (empty_bucket_at 0) bs.

Definition PassiveHealth_Snapshot (h : PassiveHealth) (ctx : Context) (deploymentID : string) (now : Time) : result PassiveSnapshot passive_error :=
  match ctx with
  | ctx_nil => Err ErrPassiveHealthInvalid
  | ctx_done cause => Err (ErrPassiveContext cause)
  | ctx_live =>
      ensure (routeDeploymentIDPattern deploymentID) else ErrPassiveHealthInvalid in
      ensure (negb (time_is_zero now)) else ErrPassiveHealthInvalid in
      let currentStart := time_truncate now (BucketWidth (ph_options h)) in
      let oldestStart := time_add currentStart (- ((bucketCount h - 1) * BucketWidth (ph_options h))) in
      let aggregate :=
        match ph_deployments h !! deploymentID with
        | Some d => merge_window oldestStart currentStart (buckets d)
        | None => empty_bucket_at 0
        end in
      Ok (snapshot h deploymentID oldestStart now aggregate (ph_evictions h))
  end.

Definition PassiveHealth_Healthy (h : PassiveHealth) (ctx : Context) (deploymentID : string) (now : Time) : result bool passive_error :=
  let? s := PassiveHealth_Snapshot h ctx deploymentID now in Ok (ps_Healthy s).

Definition NeedsActiveProbe (h : PassiveHealth) (ctx : Context) (deploymentID : string) (now : Time) : result bool passive_error :=
  let? s := PassiveHealth_Snapshot h ctx deploymentID now in Ok (HealthSampleCount s =? 0).

(** ** The passive window is exact (src/internal/routing/passive_health.go)

    The ring of buckets is compared with the list of the observations it was fed. *)
(** ** Saturating counters *)
Definition sat (z : Z) : Z := Z.min u64_max z.

Lemma sat_increment z : 0 <= z -> saturatingIncrement (sat z) = sat (z + 1).
Proof. intros. unfold saturatingIncrement, sat. destruct (Z.eqb_spec (Z.min u64_max z) u64_max); lia. Qed.

Lemma sat_sum a b : 0 <= a -> 0 <= b -> saturatingSum [sat a; sat b] = sat (a + b).
Proof.
  intros. unfold saturatingSum, sat. cbn [saturating_from]. unfold u64_max in *.
  repeat (case_match; prop_hyps); lia.
Qed.

Lemma sat_sum_1 a b : 0 <= a -> 0 <= b <= u64_max -> saturatingSum [sat a; b] = sat (a + b).
Proof. intros. replace b with (sat b) at 1 by (unfold sat; lia). apply sat_sum; lia. Qed.

Lemma sat_sum_3 a b c : 0 <= a -> 0 <= b -> 0 <= c -> saturatingSum [sat a; sat b; sat c] = sat (a + b + c).
Proof.
  intros. unfold saturatingSum, sat. cbn [saturating_from]. unfold u64_max in *.
  repeat (case_match; prop_hyps); lia.
Qed.

(** A counter of a bucket that adds up a weight of the observations. *)
Record tally (get : passiveBucket -> Z) (weight : PassiveObservation -> Z) : Prop := {
  tally_weight : forall o, PassiveObservation_Validate o = true -> 0 <= weight o;
  tally_empty : forall at_, get (empty_bucket_at at_) = 0;
  tally_add : forall b o z, PassiveObservation_Validate o = true -> 0 <= z -> get b = sat z -> get (bucket_add b o) = sat (z + weight o);
  tally_merge : forall b c x y, 0 <= x -> 0 <= y -> get b = sat x -> get c = sat y -> get (bucket_merge b c) = sat (x + y) }.

Definition outcome_weight (outcome : PassiveOutcome) (o : PassiveObservation) : Z := if is_outcome o outcome then 1 else 0.

Ltac counter_tally :=
  split; [intros; unfold outcome_weight; try case_match; lia|done|
    intros b o z _ Hz Hb; unfold bucket_add, outcome_weight, bump_if; cbn; rewrite Hb; case_match; rewrite ?sat_increment by done; f_equal; lia|
    intros b c x y Hx Hy Hb Hc; unfold bucket_merge; cbn; rewrite Hb, Hc; by apply sat_sum].

Lemma tally_successes : tally successes (outcome_weight PassiveSucceeded).
Proof. counter_tally. Qed.
Lemma tally_rateLimits : tally rateLimits (outcome_weight PassiveRateLimited).
Proof. counter_tally. Qed.
Lemma tally_serverErrors : tally serverErrors (outcome_weight PassiveServerError).
Proof. counter_tally. Qed.
Lemma tally_timeouts : tally timeouts (outcome_weight PassiveTimedOut).
Proof. counter_tally. Qed.
Lemma tally_cancelled : tally cancelled (outcome_weight PassiveCancelled).
Proof. counter_tally. Qed.
Lemma tally_otherFailure : tally otherFailure (outcome_weight PassiveOtherFailure).
Proof. counter_tally. Qed.

Lemma tally_requests : tally requests (fun _ => 1).
Proof.
  split; [done|done|intros b o z _ Hz Hb|intros b c x y Hx Hy Hb Hc]; cbn; rewrite Hb, ?Hc; [by apply sat_increment|by apply sat_sum].
Qed.

Lemma tally_total_nanos : tally (fun b => totalNanos (total b)) TotalLatency.
Proof.
  assert (Hv : forall o, PassiveObservation_Validate o = true -> 0 <= TotalLatency o <= u64_max).
  { intros o H. unfold PassiveObservation_Validate in H. prop_hyps. unfold maximumPassiveLatency, hour, u64_max in *. lia. }
  split; [intros; by apply Hv|done|intros b o z Ho Hz Hb|intros b c x y Hx Hy Hb Hc]; cbn -[saturatingSum]; rewrite Hb, ?Hc;
    [apply sat_sum_1; [done|by apply Hv]|by apply sat_sum].
Qed.

#[export] Hint Resolve tally_successes tally_rateLimits tally_serverErrors tally_timeouts tally_cancelled
  tally_otherFailure tally_requests tally_total_nanos : gw.

(** ** Time buckets *)
Section ring.
Context (h : PassiveHealth).
Notation width := (BucketWidth (ph_options h)).
Notation n := (bucketCount h).
Hypothesis width_pos : 0 < width.
Hypothesis n_pos : 0 < n.

Definition start (t : Time) : Time := time_truncate t width.

Lemma start_spec t : start t = width * (t / width) /\ start t <= t < start t + width.
Proof.
  unfold start, time_truncate. destruct (Z.leb_spec width 0); [lia|].
  pose proof (Z.div_mod t width ltac:(lia)). pose proof (Z.mod_pos_bound t width ltac:(lia)). lia.
Qed.

Lemma start_mono t t' : t <= t' -> start t <= start t'.
Proof. intros. rewrite !(proj1 (start_spec _)). apply Z.mul_le_mono_nonneg_l; [lia|]. apply Z.div_le_mono; lia. Qed.

(** Buckets that share a slot of the ring are a whole number of windows apart. *)
Lemma same_slot_apart t t' :
  unix_epoch <= start t -> unix_epoch <= start t' -> bucketIndex h (start t) = bucketIndex h (start t') ->
  exists k, start t' = start t + k * (n * width).
Proof.
  intros H1 H2. unfold bucketIndex, UnixNano. cbv zeta.
  rewrite !Z.quot_div_nonneg by lia. rewrite !Z.rem_mod_nonneg by (try apply Z.div_pos; lia).
  destruct (start_spec t) as [E1 _], (start_spec t') as [E2 _].
  set (s1 := (start t - unix_epoch) / width). set (s2 := (start t' - unix_epoch) / width).
  pose proof (Z.mod_pos_bound s1 n n_pos). pose proof (Z.mod_pos_bound s2 n n_pos).
  destruct (Z.ltb_spec (s1 mod n) 0); [lia|]. destruct (Z.ltb_spec (s2 mod n) 0); [lia|].
  intros Heq%Z2Nat.inj; [|lia..].
  assert (Hs : s2 - s1 = t' / width - t / width).
  { unfold s1, s2. rewrite E1, E2. replace (width * (t / width) - unix_epoch) with (- unix_epoch + t / width * width) by lia.
    replace (width * (t' / width) - unix_epoch) with (- unix_epoch + t' / width * width) by lia.
    rewrite !Z.div_add by lia. lia. }
  exists (s2 / n - s1 / n). rewrite E1, E2. pose proof (Z.div_mod s1 n ltac:(lia)). pose proof (Z.div_mod s2 n ltac:(lia)). nia.
Qed.

Lemma same_slot_in_window t t' now :
  unix_epoch <= start t -> start t <= start t' <= start now -> start now - (n - 1) * width <= start t ->
  bucketIndex h (start t) = bucketIndex h (start t') -> start t' = start t.
Proof. intros H1 H2 H3 Hi. destruct (same_slot_apart t t' H1 ltac:(lia) Hi) as [k Hk]. assert (k = 0) by nia. nia. Qed.

(** ** The ring agrees with the observations it was fed *)
Definition events := list (Time * PassiveObservation).

Definition weight_at (weight : PassiveObservation -> Z) (s : Time) (L : events) : Z :=
  sum_by (fun e => if start e.1 =? s then weight e.2 else 0) L.

Definition weight_between (weight : PassiveObservation -> Z) (oldest current : Time) (L : events) : Z :=
  sum_by (fun e => if (oldest <=? start e.1) && (start e.1 <=? current) then weight e.2 else 0) L.

Record ring (d : passiveDeployment) (L : events) (last : Time) : Prop := {
  ring_length : length (buckets d) = Z.to_nat n;
  ring_events : Forall (fun e => unix_epoch <= start e.1 /\ e.1 <= last /\ PassiveObservation_Validate e.2 = true) L;
  ring_counts : forall get weight b, tally get weight -> b ∈ buckets d -> get b = sat (weight_at weight (startedAt b) L);
  ring_starts : forall i b, buckets d !! i = Some b ->
    startedAt b = 0 \/ exists t, startedAt b = start t /\ unix_epoch <= start t /\ t <= last /\ bucketIndex h (start t) = i;
  ring_latest : forall e, e ∈ L -> exists b, buckets d !! bucketIndex h (start e.1) = Some b /\ start e.1 <= startedAt b }.

Lemma weight_at_nonneg get weight s L last d : tally get weight -> ring d L last -> 0 <= weight_at weight s L.
Proof.
  intros Ht Hr. apply sum_by_nonneg. intros e He. pose proof (ring_events _ _ _ Hr) as Hev. rewrite Forall_forall in Hev.
  destruct (start e.1 =? s); [|done]. apply (tally_weight _ _ Ht), (Hev e He).
Qed.

Lemma bucketIndex_lt t : unix_epoch <= start t -> (bucketIndex h (start t) < Z.to_nat n)%nat.
Proof.
  intros H. unfold bucketIndex, UnixNano. cbv zeta. rewrite Z.quot_div_nonneg by lia.
  rewrite Z.rem_mod_nonneg by (try apply Z.div_pos; lia).
  pose proof (Z.mod_pos_bound ((start t - unix_epoch) / width) n n_pos). case_match; prop_hyps; lia.
Qed.

Lemma weight_at_snoc weight s L e : weight_at weight s (L ++ [e]) = weight_at weight s L + if start e.1 =? s then weight e.2 else 0.
Proof. unfold weight_at. rewrite sum_by_app. simpl. lia. Qed.

Lemma observed_started b now o :
  startedAt (bucket_add (if startedAt b =? start now then b else empty_bucket_at (start now)) o) = start now.
Proof. destruct (Z.eqb_spec (startedAt b) (start now)); done. Qed.

(** An event of the current slot lies in the bucket that is there. *)
Lemma no_older_event d L last now b :
  ring d L last -> last <= now -> unix_epoch <= start now -> buckets d !! bucketIndex h (start now) = Some b ->
  startedAt b <> start now -> forall weight, weight_at weight (start now) L = 0.
Proof.
  intros Hr Hle Hep Hb Hne weight. unfold weight_at. rewrite (sum_by_ext _ (fun _ => 0)); [apply sum_by_zero|].
  intros e He. destruct (Z.eqb_spec (start e.1) (start now)) as [Heq|]; [|done]. exfalso.
  destruct (ring_latest _ _ _ Hr e He) as (b' & Hb' & Hs). rewrite Heq, Hb in Hb'. simplify_eq.
  destruct (ring_starts _ _ _ Hr _ _ Hb) as [H0|(t & Ht & _ & Hlast & _)]; [unfold unix_epoch in *; lia|].
  pose proof (start_mono t now ltac:(lia)). lia.
Qed.

Lemma ring_observe d L last now o :
  ring d L last -> last <= now -> unix_epoch <= start now -> PassiveObservation_Validate o = true ->
  ring (observe_at h d now o) (L ++ [(now, o)]) now.
Proof.
  intros Hr Hle Hep Ho. unfold observe_at. fold (start now). set (i0 := bucketIndex h (start now)).
  destruct (lookup_lt_is_Some_2 (buckets d) i0) as [b0 Hb0].
  { rewrite (ring_length _ _ _ Hr). by apply bucketIndex_lt. }
  split; cbn [buckets].
  - rewrite length_alter. apply Hr.
  - apply Forall_app. split; [|by apply Forall_singleton]. eapply Forall_impl; [exact (ring_events _ _ _ Hr)|]. simpl. intros e (? & ? & ?). split_and!; [done|lia|done].
  - intros get weight b Ht (i & Hi)%list_elem_of_lookup. rewrite weight_at_snoc. cbn [fst snd]. destruct (decide (i = i0)) as [->|Hne].
    + rewrite list_lookup_alter_eq, Hb0 in Hi. simpl in Hi. simplify_eq. rewrite observed_started, Z.eqb_refl.
      apply (tally_add _ _ Ht); [done|by eapply weight_at_nonneg|].
      destruct (Z.eqb_spec (startedAt b0) (start now)) as [Heq|Hneq].
      * rewrite <- Heq. apply (ring_counts _ _ _ Hr _ _ _ Ht). by eapply list_elem_of_lookup_2.
      * rewrite (tally_empty _ _ Ht). by rewrite (no_older_event d L last now b0).
    + rewrite list_lookup_alter_ne in Hi by done. rewrite (ring_counts _ _ _ Hr _ _ _ Ht) by (by eapply list_elem_of_lookup_2).
      destruct (Z.eqb_spec (start now) (startedAt b)) as [Heq|]; [|f_equal; lia]. exfalso.
      destruct (ring_starts _ _ _ Hr _ _ Hi) as [H0|(t & Hs & _ & _ & Hidx)]; [unfold unix_epoch in *; lia|].
      apply Hne. unfold i0. rewrite Heq, Hs. done.
  - intros i b Hi. destruct (decide (i = i0)) as [->|Hne].
    + rewrite list_lookup_alter_eq, Hb0 in Hi. simpl in Hi. simplify_eq. right. exists now. rewrite observed_started. done.
    + rewrite list_lookup_alter_ne in Hi by done. destruct (ring_starts _ _ _ Hr _ _ Hi) as [|(t & ? & ? & ? & ?)]; [by left|].
      right. exists t. split_and!; try done. lia.
  - intros e [He| ->%list_elem_of_singleton]%elem_of_app.
    + destruct (ring_latest _ _ _ Hr e He) as (b & Hb & Hs). destruct (decide (bucketIndex h (start e.1) = i0)) as [Hidx|Hne].
      * rewrite Hidx, list_lookup_alter_eq, Hb0. eexists. split; [reflexivity|]. rewrite observed_started.
        apply start_mono. pose proof (ring_events _ _ _ Hr) as Hev. rewrite Forall_forall in Hev. destruct (Hev e He) as (_ & ? & _). lia.
      * rewrite list_lookup_alter_ne by done. by exists b.
    + cbn [fst]. fold i0. rewrite list_lookup_alter_eq, Hb0. eexists. split; [reflexivity|]. by rewrite observed_started.
Qed.

(** ** Merging a window *)
Lemma merge_sum get weight oldest current (v : passiveBucket -> Z) bs : tally get weight -> forall a x,
  0 <= x -> get a = sat x -> (forall b, b ∈ bs -> 0 <= v b /\ get b = sat (v b)) ->
  get (foldl (fun a b => if in_window oldest current b then bucket_merge a b else a) a bs) =
  sat (x + sum_by (fun b => if in_window oldest current b then v b else 0) bs).
Proof.
  intros Ht. induction bs as [|b bs IH]; intros a x Hx Ha Hb; simpl; [rewrite Ha; f_equal; lia|].
  destruct (Hb b) as [Hv Hg]; [left|]. destruct (in_window oldest current b).
  - rewrite (IH _ (x + v b)); [f_equal; lia|lia|by apply (tally_merge _ _ Ht)|]. intros c Hc. apply Hb. by right.
  - rewrite (IH _ x); [f_equal; lia|done|done|]. intros c Hc. apply Hb. by right.
Qed.

Lemma event_in_one_bucket d L last now e (w : Z) :
  ring d L last -> last <= now -> e ∈ L -> let oldest := start now - (n - 1) * width in
  sum_by (fun b => if in_window oldest (start now) b then (if start e.1 =? startedAt b then w else 0) else 0) (buckets d) =
  if (oldest <=? start e.1) && (start e.1 <=? start now) then w else 0.
Proof.
  intros Hr Hle He oldest. unfold in_window, time_before, time_after.
  pose proof (ring_events _ _ _ Hr) as Hev. rewrite Forall_forall in Hev. destruct (Hev e He) as (Hep & Hlast & _).
  pose proof (start_mono e.1 now ltac:(lia)) as Hcur. destruct (Z.leb_spec oldest (start e.1)) as [Hin|Hout].
  2: { rewrite (sum_by_ext _ (fun _ => 0)), sum_by_zero; [done|]. intros b _.
       destruct (Z.eqb_spec (start e.1) (startedAt b)) as [<-|]; [|by case_match].
       by destruct (Z.ltb_spec (start e.1) oldest); [|lia]. }
  destruct (Z.leb_spec (start e.1) (start now)); [|lia]. cbn [andb].
  destruct (ring_latest _ _ _ Hr e He) as (b & Hb & Hs).
  assert (Heq : startedAt b = start e.1).
  { destruct (ring_starts _ _ _ Hr _ _ Hb) as [H0|(t & Ht & Hept & Htl & Hidx)]; [unfold unix_epoch in *; lia|].
    pose proof (start_mono t now ltac:(lia)). rewrite Ht in Hs |- *. apply (same_slot_in_window e.1 t now); [done|lia|unfold oldest in Hin; lia|done]. }
  rewrite (sum_by_only _ _ _ b Hb).
  - rewrite Heq, Z.eqb_refl. destruct (Z.ltb_spec (start e.1) oldest); [lia|]. by destruct (Z.ltb_spec (start now) (start e.1)); [lia|].
  - intros j b' Hj Hne. destruct (Z.eqb_spec (start e.1) (startedAt b')) as [Hs'|]; [|by case_match]. exfalso.
    destruct (ring_starts _ _ _ Hr _ _ Hj) as [H0|(t & Ht & _ & _ & Hidx)]; [unfold unix_epoch in *; lia|].
    apply Hne. by rewrite <- Hidx, Hs', Ht.
Qed.

Lemma merge_window_sum get weight d L last now :
  tally get weight -> ring d L last -> last <= now -> let oldest := start now - (n - 1) * width in
  get (merge_window oldest (start now) (buckets d)) = sat (weight_between weight oldest (start now) L).
Proof.
  intros Ht Hr Hle oldest. unfold merge_window.
  rewrite (merge_sum get weight _ _ (fun b => weight_at weight (startedAt b) L) (buckets d) Ht _ 0); try done.
  2: by rewrite (tally_empty _ _ Ht).
  2: { intros b Hb. split; [by eapply weight_at_nonneg|by apply (ring_counts _ _ _ Hr)]. }
  rewrite Z.add_0_l. f_equal. unfold weight_at, weight_between.
  rewrite (sum_by_ext _ (fun b => sum_by (fun e => if in_window oldest (start now) b then (if start e.1 =? startedAt b then weight e.2 else 0) else 0) L)).
  2: { intros b _. destruct (in_window oldest (start now) b); [done|]. by rewrite sum_by_zero. }
  rewrite sum_by_swap. apply sum_by_ext. intros e He. exact (event_in_one_bucket d L last now e _ Hr Hle He).
Qed.

Lemma ring_new last : ring (new_deployment h) [] last.
Proof.
  split; cbn [buckets new_deployment].
  - by rewrite length_replicate.
  - apply Forall_nil_2.
  - intros get weight b Ht (i & Hi)%list_elem_of_lookup. apply lookup_replicate in Hi as [-> _]. by rewrite (tally_empty _ _ Ht).
  - intros i b Hi. apply lookup_replicate in Hi as [-> _]. by left.
  - by intros e He%elem_of_nil.
Qed.

Lemma ring_later d L last last' : ring d L last -> last <= last' -> ring d L last'.
Proof.
  intros [H1 H2 H3 H4 H5] Hle. split; try done.
  - eapply Forall_impl; [exact H2|]. intros e (? & ? & ?). split_and!; [done|lia|done].
  - intros i b Hi. destruct (H4 i b Hi) as [|(t & ? & ? & ? & ?)]; [by left|]. right. exists t. split_and!; try done. lia.
Qed.
End ring.

(** ** Traces of observations *)
Record Tracked := { tr_health : PassiveHealth; tr_time : Time; tr_log : string -> events }.

(** The observations of a deployment since the tracker holds it. *)
Definition logged (tr : Tracked) (id : string) : events :=
  match ph_deployments (tr_health tr) !! id with Some _ => tr_log tr id | None => [] end.

(** Attempts of all deployments end in some order, at a clock that does not go back
    and is past the first hour of 1970. *)
Inductive observe_step (tr : Tracked) : Tracked -> Prop :=
| observe_one o now h' :
    tr_time tr <= now -> unix_epoch + hour <= now -> Observe (tr_health tr) ctx_live o now = (h', None) ->
    observe_step tr {| tr_health := h'; tr_time := now;
      tr_log := fun id => if decide (id = obs_DeploymentID o) then logged tr id ++ [(now, o)] else tr_log tr id |}.

Definition tracked_reachable (o : PassiveHealthOptions) (tr : Tracked) : Prop :=
  exists h, NewPassiveHealth o true = Ok h /\ rtc observe_step {| tr_health := h; tr_time := 0; tr_log := fun _ => [] |} tr.

Record passive_inv (o : PassiveHealthOptions) (tr : Tracked) : Prop := {
  pi_options : ph_options (tr_health tr) = o;
  pi_valid : PassiveHealthOptions_Validate o = true;
  pi_count : bucketCount (tr_health tr) = Z.quot (ph_Window o) (BucketWidth o);
  pi_rings : forall id d, ph_deployments (tr_health tr) !! id = Some d -> ring (tr_health tr) d (tr_log tr id) (tr_time tr) }.

Lemma options_bounds o : PassiveHealthOptions_Validate o = true ->
  0 < BucketWidth o <= hour /\ 2 <= Z.quot (ph_Window o) (BucketWidth o).
Proof. unfold PassiveHealthOptions_Validate. intros. prop_hyps. unfold millisecond in *. lia. Qed.

Lemma ring_same h h' d L last :
  ph_options h = ph_options h' -> bucketCount h = bucketCount h' -> ring h d L last -> ring h' d L last.
Proof. destruct h, h'; simpl. intros -> ->. intros [H1 H2 H3 H4 H5]. split; done. Qed.

(** [Observe] puts the observation into the ring of its deployment, which is the one
    it had or a new one, and keeps or drops the other deployments. *)
Lemma Observe_Ok h o now h' : Observe h ctx_live o now = (h', None) ->
  PassiveObservation_Validate o = true /\ ph_options h' = ph_options h /\ bucketCount h' = bucketCount h /\
  ph_deployments h' !! obs_DeploymentID o =
    Some (observe_at h (default (new_deployment h) (ph_deployments h !! obs_DeploymentID o)) now o) /\
  forall id d, id <> obs_DeploymentID o -> ph_deployments h' !! id = Some d -> ph_deployments h !! id = Some d.
Proof.
  unfold Observe. destruct (PassiveObservation_Validate o) eqn:Ho; [|done]. destruct (time_is_zero now); [done|]. cbn [negb orb].
  destruct (ph_deployments h !! obs_DeploymentID o) as [d|] eqn:Ed.
  - intros; simplify_eq/=. split_and!; try done; [by rewrite lookup_insert_eq|]. intros id d' Hne. by rewrite lookup_insert_ne.
  - set (h1 := if _ <=? _ then evictOldestLocked h else h). intros; simplify_eq/=.
    assert (H1 : ph_options h1 = ph_options h /\ bucketCount h1 = bucketCount h /\ ph_deployments h1 ⊆ ph_deployments h).
    { unfold h1. case_match; [|done]. unfold evictOldestLocked. destruct (oldest_observed _) as [[id d]|]; [|done].
      simpl. split_and!; [done..|]. apply delete_subseteq. }
    destruct H1 as (Ho1 & Hc1 & Hs1). split_and!; try done.
    + rewrite lookup_insert_eq. simpl. unfold observe_at, bucketIndex. by rewrite Ho1, Hc1.
    + intros id d' Hne. rewrite lookup_insert_ne by done. intros Hd. by eapply lookup_weaken.
Qed.

Lemma passive_step o tr tr' : passive_inv o tr -> observe_step tr tr' -> passive_inv o tr'.
Proof.
  intros [Ho Hv Hc Hr] Hstep. destruct Hstep as [ob now h' Ht Hep E].
  destruct (Observe_Ok _ _ _ _ E) as (Hob & Hopt & Hcnt & Hnew & Hold). destruct (options_bounds _ Hv) as [Hw Hn].
  rewrite <- Hc in Hn. rewrite <- Ho in Hw.
  split; cbn [tr_health tr_time tr_log]; [congruence|done|congruence|]. intros id d Hd. destruct (decide (id = obs_DeploymentID ob)) as [->|Hne].
  - rewrite Hnew in Hd. simplify_eq. apply (ring_same (tr_health tr)); [done..|].
    destruct (start_spec (tr_health tr) ltac:(lia) now) as [_ Hs].
    apply (ring_observe (tr_health tr) ltac:(lia) ltac:(lia) _ _ (tr_time tr)); [|done|lia|done].
    unfold logged. destruct (ph_deployments (tr_health tr) !! obs_DeploymentID ob) as [d|] eqn:Ed; [by apply Hr|apply ring_new].
  - apply (ring_same (tr_health tr)); [done..|]. eapply ring_later; [lia..|apply Hr; by apply Hold|done].
Qed.

Lemma rtc_passive_inv o tr tr' : rtc observe_step tr tr' -> passive_inv o tr -> passive_inv o tr'.
Proof. induction 1 as [|? ? ? Hs _ IH]; [done|]. intros Hi. apply IH. by eapply passive_step. Qed.

Lemma tracked_inv o tr : tracked_reachable o tr -> passive_inv o tr.
Proof.
  intros (h & Hh & Hrun). unfold NewPassiveHealth in Hh. destruct (PassiveHealthOptions_Validate o) eqn:Hv; [|done]. simplify_eq.
  eapply rtc_passive_inv; [exact Hrun|]. by split.
Qed.

(** ** Properties *)

(** What the observations of the current window weigh, capped at the largest uint64. *)
Definition windowed (tr : Tracked) (id : string) (now : Time) (weight : PassiveObservation -> Z) : Z :=
  let h := tr_health tr in
  sat (weight_between h weight (start h now - (bucketCount h - 1) * BucketWidth (ph_options h)) (start h now) (logged tr id)).

Definition signal (o : PassiveObservation) : Z :=
  outcome_weight PassiveRateLimited o + outcome_weight PassiveServerError o + outcome_weight PassiveTimedOut o.

Lemma weight_between_add h w1 w2 oldest current L :
  weight_between h (fun o => w1 o + w2 o) oldest current L = weight_between h w1 oldest current L + weight_between h w2 oldest current L.
Proof. unfold weight_between. induction L as [|e L IH]; simpl; [done|]. rewrite IH. case_match; lia. Qed.

Lemma outcome_between_nonneg h outcome oldest current L : 0 <= weight_between h (outcome_weight outcome) oldest current L.
Proof. apply sum_by_nonneg. intros e _. unfold outcome_weight. repeat case_match; lia. Qed.

(** The aggregate that [Snapshot] reports. *)
Lemma Snapshot_aggregate o tr id now s :
  passive_inv o tr -> tr_time tr <= now -> PassiveHealth_Snapshot (tr_health tr) ctx_live id now = Ok s ->
  exists a, s = snapshot (tr_health tr) id (start (tr_health tr) now - (bucketCount (tr_health tr) - 1) * BucketWidth o) now a (ph_evictions (tr_health tr)) /\
    forall get weight, tally get weight -> get a = windowed tr id now weight.
Proof.
  intros [Ho Hv Hc Hr] Ht. unfold PassiveHealth_Snapshot. destruct (routeDeploymentIDPattern id); [|done].
  destruct (time_is_zero now); [done|]. cbn [negb]. intros; simplify_eq. eexists. split; [reflexivity|].
  intros get weight Hg. unfold windowed, logged. cbv zeta. destruct (options_bounds _ Hv) as [Hw Hn].
  destruct (ph_deployments (tr_health tr) !! id) as [d|] eqn:Ed; [|by rewrite (tally_empty _ _ Hg)].
  exact (merge_window_sum (tr_health tr) ltac:(lia) ltac:(lia) get weight d _ (tr_time tr) now Hg (Hr _ _ Ed) Ht).
Qed.

(** After any sequence of observations of any deployments, with evictions, a
    snapshot counts exactly the observations of its deployment whose time bucket lies
    in the current window: the ring never mixes windows, loses an observation of the
    window or keeps an older one. The health verdict follows: below
    [MinimumSamples] samples the deployment is healthy, and at or above it the
    verdict compares failure signals with samples. *)
Theorem passive_window_is_exact o tr id now s :
  tracked_reachable o tr -> tr_time tr <= now -> PassiveHealth_Snapshot (tr_health tr) ctx_live id now = Ok s ->
  let count := windowed tr id now in
  RequestCount s = count (fun _ => 1) /\ SuccessCount s = count (outcome_weight PassiveSucceeded) /\
  RateLimitCount s = count (outcome_weight PassiveRateLimited) /\ ServerErrorCount s = count (outcome_weight PassiveServerError) /\
  TimeoutCount s = count (outcome_weight PassiveTimedOut) /\ CancelledCount s = count (outcome_weight PassiveCancelled) /\
  OtherFailureCount s = count (outcome_weight PassiveOtherFailure) /\ FailureSignalCount s = count signal /\
  HealthSampleCount s = count (fun ob => outcome_weight PassiveSucceeded ob + signal ob) /\
  (count (fun ob => outcome_weight PassiveSucceeded ob + signal ob) < MinimumSamples o -> ps_Healthy s = true).
Proof.
  intros Htr Ht Hs count. pose proof (tracked_inv _ _ Htr) as Hinv. pose proof (pi_options _ _ Hinv) as Ho.
  destruct (Snapshot_aggregate o tr id now s Hinv Ht Hs) as (a & -> & Ha).
  assert (Hsig : saturatingSum [rateLimits a; serverErrors a; timeouts a] = count signal).
  { rewrite (Ha _ _ tally_rateLimits), (Ha _ _ tally_serverErrors), (Ha _ _ tally_timeouts). unfold count, windowed, signal.
    rewrite sat_sum_3 by apply outcome_between_nonneg. by rewrite !weight_between_add. }
  assert (Hsam : saturatingSum [successes a; count signal] = count (fun ob => outcome_weight PassiveSucceeded ob + signal ob)).
  { rewrite (Ha _ _ tally_successes). unfold count, windowed, signal.
    rewrite sat_sum; [by rewrite !weight_between_add|apply outcome_between_nonneg|].
    rewrite !weight_between_add. pose proof outcome_between_nonneg as Hnn.
    repeat (apply Z.add_nonneg_nonneg; [|apply Hnn]). apply Hnn. }
  unfold snapshot. cbn -[saturatingSum Z.leb to_float float_div]. rewrite Hsig, Hsam, (Ha _ _ tally_requests), (Ha _ _ tally_successes), (Ha _ _ tally_rateLimits),
    (Ha _ _ tally_serverErrors), (Ha _ _ tally_timeouts), (Ha _ _ tally_cancelled), (Ha _ _ tally_otherFailure).
  repeat (split; [done|]). intros Hlow. rewrite Ho. by destruct (Z.leb_spec (MinimumSamples o) (count (fun ob => outcome_weight PassiveSucceeded ob + signal ob))); [lia|].
Qed.

(** ** Witness: a timeout, and a success three minutes later that expires it. *)
Definition demo_id : string := "11111111-1111-4111-8111-111111111111".
Definition demo_observation (outcome : PassiveOutcome) : PassiveObservation :=
  {| obs_DeploymentID := demo_id; obs_Outcome := outcome; obs_ProviderStatus := 0; FirstTokenLatency := None; TotalLatency := second |}.
Definition demo_time : Time := unix_epoch + 1000000 * hour.
Definition demo_health : PassiveHealth :=
  {| ph_options := DefaultPassiveHealthOptions; bucketCount := 24; ph_deployments := ∅; ph_evictions := 0 |}.
Definition demo_observe (tr : Tracked) (o : PassiveObservation) (now : Time) : Tracked :=
  {| tr_health := (Observe (tr_health tr) ctx_live o now).1; tr_time := now;
     tr_log := fun id => if decide (id = obs_DeploymentID o) then logged tr id ++ [(now, o)] else tr_log tr id |}.
Definition demo_tracked : Tracked :=
  demo_observe (demo_observe {| tr_health := demo_health; tr_time := 0; tr_log := fun _ => [] |} (demo_observation PassiveTimedOut) demo_time)
    (demo_observation PassiveSucceeded) (demo_time + 3 * minute).

Lemma demo_observe_step tr o now :
  tr_time tr <= now -> unix_epoch + hour <= now -> (Observe (tr_health tr) ctx_live o now).2 = None -> observe_step tr (demo_observe tr o now).
Proof.
  intros Ht He Hn. apply (observe_one tr o now); [done..|]. rewrite <- Hn. apply surjective_pairing.
Qed.

Lemma demo_tracked_reachable : tracked_reachable DefaultPassiveHealthOptions demo_tracked.
Proof.
  exists demo_health. split; [by vm_compute|].
  eapply rtc_l; [apply (demo_observe_step _ (demo_observation PassiveTimedOut) demo_time); by vm_compute|].
  apply rtc_once, demo_observe_step; by vm_compute.
Qed.

Lemma passive_window_is_exact_witness :
  exists s, PassiveHealth_Snapshot (tr_health demo_tracked) ctx_live demo_id (demo_time + 3 * minute) = Ok s /\
    RequestCount s = 1 /\ FailureSignalCount s = 0 /\ length (logged demo_tracked demo_id) = 2%nat.
Proof.
  assert (Hok : is_ok (PassiveHealth_Snapshot (tr_health demo_tracked) ctx_live demo_id (demo_time + 3 * minute)) = true)
    by (vm_compute; reflexivity).
  destruct (PassiveHealth_Snapshot (tr_health demo_tracked) ctx_live demo_id (demo_time + 3 * minute)) as [s|] eqn:E; [|discriminate Hok].
  exists s. split; [reflexivity|].
  destruct (passive_window_is_exact _ demo_tracked demo_id (demo_time + 3 * minute) s demo_tracked_reachable ltac:(by vm_compute) E)
    as (H1 & _ & _ & _ & _ & _ & _ & H2 & _). rewrite H1, H2. split; [vm_compute; reflexivity|]. split; vm_compute; reflexivity.
Defined.
