(* ===== verification/SSE.v ===== *)
(** * Server-sent events (src/internal/sse/decoder.go, writer.go)

    Bytes are integers from 0 to 255. The upstream of the decoder is the bytes it
    will deliver and how it ends; the response of the writer is a record of what its
    calls return, and the bytes that reached it.

    Then: what is written is what is read (src/internal/sse). *)
From Stdlib Require Import ZArith Lia Bool Ascii String.
From stdpp Require Import base tactics option list strings gmap.
From S2P Require Import Prelude Identifiers Unicode.
Notation bytes := (list Z).
Definition LF : Z := 10.
Definition CR : Z := 13.
Definition COLON : Z := 58.
Definition SPACE : Z := 32.

(** ** Functions of package bytes *)
Definition TrimSuffix1 (b : Z) (l : bytes) : bytes :=
  match last l with Some x => if x =? b then removelast l else l | None => l end.

Definition TrimPrefix (p l : bytes) : bytes := if bool_decide (take (length p) l = p) then drop (length p) l else l.

(** [bytes.Cut(line, ":")] *)
Fixpoint Cut (sep : Z) (l : bytes) : bytes * bytes * bool :=
  match l with
  | [] => ([], [], false)
  | b :: r => if b =? sep then ([], r, true) else let '(before, after, found) := Cut sep r in (b :: before, after, found)
  end.

(** [bytes.ReplaceAll(l, "\r\n", "\n")] *)
Fixpoint replace_crlf (l : bytes) : bytes :=
  match l with
  | [] => []
  | b :: r =>
      match r with
      | b' :: r' => if (b =? CR) && (b' =? LF) then LF :: replace_crlf r' else b :: replace_crlf r
      | [] => [b]
      end
  end.

(** [bytes.ReplaceAll(l, "\r", "\n")] *)
Definition replace_cr (l : bytes) : bytes := (fun b => if b =? CR then LF else b) <$> l.

(** [bytes.Split(l, "\n")] *)
Fixpoint Split (sep : Z) (l : bytes) : list bytes :=
  match l with
  | [] => [[]]
  | b :: r =>
      if b =? sep then [] :: Split sep r
      else match Split sep r with first :: rest => (b :: first) :: rest | [] => [[b]] end
  end.

(** ** Decoder *)
Inductive read_end := EndEOF | EndError (what : string).
Inductive sse_error :=
| EOF | ErrRead (what : string) | ErrLineTooLarge | ErrEventTooLarge | ErrUnknownField | ErrInvalidField (field : string)
| ErrConfig.

Record Limits := { MaxLineBytes : Z; MaxEventBytes : Z }.
Record Event := { ev_Type : bytes; ev_Data : bytes; ev_Comment : bool }.
Record Decoder := { input : bytes; input_end : read_end; limits : Limits; first : bool }.

Definition NewDecoder (stream : bytes) (how : read_end) (l : Limits) : result Decoder sse_error :=
  ensure ((1 <=? MaxLineBytes l) && (MaxLineBytes l <=? 1048576)) else ErrConfig in
  ensure ((MaxLineBytes l <=? MaxEventBytes l) && (MaxEventBytes l <=? 4194304)) else ErrConfig in
  Ok {| input := stream; input_end := how; limits := l; first := true |}.

(** The first line of the input within [n] bytes, with its newline, and the rest. *)
Fixpoint take_line (n : nat) (l : bytes) : option (bytes * bytes) :=
  match n, l with
  | S n', b :: r =>
      if b =? LF then Some ([b], r)
      else match take_line n' r with Some (line, rest) => Some (b :: line, rest) | None => None end
  | _, _ => None
  end.

(** [bufio.Reader.ReadSlice('\n')] with the buffer [NewReaderSize] allocates (at
    least 16 bytes): the slice, the error, the input left. *)
Inductive slice_error := SliceFull | SliceEnd (how : read_end).

Definition buffer_size (d : Decoder) : nat := Nat.max 16 (Z.to_nat (MaxLineBytes (limits d) + 2)).

Definition ReadSlice (d : Decoder) : bytes * option slice_error * bytes :=
  match take_line (buffer_size d) (input d) with
  | Some (line, rest) => (line, None, rest)
  | None =>
      if Nat.leb (buffer_size d) (length (input d))
      then (take (buffer_size d) (input d), Some SliceFull, drop (buffer_size d) (input d))
      else (input d, Some (SliceEnd (input_end d)), [])
  end.

Definition with_input (d : Decoder) (rest : bytes) (f : bool) : Decoder :=
  {| input := rest; input_end := input_end d; limits := limits d; first := f |}.

Definition readLine (d : Decoder) : Decoder * result bytes sse_error :=
  let '(slice, err, rest) := ReadSlice d in
  let d' := with_input d rest (first d) in
  match err with
  | Some SliceFull => (d', Err ErrLineTooLarge)
  | Some (SliceEnd (EndError what)) => (d', Err (ErrRead what))
  | _ =>
      let line := TrimSuffix1 CR (TrimSuffix1 LF slice) in
      if MaxLineBytes (limits d) <? Z.of_nat (length line) then (d', Err ErrLineTooLarge)
      else match err, line with
      | Some (SliceEnd EndEOF), [] => (d', Err EOF)
      | _, _ => (d', Ok line)
      end
  end.

Definition asciiDigits (value : bytes) : bool :=
  match value with [] => false | _ => forallb (fun b => (48 <=? b) && (b <=? 57)) value end.

Record block := { b_data : bytes; b_type : bytes; b_comment : bool; b_started : bool; b_dataSeen : bool; b_bytes : Z }.

Definition empty_block : block :=
  {| b_data := []; b_type := bytes_of "message"; b_comment := false; b_started := false; b_dataSeen := false; b_bytes := 0 |}.

Definition buildEvent (b : block) : Event :=
  {| ev_Type := b_type b; ev_Data := b_data b; ev_Comment := b_comment b && negb (b_dataSeen b) |}.

(** The body of the loop of [Next] for one non-empty line. *)
Definition add_line (l : Limits) (b : block) (line : bytes) : result block sse_error :=
  ensure (negb (MaxEventBytes l - Z.of_nat (length line) <? b_bytes b)) else ErrEventTooLarge in
  let size := b_bytes b + Z.of_nat (length line) in
  match line with
  | c :: _ =>
      if c =? COLON
      then Ok {| b_data := b_data b; b_type := b_type b; b_comment := true; b_started := true; b_dataSeen := b_dataSeen b; b_bytes := size |}
      else
        let '(field, value, _) := Cut COLON line in
        let value := TrimPrefix [SPACE] value in
        let set data type seen :=
          {| b_data := data; b_type := type; b_comment := b_comment b; b_started := true; b_dataSeen := seen; b_bytes := size |} in
        if bool_decide (field = bytes_of "data") then
          let separator := if b_dataSeen b then 1 else 0 in
          ensure (negb (MaxEventBytes l - separator - Z.of_nat (length value) <? Z.of_nat (length (b_data b)))) else ErrEventTooLarge in
          Ok (set (b_data b ++ (if b_dataSeen b then [LF] else []) ++ value) (b_type b) true)
        else if bool_decide (field = bytes_of "event") then
          ensure (negb (bool_decide (decode value = None)) && negb (existsb (Z.eqb 0) value)) else ErrInvalidField "event" in
          Ok (set (b_data b) value (b_dataSeen b))
        else if bool_decide (field = bytes_of "id") then
          ensure (negb (existsb (Z.eqb 0) value)) else ErrInvalidField "id" in
          Ok (set (b_data b) (b_type b) (b_dataSeen b))
        else if bool_decide (field = bytes_of "retry") then
          ensure (asciiDigits value) else ErrInvalidField "retry" in
          Ok (set (b_data b) (b_type b) (b_dataSeen b))
        else Err ErrUnknownField
  | [] => Ok b
  end.

Definition BOM : bytes := [239; 187; 191].

(** The loop of [Next]. Each turn consumes a byte or returns, so one more turn than
    the input has bytes is enough. [None]: out of fuel. *)
Fixpoint next_loop (fuel : nat) (d : Decoder) (b : block) : option (Decoder * result Event sse_error) :=
  match fuel with
  | O => None
  | S fuel' =>
      match readLine d with
      | (d1, Err EOF) => Some (d1, if b_started b then Ok (buildEvent b) else Err EOF)
      | (d1, Err e) => Some (d1, Err e)
      | (d1, Ok line) =>
          let line := if first d1 then TrimPrefix BOM line else line in
          let d2 := with_input d1 (input d1) false in
          match line with
          | [] => if b_started b then Some (d2, Ok (buildEvent b)) else next_loop fuel' d2 b
          | _ =>
              match add_line (limits d2) b line with
              | Err e => Some (d2, Err e)
              | Ok b' => next_loop fuel' d2 b'
              end
          end
      end
  end.

Definition Next (d : Decoder) : option (Decoder * result Event sse_error) :=
  next_loop (S (length (input d))) d empty_block.

(** ** Writer *)
Inductive writer_error :=
| ErrWriterInvalid | ErrWriterUnsupported | ErrWriterClosed | ErrWriteTimeout | ErrClientDisconnected | ErrWriteFailed.

(** Causes that [classifyWriteError] tells apart. *)
Inductive write_cause := NotSupported | TimedOut | Disconnected | ShortWrite | OtherCause (what : string).

(** What the response does during one event: the request context when the writer
    looks at it, the clock, and the outcome of each call. [io_write n] is the
    outcome of the n-th Write: bytes taken and error. *)
Record io := {
  io_ctx : Context; io_ctx_after : Context; io_now : Time; io_deadline : option write_cause;
  io_write : nat -> nat * option write_cause; io_flush : option write_cause; io_clear : option write_cause }.

Record Writer := { writeLimit : Duration; terminal : bool; failed : bool; sent : bytes }.

Definition maximumDownstreamDataBytes : nat := Z.to_nat 262144.
Definition maximumDownstreamCommentBytes : nat := Z.to_nat 4096.

(** A response writer and the ones it unwraps to: whether each can flush and whether
    each can set a write deadline. *)
Record layer := { can_flush : bool; can_set_deadline : bool }.

Fixpoint control_loop (depth : nat) (response : list layer) (hasFlush hasDeadline : bool) : bool :=
  match depth, response with
  | S depth', l :: inner =>
      let hasFlush := hasFlush || can_flush l in
      let hasDeadline := hasDeadline || can_set_deadline l in
      if hasFlush && hasDeadline then true else control_loop depth' inner hasFlush hasDeadline
  | _, _ => false
  end.

Definition supportsResponseControl (response : list layer) : bool := control_loop 32 response false false.

Notation Header := (gmap string string).

(** The headers after the call, and the writer. *)
Definition newWriter (header : Header) (response : list layer) (requestID : string) (writeTimeout : Duration) (now : Time) :
    Header * result Writer writer_error :=
  if negb (requestIDPattern requestID) then (header, Err ErrWriterInvalid)
  else if (writeTimeout <=? 0) || (minute <? writeTimeout) then (header, Err ErrWriterInvalid)
  else if time_is_zero now then (header, Err ErrWriterInvalid)
  else if negb (supportsResponseControl response) then (header, Err ErrWriterUnsupported)
  else
    let header := <["Cache-Control" := "no-cache, no-store"]> header in
    let header := <["Content-Type" := "text/event-stream; charset=utf-8"]> header in
    let header := <["X-Accel-Buffering" := "no"]> header in
    let header := <["X-Content-Type-Options" := "nosniff"]> header in
    let header := <["X-Request-Id" := requestID]> header in
    let header := delete "Content-Length" header in
    (header, Ok {| writeLimit := writeTimeout; terminal := false; failed := false; sent := [] |}).

Definition lines_of (l : bytes) : list bytes := Split LF (replace_cr (replace_crlf l)).

Definition encode_lines (prefix : string) (lines : list bytes) : bytes :=
  foldr (fun line rest => bytes_of prefix ++ line ++ [LF] ++ rest) [LF] lines.

Definition encodeDataEvent (data : bytes) : bytes := encode_lines "data: " (lines_of data).
Definition encodeCommentEvent (comment : bytes) : bytes := encode_lines ": " (lines_of comment).
Definition doneEvent : bytes := bytes_of "data: [DONE]" ++ [LF; LF].

(** [writeAll]: the bytes the response took, and the error. *)
Fixpoint write_all (fuel : nat) (i : nat) (w : nat -> nat * option write_cause) (encoded : bytes) : bytes * option write_cause :=
  match fuel, encoded with
  | S fuel', _ :: _ =>
      let '(written, err) := w i in
      if Nat.ltb (length encoded) written then (encoded, Some ShortWrite)
      else match err with
      | Some cause => (take written encoded, Some cause)
      | None =>
          if Nat.eqb written 0 then ([], Some ShortWrite)
          else let '(more, e) := write_all fuel' (S i) w (drop written encoded) in (take written encoded ++ more, e)
      end
  | _, _ => ([], None)
  end.

Definition contextWriteError (ctx : Context) : option writer_error :=
  match ctx with ctx_done _ => Some ErrClientDisconnected | _ => None end.

Definition classifyWriteError (ctx : Context) (cause : write_cause) : writer_error :=
  match contextWriteError ctx with
  | Some e => e
  | None =>
      match cause with
      | NotSupported => ErrWriterUnsupported
      | TimedOut => ErrWriteTimeout
      | Disconnected => ErrClientDisconnected
      | ShortWrite | OtherCause _ => ErrWriteFailed
      end
  end.

Definition set_writer (w : Writer) (t f : bool) (more : bytes) : Writer :=
  {| writeLimit := writeLimit w; terminal := t; failed := f; sent := sent w ++ more |}.

Definition writeEvent (w : Writer) (r : io) (encoded : bytes) (term : bool) : Writer * option writer_error :=
  match io_ctx r with
  | ctx_nil => (w, Some ErrWriterInvalid)
  | _ =>
      if terminal w || failed w then (w, Some ErrWriterClosed)
      else match contextWriteError (io_ctx r) with
      | Some e => (set_writer w false true [], Some e)
      | None =>
          if time_is_zero (time_add (io_now r) (writeLimit w)) then (set_writer w false true [], Some ErrWriterInvalid)
          else match io_deadline r with
          | Some cause => (set_writer w false true [], Some (classifyWriteError (io_ctx_after r) cause))
          | None =>
              match write_all (length encoded) 0 (io_write r) encoded with
              | (taken, Some cause) => (set_writer w false true taken, Some (classifyWriteError (io_ctx_after r) cause))
              | (taken, None) =>
                  match io_flush r, io_clear r with
                  | Some cause, _ | None, Some cause => (set_writer w false true taken, Some (classifyWriteError (io_ctx_after r) cause))
                  | None, None => (set_writer w term false taken, None)
                  end
              end
          end
      end
  end.

Definition WriteData (w : Writer) (r : io) (data : bytes) : Writer * option writer_error :=
  if Nat.eqb (length data) 0 || Nat.ltb maximumDownstreamDataBytes (length data) || bool_decide (decode data = None)
  then (w, Some ErrWriterInvalid)
  else writeEvent w r (encodeDataEvent data) false.

(** [encoded]: what json.Marshal returned for the value. *)
Definition WriteJSON (w : Writer) (r : io) (encoded : option bytes) : Writer * option writer_error :=
  match encoded with None => (w, Some ErrWriterInvalid) | Some data => WriteData w r data end.

Definition WriteComment (w : Writer) (r : io) (comment : bytes) : Writer * option writer_error :=
  if Nat.eqb (length comment) 0 || Nat.ltb maximumDownstreamCommentBytes (length comment) || bool_decide (decode comment = None) ||
     existsb (Z.eqb 0) comment
  then (w, Some ErrWriterInvalid)
  else writeEvent w r (encodeCommentEvent comment) false.

Definition WriteDone (w : Writer) (r : io) : Writer * option writer_error := writeEvent w r doneEvent true.

(** ** Terminal events *)
Fixpoint drop_spaces (rs : list Z) : list Z :=
  match rs with r :: rest => if IsSpace r then drop_spaces rest else rs | [] => [] end.

(** [bytes.TrimSpace], on runes: the comparison below is with ASCII text. *)
Definition trim_runes (rs : list Z) : list Z := reverse (drop_spaces (reverse (drop_spaces rs))).

Definition IsDone (e : Event) : bool := bool_decide (trim_runes (runes (ev_Data e)) = bytes_of "[DONE]").

(** ** What is written is what is read (src/internal/sse)

    Round trip of the writer's frames through the decoder, and totality and bounds of
    the decoder on arbitrary upstream bytes. *)
(** ** Lines *)
Lemma take_line_found line : forall n rest,
  LF ∉ line -> (length line < n)%nat -> take_line n (line ++ LF :: rest) = Some (line ++ [LF], rest).
Proof.
  induction line as [|b line IH]; intros [|n] rest Hlf Hn; simpl in *; try lia; [done|].
  apply not_elem_of_cons in Hlf as [Hb Hlf]. destruct (Z.eqb_spec b LF); [by subst|]. rewrite IH by (done || lia). done.
Qed.

Lemma TrimSuffix1_snoc b l : TrimSuffix1 b (l ++ [b]) = l.
Proof. unfold TrimSuffix1. by rewrite last_snoc, Z.eqb_refl, removelast_last. Qed.

Lemma TrimSuffix1_none b l : b ∉ l -> TrimSuffix1 b l = l.
Proof.
  intros H. unfold TrimSuffix1. destruct (last l) as [x|] eqn:E; [|done]. destruct (Z.eqb_spec x b) as [->|]; [|done].
  destruct H. by apply last_Some_elem_of in E.
Qed.

Lemma buffer_covers d : (Z.to_nat (MaxLineBytes (limits d)) < buffer_size d)%nat.
Proof. unfold buffer_size. lia. Qed.

Lemma readLine_line d line rest :
  input d = line ++ LF :: rest -> LF ∉ line -> CR ∉ line -> Z.of_nat (length line) <= MaxLineBytes (limits d) ->
  readLine d = (with_input d rest (first d), Ok line).
Proof.
  intros Hin Hlf Hcr Hlen. unfold readLine, ReadSlice. pose proof (buffer_covers d). rewrite Hin, take_line_found by (done || lia).
  rewrite TrimSuffix1_snoc, TrimSuffix1_none by done. by destruct (Z.ltb_spec (MaxLineBytes (limits d)) (Z.of_nat (length line))); [lia|].
Qed.

Lemma not_BOM line : head line <> Some 239 -> TrimPrefix BOM line = line.
Proof. intros H. unfold TrimPrefix. rewrite bool_decide_eq_false_2; [done|]. intros E. apply H. destruct line as [|b line]; [done|].
  unfold BOM in E. simpl in E |- *. congruence.
Qed.

Lemma next_line fuel d b line rest b' :
  input d = line ++ LF :: rest -> LF ∉ line -> CR ∉ line -> Z.of_nat (length line) <= MaxLineBytes (limits d) ->
  line <> [] -> head line <> Some 239 -> add_line (limits d) b line = Ok b' ->
  next_loop (S fuel) d b = next_loop fuel (with_input d rest false) b'.
Proof.
  intros Hin Hlf Hcr Hlen Hne Hbom Hadd. cbn [next_loop]. rewrite (readLine_line _ _ _ Hin) by done.
  cbn [first with_input input limits]. replace (if first d then TrimPrefix BOM line else line) with line
    by (destruct (first d); [by rewrite not_BOM|done]). destruct line; [done|]. by rewrite Hadd.
Qed.

Lemma next_end fuel d b rest :
  input d = LF :: rest -> 0 <= MaxLineBytes (limits d) -> b_started b = true ->
  next_loop (S fuel) d b = Some (with_input d rest false, Ok (buildEvent b)).
Proof.
  intros Hin Hmax Hst. cbn [next_loop]. rewrite (readLine_line d [] rest) by (done || (by apply not_elem_of_nil) || (simpl; lia)).
  cbn [first with_input input limits]. replace (if first d then TrimPrefix BOM [] else []) with (@nil Z) by by destruct (first d).
  by rewrite Hst.
Qed.

(** ** Splitting and joining *)
Fixpoint join_lines (lines : list bytes) : bytes :=
  match lines with
  | [] => []
  | line :: rest => line ++ match rest with [] => [] | _ => LF :: join_lines rest end
  end.

Lemma Split_nonempty sep l : Split sep l <> [].
Proof. destruct l as [|b l]; simpl; [done|]. repeat case_match; done. Qed.

Lemma join_Split l : join_lines (Split LF l) = l.
Proof.
  induction l as [|b l IH]; [done|]. simpl. pose proof (Split_nonempty LF l). destruct (Z.eqb_spec b LF) as [->|].
  - simpl. destruct (Split LF l) eqn:E; [done|]. by rewrite IH.
  - destruct (Split LF l) as [|first rest] eqn:E; [done|]. simpl in *. by rewrite IH.
Qed.

Lemma Split_elements sep l line x : line ∈ Split sep l -> x ∈ line -> x ∈ l /\ x <> sep.
Proof.
  revert line; induction l as [|b l IH]; intros line; simpl.
  - intros ->%list_elem_of_singleton ?%elem_of_nil. done.
  - destruct (Z.eqb_spec b sep) as [->|Hb].
    + intros [->|Hl]%elem_of_cons Hx; [by apply elem_of_nil in Hx|]. destruct (IH _ Hl Hx). split; [by right|done].
    + destruct (Split sep l) as [|f rest] eqn:E; [by pose proof (Split_nonempty sep l)|].
      intros [->|Hl]%elem_of_cons Hx.
      * apply elem_of_cons in Hx as [->|Hx]; [split; [by left|done]|]. destruct (IH f) as [? ?]; [left|done|]. split; [by right|done].
      * destruct (IH line) as [? ?]; [by right|done|]. split; [by right|done].
Qed.

Definition normalized (l : bytes) : bytes := replace_cr (replace_crlf l).

Lemma no_cr l : CR ∉ replace_cr l.
Proof. intros (b & Hb & _)%list_elem_of_fmap. destruct (Z.eqb_spec b CR); [by vm_compute in Hb|done]. Qed.

Lemma lines_clean l line : line ∈ lines_of l -> LF ∉ line /\ CR ∉ line.
Proof.
  intros Hl. split; intros Hx; destruct (Split_elements _ _ _ _ Hl Hx) as [Hin Hne]; [done|]. by apply no_cr in Hin.
Qed.

(** ** One frame *)
Definition line_size (prefix : string) (line : bytes) : Z := Z.of_nat (length (bytes_of prefix ++ line)).

(** The lines of a frame respect the limits of a decoder. *)
Definition frame_fits (l : Limits) (prefix : string) (lines : list bytes) : Prop :=
  Forall (fun line => line_size prefix line <= MaxLineBytes l) lines /\ sum_by (line_size prefix) lines <= MaxEventBytes l.

Definition data_so_far (b : block) : Z := Z.of_nat (length (b_data b)) + if b_dataSeen b then 1 else 0.

Definition with_data (b : block) (line : bytes) : block :=
  {| b_data := b_data b ++ (if b_dataSeen b then [LF] else []) ++ line; b_type := b_type b; b_comment := b_comment b;
     b_started := true; b_dataSeen := true; b_bytes := b_bytes b + line_size "data: " line |}.

Lemma add_data l b line :
  data_so_far b <= b_bytes b -> b_bytes b + line_size "data: " line <= MaxEventBytes l ->
  add_line l b (bytes_of "data: " ++ line) = Ok (with_data b line).
Proof.
  intros Hd Hb. unfold add_line. fold (line_size "data: " line).
  destruct (Z.ltb_spec (MaxEventBytes l - line_size "data: " line) (b_bytes b)); [lia|]. cbn [negb].
  change (bytes_of "data: " ++ line) with (100 :: 97 :: 116 :: 97 :: COLON :: SPACE :: line).
  cbn [Cut Z.eqb Pos.eqb COLON]. unfold TrimPrefix. rewrite (bool_decide_eq_true_2 (take _ _ = _)) by done.
  rewrite (bool_decide_eq_true_2 ([100; 97; 116; 97] = _)) by done. cbn [length]. rewrite skipn_cons, drop_0.
  assert (Hsz : line_size "data: " line = 6 + Z.of_nat (length line)) by (unfold line_size; rewrite length_app; simpl; lia).
  unfold data_so_far in Hd.
  destruct (Z.ltb_spec (MaxEventBytes l - (if b_dataSeen b then 1 else 0) - Z.of_nat (length line)) (Z.of_nat (length (b_data b)))); [lia|].
  reflexivity.
Qed.

Lemma with_data_so_far b line : data_so_far b <= b_bytes b -> data_so_far (with_data b line) <= b_bytes (with_data b line).
Proof.
  unfold data_so_far, with_data, line_size. cbn [b_data b_dataSeen b_bytes]. rewrite !length_app. simpl. destruct (b_dataSeen b); simpl; lia.
Qed.

Definition with_comment (b : block) (line : bytes) : block :=
  {| b_data := b_data b; b_type := b_type b; b_comment := true; b_started := true; b_dataSeen := b_dataSeen b;
     b_bytes := b_bytes b + line_size ": " line |}.

Lemma add_comment l b line :
  b_bytes b + line_size ": " line <= MaxEventBytes l -> add_line l b (bytes_of ": " ++ line) = Ok (with_comment b line).
Proof.
  intros Hb. unfold add_line. fold (line_size ": " line).
  by destruct (Z.ltb_spec (MaxEventBytes l - line_size ": " line) (b_bytes b)); [lia|].
Qed.

Section frame.
(** A kind of frame: the prefix of its lines, and what a line does to the block. *)
Context (prefix : string) (with_line : block -> bytes -> block) (ok : block -> Prop).
Hypothesis prefix_clean : Forall (fun x => x <> LF /\ x <> CR) (bytes_of prefix).
Hypothesis prefix_head : exists c, head (bytes_of prefix) = Some c /\ c <> 239.
Hypothesis ok_step : forall b line, ok b -> ok (with_line b line).
Hypothesis step_started : forall b line, b_started (with_line b line) = true.
Hypothesis step_bytes : forall b line, b_bytes (with_line b line) = b_bytes b + line_size prefix line.
Hypothesis step_add : forall l b line, ok b -> b_bytes b + line_size prefix line <= MaxEventBytes l ->
  add_line l b (bytes_of prefix ++ line) = Ok (with_line b line).

Lemma next_prefixed fuel d b line rest :
  input d = bytes_of prefix ++ line ++ LF :: rest -> LF ∉ line -> CR ∉ line -> ok b ->
  line_size prefix line <= MaxLineBytes (limits d) -> b_bytes b + line_size prefix line <= MaxEventBytes (limits d) ->
  next_loop (S fuel) d b = next_loop fuel (with_input d rest false) (with_line b line).
Proof using prefix_clean prefix_head step_add.
  intros Hin Hlf Hcr Hok Hl Hb. destruct prefix_head as (c & Hc & Hbom). rewrite Forall_forall in prefix_clean.
  apply (next_line _ _ _ (bytes_of prefix ++ line)); [by rewrite Hin, <- app_assoc| | |done| | |by apply step_add].
  1,2: intros [Hx%prefix_clean|Hx]%elem_of_app; [tauto|done].
  all: destruct (bytes_of prefix); [done|]; simpl in *; congruence.
Qed.

(** The decoder reads the lines of a frame up to the blank line that ends it. *)
Lemma next_frame lines : forall fuel d b rest,
  input d = encode_lines prefix lines ++ rest -> b_started b = true \/ lines <> [] -> (length lines < fuel)%nat ->
  Forall (fun line => LF ∉ line /\ CR ∉ line) lines -> 0 <= MaxLineBytes (limits d) ->
  Forall (fun line => line_size prefix line <= MaxLineBytes (limits d)) lines ->
  b_bytes b + sum_by (line_size prefix) lines <= MaxEventBytes (limits d) -> ok b ->
  next_loop fuel d b = Some (with_input d rest false, Ok (buildEvent (foldl with_line b lines))).
Proof using All.
  induction lines as [|line lines IH]; intros [|fuel] d b rest Hin Hne Hfuel Hclean H0 Hline Hsum Hd; simpl in Hfuel; try lia.
  { destruct Hne; [|done]. by apply next_end. }
  apply Forall_cons in Hclean as [[Hlf Hcr] Hclean]. apply Forall_cons in Hline as [Hl Hline]. simpl in Hsum.
  assert (Hpos : 0 <= sum_by (line_size prefix) lines) by (apply sum_by_nonneg; intros; unfold line_size; lia).
  rewrite (next_prefixed _ _ _ line (encode_lines prefix lines ++ rest)); [| |done..|lia].
  - rewrite (IH fuel _ _ rest); auto with lia; simpl. rewrite step_bytes. lia.
  - rewrite Hin. cbn [encode_lines foldr]. by rewrite <- !app_assoc.
Qed.
End frame.

(** ** Messages *)
Inductive message := MData (data : bytes) | MComment (comment : bytes) | MDone.

Definition encoding (m : message) : bytes :=
  match m with MData data => encodeDataEvent data | MComment c => encodeCommentEvent c | MDone => doneEvent end.

(** What a reader of the stream gets: line endings of the payload become newlines. *)
Definition message_event (m : message) : Event :=
  match m with
  | MData data => {| ev_Type := bytes_of "message"; ev_Data := normalized data; ev_Comment := false |}
  | MComment _ => {| ev_Type := bytes_of "message"; ev_Data := []; ev_Comment := true |}
  | MDone => {| ev_Type := bytes_of "message"; ev_Data := bytes_of "[DONE]"; ev_Comment := false |}
  end.

Definition message_lines (m : message) : list bytes :=
  match m with MData data => lines_of data | MComment c => lines_of c | MDone => [bytes_of "[DONE]"] end.

Definition message_prefix (m : message) : string := match m with MComment _ => ": " | _ => "data: " end.

Lemma encoding_lines m : encoding m = encode_lines (message_prefix m) (message_lines m).
Proof. by destruct m. Qed.

Lemma message_lines_clean m : Forall (fun line => LF ∉ line /\ CR ∉ line) (message_lines m).
Proof.
  apply Forall_forall. intros line Hl. destruct m; [by eapply lines_clean|by eapply lines_clean|].
  apply list_elem_of_singleton in Hl as ->. split; apply (bool_decide_unpack _); vm_compute; exact I.
Qed.

Lemma message_lines_nonempty m : message_lines m <> [].
Proof. destruct m; [apply Split_nonempty..|done]. Qed.

Lemma join_message_data m : message_prefix m = "data: "%string -> ev_Data (message_event m) = join_lines (message_lines m).
Proof. destruct m; [|done|done]. intros _. symmetry. apply join_Split. Qed.

Lemma foldl_data lines : forall b,
  lines <> [] -> buildEvent (foldl with_data b lines) =
  {| ev_Type := b_type b; ev_Data := b_data b ++ (if b_dataSeen b then [LF] else []) ++ join_lines lines; ev_Comment := false |}.
Proof.
  induction lines as [|line lines IH]; intros b Hne; [done|]. destruct lines as [|line' lines].
  - unfold buildEvent. simpl. by rewrite andb_false_r, app_nil_r.
  - change (foldl with_data b (line :: line' :: lines)) with (foldl with_data (with_data b line) (line' :: lines)).
    rewrite (IH (with_data b line)) by done. cbn [b_type with_data b_data b_dataSeen join_lines]. f_equal. by rewrite <- !app_assoc.
Qed.

Lemma foldl_comment lines : forall b,
  lines <> [] -> b_dataSeen b = false ->
  buildEvent (foldl with_comment b lines) = {| ev_Type := b_type b; ev_Data := b_data b; ev_Comment := true |}.
Proof.
  induction lines as [|line lines IH]; intros b Hne Hb; [done|]. destruct lines as [|line' lines].
  - unfold buildEvent. simpl. by rewrite Hb.
  - by apply (IH (with_comment b line)).
Qed.

Lemma encode_lines_length prefix lines : (length lines < length (encode_lines prefix lines))%nat.
Proof. induction lines; simpl; rewrite ?length_app; simpl; lia. Qed.

Definition fits (l : Limits) (m : message) : Prop :=
  0 <= MaxLineBytes l /\ frame_fits l (message_prefix m) (message_lines m).

Lemma Next_message d m rest :
  input d = encoding m ++ rest -> fits (limits d) m -> Next d = Some (with_input d rest false, Ok (message_event m)).
Proof.
  intros Hin (H0 & Hline & Hsum). unfold Next. rewrite encoding_lines in Hin.
  assert (Hfuel : (length (message_lines m) < S (length (input d)))%nat).
  { rewrite Hin, length_app. pose proof (encode_lines_length (message_prefix m) (message_lines m)). lia. }
  pose proof (message_lines_clean m). pose proof (message_lines_nonempty m).
  destruct (bool_decide (message_prefix m = "data: "%string)) eqn:Hp.
  - apply bool_decide_eq_true in Hp. rewrite Hp in *.
    rewrite (next_frame "data: " with_data (fun b => data_so_far b <= b_bytes b)) with (lines := message_lines m) (rest := rest);
      auto using with_data_so_far, add_data.
    + rewrite foldl_data by done. cbn [b_type b_data b_dataSeen empty_block]. simpl app. rewrite <- join_message_data by done.
      by destruct m.
    + apply (bool_decide_unpack _). vm_compute. exact I.
    + by exists 100.
    + done.
  - destruct m; [done| |done].
    rewrite (next_frame ": " with_comment (fun _ => True)) with (lines := lines_of comment) (rest := rest);
      auto using add_comment.
    + by rewrite foldl_comment.
    + apply (bool_decide_unpack _). vm_compute. exact I.
    + by exists 58.
Qed.

(** [Next] until it fails. *)
Fixpoint read_all (fuel : nat) (d : Decoder) : option (list Event * sse_error) :=
  match fuel with
  | O => None
  | S fuel' =>
      match Next d with
      | Some (d', Ok e) => match read_all fuel' d' with Some (es, err) => Some (e :: es, err) | None => None end
      | Some (_, Err err) => Some ([], err)
      | None => None
      end
  end.

Lemma read_all_event fuel d d' e :
  Next d = Some (d', Ok e) ->
  read_all (S fuel) d = match read_all fuel d' with Some (es, err) => Some (e :: es, err) | None => None end.
Proof. intros H. cbn [read_all]. by rewrite H. Qed.

Definition stream_of (ms : list message) : bytes := mbind encoding ms.

Lemma read_stream ms : forall d,
  input d = stream_of ms -> input_end d = EndEOF -> 0 <= MaxLineBytes (limits d) -> Forall (fits (limits d)) ms ->
  read_all (S (length ms)) d = Some (message_event <$> ms, EOF).
Proof.
  induction ms as [|m ms IH]; intros d Hin Hend H0 Hfit.
  - cbn [read_all length]. unfold Next. cbn [next_loop]. unfold readLine, ReadSlice. rewrite Hin, Hend. simpl.
    assert (buffer_size d <> 0)%nat by (unfold buffer_size; lia). destruct (buffer_size d); [done|]. simpl.
    by destruct (Z.ltb_spec (MaxLineBytes (limits d)) (Z.of_nat 0)); [lia|].
  - apply Forall_cons in Hfit as [Hm Hfit]. change (length (m :: ms)) with (S (length ms)).
    rewrite (read_all_event _ _ _ _ (Next_message d m (stream_of ms) Hin Hm)). by rewrite (IH (with_input d (stream_of ms) false)).
Qed.

(** ** The writer *)
Definition write (w : Writer) (c : message * io) : Writer * option writer_error :=
  match c with
  | (MData data, r) => WriteData w r data
  | (MComment comment, r) => WriteComment w r comment
  | (MDone, r) => WriteDone w r
  end.

(** A sequence of calls: the writer after them, and the messages whose call returned
    no error. *)
Fixpoint write_calls (w : Writer) (calls : list (message * io)) : Writer * list message :=
  match calls with
  | [] => (w, [])
  | c :: rest =>
      let '(w1, err) := write w c in
      let '(w2, delivered) := write_calls w1 rest in
      (w2, match err with None => c.1 :: delivered | Some _ => delivered end)
  end.

(** The bounds a call enforces on its payload. *)
Definition in_bounds (m : message) : Prop :=
  match m with
  | MData data => (length data <= maximumDownstreamDataBytes)%nat
  | MComment c => (length c <= maximumDownstreamCommentBytes)%nat
  | MDone => True
  end.

Definition is_terminal (m : message) : bool := match m with MDone => true | _ => false end.

Lemma write_all_takes fuel : forall i w encoded taken e,
  write_all fuel i w encoded = (taken, e) -> (length encoded <= fuel)%nat ->
  taken `prefix_of` encoded /\ (e = None -> taken = encoded).
Proof.
  induction fuel as [|fuel IH]; intros i w encoded taken e H Hf.
  { destruct encoded; simpl in *; [simplify_eq; auto|lia]. }
  destruct encoded as [|x encoded']; [simpl in H; simplify_eq; auto|]. set (encoded := x :: encoded') in *.
  change (write_all (S fuel) i w encoded) with
    (let '(written, err) := w i in
      if Nat.ltb (length encoded) written then (encoded, Some ShortWrite)
      else match err with
      | Some cause => (take written encoded, Some cause)
      | None =>
          if Nat.eqb written 0 then ([], Some ShortWrite)
          else let '(more, e) := write_all fuel (S i) w (drop written encoded) in (take written encoded ++ more, e)
      end) in H.
  destruct (w i) as [written err]. destruct (Nat.ltb_spec (length encoded) written); [simplify_eq; by split|].
  destruct err; [simplify_eq; split; [apply prefix_take|done]|].
  destruct (Nat.eqb_spec written 0); [simplify_eq; split; [apply prefix_nil|done]|].
  destruct (write_all fuel (S i) w (drop written encoded)) as [more e'] eqn:E. simplify_eq.
  apply IH in E as [Hp He]; [|rewrite length_drop; lia]. rewrite <- (take_drop written encoded) at 2 4.
  split; [by apply prefix_app|]. intros ->. by rewrite He.
Qed.

(** What one event does to the writer: nothing when it is closed; all of the frame
    when the call returns no error; otherwise a part of it, and the writer fails. *)
Lemma writeEvent_effect w r encoded term w' err :
  writeEvent w r encoded term = (w', err) ->
  (w' = w /\ err <> None) \/
  (terminal w = false /\ failed w = false /\ err = None /\ w' = set_writer w term false encoded) \/
  (terminal w = false /\ failed w = false /\ err <> None /\ exists part, part `prefix_of` encoded /\ w' = set_writer w false true part).
Proof.
  intros H. unfold writeEvent in H. assert (Hn := prefix_nil encoded).
  destruct (terminal w) eqn:Ht, (failed w) eqn:Hf; cbn [orb] in H; try (by destruct (io_ctx r); simplify_eq; left).
  destruct (write_all (length encoded) 0 (io_write r) encoded) as [taken e] eqn:E. apply write_all_takes in E as [Hp He]; [|done].
  destruct (io_ctx r); repeat case_match; simplify_eq; try (by left); try (by right; left; rewrite He);
    right; right; eauto 6.
Qed.

Lemma write_effect w m r w' err :
  write w (m, r) = (w', err) ->
  (w' = w /\ err <> None) \/
  (terminal w = false /\ failed w = false /\ err = None /\ in_bounds m /\ w' = set_writer w (is_terminal m) false (encoding m)) \/
  (terminal w = false /\ failed w = false /\ err <> None /\
   exists part, part `prefix_of` encoding m /\ w' = set_writer w false true part).
Proof.
  intros H. destruct m as [data|comment|]; cbn [write] in H; unfold WriteData, WriteComment, WriteDone in H;
    try (case_match eqn:Hg; [simplify_eq; by left|]);
    apply writeEvent_effect in H as [?|[(? & ? & ? & ?)|(? & ? & ? & ?)]]; try (by left); try (by right; right);
    right; left; repeat split; try done; simpl; repeat (apply orb_false_iff in Hg as [Hg ?]);
    match goal with H : Nat.ltb _ _ = false |- _ => by apply Nat.ltb_ge in H end.
Qed.

Lemma write_calls_closed calls : forall w, terminal w || failed w = true -> write_calls w calls = (w, []).
Proof.
  induction calls as [|[m r] calls IH]; intros w Hc; [done|]. cbn [write_calls]. destruct (write w (m, r)) as [w1 err] eqn:E.
  apply write_effect in E as [[-> Herr]|[(Ht & Hf & _)|(Ht & Hf & _)]]; [|by rewrite Ht, Hf in Hc..].
  rewrite IH by done. by destruct err.
Qed.

Lemma write_calls_effect calls : forall w w' ms,
  write_calls w calls = (w', ms) -> terminal w = false -> failed w = false ->
  Forall in_bounds ms /\ (exists body, ms = body ++ (if terminal w' then [MDone] else []) /\ MDone ∉ body) /\
  exists part, sent w' = sent w ++ stream_of ms ++ part /\ (if failed w' then exists m, part `prefix_of` encoding m else part = []).
Proof.
  induction calls as [|[m r] calls IH]; intros w w' ms H Ht Hf; cbn [write_calls] in H.
  { simplify_eq. rewrite Ht, Hf. split; [done|]. split; [exists []; split; [done|apply not_elem_of_nil]|]. exists []. by rewrite !app_nil_r. }
  destruct (write w (m, r)) as [w1 err] eqn:E. destruct (write_calls w1 calls) as [w2 ms'] eqn:E2. injection H as -> <-.
  apply write_effect in E as [[-> Herr]|[(_ & _ & -> & Hm & ->)|(_ & _ & Herr & part & Hp & ->)]].
  - destruct err; [|done]. by apply (IH w).
  - destruct (is_terminal m) eqn:Hterm.
    + rewrite write_calls_closed in E2 by done. injection E2 as <- <-. destruct m; [done..|]. cbn [terminal failed sent set_writer].
      split; [by repeat constructor|]. split; [exists []; split; [done|apply not_elem_of_nil]|]. exists []. split; [|done]. unfold stream_of. simpl. by rewrite ?app_nil_r.
    + apply IH in E2 as (Hb & (body & -> & Hbody) & part & Hs & Hpart); [|done..]. split; [by constructor|]. split.
      * exists (m :: body). split; [done|]. apply not_elem_of_cons. split; [by intros <-|done].
      * exists part. split; [|done]. rewrite Hs. cbn [sent set_writer fst]. unfold stream_of. by rewrite bind_cons, <- !app_assoc.
  - destruct err; [|done]. rewrite write_calls_closed in E2 by done. injection E2 as <- <-. cbn [terminal failed sent set_writer].
    split; [done|]. split; [exists []; split; [done|apply not_elem_of_nil]|]. exists part. split; [done|]. by exists m.
Qed.

(** ** Frames of the writer fit a decoder with room for them *)
Lemma replace_crlf_length n : forall l, (length l <= n)%nat -> (length (replace_crlf l) <= length l)%nat.
Proof.
  induction n as [|n IH]; intros [|b [|b' l]] Hn; simpl in Hn; try lia; try (simpl; lia).
  change (replace_crlf (b :: b' :: l)) with
    (if (b =? CR) && (b' =? LF) then LF :: replace_crlf l else b :: replace_crlf (b' :: l)).
  case_match; simpl length at 1; [specialize (IH l)|specialize (IH (b' :: l))]; simpl in *; lia.
Qed.

Lemma normalized_length l : (length (normalized l) <= length l)%nat.
Proof. unfold normalized, replace_cr. rewrite length_fmap. by apply (replace_crlf_length (length l)). Qed.

Lemma Split_size sep l : sum_by (fun line => Z.of_nat (length line) + 1) (Split sep l) = Z.of_nat (length l) + 1.
Proof.
  induction l as [|b l IH]; [done|]. cbn [Split]. pose proof (Split_nonempty sep l). case_match; [cbn [sum_by]; rewrite IH; simpl; lia|].
  destruct (Split sep l) as [|f rest]; [done|]. cbn [sum_by length] in *. lia.
Qed.

Lemma lines_fit l prefix payload n :
  (length payload <= n)%nat -> Z.of_nat (length (bytes_of prefix)) <= 6 ->
  Z.of_nat n + 6 <= MaxLineBytes l -> 7 * (Z.of_nat n + 1) <= MaxEventBytes l -> frame_fits l prefix (lines_of payload).
Proof.
  intros Hn Hp Hl He. pose proof (normalized_length payload). pose proof (Split_size LF (normalized payload)) as Hsize.
  change (Split LF (normalized payload)) with (lines_of payload) in Hsize.
  assert (Hbound : forall line, line ∈ lines_of payload -> Z.of_nat (length line) <= Z.of_nat n).
  { intros line [i Hi]%list_elem_of_lookup. 
    pose proof (sum_by_lookup (fun line => Z.of_nat (length line) + 1) _ i line ltac:(intros; cbv beta; lia) Hi) as Hle. cbv beta in Hle. lia. }
  assert (Hsum : sum_by (line_size prefix) (lines_of payload) <= 7 * sum_by (fun line => Z.of_nat (length line) + 1) (lines_of payload)).
  { clear Hsize Hbound. induction (lines_of payload) as [|line lines IH]; [done|]. cbn [sum_by]. unfold line_size at 1. rewrite length_app. lia. }
  split; [|lia]. apply Forall_forall. intros line Hline%Hbound. unfold line_size. rewrite length_app. lia.
Qed.

Lemma in_bounds_fits l m : in_bounds m -> 262150 <= MaxLineBytes l -> 1835015 <= MaxEventBytes l -> fits l m.
Proof.
  intros Hb Hl He. split; [lia|]. destruct m; cbn [message_prefix message_lines].
  - apply (lines_fit _ _ _ maximumDownstreamDataBytes); [done|by vm_compute| |]; unfold maximumDownstreamDataBytes; rewrite Z2Nat.id; lia.
  - apply (lines_fit _ _ _ maximumDownstreamCommentBytes); [done|by vm_compute| |]; unfold maximumDownstreamCommentBytes; rewrite Z2Nat.id; lia.
  - split; [constructor; [|done]|]; unfold line_size; simpl; lia.
Qed.

(** ** The decoder on arbitrary bytes *)
Lemma take_line_rest n : forall l line rest, take_line n l = Some (line, rest) -> l = line ++ rest /\ line <> [].
Proof.
  induction n as [|n IH]; intros [|b l] line rest H; try done. simpl in H. case_match; [by simplify_eq|].
  destruct (take_line n l) as [[line' rest']|] eqn:E; [|done]. simplify_eq. apply IH in E as [-> _]. done.
Qed.

Lemma TrimSuffix1_length b l : (length (TrimSuffix1 b l) <= length l)%nat.
Proof.
  destruct (decide (last l = Some b)) as [(l' & ->)%last_Some|Hn].
  - rewrite TrimSuffix1_snoc, length_app. lia.
  - unfold TrimSuffix1. destruct (last l) as [x|]; [|lia]. destruct (Z.eqb_spec x b); [congruence|lia].
Qed.

Lemma ReadSlice_spec d slice err rest :
  ReadSlice d = (slice, err, rest) ->
  (length rest <= length (input d))%nat /\ ((0 < length slice)%nat -> (length rest < length (input d))%nat) /\
  (err = None -> (0 < length slice)%nat).
Proof.
  unfold ReadSlice. assert (buffer_size d > 0)%nat by (unfold buffer_size; lia). intros E.
  destruct (take_line _ _) as [[line r']|] eqn:E'.
  - simplify_eq. apply take_line_rest in E' as [-> Hne]. rewrite length_app. destruct slice; [done|]. simpl. lia.
  - destruct (Nat.leb_spec (buffer_size d) (length (input d))); simplify_eq; rewrite ?length_drop, ?length_take; simpl;
      split_and!; try done; lia.
Qed.

Lemma readLine_spec d d1 r :
  readLine d = (d1, r) ->
  limits d1 = limits d /\ first d1 = first d /\ (length (input d1) <= length (input d))%nat /\
  forall line, r = Ok line -> (length (input d1) < length (input d))%nat /\ Z.of_nat (length line) <= MaxLineBytes (limits d).
Proof.
  unfold readLine. destruct (ReadSlice d) as [[slice err] rest] eqn:E. apply ReadSlice_spec in E as (Hle & Hlt & Hnone).
  pose proof (TrimSuffix1_length LF slice). pose proof (TrimSuffix1_length CR (TrimSuffix1 LF slice)) as Htrim.
  intros Hr. assert (Hd1 : d1 = with_input d rest (first d)) by (by repeat case_match; simplify_eq).
  subst d1. split_and!; try done. intros line ->. cbn [input with_input].
  destruct err as [[|[|what]]|]; try done;
    destruct (Z.ltb_spec (MaxLineBytes (limits d)) (Z.of_nat (length (TrimSuffix1 CR (TrimSuffix1 LF slice))))); try done.
  - destruct (TrimSuffix1 CR (TrimSuffix1 LF slice)) eqn:Et; [done|]. simplify_eq. split; [|done]. apply Hlt. simpl in Htrim. lia.
  - simplify_eq. auto.
Qed.

(** A block within the event limit. *)
Definition block_ok (l : Limits) (b : block) : Prop :=
  Z.of_nat (length (b_data b)) <= MaxEventBytes l /\ b_bytes b <= MaxEventBytes l.

Lemma add_line_ok l b line b' :
  add_line l b line = Ok b' -> line <> [] -> block_ok l b -> block_ok l b' /\ b_started b' = true.
Proof.
  intros H Hne [Hd Hb]. unfold add_line in H. 
  destruct (Z.ltb_spec (MaxEventBytes l - Z.of_nat (length line)) (b_bytes b)) as [|Hsize]; [done|]. cbn [negb] in H.
  destruct line as [|c line']; [done|]. set (line := c :: line') in *. case_match; [simplify_eq; split; [split; simpl in *; lia|done]|].
  destruct (Cut COLON line) as [[field value] found]. set (v := TrimPrefix [SPACE] value) in *. cbv beta zeta in H.
  repeat case_match; simplify_eq; split; try done; split; cbn [b_data b_bytes]; try lia;
    rewrite ?length_app; repeat match goal with H : negb (_ <? _) = true |- _ => apply negb_true_iff, Z.ltb_ge in H end; simpl in *; lia.
Qed.

(** One call of the loop: it returns, it never reads backwards, a new block is only
    returned after input was consumed, and its data is within the limit. *)
Lemma next_loop_total fuel : forall d b,
  (length (input d) < fuel)%nat -> block_ok (limits d) b ->
  exists d' r, next_loop fuel d b = Some (d', r) /\ limits d' = limits d /\
    forall e, r = Ok e ->
      Z.of_nat (length (ev_Data e)) <= MaxEventBytes (limits d) /\ (length (input d') <= length (input d))%nat /\
      (b_started b = false -> (length (input d') < length (input d))%nat).
Proof.
  induction fuel as [|fuel IH]; intros d b Hf Hb; [lia|]. cbn [next_loop].
  destruct (readLine d) as [d1 r] eqn:E. apply readLine_spec in E as (Hlim & Hfirst & Hle & Hok).
  destruct r as [line|err]; cycle 1.
  { destruct err; eexists _, _; (split; [done|]); (split; [done|]); intros e He; try done. destruct (b_started b); [|done].
    simplify_eq. by destruct Hb. }
  destruct (Hok _ eq_refl) as [Hlt _]. clear Hok. set (line' := if first d1 then _ else _). clearbody line'.
  assert (Hnext : forall b', block_ok (limits d) b' -> exists d' r, next_loop fuel (with_input d1 (input d1) false) b' = Some (d', r) /\
    limits d' = limits d /\ forall e, r = Ok e ->
      Z.of_nat (length (ev_Data e)) <= MaxEventBytes (limits d) /\ (length (input d') < length (input d))%nat).
  { intros b' Hb'. destruct (IH (with_input d1 (input d1) false) b') as (d' & r & H & Hl & He); cbn [input limits with_input] in *.
    - lia.
    - by rewrite Hlim.
    - exists d', r. rewrite Hlim in *. split_and!; [done..|]. intros e ->. destruct (He e eq_refl) as (? & ? & _). split; [done|lia]. }
  destruct line' as [|c line'].
  - destruct (b_started b).
    + eexists _, _. split; [done|]. split; [done|]. intros e He. simplify_eq. destruct Hb. split_and!; [done|simpl; lia|done].
    + destruct (Hnext b Hb) as (d' & r & H & Hl & He). exists d', r. split_and!; [done..|]. intros e Hr. destruct (He e Hr).
      split_and!; [done|lia|done].
  - cbn [limits with_input]. rewrite Hlim. destruct (add_line (limits d) b (c :: line')) as [b'|e] eqn:Ea.
    + apply add_line_ok in Ea as [Hb' _]; [|done..]. destruct (Hnext b' Hb') as (d' & r & H & Hl & He). exists d', r.
      split_and!; [done..|]. intros e Hr. destruct (He e Hr). split_and!; [done|lia|done].
    + eexists _, _. split; [done|]. split; [done|]. done.
Qed.

Lemma read_all_total fuel : forall d,
  (length (input d) < fuel)%nat -> 0 <= MaxEventBytes (limits d) ->
  exists es err, read_all fuel d = Some (es, err) /\ Forall (fun e => Z.of_nat (length (ev_Data e)) <= MaxEventBytes (limits d)) es.
Proof.
  induction fuel as [|fuel IH]; intros d Hf Hmax; [lia|].
  destruct (next_loop_total (S (length (input d))) d empty_block) as (d' & r & H & Hl & He); [lia|split; simpl; lia|].
  fold (Next d) in H. destruct r as [e|err].
  - destruct (He e eq_refl) as (Hsize & _ & Hlt). specialize (Hlt eq_refl).
    destruct (IH d') as (es & err & Hr & Hes); [lia|by rewrite Hl|]. exists (e :: es), err. rewrite (read_all_event _ _ _ _ H), Hr.
    split; [done|]. constructor; [done|]. by rewrite Hl in Hes.
  - exists [], err. cbn [read_all]. rewrite H. split; [done|constructor].
Qed.

Lemma newWriter_fresh header response requestID timeout now header' w :
  newWriter header response requestID timeout now = (header', Ok w) -> terminal w = false /\ failed w = false /\ sent w = [].
Proof. unfold newWriter. intros H. repeat case_match; by simplify_eq. Qed.

Lemma NewDecoder_ok stream how l d :
  NewDecoder stream how l = Ok d ->
  d = {| input := stream; input_end := how; limits := l; first := true |} /\ 1 <= MaxLineBytes l <= MaxEventBytes l.
Proof.
  unfold NewDecoder. intros H. destruct ((1 <=? MaxLineBytes l) && _) eqn:H1; [|done]. 
  destruct ((MaxLineBytes l <=? MaxEventBytes l) && _) eqn:H2; [|done].
  apply andb_true_iff in H1 as [H1%Z.leb_le _]. apply andb_true_iff in H2 as [H2%Z.leb_le _]. by simplify_eq.
Qed.

(** ** Properties *)

(** C40: the stream the gateway sends is the stream a client reads. For every sequence
    of calls on a fresh writer, under any behaviour of the response, the bytes sent are
    the frames of the calls that returned no error, in order, followed by nothing, or,
    once a call failed, by an initial part of one frame; [DONE] is sent at most once and
    nothing follows it. A decoder whose limits the messages fit reads from those complete
    frames exactly the messages, comments apart from data, in order, then EOF; as long as
    no call failed, these frames are all the bytes sent, while the broken frame after a
    failed write is not covered. Limits of 262150 bytes for a line and 1835015 bytes for
    an event have room for every message that a writer sends. *)
Theorem sse_stream_roundtrip header response requestID timeout now header' w0 calls w delivered :
  newWriter header response requestID timeout now = (header', Ok w0) -> write_calls w0 calls = (w, delivered) ->
  (exists body, delivered = body ++ (if terminal w then [MDone] else []) /\ MDone ∉ body) /\
  (exists part, sent w = stream_of delivered ++ part /\ if failed w then exists m, part `prefix_of` encoding m else part = []) /\
  (forall l d, NewDecoder (stream_of delivered) EndEOF l = Ok d -> Forall (fits l) delivered ->
    read_all (S (length delivered)) d = Some (message_event <$> delivered, EOF)) /\
  (forall l d, failed w = false -> NewDecoder (sent w) EndEOF l = Ok d -> Forall (fits l) delivered ->
    read_all (S (length delivered)) d = Some (message_event <$> delivered, EOF)) /\
  forall l, 262150 <= MaxLineBytes l -> 1835015 <= MaxEventBytes l -> Forall (fits l) delivered.
Proof.
  intros (Ht & Hf & Hs)%newWriter_fresh Hcalls. apply write_calls_effect in Hcalls as (Hb & Hbody & Hpart); [|done..].
  assert (forall l d, NewDecoder (stream_of delivered) EndEOF l = Ok d -> Forall (fits l) delivered -> read_all (S (length delivered)) d = Some (message_event <$> delivered, EOF)) as Hread
    by (intros l d [-> Hlim]%NewDecoder_ok Hfits; apply read_stream; [done|done|simpl; lia|done]).
  rewrite Hs in Hpart. split_and!; try done.
  - intros l d Hnf. destruct Hpart as (part & -> & Hend). rewrite Hnf in Hend. subst part. rewrite app_nil_r. apply Hread.
  - intros l Hl He. apply (Forall_impl _ _ _ Hb). intros m Hm. by apply in_bounds_fits.
Qed.

Definition healthy_io : io :=
  {| io_ctx := ctx_live; io_ctx_after := ctx_live; io_now := 63000000000 * second; io_deadline := None;
     io_write := fun _ => (1%nat, None); io_flush := None; io_clear := None |}.

(** The response takes four bytes of the last frame, then the connection is lost. *)
Definition broken_io : io :=
  {| io_ctx := ctx_live; io_ctx_after := ctx_live; io_now := 63000000000 * second; io_deadline := None;
     io_write := fun n => if Nat.eqb n 0 then (4%nat, None) else (1%nat, Some Disconnected); io_flush := None; io_clear := None |}.

Definition max_limits : Limits := {| MaxLineBytes := 1048576; MaxEventBytes := 4194304 |}.

Definition sample_data : bytes := bytes_of "{}" ++ [CR; LF] ++ bytes_of "x".

Definition sample_calls : list (message * io) :=
  [(MData sample_data, healthy_io); (MData [], healthy_io); (MComment (bytes_of "hb"), healthy_io); (MDone, healthy_io);
   (MData (bytes_of "late"), healthy_io)].

Definition fresh_writer : Writer := {| writeLimit := minute; terminal := false; failed := false; sent := [] |}.

(** A wrapper that cannot set a deadline around a response that can. *)
Definition sample_response : list layer :=
  [{| can_flush := true; can_set_deadline := false |}; {| can_flush := false; can_set_deadline := true |}].

Lemma sse_stream_roundtrip_witness :
  (newWriter ∅ sample_response "req-00000001" minute (63000000000 * second)).2 = Ok fresh_writer /\
  write_calls fresh_writer sample_calls =
    ((write_calls fresh_writer sample_calls).1, [MData sample_data; MComment (bytes_of "hb"); MDone]) /\
  read_all 4 {| input := sent (write_calls fresh_writer sample_calls).1; input_end := EndEOF; limits := max_limits; first := true |} =
    Some (message_event <$> [MData sample_data; MComment (bytes_of "hb"); MDone], EOF).
Proof.
  assert (Hnew : newWriter ∅ sample_response "req-00000001" minute (63000000000 * second) =
    ((newWriter ∅ sample_response "req-00000001" minute (63000000000 * second)).1, Ok fresh_writer)) by reflexivity.
  assert (Hcalls : write_calls fresh_writer sample_calls =
    ((write_calls fresh_writer sample_calls).1, [MData sample_data; MComment (bytes_of "hb"); MDone])) by (vm_compute; reflexivity).
  split; [reflexivity|]. split; [exact Hcalls|]. destruct (sse_stream_roundtrip _ _ _ _ _ _ _ _ _ _ Hnew Hcalls) as (_ & _ & _ & H & Hfits).
  refine (H max_limits _ _ _ (Hfits max_limits _ _)); [vm_compute; reflexivity|reflexivity|vm_compute; discriminate|vm_compute; discriminate].
Defined.

Example broken_connection :
  let '(w, delivered) :=
    write_calls fresh_writer [(MData (bytes_of "a"), healthy_io); (MData (bytes_of "b"), broken_io); (MDone, healthy_io)] in
  delivered = [MData (bytes_of "a")] /\ failed w = true /\ sent w = stream_of delivered ++ bytes_of "data:" /\
  (** The decoder dispatches what it has at the end of its input, so it reads one event more. *)
  read_all 3 {| input := sent w; input_end := EndEOF; limits := max_limits; first := true |} =
    Some ([message_event (MData (bytes_of "a")); message_event (MData [])], EOF).
Proof. vm_compute. split_and!; reflexivity. Qed.

(** The decoder is total and bounded on whatever an upstream sends. For every byte
    stream, however it ends, and every accepted limits, calling [Next] until it fails
    terminates, within one call more than there are bytes; every event it returns
    carries at most [MaxEventBytes] of data. *)
Theorem sse_decoder_total stream how l d :
  NewDecoder stream how l = Ok d ->
  exists events err, read_all (S (length stream)) d = Some (events, err) /\
    Forall (fun e => Z.of_nat (length (ev_Data e)) <= MaxEventBytes l) events.
Proof.
  intros [-> Hlim]%NewDecoder_ok.
  apply (read_all_total (S (length stream)) {| input := stream; input_end := how; limits := l; first := true |}); simpl; lia.
Qed.

Lemma sse_decoder_total_witness :
  exists d events err, NewDecoder (bytes_of "data: a" ++ [LF] ++ bytes_of "nonsense" ++ [LF]) EndEOF max_limits = Ok d /\
    read_all 18 d = Some (events, err) /\ Forall (fun e => Z.of_nat (length (ev_Data e)) <= MaxEventBytes max_limits) events.
Proof.
  eexists. destruct (sse_decoder_total (bytes_of "data: a" ++ [LF] ++ bytes_of "nonsense" ++ [LF]) EndEOF max_limits _ eq_refl) as (es & err & H & Hf).
  exists es, err. split; [vm_compute; reflexivity|]. split; [exact H|exact Hf].
Defined.

Lemma control_loop_spec depth : forall response f d,
  f && d = false ->
  control_loop depth response f d =
  (f || existsb can_flush (take depth response)) && (d || existsb can_set_deadline (take depth response)).
Proof.
  induction depth as [|depth IH]; intros [|l inner] f d Hfd; simpl; try by rewrite !orb_false_r.
  rewrite !orb_assoc. destruct ((f || can_flush l) && (d || can_set_deadline l)) eqn:E; [|by apply IH].
  apply andb_true_iff in E as [-> ->]. done.
Qed.

(** A stream starts only on a response that can be flushed and timed out.
    [newWriter] accepts exactly a well-formed request id, a write timeout of at most a
    minute, a running clock and a response in whose first 32 layers flushing and write
    deadlines are found; an accepted response has the event-stream headers and no
    Content-Length, a refused one has its headers untouched. *)
Theorem newWriter_accepts_exactly header response requestID timeout now :
  let '(header', r) := newWriter header response requestID timeout now in
  (is_ok r = true <->
    requestIDPattern requestID = true /\ 0 < timeout <= minute /\ time_is_zero now = false /\
    existsb can_flush (take 32 response) = true /\ existsb can_set_deadline (take 32 response) = true) /\
  (is_ok r = false -> header' = header) /\
  (is_ok r = true -> header' !! "Content-Type" = Some "text/event-stream; charset=utf-8" /\ header' !! "X-Request-Id" = Some requestID /\
    header' !! "Cache-Control" = Some "no-cache, no-store" /\ header' !! "Content-Length" = None).
Proof.
  unfold newWriter, supportsResponseControl. rewrite control_loop_spec by done. cbn [orb].
  destruct (requestIDPattern requestID); cbn [negb]; [|split; [naive_solver|done]].
  destruct (Z.leb_spec timeout 0), (Z.ltb_spec minute timeout); cbn [orb]; try (split; [split; [done|lia]|done]).
  destruct (time_is_zero now); [split; [naive_solver|done]|].
  destruct (existsb can_flush _), (existsb can_set_deadline _); cbn [andb negb]; try (split; [naive_solver|done]).
  split; [naive_solver lia|]. split; [done|]. intros _. by simplify_map_eq.
Qed.
