(* ===== verification/OpenAIStream.v ===== *)
(** * The chunk stream of a provider adapter (src/internal/openaiadapter/stream.go)

    A stream reads server-sent events, turns each into normalized chunks and hands them out
    one by one. Chunks wait in a queue; the finish reason and the usage of a message are held
    back until both are known or the provider says [[DONE]]. The state lives on after an
    error. What an event means is the argument [parseDataEvent]; contexts are the arguments
    of a call: [before] is the context at its start, [during] whether it ends while the n-th
    event of the call is read.

    Then: streamed answers of OpenAI (src/internal/openaiadapter/stream.go). *)
From Stdlib Require Import ZArith Lia Bool Ascii String SpecFloat.
From stdpp Require Import base tactics option list strings gmap fin_maps.
From S2P Require Import Prelude Identifiers Unicode Encoding JSON JSONDecode Catalog Retry Metering MeteringCost Adapter OpenAIAdapter SSE.
Definition maximumSSELineBytes : Z := 65536.
Definition maximumSSEEventBytes : Z := 262144.
Definition stream_limits : Limits := {| MaxLineBytes := maximumSSELineBytes; MaxEventBytes := maximumSSEEventBytes |}.

Record sseEvent := { se_eventType : string; se_data : list Z; se_heartbeat : bool }.
Record pendingFinish := { pf_choiceIndex : Z; pf_reason : FinishReason; pf_providerReason : string }.

(** [cs_readings] counts the readings of the clock. *)
Record chunkStream := {
  cs_decoder : Decoder; cs_closed : bool; cs_queue : list NormalizedChunk; cs_nextSequence : Z; cs_pendingFinish : option pendingFinish;
  cs_pendingUsage : option NormalizedUsage; cs_terminalEmitted : bool; cs_sawDone : bool; cs_readings : nat }.

Inductive chunk_stream_error := StreamEOF | StreamClosed | StreamCancelled | StreamFailed (e : openai_error) | StreamRead (what : string).

(** ** Steps: the state is kept when a step fails. *)
Definition step (A : Type) : Type := chunkStream -> chunkStream * result A chunk_stream_error.
Definition ret {A : Type} (a : A) : step A := fun s => (s, Ok a).
Definition fail {A : Type} (e : openai_error) : step A := fun s => (s, Err (StreamFailed e)).
Definition andThen {A B : Type} (m : step A) (k : A -> step B) : step B :=
  fun s => match m s with (s, Ok a) => k a s | (s, Err e) => (s, Err e) end.
Definition lift_result {A : Type} (r : result A openai_error) : step A := match r with Ok a => ret a | Err e => fail e end.
Definition get {A : Type} (f : chunkStream -> A) : step A := fun s => (s, Ok (f s)).
Notation "'do' x <- m ; k" := (andThen m (fun x => k)) (at level 200, x pattern, m at level 100, k at level 200).
Notation "'check' b 'otherwise' e ; k" := (if b then k else fail e) (at level 200, b at level 100, e at level 100, k at level 200).

Definition set_queue (s : chunkStream) (queue : list NormalizedChunk) (next : Z) (readings : nat) : chunkStream :=
  {| cs_decoder := cs_decoder s; cs_closed := cs_closed s; cs_queue := queue; cs_nextSequence := next; cs_pendingFinish := cs_pendingFinish s;
     cs_pendingUsage := cs_pendingUsage s; cs_terminalEmitted := cs_terminalEmitted s; cs_sawDone := cs_sawDone s; cs_readings := readings |}.
Definition set_pending (s : chunkStream) (finish : option pendingFinish) (usage : option NormalizedUsage) (emitted : bool) : chunkStream :=
  {| cs_decoder := cs_decoder s; cs_closed := cs_closed s; cs_queue := cs_queue s; cs_nextSequence := cs_nextSequence s; cs_pendingFinish := finish;
     cs_pendingUsage := usage; cs_terminalEmitted := emitted; cs_sawDone := cs_sawDone s; cs_readings := cs_readings s |}.
Definition set_reading (s : chunkStream) (d : Decoder) (closed sawDone : bool) : chunkStream :=
  {| cs_decoder := d; cs_closed := closed; cs_queue := cs_queue s; cs_nextSequence := cs_nextSequence s; cs_pendingFinish := cs_pendingFinish s;
     cs_pendingUsage := cs_pendingUsage s; cs_terminalEmitted := cs_terminalEmitted s; cs_sawDone := sawDone; cs_readings := cs_readings s |}.

(** ** Chunks before they are numbered *)
Definition draft_chunk (kind : ChunkKind) (index : Z) (role : MessageRole) (content reasoning : string) (tool : option ToolCallDelta) (eventType : string)
    (extension : RawMessage) : NormalizedChunk :=
  {| ch_Sequence := 0; ch_Kind := kind; ch_ChoiceIndex := index; ch_Role := role; ch_ContentDelta := content; ch_ReasoningDelta := reasoning;
     ch_ToolDelta := tool; ch_FinishReason := FinishOther ""; ch_ProviderFinishReason := ""; ch_Usage := None; ch_UsageStatus := UsageStatusOther "";
     ch_ProviderEventType := eventType; ch_ProviderExtension := extension; ch_ObservedAt := 0 |}.
Definition no_role : MessageRole := RoleOther "".

Definition sequenced_chunk (chunk : NormalizedChunk) (sequence : Z) (observedAt : Time) : NormalizedChunk :=
  {| ch_Sequence := sequence; ch_Kind := ch_Kind chunk; ch_ChoiceIndex := ch_ChoiceIndex chunk; ch_Role := ch_Role chunk;
     ch_ContentDelta := ch_ContentDelta chunk; ch_ReasoningDelta := ch_ReasoningDelta chunk; ch_ToolDelta := ch_ToolDelta chunk;
     ch_FinishReason := ch_FinishReason chunk; ch_ProviderFinishReason := ch_ProviderFinishReason chunk; ch_Usage := ch_Usage chunk;
     ch_UsageStatus := ch_UsageStatus chunk; ch_ProviderEventType := ch_ProviderEventType chunk; ch_ProviderExtension := ch_ProviderExtension chunk;
     ch_ObservedAt := observedAt |}.

Section Machine.
Context (now : nat -> Time).

Definition stream_enqueue (chunk : NormalizedChunk) : step unit := fun s =>
  let chunk := sequenced_chunk chunk (cs_nextSequence s) (now (cs_readings s)) in
  if NormalizedChunk_Validate chunk
  then (set_queue s (cs_queue s ++ [chunk]) (u64_add (cs_nextSequence s) 1) (S (cs_readings s)), Ok tt)
  else (set_queue s (cs_queue s) (cs_nextSequence s) (S (cs_readings s)), Err (StreamFailed (protocolError "normalize_stream" "invalid_normalized_chunk"))).

(** [None]: the empty queue, where the code would panic. *)
Definition stream_dequeue (s : chunkStream) : option (chunkStream * NormalizedChunk) :=
  match cs_queue s with chunk :: queue => Some (set_queue s queue (cs_nextSequence s) (cs_readings s), chunk) | [] => None end.

Definition usage_status (usage : option NormalizedUsage) : UsageStatus :=
  match usage with Some u => if u_Complete u then UsageStatusPresent else UsageStatusPartial | None => UsageStatusMissing end.

Definition terminal_chunk (finish : pendingFinish) (usage : option NormalizedUsage) : NormalizedChunk :=
  {| ch_Sequence := 0; ch_Kind := ChunkMessageEnd; ch_ChoiceIndex := pf_choiceIndex finish; ch_Role := no_role; ch_ContentDelta := ""; ch_ReasoningDelta := "";
     ch_ToolDelta := None; ch_FinishReason := pf_reason finish; ch_ProviderFinishReason := pf_providerReason finish; ch_Usage := usage;
     ch_UsageStatus := usage_status usage; ch_ProviderEventType := "message"; ch_ProviderExtension := []; ch_ObservedAt := 0 |}.

(** [finish] is the pending finish, which both callers have found to be set. *)
Definition enqueueTerminal (finish : pendingFinish) : step unit :=
  do usage <- get cs_pendingUsage;
  do _ <- stream_enqueue (terminal_chunk finish usage);
  fun s => (set_pending s None None true, Ok tt).

(** ** Reading *)
Definition Stream_Close (s : chunkStream) : chunkStream := set_reading s (cs_decoder s) true (cs_sawDone s).

(** [readEvent]; [during]: the context ends during the read, which closes the body. An
    event that is complete by then is still delivered. *)
Definition readEvent (during : bool) (s : chunkStream) : option (chunkStream * result sseEvent chunk_stream_error) :=
  '(d, r) ← Next (cs_decoder s);
  let s := set_reading s d (cs_closed s || during) (cs_sawDone s) in
  Some (s, match r with
           | Ok event => Ok {| se_eventType := string_of (ev_Type event); se_data := ev_Data event; se_heartbeat := ev_Comment event |}
           | Err ErrLineTooLarge => Err (StreamFailed (ProtocolError "read_stream" "line_too_large" true))
           | Err ErrEventTooLarge => Err (StreamFailed (ProtocolError "read_stream" "event_too_large" true))
           | Err ErrUnknownField => Err (StreamFailed (protocolError "read_stream" "unknown_sse_field"))
           | Err (ErrInvalidField _) => Err (StreamFailed (protocolError "read_stream" "invalid_sse_field"))
           | Err EOF => Err StreamEOF
           | Err (ErrRead what) => Err (StreamRead what)
           | Err ErrConfig => Err (StreamRead "config")
           end).

Definition is_done (event : sseEvent) : bool := bool_decide (trim_bytes (se_data event) = bytes_of "[DONE]").

Definition stream_deliver (s : chunkStream) : option (chunkStream * result NormalizedChunk chunk_stream_error) :=
  '(s, chunk) ← stream_dequeue s; Some (s, Ok chunk).

Definition after_step (r : chunkStream * result unit chunk_stream_error) : option (chunkStream * result NormalizedChunk chunk_stream_error) :=
  match r with (s, Ok _) => stream_deliver s | (s, Err e) => Some (s, Err e) end.

Definition heartbeat_chunk : NormalizedChunk := draft_chunk ChunkHeartbeat 0 no_role "" "" None "comment" [].

Context (parseDataEvent : sseEvent -> step unit).

Definition done_event (s : chunkStream) : option (chunkStream * result NormalizedChunk chunk_stream_error) :=
  let s := set_reading s (cs_decoder s) (cs_closed s) true in
  if cs_terminalEmitted s then Some (s, Err StreamEOF)
  else match cs_pendingFinish s with
       | None => Some (s, Err (StreamFailed (protocolError "read_stream" "done_without_finish")))
       | Some finish => after_step (enqueueTerminal finish s)
       end.

(** The loop of [Next]; [None]: out of fuel, or a chunk taken from the empty queue. *)
Fixpoint next_chunk (fuel : nat) (during : nat -> bool) (n : nat) (s : chunkStream) : option (chunkStream * result NormalizedChunk chunk_stream_error) :=
  match fuel with
  | O => None
  | S fuel =>
      '(s, r) ← readEvent (during n) s;
      match r with
      | Err e => Some (s, Err (if during n then StreamCancelled else match e with StreamEOF => StreamFailed (protocolError "read_stream" "unexpected_eof") | e => e end))
      | Ok event =>
          if se_heartbeat event then after_step (stream_enqueue heartbeat_chunk s)
          else if is_done event then done_event s
          else match parseDataEvent event s with
               | (s, Err e) => Some (s, Err e)
               | (s, Ok _) => match cs_queue s with [] => next_chunk fuel during (S n) s | _ :: _ => stream_deliver s end
               end
      end
  end.

(** Every event takes a byte of the input, so its length bounds the turns of the loop. *)
Definition Stream_Next (before : bool) (during : nat -> bool) (s : chunkStream) : option (chunkStream * result NormalizedChunk chunk_stream_error) :=
  if before then Some (Stream_Close s, Err StreamCancelled)
  else match cs_queue s with
       | _ :: _ => stream_deliver s
       | [] =>
           if cs_sawDone s then Some (s, Err StreamEOF)
           else if cs_closed s then Some (s, Err StreamClosed)
           else next_chunk (S (length (input (cs_decoder s)))) during 0 s
       end.
End Machine.

(** ** Streamed answers of OpenAI (src/internal/openaiadapter/stream.go)

    What a data event of the Chat Completions protocol means for the chunk stream. *)
(** ** Structs *)
Record streamToolFunction := { sf_Name : string; sf_Arguments : string }.
Definition function_names : list string := ["name"; "arguments"]%string.
Definition decode_streamToolFunction (raw : RawMessage) : option streamToolFunction :=
  members ← struct_members raw;
  name ← string_field function_names members "name";
  arguments ← string_field function_names members "arguments";
  Some {| sf_Name := name; sf_Arguments := arguments |}.

Record streamToolCall := { st_Index : Z; st_ID : string; st_Type : string; st_Function : RawMessage }.
Definition call_names : list string := ["index"; "id"; "type"; "function"]%string.
Definition decode_streamToolCall (raw : RawMessage) : option streamToolCall :=
  members ← struct_members raw;
  index ← int_field call_names members "index";
  id ← string_field call_names members "id";
  type ← string_field call_names members "type";
  Some {| st_Index := index; st_ID := id; st_Type := type; st_Function := raw_message_field call_names members "function" |}.

Record streamDelta := {
  sd_Role : string; sd_Content : string; sd_Refusal : RawMessage; sd_FunctionCall : RawMessage; sd_ToolCalls : list RawMessage }.
Definition delta_names : list string := ["role"; "content"; "refusal"; "function_call"; "tool_calls"]%string.
Definition decode_streamDelta (raw : RawMessage) : option streamDelta :=
  members ← struct_members raw;
  role ← string_field delta_names members "role";
  content ← string_field delta_names members "content";
  calls ← raws_field delta_names members "tool_calls";
  Some {| sd_Role := role; sd_Content := content; sd_Refusal := raw_message_field delta_names members "refusal";
          sd_FunctionCall := raw_message_field delta_names members "function_call"; sd_ToolCalls := calls |}.

Record streamChoice := { sc_Index : Z; sc_Delta : RawMessage; sc_FinishReason : option string; sc_Logprobs : RawMessage }.
Definition stream_choice_names : list string := ["index"; "delta"; "finish_reason"; "logprobs"]%string.
Definition decode_streamChoice (raw : RawMessage) : option streamChoice :=
  members ← struct_members raw;
  index ← int_field stream_choice_names members "index";
  reason ← string_pointer_field stream_choice_names members "finish_reason";
  Some {| sc_Index := index; sc_Delta := raw_message_field stream_choice_names members "delta"; sc_FinishReason := reason;
          sc_Logprobs := raw_message_field stream_choice_names members "logprobs" |}.

Record streamEnvelope := {
  sv_ID : string; sv_Object : string; sv_Created : Z; sv_Model : string; sv_Choices : list RawMessage; sv_Usage : RawMessage;
  sv_SystemFingerprint : string; sv_ServiceTier : string; sv_Moderation : RawMessage; sv_Obfuscation : string }.
Definition stream_names : list string :=
  ["id"; "object"; "created"; "model"; "choices"; "usage"; "system_fingerprint"; "service_tier"; "moderation"; "obfuscation"]%string.
Definition decode_streamEnvelope (raw : RawMessage) : option streamEnvelope :=
  members ← struct_members raw;
  id ← string_field stream_names members "id";
  object ← string_field stream_names members "object";
  created ← int_field stream_names members "created";
  model ← string_field stream_names members "model";
  choices ← raws_field stream_names members "choices";
  fingerprint ← string_field stream_names members "system_fingerprint";
  tier ← string_field stream_names members "service_tier";
  obfuscation ← string_field stream_names members "obfuscation";
  Some {| sv_ID := id; sv_Object := object; sv_Created := created; sv_Model := model; sv_Choices := choices;
          sv_Usage := raw_message_field stream_names members "usage"; sv_SystemFingerprint := fingerprint; sv_ServiceTier := tier;
          sv_Moderation := raw_message_field stream_names members "moderation"; sv_Obfuscation := obfuscation |}.

(** ** Unknown fields *)
Definition unknown_call (raw : RawMessage) : bool :=
  negb (onlyObjectFields raw call_names) ||
  match decode_streamToolCall raw with
  | None => true
  | Some call => negb (Nat.eqb (length (st_Function call)) 0) && negb (onlyObjectFields (st_Function call) function_names)
  end.
Definition unknown_choice (raw : RawMessage) : bool :=
  negb (onlyObjectFields raw stream_choice_names) ||
  match decode_streamChoice raw with
  | None => true
  | Some choice =>
      negb (onlyObjectFields (sc_Delta choice) delta_names) ||
      match decode_streamDelta (sc_Delta choice) with None => true | Some delta => existsb unknown_call (sd_ToolCalls delta) end
  end.
Definition hasUnknownStreamFields (event : list Z) (choices : list RawMessage) : bool :=
  negb (onlyObjectFields event stream_names) || existsb unknown_choice choices.

Definition parseStreamToolCall (raw : RawMessage) : result ToolCallDelta openai_error :=
  match decode_streamToolCall raw with
  | None => Err (protocolError "parse_stream" "invalid_stream_tool_call")
  | Some call =>
      ensure is_empty (st_Type call) || String.eqb (st_Type call) "function" else protocolError "parse_stream" "invalid_stream_tool_type" in
      match (if Nat.eqb (length (st_Function call)) 0 then Some {| sf_Name := ""; sf_Arguments := "" |} else decode_streamToolFunction (st_Function call)) with
      | None => Err (protocolError "parse_stream" "invalid_stream_tool_function")
      | Some function =>
          Ok {| td_Index := st_Index call; td_ID := st_ID call; td_Name := sf_Name function; td_ArgumentsFragment := sf_Arguments function |}
      end
  end.

Section Events.
Context (now : nat -> Time) (range : gmap string (list Z) -> list (string * list Z)).

Fixpoint enqueue_tools (index : Z) (eventType : string) (raws : list RawMessage) : step unit :=
  match raws with
  | [] => ret tt
  | raw :: raws =>
      do delta <- lift_result (parseStreamToolCall raw);
      do _ <- stream_enqueue now (draft_chunk ChunkToolDelta index no_role "" "" (Some delta) eventType []);
      enqueue_tools index eventType raws
  end.

Definition enqueue_if (b : bool) (chunk : NormalizedChunk) : step unit := if b then stream_enqueue now chunk else ret tt.

Definition parseStreamChoice (raw : RawMessage) (eventType : string) : step (option pendingFinish) :=
  match decode_streamChoice raw with
  | None => fail (protocolError "parse_stream" "invalid_stream_choice")
  | Some choice =>
      check negb (hasValue (sc_Logprobs choice)) otherwise (protocolError "parse_stream" "logprobs_unsupported");
      match decode_streamDelta (sc_Delta choice) with
      | None => fail (protocolError "parse_stream" "invalid_stream_delta")
      | Some delta =>
          check negb (hasValue (sd_Refusal delta) || hasValue (sd_FunctionCall delta)) otherwise (protocolError "parse_stream" "unsupported_stream_payload");
          check is_empty (sd_Role delta) || String.eqb (sd_Role delta) "assistant" otherwise (protocolError "parse_stream" "unexpected_stream_role");
          do _ <- enqueue_if (negb (is_empty (sd_Role delta))) (draft_chunk ChunkMessageStart (sc_Index choice) RoleAssistant "" "" None eventType []);
          do _ <- enqueue_if (negb (is_empty (sd_Content delta))) (draft_chunk ChunkContentDelta (sc_Index choice) no_role (sd_Content delta) "" None eventType []);
          do _ <- enqueue_tools (sc_Index choice) eventType (sd_ToolCalls delta);
          ret ((fun reason => let '(r, p) := normalizeFinishReason reason in {| pf_choiceIndex := sc_Index choice; pf_reason := r; pf_providerReason := p |})
                 <$> sc_FinishReason choice)
      end
  end.

Definition hold_finish (finish : option pendingFinish) : step unit := fun s =>
  match finish with
  | None => (s, Ok tt)
  | Some _ =>
      match cs_pendingFinish s with
      | Some _ => (s, Err (StreamFailed (protocolError "parse_stream" "duplicate_finish")))
      | None => (set_pending s finish (cs_pendingUsage s) (cs_terminalEmitted s), Ok tt)
      end
  end.

Fixpoint parse_choices (eventType : string) (raws : list RawMessage) : step unit :=
  match raws with
  | [] => ret tt
  | raw :: raws =>
      do finish <- parseStreamChoice raw eventType;
      do _ <- hold_finish finish;
      parse_choices eventType raws
  end.

Definition hold_usage (raw : RawMessage) : step unit := fun s =>
  if negb (hasNonNullValue raw) then (s, Ok tt)
  else match cs_pendingUsage s with
       | Some _ => (s, Err (StreamFailed (protocolError "parse_stream" "duplicate_usage")))
       | None =>
           match parseUsage range raw true with
           | Ok usage => (set_pending s (cs_pendingFinish s) (Some usage) (cs_terminalEmitted s), Ok tt)
           | Err e => (s, Err (StreamFailed e))
           end
       end.

Definition finish_if_complete : step unit := fun s =>
  match cs_pendingFinish s, cs_pendingUsage s with
  | Some finish, Some _ => if cs_terminalEmitted s then (s, Ok tt) else enqueueTerminal now finish s
  | _, _ => (s, Ok tt)
  end.

Definition extension_chunk (data : list Z) : NormalizedChunk := draft_chunk ChunkProviderExtension 0 no_role "" "" None "provider.unknown_fields" data.

Definition parseDataEvent (event : sseEvent) : step unit :=
  check negb (Nat.eqb (length (se_data event)) 0) otherwise (protocolError "parse_stream" "empty_data_event");
  do emitted <- get cs_terminalEmitted;
  check negb emitted otherwise (protocolError "parse_stream" "event_after_terminal");
  match decode_streamEnvelope (se_data event) with
  | None => fail (protocolError "parse_stream" "invalid_chunk_json")
  | Some envelope =>
      check String.eqb (sv_Object envelope) "chat.completion.chunk" && negb (is_empty (sv_Model envelope))
        otherwise (protocolError "parse_stream" "unexpected_chunk_identity");
      check negb (hasValue (sv_Moderation envelope)) otherwise (protocolError "parse_stream" "moderation_chunk_unsupported");
      check Nat.leb (length (sv_Choices envelope)) 1 otherwise (protocolError "parse_stream" "multiple_choices_unsupported");
      let unknown := hasUnknownStreamFields (se_data event) (sv_Choices envelope) in
      do _ <- parse_choices (se_eventType event) (sv_Choices envelope);
      do _ <- hold_usage (sv_Usage envelope);
      do _ <- enqueue_if unknown (extension_chunk (se_data event));
      finish_if_complete
  end.

Definition openai_Next : bool -> (nat -> bool) -> chunkStream -> option (chunkStream * result NormalizedChunk chunk_stream_error) := Stream_Next now parseDataEvent.
End Events.

(** ** Opening a stream *)
Definition OpenStream (ParseMediaType : string -> option string) (ParseTime : string -> option Time) (cancelled late : bool) (response : option HTTPResponse)
    (now : Time) : result chunkStream openai_error :=
  if cancelled then Err CallCancelled
  else match response with
       | None => Err (protocolError "open_stream" "missing_response")
       | Some r =>
           if negb (hs_StatusCode r =? 200) then
             let? _ := readBoundedBody r maximumErrorBodyBytes in
             Err (ProviderRejected (NormalizeError ParseTime late (Some r) now))
           else if negb (requireMediaType ParseMediaType (hs_ContentType r) "text/event-stream") then Err (protocolError "open_stream" "invalid_content_type")
           else match NewDecoder (hs_Body r) (if hs_Broken r then EndError "connection" else EndEOF) stream_limits with
                | Err _ => Err (protocolError "open_stream" "invalid_sse_limits")
                | Ok decoder =>
                    Ok {| cs_decoder := decoder; cs_closed := false; cs_queue := []; cs_nextSequence := 0; cs_pendingFinish := None; cs_pendingUsage := None;
                          cs_terminalEmitted := false; cs_sawDone := false; cs_readings := 0 |}
                end
       end.

(** ** A stream on concrete bytes *)
Definition sse_lines (lines : list string) : list Z := concat ((fun l => bytes_of "data: " ++ json_text l ++ [10; 10]) <$> lines).
Definition demo_stream_body : list Z := sse_lines
  ["{'object':'chat.completion.chunk','model':'m','choices':[{'index':0,'delta':{'role':'assistant','content':'Hel'},'finish_reason':null}]}";
   "{'object':'chat.completion.chunk','model':'m','choices':[{'index':0,'delta':{'content':'lo'},'finish_reason':'stop'}]}";
   "{'object':'chat.completion.chunk','model':'m','choices':[],'usage':{'prompt_tokens':3,'completion_tokens':2,'total_tokens':5,'new':1}}"; "[DONE]"]%string.
Definition demo_stream_response : HTTPResponse :=
  {| hs_StatusCode := 200; hs_ContentType := "text/event-stream"; hs_RequestID := ""; hs_RetryAfter := ""; hs_Body := demo_stream_body; hs_Broken := false |}.

Fixpoint drain (now : nat -> Time) (n : nat) (s : chunkStream) : list NormalizedChunk * option chunk_stream_error :=
  match n with
  | O => ([], None)
  | S n =>
      match openai_Next now map_to_list false (fun _ => false) s with
      | Some (s, Ok chunk) => let '(chunks, e) := drain now n s in (chunk :: chunks, e)
      | Some (_, Err e) => ([], Some e)
      | None => ([], None)
      end
  end.

Example demo_stream :
  match OpenStream Some (fun _ => None) false false (Some demo_stream_response) 1 with
  | Ok s => let '(chunks, e) := drain (fun n => 1 + Z.of_nat n) 10 s in
            (ch_Kind <$> chunks, ch_Sequence <$> chunks, String.concat "" (ch_ContentDelta <$> chunks), (fun u => u_UnmappedFields u) <$> omap ch_Usage chunks, e)
            = ([ChunkMessageStart; ChunkContentDelta; ChunkContentDelta; ChunkMessageEnd], [0; 1; 2; 3], "Hello"%string, [["/new"%string]], Some StreamEOF)
  | Err _ => False
  end.
Proof. vm_compute. reflexivity. Qed.
