(* ===== verification/OpenAIStreamTheorems.v ===== *)
(** * Streamed answers are orderly

    Over any sequence of calls on any bytes, the chunks of a stream are valid and numbered
    without gaps, at most one of them ends the message, and only heartbeats follow it. When
    the stream ends without an error, the end was delivered, and text, usage and finish
    reason are those of the events. *)
From Stdlib Require Import ZArith Lia Bool Ascii String SpecFloat.
From stdpp Require Import base tactics option list strings gmap fin_maps.
From S2P Require Import Prelude Identifiers Unicode Encoding JSON JSONDecode Catalog Retry Metering MeteringCost Adapter OpenAIAdapter SSE OpenAIStream.
(** ** Numbering *)
Inductive numbers : Z -> list NormalizedChunk -> Z -> Prop :=
| numbers_nil n : numbers n [] n
| numbers_cons n c cs n' : ch_Sequence c = n -> numbers (u64_add n 1) cs n' -> numbers n (c :: cs) n'.

Lemma numbers_app n cs n' cs' n'' : numbers n cs n' -> numbers n' cs' n'' -> numbers n (cs ++ cs') n''.
Proof. induction 1; [done|]. intros H'. constructor; [done|]. by apply IHnumbers. Qed.

Lemma numbers_lookup n cs n' i c : numbers n cs n' -> cs !! i = Some c -> in_u64 n -> ch_Sequence c = u64 (n + Z.of_nat i).
Proof.
  intros H. revert i. induction H as [|n d cs n' Hd _ IH]; intros [|i] Hi Hn; try done; cbn in Hi.
  - injection Hi as ->. rewrite Hd, Z.add_0_r. by rewrite u64_small.
  - rewrite (IH i Hi); [|apply u64_range]. unfold u64_add, u64. rewrite Zplus_mod_idemp_l. f_equal. lia.
Qed.

(** ** What a step adds to the queue *)
Notation pend s := (cs_pendingFinish s, cs_pendingUsage s, cs_terminalEmitted s).

Record extends (s s' : chunkStream) (new : list NormalizedChunk) : Prop := {
  ex_decoder : cs_decoder s' = cs_decoder s;
  ex_closed : cs_closed s' = cs_closed s;
  ex_done : cs_sawDone s' = cs_sawDone s;
  ex_queue : cs_queue s' = cs_queue s ++ new;
  ex_numbers : numbers (cs_nextSequence s) new (cs_nextSequence s');
  ex_valid : Forall (fun c => NormalizedChunk_Validate c = true) new }.

Lemma extends_refl s : extends s s [].
Proof. split; try done; [by rewrite app_nil_r|constructor]. Qed.

Lemma extends_trans s1 s2 s3 new1 new2 : extends s1 s2 new1 -> extends s2 s3 new2 -> extends s1 s3 (new1 ++ new2).
Proof.
  intros [] []. split; try congruence; [rewrite ex_queue1, ex_queue0; by rewrite <- app_assoc|by eapply numbers_app|by apply Forall_app].
Qed.

Lemma extends_pending s f u e : extends s (set_pending s f u e) [].
Proof. split; try done; [by rewrite app_nil_r|constructor]. Qed.

Definition is_end (c : NormalizedChunk) : bool := match ch_Kind c with ChunkMessageEnd => true | _ => false end.
Definition text_of (cs : list NormalizedChunk) : string := String.concat "" (ch_ContentDelta <$> cs).

Lemma enqueue_spec now chunk s : let '(s', r) := stream_enqueue now chunk s in
  pend s' = pend s /\
  match r with
  | Ok _ => extends s s' [sequenced_chunk chunk (cs_nextSequence s) (now (cs_readings s))]
  | Err _ => extends s s' []
  end.
Proof.
  unfold stream_enqueue. destruct (NormalizedChunk_Validate _) eqn:E; (split; [done|]).
  - split; try done; [by repeat constructor|by constructor].
  - split; try done; [by rewrite app_nil_r|constructor].
Qed.

(** ** Texts *)
Lemma concat_app l1 : forall l2, String.concat "" (l1 ++ l2) = (String.concat "" l1 ++ String.concat "" l2)%string.
Proof.
  assert (forall x l, String.concat "" (x :: l) = (x ++ String.concat "" l)%string) as Hcons.
  { intros x [|y l]; [|done]. change (x = (x ++ "")%string). induction x as [|a x IH]; [done|]. change (String a x = String a (x ++ "")). by f_equal. }
  induction l1 as [|x l1 IH]; intros l2; [done|]. cbn [app]. rewrite !Hcons, IH. clear. generalize (String.concat "" l1), (String.concat "" l2). intros u v.
  induction x as [|a x IH]; [done|]. change (String a (x ++ (u ++ v)) = String a ((x ++ u) ++ v)). by f_equal.
Qed.

Lemma string_app_nil x : (x ++ "")%string = x.
Proof. induction x as [|a x IH]; [done|]. change (String a (x ++ "") = String a x). by f_equal. Qed.

Lemma text_app cs1 cs2 : text_of (cs1 ++ cs2) = (text_of cs1 ++ text_of cs2)%string.
Proof. unfold text_of. rewrite fmap_app. apply concat_app. Qed.

(** ** Steps: whatever the result, a step only adds chunks that do not end the message *)
Notation open_chunks cs := (Forall (fun c => is_end c = false) cs).

(** The pending facts after a step: nothing that was held is replaced, nothing is ended. *)
Definition keeps (p p' : option pendingFinish * option NormalizedUsage * bool) : Prop :=
  (p.1.1 = p'.1.1 \/ p.1.1 = None) /\ (p.1.2 = p'.1.2 \/ p.1.2 = None) /\ p.2 = p'.2.

Lemma keeps_refl p : keeps p p.
Proof. split_and!; auto. Qed.
Lemma keeps_trans p q r : keeps p q -> keeps q r -> keeps p r.
Proof. intros ([H1|H1] & [H2|H2] & H3) ([H4|H4] & [H5|H5] & H6); split_and!; try congruence; (left; congruence) || (right; congruence) || auto. Qed.

Definition adds {A : Type} (m : step A) (Q : A -> list NormalizedChunk -> chunkStream -> chunkStream -> Prop) : Prop :=
  forall s, exists new, let '(s', r) := m s in
    extends s s' new /\ open_chunks new /\ keeps (pend s) (pend s') /\ match r with Ok a => Q a new s s' | Err e => e <> StreamEOF end.

Lemma adds_ret {A : Type} (a : A) : adds (ret a) (fun a' new s s' => a' = a /\ new = [] /\ s' = s).
Proof. intros s. exists []. cbn. split_and!; try done; [apply extends_refl|apply keeps_refl]. Qed.

Lemma adds_fail {A : Type} e (Q : A -> list NormalizedChunk -> chunkStream -> chunkStream -> Prop) : adds (fail e) Q.
Proof. intros s. exists []. cbn. split_and!; try done; [apply extends_refl|apply keeps_refl]. Qed.

Lemma adds_bind {A B : Type} (m : step A) (k : A -> step B) Q R (Q' : B -> list NormalizedChunk -> chunkStream -> chunkStream -> Prop) :
  adds m Q -> (forall a, adds (k a) (R a)) -> (forall a b new new' s s' s'', Q a new s s' -> R a b new' s' s'' -> Q' b (new ++ new') s s'') ->
  adds (andThen m k) Q'.
Proof.
  intros Hm Hk HQ s. unfold andThen. destruct (Hm s) as [new H]. destruct (m s) as [s' [a|e]]; [|by exists new].
  destruct H as (He & Ho & Hp & Hq). destruct (Hk a s') as [new' H]. destruct (k a s') as [s'' r]. destruct H as (He' & Ho' & Hp' & Hr).
  exists (new ++ new'). split_and!; [by eapply extends_trans|by apply Forall_app|by eapply keeps_trans|]. destruct r; [by eapply HQ|done].
Qed.

Lemma adds_weaken {A : Type} (m : step A) Q (Q' : A -> list NormalizedChunk -> chunkStream -> chunkStream -> Prop) :
  adds m Q -> (forall a new s s', Q a new s s' -> Q' a new s s') -> adds m Q'.
Proof. intros Hm HQ s. destruct (Hm s) as [new H]. exists new. destruct (m s) as [s' [a|e]]; destruct H as (?&?&?&?); split_and!; auto. Qed.

Lemma adds_enqueue now chunk : is_end chunk = false ->
  adds (stream_enqueue now chunk) (fun _ new s s' => text_of new = ch_ContentDelta chunk /\ pend s' = pend s).
Proof.
  intros Hk s. pose proof (enqueue_spec now chunk s) as H. unfold stream_enqueue in *. destruct (NormalizedChunk_Validate _) eqn:E; destruct H as [Hp He].
  - eexists. split_and!; [exact He|by repeat constructor|rewrite Hp; apply keeps_refl|done|done].
  - exists []. split_and!; [exact He|done|rewrite Hp; apply keeps_refl|done].
Qed.

(** ** What events say *)
Definition choice_text (raw : RawMessage) : string :=
  match decode_streamChoice raw with
  | Some choice => match decode_streamDelta (sc_Delta choice) with Some delta => sd_Content delta | None => ""%string end
  | None => ""%string
  end.
Definition choice_finish (raw : RawMessage) : option pendingFinish :=
  match decode_streamChoice raw with
  | Some choice =>
      (fun reason => {| pf_choiceIndex := sc_Index choice; pf_reason := (normalizeFinishReason reason).1; pf_providerReason := reason |}) <$> sc_FinishReason choice
  | None => None
  end.
Definition is_data (event : sseEvent) : bool := negb (se_heartbeat event) && negb (is_done event).
Definition event_envelope (event : sseEvent) : option streamEnvelope := if is_data event then decode_streamEnvelope (se_data event) else None.
Definition event_text (event : sseEvent) : string :=
  match event_envelope event with Some envelope => String.concat "" (choice_text <$> sv_Choices envelope) | None => ""%string end.
Definition event_finishes (event : sseEvent) : list pendingFinish :=
  match event_envelope event with Some envelope => omap choice_finish (sv_Choices envelope) | None => [] end.
Definition event_usages (range : gmap string (list Z) -> list (string * list Z)) (event : sseEvent) : list NormalizedUsage :=
  match event_envelope event with
  | Some envelope =>
      if hasNonNullValue (sv_Usage envelope) then match parseUsage range (sv_Usage envelope) true with Ok u => [u] | Err _ => [] end else []
  | None => []
  end.

Section Events.
Context (now : nat -> Time) (range : gmap string (list Z) -> list (string * list Z)).

Notation says t := (fun _ new s s' => text_of new = t /\ pend s' = pend s).

Lemma adds_lift {A : Type} (r : result A openai_error) : adds (lift_result r) (fun a new s s' => r = Ok a /\ new = [] /\ s' = s).
Proof. destruct r; [eapply adds_weaken; [apply adds_ret|]; by intros ? ? ? ? (-> & -> & ->)|apply adds_fail]. Qed.

Lemma adds_tools index eventType raws : adds (enqueue_tools now index eventType raws) (says ""%string).
Proof.
  induction raws as [|raw raws IH]; cbn [enqueue_tools]; [eapply adds_weaken; [apply adds_ret|]; by intros ? ? ? ? (-> & -> & ->)|].
  eapply (adds_bind _ _ _ (fun _ => says ""%string)); [apply adds_lift|intros delta|by intros ? ? ? ? ? ? ? (_ & -> & ->)].
  eapply (adds_bind _ _ _ (fun _ => says ""%string)); [by apply adds_enqueue|intros _; exact IH|].
  intros ? ? ? ? ? ? ? [H1 H2] [H3 H4]. split; [by rewrite text_app, H1, H3|congruence].
Qed.

Lemma adds_if b chunk : is_end chunk = false -> adds (enqueue_if now b chunk) (says (if b then ch_ContentDelta chunk else ""%string)).
Proof.
  intros Hk. destruct b; cbn [enqueue_if]; [by apply adds_enqueue|]. eapply adds_weaken; [apply adds_ret|]. by intros ? ? ? ? (-> & -> & ->).
Qed.

Lemma adds_choice raw eventType : adds (parseStreamChoice now raw eventType)
  (fun finish new s s' => finish = choice_finish raw /\ text_of new = choice_text raw /\ pend s' = pend s).
Proof.
  unfold parseStreamChoice, choice_finish, choice_text. destruct (decode_streamChoice raw) as [choice|]; [|apply adds_fail].
  destruct (negb (hasValue (sc_Logprobs choice))); [|apply adds_fail]. destruct (decode_streamDelta (sc_Delta choice)) as [delta|]; [|apply adds_fail].
  destruct (negb (_ || _)); [|apply adds_fail]. destruct (is_empty (sd_Role delta) || _); [|apply adds_fail].
  set (held := (fun reason => {| pf_choiceIndex := sc_Index choice; pf_reason := (normalizeFinishReason reason).1; pf_providerReason := reason |}) <$> sc_FinishReason choice).
  assert ((fun reason => let '(r, p) := normalizeFinishReason reason in {| pf_choiceIndex := sc_Index choice; pf_reason := r; pf_providerReason := p |}) <$> sc_FinishReason choice = held)
    as -> by (by unfold held; destruct (sc_FinishReason choice)).
  eapply (adds_bind _ _ _ (fun _ finish new s s' => finish = held /\ text_of new = sd_Content delta /\ pend s' = pend s));
    [by apply adds_if|intros _|intros ? ? ? ? ? ? ? [H1 H2] (-> & H3 & H4); split_and!; [done| |congruence]].
  - eapply (adds_bind _ _ _ (fun _ finish new s s' => finish = held /\ text_of new = ""%string /\ pend s' = pend s));
      [by apply adds_if|intros _|intros ? ? ? ? ? ? ? [H1 H2] (-> & H3 & H4); split_and!; [done| |congruence]].
    + eapply (adds_bind _ _ _ (fun _ finish new s s' => finish = held /\ new = [] /\ s' = s));
        [by apply adds_tools|intros _; apply adds_ret|intros ? ? ? ? ? ? ? [H1 H2] (-> & -> & ->); rewrite app_nil_r; by split_and!].
    + rewrite text_app, H1, H3, string_app_nil. unfold is_empty. case_bool_decide as E; [by rewrite E|done].
  - rewrite text_app, H1, H3. by destruct (negb (is_empty (sd_Role delta))).
Qed.

(** A step that holds back the facts [fs] and [us]. *)
Definition holds_back (t : string) (fs : list pendingFinish) (us : list NormalizedUsage) (new : list NormalizedChunk) (s s' : chunkStream) : Prop :=
  text_of new = t /\ option_list (cs_pendingFinish s') = option_list (cs_pendingFinish s) ++ fs /\
  option_list (cs_pendingUsage s') = option_list (cs_pendingUsage s) ++ us /\ cs_terminalEmitted s' = cs_terminalEmitted s.

Lemma holds_back_trans t1 t2 fs1 fs2 us1 us2 new1 new2 s s' s'' :
  holds_back t1 fs1 us1 new1 s s' -> holds_back t2 fs2 us2 new2 s' s'' -> holds_back (t1 ++ t2) (fs1 ++ fs2) (us1 ++ us2) (new1 ++ new2) s s''.
Proof.
  intros (H1 & H2 & H3 & H4) (H5 & H6 & H7 & H8). split_and!; [by rewrite text_app, H1, H5|by rewrite H6, H2, app_assoc|by rewrite H7, H3, app_assoc|congruence].
Qed.

Lemma holds_back_says t new s s' : text_of new = t -> pend s' = pend s -> holds_back t [] [] new s s'.
Proof. intros H1 H2. injection H2 as H2 H3 H4. split_and!; [done|by rewrite H2, app_nil_r|by rewrite H3, app_nil_r|done]. Qed.

Lemma adds_hold finish : adds (hold_finish finish) (fun _ new s s' => holds_back "" (option_list finish) [] new s s').
Proof.
  intros s. exists []. unfold hold_finish. destruct finish as [f|]; [destruct (cs_pendingFinish s) eqn:E|].
  - split_and!; [apply extends_refl|done|rewrite ?E; apply keeps_refl|done].
  - split_and!; [apply extends_pending|done|cbn; rewrite ?E; split_and!; auto|]. unfold holds_back. cbn. by rewrite ?E, ?app_nil_r.
  - split_and!; [apply extends_refl|done|rewrite ?E; apply keeps_refl|by apply holds_back_says].
Qed.

Lemma adds_choices eventType raws :
  adds (parse_choices now eventType raws) (fun _ new s s' => holds_back (String.concat "" (choice_text <$> raws)) (omap choice_finish raws) [] new s s').
Proof.
  induction raws as [|raw raws IH]; cbn [parse_choices].
  { eapply adds_weaken; [apply adds_ret|]. intros ? ? ? ? (-> & -> & ->). by apply holds_back_says. }
  eapply (adds_bind _ _ _ (fun finish _ new s s' => holds_back (String.concat "" (choice_text <$> raws)) (option_list finish ++ omap choice_finish raws) [] new s s'));
    [apply adds_choice| |].
  - intros finish. eapply (adds_bind _ _ _ (fun _ _ new s s' => holds_back (String.concat "" (choice_text <$> raws)) (omap choice_finish raws) [] new s s'));
      [apply adds_hold|intros _; exact IH|]. intros ? ? ? ? ? ? ? H1 H2. by apply (holds_back_trans _ _ _ _ _ _ _ _ _ _ _ H1 H2).
  - intros finish ? ? ? ? ? ? (-> & H1 & H2) H3. pose proof (holds_back_trans _ _ _ _ _ _ _ _ _ _ _ (holds_back_says _ _ _ _ H1 H2) H3) as H.
    cbn [app] in H. rewrite fmap_cons. change (choice_text raw :: (choice_text <$> raws)) with ([choice_text raw] ++ (choice_text <$> raws)). rewrite concat_app.
    assert (omap choice_finish (raw :: raws) = option_list (choice_finish raw) ++ omap choice_finish raws) as -> by (cbn; by destruct (choice_finish raw)). exact H.
Qed.

Definition raw_usages (raw : RawMessage) : list NormalizedUsage :=
  if hasNonNullValue raw then match parseUsage range raw true with Ok u => [u] | Err _ => [] end else [].

Lemma adds_usage raw : adds (hold_usage range raw) (fun _ new s s' => holds_back "" [] (raw_usages raw) new s s').
Proof.
  intros s. exists []. unfold hold_usage, raw_usages. destruct (hasNonNullValue raw); cbn [negb].
  - destruct (cs_pendingUsage s) eqn:E; [split_and!; [apply extends_refl|done|rewrite ?E; apply keeps_refl|done]|].
    destruct (parseUsage range raw true) as [u|e]; [|split_and!; [apply extends_refl|done|rewrite ?E; apply keeps_refl|done]].
    split_and!; [apply extends_pending|done|cbn; rewrite ?E; split_and!; auto|]. unfold holds_back. cbn. by rewrite ?E, ?app_nil_r.
  - split_and!; [apply extends_refl|done|rewrite ?E; apply keeps_refl|by apply holds_back_says].
Qed.

(** The part of an event before the end of the message. *)
Definition event_body (event : sseEvent) (envelope : streamEnvelope) : step unit :=
  do _ <- parse_choices now (se_eventType event) (sv_Choices envelope);
  do _ <- hold_usage range (sv_Usage envelope);
  enqueue_if now (hasUnknownStreamFields (se_data event) (sv_Choices envelope)) (extension_chunk (se_data event)).

Lemma adds_body event envelope : adds (event_body event envelope) (fun _ new s s' =>
  holds_back (String.concat "" (choice_text <$> sv_Choices envelope)) (omap choice_finish (sv_Choices envelope)) (raw_usages (sv_Usage envelope)) new s s').
Proof.
  eapply (adds_bind _ _ _ (fun _ _ new s s' => holds_back "" [] (raw_usages (sv_Usage envelope)) new s s')); [apply adds_choices| |].
  - intros _. eapply (adds_bind _ _ _ (fun _ _ new s s' => holds_back "" [] [] new s s')); [apply adds_usage| |].
    + intros _. eapply adds_weaken; [by apply adds_if|]. intros ? ? ? ? [H1 H2]. apply holds_back_says; [|done]. rewrite H1. by destruct (hasUnknownStreamFields _ _).
    + intros ? ? ? ? ? ? ? H1 H2. pose proof (holds_back_trans _ _ _ _ _ _ _ _ _ _ _ H1 H2) as H. by rewrite (app_nil_r (raw_usages _)) in H.
  - intros ? ? ? ? ? ? ? H1 H2. pose proof (holds_back_trans _ _ _ _ _ _ _ _ _ _ _ H1 H2) as H. by rewrite string_app_nil, (app_nil_r (omap _ _)) in H.
Qed.

(** ** The end of the message *)
Lemma terminal_spec f s : let '(s', r) := enqueueTerminal now f s in
  match r with
  | Ok _ => exists n at_, extends s s' [sequenced_chunk (terminal_chunk f (cs_pendingUsage s)) n at_] /\ pend s' = (None, None, true)
  | Err e => extends s s' [] /\ pend s' = pend s /\ e <> StreamEOF
  end.
Proof.
  unfold enqueueTerminal, andThen, get. pose proof (enqueue_spec now (terminal_chunk f (cs_pendingUsage s)) s) as H.
  unfold stream_enqueue in *. destruct (NormalizedChunk_Validate _); destruct H as [Hp He]; [|done].
  eexists _, _. split; [|done]. pose proof (extends_trans _ _ _ _ _ He (extends_pending _ None None true)) as H. by rewrite app_nil_r in H.
Qed.

Definition body_of (event : sseEvent) (envelope : streamEnvelope) : list NormalizedChunk -> chunkStream -> chunkStream -> Prop :=
  holds_back (String.concat "" (choice_text <$> sv_Choices envelope)) (omap choice_finish (sv_Choices envelope)) (raw_usages (sv_Usage envelope)).

Lemma event_spec event s : exists new, let '(s', r) := parseDataEvent now range event s in
  extends s s' new /\
  match r with
  | Err e => open_chunks new /\ keeps (pend s) (pend s') /\ e <> StreamEOF
  | Ok _ => cs_terminalEmitted s = false /\ exists envelope body s1, decode_streamEnvelope (se_data event) = Some envelope /\
      open_chunks body /\ body_of event envelope body s s1 /\
      ((new = body /\ pend s' = pend s1) \/
       (exists f n at_, cs_pendingFinish s1 = Some f /\ new = body ++ [sequenced_chunk (terminal_chunk f (cs_pendingUsage s1)) n at_] /\ pend s' = (None, None, true)))
  end.
Proof.
  assert (forall e, exists new, extends s s new /\ open_chunks new /\ keeps (pend s) (pend s) /\ StreamFailed e <> StreamEOF) as Hfail.
  { intros e. exists []. split_and!; [apply extends_refl|done|apply keeps_refl|done]. }
  unfold parseDataEvent. destruct (negb (Nat.eqb (length (se_data event)) 0)); [|apply Hfail].
  unfold andThen at 1, get. destruct (negb (cs_terminalEmitted s)) eqn:Eemit; [apply negb_true_iff in Eemit|apply Hfail].
  destruct (decode_streamEnvelope (se_data event)) as [envelope|]; [|apply Hfail].
  destruct (_ && _); [|apply Hfail]. destruct (negb (hasValue _)); [|apply Hfail].
  destruct (Nat.leb _ _); [|apply Hfail].
  cbv zeta. match goal with |- exists new, match ?m with _ => _ end => destruct m as [s' r] eqn:Erun end.
  assert (andThen (event_body event envelope) (fun _ => finish_if_complete now) s = (s', r)) as Hassoc.
  { rewrite <- Erun. unfold event_body, andThen. destruct (parse_choices _ _ _ s) as [s1 [?|?]]; [|done]. destruct (hold_usage _ _ s1) as [s2 [?|?]]; [|done].
    by destruct (enqueue_if _ _ _ s2) as [s3 [?|?]]. }
  clear Erun. rename Hassoc into Erun. unfold andThen in Erun.
  destruct (adds_body event envelope s) as [body H]. destruct (event_body event envelope s) as [s1 [u|e]]; destruct H as (He & Ho & Hk & Hq).
  2: { injection Erun as <- <-. exists body. by split_and!. }
  unfold finish_if_complete in Erun. destruct (cs_pendingFinish s1) as [f|] eqn:Ef.
  2: { injection Erun as <- <-. exists body. split_and!; [done..|]. exists envelope, body, s1. split_and!; [done..|]. by left. }
  destruct (cs_pendingUsage s1) as [us|] eqn:Eu.
  2: { injection Erun as <- <-. exists body. split_and!; [done..|]. exists envelope, body, s1. split_and!; [done..|]. by left. }
  assert (cs_terminalEmitted s1 = false) as E1 by (destruct Hk as (_ & _ & Hk'); cbn in Hk'; congruence). rewrite E1 in Erun.
  pose proof (terminal_spec f s1) as Ht. destruct (enqueueTerminal now f s1) as [s2 [?|e]]; injection Erun as <- <-.
  - destruct Ht as (n & at_ & He2 & Hp2). eexists. split; [by eapply extends_trans|]. split; [done|]. exists envelope, body, s1. split_and!; [done..|]. right. by exists f, n, at_.
  - destruct Ht as (He2 & Hp2 & Hne). exists (body ++ []). split_and!; [by eapply extends_trans|by rewrite app_nil_r|rewrite Hp2, Ef, Eu; exact Hk|done].
Qed.

(** ** Invariants of a stream: [D] are the chunks delivered so far *)
Definition shape (emitted : bool) (all : list NormalizedChunk) : Prop :=
  if emitted then exists body t beats, all = body ++ t :: beats /\ open_chunks body /\ is_end t = true /\ Forall (fun c => ch_Kind c = ChunkHeartbeat) beats
  else open_chunks all.

Record orderly (s : chunkStream) (D : list NormalizedChunk) : Prop := {
  or_numbers : numbers 0 (D ++ cs_queue s) (cs_nextSequence s);
  or_valid : Forall (fun c => NormalizedChunk_Validate c = true) (D ++ cs_queue s);
  or_shape : shape (cs_terminalEmitted s) (D ++ cs_queue s) }.

Lemma extends_orderly s s' new D : orderly s D -> extends s s' new -> shape (cs_terminalEmitted s') (D ++ cs_queue s ++ new) -> orderly s' D.
Proof.
  intros [] [] Hs. rewrite <- ex_queue0 in Hs. split; [rewrite ex_queue0, app_assoc; by eapply numbers_app|rewrite ex_queue0, app_assoc; by apply Forall_app|done].
Qed.

(** What an undisturbed stream has said: the events [es] read so far. *)
Record faithful (es : list sseEvent) (s : chunkStream) (D : list NormalizedChunk) : Prop := {
  fa_text : text_of (D ++ cs_queue s) = String.concat "" (event_text <$> es);
  fa_done : cs_sawDone s = true -> cs_terminalEmitted s = true;
  fa_pending : cs_terminalEmitted s = false ->
    option_list (cs_pendingFinish s) = concat (event_finishes <$> es) /\ option_list (cs_pendingUsage s) = concat (event_usages range <$> es);
  fa_ended : cs_terminalEmitted s = true -> exists body t beats f u n at_, D ++ cs_queue s = body ++ t :: beats /\ t = sequenced_chunk (terminal_chunk f u) n at_ /\
    concat (event_finishes <$> es) = [f] /\ concat (event_usages range <$> es) = option_list u }.

Definition ok_list {A E : Type} (r : result A E) : list A := match r with Ok a => [a] | Err _ => [] end.

Lemma data_orderly event s D s' r : orderly s D -> parseDataEvent now range event s = (s', r) -> orderly s' D /\
  cs_decoder s' = cs_decoder s /\ cs_sawDone s' = cs_sawDone s /\ (forall e, r = Err e -> e <> StreamEOF).
Proof.
  intros Ho E. destruct (event_spec event s) as [new H]. rewrite E in H. destruct H as [He Hr]. split; [|split_and!; [by destruct He..|]].
  2: { intros e ->. by destruct Hr as (_ & _ & ?). }
  eapply extends_orderly; [done..|]. rewrite app_assoc. destruct Ho as [_ _ Hs]. destruct r as [u|e].
  - destruct Hr as (Hem & envelope & body & s1 & _ & Hopen & Hb & Hcase). rewrite Hem in Hs. cbn in Hs.
    destruct Hcase as [[-> Hp]|(f & n & at_ & _ & -> & Hp)]; injection Hp as _ _ ->.
    + destruct Hb as (_ & _ & _ & ->). rewrite Hem. cbn. by apply Forall_app.
    + cbn. eexists (_ ++ _), _, []. rewrite app_assoc. split_and!; [done|by apply Forall_app|done|done].
  - destruct Hr as (Hopen & (_ & _ & Hem) & _). cbn in Hem. rewrite <- Hem. unfold shape in *. destruct (cs_terminalEmitted s) eqn:Eem; [|by apply Forall_app].
    (* nothing is added after the end *)
    assert (new = []) as ->; [|by rewrite app_nil_r]. clear Hs. unfold parseDataEvent in E. destruct (negb (Nat.eqb _ 0)).
    + unfold andThen, get in E. rewrite Eem in E. cbn in E. injection E as <- _. pose proof (ex_queue _ _ _ He) as Hq. apply (f_equal length) in Hq. rewrite length_app in Hq. destruct new; [done|cbn in Hq; lia].
    + injection E as <- _. pose proof (ex_queue _ _ _ He) as Hq. apply (f_equal length) in Hq. rewrite length_app in Hq. destruct new; [done|cbn in Hq; lia].
Qed.

Lemma event_text_snoc es e : String.concat "" (event_text <$> (es ++ [e])) = (String.concat "" (event_text <$> es) ++ event_text e)%string.
Proof. rewrite fmap_app, concat_app. done. Qed.

Lemma concat_snoc {A B : Type} (f : A -> list B) l x : concat (f <$> (l ++ [x])) = concat (f <$> l) ++ f x.
Proof. rewrite fmap_app, List.concat_app. cbn. by rewrite app_nil_r. Qed.

Lemma data_faithful event s D s' u es : faithful es s D -> is_data event = true -> parseDataEvent now range event s = (s', Ok u) -> faithful (es ++ [event]) s' D.
Proof.
  intros Hf Hd E. destruct (event_spec event s) as [new H]. rewrite E in H. destruct H as [He (Hem & envelope & body & s1 & Henv & Hopen & Hb & Hcase)].
  destruct Hf as [Ht Hdone Hp _]. destruct (Hp Hem) as [Hpf Hpu]. destruct Hb as (Hbt & Hbf & Hbu & Hbe).
  assert (event_envelope event = Some envelope) as Hev by (unfold event_envelope; by rewrite Hd).
  assert (event_text event = String.concat "" (choice_text <$> sv_Choices envelope)) as Hx by (unfold event_text; by rewrite Hev).
  assert (event_finishes event = omap choice_finish (sv_Choices envelope)) as Hxf by (unfold event_finishes; by rewrite Hev).
  assert (event_usages range event = raw_usages (sv_Usage envelope)) as Hxu by (unfold event_usages; by rewrite Hev).
  pose proof (ex_queue _ _ _ He) as Hq.
  assert (forall x, text_of (D ++ cs_queue s ++ body ++ x) = String.concat "" (event_text <$> (es ++ [event])) +:+ text_of x) as Htext.
  { intros x. rewrite app_assoc, !text_app, <- text_app, Ht, Hbt, event_text_snoc, Hx. generalize (String.concat "" (event_text <$> es)). intros a.
    generalize (text_of x), (String.concat "" (choice_text <$> sv_Choices envelope)). intros y z. induction a as [|c a IH]; [done|].
    change (String c (a ++ (z ++ y)) = String c ((a ++ z) ++ y)). by f_equal. }
  destruct Hcase as [[-> Hps]|(f & n & at_ & Hfin & -> & Hps)]; injection Hps as H1 H2 H3.
  - split.
    + rewrite Hq. rewrite <- (app_nil_r body), Htext. apply string_app_nil.
    + intros Hs. rewrite (ex_done _ _ _ He) in Hs. rewrite H3, Hbe, Hem. by specialize (Hdone Hs); congruence.
    + intros _. rewrite H1, H2, Hbf, Hbu, !concat_snoc, Hpf, Hpu, Hxf, Hxu. done.
    + rewrite H3, Hbe, Hem. done.
  - split.
    + rewrite Hq, Htext. apply string_app_nil.
    + by rewrite H3.
    + by rewrite H3.
    + intros _. eexists (D ++ cs_queue s ++ body), _, [], f, (cs_pendingUsage s1), n, at_. rewrite Hq, <- !app_assoc. split_and!; [done|done| |].
      * rewrite concat_snoc, Hxf, <- Hpf, <- Hbf, Hfin. done.
      * rewrite concat_snoc, Hxu, <- Hpu, <- Hbu. done.
Qed.

(** Events that are not data say nothing. *)
Lemma silent_event event : is_data event = false -> event_text event = ""%string /\ event_finishes event = [] /\ event_usages range event = [].
Proof. intros H. unfold event_text, event_finishes, event_usages, event_envelope. by rewrite H. Qed.

Lemma faithful_silent es s D event : faithful es s D -> is_data event = false -> faithful (es ++ [event]) s D.
Proof.
  intros [Ht Hdone Hp He] Hd. destruct (silent_event _ Hd) as (H1 & H2 & H3).
  split; [by rewrite event_text_snoc, H1, string_app_nil|done| |].
  - intros Hem. rewrite !concat_snoc, H2, H3, !app_nil_r. by apply Hp.
  - intros Hem. rewrite !concat_snoc, H2, H3, !app_nil_r. by apply He.
Qed.

(** Moving a chunk from the queue to the client changes nothing else. *)
Lemma deliver_spec s D chunk queue : cs_queue s = chunk :: queue -> exists s', stream_deliver s = Some (s', Ok chunk) /\ cs_decoder s' = cs_decoder s /\
  (orderly s D -> orderly s' (D ++ [chunk])) /\ (forall es, faithful es s D -> faithful es s' (D ++ [chunk])) /\ cs_queue s' = queue.
Proof.
  intros E. eexists. unfold stream_deliver, stream_dequeue. rewrite E. split; [done|]. cbn [cs_decoder set_queue]. split; [done|].
  split_and!; [..|done].
  - intros [H1 H2 H3]. rewrite E in *. split; cbn [cs_queue cs_nextSequence cs_terminalEmitted set_queue]; by rewrite <- app_assoc.
  - intros es [H1 H2 H3 H4]. rewrite E in *. split; cbn [cs_queue cs_sawDone cs_terminalEmitted cs_pendingFinish cs_pendingUsage set_queue]; rewrite <- ?app_assoc; done.
Qed.

Lemma heartbeat_spec s D : cs_queue s = [] -> orderly s D -> exists s' r, after_step (stream_enqueue now heartbeat_chunk s) = Some (s', r) /\
  cs_decoder s' = cs_decoder s /\ orderly s' (D ++ ok_list r) /\ (forall e, r = Err e -> e <> StreamEOF) /\
  (forall es, faithful es s D -> (exists c, r = Ok c) -> faithful es s' (D ++ ok_list r)).
Proof.
  intros Hq Ho. pose proof (enqueue_spec now heartbeat_chunk s) as H. unfold stream_enqueue in *. destruct (NormalizedChunk_Validate _) eqn:Ev; destruct H as [Hp He]; cbn [after_step].
  - set (s1 := set_queue s _ _ _) in *. set (c := sequenced_chunk _ _ _) in *. assert (cs_queue s1 = [c]) as Hq1 by (cbn; by rewrite Hq).
    destruct (deliver_spec s1 D c [] Hq1) as (s' & Hd & Hdec & H1 & H2 & _). exists s', (Ok c). split_and!; [done|by rewrite Hdec| |done|].
    + apply H1. eapply extends_orderly; [exact Ho|exact He|]. pose proof (or_shape _ _ Ho) as Hs. change (cs_terminalEmitted s1) with (cs_terminalEmitted s). rewrite app_assoc. unfold shape in *.
      destruct (cs_terminalEmitted s); [|apply Forall_app; split; [done|by repeat constructor]].
      destruct Hs as (body & t & beats & -> & Hb & Ht & Hbeats). exists body, t, (beats ++ [c]). rewrite <- app_assoc. split_and!; [done..|]. apply Forall_app. by split; [|repeat constructor].
    + intros es [F1 F2 F3 F4] _. apply H2. split; cbn [cs_queue cs_sawDone cs_terminalEmitted cs_pendingFinish cs_pendingUsage s1 set_queue]; [|done|done|].
      * rewrite app_assoc, text_app, F1. apply string_app_nil.
      * intros Hem. destruct (F4 Hem) as (body & t & beats & f & u & n & at_ & E & Ht & Hf & Hu). exists body, t, (beats ++ [c]), f, u, n, at_. rewrite app_assoc, E, <- app_assoc. by split_and!.
  - eexists _, _. split; [done|]. split_and!; [done| |by intros e [= <-]|by intros es _ [? ?]]. rewrite app_nil_r. eapply extends_orderly; [exact Ho|exact He|]. rewrite app_nil_r. by destruct Ho.
Qed.

(** The result of a call in the invariants; [clean] results are chunks and the regular end. *)
Definition clean_result (r : result NormalizedChunk chunk_stream_error) : Prop := match r with Ok _ => True | Err e => e = StreamEOF end.

Definition good_call (s : chunkStream) (D : list NormalizedChunk) (es : list sseEvent) (out : option (chunkStream * result NormalizedChunk chunk_stream_error)) : Prop :=
  exists s' r, out = Some (s', r) /\ cs_decoder s' = cs_decoder s /\ orderly s' (D ++ ok_list r) /\
    (forall old, faithful (old ++ es) s D -> clean_result r -> faithful (old ++ es) s' (D ++ ok_list r) /\ (r = Err StreamEOF -> cs_terminalEmitted s' = true /\ cs_sawDone s' = true /\ cs_queue s' = [])).

Lemma done_spec s D es : cs_queue s = [] -> orderly s D -> good_call s D es (done_event now s).
Proof.
  intros Hq Ho. unfold done_event. set (s0 := set_reading s _ _ true). assert (orderly s0 D) as Ho0 by (by destruct Ho; split).
  change (cs_terminalEmitted s0) with (cs_terminalEmitted s). destruct (cs_terminalEmitted s) eqn:Eem.
  { exists s0, (Err StreamEOF). cbn [ok_list]. rewrite app_nil_r. split_and!; [done..|]. intros old [F1 F2 F3 F4] _. split; [by split|]. intros _. by rewrite <- Eem. }
  change (cs_pendingFinish s0) with (cs_pendingFinish s). destruct (cs_pendingFinish s) as [f|] eqn:Ef.
  2: { eexists _, _. split; [done|]. cbn [ok_list]. rewrite app_nil_r. split_and!; [done..|]. by intros old _ [=]. }
  pose proof (terminal_spec f s0) as Ht. destruct (enqueueTerminal now f s0) as [s1 [?|e]]; cbn [after_step].
  - destruct Ht as (n & at_ & He & Hp). set (t := sequenced_chunk _ _ _) in *. injection Hp as Hp1 Hp2 Hp3.
    assert (cs_queue s1 = [t]) as Hq1 by (rewrite (ex_queue _ _ _ He); cbn; by rewrite Hq).
    destruct (deliver_spec s1 D t [] Hq1) as (s' & Hd & Hdec & H1 & H2 & _). exists s', (Ok t).
    split_and!; [done|by rewrite Hdec, (ex_decoder _ _ _ He)| |].
    + apply H1. eapply extends_orderly; [exact Ho0|exact He|]. rewrite Hp3. exists D, t, []. pose proof (or_shape _ _ Ho) as Hs. rewrite Eem, Hq, app_nil_r in Hs. cbn. rewrite Hq. by split_and!.
    + intros old [F1 F2 F3 F4] _. split; [|done]. apply H2. destruct (F3 Eem) as [F5 F6]. rewrite Hq, app_nil_r in F1.
      split; [rewrite Hq1, text_app, F1; apply string_app_nil|done|by rewrite Hp3|]. intros _. exists D, t, [], f, (cs_pendingUsage s), n, at_. rewrite Hq1.
      split_and!; [done|done|by rewrite <- F5, Ef|by rewrite <- F6].
  - destruct Ht as (He & Hp & Hne). exists s1, (Err e). cbn [ok_list]. rewrite app_nil_r. split_and!; [done|by rewrite (ex_decoder _ _ _ He)| |by intros old _ ->].
    eapply extends_orderly; [exact Ho0|exact He|]. rewrite app_nil_r. injection Hp as _ _ ->. by destruct Ho0.
Qed.

(** Events read from the input. *)
Inductive reads : Decoder -> list sseEvent -> Decoder -> Prop :=
| reads_none d : reads d [] d
| reads_one d es d1 event d2 : reads d es d1 -> Next d1 = Some (d2, Ok event) ->
    reads d (es ++ [{| se_eventType := string_of (ev_Type event); se_data := ev_Data event; se_heartbeat := ev_Comment event |}]) d2.

Lemma reads_trans d es d1 es' d2 : reads d es d1 -> reads d1 es' d2 -> reads d (es ++ es') d2.
Proof. intros H. induction 1; [by rewrite app_nil_r|]. rewrite app_assoc. econstructor; eauto. Qed.

Lemma orderly_reading s D d c : orderly s D -> orderly (set_reading s d c (cs_sawDone s)) D.
Proof. intros [H1 H2 H3]. by split. Qed.
Lemma faithful_reading es s D d c : faithful es s D -> faithful es (set_reading s d c (cs_sawDone s)) D.
Proof. intros [H1 H2 H3 H4]. by split. Qed.

Lemma next_total d : 0 <= MaxEventBytes (limits d) -> exists d' r, Next d = Some (d', r) /\ limits d' = limits d /\
  forall event, r = Ok event -> (length (input d') < length (input d))%nat.
Proof.
  intros Hl. destruct (next_loop_total (S (length (input d))) d empty_block) as (d' & r & E & H1 & H2); [lia|by split; cbn|].
  exists d', r. split_and!; [exact E|done|]. intros event He. by apply (H2 _ He).
Qed.

Lemma next_chunk_spec fuel : forall during n s D, (length (input (cs_decoder s)) < fuel)%nat -> 0 <= MaxEventBytes (limits (cs_decoder s)) ->
  cs_queue s = [] -> orderly s D ->
  exists s' r, next_chunk now (parseDataEvent now range) fuel during n s = Some (s', r) /\ limits (cs_decoder s') = limits (cs_decoder s) /\ orderly s' (D ++ ok_list r) /\
    (forall es, faithful es s D -> clean_result r -> exists more, reads (cs_decoder s) more (cs_decoder s') /\ faithful (es ++ more) s' (D ++ ok_list r) /\
      (r = Err StreamEOF -> cs_terminalEmitted s' = true /\ cs_sawDone s' = true /\ cs_queue s' = [])).
Proof.
  induction fuel as [|fuel IH]; intros during n s D Hf Hl Hq Ho; [lia|]. cbn [next_chunk]. unfold readEvent.
  destruct (next_total (cs_decoder s) Hl) as (d & r & En & Hlim & Hlen). rewrite En. cbn [mbind option_bind].
  set (s0 := set_reading s d _ _). assert (orderly s0 D) as Ho0 by (by apply orderly_reading).
  destruct r as [event|e]; cycle 1.
  { exists s0. destruct e; (eexists; split; [reflexivity|]); cbn [ok_list]; rewrite app_nil_r; (split_and!; [done..|]); intros es _ Hc; exfalso; by destruct (during n). }
  set (ev := {| se_eventType := _; se_data := _; se_heartbeat := _ |}).
  assert (reads (cs_decoder s) [ev] d) as Hread by (eapply (reads_one _ [] (cs_decoder s) event); [constructor|exact En]).
  assert (forall es, faithful es s D -> faithful es s0 D) as Hf0 by (intros es; apply faithful_reading).
  destruct (se_heartbeat ev) eqn:Eh.
  { destruct (heartbeat_spec s0 D Hq Ho0) as (s' & r & -> & Hdec & H1 & H2 & H3). exists s', r. split_and!; [done|by rewrite Hdec|done|].
    intros es Hfa Hc. exists [ev]. rewrite Hdec. split_and!; [done| |intros ->; by specialize (H2 _ eq_refl)].
    apply H3; [|destruct r as [c|e]; [by exists c|by specialize (H2 _ eq_refl)]]. apply faithful_silent; [by apply Hf0|unfold is_data; by rewrite Eh]. }
  destruct (is_done ev) eqn:Ed.
  { destruct (done_spec s0 D [ev] Hq Ho0) as (s' & r & -> & Hdec & H1 & H2). exists s', r. split_and!; [done|by rewrite Hdec|done|].
    intros es Hfa Hc. exists [ev]. rewrite Hdec. split; [done|]. apply H2; [|done]. apply faithful_silent; [by apply Hf0|unfold is_data; by rewrite Ed, andb_false_r]. }
  assert (is_data ev = true) as Hdata by (unfold is_data; by rewrite Eh, Ed).
  destruct (parseDataEvent now range ev s0) as [s1 [u|e]] eqn:Ep; destruct (data_orderly _ _ _ _ _ Ho0 Ep) as (Ho1 & Hdec & Hdone & Hne).
  2: { exists s1, (Err e). cbn [ok_list]. rewrite app_nil_r. split_and!; [done|by rewrite Hdec|done|]. intros es _ ->. by specialize (Hne _ eq_refl). }
  assert (forall es, faithful es s D -> faithful (es ++ [ev]) s1 D) as Hf1 by (intros es Hes; eapply data_faithful; [by apply Hf0|done|exact Ep]).
  destruct (cs_queue s1) as [|chunk queue] eqn:Eq.
  - destruct (IH during (S n) s1 D) as (s' & r & -> & Hlim' & H1 & H2); [rewrite Hdec; specialize (Hlen _ eq_refl); cbn; lia|rewrite Hdec; cbn; by rewrite Hlim|done..|].
    exists s', r. split_and!; [done|rewrite Hlim', Hdec; done|done|]. intros es Hes Hc. destruct (H2 (es ++ [ev]) (Hf1 _ Hes) Hc) as (more & R1 & R2 & R3).
    exists ([ev] ++ more). rewrite app_assoc. split_and!; [|done..]. rewrite Hdec in R1. by eapply reads_trans.
  - destruct (deliver_spec s1 D chunk queue Eq) as (s' & -> & Hd & H1 & H2 & _). exists s', (Ok chunk). split_and!; [done|rewrite Hd, Hdec; done|by apply H1|].
    intros es Hes _. exists [ev]. rewrite Hd, Hdec. split_and!; [done|by apply H2, Hf1|done].
Qed.

(** ** Runs: calls of [Next] and [Close] in any order, with any contexts *)
Inductive stream_run (s0 : chunkStream) : chunkStream -> list (result NormalizedChunk chunk_stream_error) -> Prop :=
| run_open : stream_run s0 s0 []
| run_next s log before during s' r : stream_run s0 s log -> openai_Next now range before during s = Some (s', r) -> stream_run s0 s' (log ++ [r])
| run_close s log : stream_run s0 s log -> stream_run s0 (Stream_Close s) log.

Definition delivered (log : list (result NormalizedChunk chunk_stream_error)) : list NormalizedChunk := concat (ok_list <$> log).

Lemma call_spec before during s D : 0 <= MaxEventBytes (limits (cs_decoder s)) -> orderly s D ->
  exists s' r, openai_Next now range before during s = Some (s', r) /\ limits (cs_decoder s') = limits (cs_decoder s) /\ orderly s' (D ++ ok_list r) /\
    (forall es, faithful es s D -> clean_result r -> exists more, reads (cs_decoder s) more (cs_decoder s') /\ faithful (es ++ more) s' (D ++ ok_list r) /\
      (r = Err StreamEOF -> cs_terminalEmitted s' = true /\ cs_sawDone s' = true /\ cs_queue s' = [])).
Proof.
  intros Hl Ho. unfold openai_Next, Stream_Next. destruct before.
  { exists (Stream_Close s), (Err StreamCancelled). cbn [ok_list]. rewrite app_nil_r. split_and!; [done|done|by apply orderly_reading|by intros es _ [=]]. }
  destruct (cs_queue s) as [|chunk queue] eqn:Eq.
  - destruct (cs_sawDone s) eqn:Ed.
    { exists s, (Err StreamEOF). cbn [ok_list]. rewrite app_nil_r. split_and!; [done..|]. intros es Hes _. exists []. rewrite app_nil_r.
      split_and!; [constructor|done|]. intros _. split_and!; [by apply (fa_done _ _ _ Hes)|done|done]. }
    destruct (cs_closed s). { exists s, (Err StreamClosed). cbn [ok_list]. rewrite app_nil_r. split_and!; [done..|]. by intros es _ [=]. }
    by apply next_chunk_spec; [lia|..].
  - destruct (deliver_spec s D chunk queue Eq) as (s' & -> & Hd & H1 & H2 & _). exists s', (Ok chunk). rewrite Hd. split_and!; [done|done|by apply H1|].
    intros es Hes _. exists []. rewrite app_nil_r. split_and!; [constructor|by apply H2|done].
Qed.

Lemma delivered_snoc log r : delivered (log ++ [r]) = delivered log ++ ok_list r.
Proof. apply concat_snoc. Qed.

Definition ended (s : chunkStream) : Prop := cs_terminalEmitted s = true /\ cs_sawDone s = true /\ cs_queue s = [].

(** Once a stream has ended every further call says so. *)
Lemma ended_stays before during s s' r : ended s -> openai_Next now range before during s = Some (s', r) -> clean_result r -> r = Err StreamEOF /\ s' = s.
Proof.
  intros (H1 & H2 & H3). unfold openai_Next, Stream_Next. destruct before; [by intros [= <- <-] [=]|]. rewrite H2, H3. by intros [= <- <-].
Qed.

Lemma run_inv s0 s log : 0 <= MaxEventBytes (limits (cs_decoder s0)) -> orderly s0 [] -> faithful [] s0 [] -> stream_run s0 s log ->
  limits (cs_decoder s) = limits (cs_decoder s0) /\ orderly s (delivered log) /\
  (Forall clean_result log -> exists es, reads (cs_decoder s0) es (cs_decoder s) /\ faithful es s (delivered log) /\ (Err StreamEOF ∈ log -> ended s)).
Proof.
  intros Hl Ho0 Hf0. induction 1 as [|s log before during s' r _ (Hlim & Ho & Hclean) Hn|s log _ (Hlim & Ho & Hclean)].
  - split_and!; [done|done|]. intros _. exists []. split_and!; [constructor|done|]. by intros ?%elem_of_nil.
  - destruct (call_spec before during s (delivered log)) as (s1 & r1 & E & Hlim1 & Ho1 & Hf1); [by rewrite Hlim|done|]. rewrite Hn in E. injection E as <- <-.
    rewrite delivered_snoc. split_and!; [by rewrite Hlim1|done|]. intros [Hc Hr]%Forall_app. rewrite Forall_singleton in Hr. destruct (Hclean Hc) as (es & R & F & He).
    destruct (Hf1 es F Hr) as (more & R' & F' & He'). exists (es ++ more). split_and!; [by eapply reads_trans|done|].
    intros [Hin|Hin]%elem_of_app; [|apply list_elem_of_singleton in Hin; by apply He']. by destruct (ended_stays _ _ _ _ _ (He Hin) Hn Hr) as [_ ->]; apply He.
  - split_and!; [done|by apply orderly_reading|]. intros Hc. destruct (Hclean Hc) as (es & R & F & He). exists es. split_and!; [done|by apply faithful_reading|done].
Qed.

Lemma split_at_end body : forall t beats body' t' beats', body ++ t :: beats = body' ++ t' :: beats' -> open_chunks body -> open_chunks beats ->
  is_end t = true -> is_end t' = true -> body = body' /\ t = t' /\ beats = beats'.
Proof.
  induction body as [|c body IH]; intros t beats [|c' body'] t' beats' E Ho Hb Ht Ht'; cbn in E; simplify_eq; [done| | |].
  - exfalso. rewrite Forall_app, Forall_cons in Hb. destruct Hb as (_ & Hb & _). congruence.
  - apply Forall_cons in Ho as [Ho _]. congruence.
  - apply Forall_cons in Ho as [_ Ho]. destruct (IH _ _ _ _ _ H0 Ho Hb Ht Ht') as (-> & -> & ->). done.
Qed.

Lemma beats_open beats : Forall (fun c => ch_Kind c = ChunkHeartbeat) beats -> open_chunks beats.
Proof. intros H. eapply Forall_impl; [exact H|]. intros c Hc. unfold is_end. by rewrite Hc. Qed.

Lemma shape_order emitted all i j c c' : shape emitted all -> all !! i = Some c -> all !! j = Some c' -> is_end c = true -> (i < j)%nat -> ch_Kind c' = ChunkHeartbeat.
Proof.
  intros Hs Hi Hj Hc Hij. destruct emitted; cbn in Hs; [|by eapply Forall_lookup_1 in Hs; [|exact Hi]; congruence].
  destruct Hs as (body & t & beats & -> & Hb & Ht & Hbeats). apply lookup_app_Some in Hi as [Hi|[Hge Hi]].
  { eapply Forall_lookup_1 in Hb; [|exact Hi]. congruence. }
  rewrite lookup_app_r in Hj by lia. destruct (j - length body)%nat as [|k] eqn:Ek; [lia|]. cbn in Hj. by eapply Forall_lookup_1 in Hbeats.
Qed.
End Events.

(** C32: A streamed answer is orderly. Whatever bytes the provider sends and in whatever order
    the stream is read and closed under whatever contexts: every call returns; the chunks
    delivered are valid and numbered 0, 1, 2, ...; at most one of them ends the message, and
    only heartbeats follow it. If no call failed and the stream reported its end, the message
    was ended exactly once, and its text, finish reason and usage are exactly those of the
    events that were read. *)
Theorem openai_streams_are_orderly ParseMediaType ParseTime late response opened now range s0 s log :
  OpenStream ParseMediaType ParseTime false late response opened = Ok s0 -> stream_run now range s0 s log ->
  (forall before during, is_Some (openai_Next now range before during s)) /\
  (forall i c, delivered log !! i = Some c -> ch_Sequence c = u64 (Z.of_nat i) /\ NormalizedChunk_Validate c = true) /\
  (forall i j c c', delivered log !! i = Some c -> delivered log !! j = Some c' -> is_end c = true -> (i < j)%nat -> ch_Kind c' = ChunkHeartbeat) /\
  (Forall clean_result log -> Err StreamEOF ∈ log ->
    exists es d body finish usage n at_ beats, reads (cs_decoder s0) es d /\
      delivered log = body ++ sequenced_chunk (terminal_chunk finish usage) n at_ :: beats /\ open_chunks (body ++ beats) /\
      text_of (delivered log) = String.concat "" (event_text <$> es) /\
      concat (event_finishes <$> es) = [finish] /\ concat (event_usages range <$> es) = option_list usage).
Proof.
  intros Hopen Hrun.
  assert (0 <= MaxEventBytes (limits (cs_decoder s0)) /\ orderly s0 [] /\ faithful range [] s0 []) as (Hl & Ho0 & Hf0).
  { unfold OpenStream in Hopen. destruct response as [r|]; [|done]. destruct (negb (_ =? 200)).
    { destruct (readBoundedBody _ _); done. }
    destruct (negb (requireMediaType _ _ _)); [done|]. cbn in Hopen. injection Hopen as <-. split; [done|]. split; split; try done; by repeat constructor. }
  destruct (run_inv now range s0 s log Hl Ho0 Hf0 Hrun) as (Hlim & Ho & Hclean). split_and!.
  - intros before during. destruct (call_spec now range before during s (delivered log)) as (s' & r & -> & _); [by rewrite Hlim|done|by eexists].
  - intros i c Hi. pose proof (lookup_app_l_Some _ (cs_queue s) _ _ Hi) as Hi'. split.
    + rewrite (numbers_lookup _ _ _ _ _ (or_numbers _ _ Ho) Hi'); [by rewrite Z.add_0_l|]. by split.
    + by eapply Forall_lookup_1 in Hi'; [|apply (or_valid _ _ Ho)].
  - intros i j c c' Hi Hj. eapply shape_order; [apply (or_shape _ _ Ho)|by apply lookup_app_l_Some|by apply lookup_app_l_Some].
  - intros Hc Hin. destruct (Hclean Hc) as (es & R & [F1 F2 F3 F4] & He). destruct (He Hin) as (H1 & H2 & H3). destruct (F4 H1) as (body & t & beats & f & u & n & at_ & E & -> & Hf & Hu).
    pose proof (or_shape _ _ Ho) as Hs. rewrite H1 in Hs. destruct Hs as (body' & t' & beats' & E' & Hb' & Ht' & Hbeats'). rewrite H3, app_nil_r in *.
    rewrite E in E'. symmetry in E'. destruct (split_at_end _ _ _ _ _ _ E' Hb' (beats_open _ Hbeats') Ht') as (-> & -> & ->); [done|].
    exists es, (cs_decoder s), body, f, u, n, at_, beats. split_and!; [done|done|apply Forall_app; by split; [|apply beats_open]|done..].
Qed.

(** A stream read to its end. *)
Fixpoint calls (now : nat -> Time) (n : nat) (s : chunkStream) : option (chunkStream * list (result NormalizedChunk chunk_stream_error)) :=
  match n with
  | O => Some (s, [])
  | S n => '(s, log) ← calls now n s; '(s, r) ← openai_Next now map_to_list false (fun _ => false) s; Some (s, log ++ [r])
  end.

Lemma calls_run now n : forall s s' log, calls now n s = Some (s', log) -> stream_run now map_to_list s s' log.
Proof.
  induction n as [|n IH]; intros s s' log H; cbn [calls] in H; [injection H as <- <-; constructor|].
  apply bind_Some in H as ([s1 l1] & H1 & H). apply bind_Some in H as ([s2 r] & H2 & H). injection H as <- <-. econstructor; [by apply IH|exact H2].
Qed.

Definition demo_clock (n : nat) : Time := 1 + Z.of_nat n.

Lemma demo_calls : exists s0 s log, OpenStream Some (fun _ => None) false false (Some demo_stream_response) 1 = Ok s0 /\ calls demo_clock 5 s0 = Some (s, log) /\
  Forall clean_result log /\ Err StreamEOF ∈ log.
Proof.
  eexists _, _, _. split; [vm_compute; reflexivity|]. split; [vm_compute; reflexivity|]. split; [by repeat constructor|]. do 4 right. left.
Qed.

Lemma openai_streams_are_orderly_witness : exists s0 s log, OpenStream Some (fun _ => None) false false (Some demo_stream_response) 1 = Ok s0 /\
  stream_run demo_clock map_to_list s0 s log /\ Err StreamEOF ∈ log /\ (forall before during, is_Some (openai_Next demo_clock map_to_list before during s)).
Proof.
  destruct demo_calls as (s0 & s & log & Ho & Hc & _ & Hin). apply calls_run in Hc. exists s0, s, log. split_and!; [done..|].
  exact (proj1 (openai_streams_are_orderly Some (fun _ => None) false (Some demo_stream_response) 1 demo_clock map_to_list s0 s log Ho Hc)).
Defined.
