(* ===== verification/GatewayOutcome.v ===== *)
(** * What the gateway makes of a failed attempt

    The classifications of an attempt's error in internal/gateway: the outcome it records
    (execution_record.go), the submission state it reports to the retry classifier
    (failover.go), what it tells the circuit breaker (circuit_breaker.go) and the passive
    health window (passive_health.go), and the public error a client receives
    (chat_response.go, chat_request.go).

    Then: chat completions as the client sees them (src/internal/gateway/chat_response.go). *)
From Stdlib Require Import ZArith Lia Bool Ascii String.
From stdpp Require Import base tactics option list strings gmap.
From S2P Require Import Prelude Identifiers Unicode Encoding ApiError Catalog RoutePolicy Retry Metering Execution Circuit PassiveHealth Adapter.
(** The routing errors an executor can return. *)
Definition ErrCircuitOpen_s : Sentinel := SentinelOther "routing.ErrCircuitOpen".
Definition ErrHalfOpenSaturated_s : Sentinel := SentinelOther "routing.ErrHalfOpenSaturated".
Definition ErrCircuitCapacity_s : Sentinel := SentinelOther "routing.ErrCircuitCapacity".

Definition category_text (c : ErrorCategory) : string :=
  match c with
  | ErrorAuth => "auth" | ErrorPermission => "permission" | ErrorInvalidRequest => "invalid_request" | ErrorRateLimit => "rate_limit"
  | ErrorCapacity => "capacity" | ErrorTimeout => "timeout" | ErrorProvider5xx => "provider_5xx" | ErrorContentPolicy => "content_policy"
  | ErrorContextLength => "context_length" | ErrorProtocol => "protocol" | ErrorCancelled => "cancelled" | ErrorUnknown => "unknown"
  | ErrorOther value => value
  end.

(** ** The recorded outcome (execution_record.go) *)
Definition cancelledAttemptOutcome : AttemptOutcome :=
  {| ao_AttemptStatus := AttemptCancelled; ao_RequestStatus := RequestCancelled; ao_HeadersReceived := false; ao_EndReason := "client_cancelled";
     ao_ProviderRequestID := ""; ao_ErrorCategory := "cancelled"; ao_ErrorCode := "CLIENT_CANCELLED"; ao_Usage := None |}.

Definition failedAttemptOutcome (status : AttemptStatus) (headers : bool) (reason category code : string) : AttemptOutcome :=
  {| ao_AttemptStatus := status; ao_RequestStatus := RequestFailed; ao_HeadersReceived := headers; ao_EndReason := reason;
     ao_ProviderRequestID := ""; ao_ErrorCategory := category; ao_ErrorCode := code; ao_Usage := None |}.

Definition executionErrorCode (value fallback : string) : string := if Nat.leb 3 (String.length value) then value else fallback.

Definition attemptOutcomeForError (err : Failure) : AttemptOutcome :=
  if errors_Is err ContextCanceled then cancelledAttemptOutcome
  else match as_provider err with
  | Some detail =>
      if bool_decide (ne_Category detail = ErrorCancelled) then
        {| ao_AttemptStatus := AttemptCancelled; ao_RequestStatus := RequestCancelled; ao_HeadersReceived := true; ao_EndReason := "client_cancelled";
           ao_ProviderRequestID := ne_ProviderRequestID detail; ao_ErrorCategory := "cancelled"; ao_ErrorCode := "CLIENT_CANCELLED"; ao_Usage := None |}
      else
        {| ao_AttemptStatus := if ne_Retryable detail then AttemptRetryableFailed else AttemptFailed; ao_RequestStatus := RequestFailed;
           ao_HeadersReceived := true; ao_EndReason := "provider_" ++ category_text (ne_Category detail);
           ao_ProviderRequestID := ne_ProviderRequestID detail; ao_ErrorCategory := category_text (ne_Category detail);
           ao_ErrorCode := executionErrorCode (ne_Code detail) "PROVIDER_ERROR"; ao_Usage := None |}
  | None =>
      if errors_Is err ContextDeadlineExceeded || errors_Is err UpstreamErrTimeout then
        failedAttemptOutcome AttemptRetryableFailed false "provider_timeout" "timeout" "PROVIDER_TIMEOUT"
      else if errors_Is err ErrAdapterUnavailable then
        failedAttemptOutcome AttemptFailed false "adapter_unavailable" "configuration" "ADAPTER_UNAVAILABLE"
      else if errors_Is err ProxyErrTransport then
        failedAttemptOutcome AttemptRetryableFailed false "provider_transport" "transport" "PROVIDER_TRANSPORT"
      else if errors_Is err ProxyErrProtocol then
        failedAttemptOutcome AttemptFailed true "provider_protocol" "protocol" "PROVIDER_PROTOCOL"
      else failedAttemptOutcome AttemptFailed false "gateway_execution" "gateway" "GATEWAY_EXECUTION_FAILED"
  end.

(** ** The submission state (failover.go) *)
Definition submissionState (err : Failure) : SubmissionState :=
  if errors_Is err ErrAdapterUnavailable then NotSubmitted
  else match as_provider err with
       | Some _ => Submitted
       | None => if errors_Is err ProxyErrProtocol then Submitted else Unknown
       end.

(** ** What the breaker and the health window learn *)
Definition classifyCircuitOutcome (err : option Failure) : CircuitOutcome :=
  match err with
  | None => CircuitSucceeded
  | Some err =>
      if errors_Is err ContextCanceled then CircuitIgnored
      else if errors_Is err ContextDeadlineExceeded || errors_Is err UpstreamErrTimeout then CircuitFailed
      else match as_provider err with
      | Some detail =>
          match ne_Category detail with
          | ErrorRateLimit | ErrorCapacity | ErrorTimeout | ErrorProvider5xx | ErrorProtocol => CircuitFailed
          | ErrorUnknown => if ne_Retryable detail then CircuitFailed else CircuitIgnored
          | _ => CircuitIgnored
          end
      | None => if errors_Is err ProxyErrTransport || errors_Is err ProxyErrProtocol then CircuitFailed else CircuitIgnored
      end
  end.

Definition passiveOutcome (err : option Failure) : PassiveOutcome * Z :=
  match err with
  | None => (PassiveSucceeded, 200)
  | Some err =>
      match as_provider err with
      | Some detail =>
          let status := ne_ProviderStatus detail in
          if status =? 429 then (PassiveRateLimited, status)
          else if 500 <=? status then (PassiveServerError, status)
          else if bool_decide (ne_Category detail = ErrorTimeout) then (PassiveTimedOut, status)
          else if bool_decide (ne_Category detail = ErrorCancelled) then (PassiveCancelled, status)
          else (PassiveOtherFailure, status)
      | None =>
          if errors_Is err ContextCanceled then (PassiveCancelled, 0)
          else if errors_Is err ContextDeadlineExceeded || errors_Is err UpstreamErrTimeout then (PassiveTimedOut, 0)
          else (PassiveOtherFailure, 0)
      end
  end.

(** ** Public errors (chat_response.go, chat_request.go, execution_record.go) *)
Definition gateway_definition (status : Z) (code message type_ param : string) (retryable : bool) (retryAfter : Duration) : ErrorDefinition :=
  {| ed_Status := status; ed_Code := code; ed_Message := message; ed_Type := type_; ed_Param := param; ed_Retryable := retryable; ed_RetryAfter := retryAfter |}.

(** [None]: the definition is refused and MustNew panics. *)
Definition newExecutionAPIError (status : Z) (code message : string) (retryable : bool) (retryAfter : Duration) : option ErrorDefinition :=
  MustNew (gateway_definition status code message "provider_error" "" retryable retryAfter).

Definition clientClosedRequestStatus : Z := 499.

Definition providerPublicError (detail : NormalizedError) : option ErrorDefinition :=
  let retryAfter := default 0 (ne_RetryAfter detail) in
  match ne_Category detail with
  | ErrorRateLimit => newExecutionAPIError 429 "PROVIDER_RATE_LIMITED" "The upstream provider rate limited the request" (ne_Retryable detail) retryAfter
  | ErrorTimeout => newExecutionAPIError 504 "PROVIDER_TIMEOUT" "The upstream provider timed out" (ne_Retryable detail) retryAfter
  | ErrorCapacity | ErrorProvider5xx =>
      newExecutionAPIError 503 "PROVIDER_UNAVAILABLE" "The upstream provider is temporarily unavailable" (ne_Retryable detail) retryAfter
  | ErrorContentPolicy => newExecutionAPIError 403 "CONTENT_POLICY_REJECTED" "The request was rejected by a content policy" false 0
  | ErrorCancelled => newExecutionAPIError clientClosedRequestStatus "REQUEST_CANCELLED" "The request was cancelled" false 0
  | ErrorAuth | ErrorPermission => newExecutionAPIError 502 "PROVIDER_CREDENTIAL_ERROR" "The upstream provider rejected gateway credentials" false 0
  | ErrorInvalidRequest | ErrorContextLength =>
      newExecutionAPIError 502 "PROVIDER_REQUEST_REJECTED" "The upstream provider rejected the normalized request" false 0
  | ErrorProtocol => newExecutionAPIError 502 "PROVIDER_PROTOCOL_ERROR" "The upstream provider returned an invalid response" false 0
  | ErrorUnknown | ErrorOther _ => newExecutionAPIError 502 "PROVIDER_ERROR" "The upstream provider returned an error" false 0
  end.

Definition executionPublicError (err : Failure) : option ErrorDefinition :=
  if errors_Is err ErrCircuitOpen_s || errors_Is err ErrHalfOpenSaturated_s || errors_Is err ErrCircuitCapacity_s then
    newExecutionAPIError 503 "MODEL_UNAVAILABLE" "No healthy deployment is currently available" true second
  else if errors_Is err ContextCanceled then newExecutionAPIError clientClosedRequestStatus "REQUEST_CANCELLED" "The request was cancelled" false 0
  else if errors_Is err ContextDeadlineExceeded || errors_Is err UpstreamErrTimeout then
    newExecutionAPIError 504 "PROVIDER_TIMEOUT" "The upstream provider timed out" true second
  else match as_provider err with
  | Some detail => providerPublicError detail
  | None =>
      if errors_Is err ErrAdapterUnavailable then
        newExecutionAPIError 503 "PROVIDER_CONFIGURATION_UNAVAILABLE" "Provider configuration is temporarily unavailable" true second
      else if errors_Is err ProxyErrTransport then
        newExecutionAPIError 502 "PROVIDER_CONNECTION_FAILED" "The upstream provider could not be reached" true second
      else if errors_Is err ProxyErrProtocol then
        newExecutionAPIError 502 "PROVIDER_PROTOCOL_ERROR" "The upstream provider returned an invalid response" false 0
      else newExecutionAPIError 500 "CHAT_EXECUTION_FAILED" "Chat execution failed" false 0
  end.

Definition executionRecordPublicError : option ErrorDefinition :=
  MustNew (gateway_definition 503 "EXECUTION_RECORD_UNAVAILABLE" "Execution recording is temporarily unavailable" "gateway_error" "" true second).
Definition routeUnavailable : option ErrorDefinition :=
  MustNew (gateway_definition 503 "ROUTING_UNAVAILABLE" "Routing is temporarily unavailable" "gateway_error" "" true second).
Definition modelUnavailable : option ErrorDefinition :=
  MustNew (gateway_definition 503 "MODEL_UNAVAILABLE" "No compatible healthy deployment is available" "gateway_error" "model" true second).

(** ** Every classification fits its consumer *)

(** A provider error carries a validated detail ([NewProviderError]). *)
Definition provider_detail_ok (err : Failure) : Prop := forall d, as_provider err = Some d -> NormalizedError_Validate d = true.

Lemma all_chars_tail_bound (h1 h2 t1 t2 : char_class) lo1 lo2 hi s :
  (forall a, h1 a = true -> h2 a = true) -> (forall a, t1 a = true -> t2 a = true) -> (lo2 < String.length s)%nat ->
  match_head_tail h1 t1 lo1 hi s = true -> match_head_tail h2 t2 lo2 hi s = true.
Proof.
  intros Hh Ht Hlen. destruct s as [|a s]; [done|]. simpl in *. rewrite !andb_true_iff, !Nat.leb_le. intros [[[Ha Hs] _] Hhi].
  split_and!; [by apply Hh|by apply (all_chars_impl t1)|lia|done].
Qed.

Lemma code_recorded code : errorCodePattern code = true -> attemptErrorCodePattern (executionErrorCode code "PROVIDER_ERROR") = true.
Proof.
  intros H. unfold executionErrorCode. destruct (Nat.leb 3 (String.length code)) eqn:E; [|by vm_compute]. apply Nat.leb_le in E.
  unfold errorCodePattern, attemptErrorCodePattern in *. eapply all_chars_tail_bound; [..|exact H]; [done|done|lia].
Qed.

Lemma category_recorded c : validErrorCategory c = true -> categoryPattern (category_text c) = true /\ endReasonPattern ("provider_" ++ category_text c) = true.
Proof. destruct c; try done; intros _; split; vm_compute; reflexivity. Qed.

Lemma provider_id_recorded id : validateOptionalIdentifier id 256 = true -> no_text id || providerRequestIDPattern id = true.
Proof.
  unfold validateOptionalIdentifier, no_text. rewrite !orb_true_iff, andb_true_iff. intros [H|[_ H]]; [by left|right]. exact H.
Qed.

Lemma validated_detail d : NormalizedError_Validate d = true ->
  errorCodePattern (ne_Code d) = true /\ validErrorCategory (ne_Category d) = true /\ validateOptionalIdentifier (ne_ProviderRequestID d) 256 = true /\
  (ne_ProviderStatus d = 0 \/ 100 <= ne_ProviderStatus d <= 599) /\
  forall after, ne_RetryAfter d = Some after -> ne_Retryable d = true /\ 0 < after <= 24 * hour.
Proof.
  unfold NormalizedError_Validate. intros [[[[[[H1 H2]%andb_true_iff _]%andb_true_iff H4]%andb_true_iff H5]%andb_true_iff _]%andb_true_iff H7]%andb_true_iff.
  split_and!; try done.
  - apply orb_true_iff in H5 as [H5|H5]; prop_hyps; [by left|by right].
  - intros after E. rewrite E in H4. prop_hyps. done.
Qed.

(** Every failure of an attempt is recordable: whatever an executor returns, with
    provider details validated as NewProviderError demands, the outcome derived from it passes
    the recorder's validation. *)
Theorem attempt_failures_are_recordable err :
  provider_detail_ok err -> AttemptOutcome_Validate (attemptOutcomeForError err) = true.
Proof.
  intros Hd. unfold attemptOutcomeForError. destruct (errors_Is err ContextCanceled); [by vm_compute|].
  destruct (as_provider err) as [d|] eqn:E; [|repeat case_match; by vm_compute].
  destruct (validated_detail d (Hd d E)) as (Hc & Hcat & Hid & _). apply provider_id_recorded in Hid. destruct (category_recorded _ Hcat) as [Hc1 Hc2].
  case_bool_decide; unfold AttemptOutcome_Validate; cbn [ao_EndReason ao_ProviderRequestID ao_HeadersReceived ao_Usage andb]; rewrite Hid, andb_true_r.
  - by vm_compute.
  - rewrite Hc2. unfold outcome_status_ok. cbn [ao_AttemptStatus ao_RequestStatus ao_ErrorCategory ao_ErrorCode andb].
    destruct (ne_Retryable d); by rewrite Hc1, (code_recorded _ Hc).
Qed.

(** Every outcome of an attempt is accepted by the passive health window, if the deployment
    is identified and the attempt took no longer than the window's limit. *)
Theorem attempt_outcomes_are_observable err deployment latency :
  (forall f, err = Some f -> provider_detail_ok f) -> routeDeploymentIDPattern deployment = true -> 0 <= latency <= maximumPassiveLatency ->
  PassiveObservation_Validate {| obs_DeploymentID := deployment; obs_Outcome := (passiveOutcome err).1; obs_ProviderStatus := (passiveOutcome err).2;
                                 FirstTokenLatency := None; TotalLatency := latency |} = true.
Proof.
  intros Hd Hdep Hl. unfold PassiveObservation_Validate. cbn [obs_DeploymentID obs_Outcome obs_ProviderStatus FirstTokenLatency TotalLatency].
  rewrite Hdep, andb_true_r, (proj2 (Z.leb_le 0 latency)), (proj2 (Z.leb_le latency _)), !andb_true_r by lia. cbn [andb].
  unfold passiveOutcome. destruct err as [f|]; [|done]. destruct (as_provider f) as [d|] eqn:E; [|by repeat case_match].
  destruct (validated_detail d (Hd f eq_refl d E)) as (_ & _ & _ & Hs & _).
  destruct (ne_ProviderStatus d =? 429) eqn:E1; [apply Z.eqb_eq in E1; by rewrite E1|]. destruct (500 <=? ne_ProviderStatus d) eqn:E2.
  - apply Z.leb_le in E2. simpl. rewrite (proj2 (Z.leb_le 500 _)), (proj2 (Z.leb_le _ 599)), (proj2 (Z.leb_le 100 _)) by lia. by rewrite orb_true_r.
  - assert ((ne_ProviderStatus d =? 0) || (100 <=? ne_ProviderStatus d) && (ne_ProviderStatus d <=? 599) = true) as Hb.
    { destruct Hs as [->|[? ?]]; [done|]. rewrite (proj2 (Z.leb_le 100 _)), (proj2 (Z.leb_le _ 599)) by lia. by rewrite orb_true_r. }
    repeat case_bool_decide; simpl; by rewrite Hb.
Qed.

(** ** Public errors *)
Lemma fixed_definition status code message type_ param retryable retryAfter :
  definition_ok (trimmed_definition (gateway_definition status code message type_ param retryable 0)) = true ->
  (retryAfter = 0 \/ millisecond <= retryAfter /\ retryable = true) ->
  exists d, MustNew (gateway_definition status code message type_ param retryable retryAfter) = Some d /\ definition_ok d = true /\
    ed_Status d = status /\ ed_Retryable d = retryable /\ ed_RetryAfter d = retryAfter.
Proof.
  intros H Hr. unfold MustNew, NewError. set (d := trimmed_definition _).
  assert (definition_ok d = true) as Hok; [|rewrite Hok; exists d; done].
  unfold definition_ok, d in *. cbn [trimmed_definition gateway_definition ed_Status ed_Code ed_Message ed_Type ed_Param ed_Retryable ed_RetryAfter] in *.
  do 3 (apply andb_true_iff in H as [H _]). rewrite H. simpl. destruct Hr as [->|[Hm ->]]; [done|]. unfold millisecond in *.
  rewrite (proj2 (Z.leb_le 0 retryAfter)), (proj2 (Z.ltb_ge retryAfter 1000000)) by lia. by rewrite !andb_false_r.
Qed.

(** Rounds of the provider's delay that a public error can carry. *)
Definition delay_presentable (err : Failure) : Prop := forall d after, as_provider err = Some d -> ne_RetryAfter d = Some after -> millisecond <= after.

(** A client always receives a well-formed public error, of a client or server error
    status, that offers a retry delay only when it is retryable, provided that a delay named
    by the provider is at least a millisecond; otherwise the handler panics. *)
Theorem public_errors_are_well_formed err :
  provider_detail_ok err -> delay_presentable err ->
  exists d, executionPublicError err = Some d /\ definition_ok d = true /\ 400 <= ed_Status d <= 599 /\ (0 < ed_RetryAfter d -> ed_Retryable d = true).
Proof.
  intros Hd Hr.
  assert (forall status code message retryable after, definition_ok (trimmed_definition (gateway_definition status code message "provider_error" "" retryable 0)) = true ->
    (after = 0 \/ millisecond <= after /\ retryable = true) ->
    exists d, newExecutionAPIError status code message retryable after = Some d /\ definition_ok d = true /\ 400 <= ed_Status d <= 599 /\ (0 < ed_RetryAfter d -> ed_Retryable d = true)) as New.
  { intros status code message retryable after H1 H2. destruct (fixed_definition _ _ _ _ _ _ _ H1 H2) as (d & E & Hok & Es & Er & Ea). exists d.
    unfold newExecutionAPIError. split; [done|]. split; [done|]. rewrite Es, Er, Ea.
    unfold definition_ok in H1. cbn [trimmed_definition gateway_definition ed_Status] in H1. prop_hyps. split; [lia|]. intros. destruct H2 as [->|[_ ->]]; [lia|done]. }
  unfold executionPublicError.
  destruct (_ || _); [apply New; [by vm_compute|right; vm_compute; split; [discriminate|done]]|].
  destruct (errors_Is err ContextCanceled); [apply New; [by vm_compute|by left]|].
  destruct (_ || _); [apply New; [by vm_compute|right; vm_compute; split; [discriminate|done]]|].
  destruct (as_provider err) as [d|] eqn:E.
  - destruct (validated_detail d (Hd d E)) as (_ & _ & _ & _ & Ha).
    assert (default 0 (ne_RetryAfter d) = 0 \/ millisecond <= default 0 (ne_RetryAfter d) /\ ne_Retryable d = true) as Hdelay.
    { destruct (ne_RetryAfter d) as [after|] eqn:Er; [right|by left]. simpl. split; [by eapply Hr|]. by destruct (Ha after eq_refl). }
    unfold providerPublicError. destruct (ne_Category d); (apply New; [try destruct (ne_Retryable d); by vm_compute|first [exact Hdelay|by left]]).
  - destruct (errors_Is err ErrAdapterUnavailable); [apply New; [by vm_compute|right; vm_compute; split; [discriminate|done]]|].
    destruct (errors_Is err ProxyErrTransport); [apply New; [by vm_compute|right; vm_compute; split; [discriminate|done]]|].
    destruct (errors_Is err ProxyErrProtocol); apply New; first [by vm_compute|by left].
Qed.

(** The converse: only a provider's delay of less than a millisecond cannot be presented. *)
Lemma unpresentable_delay err : provider_detail_ok err -> executionPublicError err = None ->
  exists d after, as_provider err = Some d /\ ne_RetryAfter d = Some after /\ after < millisecond.
Proof.
  intros Hd Hnone. destruct (as_provider err) as [d|] eqn:E.
  - destruct (ne_RetryAfter d) as [after|] eqn:Ea; [destruct (decide (after < millisecond)) as [?|Hge]; [by eauto|]|].
    all: destruct (public_errors_are_well_formed err Hd) as (? & Hs & _); [intros d' after'; rewrite E; intros [= <-]; rewrite Ea; intros ?; simplify_eq; lia|congruence].
  - destruct (public_errors_are_well_formed err Hd) as (? & Hs & _); [intros d' after'; by rewrite E|congruence].
Qed.

(** A provider that answers with a Retry-After date less than a millisecond ahead makes
    the construction of the public error panic. *)
Definition imminent_retry : NormalizedError :=
  {| ne_Code := "OPENAI_RATE_LIMITED"; ne_Category := ErrorRateLimit; ne_Retryable := true; ne_RetryAfter := Some (400 * microsecond);
     ne_ProviderStatus := 429; ne_SafeMessage := "OpenAI rate limited the request"; ne_ProviderRequestID := "" |}.
Theorem imminent_retry_panics : NormalizedError_Validate imminent_retry = true /\ executionPublicError (Provider imminent_retry) = None.
Proof. split; vm_compute; reflexivity. Qed.

(** ** Chat completions as the client sees them (src/internal/gateway/chat_response.go)

    The projection of a validated provider response onto the public chat completion. The
    JSON text of the result is not modelled. *)
Record chatResponseToolCall := { tcr_ID : string; tcr_Type : string; tcr_Name : string; tcr_Arguments : RawMessage }.
Record chatAssistantMessage := { cam_Role : string; cam_Content : option string; cam_ToolCalls : list chatResponseToolCall }.
Record chatResponseChoice := { crc_Index : Z; crc_Message : chatAssistantMessage; crc_FinishReason : string }.
Record chatPromptTokenDetails := { ptd_CachedTokens : option Z; ptd_CacheWriteTokens : option Z; ptd_AudioTokens : option Z }.
Record chatCompletionTokenDetails := { ctd_ReasoningTokens : option Z; ctd_AudioTokens : option Z }.
Record chatUsageResponse := {
  cu_PromptTokens : Z; cu_CompletionTokens : Z; cu_TotalTokens : Z; cu_PromptTokensDetails : option chatPromptTokenDetails;
  cu_CompletionTokenDetails : option chatCompletionTokenDetails; cu_Source : Metering.Source }.
Record chatGatewayMetadata := { cgm_RequestID : string; cgm_AttemptCount : Z; cgm_UsageComplete : bool }.
Record chatCompletionResponse := {
  ccr_ID : string; ccr_Object : string; ccr_Created : Z; ccr_Model : string; ccr_Choices : list chatResponseChoice;
  ccr_Usage : option chatUsageResponse; ccr_Gateway : chatGatewayMetadata }.

(** The text of the parts; [None] if one is not text. *)
Fixpoint content_text (parts : list ContentPart) : option string :=
  match parts with
  | [] => Some ""%string
  | part :: rest =>
      if bool_decide (part_Kind part = ContentText) then text ← content_text rest; Some (part_Text part ++ text)%string else None
  end.

(** [None] is [proxy.ErrProtocol]. *)
Definition projectAssistantMessage (message : Message) : option chatAssistantMessage :=
  if bool_decide (msg_Role message = RoleAssistant) then
    text ← content_text (msg_Parts message);
    Some {| cam_Role := "assistant"; cam_Content := if bool_decide (text = ""%string) then None else Some text;
            cam_ToolCalls := (fun call => {| tcr_ID := call_ID call; tcr_Type := "function"; tcr_Name := call_Name call; tcr_Arguments := call_Arguments call |})
                               <$> msg_ToolCalls message |}
  else None.

Definition projectFinishReason (reason : FinishReason) : option string :=
  match reason with
  | FinishStop => Some "stop"%string | FinishLength => Some "length"%string | FinishToolCalls => Some "tool_calls"%string
  | FinishContentPolicy => Some "content_filter"%string | FinishCancelled => Some "cancelled"%string | FinishError => Some "error"%string
  | FinishUnknown => Some "unknown"%string | FinishOther _ => None
  end.

Definition tokenPointer (count : TokenCount) : option Z := if tc_Present count then Some (tc_Value count) else None.

Definition projectChatUsage (usage : option NormalizedUsage) : option chatUsageResponse * bool :=
  match usage with
  | None => (None, false)
  | Some u =>
      if tc_Present (u_InputTokens u) && tc_Present (u_OutputTokens u) then
        let prompt := {| ptd_CachedTokens := tokenPointer (u_CacheReadTokens u); ptd_CacheWriteTokens := tokenPointer (u_CacheWriteTokens u);
                         ptd_AudioTokens := tokenPointer (u_AudioInputTokens u) |} in
        let completion := {| ctd_ReasoningTokens := tokenPointer (u_ReasoningTokens u); ctd_AudioTokens := tokenPointer (u_AudioOutputTokens u) |} in
        (Some {| cu_PromptTokens := tc_Value (u_InputTokens u); cu_CompletionTokens := tc_Value (u_OutputTokens u);
                 cu_TotalTokens := i64 (tc_Value (u_InputTokens u) + tc_Value (u_OutputTokens u));
                 cu_PromptTokensDetails :=
                   match ptd_CachedTokens prompt, ptd_CacheWriteTokens prompt, ptd_AudioTokens prompt with None, None, None => None | _, _, _ => Some prompt end;
                 cu_CompletionTokenDetails := match ctd_ReasoningTokens completion, ctd_AudioTokens completion with None, None => None | _, _ => Some completion end;
                 cu_Source := u_Source u |}, u_Complete u)
      else (None, false)
  end.

Definition projectChoice (choice : NormalizedChoice) : option chatResponseChoice :=
  message ← projectAssistantMessage (nc_Message choice);
  reason ← projectFinishReason (nc_FinishReason choice);
  Some {| crc_Index := nc_Index choice; crc_Message := message; crc_FinishReason := reason |}.

(** [Time.Unix] *)
Definition unix_seconds (t : Time) : Z := (t - unix_epoch) / second.

Definition projectChatCompletion (result : NormalizedResponse) (logicalModel requestID : string) (attemptCount : Z) : option chatCompletionResponse :=
  if NormalizedResponse_Validate result && negb (is_empty logicalModel) && negb (is_empty requestID) && (1 <=? attemptCount) then
    choices ← mapM projectChoice (resp_Choices result);
    let '(usage, usageComplete) := projectChatUsage (resp_Usage result) in
    Some {| ccr_ID := resp_ID result; ccr_Object := "chat.completion"; ccr_Created := unix_seconds (resp_ObservedAt result); ccr_Model := logicalModel;
            ccr_Choices := choices; ccr_Usage := usage;
            ccr_Gateway := {| cgm_RequestID := requestID; cgm_AttemptCount := attemptCount; cgm_UsageComplete := usageComplete |} |}
  else None.

(** ** What a projection keeps *)
Lemma content_text_some parts text : content_text parts = Some text -> Forall (fun p => part_Kind p = ContentText) parts.
Proof.
  revert text. induction parts as [|p parts IH]; intros text; simpl; [constructor|]. case_bool_decide as Hk; [|done].
  intros (t & Ht & _)%bind_Some. constructor; [done|eauto].
Qed.

Lemma content_text_total parts : Forall (fun p => part_Kind p = ContentText) parts -> is_Some (content_text parts).
Proof. induction 1 as [|p parts Hp _ [t IH]]; simpl; [eauto|]. rewrite bool_decide_eq_true_2 by done. rewrite IH. simpl. eauto. Qed.

Lemma valid_choices choices seen : choices_ok choices seen = true ->
  Forall (fun c => msg_Role (nc_Message c) = RoleAssistant /\ is_Some (projectFinishReason (nc_FinishReason c))) choices.
Proof.
  revert seen. induction choices as [|c choices IH]; intros seen; simpl; [constructor|]. intros H. prop_hyps. constructor; [|eauto]. split; [done|].
  unfold validateFinishReason in *. destruct (nc_FinishReason c); simpl; eauto; done.
Qed.

(** A validated response is projected for the client exactly when all of its content is
    text; the client then sees every choice with its index, its concatenated text, its tool
    calls and its finish reason, under the logical model, and the sum of the token counts. *)
Theorem projection_is_faithful result logicalModel requestID attemptCount :
  NormalizedResponse_Validate result = true -> logicalModel <> ""%string -> requestID <> ""%string -> 1 <= attemptCount ->
  match projectChatCompletion result logicalModel requestID attemptCount with
  | None => exists c p, c ∈ resp_Choices result /\ p ∈ msg_Parts (nc_Message c) /\ part_Kind p <> ContentText
  | Some r =>
      ccr_ID r = resp_ID result /\ ccr_Model r = logicalModel /\ cgm_AttemptCount (ccr_Gateway r) = attemptCount /\
      Forall2 (fun c pc => crc_Index pc = nc_Index c /\ content_text (msg_Parts (nc_Message c)) = Some (default ""%string (cam_Content (crc_Message pc))) /\
                 Some (crc_FinishReason pc) = projectFinishReason (nc_FinishReason c) /\
                 (fun t => (tcr_ID t, tcr_Name t, tcr_Arguments t)) <$> cam_ToolCalls (crc_Message pc) = (fun t => (call_ID t, call_Name t, call_Arguments t)) <$> msg_ToolCalls (nc_Message c))
        (resp_Choices result) (ccr_Choices r)
  end.
Proof.
  intros Hv Hm Hr Ha. unfold projectChatCompletion, is_empty. rewrite Hv, !bool_decide_eq_false_2, (proj2 (Z.leb_le _ _) Ha) by done. cbn [andb negb].
  assert (Forall (fun c => msg_Role (nc_Message c) = RoleAssistant /\ is_Some (projectFinishReason (nc_FinishReason c))) (resp_Choices result)) as Hc.
  { unfold NormalizedResponse_Validate in Hv. prop_hyps. by eapply valid_choices. }
  clear Hv. destruct (mapM projectChoice (resp_Choices result)) as [choices|] eqn:E; simpl.
  - destruct (projectChatUsage (resp_Usage result)) as [usage complete]. simpl. split_and!; try done. apply mapM_Some in E. eapply Forall2_impl; [exact E|].
    intros c pc H. apply bind_Some in H as (message & Hmsg & H). apply bind_Some in H as (reason & Hreason & [= <-]). simpl.
    unfold projectAssistantMessage in Hmsg. case_bool_decide; [|done]. apply bind_Some in Hmsg as (text & Ht & [= <-]). simpl. rewrite Ht, Hreason.
    split_and!; try done; [by case_bool_decide as Et; simpl; [rewrite Et|]|]. rewrite <- list_fmap_compose. done.
  - apply mapM_None in E. apply Exists_exists in E as (c & Hin & Hn). exists c.
    rewrite Forall_forall in Hc. destruct (Hc c Hin) as [Hrole [reason Hreason]]. unfold projectChoice, projectAssistantMessage in Hn. rewrite bool_decide_eq_true_2 in Hn by done.
    destruct (content_text (msg_Parts (nc_Message c))) as [text|] eqn:Et; simpl in Hn; [by rewrite Hreason in Hn|].
    assert (~ Forall (fun p => part_Kind p = ContentText) (msg_Parts (nc_Message c))) as Hnot by (intros H; destruct (content_text_total _ H); congruence).
    apply not_Forall_Exists in Hnot; [|intros p; apply ContentKind_eq_dec]. apply Exists_exists in Hnot as (p & Hp & Hk). eauto.
Qed.
