(* ===== verification/RouteDecision.v ===== *)
(** * Explanations of routing decisions (src/internal/routedecision/model.go)

    The facts the gateway persists about each selection and each retry decision, and the
    validation that the recorder applies to them. *)
From Stdlib Require Import ZArith Lia Bool Ascii String.
From stdpp Require Import base tactics option list strings.
From S2P Require Import Prelude Identifiers Retry RoutePolicy RouteFilter.
Definition maximumDecisionCandidates : nat := 256.

Inductive RouteOutcome := OutcomeSelected | OutcomeNoCandidate | OutcomeSelectionFailed | RouteOutcomeOther (value : string).

Record RouteDecisionInput := {
  rdi_RequestID : string; rdi_NextAttemptNo : Z; rdi_Outcome : RouteOutcome; rdi_Filter : FilterResult; rdi_Policy : option PolicyDecision;
  rdi_Retry : option Retry.Decision }.

Definition selectedCandidateEligible (filter : FilterResult) (deploymentID : string) : bool :=
  match DecisionFor filter deploymentID with
  | Some d => cd_Eligible d && match cd_Reason d with FilterEligible => true | _ => false end
  | None => false
  end.

Definition hasEligibleCandidate (filter : FilterResult) : bool := existsb cd_Eligible (fr_Decisions filter).

Definition RouteDecisionInput_Validate (input : RouteDecisionInput) : bool :=
  requestIDPattern (rdi_RequestID input) && (1 <=? rdi_NextAttemptNo input) &&
  Nat.leb (length (fr_Decisions (rdi_Filter input))) maximumDecisionCandidates && ValidateExplanation (rdi_Filter input) &&
  match rdi_Outcome input, rdi_Policy input with
  | OutcomeSelected, Some policy => PolicyDecision_Validate policy && selectedCandidateEligible (rdi_Filter input) (SelectedDeploymentID policy)
  | OutcomeSelected, None => false
  | OutcomeNoCandidate, None => negb (hasEligibleCandidate (rdi_Filter input))
  | OutcomeSelectionFailed, None => true
  | _, _ => false
  end &&
  match rdi_Retry input with Some d => Decision_Validate d | None => true end.

Record RetryInput := { ri_RequestID : string; ri_AttemptNo : Z; ri_Decision : Retry.Decision }.

Definition RetryInput_Validate (input : RetryInput) : bool :=
  requestIDPattern (ri_RequestID input) && (1 <=? ri_AttemptNo input) && Decision_Validate (ri_Decision input) &&
  (d_AttemptNumber (ri_Decision input) =? ri_AttemptNo input).
