(* ===== verification/RouteDecisionStore.v ===== *)
(** * The store of routing explanations (src/internal/routedecision/postgres.go)

    Decisions are appended under the lock of their request's row, one retry decision per
    attempt is inserted by a single statement, and both are replayed within the scope of
    their tenant and project. The tables are lists of rows next to the tables of the
    execution recorder, with the constraints of
    migrations/000009_create_route_decisions.up.sql. [json.Marshal], [json.Unmarshal] and
    the jsonb functions of the server are the class [DecisionJSON], the rounding of a
    timestamptz column is the class [TimestampColumn]. *)
From Stdlib Require Import ZArith Lia Bool Ascii String.
From stdpp Require Import base tactics option list strings gmap fin_maps relations.
From S2P Require Import Prelude Postgres Identifiers Unicode Catalog Retry RoutePolicy Metering Execution ExecutionStore ExecutionTheorems RouteFilter RouteDecision.

Inductive decision_error := DecisionInvalid | DecisionUnavailable | DecisionConflict | DecisionNotFound.

(** [Scope] of model.go *)
Record DecisionScope := { ds_TenantID : string; ds_ProjectID : string }.
#[export] Instance DecisionScope_eq_dec : EqDecision DecisionScope.
Proof. solve_decision. Defined.
Definition DecisionScope_Validate (s : DecisionScope) : bool := uuidPattern (ds_TenantID s) && uuidPattern (ds_ProjectID s).

(** A JSON column: what Go writes and reads, and what the constraints ask of it. *)
Class DecisionJSON (J : Type) := {
  marshal_candidates : list CandidateDecision -> J; unmarshal_candidates : J -> option (list CandidateDecision);
  marshal_policy : PolicyDecision -> J; unmarshal_policy : J -> option PolicyDecision;
  marshal_retry : Retry.Decision -> J; unmarshal_retry : J -> option Retry.Decision;
  jsonb_array_length : J -> option nat; jsonb_is_object : J -> bool; jsonb_octets : J -> Z
}.

(** Reading back what was written, for the values that pass validation: their texts are
    ASCII and their numbers within range. *)
Class DecisionJSONLaws (J : Type) `{DecisionJSON J} : Prop := {
  candidates_back ds : explanation_ok ds [] = true -> unmarshal_candidates (marshal_candidates ds) = Some ds;
  policy_back p : PolicyDecision_Validate p = true -> unmarshal_policy (marshal_policy p) = Some p;
  retry_back d : Decision_Validate d = true -> unmarshal_retry (marshal_retry d) = Some d
}.

(** A column of type timestamptz holds whole microseconds: the server rounds the time that it
    is given to the nearest one, and returns the rounded time. A time outside the range of the
    type is refused. *)
Class TimestampColumn := {
  timestamptz : Time -> option Time;
  timestamptz_whole t t' : timestamptz t = Some t' -> (microsecond | t');
  timestamptz_near t t' : timestamptz t = Some t' -> 2 * Z.abs (t' - t) <= microsecond
}.

(** ** Rows *)
Section Store.
Context {J : Type} `{DecisionJSON J} `{TimestampColumn}.

Record DecisionRow := {
  dr_requestID : string; dr_decisionNo : Z; dr_nextAttemptNo : Z; dr_outcome : RouteOutcome; dr_filterVersion : string; dr_candidates : J;
  dr_policyVersion : option string; dr_policy : option J; dr_retryVersion : option string; dr_retry : option J; dr_selected : option string; dr_decidedAt : Time }.

Record RetryRow := { rr_requestID : string; rr_attemptNo : Z; rr_policyVersion : string; rr_decision : J; rr_decidedAt : Time }.

Record DecisionDB := { dd_exec : ExecDB; dd_decisions : list DecisionRow; dd_retries : list RetryRow }.

(** [Record] and [RetryRecord] of model.go *)
Record RouteRecord := {
  rrec_RequestID : string; rrec_DecisionNo : Z; rrec_NextAttemptNo : Z; rrec_Outcome : RouteOutcome; rrec_Filter : FilterResult;
  rrec_Policy : option PolicyDecision; rrec_Retry : option Retry.Decision; rrec_DecidedAt : Time }.
Record RetryRecord := { rtr_RequestID : string; rtr_AttemptNo : Z; rtr_Decision : Retry.Decision; rtr_DecidedAt : Time }.

Definition wrapDatabaseError (e : db_failure) : decision_error :=
  match e with
  | PqError code _ => if bool_decide (code ∈ ["23503"; "23505"; "23514"]%string) then DecisionConflict else DecisionUnavailable
  | DriverError => DecisionUnavailable
  end.

(** A query for one row that finds none is [sql.ErrNoRows]. *)
Definition query_row {A : Type} (faults : Faults) (n : nat) (row : option A) : result A decision_error :=
  let? found := statement faults n wrapDatabaseError (Ok row) in match found with Some a => Ok a | None => Err DecisionConflict end.

Definition check_violation : db_failure := PqError "23514" "".
Definition key_violation : db_failure := PqError "23505" "".
Definition reference_violation : db_failure := PqError "23503" "".
Definition datetime_overflow : db_failure := PqError "22008" "".

Definition column_time (t : Time) : result Time db_failure := match timestamptz t with Some t' => Ok t' | None => Err datetime_overflow end.

(** ** Constraints *)
Definition within_octets (limit : Z) (j : option J) : bool := match j with Some j => jsonb_is_object j && (jsonb_octets j <=? limit) | None => true end.
Definition version_format (v : option string) : bool := match v with Some v => routePolicyVersionPattern v | None => true end.

Definition selection_valid (row : DecisionRow) : bool :=
  match dr_outcome row with
  | OutcomeSelected => has (dr_selected row) && has (dr_policy row)
  | OutcomeNoCandidate | OutcomeSelectionFailed => negb (has (dr_selected row)) && negb (has (dr_policy row))
  | RouteOutcomeOther _ => false
  end.

Definition decision_checks (row : DecisionRow) : bool :=
  (0 <? dr_decisionNo row) && (0 <? dr_nextAttemptNo row) && routePolicyVersionPattern (dr_filterVersion row) &&
  match jsonb_array_length (dr_candidates row) with Some n => Nat.leb n 256 | None => false end && (jsonb_octets (dr_candidates row) <=? 65536) &&
  version_format (dr_policyVersion row) && within_octets 16384 (dr_policy row) && version_format (dr_retryVersion row) && within_octets 16384 (dr_retry row) &&
  Bool.eqb (has (dr_policyVersion row)) (has (dr_policy row)) && Bool.eqb (has (dr_retryVersion row)) (has (dr_retry row)) && selection_valid row.

Definition insert_decision (refs : References) (db : DecisionDB) (row : DecisionRow) : result DecisionDB db_failure :=
  ensure decision_checks row else check_violation in
  ensure negb (existsb (fun old => bool_decide (dr_requestID old = dr_requestID row) && (dr_decisionNo old =? dr_decisionNo row)) (dd_decisions db)) else key_violation in
  ensure bool_decide (is_Some (x_requests (dd_exec db) !! dr_requestID row)) &&
         match dr_selected row with Some id => has (ref_deployment refs id) | None => true end else reference_violation in
  Ok {| dd_exec := dd_exec db; dd_decisions := dd_decisions db ++ [row]; dd_retries := dd_retries db |}.

(** ** Record *)
Definition marshalPolicy (policy : option PolicyDecision) : result (option J * string * string) decision_error :=
  match policy with
  | None => Ok (None, "", "")%string
  | Some p => ensure PolicyDecision_Validate p else DecisionInvalid in Ok (Some (marshal_policy p), dec_PolicyVersion p, SelectedDeploymentID p)
  end.

Definition marshalRetry (decision : option Retry.Decision) : result (option J * string) decision_error :=
  match decision with
  | None => Ok (None, ""%string)
  | Some d => ensure Decision_Validate d else DecisionInvalid in Ok (Some (marshal_retry d), d_PolicyVersion d)
  end.

Definition nullif (s : string) : option string := if String.eqb s "" then None else Some s.

Definition decisions_of (rows : list DecisionRow) (id : string) : list DecisionRow := filter (fun row => dr_requestID row = id) rows.
Definition next_decision_no (rows : list DecisionRow) (id : string) : Z := foldr (fun row n => Z.max (dr_decisionNo row) n) 0 (decisions_of rows id) + 1.

Definition may_decide (s : RequestStatus) : bool := match s with RequestRouting | RequestRunning => true | _ => false end.

Definition decision_row (input : RouteDecisionInput) (decisionNo : Z) (policy : option J * string * string) (retry : option J * string) (decidedAt : Time) : DecisionRow :=
  {| dr_requestID := rdi_RequestID input; dr_decisionNo := decisionNo; dr_nextAttemptNo := rdi_NextAttemptNo input; dr_outcome := rdi_Outcome input;
     dr_filterVersion := fr_PolicyVersion (rdi_Filter input); dr_candidates := marshal_candidates (fr_Decisions (rdi_Filter input));
     dr_policyVersion := nullif policy.1.2; dr_policy := policy.1.1; dr_retryVersion := nullif retry.2; dr_retry := retry.1;
     dr_selected := nullif policy.2; dr_decidedAt := decidedAt |}.

Definition route_record (input : RouteDecisionInput) (decisionNo : Z) (decidedAt : Time) : RouteRecord :=
  {| rrec_RequestID := rdi_RequestID input; rrec_DecisionNo := decisionNo; rrec_NextAttemptNo := rdi_NextAttemptNo input; rrec_Outcome := rdi_Outcome input;
     rrec_Filter := rdi_Filter input; rrec_Policy := rdi_Policy input; rrec_Retry := rdi_Retry input; rrec_DecidedAt := decidedAt |}.

Definition record_statements (refs : References) (faults : Faults) (db : DecisionDB) (input : RouteDecisionInput) policy retry (now : Time) : result (DecisionDB * RouteRecord) decision_error :=
  let? request := query_row faults 0 (x_requests (dd_exec db) !! rdi_RequestID input) in
  ensure may_decide (gr_Status request) && (rdi_NextAttemptNo input =? gr_AttemptCount request + 1) else DecisionConflict in
  let? decisionNo := statement faults 1 wrapDatabaseError (Ok (next_decision_no (dd_decisions db) (rdi_RequestID input))) in
  let? db := statement faults 2 wrapDatabaseError (let? decidedAt := column_time now in insert_decision refs db (decision_row input decisionNo policy retry decidedAt)) in
  Ok (db, route_record input decisionNo now).

Definition Record_decision (refs : References) (faults : Faults) (db : DecisionDB) (ctxNil : bool) (input : RouteDecisionInput) (now : Time) : DecisionDB * result RouteRecord decision_error :=
  if ctxNil || negb (RouteDecisionInput_Validate input) then (db, Err DecisionInvalid)
  else match marshalPolicy (rdi_Policy input), marshalRetry (rdi_Retry input) with
       | Ok policy, Ok retry => in_transaction faults DecisionUnavailable db (record_statements refs faults db input policy retry now)
       | Err e, _ | _, Err e => (db, Err e)
       end.

(** ** RecordRetry *)
Definition open_attempt (s : AttemptStatus) : bool := match s with AttemptConnecting | AttemptHeadersReceived | AttemptStreaming => true | _ => false end.

(** The row that the INSERT ... SELECT joins, if there is one; (request_id, attempt_no) is
    unique among attempts. *)
Definition retry_selected (db : ExecDB) (requestID : string) (attemptNo : Z) : bool :=
  existsb (fun kv : string * RouteAttempt => bool_decide (ra_RequestID kv.2 = requestID) && (ra_AttemptNo kv.2 =? attemptNo) && open_attempt (ra_Status kv.2)) (map_to_list (x_attempts db)) &&
  match x_requests db !! requestID with Some r => bool_decide (gr_Status r = RequestRunning) | None => false end.

Definition retry_checks (row : RetryRow) : bool :=
  (0 <? rr_attemptNo row) && routePolicyVersionPattern (rr_policyVersion row) && jsonb_is_object (rr_decision row) && (jsonb_octets (rr_decision row) <=? 16384).

(** The statement: the new tables and the number of rows it inserted. *)
Definition insert_retry (db : DecisionDB) (row : RetryRow) : result (DecisionDB * Z) db_failure :=
  if negb (retry_selected (dd_exec db) (rr_requestID row) (rr_attemptNo row)) then Ok (db, 0)
  else
    ensure retry_checks row else check_violation in
    ensure negb (existsb (fun old => bool_decide (rr_requestID old = rr_requestID row) && (rr_attemptNo old =? rr_attemptNo row)) (dd_retries db)) else key_violation in
    Ok ({| dd_exec := dd_exec db; dd_decisions := dd_decisions db; dd_retries := dd_retries db ++ [row] |}, 1).

Definition retry_decision_row (input : RetryInput) (decidedAt : Time) : RetryRow :=
  {| rr_requestID := ri_RequestID input; rr_attemptNo := ri_AttemptNo input; rr_policyVersion := d_PolicyVersion (ri_Decision input);
     rr_decision := marshal_retry (ri_Decision input); rr_decidedAt := decidedAt |}.

Definition RecordRetry (faults : Faults) (db : DecisionDB) (ctxNil : bool) (input : RetryInput) (now : Time) : DecisionDB * result RetryRecord decision_error :=
  if ctxNil || negb (RetryInput_Validate input) then (db, Err DecisionInvalid)
  else
    let '(db', rows) := autocommit faults DecisionUnavailable db (statement faults 0 wrapDatabaseError (let? decidedAt := column_time now in insert_retry db (retry_decision_row input decidedAt))) in
    match rows with
    | Err e => (db', Err e)
    | Ok rows =>
        if negb (rows =? 1) then (db', Err DecisionConflict)
        else (db', Ok {| rtr_RequestID := ri_RequestID input; rtr_AttemptNo := ri_AttemptNo input; rtr_Decision := ri_Decision input; rtr_DecidedAt := now |})
    end.

(** ** Replay *)
Definition scan_policy (row : DecisionRow) : result (option PolicyDecision) decision_error :=
  match dr_policy row with
  | None => Ok None
  | Some j =>
      match unmarshal_policy j with
      | None => Err DecisionUnavailable
      | Some p => ensure bool_decide (dr_policyVersion row = Some (dec_PolicyVersion p)) && bool_decide (dr_selected row = Some (SelectedDeploymentID p)) else DecisionUnavailable in Ok (Some p)
      end
  end.

Definition scan_retry (row : DecisionRow) : result (option Retry.Decision) decision_error :=
  match dr_retry row with
  | None => Ok None
  | Some j =>
      match unmarshal_retry j with
      | None => Err DecisionUnavailable
      | Some d => ensure bool_decide (dr_retryVersion row = Some (d_PolicyVersion d)) else DecisionUnavailable in Ok (Some d)
      end
  end.

Definition scanDecision (row : DecisionRow) : result RouteRecord decision_error :=
  match unmarshal_candidates (dr_candidates row) with
  | None => Err DecisionUnavailable
  | Some decisions =>
      let? policy := scan_policy row in
      let? retry := scan_retry row in
      let filter := {| fr_PolicyVersion := dr_filterVersion row; fr_Decisions := decisions; fr_eligible := [] |} in
      let input := {| rdi_RequestID := dr_requestID row; rdi_NextAttemptNo := dr_nextAttemptNo row; rdi_Outcome := dr_outcome row; rdi_Filter := filter; rdi_Policy := policy; rdi_Retry := retry |} in
      ensure (1 <=? dr_decisionNo row) && negb (time_is_zero (dr_decidedAt row)) && RouteDecisionInput_Validate input else DecisionUnavailable in
      Ok (route_record input (dr_decisionNo row) (dr_decidedAt row))
  end.

Definition scanRetry (row : RetryRow) : result RetryRecord decision_error :=
  match unmarshal_retry (rr_decision row) with
  | None => Err DecisionUnavailable
  | Some d =>
      ensure bool_decide (d_PolicyVersion d = rr_policyVersion row) && RetryInput_Validate {| ri_RequestID := rr_requestID row; ri_AttemptNo := rr_attemptNo row; ri_Decision := d |} &&
             negb (time_is_zero (rr_decidedAt row)) else DecisionUnavailable in
      Ok {| rtr_RequestID := rr_requestID row; rtr_AttemptNo := rr_attemptNo row; rtr_Decision := d; rtr_DecidedAt := rr_decidedAt row |}
  end.

Fixpoint scan_rows {R A : Type} (scan : R -> result A decision_error) (rows : list R) : result (list A) decision_error :=
  match rows with
  | [] => Ok []
  | row :: rest => let? a := scan row in let? more := scan_rows scan rest in Ok (a :: more)
  end.

(** ORDER BY a key *)
Fixpoint insert_by {R : Type} (key : R -> Z) (row : R) (rows : list R) : list R :=
  match rows with [] => [row] | r :: rest => if key row <=? key r then row :: rows else r :: insert_by key row rest end.
Definition order_by {R : Type} (key : R -> Z) (rows : list R) : list R := foldr (insert_by key) [] rows.

Definition in_scope (db : ExecDB) (scope : DecisionScope) (requestID : string) : bool :=
  match x_requests db !! requestID with
  | Some r => bool_decide (gr_TenantID r = ds_TenantID scope) && bool_decide (gr_ProjectID r = ds_ProjectID scope)
  | None => false
  end.

(** The two queries, and the test for the request when they return nothing. *)
Definition replay_rows {R A : Type} (faults : Faults) (db : DecisionDB) (ctxNil : bool) (scope : DecisionScope) (requestID : string) (rows : list R) (scan : R -> result A decision_error) :
    result (list A) decision_error :=
  ensure negb ctxNil && DecisionScope_Validate scope && requestIDPattern requestID else DecisionInvalid in
  let known := in_scope (dd_exec db) scope requestID in
  let? found := statement faults 0 wrapDatabaseError (Ok (if known then rows else [])) in
  let? records := scan_rows scan found in
  match records with
  | [] => let? exists_ := statement faults 1 wrapDatabaseError (Ok known) in ensure exists_ else DecisionNotFound in Ok []
  | _ => Ok records
  end.

Definition ListByRequestID (faults : Faults) (db : DecisionDB) (ctxNil : bool) (scope : DecisionScope) (requestID : string) : result (list RouteRecord) decision_error :=
  replay_rows faults db ctxNil scope requestID (order_by dr_decisionNo (decisions_of (dd_decisions db) requestID)) scanDecision.

Definition ListRetriesByRequestID (faults : Faults) (db : DecisionDB) (ctxNil : bool) (scope : DecisionScope) (requestID : string) : result (list RetryRecord) decision_error :=
  replay_rows faults db ctxNil scope requestID (order_by rr_attemptNo (filter (fun row => rr_requestID row = requestID) (dd_retries db))) scanRetry.

(** ** Histories: the recorder and the store, in any order and with any failures; the clock
    of the store is past the first microsecond of year 1, Go's zero time. *)
Inductive decision_step (refs : References) (db : DecisionDB) : DecisionDB -> Prop :=
| step_exec exec : exec_step refs (dd_exec db) exec -> decision_step refs db {| dd_exec := exec; dd_decisions := dd_decisions db; dd_retries := dd_retries db |}
| step_decision faults ctxNil input now : microsecond <= now -> decision_step refs db (Record_decision refs faults db ctxNil input now).1
| step_retry faults ctxNil input now : microsecond <= now -> decision_step refs db (RecordRetry faults db ctxNil input now).1.

Definition decision_start : DecisionDB := {| dd_exec := exec_start; dd_decisions := []; dd_retries := [] |}.
End Store.
Arguments DecisionRow : clear implicits.
Arguments RetryRow : clear implicits.
Arguments DecisionDB : clear implicits.

(** ** Recorded decisions are replayed *)
Section Replay.
Context {J : Type} `{DecisionJSONLaws J} `{TimestampColumn}.

(** What is kept of a record: the candidates behind the explanation are not stored, and the
    time is the one that the column keeps. *)
Definition stored (r : RouteRecord) (decidedAt : Time) : RouteRecord :=
  {| rrec_RequestID := rrec_RequestID r; rrec_DecisionNo := rrec_DecisionNo r; rrec_NextAttemptNo := rrec_NextAttemptNo r; rrec_Outcome := rrec_Outcome r;
     rrec_Filter := {| fr_PolicyVersion := fr_PolicyVersion (rrec_Filter r); fr_Decisions := fr_Decisions (rrec_Filter r); fr_eligible := [] |};
     rrec_Policy := rrec_Policy r; rrec_Retry := rrec_Retry r; rrec_DecidedAt := decidedAt |}.

Lemma timestamp_not_zero now t : microsecond <= now -> timestamptz now = Some t -> time_is_zero t = false.
Proof. intros Hnow Hnear%timestamptz_near. unfold time_is_zero, microsecond in *. lia. Qed.

Lemma nullif_some s : s <> ""%string -> nullif s = Some s.
Proof. intros Hs. unfold nullif. by destruct (String.eqb_spec s ""). Qed.

Lemma policy_texts p : PolicyDecision_Validate p = true -> dec_PolicyVersion p <> ""%string /\ SelectedDeploymentID p <> ""%string.
Proof. unfold PolicyDecision_Validate. intros Hp. prop_hyps. split; intros E; by rewrite E in *. Qed.

Lemma retry_version d : Decision_Validate d = true -> d_PolicyVersion d <> ""%string.
Proof. unfold Decision_Validate. intros Hd E. rewrite E in Hd. discriminate Hd. Qed.

Lemma written_policy p policy : marshalPolicy (J := J) p = Ok policy -> forall row,
  dr_policy row = policy.1.1 -> dr_policyVersion row = nullif policy.1.2 -> dr_selected row = nullif policy.2 -> scan_policy row = Ok p.
Proof.
  intros Hm row E1 E2 E3. unfold scan_policy. rewrite E1, E2, E3. destruct p as [p|]; cbn [marshalPolicy] in Hm; [|by injection Hm as <-]. apply ensure_Ok in Hm as [Hp [= <-]]. cbn.
  destruct (policy_texts p Hp). by rewrite policy_back, !nullif_some, !bool_decide_eq_true_2.
Qed.

Lemma written_retry d retry : marshalRetry (J := J) d = Ok retry -> forall row, dr_retry row = retry.1 -> dr_retryVersion row = nullif retry.2 -> scan_retry row = Ok d.
Proof.
  intros Hm row E1 E2. unfold scan_retry. rewrite E1, E2. destruct d as [d|]; cbn [marshalRetry] in Hm; [|by injection Hm as <-]. apply ensure_Ok in Hm as [Hd [= <-]]. cbn.
  by rewrite retry_back, nullif_some, bool_decide_eq_true_2 by (done || by apply retry_version).
Qed.

Lemma written_decision input policy retry no now t : RouteDecisionInput_Validate input = true -> marshalPolicy (rdi_Policy input) = Ok policy -> marshalRetry (rdi_Retry input) = Ok retry ->
  1 <= no -> time_is_zero t = false -> scanDecision (decision_row input no policy retry t) = Ok (stored (route_record input no now) t).
Proof.
  intros Hv Hp Hr Hno Hnow. unfold scanDecision. cbn [decision_row dr_candidates]. rewrite candidates_back by (unfold RouteDecisionInput_Validate, ValidateExplanation in Hv; by prop_hyps).
  rewrite (written_policy _ _ Hp), (written_retry _ _ Hr) by done. cbn [result_bind decision_row dr_decisionNo dr_decidedAt dr_requestID dr_nextAttemptNo dr_outcome dr_filterVersion].
  replace (1 <=? no) with true by lia. rewrite Hnow. cbn [negb andb].
  assert (RouteDecisionInput_Validate {| rdi_RequestID := rdi_RequestID input; rdi_NextAttemptNo := rdi_NextAttemptNo input; rdi_Outcome := rdi_Outcome input;
    rdi_Filter := {| fr_PolicyVersion := fr_PolicyVersion (rdi_Filter input); fr_Decisions := fr_Decisions (rdi_Filter input); fr_eligible := [] |};
    rdi_Policy := rdi_Policy input; rdi_Retry := rdi_Retry input |} = RouteDecisionInput_Validate input) as -> by reflexivity.
  by rewrite Hv.
Qed.

(** ** The numbers of a request's decisions *)
Definition row_ok (row : DecisionRow J) : Prop := exists r, scanDecision row = Ok r.

Record decision_inv (db : DecisionDB J) : Prop := {
  di_exec : exec_inv (dd_exec db);
  di_rows : Forall row_ok (dd_decisions db);
  di_numbers : forall id, dr_decisionNo <$> decisions_of (dd_decisions db) id = seqZ 1 (Z.of_nat (length (decisions_of (dd_decisions db) id)))
}.

Lemma highest rows : forall m n, dr_decisionNo <$> rows = seqZ m n -> 0 < m -> foldr (fun (row : DecisionRow J) k => Z.max (dr_decisionNo row) k) 0 rows = match rows with [] => 0 | _ => m + n - 1 end.
Proof.
  induction rows as [|row rows IH]; intros m n E Hm; [done|]. cbn [fmap list_fmap foldr] in *. assert (0 < n) as Hn by (destruct (Z_lt_le_dec 0 n); [done|]; by rewrite seqZ_nil in E by lia).
  rewrite seqZ_cons in E by done. injection E as E1 E2. rewrite (IH (Z.succ m) (Z.pred n)) by (done || lia). destruct rows as [|row' rows]; [|lia].
  cbn in E2. symmetry in E2. assert (Z.pred n = 0) as Hz; [|lia]. apply (f_equal length) in E2. rewrite length_seqZ in E2. cbn in E2. lia.
Qed.

Lemma next_number db id : decision_inv db -> next_decision_no (dd_decisions db) id = Z.of_nat (length (decisions_of (dd_decisions db) id)) + 1.
Proof. intros Hinv. unfold next_decision_no. rewrite (highest _ 1 _ (di_numbers _ Hinv id)) by lia. destruct (decisions_of _ _); cbn [length]; lia. Qed.

Lemma seqZ_snoc n : 0 <= n -> seqZ 1 (n + 1) = seqZ 1 n ++ [n + 1].
Proof. intros Hn. rewrite (seqZ_app 1 n 1), (seqZ_cons (1 + n) 1), (seqZ_nil (Z.succ (1 + n)) (Z.pred 1)) by lia. by rewrite Z.add_comm. Qed.

(** A decision is appended under the next number of its request, or nothing changes. *)
Lemma record_effect refs faults db ctxNil input now db' r : decision_inv db -> microsecond <= now -> Record_decision refs faults db ctxNil input now = (db', r) ->
  (db' = db /\ exists e, r = Err e) \/
  exists row request t, let no := Z.of_nat (length (decisions_of (dd_decisions db) (rdi_RequestID input))) + 1 in
    x_requests (dd_exec db) !! rdi_RequestID input = Some request /\ dr_requestID row = rdi_RequestID input /\ dr_decisionNo row = no /\
    timestamptz now = Some t /\ scanDecision row = Ok (stored (route_record input no now) t) /\ requestIDPattern (rdi_RequestID input) = true /\
    db' = {| dd_exec := dd_exec db; dd_decisions := dd_decisions db ++ [row]; dd_retries := dd_retries db |} /\ (r = Ok (route_record input no now) \/ exists e, r = Err e).
Proof.
  intros Hinv Hnow Hr. unfold Record_decision in Hr. destruct (ctxNil || negb (RouteDecisionInput_Validate input)) eqn:Ev; [injection Hr as <- <-; left; eauto|]. apply orb_false_iff in Ev as [_ Ev%negb_false_iff].
  destruct (marshalPolicy _) as [policy|] eqn:Ep; [|injection Hr as <- <-; left; eauto]. destruct (marshalRetry _) as [retry|] eqn:Er; [|injection Hr as <- <-; left; eauto].
  destruct (in_transaction_cases faults DecisionUnavailable db (record_statements refs faults db input policy retry now)) as [(db1 & rec & Hs & Hdb & Hres)|[Hdb [e He]]].
  2:{ rewrite Hr in Hdb, He. cbn in *. left. eauto. }
  rewrite Hr in Hdb, Hres. cbn [fst snd] in *. subst db'. right. unfold record_statements, query_row in Hs.
  apply bind_Ok in Hs as (request & (found & Hf%statement_ok & Hq)%bind_Ok & Hs). injection Hf as <-. destruct (x_requests (dd_exec db) !! rdi_RequestID input) as [q|] eqn:Erq; [|done]. injection Hq as ->.
  apply ensure_Ok in Hs as [_ Hs]. apply bind_Ok in Hs as (no & [= <-]%statement_ok & Hs). apply bind_Ok in Hs as (db2 & Hi%statement_ok & [= <- <-]).
  rewrite next_number in Hi, Hres by done. apply bind_Ok in Hi as (t & Ht & Hi). unfold column_time in Ht. destruct (timestamptz now) as [t'|] eqn:Et; [injection Ht as ->|done]. unfold insert_decision in Hi. apply ensure_Ok in Hi as [_ Hi]. apply ensure_Ok in Hi as [_ Hi]. apply ensure_Ok in Hi as [_ [= <-]].
  eexists _, request, t. split_and!; [done| | |done| | | |].
  4:{ unfold RouteDecisionInput_Validate in Ev. by prop_hyps. }
  4:{ reflexivity. }
  - done.
  - done.
  - apply written_decision; try done; [lia|]. by eapply timestamp_not_zero.
  - destruct Hres as [->| ->]; eauto.
Qed.

Lemma retry_effect faults db ctxNil input now : (RecordRetry faults db ctxNil input now).1 = db \/ exists row,
  (RecordRetry faults db ctxNil input now).1 = {| dd_exec := dd_exec db; dd_decisions := dd_decisions (J := J) db; dd_retries := dd_retries db ++ [row] |}.
Proof.
  unfold RecordRetry. destruct (_ || _); [by left|]. 
  destruct (autocommit_cases faults DecisionUnavailable db (statement faults 0 wrapDatabaseError (let? decidedAt := column_time now in insert_retry db (retry_decision_row input decidedAt)))) as [(db1 & n & Hs & Hdb & _)|[Hdb _]];
    destruct (autocommit _ _ _ _) as [db' rows]; cbn [fst] in Hdb; subst db'.
  - apply statement_ok, bind_Ok in Hs as (t & _ & Hs). set (row := retry_decision_row input t) in *. unfold insert_retry in Hs. assert (db1 = db \/ db1 = {| dd_exec := dd_exec db; dd_decisions := dd_decisions db; dd_retries := dd_retries db ++ [row] |}) as Hdb.
    { destruct (negb _); [injection Hs as <- _; by left|]. apply ensure_Ok in Hs as [_ Hs]. apply ensure_Ok in Hs as [_ [= <- _]]. by right. }
    destruct rows as [k|]; [destruct (negb (k =? 1))|]; destruct Hdb as [->| ->]; first [by left | right; by exists row].
  - destruct rows as [k|]; [destruct (negb (k =? 1))|]; by left.
Qed.

Lemma start_decisions : decision_inv decision_start.
Proof. split; [apply exec_inv_start|constructor|done]. Qed.

Lemma decisions_of_snoc (rows : list (DecisionRow J)) row id : decisions_of (rows ++ [row]) id = decisions_of rows id ++ (if decide (dr_requestID row = id) then [row] else []).
Proof. unfold decisions_of. by rewrite filter_app. Qed.

(** Rows are only appended, and requests stay in their scope. *)
Definition store_kept (db db' : DecisionDB J) : Prop :=
  dd_decisions db `prefix_of` dd_decisions db' /\ evolves (dd_exec db) (dd_exec db') /\ dd_retries db `prefix_of` dd_retries db'.

Lemma decision_step_inv refs db db' : decision_inv db -> decision_step refs db db' -> decision_inv db' /\ store_kept db db'.
Proof.
  intros Hinv [exec Hs|faults ctxNil input now Hnow|faults ctxNil input now Hnow].
  - pose proof (di_exec _ Hinv) as He. split; [split; cbn; [by eapply exec_step_inv|apply Hinv|apply Hinv]|]. split_and!; cbn; [done| |done]. eapply step_evolves; [done|apply He].
  - destruct (Record_decision _ _ _ _ _ _) as [db1 r] eqn:E. destruct (record_effect _ _ _ _ _ _ _ _ Hinv Hnow E) as [[-> _]|(row & request & t & Hq & Hid & Hno & _ & Hscan & _ & -> & _)]; cbn [fst].
    { split; [done|]. split_and!; [done|apply evolves_refl|done]. }
    split; [split; cbn [dd_exec dd_decisions]|split_and!; cbn; [by apply prefix_app_r|apply evolves_refl|done]].
    + apply Hinv.
    + apply Forall_app. split; [apply Hinv|]. constructor; [by eexists|constructor].
    + intros id. rewrite decisions_of_snoc. destruct (decide _) as [E1|]; [|rewrite app_nil_r; apply Hinv]. rewrite fmap_app, (di_numbers _ Hinv), length_app. cbn [length fmap list_fmap].
      rewrite Nat2Z.inj_add, seqZ_snoc by lia. rewrite Hno. rewrite <- Hid, E1. done.
  - destruct (retry_effect faults db ctxNil input now) as [->|[row ->]]; [split; [done|]; split_and!; [done|apply evolves_refl|done]|]. split; [split; cbn; apply Hinv|]. split_and!; cbn; [done|apply evolves_refl|by apply prefix_app_r].
Qed.

Lemma decision_steps_inv refs db db' : rtc (decision_step refs) db db' -> decision_inv db -> decision_inv db' /\ store_kept db db'.
Proof.
  induction 1 as [db|db db1 db' Hs _ IH]; intros Hinv; [split; [done|]; split_and!; [done|apply evolves_refl|done]|]. destruct (decision_step_inv _ _ _ Hinv Hs) as [Hinv1 (K1 & K2 & K3)].
  destruct (IH Hinv1) as [? (L1 & L2 & L3)]. split; [done|]. split_and!; [by etrans|by eapply evolves_trans|by etrans].
Qed.

Lemma ordered_rows (rows : list (DecisionRow J)) : forall m n, dr_decisionNo <$> rows = seqZ m n -> order_by dr_decisionNo rows = rows.
Proof.
  induction rows as [|row rows IH]; intros m n E; [done|]. cbn [fmap list_fmap] in E. assert (0 < n) as Hn by (destruct (Z_lt_le_dec 0 n); [done|]; by rewrite seqZ_nil in E by lia).
  rewrite seqZ_cons in E by done. injection E as E1 E2. unfold order_by. cbn [foldr]. fold (order_by dr_decisionNo rows). rewrite (IH _ _ E2). destruct rows as [|row' rows]; [done|]. cbn [insert_by].
  cbn [fmap list_fmap] in E2. assert (0 < Z.pred n) by (destruct (Z_lt_le_dec 0 (Z.pred n)); [done|]; by rewrite seqZ_nil in E2 by lia). rewrite seqZ_cons in E2 by done. injection E2 as E2 _.
  by replace (dr_decisionNo row <=? dr_decisionNo row') with true by lia.
Qed.

Lemma scan_rows_ok {R A : Type} (scan : R -> result A decision_error) rows : Forall (fun row => exists a, scan row = Ok a) rows ->
  exists out, scan_rows scan rows = Ok out /\ Forall2 (fun row a => scan row = Ok a) rows out.
Proof.
  induction 1 as [|row rows [a Ha] _ (out & Ho & Hf)]; [exists []; by split; [|constructor]|]. exists (a :: out). cbn [scan_rows]. rewrite Ha. cbn [result_bind]. rewrite Ho. by split; [|constructor].
Qed.

Lemma scanned_number row r : scanDecision row = Ok r -> rrec_DecisionNo r = dr_decisionNo row.
Proof.
  unfold scanDecision. destruct (unmarshal_candidates _); [|done]. intros (p & _ & (d & _ & Hr)%bind_Ok)%bind_Ok. apply ensure_Ok in Hr as [_ [= <-]]. done.
Qed.

(** The replay of a request that has decisions, in the scope of the request and in others. *)
Lemma replayed db scope id r row : decision_inv db -> x_requests (dd_exec db) !! id = Some r -> row ∈ decisions_of (dd_decisions db) id -> DecisionScope_Validate scope = true -> requestIDPattern id = true ->
  if bool_decide (scope = {| ds_TenantID := gr_TenantID r; ds_ProjectID := gr_ProjectID r |}) then
    exists rs, ListByRequestID no_faults db false scope id = Ok rs /\ Forall2 (fun row a => scanDecision row = Ok a) (decisions_of (dd_decisions db) id) rs
  else ListByRequestID no_faults db false scope id = Err DecisionNotFound.
Proof.
  intros Hinv Hr Hrow Hscope Hid. unfold ListByRequestID, replay_rows. rewrite Hscope, Hid. cbn [negb andb]. unfold in_scope. rewrite Hr. rewrite (ordered_rows _ _ _ (di_numbers _ Hinv id)).
  assert (bool_decide (gr_TenantID r = ds_TenantID scope) && bool_decide (gr_ProjectID r = ds_ProjectID scope) = bool_decide (scope = {| ds_TenantID := gr_TenantID r; ds_ProjectID := gr_ProjectID r |})) as ->.
  { apply eq_bool_prop_intro. rewrite andb_True, !bool_decide_spec. destruct scope; cbn. split; [by intros [-> ->]|by intros [= -> ->]]. }
  unfold statement. cbn [fl_statement no_faults result_bind]. destruct (bool_decide _); [|done].
  destruct (scan_rows_ok scanDecision (decisions_of (dd_decisions db) id)) as (out & -> & Hf); [apply Forall_forall; intros x [_ Hx]%list_elem_of_filter; by apply (proj1 (Forall_forall _ _) (di_rows _ Hinv))|]. cbn [result_bind].
  destruct out as [|a out]; [by apply Forall2_nil_inv_r in Hf; rewrite Hf in Hrow; apply elem_of_nil in Hrow|]. by exists (a :: out).
Qed.

(** C15: Recorded decisions are replayed. In every interleaving of the recorder and the store,
    with any failures: once Record has returned a decision, listing the request in its own
    scope at any later time succeeds and returns that decision at the position of its number:
    the same request, number, outcome, explanation, policy and retry decision, without the
    candidates behind the explanation, and with its time rounded to the microsecond by the
    column; the numbers of the list are 1, 2, and so on without a gap; and in any other scope
    the request is not found. *)
Theorem recorded_decisions_replay refs db faults input now db1 r db2 request :
  rtc (decision_step refs) decision_start db -> microsecond <= now -> Record_decision refs faults db false input now = (db1, Ok r) -> rtc (decision_step refs) db1 db2 ->
  x_requests (dd_exec db) !! rdi_RequestID input = Some request ->
  forall scope, DecisionScope_Validate scope = true ->
  if bool_decide (scope = {| ds_TenantID := gr_TenantID request; ds_ProjectID := gr_ProjectID request |}) then
    exists rs decidedAt, ListByRequestID no_faults db2 false scope (rdi_RequestID input) = Ok rs /\
      timestamptz (rrec_DecidedAt r) = Some decidedAt /\ rs !! Z.to_nat (rrec_DecisionNo r - 1) = Some (stored r decidedAt) /\
      rrec_DecisionNo <$> rs = seqZ 1 (Z.of_nat (length rs))
  else ListByRequestID no_faults db2 false scope (rdi_RequestID input) = Err DecisionNotFound.
Proof.
  intros Hstart Hnow Hrec Hs Hq scope Hscope. destruct (decision_steps_inv _ _ _ Hstart start_decisions) as [Hinv _].
  assert (decision_step refs db db1) as Hstep by (replace db1 with (Record_decision refs faults db false input now).1 by (by rewrite Hrec); by apply step_decision).
  destruct (decision_step_inv _ _ _ Hinv Hstep) as [Hinv1 _]. destruct (record_effect _ _ _ _ _ _ _ _ Hinv Hnow Hrec) as [[_ [e ?]]|(row & request' & t & Hq' & Hid & Hno & Ht' & Hscan & Hpat & -> & [[= ->]|[e ?]])]; [done| |done].
  rewrite Hq in Hq'. injection Hq' as <-. destruct (decision_steps_inv _ _ _ Hs Hinv1) as [Hinv2 ([more Hmore] & Hev & _)]. cbn [dd_decisions dd_exec] in *.
  destruct (ev_requests _ _ Hev _ _ Hq) as (r2 & Hr2 & [= Ht Hp] & _). set (before := decisions_of (dd_decisions db) (rdi_RequestID input)) in *.
  assert (decisions_of (dd_decisions db2) (rdi_RequestID input) = before ++ row :: decisions_of more (rdi_RequestID input)) as Hrows.
  { rewrite Hmore. unfold decisions_of at 1. rewrite !filter_app. fold (decisions_of (dd_decisions db) (rdi_RequestID input)). fold before. rewrite <- app_assoc. f_equal. cbn. by rewrite decide_True. }
  pose proof (replayed db2 scope (rdi_RequestID input) r2 row Hinv2 Hr2 ltac:(rewrite Hrows; apply elem_of_app; right; left) Hscope Hpat) as Hlist. rewrite Ht, Hp in Hlist.
  destruct (bool_decide _); [|done]. destruct Hlist as (rs & Hl & Hf). exists rs, t. split; [done|]. split; [done|]. pose proof (di_numbers _ Hinv2 (rdi_RequestID input)) as Hnum.
  split.
  - cbn [route_record rrec_DecisionNo]. replace (Z.to_nat (Z.of_nat (length before) + 1 - 1)) with (length before) by lia.
    assert (decisions_of (dd_decisions db2) (rdi_RequestID input) !! length before = Some row) as Hat by (rewrite Hrows; by apply list_lookup_middle).
    destruct (Forall2_lookup_l _ _ _ _ _ Hf Hat) as (a & Ha & Hsc). rewrite Hscan in Hsc. by injection Hsc as <-.
  - rewrite <- (Forall2_length _ _ _ Hf), <- Hnum. symmetry. clear -Hf. induction Hf as [|x a l out Hx _ IH]; [done|]. cbn [fmap list_fmap]. by rewrite (scanned_number _ _ Hx), IH.
Qed.

(** One retry decision per attempt: once RecordRetry has succeeded, which it does only for an
    open attempt of a running request, no later call for the attempt succeeds. *)
Theorem retry_decisions_are_unique refs db faults input now db1 r db2 faults' ctxNil input' now' :
  decision_inv db -> microsecond <= now -> RecordRetry faults db false input now = (db1, Ok r) -> rtc (decision_step refs) db1 db2 ->
  ri_RequestID input' = ri_RequestID input -> ri_AttemptNo input' = ri_AttemptNo input ->
  retry_selected (dd_exec db) (ri_RequestID input) (ri_AttemptNo input) = true /\ exists e, (RecordRetry faults' db2 ctxNil input' now').2 = Err e.
Proof.
  intros Hinv Hnow Hrec Hs Hid Hno. assert (decision_inv db1) as Hinv1.
  { replace db1 with (RecordRetry faults db false input now).1 by (by rewrite Hrec). by apply (decision_step_inv refs db _ Hinv), step_retry. }
  unfold RecordRetry in Hrec. destruct (_ || _); [done|]. destruct (autocommit _ _ _ _) as [db' [n|]] eqn:Ea; [|done]. apply autocommit_ok, statement_ok, bind_Ok in Ea as (? & _ & Ea). unfold insert_retry in Ea.
  destruct (negb (n =? 1)) eqn:En; [done|]. injection Hrec as <- <-. cbn [retry_decision_row rr_requestID rr_attemptNo] in Ea. destruct (retry_selected _ _ _); [split; [done|]|injection Ea as <- <-; done]. cbn [negb] in Ea.
  apply ensure_Ok in Ea as [_ Ea]. apply ensure_Ok in Ea as [_ [= <- _]]. destruct (decision_steps_inv _ _ _ Hs Hinv1) as [_ (_ & _ & [more Hmore])]. cbn [dd_retries] in Hmore.
  unfold RecordRetry. destruct (_ || _); [by eexists|]. destruct (autocommit _ _ _ _) as [db3 [k|e]] eqn:Ea; [|by eexists]. apply autocommit_ok, statement_ok, bind_Ok in Ea as (? & _ & Ea). unfold insert_retry in Ea. cbn [retry_decision_row rr_requestID rr_attemptNo] in Ea.
  destruct (negb (retry_selected _ _ _)); [injection Ea as <- <-; by eexists|]. apply ensure_Ok in Ea as [_ Ea]. apply ensure_Ok in Ea as [Hnew _]. exfalso. apply negb_true_iff in Hnew. rewrite Hmore, !existsb_app in Hnew.
  cbn [existsb retry_decision_row rr_requestID rr_attemptNo] in Hnew. rewrite Hid, Hno, bool_decide_eq_true_2, Z.eqb_refl in Hnew by done. by rewrite orb_true_r in Hnew.
Qed.
End Replay.

(** ** A decision of a request *)
Module DecisionDemo.
(** Columns that keep the values themselves. *)
Definition column : Type := list CandidateDecision + (PolicyDecision + Retry.Decision).
Definition codec : DecisionJSON column := {|
  marshal_candidates := inl; unmarshal_candidates := fun j => match j with inl ds => Some ds | _ => None end;
  marshal_policy := fun p => inr (inl p); unmarshal_policy := fun j => match j with inr (inl p) => Some p | _ => None end;
  marshal_retry := fun d => inr (inr d); unmarshal_retry := fun j => match j with inr (inr d) => Some d | _ => None end;
  jsonb_array_length := fun j => match j with inl ds => Some (length ds) | _ => None end; jsonb_is_object := fun j => match j with inl _ => false | _ => true end;
  jsonb_octets := fun j => match j with inl ds => 120 * Z.of_nat (length ds) | _ => 400 end |}.
Definition policy : PolicyDecision :=
  {| dec_PolicyVersion := "routes/v1"; dec_Mode := RouteFixed; SelectedDeploymentID := Demo.deployment; dec_Priority := 0; dec_Weight := 1; EligibleCount := 1; TotalWeight := 0; RandomDraw := None |}.
Definition input : RouteDecisionInput :=
  {| rdi_RequestID := "request-1"; rdi_NextAttemptNo := 1; rdi_Outcome := OutcomeSelected;
     rdi_Filter := {| fr_PolicyVersion := candidateFilterPolicyVersion; fr_Decisions := [{| cd_DeploymentID := Demo.deployment; cd_Eligible := true; cd_Reason := FilterEligible |}]; fr_eligible := [] |};
     rdi_Policy := Some policy; rdi_Retry := None |}.
Definition scope : DecisionScope := {| ds_TenantID := start_TenantID Demo.start; ds_ProjectID := start_ProjectID Demo.start |}.
Definition routing : DecisionDB column := {| dd_exec := Demo.db2; dd_decisions := []; dd_retries := [] |}.
(** Half a microsecond is rounded up. *)
Definition round_microsecond (t : Time) : Time := (t + 500) / microsecond * microsecond.
Lemma round_whole t t' : Some (round_microsecond t) = Some t' -> (microsecond | t').
Proof. intros [= <-]. by exists ((t + 500) / microsecond). Qed.
Lemma round_near t t' : Some (round_microsecond t) = Some t' -> 2 * Z.abs (t' - t) <= microsecond.
Proof. intros [= <-]. unfold round_microsecond, microsecond. pose proof (Z.div_mod (t + 500) 1000 ltac:(done)). pose proof (Z.mod_pos_bound (t + 500) 1000 ltac:(done)). lia. Qed.
Definition timestamps : TimestampColumn := {| timestamptz := fun t => Some (round_microsecond t); timestamptz_whole := round_whole; timestamptz_near := round_near |}.
Definition recorded := @Record_decision column codec timestamps Demo.refs no_faults routing false input 12345600.
End DecisionDemo.

#[local] Existing Instance DecisionDemo.codec.
#[local] Existing Instance DecisionDemo.timestamps.
#[local] Instance demo_laws : DecisionJSONLaws DecisionDemo.column.
Proof. by split. Qed.

Lemma demo_routing : rtc (decision_step Demo.refs) decision_start DecisionDemo.routing.
Proof.
  eapply rtc_l; [exact (step_exec Demo.refs decision_start _ (step_start Demo.refs no_faults exec_start Demo.start 10))|].
  eapply rtc_once. exact (step_exec Demo.refs {| dd_exec := Demo.db1; dd_decisions := []; dd_retries := [] |} _ (step_routing Demo.refs no_faults Demo.db1 Demo.request1 11)).
Qed.

Lemma demo_recorded : match DecisionDemo.recorded with (_, Ok r) => rrec_DecisionNo r = 1 /\ rrec_DecidedAt r = 12345600 | _ => False end.
Proof. vm_compute. done. Qed.

Lemma demo_request : match x_requests Demo.db2 !! "request-1"%string with Some r => gr_TenantID r = ds_TenantID DecisionDemo.scope /\ gr_ProjectID r = ds_ProjectID DecisionDemo.scope | None => False end.
Proof. vm_compute. done. Qed.

Lemma recorded_decisions_replay_witness : exists db1 r rs, DecisionDemo.recorded = (db1, Ok r) /\ ListByRequestID no_faults db1 false DecisionDemo.scope "request-1" = Ok rs /\ rs !! 0%nat = Some (stored r 12346000).
Proof.
  pose proof demo_recorded as Hno. destruct DecisionDemo.recorded as [db1 [r|]] eqn:Er; [|destruct Hno]. destruct Hno as [Hno Htime]. pose proof demo_request as Hq. destruct (x_requests Demo.db2 !! "request-1"%string) as [q|] eqn:Eq; [|destruct Hq]. destruct Hq as [Ht Hp].
  pose proof (recorded_decisions_replay Demo.refs DecisionDemo.routing no_faults DecisionDemo.input 12345600 db1 r db1 q demo_routing ltac:(vm_compute; done) Er (rtc_refl _ db1) Eq DecisionDemo.scope ltac:(reflexivity)) as Hr.
  rewrite Ht, Hp, bool_decide_eq_true_2 in Hr by reflexivity. destruct Hr as (rs & t & Hl & Ht' & Hat & _). exists db1, r, rs. split; [reflexivity|]. split; [exact Hl|]. rewrite Hno in Hat. rewrite Htime in Ht'. injection Ht' as <-. exact Hat.
Defined.
