(* ===== verification/GatewayFailover.v ===== *)
(** * Request execution with failover (src/internal/gateway/failover.go, route_decision.go)

    [Execute] of nonStreamFailover: select a deployment, start an attempt, call the provider,
    and either complete, retry on another selection, or fail the request, recording each
    step. What it calls is the class [Services] over a state of the world: the selector,
    the executor, the execution recorder, the decision recorder, the estimator, the clock,
    the waiter and the two contexts. The loop takes fuel; [None] is its exhaustion, which
    [GatewayFailoverTheorems] excludes.

    Then: the protocol of request execution. *)
From Stdlib Require Import ZArith Lia Bool Ascii String.
From stdpp Require Import base tactics option list strings gmap.
From S2P Require Import Prelude Identifiers Unicode Catalog RoutePolicy Retry Metering Execution Adapter RouteFilter RouteDecision ApiError GatewayOutcome.
(** ** Options *)
Record ChatFailoverOptions := {
  fo_MaximumAttempts : Z; fo_TotalTimeout : Duration; fo_MinimumAttemptWindow : Duration; fo_AdditionalCost : CostPermission }.

Definition maximumChatFailoverAttempts : Z := 32.
Definition DefaultChatFailoverOptions : ChatFailoverOptions :=
  {| fo_MaximumAttempts := 3; fo_TotalTimeout := 30 * second; fo_MinimumAttemptWindow := 250 * millisecond; fo_AdditionalCost := CostAllowed |}.

Definition ChatFailoverOptions_Validate (o : ChatFailoverOptions) : bool :=
  (1 <=? fo_MaximumAttempts o) && (fo_MaximumAttempts o <=? maximumChatFailoverAttempts) &&
  (0 <? fo_TotalTimeout o) && (fo_TotalTimeout o <=? 24 * hour) &&
  (0 <? fo_MinimumAttemptWindow o) && (fo_MinimumAttemptWindow o <=? 10 * minute) && (fo_MinimumAttemptWindow o <? fo_TotalTimeout o) &&
  (bool_decide (fo_AdditionalCost o = CostAllowed) || bool_decide (fo_AdditionalCost o = CostDenied)).

(** ** What the gateway calls *)

(** A failed selection: the filter result that goes with it, the error, and whether the
    error's chain contains context.Canceled ([route_error] keeps the causes of the readers
    only). *)
Record SelectFailure := { sf_Filter : FilterResult; sf_error : route_error; sf_cancelled : bool }.

Class Services (W : Type) := {
  sv_Select : W -> SelectionRequest -> W * result Selection SelectFailure;
  sv_Record : W -> RouteDecisionInput -> W * bool;
  sv_RecordRetry : W -> RetryInput -> W * bool;
  sv_Execute : W -> Selection -> NormalizedRequest -> W * (NormalizedResponse * option Failure);
  sv_StartAttempt : W -> GatewayRequest -> string -> W * result (GatewayRequest * RouteAttempt) exec_error;
  sv_CompleteAttempt : W -> GatewayRequest -> RouteAttempt -> AttemptOutcome -> W * result unit exec_error;
  sv_CompleteAttemptForRetry : W -> GatewayRequest -> RouteAttempt -> AttemptOutcome -> W * result unit exec_error;
  sv_FailRequest : W -> GatewayRequest -> RequestStatus -> string -> W * result unit exec_error;
  sv_EstimateUsage : W -> Deployment -> NormalizedRequest -> option NormalizedResponse -> W * option NormalizedUsage;
  sv_now : W -> W * Time;
  sv_wait : W -> Duration -> W * option Failure;
  (** [executionContext.Err()] and [parent.Err()] *)
  sv_context : W -> option ctx_error;
  sv_parent : W -> option ctx_error }.

(** What Execute returns instead of a response: the public errors of recording and routing,
    an attempt's failure, an interrupted wait, or an invalid call. *)
Inductive select_error := DecisionNotRecorded | SelectInvalid | SelectionFailed (cause : SelectFailure).
Inductive failover_error :=
| FailoverInvalid | RecordingUnavailable | RoutingFailed (cause : select_error) | AttemptFailure (cause : Failure) | WaitFailure (cause : Failure).

Definition no_candidate (e : select_error) : bool :=
  match e with SelectionFailed f => match sf_error f with ErrNoCandidate => true | _ => false end | _ => false end.
Definition select_cancelled (e : select_error) : bool := match e with SelectionFailed f => sf_cancelled f | _ => false end.

(** The public error of a failed selection (chat_request.go), and of Execute. *)
Definition routeSelectionPublicError (e : select_error) : option ErrorDefinition := if no_candidate e then modelUnavailable else routeUnavailable.

(** ErrFailoverInvalid is none of the errors [executionPublicError] knows. *)
Definition chatExecutionPublicError (e : failover_error) : option ErrorDefinition :=
  match e with
  | FailoverInvalid => executionPublicError (Leaf (SentinelOther "gateway.ErrFailoverInvalid"))
  | RecordingUnavailable => executionRecordPublicError
  | RoutingFailed cause => routeSelectionPublicError cause
  | AttemptFailure cause | WaitFailure cause => executionPublicError cause
  end.

Record Failover := { fv_options : ChatFailoverOptions; fv_estimator : bool }.

Definition containsDeployment (deployments : list string) (target : string) : bool := bool_decide (target ∈ deployments).

Definition with_excluded (request : SelectionRequest) (excluded : list string) : SelectionRequest :=
  {| sel_Access := sel_Access request; sel_Request := sel_Request request; ExcludedDeploymentIDs := excluded |}.

Definition with_usage (response : NormalizedResponse) (usage : NormalizedUsage) : NormalizedResponse :=
  {| resp_ID := resp_ID response; resp_Model := resp_Model response; resp_Choices := resp_Choices response; resp_Usage := Some usage;
     resp_ProviderRequestID := resp_ProviderRequestID response; resp_ObservedAt := resp_ObservedAt response |}.

Definition with_outcome (o : AttemptOutcome) (status : AttemptStatus) (request : RequestStatus) (headers : bool) (providerRequestID : string) (usage : option NormalizedUsage) : AttemptOutcome :=
  {| ao_AttemptStatus := status; ao_RequestStatus := request; ao_HeadersReceived := headers; ao_EndReason := ao_EndReason o;
     ao_ProviderRequestID := providerRequestID; ao_ErrorCategory := ao_ErrorCategory o; ao_ErrorCode := ao_ErrorCode o; ao_Usage := usage |}.

Definition failedOutcomeWithKnownUsage (err : Failure) (result : NormalizedResponse) : AttemptOutcome :=
  let o := attemptOutcomeForError err in
  if NormalizedResponse_Validate result then
    with_outcome o (ao_AttemptStatus o) (ao_RequestStatus o) true (resp_ProviderRequestID result) (resp_Usage result)
  else match resp_Usage result with
       | Some u => if bool_decide (u_Source u = SourceEstimated) && NormalizedUsage_Validate u
                   then with_outcome o (ao_AttemptStatus o) (ao_RequestStatus o) (ao_HeadersReceived o) (ao_ProviderRequestID o) (Some u) else o
       | None => o
       end.

Definition succeeded_outcome (result : NormalizedResponse) : AttemptOutcome :=
  {| ao_AttemptStatus := AttemptSucceeded; ao_RequestStatus := RequestSucceeded; ao_HeadersReceived := true; ao_EndReason := "completed";
     ao_ProviderRequestID := resp_ProviderRequestID result; ao_ErrorCategory := ""; ao_ErrorCode := ""; ao_Usage := resp_Usage result |}.

Section Execute.
Context {W : Type} `{Services W} (fv : Failover).

(** *** Selection (route_decision.go) *)
Definition decision_input (requestID : string) (nextAttemptNo : Z) (retryDecision : option Retry.Decision)
    (r : result Selection SelectFailure) : RouteDecisionInput :=
  match r with
  | Ok s => {| rdi_RequestID := requestID; rdi_NextAttemptNo := nextAttemptNo; rdi_Outcome := OutcomeSelected; rdi_Filter := sel_Filter s;
               rdi_Policy := Some (sel_Decision s); rdi_Retry := retryDecision |}
  | Err f =>
      {| rdi_RequestID := requestID; rdi_NextAttemptNo := nextAttemptNo;
         rdi_Outcome := if no_candidate (SelectionFailed f) then OutcomeNoCandidate else OutcomeSelectionFailed; rdi_Filter := sf_Filter f;
         rdi_Policy := None; rdi_Retry := retryDecision |}
  end.

Definition selectAndRecordRoute (w : W) (requestID : string) (nextAttemptNo : Z) (request : SelectionRequest) (retryDecision : option Retry.Decision)
    : W * result Selection select_error :=
  if is_empty requestID || (nextAttemptNo <? 1) then (w, Err SelectInvalid)
  else
    let '(w, r) := sv_Select w request in
    let '(w, recorded) := sv_Record w (decision_input requestID nextAttemptNo retryDecision r) in
    (w, if negb recorded then Err DecisionNotRecorded
        else match r with Ok s => Ok s | Err f => Err (SelectionFailed f) end).

Definition recordRetryDecision (w : W) (requestID : string) (attemptNo : Z) (decision : Retry.Decision) : W * bool :=
  if is_empty requestID || (attemptNo <? 1) then (w, false)
  else sv_RecordRetry w {| ri_RequestID := requestID; ri_AttemptNo := attemptNo; ri_Decision := decision |}.

Definition selectNext (w : W) (request : SelectionRequest) (recorded : GatewayRequest) (attempted : list string) (decision : Retry.Decision)
    : W * result Selection select_error :=
  let '(w, r) := selectAndRecordRoute w (gr_ID recorded) (gr_AttemptCount recorded + 1) (with_excluded request attempted) (Some decision) in
  match r with
  | Ok s =>
      if bool_decide (d_Action decision = DifferentDeploymentOnly) && containsDeployment attempted (dep_ID (cand_Deployment (sel_Candidate s)))
      then (w, Err SelectInvalid) else (w, Ok s)
  | Err e =>
      if negb (no_candidate e) || negb (bool_decide (d_Action decision = RetryAllowed)) then (w, r)
      else selectAndRecordRoute w (gr_ID recorded) (gr_AttemptCount recorded + 1) (with_excluded request []) (Some decision)
  end.

(** *** Terminal records (execution_record.go) *)
Definition finalizeRequestFailure (w : W) (request : GatewayRequest) (cause : select_error) : W * failover_error :=
  let '(status, reason) :=
    if select_cancelled cause || bool_decide (sv_context w = Some Canceled) then (RequestCancelled, "client_cancelled"%string)
    else (RequestFailed, if no_candidate cause then "model_unavailable"%string else "routing_failed"%string) in
  let '(w, r) := sv_FailRequest w request status reason in
  (w, match r with Ok _ => RoutingFailed cause | Err _ => RecordingUnavailable end).

Definition failRetryRequest (w : W) (request : GatewayRequest) (failure : Failure) : W * failover_error :=
  let '(status, reason) :=
    match sv_parent w with Some _ => (RequestCancelled, "client_cancelled"%string) | None => (RequestFailed, "retry_deadline_exhausted"%string) end in
  let '(w, r) := sv_FailRequest w request status reason in
  (w, match r with Ok _ => WaitFailure failure | Err _ => RecordingUnavailable end).

Definition withLocalUsageEstimate (w : W) (deployment : Deployment) (request : NormalizedRequest) (result : NormalizedResponse) (err : option Failure)
    : W * NormalizedResponse :=
  if negb (fv_estimator fv) || bool_decide (is_Some (resp_Usage result)) ||
     match err with Some e => bool_decide (submissionState e = NotSubmitted) | None => false end
  then (w, result)
  else
    let '(w, estimated) := sv_EstimateUsage w deployment request (if NormalizedResponse_Validate result then Some result else None) in
    (w, match estimated with
        | Some u =>
            if NormalizedUsage_Validate u && bool_decide (u_Source u = SourceEstimated) && negb (u_Complete u) &&
               match u_Estimate u with Some m => est_Estimated m | None => false end
            then with_usage result u else result
        | None => result
        end).

(** *** One turn of the loop *)
Inductive turn :=
| Finished (answer : result chatCompletionResponse failover_error)
| Again (request : GatewayRequest) (selection : Selection) (attempted : list string).

Definition retry_input (attemptErr : Failure) (recorded : GatewayRequest) (now deadline : Time) : Retry.Input :=
  {| in_Failure := Some attemptErr; in_ModelOutputStarted := false; in_Submission := submissionState attemptErr;
     in_AttemptNumber := gr_AttemptCount recorded; in_MaximumAttempts := fo_MaximumAttempts (fv_options fv); in_Now := now; in_Deadline := deadline;
     in_MinimumAttemptWindow := fo_MinimumAttemptWindow (fv_options fv); in_AdditionalCost := fo_AdditionalCost (fv_options fv) |}.

Definition finish_with (w : W) (recorded : GatewayRequest) (attempt : RouteAttempt) (outcome : AttemptOutcome)
    (answer : result chatCompletionResponse failover_error) : W * turn :=
  let '(w, r) := sv_CompleteAttempt w recorded attempt outcome in
  (w, Finished (match r with Ok _ => answer | Err _ => Err RecordingUnavailable end)).

(** After a retry was decided and recorded. *)
Definition continue (w : W) (selectionRequest : SelectionRequest) (recorded : GatewayRequest) (attempted : list string)
    (attemptErr : Failure) (decision : Retry.Decision) : W * turn :=
  let '(w, interrupted) := sv_wait w (d_RequiredDelayMS decision * millisecond) in
  match interrupted with
  | Some failure => let '(w, e) := failRetryRequest w recorded failure in (w, Finished (Err e))
  | None =>
      let '(w, next) := selectNext w selectionRequest recorded attempted decision in
      match next with
      | Ok selection => (w, Again recorded selection attempted)
      | Err DecisionNotRecorded =>
          let '(w, _) := sv_FailRequest w recorded RequestFailed "route_decision_record_unavailable" in (w, Finished (Err RecordingUnavailable))
      | Err e =>
          if no_candidate e then
            let '(w, r) := sv_FailRequest w recorded RequestFailed "failover_exhausted" in
            (w, Finished (Err (match r with Ok _ => AttemptFailure attemptErr | Err _ => RecordingUnavailable end)))
          else
            let '(w, r) := sv_FailRequest w recorded RequestFailed "failover_routing_failed" in
            (w, Finished (Err (match r with Ok _ => RoutingFailed e | Err _ => RecordingUnavailable end)))
      end
  end.

(** After a failed attempt: complete it and give up, or complete it for a retry. *)
Definition attempt_failed (w : W) (deadline : Time) (selectionRequest : SelectionRequest) (recorded : GatewayRequest) (attempt : RouteAttempt)
    (deploymentID : string) (attempted : list string) (attemptErr : Failure) (result : NormalizedResponse) : W * turn :=
  let '(w, now) := sv_now w in
  let failed := failedOutcomeWithKnownUsage attemptErr result in
  match Classify (retry_input attemptErr recorded now deadline) with
  | None => finish_with w recorded attempt failed (Err (AttemptFailure attemptErr))
  | Some decision =>
      let '(w, kept) := recordRetryDecision w (gr_ID recorded) (ra_AttemptNo attempt) decision in
      if negb kept then finish_with w recorded attempt failed (Err RecordingUnavailable)
      else if bool_decide (d_Action decision = NoRetry) then finish_with w recorded attempt failed (Err (AttemptFailure attemptErr))
      else
        let retryOutcome := with_outcome failed AttemptRetryableFailed RequestRunning (ao_HeadersReceived failed) (ao_ProviderRequestID failed) (ao_Usage failed) in
        let '(w, r) := sv_CompleteAttemptForRetry w recorded attempt retryOutcome in
        match r with
        | Err _ => (w, Finished (Err RecordingUnavailable))
        | Ok _ =>
            let attempted := if containsDeployment attempted deploymentID then attempted else attempted ++ [deploymentID] in
            continue w selectionRequest recorded attempted attemptErr decision
        end
  end.

Definition round (w : W) (deadline : Time) (selectionRequest : SelectionRequest) (providerRequest : NormalizedRequest) (requestID : string)
    (recorded : GatewayRequest) (selection : Selection) (attempted : list string) : W * turn :=
  let deployment := cand_Deployment (sel_Candidate selection) in
  let '(w, started) := sv_StartAttempt w recorded (dep_ID deployment) in
  match started with
  | Err _ => let '(w, _) := sv_FailRequest w recorded RequestFailed "attempt_record_unavailable" in (w, Finished (Err RecordingUnavailable))
  | Ok (recorded, attempt) =>
      let '(w, (result, executeErr)) := sv_Execute w selection providerRequest in
      let '(w, result) := withLocalUsageEstimate w deployment providerRequest result executeErr in
      match (match executeErr with
             | Some e => Err e
             | None => match projectChatCompletion result (req_LogicalModel providerRequest) requestID (gr_AttemptCount recorded) with
                       | Some projected => Ok projected
                       | None => Err (Leaf ProxyErrProtocol)
                       end
             end) with
      | Ok projected => finish_with w recorded attempt (succeeded_outcome result) (Ok projected)
      | Err attemptErr => attempt_failed w deadline selectionRequest recorded attempt (dep_ID deployment) attempted attemptErr result
      end
  end.

Fixpoint rounds (fuel : nat) (w : W) (deadline : Time) (selectionRequest : SelectionRequest) (providerRequest : NormalizedRequest) (requestID : string)
    (recorded : GatewayRequest) (selection : Selection) (attempted : list string) : W * option (result chatCompletionResponse failover_error) :=
  match fuel with
  | O => (w, None)
  | Datatypes.S fuel =>
      match round w deadline selectionRequest providerRequest requestID recorded selection attempted with
      | (w, Finished answer) => (w, Some answer)
      | (w, Again recorded selection attempted) => rounds fuel w deadline selectionRequest providerRequest requestID recorded selection attempted
      end
  end.

(** [deadline] is the one of the execution context. *)
Definition Failover_Execute (fuel : nat) (w : W) (deadline : Time) (selectionRequest : SelectionRequest) (recorded : GatewayRequest)
    (providerRequest : NormalizedRequest) (requestID : string) : W * option (result chatCompletionResponse failover_error) :=
  if negb (NormalizedRequest_Validate (sel_Request selectionRequest)) || negb (NormalizedRequest_Validate providerRequest) || req_Stream providerRequest ||
     is_empty requestID || negb (bool_decide (gr_Status recorded = RequestRouting))
  then (w, Some (Err FailoverInvalid))
  else
    let '(w, selected) := selectAndRecordRoute w (gr_ID recorded) (gr_AttemptCount recorded + 1) selectionRequest None in
    match selected with
    | Err DecisionNotRecorded =>
        let '(w, _) := sv_FailRequest w recorded RequestFailed "route_decision_record_unavailable" in (w, Some (Err RecordingUnavailable))
    | Err cause => let '(w, e) := finalizeRequestFailure w recorded cause in (w, Some (Err e))
    | Ok selection => rounds fuel w deadline selectionRequest providerRequest requestID recorded selection []
    end.
End Execute.

(** ** The protocol of request execution

    Any implementation of [Services] is observed through [Logged], which runs it unchanged
    and keeps the calls that matter in order. [pstep] is the protocol these calls must follow,
    as an automaton: a selection is recorded before it is used, each attempt is started on
    the selected deployment, called once and completed once with a recordable outcome, a retry
    needs a recorded decision, and nothing follows the terminal record. *)
(** ** The log *)
Inductive call :=
| SelectedCall (excluded : list string) (answer : option string)
| DecisionCall (input : RouteDecisionInput) (kept : bool)
| RetryCall (input : RetryInput) (kept : bool)
| StartCall (deployment : string) (attempt : option RouteAttempt)
| ProviderCall (deployment : string)
| CompleteCall (attempt : RouteAttempt) (outcome : AttemptOutcome) (kept : bool)
| CompleteForRetryCall (attempt : RouteAttempt) (outcome : AttemptOutcome) (kept : bool)
| FailCall (status : RequestStatus) (reason : string) (kept : bool).

Definition chosen (s : Selection) : string := dep_ID (cand_Deployment (sel_Candidate s)).

#[export] Instance Logged (W : Type) `{Services W} : Services (W * list call) := {|
  sv_Select w request := let '(v, r) := sv_Select w.1 request in
    ((v, w.2 ++ [SelectedCall (ExcludedDeploymentIDs request) match r with Ok s => Some (chosen s) | Err _ => None end]), r);
  sv_Record w input := let '(v, kept) := sv_Record w.1 input in ((v, w.2 ++ [DecisionCall input kept]), kept);
  sv_RecordRetry w input := let '(v, kept) := sv_RecordRetry w.1 input in ((v, w.2 ++ [RetryCall input kept]), kept);
  sv_Execute w selection request := let '(v, r) := sv_Execute w.1 selection request in ((v, w.2 ++ [ProviderCall (chosen selection)]), r);
  sv_StartAttempt w request deployment := let '(v, r) := sv_StartAttempt w.1 request deployment in
    ((v, w.2 ++ [StartCall deployment match r with Ok (_, a) => Some a | Err _ => None end]), r);
  sv_CompleteAttempt w request attempt outcome := let '(v, r) := sv_CompleteAttempt w.1 request attempt outcome in
    ((v, w.2 ++ [CompleteCall attempt outcome (is_ok r)]), r);
  sv_CompleteAttemptForRetry w request attempt outcome := let '(v, r) := sv_CompleteAttemptForRetry w.1 request attempt outcome in
    ((v, w.2 ++ [CompleteForRetryCall attempt outcome (is_ok r)]), r);
  sv_FailRequest w request status reason := let '(v, r) := sv_FailRequest w.1 request status reason in
    ((v, w.2 ++ [FailCall status reason (is_ok r)]), r);
  sv_EstimateUsage w deployment request response := let '(v, r) := sv_EstimateUsage w.1 deployment request response in ((v, w.2), r);
  sv_now w := let '(v, r) := sv_now w.1 in ((v, w.2), r);
  sv_wait w delay := let '(v, r) := sv_wait w.1 delay in ((v, w.2), r);
  sv_context w := sv_context w.1;
  sv_parent w := sv_parent w.1 |}.

(** ** The protocol *)

(** What is known of the retry of a called attempt. *)
Inductive verdict := Undecided | Refused | Decided (decision : Retry.Decision).

(** [n] attempts were started, on the deployments [tried]; [why] is the decision that allowed
    the next one. *)
Inductive phase :=
| Selecting (n : Z) (tried : list string) (why : option Retry.Decision)
| Answered (n : Z) (tried : list string) (why : option Retry.Decision) (answer : option string)
| Ready (n : Z) (tried : list string) (why : option Retry.Decision) (deployment : string)
| Opened (n : Z) (tried : list string) (deployment : string) (attempt : RouteAttempt)
| Called (n : Z) (tried : list string) (deployment : string) (attempt : RouteAttempt) (retry : verdict)
| Doomed
| Closed (success : bool)
| Broken.

Definition must_differ (why : option Retry.Decision) : bool :=
  match why with Some d => bool_decide (d_Action d = DifferentDeploymentOnly) | None => false end.

(** After a failed attempt the deployments tried are excluded; all of them are admitted again
    only where the decision allows the same deployment. *)
Definition exclusion_ok (tried : list string) (why : option Retry.Decision) (excluded : list string) : bool :=
  match why with
  | None => true
  | Some d => bool_decide (excluded = tried) || bool_decide (excluded = []) && bool_decide (d_Action d = RetryAllowed)
  end.

Definition decision_ok (n : Z) (why : option Retry.Decision) (answer : option string) (input : RouteDecisionInput) : bool :=
  (rdi_NextAttemptNo input =? n + 1) && bool_decide (d_Action <$> rdi_Retry input = d_Action <$> why) &&
  Bool.eqb match rdi_Outcome input with OutcomeSelected => true | _ => false end (bool_decide (is_Some answer)).

Definition start_ok (max n : Z) (tried : list string) (why : option Retry.Decision) (deployment : string) : bool :=
  (negb (must_differ why) || negb (containsDeployment tried deployment)) && match why with None => true | Some _ => n <? max end.

Definition completion_ok (attempt attempt' : RouteAttempt) (outcome : AttemptOutcome) : bool :=
  bool_decide (ra_ID attempt = ra_ID attempt') && AttemptOutcome_Validate outcome.

Definition succeeded (outcome : AttemptOutcome) : bool := bool_decide (ao_AttemptStatus outcome = AttemptSucceeded).

Definition final_ok (outcome : AttemptOutcome) (retry : verdict) : bool :=
  negb (bool_decide (ao_RequestStatus outcome = RequestRunning)) &&
  match retry with
  | Undecided => true
  | Refused => negb (succeeded outcome)
  | Decided d => negb (succeeded outcome) && bool_decide (d_Action d = NoRetry)
  end.

Definition failure_ok (status : RequestStatus) : bool := match status with RequestFailed | RequestCancelled => true | _ => false end.

Definition also (tried : list string) (deployment : string) : list string := if containsDeployment tried deployment then tried else tried ++ [deployment].

Definition pstep (max : Z) (s : phase) (c : call) : phase :=
  match s, c with
  | Selecting n tried why, SelectedCall excluded answer => if exclusion_ok tried why excluded then Answered n tried why answer else Broken
  | Answered n tried why answer, DecisionCall input kept =>
      if decision_ok n why answer input then
        if kept then match answer with Some d => Ready n tried why d | None => Selecting n tried why end else Doomed
      else Broken
  | Ready n tried why d, StartCall d' started =>
      if bool_decide (d' = d) && start_ok max n tried why d then
        match started with Some a => if ra_AttemptNo a =? n + 1 then Opened (n + 1) tried d a else Broken | None => Doomed end
      else Broken
  | Opened n tried d a, ProviderCall d' => if bool_decide (d' = d) then Called n tried d a Undecided else Broken
  | Called n tried d a Undecided, RetryCall input kept =>
      if ri_AttemptNo input =? n then Called n tried d a (if kept then Decided (ri_Decision input) else Refused) else Broken
  | Called n tried d a retry, CompleteCall a' outcome kept =>
      if completion_ok a a' outcome && final_ok outcome retry then Closed (kept && succeeded outcome) else Broken
  | Called n tried d a (Decided why), CompleteForRetryCall a' outcome kept =>
      if completion_ok a a' outcome && bool_decide (ao_AttemptStatus outcome = AttemptRetryableFailed) &&
         bool_decide (ao_RequestStatus outcome = RequestRunning) && negb (bool_decide (d_Action why = NoRetry))
      then if kept then Selecting n (also tried d) (Some why) else Closed false
      else Broken
  | Selecting _ _ _, FailCall status _ _ | Ready _ _ _ _, FailCall status _ _ | Doomed, FailCall status _ _ => if failure_ok status then Closed false else Broken
  | _, _ => Broken
  end.

Definition follow (max : Z) (s : phase) (log : list call) : phase := foldl (pstep max) s log.

Lemma follow_snoc max s log c : follow max s (log ++ [c]) = pstep max (follow max s log) c.
Proof. unfold follow. by rewrite foldl_app. Qed.

(** The protocol is closed under failure: a broken log stays broken. *)
Lemma broken_stays max log : follow max Broken log = Broken.
Proof. induction log as [|c log IH]; [done|]. exact IH. Qed.

(** ** What is asked of the services *)
Class ServiceLaws (W : Type) `{Services W} : Prop := {
  (** NewProviderError validates the details of a provider's error. *)
  law_detail : forall w selection request w' r e, sv_Execute w selection request = (w', (r, Some e)) -> provider_detail_ok e;
  (** The recorder counts the attempts of the request it was given. *)
  law_started : forall w request deployment w' request' attempt, sv_StartAttempt w request deployment = (w', Ok (request', attempt)) ->
    gr_AttemptCount request' = gr_AttemptCount request + 1 /\ ra_AttemptNo attempt = gr_AttemptCount request + 1 }.

(** ** Outcomes that can be recorded *)
Definition is_failure (o : AttemptOutcome) : Prop :=
  AttemptOutcome_Validate o = true /\ (ao_AttemptStatus o ∈ [AttemptRetryableFailed; AttemptFailed; AttemptCancelled]) /\ ao_RequestStatus o <> RequestRunning.

Lemma failure_described o : is_failure o -> categoryPattern (ao_ErrorCategory o) = true /\ attemptErrorCodePattern (ao_ErrorCode o) = true.
Proof.
  intros (Hv & Hs & _). unfold AttemptOutcome_Validate in Hv. apply andb_true_iff in Hv as [[_ Hv]%andb_true_iff _]. unfold outcome_status_ok in Hv.
  rewrite !elem_of_cons, elem_of_nil in Hs. destruct Hs as [Hs|[Hs|[Hs|[]]]]; rewrite Hs in Hv; prop_hyps; try done.
  split; [|done]. match goal with H : ao_ErrorCategory o = _ |- _ => rewrite H end. by vm_compute.
Qed.

Lemma failure_not_success o : is_failure o -> succeeded o = false.
Proof. intros (_ & Hs & _). apply bool_decide_eq_false_2. intros E. rewrite E, !elem_of_cons, elem_of_nil in Hs. naive_solver. Qed.

Lemma error_is_failure err : provider_detail_ok err -> is_failure (attemptOutcomeForError err).
Proof.
  intros H. split; [by apply attempt_failures_are_recordable|]. unfold attemptOutcomeForError.
  repeat case_match; simpl; (split; [set_solver|done]).
Qed.

(** Facts learnt from the response may replace those of the error. *)
Lemma failure_with_facts o headers id usage : is_failure o ->
  no_text id || (headers && providerRequestIDPattern id) = true -> match usage with Some u => NormalizedUsage_Validate u | None => true end = true ->
  is_failure (with_outcome o (ao_AttemptStatus o) (ao_RequestStatus o) headers id usage) /\
  AttemptOutcome_Validate (with_outcome o AttemptRetryableFailed RequestRunning headers id usage) = true.
Proof.
  intros Hf Hid Hu. destruct (failure_described o Hf) as [Hc Hd]. destruct Hf as (Hv & Hs & Hr).
  unfold is_failure, AttemptOutcome_Validate in *. apply andb_true_iff in Hv as [[[H1 _]%andb_true_iff H3]%andb_true_iff _].
  cbn [with_outcome ao_EndReason ao_ProviderRequestID ao_HeadersReceived ao_Usage ao_AttemptStatus ao_RequestStatus].
  rewrite H1, Hid, Hu, !andb_true_r. cbn [andb]. unfold outcome_status_ok in *.
  cbn [with_outcome ao_AttemptStatus ao_RequestStatus ao_HeadersReceived ao_ErrorCategory ao_ErrorCode]. rewrite Hc, Hd.
  split; [|done]. split; [|done]. clear Hid. rewrite !elem_of_cons, elem_of_nil in Hs.
  destruct Hs as [Hs|[Hs|[Hs|[]]]]; rewrite Hs in H3 |- *; prop_hyps; rewrite ?bool_decide_eq_true_2 by done; try done.
  by rewrite !andb_true_r.
Qed.

Lemma known_usage_is_failure err result : provider_detail_ok err ->
  let o := failedOutcomeWithKnownUsage err result in
  is_failure o /\ AttemptOutcome_Validate (with_outcome o AttemptRetryableFailed RequestRunning (ao_HeadersReceived o) (ao_ProviderRequestID o) (ao_Usage o)) = true.
Proof.
  intros He%error_is_failure o.
  assert (exists headers id usage, no_text id || (headers && providerRequestIDPattern id) = true /\ match usage with Some u => NormalizedUsage_Validate u | None => true end = true /\
    o = with_outcome (attemptOutcomeForError err) (ao_AttemptStatus (attemptOutcomeForError err)) (ao_RequestStatus (attemptOutcomeForError err)) headers id usage)
    as (headers & id & usage & Hid & Hu & ->); [|exact (failure_with_facts _ _ _ _ He Hid Hu)].
  assert (no_text (ao_ProviderRequestID (attemptOutcomeForError err)) || (ao_HeadersReceived (attemptOutcomeForError err) && providerRequestIDPattern (ao_ProviderRequestID (attemptOutcomeForError err))) = true
    /\ match ao_Usage (attemptOutcomeForError err) with Some u => NormalizedUsage_Validate u | None => true end = true) as [Hid0 Hu0].
  { destruct He as [Hv _]. unfold AttemptOutcome_Validate in Hv. apply andb_true_iff in Hv as [[[_ ?]%andb_true_iff _]%andb_true_iff ?]. done. }
  unfold o, failedOutcomeWithKnownUsage. destruct (NormalizedResponse_Validate result) eqn:E.
  - unfold NormalizedResponse_Validate in E. apply andb_true_iff in E as [[[_ Hu]%andb_true_iff Hid]%andb_true_iff _].
    exists true, (resp_ProviderRequestID result), (resp_Usage result). split; [exact (provider_id_recorded _ Hid)|done].
  - destruct (resp_Usage result) as [u|]; [destruct (bool_decide (u_Source u = SourceEstimated) && NormalizedUsage_Validate u) eqn:Eu|]; [apply andb_true_iff in Eu as [_ Eu]| |]; do 3 eexists; (split; [exact Hid0|]);
      [split; [|reflexivity]; exact Eu| |]; (split; [exact Hu0|by destruct (attemptOutcomeForError err)]).
Qed.

Lemma success_is_recordable result : NormalizedResponse_Validate result = true -> AttemptOutcome_Validate (succeeded_outcome result) = true.
Proof.
  intros E. unfold NormalizedResponse_Validate in E. apply andb_true_iff in E as [[[_ Hu]%andb_true_iff Hid]%andb_true_iff _].
  apply provider_id_recorded in Hid. unfold AttemptOutcome_Validate, succeeded_outcome.
  cbn [ao_EndReason ao_ProviderRequestID ao_HeadersReceived ao_Usage andb]. by rewrite Hid, Hu, !andb_true_r.
Qed.

Lemma retried_below_maximum input d : Classify input = Some d -> d_Action d <> NoRetry -> in_AttemptNumber input < in_MaximumAttempts input.
Proof.
  unfold Classify. destruct (validateInput input) as [failure|]; [|done]. intros [= <-]. destruct (_ || _); [done|].
  case_bool_decide; [done|]. destruct (in_MaximumAttempts input <=? in_AttemptNumber input) eqn:E; [done|]. apply Z.leb_gt in E. done.
Qed.

(** ** The run follows the protocol *)
Section Protocol.
Context {W : Type} `{!Services W} `{!ServiceLaws W} (fv : Failover) (s0 : phase).
Local Abbreviation max := (fo_MaximumAttempts (fv_options fv)).
Local Abbreviation at_phase w s := (follow max s0 w.2 = s).
Implicit Types w : W * list call.

(** A selection that was recorded leaves the request ready for an attempt; one that failed
    leaves it selecting, or doomed when its decision could not be recorded. *)
Lemma select_follows w request n tried why w' r : at_phase w (Selecting n tried why) -> exclusion_ok tried why (ExcludedDeploymentIDs request) = true -> 0 <= n ->
  forall id, selectAndRecordRoute w id (n + 1) request why = (w', r) ->
  match r with
  | Ok s => at_phase w' (Ready n tried why (chosen s))
  | Err DecisionNotRecorded => at_phase w' Doomed
  | Err _ => at_phase w' (Selecting n tried why)
  end.
Proof using Type.
  intros Hp Hx Hn id. unfold selectAndRecordRoute. destruct (is_empty id || _); [by intros [= <- <-]|]. cbn [sv_Select sv_Record Logged].
  destruct (sv_Select w.1 request) as [v1 sel]. cbn [fst snd]. destruct (sv_Record v1 _) as [v2 kept]. intros [= <- <-]. cbn [snd].
  assert (decision_ok n why match sel with Ok s => Some (chosen s) | Err _ => None end (decision_input id (n + 1) why sel) = true) as Hd.
  { unfold decision_ok. destruct sel as [s|f]; cbn [decision_input rdi_NextAttemptNo rdi_Retry rdi_Outcome]; rewrite Z.eqb_refl, bool_decide_eq_true_2 by done; [done|].
    by destruct (no_candidate _). }
  destruct kept; simpl.
  - destruct sel as [s|f]; rewrite !follow_snoc, Hp; cbn [pstep]; rewrite Hx; cbn [pstep]; by rewrite Hd.
  - rewrite !follow_snoc, Hp; cbn [pstep]; rewrite Hx; cbn [pstep]; by rewrite Hd.
Qed.

Lemma fail_closes w request status reason w' r : (exists n tried why, at_phase w (Selecting n tried why)) \/ (exists n tried why d, at_phase w (Ready n tried why d)) \/ at_phase w Doomed ->
  failure_ok status = true -> sv_FailRequest w request status reason = (w', r) -> at_phase w' (Closed false).
Proof using Type.
  intros Hp Hs. cbn [sv_FailRequest Logged]. destruct (sv_FailRequest w.1 request status reason) as [v r']. intros [= <- <-]. cbn [snd]. rewrite follow_snoc.
  destruct Hp as [(n & tried & why & ->)|[(n & tried & why & d & ->)| ->]]; simpl; by rewrite Hs.
Qed.

Lemma finish_closes w recorded attempt outcome answer w' t n tried d retry : at_phase w (Called n tried d attempt retry) ->
  AttemptOutcome_Validate outcome = true -> final_ok outcome retry = true -> finish_with w recorded attempt outcome answer = (w', t) ->
  exists kept, at_phase w' (Closed (kept && succeeded outcome)) /\ t = Finished (if kept then answer else Err RecordingUnavailable).
Proof using Type.
  intros Hp Hv Hf. unfold finish_with. cbn [sv_CompleteAttempt Logged]. destruct (sv_CompleteAttempt w.1 recorded attempt outcome) as [v r]. intros [= <- <-].
  exists (is_ok r). cbn [snd]. split; [|by destruct r]. rewrite follow_snoc, Hp. simpl. unfold completion_ok. rewrite bool_decide_eq_true_2, Hv by done. simpl.
  destruct retry; by rewrite Hf.
Qed.

Lemma selectNext_follows w request recorded tried d w' r : at_phase w (Selecting (gr_AttemptCount recorded) tried (Some d)) -> 0 <= gr_AttemptCount recorded ->
  selectNext w request recorded tried d = (w', r) ->
  match r with
  | Ok s => at_phase w' (Ready (gr_AttemptCount recorded) tried (Some d) (chosen s)) /\
            negb (must_differ (Some d)) || negb (containsDeployment tried (chosen s)) = true
  | Err DecisionNotRecorded => at_phase w' Doomed
  | Err _ => at_phase w' (Selecting (gr_AttemptCount recorded) tried (Some d)) \/ exists dep, at_phase w' (Ready (gr_AttemptCount recorded) tried (Some d) dep)
  end.
Proof using Type.
  intros Hp Hn. unfold selectNext. destruct (selectAndRecordRoute w _ _ (with_excluded request tried) (Some d)) as [w1 r1] eqn:E1.
  apply (select_follows _ _ _ _ _ _ _ Hp) in E1; [|simpl; by rewrite bool_decide_eq_true_2|done]. destruct r1 as [s|e].
  - fold (chosen s). destruct (bool_decide _ && _) eqn:Eb; intros [= <- <-]; [by right; eexists|]. split; [done|].
    cbn [must_differ]. by destruct (bool_decide _), (containsDeployment _ _).
  - destruct (negb (no_candidate e) || _) eqn:Ec; [intros [= <- <-]; destruct e; auto|]. apply orb_false_iff in Ec as [Ec Er].
    apply negb_false_iff, bool_decide_eq_true in Er. intros E2. destruct e; try done.
    apply (select_follows _ _ _ _ _ _ _ E1) in E2; [|simpl; by rewrite Er, orb_true_r|done]. destruct r as [s|e']; [|destruct e'; auto]. split; [done|].
    cbn [must_differ]. by rewrite Er.
Qed.

(** [t] is a turn that ended the request or prepared the next attempt. *)
Definition turn_follows (w : W * list call) (n : Z) (t : turn) : Prop :=
  match t with
  | Finished answer => exists b, at_phase w (Closed b) /\ (b = true <-> is_ok answer = true)
  | Again recorded selection tried =>
      exists why, at_phase w (Ready n tried (Some why) (chosen selection)) /\ start_ok max n tried (Some why) (chosen selection) = true /\
        gr_AttemptCount recorded = n
  end.

Lemma closes_with_error w n (e : failover_error) : at_phase w (Closed false) -> turn_follows w n (Finished (Err e)).
Proof using Type. intros H. exists false. done. Qed.

Lemma continue_follows w request recorded tried err d w' t : at_phase w (Selecting (gr_AttemptCount recorded) tried (Some d)) -> 0 <= gr_AttemptCount recorded < max ->
  continue w request recorded tried err d = (w', t) -> turn_follows w' (gr_AttemptCount recorded) t.
Proof using Type.
  intros Hp Hn. unfold continue. cbn [sv_wait Logged]. destruct (sv_wait w.1 _) as [v1 interrupted].
  assert (at_phase (v1, w.2) (Selecting (gr_AttemptCount recorded) tried (Some d))) as Hp1 by done. generalize dependent (v1, w.2). clear w Hp. intros w Hp.
  destruct interrupted as [failure|].
  - destruct (failRetryRequest w recorded failure) as [w2 e] eqn:E. intros [= <- <-]. apply closes_with_error. unfold failRetryRequest in E.
    destruct (match sv_parent w with Some _ => _ | None => _ end) as [status reason] eqn:Es. destruct (sv_FailRequest w recorded status reason) as [w3 r] eqn:E3.
    injection E as <- _. apply (fail_closes _ _ _ _ _ _ (or_introl (ex_intro _ _ (ex_intro _ _ (ex_intro _ _ Hp))))) in E3; [done|]. destruct (sv_parent w); by injection Es as <- _.
  - destruct (selectNext w request recorded tried d) as [w2 next] eqn:E. apply (selectNext_follows _ _ _ _ _ _ _ Hp) in E; [|lia].
    destruct next as [s|e].
    + intros [= <- <-]. destruct E as [E1 E2]. exists d. split; [done|]. split; [|done]. unfold start_ok. rewrite E2. simpl. apply Z.ltb_lt. lia.
    + assert (forall reason w3 r, sv_FailRequest w2 recorded RequestFailed reason = (w3, r) -> at_phase w3 (Closed false)) as Hclose.
      { intros reason w3 r. apply fail_closes; [|done]. destruct e; [by right; right|destruct E as [E|[dep E]]; eauto 10..]. }
      destruct e; [|destruct (no_candidate _)..]; destruct (sv_FailRequest w2 recorded RequestFailed _) as [w3 r] eqn:E3; intros [= <- <-];
        apply closes_with_error, (Hclose _ _ _ E3).
Qed.

(** The estimate changes neither the log nor anything but the usage. *)
Lemma estimate_silent w deployment request result err w' result' : withLocalUsageEstimate fv w deployment request result err = (w', result') -> w'.2 = w.2.
Proof using Type.
  unfold withLocalUsageEstimate. destruct (_ || _); [by intros [= <- _]|]. cbn [sv_EstimateUsage Logged]. destruct (sv_EstimateUsage w.1 _ _ _) as [v e]. by intros [= <- _].
Qed.

Lemma projected_is_valid result model requestID n projected : projectChatCompletion result model requestID n = Some projected -> NormalizedResponse_Validate result = true.
Proof using Type. unfold projectChatCompletion. by destruct (NormalizedResponse_Validate result). Qed.

(** A called attempt that failed: it is completed once, or completed for a retry. *)
Lemma failed_attempt_follows w deadline request recorded attempt deployment tried err result w' t :
  at_phase w (Called (gr_AttemptCount recorded) tried deployment attempt Undecided) -> 1 <= gr_AttemptCount recorded -> ra_AttemptNo attempt = gr_AttemptCount recorded ->
  provider_detail_ok err ->
  attempt_failed fv w deadline request recorded attempt deployment tried err result = (w', t) -> turn_follows w' (gr_AttemptCount recorded) t.
Proof using Type.
  intros Hp Hn Ha He. unfold attempt_failed. cbn [sv_now Logged]. destruct (sv_now w.1) as [v now].
  assert (at_phase (v, w.2) (Called (gr_AttemptCount recorded) tried deployment attempt Undecided)) as Hp1 by done. generalize dependent (v, w.2). clear w Hp. intros w Hp.
  destruct (known_usage_is_failure err result He) as [Hf Hretry]. set (failed := failedOutcomeWithKnownUsage err result) in *. cbv zeta.
  pose proof (failure_not_success _ Hf) as Hns. destruct Hf as (Hv & Hs & Hr).
  assert (forall w retry answer w' t, at_phase w (Called (gr_AttemptCount recorded) tried deployment attempt retry) -> (forall d, retry = Decided d -> d_Action d = NoRetry) ->
    finish_with w recorded attempt failed (Err answer) = (w', t) -> turn_follows w' (gr_AttemptCount recorded) t) as Hfinish.
  { intros u retry answer u' t' Hu Hd Hfin. eapply finish_closes in Hfin as (kept & Hc & ->); [|exact Hu|done|].
    - rewrite Hns, andb_false_r in Hc. exists false. split; [done|]. by destruct kept.
    - unfold final_ok. rewrite bool_decide_eq_false_2, Hns by done. destruct retry; [done|done|]. simpl. apply bool_decide_eq_true_2. by apply Hd. }
  destruct (Classify _) as [d|] eqn:Ec; [|by apply (Hfinish _ Undecided)]. unfold recordRetryDecision.
  destruct (is_empty (gr_ID recorded) || _); [by apply (Hfinish _ Undecided)|]. cbn [sv_RecordRetry Logged]. destruct (sv_RecordRetry w.1 _) as [v1 kept].
  assert (at_phase (v1, w.2 ++ [RetryCall {| ri_RequestID := gr_ID recorded; ri_AttemptNo := ra_AttemptNo attempt; ri_Decision := d |} kept])
    (Called (gr_AttemptCount recorded) tried deployment attempt (if kept then Decided d else Refused))) as Hp2.
  { cbn [snd]. rewrite follow_snoc, Hp. cbn [pstep ri_AttemptNo ri_Decision]. by rewrite Ha, Z.eqb_refl. }
  destruct kept; cbn [negb]; [|by apply (Hfinish _ Refused)]. case_bool_decide as Hno; [apply (Hfinish _ (Decided d)); [done|by intros ? [= <-]]|].
  apply retried_below_maximum in Ec; [|done]. cbn [retry_input in_AttemptNumber in_MaximumAttempts] in Ec.
  generalize dependent (v1, w.2 ++ [RetryCall {| ri_RequestID := gr_ID recorded; ri_AttemptNo := ra_AttemptNo attempt; ri_Decision := d |} true]). clear w Hp. intros w Hp.
  cbn [sv_CompleteAttemptForRetry Logged]. destruct (sv_CompleteAttemptForRetry w.1 recorded attempt _) as [v2 r].
  assert (forall kept, at_phase (v2, w.2 ++ [CompleteForRetryCall attempt (with_outcome failed AttemptRetryableFailed RequestRunning (ao_HeadersReceived failed) (ao_ProviderRequestID failed) (ao_Usage failed)) kept])
    (if kept then Selecting (gr_AttemptCount recorded) (also tried deployment) (Some d) else Closed false)) as Hp3.
  { intros kept. cbn [snd]. rewrite follow_snoc, Hp. cbn [pstep]. unfold completion_ok. rewrite bool_decide_eq_true_2, Hretry by done. simpl. by rewrite bool_decide_eq_false_2 by done. }
  destruct r as [u|e]; cbn [is_ok]; [|intros [= <- <-]; by apply closes_with_error, (Hp3 false)]. apply continue_follows; [exact (Hp3 true)|lia].
Qed.

Lemma round_follows w deadline request providerRequest requestID recorded selection tried why w' t :
  at_phase w (Ready (gr_AttemptCount recorded) tried why (chosen selection)) -> start_ok max (gr_AttemptCount recorded) tried why (chosen selection) = true ->
  0 <= gr_AttemptCount recorded -> round fv w deadline request providerRequest requestID recorded selection tried = (w', t) ->
  turn_follows w' (gr_AttemptCount recorded + 1) t.
Proof using All.
  intros Hp Hs Hn. unfold round. fold (chosen selection). cbn [sv_StartAttempt Logged]. destruct (sv_StartAttempt w.1 recorded (chosen selection)) as [v1 started] eqn:E1.
  destruct started as [[recorded' attempt]|e].
  - destruct (law_started _ _ _ _ _ _ E1) as [Hcount Hno].
    assert (at_phase (v1, w.2 ++ [StartCall (chosen selection) (Some attempt)]) (Opened (gr_AttemptCount recorded') tried (chosen selection) attempt)) as Hp1.
    { cbn [snd]. rewrite follow_snoc, Hp. cbn [pstep]. by rewrite bool_decide_eq_true_2, Hs, Hno, Z.eqb_refl, Hcount by done. }
    generalize dependent (v1, w.2 ++ [StartCall (chosen selection) (Some attempt)]). clear w Hp E1. intros w Hp. rewrite <- Hcount.
    cbn [sv_Execute Logged]. destruct (sv_Execute w.1 selection providerRequest) as [v2 [result executeErr]] eqn:E2.
    assert (at_phase (v2, w.2 ++ [ProviderCall (chosen selection)]) (Called (gr_AttemptCount recorded') tried (chosen selection) attempt Undecided)) as Hp1.
    { cbn [snd]. rewrite follow_snoc, Hp. cbn [pstep]. by rewrite bool_decide_eq_true_2. }
    generalize dependent (v2, w.2 ++ [ProviderCall (chosen selection)]). intros w2 Hp2.
    destruct (withLocalUsageEstimate fv w2 _ _ _ _) as [w3 result'] eqn:E3. apply estimate_silent in E3. rewrite <- E3 in Hp2.
    assert (forall e, provider_detail_ok e -> forall w' t, attempt_failed fv w3 deadline request recorded' attempt (chosen selection) tried e result' = (w', t) ->
      turn_follows w' (gr_AttemptCount recorded') t) as Hfailed by (intros e He w4 t4; apply failed_attempt_follows; [exact Hp2|lia|congruence|done]).
    destruct executeErr as [e|]; [apply Hfailed; by eapply law_detail|]. destruct (projectChatCompletion _ _ _ _) as [projected|] eqn:E4; [|by apply Hfailed].
    intros Hfin. eapply finish_closes in Hfin as (kept & Hc & ->); [|exact Hp2|by eapply success_is_recordable, projected_is_valid|done].
    exists kept. rewrite andb_true_r in Hc. split; [done|]. by destruct kept.
  - destruct (sv_FailRequest _ recorded RequestFailed _) as [w3 r] eqn:E3. intros [= <- <-]. apply closes_with_error.
    apply fail_closes in E3; [done| |done]. right; right. cbn [snd]. rewrite follow_snoc, Hp. cbn [pstep]. by rewrite bool_decide_eq_true_2, Hs by done.
Qed.

Lemma rounds_follow fuel : forall w deadline request providerRequest requestID recorded selection tried why,
  at_phase w (Ready (gr_AttemptCount recorded) tried why (chosen selection)) -> start_ok max (gr_AttemptCount recorded) tried why (chosen selection) = true ->
  0 <= gr_AttemptCount recorded -> (1 <= fuel)%nat -> max - gr_AttemptCount recorded <= Z.of_nat fuel ->
  exists w' answer b, rounds fv fuel w deadline request providerRequest requestID recorded selection tried = (w', Some answer) /\
    at_phase w' (Closed b) /\ (b = true <-> is_ok answer = true).
Proof using All.
  induction fuel as [|fuel IH]; intros w deadline request providerRequest requestID recorded selection tried why Hp Hs Hn Hf Hm; [lia|]. cbn [rounds].
  destruct (round fv w deadline request providerRequest requestID recorded selection tried) as [w1 t] eqn:E. apply (round_follows _ _ _ _ _ _ _ _ _ _ _ Hp Hs Hn) in E.
  destruct t as [answer|recorded' selection' tried'].
  - destruct E as (b & Hc & Hb). by exists w1, answer, b.
  - destruct E as (why' & Hp' & Hs' & Hcount). rewrite <- Hcount in Hp', Hs'. apply (IH _ _ _ _ _ _ _ _ _ Hp' Hs'); [lia| |lia].
    unfold start_ok in Hs'. apply andb_true_iff in Hs' as [_ Hs']. apply Z.ltb_lt in Hs'. lia.
Qed.

(** A request handed to Execute the way the handler does it. *)
Definition accepts_call (request : SelectionRequest) (recorded : GatewayRequest) (providerRequest : NormalizedRequest) (requestID : string) : bool :=
  NormalizedRequest_Validate (sel_Request request) && NormalizedRequest_Validate providerRequest && negb (req_Stream providerRequest) &&
  negb (is_empty requestID) && bool_decide (gr_Status recorded = RequestRouting).

Lemma Execute_follows fuel w deadline request recorded providerRequest requestID : at_phase w (Selecting (gr_AttemptCount recorded) [] None) ->
  accepts_call request recorded providerRequest requestID = true -> 0 <= gr_AttemptCount recorded -> (1 <= fuel)%nat -> max <= Z.of_nat fuel ->
  exists w' answer b, Failover_Execute fv fuel w deadline request recorded providerRequest requestID = (w', Some answer) /\
    at_phase w' (Closed b) /\ (b = true <-> is_ok answer = true).
Proof using All.
  intros Hp Ha Hn Hf Hm. unfold accepts_call in Ha. unfold Failover_Execute.
  apply andb_true_iff in Ha as [[[[H1 H2]%andb_true_iff H3%negb_true_iff]%andb_true_iff H4%negb_true_iff]%andb_true_iff H5]. rewrite H1, H2, H3, H4, H5. cbn [negb orb].
  destruct (selectAndRecordRoute w _ _ request None) as [w1 selected] eqn:E. pose proof (select_follows _ _ _ _ _ _ _ Hp eq_refl Hn _ E) as Hsel.
  destruct selected as [selection|e]; [by apply (rounds_follow _ _ _ _ _ _ _ _ _ None Hsel); [|lia..]|].
  assert (forall status reason w2 r, failure_ok status = true -> sv_FailRequest w1 recorded status reason = (w2, r) -> at_phase w2 (Closed false)) as Hclose.
  { intros status reason w2 r Hst. apply fail_closes; [|done]. destruct e; [by right; right|left; eauto..]. }
  assert (forall w2 (e : failover_error), at_phase w2 (Closed false) -> exists w' answer b, (w2, Some (Err e)) = (w', Some answer) /\
    at_phase w' (Closed b) /\ (b = true <-> is_ok (T := chatCompletionResponse) answer = true)) as Hdone by (intros w2 e2 Hc; by exists w2, (Err e2), false).
  assert (forall cause, exists w' answer b, (let '(w, e) := finalizeRequestFailure w1 recorded cause in (w, Some (Err e))) = (w', Some answer) /\
    at_phase w' (Closed b) /\ (b = true <-> is_ok (T := chatCompletionResponse) answer = true)) as Hfinal.
  { intros cause. unfold finalizeRequestFailure. destruct (select_cancelled cause || _);
      (destruct (sv_FailRequest w1 recorded _ _) as [w2 r] eqn:E2; apply Hclose in E2; [|done]; by apply Hdone). }
  destruct e; [|apply Hfinal..]. destruct (sv_FailRequest w1 recorded RequestFailed _) as [w2 r] eqn:E2. apply Hclose in E2; [|done]. by apply Hdone.
Qed.
End Protocol.

(** ** The log is only an observation *)
Section Erasure.
Context {W : Type} `{!Services W} (fv : Failover).

Definition erases {A : Type} (x : (W * list call) * A) (y : W * A) : Prop := x.1.1 = y.1 /\ x.2 = y.2.

Lemma erases_bind {A B : Type} (x : (W * list call) * A) (y : W * A) (f : W * list call -> A -> (W * list call) * B) (g : W -> A -> W * B) :
  erases x y -> (forall w l a, erases (f (w, l) a) (g w a)) -> erases (let '(w, a) := x in f w a) (let '(w, a) := y in g w a).
Proof using Type. destruct x as [[w l] a], y as [w' a']. intros [H1 H2] Hf. simpl in *. subst. apply Hf. Qed.

Ltac erase_call := unfold erases; simpl; match goal with |- context [let '(_, _) := ?x in _] => by destruct x end.

Lemma erase_Select w l request : erases (sv_Select (w, l) request) (sv_Select w request).
Proof using Type. erase_call. Qed.
Lemma erase_Record w l input : erases (sv_Record (w, l) input) (sv_Record w input).
Proof using Type. erase_call. Qed.
Lemma erase_RecordRetry w l input : erases (sv_RecordRetry (w, l) input) (sv_RecordRetry w input).
Proof using Type. erase_call. Qed.
Lemma erase_Execute w l s r : erases (sv_Execute (w, l) s r) (sv_Execute w s r).
Proof using Type. erase_call. Qed.
Lemma erase_StartAttempt w l r d : erases (sv_StartAttempt (w, l) r d) (sv_StartAttempt w r d).
Proof using Type. erase_call. Qed.
Lemma erase_CompleteAttempt w l r a o : erases (sv_CompleteAttempt (w, l) r a o) (sv_CompleteAttempt w r a o).
Proof using Type. erase_call. Qed.
Lemma erase_CompleteAttemptForRetry w l r a o : erases (sv_CompleteAttemptForRetry (w, l) r a o) (sv_CompleteAttemptForRetry w r a o).
Proof using Type. erase_call. Qed.
Lemma erase_FailRequest w l r s e : erases (sv_FailRequest (w, l) r s e) (sv_FailRequest w r s e).
Proof using Type. erase_call. Qed.
Lemma erase_EstimateUsage w l d r e : erases (sv_EstimateUsage (w, l) d r e) (sv_EstimateUsage w d r e).
Proof using Type. erase_call. Qed.
Lemma erase_now w l : erases (sv_now (w, l)) (sv_now w).
Proof using Type. erase_call. Qed.
Lemma erase_wait w l d : erases (sv_wait (w, l) d) (sv_wait w d).
Proof using Type. erase_call. Qed.

Create HintDb erase.
#[local] Hint Resolve erase_Select erase_Record erase_RecordRetry erase_Execute erase_StartAttempt erase_CompleteAttempt
  erase_CompleteAttemptForRetry erase_FailRequest erase_EstimateUsage erase_now erase_wait : erase.

(** The two runs branch alike. *)
Ltac erase_run :=
  repeat first
    [ by split
    | progress eauto 1 with erase nocore
    | apply erases_bind; [by eauto 2 with erase nocore|intros]
    | match goal with |- erases (match ?x with _ => _ end) (match ?x with _ => _ end) => destruct x end
    | progress cbn [sv_context sv_parent Logged fst snd] ].

Lemma erase_select w l id n request why : erases (selectAndRecordRoute (w, l) id n request why) (selectAndRecordRoute w id n request why).
Proof using Type. unfold selectAndRecordRoute. erase_run. Qed.
Lemma erase_recordRetry w l id n d : erases (recordRetryDecision (w, l) id n d) (recordRetryDecision w id n d).
Proof using Type. unfold recordRetryDecision. erase_run. Qed.
#[local] Hint Resolve erase_select erase_recordRetry : erase.

Lemma erase_selectNext w l request recorded tried d : erases (selectNext (w, l) request recorded tried d) (selectNext w request recorded tried d).
Proof using Type. unfold selectNext. erase_run. Qed.
Lemma erase_finalize w l r c : erases (finalizeRequestFailure (w, l) r c) (finalizeRequestFailure w r c).
Proof using Type. unfold finalizeRequestFailure. erase_run. Qed.
Lemma erase_failRetry w l r f : erases (failRetryRequest (w, l) r f) (failRetryRequest w r f).
Proof using Type. unfold failRetryRequest. erase_run. Qed.
Lemma erase_estimate w l d q r e : erases (withLocalUsageEstimate fv (w, l) d q r e) (withLocalUsageEstimate fv w d q r e).
Proof using Type. unfold withLocalUsageEstimate. erase_run. Qed.
Lemma erase_finish w l r a o e : erases (finish_with (w, l) r a o e) (finish_with w r a o e).
Proof using Type. unfold finish_with. erase_run. Qed.
#[local] Hint Resolve erase_selectNext erase_finalize erase_failRetry erase_estimate erase_finish : erase.

Lemma erase_continue w l request recorded tried err d : erases (continue (w, l) request recorded tried err d) (continue w request recorded tried err d).
Proof using Type. unfold continue. erase_run. Qed.
#[local] Hint Resolve erase_continue : erase.
Lemma erase_failed w l deadline request recorded attempt deployment tried err result :
  erases (attempt_failed fv (w, l) deadline request recorded attempt deployment tried err result) (attempt_failed fv w deadline request recorded attempt deployment tried err result).
Proof using Type. unfold attempt_failed. erase_run. Qed.
#[local] Hint Resolve erase_failed : erase.
Lemma erase_round w l deadline request p id recorded selection tried :
  erases (round fv (w, l) deadline request p id recorded selection tried) (round fv w deadline request p id recorded selection tried).
Proof using Type. unfold round. erase_run. Qed.

Lemma erase_rounds fuel : forall w l deadline request p id recorded selection tried,
  erases (rounds fv fuel (w, l) deadline request p id recorded selection tried) (rounds fv fuel w deadline request p id recorded selection tried).
Proof using Type.
  induction fuel as [|fuel IH]; intros; [by split|]. cbn [rounds]. apply erases_bind; [apply erase_round|]. intros. erase_run.
Qed.
#[local] Hint Resolve erase_rounds : erase.

Lemma erase_run_log fuel w l deadline request recorded p id :
  erases (Failover_Execute fv fuel (w, l) deadline request recorded p id) (Failover_Execute fv fuel w deadline request recorded p id).
Proof using Type. unfold Failover_Execute. erase_run. Qed.
End Erasure.

(** C11: Request execution follows its protocol and ends. For any services that obey
    the laws, a valid call returns an answer within as many rounds as attempts are allowed;
    its calls begin with the selection of the first attempt, follow [pstep] without a break
    (each selection recorded before its attempt starts, one provider call and one recordable
    completion per attempt, a retry only after a recorded decision, on an untried deployment
    when the decision demands one, and only below the maximum), and end with the terminal
    record; and the client is given a response exactly when that record is a success. *)
Theorem failover_follows_protocol {W : Type} `{!Services W} `{!ServiceLaws W} fv w deadline request recorded providerRequest requestID :
  ChatFailoverOptions_Validate (fv_options fv) = true -> accepts_call request recorded providerRequest requestID = true -> 0 <= gr_AttemptCount recorded ->
  let max := fo_MaximumAttempts (fv_options fv) in
  exists w' log answer success,
    Failover_Execute fv (Z.to_nat max) w deadline request recorded providerRequest requestID = (w', Some answer) /\
    Failover_Execute fv (Z.to_nat max) (w, []) deadline request recorded providerRequest requestID = ((w', log), Some answer) /\
    follow max (Selecting (gr_AttemptCount recorded) [] None) log = Closed success /\ (success = true <-> is_ok answer = true).
Proof.
  intros Ho Ha Hn max. unfold ChatFailoverOptions_Validate in Ho. prop_hyps.
  destruct (Execute_follows fv (Selecting (gr_AttemptCount recorded) [] None) (Z.to_nat max) (w, []) deadline request recorded providerRequest requestID)
    as ([w' log] & answer & b & E & Hc & Hb); try done; [lia|lia|].
  destruct (erase_run_log fv (Z.to_nat max) w [] deadline request recorded providerRequest requestID) as [E1 E2]. rewrite E in E1, E2.
  destruct (Failover_Execute fv (Z.to_nat max) w deadline request recorded providerRequest requestID) as [w2 a2]. cbn [fst snd] in E1, E2. subst.
  by exists w2, log, answer, b.
Qed.
