(* ===== verification/GatewayExecution.v ===== *)
(** * Request execution on the execution record

    What the recorder promises to request execution is the class [DurableRecorder]: it keeps
    its invariant, and a terminal call it accepted is in the record. Against that promise an
    answer agrees with the record ([answers_match_the_record]). The PostgreSQL recorder of
    [ExecutionStore], with any environment for the other services, keeps the promise. *)
From Stdlib Require Import ZArith Lia Bool Ascii String.
From stdpp Require Import base tactics option list strings gmap.
From S2P Require Import Prelude Postgres Identifiers Unicode Catalog RoutePolicy Retry Metering Execution ExecutionStore ExecutionTheorems Adapter RouteFilter RouteDecision ApiError GatewayOutcome GatewayFailover.
(** ** The promise *)

(** The world after one call of a service. *)
Inductive serves {W : Type} `{Services W} : W -> W -> Prop :=
| serves_select w request : serves w (sv_Select w request).1
| serves_record w input : serves w (sv_Record w input).1
| serves_retry w input : serves w (sv_RecordRetry w input).1
| serves_execute w selection request : serves w (sv_Execute w selection request).1
| serves_start w request deployment : serves w (sv_StartAttempt w request deployment).1
| serves_complete w request attempt outcome : serves w (sv_CompleteAttempt w request attempt outcome).1
| serves_complete_retry w request attempt outcome : serves w (sv_CompleteAttemptForRetry w request attempt outcome).1
| serves_fail w request status reason : serves w (sv_FailRequest w request status reason).1
| serves_estimate w deployment request response : serves w (sv_EstimateUsage w deployment request response).1
| serves_now w : serves w (sv_now w).1
| serves_wait w delay : serves w (sv_wait w delay).1.

Class DurableRecorder (W : Type) `{Services W} := {
  rec_ok : W -> Prop;
  rec_status : W -> string -> option RequestStatus;
  rec_keeps : forall w w', serves w w' -> rec_ok w -> rec_ok w';
  rec_started : forall w request deployment request' attempt, rec_ok w -> (sv_StartAttempt w request deployment).2 = Ok (request', attempt) ->
    gr_ID request' = gr_ID request;
  rec_completed : forall w request attempt outcome, rec_ok w -> (sv_CompleteAttempt w request attempt outcome).2 = Ok tt ->
    rec_status (sv_CompleteAttempt w request attempt outcome).1 (gr_ID request) = Some (ao_RequestStatus outcome);
  rec_failed : forall w request status reason, rec_ok w -> (sv_FailRequest w request status reason).2 = Ok tt ->
    rec_status (sv_FailRequest w request status reason).1 (gr_ID request) = Some status }.

(** ** The answer and the record *)
Section Answer.
Context {W : Type} `{!Services W} `{!DurableRecorder W} (fv : Failover).
Implicit Types w : W.

Definition ended_badly (status : option RequestStatus) : Prop := status = Some RequestFailed \/ status = Some RequestCancelled.

Definition agrees (w : W) (id : string) (answer : result chatCompletionResponse failover_error) : Prop :=
  match answer with
  | Ok _ => rec_status w id = Some RequestSucceeded
  | Err (RoutingFailed _ | AttemptFailure _ | WaitFailure _) => ended_badly (rec_status w id)
  | Err (FailoverInvalid | RecordingUnavailable) => True
  end.

Lemma kept w w' : serves w w' -> rec_ok w -> rec_ok w'.
Proof using Type. apply rec_keeps. Qed.

(** [use_call] replaces a call by its answer and keeps the invariant. *)
Ltac use_call w' r :=
  match goal with
  | Hok : rec_ok ?w |- context [let '(_, _) := ?call in _] =>
      let E := fresh "E" in
      assert (rec_ok call.1) by (apply (kept w); [constructor|exact Hok]); destruct call as [w' r] eqn:E; cbn [fst snd] in *
  end.

Lemma select_keeps w id n request why : rec_ok w -> rec_ok (selectAndRecordRoute w id n request why).1.
Proof using Type.
  intros H. unfold selectAndRecordRoute. destruct (_ || _); [done|]. use_call w1 r. use_call w2 recorded. done.
Qed.

Lemma selectNext_keeps w request recorded tried d : rec_ok w -> rec_ok (selectNext w request recorded tried d).1.
Proof using Type.
  intros H. unfold selectNext. pose proof (select_keeps w (gr_ID recorded) (gr_AttemptCount recorded + 1) (with_excluded request tried) (Some d) H) as H1.
  destruct (selectAndRecordRoute w _ _ _ _) as [w1 r]. destruct r as [s|e]; [by destruct (_ && _)|]. destruct (_ || _); [done|]. by apply select_keeps.
Qed.

Lemma recordRetry_keeps w id n d : rec_ok w -> rec_ok (recordRetryDecision w id n d).1.
Proof using Type. intros H. unfold recordRetryDecision. destruct (_ || _); [done|]. apply (kept w); [constructor|done]. Qed.

Lemma estimate_keeps w deployment request result err : rec_ok w -> rec_ok (withLocalUsageEstimate fv w deployment request result err).1.
Proof using Type. intros H. unfold withLocalUsageEstimate. destruct (_ || _); [done|]. use_call w1 r. done. Qed.

(** A terminal failure that was accepted is in the record. *)
Lemma fail_agrees w request status reason w' r (e : failover_error) : rec_ok w -> failure_ok status = true ->
  sv_FailRequest w request status reason = (w', r) ->
  rec_ok w' /\ agrees w' (gr_ID request) (Err (match r with Ok _ => e | Err _ => RecordingUnavailable end)).
Proof using Type.
  intros Hok Hs E. split; [pose proof (kept w _ (serves_fail w request status reason) Hok) as Hk; by rewrite E in Hk|].
  pose proof (rec_failed w request status reason Hok) as Hf. rewrite E in Hf. destruct r as [[]|]; [|done]. cbn [fst snd] in Hf. specialize (Hf eq_refl).
  assert (ended_badly (rec_status w' (gr_ID request))) as Hb by (unfold ended_badly; rewrite Hf; destruct status; auto; done). by destruct e.
Qed.

Lemma finish_agrees w recorded attempt outcome answer w' t : rec_ok w ->
  (forall u, rec_status u (gr_ID recorded) = Some (ao_RequestStatus outcome) -> agrees u (gr_ID recorded) answer) ->
  finish_with w recorded attempt outcome answer = (w', t) -> exists final, t = Finished final /\ rec_ok w' /\ agrees w' (gr_ID recorded) final.
Proof using Type.
  intros Hok Ha. unfold finish_with. pose proof (rec_completed w recorded attempt outcome Hok) as Hc. use_call w1 r. intros [= <- <-]. eexists. split; [done|]. split; [done|].
  destruct r as [[]|]; [|done]. apply Ha. by apply Hc.
Qed.

(** A turn that ended agrees with the record; one that goes on keeps the request. *)
Definition turn_agrees (w : W) (id : string) (t : turn) : Prop :=
  rec_ok w /\ match t with Finished answer => agrees w id answer | Again recorded _ _ => gr_ID recorded = id end.

Lemma continue_agrees w request recorded tried err d w' t : rec_ok w -> continue w request recorded tried err d = (w', t) -> turn_agrees w' (gr_ID recorded) t.
Proof using Type.
  intros Hok. unfold continue. use_call w1 interrupted. destruct interrupted as [failure|].
  - unfold failRetryRequest. destruct (match sv_parent w1 with Some _ => _ | None => _ end) as [status reason] eqn:Es.
    assert (failure_ok status = true) by (destruct (sv_parent w1); by injection Es as <- _).
    destruct (sv_FailRequest w1 recorded status reason) as [w2 r] eqn:E2. intros [= <- <-]. by eapply fail_agrees.
  - pose proof (selectNext_keeps w1 request recorded tried d ltac:(done)) as Hn. destruct (selectNext w1 request recorded tried d) as [w2 next]. cbn [fst] in Hn.
    destruct next as [s|e]; [by intros [= <- <-]|].
    assert (forall reason e w3 r, sv_FailRequest w2 recorded RequestFailed reason = (w3, r) ->
      turn_agrees w3 (gr_ID recorded) (Finished (Err (match r with Ok _ => e | Err _ => RecordingUnavailable end)))) as Hfail
      by (intros reason e' w3 r; apply fail_agrees; done).
    destruct e; [|destruct (no_candidate _)..]; destruct (sv_FailRequest w2 recorded RequestFailed _) as [w3 r] eqn:E3; intros [= <- <-]; try by eapply Hfail.
    destruct (Hfail _ RecordingUnavailable _ _ E3). by split.
Qed.

Lemma failure_status err result : ended_badly (Some (ao_RequestStatus (failedOutcomeWithKnownUsage err result))).
Proof using Type.
  assert (ended_badly (Some (ao_RequestStatus (attemptOutcomeForError err)))) as H.
  { unfold attemptOutcomeForError. repeat case_match; simpl; by constructor. }
  unfold failedOutcomeWithKnownUsage. repeat case_match; exact H.
Qed.

Lemma attempt_failed_agrees w deadline request recorded attempt deployment tried err result w' t : rec_ok w ->
  attempt_failed fv w deadline request recorded attempt deployment tried err result = (w', t) -> turn_agrees w' (gr_ID recorded) t.
Proof using Type.
  intros Hok. unfold attempt_failed. use_call w1 now.
  assert (forall w e w' t, rec_ok w -> finish_with w recorded attempt (failedOutcomeWithKnownUsage err result) (Err e) = (w', t) -> turn_agrees w' (gr_ID recorded) t) as Hfin.
  { intros u e u' t' Hu Hf. apply finish_agrees in Hf as (final & -> & ? & ?); [by split|done|]. intros v Hv.
    pose proof (failure_status err result) as Hb. rewrite <- Hv in Hb. by destruct e. }
  destruct (Classify _) as [d|]; [|by apply Hfin]. pose proof (recordRetry_keeps w1 (gr_ID recorded) (ra_AttemptNo attempt) d ltac:(done)) as H2.
  destruct (recordRetryDecision w1 _ _ d) as [w2 k]. cbn [fst] in H2. destruct (negb k); [by apply Hfin|]. case_bool_decide; [by apply Hfin|]. cbv zeta.
  use_call w3 r. destruct r; [|by intros [= <- <-]]. by apply continue_agrees.
Qed.

Lemma round_agrees w deadline request p id recorded selection tried w' t : rec_ok w ->
  round fv w deadline request p id recorded selection tried = (w', t) -> turn_agrees w' (gr_ID recorded) t.
Proof using Type.
  intros Hok. unfold round. pose proof (rec_started w recorded (dep_ID (cand_Deployment (sel_Candidate selection)))) as Hid. use_call w1 started.
  destruct started as [[recorded' attempt]|e].
  - rewrite <- (Hid recorded' attempt Hok eq_refl). use_call w2 r. destruct r as [result err].
    pose proof (estimate_keeps w2 (cand_Deployment (sel_Candidate selection)) p result err ltac:(done)) as H3.
    destruct (withLocalUsageEstimate fv w2 _ p result err) as [w3 result']. cbn [fst] in H3.
    destruct (match err with Some e => Err e | None => _ end) as [projected|attemptErr] eqn:E2; [|by apply attempt_failed_agrees].
    intros Hf. apply finish_agrees in Hf as (final & -> & ? & ?); [by split|done|]. intros u Hu. exact Hu.
  - destruct (sv_FailRequest w1 recorded RequestFailed _) as [w2 r] eqn:E2. intros [= <- <-].
    destruct (fail_agrees _ _ RequestFailed _ _ _ RecordingUnavailable ltac:(done) eq_refl E2) as [? ?]. by split.
Qed.

Lemma rounds_agree fuel : forall w deadline request p id recorded selection tried w' answer, rec_ok w ->
  rounds fv fuel w deadline request p id recorded selection tried = (w', Some answer) -> rec_ok w' /\ agrees w' (gr_ID recorded) answer.
Proof using Type.
  induction fuel as [|fuel IH]; intros w deadline request p id recorded selection tried w' answer Hok; [done|]. cbn [rounds].
  destruct (round fv w deadline request p id recorded selection tried) as [w1 t] eqn:E. apply round_agrees in E as [Hok1 Ht]; [|done].
  destruct t as [final|recorded' selection' tried']; [by intros [= <- <-]|]. rewrite <- Ht. by apply IH.
Qed.

Lemma Execute_agrees fuel w deadline request recorded p id w' answer : rec_ok w ->
  Failover_Execute fv fuel w deadline request recorded p id = (w', Some answer) -> rec_ok w' /\ agrees w' (gr_ID recorded) answer.
Proof using Type.
  intros Hok. unfold Failover_Execute. destruct (_ || _); [by intros [= <- <-]|].
  pose proof (select_keeps w (gr_ID recorded) (gr_AttemptCount recorded + 1) request None Hok) as H1. destruct (selectAndRecordRoute w _ _ request None) as [w1 selected].
  cbn [fst] in H1. destruct selected as [selection|e]; [by apply rounds_agree|].
  assert (forall cause, (let '(w, e) := finalizeRequestFailure w1 recorded cause in (w, Some (Err e))) = (w', Some answer) -> rec_ok w' /\ agrees w' (gr_ID recorded) answer) as Hfinal.
  { intros cause. unfold finalizeRequestFailure. destruct (select_cancelled cause || _);
      (destruct (sv_FailRequest w1 recorded _ _) as [w2 r] eqn:E2; intros [= <- <-]; refine (fail_agrees _ _ _ _ _ _ (RoutingFailed cause) H1 _ E2); done). }
  destruct e; [|apply Hfinal..]. destruct (sv_FailRequest w1 recorded RequestFailed _) as [w2 r] eqn:E2. intros [= <- <-].
  destruct (fail_agrees _ _ RequestFailed _ _ _ RecordingUnavailable H1 eq_refl E2) as [? ?]. by split.
Qed.
End Answer.

(** ** The PostgreSQL recorder keeps the promise *)

(** The services besides the execution recorder, and what each of the recorder's calls meets:
    the faults of its statements, a new identity, the identities of its usage events, the time. *)
Record RecorderCall := { rc_faults : Faults; rc_newID : option string; rc_ids : nat -> option string; rc_now : Time }.

Class Environment (E : Type) := {
  en_Select : E -> SelectionRequest -> E * result Selection SelectFailure;
  en_Record : E -> RouteDecisionInput -> E * bool;
  en_RecordRetry : E -> RetryInput -> E * bool;
  en_Execute : E -> Selection -> NormalizedRequest -> E * (NormalizedResponse * option Failure);
  en_EstimateUsage : E -> Deployment -> NormalizedRequest -> option NormalizedResponse -> E * option NormalizedUsage;
  en_now : E -> E * Time;
  en_wait : E -> Duration -> E * option Failure;
  en_context : E -> option ctx_error;
  en_parent : E -> option ctx_error;
  en_recorder : E -> E * RecorderCall }.

Definition forget {A : Type} (r : result A exec_error) : result unit exec_error := match r with Ok _ => Ok tt | Err e => Err e end.

Section Recorded.
Context {E : Type} `{!Environment E} (refs : References).

Definition with_env {A : Type} (db : ExecDB) (r : E * A) : (ExecDB * E) * A := ((db, r.1), r.2).
Definition with_db {A B : Type} (w : ExecDB * E) (op : RecorderCall -> ExecDB * A) (f : A -> B) : (ExecDB * E) * B :=
  let '(e, c) := en_recorder w.2 in let '(db, r) := op c in ((db, e), f r).

#[local] Instance Recorded : Services (ExecDB * E) := {|
  sv_Select w request := with_env w.1 (en_Select w.2 request);
  sv_Record w input := with_env w.1 (en_Record w.2 input);
  sv_RecordRetry w input := with_env w.1 (en_RecordRetry w.2 input);
  sv_Execute w selection request := with_env w.1 (en_Execute w.2 selection request);
  sv_StartAttempt w request deployment :=
    with_db w (fun c => StartAttempt refs (rc_faults c) (rc_newID c) w.1 request deployment (rc_now c)) id;
  sv_CompleteAttempt w request attempt outcome :=
    with_db w (fun c => CompleteAttempt refs (rc_faults c) (rc_ids c) w.1 request attempt outcome (rc_now c)) forget;
  sv_CompleteAttemptForRetry w request attempt outcome :=
    with_db w (fun c => CompleteAttemptForRetry refs (rc_faults c) (rc_ids c) w.1 request attempt outcome (rc_now c)) forget;
  sv_FailRequest w request status reason := with_db w (fun c => FailRequest (rc_faults c) w.1 request status reason (rc_now c)) forget;
  sv_EstimateUsage w deployment request response := with_env w.1 (en_EstimateUsage w.2 deployment request response);
  sv_now w := with_env w.1 (en_now w.2);
  sv_wait w delay := with_env w.1 (en_wait w.2 delay);
  sv_context w := en_context w.2;
  sv_parent w := en_parent w.2 |}.

Lemma with_db_cases {A B : Type} w (op : RecorderCall -> ExecDB * A) (f : A -> B) : exists c, (with_db w op f).1.1 = (op c).1 /\ (with_db w op f).2 = f (op c).2.
Proof using Type. unfold with_db. destruct (en_recorder w.2) as [e c]. exists c. by destruct (op c). Qed.

Lemma forget_Ok {A : Type} (r : result A exec_error) : forget r = Ok tt -> exists a, r = Ok a.
Proof using Type. destruct r; [eauto|done]. Qed.

(** A transaction that answered was committed. *)
Lemma committed_Ok {A : Type} faults db (r : result (ExecDB * A) exec_error) a : (committed faults db r).2 = Ok a -> r = Ok ((committed faults db r).1, a).
Proof using Type. unfold committed. destruct r as [[db' b]|]; [|done]. destruct (fl_commit faults) as [[]|]; simpl; try done. by intros [= ->]. Qed.
Lemma transaction_Ok {A : Type} faults db (r : result (ExecDB * A) exec_error) a : (transaction faults db r).2 = Ok a -> r = Ok ((transaction faults db r).1, a).
Proof using Type. unfold transaction. destruct (fl_begin faults); [done|apply committed_Ok]. Qed.

Lemma started_facts faults newID db request deployment now request' attempt :
  (StartAttempt refs faults newID db request deployment now).2 = Ok (request', attempt) ->
  (exists old, x_requests db !! gr_ID request = Some old /\ gr_ID request' = gr_ID old) /\
  gr_AttemptCount request' = gr_AttemptCount request + 1 /\ ra_AttemptNo attempt = gr_AttemptCount request + 1.
Proof using Type.
  unfold StartAttempt. destruct (_ || _); [done|]. destruct newID as [id|]; [|done]. intros H%transaction_Ok.
  apply bind_Ok in H as ([db1 updated] & H1%stmt_Ok & H). apply bind_Ok in H as (db2 & H2%stmt_Ok & H). apply bind_Ok in H as ([db3 a] & H3%stmt_Ok & [= _ -> ->]).
  apply update_request_Ok in H1 as (old & Hold & Hm & -> & _). apply insert_attempt_Ok in H2 as (-> & _). apply update_attempt_Ok in H3 as (row & Hrow & _ & -> & _).
  cbn [write_attempt x_attempts] in Hrow. rewrite lookup_insert_eq in Hrow. injection Hrow as <-. prop_hyps. simpl. split; [eauto|]. split; [congruence|done].
Qed.

Lemma completed_facts faults ids db request attempt outcome now r : exec_inv db ->
  (CompleteAttempt refs faults ids db request attempt outcome now).2 = Ok r ->
  gr_Status <$> x_requests (CompleteAttempt refs faults ids db request attempt outcome now).1 !! gr_ID request = Some (ao_RequestStatus outcome).
Proof using Type.
  intros Hinv. unfold CompleteAttempt. destruct (_ || _); [done|]. destruct (marshalUsageSummary _) as [summary|]; [|done].
  destruct (newUsageEvents _ _ _ _ _) as [events|]; [|done]. set (t := transaction _ _ _). intros H%transaction_Ok. fold t in H.
  apply bind_Ok in H as ([db1 completed] & H1 & H). apply bind_Ok in H as (db2 & H2 & H). apply bind_Ok in H as ([db3 row] & H3%stmt_Ok & H).
  apply update_request_Ok in H3 as (old & Hold & _ & -> & -> & _). injection H as <- _. cbn [write_request x_requests move_request gr_ID].
  apply complete_in_transaction in H1 as (Hc & _); [|done]. apply insert_events_Ok in H2 as (Hr & _). rewrite Hr in Hold.
  assert (gr_ID old = gr_ID request) as -> by (eapply request_keyed; [apply Hc|exact Hold]). by rewrite lookup_insert_eq.
Qed.

Lemma failed_facts faults db request status reason now r : exec_inv db -> (FailRequest faults db request status reason now).2 = Ok r ->
  gr_Status <$> x_requests (FailRequest faults db request status reason now).1 !! gr_ID request = Some status.
Proof using Type.
  intros Hinv. unfold FailRequest. destruct (_ || _); [done|]. set (t := committed _ _ _). intros H%committed_Ok. fold t in H. apply stmt_Ok in H.
  apply update_request_Ok in H as (old & Hold & _ & -> & -> & _). cbn [write_request x_requests move_request gr_ID].
  assert (gr_ID old = gr_ID request) as -> by (eapply request_keyed; [apply Hinv|exact Hold]). by rewrite lookup_insert_eq.
Qed.

Lemma recorded_keeps w w' : serves w w' -> exec_reachable refs w.1 -> exec_reachable refs w'.1.
Proof using Type.
  destruct 1; intros Hr; try exact Hr; cbn [sv_StartAttempt sv_CompleteAttempt sv_CompleteAttemptForRetry sv_FailRequest Recorded];
    match goal with |- exec_reachable _ (with_db ?w ?op ?f).1.1 => destruct (with_db_cases w op f) as (c & -> & _) end;
    (eapply rtc_r; [exact Hr|constructor]).
Qed.

#[local] Program Instance Recorded_durable : DurableRecorder (ExecDB * E) := {|
  rec_ok w := exec_reachable refs w.1;
  rec_status w id := gr_Status <$> x_requests w.1 !! id |}.
Next Obligation. exact recorded_keeps. Qed.
Next Obligation.
  intros w request deployment request' attempt Hr. cbn [sv_StartAttempt Recorded].
  match goal with |- (with_db ?w ?op ?f).2 = _ -> _ => destruct (with_db_cases w op f) as (c & _ & ->) end. intros [(old & Hold & ->) _]%started_facts.
  eapply request_keyed; [apply (exec_reachable_inv _ _ Hr)|exact Hold].
Qed.
Next Obligation.
  intros w request attempt outcome Hr. cbn [sv_CompleteAttempt Recorded].
  match goal with |- (with_db ?w ?op ?f).2 = _ -> _ => destruct (with_db_cases w op f) as (c & -> & ->) end. intros [r H]%forget_Ok.
  exact (completed_facts _ _ _ _ _ _ _ _ (exec_reachable_inv _ _ Hr) H).
Qed.
Next Obligation.
  intros w request status reason Hr. cbn [sv_FailRequest Recorded].
  match goal with |- (with_db ?w ?op ?f).2 = _ -> _ => destruct (with_db_cases w op f) as (c & -> & ->) end. intros [r H]%forget_Ok.
  exact (failed_facts _ _ _ _ _ _ _ (exec_reachable_inv _ _ Hr) H).
Qed.

(** The provider's errors carry validated details. *)
Definition provider_validates : Prop := forall e selection request f, (en_Execute e selection request).2.2 = Some f -> provider_detail_ok f.

Lemma Recorded_laws : provider_validates -> ServiceLaws (ExecDB * E).
Proof using Type.
  intros Hp. constructor.
  - intros w selection request w' r e. cbn [sv_Execute Recorded]. unfold with_env. intros [= _ H]. eapply Hp. by rewrite H.
  - intros w request deployment w' request' attempt. cbn [sv_StartAttempt Recorded].
    match goal with |- with_db ?w ?op ?f = _ -> _ => destruct (with_db_cases w op f) as (c & _ & Hc) end. intros H. rewrite H in Hc. symmetry in Hc.
    cbn [snd id] in Hc. by apply started_facts in Hc as [_ ?].
Qed.
End Recorded.

(** C2: The answer of a request and its record agree. On the PostgreSQL recorder in any
    state it can reach, with any selector, provider, estimator, clock and faults of the
    database, a valid call returns an answer; if it is a response, the request is recorded as
    succeeded; if it is a failure of routing, of the provider or of a wait, the request is
    recorded as failed or cancelled; only where recording itself failed may they differ, and
    then the client is told so. *)
Theorem answers_match_the_record {E : Type} `{!Environment E} refs fv db e deadline request recorded providerRequest requestID :
  exec_reachable refs db -> provider_validates -> ChatFailoverOptions_Validate (fv_options fv) = true ->
  accepts_call request recorded providerRequest requestID = true -> 0 <= gr_AttemptCount recorded ->
  exists db' e' answer,
    Failover_Execute (H := Recorded refs) fv (Z.to_nat (fo_MaximumAttempts (fv_options fv))) (db, e) deadline request recorded providerRequest requestID
      = ((db', e'), Some answer) /\ exec_reachable refs db' /\
    let status := gr_Status <$> x_requests db' !! gr_ID recorded in
    match answer with
    | Ok _ => status = Some RequestSucceeded
    | Err (RoutingFailed _ | AttemptFailure _ | WaitFailure _) => status = Some RequestFailed \/ status = Some RequestCancelled
    | Err (RecordingUnavailable | FailoverInvalid) => True
    end.
Proof.
  intros Hr Hp Ho Ha Hn. unfold ChatFailoverOptions_Validate in Ho. prop_hyps.
  destruct (Execute_follows (Services0 := Recorded refs) (ServiceLaws0 := Recorded_laws refs Hp) fv (Selecting (gr_AttemptCount recorded) [] None)
    (Z.to_nat (fo_MaximumAttempts (fv_options fv))) ((db, e), []) deadline request recorded providerRequest requestID)
    as ([[db' e'] log] & answer & b & Erun & _); try done; [lia|lia|].
  destruct (erase_run_log (Services0 := Recorded refs) fv (Z.to_nat (fo_MaximumAttempts (fv_options fv))) (db, e) [] deadline request recorded providerRequest requestID) as [E1 E2].
  rewrite Erun in E1, E2. cbn [fst snd] in E1, E2.
  destruct (Failover_Execute (H := Recorded refs) fv _ (db, e) deadline request recorded providerRequest requestID) as [w2 a2] eqn:Eplain. cbn [fst snd] in E1, E2. subst w2 a2.
  destruct (Execute_agrees (DurableRecorder0 := Recorded_durable refs) fv _ (db, e) _ _ _ _ _ _ _ Hr Eplain) as [Hr' Hag]. by exists db', e', answer.
Qed.

(** ** A run: the first deployment fails, the second one answers *)
Module ExecutionDemo.
#[local] Existing Instance demo_random.
Definition options : Failover := {| fv_options := DefaultChatFailoverOptions; fv_estimator := false |}.
Definition provider_request : NormalizedRequest :=
  {| req_RequestID := "req-00000001"; req_LogicalModel := "chat"; req_EndUserReference := ""; req_Messages := [demo_user_message "hello"];
     req_Stream := false; req_Temperature := None; req_TopP := None; req_MaxOutputTokens := Some 100; req_Stop := [];
     req_Tools := []; req_ToolChoice := None; req_ResponseFormat := None; req_PolicyLabels := []; req_ProviderOptions := bytes_of "{}" |}.
Definition selection_request : SelectionRequest :=
  {| sel_Access := sel_Access (demo_request []); sel_Request := provider_request; ExcludedDeploymentIDs := [] |}.

Definition overloaded : NormalizedError :=
  {| ne_Code := "OVERLOADED"; ne_Category := ErrorProvider5xx; ne_Retryable := true; ne_RetryAfter := None; ne_ProviderStatus := 503;
     ne_SafeMessage := "The provider is overloaded"; ne_ProviderRequestID := "prov-1" |}.
Definition reply : NormalizedResponse :=
  {| resp_ID := "chatcmpl-1"; resp_Model := "m"; resp_ProviderRequestID := "prov-2"; resp_ObservedAt := 5;
     resp_Choices := [{| nc_Index := 0; nc_FinishReason := FinishStop; nc_ProviderFinishReason := "stop";
       nc_Message := {| msg_Role := RoleAssistant; msg_Name := ""; msg_ToolCalls := []; msg_ToolCallID := ""; msg_Parts := msg_Parts (demo_user_message "hi") |} |}];
     resp_Usage := Some demo_usage |}.
Definition nothing : NormalizedResponse :=
  {| resp_ID := ""; resp_Model := ""; resp_Choices := []; resp_Usage := None; resp_ProviderRequestID := ""; resp_ObservedAt := 0 |}.

Definition attempt_ids : list string := ["a1111111-1111-4111-8111-111111111111"; "a2222222-2222-4222-8222-222222222222"]%string.

(** The environment counts the recorder's calls. The selector is the one of [RouteFilter]. *)
#[export] Instance demo_environment : Environment nat := {|
  en_Select e request :=
    (e, match (Select demo_url demo_readers 0 ctx_live request demo_source (Ok demo_policy)).2 with
        | Ok s => Ok s
        | Err (filter, err) => Err {| sf_Filter := filter; sf_error := err; sf_cancelled := false |}
        end);
  en_Record e input := (e, RouteDecisionInput_Validate input);
  en_RecordRetry e input := (e, RetryInput_Validate input);
  en_Execute e selection request :=
    (e, if bool_decide (dep_ID (cand_Deployment (sel_Candidate selection)) = demo_d1) then (nothing, Some (Provider overloaded)) else (reply, None));
  en_EstimateUsage e _ _ _ := (e, None);
  en_now e := (e, 20);
  en_wait e _ := (e, None);
  en_context _ := None;
  en_parent _ := None;
  en_recorder e := (S e, {| rc_faults := no_faults; rc_newID := attempt_ids !! (e / 2)%nat; rc_ids := demo_ids; rc_now := 20 + Z.of_nat e |}) |}.

Definition answer := Failover_Execute (H := Recorded Demo.refs) options 3 (Demo.db2, 0%nat) (20 + 30 * second) selection_request Demo.request2 provider_request "req-1".
End ExecutionDemo.

#[local] Existing Instance ExecutionDemo.demo_environment.

Lemma demo_provider_validates : @provider_validates nat ExecutionDemo.demo_environment.
Proof. intros e selection request f. simpl. case_bool_decide; [|done]. intros [= <-] d [= <-]. reflexivity. Qed.

Lemma demo_reach2 : exec_reachable Demo.refs Demo.db2.
Proof.
  eapply rtc_l; [apply (step_start Demo.refs no_faults exec_start Demo.start 10)|].
  eapply rtc_l; [apply (step_routing Demo.refs no_faults Demo.db1 Demo.request1 11)|apply rtc_refl].
Qed.

Lemma answers_match_the_record_witness : exists db' e' response,
  ExecutionDemo.answer = ((db', e'), Some (Ok response)) /\ exec_reachable Demo.refs db' /\
  gr_Status <$> x_requests db' !! gr_ID Demo.request2 = Some RequestSucceeded.
Proof.
  destruct (answers_match_the_record Demo.refs ExecutionDemo.options Demo.db2 0%nat (20 + 30 * second) ExecutionDemo.selection_request Demo.request2
    ExecutionDemo.provider_request "req-1" demo_reach2 demo_provider_validates eq_refl ltac:(vm_compute; reflexivity) ltac:(vm_compute; congruence))
    as (db' & e' & answer & Hrun & Hreach & Hstatus).
  change (ExecutionDemo.answer = ((db', e'), Some answer)) in Hrun.
  assert (exists response, answer = Ok response) as [response ->].
  { assert (exists response, snd ExecutionDemo.answer = Some (Ok response)) as [response H] by (vm_compute; eexists; reflexivity).
    rewrite Hrun in H. cbn [snd] in H. injection H as H. exists response. exact H. }
  exists db', e', response. split; [exact Hrun|]. split; [exact Hreach|exact Hstatus].
Defined.

Lemma failover_follows_protocol_witness : exists w' log answer,
  Failover_Execute (H := Recorded Demo.refs) ExecutionDemo.options 3 (Demo.db2, 0%nat) (20 + 30 * second) ExecutionDemo.selection_request
    Demo.request2 ExecutionDemo.provider_request "req-1" = (w', Some answer) /\
  follow 3 (Selecting 0 [] None) log = Closed (is_ok answer).
Proof.
  destruct (failover_follows_protocol (Services0 := Recorded Demo.refs) (ServiceLaws0 := Recorded_laws Demo.refs demo_provider_validates)
    ExecutionDemo.options (Demo.db2, 0%nat) (20 + 30 * second) ExecutionDemo.selection_request Demo.request2
    ExecutionDemo.provider_request "req-1" eq_refl ltac:(vm_compute; reflexivity) ltac:(vm_compute; congruence)) as (w' & log & answer & b & H1 & H2 & H3 & H4).
  exists w', log, answer. split; [exact H1|]. assert (is_ok answer = b) as Hb by (destruct b, (is_ok answer); try reflexivity; [exact (proj1 H4 eq_refl)|symmetry; exact (proj2 H4 eq_refl)]).
  rewrite Hb. exact H3.
Defined.

Lemma public_errors_are_well_formed_witness : exists d, executionPublicError (Provider ExecutionDemo.overloaded) = Some d /\ 400 <= ed_Status d <= 599.
Proof.
  destruct (public_errors_are_well_formed (Provider ExecutionDemo.overloaded)) as (d & E & _ & Hs & _); [by intros d [= <-]|by intros d after [= <-]|].
  exists d. split; [exact E|exact Hs].
Defined.

Lemma projection_is_faithful_witness : exists r, projectChatCompletion ExecutionDemo.reply "chat" "req-1" 1 = Some r /\ ccr_Model r = "chat"%string.
Proof.
  pose proof (projection_is_faithful ExecutionDemo.reply "chat" "req-1" 1 ltac:(vm_compute; reflexivity) ltac:(discriminate) ltac:(discriminate) ltac:(lia)) as H.
  destruct (projectChatCompletion ExecutionDemo.reply "chat" "req-1" 1) as [r|] eqn:E; [|vm_compute in E; discriminate].
  exists r. split; [reflexivity|]. exact (proj1 (proj2 H)).
Defined.
