(* ===== verification/ActiveHealth.v ===== *)
(** * Active health (src/internal/activehealth, catalog/health_probe.go)

    The tracker keeps hysteresis state per deployment and answers the router; the scheduler
    keeps the targets of the catalog with the time their next probe is due and dispatches
    bounded batches; the prober turns one request to a provider into a finite result. The
    clock readings, the catalog's answer, the gate, the adapter and the provider are
    arguments of the operations that consult them.

    Then: active health: hysteresis, bounds and fair dispatch. *)
From Stdlib Require Import ZArith Lia Bool Ascii String SpecFloat Sorting.Sorted.
From stdpp Require Import base tactics option list strings gmap fin_maps sets.
From S2P Require Import Prelude Identifiers Unicode Circuit Catalog RoutePolicy Adapter PassiveHealth RouteFilter.
(** ** Data *)
Inductive active_error := ErrActiveInvalid | ErrAlreadyRunning | ErrDuplicateTarget | ErrTargetSource | ErrActiveContext (cause : ctx_error).

Inductive HealthState := StateUnknown | StateHealthy | StateUnhealthy | StateStale.
Inductive ResultCode :=
| ResultSucceeded | ResultTimedOut | ResultCancelled | ResultAdapterUnavailable | ResultTransportFailure | ResultProviderFailure
| ResultProtocolFailure | ResultOther (value : string).

#[export] Instance HealthState_eq_dec : EqDecision HealthState.
Proof. solve_decision. Defined.
#[export] Instance ResultCode_eq_dec : EqDecision ResultCode.
Proof. solve_decision. Defined.

Record ActiveOptions := {
  ProbeInterval : Duration; RefreshInterval : Duration; DispatchInterval : Duration; ProbeTimeout : Duration; StateTTL : Duration;
  FailureThreshold : Z; RecoveryThreshold : Z; MaximumTargets : Z; MaximumConcurrency : Z; MaximumBatchSize : Z; JitterPercent : Z }.

Definition DefaultActiveOptions : ActiveOptions :=
  {| ProbeInterval := 5 * minute; RefreshInterval := 30 * second; DispatchInterval := second; ProbeTimeout := 5 * second;
     StateTTL := 20 * minute; FailureThreshold := 3; RecoveryThreshold := 2; MaximumTargets := 10000; MaximumConcurrency := 4;
     MaximumBatchSize := 16; JitterPercent := 20 |}.

Definition ActiveOptions_Validate (o : ActiveOptions) : bool :=
  (30 * second <=? ProbeInterval o) && (ProbeInterval o <=? hour) &&
  (second <=? RefreshInterval o) && (RefreshInterval o <=? ProbeInterval o) &&
  (100 * millisecond <=? DispatchInterval o) && (DispatchInterval o <=? RefreshInterval o) &&
  (100 * millisecond <=? ProbeTimeout o) && (ProbeTimeout o <=? 30 * second) && (ProbeTimeout o <? ProbeInterval o) &&
  (2 * ProbeInterval o <=? StateTTL o) && (StateTTL o <=? 24 * hour) &&
  (2 <=? FailureThreshold o) && (FailureThreshold o <=? 100) && (1 <=? RecoveryThreshold o) && (RecoveryThreshold o <=? 100) &&
  (1 <=? MaximumTargets o) && (MaximumTargets o <=? 100000) && (1 <=? MaximumConcurrency o) && (MaximumConcurrency o <=? 256) &&
  (MaximumConcurrency o <=? MaximumBatchSize o) && (MaximumBatchSize o <=? 4096) && (JitterPercent o <=? 50).

(** [^[0-9a-f]{8}-[0-9a-f]{4}-[1-5][0-9a-f]{3}-[89ab][0-9a-f]{3}-[0-9a-f]{12}$] *)
Definition activeDeploymentIDPattern : string -> bool :=
  match_classes
    (replicate 8 hex ++ [dash] ++ replicate 4 hex ++ [dash] ++ [between "1" "5"] ++ replicate 3 hex ++
     [dash] ++ [one_of "89ab"] ++ replicate 3 hex ++ [dash] ++ replicate 12 hex).

Record ActiveObservation := { obv_DeploymentID : string; obv_Code : ResultCode; obv_Latency : Duration }.

Definition ActiveObservation_Validate (o : ActiveObservation) : bool :=
  activeDeploymentIDPattern (obv_DeploymentID o) && match obv_Code o with ResultOther _ => false | _ => true end &&
  (0 <=? obv_Latency o) && (obv_Latency o <=? minute).

(** ** The tracker *)
Record targetState := {
  ts_state : HealthState; lastResult : option ResultCode; lastObservedAt : Time; lastSuccessAt : Time; lastFailureAt : Time;
  lastLatency : Duration; totalProbes : Z; probeSuccesses : Z; probeFailures : Z; consecutiveFailures : Z; consecutiveSuccesses : Z }.

Record Tracker := { tr_options : ActiveOptions; tr_targets : gmap string targetState; tr_evictions : Z }.

Definition NewTracker (o : ActiveOptions) (clock : bool) : result Tracker active_error :=
  ensure (ActiveOptions_Validate o) else ErrActiveInvalid in
  ensure clock else ErrActiveInvalid in
  Ok {| tr_options := o; tr_targets := ∅; tr_evictions := 0 |}.

Definition saturatingIncrement32 (value : Z) : Z := if value =? u32_max then value else value + 1.

Definition older_target (a b : string * targetState) : bool :=
  time_before (lastObservedAt a.2) (lastObservedAt b.2) || ((lastObservedAt a.2 =? lastObservedAt b.2) && String.ltb a.1 b.1).
Definition oldest_target (entries : list (string * targetState)) : option (string * targetState) :=
  foldl (fun best c => match best with None => Some c | Some b => if older_target c b then Some c else Some b end) None entries.

Definition evictOldestTarget (t : Tracker) : Tracker :=
  match oldest_target (map_to_list (tr_targets t)) with
  | Some (id, _) => {| tr_options := tr_options t; tr_targets := delete id (tr_targets t); tr_evictions := saturatingIncrement (tr_evictions t) |}
  | None => t
  end.

Definition new_target : targetState :=
  {| ts_state := StateUnknown; lastResult := None; lastObservedAt := 0; lastSuccessAt := 0; lastFailureAt := 0; lastLatency := 0;
     totalProbes := 0; probeSuccesses := 0; probeFailures := 0; consecutiveFailures := 0; consecutiveSuccesses := 0 |}.

Definition apply_success (o : ActiveOptions) (s : targetState) (code : ResultCode) (latency : Duration) (now : Time) : targetState :=
  let successes := saturatingIncrement32 (consecutiveSuccesses s) in
  {| ts_state := if negb (bool_decide (ts_state s = StateUnhealthy)) || (RecoveryThreshold o <=? successes) then StateHealthy else ts_state s;
     lastResult := Some code; lastObservedAt := now; lastSuccessAt := now; lastFailureAt := lastFailureAt s; lastLatency := latency;
     totalProbes := saturatingIncrement (totalProbes s); probeSuccesses := saturatingIncrement (probeSuccesses s);
     probeFailures := probeFailures s; consecutiveFailures := 0; consecutiveSuccesses := successes |}.

Definition apply_failure (o : ActiveOptions) (s : targetState) (code : ResultCode) (latency : Duration) (now : Time) : targetState :=
  let failures := saturatingIncrement32 (consecutiveFailures s) in
  {| ts_state := if FailureThreshold o <=? failures then StateUnhealthy
                 else if bool_decide (ts_state s = StateUnknown) then StateHealthy else ts_state s;
     lastResult := Some code; lastObservedAt := now; lastSuccessAt := lastSuccessAt s; lastFailureAt := now; lastLatency := latency;
     totalProbes := saturatingIncrement (totalProbes s); probeSuccesses := probeSuccesses s;
     probeFailures := saturatingIncrement (probeFailures s); consecutiveFailures := failures; consecutiveSuccesses := 0 |}.

Definition apply_observation (o : ActiveOptions) (s : targetState) (obv : ActiveObservation) (now : Time) : targetState :=
  if bool_decide (obv_Code obv = ResultSucceeded) then apply_success o s (obv_Code obv) (obv_Latency obv) now
  else apply_failure o s (obv_Code obv) (obv_Latency obv) now.

Definition Tracker_Observe (t : Tracker) (ctx : Context) (obv : ActiveObservation) (now : Time) : Tracker * option active_error :=
  match ctx with
  | ctx_nil => (t, Some ErrActiveInvalid)
  | ctx_done cause => (t, Some (ErrActiveContext cause))
  | ctx_live =>
      if negb (ActiveObservation_Validate obv) || time_is_zero now then (t, Some ErrActiveInvalid)
      else
        let '(t1, s) :=
          match tr_targets t !! obv_DeploymentID obv with
          | Some s => (t, s)
          | None => (if MaximumTargets (tr_options t) <=? Z.of_nat (size (tr_targets t)) then evictOldestTarget t else t, new_target)
          end in
        ({| tr_options := tr_options t1; tr_targets := <[obv_DeploymentID obv := apply_observation (tr_options t1) s obv now]> (tr_targets t1);
            tr_evictions := tr_evictions t1 |}, None)
  end.

Record ActiveSnapshot := {
  sn_DeploymentID : string; sn_State : HealthState; sn_Healthy : bool; sn_Stale : bool; sn_LastResult : option ResultCode;
  sn_LastObservedAt : Time; sn_LastSuccessAt : Time; sn_LastFailureAt : Time; sn_LastLatency : Duration; sn_TotalProbes : Z;
  sn_TotalSuccesses : Z; sn_TotalFailures : Z; sn_ConsecutiveFailures : Z; sn_ConsecutiveSuccesses : Z; sn_EvictedTargets : Z }.

Definition unseen_snapshot (id : string) (evictions : Z) : ActiveSnapshot :=
  {| sn_DeploymentID := id; sn_State := StateUnknown; sn_Healthy := true; sn_Stale := false; sn_LastResult := None; sn_LastObservedAt := 0;
     sn_LastSuccessAt := 0; sn_LastFailureAt := 0; sn_LastLatency := 0; sn_TotalProbes := 0; sn_TotalSuccesses := 0; sn_TotalFailures := 0;
     sn_ConsecutiveFailures := 0; sn_ConsecutiveSuccesses := 0; sn_EvictedTargets := evictions |}.

Definition target_snapshot (id : string) (s : targetState) (stale : bool) (evictions : Z) : ActiveSnapshot :=
  {| sn_DeploymentID := id; sn_State := if stale then StateStale else ts_state s;
     sn_Healthy := stale || negb (bool_decide (ts_state s = StateUnhealthy)); sn_Stale := stale; sn_LastResult := lastResult s;
     sn_LastObservedAt := lastObservedAt s; sn_LastSuccessAt := lastSuccessAt s; sn_LastFailureAt := lastFailureAt s;
     sn_LastLatency := lastLatency s; sn_TotalProbes := totalProbes s; sn_TotalSuccesses := probeSuccesses s;
     sn_TotalFailures := probeFailures s; sn_ConsecutiveFailures := consecutiveFailures s;
     sn_ConsecutiveSuccesses := consecutiveSuccesses s; sn_EvictedTargets := evictions |}.

Definition Tracker_Snapshot (t : Tracker) (ctx : Context) (id : string) (now : Time) : result ActiveSnapshot active_error :=
  match ctx with
  | ctx_nil => Err ErrActiveInvalid
  | ctx_done cause => Err (ErrActiveContext cause)
  | ctx_live =>
      ensure (activeDeploymentIDPattern id) else ErrActiveInvalid in
      ensure (negb (time_is_zero now)) else ErrActiveInvalid in
      match tr_targets t !! id with
      | None => Ok (unseen_snapshot id (tr_evictions t))
      | Some s => Ok (target_snapshot id s (StateTTL (tr_options t) <? time_sub now (lastObservedAt s)) (tr_evictions t))
      end
  end.

Definition Tracker_Healthy (t : Tracker) (ctx : Context) (id : string) (now : Time) : result bool active_error :=
  let? s := Tracker_Snapshot t ctx id now in Ok (sn_Healthy s).

(** ** Targets (catalog/health_probe.go) *)
Record HealthProbeTarget := { hp_Provider : Provider; hp_Deployment : Deployment }.

Section Targets.
Context (url_Parse : string -> option URL).

Definition HealthProbeTarget_Validate (t : HealthProbeTarget) : bool :=
  Provider_Validate (hp_Provider t) && Deployment_Validate url_Parse (hp_Deployment t) &&
  bool_decide (aud_Status (prov_Audit (hp_Provider t)) = StatusActive) &&
  bool_decide (aud_Status (dep_Audit (hp_Deployment t)) = StatusActive) &&
  bool_decide (dep_ProviderID (hp_Deployment t) = prov_ID (hp_Provider t)) && has_Chat (dep_Capabilities (hp_Deployment t)).

(** ** The scheduler *)
Record scheduledTarget := { sc_target : HealthProbeTarget; nextDue : Time }.
Definition target_id (s : scheduledTarget) : string := dep_ID (hp_Deployment (sc_target s)).

(** The atomic counters wrap around. *)
Record SchedulerCounters := {
  c_refreshes : Z; c_refreshFailures : Z; c_probes : Z; c_probeSuccesses : Z; c_probeFailures : Z; c_suppressed : Z; c_gateFailures : Z;
  c_observationFailures : Z }.
Record Scheduler := { sd_options : ActiveOptions; sd_targets : gmap string scheduledTarget; sd_running : bool; sd_counters : SchedulerCounters }.

Definition zero_counters : SchedulerCounters :=
  {| c_refreshes := 0; c_refreshFailures := 0; c_probes := 0; c_probeSuccesses := 0; c_probeFailures := 0; c_suppressed := 0;
     c_gateFailures := 0; c_observationFailures := 0 |}.

(** [dependencies]: none of the source, the prober, the observer, the gate and the clock is nil. *)
Definition NewScheduler (o : ActiveOptions) (dependencies : bool) : result Scheduler active_error :=
  ensure (ActiveOptions_Validate o) else ErrActiveInvalid in
  ensure dependencies else ErrActiveInvalid in
  Ok {| sd_options := o; sd_targets := ∅; sd_running := false; sd_counters := zero_counters |}.

Inductive counter := Refreshes | RefreshFailures | Probes | ProbeSuccesses | ProbeFailures | Suppressed | GateFailures | ObservationFailures.
Definition bump_when (b : bool) (z : Z) : Z := if b then u64_add z 1 else z.
Definition count_one (which : counter) (c : SchedulerCounters) : SchedulerCounters :=
  {| c_refreshes := bump_when match which with Refreshes => true | _ => false end (c_refreshes c);
     c_refreshFailures := bump_when match which with RefreshFailures => true | _ => false end (c_refreshFailures c);
     c_probes := bump_when match which with Probes => true | _ => false end (c_probes c);
     c_probeSuccesses := bump_when match which with ProbeSuccesses => true | _ => false end (c_probeSuccesses c);
     c_probeFailures := bump_when match which with ProbeFailures => true | _ => false end (c_probeFailures c);
     c_suppressed := bump_when match which with Suppressed => true | _ => false end (c_suppressed c);
     c_gateFailures := bump_when match which with GateFailures => true | _ => false end (c_gateFailures c);
     c_observationFailures := bump_when match which with ObservationFailures => true | _ => false end (c_observationFailures c) |}.

Definition counted (which : counter) (s : Scheduler) : Scheduler :=
  {| sd_options := sd_options s; sd_targets := sd_targets s; sd_running := sd_running s; sd_counters := count_one which (sd_counters s) |}.
Definition with_targets (s : Scheduler) (targets : gmap string scheduledTarget) : Scheduler :=
  {| sd_options := sd_options s; sd_targets := targets; sd_running := sd_running s; sd_counters := sd_counters s |}.

(** FNV-1a of 64 bits (hash/fnv). *)
Definition stableHash (value : string) : Z :=
  foldl (fun h b => u64 (Z.lxor h b * 1099511628211)) 14695981039346656037 (bytes_of value).

Definition startupSpread (id : string) (interval : Duration) : Duration :=
  if interval <=? 0 then 0 else stableHash id mod interval.

(** [time.Duration(f)]: the integer part of a finite number. *)
Definition float_trunc (f : float64) : Z :=
  match f with
  | S754_finite s m e => let n := if 0 <=? e then Z.pos m * 2 ^ e else Z.pos m / 2 ^ (- e) in if s then - n else n
  | _ => 0
  end.
Definition float_add (a b : float64) : float64 := SFadd 53 1024 a b.
Definition float_sub (a b : float64) : float64 := SFsub 53 1024 a b.

Definition cadence (id : string) (interval : Duration) (jitterPercent : Z) : Duration :=
  if jitterPercent =? 0 then interval
  else
    let unit := float_div (to_float (stableHash (id ++ "/cadence"))) (to_float u64_max) in
    let factor := float_add (float_sub (to_float 1) (float_div (to_float jitterPercent) (to_float 100)))
                            (float_mul unit (float_div (float_mul (to_float 2) (to_float jitterPercent)) (to_float 100))) in
    float_trunc (float_mul (to_float interval) factor).

Definition sameTargetVersion (left right : HealthProbeTarget) : bool :=
  bool_decide (prov_ID (hp_Provider left) = prov_ID (hp_Provider right)) &&
  (aud_Version (prov_Audit (hp_Provider left)) =? aud_Version (prov_Audit (hp_Provider right))) &&
  bool_decide (dep_ID (hp_Deployment left) = dep_ID (hp_Deployment right)) &&
  (aud_Version (dep_Audit (hp_Deployment left)) =? aud_Version (dep_Audit (hp_Deployment right))).

(** [sort.Slice]. Insertion keeps the order of equal elements; the orders below leave none
    that matter. *)
Fixpoint insert_before {A : Type} (less : A -> A -> bool) (x : A) (l : list A) : list A :=
  match l with
  | [] => [x]
  | y :: l' => if less y x then y :: insert_before less x l' else x :: y :: l'
  end.
Definition sort_slice {A : Type} (less : A -> A -> bool) (l : list A) : list A := foldr (insert_before less) [] l.

Definition id_less (left right : HealthProbeTarget) : bool := String.ltb (dep_ID (hp_Deployment left)) (dep_ID (hp_Deployment right)).

(** The check of the sorted targets: the error of the first fault. *)
Fixpoint check_targets (previous : option string) (targets : list HealthProbeTarget) : option active_error :=
  match targets with
  | [] => None
  | t :: rest =>
      if negb (HealthProbeTarget_Validate t) then Some ErrActiveInvalid
      else if bool_decide (previous = Some (dep_ID (hp_Deployment t))) then Some ErrDuplicateTarget
      else check_targets (Some (dep_ID (hp_Deployment t))) rest
  end.

Definition replacement_entry (s : Scheduler) (now : Time) (t : HealthProbeTarget) : scheduledTarget :=
  let id := dep_ID (hp_Deployment t) in
  match sd_targets s !! id with
  | Some existing =>
      if sameTargetVersion (sc_target existing) t then {| sc_target := t; nextDue := nextDue existing |}
      else {| sc_target := t; nextDue := time_add now (startupSpread id (ProbeInterval (sd_options s))) |}
  | None => {| sc_target := t; nextDue := time_add now (startupSpread id (ProbeInterval (sd_options s))) |}
  end.

Definition replaced_targets (s : Scheduler) (now : Time) (targets : list HealthProbeTarget) : gmap string scheduledTarget :=
  foldl (fun m t => <[dep_ID (hp_Deployment t) := replacement_entry s now t]> m) ∅ targets.

(** [source] is the catalog's answer. *)
Definition Refresh (s : Scheduler) (ctx : Context) (source : option (list HealthProbeTarget)) (now : Time) : Scheduler * option active_error :=
  match ctx with
  | ctx_nil => (s, Some ErrActiveInvalid)
  | ctx_done cause => (s, Some (ErrActiveContext cause))
  | ctx_live =>
      match source with
      | None => (counted RefreshFailures s, Some ErrTargetSource)
      | Some targets =>
          if MaximumTargets (sd_options s) <? Z.of_nat (length targets) then (counted RefreshFailures s, Some ErrActiveInvalid)
          else
            let targets := sort_slice id_less targets in
            match check_targets None targets with
            | Some e => (counted RefreshFailures s, Some e)
            | None =>
                if time_is_zero now then (counted RefreshFailures s, Some ErrActiveInvalid)
                else (counted Refreshes (with_targets s (replaced_targets s now targets)), None)
            end
      end
  end.

Definition due_less (left right : scheduledTarget) : bool :=
  if negb (nextDue left =? nextDue right) then time_before (nextDue left) (nextDue right) else String.ltb (target_id left) (target_id right).

(** The batch that is due, and the schedule after it was taken, under the lock. *)
Definition due_batch (s : Scheduler) (now : Time) : list scheduledTarget :=
  take (Z.to_nat (MaximumBatchSize (sd_options s)))
    (sort_slice due_less (filter (fun t => time_after (nextDue t) now = false) (map_to_list (sd_targets s)).*2)).

Definition reschedule (s : Scheduler) (now : Time) (item : scheduledTarget) (targets : gmap string scheduledTarget) : gmap string scheduledTarget :=
  match targets !! target_id item with
  | Some current =>
      <[target_id item := {| sc_target := sc_target current;
          nextDue := time_add now (cadence (target_id item) (ProbeInterval (sd_options s)) (JitterPercent (sd_options s))) |}]> targets
  | None => targets
  end.

Definition take_due (s : Scheduler) (now : Time) : Scheduler * list scheduledTarget :=
  let due := due_batch s now in
  (with_targets s (foldl (fun targets item => reschedule s now item targets) (sd_targets s) due), due).

(** One job of a worker: what the gate, the prober and the observer answered, and whether
    the context had ended when the probe returned. *)
Record ProbeResult := { pr_Code : ResultCode; pr_Latency : Duration }.
Record JobAnswers := { ja_gate : option bool; ja_probe : ProbeResult; ja_cancelled : bool; ja_observed : bool }.

Definition job_observation (item : scheduledTarget) (a : JobAnswers) : option ActiveObservation :=
  match ja_gate a with
  | Some true =>
      if ja_cancelled a && bool_decide (pr_Code (ja_probe a) = ResultCancelled) then None
      else Some {| obv_DeploymentID := target_id item; obv_Code := pr_Code (ja_probe a); obv_Latency := pr_Latency (ja_probe a) |}
  | _ => None
  end.

Definition run_job (item : scheduledTarget) (a : JobAnswers) (c : SchedulerCounters) : SchedulerCounters :=
  match ja_gate a with
  | None => count_one GateFailures c
  | Some false => count_one Suppressed c
  | Some true =>
      if ja_cancelled a && bool_decide (pr_Code (ja_probe a) = ResultCancelled) then c
      else
        let c := count_one (if bool_decide (pr_Code (ja_probe a) = ResultSucceeded) then ProbeSuccesses else ProbeFailures) (count_one Probes c) in
        if ja_observed a then c else count_one ObservationFailures c
  end.

(** [jobs] are the items the workers took before the context ended, in the order in which
    they finished, with their answers. *)
Definition Dispatch (s : Scheduler) (ctx : Context) (now : Time) (jobs : list (scheduledTarget * JobAnswers)) (ended : option ctx_error)
    : Scheduler * option active_error :=
  match ctx with
  | ctx_nil => (s, Some ErrActiveInvalid)
  | ctx_done cause => (s, Some (ErrActiveContext cause))
  | ctx_live =>
      if time_is_zero now then (s, Some ErrActiveInvalid)
      else
        let '(s1, due) := take_due s now in
        if Nat.eqb (length due) 0 then (s1, None)
        else
          ({| sd_options := sd_options s1; sd_targets := sd_targets s1; sd_running := sd_running s1;
              sd_counters := foldl (fun c job => run_job job.1 job.2 c) (sd_counters s1) jobs |},
           ErrActiveContext <$> ended)
  end.

(** The jobs that a batch can give: all of it, or a part of it when the context ended. *)
Definition jobs_of (due : list scheduledTarget) (jobs : list (scheduledTarget * JobAnswers)) (ended : option ctx_error) : Prop :=
  exists rest, jobs.*1 ++ rest ≡ₚ due /\ (ended = None -> rest = []).

(** Run: one loop at a time. A tick refreshes or dispatches. *)
Inductive tick :=
| RefreshTick (ctx : Context) (source : option (list HealthProbeTarget)) (now : Time)
| DispatchTick (ctx : Context) (now : Time) (jobs : list (scheduledTarget * JobAnswers)) (ended : option ctx_error).

Definition run_tick (s : Scheduler) (t : tick) : Scheduler :=
  match t with
  | RefreshTick ctx source now => (Refresh s ctx source now).1
  | DispatchTick ctx now jobs ended => (Dispatch s ctx now jobs ended).1
  end.

Definition set_running (s : Scheduler) (running : bool) : Scheduler :=
  {| sd_options := sd_options s; sd_targets := sd_targets s; sd_running := running; sd_counters := sd_counters s |}.

Definition Scheduler_Run (s : Scheduler) (ctx : Context) (ticks : list tick) : Scheduler * option active_error :=
  match ctx with
  | ctx_nil => (s, Some ErrActiveInvalid)
  | _ =>
      if sd_running s then (s, Some ErrAlreadyRunning)
      else match ctx with
           | ctx_live => (set_running (foldl run_tick (set_running s true) ticks) false, None)
           | _ => (set_running (set_running s true) false, None)
           end
  end.

(** ** The prober *)
Inductive built_adapter := BuildFailed | BuildRequestFailed | Sent (response : option sent_response)
with sent_response := NoBody | Parsed (status : Z) (normalized : option NormalizedResponse).

Definition classifyContext (e : ctx_error) : ResultCode := match e with DeadlineExceeded => ResultTimedOut | Canceled => ResultCancelled end.

(** [after] is the state of the context after the step that failed; [started] and [ended] are
    the two readings of the clock. *)
Definition Probe (ctx : Context) (target : HealthProbeTarget) (built : built_adapter) (after : option ctx_error) (started ended : Time) : ProbeResult :=
  let finish (code : ResultCode) :=
    {| pr_Code := code; pr_Latency := if time_is_zero started then 0 else Z.min minute (Z.max 0 (time_sub ended started)) |} in
  let failed (code : ResultCode) := finish match after with Some e => classifyContext e | None => code end in
  match ctx with
  | ctx_nil => finish ResultAdapterUnavailable
  | ctx_done e => finish (classifyContext e)
  | ctx_live =>
      if negb (HealthProbeTarget_Validate target) then finish ResultAdapterUnavailable
      else match built with
      | BuildFailed | BuildRequestFailed => failed ResultAdapterUnavailable
      | Sent None => failed ResultTransportFailure
      | Sent (Some NoBody) => finish ResultTransportFailure
      | Sent (Some (Parsed status None)) => failed (if (status <? 200) || (300 <=? status) then ResultProviderFailure else ResultProtocolFailure)
      | Sent (Some (Parsed _ (Some normalized))) =>
          if negb (NormalizedResponse_Validate normalized) || negb (bool_decide (resp_Model normalized = dep_PhysicalModel (hp_Deployment target)))
          then finish ResultProtocolFailure else finish ResultSucceeded
      end
  end.
End Targets.

(** ** Active health: hysteresis, bounds and fair dispatch

    The tracker's answer is a function of the recent results of a target: [latched] says when
    failures have made it unhealthy and successes not yet recovered it. The scheduler probes
    every due target within a number of dispatches that its place in the queue gives. *)
(** ** Runs of equal results, newest first *)
Fixpoint run_of (b : bool) (l : list bool) : nat :=
  match l with [] => 0 | x :: l' => if Bool.eqb x b then S (run_of b l') else 0 end.

Lemma run_of_prefix b n l : (n <= run_of b l)%nat <-> replicate n b `prefix_of` l.
Proof.
  revert l. induction n as [|n IH]; intros l; [split; [intros; apply prefix_nil|lia]|]. destruct l as [|x l]; simpl.
  - split; [lia|]. by intros [? ?].
  - destruct (Bool.eqb_spec x b) as [->|Hne].
    + rewrite <- Nat.succ_le_mono, IH. split; [apply prefix_cons|apply prefix_cons_inv_2].
    + split; [lia|]. intros H%prefix_cons_inv_1. done.
Qed.

(** A run of [failures] failures, after which there never were [recoveries] successes in a row. *)
Definition latched (failures recoveries : nat) (results : list bool) : Prop :=
  exists recent old, results = recent ++ old /\ replicate failures false `prefix_of` old /\
    forall l1 l2, recent <> l1 ++ replicate recoveries true ++ l2.

Lemma latched_cons failures recoveries b results : (1 <= failures)%nat -> (1 <= recoveries)%nat ->
  latched failures recoveries (b :: results) <->
  if b then latched failures recoveries results /\ (run_of true (true :: results) < recoveries)%nat
  else (failures <= run_of false (false :: results))%nat \/ latched failures recoveries results.
Proof.
  intros Hf Hr. split.
  - intros (recent & old & E & Hp & Hno). destruct recent as [|x recent].
    + simpl in E. subst old. destruct b; [|left; by apply run_of_prefix].
      destruct failures as [|n]; [lia|]. simpl in Hp. by apply prefix_cons_inv_1 in Hp.
    + injection E as <- ->.
      assert (latched failures recoveries (recent ++ old)) as Hl.
      { exists recent, old. split_and!; [done|done|]. intros l1 l2 ->. by apply (Hno (b :: l1) l2). }
      destruct b; [split; [done|]|by right]. apply Nat.nle_gt. intros [k Hk]%run_of_prefix.
      destruct failures as [|n]; [lia|]. destruct Hp as [rest ->]. simpl in Hk.
      (* the run of successes lies before the failure *)
      assert (exists l2, true :: recent = replicate recoveries true ++ l2) as [l2 E]; [|by apply (Hno [] l2)].
      change (true :: recent ++ false :: replicate n false ++ rest) with ((true :: recent) ++ false :: replicate n false ++ rest) in Hk.
      clear -Hk. revert Hk. generalize (true :: recent) as l. induction recoveries as [|m IH]; intros l Hk; [by exists l|].
      destruct l as [|y l]; [done|]. simpl in Hk. injection Hk as -> Hk. destruct (IH l Hk) as [l2 ->]. by exists l2.
  - destruct b.
    + intros [(recent & old & -> & Hp & Hno) Hrun]. exists (true :: recent), old. split_and!; [done|done|]. intros l1 l2 E.
      destruct l1 as [|x l1]; simpl in E.
      * apply Nat.nle_gt in Hrun. apply Hrun, run_of_prefix. change (true :: recent ++ old) with ((true :: recent) ++ old). rewrite E, <- app_assoc. by apply prefix_app_r.
      * injection E as _ E. by apply (Hno l1 l2).
    + intros [Hrun|(recent & old & -> & Hp & Hno)].
      * apply run_of_prefix in Hrun. exists [], (false :: results). split_and!; [done|done|]. intros l1 l2 E. destruct recoveries; [lia|]. by destruct l1.
      * exists (false :: recent), old. split_and!; [done|done|]. intros l1 l2 E. destruct l1 as [|x l1]; simpl in E.
        -- destruct recoveries; [lia|]. done.
        -- injection E as _ E. by apply (Hno l1 l2).
Qed.

Lemma latched_nil failures recoveries : (1 <= failures)%nat -> ~ latched failures recoveries [].
Proof. intros Hf (recent & old & E & Hp & _). destruct recent; [|done]. simpl in E. subst old. destruct failures; [lia|]. destruct Hp as [? ?]. done. Qed.

(** ** What a target's state says of its results *)
Abbreviation history := (list (Time * bool)).

Record reflects (o : ActiveOptions) (s : targetState) (h : history) : Prop := {
  rf_failures : consecutiveFailures s = Z.min u32_max (Z.of_nat (run_of false h.*2));
  rf_successes : consecutiveSuccesses s = Z.min u32_max (Z.of_nat (run_of true h.*2));
  rf_state : ts_state s = StateUnhealthy <-> latched (Z.to_nat (FailureThreshold o)) (Z.to_nat (RecoveryThreshold o)) h.*2;
  rf_time : lastObservedAt s = default 0 (fst <$> head h) }.

Lemma saturated_run z n : z = Z.min u32_max (Z.of_nat n) -> saturatingIncrement32 z = Z.min u32_max (Z.of_nat (S n)).
Proof. intros ->. unfold saturatingIncrement32. destruct (Z.eqb_spec (Z.min u32_max (Z.of_nat n)) u32_max) as [E|E]; lia. Qed.

Lemma reflects_new o : (1 <= Z.to_nat (FailureThreshold o))%nat -> reflects o new_target [].
Proof. intros Hf. split; [done|done| |done]. split; [done|]. intros H. by apply latched_nil in H. Qed.

Lemma reflects_step o s h obv now : ActiveOptions_Validate o = true -> reflects o s h ->
  reflects o (apply_observation o s obv now) ((now, bool_decide (obv_Code obv = ResultSucceeded)) :: h).
Proof.
  intros Ho [Hf Hs Hst Ht]. unfold ActiveOptions_Validate in Ho. prop_hyps. unfold apply_observation.
  pose proof (saturated_run _ _ Hf) as Hf'. pose proof (saturated_run _ _ Hs) as Hs'.
  assert (1 <= Z.to_nat (FailureThreshold o))%nat by lia. assert (1 <= Z.to_nat (RecoveryThreshold o))%nat by lia.
  case_bool_decide as Hc; split; cbn [apply_success apply_failure consecutiveFailures consecutiveSuccesses ts_state lastObservedAt list_fmap fmap run_of Bool.eqb snd head fst default]; try done.
  - rewrite latched_cons by done. rewrite Hs'. cbn [run_of Bool.eqb]. rewrite <- Hst. destruct (RecoveryThreshold o <=? _) eqn:E.
    + rewrite orb_true_r. split; [done|]. unfold u32_max in *. intros [_ ?]. prop_hyps. lia.
    + rewrite orb_false_r. unfold u32_max in *. prop_hyps. case_bool_decide; simpl; [|by split; [|intros [? _]]]. split; [|by intros [? _]]. intros. split; [done|]. lia.
  - rewrite latched_cons by done. rewrite Hf'. cbn [run_of Bool.eqb]. rewrite <- Hst. unfold u32_max in *.
    destruct (FailureThreshold o <=? _) eqn:E; prop_hyps; [split; [left; lia|done]|]. case_bool_decide as Hu.
    + rewrite Hu. split; [done|]. intros [?|?]; [lia|done].
    + split; [by right|]. intros [?|?]; [lia|done].
Qed.

(** ** Eviction *)
Lemma oldest_target_spec l acc : forall best, foldl (fun best c => match best with None => Some c | Some b => if older_target c b then Some c else Some b end) acc l = Some best ->
  (Some best = acc \/ best ∈ l) /\ (forall c, c ∈ l \/ acc = Some c -> lastObservedAt best.2 <= lastObservedAt c.2).
Proof.
  revert acc. induction l as [|c l IH]; intros acc best; simpl; [intros ->; split; [by left|]; intros c [H|[= ->]]; [by apply elem_of_nil in H|lia]|].
  intros H. apply IH in H as [Hin Hmin]. clear IH.
  assert (forall b, older_target c b = true -> lastObservedAt c.2 <= lastObservedAt b.2) as Hold.
  { intros b Hb. unfold older_target, time_before in Hb. apply orb_true_iff in Hb as [Hb|Hb]; prop_hyps; lia. }
  assert (forall b, older_target c b = false -> lastObservedAt b.2 <= lastObservedAt c.2) as Hyoung.
  { intros b Hb. unfold older_target, time_before in Hb. prop_hyps. lia. }
  destruct acc as [b|].
  - destruct (older_target c b) eqn:E.
    + split; [right; destruct Hin as [[= ->]|?]; [left|by right]|]. intros x [[->|Hx]%elem_of_cons|[= ->]]; [apply Hmin; by right|apply Hmin; by left|].
      transitivity (lastObservedAt c.2); [apply Hmin; by right|by apply Hold].
    + split; [destruct Hin as [->|?]; [by left|right; by right]|]. intros x [[->|Hx]%elem_of_cons|[= ->]]; [|apply Hmin; by left|apply Hmin; by right].
      transitivity (lastObservedAt b.2); [apply Hmin; by right|by apply Hyoung].
  - split; [right; destruct Hin as [[= ->]|?]; [left|by right]|]. intros x [[->|Hx]%elem_of_cons|[=]]; [apply Hmin; by right|apply Hmin; by left].
Qed.

Lemma evicted_is_oldest t : tr_targets t <> ∅ ->
  exists id s, tr_targets t !! id = Some s /\ tr_targets (evictOldestTarget t) = delete id (tr_targets t) /\
    forall id' s', tr_targets t !! id' = Some s' -> lastObservedAt s <= lastObservedAt s'.
Proof.
  intros Hne. unfold evictOldestTarget, oldest_target.
  destruct (foldl _ None (map_to_list (tr_targets t))) as [[id s]|] eqn:E.
  - apply oldest_target_spec in E as [[[=]|Hin] Hmin]. apply elem_of_map_to_list in Hin. exists id, s. split_and!; [done|done|].
    intros id' s' H. apply (Hmin (id', s')). left. by apply elem_of_map_to_list.
  - exfalso. assert (forall l acc, foldl (fun best c => match best with None => Some c | Some b => if older_target c b then Some c else Some b end) acc l = None -> acc = None /\ l = []) as Hnone.
    { clear. induction l as [|c l IH]; intros acc; simpl; [done|]. intros [H ?]%IH. by destruct acc as [b|]; [destruct (older_target c b)|]. }
    apply Hnone in E as [_ E]. apply Hne, map_to_list_empty_iff. done.
Qed.

(** ** Histories of the tracker *)
Definition fresh_tracker (o : ActiveOptions) : Tracker := {| tr_options := o; tr_targets := ∅; tr_evictions := 0 |}.

(** The results since a target was last admitted; an evicted target is forgotten. *)
Definition remember (t : Tracker) (h : gmap string history) (obv : ActiveObservation) (now : Time) : gmap string history :=
  let id := obv_DeploymentID obv in
  <[id := (now, bool_decide (obv_Code obv = ResultSucceeded)) :: default [] (h !! id)]> (filter (fun kv => kv.1 ∈ dom (tr_targets t)) h).

Inductive tracks (o : ActiveOptions) : Tracker -> gmap string history -> Prop :=
| tracks_new : tracks o (fresh_tracker o) ∅
| tracks_refused t h ctx obv now t' e : tracks o t h -> Tracker_Observe t ctx obv now = (t', Some e) -> tracks o t' h
| tracks_observed t h ctx obv now t' : tracks o t h -> Tracker_Observe t ctx obv now = (t', None) -> tracks o t' (remember t' h obv now).

Record tracker_inv (o : ActiveOptions) (t : Tracker) (h : gmap string history) : Prop := {
  ti_options : tr_options t = o;
  ti_dom : dom (tr_targets t) = dom h;
  ti_size : Z.of_nat (size (tr_targets t)) <= MaximumTargets o;
  ti_reflects : forall id s, tr_targets t !! id = Some s -> exists hist, h !! id = Some hist /\ hist <> [] /\ reflects o s hist }.

Lemma observe_refused t ctx obv now t' e : Tracker_Observe t ctx obv now = (t', Some e) -> t' = t.
Proof. unfold Tracker_Observe. destruct ctx; [by intros [= -> _]| |by intros [= -> _]]. destruct (_ || _); [by intros [= -> _]|]. by destruct (match _ !! _ with Some _ => _ | None => _ end). Qed.

Lemma size_delete_le {A : Type} (m : gmap string A) k : (size (delete k m) <= size m)%nat.
Proof. destruct (m !! k) eqn:E; [rewrite map_size_delete_Some by eauto; lia|by rewrite delete_id]. Qed.

Lemma tracker_step o t h ctx obv now t' : ActiveOptions_Validate o = true -> tracker_inv o t h -> Tracker_Observe t ctx obv now = (t', None) ->
  tracker_inv o t' (remember t' h obv now).
Proof.
  intros Hv [Ho Hd Hs Hr] H. unfold Tracker_Observe in H. destruct ctx; [done| |done]. destruct (negb _ || _); [done|].
  set (id := obv_DeploymentID obv) in *.
  assert (1 <= Z.to_nat (FailureThreshold o))%nat as Hf by (unfold ActiveOptions_Validate in Hv; prop_hyps; lia).
  assert (1 <= MaximumTargets o) as Hm by (unfold ActiveOptions_Validate in Hv; prop_hyps; lia).
  assert (exists t1 s hist, t' = {| tr_options := tr_options t1; tr_targets := <[id := apply_observation (tr_options t1) s obv now]> (tr_targets t1); tr_evictions := tr_evictions t1 |} /\
    tr_options t1 = o /\ reflects o s hist /\ default [] (h !! id) = hist /\ tr_targets t1 ⊆ tr_targets t /\
    Z.of_nat (size (<[id := apply_observation (tr_options t1) s obv now]> (tr_targets t1))) <= MaximumTargets o) as (t1 & s & hist & -> & Ho1 & Hrf & Hh & Hsub & Hsz).
  { destruct (tr_targets t !! id) as [s|] eqn:E.
    - injection H as <-. destruct (Hr id s E) as (hist & Eh & _ & Hrf). exists t, s, hist. split_and!; try done; [by rewrite Eh|]. rewrite map_size_insert_Some; eauto.
    - assert (h !! id = None) as Eh by (apply not_elem_of_dom; rewrite <- Hd; by apply not_elem_of_dom).
      destruct (MaximumTargets (tr_options t) <=? Z.of_nat (size (tr_targets t))) eqn:Em; injection H as <-.
      + assert (tr_targets t <> ∅) as Hne by (intros E0; rewrite E0, map_size_empty, Ho in Em; prop_hyps; lia).
        destruct (evicted_is_oldest t Hne) as (old & so & Hold & Hdel & _). eexists (evictOldestTarget t), new_target, []. split_and!; try done.
        * unfold evictOldestTarget. by destruct (oldest_target _) as [[? ?]|].
        * by apply reflects_new.
        * by rewrite Eh.
        * rewrite Hdel. apply delete_subseteq.
        * rewrite Hdel, map_size_insert_None by (rewrite lookup_delete_None; auto). rewrite map_size_delete_Some by eauto.
          assert (size (tr_targets t) <> 0%nat) by (by rewrite map_size_empty_iff). lia.
      + exists t, new_target, []. split_and!; try done; [by apply reflects_new|by rewrite Eh|]. rewrite map_size_insert_None by done. prop_hyps. rewrite Ho in *. lia. }
  split; [done| |done|].
  - unfold remember. fold id. cbn [tr_targets]. rewrite !dom_insert_L. apply set_eq. intros k. rewrite !elem_of_union, elem_of_singleton.
    destruct (decide (k = id)) as [->|Hne]; [tauto|]. split; (intros [?|Hin]; [done|right]).
    + assert (k ∈ dom h) as [w Hw]%elem_of_dom by (rewrite <- Hd; by eapply subseteq_dom).
      apply elem_of_dom. exists w. apply map_lookup_filter_Some. split; [done|]. cbn [fst]. set_solver.
    + apply elem_of_dom in Hin as [w [_ Hin]%map_lookup_filter_Some]. cbn [fst] in Hin. set_solver.
  - intros k sk. cbn [tr_targets]. unfold remember. fold id. destruct (decide (k = id)) as [->|Hne].
    + rewrite !lookup_insert_eq. intros [= <-]. eexists. split; [done|]. split; [done|]. rewrite Hh, Ho1. by apply reflects_step.
    + rewrite !lookup_insert_ne by done. intros Hk. assert (tr_targets t !! k = Some sk) as Hk' by (by eapply lookup_weaken).
      destruct (Hr k sk Hk') as (hk & Ehk & ? & ?). exists hk. split; [|done]. apply map_lookup_filter_Some. split; [done|]. cbn [fst tr_targets]. rewrite dom_insert_L. apply elem_of_dom_2 in Hk. set_solver.
Qed.

Lemma tracks_inv o t h : ActiveOptions_Validate o = true -> tracks o t h -> tracker_inv o t h.
Proof.
  intros Hv. induction 1 as [|t h ctx obv now t' e Ht IH H|t h ctx obv now t' Ht IH H].
  - split; [done|done| |done]. unfold ActiveOptions_Validate in Hv. prop_hyps. simpl. rewrite map_size_empty. lia.
  - by apply observe_refused in H as ->.
  - by eapply tracker_step.
Qed.

(** C35: The router's view of active probes is hysteresis over recent results and
    fails open. Whatever was observed, for a well-formed identity the tracker answers; it
    denies a deployment exactly when the deployment's last result is no older than the
    configured time and its results since it was admitted contain the configured number of
    failures in a row, never followed by the configured number of successes in a row; and it
    remembers at most the configured number of targets. *)
Theorem active_health_is_hysteresis o t h id now :
  ActiveOptions_Validate o = true -> tracks o t h -> activeDeploymentIDPattern id = true -> now <> 0 ->
  Z.of_nat (size (tr_targets t)) <= MaximumTargets o /\
  exists answer, Tracker_Healthy t ctx_live id now = Ok answer /\
    (answer = false <-> exists last older, h !! id = Some (last :: older) /\ time_sub now last.1 <= StateTTL o /\
       latched (Z.to_nat (FailureThreshold o)) (Z.to_nat (RecoveryThreshold o)) (last :: older).*2).
Proof.
  intros Hv Ht Hid Hnow. destruct (tracks_inv o t h Hv Ht) as [Ho Hd Hs Hr]. split; [done|].
  unfold Tracker_Healthy, Tracker_Snapshot. rewrite Hid. unfold time_is_zero. rewrite (proj2 (Z.eqb_neq now 0) Hnow). cbn [negb].
  destruct (tr_targets t !! id) as [s|] eqn:E; eexists; (split; [reflexivity|]); cbn [sn_Healthy target_snapshot unseen_snapshot].
  - destruct (Hr id s E) as (hist & Eh & Hne & [_ _ Hst Htime]). destruct hist as [|last older]; [done|]. simpl in Htime. rewrite Ho, Htime. split.
    + intros H. prop_hyps. exists last, older. split_and!; [done|done|by apply Hst].
    + intros (last' & older' & E' & Hle & Hl). rewrite Eh in E'. injection E' as <- <-. apply Hst in Hl. rewrite Hl, bool_decide_eq_true_2 by done.
      rewrite orb_false_r. by apply Z.ltb_ge.
  - split; [done|]. intros (last & older & Eh & _). exfalso. apply not_elem_of_dom in E. rewrite Hd in E. by apply elem_of_dom_2 in Eh.
Qed.

(** ** Delays are not negative *)
Definition float_nonneg (f : float64) : Prop := match f with S754_infinity true | S754_finite true _ _ => False | _ => True end.

Lemma round_nonneg m e l : float_nonneg (binary_round_aux 53 1024 false m e l).
Proof. unfold binary_round_aux. destruct (shr_fexp 53 1024 m e l) as [r1 e1]. destruct (shr_fexp _ _ _ _ _) as [r2 e2]. destruct (shr_m r2); [done| |done]. by destruct (_ <=? _). Qed.

Lemma normalize_nonneg z : 0 <= z -> forall e, float_nonneg (binary_normalize 53 1024 z e false).
Proof. intros Hz e. destruct z as [|p|p]; [done| |lia]. simpl. unfold binary_round. match goal with |- context [let '(_, _) := ?x in _] => destruct x end. apply round_nonneg. Qed.

Lemma float_mul_nonneg a b : float_nonneg a -> float_nonneg b -> float_nonneg (float_mul a b).
Proof.
  unfold float_mul. destruct a as [sa|[]| |[] ma ea], b as [sb|[]| |[] mb eb]; try done. intros _ _. cbn [SFmul xorb]. apply round_nonneg.
Qed.

Lemma float_div_nonneg a m e : float_nonneg a -> float_nonneg (float_div a (S754_finite false m e)).
Proof.
  unfold float_div. destruct a as [sa|[]| |[] ma ea]; try done. intros _. cbn [SFdiv xorb].
  destruct (SFdiv_core_binary 53 1024 (Z.pos ma) ea (Z.pos m) e) as [[m' e'] l]. apply round_nonneg.
Qed.

Lemma float_add_nonneg a b : float_nonneg a -> float_nonneg b -> float_nonneg (float_add a b).
Proof.
  unfold float_add. destruct a as [[]|[]| |[] ma ea], b as [[]|[]| |[] mb eb]; try done. intros _ _. cbn [SFadd cond_Zopp]. apply normalize_nonneg. lia.
Qed.

Lemma float_trunc_nonneg f : float_nonneg f -> 0 <= float_trunc f.
Proof.
  destruct f as [| | |[] m e]; try done. intros _. cbn [float_trunc]. destruct (0 <=? e) eqn:E; prop_hyps; [apply Z.mul_nonneg_nonneg; lia|].
  apply Z.div_pos; [lia|]. apply Z.pow_pos_nonneg; lia.
Qed.

Lemma hash_range id : 0 <= stableHash id.
Proof.
  unfold stableHash. assert (forall l h, 0 <= h -> 0 <= foldl (fun h b => u64 (Z.lxor h b * 1099511628211)) h l) as H; [|apply H; lia].
  induction l as [|b l IH]; intros h Hh; [done|]. apply IH. destruct (u64_range (Z.lxor h b * 1099511628211)). done.
Qed.

(** The lowest factor of each jitter, computed. *)
Lemma factor_floor j : 1 <= j <= 50 -> float_nonneg (float_sub (to_float 1) (float_div (to_float j) (to_float 100))).
Proof.
  intros Hj. assert (Forall (fun j => match float_sub (to_float 1) (float_div (to_float j) (to_float 100)) with S754_finite false _ _ => true | _ => false end = true) (Z.of_nat <$> seq 1 50)) as H.
  { apply Forall_forall. intros x Hx. revert x Hx. rewrite <- Forall_forall. apply (bool_decide_unpack _). vm_compute. exact I. }
  assert (j ∈ Z.of_nat <$> seq 1 50) as Hin by (apply list_elem_of_fmap; exists (Z.to_nat j); split; [lia|]; apply elem_of_seq; lia).
  rewrite Forall_forall in H. specialize (H j Hin). by destruct (float_sub _ _) as [| | |[] ? ?].
Qed.

Lemma cadence_nonneg id interval j : 0 <= interval -> 0 <= j <= 50 -> 0 <= cadence id interval j.
Proof.
  intros Hi Hj. unfold cadence. destruct (j =? 0) eqn:E; [done|]. prop_hyps. apply float_trunc_nonneg, float_mul_nonneg; [by apply normalize_nonneg|].
  apply float_add_nonneg; [apply factor_floor; lia|]. apply float_mul_nonneg.
  - apply float_div_nonneg, normalize_nonneg, hash_range.
  - apply float_div_nonneg, float_mul_nonneg; apply normalize_nonneg; lia.
Qed.

Lemma spread_nonneg id interval : 0 <= startupSpread id interval.
Proof. unfold startupSpread. destruct (interval <=? 0) eqn:E; [done|]. prop_hyps. apply Z.mod_pos_bound. lia. Qed.

(** ** Sorting *)
Lemma fmap_sublist_of {A B : Type} (f : A -> B) l1 l2 : l1 `sublist_of` l2 -> f <$> l1 `sublist_of` f <$> l2.
Proof. induction 1; simpl; by constructor. Qed.

Section Sorting.
Context {A : Type} (less : A -> A -> bool).

Lemma insert_before_perm x l : insert_before less x l ≡ₚ x :: l.
Proof using Type. induction l as [|y l IH]; simpl; [done|]. destruct (less y x); [|done]. rewrite IH. apply Permutation_swap. Qed.

Lemma sort_slice_perm l : sort_slice less l ≡ₚ l.
Proof using Type. induction l as [|x l IH]; simpl; [done|]. by rewrite insert_before_perm, IH. Qed.

Context (asym : forall x y, less x y = true -> less y x = false).
Context (ntrans : forall x y z, less y x = false -> less z y = false -> less z x = false).

Lemma sort_slice_sorted l : StronglySorted (fun x y => less y x = false) (sort_slice less l).
Proof using asym ntrans.
  induction l as [|x l IH]; simpl; [constructor|]. revert IH. generalize (sort_slice less l). clear l. induction 1 as [|y l Hs IH Hy]; simpl; [repeat constructor|].
  destruct (less y x) eqn:E.
  - constructor; [done|]. rewrite insert_before_perm. constructor; [by apply asym|done].
  - constructor; [by constructor|]. constructor; [done|]. eapply Forall_impl; [exact Hy|]. intros z Hz. simpl in Hz. by eapply ntrans.
Qed.

(** What is missing from the head of a sorted list follows all of it. *)
Lemma sorted_take n x l : StronglySorted (fun x y => less y x = false) l -> x ∈ l -> x ∉ take n l ->
  length (take n l) = n /\ Forall (fun y => less x y = false) (take n l).
Proof using Type.
  revert n. induction l as [|y l IH]; intros n Hs Hin Hnot; [by apply elem_of_nil in Hin|]. apply StronglySorted_inv in Hs as [Hs Hy]. destruct n as [|n]; [by split|].
  simpl in Hnot |- *. apply not_elem_of_cons in Hnot as [Hne Hnot]. apply elem_of_cons in Hin as [->|Hin]; [done|]. destruct (IH n Hs Hin Hnot) as [Hl Hf].
  split; [by rewrite Hl|]. constructor; [|done]. rewrite Forall_forall in Hy. by apply Hy.
Qed.
End Sorting.

Definition due_order (a b : scheduledTarget) : comparison := lex (fun a b => Z.compare (nextDue a) (nextDue b)) (fun a b => String.compare (target_id a) (target_id b)) a b.

Lemma due_order_ordering : ordering due_order.
Proof. apply ordering_lex; [apply ordering_Z|apply ordering_string]. Qed.

Lemma due_less_order a b : due_less a b = true <-> due_order a b = Lt.
Proof.
  unfold due_less, due_order, lex, time_before. destruct (Z.compare_spec (nextDue a) (nextDue b)) as [E|E|E].
  - rewrite E, Z.eqb_refl. simpl. apply string_ltb_true.
  - rewrite (proj2 (Z.eqb_neq _ _)) by lia. simpl. rewrite Z.ltb_lt. tauto.
  - rewrite (proj2 (Z.eqb_neq _ _)) by lia. simpl. rewrite Z.ltb_lt. split; [lia|done].
Qed.

Lemma due_sorted l : StronglySorted (fun x y => due_less y x = false) (sort_slice due_less l).
Proof.
  assert (forall a b, due_less a b = false <-> due_order a b <> Lt) as Hn by (intros a b; rewrite <- due_less_order; destruct (due_less a b); naive_solver).
  apply sort_slice_sorted.
  - intros x y Hxy%due_less_order. apply Hn. rewrite (ord_antisym due_order_ordering), Hxy. done.
  - intros x y z. rewrite !Hn. apply ordering_negative_trans, due_order_ordering.
Qed.

(** ** The queue of a target *)
Definition keyed (s : Scheduler) : Prop := forall k e, sd_targets s !! k = Some e -> target_id e = k.

(** The targets that are due before the one of identity [id], due at [d]. *)
Definition precedes (d : Time) (id : string) (kv : string * scheduledTarget) : Prop := nextDue kv.2 < d \/ (nextDue kv.2 = d /\ String.ltb kv.1 id = true).
#[export] Instance precedes_dec d id kv : base.Decision (precedes d id kv).
Proof. unfold precedes. apply _. Defined.
Definition ahead (s : Scheduler) (d : Time) (id : string) : gset string := dom (filter (precedes d id) (sd_targets s)).

Lemma elem_of_ahead s d id k : k ∈ ahead s d id <-> exists e, sd_targets s !! k = Some e /\ precedes d id (k, e).
Proof. unfold ahead. rewrite elem_of_dom. unfold is_Some. setoid_rewrite map_lookup_filter_Some. done. Qed.

Lemma due_less_precedes a b : due_less a b = true -> precedes (nextDue b) (target_id b) (target_id a, a).
Proof.
  unfold due_less, precedes, time_before. destruct (nextDue a =? nextDue b) eqn:E; simpl; intros H; prop_hyps; [by right|by left].
Qed.

Lemma due_total a b : target_id a <> target_id b -> due_less a b = false -> due_less b a = true.
Proof.
  intros Hne Hf. rewrite due_less_order. rewrite (ord_antisym due_order_ordering). destruct (due_order a b) eqn:E; [|apply due_less_order in E; congruence|done].
  unfold due_order, lex in E. destruct (nextDue a ?= nextDue b) eqn:E1; try done. by apply String.compare_eq_iff in E.
Qed.

Section Fairness.
Implicit Types s : Scheduler.
Local Abbreviation batch s := (Z.to_nat (MaximumBatchSize (sd_options s))).

Lemma reschedule_lookup s now due m k :
  foldl (fun targets item => reschedule s now item targets) m due !! k =
  match m !! k with
  | None => None
  | Some e => Some (if decide (k ∈ target_id <$> due)
                    then {| sc_target := sc_target e; nextDue := now + cadence k (ProbeInterval (sd_options s)) (JitterPercent (sd_options s)) |} else e)
  end.
Proof using Type.
  revert m. induction due as [|item due IH]; intros m; cbn [foldl].
  - destruct (m !! k) as [e|]; [|done]. rewrite decide_False; [done|]. set_solver.
  - rewrite IH. clear IH. unfold reschedule. destruct (m !! target_id item) as [c|] eqn:E.
    + destruct (decide (k = target_id item)) as [->|Hne].
      * rewrite lookup_insert_eq, E. cbn [sc_target]. rewrite (decide_True (P := target_id item ∈ target_id <$> item :: due)) by set_solver. by destruct (decide _).
      * rewrite lookup_insert_ne by done. destruct (m !! k); [|done]. f_equal. destruct (decide (k ∈ target_id <$> due)); [rewrite decide_True by set_solver|rewrite decide_False by set_solver]; done.
    + destruct (m !! k) eqn:Ek; [|done]. f_equal. assert (k <> target_id item) by congruence.
      destruct (decide (k ∈ target_id <$> due)); [rewrite decide_True by set_solver|rewrite decide_False by set_solver]; done.
Qed.

Lemma due_batch_in s now e : keyed s -> e ∈ due_batch s now -> sd_targets s !! target_id e = Some e /\ nextDue e <= now.
Proof using Type.
  intros Hk He. unfold due_batch in He. apply elem_of_take in He as (i & He & _). apply list_elem_of_lookup_2 in He. rewrite sort_slice_perm in He.
  apply list_elem_of_filter in He as [Hd He]. apply list_elem_of_fmap in He as ([k e'] & -> & He). apply elem_of_map_to_list in He. simpl in *.
  rewrite (Hk k e' He). split; [done|]. unfold time_after in Hd. by apply Z.ltb_ge in Hd.
Qed.

(** A dispatch that leaves a due target waiting takes a full batch from before it. *)
Lemma dispatch_advances s now id T : keyed s -> 0 <= JitterPercent (sd_options s) <= 50 -> 0 <= ProbeInterval (sd_options s) ->
  sd_targets s !! id = Some T -> nextDue T < now -> T ∉ due_batch s now ->
  let s' := (take_due s now).1 in
  keyed s' /\ sd_options s' = sd_options s /\ sd_targets s' !! id = Some T /\ (size (ahead s' (nextDue T) id) + batch s <= size (ahead s (nextDue T) id))%nat.
Proof using Type.
  intros Hk Hj Hi HT Hnow Hnot s'.
  assert (forall k, sd_targets s' !! k = match sd_targets s !! k with None => None | Some e => Some (if decide (k ∈ target_id <$> due_batch s now)
    then {| sc_target := sc_target e; nextDue := now + cadence k (ProbeInterval (sd_options s)) (JitterPercent (sd_options s)) |} else e) end) as Hlook by (intros k; apply reschedule_lookup).
  set (ids := target_id <$> due_batch s now) in *.
  assert (id ∉ ids) as Hid.
  { intros (e & E & He)%list_elem_of_fmap. destruct (due_batch_in s now e Hk He) as [He' _]. rewrite <- E, HT in He'. injection He' as <-. done. }
  (* the batch is full, and all of it is ahead *)
  destruct (sorted_take due_less (batch s) T (sort_slice due_less (filter (fun t => time_after (nextDue t) now = false) (map_to_list (sd_targets s)).*2)) (due_sorted _)) as [Hlen Hall]; [|exact Hnot|].
  { rewrite sort_slice_perm. apply list_elem_of_filter. split; [unfold time_after; apply Z.ltb_ge; lia|]. apply list_elem_of_fmap. exists (id, T). split; [done|]. by apply elem_of_map_to_list. }
  fold (due_batch s now) in Hlen, Hall.
  assert (list_to_set ids ⊆ ahead s (nextDue T) id) as Hahead.
  { intros k Hin. apply elem_of_list_to_set in Hin as (e & -> & He)%list_elem_of_fmap. destruct (due_batch_in s now e Hk He) as [He' _]. apply elem_of_ahead. exists e. split; [done|].
    rewrite Forall_forall in Hall. specialize (Hall e He). rewrite <- (Hk id T HT). apply due_less_precedes. apply due_total in Hall; [done|].
    rewrite (Hk id T HT). intros E. apply Hid. rewrite E. by apply list_elem_of_fmap_2. }
  assert (NoDup ids) as Hnd.
  { unfold ids, due_batch. rewrite fmap_take. apply (sublist_NoDup _ (target_id <$> sort_slice due_less (filter (fun t => time_after (nextDue t) now = false) (map_to_list (sd_targets s)).*2)));
      [|apply sublist_take]. rewrite sort_slice_perm. eapply sublist_NoDup; [|apply fmap_sublist_of, sublist_filter].
    rewrite <- list_fmap_compose. rewrite (list_fmap_ext _ fst); [apply NoDup_fst_map_to_list|]. intros i [k e] Hke. apply list_elem_of_lookup_2, elem_of_map_to_list in Hke. simpl. by apply Hk. }
  assert (ahead s' (nextDue T) id ⊆ ahead s (nextDue T) id ∖ list_to_set ids) as Hsub.
  { intros k (e & He & Hp)%elem_of_ahead. rewrite Hlook in He. destruct (sd_targets s !! k) as [e0|] eqn:E0; [|done]. injection He as <-. destruct (decide (k ∈ ids)) as [Hin|Hout].
    - exfalso. pose proof (cadence_nonneg k (ProbeInterval (sd_options s)) (JitterPercent (sd_options s)) Hi Hj). unfold precedes in Hp. simpl in Hp. lia.
    - apply elem_of_difference. split; [apply elem_of_ahead; eauto|]. by rewrite elem_of_list_to_set. }
  split_and!.
  - intros k e. rewrite Hlook. destruct (sd_targets s !! k) as [e0|] eqn:E0; [|done]. intros [= <-]. destruct (decide _); [exact (Hk k e0 E0)|by apply Hk].
  - done.
  - rewrite Hlook, HT. by rewrite decide_False.
  - apply subseteq_size in Hsub. rewrite size_difference in Hsub by done. apply subseteq_size in Hahead.
    rewrite size_list_to_set in Hsub, Hahead by done. unfold ids in *. rewrite length_fmap, Hlen in *. lia.
Qed.

Lemma replaced_lookup s now targets k e : replaced_targets s now targets !! k = Some e ->
  exists t, t ∈ targets /\ dep_ID (hp_Deployment t) = k /\ e = replacement_entry s now t.
Proof using Type.
  unfold replaced_targets. induction targets as [|t targets IH] using rev_ind; [done|]. rewrite foldl_app. cbn [foldl]. destruct (decide (k = dep_ID (hp_Deployment t))) as [->|Hne].
  - rewrite lookup_insert_eq. intros [= <-]. exists t. set_solver.
  - rewrite lookup_insert_ne by done. intros (t' & ? & ? & ?)%IH. exists t'. set_solver.
Qed.

Lemma replaced_is_Some s now targets t : t ∈ targets -> is_Some (replaced_targets s now targets !! dep_ID (hp_Deployment t)).
Proof using Type.
  unfold replaced_targets. induction targets as [|t' targets IH] using rev_ind; [by intros ?%elem_of_nil|]. rewrite foldl_app, elem_of_app, list_elem_of_singleton. cbn [foldl].
  intros [Hin| ->]; [|by rewrite lookup_insert_eq]. destruct (decide (dep_ID (hp_Deployment t) = dep_ID (hp_Deployment t'))) as [->|Hne]; [by rewrite lookup_insert_eq|].
  rewrite lookup_insert_ne by done. by apply IH.
Qed.

Lemma same_version_trans a b c : sameTargetVersion a b = true -> sameTargetVersion a c = true -> sameTargetVersion b c = true.
Proof using Type.
  unfold sameTargetVersion. intros H1 H2. prop_hyps. rewrite !andb_true_iff, !bool_decide_eq_true, !Z.eqb_eq. split_and!; congruence.
Qed.

(** The catalog still lists the target, in the version it had. *)
Definition still_listed (id : string) (T : HealthProbeTarget) (targets : list HealthProbeTarget) : Prop :=
  (exists t, t ∈ targets /\ dep_ID (hp_Deployment t) = id) /\ forall t, t ∈ targets -> dep_ID (hp_Deployment t) = id -> sameTargetVersion T t = true.

Lemma refresh_keeps s now targets id T : keyed s -> sd_targets s !! id = Some T -> nextDue T < now -> still_listed id (sc_target T) targets ->
  let s' := with_targets s (replaced_targets s now targets) in
  keyed s' /\ ahead s' (nextDue T) id ⊆ ahead s (nextDue T) id /\
  exists T', sd_targets s' !! id = Some T' /\ nextDue T' = nextDue T /\ sameTargetVersion (sc_target T) (sc_target T') = true.
Proof using Type.
  intros Hk HT Hnow [[t [Hin Et]] Hsame] s'. split_and!.
  - intros k e (t' & _ & <- & ->)%replaced_lookup. unfold replacement_entry. repeat case_match; done.
  - intros k (e & (t' & _ & <- & ->)%replaced_lookup & Hp)%elem_of_ahead. apply elem_of_ahead.
    pose proof (spread_nonneg (dep_ID (hp_Deployment t')) (ProbeInterval (sd_options s))).
    unfold replacement_entry, precedes, time_add in *. destruct (sd_targets s !! dep_ID (hp_Deployment t')) as [e0|]; [|simpl in Hp; lia].
    destruct (sameTargetVersion _ _); [|simpl in Hp; lia]. eauto.
  - destruct (replaced_is_Some s now targets t Hin) as [T' HT']. rewrite Et in HT'. exists T'. split; [done|].
    apply replaced_lookup in HT' as (t' & Hin' & E' & ->). unfold replacement_entry. rewrite E', HT, (Hsame t' Hin' E'). cbn [nextDue sc_target]. split; [done|by apply Hsame].
Qed.

(** A tick after the target fell due. *)
Definition tick_after (d : Time) (id : string) (T : HealthProbeTarget) (t : tick) : Prop :=
  match t with
  | RefreshTick _ source now => d < now /\ forall targets, source = Some targets -> still_listed id T targets
  | DispatchTick ctx now _ _ => ctx = ctx_live /\ d < now /\ now <> 0
  end.

Fixpoint dispatches (ticks : list tick) : nat :=
  match ticks with [] => 0 | DispatchTick _ _ _ _ :: rest => S (dispatches rest) | RefreshTick _ _ _ :: rest => dispatches rest end.

Context (url_Parse : string -> option URL).

(** The state of a target's schedule that the ticks keep. *)
Record waiting (o : ActiveOptions) (d : Time) (id : string) (T0 : HealthProbeTarget) (s : Scheduler) : Prop := {
  wt_keyed : keyed s;
  wt_options : sd_options s = o;
  wt_entry : exists T, sd_targets s !! id = Some T /\ nextDue T = d /\ sameTargetVersion T0 (sc_target T) = true }.

Lemma waiting_refresh o d id T0 s ctx source now : waiting o d id T0 s -> tick_after d id T0 (RefreshTick ctx source now) ->
  let s' := (Refresh url_Parse s ctx source now).1 in waiting o d id T0 s' /\ ahead s' d id ⊆ ahead s d id.
Proof using Type.
  intros Hw [Hnow Hlist]. assert (forall c, waiting o d id T0 (counted c s) /\ ahead (counted c s) d id ⊆ ahead s d id) as Hsame by (intros c; split; [destruct Hw; split; done|done]).
  unfold Refresh. destruct ctx; [done| |done]. destruct source as [targets|]; [|apply Hsame]. destruct (_ <? _); [apply Hsame|].
  destruct (check_targets url_Parse None _); [apply Hsame|]. destruct (time_is_zero now); [apply Hsame|]. cbn [fst].
  destruct Hw as [Hk Ho (T & HT & <- & Hv)]. destruct (Hlist targets eq_refl) as [(t & Hin & Et) Hall].
  destruct (refresh_keeps s now (sort_slice id_less targets) id T Hk HT Hnow) as (Hk' & Ha & T' & HT' & Hd' & Hv').
  { split; [exists t; by rewrite sort_slice_perm|]. intros t'. rewrite sort_slice_perm. intros Hin' Et'. eapply same_version_trans; [exact Hv|by apply Hall]. }
  split; [|exact Ha]. split; [exact Hk'|done|]. exists T'. split_and!; [exact HT'|done|]. revert Hv Hv'. unfold sameTargetVersion. intros. prop_hyps.
  rewrite !andb_true_iff, !bool_decide_eq_true, !Z.eqb_eq. split_and!; congruence.
Qed.

Lemma waiting_dispatch o d id T0 s now jobs ended : waiting o d id T0 s -> 0 <= JitterPercent o <= 50 -> 0 <= ProbeInterval o -> d < now -> now <> 0 ->
  (exists T, T ∈ due_batch s now /\ target_id T = id) \/
  let s' := (Dispatch s ctx_live now jobs ended).1 in waiting o d id T0 s' /\ (size (ahead s' d id) + Z.to_nat (MaximumBatchSize o) <= size (ahead s d id))%nat.
Proof using Type.
  intros [Hk <- (T & HT & <- & Hv)] Hj Hi Hnow Hz. destruct (decide (id ∈ target_id <$> due_batch s now)) as [(e & -> & He)%list_elem_of_fmap|Hids]; [by left; exists e|right].
  assert (T ∉ due_batch s now) as Hnot by (intros Hin; apply Hids; rewrite <- (Hk id T HT); by apply list_elem_of_fmap_2).
  destruct (dispatch_advances s now id T Hk Hj Hi HT Hnow Hnot) as (Hk' & Ho' & HT' & Hsize).
  unfold Dispatch, time_is_zero. rewrite (proj2 (Z.eqb_neq now 0) Hz). destruct (take_due s now) as [s1 due]. cbn [fst] in *.
  assert (forall s2, sd_targets s2 = sd_targets s1 -> sd_options s2 = sd_options s1 ->
    waiting (sd_options s) (nextDue T) id T0 s2 /\ (size (ahead s2 (nextDue T) id) + batch s <= size (ahead s (nextDue T) id))%nat) as Hgo.
  { intros s2 E1 E2. split; [|unfold ahead in *; by rewrite E1]. split; [intros k e; rewrite E1; apply Hk'|by rewrite E2|]. exists T. by rewrite E1. }
  destruct (Nat.eqb (length due) 0); by apply Hgo.
Qed.

Lemma keyed_tick s t : keyed s -> keyed (run_tick url_Parse s t) /\ sd_options (run_tick url_Parse s t) = sd_options s.
Proof using Type.
  intros Hk. destruct t as [ctx source now|ctx now jobs ended]; cbn [run_tick].
  - unfold Refresh. destruct ctx; [done| |done]. destruct source as [targets|]; [|done]. destruct (_ <? _); [done|].
    destruct (check_targets url_Parse None _); [done|]. destruct (time_is_zero now); [done|]. split; [|done].
    intros k e (t' & _ & <- & ->)%replaced_lookup. unfold replacement_entry. repeat case_match; done.
  - unfold Dispatch. destruct ctx; [done| |done]. destruct (time_is_zero now); [done|]. destruct (take_due s now) as [s1 due] eqn:E. injection E as <- <-.
    assert (keyed (with_targets s (foldl (fun targets item => reschedule s now item targets) (sd_targets s) (due_batch s now)))) as Hk'.
    { intros k e. cbn [with_targets sd_targets]. rewrite reschedule_lookup. destruct (sd_targets s !! k) as [e0|] eqn:E0; [|done]. intros [= <-]. destruct (decide _); exact (Hk k e0 E0). }
    by destruct (Nat.eqb _ 0).
Qed.

(** The schedulers that a history of ticks leads to. *)
Definition scheduled (o : ActiveOptions) (s : Scheduler) : Prop :=
  exists s0 past, NewScheduler o true = Ok s0 /\ s = foldl (run_tick url_Parse) s0 past.

Lemma scheduled_keyed o s : scheduled o s -> keyed s /\ sd_options s = o /\ ActiveOptions_Validate o = true.
Proof using Type.
  intros (s0 & past & E & ->). unfold NewScheduler in E. destruct (ActiveOptions_Validate o); [|done]. injection E as <-.
  assert (forall s, keyed s /\ sd_options s = o -> keyed (foldl (run_tick url_Parse) s past) /\ sd_options (foldl (run_tick url_Parse) s past) = o) as H
    by (induction past as [|t past IH]; intros s Hs; [done|]; cbn [foldl]; apply IH; destruct Hs as [Hk <-]; by apply keyed_tick).
  set (s0 := {| sd_options := o; sd_targets := ∅; sd_running := false; sd_counters := zero_counters |}). destruct (H s0) as [H1 H2]; [by split|done].
Qed.

(** C36: Every due target is probed. Take a target that is due, and any sequence of refreshes
    and dispatches after that time in which every refresh that reads the catalog still lists
    the target with the versions it has, and every dispatch has a live context and a clock
    that is not zero. The target is in the batch of one of those dispatches: at the latest
    when the batches have room for all targets that were due before it. (A refresh that
    brings a new version of the target restarts its schedule, and is not covered.) *)
Theorem due_targets_are_probed o ticks s id T :
  scheduled o s -> 0 <= JitterPercent o -> sd_targets s !! id = Some T ->
  Forall (tick_after (nextDue T) id (sc_target T)) ticks ->
  (size (ahead s (nextDue T) id) < Z.to_nat (MaximumBatchSize o) * dispatches ticks)%nat ->
  exists before now jobs ended after T', ticks = before ++ DispatchTick ctx_live now jobs ended :: after /\
    T' ∈ due_batch (foldl (run_tick url_Parse) s before) now /\ target_id T' = id.
Proof using Type.
  intros (Hk & <- & Ho)%scheduled_keyed Hj HT.
  assert (waiting (sd_options s) (nextDue T) id (sc_target T) s) as Hw.
  { split; [done|done|]. exists T. split_and!; [done|done|]. unfold sameTargetVersion. by rewrite !bool_decide_eq_true_2, !Z.eqb_refl by done. }
  assert (0 <= JitterPercent (sd_options s) <= 50) as Hj' by (unfold ActiveOptions_Validate in Ho; prop_hyps; lia).
  assert (0 <= ProbeInterval (sd_options s)) as Hi by (unfold ActiveOptions_Validate, second in Ho; prop_hyps; lia).
  clear Ho Hj Hk HT. revert Hw Hj' Hi. generalize (sd_options s) as o, (nextDue T) as d, (sc_target T) as T0. clear T. intros o d T0 Hw Hj Hi. revert s Hw.
  induction ticks as [|t ticks IH]; intros s Hw Hticks Hsize; [simpl in Hsize; lia|]. apply Forall_cons in Hticks as [Ht Hticks]. destruct t as [ctx source now|ctx now jobs ended].
  - destruct (waiting_refresh o d id T0 s ctx source now Hw Ht) as [Hw' Ha]. apply subseteq_size in Ha.
    destruct (IH _ Hw' Hticks) as (before & now' & jobs & ended & after & T' & -> & Hin & Hid); [simpl in Hsize; lia|].
    by exists (RefreshTick ctx source now :: before), now', jobs, ended, after, T'.
  - destruct Ht as (-> & Hnow & Hz). destruct (waiting_dispatch o d id T0 s now jobs ended Hw Hj Hi Hnow Hz) as [(T' & Hin & Hid)|[Hw' Ha]].
    + by exists [], now, jobs, ended, ticks, T'.
    + destruct (IH _ Hw' Hticks) as (before & now' & jobs' & ended' & after & T' & -> & Hin & Hid); [simpl in Hsize; lia|].
      by exists (DispatchTick ctx_live now jobs ended :: before), now', jobs', ended', after, T'.
Qed.
End Fairness.

(** ** The tracker as a reader of the router *)
Definition active_reader_error (e : active_error) : reader_error :=
  match e with ErrActiveContext cause => ReaderContext cause | _ => ReaderFailed "active health input is invalid" end.
#[export] Instance Tracker_reader : HealthReader (Tracker * Time) :=
  fun r ctx id => (r, match Tracker_Healthy r.1 ctx id r.2 with Ok b => Ok b | Err e => Err (active_reader_error e) end).

(** A deployment of a newer UUID version, which the catalog and the router accept. *)
Definition newer_deployment : string := "018f2e6a-7b1c-7def-8123-456789abcdef".
Definition newer_source : result (list RouteCandidate) reader_error := Ok [demo_candidate newer_deployment 1 1; demo_candidate demo_d1 2 1].

(** The tracker refuses deployment identities of the UUID versions 6 to 8 that the
    catalog and the router accept. Whatever it has observed, asking it about such a deployment
    is an error, which fails the selection of every request whose model has that deployment
    among its candidates, although another candidate is healthy. *)
Theorem newer_identities_block_routing t now :
  RouteCandidate_Validate demo_url (demo_candidate newer_deployment 1 1) = true /\ Tracker_Healthy t ctx_live newer_deployment now = Err ErrActiveInvalid /\
  (Filter demo_url {| rd_health := (t, now); rd_budget := allowAll; rd_capacity := allowAll |} ctx_live (demo_request []) newer_source).2 =
    Some (ErrHealthUnavailable (ReaderFailed "active health input is invalid")).
Proof.
  split; [vm_compute; reflexivity|]. assert (Tracker_Healthy t ctx_live newer_deployment now = Err ErrActiveInvalid) as H by reflexivity. split; [exact H|].
  vm_compute. reflexivity.
Qed.

(** ** Concrete instances *)
Definition demo_probe (id : string) (priority : Z) : HealthProbeTarget :=
  {| hp_Provider := cand_Provider (demo_candidate id priority 1); hp_Deployment := cand_Deployment (demo_candidate id priority 1) |}.
Definition demo_scheduler : Scheduler := foldl (run_tick demo_url)
  {| sd_options := DefaultActiveOptions; sd_targets := ∅; sd_running := false; sd_counters := zero_counters |}
  [RefreshTick ctx_live (Some [demo_probe demo_d1 1; demo_probe demo_d2 2]) second].
Definition demo_due (id : string) : scheduledTarget := default {| sc_target := demo_probe id 1; nextDue := 0 |} (sd_targets demo_scheduler !! id).

Lemma due_targets_are_probed_witness : exists before now jobs ended after T',
  [DispatchTick ctx_live (hour * 2) [] None] = before ++ DispatchTick ctx_live now jobs ended :: after /\
  T' ∈ due_batch (foldl (run_tick demo_url) demo_scheduler before) now /\ target_id T' = demo_d2.
Proof.
  apply (due_targets_are_probed demo_url DefaultActiveOptions [DispatchTick ctx_live (hour * 2) [] None] demo_scheduler demo_d2 (demo_due demo_d2)).
  - eexists _, [RefreshTick ctx_live (Some [demo_probe demo_d1 1; demo_probe demo_d2 2]) second]. split; reflexivity.
  - vm_compute. congruence.
  - vm_compute. reflexivity.
  - constructor; [|constructor]. split; [reflexivity|]. split; vm_compute; congruence.
  - apply Nat.ltb_lt. vm_compute. reflexivity.
Defined.

Definition failing (id : string) : ActiveObservation := {| obv_DeploymentID := id; obv_Code := ResultTimedOut; obv_Latency := second |}.
Definition demo_tracker : Tracker :=
  foldl (fun t now => (Tracker_Observe t ctx_live (failing demo_d1) now).1) (fresh_tracker DefaultActiveOptions) [second; 2 * second; 3 * second].
Definition demo_history : gmap string history := {[ demo_d1 := [(3 * second, false); (2 * second, false); (second, false)] ]}.

Lemma active_health_is_hysteresis_witness : Tracker_Healthy demo_tracker ctx_live demo_d1 (4 * second) = Ok false.
Proof.
  destruct (active_health_is_hysteresis DefaultActiveOptions demo_tracker demo_history demo_d1 (4 * second)) as [_ (answer & -> & H)]; [reflexivity| |reflexivity|vm_compute; congruence|].
  - set (t1 := (Tracker_Observe (fresh_tracker DefaultActiveOptions) ctx_live (failing demo_d1) second).1).
    set (t2 := (Tracker_Observe t1 ctx_live (failing demo_d1) (2 * second)).1).
    pose proof (tracks_new DefaultActiveOptions) as H0.
    pose proof (tracks_observed _ (fresh_tracker DefaultActiveOptions) _ ctx_live (failing demo_d1) second t1 H0 eq_refl) as H1.
    pose proof (tracks_observed _ t1 _ ctx_live (failing demo_d1) (2 * second) t2 H1 eq_refl) as H2.
    exact (tracks_observed _ t2 _ ctx_live (failing demo_d1) (3 * second) demo_tracker H2 eq_refl).
  - f_equal. apply H. exists (3 * second, false), [(2 * second, false); (second, false)]. split; [reflexivity|]. split; [vm_compute; congruence|].
    exists [], [false; false; false]. split; [reflexivity|]. split; [exists []; reflexivity|]. intros l1 l2 E. destruct l1; discriminate E.
Defined.
