(* ===== verification/TokenEstimate.v ===== *)
(** * Local token estimates (src/internal/tokenestimate)

    A tokenizer counts the JSON form of what was sent and received, bound to the facts of a
    deployment, through an LRU cache of content digests. [json.Marshal] of the envelopes and
    of the cache identity, and SHA-256, are parameters; the tokenizer is an interface with the
    byte-bound tokenizer of the package as its instance. [ctx n] is what the n-th inspection
    of the context finds.

    Then: local token estimates: the cache is invisible, the results fit their consumers. *)
From Stdlib Require Import ZArith Lia Bool Ascii String.
From stdpp Require Import base tactics option list strings gmap fin_maps sets.
From S2P Require Import Prelude Identifiers LimitPolicy Unicode Catalog Retry Metering Adapter TPM RoutePolicy RouteFilter.
Inductive estimate_error := ErrEstimateInvalid | ErrEstimateUnavailable | ErrEstimateContext (cause : ctx_error).

Record Tokenizer := { tk_Name : string; tk_Version : string; tk_Count : option ctx_error -> list Z -> result Z estimate_error }.

Definition byteTokenizer : Tokenizer :=
  {| tk_Name := "utf8-byte-bound"; tk_Version := "v1";
     tk_Count := fun ctx payload =>
       if Nat.eqb (length payload) 0 then Err ErrEstimateInvalid
       else match ctx with Some cause => Err (ErrEstimateContext cause) | None => Ok (Z.of_nat (length payload)) end |}.

(** ** The cache of digests *)
Record cacheItem := { ci_key : string; ci_tokens : Z }.

(** [items] maps a key to its element of [order], which holds that key once; it is kept as
    the set of its keys. The front of [order] is the last used element. *)
Record digestCache := { dc_maximum : Z; dc_items : gset string; dc_order : list cacheItem; dc_hits : Z; dc_misses : Z }.

Definition newDigestCache (maximum : Z) : digestCache :=
  {| dc_maximum := maximum; dc_items := ∅; dc_order := []; dc_hits := 0; dc_misses := 0 |}.

Definition without (key : string) (order : list cacheItem) : list cacheItem := filter (fun i => ci_key i <> key) order.
Definition element (key : string) (order : list cacheItem) : option cacheItem := head (filter (fun i => ci_key i = key) order).

Definition digest_get (cache : digestCache) (key : string) : digestCache * option Z :=
  if bool_decide (key ∈ dc_items cache) then
    match element key (dc_order cache) with
    | Some item =>
        ({| dc_maximum := dc_maximum cache; dc_items := dc_items cache; dc_order := item :: without key (dc_order cache);
            dc_hits := u64_add (dc_hits cache) 1; dc_misses := dc_misses cache |}, Some (ci_tokens item))
    | None => (cache, None)
    end
  else
    ({| dc_maximum := dc_maximum cache; dc_items := dc_items cache; dc_order := dc_order cache; dc_hits := dc_hits cache;
        dc_misses := u64_add (dc_misses cache) 1 |}, None).

Definition digest_put (cache : digestCache) (key : string) (tokens : Z) : digestCache :=
  let item := {| ci_key := key; ci_tokens := tokens |} in
  let keep items order := {| dc_maximum := dc_maximum cache; dc_items := items; dc_order := order; dc_hits := dc_hits cache; dc_misses := dc_misses cache |} in
  if bool_decide (key ∈ dc_items cache) then keep (dc_items cache) (item :: without key (dc_order cache))
  else
    let order := item :: dc_order cache in
    let items := {[key]} ∪ dc_items cache in
    if Z.of_nat (length order) <=? dc_maximum cache then keep items order
    else match last order with
         | Some oldest => keep (items ∖ {[ci_key oldest]}) (take (length order - 1) order)
         | None => keep items order
         end.

(** ** The estimator *)
Record Estimator := { es_tokenizer : Tokenizer; es_cache : digestCache }.

Definition DefaultMaximumEntries : Z := 4096.
Definition maximumCacheEntries : Z := 1000000.

Definition estimate_metadata_for (tokenizer : Tokenizer) (physicalModel : string) (version : Z) (protocol : string) : UsageEstimateMetadata :=
  {| est_Estimated := true; est_Tokenizer := tk_Name tokenizer; est_TokenizerVersion := tk_Version tokenizer; est_PhysicalModel := physicalModel;
     est_DeploymentVersion := version; est_ProviderProtocolVersion := protocol |}.

Definition NewEstimator (maximumEntries : Z) (tokenizer : option Tokenizer) : result Estimator estimate_error :=
  let maximumEntries := if maximumEntries =? 0 then DefaultMaximumEntries else maximumEntries in
  ensure ((1 <=? maximumEntries) && (maximumEntries <=? maximumCacheEntries)) else ErrEstimateInvalid in
  let tokenizer := default byteTokenizer tokenizer in
  ensure (UsageEstimateMetadata_Validate (estimate_metadata_for tokenizer "validation-model" 1 "validation-v1")) else ErrEstimateInvalid in
  Ok {| es_tokenizer := tokenizer; es_cache := newDigestCache maximumEntries |}.

Definition deployment_metadata (e : Estimator) (d : Deployment) : UsageEstimateMetadata :=
  estimate_metadata_for (es_tokenizer e) (dep_PhysicalModel d) (aud_Version (dep_Audit d)) (ProviderProtocolVersion (dep_Capabilities d)).

Record inputEnvelope := {
  ine_Messages : list Message; ine_Temperature : option float64; ine_TopP : option float64; ine_MaxOutputTokens : option Z; ine_Stop : list string;
  ine_Tools : list ToolDefinition; ine_ToolChoice : option ToolChoice; ine_ResponseFormat : option ResponseFormat; ine_ProviderOptions : RawMessage }.

Definition inputEnvelopeFrom (request : NormalizedRequest) : inputEnvelope :=
  {| ine_Messages := req_Messages request; ine_Temperature := req_Temperature request; ine_TopP := req_TopP request;
     ine_MaxOutputTokens := req_MaxOutputTokens request; ine_Stop := req_Stop request; ine_Tools := req_Tools request;
     ine_ToolChoice := req_ToolChoice request; ine_ResponseFormat := req_ResponseFormat request; ine_ProviderOptions := req_ProviderOptions request |}.

Definition outputEnvelope := list NormalizedChoice.
Definition outputEnvelopeFrom (response : NormalizedResponse) : outputEnvelope := resp_Choices response.

Section Estimates.
Context (url_Parse : string -> option URL) (marshal_input : inputEnvelope -> option (list Z)) (marshal_output : outputEnvelope -> option (list Z))
        (marshal_key : UsageEstimateMetadata -> string -> list Z -> option (list Z)) (sha256 : list Z -> string).

Definition with_cache (e : Estimator) (cache : digestCache) : Estimator := {| es_tokenizer := es_tokenizer e; es_cache := cache |}.

(** The inspections of the context are those numbered [n], [n+1] (by the tokenizer) and [n+2]. *)
Definition estimator_count (e : Estimator) (ctx : nat -> option ctx_error) (n : nat) (metadata : UsageEstimateMetadata) (direction : string) (payload : list Z)
    : Estimator * result Z estimate_error :=
  match ctx n with
  | Some cause => (e, Err (ErrEstimateContext cause))
  | None =>
      match marshal_key metadata direction payload with
      | None => (e, Err ErrEstimateUnavailable)
      | Some material =>
          let '(cache, hit) := digest_get (es_cache e) (sha256 material) in
          let e := with_cache e cache in
          match hit with
          | Some tokens => (e, Ok tokens)
          | None =>
              match tk_Count (es_tokenizer e) (ctx (n + 1)%nat) payload with
              | Err _ => (e, Err ErrEstimateUnavailable)
              | Ok tokens =>
                  if (tokens =? 0) || (MaximumValue <? tokens) then (e, Err ErrEstimateUnavailable)
                  else match ctx (n + 2)%nat with
                       | Some cause => (e, Err (ErrEstimateContext cause))
                       | None => (with_cache e (digest_put (es_cache e) (sha256 material) tokens), Ok tokens)
                       end
              end
          end
      end
  end.

Definition EstimateInput (e : Estimator) (ctx : nat -> option ctx_error) (d : Deployment) (request : NormalizedRequest)
    : Estimator * result (Z * UsageEstimateMetadata) estimate_error :=
  if negb (Deployment_Validate url_Parse d) || negb (NormalizedRequest_Validate request) then (e, Err ErrEstimateInvalid)
  else
    let metadata := deployment_metadata e d in
    if negb (UsageEstimateMetadata_Validate metadata) then (e, Err ErrEstimateInvalid)
    else match marshal_input (inputEnvelopeFrom request) with
    | None => (e, Err ErrEstimateUnavailable)
    | Some payload =>
        let '(e, r) := estimator_count e ctx 0 metadata "input" payload in
        match r with
        | Err err => (e, Err err)
        | Ok tokens =>
            if (tokens =? 0) || (MaxContextTokens (dep_Capabilities d) <? tokens) || (MaximumValue <? tokens)
            then (e, Err ErrEstimateUnavailable) else (e, Ok (tokens, metadata))
        end
    end.

(** [adapter.Tokens(int64(n))] *)
Definition Tokens (n : Z) : TokenCount := {| tc_Value := i64 n; tc_Present := true |}.
Definition no_tokens : TokenCount := {| tc_Value := 0; tc_Present := false |}.

Definition estimated_usage (input output : TokenCount) (metadata : UsageEstimateMetadata) : NormalizedUsage :=
  {| u_InputTokens := input; u_OutputTokens := output; u_CacheReadTokens := no_tokens; u_CacheWriteTokens := no_tokens;
     u_ReasoningTokens := no_tokens; u_AudioInputTokens := no_tokens; u_AudioOutputTokens := no_tokens; u_Source := SourceEstimated;
     u_Complete := false; u_Estimate := Some metadata; u_EvidenceBytes := 0; u_UnmappedFields := [] |}.

Definition EstimateUsage (e : Estimator) (ctx : nat -> option ctx_error) (d : Deployment) (request : NormalizedRequest) (response : option NormalizedResponse)
    : Estimator * result NormalizedUsage estimate_error :=
  let '(e, input) := EstimateInput e ctx d request in
  match input with
  | Err err => (e, Err err)
  | Ok (inputTokens, metadata) =>
      match response with
      | None => (e, Ok (estimated_usage (Tokens inputTokens) no_tokens metadata))
      | Some response =>
          if negb (NormalizedResponse_Validate response) then (e, Err ErrEstimateInvalid)
          else match marshal_output (outputEnvelopeFrom response) with
          | None => (e, Err ErrEstimateUnavailable)
          | Some payload =>
              let '(e, output) := estimator_count e ctx 3 metadata "output" payload in
              match output with
              | Err err => (e, Err err)
              | Ok outputTokens =>
                  let maximumContext := MaxContextTokens (dep_Capabilities d) in
                  let maximumOutput := MaxOutputTokens (dep_Capabilities d) in
                  if (outputTokens =? 0) || (maximumOutput <? outputTokens) || (MaximumValue <? outputTokens) ||
                     (u64_sub maximumContext outputTokens <? inputTokens)
                  then (e, Err ErrEstimateUnavailable)
                  else
                    let usage := estimated_usage (Tokens inputTokens) (Tokens outputTokens) metadata in
                    if negb (NormalizedUsage_Validate usage) then (e, Err ErrEstimateUnavailable) else (e, Ok usage)
              end
          end
      end
  end.

(** ** The port of the token limiter (limits.go) *)
Definition BindInput (e : Estimator) (d : Deployment) : result (Estimator * Deployment) estimate_error :=
  ensure (Deployment_Validate url_Parse d) else ErrEstimateInvalid in Ok (e, d).

Definition port_error (err : estimate_error) : tpm_error :=
  match err with
  | ErrEstimateContext cause => ErrTPMContext cause
  | ErrEstimateInvalid => ErrEstimator "local token estimate input is invalid"
  | ErrEstimateUnavailable => ErrEstimator "local token estimate is unavailable"
  end.

(** A call whose context is cancelled before it starts, or stays live. *)
Definition bound_EstimateInputTokens (bound : Estimator * Deployment) (ctx : Context) (request : NormalizedRequest)
    : (Estimator * Deployment) * result InputTokenEstimate tpm_error :=
  match ctx with
  | ctx_nil => (bound, Err (port_error ErrEstimateInvalid))
  | _ =>
      let '(e, r) := EstimateInput bound.1 (fun _ => match ctx with ctx_done cause => Some cause | _ => None end) bound.2 request in
      ((e, bound.2),
       match r with
       | Err err => Err (port_error err)
       | Ok (tokens, metadata) =>
           Ok {| ie_Tokens := tokens; ie_Tokenizer := est_Tokenizer metadata; ie_TokenizerVersion := est_TokenizerVersion metadata;
                 ie_PhysicalModel := est_PhysicalModel metadata; ie_DeploymentVersion := est_DeploymentVersion metadata;
                 ie_ProviderProtocolVersion := est_ProviderProtocolVersion metadata; ie_Estimated := true |}
       end)
  end.

#[export] Instance BoundInputEstimator : InputTokenEstimator (Estimator * Deployment) := bound_EstimateInputTokens.
End Estimates.

(** ** Local token estimates: the cache is invisible, the results fit their consumers *)
(** ** The cache *)
Record cache_ok (c : digestCache) : Prop := {
  co_keys : NoDup (ci_key <$> dc_order c);
  co_items : dc_items c = list_to_set (ci_key <$> dc_order c);
  co_bound : Z.of_nat (length (dc_order c)) <= dc_maximum c }.

Lemma new_cache_ok maximum : 0 <= maximum -> cache_ok (newDigestCache maximum).
Proof. intros H. split; [constructor|done|exact H]. Qed.

Lemma without_keys key order : ci_key <$> without key order = filter (fun k => k <> key) (ci_key <$> order).
Proof. induction order as [|i order IH]; [done|]. unfold without in *. rewrite filter_cons, fmap_cons, filter_cons. destruct (decide _); [rewrite fmap_cons; by f_equal|done]. Qed.

(** Moving an element to the front, with a new value, keeps the keys. *)
Lemma move_to_front c item : cache_ok c -> ci_key item ∈ dc_items c ->
  let order := item :: without (ci_key item) (dc_order c) in
  NoDup (ci_key <$> order) /\ list_to_set (ci_key <$> order) = dc_items c /\ length order = length (dc_order c).
Proof.
  intros [Hk Hi Hb] Hin order. unfold order. rewrite fmap_cons, without_keys. set (keys := ci_key <$> dc_order c) in *.
  assert (Hne : NoDup (ci_key item :: filter (fun k => k <> ci_key item) keys)).
  { constructor; [rewrite list_elem_of_filter; tauto|]. by apply NoDup_filter. }
  assert (Hset : list_to_set (ci_key item :: filter (fun k => k <> ci_key item) keys) = dc_items c).
  { rewrite Hi in Hin |- *. apply elem_of_list_to_set in Hin. apply set_eq. intros k. rewrite !elem_of_list_to_set, elem_of_cons, list_elem_of_filter.
    destruct (decide (k = ci_key item)); [|tauto]. subst. tauto. }
  split; [done|]. split; [done|]. cbn [length]. rewrite <- (length_fmap ci_key (without _ _)), without_keys, <- (length_fmap ci_key (dc_order c)). fold keys.
  change (length (ci_key item :: filter (fun k => k <> ci_key item) keys) = length keys).
  rewrite <- (size_list_to_set (C := gset string) _ Hne), <- (size_list_to_set (C := gset string) _ Hk). fold keys. by rewrite Hset, Hi.
Qed.

Lemma element_spec key order : match element key order with Some i => i ∈ order /\ ci_key i = key | None => key ∉ ci_key <$> order end.
Proof.
  unfold element. destruct (filter (fun i => ci_key i = key) order) as [|i l] eqn:E; simpl.
  - intros (i & -> & Hi)%list_elem_of_fmap. assert (i ∈ filter (fun j => ci_key j = ci_key i) order) as H by (by apply list_elem_of_filter). rewrite E in H. by apply elem_of_nil in H.
  - assert (i ∈ filter (fun i => ci_key i = key) order) as [? ?]%list_elem_of_filter by (rewrite E; left). done.
Qed.

Lemma get_ok c key c' hit : cache_ok c -> digest_get c key = (c', hit) ->
  cache_ok c' /\ (forall t, hit = Some t <-> {| ci_key := key; ci_tokens := t |} ∈ dc_order c) /\ dc_order c' ≡ₚ dc_order c /\ dc_maximum c' = dc_maximum c.
Proof.
  intros Hc. pose proof Hc as [Hk Hi Hb]. unfold digest_get. case_bool_decide as Hin.
  - pose proof (element_spec key (dc_order c)) as He. destruct (element key (dc_order c)) as [item|] eqn:E; [|exfalso; rewrite Hi in Hin; by apply elem_of_list_to_set in Hin].
    destruct He as [He <-]. intros [= <- <-]. destruct (move_to_front c item Hc Hin) as (H1 & H2 & H3). split; [split; cbn [dc_order dc_items dc_maximum]; [exact H1|by rewrite H2|by rewrite H3]|].
    assert (forall i, i ∈ dc_order c -> ci_key i = ci_key item -> i = item) as Huniq.
    { intros i Hi' E'. apply list_elem_of_lookup in Hi' as [n Hn], He as [m Hm]. assert (n = m) as ->; [|congruence]. apply (NoDup_lookup _ n m (ci_key item) Hk); rewrite list_lookup_fmap; [rewrite Hn; simpl; by rewrite E'|by rewrite Hm]. }
    split; [|split; [|done]].
    + intros t. split; [intros [= <-]; by destruct item|]. intros H. f_equal. by rewrite <- (Huniq _ H eq_refl).
    + cbn [dc_order]. apply NoDup_Permutation; [by apply NoDup_fmap_1 in H1|by apply NoDup_fmap_1 in Hk|]. intros i. rewrite elem_of_cons. unfold without. rewrite list_elem_of_filter.
      destruct (decide (ci_key i = ci_key item)) as [Ei|]; [|split; [by intros [->|[_ ?]]|tauto]]. split; [by intros [->|[? _]]|]. intros H. left. by apply Huniq.
  - intros [= <- <-]. split; [by split|]. split; [|done]. intros t. split; [done|]. intros H. exfalso. apply Hin. rewrite Hi. apply elem_of_list_to_set.
    by apply (list_elem_of_fmap_2 ci_key) in H.
Qed.

Lemma digest_put_ok c key tokens : cache_ok c -> 1 <= dc_maximum c ->
  cache_ok (digest_put c key tokens) /\ dc_maximum (digest_put c key tokens) = dc_maximum c /\
  (forall i, i ∈ dc_order (digest_put c key tokens) -> i = {| ci_key := key; ci_tokens := tokens |} \/ i ∈ dc_order c).
Proof.
  intros Hc Hm. pose proof Hc as [Hk Hi Hb]. set (item := {| ci_key := key; ci_tokens := tokens |}). unfold digest_put. fold item. case_bool_decide as Hin.
  - destruct (move_to_front c item Hc Hin) as (H1 & H2 & H3). split; [split; cbn [dc_order dc_items dc_maximum]; [exact H1|exact (eq_sym H2)|change key with (ci_key item); by rewrite H3]|]. split; [done|].
    cbn [dc_order]. intros i [->|Hi']%elem_of_cons; [by left|right]. unfold without in Hi'. by apply list_elem_of_filter in Hi' as [_ ?].
  - assert (NoDup (ci_key <$> item :: dc_order c)) as Hnd.
    { rewrite fmap_cons. constructor; [|done]. intros H. apply Hin. rewrite Hi. by apply elem_of_list_to_set. }
    assert ({[key]} ∪ dc_items c = list_to_set (ci_key <$> item :: dc_order c)) as Hset by (rewrite Hi; done).
    destruct (Z.of_nat (length (item :: dc_order c)) <=? dc_maximum c) eqn:El.
    + apply Z.leb_le in El. split; [by split|]. split; [done|]. intros i. apply elem_of_cons.
    + apply Z.leb_gt in El. destruct (last (item :: dc_order c)) as [oldest|] eqn:Elast; [|by apply last_None in Elast].
      apply last_Some in Elast as [l' El']. cbv zeta. rewrite El' in Hnd, Hset, El |- *. rewrite length_app, Nat.add_sub, take_app_length in *. rewrite fmap_app in Hnd, Hset.
      apply NoDup_app in Hnd as (Hnd & Hdis & _). split; [split; cbn [dc_order dc_items dc_maximum]|split; [done|]].
      * done.
      * assert (ci_key oldest ∉ ci_key <$> l') as Hout by (intros H; apply (Hdis _ H); left). rewrite Hset, list_to_set_app_L. cbn [fmap list_fmap list_to_set]. set_solver.
      * apply (f_equal length) in El'. rewrite length_app in El'. simpl in El'. lia.
      * cbn [dc_order]. intros i Hi'. assert (i ∈ l' ++ [oldest]) as H by (apply elem_of_app; by left). rewrite <- El' in H. by apply elem_of_cons in H.
Qed.

(** ** Caching is invisible *)
Section Transparency.
Context (url_Parse : string -> option URL) (marshal_input : inputEnvelope -> option (list Z)) (marshal_output : outputEnvelope -> option (list Z))
        (marshal_key : UsageEstimateMetadata -> string -> list Z -> option (list Z)) (sha256 : list Z -> string).

(** The JSON of a cache identity contains the payload. *)
Definition identity_holds_payload : Prop :=
  forall m d p m' d' p' material, marshal_key m d p = Some material -> marshal_key m' d' p' = Some material -> p = p'.

(** Implementations of Tokenizer are deterministic: the context only decides whether they answer. *)
Definition deterministic (t : Tokenizer) : Prop := forall ctx payload n, tk_Count t ctx payload = Ok n -> tk_Count t None payload = Ok n.

(** An entry was counted from a payload of its digest. *)
Definition genuine (t : Tokenizer) (i : cacheItem) : Prop :=
  exists m d payload material, marshal_key m d payload = Some material /\ ci_key i = sha256 material /\ tk_Count t None payload = Ok (ci_tokens i) /\
    1 <= ci_tokens i <= MaximumValue.

Record estimator_ok (e : Estimator) : Prop := {
  eo_cache : cache_ok (es_cache e);
  eo_maximum : 1 <= dc_maximum (es_cache e);
  eo_genuine : Forall (genuine (es_tokenizer e)) (dc_order (es_cache e)) }.

Lemma new_estimator_ok maximum tokenizer e : NewEstimator maximum tokenizer = Ok e -> estimator_ok e.
Proof using Type.
  unfold NewEstimator. set (m := if maximum =? 0 then DefaultMaximumEntries else maximum). destruct ((1 <=? m) && (m <=? maximumCacheEntries)) eqn:E; [|done].
  destruct (UsageEstimateMetadata_Validate _); [|done]. intros [= <-]. prop_hyps. split; cbn [es_cache es_tokenizer]; [apply new_cache_ok; lia|done|constructor].
Qed.

(** The count without a cache. *)
Definition reference_count (t : Tokenizer) (payload : list Z) : result Z estimate_error :=
  match tk_Count t None payload with
  | Ok tokens => if (tokens =? 0) || (MaximumValue <? tokens) then Err ErrEstimateUnavailable else Ok tokens
  | Err _ => Err ErrEstimateUnavailable
  end.

Definition collision : Prop := exists a b, a <> b /\ sha256 a = sha256 b.

(** Tokenizers return uint64. *)
Definition unsigned (t : Tokenizer) : Prop := forall ctx payload n, tk_Count t ctx payload = Ok n -> 0 <= n.

Lemma count_ok e ctx n m d payload e' r : deterministic (es_tokenizer e) -> unsigned (es_tokenizer e) -> estimator_ok e ->
  estimator_count marshal_key sha256 e ctx n m d payload = (e', r) -> estimator_ok e' /\ es_tokenizer e' = es_tokenizer e.
Proof using Type.
  intros Hdet Huns Hok. unfold estimator_count. destruct (ctx n); [by intros [= <- <-]|]. destruct (marshal_key m d payload) as [material|] eqn:Em; [|by intros [= <- <-]].
  destruct (digest_get (es_cache e) (sha256 material)) as [c hit] eqn:Eg. destruct Hok as [Hc Hm Hg]. destruct (get_ok _ _ _ _ Hc Eg) as (Hc' & _ & Hperm & Hmax).
  assert (estimator_ok (with_cache e c)) as Hok' by (split; [done|cbn [with_cache es_cache]; by rewrite Hmax|cbn [with_cache es_cache es_tokenizer]; by rewrite Hperm]).
  destruct hit as [t|]; [by intros [= <- <-]|]. cbn [with_cache es_tokenizer es_cache]. destruct (tk_Count (es_tokenizer e) (ctx (n + 1)%nat) payload) as [t|] eqn:Et; [|by intros [= <- <-]].
  destruct ((t =? 0) || (MaximumValue <? t)) eqn:Eb; [by intros [= <- <-]|]. destruct (ctx (n + 2)%nat); [by intros [= <- <-]|]. intros [= <- <-]. split; [|done].
  destruct Hok' as [Hc2 Hm2 Hg2]. cbn [with_cache es_cache es_tokenizer] in *. destruct (digest_put_ok c (sha256 material) t Hc2 Hm2) as (Hp & Hpm & Hpi).
  split; cbn [with_cache es_cache es_tokenizer]; [done|by rewrite Hpm|]. apply Forall_forall. intros i [->|Hi]%Hpi; [|rewrite Forall_forall in Hg2; by apply Hg2].
  pose proof (Huns _ _ _ Et). prop_hyps. exists m, d, payload, material. cbn [ci_key ci_tokens]. split_and!; [done|done|by eapply Hdet|lia|lia].
Qed.

(** A context that is never done. *)
Definition live (_ : nat) : option ctx_error := None.

Lemma count_transparent e m d payload material : identity_holds_payload -> deterministic (es_tokenizer e) -> estimator_ok e -> marshal_key m d payload = Some material ->
  forall n, (estimator_count marshal_key sha256 e live n m d payload).2 = reference_count (es_tokenizer e) payload \/ collision.
Proof using Type.
  intros Hid Hdet [Hc Hm Hg] Em n. unfold estimator_count, reference_count, live. rewrite Em. destruct (digest_get (es_cache e) (sha256 material)) as [c hit] eqn:Eg.
  destruct (get_ok _ _ _ _ Hc Eg) as (_ & Hhit & _ & _). destruct hit as [t|].
  - rewrite Forall_forall in Hg. destruct (Hg _ (proj1 (Hhit t) eq_refl)) as (m' & d' & p' & material' & Em' & Ek & Et & Hb). cbn [ci_key ci_tokens] in *.
    destruct (decide (material = material')) as [->|Hne]; [left|right; by exists material, material'].
    rewrite (Hid _ _ _ _ _ _ _ Em Em'), Et. cbn [snd]. destruct ((t =? 0) || (MaximumValue <? t)) eqn:E; [|done]. apply orb_true_iff in E as [E|E]; prop_hyps; lia.
  - left. cbn [with_cache es_tokenizer]. destruct (tk_Count (es_tokenizer e) None payload) as [t|]; [|done]. by destruct (_ || _).
Qed.

Local Abbreviation input e ctx d q := (EstimateInput url_Parse marshal_input marshal_key sha256 e ctx d q).
Local Abbreviation usage e ctx d q r := (EstimateUsage url_Parse marshal_input marshal_output marshal_key sha256 e ctx d q r).
Local Abbreviation count e ctx n m dir p := (estimator_count marshal_key sha256 e ctx n m dir p).

Lemma input_ok e ctx d q : deterministic (es_tokenizer e) -> unsigned (es_tokenizer e) -> estimator_ok e ->
  estimator_ok (input e ctx d q).1 /\ es_tokenizer (input e ctx d q).1 = es_tokenizer e.
Proof using Type.
  intros Hd Hu Hok. unfold EstimateInput. destruct (_ || _); [done|]. destruct (negb _); [done|]. destruct (marshal_input _) as [payload|]; [|done].
  destruct (count e ctx 0%nat _ _ payload) as [e1 r] eqn:E. apply count_ok in E as [? ?]; [|done..]. destruct r; [by destruct (_ || _)|done].
Qed.

Lemma usage_ok e ctx d q r : deterministic (es_tokenizer e) -> unsigned (es_tokenizer e) -> estimator_ok e ->
  estimator_ok (usage e ctx d q r).1 /\ es_tokenizer (usage e ctx d q r).1 = es_tokenizer e.
Proof using Type.
  intros Hd Hu Hok. unfold EstimateUsage. destruct (input_ok e ctx d q Hd Hu Hok) as [Hok1 Ht1]. destruct (input e ctx d q) as [e1 r1]. cbn [fst] in *.
  destruct r1 as [[t m]|]; [|done]. destruct r as [response|]; [|done]. destruct (negb _); [done|]. destruct (marshal_output _) as [payload|]; [|done].
  destruct (count e1 ctx 3%nat _ _ payload) as [e2 r2] eqn:E. apply count_ok in E as [Hok2 Ht2]; [|by rewrite Ht1|by rewrite Ht1|done]. rewrite Ht1 in Ht2.
  destruct r2; [|done]. destruct (_ || _); [done|]. by destruct (negb _).
Qed.

Section Same.
Context (e1 e2 : Estimator) (Hid : identity_holds_payload) (Ht : es_tokenizer e2 = es_tokenizer e1) (Hd : deterministic (es_tokenizer e1)) (Hu : unsigned (es_tokenizer e1))
        (Hok1 : estimator_ok e1) (Hok2 : estimator_ok e2).

Lemma count_same n m dir payload : (count e1 live n m dir payload).2 = (count e2 live n m dir payload).2 \/ collision.
Proof using All.
  destruct (marshal_key m dir payload) as [material|] eqn:Em; [|left; unfold estimator_count; by rewrite Em].
  destruct (count_transparent e1 m dir payload material Hid Hd Hok1 Em n) as [H1|?]; [|by right].
  destruct (count_transparent e2 m dir payload material Hid ltac:(by rewrite Ht) Hok2 Em n) as [H2|?]; [|by right]. left. by rewrite H1, H2, Ht.
Qed.

Lemma input_same d q : (input e1 live d q).2 = (input e2 live d q).2 \/ collision.
Proof using All.
  unfold EstimateInput, deployment_metadata. rewrite Ht. destruct (_ || _); [by left|]. destruct (negb _); [by left|]. destruct (marshal_input _) as [payload|]; [|by left].
  set (m := estimate_metadata_for _ _ _ _). destruct (count_same 0%nat m "input" payload) as [H|?]; [left|by right].
  destruct (count e1 live 0%nat m "input" payload) as [e1' r1], (count e2 live 0%nat m "input" payload) as [e2' r2]. cbn [snd] in H. subst r2.
  destruct r1; [by destruct (_ || _)|done].
Qed.
End Same.

Lemma usage_same e1 e2 d q r : identity_holds_payload -> es_tokenizer e2 = es_tokenizer e1 -> deterministic (es_tokenizer e1) -> unsigned (es_tokenizer e1) ->
  estimator_ok e1 -> estimator_ok e2 -> (usage e1 live d q r).2 = (usage e2 live d q r).2 \/ collision.
Proof using Type.
  intros Hid Ht Hd Hu Hok1 Hok2. destruct (input_same e1 e2 Hid Ht Hd Hu Hok1 Hok2 d q) as [H|?]; [|by right]. unfold EstimateUsage.
  destruct (input_ok e1 live d q Hd Hu Hok1) as [Hk1 Ht1]. destruct (input_ok e2 live d q ltac:(by rewrite Ht) ltac:(by rewrite Ht) Hok2) as [Hk2 Ht2].
  destruct (input e1 live d q) as [f1 r1], (input e2 live d q) as [f2 r2]. cbn [fst snd] in *. subst r2. destruct r1 as [[t m]|]; [|by left].
  destruct r as [response|]; [|by left]. destruct (negb _); [by left|]. destruct (marshal_output _) as [payload|]; [|by left].
  destruct (count_same f1 f2 Hid ltac:(congruence) ltac:(by rewrite Ht1) ltac:(by rewrite Ht1) Hk1 Hk2 3%nat m "output" payload) as [H|?]; [left|by right].
  destruct (count f1 live 3%nat m "output" payload) as [g1 s1], (count f2 live 3%nat m "output" payload) as [g2 s2]. cbn [snd] in H. subst s2.
  destruct s1; [|done]. destruct (_ || _); [done|]. by destruct (negb _).
Qed.

(** One call of the estimator, under whatever context. *)
Inductive estimates : Estimator -> Estimator -> Prop :=
| estimates_input e ctx d q : estimates e (input e ctx d q).1
| estimates_usage e ctx d q r : estimates e (usage e ctx d q r).1.

(** The cache of local estimates is bounded and invisible. After any history of
    estimates, also cancelled and failing ones, the cache holds at most its configured number of
    digests, each once, and an estimate is the one that a new estimator would compute, or two
    different contents with the same SHA-256 digest have been found. *)
Theorem estimates_do_not_depend_on_the_cache maximum tokenizer e0 e d q r :
  identity_holds_payload -> deterministic (default byteTokenizer tokenizer) -> unsigned (default byteTokenizer tokenizer) ->
  NewEstimator maximum tokenizer = Ok e0 -> rtc estimates e0 e ->
  (NoDup (ci_key <$> dc_order (es_cache e)) /\ Z.of_nat (length (dc_order (es_cache e))) <= dc_maximum (es_cache e)) /\
  ((usage e live d q r).2 = (usage e0 live d q r).2 \/ collision).
Proof using Type.
  intros Hid Hd Hu Hnew Hrun. assert (es_tokenizer e0 = default byteTokenizer tokenizer) as Ht0.
  { unfold NewEstimator in Hnew. destruct (_ && _); [|done]. destruct (UsageEstimateMetadata_Validate _); [|done]. by injection Hnew as <-. }
  pose proof (new_estimator_ok _ _ _ Hnew) as Hok0. rewrite <- Ht0 in Hd, Hu.
  assert (estimator_ok e /\ es_tokenizer e = es_tokenizer e0) as [Hok Ht].
  { clear Hnew Ht0. induction Hrun as [|e0 e1 e2 Hstep _ IH]; [done|].
    assert (estimator_ok e1 /\ es_tokenizer e1 = es_tokenizer e0) as [Hok1 Ht1] by (destruct Hstep; [by apply input_ok|by apply usage_ok]).
    rewrite <- Ht1. apply IH; by rewrite ?Ht1. }
  split; [by destruct Hok as [[? _ ?] _ _]|]. apply usage_same; by rewrite ?Ht.
Qed.

(** ** What an estimate promises *)
Lemma count_bounds e ctx n m dir payload e' t : unsigned (es_tokenizer e) -> estimator_ok e -> count e ctx n m dir payload = (e', Ok t) -> 1 <= t <= MaximumValue.
Proof using Type.
  intros Hu [Hc _ Hg]. unfold estimator_count. destruct (ctx n); [done|]. destruct (marshal_key m dir payload) as [material|]; [|done].
  destruct (digest_get (es_cache e) (sha256 material)) as [c hit] eqn:Eg. destruct (get_ok _ _ _ _ Hc Eg) as (_ & Hhit & _). destruct hit as [t'|].
  - intros [= _ <-]. rewrite Forall_forall in Hg. by destruct (Hg _ (proj1 (Hhit t') eq_refl)) as (? & ? & ? & ? & _ & _ & _ & ?).
  - cbn [with_cache es_tokenizer]. destruct (tk_Count _ _ payload) as [t'|] eqn:Et; [|done]. pose proof (Hu _ _ _ Et). destruct (_ || _) eqn:Eb; [done|].
    destruct (ctx (n + 2)%nat); [done|]. intros [= _ <-]. prop_hyps. lia.
Qed.

(** The facts of a deployment that an estimate carries. *)
Definition bound_to (e : Estimator) (d : Deployment) (m : UsageEstimateMetadata) : Prop := m = deployment_metadata e d /\ UsageEstimateMetadata_Validate m = true.

Lemma input_facts e ctx d q e' t m : unsigned (es_tokenizer e) -> estimator_ok e -> input e ctx d q = (e', Ok (t, m)) ->
  Deployment_Validate url_Parse d = true /\ bound_to e d m /\ 1 <= t <= MaxContextTokens (dep_Capabilities d) /\ t <= MaximumValue.
Proof using Type.
  intros Hu Hok. unfold EstimateInput. destruct (negb (Deployment_Validate url_Parse d) || _) eqn:Ev; [done|]. destruct (negb (UsageEstimateMetadata_Validate _)) eqn:Em; [done|]. destruct (marshal_input _) as [payload|]; [|done].
  destruct (count e ctx 0%nat _ _ payload) as [e1 r] eqn:Ec. destruct r as [t'|]; [|done]. apply count_bounds in Ec; [|done..].
  destruct ((t' =? 0) || _ || _) eqn:Eb; [done|]. intros E. injection E as _ <- <-. prop_hyps. split_and!; try done; lia.
Qed.

Lemma usage_validates input output m : UsageEstimateMetadata_Validate m = true -> 0 <= tc_Value input -> 0 <= tc_Value output ->
  (tc_Present input = false -> tc_Value input = 0) -> (tc_Present output = false -> tc_Value output = 0) ->
  NormalizedUsage_Validate (estimated_usage input output m) = true.
Proof using Type.
  intros Hm Hi Ho Hpi Hpo. unfold NormalizedUsage_Validate. cbn -[Z.ltb]. rewrite Hm. rewrite (proj2 (Z.ltb_ge (tc_Value input) 0) Hi), (proj2 (Z.ltb_ge (tc_Value output) 0) Ho).
  destruct (tc_Present input), (tc_Present output); rewrite ?(Hpi eq_refl), ?(Hpo eq_refl); done.
Qed.

Lemma tokens_value t : 1 <= t <= MaximumValue -> tc_Value (Tokens t) = t.
Proof using Type. intros H. unfold Tokens. cbn [tc_Value]. apply i64_small. unfold MaximumValue, i64_min, i64_max in *. lia. Qed.

(** Every local estimate fits its consumers. An estimate passes the validation of
    the usage it is stored as, is marked as estimated and never complete, names the tokenizer
    and the deployment it was made for, and counts within the deployment's limits: the input
    alone, and with a response the output and their sum. *)
Theorem estimates_fit_the_deployment e ctx d q r e' u :
  unsigned (es_tokenizer e) -> deterministic (es_tokenizer e) -> estimator_ok e -> usage e ctx d q r = (e', Ok u) ->
  NormalizedUsage_Validate u = true /\ u_Source u = SourceEstimated /\ u_Complete u = false /\
  (exists m, u_Estimate u = Some m /\ est_Estimated m = true /\ bound_to e d m) /\
  1 <= tc_Value (u_InputTokens u) <= MaxContextTokens (dep_Capabilities d) /\
  match r with
  | None => tc_Present (u_OutputTokens u) = false
  | Some _ => 1 <= tc_Value (u_OutputTokens u) <= MaxOutputTokens (dep_Capabilities d) /\
              tc_Value (u_InputTokens u) + tc_Value (u_OutputTokens u) <= MaxContextTokens (dep_Capabilities d)
  end.
Proof using Type.
  intros Hu Hdet Hok. unfold EstimateUsage. destruct (input_ok e ctx d q Hdet Hu Hok) as [Hok1 Ht1]. destruct (input e ctx d q) as [e1 r1] eqn:Ei. cbn [fst] in *.
  destruct r1 as [[t m]|]; [|done]. destruct (input_facts _ _ _ _ _ _ _ Hu Hok Ei) as (Hdv & Hm & Ht & Htm). pose proof (tokens_value t ltac:(lia)) as Hv.
  assert (exists m', Some m = Some m' /\ est_Estimated m' = true /\ bound_to e d m') as Hmeta by (exists m; split; [done|]; split; [destruct Hm as [Hm _]; by rewrite Hm|exact Hm]).
  destruct r as [response|].
  - destruct (negb _); [done|]. destruct (marshal_output _) as [payload|]; [|done]. destruct (count e1 ctx 3%nat m "output" payload) as [e2 r2] eqn:Ec.
    destruct r2 as [o|]; [|done]. apply count_bounds in Ec; [|by rewrite Ht1|done]. destruct (_ || _) eqn:Eb; [done|]. destruct (negb _) eqn:Eu; [done|]. intros [= _ <-].
    cbn [estimated_usage u_Source u_Complete u_Estimate u_InputTokens u_OutputTokens]. rewrite Hv, (tokens_value o Ec). prop_hyps.
    assert (MaxOutputTokens (dep_Capabilities d) <= MaxContextTokens (dep_Capabilities d)) as Hcap.
    { unfold Deployment_Validate, CapabilitySet_Validate in Hdv. prop_hyps. done. }
    assert (u64_sub (MaxContextTokens (dep_Capabilities d)) o <= MaxContextTokens (dep_Capabilities d) - o) as Hsub.
    { unfold u64_sub, u64. apply Z.mod_le; lia. }
    split_and!; try done; lia.
  - intros [= _ <-]. cbn [estimated_usage u_Source u_Complete u_Estimate u_InputTokens u_OutputTokens]. rewrite Hv. split_and!; try done; try lia.
    apply usage_validates; [by destruct Hm|rewrite Hv; lia|done..].
Qed.
End Transparency.

(** ** Concrete instances *)
Module EstimateDemo.
Definition marshal_in (e : inputEnvelope) : option (list Z) := Some (bytes_of "{messages:[]}").
Definition marshal_out (e : outputEnvelope) : option (list Z) := Some (bytes_of "{choices:[]}").
Definition marshal_id (m : UsageEstimateMetadata) (d : string) (p : list Z) : option (list Z) := Some p.
Definition digest (l : list Z) : string := foldr (fun z s => String (ascii_of_nat (Z.to_nat z)) s) "" l.
Definition request : NormalizedRequest := demo_chat_request.
Definition fresh : Estimator := {| es_tokenizer := byteTokenizer; es_cache := newDigestCache 2 |}.
Definition used : Estimator := (EstimateUsage demo_url marshal_in marshal_out marshal_id digest fresh live (cand_Deployment (demo_candidate demo_d1 1 1)) request None).1.
End EstimateDemo.

Lemma byteTokenizer_deterministic : deterministic byteTokenizer /\ unsigned byteTokenizer.
Proof. split; intros ctx payload n; simpl; destruct (Nat.eqb (length payload) 0); try done; destruct ctx; try done. intros [= <-]. lia. Qed.

Lemma estimates_do_not_depend_on_the_cache_witness :
  let usage e := (EstimateUsage demo_url EstimateDemo.marshal_in EstimateDemo.marshal_out EstimateDemo.marshal_id EstimateDemo.digest e live
                    (cand_Deployment (demo_candidate demo_d1 1 1)) EstimateDemo.request None).2 in
  length (dc_order (es_cache EstimateDemo.used)) = 1%nat /\ (usage EstimateDemo.used = usage EstimateDemo.fresh \/ collision EstimateDemo.digest).
Proof.
  split; [vm_compute; reflexivity|].
  apply (estimates_do_not_depend_on_the_cache demo_url EstimateDemo.marshal_in EstimateDemo.marshal_out EstimateDemo.marshal_id EstimateDemo.digest 2 None EstimateDemo.fresh).
  - intros m d p m' d' p' material [= ->] [= ->]. reflexivity.
  - apply byteTokenizer_deterministic.
  - apply byteTokenizer_deterministic.
  - vm_compute. reflexivity.
  - eapply rtc_l; [apply estimates_usage|apply rtc_refl].
Defined.

Lemma estimates_fit_the_deployment_witness : exists u,
  (EstimateUsage demo_url EstimateDemo.marshal_in EstimateDemo.marshal_out EstimateDemo.marshal_id EstimateDemo.digest EstimateDemo.fresh live
     (cand_Deployment (demo_candidate demo_d1 1 1)) EstimateDemo.request None).2 = Ok u /\ NormalizedUsage_Validate u = true.
Proof.
  destruct (EstimateUsage demo_url EstimateDemo.marshal_in EstimateDemo.marshal_out EstimateDemo.marshal_id EstimateDemo.digest EstimateDemo.fresh live
     (cand_Deployment (demo_candidate demo_d1 1 1)) EstimateDemo.request None) as [e' r] eqn:E.
  destruct r as [u|]; [|vm_compute in E; discriminate E]. exists u. split; [reflexivity|].
  apply (estimates_fit_the_deployment demo_url EstimateDemo.marshal_in EstimateDemo.marshal_out EstimateDemo.marshal_id EstimateDemo.digest EstimateDemo.fresh _ _ _ _ _ _
    (proj2 byteTokenizer_deterministic) (proj1 byteTokenizer_deterministic)) in E; [exact (proj1 E)|].
  apply (new_estimator_ok EstimateDemo.marshal_id EstimateDemo.digest 2 None). vm_compute. reflexivity.
Defined.
