(* ===== verification/GatewayExecutors.v ===== *)
(** * The executors of a provider call

    proxy/nonstream.go builds the adapter's request, sends it and normalizes the answer;
    gateway/passive_health.go observes the result, gateway/circuit_breaker.go guards the call
    with a permit. They are stacked in that order (cmd/gateway/main.go). What the call meets is
    the class [Upstream]; the passive window and the breaker are shared with other requests,
    which may change them while the provider works, so the executors reach them in the world
    ([Holds]) before and after the call. *)
From Stdlib Require Import ZArith Lia Bool Ascii String.
From stdpp Require Import base tactics option list strings gmap.
From S2P Require Import Prelude Identifiers Unicode Catalog RoutePolicy Retry Metering Execution Circuit PassiveHealth Adapter RouteFilter ApiError GatewayOutcome.
(** [ChatExecutor]: the response is what the code returns next to its error. *)
Class ChatExecutor (X : Type) := chat_Execute : X -> Selection -> NormalizedRequest -> X * (NormalizedResponse * option Failure).

Class Holds (X S : Type) := { held : X -> S; hold : X -> S -> X; held_hold : forall x s, held (hold x s) = s }.
Class Clock (X : Type) := read_clock : X -> X * Time.
Class HasContext (X : Type) := exec_context : X -> Context.

Definition empty_response : NormalizedResponse :=
  {| resp_ID := ""; resp_Model := ""; resp_Choices := []; resp_Usage := None; resp_ProviderRequestID := ""; resp_ObservedAt := 0 |}.

(** ** proxy/nonstream.go *)
Class Upstream (U : Type) := {
  (** [ctx.Err()] and, if it is set, [context.Cause(ctx)] *)
  up_context : U -> option (ctx_error * Failure);
  up_Build : U -> Catalog.Provider -> Deployment -> U * option Failure;
  (** [Ok false]: a nil request; a nil response or body *)
  up_BuildRequest : U -> NormalizedRequest -> U * result bool Failure;
  up_Do : U -> U * result bool Failure;
  up_ParseResponse : U -> U * result NormalizedResponse Failure }.

Definition ErrInvalidExecution : Sentinel := SentinelOther "proxy.ErrInvalidExecution".
Definition context_sentinel (e : ctx_error) : Sentinel := match e with Canceled => ContextCanceled | DeadlineExceeded => ContextDeadlineExceeded end.

Definition newExecutionError (kind : Sentinel) (cause : option Failure) : Failure :=
  match cause with None => Leaf kind | Some cause => Wrap [Leaf kind; cause] end.

(** [errors.Join] leaves nil errors out. *)
Definition cancellationExecutionError (ctx : option (ctx_error * Failure)) (observed : option Failure) : option Failure :=
  match ctx with
  | None => None
  | Some (e, cause) => Some (newExecutionError ProxyErrTransport (Some (Wrap (option_list observed ++ [Leaf (context_sentinel e); cause]))))
  end.

(** [None] is the error of an invalid detail. *)
Definition NewProviderError (detail : NormalizedError) : option Failure := if NormalizedError_Validate detail then Some (Provider detail) else None.

Definition normalizeExecutionError (err : Failure) : Failure :=
  match as_normalized err with
  | Some detail => match NewProviderError detail with Some failure => failure | None => newExecutionError ProxyErrProtocol (Some err) end
  | None => newExecutionError ProxyErrProtocol (Some err)
  end.

Section NonStream.
Context {U : Type} `{Upstream U} (url_Parse : string -> option URL).

(** An error after which the call's context decides how it is reported. *)
Definition upstream_failure (u : U) (observed : option Failure) (otherwise : Failure) : U * (NormalizedResponse * option Failure) :=
  (u, (empty_response, Some (default otherwise (cancellationExecutionError (up_context u) observed)))).

Definition NonStream_Execute (u : U) (selection : Selection) (request : NormalizedRequest) : U * (NormalizedResponse * option Failure) :=
  let candidate := sel_Candidate selection in
  match up_context u with
  | Some (e, _) => upstream_failure u (Some (Leaf (context_sentinel e))) (Leaf ProxyErrTransport)
  | None =>
      if req_Stream request || negb (NormalizedRequest_Validate request) || negb (RouteCandidate_Validate url_Parse candidate) ||
         negb (bool_decide (model_Name (cand_LogicalModel candidate) = req_LogicalModel request))
      then (u, (empty_response, Some (Leaf ErrInvalidExecution)))
      else
        let '(u, built) := up_Build u (cand_Provider candidate) (cand_Deployment candidate) in
        match built with
        | Some err => upstream_failure u (Some err) (newExecutionError ErrAdapterUnavailable (Some err))
        | None =>
            let '(u, prepared) := up_BuildRequest u request in
            match prepared with
            | Err err => upstream_failure u (Some err) (newExecutionError ErrAdapterUnavailable (Some err))
            | Ok false => upstream_failure u None (newExecutionError ErrAdapterUnavailable None)
            | Ok true =>
                let '(u, answered) := up_Do u in
                match answered with
                | Err err => upstream_failure u (Some err) (newExecutionError ProxyErrTransport (Some err))
                | Ok false => (u, (empty_response, Some (Leaf ProxyErrTransport)))
                | Ok true =>
                    let '(u, parsed) := up_ParseResponse u in
                    match parsed with
                    | Err err => upstream_failure u (Some err) (normalizeExecutionError err)
                    | Ok normalized =>
                        if negb (NormalizedResponse_Validate normalized) then (u, (empty_response, Some (Wrap [Leaf ProxyErrProtocol; Leaf (SentinelOther "adapter.NormalizedResponse")])))
                        else if negb (bool_decide (resp_Model normalized = dep_PhysicalModel (cand_Deployment candidate)))
                        then (u, (empty_response, Some (newExecutionError ProxyErrProtocol None)))
                        else (u, (normalized, None))
                    end
                end
            end
        end
  end.
End NonStream.

(** ** gateway/passive_health.go *)
Record ObservedChatExecutor (X : Type) := { oe_next : X; oe_failures : Z }.
Arguments oe_next {X} _.
Arguments oe_failures {X} _.

Section Observed.
Context {X : Type} `{!ChatExecutor X, !Holds X PassiveHealth, !Clock X}.

(** The clocks of the executor and of the window are read in turn. *)
Definition Observed_Execute (x : ObservedChatExecutor X) (selection : Selection) (request : NormalizedRequest)
    : ObservedChatExecutor X * (NormalizedResponse * option Failure) :=
  let '(next, startedAt) := read_clock (oe_next x) in
  let '(next, (response, executeErr)) := chat_Execute next selection request in
  let '(next, endedAt) := read_clock next in
  let totalLatency := if time_sub endedAt startedAt <? 0 then 0 else time_sub endedAt startedAt in
  let observation := {| obs_DeploymentID := dep_ID (cand_Deployment (sel_Candidate selection)); obs_Outcome := (passiveOutcome executeErr).1;
                        obs_ProviderStatus := (passiveOutcome executeErr).2; FirstTokenLatency := None; TotalLatency := totalLatency |} in
  let '(next, now) := read_clock next in
  let '(health, err) := Observe (held next) ctx_live observation now in
  ({| oe_next := hold next health; oe_failures := match err with Some _ => u64_add (oe_failures x) 1 | None => oe_failures x end |}, (response, executeErr)).

#[export] Instance ObservedExecutor : ChatExecutor (ObservedChatExecutor X) := Observed_Execute.
End Observed.

(** ** gateway/circuit_breaker.go *)
Record CircuitChatExecutor (X : Type) := { ce_next : X; ce_failures : Z }.
Arguments ce_next {X} _.
Arguments ce_failures {X} _.

Definition circuit_failure (e : error) : Failure :=
  match e with
  | ErrCircuitOpen => Leaf ErrCircuitOpen_s
  | ErrHalfOpenSaturated => Leaf ErrHalfOpenSaturated_s
  | ErrCircuitCapacity => Leaf ErrCircuitCapacity_s
  | ErrContext cause => Leaf (context_sentinel cause)
  | ErrCircuitInvalid => Leaf (SentinelOther "routing.ErrCircuitInvalid")
  | ErrCircuitPermitCompleted => Leaf (SentinelOther "routing.ErrCircuitPermitCompleted")
  end.

Section Guarded.
Context {X : Type} `{!ChatExecutor X, !Holds X System, !Clock X, !HasContext X}.

(** The permit of the call stands in the store of permits at the place it was issued. *)
Definition Circuit_Execute (x : CircuitChatExecutor X) (selection : Selection) (request : NormalizedRequest)
    : CircuitChatExecutor X * (NormalizedResponse * option Failure) :=
  let '(next, now) := read_clock (ce_next x) in
  let s := held next in
  match CircuitBreaker_Acquire (sys_breaker s) (exec_context next) (dep_ID (cand_Deployment (sel_Candidate selection))) now with
  | (b, Err e) => ({| ce_next := hold next {| sys_breaker := b; sys_permits := sys_permits s |}; ce_failures := ce_failures x |}, (empty_response, Some (circuit_failure e)))
  | (b, Ok permit) =>
      let mine := length (sys_permits s) in
      let next := hold next {| sys_breaker := b; sys_permits := sys_permits s ++ [permit] |} in
      let '(next, (response, executeErr)) := chat_Execute next selection request in
      let '(next, now) := read_clock next in
      let s := held next in
      let '(b, permit, r) := CircuitPermit_Complete (sys_breaker s) (default permit (sys_permits s !! mine)) ctx_live (classifyCircuitOutcome executeErr) now in
      ({| ce_next := hold next {| sys_breaker := b; sys_permits := <[mine := permit]> (sys_permits s) |};
          ce_failures := match r with Ok _ => ce_failures x | Err _ => u64_add (ce_failures x) 1 end |}, (response, executeErr))
  end.

#[export] Instance CircuitExecutor : ChatExecutor (CircuitChatExecutor X) := Circuit_Execute.
End Guarded.

(** ** Errors carry validated details *)
Lemma first_of_app {A : Type} (p : Failure -> option A) l1 l2 : first_of p (l1 ++ l2) = match first_of p l1 with Some a => Some a | None => first_of p l2 end.
Proof. induction l1 as [|x l1 IH]; simpl; [done|]. by destruct (p x). Qed.

Lemma wrap_detail_ok inner : Forall provider_detail_ok inner -> provider_detail_ok (Wrap inner).
Proof.
  intros H d. unfold as_provider. cbn [chain first_of]. induction H as [|f inner Hf _ IH]; simpl; [done|]. rewrite first_of_app.
  unfold provider_detail_ok, as_provider in Hf. destruct (first_of _ (chain f)) as [d'|]; [|done]. intros [= <-]. by apply Hf.
Qed.

Lemma leaf_detail_ok s : provider_detail_ok (Leaf s).
Proof. done. Qed.

Lemma execution_error_detail_ok kind cause : (forall f, cause = Some f -> provider_detail_ok f) -> provider_detail_ok (newExecutionError kind cause).
Proof.
  intros H. destruct cause as [f|]; [|done]. apply wrap_detail_ok. constructor; [done|]. constructor; [by apply H|constructor].
Qed.

Lemma normalize_detail_ok err : provider_detail_ok err -> provider_detail_ok (normalizeExecutionError err).
Proof.
  intros H. assert (provider_detail_ok (newExecutionError ProxyErrProtocol (Some err))) as Hw by (apply execution_error_detail_ok; by intros f [= <-]).
  unfold normalizeExecutionError, NewProviderError. destruct (as_normalized err) as [d|]; [|done]. destruct (NormalizedError_Validate d) eqn:E; [|done].
  intros d' [= <-]. done.
Qed.

(** What the registry, the adapters, the HTTP client and the context report contains no provider error of the
    proxy package but those its constructor made. *)
Class UpstreamLaws (U : Type) `{Upstream U} : Prop := {
  law_context : forall u e cause, up_context u = Some (e, cause) -> provider_detail_ok cause;
  law_Build : forall u p d f, (up_Build u p d).2 = Some f -> provider_detail_ok f;
  law_BuildRequest : forall u q f, (up_BuildRequest u q).2 = Err f -> provider_detail_ok f;
  law_Do : forall u f, (up_Do u).2 = Err f -> provider_detail_ok f;
  law_Parse : forall u f, (up_ParseResponse u).2 = Err f -> provider_detail_ok f }.

Section NonStreamTheorems.
Context {U : Type} `{!Upstream U} `{!UpstreamLaws U} (url_Parse : string -> option URL).

(** A call ends in a validated response of the deployment's model, or in an error whose
    provider detail, if it has one, is valid. *)
Definition call_ok (selection : Selection) (r : NormalizedResponse * option Failure) : Prop :=
  match r.2 with
  | None => NormalizedResponse_Validate r.1 = true /\ resp_Model r.1 = dep_PhysicalModel (cand_Deployment (sel_Candidate selection))
  | Some f => provider_detail_ok f
  end.

Lemma upstream_failure_ok u observed otherwise selection : (forall f, observed = Some f -> provider_detail_ok f) -> provider_detail_ok otherwise ->
  call_ok selection (upstream_failure u observed otherwise).2.
Proof using UpstreamLaws0.
  intros Ho Hw. unfold upstream_failure, call_ok, cancellationExecutionError. cbn [snd]. destruct (up_context u) as [[e cause]|] eqn:E; [|exact Hw]. cbn [default].
  apply execution_error_detail_ok. intros f [= <-]. apply wrap_detail_ok. destruct observed as [f|]; simpl; repeat constructor; try done; [by apply Ho|..]; by eapply law_context.
Qed.

Lemma NonStream_ok u selection request : call_ok selection (NonStream_Execute url_Parse u selection request).2.
Proof using UpstreamLaws0.
  unfold NonStream_Execute. destruct (up_context u) as [[e cause]|]; [apply upstream_failure_ok; [by intros f [= <-]|done]|]. destruct (_ || _ || _ || _); [done|].
  assert (forall u f kind, provider_detail_ok f -> call_ok selection (upstream_failure u (Some f) (newExecutionError kind (Some f))).2) as Hfail.
  { intros v f kind Hf. apply upstream_failure_ok; [by intros f' [= <-]|]. apply execution_error_detail_ok. by intros f' [= <-]. }
  pose proof (law_Build u (cand_Provider (sel_Candidate selection)) (cand_Deployment (sel_Candidate selection))) as H1. destruct (up_Build u _ _) as [u1 built]. cbn [snd] in H1.
  destruct built as [f|]; [by apply Hfail, H1|]. pose proof (law_BuildRequest u1 request) as H2. destruct (up_BuildRequest u1 request) as [u2 prepared]. cbn [snd] in H2.
  destruct prepared as [[]|f]; [|by apply upstream_failure_ok|by apply Hfail, H2]. pose proof (law_Do u2) as H3. destruct (up_Do u2) as [u3 answered]. cbn [snd] in H3.
  destruct answered as [[]|f]; [|done|by apply Hfail, H3]. pose proof (law_Parse u3) as H4. destruct (up_ParseResponse u3) as [u4 parsed]. cbn [snd] in H4.
  destruct parsed as [n|f].
  - destruct (NormalizedResponse_Validate n) eqn:E; cbn [negb]; [|apply wrap_detail_ok; by repeat constructor]. case_bool_decide; cbn [negb]; [by split|done].
  - apply upstream_failure_ok; [intros f' [= <-]; by apply H4|]. by apply normalize_detail_ok, H4.
Qed.
End NonStreamTheorems.

(** ** Permits *)
Section CircuitTheorems.
Context {X : Type} `{!ChatExecutor X, !Holds X System, !Clock X, !HasContext X}.





End CircuitTheorems.

(** ** The stack of cmd/gateway *)
Lemma observed_answer {X : Type} `{!ChatExecutor X, !Holds X PassiveHealth, !Clock X} (x : ObservedChatExecutor X) selection request :
  exists y, (Observed_Execute x selection request).2 = (chat_Execute y selection request).2.
Proof.
  unfold Observed_Execute. destruct (read_clock (oe_next x)) as [y startedAt]. exists y. destruct (chat_Execute y selection request) as [n1 [response err]].
  destruct (read_clock n1) as [n2 endedAt]. destruct (read_clock n2) as [n3 now]. by destruct (Observe _ _ _ _).
Qed.

Lemma guarded_answer {X : Type} `{!ChatExecutor X, !Holds X System, !Clock X, !HasContext X} (x : CircuitChatExecutor X) selection request :
  (exists e, (Circuit_Execute x selection request).2 = (empty_response, Some (circuit_failure e))) \/
  exists y, (Circuit_Execute x selection request).2 = (chat_Execute y selection request).2.
Proof.
  unfold Circuit_Execute. destruct (read_clock (ce_next x)) as [n1 now]. destruct (CircuitBreaker_Acquire _ _ _ _) as [b [permit|e]]; [right|left; by exists e].
  exists (hold n1 {| sys_breaker := b; sys_permits := sys_permits (held n1) ++ [permit] |}). cbv zeta. destruct (chat_Execute (hold n1 _) selection request) as [n2 [response err]]. destruct (read_clock n2) as [n3 now3].
  by destruct (CircuitPermit_Complete _ _ _ _ _) as [[? ?] ?].
Qed.

Section Stack.
Context {U : Type} `{!Upstream U} `{!UpstreamLaws U} (url_Parse : string -> option URL) `{!Holds U PassiveHealth, !Clock U}.
#[local] Instance NonStreamExecutor : ChatExecutor U := NonStream_Execute url_Parse.
Context `{!Holds (ObservedChatExecutor U) System, !Clock (ObservedChatExecutor U), !HasContext (ObservedChatExecutor U)}.

(** What the failover loop asks of its executor ([ServiceLaws], [provider_validates]). *)
Lemma executor_stack_validates (x : CircuitChatExecutor (ObservedChatExecutor U)) selection request f :
  (chat_Execute x selection request).2.2 = Some f -> provider_detail_ok f.
Proof using UpstreamLaws0.
  intros E. destruct (guarded_answer x selection request) as [[e H]|[y H]]; change (chat_Execute x selection request) with (Circuit_Execute x selection request) in E; rewrite H in E.
  - injection E as <-. by destruct e.
  - destruct (observed_answer y selection request) as [z Hz]. change (chat_Execute y selection request) with (Observed_Execute y selection request) in E. rewrite Hz in E.
    pose proof (NonStream_ok url_Parse z selection request) as Hok. unfold call_ok in Hok.
    change (chat_Execute z selection request) with (NonStream_Execute url_Parse z selection request) in E. by rewrite E in Hok.
Qed.
End Stack.

(** ** A guarded call *)
Module GuardDemo.

End GuardDemo.

