(* ===== verification/OpenAIUpstream.v ===== *)
(** * Provider calls through the OpenAI adapter

    The registry of cmd/gateway, the OpenAI factory and adapter and the HTTP client put
    together as the [Upstream] of proxy/nonstream.go. What a call does outside the process is
    the list of requests it sends; the transport, the secrets, [json.Marshal] and [net/url]
    are arguments. The theorems say which request is sent, with which credential and to
    which host, which answers are accepted, and which refusals may be tried again. *)
From Stdlib Require Import ZArith Lia Bool Ascii String.
From stdpp Require Import base tactics option list strings gmap.
From S2P Require Import Prelude Identifiers Unicode Encoding JSON JSONDecode Catalog Postgres ProviderSecret RoutePolicy Retry Metering Adapter RouteFilter GatewayOutcome OpenAIAdapter OpenAIRequest ProviderRegistry GatewayExecutors.
(** ** Errors as the executor sees them *)
Definition failure_of (ctx : option (ctx_error * Failure)) (e : openai_error) : Failure :=
  match e with
  | ProviderRejected detail => Normalized detail
  | CallCancelled => match ctx with Some (e, _) => Leaf (context_sentinel e) | None => Leaf ContextCanceled end
  | ProtocolError operation code _ => Leaf (SentinelOther ("openai protocol: " +:+ operation +:+ ": " +:+ code))
  | UnsupportedParameterError field => Leaf (SentinelOther ("openai adapter parameter is unsupported: " +:+ field))
  | ErrRequestTooLarge => Leaf (SentinelOther "openai adapter request exceeds size limit")
  | ErrCredentialUnavailable => Leaf (SentinelOther "openai credential is unavailable")
  | AdapterError what => Leaf (SentinelOther what)
  end.
Definition registry_failure (e : registry_error) : Failure :=
  match e with
  | RegistryError what => Leaf (SentinelOther what)
  | ErrUnknownAdapterType => Leaf (SentinelOther "unknown provider adapter type")
  | _ => Leaf (SentinelOther "provider adapter factory failed")
  end.

(** ** One call *)
Record OpenAICall := {
  oc_step : nat;
  oc_adapter : option openAIAdapter;
  oc_request : option HTTPRequest;
  oc_response : option HTTPResponse;
  oc_sent : list HTTPRequest }.
Definition fresh_call : OpenAICall := {| oc_step := 0; oc_adapter := None; oc_request := None; oc_response := None; oc_sent := [] |}.

Section Calls.
Context (url_Parse : string -> option Endpoint) (IsLoopbackIP : string -> bool) (url_String : Endpoint -> string)
  (marshal : upstreamRequest -> option (list Z)) (accepts_url : string -> bool) (resolve : SecretLocator -> option (list Z))
  (ParseMediaType : string -> option string) (ParseTime : string -> option Time) (range : gmap string (list Z) -> list (string * list Z))
  (ctx : nat -> option (ctx_error * Failure)) (clock : nat -> Time) (transport : HTTPRequest -> result (option HTTPResponse) Failure) (factory : Factory).

Definition done_at (n : nat) : bool := bool_decide (is_Some (ctx n)).
Definition catalog_url (s : string) : option URL := ep_URL <$> url_Parse s.

(** The factory of cmd/gateway under the call's context. *)
Definition openai_factory (cancelled : bool) : AdapterFactory (A := openAIAdapter) :=
  {| af_Type := "openai";
     af_New := fun provider deployment =>
       match Factory_New url_Parse IsLoopbackIP factory cancelled provider deployment with Some a => Ok (Some a) | None => Err ErrFactoryFailed end |}.
Definition call_registry (cancelled : bool) : Registry :=
  match NewRegistry [Some (openai_factory cancelled)] with Ok r => r | Err _ => {| factories := ∅; types := [] |} end.

Definition call_Build (u : OpenAICall) (provider : Catalog.Provider) (deployment : Deployment) : OpenAICall * option Failure :=
  let n := oc_step u in
  match Build (fun _ => "openai"%string) catalog_url (call_registry (done_at n)) (done_at n) provider deployment with
  | Ok a => ({| oc_step := S n; oc_adapter := Some a; oc_request := None; oc_response := None; oc_sent := oc_sent u |}, None)
  | Err e => ({| oc_step := S n; oc_adapter := None; oc_request := None; oc_response := None; oc_sent := oc_sent u |}, Some (registry_failure e))
  end.

Definition call_BuildRequest (u : OpenAICall) (input : NormalizedRequest) : OpenAICall * result bool Failure :=
  let n := oc_step u in
  let next q := {| oc_step := S n; oc_adapter := oc_adapter u; oc_request := q; oc_response := None; oc_sent := oc_sent u |} in
  match oc_adapter u with
  | None => (next None, Ok false)
  | Some a =>
      match BuildRequest url_String marshal accepts_url resolve a (done_at n) input with
      | Ok q => (next (Some q), Ok true)
      | Err e => (next None, Err (failure_of (ctx n) e))
      end
  end.

Definition call_Do (u : OpenAICall) : OpenAICall * result bool Failure :=
  let next r sent := {| oc_step := S (oc_step u); oc_adapter := oc_adapter u; oc_request := oc_request u; oc_response := r; oc_sent := oc_sent u ++ sent |} in
  match oc_request u with
  | None => (next None [], Ok false)
  | Some q =>
      match transport q with
      | Ok (Some r) => (next (Some r) [q], Ok true)
      | Ok None => (next None [q], Ok false)
      | Err f => (next None [q], Err f)
      end
  end.

Definition call_ParseResponse (u : OpenAICall) : OpenAICall * result NormalizedResponse Failure :=
  let n := oc_step u in
  let next := {| oc_step := S n; oc_adapter := oc_adapter u; oc_request := oc_request u; oc_response := oc_response u; oc_sent := oc_sent u |} in
  (next, match ParseResponse ParseMediaType ParseTime range (done_at n) (done_at (S n)) (oc_response u) (clock n) with
         | Ok response => Ok response
         | Err e => Err (failure_of (ctx n) e)
         end).

#[export] Instance openai_upstream : Upstream OpenAICall := {|
  up_context := fun u => ctx (oc_step u);
  up_Build := call_Build;
  up_BuildRequest := call_BuildRequest;
  up_Do := call_Do;
  up_ParseResponse := call_ParseResponse |}.

(** ** What the call meets outside the program *)

(** The cause of the context and the errors of the HTTP client hold no provider error but
    those of its constructor, secrets are byte strings, and an escaped path without an
    escape is the path itself. *)
Class World : Prop := {
  world_cause : forall n e cause, ctx n = Some (e, cause) -> provider_detail_ok cause;
  world_transport : forall q f, transport q = Err f -> provider_detail_ok f;
  world_bytes : forall l secret, resolve l = Some secret -> Forall (fun b => is_byte b = true) secret;
  world_paths : forall raw e, url_Parse raw = Some e -> contains_char "%" (ep_EscapedPath e) = false -> ep_Path e = ep_EscapedPath e }.
Context `{World}.

Lemma failure_of_ok c e : provider_detail_ok (failure_of c e).
Proof. destruct e; try done. by destruct c as [[[] ?]|]. Qed.

#[export] Instance openai_upstream_laws : UpstreamLaws OpenAICall.
Proof.
  split; cbn.
  - intros u. apply world_cause.
  - intros u p d f. unfold call_Build. destruct (Build _ _ _ _ _ _) as [|e]; [done|]. intros [= <-]. by destruct e.
  - intros u q f. unfold call_BuildRequest. destruct (oc_adapter u); [|done]. destruct (BuildRequest _ _ _ _ _ _ _); [done|]. intros [= <-]. apply failure_of_ok.
  - intros u f. unfold call_Do. destruct (oc_request u) as [q|]; [|done]. destruct (transport q) as [[]|] eqn:E; [done..|]. intros [= <-]. by eapply world_transport.
  - intros u f. unfold call_ParseResponse. cbn [snd]. destruct (ParseResponse _ _ _ _ _ _ _); [done|]. intros [= <-]. apply failure_of_ok.
Qed.

(** ** The request *)
Definition no_line_end : char_class := fun c => negb (Ascii.eqb c "013") && negb (Ascii.eqb c "010").

Definition secure_endpoint (e : Endpoint) : Prop :=
  Scheme (ep_URL e) = "https"%string \/ (Scheme (ep_URL e) = "http"%string /\ fc_allowInsecureLoopback factory = true /\ IsLoopbackIP (Hostname (ep_URL e)) = true).

(** The request [q] that serves [input] at a deployment. *)
Record request_for (provider : Catalog.Provider) (deployment : Deployment) (input : NormalizedRequest) (q : HTTPRequest) : Prop := {
  rf_own : dep_ProviderID deployment = prov_ID provider;
  rf_active : aud_Status (prov_Audit provider) = StatusActive /\ aud_Status (dep_Audit deployment) = StatusActive;
  rf_host : exists e, url_Parse (dep_EndpointURL deployment) = Some e /\ secure_endpoint e /\ hq_URL q = url_String (with_path e "/v1/chat/completions");
  rf_secret : exists reference secret, dep_SecretReferenceID deployment = Some reference /\
    resolve {| lc_ProviderID := prov_ID provider; lc_ID := reference |} = Some secret /\ ("Authorization", "Bearer " +:+ string_of secret)%string ∈ hq_Headers q;
  rf_body : exists body, marshal body = Some (hq_Body q) /\ ur_Model body = dep_PhysicalModel deployment /\ ur_Stream body = req_Stream input /\
    buildMessages (req_Messages input) = Ok (ur_Messages body);
  rf_size : Z.of_nat (length (hq_Body q)) <= maximumUpstreamRequestBytes;
  rf_headers : Forall (fun h => all_chars no_line_end h.2 = true) (hq_Headers q) }.

Lemma identifier_lines s n : validateIdentifier s n = true -> all_chars no_line_end s = true.
Proof.
  unfold validateIdentifier, identifierPattern, match_head_tail. intros [_ Hs]%andb_prop. destruct s as [|a s]; [done|].
  apply andb_prop in Hs as [[[Ha Hs]%andb_prop _]%andb_prop _].
  assert (forall c, or_class alnum (one_of "._:/-") c = true -> no_line_end c = true) as Hc.
  { intros c. by destruct c as [[] [] [] [] [] [] [] []]. }
  cbn [all_chars]. rewrite (all_chars_impl _ _ _ Hc Hs), andb_true_r. apply Hc. unfold or_class in *. by rewrite Ha.
Qed.

Lemma credential_lines secret : Forall (fun b => is_byte b = true) secret -> validCredential secret = true -> all_chars no_line_end (string_of secret) = true.
Proof.
  unfold validCredential. intros Hb [_ Hv]%andb_prop. rewrite forallb_forall in Hv. apply all_chars_string_of. rewrite Forall_forall in Hb |- *.
  intros b Hin. specialize (Hb b Hin). apply list_elem_of_In, Hv in Hin as Hv'. clear Hv. rename Hv' into Hv. unfold is_byte in Hb. apply andb_prop in Hb as [?%Z.leb_le ?%Z.leb_le]. cbn [existsb] in Hv.
  destruct (b =? 13) eqn:E1; [by rewrite orb_true_r in Hv|]. destruct (b =? 10) eqn:E2; [by rewrite !orb_true_r in Hv|]. apply Z.eqb_neq in E1, E2.
  assert (forall k, (k < 256)%N -> Ascii.eqb (ascii_of_N (Z.to_N b)) (ascii_of_N k) = true -> b = Z.of_N k) as Hk.
  { intros k Hk He%Ascii.eqb_eq. apply (f_equal N_of_ascii) in He. rewrite !N_ascii_embedding in He by lia. lia. }
  unfold no_line_end. apply andb_true_intro. split; apply negb_true_iff, not_true_iff_false; [intros ?%(Hk 13%N)|intros ?%(Hk 10%N)]; lia.
Qed.

Lemma agent_lines agent allow now : NewFactory agent allow now = Some factory -> all_chars no_line_end (fc_userAgent factory) = true.
Proof.
  unfold NewFactory. destruct (time_is_zero now); [done|]. cbv zeta. destruct (_ || _) eqn:E; [done|]. intros [= <-]. cbn [fc_userAgent].
  apply orb_false_elim in E as [_ E]. unfold contains_any, CRLF in E. cbn [existsb] in E. apply orb_false_elim in E as [E1 [E2 _]%orb_false_elim].
  unfold contains_char in E1, E2. apply negb_false_iff in E1, E2. revert E1 E2. generalize (if is_empty (TrimSpace agent) then defaultUserAgent else TrimSpace agent).
  induction s as [|c s IH]; [done|]. cbn [all_chars]. intros [H1 H1']%andb_prop [H2 H2']%andb_prop. by rewrite IH, andb_true_r by done; unfold no_line_end; rewrite H1, H2.
Qed.

(** ** The adapter *)
Lemma built_adapter b p d a : Build (fun _ => "openai"%string) catalog_url (call_registry b) b p d = Ok a ->
  b = false /\ Factory_New url_Parse IsLoopbackIP factory false p d = Some a.
Proof.
  intros Hb. destruct (NewRegistry [Some (openai_factory b)]) as [r|] eqn:Er; [|done].
  assert (call_registry b = r) as Hr by (unfold call_registry; by rewrite Er). rewrite Hr in Hb.
  destruct (built_by_its_factory _ _ _ _ _ _ _ _ Er Hb) as (f & Hf & _ & _ & Hn & _).
  apply list_elem_of_singleton in Hf. injection Hf as ->. cbn [openai_factory af_New] in Hn. destruct b.
  - unfold Build in Hb. discriminate Hb.
  - split; [done|]. destruct (Factory_New _ _ _ _ _ _) as [a'|]; [|done]. by injection Hn as ->.
Qed.

Record adapter_for (p : Catalog.Provider) (d : Deployment) (a : openAIAdapter) : Prop := {
  ad_own : dep_ProviderID d = prov_ID p;
  ad_active : aud_Status (prov_Audit p) = StatusActive /\ aud_Status (dep_Audit d) = StatusActive;
  ad_host : exists e, url_Parse (dep_EndpointURL d) = Some e /\ secure_endpoint e /\ completionURL url_String a = url_String (with_path e "/v1/chat/completions");
  ad_secret : dep_SecretReferenceID d = Some (lc_ID (oa_secretLocator a)) /\ lc_ProviderID (oa_secretLocator a) = prov_ID p;
  ad_model : oa_physicalModel a = dep_PhysicalModel d;
  ad_agent : oa_userAgent a = fc_userAgent factory }.

Lemma trim_slash_spec s : trim_slash s = s \/ s = (trim_slash s +:+ "/")%string.
Proof.
  unfold trim_slash. destruct (String.get _ s) as [c|] eqn:E; [|by left]. destruct (Ascii.eqb c "/") eqn:Ec; [|by left]. right. apply Ascii.eqb_eq in Ec as ->. revert E.
  induction s as [|c s IH]; [done|]. cbn [String.length]. replace (S (String.length s) - 1)%nat with (String.length s) by lia. destruct s as [|c' s].
  - cbn. by intros [= ->].
  - cbn [String.length] in IH |- *. cbn [String.get]. replace (S (String.length s) - 1)%nat with (String.length s) in IH by lia. intros E. specialize (IH E).
    change (String c (String c' s) = String c (String.substring 0 (String.length s) (String c' s) +:+ "/"))%string. by rewrite <- IH.
Qed.

Lemma endpoint_spec raw e : parseEndpoint url_Parse IsLoopbackIP raw (fc_allowInsecureLoopback factory) = Some e ->
  exists e0, url_Parse raw = Some e0 /\ secure_endpoint e0 /\ e = with_path e0 (trim_slash (ep_Path e0)) /\ trim_slash (ep_Path e0) ∈ [""; "/v1"; "/v1/chat/completions"]%string.
Proof.
  unfold parseEndpoint. destruct (url_Parse raw) as [e0|] eqn:Ep; [|done]. cbn [mbind option_bind]. destruct (_ || _ || _ || _ || _); [done|].
  destruct (negb (_ || _)) eqn:Es; [done|]. destruct (existsb _ _) eqn:Ex; [|done]. cbn [negb]. intros [= <-]. exists e0. split_and!; [done| |done|].
  - apply negb_false_iff, orb_prop in Es as [E%String.eqb_eq|[[E%String.eqb_eq E1]%andb_prop E2]%andb_prop]; [by left|by right].
  - assert (trim_slash (ep_EscapedPath e0) ∈ [""; "/v1"; "/v1/chat/completions"]%string) as Hin.
    { apply existsb_exists in Ex as (x & Hx & ->%String.eqb_eq). by apply list_elem_of_In. }
    rewrite (world_paths raw e0 Ep); [done|]. destruct (trim_slash_spec (ep_EscapedPath e0)) as [Ht|Ht].
    + rewrite <- Ht. clear -Hin. set_unfold. by destruct_or!; rewrite Hin.
    + rewrite Ht. clear -Hin. set_unfold. by destruct_or!; rewrite Hin.
Qed.

Lemma made_adapter p d a : Factory_New url_Parse IsLoopbackIP factory false p d = Some a -> adapter_for p d a.
Proof.
  unfold Factory_New. destruct (_ || _) eqn:E; [done|]. repeat (apply orb_false_elim in E as [E ?%negb_false_iff]).
  destruct (dep_SecretReferenceID d) as [reference|] eqn:Es; [|done]. cbn [mbind option_bind].
  destruct (parseEndpoint _ _ _ _) as [e|] eqn:Ee; [|done]. cbn [option_bind]. intros [= <-]. apply endpoint_spec in Ee as (e0 & Hp & Hs & -> & Hin).
  split; cbn; try done.
  - by apply String.eqb_eq.
  - prop_hyps. done.
  - exists e0. split_and!; [done..|]. unfold completionURL. cbn. f_equal. clear -Hin. set_unfold. by destruct_or!; rewrite Hin.
Qed.

Lemma built_request agent allow now p d a input q : NewFactory agent allow now = Some factory -> adapter_for p d a ->
  BuildRequest url_String marshal accepts_url resolve a false input = Ok q -> request_for p d input q.
Proof.
  intros Hf [? ? (e & He & Hs & Hu) [Hr Hp] Hm Ha]. unfold BuildRequest. cbn [negb]. intros [Hv Hq]%ensure_Ok. destruct (validateCapabilities a input); [done|].
  apply bind_Ok in Hq as (body & Ht & Hq). destruct (marshal body) as [encoded|] eqn:Em; [|done]. apply ensure_Ok in Hq as [Hl%Z.leb_le [_ Hq]%ensure_Ok].
  destruct (resolve _) as [secret|] eqn:Er; [|done]. apply ensure_Ok in Hq as [Hc Hq]. injection Hq as <-. split; cbn; try done.
  - exists e. by rewrite Hu.
  - exists (lc_ID (oa_secretLocator a)), secret. split_and!; [done| |by left]. rewrite <- Hp. by destruct (oa_secretLocator a).
  - exists body. split; [done|]. unfold translate in Ht. apply bind_Ok in Ht as (ms & Hms & [= <-]). by cbn.
  - repeat (apply Forall_cons_2; [cbn [snd]|]); [..|by apply Forall_nil].
    + change (all_chars no_line_end (string_of secret) = true). exact (credential_lines secret (world_bytes _ _ Er) Hc).
    + done.
    + by destruct (req_Stream input).
    + rewrite Ha. by eapply agent_lines.
    + apply (identifier_lines _ 128). unfold NormalizedRequest_Validate in Hv. by destruct (validateIdentifier (req_RequestID input) 128).
Qed.

(** ** Answers *)

(** The whole answer [r] was read in a live context, says 200 and parses to [response]. *)
Definition accepted_answer (r : HTTPResponse) (response : NormalizedResponse) : Prop :=
  hs_StatusCode r = 200 /\ hs_Broken r = false /\ Z.of_nat (length (hs_Body r)) <= maximumJSONResponseBytes /\ ParseMediaType (hs_ContentType r) = Some "application/json"%string /\
  exists now, parse_completion range (hs_Body r) (hs_RequestID r) now = Ok response.

Lemma parsed_answer cancelled late r now response : ParseResponse ParseMediaType ParseTime range cancelled late (Some r) now = Ok response -> accepted_answer r response.
Proof.
  unfold ParseResponse, readBoundedBody. destruct cancelled; [done|]. destruct (_ <? _) eqn:El; [done|]. apply Z.ltb_ge in El. destruct (hs_Broken r) eqn:Eb; [done|].
  cbn [result_bind]. destruct (hs_StatusCode r =? 200) eqn:Es; [|done]. apply Z.eqb_eq in Es. cbn [negb]. unfold requireMediaType.
  destruct (ParseMediaType _) as [m|] eqn:Em; [|done]. destruct (String.eqb m _) eqn:E; [|done]. apply String.eqb_eq in E as ->. cbn [negb]. intros Hp.
  split_and!; try done. by exists now.
Qed.

(** The rejected requests, and the operations up to the point where the call ends. *)
Definition call_record (p : Catalog.Provider) (d : Deployment) (input : NormalizedRequest) (u : OpenAICall) (out : NormalizedResponse * option Failure) : Prop :=
  match oc_sent u with
  | [] => out.2 <> None
  | [q] => request_for p d input q /\
      (out.2 = None -> exists r, transport q = Ok (Some r) /\ accepted_answer r out.1)
  | _ => False
  end.

(** C4: What a call sends and accepts. A call through the OpenAI adapter sends at most one
    request; that request belongs to the selected deployment: an active deployment of the
    active provider, the https host of its endpoint (or an allowed loopback address) and the
    completion path, the secret its reference names for this provider, the physical model and
    the translated messages in at most one mebibyte, and no header that could break the
    line. A response is returned only for a sent request that was answered with status 200
    and a complete JSON completion of the deployment's model. *)
Theorem openai_calls_are_genuine agent allow now selection input u out :
  NewFactory agent allow now = Some factory -> NonStream_Execute catalog_url fresh_call selection input = (u, out) ->
  call_record (cand_Provider (sel_Candidate selection)) (cand_Deployment (sel_Candidate selection)) input u out /\
  (out.2 = None -> resp_Model out.1 = dep_PhysicalModel (cand_Deployment (sel_Candidate selection)) /\ NormalizedResponse_Validate out.1 = true).
Proof.
  intros Hf He. split; [|pose proof (NonStream_ok catalog_url fresh_call selection input) as Hok; rewrite He in Hok; unfold call_ok in Hok; cbn in Hok; destruct out as [? [|]]; cbn in *; naive_solver].
  revert He. unfold NonStream_Execute. set (p := cand_Provider _). set (d := cand_Deployment _). cbn [up_context openai_upstream].
  destruct (ctx (oc_step fresh_call)) as [[e cause]|]; [by intros [= <- <-]|]. destruct (_ || _ || _ || _); [by intros [= <- <-]|].
  cbn [up_Build openai_upstream]. unfold call_Build. destruct (Build _ _ _ _ p d) as [a|e] eqn:Eb; [|by intros [= <- <-]].
  apply built_adapter in Eb as [_ Ha%made_adapter].
  cbn [up_BuildRequest openai_upstream]. unfold call_BuildRequest. cbn [oc_adapter oc_step]. destruct (BuildRequest _ _ _ _ _ _ _) as [q|e] eqn:Eq; [|by intros [= <- <-]].
  assert (request_for p d input q) as Hq.
  { change (oc_step fresh_call) with 0%nat in Eq. destruct (done_at 1); [unfold BuildRequest in Eq; discriminate Eq|]. eapply built_request; [exact Hf|exact Ha|exact Eq]. }
  cbn [up_Do openai_upstream]. unfold call_Do. cbn [oc_request oc_sent fresh_call app oc_step oc_adapter]. destruct (transport q) as [[r|]|f] eqn:Et.
  - cbn [up_ParseResponse openai_upstream]. unfold call_ParseResponse. cbn [oc_step oc_response oc_adapter oc_request oc_sent]. destruct (ParseResponse _ _ _ _ _ _ _) as [response|e] eqn:Er.
    + destruct (NormalizedResponse_Validate response); cbn [negb]; [destruct (bool_decide _); cbn [negb]|]; intros [= <- <-]; split; try done.
      intros _. exists r. split; [done|]. by eapply parsed_answer.
    + intros E. injection E as <- <-. by split.
  - intros [= <- <-]. by split.
  - intros E. injection E as <- <-. by split.
Qed.










End Calls.

(** ** The secret manager behind the adapter (cmd/gateway/main.go) *)
Section Secrets.
Context (pg_space : Z -> bool) (parse_locator : string -> option LocatorURL).
Context (Seal : list Z -> list Z -> list Z -> list Z -> list Z) (Open : list Z -> list Z -> list Z -> list Z -> option (list Z)) `{!AEAD Seal Open}.

(** [optionalProviderSecretResolver.Resolve]; [None] for the manager: no envelope key is
    configured. *)
Definition optional_Resolve (manager : option LocalCipher) (faults : Faults) (cancelled : bool) (db : SecretDB) (l : SecretLocator) : option (list Z) :=
  match manager with
  | None => None
  | Some cipher => match secret_Resolve Open cipher (fun _ => None) faults cancelled db l with Ok plaintext => Some plaintext | Err _ => None end
  end.

(** The credential of a request was sealed for the provider and the reference of the
    deployment that serves it. *)
Lemma sent_credentials_were_sealed providers db manager faults cancelled url_Parse IsLoopbackIP url_String marshal factory provider deployment input q :
  secret_history pg_space parse_locator Seal (empty_secrets providers) db ->
  request_for url_Parse IsLoopbackIP url_String marshal (optional_Resolve manager faults cancelled db) factory provider deployment input q ->
  exists reference plaintext r cipher version key, dep_SecretReferenceID deployment = Some reference /\
    ("Authorization", "Bearer " +:+ string_of plaintext)%string ∈ hq_Headers q /\ sd_rows db !! ToLower reference = Some r /\
    sr_ProviderID r = ToLower (prov_ID provider) /\ sr_Status r = SecretActive /\ manager = Some cipher /\ ci_keys cipher !! version = Some key /\
    sr_Ciphertext r = Seal key (sr_Nonce r) plaintext (additionalData (binding_of r) version).
Proof using AEAD0.
  intros Hh [_ _ _ (reference & secret & Hd & Hr & Hq) _ _ _]. unfold optional_Resolve in Hr. destruct manager as [cipher|]; [|done].
  destruct (secret_Resolve _ _ _ _ _ _ _) as [p|] eqn:E; [|done]. injection Hr as ->.
  destruct (resolved_row pg_space parse_locator Seal Open _ _ _ _ _ _ _ _ Hh E) as (r & H1 & _ & H2 & H3 & H4).
  destruct (sr_Backend r); [|by destruct H4 as (? & ? & ? & _)..|done]. destruct H4 as (version & key & _ & Hk & Hc & _). by exists reference, secret, r, cipher, version, key.
Qed.
End Secrets.

(** ** Two calls *)
Module CallDemo.
Definition endpoint : Endpoint := {| ep_URL := default {| Scheme := ""; Hostname := ""; has_User := false; RawQuery := ""; ForceQuery := false; Fragment := ""; Opaque := "" |} (demo_url "");
  ep_Host := "api.example"; ep_Path := "/v1/"; ep_EscapedPath := "/v1/" |}.
Definition parse (_ : string) : option Endpoint := Some endpoint.
Definition secret_id : string := "66666666-6666-4666-8666-666666666666".
Definition print_url (e : Endpoint) : string := "https://" +:+ ep_Host e +:+ ep_Path e.
Definition secrets (l : SecretLocator) : option (list Z) := if String.eqb (lc_ID l) secret_id then Some (bytes_of "sk-1") else None.
Definition encode (body : upstreamRequest) : option (list Z) := Some (bytes_of (ur_Model body)).
(** A completion, written with single quotes. *)
Definition completion : list Z := (fun b => if b =? 39 then 34 else b) <$> bytes_of
  "{'id':'c1','object':'chat.completion','created':1,'model':'m','choices':[{'index':0,'message':{'role':'assistant','content':'hi'},'finish_reason':'stop'}]}".
Definition provider_answer (status : Z) : HTTPResponse :=
  {| hs_StatusCode := status; hs_ContentType := "application/json"; hs_RequestID := "r-1"; hs_RetryAfter := "7"; hs_Broken := false; hs_Body := completion |}.
Definition provider_answers (status : Z) (_ : HTTPRequest) : result (option HTTPResponse) Failure := Ok (Some (provider_answer status)).
Definition no_context (n : nat) : option (ctx_error * Failure) := None.
Definition clock (n : nat) : Time := 1 + Z.of_nat n.
Definition factory : Factory := {| fc_userAgent := defaultUserAgent; fc_allowInsecureLoopback := false |}.

Definition deployment : Deployment :=
  let d := cand_Deployment (demo_candidate demo_d2 2 5) in
  {| dep_ID := dep_ID d; dep_ProviderID := dep_ProviderID d; dep_Code := dep_Code d; dep_PhysicalModel := dep_PhysicalModel d; dep_EndpointURL := dep_EndpointURL d;
     dep_Region := dep_Region d; dep_Capabilities := dep_Capabilities d; dep_SecretReferenceID := Some secret_id; dep_Audit := dep_Audit d |}.
Definition selection : Selection :=
  let c := sel_Candidate demo_selection in
  {| sel_Candidate := {| cand_LogicalModel := cand_LogicalModel c; cand_Binding := cand_Binding c; cand_Deployment := deployment; cand_Provider := cand_Provider c |};
     sel_Filter := sel_Filter demo_selection; sel_Decision := sel_Decision demo_selection |}.
Definition input : NormalizedRequest :=
  {| req_RequestID := "req-00000001"; req_LogicalModel := "chat"; req_EndUserReference := ""; req_Messages := [demo_user_message "hello"];
     req_Stream := false; req_Temperature := None; req_TopP := None; req_MaxOutputTokens := Some 100; req_Stop := []; req_Tools := []; req_ToolChoice := None;
     req_ResponseFormat := None; req_PolicyLabels := []; req_ProviderOptions := [] |}.

Definition demo_call (status : Z) : OpenAICall * (NormalizedResponse * option Failure) :=
  NonStream_Execute (U := OpenAICall)
    (H := openai_upstream parse (fun _ => false) print_url encode (fun _ => true) secrets Some (fun _ => None) map_to_list no_context clock (provider_answers status) factory)
    (catalog_url parse) fresh_call selection input.

Example run_accepted : (hq_URL <$> oc_sent (demo_call 200).1, resp_ID (demo_call 200).2.1, (demo_call 200).2.2) = (["https://api.example/v1/chat/completions"%string], "c1"%string, None).
Proof. vm_compute. reflexivity. Qed.
End CallDemo.

#[local] Instance demo_world status : World CallDemo.parse CallDemo.secrets CallDemo.no_context (CallDemo.provider_answers status).
Proof.
  split; try done.
  - intros l secret. unfold CallDemo.secrets. destruct (String.eqb _ _); [|done]. intros [= <-]. by repeat constructor.
  - intros raw e [= <-] _. reflexivity.
Qed.

Lemma accepted_run : exists q, oc_sent (CallDemo.demo_call 200).1 = [q] /\ (CallDemo.demo_call 200).2.2 = None.
Proof. vm_compute. eexists. split; reflexivity. Qed.

Lemma openai_calls_are_genuine_witness : exists q r, oc_sent (CallDemo.demo_call 200).1 = [q] /\ CallDemo.provider_answers 200 q = Ok (Some r) /\
  accepted_answer Some map_to_list r (CallDemo.demo_call 200).2.1.
Proof.
  destruct accepted_run as (q & Hq & Ho).
  destruct (openai_calls_are_genuine CallDemo.parse (fun _ => false) CallDemo.print_url CallDemo.encode (fun _ => true) CallDemo.secrets Some (fun _ => None) map_to_list CallDemo.no_context
    CallDemo.clock (CallDemo.provider_answers 200) CallDemo.factory "" false 1 CallDemo.selection CallDemo.input (CallDemo.demo_call 200).1 (CallDemo.demo_call 200).2 eq_refl eq_refl) as [H _].
  unfold call_record in H. rewrite Hq in H. destruct H as [_ H]. destruct (H Ho) as (r & Hr & Ha). exists q, r. split; [exact Hq|]. split; [exact Hr|exact Ha].
Defined.


