(* ===== verification/JSONFraming.v ===== *)
(** * Values inside values

    The decoder of [encoding/json] checks a whole text with one scanner and then reads the
    values inside it with fresh ones. Scanning a nested value in its context agrees with
    scanning it alone, so every valid text can be taken apart: decoding a valid text never
    fails, and each value inside it is a valid text of its own. *)
From Stdlib Require Import ZArith Lia Bool Ascii String.
From stdpp Require Import base tactics option list strings gmap fin_maps.
From S2P Require Import Prelude Identifiers Unicode Encoding JSON JSONDecode.
(** ** A scanner in a context: [B] is the stack below the value. *)
Definition lift (B : list parse_state) (s : scanner) : scanner := (match s.1 with EndTop => EndValue | st => st end, s.2 ++ B).

(** The states that a scanner started on a value reaches. *)
Definition well (s : scanner) : Prop :=
  match s with
  | (Literal [], _) => False
  | (EndTop, F) => F = []
  | ((BeginValueOrEmpty | BeginStringOrEmpty | BeginString), F) => F <> []
  | _ => True
  end.

Definition accepts (s : scanner) : bool := match s.1, scan_step s 32 with EndTop, _ => true | _, Some (EndTop, _) => true | _, _ => false end.

Lemma lift_pop B F : B <> [] -> (EndValue, F ++ B) = lift B (after_pop F) /\ well (after_pop F).
Proof. intros HB. by destruct F. Qed.

Lemma after_pop_lift B F : B <> [] -> after_pop (F ++ B) = lift B (after_pop F).
Proof. intros HB. destruct F as [|p F]; [by destruct B|done]. Qed.

Lemma after_pop_well F : well (after_pop F).
Proof. by destruct F. Qed.

Lemma push_lift B p st F t : push p st (F ++ B) = Some t -> (st = BeginStringOrEmpty \/ st = BeginValueOrEmpty) ->
  exists s, push p st F = Some s /\ t = lift B s /\ well s.
Proof.
  unfold push. rewrite length_app. destruct (Nat.leb_spec (S (length F + length B)) maxNestingDepth) as [Hn|]; [|done].
  intros [= <-] Hst. destruct (Nat.leb_spec (S (length F)) maxNestingDepth); [|lia]. eexists. split; [done|].
  by destruct Hst as [-> | ->].
Qed.

Lemma end_value_lift B p F c t : B <> [] -> end_value ((p :: F) ++ B) c = Some t -> exists s, end_value (p :: F) c = Some s /\ t = lift B s /\ well s.
Proof.
  intros HB. cbn [end_value app]. destruct (json_space c); [intros [= <-]; by eexists|].
  destruct p; repeat case_match; try done; intros [= <-]; eexists; split_and!; try done; try apply after_pop_lift, HB; apply after_pop_well.
Qed.

Lemma begin_value_lift B F c t : B <> [] -> begin_value (F ++ B) c = Some t -> exists s, begin_value F c = Some s /\ t = lift B s /\ well s.
Proof.
  intros HB. unfold begin_value. repeat (case_match; [first [intros Hp; eapply push_lift in Hp; [exact Hp|by auto]|intros [= <-]; by eexists]|]). discriminate.
Qed.

Ltac stepped :=
  repeat case_match; try done;
  try match goal with H : Some _ = Some _ |- _ => injection H as <- end; try by eexists.

Lemma frame_step B s c t : B <> [] -> well s -> value_ends s c = false -> scan_step (lift B s) c = Some t ->
  exists s', scan_step s c = Some s' /\ t = lift B s' /\ well s'.
Proof.
  intros HB Hw He. destruct s as [st F]. unfold lift at 1. cbn [fst snd].
  assert (forall p G t', F = p :: G -> end_value (F ++ B) c = Some t' -> exists s', end_value F c = Some s' /\ t' = lift B s' /\ well s') as Hend
    by (intros p G t' ->; by apply end_value_lift).
  destruct F as [|p F].
  - destruct st; try done; cbn [scan_step value_ends app] in *; intros H; try (by apply (begin_value_lift B []) in H); try (unfold num0, exp_sign in * );
      try (destruct (json_digit c)); try (destruct (c =? 46)); try (destruct ((c =? 101) || (c =? 69)) eqn:Ec); 
      cbn in He; rewrite ?Ec, ?orb_true_r in He; try done; stepped.
  - specialize (Hend p F). destruct st; try done; cbn [scan_step app] in *; intros H; unfold num0, exp_sign in *;
      try (by apply (Hend _ eq_refl) in H).
    all: try (destruct (json_space c); [injection H as <-; by eexists|]).
    all: try (destruct (c =? 93); [by apply (Hend _ eq_refl) in H|]).
    all: try (by apply (begin_value_lift B (p :: F)) in H).
    all: try (destruct (c =? 125); [by apply (end_value_lift B ParseObjectValue F) in H|]).
    all: unfold begin_string in *; try (destruct (json_space c); [injection H as <-; by eexists|]).
    all: try (destruct (json_digit c); [injection H as <-; by eexists|]).
    all: try (destruct (c =? 46); [injection H as <-; by eexists|]).
    all: try (destruct ((c =? 101) || (c =? 69)); [injection H as <-; by eexists|]).
    all: try (by apply (Hend _ eq_refl) in H).
    all: stepped.
Qed.

(** ** Reading a nested value *)
Lemma value_ends_accepts s c : value_ends s c = true -> accepts s = true.
Proof. destruct s as [[] [|]]; done. Qed.

Lemma value_ends_lift B s c : B <> [] -> well s -> value_ends s c = true -> scan_step (lift B s) c = end_value B c.
Proof.
  intros HB Hw. destruct s as [[] [|p F]]; try done; cbn [value_ends lift scan_step fst snd app]; unfold num0; intros He;
    destruct (json_digit c), (c =? 46), (c =? 101), (c =? 69); done.
Qed.

Lemma read_framed B bs : B <> [] -> forall s fin, well s -> scan (lift B s) bs = Some fin -> fin.2 = [] ->
  exists v after s1 c, read_from s bs = Some (v, after) /\ bs = v ++ after /\ head after = Some c /\
    scan s v = Some s1 /\ value_ends s1 c = true /\ scan (lift B s) v = Some (lift B s1) /\ well s1 /\ scan (lift B s1) after = Some fin.
Proof.
  intros HB. induction bs as [|c bs IH]; intros s fin Hw Hs Hf; cbn [scan] in Hs.
  { injection Hs as <-. cbn in Hf. apply app_eq_nil in Hf as [_ ?]. done. }
  cbn [read_from]. destruct (value_ends s c) eqn:He.
  - exists [], (c :: bs), s, c. split_and!; try done.
  - apply bind_Some in Hs as (t & Ht & Hs). pose proof Ht as Hstep. apply frame_step in Ht as (s' & Hs' & -> & Hw'); [|done..].
    destruct (IH _ _ Hw' Hs Hf) as (v & after & s1 & d & Hr & -> & Hd & Hv & He1 & Hl & Hw1 & Ha).
    exists (c :: v), after, s1, d. rewrite Hs'. cbn [mbind option_bind]. rewrite Hr. split_and!; try done; cbn [scan]; [by rewrite Hs'|]. by rewrite Hstep.
Qed.

Lemma read_split bs : forall s v a, read_from s bs = Some (v, a) -> bs = v ++ a.
Proof.
  induction bs as [|c bs IH]; intros s v a H; cbn [read_from] in H; [repeat case_match; by simplify_eq|].
  destruct (value_ends s c); [by simplify_eq|]. apply bind_Some in H as (s' & _ & H). apply bind_Some in H as ([v' a'] & H & [= <- <-]).
  by rewrite (IH _ _ _ H).
Qed.

(** What follows a value does not matter beyond its first byte. *)
Lemma read_local z bs : forall s v a, read_from s bs = Some (v, a) -> a <> [] -> read_from s (bs ++ z) = Some (v, a ++ z).
Proof.
  induction bs as [|c bs IH]; intros s v a H Ha; cbn [read_from app] in *; [repeat case_match; by simplify_eq|].
  destruct (value_ends s c); [by simplify_eq|]. apply bind_Some in H as (s' & -> & H). apply bind_Some in H as ([v' a'] & H & [= <- <-]).
  cbn [mbind option_bind]. by rewrite (IH _ _ _ H Ha).
Qed.

Lemma read_alone v : forall s a s1 c, read_from s (v ++ a) = Some (v, a) -> scan s v = Some s1 -> value_ends s1 c = true -> read_from s v = Some (v, []).
Proof.
  induction v as [|d v IH]; intros s a s1 c Hr Hs He; cbn [scan read_from app] in *.
  - injection Hs as ->. apply value_ends_accepts in He. unfold accepts in He. repeat case_match; done.
  - destruct (value_ends s d); [by simplify_eq|]. apply bind_Some in Hs as (s' & E & Hs). rewrite E in *. cbn [mbind option_bind] in *.
    apply bind_Some in Hr as ([v' a'] & Hr & [= -> ->]). by rewrite (IH _ _ _ _ Hr Hs He).
Qed.

(** A reader stops no later than at the first possible end. *)
Lemma read_stops v1 : forall s r s1 c v a, read_from s (v1 ++ c :: r) = Some (v, a) -> scan s v1 = Some s1 -> value_ends s1 c = true ->
  (length v <= length v1)%nat.
Proof.
  induction v1 as [|d v1 IH]; intros s r s1 c v a Hr Hs He; cbn [scan read_from app] in *.
  - injection Hs as ->. rewrite He in Hr. by simplify_eq.
  - destruct (value_ends s d); [simplify_eq; cbn; lia|]. apply bind_Some in Hs as (s' & E & Hs). rewrite E in Hr. cbn [mbind option_bind] in Hr.
    apply bind_Some in Hr as ([v' a'] & Hr & [= <- <-]). cbn [length]. pose proof (IH _ _ _ _ _ _ Hr Hs He). lia.
Qed.

(** ** Space *)
Lemma skip_idle t bs : (forall c, json_space c = true -> scan_step t c = Some t) ->
  scan t (skip_spaces bs) = scan t bs /\ exists sp, bs = sp ++ skip_spaces bs /\ scan t sp = Some t.
Proof.
  intros Ht. induction bs as [|c bs [IH (sp & E & Hs)]]; [by split; [|exists []]|]. cbn [skip_spaces]. destruct (json_space c) eqn:Ec.
  - cbn [scan]. rewrite (Ht _ Ec). cbn [mbind option_bind]. split; [done|]. exists (c :: sp). cbn [app scan]. rewrite (Ht _ Ec). by rewrite <- E.
  - split; [done|]. by exists [].
Qed.

Lemma skip_head bs c rest : skip_spaces bs = c :: rest -> json_space c = false.
Proof. induction bs as [|d bs IH]; [done|]. cbn. destruct (json_space d) eqn:E; [done|]. by intros [= <- <-]. Qed.

Lemma skip_spaces_id c rest : json_space c = false -> skip_spaces (c :: rest) = c :: rest.
Proof. intros H. cbn. by rewrite H. Qed.

Lemma skip_app bs z c rest : skip_spaces bs = c :: rest -> skip_spaces (bs ++ z) = c :: rest ++ z.
Proof. induction bs as [|d bs IH]; [done|]. cbn. destruct (json_space d); [done|]. by intros [= <- <-]. Qed.

Lemma scan_app v : forall s w, scan s (v ++ w) = s' ← scan s v; scan s' w.
Proof. induction v as [|c v IH]; intros s w; [done|]. cbn [app scan]. destruct (scan_step s c); [|done]. cbn [mbind option_bind]. apply IH. Qed.

(** Behind a value: space, then the byte that says how the container goes on. *)
Lemma after_value B bs fin : B <> [] -> scan (EndValue, B) bs = Some fin -> fin.2 = [] ->
  exists sp c rest t, bs = sp ++ c :: rest /\ skip_spaces bs = c :: rest /\ json_space c = false /\
    scan (EndValue, B) (sp ++ [c]) = Some t /\ end_value B c = Some t /\ scan t rest = Some fin.
Proof.
  intros HB Hs Hf. destruct (skip_idle (EndValue, B) bs) as [E (sp & Hsp & Hscan)].
  { intros c Hc. cbn. destruct B; [done|]. cbn. by rewrite Hc. }
  rewrite <- E in Hs. destruct (skip_spaces bs) as [|c rest] eqn:Ebs; [injection Hs as <-; done|].
  cbn [scan] in Hs. apply bind_Some in Hs as (t & Ht & Hs). exists sp, c, rest, t. split_and!; try done; [by eapply skip_head|].
  rewrite scan_app, Hscan. cbn [mbind option_bind scan]. by rewrite Ht.
Qed.

Definition tight (raw : list Z) : Prop := read_value raw = Some (raw, []) /\ json_valid raw = true.

Lemma value_in_context B bs fin : B <> [] -> scan (BeginValue, B) bs = Some fin -> fin.2 = [] ->
  exists raw after sp c rest t, read_value bs = Some (raw, after) /\ bs = raw ++ after /\ raw <> [] /\ tight raw /\
    after = sp ++ c :: rest /\ skip_spaces after = c :: rest /\
    scan (BeginValue, B) (raw ++ sp ++ [c]) = Some t /\ end_value B c = Some t /\ scan t rest = Some fin.
Proof.
  intros HB Hs Hf. destruct (read_framed B bs HB (BeginValue, []) fin) as (raw & after & s1 & c & Hr & -> & Hc & Hv & He & Hl & Hw & Ha); [done..|].
  assert (scan (EndValue, B) after = Some fin) as Hend.
  { destruct after as [|c' after]; [done|]. injection Hc as ->. rewrite <- Ha. cbn [scan]. by rewrite (value_ends_lift B s1 c). }
  destruct (after_value B after fin HB Hend Hf) as (sp & d & rest & t & Esp & Hskip & Hd & Ht & Hstep & Hrest).
  exists raw, after, sp, d, rest, t. split_and!; try done.
  - intros ->. cbn in Hv. injection Hv as <-. done.
  - split; [by eapply read_alone|]. unfold json_valid. rewrite Hv. by apply value_ends_accepts in He.
  - rewrite scan_app. change (BeginValue, B) with (lift B (BeginValue, [])). rewrite Hl. cbn [mbind option_bind]. rewrite <- Ht. subst after.
    destruct sp as [|c' sp]; cbn [app] in Hc |- *; injection Hc as ->; cbn [scan]; by rewrite (value_ends_lift B s1 c).
Qed.

(** ** The items of an array and the members of an object, with what follows them *)
Inductive items_at : bool -> list Z -> list (list Z) -> list Z -> Prop :=
| items_none bs rest : skip_spaces bs = 93 :: rest -> items_at true bs [] rest
| items_last first bs raw after rest :
    head (skip_spaces bs) <> Some 93 -> read_value (skip_spaces bs) = Some (raw, after) -> tight raw -> skip_spaces after = 93 :: rest -> items_at first bs [raw] rest
| items_more first bs raw after next raws rest :
    head (skip_spaces bs) <> Some 93 -> read_value (skip_spaces bs) = Some (raw, after) -> tight raw -> skip_spaces after = 44 :: next ->
    items_at false next raws rest -> items_at first bs (raw :: raws) rest.

Definition item_state (first : bool) : scan_state := if first then BeginValueOrEmpty else BeginValue.

Lemma items_total n : forall first bs outer fin, (length bs < n)%nat -> scan (item_state first, ParseArrayValue :: outer) bs = Some fin -> fin.2 = [] ->
  exists raws rest body, array_items n bs = Some raws /\ items_at first bs raws rest /\ bs = body ++ rest /\
    scan (item_state first, ParseArrayValue :: outer) body = Some (after_pop outer) /\ Forall (fun raw => (length raw < length bs)%nat) raws.
Proof.
  induction n as [|n IH]; intros first bs outer fin Hn Hs Hf; [lia|]. set (B := ParseArrayValue :: outer) in *.
  destruct (skip_idle (item_state first, B) bs) as [E (sp & Hsp & Hscan)].
  { intros c Hc. destruct first; cbn; [|unfold begin_value]; by rewrite Hc. }
  rewrite <- E in Hs. cbn [array_items]. destruct (skip_spaces bs) as [|c rest] eqn:Ebs; [injection Hs as <-; done|].
  pose proof (skip_head _ _ _ Ebs) as Hc. destruct (decide (c = 93)) as [->|Hne].
  { destruct first; [|done]. exists [], rest, (sp ++ [93]). rewrite bool_decide_true by done.
    split_and!; [done|by apply items_none|by rewrite <- app_assoc|rewrite scan_app, Hscan; done|constructor]. }
  rewrite bool_decide_false by (cbn; congruence).
  assert (scan (BeginValue, B) (c :: rest) = Some fin /\
          forall r, scan (item_state first, B) (c :: r) = scan (BeginValue, B) (c :: r)) as [Hv Hsame].
  { assert (forall r, scan (item_state first, B) (c :: r) = scan (BeginValue, B) (c :: r)) as H; [|by rewrite <- H].
    intros r. destruct first; [|done]. cbn [scan scan_step item_state]. unfold begin_value. rewrite Hc. by replace (c =? 93) with false by lia. }
  destruct (value_in_context B (c :: rest) fin) as (raw & after & sp2 & d & next & t & Hr & Eraw & Hraw & Htight & Eafter & Hskip & Hbody & Hd & Hnext); [done..|].
  rewrite Hr. cbn [mbind option_bind]. rewrite Hskip.
  assert (forall w, scan (item_state first, B) (sp ++ raw ++ w) = scan (BeginValue, B) (raw ++ w)) as Hfrom.
  { intros w. rewrite scan_app, Hscan. cbn [mbind option_bind]. destruct raw as [|c' raw]; [done|]. cbn [app] in *. injection Eraw as <- _. apply Hsame. }
  assert (length bs = length sp + (length raw + (length sp2 + S (length next))))%nat as Hlen.
  { rewrite Hsp, Eraw, Eafter, !length_app. cbn [length]. lia. }
  assert (head (skip_spaces bs) <> Some 93) as Hhead by (rewrite Ebs; cbn; congruence).
  rewrite <- Ebs in Hr. cbn [end_value B] in Hd. rewrite (skip_head _ _ _ Hskip) in Hd. destruct (decide (d = 93)) as [->|].
  - cbn in Hd. injection Hd as <-. exists [raw], next, (sp ++ raw ++ sp2 ++ [93]).
    split_and!; [done|by eapply items_last|rewrite Hsp, Eraw, Eafter; by rewrite <- !app_assoc| |].
    + by rewrite Hfrom, Hbody.
    + constructor; [lia|constructor].
  - destruct (d =? 44) eqn:E44; [|by replace (d =? 93) with false in Hd by lia]. apply Z.eqb_eq in E44 as ->. injection Hd as <-. cbn [Z.eqb Pos.eqb].
    destruct (IH false next outer fin) as (raws & rest' & body & Hitems & Hat & Enext & Hbody' & Hlens); [lia|done..|].
    rewrite Hitems. exists (raw :: raws), rest', (sp ++ raw ++ sp2 ++ [44] ++ body).
    split_and!; [done|by eapply items_more|rewrite Hsp, Eraw, Eafter, Enext; by rewrite <- !app_assoc| |].
    + rewrite Hfrom. replace (raw ++ sp2 ++ [44] ++ body) with ((raw ++ sp2 ++ [44]) ++ body) by (by rewrite <- !app_assoc). rewrite scan_app, Hbody. done.
    + constructor; [lia|]. eapply Forall_impl; [exact Hlens|]. cbn. lia.
Qed.

(** ** Strings *)
Lemma unquote_skip bs : forall k, unquote k bs = unquote 0 (drop k bs).
Proof. induction bs as [|c bs IH]; intros [|k]; try done. cbn [unquote drop]. apply IH. Qed.

Lemma rune_tail c rest r size : DecodeRune (c :: rest) = (r, size) -> 128 <= c ->
  exists tail rem, rest = tail ++ rem /\ (size - 1 = length tail)%nat /\ Forall (fun b => 128 <= b) tail.
Proof.
  unfold DecodeRune. intros H Hc. replace (c <? 128) with false in H by lia. unfold within, cont in H.
  assert (forall r', (65533, 1%nat) = (r', size) -> exists tail rem, rest = tail ++ rem /\ (size - 1 = length tail)%nat /\ Forall (fun b => 128 <= b) tail) as Hbad
    by (intros r' [= _ <-]; by exists [], rest).
  destruct (_ && _) in H.
  { destruct rest as [|b1 rest]; [by apply (Hbad r)|]. destruct (_ && _) eqn:E1 in H; [|by apply (Hbad r)]. injection H as _ <-. prop_hyps.
    exists [b1], rest. split_and!; [done..|]. by repeat constructor. }
  destruct (_ && _) in H.
  { destruct rest as [|b1 [|b2 rest]]; [by apply (Hbad r)..|]. destruct (_ && _) eqn:E1 in H; [|by apply (Hbad r)]. injection H as _ <-. prop_hyps.
    exists [b1; b2], rest. split_and!; [done..|]. repeat constructor; [|done]. destruct (c =? 224); lia. }
  destruct (_ && _) in H; [|by apply (Hbad r)].
  destruct rest as [|b1 [|b2 [|b3 rest]]]; [by apply (Hbad r)..|]. destruct (_ && _) eqn:E1 in H; [|by apply (Hbad r)]. injection H as _ <-. prop_hyps.
  exists [b1; b2; b3], rest. split_and!; [done..|]. repeat constructor; [|done..]. destruct (c =? 240); lia.
Qed.

Lemma scan_high tail : forall rem, Forall (fun b => 128 <= b) tail -> scan (InString, []) (tail ++ rem) = scan (InString, []) rem.
Proof.
  induction tail as [|b tail IH]; intros rem; [done|]. intros [Hb Ht]%Forall_cons. cbn [app scan scan_step].
  replace (b =? 34) with false by lia. replace (b =? 92) with false by lia. replace (b <? 32) with false by lia. by apply IH.
Qed.

Lemma scan_ended bs : forall st s, (st = EndValue \/ st = EndTop) -> scan (st, []) bs = Some s -> s.1 <> InString.
Proof.
  induction bs as [|c bs IH]; intros st s Hst H; cbn [scan] in H; [injection H as <-; by destruct Hst as [-> | ->]|].
  apply bind_Some in H as (s' & H1 & H2). destruct Hst as [-> | ->]; cbn in H1; destruct (json_space c); try done; injection H1 as <-; (eapply IH; [|exact H2]); by right.
Qed.

Lemma hex_value_some c : json_hex c = true -> is_Some (hex_value c).
Proof.
  unfold json_hex, hex_value, within. destruct (json_digit c); [by eexists|]. cbn [orb]. destruct (_ && _); [by eexists|]. cbn [orb]. intros ->. by eexists.
Qed.
Lemma hex_value_hex c v : hex_value c = Some v -> json_hex c = true.
Proof.
  unfold json_hex, hex_value, within. destruct (json_digit c); [done|]. cbn [orb]. destruct (_ && _); [done|]. cbn [orb]. by destruct (_ && _).
Qed.

(** A scanned string body goes on after each escape. *)
Lemma scan_unicode a b c d rem s : scan (InStringEscU 4, []) (a :: b :: c :: d :: rem) = Some s ->
  is_Some (getu4 (92 :: 117 :: a :: b :: c :: d :: rem)) /\ scan (InString, []) rem = Some s.
Proof.
  cbn [scan scan_step]. intros H. do 4 (apply bind_Some in H as (? & Hx & H); cbn [scan_step] in Hx; destruct (json_hex _) eqn:? in Hx; [|done]; injection Hx as <-).
  split; [|done]. cbn [getu4]. cbn [Z.eqb Pos.eqb andb].
  repeat match goal with E : json_hex ?x = true |- _ => apply hex_value_some in E as [? ->] end. by eexists.
Qed.

Lemma getu4_shape bs v : getu4 bs = Some v -> exists a b c d rem, bs = 92 :: 117 :: a :: b :: c :: d :: rem /\ json_hex a = true /\ json_hex b = true /\ json_hex c = true /\ json_hex d = true.
Proof.
  unfold getu4. repeat (case_match; try done). intros Hv.
  repeat match goal with H : mbind _ (hex_value ?x) = Some _ |- _ => let E := fresh in destruct (hex_value x) eqn:E; [|done]; apply hex_value_hex in E; cbn [mbind option_bind] in H end.
  prop_hyps. subst. eauto 20.
Qed.

Lemma scan_unicode_back a b c d rem : json_hex a = true -> json_hex b = true -> json_hex c = true -> json_hex d = true ->
  scan (InString, []) (92 :: 117 :: a :: b :: c :: d :: rem) = scan (InString, []) rem.
Proof. 
  intros Ha Hb Hc Hd. change (scan (InStringEscU 4, []) (a :: b :: c :: d :: rem) = scan (InString, []) rem). cbn [scan scan_step]. rewrite Ha.
  do 3 (cbn [mbind option_bind scan_step]; (rewrite Hb || rewrite Hc || rewrite Hd)). done.
Qed.

Lemma scan_unicode_long k : forall inner, scan (InStringEscU (S k), []) inner = Some (InString, []) -> (S k <= length inner)%nat.
Proof.
  induction k as [|k IH]; intros [|c inner]; cbn [scan scan_step length]; try done; [lia|].
  destruct (json_hex c); [|done]. cbn [mbind option_bind]. intros H%IH. lia.
Qed.

Lemma unquote_total n : forall inner, (length inner <= n)%nat -> scan (InString, []) inner = Some (InString, []) -> is_Some (unquote 0 inner).
Proof.
  induction n as [|n IH]; intros [|c inner] Hn Hs; cbn [length] in Hn; try lia; [by eexists..|].
  assert (forall rem f, (length rem <= n)%nat -> scan (InString, []) rem = Some (InString, []) -> is_Some (out ← unquote 0 rem; Some (f out : list Z))) as Hgo.
  { intros rem f H1 H2. destruct (IH rem H1 H2) as [out ->]. by eexists. }
  cbn [unquote]. destruct (c =? 92) eqn:E92.
  - apply Z.eqb_eq in E92 as ->. destruct inner as [|e inner]; [done|]. change (scan (InStringEsc, []) (e :: inner) = Some (InString, [])) in Hs.
    cbn [length] in Hn. destruct (simple_escape e) as [b|] eqn:Ee.
    + apply Hgo; [lia|]. revert Hs. cbn [scan scan_step]. destruct (existsb _ _); [done|].
      destruct (e =? 117) eqn:E117; [|done]. apply Z.eqb_eq in E117 as ->. done.
    + assert (scan (InStringEscU 4, []) inner = Some (InString, []) /\ e = 117) as [Hu ->].
      { revert Hs. cbn [scan scan_step]. destruct (existsb _ _) eqn:Ex.
        - apply existsb_exists in Ex as (x & Hin & Hx%Z.eqb_eq). subst x. exfalso. revert Hin Ee. vm_compute. intros Hin. by repeat (destruct Hin as [<-|Hin]; [done|]).
        - destruct (e =? 117) eqn:E117; [|done]. apply Z.eqb_eq in E117 as ->. done. }
      destruct inner as [|a [|b [|d [|e inner]]]]; try (by apply scan_unicode_long in Hu; cbn [length] in Hu; lia).
      apply scan_unicode in Hu as [[rr Hrr] Hrem]. rewrite Hrr. cbn [mbind option_bind]. cbn [length] in Hn.
      destruct (within 55296 57343 rr); [|apply Hgo; [lia|done]].
      change (drop 5 (117 :: a :: b :: d :: e :: inner)) with inner. destruct (surrogate_pair rr (getu4 inner)) as [r|] eqn:Ep; [|apply Hgo; [lia|done]].
      destruct (getu4 inner) as [low|] eqn:El; [|done]. apply getu4_shape in El as (a' & b' & c' & d' & rem & -> & H1 & H2 & H3 & H4).
      rewrite scan_unicode_back in Hrem by done. cbn [length] in Hn. apply Hgo; [lia|done].
  - cbn [scan scan_step] in Hs. rewrite E92 in Hs. destruct (c =? 34) eqn:E34.
    { exfalso. cbn [mbind option_bind] in Hs. by apply (scan_ended inner EndValue _ (or_introl eq_refl)) in Hs. }
    destruct (c <? 32) eqn:E32; [done|]. cbn [orb mbind option_bind] in *. destruct (c <? 128) eqn:E128; [apply Hgo; [lia|done]|].
    destruct (DecodeRune (c :: inner)) as [r size] eqn:Er. apply Z.ltb_ge in E128. destruct (rune_tail _ _ _ _ Er E128) as (tail & rem & -> & -> & Ht).
    rewrite scan_high in Hs by done. rewrite unquote_skip, drop_app_length. rewrite length_app in Hn. apply Hgo; [lia|done].
Qed.

Definition in_string (st : scan_state) : bool := match st with InString | InStringEsc | InStringEscU _ => true | _ => false end.

Lemma string_inner bs : forall st v a, in_string st = true -> read_from (st, []) bs = Some (v, a) ->
  exists inner, v = inner ++ [34] /\ scan (st, []) inner = Some (InString, []).
Proof.
  induction bs as [|c bs IH]; intros st v a Hst H; cbn [read_from] in H.
  { destruct st; try done; cbn in H; repeat case_match; done. }
  replace (value_ends (st, []) c) with false in H by (by destruct st). apply bind_Some in H as (s' & Hs & H). apply bind_Some in H as ([v' a'] & H & [= <- <-]).
  assert (exists st', s' = (st', [])) as [st' ->].
  { destruct st; try done; cbn in Hs; repeat case_match; by simplify_eq; eexists. }
  destruct (in_string st') eqn:Hst'.
  - destruct (IH _ _ _ Hst' H) as (inner & -> & Hi). exists (c :: inner). split; [done|]. cbn [scan]. rewrite Hs. done.
  - assert (c = 34 /\ st = InString /\ st' = EndValue) as (-> & -> & ->).
    { destruct st; try done; cbn [scan_step] in Hs; repeat case_match; simplify_eq; try done. by apply Z.eqb_eq in H0 as ->. }
    exists []. split; [|done]. destruct bs as [|d bs]; cbn in H; by simplify_eq.
Qed.

Lemma quoted_total rest raw a : read_value (34 :: rest) = Some (raw, a) -> is_Some (quoted raw).
Proof.
  unfold read_value. cbn [read_from value_ends]. intros H. apply bind_Some in H as (s' & [= <-] & H). apply bind_Some in H as ([v' a'] & H & [= <- <-]).
  apply string_inner in H as (inner & -> & Hs); [|done]. unfold quoted. rewrite reverse_snoc, reverse_involutive. cbn [Z.eqb Pos.eqb andb].
  destruct (unquote_total (length inner) inner) as [out ->]; [done..|]. by eexists.
Qed.

Definition member_at (bs : list Z) (key : string) (raw after : list Z) : Prop :=
  exists name r1 r2, head (skip_spaces bs) = Some 34 /\ read_value (skip_spaces bs) = Some (name, r1) /\ tight name /\ quoted name = Some key /\
    skip_spaces r1 = 58 :: r2 /\ read_value (skip_spaces r2) = Some (raw, after) /\ tight raw.

Inductive members_at : bool -> list Z -> list (string * list Z) -> list Z -> Prop :=
| members_none bs rest : skip_spaces bs = 125 :: rest -> members_at true bs [] rest
| members_last first bs key raw after rest : member_at bs key raw after -> skip_spaces after = 125 :: rest -> members_at first bs [(key, raw)] rest
| members_more first bs key raw after next ms rest :
    member_at bs key raw after -> skip_spaces after = 44 :: next -> members_at false next ms rest -> members_at first bs ((key, raw) :: ms) rest.

Definition key_state (first : bool) : scan_state := if first then BeginStringOrEmpty else BeginString.

(** A name, a colon and a value. *)
Lemma member_total outer bs fin : scan (BeginString, ParseObjectKey :: outer) bs = Some fin -> fin.2 = [] -> head (skip_spaces bs) = head bs ->
  exists key raw after c rest body, member_at bs key raw after /\ bs = body ++ rest /\ (length raw < length bs)%nat /\ (length rest < length bs)%nat /\
    skip_spaces after = c :: rest /\ 
    (exists t, scan (BeginString, ParseObjectKey :: outer) body = Some t /\ end_value (ParseObjectValue :: outer) c = Some t /\ scan t rest = Some fin).
Proof.
  intros Hs Hf Hhead. destruct bs as [|c bs]; [injection Hs as <-; done|].
  assert (c = 34) as ->.
  { cbn [skip_spaces scan scan_step] in *. unfold begin_string in Hs. destruct (json_space c) eqn:Hc; [|destruct (c =? 34) eqn:E; [by apply Z.eqb_eq|done]].
    exfalso. cbn in Hhead. destruct (skip_spaces bs) as [|d r] eqn:Ed; [done|]. injection Hhead as ->. by rewrite (skip_head _ _ _ Ed) in Hc. }
  destruct (value_in_context (ParseObjectKey :: outer) (34 :: bs) fin) as (name & r1 & sp & d & r2 & t & Hr & Ename & Hname & Htight & Er1 & Hskip & Hbody & Hd & Hnext); [done..|].
  destruct (quoted_total _ _ _ Hr) as [key Hkey].
  cbn [end_value] in Hd. rewrite (skip_head _ _ _ Hskip) in Hd. destruct (d =? 58) eqn:E58; [|done]. apply Z.eqb_eq in E58 as ->. injection Hd as <-.
  destruct (skip_idle (BeginValue, ParseObjectValue :: outer) r2) as [E (sp2 & Hsp2 & Hscan2)]; [intros c Hc; cbn; unfold begin_value; by rewrite Hc|].
  rewrite <- E in Hnext.
  destruct (value_in_context (ParseObjectValue :: outer) (skip_spaces r2) fin) as (raw & after & sp3 & e & rest & t & Hr' & Eraw & Hraw & Htight' & Eafter & Hskip' & Hbody' & He & Hrest); [done..|].
  exists key, raw, after, e, rest, (name ++ (sp ++ [58]) ++ sp2 ++ raw ++ sp3 ++ [e]).
  assert (34 :: bs = (name ++ (sp ++ [58]) ++ sp2 ++ raw ++ sp3 ++ [e]) ++ rest) as Ebs.
  { rewrite Ename, Er1, Hsp2, Eraw, Eafter. by rewrite <- !app_assoc. }
  assert (length name <> 0)%nat by (by destruct name).
  split_and!; [|done|..].
  - exists name, r1, r2. split_and!; try done.
  - rewrite Ebs, !length_app. cbn [length]. lia.
  - rewrite Ebs, !length_app. cbn [length]. lia.
  - done.
  - exists t. split_and!; try done. destruct name as [|c' name]; [done|]. injection Ename as <- _.
    change (scan (BeginString, ParseObjectKey :: outer) ((34 :: name) ++ (sp ++ [58]) ++ sp2 ++ raw ++ sp3 ++ [e]))
      with (scan (BeginValue, ParseObjectKey :: outer) ((34 :: name) ++ (sp ++ [58]) ++ sp2 ++ raw ++ sp3 ++ [e])).
    rewrite app_assoc, scan_app, Hbody. cbn [mbind option_bind]. rewrite scan_app, Hscan2. done.
Qed.

Lemma members_total n : forall first bs outer fin, (length bs < n)%nat -> scan (key_state first, ParseObjectKey :: outer) bs = Some fin -> fin.2 = [] ->
  exists ms rest body, object_members n bs = Some ms /\ members_at first bs ms rest /\ bs = body ++ rest /\
    scan (key_state first, ParseObjectKey :: outer) body = Some (after_pop outer) /\ Forall (fun m => (length m.2 < length bs)%nat) ms.
Proof.
  induction n as [|n IH]; intros first bs outer fin Hn Hs Hf; [lia|]. set (B := ParseObjectKey :: outer) in *.
  destruct (skip_idle (key_state first, B) bs) as [E (sp & Hsp & Hscan)].
  { intros c Hc. destruct first; cbn; [|unfold begin_string]; by rewrite Hc. }
  rewrite <- E in Hs. cbn [object_members]. destruct (skip_spaces bs) as [|c rest] eqn:Ebs; [injection Hs as <-; done|].
  pose proof (skip_head _ _ _ Ebs) as Hc. destruct (decide (c = 125)) as [->|Hne].
  { destruct first; [|done]. exists [], rest, (sp ++ [125]). rewrite bool_decide_true by done.
    split_and!; [done|by apply members_none|by rewrite <- app_assoc|rewrite scan_app, Hscan; done|constructor]. }
  rewrite bool_decide_false by (cbn; congruence).
  assert (forall r, scan (key_state first, B) (c :: r) = scan (BeginString, B) (c :: r)) as Hsame.
  { intros r. destruct first; [|done]. cbn [scan scan_step key_state]. unfold begin_string. rewrite Hc. by replace (c =? 125) with false by lia. }
  rewrite Hsame in Hs.
  destruct (member_total outer (c :: rest) fin) as (key & raw & after & d & next & body & Hm & Ebody & Hraw & Hlen & Hskip & t & Hbody & Hd & Hnext);
    [done..|by rewrite skip_spaces_id|].
  assert (length bs = length sp + length (c :: rest))%nat as Hbs by (rewrite Hsp, length_app; done).
  assert (member_at bs key raw after) as Hm'.
  { destruct Hm as (name & r1 & r2 & H1 & H2 & H3). exists name, r1, r2. rewrite skip_spaces_id in H1, H2 by done. by rewrite Ebs. }
  assert (exists b, body = c :: b) as [b ->].
  { destruct body as [|x b]; cbn [app] in Ebody; [by rewrite <- Ebody in Hlen; lia|]. injection Ebody as <- _. by exists b. }
  assert (forall w, scan (key_state first, B) (sp ++ (c :: b) ++ w) = t' ← Some t; scan t' w) as Hfrom.
  { intros w. rewrite scan_app, Hscan. cbn [mbind option_bind]. change ((c :: b) ++ w) with (c :: b ++ w). rewrite Hsame.
    change (c :: b ++ w) with ((c :: b) ++ w). rewrite scan_app. unfold B. by rewrite Hbody. }
  destruct Hm as (name & r1 & r2 & H1 & H2 & H3 & H4 & H5 & H6 & H7). rewrite skip_spaces_id in H2 by done.
  rewrite H2. cbn [mbind option_bind]. rewrite H4. cbn [mbind option_bind]. rewrite H5. cbn [Z.eqb Pos.eqb]. rewrite H6. cbn [mbind option_bind]. rewrite Hskip.
  cbn [end_value] in Hd. rewrite (skip_head _ _ _ Hskip) in Hd. destruct (decide (d = 125)) as [->|].
  - cbn in Hd. injection Hd as <-. exists [(key, raw)], next, (sp ++ (c :: b) ++ []).
    split_and!; [done|by eapply members_last|rewrite Hsp, Ebody, app_nil_r; by rewrite <- !app_assoc|by rewrite Hfrom|]. constructor; [cbn [snd]; lia|constructor].
  - destruct (d =? 44) eqn:E44; [|by replace (d =? 125) with false in Hd by lia]. apply Z.eqb_eq in E44 as ->. injection Hd as <-. cbn [Z.eqb Pos.eqb].
    destruct (IH false next outer fin) as (ms & rest' & body' & Hitems & Hat & Enext & Hbody' & Hlens); [lia|done..|].
    rewrite Hitems. exists ((key, raw) :: ms), rest', (sp ++ (c :: b) ++ body').
    split_and!; [done|by eapply members_more|rewrite Hsp, Ebody, Enext; by rewrite <- !app_assoc|by rewrite Hfrom|].
    constructor; [cbn [snd]; lia|]. eapply Forall_impl; [exact Hlens|]. cbn. lia.
Qed.

(** ** Whole texts *)
Lemma well_end F c s : end_value F c = Some s -> well s.
Proof. destruct F as [|p F]; cbn; (destruct (json_space c); [by intros [= <-]|]); [done|]. destruct p; repeat case_match; intros; simplify_eq; try done; apply after_pop_well. Qed.

Lemma well_begin F c s : begin_value F c = Some s -> well s.
Proof. unfold begin_value, push. repeat case_match; intros; by simplify_eq. Qed.

Lemma well_step s c s' : well s -> scan_step s c = Some s' -> well s'.
Proof.
  destruct s as [st [|p F]]; intros Hw; destruct st; try done; cbn [scan_step]; unfold num0, exp_sign, begin_string; intros H;
    try (by apply well_begin in H); try (by apply well_end in H);
    repeat (case_match; try done); simplify_eq; try done; try (by eapply well_begin); try (by eapply well_end).
Qed.

Lemma well_scan bs : forall s s', well s -> scan s bs = Some s' -> well s'.
Proof. induction bs as [|c bs IH]; intros s s' Hw H; cbn [scan] in H; [by simplify_eq|]. apply bind_Some in H as (s1 & H1 & H2). eapply IH; [|exact H2]. by eapply well_step. Qed.

Lemma accepts_top s : well s -> accepts s = true -> s.2 = [].
Proof.
  destruct s as [st [|p F]]; [done|]. intros Hw. unfold accepts. destruct st; try done; cbn [fst scan_step json_space Z.eqb Pos.eqb orb].
  all: cbn; unfold num0, exp_sign, begin_string; cbn; repeat (case_match; try done); intros; simplify_eq; done.
Qed.

Lemma valid_scan text : json_valid text = true -> exists fin, scan (BeginValue, []) text = Some fin /\ accepts fin = true /\ well fin /\ fin.2 = [].
Proof.
  unfold json_valid. destruct (scan _ _) as [fin|] eqn:E; [|done]. intros Ha. assert (well fin) as Hw by (by eapply well_scan; [|exact E]).
  exists fin. split_and!; try done. by apply accepts_top.
Qed.

Lemma ended_spaces bs : forall s, scan (EndTop, []) bs = Some s -> skip_spaces bs = [].
Proof. induction bs as [|c bs IH]; intros s; [done|]. cbn. destruct (json_space c); [|done]. cbn. apply IH. Qed.

Lemma value_ends_space s c s' : well s -> value_ends s c = true -> scan_step s c = Some s' -> json_space c = true /\ s' = (EndTop, []).
Proof.
  destruct s as [[] [|]]; try done; intros _; cbn [value_ends scan_step]; unfold num0; cbn [end_value]; intros He;
    destruct (json_digit c), (c =? 46), (c =? 101), (c =? 69); cbn in He |- *; try done; destruct (json_space c); try done; by intros [= <-].
Qed.

(** The value of a valid text, with space around it. *)
Lemma read_top bs : forall s fin, well s -> scan s bs = Some fin -> accepts fin = true ->
  exists v a s1, read_from s bs = Some (v, a) /\ skip_spaces a = [] /\ scan s v = Some s1 /\ accepts s1 = true /\ read_from s v = Some (v, []).
Proof.
  induction bs as [|c bs IH]; intros s fin Hw Hs Ha; cbn [scan read_from] in *.
  { injection Hs as ->. exists [], [], fin. unfold accepts in Ha. cbn [read_from]. split_and!; try done; repeat case_match; done. }
  apply bind_Some in Hs as (s' & Hs' & Hs). destruct (value_ends s c) eqn:He.
  - destruct (value_ends_space _ _ _ Hw He Hs') as [Hc ->]. pose proof (value_ends_accepts _ _ He) as Hacc. exists [], (c :: bs), s. unfold accepts in Hacc.
    split_and!; try done; [cbn; rewrite Hc; by eapply ended_spaces|cbn [read_from]; repeat case_match; done].
  - rewrite Hs'. cbn [mbind option_bind]. assert (well s') as Hw' by (by eapply well_step).
    destruct (IH _ _ Hw' Hs Ha) as (v & a & s1 & Hr & Hsp & Hv & Hacc & Halone). rewrite Hr. exists (c :: v), a, s1. split_and!; try done; cbn [scan read_from].
    + by rewrite Hs'.
    + rewrite He, Hs'. cbn [mbind option_bind]. by rewrite Halone.
Qed.

Lemma read_value_cons bs raw a : read_value bs = Some (raw, a) -> exists c tail, raw = c :: tail /\ head bs = Some c.
Proof.
  unfold read_value. destruct bs as [|c bs]; [done|]. cbn [read_from value_ends]. intros H. apply bind_Some in H as (s & _ & H).
  apply bind_Some in H as ([v a'] & _ & [= <- <-]). by exists c, v.
Qed.

(** ** What follows a container does not matter *)
Lemma skip_nonempty bs c rest : skip_spaces bs = c :: rest -> bs <> [].
Proof. by destruct bs. Qed.

Lemma skip_app_head bs z : skip_spaces bs <> [] -> skip_spaces (bs ++ z) = skip_spaces bs ++ z.
Proof. destruct (skip_spaces bs) as [|c r] eqn:E; [done|]. intros _. by rewrite (skip_app _ z _ _ E). Qed.

Lemma read_skipped bs z raw after : read_value (skip_spaces bs) = Some (raw, after) -> after <> [] ->
  read_value (skip_spaces (bs ++ z)) = Some (raw, after ++ z) /\ head (skip_spaces (bs ++ z)) = head (skip_spaces bs).
Proof.
  intros H Ha. destruct (read_value_cons _ _ _ H) as (c & tail & _ & Hh). destruct (skip_spaces bs) as [|c' r] eqn:E; [done|].
  rewrite (skip_app _ z _ _ E). split; [|done]. by apply (read_local z (c' :: r)).
Qed.

Lemma items_local z first bs raws rest : items_at first bs raws rest -> items_at first (bs ++ z) raws (rest ++ z).
Proof.
  induction 1 as [bs rest E|first bs raw after rest Hh Hr Ht E|first bs raw after next raws rest Hh Hr Ht E _ IH].
  - apply items_none. by rewrite (skip_app _ z _ _ E).
  - destruct (read_skipped bs z raw after Hr (skip_nonempty _ _ _ E)) as [Hr' Hh']. eapply items_last; [by rewrite Hh'|exact Hr'|done|]. by rewrite (skip_app _ z _ _ E).
  - destruct (read_skipped bs z raw after Hr (skip_nonempty _ _ _ E)) as [Hr' Hh']. eapply items_more; [by rewrite Hh'|exact Hr'|done| |exact IH]. by rewrite (skip_app _ z _ _ E).
Qed.

Lemma member_local z bs key raw after : member_at bs key raw after -> after <> [] -> member_at (bs ++ z) key raw (after ++ z).
Proof.
  intros (name & r1 & r2 & H1 & H2 & H3 & H4 & H5 & H6 & H7) Ha.
  destruct (read_skipped bs z name r1 H2 (skip_nonempty _ _ _ H5)) as [H2' H1'].
  destruct (read_skipped r2 z raw after H6 Ha) as [H6' _].
  exists name, (r1 ++ z), (r2 ++ z). rewrite H1', (skip_app _ z _ _ H5). by split_and!.
Qed.

Lemma members_local z first bs ms rest : members_at first bs ms rest -> members_at first (bs ++ z) ms (rest ++ z).
Proof.
  induction 1 as [bs rest E|first bs key raw after rest Hm E|first bs key raw after next ms rest Hm E _ IH].
  - apply members_none. by rewrite (skip_app _ z _ _ E).
  - eapply members_last; [by apply (member_local z), (skip_nonempty _ _ _ E)|]. by rewrite (skip_app _ z _ _ E).
  - eapply members_more; [by apply (member_local z), (skip_nonempty _ _ _ E)| |exact IH]. by rewrite (skip_app _ z _ _ E).
Qed.

(** The decoder follows the description, whatever comes after the container. *)
Lemma skip_length bs : (length (skip_spaces bs) <= length bs)%nat.
Proof. induction bs as [|c bs IH]; [done|]. cbn. destruct (json_space c); cbn; lia. Qed.

Lemma read_skip_length bs raw after : read_value (skip_spaces bs) = Some (raw, after) -> (length after < length bs)%nat.
Proof.
  intros H. destruct (read_value_cons _ _ _ H) as (c & tail & -> & _). apply read_split in H. pose proof (skip_length bs) as Hl.
  rewrite H, length_app in Hl. cbn [length] in Hl. lia.
Qed.

Lemma skip_tail_length bs c rest : skip_spaces bs = c :: rest -> (length rest < length bs)%nat.
Proof. intros E. pose proof (skip_length bs) as Hl. rewrite E in Hl. cbn [length] in Hl. lia. Qed.

Lemma items_decode first bs raws rest : items_at first bs raws rest -> forall n, (length bs < n)%nat -> array_items n bs = Some raws.
Proof.
  induction 1 as [bs rest E|first bs raw after rest Hh Hr Ht E|first bs raw after next raws rest Hh Hr Ht E _ IH]; intros [|n] Hn; try lia; cbn [array_items].
  - by rewrite bool_decide_true by (by rewrite E).
  - rewrite bool_decide_false, Hr by done. cbn [mbind option_bind]. by rewrite E.
  - rewrite bool_decide_false, Hr by done. cbn [mbind option_bind]. rewrite E. cbn [Z.eqb Pos.eqb].
    pose proof (read_skip_length _ _ _ Hr). pose proof (skip_tail_length _ _ _ E). by rewrite IH by lia.
Qed.

Lemma member_lengths bs key raw after : member_at bs key raw after -> (length after < length bs)%nat.
Proof.
  intros (name & r1 & r2 & _ & H2 & _ & _ & H5 & H6 & _). pose proof (read_skip_length _ _ _ H2). pose proof (read_skip_length _ _ _ H6).
  pose proof (skip_tail_length _ _ _ H5). lia.
Qed.

Lemma member_decode n bs key raw after : member_at bs key raw after ->
  object_members (S n) bs =
    match skip_spaces after with
    | c :: rest => if c =? 125 then Some [(key, raw)] else if c =? 44 then more ← object_members n rest; Some ((key, raw) :: more) else None
    | [] => None
    end.
Proof.
  intros (name & r1 & r2 & H1 & H2 & _ & H4 & H5 & H6 & _). cbn [object_members]. rewrite bool_decide_false by (by rewrite H1).
  rewrite H2. cbn [mbind option_bind]. rewrite H4. cbn [mbind option_bind]. rewrite H5. cbn [Z.eqb Pos.eqb]. by rewrite H6.
Qed.

Lemma members_decode first bs ms rest : members_at first bs ms rest -> forall n, (length bs < n)%nat -> object_members n bs = Some ms.
Proof.
  induction 1 as [bs rest E|first bs key raw after rest Hm E|first bs key raw after next ms rest Hm E _ IH]; intros [|n] Hn; try lia.
  - cbn [object_members]. by rewrite bool_decide_true by (by rewrite E).
  - rewrite (member_decode _ _ _ _ _ Hm), E. done.
  - rewrite (member_decode _ _ _ _ _ Hm), E. cbn [Z.eqb Pos.eqb]. pose proof (member_lengths _ _ _ _ Hm). pose proof (skip_tail_length _ _ _ E).
    by rewrite IH by lia.
Qed.

(** ** Taking a valid text apart *)
Definition solid (raw : list Z) : Prop := tight raw /\ skip_spaces raw = raw.

Lemma read_solid bs raw after : read_value (skip_spaces bs) = Some (raw, after) -> tight raw -> solid raw.
Proof.
  intros H Ht. split; [done|]. destruct (read_value_cons _ _ _ H) as (c & tail & -> & Hc). destruct (skip_spaces bs) as [|c' r] eqn:E; [done|]. injection Hc as ->.
  apply skip_spaces_id. by eapply skip_head.
Qed.

Definition leaf (v : json_value) : Prop := match v with JArray _ | JObject _ => False | _ => True end.

(** A container ends with its closing bracket. *)
Lemma container_ends c tail body rest : tight (c :: tail) -> tail = body ++ rest -> scan (BeginValue, []) (c :: body) = Some (EndTop, []) -> rest = [].
Proof.
  intros [Hr _] -> Hs. destruct rest as [|d rest]; [done|]. exfalso.
  pose proof (read_stops (c :: body) (BeginValue, []) rest (EndTop, []) d _ _ Hr Hs eq_refl) as Hl. cbn [length] in Hl. rewrite length_app in Hl. cbn [length] in Hl. lia.
Qed.

Lemma decode_solid raw : solid raw ->
  (exists tail ms, raw = 123 :: tail /\ json_decode raw = Some (JObject ms) /\ members_at true tail ms [] /\ Forall (fun m => (length m.2 < length raw)%nat) ms) \/
  (exists tail raws, raw = 91 :: tail /\ json_decode raw = Some (JArray raws) /\ items_at true tail raws [] /\ Forall (fun r => (length r < length raw)%nat) raws) \/
  (exists c tail v, raw = c :: tail /\ c <> 123 /\ c <> 91 /\ json_decode raw = Some v /\ leaf v).
Proof.
  intros [Ht Hsp]. pose proof Ht as [Hr Hv]. destruct (valid_scan _ Hv) as (fin & Hs & Ha & Hw & Hf).
  destruct (read_value_cons _ _ _ Hr) as (c & tail & -> & _). unfold json_decode. rewrite Hv, Hsp. cbn [negb].
  destruct (c =? 123) eqn:E1; [apply Z.eqb_eq in E1 as ->; left|right; destruct (c =? 91) eqn:E2; [apply Z.eqb_eq in E2 as ->; left|right]].
  - change (scan (BeginStringOrEmpty, [ParseObjectKey]) tail = Some fin) in Hs.
    destruct (members_total (S (length tail)) true tail [] fin) as (ms & rest & body & Hd & Hat & E & Hb & Hl); [lia|done..|].
    pose proof (container_ends _ _ _ _ Ht E Hb) as ->. exists tail, ms. rewrite Hd. split_and!; try done. eapply Forall_impl; [exact Hl|]. cbn. lia.
  - change (scan (BeginValueOrEmpty, [ParseArrayValue]) tail = Some fin) in Hs.
    destruct (items_total (S (length tail)) true tail [] fin) as (raws & rest & body & Hd & Hat & E & Hb & Hl); [lia|done..|].
    pose proof (container_ends _ _ _ _ Ht E Hb) as ->. exists tail, raws. rewrite Hd. split_and!; try done. eapply Forall_impl; [exact Hl|]. cbn. lia.
  - rewrite Hr. cbn [mbind option_bind]. exists c, tail. prop_hyps. destruct (c =? 34) eqn:E3.
    + apply Z.eqb_eq in E3 as ->. destruct (quoted_total _ _ _ Hr) as [s ->]. by eexists.
    + destruct (c =? 116); [by eexists|]. destruct (c =? 102); [by eexists|]. destruct (c =? 110); by eexists.
Qed.

(** A valid text is a solid value between space, and decodes as that value does. *)
Lemma decode_text text : json_valid text = true -> exists raw after, skip_spaces text = raw ++ after /\ solid raw /\ skip_spaces after = [] /\
  read_value (skip_spaces text) = Some (raw, after) /\ json_decode text = json_decode raw.
Proof.
  intros Hv. destruct (valid_scan _ Hv) as (fin & Hs & Ha & Hw & Hf).
  destruct (skip_idle (BeginValue, []) text) as [E (sp & Hsp & _)]; [intros c Hc; cbn; unfold begin_value; by rewrite Hc|]. rewrite <- E in Hs.
  destruct (read_top _ _ _ (I : well (BeginValue, [])) Hs Ha) as (raw & after & s1 & Hr & Hsa & Hraw & Hacc & Halone).
  assert (tight raw) as Ht by (split; [done|unfold json_valid; by rewrite Hraw]).
  pose proof (read_solid _ _ _ Hr Ht) as Hsolid. pose proof (read_split _ _ _ _ Hr) as Esplit.
  exists raw, after. split_and!; try done. destruct (decode_solid raw Hsolid) as [(tail & ms & -> & Hd & Hat & _)|[(tail & raws & -> & Hd & Hat & _)|(c & tail & v & -> & H1 & H2 & Hd & _)]].
  - rewrite Hd. unfold json_decode. rewrite Hv, Esplit. cbn [negb app Z.eqb Pos.eqb].
    apply (members_local after) in Hat. by rewrite (members_decode _ _ _ _ Hat) by lia.
  - rewrite Hd. unfold json_decode. rewrite Hv, Esplit. cbn [negb app Z.eqb Pos.eqb].
    apply (items_local after) in Hat. by rewrite (items_decode _ _ _ _ Hat) by lia.
  - destruct Hsolid as [[Hr' Hv'] Hsp']. unfold json_decode. rewrite Hv, Hv', Esplit, Hsp'. cbn [negb app]. change (c :: tail ++ after) with ((c :: tail) ++ after).
    rewrite <- Esplit. unfold read_value in *. rewrite Hr, Hr'. replace (c =? 123) with false by lia. by replace (c =? 91) with false by lia.
Qed.

(** Decoding a valid text never fails. *)
Lemma json_decode_total text : is_Some (json_decode text) <-> json_valid text = true.
Proof.
  split; [intros [v H]; by apply json_decode_cases in H as [? _]|]. intros Hv. destruct (decode_text _ Hv) as (raw & after & _ & Hs & _ & _ & ->).
  destruct (decode_solid raw Hs) as [(? & ? & _ & -> & _)|[(? & ? & _ & -> & _)|(? & ? & ? & _ & _ & _ & -> & _)]]; by eexists.
Qed.
