(* ===== verification/JSONAny.v ===== *)
(** * JSON values of any kind: decoding into [any] and encoding again

    What [encoding/json] does with a target of type [map[string]any] under [UseNumber], and
    with such a value in [Marshal]: nested maps, slices, strings, numbers kept as their
    text, booleans and null. A Go map is the list of its entries in the order of its keys,
    which is also the order in which [Marshal] writes them. Without [UseNumber] a number is a
    float64, and one out of its range fails the decoding ([decode_value]). The main lemmas:
    decoding is total on valid texts and returns well-formed values ([decode_any_total]), an
    encoded value decodes to itself ([decode_encoded]), and to its floats without [UseNumber]
    ([floats_decoded]). *)
From Stdlib Require Import ZArith Lia Bool Ascii String SpecFloat Sorting.Sorted.
From stdpp Require Import base tactics option list strings gmap fin_maps.
From S2P Require Import Prelude Identifiers Unicode Encoding JSON JSONDecode JSONFraming.

Inductive any :=
| ANull | ABool (value : bool) | ANumber (text : list Z) | AString (value : string)
| AArray (items : list any) | AObject (entries : list (string * any)).

(** ** Decoding *)

(** [m[key] = value] *)
Fixpoint assign {A : Type} (key : string) (value : A) (entries : list (string * A)) : list (string * A) :=
  match entries with
  | [] => [(key, value)]
  | (k, v) :: rest =>
      if String.eqb key k then (key, value) :: rest
      else if String.ltb key k then (key, value) :: entries else (k, v) :: assign key value rest
  end.

Definition any_leaf (v : json_value) : option any :=
  match v with
  | JNull => Some ANull | JBool b => Some (ABool b) | JNumber text => Some (ANumber text) | JString s => Some (AString s)
  | JArray _ | JObject _ => None
  end.

Fixpoint any_of (fuel : nat) (text : list Z) : option any :=
  match fuel with
  | O => None
  | S fuel =>
      v ← json_decode text;
      match v with
      | JArray raws => AArray <$> mapM (any_of fuel) raws
      | JObject members =>
          entries ← mapM (fun m : string * list Z => pair m.1 <$> any_of fuel m.2) members;
          Some (AObject (foldl (fun es e => assign e.1 e.2 es) [] entries))
      | leaf => any_leaf leaf
      end
  end.

(** A value nested in a text is shorter than the text, so its length is enough fuel. *)
Definition decode_any (text : list Z) : option any := any_of (S (length text)) text.

(** The same without [UseNumber]: [convertNumber] parses every number as a float64. An error
    is kept until the end and then returned, also for a value that a later entry with the same
    name replaces. *)
Inductive value :=
| VNull | VBool (b : bool) | VFloat (f : spec_float) | VString (s : string)
| VArray (items : list value) | VObject (entries : list (string * value)).

Fixpoint value_of (fuel : nat) (text : list Z) : option value :=
  match fuel with
  | O => None
  | S fuel =>
      v ← json_decode text;
      match v with
      | JNull => Some VNull
      | JBool b => Some (VBool b)
      | JNumber t => VFloat <$> ParseFloat t
      | JString s => Some (VString s)
      | JArray raws => VArray <$> mapM (value_of fuel) raws
      | JObject members =>
          entries ← mapM (fun m : string * list Z => pair m.1 <$> value_of fuel m.2) members;
          Some (VObject (foldl (fun es e => assign e.1 e.2 es) [] entries))
      end
  end.

Definition decode_value (text : list Z) : option value := value_of (S (length text)) text.

(** ** Encoding *)
Definition hex_digit (n : Z) : Z := if n <? 10 then 48 + n else 87 + n.
Definition html_safe (c : Z) : bool := (32 <=? c) && negb (existsb (Z.eqb c) (34 :: 92 :: bytes_of "&<>")).

Definition escape_byte (c : Z) : list Z :=
  if (c =? 34) || (c =? 92) then [92; c]
  else if c =? 8 then bytes_of "\b" else if c =? 12 then bytes_of "\f" else if c =? 10 then bytes_of "\n"
  else if c =? 13 then bytes_of "\r" else if c =? 9 then bytes_of "\t"
  else bytes_of "\u00" ++ [hex_digit (c / 16); hex_digit (c mod 16)].

(** [appendString]: [skip] bytes belong to the rune just written. *)
Fixpoint escape (skip : nat) (bs : list Z) : list Z :=
  match bs with
  | [] => []
  | c :: rest =>
      match skip with
      | S n => escape n rest
      | O =>
          if c <? 128 then (if html_safe c then [c] else escape_byte c) ++ escape 0 rest
          else
            let '(r, size) := DecodeRune bs in
            (if (r =? 65533) && Nat.eqb size 1 then bytes_of "\ufffd"
             else if (r =? 8232) || (r =? 8233) then bytes_of "\u202" ++ [hex_digit (r mod 16)]
             else take size bs) ++ escape (size - 1) rest
      end
  end.

Definition encode_string (s : string) : list Z := 34 :: escape 0 (bytes_of s) ++ [34].

Fixpoint comma_joined (items : list (list Z)) : list Z :=
  match items with [] => [] | [item] => item | item :: rest => item ++ 44 :: comma_joined rest end.

Fixpoint encode_any (v : any) : list Z :=
  match v with
  | ANull => bytes_of "null"
  | ABool b => bytes_of (if b then "true" else "false")
  | ANumber text => text
  | AString s => encode_string s
  | AArray items => 91 :: comma_joined (encode_any <$> items) ++ [93]
  | AObject entries => 123 :: comma_joined ((fun e : string * any => encode_string e.1 ++ 58 :: encode_any e.2) <$> entries) ++ [125]
  end.

Example encoded : encode_any (AObject [("a", AArray [ANumber [49]; ANull]); ("b<", AString "x")])%string = json_text "{'a':[1,null],'b\u003c':'x'}".
Proof. reflexivity. Qed.
Example decoded : encode_any <$> decode_any (json_text " {'b': {}, 'a' : [1.50, true], 'b': '\u003c\n'} ") = Some (json_text "{'a':[1.50,true],'b':'\u003c\n'}").
Proof. vm_compute. reflexivity. Qed.

(** ** Well-formed values *)
Definition number_end (st : scan_state) : bool := match st with Num1 | Num0 | Dot0 | Exp0 => true | _ => false end.
Definition number_state (st : scan_state) : bool := match st with Neg | Dot | Exp | ExpSign => true | _ => number_end st end.

Definition number_text (text : list Z) : bool :=
  match text with
  | c :: rest =>
      negb (json_space c) && match scan_step (BeginValue, []) c with
      | Some (st, []) => number_state st && match scan (st, []) rest with Some (fin, []) => number_end fin | _ => false end
      | _ => false
      end
  | [] => false
  end.

Fixpoint ascending (keys : list string) : bool :=
  match keys with
  | a :: rest => match rest with b :: _ => String.ltb a b && ascending rest | [] => true end
  | [] => true
  end.

Definition text_ok (s : string) : bool := bool_decide (is_Some (decode (bytes_of s))).

Fixpoint well_formed (v : any) : bool :=
  match v with
  | ANull | ABool _ => true
  | ANumber text => number_text text
  | AString s => text_ok s
  | AArray items => forallb well_formed items
  | AObject entries => ascending (fst <$> entries) && forallb (fun e : string * any => text_ok e.1 && well_formed e.2) entries
  end.

Fixpoint depth (v : any) : nat :=
  match v with
  | AArray items => S (foldr (fun i n => Nat.max (depth i) n) O items)
  | AObject entries => S (foldr (fun (e : string * any) n => Nat.max (depth e.2) n) O entries)
  | _ => O
  end.

Lemma any_nested (P : any -> Prop) :
  P ANull -> (forall b, P (ABool b)) -> (forall t, P (ANumber t)) -> (forall s, P (AString s)) ->
  (forall l, Forall P l -> P (AArray l)) -> (forall es, Forall (fun e : string * any => P e.2) es -> P (AObject es)) -> forall v, P v.
Proof.
  intros Hnull Hbool Hnum Hstr Harr Hobj. fix IH 1. intros [|b|t|s|l|es]; [done|apply Hbool|apply Hnum|apply Hstr|apply Harr|apply Hobj].
  - induction l as [|x l IHl]; constructor; [apply IH|exact IHl].
  - induction es as [|[k x] es IHl]; constructor; [apply IH|exact IHl].
Qed.

(** ** Strings *)

(** A valid multi-byte rune: decoding takes its bytes, whatever follows. *)
Lemma multibyte c rest : is_Some (decode (c :: rest)) -> 128 <= c ->
  exists r tail rem, rest = tail ++ rem /\ tail <> [] /\ (forall z, DecodeRune (c :: tail ++ z) = (r, S (length tail))) /\ EncodeRune r = c :: tail /\
    is_Some (decode rem) /\ Forall (fun b => 128 <= b) tail.
Proof.
  intros [rs E] Hc. cbn [decode] in E. unfold within, cont in E. replace (c <? 128) with false in E by lia.
  destruct (_ && _) eqn:H2 in E.
  { destruct rest as [|b1 rest]; [done|]. destruct (_ && _) eqn:H1 in E; [|done]. apply bind_Some in E as (rs' & E & _). prop_hyps.
    exists ((c - 192) * 64 + (b1 - 128)), [b1], rest. split_and!; [done|done| | |by eexists|by repeat constructor].
    - intros z. unfold DecodeRune, within, cont. cbn [app]. replace (c <? 128) with false by lia. utf8_cases.
    - unfold EncodeRune, valid_rune, within. replace (((c - 192) * 64 + (b1 - 128)) / 64) with (c - 192) by (apply Z.div_unique with (b1 - 128); lia).
      replace (((c - 192) * 64 + (b1 - 128)) mod 64) with (b1 - 128) by (apply Z.mod_unique with (c - 192); lia). utf8_cases. repeat f_equal; lia. }
  destruct (_ && _) eqn:H3 in E.
  { destruct rest as [|b1 [|b2 rest]]; [done..|]. destruct (_ && _) eqn:H1 in E; [|done]. apply bind_Some in E as (rs' & E & _). apply andb_prop in H1 as [H1 H4]. prop_hyps.
    assert (128 <= b1 <= 191 /\ (c = 224 -> 160 <= b1) /\ (c = 237 -> b1 <= 159)) as (? & ? & ?) by (destruct (Z.eqb_spec c 224), (Z.eqb_spec c 237); lia).
    exists ((c - 224) * 4096 + (b1 - 128) * 64 + (b2 - 128)), [b1; b2], rest. split_and!; [done|done| | |by eexists|by repeat constructor; lia].
    - intros z. unfold DecodeRune, within, cont. cbn [app]. replace (c <? 128) with false by lia. utf8_cases.
    - set (r := _ + (b2 - 128)). unfold EncodeRune, valid_rune, within. replace (r / 4096) with (c - 224) by (apply Z.div_unique with ((b1 - 128) * 64 + (b2 - 128)); lia).
      replace (r / 64) with ((c - 224) * 64 + (b1 - 128)) by (apply Z.div_unique with (b2 - 128); lia).
      replace (((c - 224) * 64 + (b1 - 128)) mod 64) with (b1 - 128) by (apply Z.mod_unique with (c - 224); lia).
      replace (r mod 64) with (b2 - 128) by (apply Z.mod_unique with ((c - 224) * 64 + (b1 - 128)); lia). unfold r. utf8_cases; repeat f_equal; lia. }
  destruct (_ && _) eqn:H4 in E; [|done].
  destruct rest as [|b1 [|b2 [|b3 rest]]]; [done..|]. destruct (_ && _) eqn:H1 in E; [|done]. apply bind_Some in E as (rs' & E & _).
  apply andb_prop in H1 as [[H1 H5]%andb_prop H6]. prop_hyps.
  assert (128 <= b1 <= 191 /\ (c = 240 -> 144 <= b1) /\ (c = 244 -> b1 <= 143)) as (? & ? & ?) by (destruct (Z.eqb_spec c 240), (Z.eqb_spec c 244); lia).
  exists ((c - 240) * 262144 + (b1 - 128) * 4096 + (b2 - 128) * 64 + (b3 - 128)), [b1; b2; b3], rest. split_and!; [done|done| | |by eexists|by repeat constructor; lia].
  - intros z. unfold DecodeRune, within, cont. cbn [app]. replace (c <? 128) with false by lia. utf8_cases.
  - set (r := _ + (b3 - 128)). unfold EncodeRune, valid_rune, within. replace (r / 262144) with (c - 240) by (apply Z.div_unique with ((b1 - 128) * 4096 + (b2 - 128) * 64 + (b3 - 128)); lia).
    replace (r / 4096) with ((c - 240) * 64 + (b1 - 128)) by (apply Z.div_unique with ((b2 - 128) * 64 + (b3 - 128)); lia).
    replace (((c - 240) * 64 + (b1 - 128)) mod 64) with (b1 - 128) by (apply Z.mod_unique with (c - 240); lia).
    replace (r / 64) with ((c - 240) * 4096 + (b1 - 128) * 64 + (b2 - 128)) by (apply Z.div_unique with (b3 - 128); lia).
    replace (((c - 240) * 4096 + (b1 - 128) * 64 + (b2 - 128)) mod 64) with (b2 - 128) by (apply Z.mod_unique with ((c - 240) * 64 + (b1 - 128)); lia).
    replace (r mod 64) with (b3 - 128) by (apply Z.mod_unique with ((c - 240) * 4096 + (b1 - 128) * 64 + (b2 - 128)); lia). unfold r. utf8_cases; repeat f_equal; lia.
Qed.

Lemma escape_skip bs : forall k, escape k bs = escape 0 (drop k bs).
Proof. induction bs as [|c bs IH]; intros [|k]; try done. cbn [escape drop]. apply IH. Qed.

(** What [escape] writes for one rune: it is read back as that rune, inside any string. *)
Record written (unit out : list Z) : Prop := {
  wr_unquote : forall z, unquote 0 (out ++ z) = w ← unquote 0 z; Some (unit ++ w);
  wr_scan : forall B z, scan (InString, B) (out ++ z) = scan (InString, B) z
}.

Lemma safe_written c : 0 <= c < 128 -> html_safe c = true -> written [c] [c].
Proof.
  unfold html_safe. cbn [existsb bytes_of]. intros Hc Hs. prop_hyps. split.
  - intros z. cbn [app unquote]. replace (c =? 92) with false by lia. replace ((c =? 34) || (c <? 32)) with false by lia. by replace (c <? 128) with true by lia.
  - intros B z. cbn [app scan scan_step]. replace (c =? 34) with false by lia. replace (c =? 92) with false by lia. by replace (c <? 32) with false by lia.
Qed.

(** The two forms of an escape. *)
Definition escape_form (unit out : list Z) : bool :=
  match out with
  | [s; e] => (s =? 92) && match simple_escape e with Some b => bool_decide (unit = [b]) | None => false end && existsb (Z.eqb e) (bytes_of "bfnrt\/" ++ [34])
  | [s; u; a; b; c; d] =>
      (s =? 92) && (u =? 117) && match getu4 out with Some r => bool_decide (EncodeRune r = unit) && negb (within 55296 57343 r) | None => false end && json_hex a && json_hex b && json_hex c && json_hex d
  | _ => false
  end.

Lemma simple_written e b : simple_escape e = Some b -> existsb (Z.eqb e) (bytes_of "bfnrt\/" ++ [34]) = true -> written [b] [92; e].
Proof.
  intros Hs He. split.
  - intros z. cbn [app unquote Z.eqb Pos.eqb]. rewrite Hs. by destruct (unquote 0 z).
  - intros B z. cbn [app scan]. change (scan_step (InString, B) 92) with (Some (InStringEsc, B)). cbn [mbind option_bind scan_step].
    by rewrite He.
Qed.

Lemma unicode_written a b c d r : getu4 [92; 117; a; b; c; d] = Some r -> within 55296 57343 r = false ->
  json_hex a = true -> json_hex b = true -> json_hex c = true -> json_hex d = true -> written (EncodeRune r) [92; 117; a; b; c; d].
Proof.
  intros Hg Hw Ha Hb Hc Hd. split.
  - intros z. change ([92; 117; a; b; c; d] ++ z) with (92 :: 117 :: a :: b :: c :: d :: z). cbn [unquote Z.eqb Pos.eqb].
    change (simple_escape 117) with (@None Z). cbn match. change (getu4 (92 :: 117 :: a :: b :: c :: d :: z)) with (getu4 [92; 117; a; b; c; d]). rewrite Hg. cbn [mbind option_bind].
    by rewrite Hw.
  - intros B z. cbn [app scan]. change (scan_step (InString, B) 92) with (Some (InStringEsc, B)). cbn [mbind option_bind].
    change (scan_step (InStringEsc, B) 117) with (Some (InStringEscU 4, B)). cbn [mbind option_bind scan_step]. rewrite Ha. cbn [mbind option_bind scan_step].
    rewrite Hb. cbn [mbind option_bind scan_step]. rewrite Hc. cbn [mbind option_bind scan_step]. by rewrite Hd.
Qed.

Lemma form_written unit out : escape_form unit out = true -> written unit out.
Proof.
  unfold escape_form. destruct out as [|s [|u [|a [|b [|c [|d [|]]]]]]]; try done; intros H.
  - apply andb_prop in H as [[->%Z.eqb_eq H]%andb_prop He]. destruct (simple_escape u) eqn:E; [|done]. apply bool_decide_eq_true in H as ->. by apply simple_written.
  - apply andb_prop in H as [[[[[[->%Z.eqb_eq ->%Z.eqb_eq]%andb_prop H]%andb_prop H1]%andb_prop H2]%andb_prop H3]%andb_prop H4].
    destruct (getu4 _) eqn:E in H; [|done]. apply andb_prop in H as [<-%bool_decide_eq_true Hw%negb_true_iff]. by apply unicode_written.
Qed.

Lemma escaped_written c : 0 <= c < 128 -> html_safe c = false -> written [c] (escape_byte c).
Proof.
  intros Hc Hs. apply form_written. assert (forallb (fun c => html_safe c || escape_form [c] (escape_byte c)) (Z.of_nat <$> seq 0 128) = true) as H by (vm_compute; reflexivity).
  rewrite forallb_forall in H. specialize (H c). rewrite Hs in H. apply H, list_elem_of_In, list_elem_of_fmap. exists (Z.to_nat c). split; [lia|apply elem_of_seq; lia].
Qed.

Lemma separator_written c tail r : EncodeRune r = c :: tail -> r = 8232 \/ r = 8233 -> written (c :: tail) (bytes_of "\u202" ++ [hex_digit (r mod 16)]).
Proof. intros E [->| ->]; vm_compute in E; injection E as <- <-; apply form_written; vm_compute; reflexivity. Qed.

Lemma rune_written c tail r : 128 <= c -> (forall z, DecodeRune (c :: tail ++ z) = (r, S (length tail))) -> EncodeRune r = c :: tail -> Forall (fun b => 128 <= b) tail ->
  written (c :: tail) (c :: tail).
Proof.
  intros Hc Hd He Ht. split.
  - intros z. cbn [app unquote]. replace (c =? 92) with false by lia. replace ((c =? 34) || (c <? 32)) with false by lia. replace (c <? 128) with false by lia.
    rewrite Hd, He, unquote_skip. replace (S (length tail) - 1)%nat with (length tail) by lia. by rewrite drop_app_length.
  - intros B z. cbn [app scan scan_step]. replace (c =? 34) with false by lia. replace (c =? 92) with false by lia. replace (c <? 32) with false by lia. cbn [mbind option_bind].
    clear He Hd. induction Ht as [|b tail Hb _ IH]; [done|]. cbn [app scan scan_step].
    replace (b =? 34) with false by lia. replace (b =? 92) with false by lia. by replace (b <? 32) with false by lia.
Qed.

Lemma escape_unit c rest : is_Some (decode (c :: rest)) -> 0 <= c ->
  exists unit rem out, c :: rest = unit ++ rem /\ unit <> [] /\ escape 0 (c :: rest) = out ++ escape 0 rem /\ written unit out /\ is_Some (decode rem).
Proof.
  intros Hd Hc. destruct (decide (c < 128)) as [Hlt|Hge].
  - exists [c], rest, (if html_safe c then [c] else escape_byte c). split_and!; [done|done| | |].
    + cbn [escape]. by replace (c <? 128) with true by lia.
    + destruct (html_safe c) eqn:E; [by apply safe_written|by apply escaped_written].
    + destruct Hd as [rs E]. cbn [decode] in E. replace (c <? 128) with true in E by lia. apply bind_Some in E as (rs' & E & _). by eexists.
  - destruct (multibyte c rest Hd) as (r & tail & rem & -> & Htail & Hrune & Henc & Hrem & Hhigh); [lia|].
    exists (c :: tail), rem, (if (r =? 8232) || (r =? 8233) then bytes_of "\u202" ++ [hex_digit (r mod 16)] else c :: tail). split_and!; [done|done| | |done].
    + cbn [escape]. replace (c <? 128) with false by lia. rewrite Hrune, escape_skip. replace (S (length tail) - 1)%nat with (length tail) by lia. rewrite drop_app_length.
      replace (Nat.eqb (S (length tail)) 1) with false by (destruct tail; [done|by cbn]). rewrite andb_false_r. cbn [take]. by rewrite take_app_length.
    + destruct (_ || _) eqn:E; [apply separator_written; [done|lia]|apply (rune_written c tail r); [lia|done..]].
Qed.

Lemma written_nil : written [] [].
Proof. split; intros; cbn [app]; [by destruct (unquote 0 z)|done]. Qed.

Lemma escape_written n : forall bs, (length bs <= n)%nat -> is_Some (decode bs) -> Forall (fun b => 0 <= b) bs -> written bs (escape 0 bs).
Proof.
  induction n as [|n IH]; intros bs Hn Hd Hb; (destruct bs as [|c rest]; [exact written_nil|]); [cbn in Hn; lia|].
  destruct (escape_unit c rest Hd) as (unit & rem & out & E & Hu & -> & [W1 W2] & Hrem); [by apply Forall_cons in Hb as [? _]|].
  rewrite E in *. apply Forall_app in Hb as [_ Hb]. destruct (IH rem) as [R1 R2]; [|done..|].
  { rewrite length_app in Hn. destruct unit; [done|]. cbn [length] in *. lia. }
  split.
  - intros z. rewrite <- app_assoc, W1, R1. destruct (unquote 0 z); [|done]. cbn. by rewrite app_assoc.
  - intros B z. by rewrite <- app_assoc, W2, R2.
Qed.

Lemma string_written s : text_ok s = true -> written (bytes_of s) (escape 0 (bytes_of s)).
Proof.
  intros Hs%bool_decide_eq_true. eapply escape_written; [reflexivity|done|]. clear Hs. induction s as [|c s IH]; constructor; [unfold byte_of; lia|done].
Qed.

Lemma quoted_encoded s : text_ok s = true -> quoted (encode_string s) = Some s.
Proof.
  intros Hs. unfold quoted, encode_string. rewrite reverse_snoc, reverse_involutive. cbn [Z.eqb Pos.eqb andb].
  pose proof (wr_unquote _ _ (string_written s Hs) []) as H. rewrite app_nil_r in H. rewrite H. cbn. by rewrite app_nil_r, string_of_bytes_of.
Qed.

(** ** Numbers *)
Lemma number_step st c st' B : number_state st = true -> number_state st' = true -> scan_step (st, []) c = Some (st', []) -> scan_step (st, B) c = Some (st', B).
Proof.
  intros H1 H2. destruct st; try done; cbn [scan_step]; unfold num0, exp_sign, end_value; repeat case_match; try done; intros [= <-]; done.
Qed.

Lemma number_next st c st' stack : number_state st = true -> scan_step (st, []) c = Some (st', stack) -> st' = EndTop \/ number_state st' = true /\ stack = [].
Proof. destruct st; try done; cbn [scan_step]; unfold num0, exp_sign, end_value; repeat case_match; try done; intros _ [= <- <-]; first [by left | by right]. Qed.

Lemma top_stays bs : forall stack fin, scan (EndTop, stack) bs = Some fin -> fin.1 = EndTop.
Proof. induction bs as [|c bs IH]; intros stack fin; [by intros [= <-]|]. cbn [scan scan_step]. destruct (json_space c); [apply IH|done]. Qed.

Lemma number_on st c bs fin : number_state st = true -> scan (st, []) (c :: bs) = Some (fin, []) -> number_end fin = true ->
  exists st', number_state st' = true /\ scan_step (st, []) c = Some (st', []) /\ scan (st', []) bs = Some (fin, []).
Proof.
  intros Hst Hs Hf. cbn [scan] in Hs. apply bind_Some in Hs as ([st' stack] & Hc & Hs). destruct (number_next _ _ _ _ Hst Hc) as [->|[? ->]]; [|by exists st'].
  apply top_stays in Hs. cbn in Hs. by subst.
Qed.

Lemma number_scan bs : forall st fin B, number_state st = true -> scan (st, []) bs = Some (fin, []) -> number_end fin = true -> scan (st, B) bs = Some (fin, B).
Proof.
  induction bs as [|c bs IH]; intros st fin B Hst Hs Hf; [by injection Hs as ->|]. destruct (number_on _ _ _ _ Hst Hs Hf) as (st' & Hst' & Hc & Hr).
  cbn [scan]. rewrite (number_step st c st' B) by done. cbn [mbind option_bind]. by apply IH.
Qed.

Lemma number_last bs : forall st fin, bs <> [] -> number_state st = true -> scan (st, []) bs = Some (fin, []) -> number_end fin = true -> exists d, last bs = Some d /\ json_space d = false.
Proof.
  induction bs as [|c bs IH]; intros st fin Hne Hst Hs Hf; [done|]. destruct (number_on _ _ _ _ Hst Hs Hf) as (st' & Hst' & Hc & Hr). destruct bs as [|d bs].
  - exists c. split; [done|]. destruct (json_space c) eqn:E; [|done]. exfalso. assert (c = 32 \/ c = 9 \/ c = 13 \/ c = 10) as Hsp by (unfold json_space in E; prop_hyps; lia).
    destruct Hsp as [->|[->|[->| ->]]]; destruct st; try done; cbn in Hc; by injection Hc as <-.
  - rewrite last_cons_cons. by eapply IH.
Qed.

(** ** Encoded values in a text *)
Definition value_end (st : scan_state) (B : list parse_state) : Prop :=
  match st with EndValue | Num1 | Num0 | Dot0 | Exp0 => True | EndTop => B = [] | _ => False end.
Definition delimiter (c : Z) : bool := existsb (Z.eqb c) (bytes_of ",:]}").

Lemma delimiter_ends st B c : value_end st B -> delimiter c = true -> value_ends (st, []) c = true /\ (B <> [] -> scan_step (st, B) c = end_value B c).
Proof.
  unfold delimiter. rewrite existsb_exists. intros Hst (d & Hd & ->%Z.eqb_eq). cbn in Hd.
  destruct st; try done; (split; [naive_solver|]); intros HB; try done; destruct B; try done; destruct Hd as [<-|[<-|[<-|[<-|[]]]]]; reflexivity.
Qed.

(** An encoded value neither begins nor ends with space. *)
Definition solid_text (bs : list Z) : Prop := exists c rest d, bs = c :: rest /\ last bs = Some d /\ json_space c = false /\ json_space d = false /\ c <> 93.

Lemma encode_solid v : well_formed v = true -> solid_text (encode_any v).
Proof.
  destruct v as [|[]|text|s|l|es]; cbn [well_formed encode_any]; intros H.
  1-3: by vm_compute; eexists _, _, _.
  - destruct text as [|c rest]; [done|]. unfold number_text in H. apply andb_prop in H as [Hc%negb_true_iff H]. destruct (scan_step _ _) as [[st [|]]|] eqn:Es; try done.
    apply andb_prop in H as [Hst H]. destruct (scan _ rest) as [[fin [|]]|] eqn:Er; try done.
    assert (c <> 93) as H93 by (intros ->; done). destruct rest as [|c' rest].
    + exists c, [], c. done.
    + destruct (number_last (c' :: rest) st fin) as (d & Hd & Hsp); [done..|]. exists c, (c' :: rest), d. by rewrite last_cons_cons.
  - exists 34, (escape 0 (bytes_of s) ++ [34]), 34. split_and!; try done. unfold encode_string. by rewrite app_comm_cons, last_snoc.
  - eexists 91, _, 93. split_and!; try done. by rewrite app_comm_cons, last_snoc.
  - eexists 123, _, 125. split_and!; try done. by rewrite app_comm_cons, last_snoc.
Qed.

Definition container_ok (n : nat) (v : any) : Prop := well_formed v = true /\ (n + depth v <= maxNestingDepth)%nat.
Definition scans (B : list parse_state) (bs : list Z) : Prop := exists st, scan (BeginValue, B) bs = Some (st, B) /\ value_end st B.

Lemma scan_encoded_string B s : text_ok s = true -> scan (InString, B) (escape 0 (bytes_of s) ++ [34]) = Some (EndValue, B).
Proof. intros Hs. by rewrite (wr_scan _ _ (string_written s Hs)). Qed.

(** The items between brackets: the first one is read in the state [first]. *)
Lemma scan_items outer (first : scan_state) items : (forall c rest, json_space c = false -> c <> 93 -> scan (first, ParseArrayValue :: outer) (c :: rest) = scan (BeginValue, ParseArrayValue :: outer) (c :: rest)) ->
  items <> [] -> Forall solid_text items -> Forall (scans (ParseArrayValue :: outer)) items ->
  scan (first, ParseArrayValue :: outer) (comma_joined items ++ [93]) = Some (after_pop outer).
Proof.
  revert first. induction items as [|item rest IH]; intros first Hfirst Hne; [done|]. intros [(c & tail & d & E & _ & Hc & _ & H93) Hsolid]%Forall_cons [(st & Hs & Hend) Hscans]%Forall_cons.
  assert (forall z, scan (first, ParseArrayValue :: outer) (item ++ z) = scan (st, ParseArrayValue :: outer) z) as Hitem.
  { intros z. rewrite E. cbn [app]. rewrite Hfirst by done. rewrite app_comm_cons, <- E, scan_app, Hs. done. }
  destruct rest as [|item' rest].
  - cbn [comma_joined]. rewrite Hitem. cbn [scan]. destruct (delimiter_ends st _ 93 Hend eq_refl) as [_ ->]; done.
  - cbn [comma_joined]. rewrite <- app_assoc, Hitem. cbn [app scan]. destruct (delimiter_ends st _ 44 Hend eq_refl) as [_ ->]; [|done]. cbn [mbind option_bind end_value].
    apply IH; done.
Qed.

Lemma scan_members outer (first : scan_state) (members : list (string * list Z)) :
  (forall rest, scan (first, ParseObjectKey :: outer) (34 :: rest) = scan (InString, ParseObjectKey :: outer) rest) ->
  members <> [] -> Forall (fun m => text_ok m.1 = true /\ solid_text m.2 /\ scans (ParseObjectValue :: outer) m.2) members ->
  scan (first, ParseObjectKey :: outer) (comma_joined ((fun m => encode_string m.1 ++ 58 :: m.2) <$> members) ++ [125]) = Some (after_pop outer).
Proof.
  revert first. induction members as [|[key raw] rest IH]; intros first Hfirst Hne; [done|]. intros [(Hk & Hsolid & st & Hs & Hend) Hrest]%Forall_cons. cbn [fst snd] in *.
  assert (forall z, scan (first, ParseObjectKey :: outer) ((encode_string key ++ 58 :: raw) ++ z) = scan (st, ParseObjectValue :: outer) z) as Hitem.
  { intros z. unfold encode_string. rewrite <- app_assoc. cbn [app]. rewrite Hfirst, scan_app, (scan_encoded_string _ _ Hk). cbn [mbind option_bind scan scan_step end_value json_space Z.eqb Pos.eqb orb].
    by rewrite scan_app, Hs. }
  cbn [fmap list_fmap comma_joined]. destruct rest as [|m' rest].
  - cbn [fmap list_fmap comma_joined fst snd]. rewrite Hitem. cbn [scan]. destruct (delimiter_ends st _ 125 Hend eq_refl) as [_ ->]; done.
  - cbn [fmap list_fmap fst snd]. rewrite <- app_assoc, Hitem. cbn [app scan]. destruct (delimiter_ends st _ 44 Hend eq_refl) as [_ ->]; [|done]. cbn [mbind option_bind end_value].
    apply (IH BeginString); done.
Qed.

Lemma depth_item {A : Type} (f : A -> any) l x : x ∈ l -> (depth (f x) <= foldr (fun i n => Nat.max (depth (f i)) n) O l)%nat.
Proof. induction l as [|y l IH]; [by intros ?%elem_of_nil|]. intros [->|Hx]%elem_of_cons; cbn [foldr]; [lia|]. specialize (IH Hx). lia. Qed.

Lemma array_ok n l : container_ok n (AArray l) -> (S n <= maxNestingDepth)%nat /\ Forall (container_ok (S n)) l.
Proof.
  intros [Hw Hd]. cbn [well_formed depth] in *. split; [lia|]. apply Forall_forall. intros x Hx. split; [rewrite forallb_forall in Hw; by apply Hw, list_elem_of_In|].
  pose proof (depth_item id l x Hx) as H. cbn [id] in H. lia.
Qed.

Lemma object_ok n es : container_ok n (AObject es) ->
  (S n <= maxNestingDepth)%nat /\ ascending (fst <$> es) = true /\ Forall (fun e : string * any => text_ok e.1 = true /\ container_ok (S n) e.2) es.
Proof.
  intros [Hw Hd]. cbn [well_formed depth] in *. apply andb_prop in Hw as [Ha Hw]. split_and!; [lia|done|]. apply Forall_forall. intros x Hx.
  rewrite forallb_forall in Hw. specialize (Hw x). apply list_elem_of_In in Hx as Hx'. apply Hw, andb_prop in Hx' as [? ?]. split; [done|]. split; [done|].
  pose proof (depth_item snd es x Hx) as Hx2. lia.
Qed.

Lemma after_pop_end B : exists st, after_pop B = (st, B) /\ value_end st B.
Proof. destruct B; by eexists. Qed.

Lemma push_ok B p st : (S (length B) <= maxNestingDepth)%nat -> push p st B = Some (st, p :: B).
Proof. intros H. unfold push. by rewrite (proj2 (Nat.leb_le _ _) H). Qed.

Lemma encode_scans v : forall B, container_ok (length B) v -> scans B (encode_any v).
Proof.
  induction v as [|b|text|s|l IH|es IH] using any_nested; intros B Hok.
  - by exists EndValue.
  - by exists EndValue; destruct b.
  - destruct Hok as [H _]. cbn [well_formed encode_any] in *. destruct text as [|c rest]; [done|]. unfold number_text in H. apply andb_prop in H as [Hc%negb_true_iff H].
    destruct (scan_step _ _) as [[st [|]]|] eqn:Es; try done. apply andb_prop in H as [Hst H]. destruct (scan _ rest) as [[fin [|]]|] eqn:Er; try done.
    exists fin. split; [|by destruct fin]. cbn [scan]. replace (scan_step (BeginValue, B) c) with (Some (st, B)); [by apply number_scan|].
    cbn [scan_step] in Es |- *. unfold begin_value, push in *. rewrite Hc in *. repeat case_match; try done; injection Es as <-; done.
  - destruct Hok as [H _]. exists EndValue. split; [|done]. cbn [encode_any]. unfold encode_string. cbn [scan scan_step begin_value json_space Z.eqb Pos.eqb orb mbind option_bind]. by apply scan_encoded_string.
  - apply array_ok in Hok as [Hd Hl]. destruct (after_pop_end B) as (st & Hpop & Hst). exists st. split; [|done]. rewrite <- Hpop. cbn [encode_any scan].
    change (scan_step (BeginValue, B) 91) with (push ParseArrayValue BeginValueOrEmpty B). rewrite push_ok by done. cbn [mbind option_bind].
    destruct l as [|x l]; [done|]. apply scan_items; [|done|..].
    + intros c rest Hc H93. cbn [scan scan_step]. rewrite Hc. by replace (c =? 93) with false by lia.
    + apply Forall_fmap. eapply Forall_impl; [exact Hl|]. intros v [Hv _]. by apply encode_solid.
    + apply Forall_fmap, Forall_forall. intros v Hv. rewrite Forall_forall in IH, Hl. by apply (IH v Hv (ParseArrayValue :: B)), Hl.
  - apply object_ok in Hok as (Hd & _ & Hl). destruct (after_pop_end B) as (st & Hpop & Hst). exists st. split; [|done]. rewrite <- Hpop. cbn [encode_any scan].
    change (scan_step (BeginValue, B) 123) with (push ParseObjectKey BeginStringOrEmpty B). rewrite push_ok by done. cbn [mbind option_bind].
    destruct es as [|x es]; [done|]. pose proof (scan_members B BeginStringOrEmpty (prod_map id encode_any <$> x :: es)) as H. rewrite <- list_fmap_compose in H.
    apply H; [done|done|]. apply Forall_fmap, Forall_forall. intros e He. rewrite Forall_forall in IH, Hl. destruct (Hl e He) as [Hk Hv]. cbn [prod_map fst snd].
    split_and!; [done|by apply encode_solid, Hv|by apply (IH e He (ParseObjectValue :: B))].
Qed.

(** ** Reading an encoded value back *)
Lemma spaces_last bs : skip_spaces bs = [] -> forall d, last bs = Some d -> json_space d = true.
Proof.
  induction bs as [|c bs IH]; [done|]. cbn [skip_spaces]. destruct (json_space c) eqn:Hc; [|done]. intros H d Hd. destruct bs; [by injection Hd as <-|]. rewrite last_cons_cons in Hd. by apply IH.
Qed.

Lemma read_whole w : forall s st rest d, well s -> scan s w = Some (st, []) -> value_end st [] -> last w = Some d -> json_space d = false ->
  match rest with [] => True | c :: _ => delimiter c = true end -> read_from s (w ++ rest) = Some (w, rest).
Proof.
  induction w as [|c w IH]; intros s st rest d Hw Hs Hend Hd Hsp Hrest; [done|]. cbn [app read_from scan] in *. apply bind_Some in Hs as (s' & Hc & Hs).
  destruct (value_ends s c) eqn:Hv.
  - exfalso. destruct (value_ends_space _ _ _ Hw Hv Hc) as [Hspace ->]. apply ended_spaces in Hs. assert (skip_spaces (c :: w) = []) as H by (cbn [skip_spaces]; by rewrite Hspace).
    pose proof (spaces_last _ H d Hd). congruence.
  - rewrite Hc. cbn [mbind option_bind]. assert (read_from s' (w ++ rest) = Some (w, rest)) as ->; [|done]. destruct w as [|c' w].
    + injection Hs as ->. cbn [app]. destruct rest as [|c' rest]; cbn [read_from].
      * by destruct st.
      * by destruct (delimiter_ends st [] c' Hend Hrest) as [-> _].
    + rewrite last_cons_cons in Hd. eapply IH; try done. by eapply well_step.
Qed.

Lemma container_mono m n v : (m <= n)%nat -> container_ok n v -> container_ok m v.
Proof. intros Hle [? ?]. split; [done|lia]. Qed.

Lemma encode_reads v rest : container_ok 0 v -> match rest with [] => True | c :: _ => delimiter c = true end -> read_value (encode_any v ++ rest) = Some (encode_any v, rest).
Proof.
  intros Hok Hrest. destruct (encode_scans v [] Hok) as (st & Hs & Hend). destruct (encode_solid v (proj1 Hok)) as (c & tail & d & _ & Hd & _ & Hsp & _). by eapply read_whole.
Qed.

Lemma encode_valid v : container_ok 0 v -> json_valid (encode_any v) = true.
Proof. intros Hok. destruct (encode_scans v [] Hok) as (st & Hs & Hend). unfold json_valid. rewrite Hs. by destruct st. Qed.

Lemma solid_skip bs z : solid_text bs -> skip_spaces (bs ++ z) = bs ++ z /\ head (bs ++ z) <> Some 93.
Proof. intros (c & rest & d & -> & _ & Hc & _ & H93). cbn [app skip_spaces head]. rewrite Hc. split; [done|congruence]. Qed.

Lemma encode_tight v : container_ok 0 v -> tight (encode_any v).
Proof. intros Hok. split; [|by apply encode_valid]. pose proof (encode_reads v [] Hok I) as H. by rewrite app_nil_r in H. Qed.

Lemma items_encoded l rest : forall first, l <> [] -> Forall (container_ok 0) l -> items_at first (comma_joined (encode_any <$> l) ++ 93 :: rest) (encode_any <$> l) rest.
Proof.
  induction l as [|v l IH]; intros first Hne; [done|]. intros [Hv Hl]%Forall_cons. cbn [fmap list_fmap comma_joined]. destruct l as [|v' l].
  - cbn [fmap list_fmap]. destruct (solid_skip (encode_any v) (93 :: rest) (encode_solid v (proj1 Hv))) as [Hskip Hhead].
    apply items_last with (93 :: rest); rewrite ?Hskip; [done|by apply encode_reads|by apply encode_tight|done].
  - cbn [fmap list_fmap]. rewrite <- app_assoc. cbn [app]. set (next := comma_joined _ ++ 93 :: rest).
    destruct (solid_skip (encode_any v) (44 :: next) (encode_solid v (proj1 Hv))) as [Hskip Hhead].
    apply items_more with (44 :: next) next; rewrite ?Hskip; [done|by apply encode_reads|by apply encode_tight|done|by apply IH].
Qed.

Lemma member_encoded key v rest : text_ok key = true -> container_ok 0 v -> match rest with [] => True | c :: _ => delimiter c = true end ->
  member_at ((encode_string key ++ 58 :: encode_any v) ++ rest) key (encode_any v) rest.
Proof.
  intros Hk Hv Hrest. assert (container_ok 0 (AString key)) as Hs by (split; [done|cbn; lia]).
  exists (encode_string key), (58 :: encode_any v ++ rest), (encode_any v ++ rest). rewrite <- app_assoc. change (encode_string key) with (encode_any (AString key)).
  destruct (solid_skip (encode_any v) rest (encode_solid v (proj1 Hv))) as [Hskip _]. destruct (solid_skip (encode_any (AString key)) (58 :: encode_any v ++ rest) (encode_solid _ (proj1 Hs))) as [Hskip' _].
  cbn [app] in *. rewrite Hskip', Hskip. split_and!; [done|by apply encode_reads|by apply encode_tight|by apply quoted_encoded|done|by apply encode_reads|by apply encode_tight].
Qed.

Notation encoded_member := (fun e : string * any => encode_string e.1 ++ 58 :: encode_any e.2).
Lemma members_encoded es rest : forall first, es <> [] -> Forall (fun e : string * any => text_ok e.1 = true /\ container_ok 0 e.2) es ->
  members_at first (comma_joined (encoded_member <$> es) ++ 125 :: rest) (prod_map id encode_any <$> es) rest.
Proof.
  induction es as [|[key v] es IH]; intros first Hne; [done|]. intros [[Hk Hv] Hl]%Forall_cons. cbn [fmap list_fmap comma_joined fst snd prod_map id] in *. destruct es as [|e' es].
  - cbn [fmap list_fmap]. eapply members_last; [by apply member_encoded|done].
  - cbn [fmap list_fmap]. rewrite <- app_assoc. cbn [app]. eapply members_more; [by apply member_encoded|done|by apply IH].
Qed.

(** ** Maps *)
Lemma ascending_cons a l : ascending (a :: l) = true <-> ascending l = true /\ Forall (fun b => String.compare a b = Lt) l.
Proof.
  revert a. induction l as [|b l IH]; intros a; [split; [by repeat constructor|done]|]. change (ascending (a :: b :: l)) with (String.ltb a b && ascending (b :: l)). rewrite andb_true_iff, string_ltb_true, IH, Forall_cons.
  split; [|naive_solver]. intros [Hab [Hl Hb]]. split_and!; try done. eapply Forall_impl; [exact Hb|]. intros c Hc. by eapply string_compare_trans.
Qed.

Lemma assign_last {A : Type} key (v : A) l : Forall (fun e : string * A => String.compare e.1 key = Lt) l -> assign key v l = l ++ [(key, v)].
Proof.
  induction 1 as [|[k x] l Hk _ IH]; [done|]. cbn [assign fst app] in *. rewrite IH. pose proof (String.compare_antisym key k) as Ha. rewrite Hk in Ha. cbn in Ha.
  destruct (String.eqb_spec key k) as [->|]; [by rewrite Ha in Hk|]. unfold String.ltb. by rewrite Ha.
Qed.

Lemma assign_all {A : Type} (es : list (string * A)) : forall acc, ascending (fst <$> acc ++ es) = true -> foldl (fun es e => assign e.1 e.2 es) acc es = acc ++ es.
Proof.
  induction es as [|[k v] es IH]; intros acc Ha; [by rewrite app_nil_r|]. cbn [foldl fst snd]. rewrite assign_last.
  - rewrite IH; by rewrite <- app_assoc.
  - clear IH. induction acc as [|[k' v'] acc IH]; constructor; cbn [app fmap list_fmap fst] in Ha |- *; apply ascending_cons in Ha as [Ha Hall]; [|by apply IH].
    rewrite Forall_forall in Hall. apply Hall. rewrite fmap_app. apply elem_of_app. right. left.
Qed.

(** ** The round trip *)
Lemma joined_item (l : list (list Z)) x : x ∈ l -> (length x <= length (comma_joined l))%nat.
Proof.
  induction l as [|y l IH]; [by intros ?%elem_of_nil|]. intros Hx. cbn [comma_joined]. destruct l as [|z l]; [by apply list_elem_of_singleton in Hx as ->|].
  rewrite length_app. cbn [length]. apply elem_of_cons in Hx as [->|Hx]; [lia|]. specialize (IH Hx). lia.
Qed.

(** The outermost layer of an encoded value. *)
Definition outer_layer (v : any) : json_value :=
  match v with
  | ANull => JNull | ABool b => JBool b | ANumber text => JNumber text | AString s => JString s
  | AArray l => JArray (encode_any <$> l) | AObject es => JObject (prod_map id encode_any <$> es)
  end.

Lemma decode_outer v : container_ok 0 v -> json_decode (encode_any v) = Some (outer_layer v).
Proof.
  destruct v as [|b|text|s|l|es]; intros Hok.
  - done.
  - by destruct b.
  - pose proof (encode_tight _ Hok) as [Hr Hv]. cbn [encode_any outer_layer] in *. destruct Hok as [Hw _]. cbn [well_formed] in Hw.
    unfold json_decode. rewrite Hv. cbn [negb]. destruct (encode_solid (ANumber text) Hw) as (c & rest & d & E & _ & Hc & _). cbn [encode_any] in E. rewrite E in *. rewrite skip_spaces_id by done.
    rewrite Hr. unfold number_text in Hw. rewrite Hc in Hw. cbn [negb andb scan_step] in Hw. unfold begin_value, push in Hw. rewrite Hc in Hw.
    destruct (c =? 123) eqn:E1; [done|]. destruct (c =? 91); [done|]. destruct (c =? 34); [done|]. destruct (c =? 116) eqn:E4; [|destruct (c =? 102) eqn:E5; [|destruct (c =? 110) eqn:E6; [|done]]].
    all: prop_hyps; subst c; done.
  - pose proof (encode_tight _ Hok) as [Hr Hv]. destruct Hok as [Hw _]. cbn [encode_any outer_layer well_formed] in *. unfold json_decode. rewrite Hv. cbn [negb]. unfold encode_string at 1.
    rewrite skip_spaces_id by done. cbn [Z.eqb Pos.eqb]. fold (encode_string s). rewrite Hr. cbn [mbind option_bind]. by rewrite quoted_encoded.
  - pose proof (encode_valid _ Hok) as Hv. apply array_ok in Hok as [_ Hl].
    cbn [encode_any outer_layer] in *. unfold json_decode. rewrite Hv. cbn [negb]. rewrite skip_spaces_id by done. cbn [Z.eqb Pos.eqb].
    assert (array_items (S (length (comma_joined (encode_any <$> l) ++ [93]))) (comma_joined (encode_any <$> l) ++ [93]) = Some (encode_any <$> l)) as ->; [|done].
    assert (Forall (container_ok 0) l) by (eapply Forall_impl; [exact Hl|]; intros x; apply container_mono; lia).
    destruct l as [|x l]; [done|]. by eapply items_decode; [apply (items_encoded _ [] true)|lia].
  - pose proof (encode_valid _ Hok) as Hv. apply object_ok in Hok as (_ & _ & Hl).
    cbn [encode_any outer_layer] in *. unfold json_decode. rewrite Hv. cbn [negb]. rewrite skip_spaces_id by done. cbn [Z.eqb Pos.eqb].
    assert (object_members (S (length (comma_joined (encoded_member <$> es) ++ [125]))) (comma_joined (encoded_member <$> es) ++ [125]) = Some (prod_map id encode_any <$> es)) as ->; [|done].
    assert (Forall (fun e : string * any => text_ok e.1 = true /\ container_ok 0 e.2) es) by (eapply Forall_impl; [exact Hl|]; intros x [? Hx]; split; [done|]; eapply container_mono; [|exact Hx]; lia).
    destruct es as [|x es]; [done|]. by eapply members_decode; [apply (members_encoded _ [] true)|lia].
Qed.

(** Parts of an encoded container are well-formed and shorter. *)
Lemma array_parts l : container_ok 0 (AArray l) -> Forall (fun x => container_ok 0 x /\ (length (encode_any x) < length (encode_any (AArray l)))%nat) l.
Proof.
  intros (_ & Hl)%array_ok. rewrite Forall_forall in Hl. apply Forall_forall. intros x Hx. split; [eapply (container_mono 0); [|by apply Hl]; lia|].
  pose proof (joined_item (encode_any <$> l) (encode_any x) (list_elem_of_fmap_2 _ _ _ Hx)) as Hle. cbn [encode_any length]. rewrite length_app. lia.
Qed.

Lemma object_parts es : container_ok 0 (AObject es) -> Forall (fun e : string * any => container_ok 0 e.2 /\ (length (encode_any e.2) < length (encode_any (AObject es)))%nat) es /\ ascending (fst <$> es) = true.
Proof.
  intros (_ & Ha & Hl)%object_ok. split; [|done]. rewrite Forall_forall in Hl. apply Forall_forall. intros e He. split; [eapply (container_mono 0); [|by apply (Hl e He)]; lia|].
  pose proof (joined_item (encoded_member <$> es) (encoded_member e) (list_elem_of_fmap_2 _ _ _ He)) as Hle. cbn beta in Hle. rewrite length_app in Hle. cbn [encode_any length] in *. rewrite length_app. lia.
Qed.

Lemma encode_decode v : forall n, container_ok 0 v -> (length (encode_any v) < n)%nat -> any_of n (encode_any v) = Some v.
Proof.
  induction v as [|b|text|s|l IH|es IH] using any_nested; intros [|n] Hok Hn; try lia; cbn [any_of]; rewrite decode_outer by done; cbn [mbind option_bind outer_layer]; try done.
  - apply array_parts in Hok. assert (mapM (any_of n) (encode_any <$> l) = Some l) as ->; [|done].
    apply mapM_Some. rewrite Forall2_fmap_l. apply Forall_Forall2_diag, Forall_forall. intros x Hx. rewrite Forall_forall in IH, Hok. destruct (Hok x Hx). apply IH; [done|done|lia].
  - apply object_parts in Hok as [Hok Ha]. assert (mapM (fun m : string * list Z => pair m.1 <$> any_of n m.2) (prod_map id encode_any <$> es) = Some es) as ->; [|cbn [mbind option_bind]; by rewrite assign_all].
    apply mapM_Some. rewrite Forall2_fmap_l. apply Forall_Forall2_diag, Forall_forall. intros [k x] Hx. rewrite Forall_forall in IH, Hok. destruct (Hok _ Hx) as [Hk Hle]. cbn [prod_map fst snd id] in *.
    specialize (IH _ Hx n Hk). cbn [snd] in IH. change (pair k <$> any_of n (encode_any x) = Some (k, x)). by rewrite IH by lia.
Qed.

(** ** Numbers as floats *)
Fixpoint floats (v : any) : option value :=
  match v with
  | ANull => Some VNull
  | ABool b => Some (VBool b)
  | ANumber text => VFloat <$> ParseFloat text
  | AString s => Some (VString s)
  | AArray l => VArray <$> mapM floats l
  | AObject es => VObject <$> mapM (fun e : string * any => pair e.1 <$> floats e.2) es
  end.

Lemma mapM_fmap_ext {A B C : Type} (f : B -> option C) (g : A -> B) (h : A -> option C) l : Forall (fun x => f (g x) = h x) l -> mapM f (g <$> l) = mapM h l.
Proof. induction 1 as [|x l Hx _ IH]; [done|]. cbn. by rewrite Hx, IH. Qed.

Lemma floats_names es : forall fs, mapM (fun e : string * any => pair e.1 <$> floats e.2) es = Some fs -> fst <$> fs = fst <$> es.
Proof.
  intros fs Hm%mapM_Some. induction Hm as [|[k x] e l fs Hx _ IH]; [done|]. cbn [fst snd] in Hx. apply fmap_Some in Hx as (y & _ & ->). cbn. by rewrite IH.
Qed.

Lemma encode_floats v : forall n, container_ok 0 v -> (length (encode_any v) < n)%nat -> value_of n (encode_any v) = floats v.
Proof.
  induction v as [|b|text|s|l IH|es IH] using any_nested; intros [|n] Hok Hn; try lia; cbn [value_of floats]; rewrite decode_outer by done; cbn [mbind option_bind outer_layer]; try done.
  - apply array_parts in Hok. f_equal. apply mapM_fmap_ext, Forall_forall. intros x Hx. rewrite Forall_forall in IH, Hok. destruct (Hok x Hx). apply IH; [done|done|lia].
  - apply object_parts in Hok as [Hok Ha]. rewrite (mapM_fmap_ext _ _ (fun e : string * any => pair e.1 <$> floats e.2)).
    + destruct (mapM _ es) as [fs|] eqn:E; [|done]. cbn [mbind option_bind]. rewrite assign_all; [done|]. cbn [app]. by rewrite (floats_names _ _ E).
    + apply Forall_forall. intros [k x] Hx. rewrite Forall_forall in IH, Hok. destruct (Hok _ Hx) as [Hk Hle]. cbn [prod_map fst snd id] in *.
      specialize (IH _ Hx n Hk). cbn [snd] in IH. by rewrite IH by lia.
Qed.

(** ** What decoding returns *)

(** A value inside a text that the scanner accepts, below the open containers [B]. *)
Definition deep (B : list parse_state) (raw : list Z) : Prop := exists post fin, scan (BeginValue, B) (raw ++ post) = Some fin /\ fin.2 = [].

Lemma context_value B bs fin raw after : B <> [] -> scan (BeginValue, B) (skip_spaces bs) = Some fin -> fin.2 = [] -> read_value (skip_spaces bs) = Some (raw, after) ->
  deep B raw /\ solid raw /\ exists c rest t, skip_spaces after = c :: rest /\ end_value B c = Some t /\ scan t rest = Some fin.
Proof.
  intros HB Hs Hf Hr. destruct (value_in_context B _ fin HB Hs Hf) as (raw' & after' & sp & c & rest & t & Hr' & E & _ & Ht & _ & Hskip & _ & He & Hrest).
  rewrite Hr in Hr'. injection Hr' as <- <-. split_and!; [exists after, fin; by rewrite <- E|by eapply read_solid|by exists c, rest, t].
Qed.

Lemma items_deep first bs raws rest : items_at first bs raws rest -> forall outer fin, scan (item_state first, ParseArrayValue :: outer) bs = Some fin -> fin.2 = [] ->
  Forall (fun raw => solid raw /\ deep (ParseArrayValue :: outer) raw) raws.
Proof.
  assert (forall first bs outer fin, head (skip_spaces bs) <> Some 93 -> scan (item_state first, ParseArrayValue :: outer) bs = Some fin -> scan (BeginValue, ParseArrayValue :: outer) (skip_spaces bs) = Some fin \/ fin.2 <> []) as Hfrom.
  { intros f b outer fin Hh Hs. destruct (skip_idle (item_state f, ParseArrayValue :: outer) b) as [E _].
    { intros c Hc. destruct f; cbn; [|unfold begin_value]; by rewrite Hc. }
    rewrite <- E in Hs. destruct f; [|by left]. destruct (skip_spaces b) as [|c r] eqn:Eb; [injection Hs as <-; by right|]. left. cbn [scan scan_step item_state] in Hs |- *.
    rewrite (skip_head _ _ _ Eb) in Hs. by replace (c =? 93) with false in Hs by (cbn in Hh; destruct (Z.eqb_spec c 93); congruence). }
  induction 1 as [|first bs raw after rest Hh Hr _ E|first bs raw after next raws rest Hh Hr _ E _ IH]; intros outer fin Hs Hf; [constructor|..].
  all: destruct (Hfrom _ _ _ _ Hh Hs) as [Hs'|]; [|done]; destruct (context_value (ParseArrayValue :: outer) _ _ _ _ ltac:(done) Hs' Hf Hr) as (Hd & Hsol & c & r & t & E' & He & Ht); (constructor; [by split|]).
  - constructor.
  - rewrite E in E'. injection E' as <- <-. injection He as <-. by eapply IH.
Qed.

Lemma members_deep first bs ms rest : members_at first bs ms rest -> forall outer fin, scan (key_state first, ParseObjectKey :: outer) bs = Some fin -> fin.2 = [] ->
  Forall (fun m => (exists name, quoted name = Some m.1) /\ solid m.2 /\ deep (ParseObjectValue :: outer) m.2) ms.
Proof.
  assert (forall first bs key raw after outer fin, member_at bs key raw after -> scan (key_state first, ParseObjectKey :: outer) bs = Some fin -> fin.2 = [] ->
    ((exists name, quoted name = Some key) /\ solid raw /\ deep (ParseObjectValue :: outer) raw) /\ exists c rest t, skip_spaces after = c :: rest /\ end_value (ParseObjectValue :: outer) c = Some t /\ scan t rest = Some fin) as Hmember.
  { intros f b key raw after outer fin (name & r1 & r2 & Hh & Hr1 & _ & Hq & E1 & Hr2 & _) Hs Hf. destruct (skip_idle (key_state f, ParseObjectKey :: outer) b) as [E _].
    { intros c Hc. destruct f; cbn; [|unfold begin_string]; by rewrite Hc. }
    rewrite <- E in Hs. assert (scan (BeginValue, ParseObjectKey :: outer) (skip_spaces b) = Some fin) as Hs1.
    { destruct (skip_spaces b) as [|c r]; [done|]. injection Hh as ->. by destruct f. }
    destruct (context_value (ParseObjectKey :: outer) _ _ _ _ ltac:(done) Hs1 Hf Hr1) as (_ & _ & c & r & t & E' & He & Ht). rewrite E1 in E'. injection E' as <- <-. injection He as <-.
    destruct (skip_idle (BeginValue, ParseObjectValue :: outer) r2) as [E2 _]; [intros d Hd; cbn; unfold begin_value; by rewrite Hd|]. rewrite <- E2 in Ht.
    destruct (context_value (ParseObjectValue :: outer) _ _ _ _ ltac:(done) Ht Hf Hr2) as (? & ? & ?). split; [|done]. split_and!; [by exists name|done..]. }
  induction 1 as [|first bs key raw after rest Hm E|first bs key raw after next ms rest Hm E _ IH]; intros outer fin Hs Hf; [constructor|..].
  all: destruct (Hmember _ _ _ _ _ _ _ Hm Hs Hf) as (H & c & r & t & E' & He & Ht); (constructor; [done|]).
  - constructor.
  - rewrite E in E'. injection E' as <- <-. injection He as <-. by eapply IH.
Qed.

Lemma read_number bs : forall st, number_state st = true -> read_from (st, []) bs = Some (bs, []) -> exists fin, scan (st, []) bs = Some (fin, []) /\ number_end fin = true.
Proof.
  induction bs as [|c bs IH]; intros st Hst Hr.
  - exists st. split; [done|]. by destruct st.
  - cbn [read_from] in Hr. destruct (value_ends (st, []) c) eqn:Hv; [done|]. apply bind_Some in Hr as ([st' stack] & Hc & Hr). apply bind_Some in Hr as ([v a] & Hr & [= -> ->]).
    cbn [scan]. rewrite Hc. cbn [mbind option_bind]. destruct (number_next _ _ _ _ Hst Hc) as [->|[Hst' ->]]; [|by apply IH].
    exfalso. clear -Hst Hc Hv. destruct st; try done; cbn [scan_step value_ends] in *; unfold num0, exp_sign, end_value in *; repeat case_match; try done; prop_hyps; try lia; try done.
    all: unfold json_space, json_digit in *; prop_hyps; lia.
Qed.

Lemma mapM_exists {A B : Type} (f : A -> option B) (P : B -> Prop) l : Forall (fun x => exists y, f x = Some y /\ P y) l -> exists ys, mapM f l = Some ys /\ Forall P ys.
Proof. induction 1 as [|x l (y & Hy & HP) _ (ys & Hys & HPs)]; [by exists []|]. exists (y :: ys). cbn. rewrite Hy. cbn. rewrite Hys. by split; [|constructor]. Qed.

Lemma assign_forall {A : Type} (P : string * A -> Prop) key v l : P (key, v) -> Forall P l -> Forall P (assign key v l).
Proof.
  intros Hp. induction 1 as [|[k x] l Hk Hl IH]; [by constructor|]. cbn [assign]. destruct (String.eqb key k); [by constructor|]. destruct (String.ltb key k); by repeat constructor.
Qed.

Lemma assign_ascending {A : Type} key (v : A) l : ascending (fst <$> l) = true -> ascending (fst <$> assign key v l) = true.
Proof.
  induction l as [|[k x] l IH]; [done|]. cbn [fmap list_fmap fst assign]. intros [Ha Hl]%ascending_cons. destruct (String.eqb_spec key k) as [->|Hne]; [by apply ascending_cons|].
  destruct (String.ltb key k) eqn:E.
  - apply string_ltb_true in E. apply ascending_cons. split; [by apply ascending_cons|]. constructor; [done|]. eapply Forall_impl; [exact Hl|]. intros c Hc. by eapply string_compare_trans.
  - apply ascending_cons. split; [by apply IH|]. apply Forall_fmap, assign_forall; [|by apply Forall_fmap]. cbn. unfold String.ltb in E. rewrite String.compare_antisym.
    destruct (String.compare key k) eqn:Ec; [by apply String.compare_eq_iff in Ec|done|done].
Qed.

Lemma fold_assign {A : Type} (P : string * A -> Prop) es : forall acc, Forall P acc -> Forall P es -> ascending (fst <$> acc) = true ->
  Forall P (foldl (fun es e => assign e.1 e.2 es) acc es) /\ ascending (fst <$> foldl (fun es e => assign e.1 e.2 es) acc es) = true.
Proof.
  induction es as [|[k v] es IH]; intros acc Hacc Hes Ha; [done|]. apply Forall_cons in Hes as [He Hes]. cbn [foldl fst snd]. apply IH; [by apply assign_forall|done|by apply assign_ascending].
Qed.

Lemma containers_ok n : (S n <= maxNestingDepth)%nat ->
  (forall l, Forall (container_ok (S n)) l -> container_ok n (AArray l)) /\
  (forall es, Forall (fun e : string * any => text_ok e.1 = true /\ container_ok (S n) e.2) es -> ascending (fst <$> es) = true -> container_ok n (AObject es)).
Proof.
  intros Hn. split.
  - intros l Hl. split; cbn [well_formed depth].
    + apply forallb_forall. intros x Hx%list_elem_of_In. rewrite Forall_forall in Hl. apply (Hl x Hx).
    + rewrite Nat.add_succ_r. induction Hl as [|x l [_ Hx] _ IH]; cbn [foldr]; lia.
  - intros es Hes Ha. split; cbn [well_formed depth].
    + rewrite Ha. apply forallb_forall. intros x Hx%list_elem_of_In. rewrite Forall_forall in Hes. destruct (Hes x Hx) as [-> [-> _]]. done.
    + rewrite Nat.add_succ_r. clear Ha. induction Hes as [|x l [_ [_ Hx]] _ IH]; cbn [foldr]; lia.
Qed.

Lemma leaf_ok raw c tail v : solid raw -> raw = c :: tail -> c <> 123 -> c <> 91 -> json_decode raw = Some v -> exists a, any_leaf v = Some a /\ well_formed a = true /\ depth a = O.
Proof.
  intros [[Hr Hv] Hsp] -> H1 H2 Hd. unfold json_decode in Hd. rewrite Hv, Hsp, Hr in Hd. cbn [negb mbind option_bind] in Hd.
  replace (c =? 123) with false in Hd by lia. replace (c =? 91) with false in Hd by lia. destruct (c =? 34) eqn:E3.
  { destruct (quoted _) as [s|] eqn:Eq in Hd; [|done]. injection Hd as <-. exists (AString s). split_and!; try done. apply bool_decide_eq_true_2. by eapply quoted_text. }
  destruct (c =? 116) eqn:E4; [injection Hd as <-; by eexists|]. destruct (c =? 102) eqn:E5; [injection Hd as <-; by eexists|]. destruct (c =? 110) eqn:E6; [injection Hd as <-; by eexists|].
  injection Hd as <-. exists (ANumber (c :: tail)). split_and!; try done. cbn [well_formed number_text]. assert (json_space c = false) as Hc by (by eapply skip_head).
  unfold read_value in Hr. cbn [read_from value_ends scan_step] in Hr. apply bind_Some in Hr as ([st stack] & Hst & Hr). apply bind_Some in Hr as ([w a] & Hr & [= -> ->]).
  rewrite Hc. cbn [negb andb scan_step]. rewrite Hst. assert (number_state st = true /\ stack = []) as [Hn ->].
  { unfold begin_value, push in Hst. rewrite Hc in Hst. replace (c =? 123) with false in Hst by lia. replace (c =? 91) with false in Hst by lia. rewrite E3, E4, E5, E6 in Hst. repeat case_match; try done; by injection Hst as <- <-. }
  destruct (read_number _ _ Hn Hr) as (fin & -> & Hf). by rewrite Hn, Hf.
Qed.

Lemma any_of_total n : forall raw B, (length raw < n)%nat -> solid raw -> deep B raw -> (length B <= maxNestingDepth)%nat -> exists v, any_of n raw = Some v /\ container_ok (length B) v.
Proof.
  induction n as [|n IH]; intros raw B Hn Hsol (post & fin & Hs & Hf) HB; [lia|]. cbn [any_of].
  destruct (decode_solid raw Hsol) as [(tail & ms & -> & -> & Hat & Hlen)|[(tail & raws & -> & -> & Hat & Hlen)|(c & tail & v & E & H1 & H2 & Hd & Hleaf)]].
  - cbn [app scan] in Hs. change (scan_step (BeginValue, B) 123) with (push ParseObjectKey BeginStringOrEmpty B) in Hs. unfold push in Hs.
    destruct (Nat.leb_spec (S (length B)) maxNestingDepth) as [Hle|]; [|done]. cbn [mbind option_bind] in Hs |- *.
    pose proof (members_deep _ _ _ _ (members_local post _ _ _ _ Hat) B fin Hs Hf) as Hdeep.
    destruct (mapM_exists (fun m : string * list Z => pair m.1 <$> any_of n m.2) (fun e => text_ok e.1 = true /\ container_ok (S (length B)) e.2) ms) as (es & -> & Hes).
    { rewrite Forall_forall in Hdeep, Hlen. apply Forall_forall. intros m Hm. destruct (Hdeep m Hm) as ((name & Hq) & Hms & Hmd). specialize (Hlen m Hm).
      destruct (IH m.2 (ParseObjectValue :: B)) as (v & -> & Hv); [lia|done..|]. exists (m.1, v). split_and!; try done. apply bool_decide_eq_true_2. by eapply quoted_text. }
    cbn [mbind option_bind]. eexists. split; [done|]. destruct (fold_assign _ es [] (Forall_nil_2 _) Hes eq_refl) as [Hall Ha]. by apply (containers_ok (length B) Hle).
  - cbn [app scan] in Hs. change (scan_step (BeginValue, B) 91) with (push ParseArrayValue BeginValueOrEmpty B) in Hs. unfold push in Hs.
    destruct (Nat.leb_spec (S (length B)) maxNestingDepth) as [Hle|]; [|done]. cbn [mbind option_bind] in Hs |- *.
    pose proof (items_deep _ _ _ _ (items_local post _ _ _ _ Hat) B fin Hs Hf) as Hdeep.
    destruct (mapM_exists (any_of n) (container_ok (S (length B))) raws) as (vs & -> & Hvs).
    { rewrite Forall_forall in Hdeep, Hlen. apply Forall_forall. intros r Hr. destruct (Hdeep r Hr) as [Hrs Hrd]. specialize (Hlen r Hr). apply (IH r (ParseArrayValue :: B)); [lia|done..]. }
    eexists. split; [done|]. by apply (containers_ok (length B) Hle).
  - rewrite Hd. cbn [mbind option_bind]. destruct (leaf_ok raw c tail v) as (a & Ha & Hw & Hz); [done..|]. exists a. split; [by destruct v|]. split; [done|]. rewrite Hz. lia.
Qed.

(** Decoding into [any] succeeds exactly on valid texts, and returns a well-formed value no
    deeper than the limit of the scanner. *)
Lemma decode_any_total text : json_valid text = true -> exists v, decode_any text = Some v /\ container_ok 0 v.
Proof.
  intros Hv. destruct (decode_text text Hv) as (raw & after & Esp & Hsol & _ & _ & Hdec).
  assert (length raw <= length text)%nat as Hlen by (pose proof (skip_length text) as H; rewrite Esp, length_app in H; lia).
  destruct (any_of_total (S (length text)) raw []) as (v & Hany & Hok); [lia|done| |cbn; lia|].
  - destruct Hsol as [[_ Hr] _]. destruct (valid_scan raw Hr) as (fin & Hs & _ & _ & Hf). exists [], fin. by rewrite app_nil_r.
  - exists v. split; [|done]. unfold decode_any. cbn [any_of] in *. by rewrite Hdec.
Qed.

Lemma decode_any_valid text v : decode_any text = Some v -> json_valid text = true.
Proof. unfold decode_any. cbn [any_of]. intros (w & Hw & _)%bind_Some. apply json_decode_total. by eexists. Qed.

Lemma decode_encoded v : container_ok 0 v -> decode_any (encode_any v) = Some v.
Proof. intros Hok. apply encode_decode; [done|lia]. Qed.

(** Decoding an encoded value without [UseNumber] converts its numbers, and fails exactly when
    one of them is out of range. *)
Lemma floats_decoded v : container_ok 0 v -> decode_value (encode_any v) = floats v.
Proof. intros Hok. apply encode_floats; [done|lia]. Qed.
