(* ===== verification/ConfigSnapshot.v ===== *)
(** * Configuration snapshots (config/snapshot.go)

    A snapshot is a versioned JSON document in canonical form with its checksum; the store
    keeps the newest one. Readers load the current snapshot without a lock, publishers hold
    the mutex, and a waiter sleeps on the channel that the next publication closes. The
    store is modelled as the goroutines that use it: each step of [schedule] is one access to
    what goroutines share, so that every interleaving of publishers, readers and waiters is
    a path of [store_step]. SHA-256 is the argument [Sum256]. *)
From Stdlib Require Import ZArith Lia Bool Ascii String SpecFloat.
From stdpp Require Import base tactics option list strings gmap relations.
From S2P Require Import Prelude Identifiers Unicode Encoding JSON JSONDecode JSONFraming JSONAny.

Record Snapshot := { sn_version : Z; sn_publishedAt : Time; sn_checksum : list Z; sn_canonicalJSON : list Z }.

Inductive snapshot_error := SnapshotVersion | SnapshotTime | SnapshotJSON | SnapshotSensitive.

(** ** Sensitive keys *)
Definition forbiddenSnapshotKeys : list string :=
  ["apikey"; "authorization"; "credential"; "credentials"; "password"; "providerkey"; "secret"; "secretvalue"; "token"]%string.

(** [unicode.ToLower], as far as its result is ASCII: apart from the capital letters only
    U+0130 and U+212A become ASCII letters. *)
Definition lower_rune (r : Z) : Z := if within 65 90 r then r + 32 else if r =? 304 then 105 else if r =? 8490 then 107 else r.

Definition normalized_key (key : string) : list Z :=
  filter (fun r => negb ((r =? 95) || (r =? 45))) (lower_rune <$> runes (bytes_of (TrimSpace key))).

Definition forbidden (key : string) : bool := existsb (fun word => bool_decide (normalized_key key = bytes_of word)) forbiddenSnapshotKeys.

(** [rejectSensitiveKeys] returns an error; which of several keys it names depends on the
    order in which Go visits a map. *)
Fixpoint rejectSensitiveKeys (value : any) : bool :=
  match value with
  | AObject entries => existsb (fun e : string * any => forbidden e.1 || rejectSensitiveKeys e.2) entries
  | AArray items => existsb rejectSensitiveKeys items
  | _ => false
  end.

Section Snapshots.
Context (Sum256 : list Z -> list Z).

Definition NewSnapshot (version : Z) (publishedAt : Time) (document : list Z) : result Snapshot snapshot_error :=
  ensure negb (version <=? 0) else SnapshotVersion in
  ensure negb (time_is_zero publishedAt) else SnapshotTime in
  ensure json_object document else SnapshotJSON in
  match decode_any document with
  | Some decoded =>
      ensure negb (rejectSensitiveKeys decoded) else SnapshotSensitive in
      let canonical := encode_any decoded in
      Ok {| sn_version := version; sn_publishedAt := publishedAt; sn_checksum := Sum256 canonical; sn_canonicalJSON := canonical |}
  | None => Err SnapshotJSON
  end.

(** [Decode] into a target of type [any]: numbers become float64, and [None] is the error for
    a number that is out of its range. *)
Definition Snapshot_Decode (s : Snapshot) : option value := decode_value (sn_canonicalJSON s).

Definition snapshot_validate (s : Snapshot) : bool :=
  negb ((sn_version s <=? 0) || time_is_zero (sn_publishedAt s) || bool_decide (sn_canonicalJSON s = [])) && bool_decide (Sum256 (sn_canonicalJSON s) = sn_checksum s).

(** ** The store *)

(** [ss_mu] is the goroutine that holds the mutex; a channel is its position in
    [ss_closed], which says whether it is closed. *)
Record SnapshotStore := { ss_current : option Snapshot; ss_mu : option nat; ss_changed : option nat; ss_closed : list bool }.

Definition NewSnapshotStore : SnapshotStore := {| ss_current := None; ss_mu := None; ss_changed := Some O; ss_closed := [false] |}.

Inductive publish_error := PublishInvalid | ErrStaleSnapshot | ErrSnapshotVersionConflict.
Inductive wait_error := WaitInvalid | WaitCancelled.

(** Where a goroutine is in [Publish] or [WaitForVersion]. *)
Inductive goroutine :=
| Publishing (s : Snapshot)
| PublishLocked (s : Snapshot)
| PublishStored (s : Snapshot)
| PublishClosed (s : Snapshot)
| Published (s : Snapshot) (r : result unit publish_error)
| Waiting (afterVersion : Z)
| WaitLocking (afterVersion : Z)
| WaitBlocked (afterVersion : Z) (changed : nat)
| Waited (afterVersion : Z) (r : result Snapshot wait_error)
| PublishPanics.

Definition holds_lock (g : goroutine) : bool := match g with PublishLocked _ | PublishStored _ | PublishClosed _ => true | _ => false end.

Definition set_mu (s : SnapshotStore) (mu : option nat) : SnapshotStore :=
  {| ss_current := ss_current s; ss_mu := mu; ss_changed := ss_changed s; ss_closed := ss_closed s |}.
Definition set_current (s : SnapshotStore) (c : Snapshot) : SnapshotStore :=
  {| ss_current := Some c; ss_mu := ss_mu s; ss_changed := ss_changed s; ss_closed := ss_closed s |}.
Definition make_changed (s : SnapshotStore) : SnapshotStore :=
  {| ss_current := ss_current s; ss_mu := ss_mu s; ss_changed := Some (length (ss_closed s)); ss_closed := ss_closed s ++ [false] |}.
Definition initializeChangedLocked (s : SnapshotStore) : SnapshotStore := match ss_changed s with None => make_changed s | Some _ => s end.

Definition is_closed (s : SnapshotStore) (ch : nat) : bool := bool_decide (ss_closed s !! ch = Some true).

(** [close]: [None] is the panic on a nil or closed channel. *)
Definition close_changed (s : SnapshotStore) : option SnapshotStore :=
  ch ← ss_changed s;
  if is_closed s ch then None
  else Some {| ss_current := ss_current s; ss_mu := ss_mu s; ss_changed := ss_changed s; ss_closed := <[ch := true]> (ss_closed s) |}.

Definition publish_check (current : option Snapshot) (candidate : Snapshot) : result bool publish_error :=
  match current with
  | None => Ok true
  | Some c =>
      if sn_version candidate <? sn_version c then Err ErrStaleSnapshot
      else if (sn_version candidate =? sn_version c) && negb (bool_decide (sn_checksum candidate = sn_checksum c)) then Err ErrSnapshotVersionConflict
      else Ok (negb (sn_version candidate =? sn_version c))
  end.

Definition newer_current (s : SnapshotStore) (afterVersion : Z) : option Snapshot :=
  match ss_current s with Some c => if afterVersion <? sn_version c then Some c else None | None => None end.

(** The next step of the goroutine [me]; [None] if it sleeps or has returned. *)
Definition goroutine_step (me : nat) (g : goroutine) (s : SnapshotStore) : option (goroutine * SnapshotStore) :=
  match g with
  | Publishing sn =>
      if negb (snapshot_validate sn) then Some (Published sn (Err PublishInvalid), s)
      else match ss_mu s with None => Some (PublishLocked sn, set_mu s (Some me)) | Some _ => None end
  | PublishLocked sn =>
      let s := initializeChangedLocked s in
      match publish_check (ss_current s) sn with
      | Err e => Some (Published sn (Err e), set_mu s None)
      | Ok false => Some (Published sn (Ok tt), set_mu s None)
      | Ok true => Some (PublishStored sn, set_current s sn)
      end
  | PublishStored sn => match close_changed s with Some s => Some (PublishClosed sn, s) | None => Some (PublishPanics, s) end
  | PublishClosed sn => Some (Published sn (Ok tt), set_mu (make_changed s) None)
  | Waiting after => match newer_current s after with Some c => Some (Waited after (Ok c), s) | None => Some (WaitLocking after, s) end
  | WaitLocking after =>
      match ss_mu s with
      | Some _ => None
      | None =>
          let s := initializeChangedLocked s in
          match newer_current s after, ss_changed s with
          | Some c, _ => Some (Waited after (Ok c), s)
          | None, Some ch => Some (WaitBlocked after ch, s)
          | None, None => None
          end
      end
  | WaitBlocked after ch => if is_closed s ch then Some (Waiting after, s) else None
  | Published _ _ | Waited _ _ | PublishPanics => None
  end.

Record store_system := { sy_store : SnapshotStore; sy_goroutines : list goroutine }.

Definition schedule (i : nat) (y : store_system) : option store_system :=
  g ← sy_goroutines y !! i; '(g', s') ← goroutine_step i g (sy_store y); Some {| sy_store := s'; sy_goroutines := <[i := g']> (sy_goroutines y) |}.

(** A call of [WaitForVersion] *)
Definition start_wait (nilContext : bool) (afterVersion : Z) : goroutine :=
  if nilContext || (afterVersion <? 0) then Waited afterVersion (Err WaitInvalid) else Waiting afterVersion.

Definition spawn (g : goroutine) (y : store_system) : store_system := {| sy_store := sy_store y; sy_goroutines := sy_goroutines y ++ [g] |}.

(** A goroutine steps, a sleeping waiter is cancelled, or a new call begins. *)
Inductive store_step (y : store_system) : store_system -> Prop :=
| step_run i y' : schedule i y = Some y' -> store_step y y'
| step_cancel i after ch : sy_goroutines y !! i = Some (WaitBlocked after ch) ->
    store_step y {| sy_store := sy_store y; sy_goroutines := <[i := Waited after (Err WaitCancelled)]> (sy_goroutines y) |}
| step_publish s : store_step y (spawn (Publishing s) y)
| step_wait nilContext after : store_step y (spawn (start_wait nilContext after) y).

(** The zero value of the store has no channel yet. *)
Definition store_starts (y : store_system) : Prop :=
  sy_goroutines y = [] /\ (sy_store y = NewSnapshotStore \/ sy_store y = {| ss_current := None; ss_mu := None; ss_changed := None; ss_closed := [] |}).

Definition store_Current (y : store_system) : option Snapshot := ss_current (sy_store y).
End Snapshots.

Example sensitive_keys : forbidden " API_Key " = true /\ forbidden "provider-KEY" = true /\ forbidden "tokens" = false /\ forbidden "max_tokens" = false.
Proof. vm_compute. done. Qed.

(** ** Documents are canonical *)
Section Canonical.
Context (Sum256 : list Z -> list Z).

Lemma opens_object_head text : opens_object text = bool_decide (head (skip_spaces text) = Some 123).
Proof. induction text as [|c text IH]; [done|]. cbn [opens_object skip_spaces]. destruct (json_space c); [done|]. cbn [head]. destruct (Z.eqb_spec c 123) as [->|]; symmetry; [by apply bool_decide_eq_true|apply bool_decide_eq_false; congruence]. Qed.

Lemma object_decodes text v : decode_any text = Some v -> opens_object text = match v with AObject _ => true | _ => false end.
Proof.
  unfold decode_any. cbn [any_of]. intros (w & Hw & Hv)%bind_Some. rewrite opens_object_head. unfold json_decode in Hw. destruct (json_valid text); [|done]. cbn [negb] in Hw.
  destruct (skip_spaces text) as [|c rest]; [done|]. cbn [head].
  destruct (c =? 123) eqn:E; [apply Z.eqb_eq in E as ->; destruct (object_members _ _); [|done]; injection Hw as <-; apply bind_Some in Hv as (? & _ & [= <-]); by apply bool_decide_eq_true_2|].
  rewrite bool_decide_eq_false_2 by (intros [= ->]; done). destruct (c =? 91); [destruct (array_items _ _); [|done]; injection Hw as <-; destruct (mapM _ _); [|done]; by injection Hv as <-|].
  destruct (c =? 34); [apply bind_Some in Hw as ([? ?] & _ & Hw); destruct (quoted _); [|done]; injection Hw as <-; by injection Hv as <-|].
  destruct (c =? 116); [|destruct (c =? 102); [|destruct (c =? 110); [|apply bind_Some in Hw as ([? ?] & _ & Hw)]]]; injection Hw as <-; by injection Hv as <-.
Qed.

Lemma new_snapshot_ok version at_ document s : NewSnapshot Sum256 version at_ document = Ok s <->
  0 < version /\ at_ <> 0 /\ exists entries, decode_any document = Some (AObject entries) /\ rejectSensitiveKeys (AObject entries) = false /\
    s = {| sn_version := version; sn_publishedAt := at_; sn_checksum := Sum256 (encode_any (AObject entries)); sn_canonicalJSON := encode_any (AObject entries) |}.
Proof.
  unfold NewSnapshot, time_is_zero. split.
  - intros (H1 & (H2 & (H3 & H)%ensure_Ok)%ensure_Ok)%ensure_Ok. prop_hyps. split_and!; [lia|lia|]. unfold json_object in H3. apply andb_prop in H3 as [H3 _].
    destruct (decode_any document) as [v|] eqn:E; [|done]. rewrite (object_decodes _ _ E) in H3. destruct v as [| | | | |entries]; try done. apply ensure_Ok in H as [H [= <-]].
    exists entries. by apply negb_true_iff in H.
  - intros (H1 & H2 & entries & E & Hs & ->). replace (version <=? 0) with false by lia. replace (at_ =? 0) with false by lia. cbn [negb]. unfold json_object.
    by rewrite (object_decodes _ _ E), (decode_any_valid _ _ E), E, Hs.
Qed.

(** C21: Snapshots are canonical. A snapshot that was accepted is valid and holds no sensitive
    key; its text holds the data of its document with every number as it was written;
    canonicalising it again changes nothing; and two snapshots have the same bytes, and hence
    the same checksum, exactly when their documents hold the same data, whatever the order,
    spacing and escapes they were written with. Decode into an untyped target returns that
    data with its numbers converted to float64, and fails exactly when ParseFloat refuses one
    of them, as it does for values out of range. *)
Theorem snapshots_are_canonical version at_ document s version' at_' document' s' :
  NewSnapshot Sum256 version at_ document = Ok s -> NewSnapshot Sum256 version' at_' document' = Ok s' ->
  snapshot_validate Sum256 s = true /\ decode_any (sn_canonicalJSON s) = decode_any document /\
  (exists v, decode_any document = Some v /\ rejectSensitiveKeys v = false /\ Snapshot_Decode s = floats v) /\
  NewSnapshot Sum256 version at_ (sn_canonicalJSON s) = Ok s /\ (sn_canonicalJSON s = sn_canonicalJSON s' <-> decode_any document = decode_any document').
Proof.
  intros (Hv & Ht & es & E & Hs & ->)%new_snapshot_ok (_ & _ & es' & E' & _ & ->)%new_snapshot_ok.
  assert (forall doc v, decode_any doc = Some v -> container_ok 0 v) as Hok.
  { intros doc v Hd. destruct (decode_any_total doc) as (w & Hw & Hok); [by eapply decode_any_valid|]. rewrite Hd in Hw. by injection Hw as <-. }
  apply Hok in E as Hes. apply Hok in E' as Hes'.
  cbn [sn_canonicalJSON]. unfold Snapshot_Decode. cbn [sn_canonicalJSON]. rewrite decode_encoded, E, E' by done. split_and!; [|done| | |].
  - unfold snapshot_validate, time_is_zero. cbn [sn_version sn_publishedAt sn_canonicalJSON sn_checksum encode_any].
    replace (version <=? 0) with false by lia. replace (at_ =? 0) with false by lia. rewrite (bool_decide_eq_false_2 (_ = [])) by done. by rewrite bool_decide_eq_true_2.
  - exists (AObject es). split_and!; [done|done|]. by apply floats_decoded.
  - apply new_snapshot_ok. split_and!; try done. exists es. split_and!; [by apply decode_encoded|done..].
  - split; [|by intros [= ->]]. intros Heq. apply decode_encoded in Hes, Hes'. congruence.
Qed.
End Canonical.

(** ** Interleavings *)
Section Store.
Context (Sum256 : list Z -> list Z).
Notation step := (store_step Sum256).

(** The order of what the store holds: a later snapshot has a greater version. *)
Definition advanced (c c' : Snapshot) : Prop := sn_version c < sn_version c' \/ c = c'.
Definition holds (s : SnapshotStore) (P : Snapshot -> Prop) : Prop := exists c, ss_current s = Some c /\ P c.

(** What a goroutine that has come to [g] can rely on. *)
Definition goroutine_ok (s : SnapshotStore) (me : nat) (g : goroutine) : Prop :=
  (holds_lock g = true <-> ss_mu s = Some me) /\
  match g with
  | PublishLocked sn => snapshot_validate Sum256 sn = true
  | PublishStored sn => ss_current s = Some sn /\ exists ch, ss_changed s = Some ch /\ is_closed s ch = false
  | PublishClosed sn => ss_current s = Some sn /\ exists ch, ss_changed s = Some ch /\ is_closed s ch = true
  | Published sn (Ok _) => holds s (fun c => sn_version sn < sn_version c \/ (sn_version sn = sn_version c /\ sn_checksum sn = sn_checksum c))
  | Published sn (Err ErrStaleSnapshot) => holds s (fun c => sn_version sn < sn_version c)
  | Published sn (Err ErrSnapshotVersionConflict) => holds s (fun c => sn_version sn <= sn_version c)
  | Published sn (Err PublishInvalid) => snapshot_validate Sum256 sn = false
  | WaitBlocked _ ch => is_closed s ch = true \/ ss_changed s = Some ch
  | Waited after (Ok c) => after < sn_version c /\ snapshot_validate Sum256 c = true /\ holds s (advanced c)
  | PublishPanics => False
  | _ => True
  end.

Record store_inv (y : store_system) : Prop := {
  si_goroutines : forall i g, sy_goroutines y !! i = Some g -> goroutine_ok (sy_store y) i g;
  si_valid : forall c, ss_current (sy_store y) = Some c -> snapshot_validate Sum256 c = true;
  si_holder : forall i, ss_mu (sy_store y) = Some i -> exists g, sy_goroutines y !! i = Some g /\ holds_lock g = true;
  si_changed : forall ch, ss_changed (sy_store y) = Some ch ->
    ss_closed (sy_store y) !! ch = Some false \/ exists i sn, sy_goroutines y !! i = Some (PublishClosed sn);
  si_asleep : forall i after ch, sy_goroutines y !! i = Some (WaitBlocked after ch) -> is_closed (sy_store y) ch = false ->
    newer_current (sy_store y) after = None \/ exists j sn, sy_goroutines y !! j = Some (PublishStored sn)
}.

(** What one step does to the store, for those who do not hold the lock. *)
Record store_le (s s' : SnapshotStore) : Prop := {
  sl_current : forall c, ss_current s = Some c -> holds s' (advanced c);
  sl_closed : forall ch, is_closed s ch = true -> is_closed s' ch = true;
  sl_changed : forall ch, ss_changed s = Some ch -> is_closed s' ch = true \/ ss_changed s' = Some ch
}.

Lemma advanced_refl c : advanced c c.
Proof. by right. Qed.
Lemma advanced_trans a b c : advanced a b -> advanced b c -> advanced a c.
Proof. unfold advanced. intros [?|<-] [?|<-]; [left; lia|by left|by left|by right]. Qed.

Lemma store_le_refl s : store_le s s.
Proof. split; [|done|by right]. intros c Hc. exists c. split; [done|apply advanced_refl]. Qed.

Lemma closed_app s c mu ch f ch' : is_closed s ch' = true -> is_closed {| ss_current := c; ss_mu := mu; ss_changed := ch; ss_closed := ss_closed s ++ f |} ch' = true.
Proof. unfold is_closed. rewrite !bool_decide_eq_true. apply lookup_app_l_Some. Qed.

Lemma make_changed_le s c mu : (ss_changed s = None \/ exists ch, ss_changed s = Some ch /\ is_closed s ch = true) -> (forall x, ss_current s = Some x -> exists y, c = Some y /\ advanced x y) ->
  store_le s {| ss_current := c; ss_mu := mu; ss_changed := ss_changed (make_changed s); ss_closed := ss_closed (make_changed s) |}.
Proof.
  intros Hc Hx. split.
  - intros x Hs. apply Hx in Hs as (y & -> & ?). by exists y.
  - intros ch. apply closed_app.
  - intros ch Hch. left. destruct Hc as [Hc|(ch' & Hc & Hcl)]; [congruence|]. assert (ch' = ch) as -> by congruence. by apply (closed_app s).
Qed.

Lemma same_channels_le s c mu : (forall x, ss_current s = Some x -> exists y, c = Some y /\ advanced x y) ->
  store_le s {| ss_current := c; ss_mu := mu; ss_changed := ss_changed s; ss_closed := ss_closed s |}.
Proof. intros Hx. split; [|done|by right]. intros x Hs. apply Hx in Hs as (y & -> & ?). by exists y. Qed.

Lemma initialized_le s c mu : (forall x, ss_current s = Some x -> exists y, c = Some y /\ advanced x y) ->
  store_le s {| ss_current := c; ss_mu := mu; ss_changed := ss_changed (initializeChangedLocked s); ss_closed := ss_closed (initializeChangedLocked s) |}.
Proof. intros Hx. unfold initializeChangedLocked. destruct (ss_changed s) eqn:E; [by apply same_channels_le|]. apply make_changed_le; [by left|done]. Qed.

Lemma still_current (c : option Snapshot) x : c = Some x -> exists y, c = Some y /\ advanced x y.
Proof. exists x. split; [done|apply advanced_refl]. Qed.

Lemma close_le s s' : close_changed s = Some s' -> store_le s s' /\ ss_current s' = ss_current s /\ ss_mu s' = ss_mu s /\ ss_changed s' = ss_changed s /\
  exists ch, ss_changed s = Some ch /\ is_closed s ch = false /\ (ss_closed s !! ch = Some false -> is_closed s' ch = true).
Proof.
  unfold close_changed. intros (ch & Hch & H)%bind_Some. destruct (is_closed s ch) eqn:E; [done|]. injection H as <-. split_and!; try done.
  - split; cbn [ss_current ss_changed ss_mu].
    + intros c Hc. exists c. split; [done|apply advanced_refl].
    + intros ch'. unfold is_closed. cbn [ss_closed]. rewrite !bool_decide_eq_true. intros H. destruct (decide (ch' = ch)) as [->|]; [|by rewrite list_lookup_insert_ne].
      rewrite list_lookup_insert_eq; [done|]. by eapply lookup_lt_Some.
    + by right.
  - exists ch. split_and!; try done. intros H. apply bool_decide_eq_true_2. cbn [ss_closed]. rewrite list_lookup_insert_eq; [done|]. by eapply lookup_lt_Some.
Qed.

(** A step of a goroutine that does not own the lock leaves the store of its owner alone. *)
Lemma step_frame i g s g' s' : (holds_lock g = true <-> ss_mu s = Some i) -> goroutine_ok s i g -> goroutine_step Sum256 i g s = Some (g', s') ->
  s' = s \/ (ss_mu s = None \/ ss_mu s = Some i) /\ store_le s s' /\ (ss_mu s' = None \/ ss_mu s' = Some i).
Proof.
  intros Hlock [_ Hok] Hs. destruct g; cbn [goroutine_step holds_lock] in Hs, Hlock; try done.
  - destruct (snapshot_validate Sum256 s0); cbn [negb] in Hs; [|injection Hs as <- <-; by left]. destruct (ss_mu s) eqn:Em; [done|]. injection Hs as <- <-. right. split_and!; [by left| |by right].
    apply same_channels_le, still_current.
  - assert (ss_mu s = Some i) as Hm by (by apply Hlock). right. split; [by right|]. assert (ss_current (initializeChangedLocked s) = ss_current s) as Ec by (unfold initializeChangedLocked; by destruct (ss_changed s)).
    assert (ss_mu (initializeChangedLocked s) = ss_mu s) as Emu by (unfold initializeChangedLocked; by destruct (ss_changed s)).
    rewrite Ec in Hs. destruct (publish_check _ _) as [[|]|e] eqn:Ep; injection Hs as <- <-; cbn [set_current set_mu ss_mu]; rewrite ?Emu, ?Ec; (split; [|by (left + right)]); apply initialized_le; try (rewrite Ec; apply still_current).
    intros x Hx. exists s0. split; [done|]. left. unfold publish_check in Ep. rewrite Hx in Ep. repeat case_match; try done. injection Ep as Ep. lia.
  - assert (ss_mu s = Some i) as Hm by (by apply Hlock). right. split; [by right|]. destruct Hok as (_ & ch & Hch & Hcl). unfold close_changed in Hs. rewrite Hch in Hs. cbn [mbind option_bind] in Hs. rewrite Hcl in Hs.
    injection Hs as <- <-. assert (close_changed s = Some {| ss_current := ss_current s; ss_mu := ss_mu s; ss_changed := Some ch; ss_closed := <[ch := true]> (ss_closed s) |}) as Hc.
    { unfold close_changed. rewrite Hch. cbn [mbind option_bind]. by rewrite Hcl. }
    apply close_le in Hc as (? & _). split; [done|by right].
  - assert (ss_mu s = Some i) as Hm by (by apply Hlock). right. split; [by right|]. injection Hs as <- <-. split; [|by left]. destruct Hok as (_ & Hch). apply (make_changed_le s (ss_current s) None); [by right|apply still_current].
  - left. destruct (newer_current s _); by injection Hs as <- <-.
  - destruct (ss_mu s) eqn:Em; [done|]. right. split; [by left|]. assert (s' = initializeChangedLocked s) as ->.
    { destruct (newer_current _ _); [by injection Hs as <- <-|]. destruct (ss_changed (initializeChangedLocked s)); [by injection Hs as <- <-|done]. }
    split; [|left; unfold initializeChangedLocked; by destruct (ss_changed s)]. pose proof (initialized_le s (ss_current s) (ss_mu s) (still_current _)) as H.
    unfold initializeChangedLocked in *. destruct (ss_changed s) eqn:Ec; [apply store_le_refl|exact H].
  - left. destruct (is_closed s _); [by injection Hs as <- <-|done].
Qed.

Lemma holds_mono s s' (P : Snapshot -> Prop) : store_le s s' -> (forall c c', P c -> advanced c c' -> P c') -> holds s P -> holds s' P.
Proof. intros Hle HP (c & Hc & H). destruct (sl_current _ _ Hle c Hc) as (c' & Hc' & Ha). exists c'. split; [done|by eapply HP]. Qed.

Lemma other_ok s s' j g : holds_lock g = false -> ss_mu s' <> Some j -> store_le s s' -> goroutine_ok s j g -> goroutine_ok s' j g.
Proof.
  intros Hg Hm Hle [_ Hok]. split; [by rewrite Hg|]. destruct g as [| | | |sn [|[]]| | |after ch|after [|]|]; try done.
  - revert Hok. apply holds_mono; [done|]. intros c c' H [?|<-]; lia || done.
  - revert Hok. apply holds_mono; [done|]. intros c c' H [?|<-]; lia || done.
  - revert Hok. apply holds_mono; [done|]. intros c c' H [?|<-]; lia || done.
  - destruct Hok as [Hc|Hc]; [left; by apply (sl_closed _ _ Hle)|by apply (sl_changed _ _ Hle)].
  - destruct Hok as (? & ? & Hok). split_and!; [done..|]. revert Hok. apply holds_mono; [done|]. intros c c'. apply advanced_trans.
Qed.

Lemma newer_some s after c : newer_current s after = Some c -> ss_current s = Some c /\ after < sn_version c.
Proof. unfold newer_current. destruct (ss_current s) as [c'|]; [|done]. destruct (Z.ltb_spec after (sn_version c')); [|done]. by intros [= ->]. Qed.

Lemma initialized s : ss_current (initializeChangedLocked s) = ss_current s /\ ss_mu (initializeChangedLocked s) = ss_mu s /\
  exists ch, ss_changed (initializeChangedLocked s) = Some ch /\ ((forall ch', ss_changed s = Some ch' -> ss_closed s !! ch' = Some false) -> ss_closed (initializeChangedLocked s) !! ch = Some false).
Proof.
  unfold initializeChangedLocked. destruct (ss_changed s) as [ch|] eqn:E.
  - split_and!; [done..|]. exists ch. split; [done|]. intros H. by apply H.
  - split_and!; [done..|]. exists (length (ss_closed s)). split; [done|]. intros _. cbn. by rewrite lookup_app_r, Nat.sub_diag by lia.
Qed.

Lemma open_not_closed s ch : ss_closed s !! ch = Some false -> is_closed s ch = false.
Proof. intros H. unfold is_closed. apply bool_decide_eq_false_2. congruence. Qed.

Lemma own_ok i g s g' s' : goroutine_ok s i g -> (forall c, ss_current s = Some c -> snapshot_validate Sum256 c = true) ->
  (holds_lock g = true -> (forall sn, g <> PublishClosed sn) -> forall ch, ss_changed s = Some ch -> ss_closed s !! ch = Some false) ->
  goroutine_step Sum256 i g s = Some (g', s') -> goroutine_ok s' i g'.
Proof.
  intros [Hlock Hok] Hvalid Hopen Hs. destruct (initialized s) as (Ec & Em & ch & Ech & Hch). destruct g as [sn|sn|sn|sn|sn r|after|after|after ch'|after r|]; cbn [goroutine_step holds_lock] in *; try done.
  - destruct (snapshot_validate Sum256 sn) eqn:Ev; cbn [negb] in Hs; [destruct (ss_mu s); [done|]|]; by injection Hs as <- <-.
  - specialize (Hch (Hopen eq_refl ltac:(done))). rewrite Ec in Hs. destruct (publish_check _ _) as [[|]|e] eqn:Ep; injection Hs as <- <-.
    + split; [cbn [set_current ss_mu]; by rewrite Em|]. split; [done|]. exists ch. split; [done|by apply open_not_closed].
    + split; [done|]. unfold publish_check in Ep. cbn [set_mu holds ss_current]. unfold holds. cbn [set_mu ss_current]. rewrite Ec. destruct (ss_current s) as [c|]; [|done]. exists c. split; [done|]. right.
      destruct (sn_version sn <? sn_version c); [done|]. destruct (Z.eqb_spec (sn_version sn) (sn_version c)); [|done]. split; [done|]. destruct (bool_decide _) eqn:E in Ep; [by apply bool_decide_eq_true in E|done].
    + split; [done|]. unfold publish_check in Ep. unfold holds. cbn [set_mu ss_current]. rewrite Ec. destruct (ss_current s) as [c|]; [|done].
      destruct (Z.ltb_spec (sn_version sn) (sn_version c)); [injection Ep as <-; by exists c|]. destruct (Z.eqb_spec (sn_version sn) (sn_version c)); cbn [andb] in Ep; [|done]. destruct (negb _); [|done].
      injection Ep as <-. exists c. split; [done|lia].
  - destruct Hok as (Hc & ch' & Hch' & Hcl). destruct (close_changed s) as [s1|] eqn:E; [|unfold close_changed in E; rewrite Hch' in E; cbn in E; by rewrite Hcl in E].
    injection Hs as <- <-. apply close_le in E as (_ & E1 & E2 & E3 & ch2 & Hch2 & _ & Hclosed). split; [by rewrite E2|]. rewrite E1, E3. split; [done|]. exists ch2. split; [done|]. by apply Hclosed, Hopen.
  - injection Hs as <- <-. destruct Hok as (Hc & _). split; [done|]. exists sn. split; [done|]. by right.
  - destruct (newer_current s after) as [c|] eqn:E; injection Hs as <- <-; [|done]. apply newer_some in E as [E Hlt]. split; [done|]. split_and!; [done|by apply Hvalid|]. exists c. split; [done|apply advanced_refl].
  - destruct (ss_mu s) eqn:Emu; [done|]. destruct (newer_current _ after) as [c|] eqn:E.
    + injection Hs as <- <-. apply newer_some in E as [E Hlt]. split; [by rewrite Em|]. split_and!; [done|apply Hvalid; congruence|]. exists c. split; [done|apply advanced_refl].
    + rewrite Ech in Hs. injection Hs as <- <-. split; [by rewrite Em|]. by right.
  - destruct (is_closed s ch'); [|done]. by injection Hs as <- <-.
Qed.

Lemma lock_owner y i j gi gj : store_inv y -> sy_goroutines y !! i = Some gi -> sy_goroutines y !! j = Some gj -> holds_lock gi = true -> holds_lock gj = true -> i = j.
Proof.
  intros Hinv Hi Hj Li Lj. destruct (si_goroutines _ Hinv _ _ Hi) as [[Hmi _] _]. destruct (si_goroutines _ Hinv _ _ Hj) as [[Hmj _] _].
  specialize (Hmi Li). specialize (Hmj Lj). congruence.
Qed.

Lemma step_current i g s g' s' : goroutine_step Sum256 i g s = Some (g', s') ->
  ss_current s' = ss_current s \/ exists sn, g = PublishLocked sn /\ g' = PublishStored sn /\ ss_current s' = Some sn.
Proof.
  intros Hs. destruct (initialized s) as (Ec & Em & ch & Ech & _). destruct g; cbn [goroutine_step] in Hs; try done.
  - destruct (negb _); [|destruct (ss_mu s); [done|]]; injection Hs as <- <-; by left.
  - rewrite Ec in Hs. destruct (publish_check _ _) as [[|]|]; injection Hs as <- <-; [right; by eexists|by left..].
  - destruct (close_changed s) as [s1|] eqn:E; injection Hs as <- <-; [|by left]. apply close_le in E as (_ & E & _). by left.
  - injection Hs as <- <-. by left.
  - destruct (newer_current s _); injection Hs as <- <-; by left.
  - destruct (ss_mu s); [done|]. rewrite Ech in Hs. destruct (newer_current _ _); injection Hs as <- <-; by left.
  - destruct (is_closed s _); [|done]. injection Hs as <- <-. by left.
Qed.

Lemma step_changed i g s g' s' ch : goroutine_step Sum256 i g s = Some (g', s') -> ss_changed s' = Some ch ->
  ss_changed s = Some ch /\ ss_closed s' = ss_closed s /\ (forall sn, g <> PublishClosed sn) \/ ss_closed s' !! ch = Some false \/ (exists sn, g' = PublishClosed sn) \/ g' = PublishPanics.
Proof.
  assert (forall t, ss_changed (initializeChangedLocked t) = Some ch -> ss_changed t = Some ch /\ ss_closed (initializeChangedLocked t) = ss_closed t \/ ss_closed (initializeChangedLocked t) !! ch = Some false) as Hinit.
  { intros t. unfold initializeChangedLocked. destruct (ss_changed t) eqn:E; [intros H; left; by rewrite E in H |]. cbn. intros [= <-]. right. by rewrite lookup_app_r, Nat.sub_diag by lia. }
  intros Hs Hc. destruct g; cbn [goroutine_step] in Hs; try done.
  - destruct (negb _); [|destruct (ss_mu s); [done|]]; injection Hs as <- <-; by left.
  - destruct (publish_check _ _) as [[|]|]; injection Hs as <- <-; cbn [set_mu set_current ss_changed ss_closed] in *; destruct (Hinit s Hc) as [[? ?]|?]; first [by left | by (right; left)].
  - destruct (close_changed s); injection Hs as <- <-; right; right; [left; by eexists|by right].
  - injection Hs as <- <-. cbn in Hc |- *. injection Hc as <-. right. left. by rewrite lookup_app_r, Nat.sub_diag by lia.
  - destruct (newer_current s _); injection Hs as <- <-; by left.
  - destruct (ss_mu s); [done|]. destruct (newer_current _ _); [|destruct (ss_changed (initializeChangedLocked s)) eqn:E; [|done]]; injection Hs as <- <-; destruct (Hinit s Hc) as [[? ?]|?]; first [by left | by (right; left)].
  - destruct (is_closed s _); [|done]. injection Hs as <- <-. by left.
Qed.

Lemma step_sleeps i g s s' after ch : goroutine_step Sum256 i g s = Some (WaitBlocked after ch, s') -> newer_current s' after = None.
Proof.
  destruct g; cbn [goroutine_step]; try done; repeat (case_match; try done); try (by intros [= <- <-]); intros [= <- <- <-]. done.
Qed.

Lemma schedule_goroutine i y y' : schedule Sum256 i y = Some y' ->
  exists g g' s', sy_goroutines y !! i = Some g /\ goroutine_step Sum256 i g (sy_store y) = Some (g', s') /\ y' = {| sy_store := s'; sy_goroutines := <[i := g']> (sy_goroutines y) |}.
Proof. intros (g & Hg & ([g' s'] & Hs & [= <-])%bind_Some)%bind_Some. by exists g, g', s'. Qed.

Lemma changed_open y i g : store_inv y -> sy_goroutines y !! i = Some g -> holds_lock g = true -> (forall sn, g <> PublishClosed sn) ->
  forall ch, ss_changed (sy_store y) = Some ch -> ss_closed (sy_store y) !! ch = Some false.
Proof.
  intros Hinv Hg Hl Hne ch Hc. destruct (si_changed _ Hinv _ Hc) as [|(k & sn & Hk)]; [done|]. assert (i = k) as -> by (by eapply lock_owner). rewrite Hk in Hg. injection Hg as <-. by destruct (Hne sn).
Qed.

Lemma schedule_le i y y' : store_inv y -> schedule Sum256 i y = Some y' -> store_le (sy_store y) (sy_store y').
Proof.
  intros Hinv (g & g' & s' & Hg & Hs & ->)%schedule_goroutine. pose proof (si_goroutines _ Hinv _ _ Hg) as Hok. cbn [sy_store].
  destruct (step_frame i g _ g' s' (proj1 Hok) Hok Hs) as [->|(_ & ? & _)]; [apply store_le_refl|done].
Qed.

Lemma schedule_inv i y y' : store_inv y -> schedule Sum256 i y = Some y' -> store_inv y'.
Proof.
  intros Hinv Hrun. pose proof (schedule_le _ _ _ Hinv Hrun) as Hle. apply schedule_goroutine in Hrun as (g & g' & s' & Hg & Hs & ->). cbn [sy_store] in Hle.
  pose proof (si_goroutines _ Hinv _ _ Hg) as Hok. pose proof (step_frame i g _ g' s' (proj1 Hok) Hok Hs) as Hframe.
  assert (goroutine_ok s' i g') as Hown by (eapply own_ok; [done|apply Hinv|intros ? ?; by eapply changed_open|done]).
  assert (forall j gj, <[i := g']> (sy_goroutines y) !! j = Some gj -> j = i /\ gj = g' \/ j <> i /\ sy_goroutines y !! j = Some gj) as Hat.
  { intros j gj Hj. destruct (decide (j = i)) as [->|Hne]; [rewrite list_lookup_insert_eq in Hj by (by eapply lookup_lt_Some); left; by injection Hj as <-|]. right. by rewrite list_lookup_insert_ne in Hj. }
  assert (<[i := g']> (sy_goroutines y) !! i = Some g') as Hi by (apply list_lookup_insert_eq; by eapply lookup_lt_Some).
  split; cbn [sy_store sy_goroutines].
  - intros j gj [[-> ->]|[Hne Hj]]%Hat; [done|]. pose proof (si_goroutines _ Hinv _ _ Hj) as Hoj. destruct Hframe as [->|(Hmu & _ & Hmu')]; [done|].
    apply (other_ok (sy_store y)); [|destruct Hmu' as [->| ->]; congruence|done..]. destruct (holds_lock gj) eqn:E; [|done]. destruct Hoj as [[Hm _] _]. specialize (Hm E). destruct Hmu; congruence.
  - intros c Hc. destruct (step_current _ _ _ _ _ Hs) as [E|(sn & -> & -> & E)]; [apply (si_valid _ Hinv); congruence|]. rewrite Hc in E. injection E as ->. apply Hok.
  - intros k Hk. destruct (decide (k = i)) as [->|Hne]; [exists g'; split; [done|by apply Hown]|]. destruct Hframe as [->|(_ & _ & [?|?])]; [|congruence..].
    destruct (si_holder _ Hinv _ Hk) as (gk & Hgk & Hl). exists gk. by rewrite list_lookup_insert_ne.
  - intros ch Hc. destruct (step_changed _ _ _ _ _ _ Hs Hc) as [(H1 & H2 & Hne)|[?|[[sn ->]| ->]]]; [|by left|right; by exists i, sn|by destruct Hown].
    rewrite H2. destruct (si_changed _ Hinv _ H1) as [?|(k & sn & Hk)]; [by left|]. right. exists k, sn. rewrite list_lookup_insert_ne; [done|]. intros ->. rewrite Hg in Hk. injection Hk as ->. by destruct (Hne sn).
  - intros k after ch [[-> <-]|[Hne Hk]]%Hat Hcl; [left; by eapply step_sleeps|]. assert (is_closed (sy_store y) ch = false) as Hcl0 by (destruct (is_closed (sy_store y) ch) eqn:E; [by rewrite (sl_closed _ _ Hle _ E) in Hcl|done]).
    destruct (si_asleep _ Hinv _ _ _ Hk Hcl0) as [Hn|(j & sn & Hj)].
    + destruct (step_current _ _ _ _ _ Hs) as [E|(sn & -> & -> & E)]; [left; unfold newer_current in *; by rewrite E|right; by exists i, sn].
    + destruct (decide (j = i)) as [->|]; [|right; exists j, sn; by rewrite list_lookup_insert_ne]. exfalso. rewrite Hg in Hj. injection Hj as ->.
      destruct (si_goroutines _ Hinv _ _ Hk) as [_ [?|Hch]]; [congruence|]. cbn [goroutine_step] in Hs. destruct (close_changed (sy_store y)) as [s1|] eqn:E; [|injection Hs as <- <-; by destruct Hown].
      injection Hs as <- <-. apply close_le in E as (_ & _ & _ & _ & ch' & Hch' & _ & H). assert (ch' = ch) as -> by congruence.
      rewrite H in Hcl; [done|]. by eapply (changed_open y i (PublishStored sn)).
Qed.

Lemma cancel_inv y i after ch : store_inv y -> sy_goroutines y !! i = Some (WaitBlocked after ch) ->
  store_inv {| sy_store := sy_store y; sy_goroutines := <[i := Waited after (Err WaitCancelled)]> (sy_goroutines y) |}.
Proof.
  intros Hinv Hi. assert (forall j gj, <[i := Waited after (Err WaitCancelled)]> (sy_goroutines y) !! j = Some gj -> j = i /\ gj = Waited after (Err WaitCancelled) \/ sy_goroutines y !! j = Some gj) as Hat.
  { intros j gj Hj. destruct (decide (j = i)) as [->|]; [rewrite list_lookup_insert_eq in Hj by (by eapply lookup_lt_Some); left; by injection Hj as <-|]. right. by rewrite list_lookup_insert_ne in Hj. }
  assert (forall j gj, sy_goroutines y !! j = Some gj -> (forall a c, gj <> WaitBlocked a c) -> <[i := Waited after (Err WaitCancelled)]> (sy_goroutines y) !! j = Some gj) as Hkeep.
  { intros j gj Hj Hne. rewrite list_lookup_insert_ne; [done|]. intros ->. rewrite Hi in Hj. injection Hj as <-. by destruct (Hne after ch). }
  split; cbn [sy_store sy_goroutines].
  - intros j gj [[-> ->]|Hj]%Hat; [|by apply Hinv]. by destruct (si_goroutines _ Hinv _ _ Hi) as [? _].
  - apply Hinv.
  - intros k Hk. destruct (si_holder _ Hinv _ Hk) as (gk & Hgk & Hl). exists gk. split; [|done]. apply Hkeep; [done|]. by intros a c ->.
  - intros c Hc. destruct (si_changed _ Hinv _ Hc) as [?|(k & sn & Hk)]; [by left|]. right. exists k, sn. by apply Hkeep.
  - intros k a c [[_ ?]|Hk]%Hat Hcl; [done|]. destruct (si_asleep _ Hinv _ _ _ Hk Hcl) as [?|(j & sn & Hj)]; [by left|]. right. exists j, sn. by apply Hkeep.
Qed.

Lemma spawn_inv y g : store_inv y -> (exists sn, g = Publishing sn) \/ (exists nilContext after, g = start_wait nilContext after) -> store_inv (spawn g y).
Proof.
  intros Hinv Hg. assert (holds_lock g = false /\ (forall s i, ss_mu s <> Some i -> goroutine_ok s i g) /\ forall a c, g <> WaitBlocked a c) as (Hl & Hok & Hne).
  { destruct Hg as [[sn ->]|(nilc & after & ->)]; [|unfold start_wait; destruct (_ || _)]; by split_and!. }
  assert (forall j gj, (sy_goroutines y ++ [g]) !! j = Some gj -> j = length (sy_goroutines y) /\ gj = g \/ sy_goroutines y !! j = Some gj) as Hat.
  { intros j gj [?|[Hj E]]%lookup_app_Some; [by right|]. apply list_lookup_singleton_Some in E as [? <-]. left. split; [lia|done]. }
  assert (forall j gj, sy_goroutines y !! j = Some gj -> (sy_goroutines y ++ [g]) !! j = Some gj) as Hkeep by (intros; by apply lookup_app_l_Some).
  split; cbn [spawn sy_store sy_goroutines].
  - intros j gj [[-> ->]|Hj]%Hat; [|by apply Hinv]. apply Hok. intros Hm. destruct (si_holder _ Hinv _ Hm) as (gk & Hgk & _). apply lookup_lt_Some in Hgk. lia.
  - apply Hinv.
  - intros k Hk. destruct (si_holder _ Hinv _ Hk) as (gk & Hgk & ?). exists gk. split; [by apply Hkeep|done].
  - intros c Hc. destruct (si_changed _ Hinv _ Hc) as [?|(k & sn & Hk)]; [by left|]. right. exists k, sn. by apply Hkeep.
  - intros k a c [[_ E]|Hk]%Hat Hcl; [by destruct (Hne a c)|]. destruct (si_asleep _ Hinv _ _ _ Hk Hcl) as [?|(j & sn & Hj)]; [by left|]. right. exists j, sn. by apply Hkeep.
Qed.

Lemma store_step_inv y y' : store_inv y -> step y y' -> store_inv y' /\ store_le (sy_store y) (sy_store y').
Proof.
  intros Hinv [i y1 Hr|i after ch Hi|sn|nilc after].
  - split; [by eapply schedule_inv|by eapply schedule_le].
  - split; [by eapply cancel_inv|apply store_le_refl].
  - split; [apply spawn_inv; [done|left; by eexists]|apply store_le_refl].
  - split; [apply spawn_inv; [done|right; by eexists _, _]|apply store_le_refl].
Qed.

Lemma steps_inv y y' : rtc step y y' -> store_inv y -> store_inv y' /\ forall c, store_Current y = Some c -> exists c', store_Current y' = Some c' /\ advanced c c'.
Proof.
  induction 1 as [y|y y1 y' Hs _ IH]; intros Hinv; [split; [done|]; intros c Hc; exists c; split; [done|apply advanced_refl]|].
  destruct (store_step_inv _ _ Hinv Hs) as [Hinv1 Hle]. destruct (IH Hinv1) as [? Hcur]. split; [done|]. intros c Hc. destruct (sl_current _ _ Hle c Hc) as (c1 & Hc1 & Ha).
  destruct (Hcur c1 Hc1) as (c' & Hc' & Ha'). exists c'. split; [done|]. by eapply advanced_trans.
Qed.

Lemma start_inv y : store_starts y -> store_inv y.
Proof.
  destruct y as [st gs]. intros [Hg Hs]. cbn [sy_store sy_goroutines] in *. subst gs. destruct Hs as [->| ->]; split; cbn; try done. intros ch [= <-]. by left.
Qed.

(** C22: Versions only advance. Whatever publishers, readers and waiters do in whatever order:
    what the store holds is valid and is only ever replaced by a greater version; a publication
    that succeeded is current or superseded, and one refused as stale was behind; a waiter
    returns only a valid snapshot newer than it asked for that the store held; and no
    publication closes a channel twice. *)
Theorem published_versions_only_advance y0 y : store_starts y0 -> rtc step y0 y ->
  (forall c y', store_Current y = Some c -> rtc step y y' -> snapshot_validate Sum256 c = true /\ exists c', store_Current y' = Some c' /\ advanced c c') /\
  forall i g, sy_goroutines y !! i = Some g ->
    match g with
    | Published sn (Ok _) => exists c, store_Current y = Some c /\ (sn_version sn < sn_version c \/ sn_version sn = sn_version c /\ sn_checksum sn = sn_checksum c)
    | Published sn (Err ErrStaleSnapshot) => exists c, store_Current y = Some c /\ sn_version sn < sn_version c
    | Published sn (Err ErrSnapshotVersionConflict) => exists c, store_Current y = Some c /\ sn_version sn <= sn_version c
    | Published sn (Err PublishInvalid) => snapshot_validate Sum256 sn = false
    | Waited after (Ok c) => after < sn_version c /\ snapshot_validate Sum256 c = true /\ exists c', store_Current y = Some c' /\ advanced c c'
    | PublishPanics => False
    | _ => True
    end.
Proof.
  intros H0 Hs. destruct (steps_inv _ _ Hs (start_inv _ H0)) as [Hinv _]. split.
  - intros c y' Hc Hs'. split; [by apply (si_valid _ Hinv)|]. by apply (steps_inv _ _ Hs' Hinv).
  - intros i g Hg. pose proof (si_goroutines _ Hinv _ _ Hg) as [_ Hok]. destruct g as [| | | |sn [|[]]| | | |after [|]|]; try done.
Qed.

(** ** Waiters *)
Definition waits_for (after : Z) (g : goroutine) : Prop := match g with Waiting a | WaitLocking a | WaitBlocked a _ => a = after | _ => False end.
Definition waited_ok (after : Z) (g : goroutine) : Prop :=
  match g with Waited a r => a = after /\ (r = Err WaitCancelled \/ exists c, r = Ok c /\ after < sn_version c) | _ => False end.

Lemma newer_found s c after : ss_current s = Some c -> after < sn_version c -> newer_current s after = Some c.
Proof. intros H Hlt. unfold newer_current. rewrite H. by replace (after <? sn_version c) with true by lia. Qed.

Lemma waiter_step after i g s g' s' c : goroutine_step Sum256 i g s = Some (g', s') -> ss_current s = Some c -> after < sn_version c -> waits_for after g -> waits_for after g' \/ waited_ok after g'.
Proof.
  intros Hs Hc Hlt Hw. destruct g; try done; cbn in Hw; subst; cbn [goroutine_step] in Hs.
  - rewrite (newer_found _ _ _ Hc Hlt) in Hs. injection Hs as <- _. right. split; [done|]. right. by exists c.
  - destruct (ss_mu s); [done|]. rewrite (newer_found _ c _ (eq_trans (proj1 (initialized s)) Hc) Hlt) in Hs. injection Hs as <- _. right. split; [done|]. right. by exists c.
  - destruct (is_closed s _); [|done]. injection Hs as <- _. by left.
Qed.

Lemma waiter_kept after i y y' g c : step y y' -> store_Current y = Some c -> after < sn_version c -> sy_goroutines y !! i = Some g -> waits_for after g \/ waited_ok after g ->
  exists g', sy_goroutines y' !! i = Some g' /\ (waits_for after g' \/ waited_ok after g').
Proof.
  intros Hs Hc Hlt Hg Hw. destruct Hs as [j y1 Hr|j a ch Hj|sn|nilc a]; cbn [spawn sy_goroutines]; [| |exists g; split; [by apply lookup_app_l_Some|done]..].
  - apply schedule_goroutine in Hr as (gj & gj' & s' & Hj & Hstep & ->). cbn [sy_goroutines]. destruct (decide (j = i)) as [->|]; [|exists g; by rewrite list_lookup_insert_ne].
    rewrite Hg in Hj. injection Hj as <-. exists gj'. split; [apply list_lookup_insert_eq; by eapply lookup_lt_Some|]. destruct Hw as [Hw|Hw]; [by eapply waiter_step|]. by destruct g.
  - destruct (decide (j = i)) as [->|]; [|exists g; by rewrite list_lookup_insert_ne]. rewrite Hg in Hj. injection Hj as ->. destruct Hw as [Hw|Hw]; [|done]. cbn in Hw. subst.
    eexists. split; [apply list_lookup_insert_eq; by eapply lookup_lt_Some|]. right. split; [done|by left].
Qed.

Lemma holder_runs y j : store_inv y -> ss_mu (sy_store y) = Some j -> is_Some (schedule Sum256 j y).
Proof.
  intros Hinv Hm. destruct (si_holder _ Hinv _ Hm) as (g & Hg & Hl). unfold schedule. rewrite Hg. cbn [mbind option_bind]. destruct g; try done; cbn [goroutine_step].
  - destruct (publish_check _ _) as [[|]|]; by eexists.
  - destruct (close_changed _); by eexists.
Qed.

(** C23: Waiters are woken. Once the store holds a version newer than a waiter asked for, the
    waiter cannot be lost: from then on, in every interleaving, it has returned that or a newer
    version (or was cancelled), or its own next step returns it, or it only waits for a mutex
    whose holder can go on, or it sleeps on a channel that is closed, or that a publisher's
    next step closes. *)
Theorem waiters_are_woken y0 y i g after c y' : store_starts y0 -> rtc step y0 y -> sy_goroutines y !! i = Some g -> waits_for after g ->
  store_Current y = Some c -> after < sn_version c -> rtc step y y' ->
  let returns := exists y'' c', schedule Sum256 i y' = Some y'' /\ sy_goroutines y'' !! i = Some (Waited after (Ok c')) /\ after < sn_version c' in
  exists g', sy_goroutines y' !! i = Some g' /\
  match g' with
  | Waited _ r => r = Err WaitCancelled \/ exists c', r = Ok c' /\ after < sn_version c'
  | Waiting _ => returns
  | WaitLocking _ => match ss_mu (sy_store y') with None => returns | Some j => is_Some (schedule Sum256 j y') end
  | WaitBlocked _ ch =>
      if is_closed (sy_store y') ch then exists y'', schedule Sum256 i y' = Some y'' /\ sy_goroutines y'' !! i = Some (Waiting after)
      else exists j y'', schedule Sum256 j y' = Some y'' /\ is_closed (sy_store y'') ch = true
  | _ => False
  end.
Proof.
  intros H0 Hs Hg Hw Hc Hlt Hs' returns. destruct (steps_inv _ _ Hs (start_inv _ H0)) as [Hinv _]. clear H0 Hs.
  assert (exists g' c', sy_goroutines y' !! i = Some g' /\ (waits_for after g' \/ waited_ok after g') /\ store_Current y' = Some c' /\ after < sn_version c' /\ store_inv y') as (g' & c' & Hg' & Hw' & Hc' & Hlt' & Hinv').
  { clear returns. assert (waits_for after g \/ waited_ok after g) as Hw1 by (by left). clear Hw. revert g c Hg Hw1 Hc Hlt Hinv. induction Hs' as [y|y y1 y' Hstep _ IH]; intros g c Hg Hw1 Hc Hlt Hinv; [by exists g, c|].
    destruct (waiter_kept _ _ _ _ _ _ Hstep Hc Hlt Hg Hw1) as (g1 & Hg1 & Hw2). destruct (store_step_inv _ _ Hinv Hstep) as [Hinv1 Hle].
    destruct (sl_current _ _ Hle c Hc) as (c1 & Hc1 & Ha). apply (IH g1 c1); try done. destruct Ha as [?| <-]; lia. }
  exists g'. split; [done|]. assert (forall s1, goroutine_step Sum256 i g' (sy_store y') = Some (Waited after (Ok c'), s1) -> returns) as Hret.
  { intros s1 Hst. exists {| sy_store := s1; sy_goroutines := <[i := Waited after (Ok c')]> (sy_goroutines y') |}, c'. unfold schedule. rewrite Hg'. cbn [mbind option_bind]. rewrite Hst.
    split_and!; [done|apply list_lookup_insert_eq; by eapply lookup_lt_Some|done]. }
  destruct g' as [| | | | |a|a|a ch|a r|]; try (by destruct Hw'); destruct Hw' as [Hw'|Hw']; try done; cbn in Hw'; [subst a..|by destruct Hw'].
  - eapply Hret. cbn [goroutine_step]. by rewrite (newer_found _ _ _ Hc' Hlt').
  - destruct (ss_mu (sy_store y')) as [j|] eqn:Em; [by apply holder_runs|]. eapply Hret. cbn [goroutine_step]. rewrite Em. by rewrite (newer_found _ c' _ (eq_trans (proj1 (initialized _)) Hc') Hlt').
  - destruct (is_closed (sy_store y') ch) eqn:Ecl.
    + eexists. unfold schedule. rewrite Hg'. cbn [mbind option_bind goroutine_step]. rewrite Ecl. split; [done|]. apply list_lookup_insert_eq. by eapply lookup_lt_Some.
    + destruct (si_asleep _ Hinv' _ _ _ Hg' Ecl) as [Hn|(j & sn & Hj)]; [by rewrite (newer_found _ _ _ Hc' Hlt') in Hn|].
      pose proof (si_goroutines _ Hinv' _ _ Hj) as [_ (_ & ch1 & Hch1 & Hcl1)]. destruct (si_goroutines _ Hinv' _ _ Hg') as [_ [?|Hch]]; [congruence|]. assert (ch1 = ch) as -> by congruence.
      assert (ss_closed (sy_store y') !! ch = Some false) as Hopen by (by eapply (changed_open y' j (PublishStored sn))).
      destruct (close_changed (sy_store y')) as [s1|] eqn:E; [|unfold close_changed in E; rewrite Hch in E; cbn in E; by rewrite Ecl in E].
      exists j. eexists. unfold schedule. rewrite Hj. cbn [mbind option_bind goroutine_step]. rewrite E. split; [done|]. apply close_le in E as (_ & _ & _ & _ & ch2 & Hch2 & _ & H). cbn [sy_store].
      assert (ch2 = ch) as -> by congruence. by apply H.
Qed.
End Store.

(** ** A publication and a waiter *)
Module SnapshotDemo.
Definition sum (bs : list Z) : list Z := [Z.of_nat (length bs)].
Definition document : list Z := json_text "{ 'routes': {'b': 2, 'a': [true, 'x<y']} }".
Definition same_document : list Z := json_text "{'routes':{'a':[true,'x<y'],'b':2}}".
Definition sample (version : Z) : Snapshot := match NewSnapshot sum version 5 document with Ok s => s | Err _ => {| sn_version := 0; sn_publishedAt := 0; sn_checksum := []; sn_canonicalJSON := [] |} end.
Definition start : store_system := {| sy_store := NewSnapshotStore; sy_goroutines := [] |}.
(** A waiter falls asleep; then a publisher takes the lock and stores its snapshot. *)
Definition asleep : option store_system :=
  y ← schedule sum 0 (spawn (start_wait false 0) start); y ← schedule sum 0 y; y ← schedule sum 1 (spawn (Publishing (sample 1)) y); schedule sum 1 y.
End SnapshotDemo.

Example demo_asleep : match SnapshotDemo.asleep with
  | Some y => sy_goroutines y = [WaitBlocked 0 0; PublishStored (SnapshotDemo.sample 1)] /\ store_Current y = Some (SnapshotDemo.sample 1) /\ is_closed (sy_store y) 0 = false
  | None => False end.
Proof. vm_compute. done. Qed.

Lemma demo_reached : exists y, SnapshotDemo.asleep = Some y /\ rtc (store_step SnapshotDemo.sum) SnapshotDemo.start y.
Proof.
  unfold SnapshotDemo.asleep. destruct (schedule _ 0 (spawn _ _)) as [y1|] eqn:E1; [|by vm_compute in E1]. cbn [mbind option_bind].
  destruct (schedule _ 0 y1) as [y2|] eqn:E2; [|vm_compute in E1; injection E1 as <-; by vm_compute in E2]. cbn [mbind option_bind].
  destruct (schedule _ 1 (spawn _ y2)) as [y3|] eqn:E3; [|vm_compute in E1; injection E1 as <-; vm_compute in E2; injection E2 as <-; by vm_compute in E3]. cbn [mbind option_bind].
  destruct (schedule _ 1 y3) as [y4|] eqn:E4; [|vm_compute in E1; injection E1 as <-; vm_compute in E2; injection E2 as <-; vm_compute in E3; injection E3 as <-; by vm_compute in E4].
  exists y4. split; [done|]. eapply rtc_l; [apply (step_wait _ _ false 0)|]. eapply rtc_l; [apply (step_run _ _ 0 y1 E1)|]. eapply rtc_l; [apply (step_run _ _ 0 y2 E2)|].
  eapply rtc_l; [apply (step_publish _ _ (SnapshotDemo.sample 1))|]. eapply rtc_l; [apply (step_run _ _ 1 y3 E3)|]. by apply rtc_once, (step_run _ _ 1 y4).
Qed.

(** An accepted document whose number no float64 holds: the snapshot does not decode. *)
Example decode_out_of_range : exists s, NewSnapshot SnapshotDemo.sum 1 5 (json_text "{'limit':1e999}") = Ok s /\ Snapshot_Decode s = None.
Proof. eexists. split; [vm_compute; reflexivity|]. vm_compute. reflexivity. Qed.

(** 2^53 + 1 is rounded. *)
Example decode_rounds : exists s, NewSnapshot SnapshotDemo.sum 1 5 (json_text "{'limit':9007199254740993}") = Ok s /\
  sn_canonicalJSON s = json_text "{'limit':9007199254740993}" /\ Snapshot_Decode s = Some (VObject [("limit"%string, VFloat (S754_finite false 4503599627370496 1))]).
Proof. eexists. split; [vm_compute; reflexivity|]. split; vm_compute; reflexivity. Qed.

Lemma snapshots_are_canonical_witness : exists s, NewSnapshot SnapshotDemo.sum 1 5 SnapshotDemo.document = Ok s /\ sn_canonicalJSON s = sn_canonicalJSON (SnapshotDemo.sample 2) /\
  decode_any SnapshotDemo.same_document = decode_any (sn_canonicalJSON s) /\ exists v, Snapshot_Decode s = Some v.
Proof.
  assert (exists s s', NewSnapshot SnapshotDemo.sum 1 5 SnapshotDemo.document = Ok s /\ NewSnapshot SnapshotDemo.sum 2 5 SnapshotDemo.same_document = Ok s' /\ sn_canonicalJSON s = sn_canonicalJSON s' /\ sn_canonicalJSON s = sn_canonicalJSON (SnapshotDemo.sample 2)) as (s & s' & H & H' & E & E2)
    by (eexists _, _; split_and!; vm_compute; reflexivity).
  destruct (snapshots_are_canonical SnapshotDemo.sum 1 5 SnapshotDemo.document s 2 5 SnapshotDemo.same_document s' H H') as (_ & Hd & (v & Hv & _ & Hf) & _ & Hiff).
  exists s. split; [exact H|]. split; [exact E2|]. split; [rewrite Hd; symmetry; apply Hiff; exact E|]. rewrite Hf. revert Hv. vm_compute. intros [= <-]. eexists. reflexivity.
Defined.

Lemma published_versions_only_advance_witness : exists y, SnapshotDemo.asleep = Some y /\ forall c, store_Current y = Some c -> snapshot_validate SnapshotDemo.sum c = true.
Proof.
  destruct demo_reached as (y & Hy & Hr). exists y. split; [exact Hy|]. intros c Hc.
  apply (proj1 (published_versions_only_advance SnapshotDemo.sum SnapshotDemo.start y (conj eq_refl (or_introl eq_refl)) Hr) c y Hc (rtc_refl _ y)).
Defined.

Lemma waiters_are_woken_witness : exists y j y', SnapshotDemo.asleep = Some y /\ schedule SnapshotDemo.sum j y = Some y' /\ is_closed (sy_store y') 0 = true.
Proof.
  destruct demo_reached as (y & Hy & Hr). assert (sy_goroutines y !! 0%nat = Some (WaitBlocked 0 0) /\ store_Current y = Some (SnapshotDemo.sample 1) /\ is_closed (sy_store y) 0 = false /\ 0 < sn_version (SnapshotDemo.sample 1)) as (Hg & Hc & Hcl & Hv).
  { pose proof demo_asleep as H. rewrite Hy in H. destruct H as (-> & -> & ->). split_and!; reflexivity. }
  destruct (waiters_are_woken SnapshotDemo.sum SnapshotDemo.start y 0 _ 0 _ y (conj eq_refl (or_introl eq_refl)) Hr Hg eq_refl Hc Hv (rtc_refl _ y)) as (g' & Hg' & H).
  rewrite Hg in Hg'. injection Hg' as <-. rewrite Hcl in H. destruct H as (j & y' & H1 & H2). exists y, j, y'. split; [exact Hy|]. split; [exact H1|exact H2].
Defined.
