(* ===== verification/ChatRequest.v ===== *)
(** * The chat request parser (src/internal/gateway/chat_request.go, chat_normalize.go)

    From the bytes of a request body to the provider-neutral request: the shape check over
    the token stream, the parsing of each object with its allowed fields, and the
    normalisation. A [requestProblem] names the offending field by its path. *)
From Stdlib Require Import ZArith Lia Bool Ascii String SpecFloat.
From stdpp Require Import base tactics option list strings gmap fin_maps sets pretty.
From S2P Require Import Prelude Identifiers Unicode Encoding ApiError JSON JSONDecode Catalog Retry Metering Adapter.
Definition maximumChatRequestBytes : Z := 1048576.
Definition maximumChatMessages : nat := 1024.
Definition maximumChatTools : nat := 128.
Definition maximumChatStops : nat := 16.
Definition maximumTextBytes : Z := 1048576.
Definition maximumSchemaBytes : Z := 65536.

(** [^[A-Za-z0-9][A-Za-z0-9._:/-]{0,127}$] *)
Definition chatIdentifierPattern : string -> bool := match_head_tail alnum (or_class alnum (one_of "._:/-")) 0 127.
(** [^[A-Za-z0-9][A-Za-z0-9._:/-]{0,255}$] *)
Definition chatExtendedIdentifierPattern : string -> bool := match_head_tail alnum (or_class alnum (one_of "._:/-")) 0 255.
(** [^[A-Za-z_][A-Za-z0-9_.:-]{0,127}$] *)
Definition chatToolNamePattern : string -> bool :=
  match_head_tail (or_class (or_class upper lower) (one_of "_")) (or_class alnum (one_of "_.:-")) 0 127.
(** [^[A-Za-z0-9_-]{1,64}$] *)
Definition safeParameterSegmentPattern (s : string) : bool :=
  Nat.leb 1 (String.length s) && Nat.leb (String.length s) 64 && all_chars (or_class alnum (one_of "_-")) s.

(** ** The parsed request *)
Record parsedContentPart := { pc_Kind : string; pc_Text : string; pc_ImageURL : string; pc_ImageDetail : string }.
Record parsedToolCall := { pt_ID : string; pt_Name : string; pt_Arguments : RawMessage }.
Record parsedChatMessage := {
  pm_Role : string; pm_Content : list parsedContentPart; pm_Name : string; pm_ToolCallID : string; pm_ToolCalls : list parsedToolCall }.
Record parsedChatTool := { pl_Name : string; pl_Description : string; pl_Parameters : RawMessage }.
Record parsedToolChoice := { px_Mode : string; px_Name : string }.
Record parsedResponseFormat := {
  pf_Type : string; pf_Name : string; pf_Description : string; pf_Schema : RawMessage; pf_Strict : option bool }.
Record parsedChatRequest := {
  pq_Model : string; pq_Messages : list parsedChatMessage; pq_Stream : bool; pq_Temperature : option float64; pq_TopP : option float64;
  pq_MaxCompletionTokens : option Z; pq_Stop : list string; pq_Tools : list parsedChatTool; pq_ToolChoice : option parsedToolChoice;
  pq_ResponseFormat : option parsedResponseFormat; pq_User : string }.

(** ** Problems *)
Record requestProblem := { pb_status : Z; pb_code : string; pb_message : string; pb_param : string }.

Definition newRequestProblem (status : Z) (code message param : string) : requestProblem :=
  {| pb_status := status; pb_code := code; pb_message := message; pb_param := param |}.
Definition publicError (problem : requestProblem) : option ErrorDefinition :=
  MustNew {| ed_Status := pb_status problem; ed_Code := pb_code problem; ed_Message := pb_message problem; ed_Type := "invalid_request_error";
             ed_Param := pb_param problem; ed_Retryable := false; ed_RetryAfter := 0 |}.

Definition requestTooLarge : requestProblem := newRequestProblem 413 "REQUEST_TOO_LARGE" "The request body exceeds the 1 MiB limit" "".
Definition invalidJSON : requestProblem :=
  newRequestProblem 400 "INVALID_JSON" "The request body must contain exactly one valid JSON object" "".
Definition missingField (field : string) : requestProblem :=
  newRequestProblem 400 "MISSING_REQUIRED_FIELD" "A required request field is missing" field.
Definition invalidType (field : string) : requestProblem :=
  newRequestProblem 400 "INVALID_PARAMETER_TYPE" "A request field has an invalid JSON type" field.
Definition invalidParameter (field : string) : requestProblem :=
  newRequestProblem 400 "INVALID_PARAMETER" "A request field has an invalid value" field.
Definition duplicateField (path : string) : requestProblem :=
  newRequestProblem 400 "DUPLICATE_FIELD" "A JSON object contains a duplicate field" path.

Definition problemWithPath {T : Type} (r : result T requestProblem) (path : string) : result T requestProblem :=
  match r with Ok v => Ok v | Err p => Err (newRequestProblem (pb_status p) (pb_code p) (pb_message p) path) end.

(** ** Paths *)
Definition appendSafeParameter (path segment : string) : string :=
  if negb (safeParameterSegmentPattern segment) then path
  else if is_empty path then segment else path +:+ "." +:+ segment.
Definition item_path (path : string) (index : nat) : string := path +:+ "[" +:+ pretty index +:+ "]".

(** ** The shape of the body: one value, no repeated names at any depth. [None] means
    that [fuel] ran out. *)
Fixpoint scanJSONValue (fuel : nat) (d : TokenDecoder) (path : string) : option (result TokenDecoder requestProblem) :=
  match fuel with
  | O => None
  | S fuel =>
      match next_token d with
      | None => Some (Err invalidJSON)
      | Some (Delim c, d) =>
          if c =? 123 then scan_members fuel d path ∅ else if c =? 91 then scan_items fuel d path 0 else Some (Err invalidJSON)
      | Some (_, d) => Some (Ok d)
      end
  end
with scan_members (fuel : nat) (d : TokenDecoder) (path : string) (seen : gset string) : option (result TokenDecoder requestProblem) :=
  match fuel with
  | O => None
  | S fuel =>
      if More d then
        match next_token d with
        | Some (TokenString key, d) =>
            let keyPath := appendSafeParameter path key in
            if bool_decide (key ∈ seen) then Some (Err (duplicateField keyPath))
            else match scanJSONValue fuel d keyPath with
                 | Some (Ok d) => scan_members fuel d path ({[key]} ∪ seen)
                 | r => r
                 end
        | _ => Some (Err invalidJSON)
        end
      else match next_token d with
           | Some (Delim c, d) => Some (if c =? 125 then Ok d else Err invalidJSON)
           | _ => Some (Err invalidJSON)
           end
  end
with scan_items (fuel : nat) (d : TokenDecoder) (path : string) (index : nat) : option (result TokenDecoder requestProblem) :=
  match fuel with
  | O => None
  | S fuel =>
      if More d then
        match scanJSONValue fuel d (item_path path index) with
        | Some (Ok d) => scan_items fuel d path (S index)
        | r => r
        end
      else match next_token d with
           | Some (Delim c, d) => Some (if c =? 93 then Ok d else Err invalidJSON)
           | _ => Some (Err invalidJSON)
           end
  end.

(** Every call of [scanJSONValue] reads a token, so the length of the body bounds them. *)
Definition validateJSONShape (encoded : list Z) : option requestProblem :=
  match scanJSONValue (2 * length encoded + 2) (new_decoder encoded) "" with
  | Some (Ok d) => if at_eof d then None else Some invalidJSON
  | Some (Err problem) => Some problem
  | None => Some invalidJSON
  end.

(** ** Fields of an object *)
Notation object := (gmap string (list Z)).
Notation checked T := (result T requestProblem).

Definition raw_field (o : object) (key : string) : RawMessage := default [] (o !! key).

(** [decodeJSON]: one value of the target's type and nothing after it. *)
Definition decodeJSON {T : Type} (decoder : list Z -> option T) (raw : RawMessage) (field : string) : checked T :=
  match decoder raw with Some v => Ok v | None => Err (invalidType field) end.

Definition decodeObject (raw : RawMessage) (field : string) : checked object :=
  ensure negb (Nat.eqb (length raw) 0) else missingField field in
  let? decoded := decodeJSON decode_map raw field in
  match decoded with Some o => Ok o | None => Err (invalidType field) end.

Definition requiredString (o : object) (key field : string) : checked string :=
  match o !! key with Some raw => decodeJSON decode_string raw field | None => Err (missingField field) end.

Definition optionalString (o : object) (key : string) (maximum : Z) (allowEmpty : bool) : checked string :=
  match o !! key with
  | None => Ok ""%string
  | Some raw =>
      let? value := decodeJSON decode_string raw key in
      ensure (len value <=? maximum) && (allowEmpty || negb (is_empty value)) else invalidParameter key in
      Ok value
  end.

Definition float_two : float64 := S754_finite false 4503599627370496 (-51).

Definition optionalFloat (o : object) (field : string) (minimum maximum : float64) (exclusiveMinimum : bool) : checked (option float64) :=
  match o !! field with
  | None => Ok None
  | Some raw =>
      let? value := decodeJSON decode_float raw field in
      ensure negb (SFltb value minimum || SFltb maximum value || (exclusiveMinimum && SFeqb value minimum)) else invalidParameter field in
      Ok (Some value)
  end.

Definition optionalPositiveInteger (o : object) (field : string) : checked (option Z) :=
  match o !! field with
  | None => Ok None
  | Some raw =>
      let? value := decodeJSON decode_int64 raw field in
      ensure 0 <? value else invalidParameter field in
      Ok (Some value)
  end.

(** [validateJSONObject] *)
Definition validateRawObject (raw : RawMessage) (field : string) (maximum : Z) : checked unit :=
  ensure negb (Nat.eqb (length raw) 0) else missingField field in
  ensure Z.of_nat (length raw) <=? maximum else invalidParameter field in
  let? _ := decodeObject raw field in
  Ok tt.

(** The first unknown name in byte order is reported. *)
Definition first_name (names : list string) : option string :=
  foldr (fun n best => match best with Some b => Some (if String.ltb b n then b else n) | None => Some n end) None names.

Definition rejectUnknownFields (o : object) (path : string) (allowed : list string) : checked unit :=
  match first_name (filter (fun n => n ∉ allowed) (map_to_list o).*1) with
  | None => Ok tt
  | Some name => Err (newRequestProblem 400 "UNSUPPORTED_FIELD" "The request contains an unsupported field" (appendSafeParameter path name))
  end.

(** A loop over the items of an array, with the path of each. *)
Fixpoint parse_each {T : Type} (parse : RawMessage -> string -> checked T) (field : string) (index : nat) (values : list RawMessage) : checked (list T) :=
  match values with
  | [] => Ok []
  | value :: rest =>
      let? x := parse value (item_path field index) in
      let? xs := parse_each parse field (S index) rest in
      Ok (x :: xs)
  end.

(** ** Message content *)
Definition text_part (text : string) : parsedContentPart := {| pc_Kind := "text"; pc_Text := text; pc_ImageURL := ""; pc_ImageDetail := "" |}.

Definition parseContentPart (raw : RawMessage) (field : string) : checked parsedContentPart :=
  let? o := decodeObject raw field in
  let? kind := requiredString o "type" (field +:+ ".type") in
  if String.eqb kind "text" then
    let? _ := rejectUnknownFields o field ["type"; "text"] in
    let? text := requiredString o "text" (field +:+ ".text") in
    ensure negb (is_empty text) && (len text <=? maximumTextBytes) else invalidParameter (field +:+ ".text") in
    Ok (text_part text)
  else if String.eqb kind "image_url" then
    let? _ := rejectUnknownFields o field ["type"; "image_url"] in
    let? image := decodeObject (raw_field o "image_url") (field +:+ ".image_url") in
    let? _ := rejectUnknownFields image (field +:+ ".image_url") ["url"; "detail"] in
    let? url := requiredString image "url" (field +:+ ".image_url.url") in
    ensure negb (is_empty url) && trimmed_utf8 url && (len url <=? 16384) && negb (containsControl url)
      else invalidParameter (field +:+ ".image_url.url") in
    let? detail := problemWithPath (optionalString image "detail" 16 false) (field +:+ ".image_url.detail") in
    ensure existsb (String.eqb detail) [""; "auto"; "low"; "high"] else invalidParameter (field +:+ ".image_url.detail") in
    Ok {| pc_Kind := kind; pc_Text := ""; pc_ImageURL := url; pc_ImageDetail := detail |}
  else Err (invalidParameter (field +:+ ".type")).

Definition parseMessageContent (raw : RawMessage) (field : string) : checked (list parsedContentPart) :=
  match decode_string raw with
  | Some text =>
      ensure negb (is_empty text) && (len text <=? maximumTextBytes) else invalidParameter field in
      Ok [text_part text]
  | None =>
      let? values := decodeJSON decode_items raw field in
      ensure Nat.leb 1 (length values) && Nat.leb (length values) maximumChatMessages else invalidParameter field in
      parse_each parseContentPart field 0 values
  end.

(** ** Tool calls, tools and the tool choice *)
Definition parseToolCall (value : RawMessage) (callField : string) : checked parsedToolCall :=
  let? o := decodeObject value callField in
  let? _ := rejectUnknownFields o callField ["id"; "type"; "function"] in
  let? identifier := requiredString o "id" (callField +:+ ".id") in
  ensure chatExtendedIdentifierPattern identifier else invalidParameter (callField +:+ ".id") in
  let? toolType := requiredString o "type" (callField +:+ ".type") in
  ensure String.eqb toolType "function" else invalidParameter (callField +:+ ".type") in
  let functionField := (callField +:+ ".function") in
  let? function := decodeObject (raw_field o "function") functionField in
  let? _ := rejectUnknownFields function functionField ["name"; "arguments"] in
  let? name := requiredString function "name" (functionField +:+ ".name") in
  ensure chatToolNamePattern name else invalidParameter (functionField +:+ ".name") in
  let? argumentsText := requiredString function "arguments" (functionField +:+ ".arguments") in
  let? _ := validateRawObject (bytes_of argumentsText) (functionField +:+ ".arguments") maximumSchemaBytes in
  Ok {| pt_ID := identifier; pt_Name := name; pt_Arguments := bytes_of argumentsText |}.

Definition parseToolCalls (raw : RawMessage) (field : string) : checked (list parsedToolCall) :=
  let? values := decodeJSON decode_items raw field in
  ensure Nat.leb 1 (length values) && Nat.leb (length values) maximumChatTools else invalidParameter field in
  parse_each parseToolCall field 0 values.

Definition parseTool (seen : gset string) (value : RawMessage) (field : string) : checked parsedChatTool :=
  let? o := decodeObject value field in
  let? _ := rejectUnknownFields o field ["type"; "function"] in
  let? toolType := requiredString o "type" (field +:+ ".type") in
  ensure String.eqb toolType "function" else invalidParameter (field +:+ ".type") in
  let functionField := (field +:+ ".function") in
  let? function := decodeObject (raw_field o "function") functionField in
  let? _ := rejectUnknownFields function functionField ["name"; "description"; "parameters"] in
  let? name := requiredString function "name" (functionField +:+ ".name") in
  ensure chatToolNamePattern name else invalidParameter (functionField +:+ ".name") in
  ensure negb (bool_decide (name ∈ seen)) else invalidParameter (functionField +:+ ".name") in
  let? description := problemWithPath (optionalString function "description" 4096 true) (functionField +:+ ".description") in
  ensure trimmed_utf8 description else invalidParameter (functionField +:+ ".description") in
  match function !! "parameters" with
  | None => Err (missingField (functionField +:+ ".parameters"))
  | Some parameters =>
      let? _ := validateRawObject parameters (functionField +:+ ".parameters") maximumSchemaBytes in
      Ok {| pl_Name := name; pl_Description := description; pl_Parameters := parameters |}
  end.

(** The loop over the tools, with the names already met. *)
Fixpoint parse_tools (seen : gset string) (index : nat) (values : list RawMessage) : checked (list parsedChatTool) :=
  match values with
  | [] => Ok []
  | value :: rest =>
      let? tool := parseTool seen value (item_path "tools" index) in
      let? tools := parse_tools ({[pl_Name tool]} ∪ seen) (S index) rest in
      Ok (tool :: tools)
  end.

Definition parseTools (raw : RawMessage) : checked (list parsedChatTool) :=
  if Nat.eqb (length raw) 0 then Ok []
  else
    let? values := decodeJSON decode_items raw "tools" in
    ensure Nat.leb 1 (length values) && Nat.leb (length values) maximumChatTools else invalidParameter "tools" in
    parse_tools ∅ 0 values.

Definition containsTool (tools : list parsedChatTool) (name : string) : bool := existsb (fun t => String.eqb (pl_Name t) name) tools.

Definition parseToolChoice (raw : RawMessage) (tools : list parsedChatTool) : checked (option parsedToolChoice) :=
  if Nat.eqb (length raw) 0 then Ok None
  else match decode_string raw with
  | Some mode =>
      ensure existsb (String.eqb mode) ["none"; "auto"; "required"] else invalidParameter "tool_choice" in
      ensure negb (String.eqb mode "required" && Nat.eqb (length tools) 0) else invalidParameter "tool_choice" in
      Ok (Some {| px_Mode := mode; px_Name := "" |})
  | None =>
      let? o := decodeObject raw "tool_choice" in
      let? _ := rejectUnknownFields o "tool_choice" ["type"; "function"] in
      let? toolType := requiredString o "type" "tool_choice.type" in
      ensure String.eqb toolType "function" else invalidParameter "tool_choice.type" in
      let? function := decodeObject (raw_field o "function") "tool_choice.function" in
      let? _ := rejectUnknownFields function "tool_choice.function" ["name"] in
      let? name := requiredString function "name" "tool_choice.function.name" in
      ensure chatToolNamePattern name && containsTool tools name else invalidParameter "tool_choice.function.name" in
      Ok (Some {| px_Mode := "named"; px_Name := name |})
  end.

(** ** Response format and stops *)
Definition json_schema_format (o : object) : checked parsedResponseFormat :=
  let? _ := rejectUnknownFields o "response_format" ["type"; "json_schema"] in
  let? s := decodeObject (raw_field o "json_schema") "response_format.json_schema" in
  let? _ := rejectUnknownFields s "response_format.json_schema" ["name"; "description"; "schema"; "strict"] in
  let? name := requiredString s "name" "response_format.json_schema.name" in
  ensure chatToolNamePattern name else invalidParameter "response_format.json_schema.name" in
  let? description := problemWithPath (optionalString s "description" 4096 true) "response_format.json_schema.description" in
  ensure trimmed_utf8 description else invalidParameter "response_format.json_schema.description" in
  match s !! "schema" with
  | None => Err (missingField "response_format.json_schema.schema")
  | Some schema =>
      let? _ := validateRawObject schema "response_format.json_schema.schema" maximumSchemaBytes in
      let? strict := match s !! "strict" with
                     | None => Ok None
                     | Some raw => let? value := decodeJSON decode_bool raw "response_format.json_schema.strict" in Ok (Some value)
                     end in
      Ok {| pf_Type := "json_schema"; pf_Name := name; pf_Description := description; pf_Schema := schema; pf_Strict := strict |}
  end.

Definition parseResponseFormat (raw : RawMessage) : checked (option parsedResponseFormat) :=
  if Nat.eqb (length raw) 0 then Ok None
  else
    let? o := decodeObject raw "response_format" in
    let? formatType := requiredString o "type" "response_format.type" in
    if String.eqb formatType "text" || String.eqb formatType "json_object" then
      let? _ := rejectUnknownFields o "response_format" ["type"] in
      Ok (Some {| pf_Type := formatType; pf_Name := ""; pf_Description := ""; pf_Schema := []; pf_Strict := None |})
    else if String.eqb formatType "json_schema" then let? format := json_schema_format o in Ok (Some format)
    else Err (invalidParameter "response_format.type").

Definition null_text (raw : RawMessage) : bool := bool_decide (trim_right (trim_left 0 raw) = bytes_of "null").

Fixpoint check_stops (stop : list string) (index : nat) (seen : gset string) : checked unit :=
  match stop with
  | [] => Ok tt
  | value :: rest =>
      ensure negb (is_empty value) && (len value <=? 256) else invalidParameter (item_path "stop" index) in
      ensure negb (bool_decide (value ∈ seen)) else invalidParameter "stop" in
      check_stops rest (S index) ({[value]} ∪ seen)
  end.

Definition parseStop (raw : RawMessage) : checked (list string) :=
  if Nat.eqb (length raw) 0 || null_text raw then Ok []
  else match decode_string raw with
  | Some single =>
      ensure negb (is_empty single) && (len single <=? 256) else invalidParameter "stop" in
      Ok [single]
  | None =>
      let? stop := decodeJSON decode_strings raw "stop" in
      ensure Nat.leb 1 (length stop) && Nat.leb (length stop) maximumChatStops else invalidParameter "stop" in
      let? _ := check_stops stop 0 ∅ in
      Ok stop
  end.

(** ** Messages *)
Definition message_calls (o : object) (field : string) : checked (list parsedToolCall) :=
  match o !! "tool_calls" with Some raw => parseToolCalls raw (field +:+ ".tool_calls") | None => Ok [] end.

Definition message_content (o : object) (field : string) : checked (list parsedContentPart) :=
  match o !! "content" with
  | Some raw => if null_text raw then Ok [] else parseMessageContent raw (field +:+ ".content")
  | None => Ok []
  end.

Definition parseMessage (raw : RawMessage) (field : string) : checked parsedChatMessage :=
  let? o := decodeObject raw field in
  let? _ := rejectUnknownFields o field ["role"; "content"; "name"; "tool_call_id"; "tool_calls"] in
  let? role := requiredString o "role" (field +:+ ".role") in
  ensure existsb (String.eqb role) ["system"; "developer"; "user"; "assistant"; "tool"] else invalidParameter (field +:+ ".role") in
  let? name := problemWithPath (optionalString o "name" 128 false) (field +:+ ".name") in
  ensure is_empty name || chatIdentifierPattern name else invalidParameter (field +:+ ".name") in
  let? toolCallID := problemWithPath (optionalString o "tool_call_id" 256 false) (field +:+ ".tool_call_id") in
  ensure is_empty toolCallID || chatExtendedIdentifierPattern toolCallID else invalidParameter (field +:+ ".tool_call_id") in
  let? calls := message_calls o field in
  let? content := message_content o field in
  let assistant := String.eqb role "assistant" in
  ensure (if assistant then negb (Nat.eqb (length content) 0 && Nat.eqb (length calls) 0)
          else negb (bool_decide (o !! "content" = None) || Nat.eqb (length content) 0)) else missingField (field +:+ ".content") in
  ensure assistant || Nat.eqb (length calls) 0 else invalidParameter (field +:+ ".tool_calls") in
  ensure negb (String.eqb role "tool" && is_empty toolCallID) else missingField (field +:+ ".tool_call_id") in
  ensure String.eqb role "tool" || is_empty toolCallID else invalidParameter (field +:+ ".tool_call_id") in
  Ok {| pm_Role := role; pm_Content := content; pm_Name := name; pm_ToolCallID := toolCallID; pm_ToolCalls := calls |}.

Definition parseMessages (raw : RawMessage) : checked (list parsedChatMessage) :=
  ensure negb (Nat.eqb (length raw) 0) else missingField "messages" in
  let? values := decodeJSON decode_items raw "messages" in
  ensure Nat.leb 1 (length values) && Nat.leb (length values) maximumChatMessages else invalidParameter "messages" in
  parse_each parseMessage "messages" 0 values.

(** ** The request object *)
Definition chat_fields : list string :=
  ["model"; "messages"; "stream"; "temperature"; "top_p"; "max_tokens"; "max_completion_tokens"; "stop"; "tools"; "tool_choice";
   "response_format"; "user"].

Definition has_field (o : object) (key : string) : bool := negb (bool_decide (o !! key = None)).

Definition parseChatRequestObject (o : object) : checked parsedChatRequest :=
  let? _ := rejectUnknownFields o "" chat_fields in
  let? model := requiredString o "model" "model" in
  ensure chatIdentifierPattern model else invalidParameter "model" in
  let? messages := parseMessages (raw_field o "messages") in
  let? stream := match o !! "stream" with Some raw => decodeJSON decode_bool raw "stream" | None => Ok false end in
  let? temperature := optionalFloat o "temperature" (S754_zero false) float_two false in
  let? topP := optionalFloat o "top_p" (S754_zero false) float_one true in
  ensure negb (has_field o "max_tokens" && has_field o "max_completion_tokens")
    else newRequestProblem 400 "CONFLICTING_PARAMETERS" "max_tokens and max_completion_tokens cannot be used together" "max_completion_tokens" in
  let? maximum := optionalPositiveInteger o (if has_field o "max_tokens" then "max_tokens" else "max_completion_tokens")%string in
  let? stop := parseStop (raw_field o "stop") in
  let? tools := parseTools (raw_field o "tools") in
  let? toolChoice := parseToolChoice (raw_field o "tool_choice") tools in
  let? responseFormat := parseResponseFormat (raw_field o "response_format") in
  let? user := optionalString o "user" 256 true in
  ensure is_empty user || (trimmed_utf8 user && negb (containsControl user)) else invalidParameter "user" in
  Ok {| pq_Model := model; pq_Messages := messages; pq_Stream := stream; pq_Temperature := temperature; pq_TopP := topP;
        pq_MaxCompletionTokens := maximum; pq_Stop := stop; pq_Tools := tools; pq_ToolChoice := toolChoice;
        pq_ResponseFormat := responseFormat; pq_User := user |}.

(** ** The HTTP request: the headers that matter and the body as the bytes that arrive
    before its end or a failure of the connection. *)
Record ChatHTTPRequest := {
  hr_Method : string; hr_ContentType : string; hr_ContentEncoding : string; hr_ContentLength : Z; hr_Body : list Z; hr_Broken : bool;
  hr_IdempotencyKeys : list string }.

Definition validateChatContentEncoding (value : string) : option requestProblem :=
  let value := TrimSpace value in
  if is_empty value || EqualFold value "identity" then None
  else Some (newRequestProblem 415 "UNSUPPORTED_CONTENT_ENCODING" "Compressed request bodies are not supported" "").

(** [io.ReadAll] through [http.MaxBytesReader]. *)
Definition read_body (r : ChatHTTPRequest) : checked (list Z) :=
  if maximumChatRequestBytes <? Z.of_nat (length (hr_Body r)) then Err requestTooLarge
  else if hr_Broken r then Err (newRequestProblem 400 "INVALID_REQUEST_BODY" "The request body could not be read" "")
  else Ok (hr_Body r).

Definition parse_body (encoded : list Z) : checked parsedChatRequest :=
  ensure negb (Nat.eqb (length encoded) 0) && negb (bool_decide (decode encoded = None)) else invalidJSON in
  match validateJSONShape encoded with
  | Some problem => Err problem
  | None => match decode_map encoded with Some (Some o) => parseChatRequestObject o | _ => Err invalidJSON end
  end.

Section MediaType.
(** [mime.ParseMediaType]: the media type, or [None] if the value is malformed. *)
Variable ParseMediaType : string -> option string.

Definition validateChatMediaType (value : string) : option requestProblem :=
  match ParseMediaType value with
  | Some mediaType =>
      if EqualFold mediaType "application/json" then None
      else Some (newRequestProblem 415 "UNSUPPORTED_MEDIA_TYPE" "Content-Type must be application/json" "")
  | None => Some (newRequestProblem 415 "UNSUPPORTED_MEDIA_TYPE" "Content-Type must be application/json" "")
  end.

Definition parseChatCompletionRequest (r : ChatHTTPRequest) : checked parsedChatRequest :=
  match validateChatMediaType (hr_ContentType r) with
  | Some problem => Err problem
  | None =>
      match validateChatContentEncoding (hr_ContentEncoding r) with
      | Some problem => Err problem
      | None =>
          ensure hr_ContentLength r <=? maximumChatRequestBytes else requestTooLarge in
          let? encoded := read_body r in
          parse_body encoded
      end
  end.
End MediaType.

(** ** Normalisation *)
Record normalizedChatRequest := { nq_ProviderRequest : NormalizedRequest; nq_IdempotencyKey : string }.

(** A public error, or an error without one, which is shown as an internal error. *)
Inductive normalize_error := KeyRejected (e : option ErrorDefinition) | NormalizeFailed.

(** [^[A-Za-z0-9][A-Za-z0-9._:-]{7,127}$] *)
Definition idempotencyKeyPattern : string -> bool := match_head_tail alnum (or_class alnum (one_of "._:-")) 7 127.

Definition idempotencyKeyRejected : normalize_error :=
  KeyRejected (MustNew {| ed_Status := 400; ed_Code := "INVALID_IDEMPOTENCY_KEY"; ed_Message := "Idempotency-Key must be one safe 8-128 character value";
    ed_Type := "invalid_request_error"; ed_Param := "Idempotency-Key"; ed_Retryable := false; ed_RetryAfter := 0 |}).

Definition normalizeIdempotencyKey (values : list string) : result string normalize_error :=
  match values with
  | [] => Ok ""%string
  | [value] => ensure bool_decide (TrimSpace value = value) && idempotencyKeyPattern value else idempotencyKeyRejected in Ok value
  | _ => Err idempotencyKeyRejected
  end.

(** The conversions of the string enumerations. *)
Definition to_role (role : string) : MessageRole :=
  if String.eqb role "system" then RoleSystem else if String.eqb role "developer" then RoleDeveloper
  else if String.eqb role "user" then RoleUser else if String.eqb role "assistant" then RoleAssistant
  else if String.eqb role "tool" then RoleTool else RoleOther role.
Definition to_mode (mode : string) : ToolChoiceMode :=
  if String.eqb mode "auto" then ToolChoiceAuto else if String.eqb mode "none" then ToolChoiceNone
  else if String.eqb mode "required" then ToolChoiceRequired else if String.eqb mode "named" then ToolChoiceNamed else ToolChoiceOther mode.
Definition to_format (type_ : string) : ResponseFormatType :=
  if String.eqb type_ "text" then ResponseFormatText else if String.eqb type_ "json_object" then ResponseFormatJSONObject
  else if String.eqb type_ "json_schema" then ResponseFormatJSONSchema else ResponseFormatOther type_.

Definition normalizePart (part : parsedContentPart) : ContentPart :=
  if String.eqb (pc_Kind part) "text" then
    {| part_Kind := ContentText; part_Text := pc_Text part; part_Reference := ""; part_MediaType := ""; part_Detail := "" |}
  else if String.eqb (pc_Kind part) "image_url" then
    {| part_Kind := ContentImageReference; part_Text := ""; part_Reference := pc_ImageURL part; part_MediaType := ""; part_Detail := pc_ImageDetail part |}
  else {| part_Kind := ContentOther (pc_Kind part); part_Text := ""; part_Reference := ""; part_MediaType := ""; part_Detail := "" |}.

Definition normalizeCall (call : parsedToolCall) : ToolCall :=
  {| call_ID := pt_ID call; call_Name := pt_Name call; call_Arguments := pt_Arguments call |}.

Definition normalizeMessage (message : parsedChatMessage) : Message :=
  {| msg_Role := to_role (pm_Role message); msg_Name := pm_Name message; msg_Parts := normalizePart <$> pm_Content message;
     msg_ToolCalls := normalizeCall <$> pm_ToolCalls message; msg_ToolCallID := pm_ToolCallID message |}.

Definition normalizeTools (tools : list parsedChatTool) : list ToolDefinition :=
  (fun t => {| tool_Name := pl_Name t; tool_Description := pl_Description t; tool_InputSchema := pl_Parameters t |}) <$> tools.

Definition normalizeToolChoice (choice : option parsedToolChoice) : option ToolChoice :=
  (fun c => {| choice_Mode := to_mode (px_Mode c); choice_Name := px_Name c |}) <$> choice.

Definition normalizeResponseFormat (format : option parsedResponseFormat) : option ResponseFormat :=
  (fun f => {| fmt_Type := to_format (pf_Type f); fmt_Name := pf_Name f; fmt_Description := pf_Description f; fmt_Schema := pf_Schema f;
               fmt_Strict := pf_Strict f |}) <$> format.

Definition normalized_request (parsed : parsedChatRequest) (requestID : string) : NormalizedRequest :=
  {| req_RequestID := requestID; req_LogicalModel := pq_Model parsed; req_EndUserReference := pq_User parsed;
     req_Messages := normalizeMessage <$> pq_Messages parsed; req_Stream := pq_Stream parsed; req_Temperature := pq_Temperature parsed;
     req_TopP := pq_TopP parsed; req_MaxOutputTokens := pq_MaxCompletionTokens parsed; req_Stop := pq_Stop parsed;
     req_Tools := normalizeTools (pq_Tools parsed); req_ToolChoice := normalizeToolChoice (pq_ToolChoice parsed);
     req_ResponseFormat := normalizeResponseFormat (pq_ResponseFormat parsed); req_PolicyLabels := []; req_ProviderOptions := [] |}.

Definition normalizeChatCompletionRequest (parsed : parsedChatRequest) (requestID : string) (idempotencyValues : list string)
    : result normalizedChatRequest normalize_error :=
  ensure negb (is_empty requestID) else NormalizeFailed in
  let? key := normalizeIdempotencyKey idempotencyValues in
  ensure NormalizedRequest_Validate (normalized_request parsed requestID) else NormalizeFailed in
  Ok {| nq_ProviderRequest := normalized_request parsed requestID; nq_IdempotencyKey := key |}.
