(* ===== verification/ChatShape.v ===== *)
(** * The check for repeated names is exact

    [validateJSONShape] walks the token stream of a body once. On a valid JSON text it
    refuses exactly the texts in which some object, at any depth, repeats a name, and it
    refuses them as [DUPLICATE_FIELD]; it never gives up for want of fuel. *)
From Stdlib Require Import ZArith Lia Bool Ascii String.
From stdpp Require Import base tactics option list strings gmap fin_maps sets.
From S2P Require Import Prelude Identifiers Unicode Encoding JSON JSONDecode JSONFraming ChatRequest.
(** ** Specification: an object in the decoded text repeats a name *)
Inductive Repeats : list Z -> Prop :=
| repeats_here raw ms : json_decode raw = Some (JObject ms) -> ~ NoDup ms.*1 -> Repeats raw
| repeats_member raw ms key item : json_decode raw = Some (JObject ms) -> (key, item) ∈ ms -> Repeats item -> Repeats raw
| repeats_item raw items item : json_decode raw = Some (JArray items) -> item ∈ items -> Repeats item -> Repeats raw.

(** ** Tokens *)
Notation position rest state stack := {| dc_rest := rest; dc_state := state; dc_stack := stack |}.

Lemma string_decodes name key : solid name -> head name = Some 34 -> quoted name = Some key -> decode_string name = Some key.
Proof.
  intros [[Hr Hv] Hsp] Hh Hq. destruct name as [|c tail]; [done|]. injection Hh as ->. unfold decode_string, json_decode. rewrite Hv, Hsp. cbn [negb Z.eqb Pos.eqb].
  rewrite Hr. cbn [mbind option_bind]. by rewrite Hq.
Qed.

Lemma token_key k rest state stack name after key :
  state = TokenObjectStart \/ state = TokenObjectKey -> head (skip_spaces rest) = Some 34 -> read_value (skip_spaces rest) = Some (name, after) ->
  tight name -> quoted name = Some key ->
  Token (S k) (position rest state stack) = Some (TokenString key, position after TokenObjectColon stack).
Proof.
  intros Hst Hh Hr Ht Hq. pose proof (read_solid _ _ _ Hr Ht) as Hs. destruct (read_value_cons _ _ _ Hr) as (c & tail & En & Hc).
  assert (decode_string name = Some key) as Hd. { apply string_decodes; [done| |done]. rewrite En. cbn. congruence. }
  cbn [Token dc_rest dc_state dc_stack]. destruct (skip_spaces rest) as [|c' r]; [done|]. injection Hh as ->. cbn [Z.eqb Pos.eqb andb].
  replace (bool_decide (state = TokenObjectStart) || bool_decide (state = TokenObjectKey)) with true
    by (by destruct Hst as [-> | ->]).
  rewrite Hr. cbn [mbind option_bind]. by rewrite Hd.
Qed.

Lemma token_close_at k rest after state stack outer close start comma :
  (close = 125 /\ start = TokenObjectStart /\ comma = TokenObjectComma) \/ (close = 93 /\ start = TokenArrayStart /\ comma = TokenArrayComma) ->
  skip_spaces rest = close :: after -> state = start \/ state = comma ->
  Token (S k) (position rest state (outer :: stack)) = Some (Delim close, position after (tokenValueEnd outer) stack).
Proof.
  intros Hk Hs Hst. cbn [Token dc_rest dc_state dc_stack]. rewrite Hs.
  destruct Hk as [(-> & -> & ->)|(-> & -> & ->)]; destruct Hst as [-> | ->]; done.
Qed.

(** ** Fuel: every token shortens the input, so the scan of any text ends. *)
Lemma token_shorter k : forall d t d', Token k d = Some (t, d') -> (length (dc_rest d') < length (dc_rest d))%nat.
Proof.
  induction k as [|k IH]; intros d t d' H; [done|]. cbn [Token] in H. destruct (skip_spaces (dc_rest d)) as [|c rest] eqn:E; [done|].
  pose proof (skip_tail_length _ _ _ E) as Hl. unfold token_open, token_close in H.
  assert (forall raw after, read_value (c :: rest) = Some (raw, after) -> (length after < length (dc_rest d))%nat) as Hread.
  { intros raw after Hr. rewrite <- E in Hr. by apply read_skip_length in Hr. }
  repeat match goal with
  | H : (if ?b then _ else _) = Some _ |- _ => destruct b
  | H : match ?x with _ => _ end = Some _ |- _ => destruct x eqn:?; try done
  | H : Token k _ = Some _ |- _ => apply IH in H; cbn [dc_rest] in H; lia
  | H : mbind _ (read_value _) = Some _ |- _ => apply bind_Some in H as ([raw after] & Hr & H); apply Hread in Hr
  | H : mbind _ _ = Some _ |- _ => apply bind_Some in H as (? & ? & H)
  | H : Some _ = Some _ |- _ => injection H as <- <-; cbn [dc_rest]; lia
  end; done.
Qed.

Lemma scan_answers fuel : forall d path,
  ((2 * length (dc_rest d) + 1 <= fuel)%nat -> exists r, scanJSONValue fuel d path = Some r /\ forall d', r = Ok d' -> (length (dc_rest d') < length (dc_rest d))%nat) /\
  (forall seen, (2 * length (dc_rest d) + 2 <= fuel)%nat -> exists r, scan_members fuel d path seen = Some r /\ forall d', r = Ok d' -> (length (dc_rest d') < length (dc_rest d))%nat) /\
  (forall index, (2 * length (dc_rest d) + 2 <= fuel)%nat -> exists r, scan_items fuel d path index = Some r /\ forall d', r = Ok d' -> (length (dc_rest d') < length (dc_rest d))%nat).
Proof.
  induction fuel as [|fuel IH]; intros d path; [split_and!; intros; lia|]. split_and!.
  - intros Hf. cbn [scanJSONValue]. destruct (next_token d) as [[t d1]|] eqn:E; [|by eexists]. apply token_shorter in E.
    destruct t as [c| |]; [|by eexists; split; [done|intros d' [= <-]]..].
    destruct (c =? 123); [|destruct (c =? 91); [|by eexists]].
    + destruct (IH d1 path) as (_ & Hm & _). destruct (Hm ∅) as (r & -> & Hr); [lia|]. exists r. split; [done|]. intros d' ->. specialize (Hr _ eq_refl). lia.
    + destruct (IH d1 path) as (_ & _ & Hi). destruct (Hi 0%nat) as (r & -> & Hr); [lia|]. exists r. split; [done|]. intros d' ->. specialize (Hr _ eq_refl). lia.
  - intros seen Hf. cbn [scan_members]. destruct (More d).
    + destruct (next_token d) as [[t d1]|] eqn:E; [|by eexists]. apply token_shorter in E. destruct t as [c|key|]; [by eexists| |by eexists].
      case_bool_decide; [by eexists|]. destruct (IH d1 (appendSafeParameter path key)) as (Hv & _). destruct Hv as (r & -> & Hr); [lia|].
      destruct r as [d2|]; [|by eexists]. specialize (Hr _ eq_refl). destruct (IH d2 path) as (_ & Hm & _). destruct (Hm ({[key]} ∪ seen)) as (r & -> & Hr2); [lia|].
      exists r. split; [done|]. intros d' ->. specialize (Hr2 _ eq_refl). lia.
    + destruct (next_token d) as [[[c| |] d1]|] eqn:E; try by eexists. apply token_shorter in E. destruct (c =? 125); eexists; (split; [done|]); intros d' [= <-]; done.
  - intros index Hf. cbn [scan_items]. destruct (More d).
    + destruct (IH d (item_path path index)) as (Hv & _). destruct Hv as (r & -> & Hr); [lia|].
      destruct r as [d2|]; [|by eexists]. specialize (Hr _ eq_refl). destruct (IH d2 path) as (_ & _ & Hi). destruct (Hi (S index)) as (r & -> & Hr2); [lia|].
      exists r. split; [done|]. intros d' ->. specialize (Hr2 _ eq_refl). lia.
    + destruct (next_token d) as [[[c| |] d1]|] eqn:E; try by eexists. apply token_shorter in E. destruct (c =? 93); eexists; (split; [done|]); intros d' [= <-]; done.
Qed.

(** ** One value *)
Definition walked (raw : list Z) (d : TokenDecoder) (r : option (checked TokenDecoder)) : Prop :=
  (r = Some (Ok d) /\ ~ Repeats raw) \/ (exists path, r = Some (Err (duplicateField path)) /\ Repeats raw).

Definition value_walks (raw : list Z) : Prop :=
  forall fuel d k rest state stack after path,
    next_token d = Token (S k) (position rest state stack) -> tokenValueAllowed state = true ->
    skip_spaces rest = raw ++ after -> read_value (raw ++ after) = Some (raw, after) -> (2 * length rest + 1 <= fuel)%nat ->
    walked raw (position after (tokenValueEnd state) stack) (scanJSONValue fuel d path).

(** ** The members of an object *)
Definition clashes (seen : gset string) (ms : list (string * list Z)) : Prop :=
  (exists key, key ∈ ms.*1 /\ key ∈ seen) \/ ~ NoDup ms.*1 \/ exists key item, (key, item) ∈ ms /\ Repeats item.

Lemma clashes_cons seen key item ms : clashes seen ((key, item) :: ms) <-> key ∈ seen \/ Repeats item \/ clashes ({[key]} ∪ seen) ms.
Proof.
  unfold clashes. rewrite fmap_cons, NoDup_cons. cbn [fst]. split.
  - intros [(k & [->|Hk]%elem_of_cons & Hs)|[Hn|(k & i & [[= -> ->]|Hk]%elem_of_cons & Hr)]]; [by left|right; right; left; exists k; set_solver| |by right; left|].
    + destruct (decide (key ∈ ms.*1)); [right; right; left; exists key; set_solver|]. right. right. right. left. intros ?. by apply Hn.
    + right. right. right. right. eauto.
  - intros [Hs|[Hr|[(k & Hk & Hs)|[Hn|(k & i & Hk & Hr)]]]].
    + left. exists key. set_solver.
    + right. right. exists key, item. split; [left|done].
    + apply elem_of_union in Hs as [->%elem_of_singleton|Hs]; [|left; exists k; set_solver]. right. left. by intros [? _].
    + right. left. by intros [_ ?].
    + right. right. exists k, i. split; [by right|done].
Qed.

Definition members_walked (seen : gset string) (ms : list (string * list Z)) (d : TokenDecoder) (r : option (checked TokenDecoder)) : Prop :=
  (r = Some (Ok d) /\ ~ clashes seen ms) \/ (exists path, r = Some (Err (duplicateField path)) /\ clashes seen ms).

(** Where the decoder stands before a member: at its name, or at the comma before it. *)
Definition before (first : bool) (start comma : token_state) (bs : list Z) (d : TokenDecoder) : Prop :=
  if first then dc_rest d = bs /\ dc_state d = start else skip_spaces (dc_rest d) = 44 :: bs /\ dc_state d = comma.

Lemma before_length first start comma bs d : before first start comma bs d -> (length bs <= length (dc_rest d))%nat.
Proof. destruct first; intros [E _]; [by rewrite E|]. apply skip_tail_length in E. lia. Qed.

Lemma before_key first d bs key raw after : before first TokenObjectStart TokenObjectComma bs d -> member_at bs key raw after ->
  exists d1 r2, More d = true /\ next_token d = Some (TokenString key, d1) /\ next_token d1 = Token 2 (position r2 TokenObjectValue (dc_stack d)) /\
    (length (dc_rest d1) < length (dc_rest d))%nat /\ (length r2 < length (dc_rest d1))%nat /\ read_value (skip_spaces r2) = Some (raw, after).
Proof.
  intros Hb (name & r1 & r2 & H1 & H2 & H3 & H4 & H5 & H6 & H7). exists (position r1 TokenObjectColon (dc_stack d)), r2.
  pose proof (before_length _ _ _ _ _ Hb) as Hl. pose proof (read_skip_length _ _ _ H2) as Hl1. pose proof (skip_tail_length _ _ _ H5) as Hl2. cbn [dc_rest].
  assert (More d = true /\ next_token d = Some (TokenString key, position r1 TokenObjectColon (dc_stack d))) as [Hm Ht].
  { destruct d as [rest state stack]. destruct first; destruct Hb as [E1 E2]; cbn [dc_rest dc_state dc_stack] in *; subst.
    - split; [unfold More; cbn [dc_rest]; destruct (skip_spaces bs); [done|]; by injection H1 as ->|]. apply (token_key 2 bs TokenObjectStart stack name r1 key); auto.
    - split; [unfold More; cbn [dc_rest]; by rewrite E1|]. unfold next_token. cbn [Token dc_rest dc_state dc_stack]. rewrite E1. cbn [Z.eqb Pos.eqb].
      apply (token_key 1 bs TokenObjectKey stack name r1 key); auto. }
  split_and!; try done; [|lia]. unfold next_token. cbn [Token dc_rest dc_state dc_stack]. by rewrite H5.
Qed.

Lemma value_at fuel d1 r2 state stack path raw after : value_walks raw -> next_token d1 = Token 2 (position r2 state stack) -> tokenValueAllowed state = true ->
  read_value (skip_spaces r2) = Some (raw, after) -> (2 * length r2 + 1 <= fuel)%nat ->
  walked raw (position after (tokenValueEnd state) stack) (scanJSONValue fuel d1 path).
Proof. intros Hw Ht Hs Hr Hf. pose proof (read_split _ _ _ _ Hr) as E. eapply Hw; [exact Ht|done|exact E|by rewrite <- E|done]. Qed.

Lemma not_clashes_nil seen : ~ clashes seen [].
Proof. intros [(? & H & _)|[H|(? & ? & H & _)]]; [by apply elem_of_nil in H|by apply H; constructor|by apply elem_of_nil in H]. Qed.

(** One member, then what [next] makes of the rest. *)
Lemma member_walk fuel d first bs key raw after ms seen path dfin :
  value_walks raw -> before first TokenObjectStart TokenObjectComma bs d -> member_at bs key raw after -> (2 * length (dc_rest d) + 2 <= S fuel)%nat ->
  (forall d2, d2 = position after TokenObjectComma (dc_stack d) -> (2 * length (dc_rest d2) + 2 <= fuel)%nat ->
    members_walked ({[key]} ∪ seen) ms dfin (scan_members fuel d2 path ({[key]} ∪ seen))) ->
  members_walked seen ((key, raw) :: ms) dfin (scan_members (S fuel) d path seen).
Proof.
  intros Hw Hb Hm Hf Hnext. pose proof (member_lengths _ _ _ _ Hm) as Hlen. pose proof (before_length _ _ _ _ _ Hb) as Hlb.
  destruct (before_key _ _ _ _ _ _ Hb Hm) as (d1 & r2 & Hmore & Ht & Ht1 & Hl1 & Hl2 & Hr). cbn [scan_members]. rewrite Hmore, Ht.
  unfold members_walked. setoid_rewrite clashes_cons. destruct (decide (key ∈ seen)) as [Hin|Hnew].
  { rewrite bool_decide_true by done. right. eexists. split; [reflexivity|by left]. }
  rewrite bool_decide_false by done.
  destruct (value_at fuel d1 r2 TokenObjectValue (dc_stack d) (appendSafeParameter path key) raw after Hw Ht1 eq_refl Hr) as [[-> Hn]|(p & -> & Hrep)]; [lia| |right; eexists; split; [reflexivity|by right; left]].
  cbn [tokenValueEnd]. destruct (Hnext _ eq_refl) as [[-> Hc]|(p & -> & Hc)]; [cbn [dc_rest]; lia|left; split; [done|]|right; eexists; split; [reflexivity|by right; right]].
  by intros [?|[?|?]].
Qed.

Lemma members_walk first bs ms rest : members_at first bs ms rest -> Forall (fun m => value_walks m.2) ms ->
  forall fuel d seen path outer stack, before first TokenObjectStart TokenObjectComma bs d -> dc_stack d = outer :: stack -> (2 * length (dc_rest d) + 2 <= fuel)%nat ->
  members_walked seen ms (position rest (tokenValueEnd outer) stack) (scan_members fuel d path seen).
Proof.
  assert (forall fuel rest state after outer stack seen path, state = TokenObjectStart \/ state = TokenObjectComma -> skip_spaces rest = 125 :: after ->
    scan_members (S fuel) (position rest state (outer :: stack)) path seen = Some (Ok (position after (tokenValueEnd outer) stack))) as Hclose.
  { intros fuel rs state after outer stack seen path Hst E. cbn [scan_members]. unfold More. cbn [dc_rest]. rewrite E. cbn [Z.eqb Pos.eqb orb negb].
    unfold next_token. rewrite (token_close_at 2 rs after state stack outer 125 TokenObjectStart TokenObjectComma); auto. }
  induction 1 as [bs rest E|first bs key raw after rest Hm E|first bs key raw after next ms rest Hm E _ IH]; intros Hw fuel d seen path outer stack Hb Hst Hf;
    (destruct fuel as [|fuel]; [lia|]).
  - destruct d as [rs st stk]. destruct Hb as [Hb1 Hb2]. cbn [dc_rest dc_state dc_stack] in *. subst. left. split; [by apply Hclose; auto|apply not_clashes_nil].
  - apply Forall_cons in Hw as [Hw _]. eapply member_walk; [exact Hw|done..|]. intros d2 -> Hf2. rewrite Hst. left. destruct fuel as [|fuel]; [lia|].
    split; [by apply Hclose; auto|apply not_clashes_nil].
  - apply Forall_cons in Hw as [Hw Hws]. eapply member_walk; [exact Hw|done..|]. intros d2 -> Hf2. apply IH; [done|by split|done|done].
Qed.

(** ** The items of an array *)
Definition items_walked (raws : list (list Z)) (d : TokenDecoder) (r : option (checked TokenDecoder)) : Prop :=
  (r = Some (Ok d) /\ ~ (exists raw, raw ∈ raws /\ Repeats raw)) \/ (exists path, r = Some (Err (duplicateField path)) /\ exists raw, raw ∈ raws /\ Repeats raw).

Lemma before_item first d bs raw after : before first TokenArrayStart TokenArrayComma bs d -> head (skip_spaces bs) <> Some 93 ->
  read_value (skip_spaces bs) = Some (raw, after) ->
  More d = true /\ exists k state, next_token d = Token (S k) (position bs state (dc_stack d)) /\ tokenValueAllowed state = true /\ tokenValueEnd state = TokenArrayComma.
Proof.
  intros Hb Hh Hr. destruct d as [rest state stack]. destruct first; destruct Hb as [E1 E2]; cbn [dc_rest dc_state dc_stack] in *; subst.
  - split; [|by exists 2%nat, TokenArrayStart]. unfold More. cbn [dc_rest]. destruct (skip_spaces bs) as [|c r] eqn:E; [done|].
    assert (c <> 125).
    { intros ->. unfold read_value in Hr. cbn in Hr. done. }
    apply negb_true_iff, orb_false_iff. split; apply Z.eqb_neq; [intros ->; by apply Hh|done].
  - split; [unfold More; cbn [dc_rest]; by rewrite E1|]. exists 1%nat, TokenArrayValue. split_and!; try done. unfold next_token. cbn [Token dc_rest dc_state dc_stack]. by rewrite E1.
Qed.

Lemma item_walk fuel d first bs raw after raws path index dfin :
  value_walks raw -> before first TokenArrayStart TokenArrayComma bs d -> head (skip_spaces bs) <> Some 93 -> read_value (skip_spaces bs) = Some (raw, after) ->
  (2 * length (dc_rest d) + 2 <= S fuel)%nat ->
  (forall d2, d2 = position after TokenArrayComma (dc_stack d) -> (2 * length (dc_rest d2) + 2 <= fuel)%nat ->
    items_walked raws dfin (scan_items fuel d2 path (S index))) ->
  items_walked (raw :: raws) dfin (scan_items (S fuel) d path index).
Proof.
  intros Hw Hb Hh Hr Hf Hnext. pose proof (before_length _ _ _ _ _ Hb) as Hlb. pose proof (read_skip_length _ _ _ Hr) as Hlr.
  destruct (before_item _ _ _ _ _ Hb Hh Hr) as [Hmore (k & state & Ht & Hs & He)]. cbn [scan_items]. rewrite Hmore. unfold items_walked.
  pose proof (read_split _ _ _ _ Hr) as E. pose proof Hr as Hr'. rewrite E in Hr'.
  destruct (Hw fuel d k bs state (dc_stack d) after (item_path path index) Ht Hs E Hr') as [[-> Hn]|(p & -> & Hrep)]; [lia| |right; eexists; split; [reflexivity|]; exists raw; split; [left|done]].
  rewrite He. destruct (Hnext _ eq_refl) as [[-> Hc]|(p & -> & r & Hr1 & Hr2)]; [cbn [dc_rest]; lia|left; split; [done|]|right; eexists; split; [reflexivity|]; exists r; split; [by right|done]].
  intros (r & [->|Hr1]%elem_of_cons & Hr2); [done|]. apply Hc. eauto.
Qed.

Lemma items_walk first bs raws rest : items_at first bs raws rest -> Forall value_walks raws ->
  forall fuel d path index outer stack, before first TokenArrayStart TokenArrayComma bs d -> dc_stack d = outer :: stack -> (2 * length (dc_rest d) + 2 <= fuel)%nat ->
  items_walked raws (position rest (tokenValueEnd outer) stack) (scan_items fuel d path index).
Proof.
  assert (forall fuel rest state after outer stack path index, state = TokenArrayStart \/ state = TokenArrayComma -> skip_spaces rest = 93 :: after ->
    items_walked [] (position after (tokenValueEnd outer) stack) (scan_items (S fuel) (position rest state (outer :: stack)) path index)) as Hclose.
  { intros fuel rs state after outer stack path index Hst E. cbn [scan_items]. unfold More. cbn [dc_rest]. rewrite E. cbn [Z.eqb Pos.eqb orb negb].
    unfold next_token. rewrite (token_close_at 2 rs after state stack outer 93 TokenArrayStart TokenArrayComma) by auto. left. split; [done|].
    intros (r & Hr & _). by apply elem_of_nil in Hr. }
  induction 1 as [bs rest E|first bs raw after rest Hh Hr Ht E|first bs raw after next raws rest Hh Hr Ht E _ IH]; intros Hw fuel d path index outer stack Hb Hst Hf;
    (destruct fuel as [|fuel]; [lia|]).
  - destruct d as [rs st stk]. destruct Hb as [Hb1 Hb2]. cbn [dc_rest dc_state dc_stack] in *. subst. by apply Hclose; auto.
  - apply Forall_cons in Hw as [Hw _]. eapply item_walk; [exact Hw|done..|]. intros d2 -> Hf2. rewrite Hst. destruct fuel as [|fuel]; [lia|]. by apply Hclose; auto.
  - apply Forall_cons in Hw as [Hw Hws]. eapply item_walk; [exact Hw|done..|]. intros d2 -> Hf2. apply IH; [done|by split|done|done].
Qed.

(** ** Every value *)
Lemma items_solid first bs raws rest : items_at first bs raws rest -> Forall solid raws.
Proof. induction 1; [constructor|apply Forall_singleton; eauto using read_solid|apply Forall_cons; eauto using read_solid]. Qed.

Lemma members_solid first bs ms rest : members_at first bs ms rest -> Forall (fun m => solid m.2) ms.
Proof.
  assert (forall bs key raw after, member_at bs key raw after -> solid raw) as Hm by (intros ? ? ? ? (? & ? & ? & ? & ? & ? & ? & ? & ? & ?); by eapply read_solid).
  induction 1; [constructor|apply Forall_singleton; cbn [snd]; eauto|apply Forall_cons; cbn [snd]; eauto].
Qed.

Lemma repeats_object raw ms : json_decode raw = Some (JObject ms) -> Repeats raw <-> clashes ∅ ms.
Proof.
  intros E. split.
  - destruct 1 as [raw' ms' E' Hn|raw' ms' key item E' Hin Hr|raw' items item E' Hin Hr]; rewrite E in E'; simplify_eq; [by right; left|right; right; eauto].
  - intros [(k & _ & Hk)|[Hn|(k & i & Hin & Hr)]]; [set_solver|by eapply repeats_here|by eapply repeats_member].
Qed.

Lemma repeats_array raw raws : json_decode raw = Some (JArray raws) -> Repeats raw <-> exists item, item ∈ raws /\ Repeats item.
Proof.
  intros E. split; [|intros (i & Hin & Hr); by eapply repeats_item].
  destruct 1 as [raw' ms' E' Hn|raw' ms' key item E' Hin Hr|raw' items item E' Hin Hr]; rewrite E in E'; simplify_eq. eauto.
Qed.

Lemma repeats_leaf raw v : json_decode raw = Some v -> leaf v -> ~ Repeats raw.
Proof. intros E Hl. destruct 1 as [raw' ms' E' Hn|raw' ms' key item E' Hin Hr|raw' items item E' Hin Hr]; rewrite E in E'; by simplify_eq. Qed.

Lemma allowed_not_key state : tokenValueAllowed state = true -> bool_decide (state = TokenObjectStart) || bool_decide (state = TokenObjectKey) = false.
Proof. by destruct state. Qed.

Lemma literal_first c bs raw a : read_value (c :: bs) = Some (raw, a) -> c <> 93 /\ c <> 125 /\ c <> 58 /\ c <> 44.
Proof. unfold read_value. intros H. split_and!; intros ->; cbn in H; done. Qed.

Lemma solid_walks n : forall raw, (length raw <= n)%nat -> solid raw -> value_walks raw.
Proof.
  induction n as [|n IH]; intros raw Hn Hs fuel d k rest state stack after path Ht Hst Hskip Hr Hf.
  { destruct raw; [|cbn in Hn; lia]. by destruct Hs as [[? _] _]. }
  pose proof (skip_length rest) as Hlen. rewrite Hskip, length_app in Hlen. destruct fuel as [|fuel]; [lia|]. cbn [scanJSONValue]. rewrite Ht. cbn [Token dc_rest dc_state dc_stack]. rewrite Hskip.
  destruct (decode_solid raw Hs) as [(tail & ms & -> & Hd & Hat & Hl)|[(tail & raws & -> & Hd & Hat & Hl)|(c & tail & v & -> & H1 & H2 & Hd & Hleaf)]]; cbn [app length] in *.
  - cbn [Z.eqb Pos.eqb]. unfold token_open. cbn [dc_state dc_stack]. rewrite Hst. cbn [Z.eqb Pos.eqb].
    pose proof (members_solid _ _ _ _ Hat) as Hsolid. unfold walked. setoid_rewrite (repeats_object _ _ Hd).
    apply (members_walk true (tail ++ after) ms after); [by apply (members_local after) in Hat| |done|done|cbn [dc_rest]; rewrite length_app; lia].
    rewrite !Forall_forall in *. intros m Hm. apply IH; [|by apply Hsolid]. specialize (Hl m Hm). cbn [length] in Hl. lia.
  - cbn [Z.eqb Pos.eqb]. unfold token_open. cbn [dc_state dc_stack]. rewrite Hst. cbn [Z.eqb Pos.eqb].
    pose proof (items_solid _ _ _ _ Hat) as Hsolid. unfold walked. setoid_rewrite (repeats_array _ _ Hd).
    apply (items_walk true (tail ++ after) raws after); [by apply (items_local after) in Hat| |done|done|cbn [dc_rest]; rewrite length_app; lia].
    rewrite !Forall_forall in *. intros m Hm. apply IH; [|by apply Hsolid]. specialize (Hl m Hm). cbn [length] in Hl. lia.
  - destruct (literal_first _ _ _ _ Hr) as (H3 & H4 & H5 & H6).
    replace (c =? 91) with false by lia. replace (c =? 93) with false by lia. replace (c =? 123) with false by lia.
    replace (c =? 125) with false by lia. replace (c =? 58) with false by lia. replace (c =? 44) with false by lia.
    rewrite allowed_not_key, andb_false_r, Hst, Hr by done. cbn [mbind option_bind]. left. split; [|by eapply repeats_leaf].
    unfold token_literal. rewrite Hd. by destruct v.
Qed.

(** C37: On every valid JSON text the shape check answers without running out of fuel: it
    accepts exactly the texts in which no object, at any depth, repeats a name, and refuses
    the others as [DUPLICATE_FIELD]. *)
Theorem shape_check_is_exact text : json_valid text = true ->
  (validateJSONShape text = None /\ ~ Repeats text) \/ (exists path, validateJSONShape text = Some (duplicateField path) /\ Repeats text).
Proof.
  intros Hv. destruct (decode_text text Hv) as (raw & after & E & Hs & Hsp & Hr & Hd). unfold validateJSONShape.
  assert (Repeats text <-> Repeats raw) as Hrep.
  { split; destruct 1 as [r ms E' Hn|r ms key item E' Hin Hr'|r items item E' Hin Hr'];
      first [rewrite Hd in E'|rewrite <- Hd in E']; [by eapply repeats_here|by eapply repeats_member|by eapply repeats_item|by eapply repeats_here|by eapply repeats_member|by eapply repeats_item]. }
  rewrite E in Hr.
  destruct (solid_walks (length raw) raw (le_n _) Hs (2 * length text + 2)%nat (new_decoder text) 2%nat text TokenTopValue [] after "" eq_refl eq_refl E Hr) as [[-> Hn]|(p & -> & Hy)];
    [lia| |right; exists p; by rewrite Hrep].
  left. rewrite Hrep. split; [|done]. unfold at_eof. cbn [dc_rest]. by rewrite bool_decide_true.
Qed.

Lemma shape_check_is_exact_witness :
  let text := json_text "{'a':[{'b':1},{'c':2,'c':3}]} " in
  json_valid text = true /\ ((validateJSONShape text = None /\ ~ Repeats text) \/ (exists path, validateJSONShape text = Some (duplicateField path) /\ Repeats text)).
Proof. split; [vm_compute; reflexivity|]. apply shape_check_is_exact. vm_compute. reflexivity. Defined.
