(* ===== verification/ChatRequestTheorems.v ===== *)
(** * Accepted chat requests (src/internal/gateway/chat_request.go, chat_normalize.go)

    The parser admits only what the provider-neutral model admits, so that a client error is
    reported by the parser with its field and never surfaces as an internal error.

    Then: rejected chat requests (src/internal/gateway/chat_request.go). *)
From Stdlib Require Import ZArith Lia Bool Ascii String SpecFloat.
From stdpp Require Import base tactics option list strings gmap fin_maps sets pretty.
From S2P Require Import Prelude Identifiers Unicode Encoding ApiError JSON JSONDecode Catalog Retry Metering Adapter ChatRequest.
(** ** Taking a successful parse apart *)
Ltac parsed_hyps :=
  repeat match goal with
  | H : result_bind _ _ = Ok _ |- _ => let x := fresh "x" in let E := fresh "E" in apply bind_Ok in H as (x & E & H)
  | H : (if _ then _ else Err _) = Ok _ |- _ => let C := fresh "C" in apply ensure_Ok in H as [C H]
  | H : Ok _ = Ok _ |- _ => injection H as H; subst
  | H : Err _ = Ok _ |- _ => discriminate H
  | x : unit |- _ => destruct x
  end.

Lemma problemWithPath_Ok {T : Type} (r : result T requestProblem) path v : problemWithPath r path = Ok v -> r = Ok v.
Proof. by destruct r; simpl; [intros [= ->]|]. Qed.

Lemma valid_utf8_text s : is_Some (decode (bytes_of s)) -> valid_utf8 s = true.
Proof. unfold valid_utf8. intros [rs ->]. by rewrite bool_decide_eq_false_2. Qed.

Lemma decodeJSON_Ok {T : Type} (decoder : list Z -> option T) raw field v : decodeJSON decoder raw field = Ok v -> decoder raw = Some v.
Proof. unfold decodeJSON. destruct (decoder raw); [by intros [= ->]|done]. Qed.

Lemma requiredString_text o key field s : requiredString o key field = Ok s -> valid_utf8 s = true.
Proof. unfold requiredString. destruct (o !! key); [|done]. intros H%decodeJSON_Ok. by eapply valid_utf8_text, decode_string_text. Qed.

Lemma optionalString_text o key maximum allowEmpty s : 0 <= maximum -> optionalString o key maximum allowEmpty = Ok s -> valid_utf8 s = true /\ len s <= maximum.
Proof.
  unfold optionalString. destruct (o !! key); intros Hm H; parsed_hyps; [|by split].
  apply decodeJSON_Ok in E. prop_hyps. split; [by eapply valid_utf8_text, decode_string_text|done].
Qed.

Lemma trimmed_valid s : trimmed_utf8 s = true -> valid_utf8 s = true.
Proof. unfold trimmed_utf8, valid_utf8. by destruct (decode (bytes_of s)). Qed.

Lemma decodeObject_Ok raw field o : decodeObject raw field = Ok o -> decode_map raw = Some (Some o).
Proof. unfold decodeObject. intros H. parsed_hyps. apply decodeJSON_Ok in E as ->. destruct x; [by injection H as ->|done]. Qed.

Lemma validateRawObject_Ok raw field maximum : validateRawObject raw field maximum = Ok tt -> validateJSONObject raw maximum = true.
Proof.
  unfold validateRawObject, validateJSONObject. intros H. parsed_hyps. apply decodeObject_Ok, decode_map_object in E. by rewrite C, C0, E.
Qed.

Ltac text_hyps :=
  repeat match goal with
  | H : problemWithPath _ _ = Ok _ |- _ => apply problemWithPath_Ok in H
  | H : optionalString _ _ _ _ = Ok _ |- _ => apply optionalString_text in H as [? ?]; [|lia]
  | H : validateRawObject _ _ _ = Ok _ |- _ => apply validateRawObject_Ok in H
  end; unfold maxSchemaBytes, maximumSchemaBytes in *.

Lemma parse_each_Forall {T : Type} (P : T -> Prop) (parse : RawMessage -> string -> checked T) field : (forall raw path x, parse raw path = Ok x -> P x) ->
  forall values index xs, parse_each parse field index values = Ok xs -> Forall P xs /\ length xs = length values.
Proof.
  intros Hp. induction values as [|value values IH]; intros index xs H; cbn [parse_each] in H; parsed_hyps; [done|].
  apply IH in E0 as [H1 H2]. split; [constructor; eauto|simpl; congruence].
Qed.

Lemma forallb_fmap_Forall {A B : Type} (f : A -> B) (p : B -> bool) l : Forall (fun a => p (f a) = true) l -> forallb p (f <$> l) = true.
Proof. induction 1 as [|a l Ha _ IH]; [done|]. cbn [fmap list_fmap forallb]. by rewrite Ha, IH. Qed.

(** ** Content *)
Lemma text_part_ok text : is_empty text = false -> len text <= maximumTextBytes -> valid_utf8 text = true -> validateContentPart (normalizePart (text_part text)) = true.
Proof. intros H1 H2 H3. cbn. unfold validText. rewrite H1, H3. unfold maxTextBytes, maximumTextBytes in *. by rewrite (proj2 (Z.leb_le _ _) H2). Qed.

Lemma parseContentPart_ok raw field p : parseContentPart raw field = Ok p -> validateContentPart (normalizePart p) = true.
Proof.
  unfold parseContentPart. intros H. parsed_hyps. destruct (String.eqb x0 "text").
  - parsed_hyps. prop_hyps. apply requiredString_text in E2. by apply text_part_ok.
  - destruct (String.eqb x0 "image_url") eqn:Ek; [|done]. parsed_hyps. prop_hyps. apply String.eqb_eq in Ek as ->. cbn.
    unfold validReference, maxMediaReferenceBytes. prop_goal; first [done|assumption|exact C0].
Qed.

Lemma parseMessageContent_ok raw field parts : parseMessageContent raw field = Ok parts ->
  Forall (fun p => validateContentPart (normalizePart p) = true) parts /\ (1 <= length parts <= 1024)%nat.
Proof.
  unfold parseMessageContent. destruct (decode_string raw) as [text|] eqn:Ed; intros H; parsed_hyps; prop_hyps.
  - split; [|simpl; lia]. constructor; [|done]. apply text_part_ok; [done|done|by eapply valid_utf8_text, decode_string_text].
  - apply (parse_each_Forall _ _ _ parseContentPart_ok) in H as [Hf Hl]. split; [done|]. rewrite Hl.
    rewrite !Nat.leb_le in *. unfold maximumChatMessages in *. lia.
Qed.

(** ** Tool calls and messages *)
Lemma extended_identifier s : chatExtendedIdentifierPattern s = true -> validateIdentifier s 256 = true.
Proof.
  intros H. unfold validateIdentifier. fold (chatExtendedIdentifierPattern s). replace (identifierPattern s) with true by exact (eq_sym H).
  rewrite andb_true_r. apply Nat.leb_le. unfold chatExtendedIdentifierPattern, match_head_tail in H. destruct s as [|a s]; [done|]. prop_hyps.
  apply Nat.leb_le in H0. cbn [String.length]. lia.
Qed.

Lemma short_identifier s : chatIdentifierPattern s = true -> validateIdentifier s 128 = true.
Proof.
  unfold validateIdentifier, identifierPattern, chatIdentifierPattern, match_head_tail. destruct s as [|a s]; [done|]. intros H. prop_hyps.
  apply Nat.leb_le in H0. prop_goal; [apply Nat.leb_le; cbn [String.length]; lia|done..|apply Nat.leb_le; lia].
Qed.

Lemma optional_identifier s n : is_empty s = true \/ validateIdentifier s n = true -> validateOptionalIdentifier s n = true.
Proof. unfold validateOptionalIdentifier, is_empty, validateIdentifier. intros [->| ->]; [done|]. apply orb_true_r. Qed.

Lemma parseToolCall_ok raw field c : parseToolCall raw field = Ok c -> validateToolCall (normalizeCall c) = true.
Proof.
  unfold parseToolCall. intros H. parsed_hyps. unfold validateToolCall. cbn [normalizeCall call_ID call_Name call_Arguments pt_ID pt_Name pt_Arguments].
  rewrite (extended_identifier _ C). text_hyps. by prop_goal.
Qed.

Lemma parseToolCalls_ok raw field cs : parseToolCalls raw field = Ok cs -> Forall (fun c => validateToolCall (normalizeCall c) = true) cs.
Proof. unfold parseToolCalls. intros H. parsed_hyps. by apply (parse_each_Forall _ _ _ parseToolCall_ok) in H as [Hf _]. Qed.

Lemma message_parts_ok o field parts : message_content o field = Ok parts ->
  Forall (fun p => validateContentPart (normalizePart p) = true) parts /\ (length parts <= 1024)%nat.
Proof.
  unfold message_content. destruct (o !! "content"); [destruct (null_text _)|]; intros H; parsed_hyps; [split; [done|simpl; lia]| |split; [done|simpl; lia]].
  apply parseMessageContent_ok in H as [? ?]. split; [done|lia].
Qed.

Lemma message_calls_ok o field cs : message_calls o field = Ok cs -> Forall (fun c => validateToolCall (normalizeCall c) = true) cs.
Proof. unfold message_calls. destruct (o !! "tool_calls"); intros H; [by eapply parseToolCalls_ok|by parsed_hyps]. Qed.

Lemma parseMessage_ok raw field m : parseMessage raw field = Ok m -> validateMessage (normalizeMessage m) = true.
Proof.
  unfold parseMessage. intros H. parsed_hyps. apply problemWithPath_Ok in E2, E3. apply message_calls_ok in E4. apply message_parts_ok in E5 as [Hp Hl].
  unfold validateMessage. cbn [normalizeMessage msg_Role msg_Name msg_Parts msg_ToolCalls msg_ToolCallID pm_Role pm_Name pm_Content pm_ToolCalls pm_ToolCallID].
  rewrite (forallb_fmap_Forall _ _ _ Hp), (forallb_fmap_Forall _ _ _ E4), !length_fmap.
  rewrite (optional_identifier x2 128) by (apply orb_true_iff in C0 as [?|?]; [by left|right; by apply short_identifier]).
  rewrite (proj2 (Nat.leb_le _ maxMessageParts)) by (unfold maxMessageParts; lia).
  assert (is_empty x3 = false -> validateIdentifier x3 256 = true) as Hid by (intros He; rewrite He in C1; by apply extended_identifier).
  revert C2 C3 C4 C5 Hid. generalize (bool_decide (x !! "content" = None)), (length x5 =? 0)%nat, (length x4 =? 0)%nat, (is_empty x3), (validateIdentifier x3 256).
  cbn [existsb] in C. clear -C. intros [] [] [] [] v; repeat (apply orb_true_iff in C as [C|C]); try done; apply String.eqb_eq in C as ->;
    vm_compute; try done; intros _ _ _ _ H; by rewrite H.
Qed.

(** ** Tools *)
Lemma tools_ok_ext tools : forall seen seen' : list string, (forall n, n ∈ seen <-> n ∈ seen') -> tools_ok tools seen = tools_ok tools seen'.
Proof.
  induction tools as [|t tools IH]; intros seen seen' Hs; [done|]. cbn [tools_ok]. rewrite (IH (tool_Name t :: seen) (tool_Name t :: seen')) by set_solver.
  by rewrite (bool_decide_ext (tool_Name t ∈ seen) (tool_Name t ∈ seen')) by apply Hs.
Qed.

Lemma validDescription_ok s : trimmed_utf8 s = true -> len s <= 4096 -> validDescription s = true.
Proof. intros H1 H2. unfold validDescription. rewrite H1. by apply Z.leb_le. Qed.

Lemma parse_tools_ok values : forall seen index tools, parse_tools seen index values = Ok tools ->
  tools_ok (normalizeTools tools) (elements seen) = true /\ length tools = length values.
Proof.
  induction values as [|value values IH]; intros seen index tools H; cbn [parse_tools] in H; parsed_hyps; [done|].
  apply IH in E0 as [Ht Hl]. split; [|simpl; congruence]. unfold parseTool in E. parsed_hyps. destruct (x4 !! "parameters"); parsed_hyps.
  text_hyps.
  cbn [normalizeTools fmap list_fmap tools_ok tool_Name tool_Description tool_InputSchema pl_Name pl_Description pl_Parameters] in *.
  rewrite (tools_ok_ext _ _ (elements ({[x6]} ∪ seen))) by set_solver. rewrite (bool_decide_ext _ (x6 ∈ seen)) by set_solver.
  prop_hyps. prop_goal; try done. by apply validDescription_ok.
Qed.

Lemma parseTools_ok raw tools : parseTools raw = Ok tools -> validateTools (normalizeTools tools) = true.
Proof.
  unfold parseTools, validateTools. destruct (Nat.eqb (length raw) 0); intros H; parsed_hyps; [done|]. prop_hyps.
  apply parse_tools_ok in H as [Ht Hl]. unfold normalizeTools in *. rewrite length_fmap, Hl. unfold maximumChatTools, maxTools in *.
  by rewrite elements_empty in Ht; rewrite Ht, andb_true_r.
Qed.

Lemma containsTool_normalized tools name : existsb (fun t => String.eqb (tool_Name t) name) (normalizeTools tools) = containsTool tools name.
Proof. unfold containsTool, normalizeTools. induction tools as [|t tools IH]; [done|]. cbn. by rewrite IH. Qed.

Lemma parseToolChoice_ok raw tools choice : parseToolChoice raw tools = Ok choice -> validateToolChoice (normalizeToolChoice choice) (normalizeTools tools) = true.
Proof.
  unfold parseToolChoice. destruct (Nat.eqb (length raw) 0); intros H; [by parsed_hyps|]. destruct (decode_string raw) as [mode|]; parsed_hyps.
  - cbn [normalizeToolChoice fmap option_fmap option_map validateToolChoice choice_Mode choice_Name px_Mode px_Name].
    unfold normalizeTools. rewrite length_fmap. revert C0. generalize (Nat.eqb (length tools) 0) as none. cbn [existsb] in C.
    intros none; repeat (apply orb_true_iff in C as [C|C]); try done; apply String.eqb_eq in C as ->; by destruct none.
  - prop_hyps. cbn [normalizeToolChoice fmap option_fmap option_map validateToolChoice choice_Mode choice_Name px_Mode px_Name].
    replace (to_mode "named") with ToolChoiceNamed by reflexivity. rewrite containsTool_normalized, H0.
    replace (toolNamePattern x4) with true by exact (eq_sym H). done.
Qed.

(** ** Response format and stops *)
Lemma parseResponseFormat_ok raw format : parseResponseFormat raw = Ok format -> validateResponseFormat (normalizeResponseFormat format) = true.
Proof.
  unfold parseResponseFormat. destruct (Nat.eqb (length raw) 0); intros H; [by parsed_hyps|]. parsed_hyps.
  destruct (String.eqb x0 "text" || String.eqb x0 "json_object") eqn:Et; parsed_hyps.
  { cbn. apply orb_true_iff in Et as [Et|Et]; by apply String.eqb_eq in Et as ->. }
  destruct (String.eqb x0 "json_schema"); [|done]. parsed_hyps. unfold json_schema_format in E1. parsed_hyps.
  destruct (x3 !! "schema"); [|done]. parsed_hyps. text_hyps. cbn [normalizeResponseFormat fmap option_fmap option_map validateResponseFormat fmt_Type fmt_Name fmt_Description fmt_Schema pf_Type pf_Name pf_Description pf_Schema].
  replace (to_format "json_schema") with ResponseFormatJSONSchema by reflexivity. rewrite validDescription_ok by done.
  by prop_goal.
Qed.

Lemma stops_ok_ext stop : forall seen seen' : list string, (forall n, n ∈ seen <-> n ∈ seen') -> stops_ok stop seen = stops_ok stop seen'.
Proof.
  induction stop as [|s stop IH]; intros seen seen' Hs; [done|]. cbn [stops_ok]. rewrite (IH (s :: seen) (s :: seen')) by set_solver.
  by rewrite (bool_decide_ext (s ∈ seen) (s ∈ seen')) by apply Hs.
Qed.

Lemma check_stops_ok stop : Forall (fun s => valid_utf8 s = true) stop -> forall index seen, check_stops stop index seen = Ok tt -> stops_ok stop (elements seen) = true.
Proof.
  induction 1 as [|s stop Hs _ IH]; intros index seen H; cbn [check_stops] in H; [done|]. parsed_hyps. apply IH in H. prop_hyps. cbn [stops_ok].
  rewrite (stops_ok_ext _ _ (elements ({[s]} ∪ seen))) by set_solver. rewrite H, Hs. prop_goal; try done. set_solver.
Qed.

Lemma decode_strings_text raw stop : decode_strings raw = Some stop -> Forall (fun s => valid_utf8 s = true) stop.
Proof.
  unfold decode_strings. destruct (decode_items raw) as [items|]; [|done]. cbn [mbind option_bind]. intros H%mapM_Some.
  induction H as [|item s items stop Hi _ IH]; constructor; [by eapply valid_utf8_text, decode_string_text|done].
Qed.

Lemma parseStop_ok raw stop : parseStop raw = Ok stop -> validateStop stop = true.
Proof.
  unfold parseStop, validateStop. destruct (_ || _); intros H; [by parsed_hyps|]. destruct (decode_string raw) as [s|] eqn:Ed; parsed_hyps; prop_hyps.
  - apply decode_string_text, valid_utf8_text in Ed. cbn. rewrite Ed. prop_goal; first [done|set_solver].
  - apply decodeJSON_Ok, decode_strings_text in E. apply (check_stops_ok _ E) in E0. rewrite elements_empty in E0. rewrite E0, andb_true_r.
    by unfold maximumChatStops in *.
Qed.

(** ** The whole request *)
Lemma optionalFloat_ok o field minimum maximum exclusive v : optionalFloat o field minimum maximum exclusive = Ok v ->
  validateFinitePointer v = true /\ match v with Some f => SFltb f minimum = false /\ SFltb maximum f = false | None => True end.
Proof.
  unfold optionalFloat. destruct (o !! field) as [raw|]; intros H; parsed_hyps; [|done]. prop_hyps. apply decodeJSON_Ok in E.
  split; [|done]. unfold decode_float in E. destruct (json_decode raw) as [[]|]; try done; [by injection E as <-|].
  unfold ParseFloat in E. apply bind_Some in E as ([[s m] e] & _ & E). destruct (decimal_float s m e); by simplify_eq.
Qed.

Lemma optionalPositiveInteger_ok o field v : optionalPositiveInteger o field = Ok v -> match v with Some n => 0 <? n | None => true end = true.
Proof. unfold optionalPositiveInteger. destruct (o !! field); intros H; by parsed_hyps. Qed.

Lemma parsed_request_valid o parsed requestID : parseChatRequestObject o = Ok parsed -> validateIdentifier requestID 128 = true ->
  NormalizedRequest_Validate (normalized_request parsed requestID) = true.
Proof.
  unfold parseChatRequestObject. intros H Hid. parsed_hyps. unfold NormalizedRequest_Validate.
  cbn [normalized_request req_RequestID req_LogicalModel req_EndUserReference req_Messages req_Stream req_Temperature req_TopP req_MaxOutputTokens
    req_Stop req_Tools req_ToolChoice req_ResponseFormat req_PolicyLabels req_ProviderOptions pq_Model pq_User pq_Messages pq_Stream pq_Temperature
    pq_TopP pq_MaxCompletionTokens pq_Stop pq_Tools pq_ToolChoice pq_ResponseFormat].
  rewrite Hid, (short_identifier _ C).
  unfold parseMessages in E1. parsed_hyps. apply (parse_each_Forall _ _ _ parseMessage_ok) in E1 as [Hm Hl].
  apply optionalFloat_ok in E3 as [Ht _]. apply optionalFloat_ok in E4 as [Hp Hr]. apply parseStop_ok in E6. apply parseTools_ok in E7.
  apply parseToolChoice_ok in E8. apply parseResponseFormat_ok in E9. text_hyps. prop_hyps. rewrite !length_fmap, Hl.
  prop_goal; try done.
  - unfold validateEndUserReference. apply orb_true_iff in C1 as [C1|C1]; apply orb_true_iff; [by left|right]. prop_hyps. by prop_goal.
  - by apply forallb_fmap_Forall.
  - unfold validateProbability. rewrite Hp. destruct x4 as [f|]; [|done]. destruct Hr as [-> ->]. done.
  - by eapply optionalPositiveInteger_ok.
Qed.

Lemma parse_body_object encoded parsed : parse_body encoded = Ok parsed -> exists o, decode_map encoded = Some (Some o) /\ parseChatRequestObject o = Ok parsed.
Proof.
  unfold parse_body. intros H. parsed_hyps. destruct (validateJSONShape encoded); [done|]. destruct (decode_map encoded) as [[o|]|]; try done. by exists o.
Qed.

Lemma parsed_from_body ParseMediaType r parsed : parseChatCompletionRequest ParseMediaType r = Ok parsed -> parse_body (hr_Body r) = Ok parsed.
Proof.
  unfold parseChatCompletionRequest. destruct (validateChatMediaType _ _); [done|]. destruct (validateChatContentEncoding _); [done|].
  intros H. parsed_hyps. unfold read_body in E. destruct (_ <? _); [done|]. destruct (hr_Broken r); [done|]. by injection E as ->.
Qed.

(** C5: A request that the parser accepts becomes a valid provider-neutral request. With a
    well-formed correlation identity its normalisation fails only for a bad idempotency
    key, and then with a public error of status 400: a request is never accepted by the
    parser and answered as an internal error. *)
Theorem accepted_requests_normalise ParseMediaType r parsed requestID :
  parseChatCompletionRequest ParseMediaType r = Ok parsed -> validateIdentifier requestID 128 = true ->
  match normalizeChatCompletionRequest parsed requestID (hr_IdempotencyKeys r) with
  | Ok n => NormalizedRequest_Validate (nq_ProviderRequest n) = true /\ nq_ProviderRequest n = normalized_request parsed requestID /\
      (nq_IdempotencyKey n = ""%string \/ idempotencyKeyPattern (nq_IdempotencyKey n) = true)
  | Err (KeyRejected e) => exists d, e = Some d /\ definition_ok d = true /\ ed_Status d = 400
  | Err NormalizeFailed => False
  end.
Proof.
  intros (o & _ & Hp)%parsed_from_body%parse_body_object Hid. pose proof (parsed_request_valid _ _ _ Hp Hid) as Hv.
  assert (exists d, idempotencyKeyRejected = KeyRejected (Some d) /\ definition_ok d = true /\ ed_Status d = 400) as (d & Hrejected & Hd) by (vm_compute; eauto).
  unfold normalizeChatCompletionRequest. destruct requestID as [|a requestID]; [done|]. replace (is_empty (String a requestID)) with false by reflexivity. cbn [negb].
  destruct (hr_IdempotencyKeys r) as [|key [|]]; cbn [normalizeIdempotencyKey result_bind]; rewrite ?Hrejected; [by rewrite Hv; auto| |by exists d].
  destruct (bool_decide (TrimSpace key = key) && idempotencyKeyPattern key) eqn:Ek; cbn [result_bind]; [|by exists d]. prop_hyps. rewrite Hv. by auto.
Qed.

(** ** Rejected chat requests (src/internal/gateway/chat_request.go)

    A rejection is shown to the client through [apierror.MustNew], which panics when the
    error is not well formed. The parser's field paths are short enough for it; the path of
    a repeated name, which the shape check builds at any depth, is not bounded. *)
(** ** Paths *)
Definition param_char : char_class := or_class alnum (one_of "_.[]-").
Definition path_ok (n : nat) (s : string) : Prop := all_chars param_char s = true /\ (String.length s <= n)%nat.

Lemma path_le n m s : path_ok n s -> (n <= m)%nat -> path_ok m s.
Proof. intros [? ?] ?. split; [done|lia]. Qed.
Lemma path_app n m s t : path_ok n s -> path_ok m t -> path_ok (n + m) (s +:+ t).
Proof. intros [H1 H2] [H3 H4]. split; [by rewrite all_chars_app, H1, H3|rewrite string_app_length; lia]. Qed.
Lemma path_lit s : all_chars param_char s = true -> path_ok (String.length s) s.
Proof. by split. Qed.

(** The decimal digits of an index. *)
Lemma pretty_go_digits x : forall s, all_chars digit s = true -> all_chars digit (pretty_N_go x s) = true.
Proof.
  induction (N.lt_wf_0 x) as [x _ IH]. intros s Hs. destruct (decide (0 < x)%N) as [Hx|Hx].
  - rewrite pretty_N_go_step by done. apply IH; [by apply N.div_lt|]. cbn. rewrite Hs, andb_true_r.
    assert (x `mod` 10 < 10)%N as Hm by (by apply N.mod_lt). destruct (x `mod` 10)%N as [|p]; [done|]. do 4 (destruct p; try done).
  - replace x with 0%N by lia. by rewrite pretty_N_go_0.
Qed.

Lemma pretty_digits (n : nat) : all_chars digit (pretty n) = true.
Proof. unfold pretty, pretty_nat, pretty, pretty_N. destruct (decide _); [done|]. by apply pretty_go_digits. Qed.

Lemma item_path_chars path index : all_chars param_char path = true -> all_chars param_char (item_path path index) = true.
Proof.
  intros H. unfold item_path. rewrite !all_chars_app, H. cbn [andb]. rewrite (all_chars_impl digit param_char (pretty index)); [done| |apply pretty_digits].
  intros a Ha. unfold param_char, or_class, alnum, or_class. by rewrite Ha, !orb_true_r.
Qed.

Lemma small_index_length n : (n < 1024)%nat -> (String.length (pretty n) <= 4)%nat.
Proof.
  intros Hn. assert (forallb (fun n => Nat.leb (String.length (pretty n)) 4) (seq 0 1024) = true) as H by (vm_compute; reflexivity).
  rewrite forallb_forall in H. apply Nat.leb_le, H, in_seq. lia.
Qed.

Lemma path_item n path index : path_ok n path -> (index < 1024)%nat -> path_ok (n + 6) (item_path path index).
Proof.
  intros [H1 H2] Hi. split; [by apply item_path_chars|]. unfold item_path. rewrite !string_app_length. pose proof (small_index_length _ Hi).
  cbn [String.length]. lia.
Qed.

Lemma safe_segment s : safeParameterSegmentPattern s = true -> path_ok 64 s.
Proof.
  unfold safeParameterSegmentPattern. intros H. prop_hyps. apply Nat.leb_le in H1. split; [|done]. revert H0. apply all_chars_impl.
  intros a. unfold param_char, or_class. destruct (alnum a); [done|]. cbn. unfold one_of.
  destruct a as [[] [] [] [] [] [] [] []]; vm_compute; done.
Qed.

Lemma appendSafe_chars path segment : all_chars param_char path = true -> all_chars param_char (appendSafeParameter path segment) = true.
Proof.
  intros H. unfold appendSafeParameter. destruct (safeParameterSegmentPattern segment) eqn:E; [|done]. apply safe_segment in E as [E _].
  cbn [negb]. destruct (is_empty path); [done|]. by rewrite !all_chars_app, H, E.
Qed.

Lemma path_append n path segment : path_ok n path -> path_ok (n + 65) (appendSafeParameter path segment).
Proof.
  intros [H1 H2]. split; [by apply appendSafe_chars|]. unfold appendSafeParameter.
  destruct (safeParameterSegmentPattern segment) eqn:E; cbn [negb]; [|lia]. apply safe_segment in E as [_ E].
  destruct (is_empty path); [lia|]. rewrite !string_app_length. cbn [String.length]. lia.
Qed.

(** ** Presentable problems *)
Definition presentable (p : requestProblem) : Prop :=
  exists d, publicError p = Some d /\ definition_ok d = true /\ ed_Status d = pb_status p /\ ed_Code d = pb_code p /\ ed_Param d = pb_param p.
Definition presents {T : Type} (r : checked T) : Prop := forall p, r = Err p -> presentable p.

Lemma path_plain n s : path_ok n s -> all_chars plain s = true.
Proof. intros [H _]. revert H. apply all_chars_impl. intros a. destruct a as [[] [] [] [] [] [] [] []]; vm_compute; done. Qed.

Lemma presentable_with status code message param :
  presentable (newRequestProblem status code message "") -> path_ok 128 param -> presentable (newRequestProblem status code message param).
Proof.
  intros (d & Hd & Hok & Hs & Hc & _) Hp. unfold presentable, publicError, MustNew, NewError in *. cbn [newRequestProblem pb_status pb_code pb_message pb_param] in *.
  destruct (definition_ok (trimmed_definition _)) eqn:E; [|done]. injection Hd as <-. clear Hok.
  unfold trimmed_definition in *. cbn [ed_Status ed_Code ed_Message ed_Type ed_Param ed_Retryable ed_RetryAfter] in *.
  rewrite (TrimSpace_plain _ (path_plain _ _ Hp)). unfold definition_ok in E.
  cbn [ed_Status ed_Code ed_Message ed_Type ed_Param ed_Retryable ed_RetryAfter] in E.
  match goal with |- exists d, (if ?b then _ else _) = _ /\ _ => assert (b = true) as Eb end.
  { unfold definition_ok. cbn [ed_Status ed_Code ed_Message ed_Type ed_Param ed_Retryable ed_RetryAfter]. prop_hyps. prop_goal; try done.
    destruct param as [|a param]; [done|]. apply orb_true_iff. right. destruct Hp as [H1' H2']. prop_goal; [by apply Nat.leb_le|].
    unfold paramPattern. cbn [String.length Nat.leb andb]. exact H1'. }
  rewrite Eb. eexists. split; [reflexivity|]. done.
Qed.

(** The problems of the parser: a fixed kind and a short path. *)
Ltac fixed_kind := eexists; split; [vm_compute; reflexivity|vm_compute; done].
Ltac presentable_kind := apply presentable_with; [fixed_kind|].

Lemma missing_presentable field : path_ok 128 field -> presentable (missingField field).
Proof. intros. by presentable_kind. Qed.
Lemma type_presentable field : path_ok 128 field -> presentable (invalidType field).
Proof. intros. by presentable_kind. Qed.
Lemma parameter_presentable field : path_ok 128 field -> presentable (invalidParameter field).
Proof. intros. by presentable_kind. Qed.
Lemma json_presentable : presentable invalidJSON.
Proof. fixed_kind. Qed.

Lemma presents_bind {T U : Type} (r : checked T) (k : T -> checked U) : presents r -> (forall x, presents (k x)) -> presents (result_bind r k).
Proof. intros Hr Hk p. destruct r as [x|e]; [apply Hk|]. intros [= ->]. by apply Hr. Qed.
Lemma presents_ensure {T : Type} (c : bool) e (k : checked T) : presentable e -> (c = true -> presents k) -> presents (ensure c else e in k).
Proof. intros He Hk p. destruct c; [by apply Hk|]. by intros [= <-]. Qed.
Lemma presents_Ok {T : Type} (x : T) : presents (Ok x : checked T).
Proof. done. Qed.
Lemma presents_Err {T : Type} e : presentable e -> presents (Err e : checked T).
Proof. by intros ? ? [= <-]. Qed.

Ltac path_term :=
  lazymatch goal with
  | |- path_ok _ (_ +:+ _) => apply path_app; path_term
  | |- path_ok _ _ => first [eassumption | apply path_lit; vm_compute; reflexivity]
  end.
Ltac path := eapply path_le; [path_term|cbn [String.length Nat.add]; lia].

(** One step through a parser. *)
Ltac present_step :=
  lazymatch goal with
  | |- presents (result_bind _ _) => apply presents_bind; [|intros ?]
  | |- presents (if _ then _ else Err _) => apply presents_ensure; [|intros ?]
  | |- presents (Ok _) => apply presents_Ok
  | |- presents (Err _) => apply presents_Err
  | |- presents (match ?x with _ => _ end) => destruct x
  | |- presentable (missingField _) => apply missing_presentable; path
  | |- presentable (invalidType _) => apply type_presentable; path
  | |- presentable (invalidParameter _) => apply parameter_presentable; path
  end.

Lemma decodeJSON_presents {T : Type} (decoder : list Z -> option T) raw field : path_ok 128 field -> presents (decodeJSON decoder raw field).
Proof. intros. unfold decodeJSON. repeat present_step. Qed.
Lemma decodeObject_presents raw field : path_ok 128 field -> presents (decodeObject raw field).
Proof. intros. unfold decodeObject. repeat present_step. by apply decodeJSON_presents. Qed.
Lemma requiredString_presents o key field : path_ok 128 field -> presents (requiredString o key field).
Proof. intros. unfold requiredString. repeat present_step. by apply decodeJSON_presents. Qed.
Lemma optionalString_presents o key maximum allowEmpty : path_ok 128 key -> presents (optionalString o key maximum allowEmpty).
Proof. intros. unfold optionalString. repeat present_step. by apply decodeJSON_presents. Qed.
Lemma optionalFloat_presents o field minimum maximum exclusive : path_ok 128 field -> presents (optionalFloat o field minimum maximum exclusive).
Proof. intros. unfold optionalFloat. repeat present_step. by apply decodeJSON_presents. Qed.
Lemma optionalInteger_presents o field : path_ok 128 field -> presents (optionalPositiveInteger o field).
Proof. intros. unfold optionalPositiveInteger. repeat present_step. by apply decodeJSON_presents. Qed.
Lemma rawObject_presents raw field maximum : path_ok 128 field -> presents (validateRawObject raw field maximum).
Proof. intros. unfold validateRawObject. repeat present_step. by apply decodeObject_presents. Qed.
Lemma unknown_presents o path allowed : path_ok 63 path -> presents (rejectUnknownFields o path allowed).
Proof.
  intros H. unfold rejectUnknownFields. repeat present_step. presentable_kind. eapply path_le; [by apply path_append|lia].
Qed.

(** A problem of an optional field is moved to its full path. *)
Lemma problemWithPath_presents o key maximum allowEmpty path : path_ok 128 path -> presents (problemWithPath (optionalString o key maximum allowEmpty) path).
Proof.
  intros Hp. unfold optionalString, decodeJSON. destruct (o !! key) as [raw|]; [|done].
  destruct (decode_string raw); cbn [result_bind problemWithPath]; [destruct (_ && _); [done|]|]; intros p [= <-]; by presentable_kind.
Qed.

Ltac present :=
  repeat first [present_step
    | apply decodeJSON_presents; path | apply decodeObject_presents; path | apply requiredString_presents; path | apply problemWithPath_presents; path
    | apply optionalString_presents; path | apply optionalFloat_presents; path | apply optionalInteger_presents; path
    | apply rawObject_presents; path | apply unknown_presents; path].

(** ** Each parser *)
Lemma parse_each_presents {T : Type} (parse : RawMessage -> string -> checked T) n field :
  (forall raw path, path_ok (n + 6) path -> presents (parse raw path)) -> path_ok n field ->
  forall values index, (index + length values <= 1024)%nat -> presents (parse_each parse field index values).
Proof.
  intros Hp Hf. induction values as [|value values IH]; intros index Hi; cbn [parse_each length] in *; [done|].
  apply presents_bind; [apply Hp, path_item; [done|lia]|intros x]. apply presents_bind; [apply IH; lia|done].
Qed.

Lemma part_presents raw field : path_ok 40 field -> presents (parseContentPart raw field).
Proof. intros H. unfold parseContentPart. present. Qed.

Lemma count_bound {A : Type} (values : list A) n : Nat.leb 1 (length values) && Nat.leb (length values) n = true -> (n <= 1024)%nat -> (0 + length values <= 1024)%nat.
Proof. intros H Hn. prop_hyps. apply Nat.leb_le in H0. lia. Qed.

Lemma content_presents raw field : path_ok 34 field -> presents (parseMessageContent raw field).
Proof.
  intros H. unfold parseMessageContent. present. eapply (parse_each_presents _ 34); [intros; by apply part_presents|done|].
  eapply count_bound; [done|]. unfold maximumChatMessages. lia.
Qed.

Lemma call_presents raw field : path_ok 40 field -> presents (parseToolCall raw field).
Proof. intros H. unfold parseToolCall. present. Qed.

Lemma calls_presents raw field : path_ok 34 field -> presents (parseToolCalls raw field).
Proof.
  intros H. unfold parseToolCalls. present. eapply (parse_each_presents _ 34); [intros; by apply call_presents|done|].
  eapply count_bound; [done|]. unfold maximumChatTools. lia.
Qed.

Lemma message_presents raw field : path_ok 20 field -> presents (parseMessage raw field).
Proof.
  intros H. unfold parseMessage. present.
  - unfold message_calls. present. apply calls_presents. path.
  - unfold message_content. present. apply content_presents. path.
Qed.

Lemma messages_presents raw : presents (parseMessages raw).
Proof.
  unfold parseMessages. present. eapply (parse_each_presents _ 14); [intros; by apply message_presents|path|].
  eapply count_bound; [done|]. unfold maximumChatMessages. lia.
Qed.

Lemma tool_presents seen raw field : path_ok 40 field -> presents (parseTool seen raw field).
Proof. intros H. unfold parseTool. present. Qed.

Lemma tools_presents raw : presents (parseTools raw).
Proof.
  unfold parseTools. destruct (Nat.eqb (length raw) 0); [done|]. present.
  assert (forall values seen index, (index + length values <= 1024)%nat -> presents (parse_tools seen index values)) as Hall.
  { induction values as [|value values IH]; intros seen index Hi; cbn [parse_tools length] in *; [done|].
    apply presents_bind; [|intros ?; apply presents_bind; [apply IH; lia|done]].
    apply tool_presents. eapply path_le; [apply (path_item 5)|lia]; [path|lia]. }
  apply Hall. eapply count_bound; [done|]. unfold maximumChatTools. lia.
Qed.

Lemma choice_presents raw tools : presents (parseToolChoice raw tools).
Proof. unfold parseToolChoice. destruct (Nat.eqb (length raw) 0); [done|]. present. Qed.

Lemma format_presents raw : presents (parseResponseFormat raw).
Proof.
  unfold parseResponseFormat, json_schema_format. destruct (Nat.eqb (length raw) 0); [done|]. present.
Qed.

Lemma check_stops_presents stop : forall index seen, (index + length stop <= 1024)%nat -> presents (check_stops stop index seen).
Proof.
  induction stop as [|s stop IH]; intros index seen Hi; cbn [check_stops length] in *; [done|].
  apply presents_ensure; [|intros _]. { apply parameter_presentable. eapply path_le; [apply (path_item 4)|lia]; [path|lia]. }
  apply presents_ensure; [apply parameter_presentable; path|intros _]. apply IH. lia.
Qed.

Lemma stop_presents raw : presents (parseStop raw).
Proof.
  unfold parseStop. destruct (_ || _); [done|]. present. apply check_stops_presents. eapply count_bound; [done|]. unfold maximumChatStops. lia.
Qed.

Lemma object_presents o : presents (parseChatRequestObject o).
Proof.
  unfold parseChatRequestObject. present.
  all: first [apply messages_presents|apply stop_presents|apply tools_presents|apply choice_presents|apply format_presents|idtac].
  - presentable_kind. path.
  - apply optionalInteger_presents. destruct (has_field o "max_tokens"); path.
Qed.

(** ** The shape check *)
Definition shape_problem (path : string) (r : option (checked TokenDecoder)) : Prop :=
  forall p, r = Some (Err p) -> p = invalidJSON \/ exists path', p = duplicateField path' /\ all_chars param_char path' = true.

Lemma scan_problems fuel : forall d path, all_chars param_char path = true ->
  shape_problem path (scanJSONValue fuel d path) /\ (forall seen, shape_problem path (scan_members fuel d path seen)) /\
  (forall index, shape_problem path (scan_items fuel d path index)).
Proof.
  induction fuel as [|fuel IH]; intros d path Hp; [by split_and!|]. split_and!.
  - cbn [scanJSONValue]. destruct (next_token d) as [[[c| |] d']|]; intros p; try (intros [= <-]; by left); [|done..].
    destruct (c =? 123); [apply (IH d' path Hp)|]. destruct (c =? 91); [apply (IH d' path Hp)|]. intros [= <-]. by left.
  - intros seen. cbn [scan_members]. destruct (More d).
    + destruct (next_token d) as [[[c|key|] d']|]; intros p; try (intros [= <-]; by left). pose proof (appendSafe_chars path key Hp) as Hk.
      case_bool_decide; [intros [= <-]; right; eauto|]. destruct (IH d' _ Hk) as [Hv _].
      destruct (scanJSONValue fuel d' _) as [[d2|e]|] eqn:E; [apply (IH d2 path Hp)|intros [= <-]; by apply Hv|done].
    + destruct (next_token d) as [[[c| |] d']|]; intros p; try (intros [= <-]; by left). destruct (c =? 125); [done|]. intros [= <-]. by left.
  - intros index. cbn [scan_items]. destruct (More d).
    + destruct (IH d _ (item_path_chars path index Hp)) as [Hv _]. intros p.
      destruct (scanJSONValue fuel d _) as [[d2|e]|] eqn:E; [apply (IH d2 path Hp)|intros [= <-]; by apply Hv|done].
    + destruct (next_token d) as [[[c| |] d']|]; intros p; try (intros [= <-]; by left). destruct (c =? 93); [done|]. intros [= <-]. by left.
Qed.

Lemma duplicate_presentable path : path_ok 128 path -> presentable (duplicateField path).
Proof. intros. by presentable_kind. Qed.

Lemma shape_presents encoded p : validateJSONShape encoded = Some p -> presentable p \/ exists path, p = duplicateField path /\ (128 < String.length path)%nat.
Proof.
  unfold validateJSONShape. destruct (scan_problems (2 * length encoded + 2) (new_decoder encoded) "" eq_refl) as [Hv _].
  destruct (scanJSONValue _ _ _) as [[d|e]|]; [destruct (at_eof d)|..]; try done; intros [= <-]; try (left; exact json_presentable).
  destruct (Hv e eq_refl) as [->|(path & -> & Hp)]; [left; exact json_presentable|].
  destruct (decide (String.length path <= 128)%nat); [left; by apply duplicate_presentable|right; exists path; split; [done|lia]].
Qed.

(** A rejected request is answered with a well-formed public error that carries the
    problem's status, code and field, unless the problem is a repeated name whose path is
    longer than an error may carry. *)
Theorem rejections_are_presentable ParseMediaType r p :
  parseChatCompletionRequest ParseMediaType r = Err p ->
  (exists d, publicError p = Some d /\ definition_ok d = true /\ ed_Status d = pb_status p /\ ed_Code d = pb_code p /\ ed_Param d = pb_param p) \/
  (exists path, p = duplicateField path /\ (128 < String.length path)%nat).
Proof.
  unfold parseChatCompletionRequest, validateChatMediaType.
  destruct (ParseMediaType _) as [m|]; [destruct (EqualFold m _)|];
    try (by intros [= <-]; left; fixed_kind).
  unfold validateChatContentEncoding. destruct (_ || _); [|by intros [= <-]; left; fixed_kind].
  destruct (_ <=? _); [|by intros [= <-]; left; fixed_kind].
  unfold read_body. destruct (_ <? _); [by intros [= <-]; left; fixed_kind|].
  destruct (hr_Broken r); [by intros [= <-]; left; fixed_kind|]. cbn [result_bind].
  unfold parse_body. destruct (_ && _); [|intros [= <-]; left; exact json_presentable].
  destruct (validateJSONShape _) as [q|] eqn:Es; [intros [= <-]; by apply shape_presents in Es|].
  destruct (decode_map _) as [[o|]|]; try (intros [= <-]; left; exact json_presentable). intros H. left. by eapply object_presents.
Qed.

(** A body whose repeated name lies deep enough makes the construction of the rejection
    panic. *)
Definition long_name (c : ascii) : string := foldr (fun _ s => String c s) EmptyString (seq 0 64).
Definition deep_duplicate : list Z := json_text ("{'" +:+ long_name "a" +:+ "':{'" +:+ long_name "b" +:+ "':{'c':1,'c':2}}}").

Lemma deep_duplicate_panics : exists p, parse_body deep_duplicate = Err p /\ publicError p = None.
Proof. eexists. split; [vm_compute; reflexivity|vm_compute; reflexivity]. Qed.
