(* ===== verification/GatewayHandler.v ===== *)
(** * The data-plane handlers (src/internal/gateway/chat_request.go, handler.go, models.go)

    The chat handler from the parsed HTTP request to its answer, with the record it starts,
    the route it selects and the execution it delegates to, and the model list. The
    authenticated principal and the correlation identities come from the request's context.
    A definition that [apierror.MustNew] refuses makes the handler panic.

    Then: every handled request is accounted for. *)
From Stdlib Require Import ZArith Lia Bool Ascii String.
From stdpp Require Import base tactics option list strings gmap.
From S2P Require Import Prelude Identifiers Unicode Encoding ApiError Correlation JSON Catalog RoutePolicy Retry Metering Execution Adapter RouteFilter RouteDecision GatewayOutcome GatewayFailover ChatRequest KeyAuth Postgres JSONDecode ExecutionStore ExecutionTheorems GatewayExecution ChatRequestTheorems.
(** ** Answers *)
Inductive http_answer :=
| Problem (status : Z) (detail : ErrorDetail) (retryAfter : option Z) (allow : string)
| Completion (response : chatCompletionResponse)
| Panicked.

(** [apierror.WriteHTTP] of an error without a public error, and of a constructed one. *)
Definition write_internal (requestID : string) : http_answer :=
  let '(status, detail, retryAfter) := WriteHTTP None requestID "gateway_error" in Problem status detail retryAfter "".
Definition write_error (allow : string) (requestID : string) (e : option ErrorDefinition) : http_answer :=
  match e with
  | Some d => let '(status, detail, retryAfter) := WriteHTTP (Some d) requestID "gateway_error" in Problem status detail retryAfter allow
  | None => Panicked
  end.

(** ** The request's context *)
Record RequestContext := { cx_principal : option Principal; cx_correlation : option CorrelationFields }.
Definition cx_RequestID (cx : RequestContext) : string := match cx_correlation cx with Some f => cf_RequestID f | None => "" end.

(** ** The recorder's intake, next to the services of the execution *)
Class Intake (W : Type) := {
  in_StartRequest : W -> StartRequest -> W * result GatewayRequest exec_error;
  in_MarkRouting : W -> GatewayRequest -> W * result GatewayRequest exec_error }.

(** Which dependencies the handler was given; a decision recorder comes with the recorder. *)
Record ChatHandler := { hd_selector : bool; hd_executor : bool; hd_recorder : bool; hd_failover : option Failover }.

(** [NewHandler] and the executable constructors. *)
Definition NewHandler (selectors : list bool) : option ChatHandler :=
  match selectors with
  | [] => Some {| hd_selector := false; hd_executor := false; hd_recorder := false; hd_failover := None |}
  | [given] => if given then Some {| hd_selector := true; hd_executor := false; hd_recorder := false; hd_failover := None |} else None
  | _ => None
  end.
Definition newExecutableHandlerWithFailover (selector executor recorder decisionRecorder : bool) (options : ChatFailoverOptions) (estimator : bool) : option ChatHandler :=
  if selector && executor && recorder && decisionRecorder && ChatFailoverOptions_Validate options then
    Some {| hd_selector := true; hd_executor := true; hd_recorder := true; hd_failover := Some {| fv_options := options; fv_estimator := estimator |} |}
  else None.

Definition zero_request : GatewayRequest :=
  {| gr_ID := ""; gr_TenantID := ""; gr_ProjectID := ""; gr_VirtualKeyID := ""; gr_LogicalModel := ""; gr_TraceID := ""; gr_SpanID := "";
     gr_Status := RequestStatusOther ""; gr_AttemptCount := 0; gr_StartedAt := 0; gr_EndedAt := None; gr_EndReason := ""; gr_Version := 0; gr_UpdatedAt := 0 |}.

Definition methodError : option ErrorDefinition :=
  publicError (newRequestProblem 405 "METHOD_NOT_ALLOWED" "The HTTP method is not allowed for this resource" "").
Definition notImplemented : option ErrorDefinition :=
  MustNew (gateway_definition 501 "CHAT_EXECUTION_NOT_IMPLEMENTED" "Chat execution is not implemented yet" "gateway_error" "" false 0).
Definition streamingNotImplemented : option ErrorDefinition :=
  MustNew (gateway_definition 501 "CHAT_STREAMING_NOT_IMPLEMENTED" "Streaming chat execution is not implemented yet" "gateway_error" "" false 0).

Section Handler.
Context {W : Type} `{!Services W} `{!Intake W} (ParseMediaType : string -> option string) (h : ChatHandler).

(** ** Recording (execution_record.go) *)
Definition start_request (p : Principal) (f : CorrelationFields) (n : normalizedChatRequest) : StartRequest :=
  {| start_ID := cf_RequestID f; start_TenantID := pr_TenantID p; start_ProjectID := pr_ProjectID p; start_VirtualKeyID := pr_VirtualKeyID p;
     start_LogicalModel := req_LogicalModel (nq_ProviderRequest n); start_TraceID := cf_TraceID f; start_SpanID := cf_SpanID f |}.

Definition startExecutionRecord (w : W) (cx : RequestContext) (n : normalizedChatRequest) : W * result GatewayRequest exec_error :=
  match cx_principal cx, cx_correlation cx with
  | Some p, Some f => in_StartRequest w (start_request p f n)
  | _, _ => (w, Err ErrExecInvalid)
  end.

(** [finalizeRequestFailure] under the request's own context: the error and the two facts
    that [errors.Is] finds in it. *)
Definition finalize_request (w : W) (request : GatewayRequest) (cancelled noCandidate : bool) (e : option ErrorDefinition) : W * option ErrorDefinition :=
  let '(status, reason) :=
    if cancelled || bool_decide (sv_parent w = Some Canceled) then (RequestCancelled, "client_cancelled"%string)
    else (RequestFailed, if noCandidate then "model_unavailable"%string else "routing_failed"%string) in
  let '(w, r) := sv_FailRequest w request status reason in
  (w, match r with Ok _ => e | Err _ => executionRecordPublicError end).

(** The same when there may be no recorder. *)
Definition finalize_if_recorded (w : W) (request : GatewayRequest) (cancelled noCandidate : bool) (e : option ErrorDefinition) : W * option ErrorDefinition :=
  if hd_recorder h then finalize_request w request cancelled noCandidate e else (w, e).

(** ** Routes *)
Definition routeSelectionRequest (cx : RequestContext) (n : normalizedChatRequest) : result SelectionRequest (option ErrorDefinition) :=
  match cx_principal cx with
  | Some p =>
      Ok {| sel_Access := {| access_TenantID := pr_TenantID p; access_ProjectID := pr_ProjectID p; KeyAllowedModels := pr_AllowedModels p |};
            sel_Request := nq_ProviderRequest n; ExcludedDeploymentIDs := [] |}
  | None => Err routeUnavailable
  end.

(** A failed selection as the error it becomes, with what [errors.Is] finds in it. *)
Record route_failure := { rf_public : option ErrorDefinition; rf_cancelled : bool; rf_noCandidate : bool }.
Definition plain_failure (e : option ErrorDefinition) : route_failure := {| rf_public := e; rf_cancelled := false; rf_noCandidate := false |}.
Definition selection_failure (e : select_error) : route_failure :=
  {| rf_public := routeSelectionPublicError e; rf_cancelled := select_cancelled e; rf_noCandidate := no_candidate e |}.

Definition selectInitialRoute (w : W) (cx : RequestContext) (n : normalizedChatRequest) : W * result Selection route_failure :=
  if negb (hd_selector h) then (w, Err (plain_failure routeUnavailable))
  else match routeSelectionRequest cx n with
       | Err e => (w, Err (plain_failure e))
       | Ok request =>
           let '(w, r) := sv_Select w request in
           (w, match r with Ok s => Ok s | Err f => Err (selection_failure (SelectionFailed f)) end)
       end.

(** ** Without an executor: the route is selected and the request refused *)
Definition select_only (w : W) (cx : RequestContext) (requestID : string) (n : normalizedChatRequest) (recorded : GatewayRequest) : W * http_answer :=
  let '(w, r) := selectInitialRoute w cx n in
  match r with
  | Err f => let '(w, e) := finalize_if_recorded w recorded (rf_cancelled f) (rf_noCandidate f) (rf_public f) in (w, write_error "" requestID e)
  | Ok _ =>
      if hd_recorder h then
        let '(w, r) := sv_FailRequest w recorded RequestFailed "execution_not_implemented" in
        (w, write_error "" requestID (match r with Ok _ => notImplemented | Err _ => executionRecordPublicError end))
      else (w, write_error "" requestID notImplemented)
  end.

(** ** Streaming: the route is selected and recorded, and the request refused *)
Definition stream_refused (w : W) (requestID : string) (recorded : GatewayRequest) : W * http_answer :=
  if hd_recorder h then
    let '(w, r) := sv_FailRequest w recorded RequestFailed "streaming_not_implemented" in
    (w, write_error "" requestID (match r with Ok _ => streamingNotImplemented | Err _ => executionRecordPublicError end))
  else (w, write_error "" requestID streamingNotImplemented).

Definition stream_route_failed (w : W) (requestID : string) (recorded : GatewayRequest) (e : select_error) : W * http_answer :=
  if hd_recorder h then
    match e with
    | DecisionNotRecorded =>
        let '(w, _) := sv_FailRequest w recorded RequestFailed "route_decision_record_unavailable" in (w, write_error "" requestID executionRecordPublicError)
    | _ =>
        let '(w, e) := finalize_request w recorded (select_cancelled e) (no_candidate e) (routeSelectionPublicError e) in (w, write_error "" requestID e)
    end
  else (w, write_internal requestID).

Definition stream_request (w : W) (cx : RequestContext) (requestID : string) (n : normalizedChatRequest) (recorded : GatewayRequest) : W * http_answer :=
  match routeSelectionRequest cx n with
  | Err e =>
      let '(w, e) := if hd_recorder h then finalize_request w recorded false false routeUnavailable else (w, e) in (w, write_error "" requestID e)
  | Ok request =>
      if negb (hd_selector h && hd_recorder h) then stream_route_failed w requestID recorded SelectInvalid
      else
        let '(w, r) := selectAndRecordRoute w (gr_ID recorded) (gr_AttemptCount recorded + 1) request None in
        match r with
        | Err e => stream_route_failed w requestID recorded e
        | Ok _ => stream_refused w requestID recorded
        end
  end.

(** ** Execution; [deadline] is the one of the execution context. *)
Definition execute_request (w : W) (deadline : Time) (cx : RequestContext) (requestID : string) (n : normalizedChatRequest) (recorded : GatewayRequest) : W * http_answer :=
  match routeSelectionRequest cx n with
  | Err e => let '(w, e) := finalize_if_recorded w recorded false false e in (w, write_error "" requestID e)
  | Ok request =>
      match hd_failover h with
      | None => (w, write_error "" requestID (chatExecutionPublicError FailoverInvalid))
      | Some fv =>
          match Failover_Execute fv (Z.to_nat (fo_MaximumAttempts (fv_options fv))) w deadline request recorded (nq_ProviderRequest n) requestID with
          | (w, Some (Ok response)) => (w, Completion response)
          | (w, Some (Err e)) => (w, write_error "" requestID (chatExecutionPublicError e))
          | (w, None) => (w, Panicked)
          end
      end
  end.

(** The part after the record was started. *)
Definition routed_request (w : W) (deadline : Time) (cx : RequestContext) (requestID : string) (n : normalizedChatRequest) (recorded : GatewayRequest) : W * http_answer :=
  if negb (hd_executor h) then select_only w cx requestID n recorded
  else if req_Stream (nq_ProviderRequest n) then stream_request w cx requestID n recorded
  else execute_request w deadline cx requestID n recorded.

Definition recorded_request (w : W) (deadline : Time) (cx : RequestContext) (requestID : string) (n : normalizedChatRequest) : W * http_answer :=
  if negb (hd_recorder h) then routed_request w deadline cx requestID n zero_request
  else
    let '(w, r) := startExecutionRecord w cx n in
    match r with
    | Err _ => (w, write_error "" requestID executionRecordPublicError)
    | Ok request =>
        let '(w, r) := in_MarkRouting w request in
        match r with
        | Err _ => (w, write_error "" requestID executionRecordPublicError)
        | Ok recorded => routed_request w deadline cx requestID n recorded
        end
    end.

(** [newChatCompletionsHandler] *)
Definition chat_completions (w : W) (deadline : Time) (cx : RequestContext) (r : ChatHTTPRequest) : W * http_answer :=
  let requestID := cx_RequestID cx in
  if negb (String.eqb (hr_Method r) "POST") then (w, write_error "POST" requestID methodError)
  else match parseChatCompletionRequest ParseMediaType r with
       | Err problem => (w, write_error "" requestID (publicError problem))
       | Ok parsed =>
           match normalizeChatCompletionRequest parsed requestID (hr_IdempotencyKeys r) with
           | Err (KeyRejected e) => (w, write_error "" requestID e)
           | Err NormalizeFailed => (w, write_internal requestID)
           | Ok n => recorded_request w deadline cx requestID n
           end
       end.
End Handler.

(** ** The model list (models.go) *)
Definition modelOwner : string := "ai-gateway".
Record AvailableModel := { am_Name : string; am_Capabilities : list string }.
Record modelResponse := { mr_ID : string; mr_Object : string; mr_OwnedBy : string; mr_Capabilities : list string }.
Record modelListResponse := { ml_Object : string; ml_Data : list modelResponse }.

Definition writeCatalogUnavailable (requestID : string) : http_answer :=
  write_error "" requestID (MustNew (gateway_definition 503 "MODEL_CATALOG_UNAVAILABLE" "The model catalog is temporarily unavailable" "gateway_error" "" true second)).

Definition project_model (m : AvailableModel) : modelResponse :=
  {| mr_ID := am_Name m; mr_Object := "model"; mr_OwnedBy := modelOwner; mr_Capabilities := am_Capabilities m |}.

(** [newModelsHandler]; [catalog] is [ListAvailable] under one access scope. *)
Definition models (catalog : Access -> option (list AvailableModel)) (cx : RequestContext) (method : string) : result modelListResponse http_answer :=
  ensure String.eqb method "GET"
    else write_error "GET" (cx_RequestID cx)
      (MustNew (gateway_definition 405 "METHOD_NOT_ALLOWED" "The HTTP method is not allowed for this resource" "invalid_request_error" "" false 0)) in
  match cx_principal cx with
  | None => Err (writeCatalogUnavailable (cx_RequestID cx))
  | Some p =>
      match catalog {| access_TenantID := pr_TenantID p; access_ProjectID := pr_ProjectID p; KeyAllowedModels := pr_AllowedModels p |} with
      | None => Err (writeCatalogUnavailable (cx_RequestID cx))
      | Some available => Ok {| ml_Object := "list"; ml_Data := project_model <$> available |}
      end
  end.

(** ** Routes of the mux (handler.go): which handler serves a path, and whether the
    authenticator stands in front of it. The most specific pattern wins. *)
Inductive endpoint := ModelsEndpoint | ChatEndpoint | NotFoundEndpoint.
Definition serve_path (path : string) : endpoint * bool :=
  if String.eqb path "/v1/models" then (ModelsEndpoint, true)
  else if String.eqb path "/v1/chat/completions" then (ChatEndpoint, true)
  else (NotFoundEndpoint, String.prefix "/v1/" path).
Definition not_found (requestID : string) : http_answer :=
  write_error "" requestID (MustNew (gateway_definition 404 "NOT_FOUND" "The requested resource was not found" "invalid_request_error" "" false 0)).

(** ** Every handled request is accounted for

    The chat handler over a recorder that keeps its promise ([DurableRecorder] with the
    intake of [DurableIntake]): whatever is sent and whatever fails, the answer and the
    record agree. The PostgreSQL recorder is an instance. *)
(** What the recorder promises about new requests. *)
Class DurableIntake (W : Type) `{DurableRecorder W} `{!Intake W} := {
  intake_keeps_start : forall w start, rec_ok w -> rec_ok (in_StartRequest w start).1;
  intake_keeps_mark : forall w request, rec_ok w -> rec_ok (in_MarkRouting w request).1;
  intake_started : forall w start request, rec_ok w -> (in_StartRequest w start).2 = Ok request -> gr_ID request = start_ID start;
  intake_marked : forall w request marked, rec_ok w -> (in_MarkRouting w request).2 = Ok marked ->
    gr_ID marked = gr_ID request /\ gr_Status marked = RequestRouting /\ 0 <= gr_AttemptCount marked }.

Section Accounted.
Context {W : Type} `{!Services W} `{!ServiceLaws W} `{!DurableRecorder W} `{!Intake W} `{!DurableIntake W}.
Context (ParseMediaType : string -> option string) (h : ChatHandler) (fv : Failover).
Hypothesis Hexec : hd_executor h = true.
Hypothesis Hrec : hd_recorder h = true.
Hypothesis Hsel : hd_selector h = true.
Hypothesis Hfv : hd_failover h = Some fv.
Hypothesis Hopts : ChatFailoverOptions_Validate (fv_options fv) = true.
Implicit Types w : W.

Definition record_code : string := "EXECUTION_RECORD_UNAVAILABLE".

(** An error that cannot be presented: the executor returned it with a delay of less than a
    millisecond, or an interrupted wait did return it. *)
Definition panics_with (err : Failure) : Prop :=
  executionPublicError err = None /\
  ((exists w selection request d after, (sv_Execute w selection request).2.2 = Some err /\ as_provider err = Some d /\ ne_RetryAfter d = Some after /\ after < millisecond) \/
   exists w delay, (sv_wait w delay).2 = Some err).

(** An answer to a request that was recorded. *)
Definition accounts (id : string) (w : W) (a : http_answer) : Prop :=
  rec_ok w /\
  match a with
  | Completion _ => rec_status w id = Some RequestSucceeded
  | Problem _ detail _ _ => dt_RequestID detail = id /\ (dt_Code detail = record_code \/ ended_badly (rec_status w id))
  | Panicked => ended_badly (rec_status w id) /\ exists err, panics_with err
  end.

Lemma error_names_request allow id e : match write_error allow id e with Problem _ detail _ _ => dt_RequestID detail = id | _ => True end.
Proof using Type. by destruct e. Qed.

Lemma ended_accounts id w allow e : rec_ok w -> ended_badly (rec_status w id) -> (e = None -> exists err, panics_with err) -> accounts id w (write_error allow id e).
Proof using Type. intros Hw Hb Hn. split; [done|]. destruct e as [d|]; [cbn; auto|]. cbn. auto. Qed.

Lemma record_accounts id w : rec_ok w -> accounts id w (write_error "" id executionRecordPublicError).
Proof using Type. intros Hw. split; [done|]. vm_compute write_error. cbn. split; [done|]. by left. Qed.

(** A terminal failure and the answer that goes with it. *)
Lemma failed_accounts w recorded status reason w' r e : rec_ok w -> is_Some e -> failure_ok status = true -> sv_FailRequest w recorded status reason = (w', r) ->
  accounts (gr_ID recorded) w' (write_error "" (gr_ID recorded) (match r with Ok _ => e | Err _ => executionRecordPublicError end)).
Proof using Type.
  intros Hw [d ->] Hs E. destruct (fail_agrees w recorded status reason w' r (RoutingFailed SelectInvalid) Hw Hs E) as [Hw' Ha].
  destruct r as [[]|]; [by apply ended_accounts|by apply record_accounts].
Qed.

Lemma finalize_accounts w recorded cancelled noCandidate e w' e' : rec_ok w -> is_Some e -> finalize_request w recorded cancelled noCandidate e = (w', e') ->
  accounts (gr_ID recorded) w' (write_error "" (gr_ID recorded) e').
Proof using Type.
  intros Hw He. unfold finalize_request. destruct (if cancelled || _ then _ else _) as [status reason] eqn:Es.
  assert (failure_ok status = true) as Hs by (destruct (cancelled || _); by injection Es as <- _).
  destruct (sv_FailRequest w recorded status reason) as [w1 r] eqn:E. intros [= <- <-]. eapply failed_accounts; [exact Hw|exact He| |exact E]; done.
Qed.

Lemma selection_presented cause : is_Some (routeSelectionPublicError cause).
Proof using Type. unfold routeSelectionPublicError. destruct (no_candidate cause); by vm_compute; eexists. Qed.

Lemma stream_accounts w cx n recorded w' a : rec_ok w -> stream_request h w cx (gr_ID recorded) n recorded = (w', a) -> accounts (gr_ID recorded) w' a.
Proof using Hrec Hsel.
  intros Hw. unfold stream_request, stream_route_failed, stream_refused. rewrite Hrec, Hsel. cbn [negb andb].
  destruct (routeSelectionRequest cx n) as [request|e].
  - pose proof (select_keeps w (gr_ID recorded) (gr_AttemptCount recorded + 1) request None Hw) as H1.
    destruct (selectAndRecordRoute w _ _ request None) as [w1 r]. cbn [fst] in H1. destruct r as [s|e].
    + destruct (sv_FailRequest w1 recorded RequestFailed _) as [w2 r] eqn:E. intros [= <- <-]. eapply failed_accounts; [exact H1|by vm_compute; eexists| |exact E]; done.
    + assert (forall cause w3 e3, finalize_request w1 recorded (select_cancelled cause) (no_candidate cause) (routeSelectionPublicError cause) = (w3, e3) ->
        accounts (gr_ID recorded) w3 (write_error "" (gr_ID recorded) e3)) as Hfin by (intros cause w3 e3; apply finalize_accounts; [done|apply selection_presented]).
      destruct e; [destruct (sv_FailRequest w1 recorded RequestFailed _) as [w2 r] eqn:E|destruct (finalize_request w1 _ _ _ _) as [w2 r] eqn:E..];
        intros [= <- <-]; [|by eapply Hfin..].
      apply record_accounts. pose proof (kept w1 _ (serves_fail w1 recorded RequestFailed "route_decision_record_unavailable") H1) as Hk. by rewrite E in Hk.
  - destruct (finalize_request w recorded false false routeUnavailable) as [w1 e1] eqn:E. intros [= <- <-]. eapply finalize_accounts; [exact Hw| |exact E]. by vm_compute; eexists.
Qed.

(** Where the errors of the loop come from: an attempt fails with an error of the executor or
    with a response that cannot be projected, a wait with what interrupted it; a call that was
    accepted is not refused any more. *)
Definition arises (answer : result chatCompletionResponse failover_error) : Prop :=
  match answer with
  | Err FailoverInvalid => False
  | Err (AttemptFailure cause) => cause = Leaf ProxyErrProtocol \/ exists w selection request, (sv_Execute w selection request).2.2 = Some cause
  | Err (WaitFailure cause) => exists w delay, (sv_wait w delay).2 = Some cause
  | _ => True
  end.
Definition turn_arises (t : turn) : Prop := match t with Finished answer => arises answer | Again _ _ _ => True end.

Lemma finish_arises w recorded attempt outcome answer w' t : finish_with w recorded attempt outcome answer = (w', t) -> arises answer -> turn_arises t.
Proof using Type. unfold finish_with. destruct (sv_CompleteAttempt w _ _ _) as [v1 r]. intros [= _ <-] Ha. by destruct r. Qed.

Lemma continue_arises w request recorded tried cause d w' t : arises (Err (AttemptFailure cause)) -> continue w request recorded tried cause d = (w', t) -> turn_arises t.
Proof using Type.
  intros Hc. unfold continue, failRetryRequest. destruct (sv_wait w _) as [w1 interrupted] eqn:Ew. destruct interrupted as [failure|].
  - destruct (match sv_parent w1 with Some _ => _ | None => _ end) as [st reason]. destruct (sv_FailRequest w1 _ _ _) as [w2 r]. intros [= _ <-]. destruct r; [|done].
    exists w, (d_RequiredDelayMS d * millisecond). by rewrite Ew.
  - destruct (selectNext w1 _ _ _ _) as [w2 next]. destruct next as [s|e]; [by intros [= _ <-]|].
    destruct e; [|destruct (no_candidate _)..]; destruct (sv_FailRequest w2 _ _ _) as [w3 r]; intros [= _ <-]; by destruct r.
Qed.

Lemma round_arises w deadline request p id recorded selection tried w' t : round fv w deadline request p id recorded selection tried = (w', t) -> turn_arises t.
Proof using Type.
  unfold round. destruct (sv_StartAttempt w _ _) as [w1 started]. destruct started as [[recorded' attempt]|]; [|destruct (sv_FailRequest w1 _ _ _); by intros [= _ <-]].
  destruct (sv_Execute w1 _ _) as [w2 [result err]] eqn:Ex. destruct (withLocalUsageEstimate fv w2 _ _ _ _) as [w3 result'].
  assert (match (match err with Some e => Err e | None => match projectChatCompletion result' (req_LogicalModel p) id (gr_AttemptCount recorded') with Some projected => Ok projected | None => Err (Leaf ProxyErrProtocol) end end) with
    | Ok _ => True | Err cause => arises (Err (AttemptFailure cause)) end) as Hc.
  { destruct err as [cause|]; [right; exists w1, selection, p; by rewrite Ex|]. destruct (projectChatCompletion _ _ _ _); [done|by left]. }
  destruct (match err with Some e => Err e | None => _ end) as [projected|attemptErr]; [intros H; by eapply finish_arises|].
  unfold attempt_failed. destruct (sv_now w3) as [w4 now]. destruct (Classify _) as [d|]; [|intros H; by eapply finish_arises].
  destruct (recordRetryDecision w4 _ _ d) as [w5 k]. destruct (negb k); [intros H; by eapply finish_arises|]. case_bool_decide; [intros H'; by eapply finish_arises|]. cbv zeta.
  destruct (sv_CompleteAttemptForRetry w5 _ _ _) as [w6 r]. destruct r; [|by intros [= _ <-]]. by apply continue_arises.
Qed.

Lemma rounds_arise fuel : forall w deadline request p id recorded selection tried w' answer,
  rounds fv fuel w deadline request p id recorded selection tried = (w', Some answer) -> arises answer.
Proof using Type.
  induction fuel as [|fuel IH]; intros w deadline request p id recorded selection tried w' answer; [done|]. cbn [rounds].
  destruct (round fv w deadline request p id recorded selection tried) as [w1 t] eqn:E. apply round_arises in E. destruct t; [by intros [= _ <-]|apply IH].
Qed.

Lemma Execute_arises fuel w deadline request recorded p id w' answer : accepts_call request recorded p id = true ->
  Failover_Execute fv fuel w deadline request recorded p id = (w', Some answer) -> arises answer.
Proof using Type.
  intros Ha. unfold accepts_call in Ha. unfold Failover_Execute, finalizeRequestFailure.
  apply andb_true_iff in Ha as [[[[H1 H2]%andb_true_iff H3%negb_true_iff]%andb_true_iff H4%negb_true_iff]%andb_true_iff H5]. rewrite H1, H2, H3, H4, H5. cbn [negb orb].
  destruct (selectAndRecordRoute w _ _ request None) as [w1 selected]. destruct selected as [s|e]; [apply rounds_arise|].
  destruct e; [|destruct (_ || _)..]; destruct (sv_FailRequest w1 _ _ _) as [w2 r]; intros [= _ <-]; by destruct r.
Qed.

(** An error of the loop that cannot be presented. *)
Lemma arisen_panics e : arises (Err e) -> chatExecutionPublicError e = None -> exists err, panics_with err.
Proof using ServiceLaws0.
  destruct e as [| |cause|cause|cause]; cbn [arises chatExecutionPublicError]; intros Ha Hn; [done|done|by destruct (selection_presented cause) as [? E]; rewrite E in Hn| |].
  - destruct Ha as [->|(w & selection & request & Hx)]; [by vm_compute in Hn|]. exists cause. split; [done|]. left.
    destruct (sv_Execute w selection request) as [w' [response err]] eqn:Ex. cbn [snd] in Hx. subst err.
    destruct (unpresentable_delay cause (law_detail _ _ _ _ _ _ Ex) Hn) as (d & after & ?). exists w, selection, request, d, after. by rewrite Ex.
  - exists cause. split; [done|]. by right.
Qed.

Lemma execute_accounts w deadline cx n recorded w' a : rec_ok w -> NormalizedRequest_Validate (nq_ProviderRequest n) = true ->
  req_Stream (nq_ProviderRequest n) = false -> gr_ID recorded <> ""%string -> gr_Status recorded = RequestRouting -> 0 <= gr_AttemptCount recorded ->
  execute_request h w deadline cx (gr_ID recorded) n recorded = (w', a) -> accounts (gr_ID recorded) w' a.
Proof using All.
  intros Hw Hv Hs Hid Hstatus Hcount. unfold execute_request, finalize_if_recorded. rewrite Hrec, Hfv. destruct (routeSelectionRequest cx n) as [request|e] eqn:Er.
  - assert (accepts_call request recorded (nq_ProviderRequest n) (gr_ID recorded) = true) as Hacc.
    { unfold routeSelectionRequest in Er. destruct (cx_principal cx); [|done]. injection Er as <-. unfold accepts_call. cbn [sel_Request].
      rewrite Hv, Hs. unfold is_empty. by rewrite bool_decide_eq_false_2, bool_decide_eq_true_2. }
    unfold ChatFailoverOptions_Validate in Hopts. prop_hyps.
    destruct (Execute_follows fv (Selecting (gr_AttemptCount recorded) [] None) (Z.to_nat (fo_MaximumAttempts (fv_options fv))) (w, []) deadline request recorded
      (nq_ProviderRequest n) (gr_ID recorded)) as ([w1 log] & answer & b & Erun & _); try done; [lia|lia|].
    destruct (erase_run_log fv (Z.to_nat (fo_MaximumAttempts (fv_options fv))) w [] deadline request recorded (nq_ProviderRequest n) (gr_ID recorded)) as [E1 E2].
    rewrite Erun in E1, E2. cbn [fst snd] in E1, E2.
    pose proof (fun w' answer => Execute_arises (Z.to_nat (fo_MaximumAttempts (fv_options fv))) w deadline request recorded _ _ w' answer Hacc) as Hinv.
    destruct (Failover_Execute fv _ w deadline request recorded _ _) as [w2 a2] eqn:Eplain. cbn [fst snd] in E1, E2. subst w2 a2.
    destruct (Execute_agrees fv _ _ _ _ _ _ _ _ _ Hw Eplain) as [Hw1 Hag]. destruct answer as [response|e]; intros [= <- <-]; [by split|].
    pose proof (arisen_panics e (Hinv _ _ eq_refl)) as Hpanic. destruct e; [by destruct (Hinv _ _ eq_refl)|by apply record_accounts|by apply ended_accounts..].
  - destruct (finalize_request w recorded false false e) as [w1 e1] eqn:E. intros [= <- <-]. eapply finalize_accounts; [exact Hw| |exact E].
    unfold routeSelectionRequest in Er. destruct (cx_principal cx); [done|]. injection Er as <-. by vm_compute; eexists.
Qed.

Lemma request_not_empty r requestID parsed n : normalizeChatCompletionRequest parsed requestID (hr_IdempotencyKeys r) = Ok n ->
  requestID <> ""%string /\ NormalizedRequest_Validate (nq_ProviderRequest n) = true.
Proof using Type.
  unfold normalizeChatCompletionRequest. intros H. parsed_hyps. split; [|done]. intros ->. done.
Qed.

(** A body that repeats a name at a path longer than an error may carry. *)
Definition deep_path (r : ChatHTTPRequest) : Prop :=
  exists path, parseChatCompletionRequest ParseMediaType r = Err (duplicateField path) /\ (128 < String.length path)%nat.

Lemma key_presented parsed id keys e : normalizeChatCompletionRequest parsed id keys = Err (KeyRejected e) -> is_Some e.
Proof using Type.
  unfold normalizeChatCompletionRequest, normalizeIdempotencyKey, idempotencyKeyRejected. intros H. repeat (case_match; try done); injection H as <-; by vm_compute; eexists.
Qed.

(** The answer to any request and the record that it left. *)
Lemma handler_accounts w deadline cx r w' a : rec_ok w -> chat_completions ParseMediaType h w deadline cx r = (w', a) ->
  (w' = w /\ (a = Panicked /\ deep_path r \/ exists status detail after allow, a = Problem status detail after allow /\ dt_RequestID detail = cx_RequestID cx)) \/
  accounts (cx_RequestID cx) w' a.
Proof using All.
  intros Hw. unfold chat_completions.
  assert (forall allow e, is_Some e -> exists status detail after allow',
    write_error allow (cx_RequestID cx) e = Problem status detail after allow' /\ dt_RequestID detail = cx_RequestID cx) as Herr by (intros allow e [d ->]; by repeat eexists).
  destruct (negb _); [intros [<- <-]%pair_eq; left; split; [done|right; apply Herr; by vm_compute; eexists]|]. destruct (parseChatCompletionRequest ParseMediaType r) as [parsed|problem] eqn:Ep.
  2:{ intros [<- <-]%pair_eq. left. split; [done|]. destruct (rejections_are_presentable _ _ _ Ep) as [(d & Hd & _)|(path & -> & Hlong)]; [right; apply Herr; by eexists|].
      destruct (publicError (duplicateField path)) as [d|]; [right; by apply Herr|]. left. split; [done|]. by exists path. }
  destruct (normalizeChatCompletionRequest parsed _ _) as [n|[e|]] eqn:En; [|intros [<- <-]%pair_eq; left; split; [done|right; apply Herr; by eapply key_presented]|intros [<- <-]%pair_eq; left; split; [done|right; by repeat eexists]].
  apply request_not_empty in En as [Hid Hv]. unfold recorded_request. rewrite Hrec. cbn [negb].
  assert (rec_ok (startExecutionRecord w cx n).1 /\ forall request, (startExecutionRecord w cx n).2 = Ok request -> gr_ID request = cx_RequestID cx) as [Hw1 Hstart].
  { unfold startExecutionRecord, cx_RequestID. destruct (cx_principal cx) as [p|], (cx_correlation cx) as [f|]; try done.
    split; [by apply intake_keeps_start|]. intros request Hr. by apply intake_started in Hr. }
  destruct (startExecutionRecord w cx n) as [w1 started]. cbn [fst snd] in *. destruct started as [request|e]; [|intros [<- <-]%pair_eq; right; by apply record_accounts].
  pose proof (intake_keeps_mark w1 request Hw1) as Hw2. pose proof (fun m => intake_marked w1 request m Hw1) as Hmark.
  destruct (in_MarkRouting w1 request) as [w2 marked]. cbn [fst snd] in *. destruct marked as [recorded|e]; [|intros [<- <-]%pair_eq; right; by apply record_accounts].
  destruct (Hmark _ eq_refl) as (Hids & Hstatus & Hcount). rewrite (Hstart _ eq_refl) in Hids. rewrite <- Hids in *. unfold routed_request. rewrite Hexec. cbn [negb].
  destruct (req_Stream (nq_ProviderRequest n)) eqn:Es; intros Hrun; right; [by eapply stream_accounts|by eapply execute_accounts].
Qed.
End Accounted.

(** ** On the PostgreSQL recorder *)
Section RecordedHandler.
Context {E : Type} `{!Environment E} (refs : References).

#[local] Instance RecordedIntake : Intake (ExecDB * E) := {|
  in_StartRequest w start := with_db w (fun c => StartRequest_op refs (rc_faults c) w.1 start (rc_now c)) id;
  in_MarkRouting w request := with_db w (fun c => MarkRouting (rc_faults c) w.1 request (rc_now c)) id |}.

Lemma start_facts faults db start now request : (StartRequest_op refs faults db start now).2 = Ok request -> gr_ID request = start_ID start.
Proof using Type.
  unfold StartRequest_op. destruct (negb _); [done|]. intros H%committed_Ok. apply stmt_Ok in H. by apply insert_request_Ok in H as (_ & -> & _).
Qed.

Lemma mark_facts faults db request now marked : exec_inv db -> (MarkRouting faults db request now).2 = Ok marked ->
  gr_ID marked = gr_ID request /\ gr_Status marked = RequestRouting /\ 0 <= gr_AttemptCount marked.
Proof using Type.
  intros Hinv. unfold MarkRouting. destruct (negb _); [done|]. intros H%committed_Ok. apply stmt_Ok in H.
  apply update_request_Ok in H as (old & Hold & _ & -> & _ & _ & Hchecks). cbn [move_request gr_ID gr_Status gr_AttemptCount].
  split; [by eapply request_keyed; [apply Hinv|]|]. split; [done|]. unfold gateway_requests_checks in Hchecks. prop_hyps. cbn [move_request gr_AttemptCount] in *. lia.
Qed.

#[local] Program Instance Recorded_intake : DurableIntake (H := Recorded refs) (H0 := Recorded_durable refs) (ExecDB * E).
Next Obligation.
  intros w start Hr. cbn [in_StartRequest RecordedIntake]. match goal with |- rec_ok (with_db ?w ?op ?f).1 => destruct (with_db_cases w op f) as (c & E1 & _) end.
  change (exec_reachable refs (with_db w (fun c => StartRequest_op refs (rc_faults c) w.1 start (rc_now c)) id).1.1). rewrite E1. eapply rtc_r; [exact Hr|constructor].
Qed.
Next Obligation.
  intros w request Hr. match goal with |- rec_ok (in_MarkRouting ?w ?r).1 => destruct (with_db_cases w (fun c => MarkRouting (rc_faults c) w.1 r (rc_now c)) id) as (c & E1 & _) end.
  change (exec_reachable refs (with_db w (fun c => MarkRouting (rc_faults c) w.1 request (rc_now c)) id).1.1). rewrite E1. eapply rtc_r; [exact Hr|constructor].
Qed.
Next Obligation.
  intros w start request Hr. cbn [in_StartRequest RecordedIntake]. match goal with |- (with_db ?w ?op ?f).2 = _ -> _ => destruct (with_db_cases w op f) as (c & _ & ->) end.
  apply start_facts.
Qed.
Next Obligation.
  intros w request marked Hr. cbn [in_MarkRouting RecordedIntake]. match goal with |- (with_db ?w ?op ?f).2 = _ -> _ => destruct (with_db_cases w op f) as (c & _ & ->) end.
  apply mark_facts, (exec_reachable_inv _ _ Hr).
Qed.
End RecordedHandler.

(** C3: Every chat request is accounted for. On the PostgreSQL recorder in any state it can
    reach, whatever bytes are sent by whomever, with any selector, provider, estimator, clock
    and faults of the database, the executable handler ends in one of three ways. A completion
    is recorded as succeeded. An error carries the correlation identity of the request, and
    the request was not recorded at all, or is recorded as failed or cancelled, or recording
    failed and the error says so. The handler panics only while it presents an error, for one
    of two reasons: the body repeats a name at a path of more than 128 bytes, and then nothing
    was recorded; or an error has no public form, one that the executor returns in some state
    with a retry delay of less than a millisecond (or that an interrupted wait returns, which
    the errors of a context are not), and then the request is recorded as failed or
    cancelled. *)
Theorem handled_requests_are_recorded {E : Type} `{!Environment E} refs ParseMediaType options estimator h db e deadline cx r :
  exec_reachable refs db -> provider_validates -> newExecutableHandlerWithFailover true true true true options estimator = Some h ->
  exists db' e' answer,
    chat_completions (Services0 := Recorded refs) (Intake0 := RecordedIntake refs) ParseMediaType h (db, e) deadline cx r = ((db', e'), answer) /\
    exec_reachable refs db' /\
    let status := gr_Status <$> x_requests db' !! cx_RequestID cx in
    match answer with
    | Completion _ => status = Some RequestSucceeded
    | Problem _ detail _ _ => dt_RequestID detail = cx_RequestID cx /\
        (db' = db \/ dt_Code detail = "EXECUTION_RECORD_UNAVAILABLE"%string \/ status = Some RequestFailed \/ status = Some RequestCancelled)
    | Panicked =>
        db' = db /\ (exists path, parseChatCompletionRequest ParseMediaType r = Err (duplicateField path) /\ (128 < String.length path)%nat) \/
        (status = Some RequestFailed \/ status = Some RequestCancelled) /\
        exists err, executionPublicError err = None /\
          ((exists e1 selection request d after, (en_Execute e1 selection request).2.2 = Some err /\ as_provider err = Some d /\ ne_RetryAfter d = Some after /\ after < millisecond) \/
           exists e1 delay, (en_wait e1 delay).2 = Some err)
    end.
Proof.
  intros Hr Hp. unfold newExecutableHandlerWithFailover. cbn [andb]. destruct (ChatFailoverOptions_Validate options) eqn:Ho; [|done]. intros [= <-].
  destruct (chat_completions _ _ _ _ _ _) as [[db' e'] answer] eqn:Erun. exists db', e', answer. split; [done|].
  apply (handler_accounts (Services0 := Recorded refs) (ServiceLaws0 := Recorded_laws refs Hp) (DurableRecorder0 := Recorded_durable refs) (Intake0 := RecordedIntake refs)
    (DurableIntake0 := Recorded_intake refs) ParseMediaType _ {| fv_options := options; fv_estimator := estimator |}) in Erun as [[[= -> ->] Ha]|[Hr' Ha]]; try done.
  - split; [done|]. destruct Ha as [[-> Hp']|(status & detail & after & allow & -> & Hid)]; [by left|]. split; [done|by left].
  - split; [done|]. destruct answer; [destruct Ha as [? [?|?]]; split; auto|done|]. right. destruct Ha as [Hb (err & Hn & Hfrom)]. split; [exact Hb|]. exists err. split; [exact Hn|].
    destruct Hfrom as [(w & selection & request & d & after & Hx)|(w & delay & Hx)]; [left; by exists w.2, selection, request, d, after|right; by exists w.2, delay].
Qed.

(** ** A request from its bytes to its record *)
Module HandlerDemo.
Definition media_type (value : string) : option string := Some (cut_at ";" value).1.1.
Definition body : list Z :=
  json_text "{'model':'chat', 'messages':[{'role':'user','content':'hello'}], 'max_tokens':100, 'temperature':0.5}".
Definition http_request : ChatHTTPRequest :=
  {| hr_Method := "POST"; hr_ContentType := "application/json; charset=utf-8"; hr_ContentEncoding := ""; hr_ContentLength := 101; hr_Body := body;
     hr_Broken := false; hr_IdempotencyKeys := ["order-0001"] |}.
Definition caller : Principal :=
  {| pr_TenantID := start_TenantID Demo.start; pr_ProjectID := start_ProjectID Demo.start; pr_VirtualKeyID := start_VirtualKeyID Demo.start; pr_Prefix := "agw_live_x";
     pr_AllowedModels := None; pr_Limits := None |}.
Definition context : RequestContext :=
  {| cx_principal := Some caller;
     cx_correlation := Some {| cf_RequestID := start_ID Demo.start; cf_TraceID := start_TraceID Demo.start; cf_SpanID := start_SpanID Demo.start; cf_ParentSpanID := ""; cf_TraceFlags := "00"; cf_TraceState := "" |} |}.
Definition answering : Environment nat := {|
  en_Select e request := @en_Select nat ExecutionDemo.demo_environment e
    {| sel_Access := sel_Access (demo_request []); sel_Request := sel_Request request; ExcludedDeploymentIDs := ExcludedDeploymentIDs request |};
  en_Record := @en_Record nat ExecutionDemo.demo_environment;
  en_RecordRetry := @en_RecordRetry nat ExecutionDemo.demo_environment; en_Execute e _ _ := (e, (ExecutionDemo.reply, None));
  en_EstimateUsage := @en_EstimateUsage nat ExecutionDemo.demo_environment; en_now := @en_now nat ExecutionDemo.demo_environment;
  en_wait := @en_wait nat ExecutionDemo.demo_environment; en_context := @en_context nat ExecutionDemo.demo_environment;
  en_parent := @en_parent nat ExecutionDemo.demo_environment; en_recorder := @en_recorder nat ExecutionDemo.demo_environment |}.
#[local] Existing Instance answering.
Definition handler : ChatHandler :=
  {| hd_selector := true; hd_executor := true; hd_recorder := true; hd_failover := Some {| fv_options := DefaultChatFailoverOptions; fv_estimator := false |} |}.
End HandlerDemo.

#[local] Notation demo_run :=
  (chat_completions (Services0 := Recorded (Environment0 := HandlerDemo.answering) Demo.refs) (Intake0 := RecordedIntake (Environment0 := HandlerDemo.answering) Demo.refs)
    HandlerDemo.media_type HandlerDemo.handler (exec_start, 0%nat) (20 + 30 * second) HandlerDemo.context HandlerDemo.http_request).

Lemma demo_completes : exists response, demo_run.2 = Completion response.
Proof. vm_compute. eexists. reflexivity. Qed.

Lemma handled_requests_are_recorded_witness : exists db' e' response,
  demo_run = ((db', e'), Completion response) /\ gr_Status <$> x_requests db' !! "request-1"%string = Some RequestSucceeded.
Proof.
  destruct demo_completes as [response Hresponse].
  destruct (handled_requests_are_recorded (Environment0 := HandlerDemo.answering) Demo.refs HandlerDemo.media_type DefaultChatFailoverOptions false HandlerDemo.handler exec_start 0%nat
    (20 + 30 * second) HandlerDemo.context HandlerDemo.http_request (rtc_refl _ _) ltac:(intros e s q f; discriminate) eq_refl) as (db' & e' & answer & Hrun & _ & Hstatus).
  rewrite Hrun in Hresponse |- *. cbn [snd] in Hresponse. subst answer. exists db', e', response. split; [reflexivity|exact Hstatus].
Defined.

Lemma accepted_requests_normalise_witness : exists parsed n,
  parseChatCompletionRequest HandlerDemo.media_type HandlerDemo.http_request = Ok parsed /\
  normalizeChatCompletionRequest parsed "req-00000001" (hr_IdempotencyKeys HandlerDemo.http_request) = Ok n /\
  NormalizedRequest_Validate (nq_ProviderRequest n) = true /\ nq_IdempotencyKey n = "order-0001"%string.
Proof.
  destruct (parseChatCompletionRequest HandlerDemo.media_type HandlerDemo.http_request) as [parsed|] eqn:Ep; [|vm_compute in Ep; discriminate].
  pose proof (accepted_requests_normalise HandlerDemo.media_type HandlerDemo.http_request parsed "req-00000001" Ep ltac:(vm_compute; reflexivity)) as H.
  destruct (normalizeChatCompletionRequest parsed "req-00000001" (hr_IdempotencyKeys HandlerDemo.http_request)) as [n|e] eqn:En;
    [|vm_compute in Ep; injection Ep as <-; vm_compute in En; discriminate].
  exists parsed, n. split; [reflexivity|]. split; [exact En|]. split; [exact (proj1 H)|]. vm_compute in Ep. injection Ep as <-. vm_compute in En. injection En as <-. reflexivity.
Defined.

Lemma rejections_are_presentable_witness : exists p d,
  parseChatCompletionRequest HandlerDemo.media_type {| hr_Method := "POST"; hr_ContentType := "application/json"; hr_ContentEncoding := ""; hr_ContentLength := 40;
    hr_Body := json_text "{'model':'chat','messages':[{'role':'robot','content':'x'}]}"; hr_Broken := false; hr_IdempotencyKeys := [] |} = Err p /\
  publicError p = Some d /\ ed_Status d = 400 /\ ed_Param d = "messages[0].role"%string.
Proof.
  destruct (parseChatCompletionRequest HandlerDemo.media_type _) as [|p] eqn:Ep; [vm_compute in Ep; discriminate|].
  destruct (rejections_are_presentable HandlerDemo.media_type _ p Ep) as [(d & Hd & _ & Hs & _ & Hparam)|(path & -> & Hlong)].
  - exists p, d. split; [reflexivity|]. split; [exact Hd|]. rewrite Hs, Hparam. vm_compute in Ep. injection Ep as <-. split; reflexivity.
  - vm_compute in Ep. discriminate.
Defined.
